(* ===== verification/_CoqProject ===== *)
-Q . S2P
Prelude.v
Varuint.v
Streams.v
TimeConversions.v
TelemetryFormat.v
Archive.v
ArchiveTheory.v
Schema.v
SchemaTheory.v
SchemaTotal.v
ArchiveTyping.v
MappedBinaryReader.v
MappedTheory.v
MultiplexStream.v
Register.v
MicroServer.v
MicroServerSafety.v
RegisterServer.v
MicroStreamDatagram.v
DatagramTransport.v
AtomicEventQueue.v
Tokenizer.v
CString.v
FrameStream.v
Rs485FrameStream.v
Rs485Theory.v
FdcanusbFrameStream.v
FdcanusbText.v
FdcanusbTheory.v
SocketcanFrameStream.v
ExclusiveCommand.v
StreamAsioClient.v
ClientInvariant.v
ClientTheory.v
TextArchive.v
TextTheory.v
Json5.v
Json5Theory.v
Json5Format.v
Json5Roundtrip.v
Json5Total.v
Json5Properties.v
PoolMap.v
SerializableHandler.v
PersistentConfig.v
ConfigTheory.v
ConfigProperties.v
AsyncStreams.v
AsyncExclusiveTheory.v
StreamPipe.v
StreamPipeTheory.v
CommandManager.v
CommandTheory.v
TelemetryManager.v
TelemetryTheory.v
FileWriter.v
WriterThread.v
FileReader.v
LogFormat.v
FileWriterTheory.v
FileWriterOps.v
LogWriter.v
LogProperties.v
FileReaderTheory.v
LogReader.v
LogScan.v
LogIndex.v
LogRoundtrip.v
LogSeek.v
LogTotal.v
ClientProperties.v
ClientRegisters.v
ClientTunnel.v
Inifile.v
Containers.v
HostStreams.v
MultiplexTool.v
MultiplexToolProperties.v
EmitJson.v
LogDump.v
