(* ===== verification/Prelude.v ===== *)
(** * Mjlib: a verification library for mjbots/mjlib

    mjlib is the C++ base library of a motor controller and of the host
    programs that talk to it.  This library models the parts of it that carry
    its own logic and proves them correct.  File names below are relative to
    src/mjlib.

    ** The program and the files of this library

    Bytes.  [Varuint] is the byte format both protocols share, as their
    documents describe it: [vu_bytes], [vu_value], [vu_wf].  [Streams] has the
    abstract streams of base/stream.h as the classes [ReadStream] and
    [WriteStream], what their clients rely on as [ReadStreamLaws] and
    [WriteStreamLaws], and the streams of base/fast_stream.h, buffer_stream.h,
    crc_stream.h, recording_stream.h and null_stream.h, which meet those laws;
    everything above is proved for any stream that meets them.  [Tokenizer] is
    base/tokenizer.h, [TimeConversions] the integer half of
    base/time_conversions.cc.

    Telemetry.  [TelemetryFormat] is telemetry/format.h.  [Archive] has a
    universe [ctype] of the C++ types an archive can visit, with
    [BinaryWriteArchive.Visit] and [BinaryReadArchive.Visit] (the overloads of
    telemetry/binary_*_archive.h and of base/visit_archive.h);
    [ArchiveTheory] has the format ([bytes]) and the round trip, [ArchiveTyping]
    that any bytes leave an object of its class.  [Schema] is
    [BinarySchemaArchive] and telemetry/binary_schema_parser.cc;
    [SchemaTheory] has the format of schemas, what is parsed and what parsed
    elements skip; [SchemaTotal] that parsing ends.  [MappedBinaryReader] is
    telemetry/mapped_binary_reader.h, which reads a record by a schema other
    than that of the class; [MappedTheory] says which mapping of members by
    name that is.

    JSON5.  [Json5] is base/json5_read_archive.h, json5_write_archive.h and
    escape_json_string.cc over the same universe of types.  [Json5Theory] has
    the scanner: blanks, comments, numbers, strings; [Json5Format] what a text
    of a type is and the object it stands for ([merged]); [Json5Roundtrip]
    reads such texts, [Json5Total] any text, and [Json5Properties] has the
    theorems.  The text of floating-point numbers and calendar times is a
    parameter ([Json5Externals]) with its laws ([Json5Laws]).

    Logs.  [FileWriter] is telemetry/file_writer.cc with the queue of
    base/thread_writer.h: the buffers, the identifiers and every kind of block;
    the background thread is the step [BackgroundWrite], which may come between
    any two calls.  [WriterThread] has the threads of thread_writer.h by
    themselves: the flags, the pipe that wakes the thread up, the timer and the
    [FILE], one access at a time, and what holds over all their interleavings, and
    the one that ends badly, a handler of the timer that outlives the writer.
    [FileReader] is telemetry/file_reader.cc with base/file_stream.h over the contents of a file: opening, the index, the
    scan, the iteration over items, the reading of one and the search by time.
    [LogFormat] says what a log is: a [block] is abstract, [encode] are its
    bytes, [table] is what the positions of a list of blocks say about each
    record.  [FileWriterTheory] and [FileWriterOps] have what each operation
    writes, [LogWriter] the abstract writer that appends blocks
    ([spec_call]) and its refinement, [LogProperties] the life of a log from
    [Open] to [Close].  [FileReaderTheory] and [LogReader] have what is read
    off the bytes of a block, [LogScan] the scan over a list of them,
    [LogIndex] the index, [LogRoundtrip] writer and reader end to end,
    [LogSeek] the seek markers, and [LogTotal] that the reader ends on any
    file.  [EmitJson] is telemetry/emit_json.cc, which prints a record by its
    schema, against the text of the object ([json_text]), which is in the grammar
    of JSON ([json]) when the object is [jsonable]; [LogDump] is
    file_json_dump.cc, the program that prints a log.  The text of numbers with
    a floating point and of times, and base64, are parameters
    ([EmitExternals]) with their laws ([EmitLaws]).

    The multiplex protocol.  [MultiplexStream] is multiplex/format.h and
    stream.h: the generic reader and writer and the two specialisations that
    use a raw pointer.  [Register] is the client's side (frame.cc and
    register.cc), [MicroServer] the server's (micro_server.cc): a [State] with
    its tunnels, one definition a handler.  [RegisterServer] joins the two:
    the register service as a specification, the server as a refinement of
    it, and client and server end to end.  [MicroServerSafety] has the
    invariant of the server over every sequence of events.
    [MicroStreamDatagram] is micro_stream_datagram.cc, which finds frames in a
    byte stream, and [DatagramTransport] what it guarantees.

    The device.  [AtomicEventQueue] is micro/atomic_event_queue.h with every
    atomic access a step, so that all interleavings are covered.
    [AsyncStreams] has the operations on foreign streams: async_stream.h,
    async_read.h and async_exclusive.h, with the properties of exclusive access
    in [AsyncExclusiveTheory].  [CommandManager] is micro/command_manager.cc, a
    line of input at a time, between a read stream and a write stream it
    shares; [CommandTheory] shows that every line is answered.  Two managers
    offer commands on objects they know by the interface
    [SerializableHandlerBase] of micro/serializable_handler.h: it is in
    [SerializableHandler], with its contract [HandlerLaws], which the handler of
    any class meets by the theorems on archives and schemas; [PoolMap] is their
    table.  [PersistentConfig] is micro/persistent_config.cc with
    micro/flash.h; [ConfigTheory] has the contract of flash, the image in flash
    and its loading, [ConfigProperties] the properties of the commands.
    [TextArchive] is the text half of the handlers
    (micro/serializable_handler_detail.h), where an object's scalars are set,
    read and listed by dotted keys, and [TextTheory] what it guarantees.
    [TelemetryManager] is micro/telemetry_manager.cc, and [TelemetryTheory] its
    rates, turns and records.  [CString] has the functions of the C library
    that turn text into numbers.  [StreamPipe] is micro/stream_pipe.cc and
    event_queue.h, and [StreamPipeTheory] the bytes that go through the pipe
    and the order of the queue.

    The host.  [FrameStream] has what the three frame streams share: frames,
    the callbacks of reads and the stream over a streambuf of
    io/streambuf_read_stream.h.  [Rs485FrameStream], [FdcanusbFrameStream] and
    [SocketcanFrameStream] are multiplex/rs485_frame_stream.cc,
    fdcanusb_frame_stream.cc and socketcan_frame_stream.cc; [Rs485Theory] shows
    that the first refines a decoder of the whole byte string, [FdcanusbText]
    and [FdcanusbTheory] that the second refines the reading of the lines of the
    whole text.  [ExclusiveCommand] is io/exclusive_command.h, a mutex in terms
    of callbacks, with io/offset_buffer.h; [StreamAsioClient] is
    multiplex/stream_asio_client.cc, the client of registers and tunnels on top
    of a frame stream, each callback a value with what it captured.
    [ClientInvariant] has which read or write of a tunnel is where,
    [ClientTheory] a calculus of weakest preconditions for the client's monad,
    its invariant, and that each handler keeps it; [ClientProperties] the
    theorems about any run.  [ClientRegisters] puts the client, the bus and the
    servers of [MicroServer] together, and [ClientTunnel] a tunnel of the client
    and that of a server.  [MultiplexTool] is the
    register tool of multiplex/multiplex_tool.cc, with what a command spells and
    what is printed of a reply, and [MultiplexToolProperties] puts the tool, the client and the servers together.

    Smaller parts.  [Inifile] is base/inifile.cc, [Containers] the pool, the
    vector and the table of callbacks of micro and base/windowed_average.h, and [HostStreams] the pipes, copies and sequences of io
    (stream_pipe_factory.cc, stream_copy.h, async_sequence.cc); each file has its
    theorems.

    ** How code is modelled

    A call of the source is a function into [outcome] (below): a value, or a
    fault.  A failed assertion, an undefined operation (an access outside a
    buffer, an over-wide shift) and an exception are different faults, so "no
    fault" and "exactly this fault" can be stated.  Integers are [Z] with
    [uwrap w] and [swrap w] where the source's types wrap; a buffer is a
    [list byte] of fixed length, accessed by [load] and [store], which are
    undefined outside it.  A class with state is a record, a method a function
    on it; a callback or an operation started on a foreign object is an output
    in a list, and its completion a later call, as the source's event loop has
    it.  Objects of other libraries are parameters with named laws: boost's
    checksum ([CrcLaws]), its time types ([BoostTimeLaws], [LogClock]), snappy
    ([Snappy] with [SnappyLaws]), the flash hardware ([FlashLaws]), the
    application behind the server.

    ** What is shown

    - Round trips: varuints, varints and strings; a record of any visitable
      class; a schema into its element tree; a frame through the transport,
      however the stream cuts it, and through each of the host's frame streams;
      registers from the host's client to the servers of several devices and
      back, and from a line typed into the tool to the line it prints (every
      register that was asked for, once, unless an application refuses; of a read
      that fails only the failing register comes back); the bytes
      of a tunnel, both ways, for writes the device has room for and with what a
      reader's buffers have no room for lost;
      a configuration through flash; the data of a log, its index and its seek
      blocks; an object through JSON5; a scalar through its key.
    - Evolution: a record, or a JSON5 text, that was written from one class is
      read into another by the names of the members they share.
    - Refinements: the buffer specialisations against the generic templates,
      the server against the register service, the receiver against a scan of
      what was received, the writer of logs against a list of blocks, the command
      manager against the lines of its input, the host's frame streams against
      decoders of all that was received, the dump of a log against the text of
      the objects that were written to it, which is JSON for those JSON can carry.
    - Invariants and safety: the server over every sequence of events, the
      event queue over every interleaving, a frame that gets no answer, the
      identifiers of the records of a log, the holder of an exclusive stream,
      one telemetry record at a time, the bytes in a pipe, one operation at a
      time of the host's client and which events stop it, cancellations at any
      moment included, the commands of the tool in
      the order they are typed, the buffers of a writer over every interleaving of
      its threads; reading into an object keeps
      its type.
    - Liveness: the event queue drains; every channel of telemetry gets its
      turn; every handler given to the host's client is called, less
      those that cancellations are shown to drop; an operation
      that waits for an exclusive stream may not get it.
    - Errors and bounds: every outcome of [ReadVaruint], truncated records,
      answers that overflow the response buffer, frames that wedge the receiver,
      names that overflow the output buffer of [list], a seek block that the
      search misses, a command that responds early, arguments that are too
      long, integers of JSON5 with a base of their own, sizes on a serial line that
      are damaged, requests that time out, tunnels that are canceled while they
      have the lock or write, data that a tunnel of the server has no room for, seek
      blocks that the system's times do not bring about, a schema that is written
      again.
    - Termination: parsing of replies, schemas and JSON5 on any input, the
      reader of logs on any file, the destructor of a writer under any schedule;
      elsewhere the theorems say what is returned, so that fuel is seen to be
      enough.

    ** Fuel

    Loops without a structural measure take fuel, and running out is the
    fault [OutOfFuel], which no theorem tolerates.  [ReadVaruint] takes 11
    units, since an eleventh byte already is undefined; the loops over a
    frame, a reply or flash take one unit a byte, and one more, because an
    iteration takes at least a byte; the search of [MaybeStartSend] one a
    channel; the parser of schemas takes four units a
    byte and four more (theorem [parse_terminates]).  The loops of the reader
    of logs take one unit a byte of the file and one more, since each round
    goes forward by a byte at least (theorem [file_reader_ends]).  The scanner of
    JSON5 takes a unit a character and a few more, and two a character where
    it skips a value (theorem [json5_read_ends]).  The loops
    over the entries of an index or a seek block are structural on the binary
    count ([times]) and stop at the end of the file.

    The words of a command of the tool take a unit each, and one more, and its
    empty commands a unit for each delimiter; the loop of the page-cache hints
    goes forward by a block at least.

    The theorems about logs hold for files below 2^42 bytes and identifiers
    below 2^42 ([small], [id_ok]): above that the header of a data block may
    not fit the 32 bytes that are kept free in front of it, and the writer
    asserts.

    ** What is not modelled

    Program options and the other text of base; the command line of the tool and
    the opening of devices (the builder of the client, the factories of io); of
    the threads of a writer, what other calls of the program do to a buffer that
    is reclaimed (that is in [FileWriter]); of the host's client, what a handler does when it is
    called comes after the event that called it, where a handler of the source
    can call the client before it returns; of JSON5, std::map, external serializers and the positions
    in errors; floating point (base/pid.h, base/limit.h, seconds as
    [double]); the other boost::asio glue of io, imgui and tools.  Reads that run while
    another thread writes are modelled for the event queue and the writer of logs
    alone. *)

From stdpp Require Export base tactics list numbers.
From Stdlib Require Strings.Byte.
From coqutil Require Export Byte Word.LittleEndianList.

#[global] Open Scope Z_scope.

Abbreviation byte := Init.Byte.byte.

(** ** What a C++ call can do

    A call returns a value or stops the program model: a failed [MJ_ASSERT]
    (which aborts, base/assert.cc), undefined behaviour (an access outside a
    buffer, an over-wide shift), an exception, or, for a loop modelled with
    fuel, the fuel running out, which is excluded by theorem wherever a loop
    is used. *)
Inductive fault :=
  | Assertion
  | Undefined
  | Exception (what : Z)
  | OutOfFuel.

Inductive outcome (A : Type) :=
  | Done (a : A)
  | Faulted (f : fault).
Arguments Done {A} a.
Arguments Faulted {A} f.

#[export] Instance outcome_ret : MRet outcome := @Done.
#[export] Instance outcome_bind : MBind outcome := fun A B k m =>
  match m with Done a => k a | Faulted f => Faulted f end.
#[export] Instance outcome_map : FMap outcome := fun A B g m =>
  match m with Done a => Done (g a) | Faulted f => Faulted f end.

#[export] Instance fault_eq_dec : EqDecision fault.
Proof. solve_decision. Defined.

Definition is_done {A} (m : outcome A) : bool :=
  match m with Done _ => true | Faulted _ => false end.

(** [MJ_ASSERT(c)] *)
Definition mj_assert (c : bool) : outcome unit :=
  if c then Done tt else Faulted Assertion.

Lemma bind_done {A B} (a : A) (k : A -> outcome B) : (Done a ≫= k) = k a.
Proof. reflexivity. Qed.

Lemma bind_faulted {A B} f (k : A -> outcome B) : (Faulted f ≫= k) = Faulted f.
Proof. reflexivity. Qed.

Lemma bind_assoc {A B C} (m : outcome A) (k : A -> outcome B) (h : B -> outcome C) :
  ((m ≫= k) ≫= h) = (m ≫= fun a => k a ≫= h).
Proof. by destruct m. Qed.

Lemma bind_done_inv {A B} (m : outcome A) (k : A -> outcome B) b :
  (m ≫= k) = Done b -> exists a, m = Done a /\ k a = Done b.
Proof. destruct m as [a|f]; [by exists a|done]. Qed.

Lemma mj_assert_true c : c = true -> mj_assert c = Done tt.
Proof. by intros ->. Qed.

Lemma mj_assert_done c u : mj_assert c = Done u -> c = true.
Proof. by destruct c. Qed.

(** ** Machine integers

    A [w]-bit value is the integer it denotes; [uwrap] and [swrap] are the
    conversions to an unsigned and to a two's complement type. *)
Definition uwrap (w z : Z) : Z := z mod 2 ^ w.
Definition swrap (w z : Z) : Z :=
  let u := uwrap w z in if u <? 2 ^ (w - 1) then u else u - 2 ^ w.

Definition in_u (w z : Z) : Prop := 0 <= z < 2 ^ w.
Definition in_s (w z : Z) : Prop := - 2 ^ (w - 1) <= z < 2 ^ (w - 1).

Abbreviation u8 := (uwrap 8).
Abbreviation u16 := (uwrap 16).
Abbreviation u32 := (uwrap 32).
Abbreviation u64 := (uwrap 64).
Abbreviation s64 := (swrap 64).

Lemma uwrap_range w z : 0 <= w -> in_u w (uwrap w z).
Proof. intros. apply Z.mod_pos_bound. apply Z.pow_pos_nonneg; lia. Qed.

Lemma uwrap_id w z : in_u w z -> uwrap w z = z.
Proof. apply Z.mod_small. Qed.

Lemma pow2_half w : 0 < w -> 2 ^ w = 2 * 2 ^ (w - 1).
Proof. intros. rewrite <- Z.pow_succ_r by lia. f_equal; lia. Qed.

Lemma swrap_range w z : 0 < w -> in_s w (swrap w z).
Proof.
  intros Hw. pose proof (uwrap_range w z ltac:(lia)) as [? ?].
  pose proof (pow2_half w Hw). unfold swrap, in_s.
  destruct (Z.ltb_spec (uwrap w z) (2 ^ (w - 1))); lia.
Qed.

Lemma swrap_uwrap w z : 0 < w -> swrap w (uwrap w z) = swrap w z.
Proof.
  intros. unfold swrap, uwrap.
  rewrite Z.mod_mod; [done|]. apply Z.pow_nonzero; lia.
Qed.

Lemma swrap_id w z : 0 < w -> in_s w z -> swrap w z = z.
Proof.
  intros Hw [Hl Hh]. pose proof (pow2_half w Hw). unfold swrap, uwrap.
  destruct (Z.lt_ge_cases z 0).
  - rewrite <- (Z.mod_unique z (2 ^ w) (-1) (z + 2 ^ w)) by lia.
    destruct (Z.ltb_spec (z + 2 ^ w) (2 ^ (w - 1))); lia.
  - rewrite Z.mod_small by lia.
    destruct (Z.ltb_spec z (2 ^ (w - 1))); lia.
Qed.

Lemma uwrap_swrap w z : 0 < w -> uwrap w (swrap w z) = uwrap w z.
Proof.
  intros. unfold swrap, uwrap. case_match.
  - rewrite Z.mod_mod; [done|]. apply Z.pow_nonzero; lia.
  - pose proof (Z.pow_nonzero 2 w).
    rewrite Zminus_mod, Z_mod_same_full, Z.sub_0_r, !Z.mod_mod by lia. done.
Qed.

(** ** Lists indexed by [Z], the way a pointer difference indexes an array *)
Definition zlen {A} (l : list A) : Z := Z.of_nat (length l).
Definition ztake {A} (n : Z) (l : list A) : list A := take (Z.to_nat n) l.
Definition zdrop {A} (n : Z) (l : list A) : list A := drop (Z.to_nat n) l.

Section zlists.
Context {A : Type}.
Implicit Types (l k : list A) (n m : Z).

Lemma zlen_nonneg l : 0 <= zlen l.
Proof. unfold zlen; lia. Qed.
Lemma zlen_nil : zlen (@nil A) = 0.
Proof. reflexivity. Qed.
Lemma zlen_cons x l : zlen (x :: l) = 1 + zlen l.
Proof. unfold zlen; simpl; lia. Qed.
Lemma zlen_app l k : zlen (l ++ k) = zlen l + zlen k.
Proof. unfold zlen. rewrite length_app. lia. Qed.
Lemma zlen_take n l : 0 <= n -> zlen (ztake n l) = Z.min n (zlen l).
Proof. unfold zlen, ztake. rewrite length_take. lia. Qed.
Lemma zlen_drop n l : 0 <= n -> zlen (zdrop n l) = Z.max 0 (zlen l - n).
Proof. unfold zlen, zdrop. rewrite length_drop. lia. Qed.
Lemma zlen_replicate n (x : A) : zlen (replicate (Z.to_nat n) x) = Z.max 0 n.
Proof. unfold zlen. rewrite length_replicate. lia. Qed.
Lemma ztake_0 l : ztake 0 l = [].
Proof. reflexivity. Qed.
Lemma zdrop_0 l : zdrop 0 l = l.
Proof. reflexivity. Qed.
Lemma ztake_ge n l : zlen l <= n -> ztake n l = l.
Proof. unfold zlen, ztake. intros. apply take_ge. lia. Qed.
Lemma zdrop_ge n l : zlen l <= n -> zdrop n l = [].
Proof. unfold zlen, zdrop. intros. apply drop_ge. lia. Qed.
Lemma ztake_zdrop n l : ztake n l ++ zdrop n l = l.
Proof. apply take_drop. Qed.
Lemma zdrop_zdrop n m l : 0 <= n -> 0 <= m -> zdrop m (zdrop n l) = zdrop (n + m) l.
Proof. unfold zdrop. intros. rewrite drop_drop. f_equal. lia. Qed.
Lemma ztake_app_len l k : ztake (zlen l) (l ++ k) = l.
Proof. unfold ztake, zlen. rewrite Nat2Z.id. apply take_app_length. Qed.
Lemma zdrop_app_len l k : zdrop (zlen l) (l ++ k) = k.
Proof. unfold zdrop, zlen. rewrite Nat2Z.id. apply drop_app_length. Qed.
Lemma ztake_app n l k :
  0 <= n -> ztake n (l ++ k) = ztake n l ++ ztake (n - zlen l) k.
Proof.
  unfold ztake, zlen. intros. rewrite firstn_app. do 2 f_equal. lia.
Qed.
Lemma zdrop_app n l k :
  0 <= n -> zdrop n (l ++ k) = zdrop n l ++ zdrop (n - zlen l) k.
Proof.
  unfold zdrop, zlen. intros. rewrite skipn_app. do 2 f_equal. lia.
Qed.
Lemma ztake_app_le n l k : 0 <= n <= zlen l -> ztake n (l ++ k) = ztake n l.
Proof.
  intros. rewrite ztake_app by lia. unfold ztake at 2.
  replace (Z.to_nat (n - zlen l)) with 0%nat by lia. by rewrite take_0, app_nil_r.
Qed.
Lemma zdrop_app_le n l k : 0 <= n <= zlen l -> zdrop n (l ++ k) = zdrop n l ++ k.
Proof.
  intros. rewrite zdrop_app by lia. unfold zdrop at 2.
  replace (Z.to_nat (n - zlen l)) with 0%nat by lia. done.
Qed.
Lemma ztake_ztake_min n m l : ztake n (ztake m l) = ztake (Z.min n m) l.
Proof. unfold ztake. rewrite firstn_firstn. f_equal. lia. Qed.
Lemma zdrop_ztake n m l : 0 <= m -> zdrop m (ztake n l) = ztake (n - m) (zdrop m l).
Proof. intros. unfold ztake, zdrop. rewrite skipn_firstn_comm. f_equal. lia. Qed.
Lemma ztake_cons n x l : 0 < n -> ztake n (x :: l) = x :: ztake (n - 1) l.
Proof.
  intros. unfold ztake.
  replace (Z.to_nat n) with (S (Z.to_nat (n - 1))) by lia. done.
Qed.
Lemma zdrop_cons n x l : 0 < n -> zdrop n (x :: l) = zdrop (n - 1) l.
Proof.
  intros. unfold zdrop.
  replace (Z.to_nat n) with (S (Z.to_nat (n - 1))) by lia. done.
Qed.
End zlists.

(** ** Memory: copying bytes out of and into a buffer

    [load buf i n] is [memcpy(.., &buf[i], n)] and [store buf i bs] is
    [memcpy(&buf[i], bs, ..)]; both are undefined behaviour when the range is
    not inside the buffer. *)
Definition load (buf : list byte) (i n : Z) : outcome (list byte) :=
  if (0 <=? i) && (0 <=? n) && (i + n <=? zlen buf)
  then Done (ztake n (zdrop i buf)) else Faulted Undefined.

Definition store (buf : list byte) (i : Z) (bs : list byte) : outcome (list byte) :=
  if (0 <=? i) && (i + zlen bs <=? zlen buf)
  then Done (ztake i buf ++ bs ++ zdrop (i + zlen bs) buf) else Faulted Undefined.

Lemma load_done buf i n :
  0 <= i -> 0 <= n -> i + n <= zlen buf -> load buf i n = Done (ztake n (zdrop i buf)).
Proof.
  intros. unfold load.
  rewrite !(proj2 (Z.leb_le _ _)) by lia. done.
Qed.

Lemma store_done buf i bs :
  0 <= i -> i + zlen bs <= zlen buf ->
  store buf i bs = Done (ztake i buf ++ bs ++ zdrop (i + zlen bs) buf).
Proof.
  intros. unfold store. rewrite !(proj2 (Z.leb_le _ _)) by lia. done.
Qed.

Lemma load_inv buf i n bs :
  load buf i n = Done bs -> 0 <= i /\ 0 <= n /\ i + n <= zlen buf /\ bs = ztake n (zdrop i buf).
Proof.
  unfold load.
  destruct (Z.leb_spec 0 i), (Z.leb_spec 0 n), (Z.leb_spec (i + n) (zlen buf));
    simpl; intros [=]; subst; auto.
Qed.

Lemma store_inv buf i bs buf' :
  store buf i bs = Done buf' ->
  0 <= i /\ i + zlen bs <= zlen buf /\ buf' = ztake i buf ++ bs ++ zdrop (i + zlen bs) buf.
Proof.
  unfold store.
  destruct (Z.leb_spec 0 i), (Z.leb_spec (i + zlen bs) (zlen buf));
    simpl; intros [=]; subst; auto.
Qed.

Lemma store_oob buf i bs : zlen buf < i + zlen bs -> store buf i bs = Faulted Undefined.
Proof.
  intros. unfold store. rewrite (proj2 (Z.leb_gt _ (zlen buf))) by lia.
  by rewrite andb_false_r.
Qed.

Lemma zlen_store buf i bs buf' : store buf i bs = Done buf' -> zlen buf' = zlen buf.
Proof.
  intros (? & ? & ->)%store_inv. pose proof (zlen_nonneg bs).
  rewrite !zlen_app, zlen_take, zlen_drop by lia. lia.
Qed.

(** Storing right after a prefix extends the prefix. *)
Lemma store_prefix buf i bs buf' :
  store buf i bs = Done buf' -> ztake (i + zlen bs) buf' = ztake i buf ++ bs.
Proof.
  intros (? & ? & ->)%store_inv. pose proof (zlen_nonneg bs).
  rewrite app_assoc.
  replace (i + zlen bs) with (zlen (ztake i buf ++ bs)) at 1.
  - apply ztake_app_len.
  - rewrite zlen_app, zlen_take by lia. lia.
Qed.

(** ** Bytes and their little-endian groups *)
Lemma byte_range (b : byte) : 0 <= byte.unsigned b < 256.
Proof. exact (byte.unsigned_range b). Qed.

Lemma byte_of_Z_unsigned (z : Z) : 0 <= z < 256 -> byte.unsigned (byte.of_Z z) = z.
Proof. intros. rewrite byte.unsigned_of_Z. apply Z.mod_small. exact H. Qed.

Lemma le_combine_le_split n z : le_combine (le_split n z) = uwrap (8 * Z.of_nat n) z.
Proof. unfold uwrap. rewrite le_combine_split. do 2 f_equal. lia. Qed.
Lemma zlen_le_split n z : zlen (le_split n z) = Z.of_nat n.
Proof. unfold zlen. by rewrite length_le_split. Qed.

#[export] Instance byte_eq_decision : EqDecision byte := Strings.Byte.byte_eq_dec.

(** ** Automation *)
Create Rewrite HintDb mjlib.
#[export] Hint Rewrite @zlen_nil @zlen_cons @zlen_app zlen_le_split
  @ztake_app_len @zdrop_app_len @bind_done @bind_faulted : mjlib.

(** Splits a successful chain of calls into its steps. *)
Ltac inv_bind :=
  repeat match goal with
  | H : (_ ≫= _) = Done _ |- _ =>
      let a := fresh "r" in let H1 := fresh "Hstep" in
      apply bind_done_inv in H as (a & H1 & H)
  | H : Done _ = Done _ |- _ => apply (f_equal (fun o => match o with Done x => Some x | _ => None end)) in H; injection H as H
  | H : mj_assert _ = Done _ |- _ => apply mj_assert_done in H
  end.

(** Decides the integer comparisons a goal's conditionals test. *)
Ltac zcases :=
  repeat match goal with
  | |- context [Z.leb ?a ?b] => destruct (Z.leb_spec a b)
  | |- context [Z.ltb ?a ?b] => destruct (Z.ltb_spec a b)
  | |- context [Z.eqb ?a ?b] => destruct (Z.eqb_spec a b)
  end.

(** Storing two runs one after the other is storing their concatenation, also
    in what it does when they do not fit. *)
Lemma ztake_app_full {A} (a b : list A) n : zlen a = n -> ztake n (a ++ b) = a.
Proof. intros <-. apply ztake_app_len. Qed.
Lemma zdrop_app_full {A} (a b : list A) n : zlen a = n -> zdrop n (a ++ b) = b.
Proof. intros <-. apply zdrop_app_len. Qed.

Lemma store_app buf i d e :
  store buf i (d ++ e) = (b ← store buf i d; store b (i + zlen d) e).
Proof.
  pose proof (zlen_nonneg d). pose proof (zlen_nonneg e).
  destruct (store buf i d) as [b|f] eqn:Ed.
  - pose proof (zlen_store _ _ _ _ Ed) as Hb. apply store_inv in Ed as (? & ? & ->).
    rewrite bind_done. destruct (Z.le_gt_cases (i + zlen d + zlen e) (zlen buf)).
    + assert (zlen (ztake i buf) = i) as Hi by (rewrite zlen_take; lia).
      rewrite !store_done by (rewrite ?zlen_app, ?Hb in *; lia). f_equal.
      set (rest := zdrop (i + zlen d) buf).
      assert (zdrop (i + zlen (d ++ e)) buf = zdrop (zlen e) rest) as ->.
      { unfold rest. rewrite zdrop_zdrop, zlen_app by lia. f_equal. lia. }
      rewrite (app_assoc (ztake i buf) d rest).
      rewrite (ztake_app_full (ztake i buf ++ d)) by (rewrite zlen_app; lia).
      rewrite <- (zdrop_zdrop (i + zlen d) (zlen e)) by lia.
      rewrite (zdrop_app_full (ztake i buf ++ d)) by (rewrite zlen_app; lia).
      by rewrite <- !app_assoc.
    + rewrite !store_oob by (rewrite ?zlen_app, ?Hb in *; lia). done.
  - rewrite bind_faulted. revert Ed. unfold store. rewrite zlen_app.
    destruct (Z.leb_spec 0 i), (Z.leb_spec (i + zlen d) (zlen buf)); simpl; intros [= <-];
      try done.
    destruct (Z.leb_spec (i + (zlen d + zlen e)) (zlen buf)); [lia|done].
Qed.

Lemma store_cons buf i x e :
  store buf i (x :: e) = (b ← store buf i [x]; store b (i + 1) e).
Proof. exact (store_app buf i [x] e). Qed.

(** ** What a call gives when it ends

    [fine m P]: [m] does not run out of the model's fuel, and what it returns
    satisfies [P]. *)
Definition fine {A} (m : outcome A) (P : A -> Prop) : Prop :=
  match m with Done a => P a | Faulted f => f <> OutOfFuel end.

Lemma fine_bind {A B} (m : outcome A) (k : A -> outcome B) P Q :
  fine m P -> (forall a, P a -> fine (k a) Q) -> fine (m ≫= k) Q.
Proof. intros Hm Hk. destruct m as [a|f]; [by apply Hk|done]. Qed.

Lemma fine_mono {A} (m : outcome A) (P Q : A -> Prop) :
  fine m P -> (forall a, P a -> Q a) -> fine m Q.
Proof. intros Hm Hp. destruct m; [by apply Hp|exact Hm]. Qed.

Lemma fine_assert c (P : unit -> Prop) : (c = true -> P tt) -> fine (mj_assert c) P.
Proof. by destruct c; cbn; auto. Qed.

Lemma fine_ends {A} (m : outcome A) P : fine m P -> m <> Faulted OutOfFuel.
Proof. by destruct m; cbn; [|intros Hf [= ->]]. Qed.
