(* ===== verification/Varuint.v ===== *)
(** * The varuint byte format, as telemetry/README.md and multiplex/format.h
    describe it

    A varuint is a sequence of bytes, least significant group first; the low
    seven bits of each carry data and the top bit says that more bytes follow.
    This file is the specification both packages' readers and writers are
    proved against: [vu_bytes] is the shortest encoding of a value, [vu_value]
    the value a sequence denotes and [vu_wf] the well-formed sequences. *)
From S2P Require Import Prelude.

Definition continues (b : byte) : bool := 128 <=? byte.unsigned b.
Definition payload7 (b : byte) : Z := Z.land (byte.unsigned b) 127.

Fixpoint vu_bytes (fuel : nat) (v : Z) : list byte :=
  match fuel with
  | O => []
  | S fuel => if v <? 128 then [byte.of_Z v]
              else byte.of_Z (v mod 128 + 128) :: vu_bytes fuel (v / 128)
  end.

Fixpoint vu_value (bs : list byte) : Z :=
  match bs with [] => 0 | b :: r => payload7 b + 128 * vu_value r end.

Fixpoint vu_wf (bs : list byte) : bool :=
  match bs with
  | [] => false
  | [b] => negb (continues b)
  | b :: r => continues b && vu_wf r
  end.

(** The number of seven-bit groups of a value. *)
Definition vu_len (v : Z) : Z := if v =? 0 then 1 else Z.log2 v / 7 + 1.

Lemma payload7_mod b : payload7 b = byte.unsigned b mod 128.
Proof. unfold payload7. change 127 with (Z.ones 7). by rewrite Z.land_ones by lia. Qed.

Lemma payload7_range b : 0 <= payload7 b < 128.
Proof. rewrite payload7_mod. apply Z.mod_pos_bound. lia. Qed.

Lemma payload7_small b : continues b = false -> payload7 b = byte.unsigned b.
Proof.
  unfold continues. intros ?%Z.leb_gt. pose proof (byte_range b).
  rewrite payload7_mod. apply Z.mod_small. lia.
Qed.

Lemma payload7_more v : 0 <= v < 128 -> payload7 (byte.of_Z (v + 128)) = v.
Proof.
  intros. rewrite payload7_mod, byte_of_Z_unsigned by lia.
  rewrite <- (Z.mul_1_l 128) at 1. rewrite Z_mod_plus_full. apply Z.mod_small; lia.
Qed.

Lemma continues_of_Z v : 0 <= v < 256 -> continues (byte.of_Z v) = (128 <=? v).
Proof. intros. unfold continues. by rewrite byte_of_Z_unsigned. Qed.

Lemma vu_value_nonneg bs : 0 <= vu_value bs.
Proof. induction bs as [|b r IH]; simpl; [lia|]. pose proof (payload7_range b). lia. Qed.

Lemma vu_value_bound bs : vu_value bs < 2 ^ (7 * zlen bs).
Proof.
  induction bs as [|b r IH]; [done|]. rewrite zlen_cons. cbn [vu_value].
  pose proof (payload7_range b). pose proof (zlen_nonneg r).
  replace (7 * (1 + zlen r)) with (7 + 7 * zlen r) by lia.
  rewrite Z.pow_add_r by lia. change (2 ^ 7) with 128. lia.
Qed.

Lemma div128_bound n v : 0 <= v < 128 ^ Z.of_nat (S n) -> 0 <= v / 128 < 128 ^ Z.of_nat n.
Proof.
  intros [? Hv]. rewrite Nat2Z.inj_succ, Z.pow_succ_r in Hv by lia.
  split; [apply Z.div_pos; lia|]. apply Z.div_lt_upper_bound; lia.
Qed.

(** The shortest encoding denotes its value ... *)
Lemma vu_value_bytes fuel v :
  0 <= v < 128 ^ Z.of_nat fuel -> vu_value (vu_bytes fuel v) = v.
Proof.
  revert v; induction fuel as [|n IH]; intros v Hv; [simpl in *; lia|].
  cbn [vu_bytes]. destruct (Z.ltb_spec v 128).
  - cbn [vu_value]. rewrite payload7_small, byte_of_Z_unsigned by
      (rewrite ?continues_of_Z by lia; lia || (apply Z.leb_gt; lia)). lia.
  - cbn [vu_value]. rewrite IH by (apply div128_bound; done).
    pose proof (Z.mod_pos_bound v 128). rewrite payload7_more by lia.
    pose proof (Z.div_mod v 128). lia.
Qed.

(** ... is well formed ... *)
Lemma vu_bytes_wf fuel v :
  0 <= v < 128 ^ Z.of_nat fuel -> (0 < fuel)%nat -> vu_wf (vu_bytes fuel v) = true.
Proof.
  revert v; induction fuel as [|n IH]; intros v Hv Hf; [lia|].
  cbn [vu_bytes]. destruct (Z.ltb_spec v 128).
  - cbn. rewrite continues_of_Z by lia. destruct (Z.leb_spec 128 v); lia || done.
  - destruct n as [|n]; [simpl in Hv; lia|].
    assert (Hd : 0 <= v / 128 < 128 ^ Z.of_nat (S n)) by (apply div128_bound; done).
    specialize (IH (v / 128) Hd ltac:(lia)).
    destruct (vu_bytes (S n) (v / 128)) as [|b r] eqn:E; [done|].
    cbn [vu_wf]. rewrite continues_of_Z by (pose proof (Z.mod_pos_bound v 128); lia).
    rewrite (proj2 (Z.leb_le _ _)) by (pose proof (Z.mod_pos_bound v 128); lia).
    exact IH.
Qed.

(** ... does not depend on spare fuel ... *)
Lemma vu_bytes_fuel n m v :
  0 <= v < 128 ^ Z.of_nat n -> (n <= m)%nat -> (0 < n)%nat ->
  vu_bytes m v = vu_bytes n v.
Proof.
  revert m v; induction n as [|n IH]; intros m v Hv Hm Hn; [lia|].
  destruct m as [|m]; [lia|]. cbn [vu_bytes].
  destruct (Z.ltb_spec v 128); [done|]. f_equal.
  destruct n as [|n]; [simpl in Hv; lia|].
  apply IH; [apply div128_bound; done|lia|lia].
Qed.

Lemma log2_div128 v : 128 <= v -> Z.log2 v = Z.log2 (v / 128) + 7.
Proof.
  intros. change 128 with (2 ^ 7). rewrite <- Z.shiftr_div_pow2 by lia.
  rewrite Z.log2_shiftr by lia.
  pose proof (Z.log2_le_mono 128 v). change (Z.log2 128) with 7 in *. lia.
Qed.

Lemma vu_len_small v : 0 <= v < 128 -> vu_len v = 1.
Proof.
  intros. unfold vu_len. destruct (Z.eqb_spec v 0); [done|].
  pose proof (Z.log2_le_mono v 127). change (Z.log2 127) with 6 in *.
  rewrite Z.div_small; [done|]. pose proof (Z.log2_nonneg v). lia.
Qed.

Lemma vu_len_step v : 128 <= v -> vu_len v = 1 + vu_len (v / 128).
Proof.
  intros. unfold vu_len.
  assert (1 <= v / 128) by (apply Z.div_le_lower_bound; lia).
  destruct (Z.eqb_spec v 0), (Z.eqb_spec (v / 128) 0); try lia.
  rewrite (log2_div128 v) by lia.
  replace (Z.log2 (v / 128) + 7) with (Z.log2 (v / 128) + 1 * 7) by lia.
  rewrite Z.div_add by lia. lia.
Qed.

Lemma vu_len_pos v : 0 <= v -> 1 <= vu_len v.
Proof.
  intros. unfold vu_len. destruct (v =? 0); [lia|].
  pose proof (Z.div_pos (Z.log2 v) 7 (Z.log2_nonneg v)). lia.
Qed.

(** ... and has the length its magnitude asks for. *)
Lemma zlen_vu_bytes fuel v :
  0 <= v < 128 ^ Z.of_nat fuel -> (0 < fuel)%nat -> zlen (vu_bytes fuel v) = vu_len v.
Proof.
  revert v; induction fuel as [|n IH]; intros v Hv Hf; [lia|].
  cbn [vu_bytes]. destruct (Z.ltb_spec v 128).
  - rewrite vu_len_small by lia. done.
  - rewrite zlen_cons, vu_len_step by lia.
    destruct n as [|n]; [simpl in Hv; lia|].
    rewrite IH; [done| apply div128_bound; done | lia].
Qed.

Lemma vu_wf_cons b r :
  vu_wf (b :: r) = if continues b then vu_wf r else match r with [] => true | _ => false end.
Proof.
  destruct r as [|c r]; cbn [vu_wf]; destruct (continues b); done.
Qed.

Lemma vu_wf_len bs : vu_wf bs = true -> 1 <= zlen bs.
Proof. destruct bs; [done|]. rewrite zlen_cons. pose proof (zlen_nonneg bs). lia. Qed.

(** [vu_wf] sequences are prefix free: a reader that stops at the first byte
    without the continuation bit splits a stream in one way only. *)
Lemma vu_wf_prefix_free bs bs' r r' :
  vu_wf bs = true -> vu_wf bs' = true -> bs ++ r = bs' ++ r' -> bs = bs' /\ r = r'.
Proof.
  revert bs'. induction bs as [|b t IH]; intros bs' H H' E; [done|].
  destruct bs' as [|b' t']; [done|]. simpl in E. injection E as -> E.
  rewrite vu_wf_cons in H, H'. destruct (continues b').
  - destruct (IH t' H H' E) as [-> ->]. done.
  - destruct t, t'; done.
Qed.

Lemma lor_disjoint a b n : 0 <= n -> 0 <= a < 2 ^ n -> Z.lor a (Z.shiftl b n) = a + b * 2 ^ n.
Proof.
  intros Hn Ha. pose proof (Z.add_lor_land a (Z.shiftl b n)) as E.
  assert (Z.land a (Z.shiftl b n) = 0) as E0.
  { apply Z.bits_inj'. intros i Hi. rewrite Z.land_spec, Z.bits_0.
    destruct (Z.lt_ge_cases i n).
    - rewrite Z.shiftl_spec_low by lia. apply andb_false_r.
    - rewrite <- (Z.mod_small a (2 ^ n)) by lia.
      rewrite Z.mod_pow2_bits_high by lia. done. }
  rewrite E0, Z.shiftl_mul_pow2 in E by lia.
  rewrite Z.shiftl_mul_pow2 by lia. lia.
Qed.

(** The two's complement zigzag of a varint: small magnitudes of either sign
    become small unsigned values. *)
Definition zigzag (v : Z) : Z := if v <? 0 then -2 * v - 1 else 2 * v.
Definition unzigzag (e : Z) : Z := if Z.even e then e / 2 else - (e / 2) - 1.

Lemma unzigzag_zigzag v : unzigzag (zigzag v) = v.
Proof.
  unfold unzigzag, zigzag. destruct (Z.ltb_spec v 0).
  - replace (-2 * v - 1) with (2 * (-v - 1) + 1) by lia.
    rewrite Z.even_add, Z.even_mul. simpl.
    rewrite (Z.mul_comm 2 (-v - 1)), Z.div_add_l by lia. change (1 / 2) with 0. lia.
  - rewrite Z.even_mul. simpl. rewrite Z.mul_comm, Z.div_mul by lia. done.
Qed.

Lemma zigzag_unzigzag e : 0 <= e -> zigzag (unzigzag e) = e.
Proof.
  intros. unfold unzigzag, zigzag. pose proof (Z.div_mod e 2).
  pose proof (Zmod_even e). destruct (Z.even e).
  - destruct (Z.ltb_spec (e / 2) 0); lia.
  - destruct (Z.ltb_spec (- (e / 2) - 1) 0); lia.
Qed.

(** Or-ing a wrapped shift into the low bits is a wrapped addition: the step
    of every varuint reader. *)
Lemma lor_wrapped_shift w r p pos :
  0 <= pos < w -> 0 <= r < 2 ^ pos -> 0 <= p ->
  Z.lor r (uwrap w (Z.shiftl p pos)) = uwrap w (r + p * 2 ^ pos).
Proof.
  intros Hpos Hr Hp.
  assert (Hw : 2 ^ w = 2 ^ pos * 2 ^ (w - pos)).
  { rewrite <- Z.pow_add_r by lia. f_equal. lia. }
  assert (0 < 2 ^ pos) by lia.
  assert (0 < 2 ^ (w - pos)) by (apply Z.pow_pos_nonneg; lia).
  pose proof (Z.mod_pos_bound p (2 ^ (w - pos)) ltac:(lia)).
  pose proof (Z.div_mod p (2 ^ (w - pos)) ltac:(lia)).
  unfold uwrap. rewrite Z.shiftl_mul_pow2, Hw, (Z.mul_comm p) by lia.
  rewrite Z.mul_mod_distr_l by lia.
  rewrite (Z.mul_comm (2 ^ pos) (p mod _)), <- Z.shiftl_mul_pow2 by lia.
  rewrite lor_disjoint by lia.
  apply Z.mod_unique with (p / 2 ^ (w - pos)); nia.
Qed.

Lemma wrapped_shift_bound w r p pos :
  0 <= pos < w -> 0 <= r < 2 ^ pos -> 0 <= p < 128 ->
  0 <= uwrap w (r + p * 2 ^ pos) < 2 ^ (pos + 7).
Proof.
  intros Hpos Hr Hp. pose proof (uwrap_range w (r + p * 2 ^ pos) ltac:(lia)) as [? ?].
  split; [done|]. unfold uwrap. rewrite Z.pow_add_r by lia. change (2 ^ 7) with 128.
  assert (0 <= r + p * 2 ^ pos) by nia.
  pose proof (Z.mod_le (r + p * 2 ^ pos) (2 ^ w) ltac:(lia) ltac:(lia)). nia.
Qed.

(** Where the first varuint of a byte string ends. *)
Fixpoint vu_split (l : list byte) : option (list byte * list byte) :=
  match l with
  | [] => None
  | b :: t =>
      if continues b then
        match vu_split t with Some (h, r) => Some (b :: h, r) | None => None end
      else Some ([b], t)
  end.

Lemma vu_split_some l h r : vu_split l = Some (h, r) -> l = h ++ r /\ vu_wf h = true.
Proof.
  revert h r; induction l as [|b t IH]; intros h r; [done|]. cbn [vu_split].
  destruct (continues b) eqn:Eb.
  - destruct (vu_split t) as [[h' r']|]; [|done]. intros [= <- <-].
    destruct (IH h' r' eq_refl) as [-> Hw]. split; [done|]. by rewrite vu_wf_cons, Eb.
  - intros [= <- <-]. split; [done|]. by rewrite vu_wf_cons, Eb.
Qed.

Lemma vu_split_none l : vu_split l = None -> Forall (fun b => continues b = true) l.
Proof.
  induction l as [|b t IH]; [done|]. cbn [vu_split]. destruct (continues b) eqn:Eb; [|done].
  destruct (vu_split t) as [[? ?]|]; [done|]. intros _. constructor; auto.
Qed.

(** Every byte of a varuint but the last continues. *)
Lemma vu_wf_continues h n :
  vu_wf h = true -> (n < length h)%nat ->
  Forall (fun b => continues b = true) (take n h).
Proof.
  revert n; induction h as [|b t IH]; intros n Hw Hn; [done|].
  destruct n as [|n]; [constructor|]. rewrite vu_wf_cons in Hw. simpl in *.
  destruct (continues b) eqn:Eb.
  - constructor; [done|]. apply IH; [done|lia].
  - destruct t; [simpl in Hn; lia|done].
Qed.

(** The bit operations of the writers and readers, as arithmetic. *)
Lemma shiftr7 v : Z.shiftr v 7 = v / 128.
Proof. by rewrite Z.shiftr_div_pow2 by lia. Qed.

Lemma land7f v : Z.land v 0x7f = v mod 128.
Proof. change 0x7f with (Z.ones 7). by rewrite Z.land_ones by lia. Qed.

Lemma lor80 v : 0 <= v < 128 -> Z.lor v 0x80 = v + 128.
Proof.
  intros. change 0x80 with (Z.shiftl 1 7). rewrite lor_disjoint by (simpl; lia). done.
Qed.

Lemma div128_zero v : 0 <= v -> (v / 128 =? 0) = (v <? 128).
Proof.
  intros. destruct (Z.ltb_spec v 128).
  - rewrite Z.div_small by lia. done.
  - apply Z.eqb_neq. assert (1 <= v / 128) by (apply Z.div_le_lower_bound; lia). lia.
Qed.

Lemma byte_msb (b : byte) : (Z.land (byte.unsigned b) 0x80 =? 0) = negb (continues b).
Proof. destruct b; reflexivity. Qed.

Lemma u32_fuel v : in_u 32 v -> 0 <= v < 128 ^ Z.of_nat 5.
Proof.
  intros [? Hv]. split; [done|]. eapply Z.lt_le_trans; [exact Hv|].
  apply Z.leb_le. reflexivity.
Qed.

Lemma vu_len_u32 v : in_u 32 v -> 1 <= vu_len v <= 5.
Proof.
  intros Hv. split; [apply vu_len_pos; unfold in_u in *; lia|].
  unfold vu_len. destruct (Z.eqb_spec v 0); [lia|]. unfold in_u in *.
  assert (Z.log2 v <= 31) by (apply Z.lt_succ_r; apply Z.log2_lt_pow2; simpl; lia).
  assert (Z.log2 v / 7 <= 31 / 7) by (apply Z.div_le_mono; lia).
  change (31 / 7) with 4 in *. lia.
Qed.
