(* ===== verification/Streams.v ===== *)
(** * The byte streams of mjlib/base

    [ReadStream] and [WriteStream] are the two abstract classes of
    base/stream.h.  [ReadStreamLaws] and [WriteStreamLaws] state what their
    clients (the telemetry and multiplex readers and writers) rely on; the
    concrete streams of base/fast_stream.h, base/buffer_stream.h,
    base/crc_stream.h, base/recording_stream.h and base/null_stream.h are
    modelled below and discharge those laws. *)
From S2P Require Import Prelude.

(** ** The interfaces (base/stream.h) *)

(** [read] fills a span of the given size and reports through [gcount] how
    much of it was filled: the model returns the filled part. *)
Class ReadStream (S : Type) := {
  rs_read : S -> Z -> outcome (list byte * S);
  rs_ignore : S -> Z -> outcome S;
  rs_gcount : S -> Z;
}.

Class WriteStream (S : Type) := {
  ws_write : S -> list byte -> outcome S;
}.

(** What a reader relies on: [rs_rest] is the data still to come, and reading
    or ignoring [n] bytes takes the first [n] of it, or all that is left. *)
Class ReadStreamLaws (S : Type) `{ReadStream S} := {
  rs_valid : S -> Prop;
  rs_rest : S -> list byte;
  rs_read_law s n : rs_valid s -> 0 <= n -> exists s',
    rs_read s n = Done (ztake n (rs_rest s), s') /\ rs_valid s' /\
    rs_rest s' = zdrop n (rs_rest s) /\ rs_gcount s' = Z.min n (zlen (rs_rest s));
  rs_ignore_law s n : rs_valid s -> 0 <= n -> exists s',
    rs_ignore s n = Done s' /\ rs_valid s' /\ rs_rest s' = zdrop n (rs_rest s);
}.

(** What a writer relies on: as long as there is room, a write appends. *)
Class WriteStreamLaws (S : Type) `{WriteStream S} := {
  ws_valid : S -> Prop;
  ws_out : S -> list byte;
  ws_fits : S -> Z -> bool;
  ws_write_law s d : ws_valid s -> ws_fits s (zlen d) = true -> exists s',
    ws_write s d = Done s' /\ ws_valid s' /\ ws_out s' = ws_out s ++ d /\
    forall n, 0 <= n -> ws_fits s' n = ws_fits s (zlen d + n);
  ws_fits_mono s n m : 0 <= n <= m -> ws_fits s m = true -> ws_fits s n = true;
}.

(** ** base/fast_stream.h *)
Module FastOStringStream.

(** The inner [vector]: [size_] bytes are in use, [base_] keeps its capacity. *)
Record vector := { v_size : Z; v_base : list byte }.

Definition base_resize (l : list byte) (n : Z) : list byte :=
  ztake n l ++ replicate (Z.to_nat (n - zlen l)) (byte.of_Z 0).

Definition vector_resize (v : vector) (new_size : Z) : vector :=
  {| v_size := new_size;
     v_base := if zlen (v_base v) <? new_size
               then base_resize (v_base v) new_size else v_base v |}.

Definition vector_reserve (v : vector) (new_size : Z) : vector :=
  {| v_size := v_size v;
     v_base := if zlen (v_base v) <? new_size
               then base_resize (v_base v) new_size else v_base v |}.

Definition vector_clear (v : vector) : vector :=
  {| v_size := 0; v_base := v_base v |}.

Definition empty : vector := {| v_size := 0; v_base := [] |}.

Definition write (v : vector) (data : list byte) : outcome vector :=
  let old_size := v_size v in
  let v := vector_resize v (v_size v + zlen data) in
  base ← store (v_base v) old_size data;
  Done {| v_size := v_size v; v_base := base |}.

Definition str (v : vector) : list byte := ztake (v_size v) (v_base v).
Definition clear (v : vector) : vector := vector_clear v.

Definition ok (v : vector) : Prop := 0 <= v_size v <= zlen (v_base v).

#[global] Instance write_stream : WriteStream vector := {| ws_write := write |}.

Lemma zlen_base_resize l n : 0 <= n -> zlen (base_resize l n) = n.
Proof.
  intros. unfold base_resize. rewrite zlen_app, zlen_take, zlen_replicate by lia. lia.
Qed.

Lemma base_resize_prefix l n m : 0 <= m <= n -> m <= zlen l -> ztake m (base_resize l n) = ztake m l.
Proof.
  intros. unfold base_resize.
  rewrite ztake_app_le by (rewrite zlen_take; lia). rewrite ztake_ztake_min. f_equal; lia.
Qed.

Lemma resize_prefix v n m :
  0 <= m <= n -> m <= zlen (v_base v) ->
  ztake m (v_base (vector_resize v n)) = ztake m (v_base v).
Proof. intros. simpl. case_match; [by apply base_resize_prefix|done]. Qed.

Lemma zlen_resize v n : 0 <= n -> n <= zlen (v_base (vector_resize v n)).
Proof.
  intros. simpl. destruct (Z.ltb_spec (zlen (v_base v)) n); [rewrite zlen_base_resize by lia|]; lia.
Qed.

(** A write never fails and appends, whatever the spare capacity holds. *)
Lemma fos_write_spec v d :
  ok v -> exists v', write v d = Done v' /\ ok v' /\ str v' = str v ++ d.
Proof.
  intros Hok. unfold write, ok, str in *. pose proof (zlen_nonneg d).
  pose proof (zlen_resize v (v_size v + zlen d) ltac:(lia)).
  pose proof (resize_prefix v (v_size v + zlen d) (v_size v) ltac:(lia) ltac:(lia)) as Hp.
  set (b0 := v_base (vector_resize v (v_size v + zlen d))) in *.
  pose proof (store_done b0 (v_size v) d ltac:(lia) ltac:(lia)) as E.
  cbv zeta. fold b0. rewrite E, bind_done. eexists. split; [done|]. simpl.
  split; [rewrite (zlen_store _ _ _ _ E); lia|].
  rewrite (store_prefix _ _ _ _ E). by f_equal.
Qed.

#[global] Program Instance write_laws : WriteStreamLaws vector := {|
  ws_valid := ok; ws_out := str; ws_fits _ _ := true |}.
Next Obligation.
  intros v d Hok _. destruct (fos_write_spec v d Hok) as (v' & ? & ? & ?). eauto.
Qed.
Next Obligation. done. Qed.

Lemma str_clear v : str (clear v) = [].
Proof. reflexivity. Qed.
Lemma ok_empty : ok empty.
Proof. unfold ok, empty, zlen; simpl; lia. Qed.
Lemma ok_clear v : ok (clear v).
Proof. unfold ok, clear; simpl. pose proof (zlen_nonneg (v_base v)). lia. Qed.

End FastOStringStream.

Module FastIStringStream.

Record t := { data : list byte; offset : Z; last_read : Z }.

Definition make (d : list byte) : t := {| data := d; offset := 0; last_read := 0 |}.

Definition ignore (s : t) (length : Z) : outcome t :=
  let n := Z.min (zlen (data s) - offset s) length in
  Done {| data := data s; offset := offset s + n; last_read := n |}.

Definition read (s : t) (size : Z) : outcome (list byte * t) :=
  let n := Z.min (zlen (data s) - offset s) size in
  bs ← load (data s) (offset s) n;
  Done (bs, {| data := data s; offset := offset s + n; last_read := n |}).

Definition remaining (s : t) : Z := zlen (data s) - offset s.

Definition ok (s : t) : Prop := 0 <= offset s <= zlen (data s).
Definition rest (s : t) : list byte := zdrop (offset s) (data s).

#[global] Instance read_stream : ReadStream t :=
  {| rs_read := read; rs_ignore := ignore; rs_gcount := last_read |}.

Lemma fis_zlen_rest s : ok s -> zlen (rest s) = zlen (data s) - offset s.
Proof. intros []. unfold rest. rewrite zlen_drop by lia. lia. Qed.

Lemma zdrop_min n (l : list byte) : zdrop (Z.min (zlen l) n) l = zdrop n l.
Proof.
  destruct (Z.le_ge_cases (zlen l) n).
  - rewrite Z.min_l, !zdrop_ge by lia. done.
  - by rewrite Z.min_r by lia.
Qed.

Lemma ztake_min n (l : list byte) : ztake (Z.min (zlen l) n) l = ztake n l.
Proof.
  destruct (Z.le_ge_cases (zlen l) n).
  - rewrite Z.min_l, !ztake_ge by lia. done.
  - by rewrite Z.min_r by lia.
Qed.

#[global] Program Instance read_laws : ReadStreamLaws t := {|
  rs_valid := ok; rs_rest := rest |}.
Next Obligation.
  intros s n Hok Hn. simpl. pose proof (fis_zlen_rest s Hok) as HL. destruct Hok.
  unfold read. rewrite load_done by lia. rewrite bind_done. rewrite <- HL.
  fold (rest s). rewrite ztake_min. eexists. split; [done|]. simpl.
  split_and!; [unfold ok; simpl; lia| |lia].
  unfold rest at 1. simpl. rewrite <- zdrop_zdrop by lia. apply zdrop_min.
Qed.
Next Obligation.
  intros s n Hok Hn. simpl. pose proof (fis_zlen_rest s Hok) as HL. destruct Hok.
  unfold ignore. rewrite <- HL. eexists. split; [done|]. simpl.
  split; [unfold ok; simpl; lia|].
  unfold rest at 1. simpl. rewrite <- zdrop_zdrop by lia. apply zdrop_min.
Qed.

Lemma fis_ok_make d : ok (make d).
Proof. unfold ok, make; simpl. pose proof (zlen_nonneg d). lia. Qed.
Lemma fis_rest_make d : rest (make d) = d.
Proof. reflexivity. Qed.

End FastIStringStream.

(** ** base/buffer_stream.h *)
Module BufferWriteStream.

Record t := { buffer : list byte; offset : Z }.

Definition make (b : list byte) : t := {| buffer := b; offset := 0 |}.

Definition size (s : t) : Z := zlen (buffer s).
Definition remaining (s : t) : Z := zlen (buffer s) - offset s.
(** [position()] is a pointer into the buffer: the model keeps its index. *)
Definition position (s : t) : Z := offset s.

Definition write (s : t) (data : list byte) : outcome t :=
  _ ← mj_assert (offset s + zlen data <=? zlen (buffer s));
  b ← store (buffer s) (offset s) data;
  Done {| buffer := b; offset := offset s + zlen data |}.

(** The bound check of [skip] is commented out in the source. *)
Definition skip (s : t) (amount : Z) : t :=
  {| buffer := buffer s; offset := offset s + amount |}.

Definition reset (s : t) (position : Z) : outcome t :=
  _ ← mj_assert ((0 <=? position) && (position <? zlen (buffer s)));
  Done {| buffer := buffer s; offset := position |}.

(** What clients do through the pointer [position()]: store bytes there
    without a check, as multiplex/stream.h does, and [skip] over them. *)
Definition poke (s : t) (data : list byte) : outcome t :=
  b ← store (buffer s) (offset s) data;
  Done {| buffer := b; offset := offset s |}.

Definition ok (s : t) : Prop := 0 <= offset s <= zlen (buffer s).
Definition out (s : t) : list byte := ztake (offset s) (buffer s).
Definition fits (s : t) (n : Z) : bool := offset s + n <=? zlen (buffer s).

#[global] Instance write_stream : WriteStream t := {| ws_write := write |}.

Lemma poke_spec s d :
  ok s -> fits s (zlen d) = true -> exists s',
    poke s d = Done s' /\ zlen (buffer s') = zlen (buffer s) /\
    offset s' = offset s /\ ztake (offset s + zlen d) (buffer s') = out s ++ d.
Proof.
  unfold ok, fits. intros Hok ?%Z.leb_le. unfold poke.
  pose proof (store_done (buffer s) (offset s) d ltac:(lia) ltac:(lia)) as E.
  rewrite E, bind_done. eexists. split; [done|].
  split_and!; [by apply zlen_store in E|done|]. exact (store_prefix _ _ _ _ E).
Qed.

Lemma poke_oob s d : ok s -> fits s (zlen d) = false -> poke s d = Faulted Undefined.
Proof.
  unfold ok, fits. intros Hok ?%Z.leb_gt. unfold poke. by rewrite store_oob by lia.
Qed.

Lemma bws_write_spec s d :
  ok s -> fits s (zlen d) = true -> exists s',
    write s d = Done s' /\ ok s' /\ out s' = out s ++ d /\
    zlen (buffer s') = zlen (buffer s) /\ offset s' = offset s + zlen d.
Proof.
  unfold ok, fits. intros Hok Hf. pose proof (zlen_nonneg d). unfold write.
  rewrite Hf. apply Z.leb_le in Hf. cbn [mj_assert]. rewrite bind_done.
  pose proof (store_done (buffer s) (offset s) d ltac:(lia) ltac:(lia)) as E.
  rewrite E, bind_done. eexists. split; [done|]. unfold out; simpl.
  rewrite (zlen_store _ _ _ _ E), (store_prefix _ _ _ _ E). split_and!; done || lia.
Qed.

(** A checked write past the end is an assertion failure, never a store. *)
Lemma write_full s d : fits s (zlen d) = false -> write s d = Faulted Assertion.
Proof. unfold fits, write. by intros ->. Qed.

#[global] Program Instance write_laws : WriteStreamLaws t := {|
  ws_valid := ok; ws_out := out; ws_fits := fits |}.
Next Obligation.
  intros s d Hok Hf. destruct (bws_write_spec s d Hok Hf) as (s' & ? & ? & ? & Hl & Ho).
  exists s'. split_and!; [done..|]. intros n _. unfold fits. rewrite Hl, Ho. f_equal. lia.
Qed.
Next Obligation.
  unfold fits. intros s n m ? ?%Z.leb_le. apply Z.leb_le. lia.
Qed.

Lemma bws_ok_make b : ok (make b).
Proof. unfold ok, make; simpl. pose proof (zlen_nonneg b). lia. Qed.

End BufferWriteStream.

Module BufferReadStream.

Record t := { buffer : list byte; offset : Z; last_read : Z }.

Definition make (b : list byte) : t := {| buffer := b; offset := 0; last_read := 0 |}.

Definition remaining (s : t) : Z := zlen (buffer s) - offset s.

Definition fast_ignore (s : t) (to_ignore : Z) : t :=
  {| buffer := buffer s; offset := offset s + to_ignore; last_read := to_ignore |}.

Definition ignore (s : t) (amount : Z) : outcome t :=
  Done (fast_ignore s (Z.min amount (zlen (buffer s) - offset s))).

Definition read (s : t) (size : Z) : outcome (list byte * t) :=
  let to_read := Z.min size (zlen (buffer s) - offset s) in
  bs ← load (buffer s) (offset s) to_read;
  Done (bs, fast_ignore s to_read).

Definition ok (s : t) : Prop := 0 <= offset s <= zlen (buffer s).
Definition rest (s : t) : list byte := zdrop (offset s) (buffer s).

#[global] Instance read_stream : ReadStream t :=
  {| rs_read := read; rs_ignore := ignore; rs_gcount := last_read |}.

Lemma brs_zlen_rest s : ok s -> zlen (rest s) = remaining s.
Proof. intros []. unfold rest, remaining. rewrite zlen_drop by lia. lia. Qed.

Lemma rest_fast_ignore s n : ok s -> 0 <= n -> rest (fast_ignore s n) = zdrop n (rest s).
Proof. intros []. intros. unfold rest; simpl. by rewrite zdrop_zdrop by lia. Qed.

Lemma ok_fast_ignore s n : ok s -> 0 <= n <= remaining s -> ok (fast_ignore s n).
Proof. unfold ok, remaining; simpl. lia. Qed.

#[global] Program Instance read_laws : ReadStreamLaws t := {|
  rs_valid := ok; rs_rest := rest |}.
Next Obligation.
  intros s n Hok Hn. simpl. pose proof (brs_zlen_rest s Hok) as HL.
  pose proof (zlen_nonneg (rest s)). unfold read. unfold remaining in HL.
  rewrite load_done by (unfold ok in *; lia). rewrite bind_done, <- HL.
  fold (rest s). rewrite Z.min_comm, FastIStringStream.ztake_min. eexists. split; [done|].
  split_and!.
  - apply ok_fast_ignore; unfold remaining; [done|lia].
  - rewrite rest_fast_ignore by (done || lia). apply FastIStringStream.zdrop_min.
  - simpl. lia.
Qed.
Next Obligation.
  intros s n Hok Hn. simpl. pose proof (brs_zlen_rest s Hok) as HL.
  pose proof (zlen_nonneg (rest s)). unfold ignore. unfold remaining in HL.
  rewrite <- HL, Z.min_comm. eexists. split; [done|].
  split; [apply ok_fast_ignore; unfold remaining; [done|lia]|].
  rewrite rest_fast_ignore by (done || lia). apply FastIStringStream.zdrop_min.
Qed.

Lemma brs_ok_make b : ok (make b).
Proof. unfold ok, make; simpl. pose proof (zlen_nonneg b). lia. Qed.
Lemma brs_rest_make b : rest (make b) = b.
Proof. reflexivity. Qed.

End BufferReadStream.

(** ** base/crc_stream.h

    The checksum itself is [boost::crc]: a parameter, of which the wrappers
    use that bytes are processed in order, one call after another. *)
Class CrcType := {
  crc_state : Type;
  crc_init : crc_state;
  process_bytes : crc_state -> list byte -> crc_state;
  checksum : crc_state -> Z;
}.

Class CrcLaws `{CrcType} := {
  process_nil c : process_bytes c [] = c;
  process_app c a b : process_bytes c (a ++ b) = process_bytes (process_bytes c a) b;
}.

(** The checksum of a whole byte string. *)
Definition crc_of `{CrcType} (d : list byte) : Z := checksum (process_bytes crc_init d).

Module CrcStream.
Section CrcStream.
Context `{CrcType} {S : Type}.

Record reader := { rbase : S; rcrc : crc_state }.
Record writer := { wbase : S; wcrc : crc_state }.

Definition make_reader (b : S) : reader := {| rbase := b; rcrc := crc_init |}.
Definition make_writer (b : S) : writer := {| wbase := b; wcrc := crc_init |}.

Definition reader_read `{ReadStream S} (s : reader) (size : Z) : outcome (list byte * reader) :=
  '(bs, b) ← rs_read (rbase s) size;
  Done (bs, {| rbase := b; rcrc := process_bytes (rcrc s) bs |}).

(** [ignore] reads into scratch space: a negative size is a [length_error]
    of the vector's [resize]. *)
Definition reader_ignore `{ReadStream S} (s : reader) (size : Z) : outcome reader :=
  _ ← (if size <? 0 then Faulted (Exception 0) else Done tt);
  '(bs, b) ← rs_read (rbase s) size;
  Done {| rbase := b; rcrc := process_bytes (rcrc s) bs |}.

Definition writer_write `{WriteStream S} (s : writer) (data : list byte) : outcome writer :=
  b ← ws_write (wbase s) data;
  Done {| wbase := b; wcrc := process_bytes (wcrc s) data |}.

Definition reader_checksum (s : reader) : Z := checksum (rcrc s).
Definition writer_checksum (s : writer) : Z := checksum (wcrc s).

#[global] Instance reader_stream `{ReadStream S} : ReadStream reader := {|
  rs_read := reader_read; rs_ignore := reader_ignore;
  rs_gcount s := rs_gcount (rbase s) |}.
#[global] Instance writer_stream `{WriteStream S} : WriteStream writer := {|
  ws_write := writer_write |}.

#[global] Program Instance reader_laws `{ReadStreamLaws S} : ReadStreamLaws reader := {|
  rs_valid s := rs_valid (rbase s); rs_rest s := rs_rest (rbase s) |}.
Next Obligation.
  intros ?? s n Hv Hn. simpl. unfold reader_read.
  destruct (rs_read_law (rbase s) n Hv Hn) as (b & -> & ? & ? & ?).
  rewrite bind_done. eexists. split; [done|]. done.
Qed.
Next Obligation.
  intros ?? s n Hv Hn. simpl. unfold reader_ignore.
  rewrite (proj2 (Z.ltb_ge n 0)) by lia. rewrite bind_done.
  destruct (rs_read_law (rbase s) n Hv Hn) as (b & -> & ? & ? & ?).
  rewrite bind_done. eexists. split; [done|]. done.
Qed.

#[global] Program Instance writer_laws `{WriteStreamLaws S} : WriteStreamLaws writer := {|
  ws_valid s := ws_valid (wbase s); ws_out s := ws_out (wbase s);
  ws_fits s n := ws_fits (wbase s) n |}.
Next Obligation.
  intros ?? s d Hv Hf. simpl. unfold writer_write.
  destruct (ws_write_law (wbase s) d Hv Hf) as (b & -> & ? & ? & ?).
  rewrite bind_done. eexists. split; [done|]. done.
Qed.
Next Obligation. intros ?? s n m ? Hm. simpl in *. by eapply ws_fits_mono. Qed.

(** The wrappers checksum exactly the bytes that passed through them. *)
Lemma writer_write_crc `{WriteStreamLaws S} `{!CrcLaws} s d s' done_ :
  wcrc s = process_bytes crc_init done_ ->
  writer_write s d = Done s' -> wcrc s' = process_bytes crc_init (done_ ++ d).
Proof.
  unfold writer_write. intros Hc Hw. inv_bind. subst. simpl.
  by rewrite process_app, Hc.
Qed.
End CrcStream.
Arguments reader {_} S.
Arguments writer {_} S.
End CrcStream.

(** ** base/recording_stream.h *)
Module RecordingStream.
Section RecordingStream.
Context {S : Type} `{ReadStreamLaws S}.

Record t := { istr : S; ostr : FastOStringStream.vector }.

Definition make (s : S) : t := {| istr := s; ostr := FastOStringStream.empty |}.

Definition read (s : t) (size : Z) : outcome (list byte * t) :=
  '(bs, i) ← rs_read (istr s) size;
  o ← FastOStringStream.write (ostr s) bs;
  Done (bs, {| istr := i; ostr := o |}).

Definition ignore (s : t) (size : Z) : outcome t :=
  '(bs, i) ← rs_read (istr s) size;
  o ← FastOStringStream.write (ostr s) bs;
  Done {| istr := i; ostr := o |}.

Definition str (s : t) : list byte := FastOStringStream.str (ostr s).

#[global] Instance read_stream : ReadStream t := {|
  rs_read := read; rs_ignore := ignore; rs_gcount s := rs_gcount (istr s) |}.

Definition ok (s : t) : Prop := rs_valid (istr s) /\ FastOStringStream.ok (ostr s).

(** Everything taken from the stream, read or ignored, is recorded. *)
Lemma read_spec s n :
  ok s -> 0 <= n -> exists s',
    read s n = Done (ztake n (rs_rest (istr s)), s') /\ ok s' /\
    rs_rest (istr s') = zdrop n (rs_rest (istr s)) /\
    rs_gcount (istr s') = Z.min n (zlen (rs_rest (istr s))) /\
    str s' = str s ++ ztake n (rs_rest (istr s)).
Proof.
  intros [Hv Ho] Hn. unfold read.
  destruct (rs_read_law (istr s) n Hv Hn) as (i & -> & ? & ? & ?). rewrite bind_done.
  destruct (FastOStringStream.fos_write_spec (ostr s) (ztake n (rs_rest (istr s))) Ho)
    as (o & E & ? & ?). cbn beta iota. rewrite E, bind_done. eexists. split; [done|]. done.
Qed.

Lemma ignore_read s n :
  ignore s n = ('(_, s') ← read s n; Done s').
Proof.
  unfold ignore, read. destruct (rs_read (istr s) n) as [[bs i]|]; [|done].
  rewrite !bind_done. by destruct (FastOStringStream.write (ostr s) bs).
Qed.

#[global] Program Instance read_laws : ReadStreamLaws t := {|
  rs_valid := ok; rs_rest s := rs_rest (istr s) |}.
Next Obligation.
  intros s n Hv Hn. simpl. destruct (read_spec s n Hv Hn) as (s' & ? & ? & ? & ? & ?).
  eauto.
Qed.
Next Obligation.
  intros s n Hv Hn. simpl. destruct (read_spec s n Hv Hn) as (s' & E & ? & ? & ? & ?).
  rewrite ignore_read, E, bind_done. eauto.
Qed.
End RecordingStream.
Arguments t S : clear implicits.
End RecordingStream.

(** ** base/null_stream.h *)
Module NullWriteStream.
Definition t : Type := unit.
Definition write (s : t) (data : list byte) : outcome t := Done s.
#[global] Instance write_stream : WriteStream t := {| ws_write := write |}.
End NullWriteStream.

(** ** What clients of the interfaces use

    [wrote s d s'] says that [s'] is [s] after [d] was appended, [took s d s']
    that [s'] is [s] after [d] was read off its front.  Both compose. *)
Section clients.
Context {S : Type}.

Section writing.
Context `{WriteStreamLaws S}.

Definition wrote (s : S) (d : list byte) (s' : S) : Prop :=
  ws_valid s' /\ ws_out s' = ws_out s ++ d /\
  forall n, 0 <= n -> ws_fits s' n = ws_fits s (zlen d + n).

Lemma wrote_nil s : ws_valid s -> wrote s [] s.
Proof. intros. unfold wrote. split_and!; [done|by rewrite app_nil_r|done]. Qed.

Lemma wrote_app s d s1 e s2 : wrote s d s1 -> wrote s1 e s2 -> wrote s (d ++ e) s2.
Proof.
  intros (V1 & O1 & F1) (V2 & O2 & F2). unfold wrote. split_and!; [done|by rewrite O2, O1, app_assoc|].
  intros n Hn. pose proof (zlen_nonneg e). rewrite F2, F1 by lia. f_equal.
  rewrite zlen_app. lia.
Qed.

Lemma write_wrote s d :
  ws_valid s -> ws_fits s (zlen d) = true -> exists s', ws_write s d = Done s' /\ wrote s d s'.
Proof. intros Hv Hf. destruct (ws_write_law s d Hv Hf) as (s' & ? & ? & ? & ?). by exists s'. Qed.

Lemma fits_app s d s' n :
  wrote s d s' -> 0 <= n -> ws_fits s (zlen d + n) = true -> ws_fits s' n = true.
Proof. intros (_ & _ & F) Hn ?. by rewrite F. Qed.

Lemma fits_app_l s n m : 0 <= n -> 0 <= m -> ws_fits s (n + m) = true -> ws_fits s n = true.
Proof. intros. eapply ws_fits_mono; [|done]. lia. Qed.
End writing.

Section reading.
Context `{ReadStreamLaws S}.

Definition took (s : S) (d : list byte) (s' : S) : Prop :=
  rs_valid s' /\ rs_rest s = d ++ rs_rest s'.

Lemma took_app s d s1 e s2 : took s d s1 -> took s1 e s2 -> took s (d ++ e) s2.
Proof. intros (_ & E1) (V2 & E2). split; [done|]. by rewrite E1, E2, app_assoc. Qed.

Lemma read_took s d tail :
  rs_valid s -> rs_rest s = d ++ tail -> exists s',
    rs_read s (zlen d) = Done (d, s') /\ took s d s' /\ rs_rest s' = tail /\
    rs_gcount s' = zlen d.
Proof.
  intros Hv E. destruct (rs_read_law s (zlen d) Hv (zlen_nonneg d)) as (s' & Hr & V & R & G).
  rewrite E, ztake_app_len in Hr. rewrite E, zdrop_app_len in R.
  exists s'. unfold took. rewrite R. split_and!; [done..|].
  rewrite G, E, zlen_app. pose proof (zlen_nonneg tail). lia.
Qed.

Lemma read_short s n :
  rs_valid s -> zlen (rs_rest s) < n -> exists s',
    rs_read s n = Done (rs_rest s, s') /\ rs_valid s' /\ rs_rest s' = [] /\
    rs_gcount s' = zlen (rs_rest s).
Proof.
  intros Hv Hn. pose proof (zlen_nonneg (rs_rest s)).
  destruct (rs_read_law s n Hv ltac:(lia)) as (s' & Hr & V & R & G).
  rewrite ztake_ge in Hr by lia. rewrite zdrop_ge in R by lia.
  exists s'. split_and!; [done..|lia].
Qed.
End reading.
End clients.

(** ** Whole writers and readers

    [emits f d]: the writer [f] appends [d] to any stream with room for it.
    [reads f d a]: the reader [f] finds [a] where [d] lies and stops behind it.
    Both go through sequential composition. *)
Section combinators.
Context {S : Type}.

Section emitting.
Context `{WriteStreamLaws S}.
Implicit Types f g : S -> outcome S.

Definition emits f (d : list byte) : Prop := forall s,
  ws_valid s -> ws_fits s (zlen d) = true -> exists s', f s = Done s' /\ wrote s d s'.

Lemma emits_nil : emits (fun s => Done s) [].
Proof. intros s Hv _. exists s. split; [done|]. by apply wrote_nil. Qed.

Lemma emits_write d : emits (fun s => ws_write s d) d.
Proof. intros s Hv Hf. by apply write_wrote. Qed.

Lemma emits_bind f g d e : emits f d -> emits g e -> emits (fun s => f s ≫= g) (d ++ e).
Proof.
  intros Hf Hg s Hv Hfit. rewrite zlen_app in Hfit.
  pose proof (zlen_nonneg d). pose proof (zlen_nonneg e).
  destruct (Hf s Hv) as (s1 & E1 & W1); [by eapply fits_app_l, Hfit|].
  destruct (Hg s1) as (s2 & E2 & W2); [apply W1|by eapply fits_app|].
  exists s2. split; [by rewrite E1, bind_done|]. by eapply wrote_app.
Qed.

Lemma emits_ext f g d : (forall s, f s = g s) -> emits f d -> emits g d.
Proof. intros E Hf s Hv Hfit. rewrite <- E. by apply Hf. Qed.
End emitting.

Section reading.
Context `{ReadStreamLaws S} {A B : Type}.

Definition reads {C} (f : S -> outcome (C * S)) (d : list byte) (c : C) : Prop := forall s tail,
  rs_valid s -> rs_rest s = d ++ tail ->
  exists s', f s = Done (c, s') /\ rs_valid s' /\ rs_rest s' = tail.

Lemma reads_ret (a : A) : reads (fun s => Done (a, s)) [] a.
Proof. intros s tail Hv E. by exists s. Qed.

Lemma reads_bind (f : S -> outcome (A * S)) (g : A -> S -> outcome (B * S)) d e a b :
  reads f d a -> reads (g a) e b ->
  reads (fun s => '(a, s) ← f s; g a s) (d ++ e) b.
Proof.
  intros Hf Hg s tail Hv E. rewrite <- app_assoc in E.
  destruct (Hf s _ Hv E) as (s1 & E1 & V1 & R1).
  destruct (Hg s1 _ V1 R1) as (s2 & E2 & V2 & R2).
  exists s2. by rewrite E1, bind_done.
Qed.

Lemma reads_ext {C} (f g : S -> outcome (C * S)) d c :
  (forall s, f s = g s) -> reads f d c -> reads g d c.
Proof. intros E Hf s tail. rewrite <- E. apply Hf. Qed.

Lemma reads_done (f : S -> outcome (A * S)) (h : A -> B) d a :
  reads f d a -> reads (fun s => '(a, s) ← f s; Done (h a, s)) d (h a).
Proof.
  intros Hf s tail Hv E. destruct (Hf s tail Hv E) as (s1 & -> & V1 & R1).
  exists s1. by rewrite bind_done.
Qed.
End reading.
End combinators.

(** A writer is a program for any stream.  [writes f d]: whatever the stream
    is, [f] is a fixed series of writes of the pieces of [d]; nothing is asked
    of the stream, so this also tells what checksumming and counting streams
    see. *)
Definition writer : Type := forall S `{WriteStream S}, S -> outcome S.

Fixpoint write_all {S} `{WriteStream S} (ds : list (list byte)) (s : S) : outcome S :=
  match ds with
  | [] => Done s
  | d :: ds => s ← ws_write s d; write_all ds s
  end.

Definition writes (f : writer) (d : list byte) : Prop := exists ds,
  concat ds = d /\ forall S (W : WriteStream S) (s : S), f S W s = write_all ds s.

Lemma write_all_app {S} `{WriteStream S} ds es (s : S) :
  write_all (ds ++ es) s = (write_all ds s ≫= write_all es).
Proof.
  revert s. induction ds as [|d ds IH]; intros s; [done|].
  cbn [app write_all]. rewrite bind_assoc. destruct (ws_write s d); [|done].
  rewrite !bind_done. apply IH.
Qed.

Lemma writes_nil : writes (fun _ _ s => Done s) [].
Proof. by exists []. Qed.

Lemma writes_write d : writes (fun _ _ s => ws_write s d) d.
Proof.
  exists [d]. split; [apply app_nil_r|]. intros S W s. cbn [write_all].
  by destruct (ws_write s d).
Qed.

Lemma writes_bind (f g : writer) d e :
  writes f d -> writes g e -> writes (fun S W s => f S W s ≫= g S W) (d ++ e).
Proof.
  intros (ds & <- & Hf) (es & <- & Hg). exists (ds ++ es). split; [apply concat_app|].
  intros S W s. rewrite Hf, write_all_app. destruct (write_all ds s); [|done].
  rewrite !bind_done. apply Hg.
Qed.

Lemma writes_ext (f g : writer) d :
  (forall S W s, f S W s = g S W s) -> writes f d -> writes g d.
Proof. intros E (ds & Hd & Hf). exists ds. split; [done|]. intros S W s. by rewrite <- E. Qed.

Lemma write_all_emits {S} `{WriteStreamLaws S} ds : emits (S := S) (write_all ds) (concat ds).
Proof.
  induction ds as [|d ds IH]; [exact emits_nil|]. exact (emits_bind _ _ _ _ (emits_write d) IH).
Qed.

Lemma writes_emits {S} `{WriteStreamLaws S} (f : writer) d : writes f d -> emits (S := S) (f S _) d.
Proof.
  intros (ds & <- & Hf). eapply emits_ext; [intros s; symmetry; apply Hf|]. apply write_all_emits.
Qed.

(** What the laws of the buffer stream say in numbers. *)
Lemma buffer_wrote (w w' : BufferWriteStream.t) d :
  BufferWriteStream.ok w -> wrote w d w' ->
  BufferWriteStream.ok w' /\ BufferWriteStream.out w' = BufferWriteStream.out w ++ d /\
  BufferWriteStream.offset w' = BufferWriteStream.offset w + zlen d /\
  zlen (BufferWriteStream.buffer w') = zlen (BufferWriteStream.buffer w).
Proof.
  intros V (V' & O & F). cbn [ws_valid ws_out ws_fits BufferWriteStream.write_laws] in *.
  assert (E : BufferWriteStream.offset w' = BufferWriteStream.offset w + zlen d).
  { apply (f_equal zlen) in O. unfold BufferWriteStream.out, BufferWriteStream.ok in *.
    rewrite zlen_app, !zlen_take in O by lia. lia. }
  split_and!; [exact V'|done|done|].
  unfold BufferWriteStream.ok, BufferWriteStream.fits in *.
  pose proof (F (zlen (BufferWriteStream.buffer w') - BufferWriteStream.offset w') ltac:(lia)) as F1.
  pose proof (F (zlen (BufferWriteStream.buffer w') - BufferWriteStream.offset w' + 1) ltac:(lia)) as F2.
  destruct (Z.leb_spec (BufferWriteStream.offset w' + (zlen (BufferWriteStream.buffer w') -
    BufferWriteStream.offset w')) (zlen (BufferWriteStream.buffer w'))); [|lia].
  destruct (Z.leb_spec (BufferWriteStream.offset w' + (zlen (BufferWriteStream.buffer w') -
    BufferWriteStream.offset w' + 1)) (zlen (BufferWriteStream.buffer w'))); [lia|].
  symmetry in F1, F2. apply Z.leb_le in F1. apply Z.leb_gt in F2. lia.
Qed.
