(* ===== verification/TimeConversions.v ===== *)
(** * base/time_conversions.cc: points in time and their 64-bit encodings

    The types of points in time and of durations are boost's [ptime] and
    [time_duration] and are parameters, with the operations the conversions call.  Only the integer conversions are
    modelled; the [double] ones are floating-point arithmetic. *)
From S2P Require Import Prelude.

Definition int64_max : Z := 2 ^ 63 - 1.
Definition int64_min : Z := - 2 ^ 63.

(** boost::posix_time, as far as the conversions use it. [from_epoch] is
    [kEpoch + time_duration(0, 0, 0, ticks)] and [epoch_us] is
    [(t - kEpoch).total_microseconds()]; [seconds_and_ticks s n] is
    [seconds(s) + time_duration(0, 0, 0, n)] and [total_us] is
    [total_microseconds()].  [ptime_in_range] and [duration_in_range] tell the
    microsecond counts boost represents as ordinary values. *)
Class BoostTime := {
  ptime : Type;
  pos_infin : ptime;
  neg_infin : ptime;
  not_a_date_time : ptime;
  is_pos_infinity : ptime -> bool;
  is_neg_infinity : ptime -> bool;
  is_special : ptime -> bool;
  ticks_per_second : Z;
  from_epoch : Z -> ptime;
  epoch_us : ptime -> Z;
  ptime_in_range : Z -> bool;
  duration : Type;
  dur_pos_infin : duration;
  dur_neg_infin : duration;
  dur_not_a_date_time : duration;
  dur_is_pos_infinity : duration -> bool;
  dur_is_neg_infinity : duration -> bool;
  dur_is_special : duration -> bool;
  seconds_and_ticks : Z -> Z -> duration;
  total_us : duration -> Z;
  duration_in_range : Z -> bool;
}.

(** Its documented behaviour: the special values are told apart, a point a
    whole number of microseconds from the epoch is that many microseconds
    from it, and is not special. *)
Class BoostTimeLaws `{BoostTime} := {
  tps_micro : exists k, 0 < k /\ ticks_per_second = k * 1000000;
  pos_infin_is : is_pos_infinity pos_infin = true;
  neg_infin_is : is_neg_infinity neg_infin = true;
  neg_infin_not_pos : is_pos_infinity neg_infin = false;
  nadt_special : is_special not_a_date_time = true;
  nadt_not_inf : is_pos_infinity not_a_date_time = false /\
                 is_neg_infinity not_a_date_time = false;
  from_epoch_ordinary us : ptime_in_range us = true ->
    let t := from_epoch (us * (ticks_per_second / 1000000)) in
    is_pos_infinity t = false /\ is_neg_infinity t = false /\ is_special t = false /\
    epoch_us t = us;
  dur_pos_infin_is : dur_is_pos_infinity dur_pos_infin = true;
  dur_neg_infin_is : dur_is_neg_infinity dur_neg_infin = true;
  dur_neg_infin_not_pos : dur_is_pos_infinity dur_neg_infin = false;
  dur_nadt_special : dur_is_special dur_not_a_date_time = true;
  dur_nadt_not_inf : dur_is_pos_infinity dur_not_a_date_time = false /\
                     dur_is_neg_infinity dur_not_a_date_time = false;
  seconds_ordinary s us : duration_in_range (s * 1000000 + us) = true ->
    let d := seconds_and_ticks s (us * (ticks_per_second / 1000000)) in
    dur_is_pos_infinity d = false /\ dur_is_neg_infinity d = false /\
    dur_is_special d = false /\ total_us d = s * 1000000 + us;
  duration_zero : duration_in_range 0 = true;
}.

Section conversions.
Context `{BoostTime}.

Definition ConvertEpochMicrosecondsToPtime (value : Z) : ptime :=
  if value =? int64_max then pos_infin
  else if value =? int64_min then neg_infin
  else if value =? int64_min + 1 then not_a_date_time
  else from_epoch (value * (ticks_per_second / 1000000)).

Definition ConvertPtimeToEpochMicroseconds (time : ptime) : Z :=
  if is_pos_infinity time then int64_max
  else if is_neg_infinity time then int64_min
  else if is_special time then int64_min + 1
  else epoch_us time.

Definition ConvertMicrosecondsToDuration (time_us : Z) : duration :=
  if time_us =? int64_min then dur_neg_infin
  else if time_us =? int64_max then dur_pos_infin
  else if time_us =? int64_min + 1 then dur_not_a_date_time
  else
    let int_time := Z.quot time_us 1000000 in
    let counts := (time_us - int_time * 1000000) * (ticks_per_second / 1000000) in
    seconds_and_ticks int_time counts.

Definition ConvertDurationToMicroseconds (time : duration) : Z :=
  if dur_is_pos_infinity time then int64_max
  else if dur_is_neg_infinity time then int64_min
  else if dur_is_special time then int64_min + 1
  else total_us time.

(** The microsecond counts that stand for a special value or that boost can
    represent: what a stored time is. *)
Definition special_us (us : Z) : bool :=
  (us =? int64_max) || (us =? int64_min) || (us =? int64_min + 1).
Definition ptime_us (us : Z) : bool := special_us us || ptime_in_range us.
Definition duration_us (us : Z) : bool := special_us us || duration_in_range us.

Lemma micros_roundtrip `{!BoostTimeLaws} us :
  ptime_us us = true ->
  ConvertPtimeToEpochMicroseconds (ConvertEpochMicrosecondsToPtime us) = us.
Proof.
  unfold ConvertPtimeToEpochMicroseconds, ConvertEpochMicrosecondsToPtime, ptime_us, special_us.
  destruct (Z.eqb_spec us int64_max) as [->|]; [by rewrite pos_infin_is|].
  destruct (Z.eqb_spec us int64_min) as [->|].
  { by rewrite neg_infin_not_pos, neg_infin_is. }
  destruct (Z.eqb_spec us (int64_min + 1)) as [->|].
  { destruct nadt_not_inf as [-> ->]. by rewrite nadt_special. }
  simpl orb. intros Hus. destruct (from_epoch_ordinary us) as (-> & -> & -> & ->); done.
Qed.

Lemma duration_roundtrip `{!BoostTimeLaws} us :
  duration_us us = true ->
  ConvertDurationToMicroseconds (ConvertMicrosecondsToDuration us) = us.
Proof.
  unfold ConvertDurationToMicroseconds, ConvertMicrosecondsToDuration, duration_us, special_us.
  destruct (Z.eqb_spec us int64_min) as [->|].
  { by rewrite dur_neg_infin_not_pos, dur_neg_infin_is. }
  destruct (Z.eqb_spec us int64_max) as [->|]; [by rewrite dur_pos_infin_is|].
  destruct (Z.eqb_spec us (int64_min + 1)) as [->|].
  { destruct dur_nadt_not_inf as [-> ->]. by rewrite dur_nadt_special. }
  simpl orb. intros Hus. cbv zeta.
  destruct (seconds_ordinary (Z.quot us 1000000) (us - Z.quot us 1000000 * 1000000))
    as (-> & -> & -> & ->); [|lia].
  rewrite <- Hus. f_equal. lia.
Qed.
End conversions.

(** A concrete clock with microsecond ticks, for the witnesses. *)
Inductive micro_time := MPos | MNeg | MNadt | MAt (us : Z).

#[export] Instance micro_clock : BoostTime := {|
  ptime := micro_time; pos_infin := MPos; neg_infin := MNeg; not_a_date_time := MNadt;
  is_pos_infinity t := match t with MPos => true | _ => false end;
  is_neg_infinity t := match t with MNeg => true | _ => false end;
  is_special t := match t with MAt _ => false | _ => true end;
  ticks_per_second := 1000000;
  from_epoch := MAt;
  epoch_us t := match t with MAt us => us | _ => 0 end;
  ptime_in_range _ := true;
  duration := micro_time; dur_pos_infin := MPos; dur_neg_infin := MNeg;
  dur_not_a_date_time := MNadt;
  dur_is_pos_infinity t := match t with MPos => true | _ => false end;
  dur_is_neg_infinity t := match t with MNeg => true | _ => false end;
  dur_is_special t := match t with MAt _ => false | _ => true end;
  seconds_and_ticks s n := MAt (s * 1000000 + n);
  total_us t := match t with MAt us => us | _ => 0 end;
  duration_in_range _ := true |}.

#[export] Instance micro_clock_laws : BoostTimeLaws.
Proof.
  constructor; try done.
  - exists 1. split; [lia|done].
  - intros us _. cbn. by rewrite Z.mul_1_r.
  - intros s us _. cbn [total_us seconds_and_ticks micro_clock ticks_per_second].
    change (1000000 / 1000000) with 1. by rewrite Z.mul_1_r.
Qed.
