(* ===== verification/TelemetryFormat.v ===== *)
(** * telemetry/format.h: the primitive types of the telemetry format

    [Format::GetVaruintSize], the writer [WriteStream] and the reader
    [ReadStream], each over any stream of Streams.v. *)
From S2P Require Import Prelude Varuint Streams TimeConversions.

Definition kHeader : list byte :=
  map byte.of_Z [0x54; 0x4c; 0x4f; 0x47; 0x30; 0x30; 0x30; 0x33].
Definition kMaxStringSize : Z := Z.shiftl 1 24.

(** [enum class Type] *)
Inductive Type_ :=
  | kFinal | kNull | kBoolean | kFixedInt | kFixedUInt | kVarint | kVaruint
  | kFloat32 | kFloat64 | kBytes | kString
  | kObject | kEnum | kArray | kFixedArray | kMap | kUnion | kTimestamp | kDuration.

Definition type_code (t : Type_) : Z :=
  match t with
  | kFinal => 0 | kNull => 1 | kBoolean => 2 | kFixedInt => 3 | kFixedUInt => 4
  | kVarint => 5 | kVaruint => 6 | kFloat32 => 7 | kFloat64 => 8 | kBytes => 9
  | kString => 10
  | kObject => 16 | kEnum => 17 | kArray => 18 | kFixedArray => 19 | kMap => 20
  | kUnion => 21 | kTimestamp => 22 | kDuration => 23
  end.

Definition all_types : list Type_ :=
  [kFinal; kNull; kBoolean; kFixedInt; kFixedUInt; kVarint; kVaruint; kFloat32;
   kFloat64; kBytes; kString; kObject; kEnum; kArray; kFixedArray; kMap; kUnion;
   kTimestamp; kDuration].

#[export] Instance Type_eq_dec : EqDecision Type_.
Proof. solve_decision. Defined.

Definition type_of_code (c : Z) : option Type_ :=
  List.find (fun t => type_code t =? c) all_types.

(** [enum class BlockType] and [enum class BlockDataFlags] *)
Definition kSchema : Z := 1.
Definition kData : Z := 2.
Definition kIndex : Z := 3.
Definition kCompressionDictionary : Z := 4.
Definition kSeekMarker : Z := 5.

Definition kPreviousOffset : Z := Z.shiftl 1 0.
Definition kTimestampFlag : Z := Z.shiftl 1 1.
Definition kChecksum : Z := Z.shiftl 1 2.
Definition kSnappy : Z := Z.shiftl 1 4.

(** [GetVaruintSize]: the do/while loop, one unit of fuel an iteration. *)
Fixpoint GetVaruintSize_loop (fuel : nat) (value result : Z) : outcome Z :=
  match fuel with
  | O => Faulted OutOfFuel
  | S fuel =>
      let result := u64 (result + 1) in
      if value <=? 0x7f then Done result
      else let value := Z.shiftr value 7 in
           if value =? 0 then Done result else GetVaruintSize_loop fuel value result
  end.

Definition GetVaruintSize (value : Z) : outcome Z := GetVaruintSize_loop 10 value 0.

(** ** class WriteStream *)
Module TelemetryWriter.
Section Writer.
Context {S : Type} `{WriteStream S}.

Definition RawWrite (s : S) (data : list byte) : outcome S := ws_write s data.

(** [WriteScalar<T>] of a value of [n] bytes: its object representation,
    little-endian and, for the signed types, two's complement. *)
Definition WriteScalar (n : nat) (s : S) (value : Z) : outcome S :=
  RawWrite s (le_split n value).

Definition Write_bool (s : S) (value : bool) : outcome S :=
  WriteScalar 1 s (if value then 1 else 0).
Definition Write_8 (s : S) (v : Z) : outcome S := WriteScalar 1 s v.
Definition Write_16 (s : S) (v : Z) : outcome S := WriteScalar 2 s v.
Definition Write_32 (s : S) (v : Z) : outcome S := WriteScalar 4 s v.
Definition Write_64 (s : S) (v : Z) : outcome S := WriteScalar 8 s v.

Fixpoint WriteVaruint_loop (fuel : nat) (s : S) (value : Z) : outcome S :=
  match fuel with
  | O => Faulted OutOfFuel
  | Datatypes.S fuel =>
      let word := Z.land value 0x7f in
      let more := 0x7f <? value in
      let word := if more then Z.lor word 0x80 else word in
      s ← Write_8 s word;
      let value := Z.shiftr value 7 in
      if value =? 0 then Done s else WriteVaruint_loop fuel s value
  end.

Definition WriteVaruintReal (s : S) (value : Z) : outcome S := WriteVaruint_loop 10 s value.

(** [WriteVaruint<T>] converts its argument to [uint64_t] first. *)
Definition WriteVaruint (s : S) (value : Z) : outcome S := WriteVaruintReal s (u64 value).

Definition WriteVarint (s : S) (value : Z) : outcome S :=
  WriteVaruint s (u64 (Z.lxor (Z.shiftr value 63) (s64 (Z.shiftl value 1)))).

Definition WriteString (s : S) (data : list byte) : outcome S :=
  s ← WriteVaruint s (zlen data);
  RawWrite s data.

Definition Write_ptime `{BoostTime} (s : S) (timestamp : ptime) : outcome S :=
  WriteScalar 8 s (ConvertPtimeToEpochMicroseconds timestamp).
End Writer.
End TelemetryWriter.

(** ** class ReadStream *)
Module TelemetryReader.
Section Reader.
Context {S : Type} `{ReadStream S}.

Definition Ignore (s : S) (size : Z) : outcome S := rs_ignore s size.

(** The bytes stored and whether all of them were. *)
Definition RawRead (s : S) (size : Z) : outcome (option (list byte) * S) :=
  '(bs, s) ← rs_read s size;
  Done (if rs_gcount s =? size then Some bs else None, s).

(** [ReadScalar<T>] for an unsigned [T] of [n] bytes; a signed [T] reads the
    same bytes and converts. *)
Definition ReadScalar (n : nat) (s : S) : outcome (option Z * S) :=
  '(maybe, s) ← RawRead s (Z.of_nat n);
  Done (option_map le_combine maybe, s).

Definition ReadSigned (n : nat) (s : S) : outcome (option Z * S) :=
  '(maybe, s) ← ReadScalar n s;
  Done (option_map (swrap (8 * Z.of_nat n)) maybe, s).

(** [static_cast<uint64_t>(value & 0x7f) << position] is undefined once
    [position] reaches 64. *)
Definition shift_left_u64 (x position : Z) : outcome Z :=
  if position <? 64 then Done (u64 (Z.shiftl x position)) else Faulted Undefined.

Fixpoint ReadVaruint_loop (fuel : nat) (s : S) (result position : Z)
    : outcome (option Z * S) :=
  match fuel with
  | O => Faulted OutOfFuel
  | Datatypes.S fuel =>
      '(maybe_value, s) ← ReadScalar 1 s;
      match maybe_value with
      | None => Done (None, s)
      | Some value =>
          x ← shift_left_u64 (Z.land value 0x7f) position;
          let result := Z.lor result x in
          let position := position + 7 in
          if 0x80 <=? value then ReadVaruint_loop fuel s result position
          else Done (Some result, s)
      end
  end.

(** Eleven iterations reach the undefined shift, so the fuel never runs out. *)
Definition ReadVaruint (s : S) : outcome (option Z * S) := ReadVaruint_loop 11 s 0 0.

Definition ReadVarint (s : S) : outcome (option Z * S) :=
  '(maybe_encoded, s) ← ReadVaruint s;
  Done (option_map (fun encoded =>
           s64 (u64 (Z.shiftr encoded 1 - u64 (Z.land encoded 1 * encoded))))
          maybe_encoded, s).

Definition ReadString (s : S) : outcome (option (list byte) * S) :=
  '(maybe_size, s) ← ReadVaruint s;
  match maybe_size with
  | None => Done (None, s)
  | Some size =>
      _ ← mj_assert (negb (kMaxStringSize <? size));
      RawRead s size
  end.

Definition ReadTimestamp `{BoostTime} (s : S) : outcome (option ptime * S) :=
  '(maybe_data, s) ← ReadSigned 8 s;
  Done (option_map ConvertEpochMicrosecondsToPtime maybe_data, s).
End Reader.
End TelemetryReader.

(** ** Lemmas *)

Lemma u64_fuel v : in_u 64 v -> 0 <= v < 128 ^ Z.of_nat 10.
Proof.
  intros [? Hv]. split; [done|]. eapply Z.lt_le_trans; [exact Hv|].
  apply Z.leb_le. reflexivity.
Qed.

Lemma tel_GetVaruintSize_loop_spec fuel v r :
  0 <= v < 128 ^ Z.of_nat fuel -> (0 < fuel)%nat -> 0 <= r -> r + vu_len v < 2 ^ 64 ->
  GetVaruintSize_loop fuel v r = Done (r + vu_len v).
Proof.
  revert v r; induction fuel as [|n IH]; intros v r Hv Hf Hr Hb; [lia|].
  cbn [GetVaruintSize_loop]. pose proof (vu_len_pos v ltac:(lia)).
  rewrite (uwrap_id 64 (r + 1)) by (unfold in_u; lia).
  destruct (Z.leb_spec v 0x7f); [by rewrite vu_len_small by lia|].
  rewrite shiftr7, div128_zero, (proj2 (Z.ltb_ge v 128)) by lia.
  rewrite vu_len_step in * by lia.
  destruct n as [|n]; [simpl in Hv; lia|].
  rewrite IH; [f_equal; lia|by apply div128_bound|lia..].
Qed.

Lemma vu_len_u64 v : in_u 64 v -> 1 <= vu_len v <= 10.
Proof.
  intros Hv. split; [apply vu_len_pos; unfold in_u in *; lia|].
  unfold vu_len. destruct (Z.eqb_spec v 0); [lia|]. unfold in_u in *.
  assert (Z.log2 v <= 63) by (apply Z.lt_succ_r; apply Z.log2_lt_pow2; simpl; lia).
  assert (Z.log2 v / 7 <= 63 / 7) by (apply Z.div_le_mono; lia).
  change (63 / 7) with 9 in *. lia.
Qed.

Section writer_lemmas.
Import TelemetryWriter.
Context {S : Type} `{WriteStreamLaws S}.

Lemma tel_WriteScalar_wrote n s v :
  ws_valid s -> ws_fits s (Z.of_nat n) = true ->
  exists s', WriteScalar n s v = Done s' /\ wrote s (le_split n v) s'.
Proof. intros. apply write_wrote; [done|]. by rewrite zlen_le_split. Qed.

Lemma Write_8_byte s v :
  ws_valid s -> ws_fits s 1 = true ->
  exists s', Write_8 s v = Done s' /\ wrote s [byte.of_Z v] s'.
Proof. apply (tel_WriteScalar_wrote 1). Qed.

Lemma WriteVaruint_loop_wrote fuel s v :
  0 <= v < 128 ^ Z.of_nat fuel -> (0 < fuel)%nat ->
  ws_valid s -> ws_fits s (vu_len v) = true ->
  exists s', WriteVaruint_loop fuel s v = Done s' /\ wrote s (vu_bytes fuel v) s'.
Proof.
  revert s v; induction fuel as [|n IH]; intros s v Hv Hf Hs Hfit; [lia|].
  cbn [WriteVaruint_loop vu_bytes]. pose proof (vu_len_pos v ltac:(lia)).
  rewrite shiftr7, div128_zero, land7f by lia.
  destruct (Write_8_byte s (if 0x7f <? v then Z.lor (v mod 128) 0x80 else v mod 128))
    as (s1 & E1 & W1); [done|eapply ws_fits_mono; [|done]; lia|].
  rewrite E1, bind_done. pose proof (Z.mod_pos_bound v 128 ltac:(lia)).
  destruct (Z.ltb_spec v 128).
  - rewrite (proj2 (Z.ltb_ge 0x7f v)) in W1 by lia. rewrite Z.mod_small in W1 by lia. eauto.
  - rewrite (proj2 (Z.ltb_lt 0x7f v)), lor80 in W1 by lia.
    destruct n as [|n]; [simpl in Hv; lia|].
    destruct (IH s1 (v / 128)) as (s2 & E2 & W2).
    + by apply div128_bound.
    + lia.
    + apply W1.
    + rewrite vu_len_step in Hfit by lia.
      eapply fits_app; [exact W1|apply Z.le_trans with 1; [lia|apply vu_len_pos, Z.div_pos; lia]|done].
    + rewrite E2. eexists. split; [done|]. exact (wrote_app _ [_] _ _ _ W1 W2).
Qed.

Lemma WriteVaruint_wrote s v :
  in_u 64 v -> ws_valid s -> ws_fits s (vu_len v) = true ->
  exists s', WriteVaruint s v = Done s' /\ wrote s (vu_bytes 10 v) s'.
Proof.
  intros Hv Hs Hf. unfold WriteVaruint, WriteVaruintReal. rewrite uwrap_id by done.
  apply WriteVaruint_loop_wrote; [by apply u64_fuel|lia|done..].
Qed.

Lemma WriteString_wrote s d :
  in_u 64 (zlen d) -> ws_valid s -> ws_fits s (vu_len (zlen d) + zlen d) = true ->
  exists s', WriteString s d = Done s' /\ wrote s (vu_bytes 10 (zlen d) ++ d) s'.
Proof.
  intros Hd Hs Hf. unfold WriteString. pose proof (vu_len_u64 _ Hd). pose proof (zlen_nonneg d).
  destruct (WriteVaruint_wrote s (zlen d) Hd Hs) as (s1 & -> & W1).
  { eapply ws_fits_mono; [|exact Hf]. lia. }
  rewrite bind_done. destruct (write_wrote s1 d) as (s2 & E & W2); [apply W1| |].
  { eapply fits_app; [exact W1|lia|].
    rewrite zlen_vu_bytes by (by apply u64_fuel || lia). done. }
  exists s2. split; [exact E|]. exact (wrote_app _ _ _ _ _ W1 W2).
Qed.
End writer_lemmas.

(** The zigzag of the writer, in 64-bit arithmetic, is the mathematical one. *)
Lemma shiftr63 v : in_s 64 v -> Z.shiftr v 63 = if v <? 0 then -1 else 0.
Proof.
  unfold in_s. intros. rewrite Z.shiftr_div_pow2 by lia. destruct (Z.ltb_spec v 0).
  - symmetry. apply Z.div_unique with (v + 2 ^ 63); simpl in *; lia.
  - apply Z.div_small. simpl in *; lia.
Qed.

Lemma lxor_m1 x : Z.lxor (-1) x = - x - 1.
Proof. rewrite Z.lxor_m1_l. unfold Z.lnot. lia. Qed.

Lemma varint_zigzag v :
  in_s 64 v -> u64 (Z.lxor (Z.shiftr v 63) (s64 (Z.shiftl v 1))) = zigzag v.
Proof.
  intros Hv. rewrite (shiftr63 v Hv), Z.shiftl_mul_pow2 by lia.
  change (2 ^ 1) with 2. unfold zigzag, in_s in *. simpl in Hv.
  destruct (Z.ltb_spec v 0).
  - rewrite lxor_m1. unfold uwrap, swrap, uwrap.
    change (2 ^ 64) with 18446744073709551616. change (2 ^ (64 - 1)) with 9223372036854775808.
    case_match; Z.div_mod_to_equations; lia.
  - rewrite Z.lxor_0_l, uwrap_swrap by lia. rewrite uwrap_id; [lia|].
    unfold in_u. simpl. lia.
Qed.

Lemma zigzag_range v : in_s 64 v -> in_u 64 (zigzag v).
Proof. unfold in_s, in_u, zigzag. simpl. intros. destruct (Z.ltb_spec v 0); lia. Qed.

Lemma unzigzag_64 e :
  in_u 64 e -> s64 (u64 (Z.shiftr e 1 - u64 (Z.land e 1 * e))) = unzigzag e.
Proof.
  intros He. rewrite swrap_uwrap by lia. change 1 with (Z.ones 1) at 2.
  rewrite Z.shiftr_div_pow2, Z.land_ones by lia. change (2 ^ 1) with 2.
  unfold unzigzag, in_u in *. simpl in He. pose proof (Z.div_mod e 2 ltac:(lia)).
  rewrite Zmod_even in *. destruct (Z.even e).
  - rewrite Z.mul_0_l. change (u64 0) with 0. rewrite Z.sub_0_r.
    apply swrap_id; [lia|]. unfold in_s. simpl. lia.
  - rewrite Z.mul_1_l, uwrap_id by (unfold in_u; simpl; lia).
    rewrite swrap_id; [lia|lia|]. unfold in_s. simpl. lia.
Qed.

Section reader_lemmas.
Import TelemetryReader.
Context {S : Type} `{ReadStreamLaws S}.

Lemma tel_RawRead_took s d tail :
  rs_valid s -> rs_rest s = d ++ tail ->
  exists s', RawRead s (zlen d) = Done (Some d, s') /\ took s d s' /\ rs_rest s' = tail.
Proof.
  intros Hv E. destruct (read_took s d tail Hv E) as (s' & R & T & E' & G).
  exists s'. unfold RawRead. rewrite R, bind_done. cbn beta iota.
  by rewrite G, Z.eqb_refl.
Qed.

Lemma tel_RawRead_short s n :
  rs_valid s -> zlen (rs_rest s) < n ->
  exists s', RawRead s n = Done (None, s') /\ rs_valid s' /\ rs_rest s' = [].
Proof.
  intros Hv Hn. destruct (read_short s n Hv Hn) as (s' & R & V & E & G).
  exists s'. unfold RawRead. rewrite R, bind_done. cbn beta iota.
  rewrite G, (proj2 (Z.eqb_neq (zlen (rs_rest s)) n)) by lia. done.
Qed.

Lemma ReadScalar_took n s d tail :
  rs_valid s -> rs_rest s = d ++ tail -> zlen d = Z.of_nat n ->
  exists s', ReadScalar n s = Done (Some (le_combine d), s') /\ took s d s' /\ rs_rest s' = tail.
Proof.
  intros Hv E Hn. destruct (tel_RawRead_took s d tail Hv E) as (s' & R & T & E').
  exists s'. unfold ReadScalar. rewrite <- Hn, R, bind_done. done.
Qed.

Lemma ReadScalar_short n s :
  rs_valid s -> zlen (rs_rest s) < Z.of_nat n ->
  exists s', ReadScalar n s = Done (None, s') /\ rs_valid s' /\ rs_rest s' = [].
Proof.
  intros Hv Hn. destruct (tel_RawRead_short s _ Hv Hn) as (s' & R & T & E').
  exists s'. unfold ReadScalar. rewrite R, bind_done. done.
Qed.

Lemma read_byte s b tail :
  rs_valid s -> rs_rest s = b :: tail ->
  exists s', ReadScalar 1 s = Done (Some (byte.unsigned b), s') /\ rs_valid s' /\ rs_rest s' = tail.
Proof.
  intros Hv E. destruct (ReadScalar_took 1 s [b] tail Hv E eq_refl) as (s' & R & T & E').
  exists s'. rewrite R, le_combine_1. split_and!; [done|apply T|done].
Qed.

Lemma vu_step_value w r b t pos :
  0 <= pos -> 0 <= w ->
  uwrap w (uwrap w (r + payload7 b * 2 ^ pos) + 2 ^ (pos + 7) * vu_value t) =
  uwrap w (r + 2 ^ pos * vu_value (b :: t)).
Proof.
  intros. unfold uwrap. rewrite Zplus_mod_idemp_l. f_equal. cbn [vu_value].
  rewrite Z.pow_add_r by lia. change (2 ^ 7) with 128. ring.
Qed.

(** Reading a well-formed varuint of at most ten bytes. *)
Lemma ReadVaruint_loop_took fuel s bs tail result pos :
  rs_valid s -> rs_rest s = bs ++ tail -> vu_wf bs = true ->
  (length bs <= fuel)%nat -> 0 <= pos -> pos + 7 * (zlen bs - 1) < 64 ->
  0 <= result < 2 ^ pos ->
  exists s', ReadVaruint_loop fuel s result pos =
               Done (Some (u64 (result + 2 ^ pos * vu_value bs)), s') /\
             rs_valid s' /\ rs_rest s' = tail.
Proof.
  revert s bs result pos. induction fuel as [|n IH]; intros s bs result pos Hv E Hwf Hl Hp Hlim Hr.
  { destruct bs; [done|simpl in Hl; lia]. }
  destruct bs as [|b t]; [done|]. rewrite zlen_cons in Hlim. pose proof (zlen_nonneg t).
  cbn [ReadVaruint_loop]. destruct (read_byte s b (t ++ tail) Hv E) as (s1 & -> & V1 & E1).
  rewrite bind_done. cbn beta iota. unfold shift_left_u64.
  rewrite (proj2 (Z.ltb_lt pos 64)), bind_done by lia. fold (payload7 b).
  pose proof (payload7_range b). rewrite lor_wrapped_shift by lia.
  rewrite <- (vu_step_value 64) by lia. fold (continues b).
  rewrite vu_wf_cons in Hwf. destruct (continues b).
  - destruct (IH s1 t (u64 (result + payload7 b * 2 ^ pos)) (pos + 7)) as (s2 & -> & V2 & E2);
      [done|done|done|simpl in Hl; lia|lia|lia|apply wrapped_shift_bound; lia|]. eauto.
  - destruct t; [|done]. cbn [vu_value]. rewrite Z.mul_0_r, Z.add_0_r.
    exists s1. split_and!; [|done..]. unfold uwrap. rewrite Zmod_mod. done.
Qed.

Lemma ReadVaruint_took s bs tail :
  rs_valid s -> rs_rest s = bs ++ tail -> vu_wf bs = true -> zlen bs <= 10 ->
  exists s', ReadVaruint s = Done (Some (u64 (vu_value bs)), s') /\
             rs_valid s' /\ rs_rest s' = tail.
Proof.
  intros Hv E Hwf Hl. unfold ReadVaruint.
  destruct (ReadVaruint_loop_took 11 s bs tail 0 0) as (s' & -> & V & E');
    [done|done|done|unfold zlen in Hl; lia|lia|lia|lia|].
  exists s'. replace (0 + 2 ^ 0 * vu_value bs) with (vu_value bs) by lia. done.
Qed.

(** Data that ends inside a varuint. *)
Lemma ReadVaruint_loop_short fuel s result pos :
  rs_valid s -> Forall (fun b => continues b = true) (rs_rest s) ->
  (length (rs_rest s) < fuel)%nat -> 0 <= pos -> pos + 7 * (zlen (rs_rest s) - 1) < 64 ->
  exists s', ReadVaruint_loop fuel s result pos = Done (None, s') /\ rs_valid s' /\ rs_rest s' = [].
Proof.
  revert s result pos. induction fuel as [|n IH]; intros s result pos Hv Hc Hl Hp Hlim; [lia|].
  cbn [ReadVaruint_loop]. destruct (rs_rest s) as [|b t] eqn:E.
  - destruct (ReadScalar_short 1 s Hv) as (s1 & -> & V & E1); [by rewrite E|].
    rewrite bind_done. eauto.
  - apply Forall_cons_1 in Hc as [Hb Hc]. rewrite zlen_cons in Hlim. pose proof (zlen_nonneg t).
    destruct (read_byte s b t Hv E) as (s1 & -> & V1 & E1). rewrite bind_done. cbn beta iota.
    unfold shift_left_u64. rewrite (proj2 (Z.ltb_lt pos 64)), bind_done by lia.
    fold (continues b). rewrite Hb. apply IH; rewrite ?E1; [done|done|simpl in Hl; lia|lia|lia].
Qed.

(** Eleven bytes that all continue shift by 70. *)
Lemma ReadVaruint_loop_overlong fuel s result pos pre b tail :
  rs_valid s -> rs_rest s = pre ++ b :: tail -> Forall (fun b => continues b = true) pre ->
  (length pre < fuel)%nat -> 64 <= pos + 7 * zlen pre ->
  ReadVaruint_loop fuel s result pos = Faulted Undefined.
Proof.
  revert s result pos pre. induction fuel as [|n IH]; intros s result pos pre Hv E Hc Hl Hlim; [lia|].
  cbn [ReadVaruint_loop]. destruct pre as [|a t].
  - destruct (read_byte s b tail Hv E) as (s1 & -> & V1 & E1). rewrite bind_done. cbn beta iota.
    unfold shift_left_u64. change (zlen []) with 0 in Hlim.
    by rewrite (proj2 (Z.ltb_ge pos 64)) by lia.
  - apply Forall_cons_1 in Hc as [Ha Hc]. rewrite zlen_cons in Hlim. simpl in Hl.
    destruct (read_byte s a (t ++ b :: tail) Hv E) as (s1 & -> & V1 & E1).
    rewrite bind_done. cbn beta iota. unfold shift_left_u64.
    destruct (Z.ltb_spec pos 64); [|done]. rewrite bind_done. fold (continues a). rewrite Ha.
    apply (IH s1 _ _ t); [done|done|done|lia|lia].
Qed.
End reader_lemmas.

(** ** The primitives as writers and readers *)
Definition vbytes (v : Z) : list byte := vu_bytes 10 v.

Lemma vbytes_wf v : in_u 64 v -> vu_wf (vbytes v) = true /\ zlen (vbytes v) = vu_len v.
Proof.
  intros Hv. pose proof (u64_fuel v Hv). unfold vbytes.
  split; [apply vu_bytes_wf|apply zlen_vu_bytes]; done || lia.
Qed.

Section primitives.
Import TelemetryWriter TelemetryReader.
Context {S : Type}.

Lemma writes_WriteScalar n v : writes (fun _ _ s => WriteScalar n s v) (le_split n v).
Proof. apply writes_write. Qed.

Lemma WriteVaruint_loop_all {T} `{WriteStream T} fuel (s : T) v :
  0 <= v < 128 ^ Z.of_nat fuel -> (0 < fuel)%nat ->
  WriteVaruint_loop fuel s v = write_all (map (fun b => [b]) (vu_bytes fuel v)) s.
Proof.
  revert s v; induction fuel as [|n IH]; intros s v Hv Hf; [lia|].
  cbn [WriteVaruint_loop vu_bytes]. rewrite shiftr7, div128_zero, land7f by lia.
  pose proof (Z.mod_pos_bound v 128 ltac:(lia)).
  assert (E : Write_8 s (if 0x7f <? v then Z.lor (v mod 128) 0x80 else v mod 128) =
    ws_write s [byte.of_Z (if v <? 128 then v else v mod 128 + 128)]).
  { unfold Write_8, WriteScalar, RawWrite. destruct (Z.ltb_spec v 128).
    - rewrite (proj2 (Z.ltb_ge 0x7f v)) by lia. rewrite Z.mod_small by lia. done.
    - rewrite (proj2 (Z.ltb_lt 0x7f v)), lor80 by lia. done. }
  rewrite E. destruct (Z.ltb_spec v 128).
  - cbn [map write_all]. by destruct (ws_write s _).
  - cbn [map write_all]. destruct (ws_write s _) as [s1|]; [|done]. rewrite !bind_done.
    destruct n as [|n]; [simpl in Hv; lia|]. apply IH; [by apply div128_bound|lia].
Qed.

Lemma concat_bytes (l : list byte) : concat (map (fun b => [b]) l) = l.
Proof. induction l as [|b l IH]; [done|]. cbn. by f_equal. Qed.

Lemma writes_WriteVaruint v : in_u 64 v -> writes (fun _ _ s => WriteVaruint s v) (vbytes v).
Proof.
  intros Hv. exists (map (fun b => [b]) (vbytes v)). split; [apply concat_bytes|].
  intros T W s. unfold WriteVaruint, WriteVaruintReal. rewrite uwrap_id by done.
  apply WriteVaruint_loop_all; [by apply u64_fuel|lia].
Qed.

Lemma writes_WriteString d :
  in_u 64 (zlen d) -> writes (fun _ _ s => WriteString s d) (vbytes (zlen d) ++ d).
Proof.
  intros Hd. exact (writes_bind _ _ _ _ (writes_WriteVaruint _ Hd) (writes_write d)).
Qed.

Section reading.
Context `{ReadStreamLaws S}.

Lemma reads_RawRead d : reads (fun s => RawRead s (zlen d)) d (Some d).
Proof.
  intros s tail Hv E. destruct (tel_RawRead_took s d tail Hv E) as (s' & ? & [? _] & ?). eauto.
Qed.

Lemma reads_ReadScalar n d :
  zlen d = Z.of_nat n -> reads (ReadScalar n) d (Some (le_combine d)).
Proof.
  intros Hn s tail Hv E.
  destruct (ReadScalar_took n s d tail Hv E Hn) as (s' & ? & [? _] & ?). eauto.
Qed.

Lemma reads_uint n v : in_u (8 * Z.of_nat n) v -> reads (ReadScalar n) (le_split n v) (Some v).
Proof.
  intros Hv. rewrite <- (uwrap_id _ v Hv) at 2.
  rewrite <- le_combine_le_split. apply reads_ReadScalar. apply zlen_le_split.
Qed.

Lemma reads_int n v :
  (0 < n)%nat -> in_s (8 * Z.of_nat n) v -> reads (ReadSigned n) (le_split n v) (Some v).
Proof.
  intros Hn Hv. rewrite <- (swrap_id (8 * Z.of_nat n) v ltac:(lia) Hv) at 2.
  rewrite <- swrap_uwrap by lia. rewrite <- le_combine_le_split.
  apply (reads_done _ (option_map _) _ (Some _)), reads_ReadScalar, zlen_le_split.
Qed.

Lemma reads_ReadVaruint v : in_u 64 v -> reads ReadVaruint (vbytes v) (Some v).
Proof.
  intros Hv s tail Hs E. destruct (vbytes_wf v Hv) as [Hw Hl]. pose proof (vu_len_u64 v Hv).
  destruct (ReadVaruint_took s _ tail Hs E Hw ltac:(lia)) as (s' & -> & ? & ?).
  exists s'. unfold vbytes. rewrite vu_value_bytes by (by apply u64_fuel).
  by rewrite uwrap_id by done.
Qed.

Lemma reads_ReadString d :
  zlen d <= kMaxStringSize -> reads ReadString (vbytes (zlen d) ++ d) (Some d).
Proof.
  intros Hd. apply (reads_bind _ _ _ _ (Some (zlen d))).
  - apply reads_ReadVaruint. split; [apply zlen_nonneg|].
    eapply Z.le_lt_trans; [exact Hd|reflexivity].
  - rewrite (proj2 (Z.ltb_ge _ _)) by done. apply reads_RawRead.
Qed.
End reading.
End primitives.

(** ** Properties *)
Import TelemetryWriter TelemetryReader.

(** On any lawful stream, writing a 64-bit varuint appends a sequence of
    [GetVaruintSize v] bytes, and any reader positioned at that sequence reads
    back exactly [v] and stops right behind it, whatever data follows. *)
Theorem varuint_roundtrip {W R} `{WriteStreamLaws W} `{ReadStreamLaws R} (v : Z) (w : W) :
  in_u 64 v -> ws_valid w -> ws_fits w (vu_len v) = true ->
  exists w' d, WriteVaruint w v = Done w' /\ ws_out w' = ws_out w ++ d /\
    GetVaruintSize v = Done (zlen d) /\
    forall (r : R) tail, rs_valid r -> rs_rest r = d ++ tail ->
      exists r', ReadVaruint r = Done (Some v, r') /\ rs_valid r' /\ rs_rest r' = tail.
Proof.
  intros Hv Hw Hf. pose proof (u64_fuel v Hv) as Hv'. pose proof (vu_len_u64 v Hv).
  destruct (WriteVaruint_wrote w v Hv Hw Hf) as (w' & E & _ & O & _).
  exists w', (vu_bytes 10 v). rewrite zlen_vu_bytes by (done || lia). split_and!; [done..| |].
  - unfold GetVaruintSize. rewrite tel_GetVaruintSize_loop_spec; [done|done|lia|lia|lia].
  - intros r tail Hr Er.
    destruct (ReadVaruint_took r _ tail Hr Er) as (r' & -> & ? & ?).
    + apply vu_bytes_wf; [done|lia].
    + rewrite zlen_vu_bytes by (done || lia). lia.
    + rewrite vu_value_bytes, uwrap_id by done. eauto.
Qed.

Lemma varuint_roundtrip_witness :
  in_u 64 300 /\
  exists w' d, WriteVaruint FastOStringStream.empty 300 = Done w' /\
    FastOStringStream.str w' = [] ++ d /\ GetVaruintSize 300 = Done (zlen d) /\
    forall (r : FastIStringStream.t) tail, FastIStringStream.ok r -> FastIStringStream.rest r = d ++ tail ->
      exists r', ReadVaruint r = Done (Some 300, r') /\ FastIStringStream.ok r' /\
                 FastIStringStream.rest r' = tail.
Proof.
  split; [split; vm_compute; [discriminate|reflexivity]|].
  refine (varuint_roundtrip (W := FastOStringStream.vector) (R := FastIStringStream.t) 300
           FastOStringStream.empty _ FastOStringStream.ok_empty eq_refl).
  split; vm_compute; [discriminate|reflexivity].
Defined.

(** A signed varint of any [int64_t] survives the zigzag encoding: it is
    written as the varuint of its zigzag image and read back unchanged. *)
Theorem varint_roundtrip {W R} `{WriteStreamLaws W} `{ReadStreamLaws R} (v : Z) (w : W) :
  in_s 64 v -> ws_valid w -> ws_fits w (vu_len (zigzag v)) = true ->
  exists w', WriteVarint w v = Done w' /\
    ws_out w' = ws_out w ++ vu_bytes 10 (zigzag v) /\
    forall (r : R) tail, rs_valid r -> rs_rest r = vu_bytes 10 (zigzag v) ++ tail ->
      exists r', ReadVarint r = Done (Some v, r') /\ rs_valid r' /\ rs_rest r' = tail.
Proof.
  intros Hv Hw Hf. pose proof (zigzag_range v Hv) as Hz. pose proof (u64_fuel _ Hz) as Hz'.
  pose proof (vu_len_u64 _ Hz). unfold WriteVarint. rewrite varint_zigzag by done.
  destruct (WriteVaruint_wrote w _ Hz Hw Hf) as (w' & E & _ & O & _).
  exists w'. split_and!; [done..|]. intros r tail Hr Er. unfold ReadVarint.
  destruct (ReadVaruint_took r _ tail Hr Er) as (r' & -> & ? & ?).
  - apply vu_bytes_wf; [done|lia].
  - rewrite zlen_vu_bytes by (done || lia). lia.
  - rewrite bind_done, vu_value_bytes, (uwrap_id 64 (zigzag v)) by done. exists r'.
    cbn [option_map]. rewrite unzigzag_64, unzigzag_zigzag by done. done.
Qed.

Lemma varint_roundtrip_witness :
  in_s 64 (-12345) /\ exists w', WriteVarint FastOStringStream.empty (-12345) = Done w' /\
    FastOStringStream.str w' = [] ++ vu_bytes 10 (zigzag (-12345)) /\
    forall (r : FastIStringStream.t) tail, FastIStringStream.ok r ->
      FastIStringStream.rest r = vu_bytes 10 (zigzag (-12345)) ++ tail ->
      exists r', ReadVarint r = Done (Some (-12345), r') /\ FastIStringStream.ok r' /\
                 FastIStringStream.rest r' = tail.
Proof.
  split; [split; vm_compute; [discriminate|reflexivity]|].
  refine (varint_roundtrip (W := FastOStringStream.vector) (R := FastIStringStream.t) (-12345)
           FastOStringStream.empty _ FastOStringStream.ok_empty eq_refl).
  split; vm_compute; [discriminate|reflexivity].
Defined.

(** A string is written as its length and its bytes; reading it back gives
    the same bytes, except that a string longer than [kMaxStringSize] trips
    the reader's assertion. *)
Theorem string_roundtrip {W R} `{WriteStreamLaws W} `{ReadStreamLaws R} (d : list byte) (w : W) :
  in_u 64 (zlen d) -> ws_valid w -> ws_fits w (vu_len (zlen d) + zlen d) = true ->
  exists w' e, WriteString w d = Done w' /\ ws_out w' = ws_out w ++ e /\
    forall (r : R) tail, rs_valid r -> rs_rest r = e ++ tail ->
      if zlen d <=? kMaxStringSize
      then exists r', ReadString r = Done (Some d, r') /\ rs_valid r' /\ rs_rest r' = tail
      else ReadString r = Faulted Assertion.
Proof.
  intros Hd Hw Hf. pose proof (u64_fuel _ Hd) as Hd'. pose proof (vu_len_u64 _ Hd).
  destruct (WriteString_wrote w d Hd Hw Hf) as (w' & E & _ & O & _).
  eexists w', _. split_and!; [done..|]. intros r tail Hr Er. unfold ReadString.
  rewrite <- app_assoc in Er.
  destruct (ReadVaruint_took r _ _ Hr Er) as (r1 & -> & V1 & E1).
  - apply vu_bytes_wf; [done|lia].
  - rewrite zlen_vu_bytes by (done || lia). lia.
  - rewrite bind_done, vu_value_bytes, uwrap_id by done. cbn beta iota.
    destruct (Z.leb_spec (zlen d) kMaxStringSize).
    + rewrite (proj2 (Z.ltb_ge _ _)) by done. cbn [mj_assert negb]. rewrite bind_done.
      destruct (tel_RawRead_took r1 d tail V1 E1) as (r2 & ? & [? _] & ?). eauto.
    + by rewrite (proj2 (Z.ltb_lt _ _)) by done.
Qed.

Lemma string_roundtrip_witness :
  in_u 64 (zlen kHeader) /\
  exists w' e, WriteString FastOStringStream.empty kHeader = Done w' /\
    FastOStringStream.str w' = [] ++ e /\
    forall (r : FastIStringStream.t) tail, FastIStringStream.ok r ->
      FastIStringStream.rest r = e ++ tail ->
      exists r', ReadString r = Done (Some kHeader, r') /\ FastIStringStream.ok r' /\
                 FastIStringStream.rest r' = tail.
Proof.
  split; [split; vm_compute; [discriminate|reflexivity]|].
  refine (string_roundtrip (W := FastOStringStream.vector) (R := FastIStringStream.t) kHeader
           FastOStringStream.empty _ FastOStringStream.ok_empty eq_refl).
  split; vm_compute; [discriminate|reflexivity].
Defined.

(** What [ReadVaruint] does on every input.  It reads the bytes up to the
    first one without the continuation bit and returns their value modulo
    [2^64]; it returns nothing when the data ends first; and it executes an
    undefined shift exactly when an eleventh byte is reached. *)
Theorem ReadVaruint_cases {R} `{ReadStreamLaws R} (r : R) :
  rs_valid r ->
  match vu_split (rs_rest r) with
  | Some (h, tail) =>
      if zlen h <=? 10
      then exists r', ReadVaruint r = Done (Some (u64 (vu_value h)), r') /\
                      rs_valid r' /\ rs_rest r' = tail
      else ReadVaruint r = Faulted Undefined
  | None =>
      if zlen (rs_rest r) <=? 10
      then exists r', ReadVaruint r = Done (None, r') /\ rs_valid r' /\ rs_rest r' = []
      else ReadVaruint r = Faulted Undefined
  end.
Proof.
  intros Hr.
  assert (Hover : forall l, rs_rest r = l -> (10 < length l)%nat ->
    Forall (fun b => continues b = true) (take 10 l) -> ReadVaruint r = Faulted Undefined).
  { intros l El Hl Hc. rewrite <- (take_drop 10 l) in El.
    destruct (drop 10 l) as [|b t] eqn:Ed.
    { apply (f_equal length) in Ed. rewrite length_drop in Ed. simpl in Ed. lia. }
    eapply (ReadVaruint_loop_overlong 11 r 0 0 (take 10 l) b t); [done|done|done| |].
    - rewrite length_take. lia.
    - unfold zlen. rewrite length_take. lia. }
  destruct (vu_split (rs_rest r)) as [[h tail]|] eqn:E.
  - apply vu_split_some in E as [E Hw]. destruct (Z.leb_spec (zlen h) 10).
    + by apply ReadVaruint_took.
    + unfold zlen in *. apply (Hover _ E); [rewrite length_app; lia|].
      rewrite take_app_le by lia. apply vu_wf_continues; [done|lia].
  - apply vu_split_none in E. destruct (Z.leb_spec (zlen (rs_rest r)) 10) as [Hl|Hl].
    + apply ReadVaruint_loop_short; [done|done|unfold zlen in Hl; lia|lia|lia].
    + apply (Hover _ eq_refl); [unfold zlen in Hl; lia|]. by apply Forall_take.
Qed.

Lemma ReadVaruint_cases_witness :
  FastIStringStream.ok (FastIStringStream.make (replicate 11 (byte.of_Z 0xff))) /\
  ReadVaruint (FastIStringStream.make (replicate 11 (byte.of_Z 0xff))) = Faulted Undefined.
Proof.
  split; [apply FastIStringStream.fis_ok_make|].
  exact (ReadVaruint_cases (FastIStringStream.make (replicate 11 (byte.of_Z 0xff)))
           (FastIStringStream.fis_ok_make _)).
Defined.
