(* ===== verification/Archive.v ===== *)
(** * The binary archives of the telemetry format

    telemetry/binary_write_archive.h ([BinaryWriteArchive]) and
    telemetry/binary_read_archive.h ([BinaryReadArchive]), with the dispatch of
    base/visit_archive.h.  The C++ types an archive can visit are the universe
    [ctype]; a template instance at a type is the equation of [Visit] of the
    two modules at that [ctype]. *)
From S2P Require Import Prelude Varuint Streams TimeConversions TelemetryFormat.

Section universe.
Context `{BoostTime}.

(** The objects a program hands to an archive.  A [float] or [double] is kept
    as its bits, the characters of a string or of [base::Bytes] as bytes. *)
#[local] Unset Elimination Schemes.
Inductive value :=
  | VBool (b : bool)
  | VInt (z : Z)
  | VFloat (bits : Z)
  | VBytes (b : list byte)
  | VTime (p : ptime)
  | VDuration (d : duration)
  | VList (vs : list value)
  | VNone
  | VSome (v : value)
  | VObject (vs : list value).
#[local] Set Elimination Schemes.

(** The types [VisitArchive::Visit] tells apart, by the overload or trait that
    takes them.  A serializable class is the list of the members its
    [Serialize] visits, in order, each with its name, its type and the value
    the default constructor gives it; an enumeration has its underlying type
    and the items of [IsEnum::map]. *)
Inductive ctype :=
  | TBool
  | TInt (size : nat)
  | TUInt (size : nat)
  | TFloat (size : nat)
  | TBytes
  | TString
  | TTimestamp
  | TDuration
  | TEnum (is_signed : bool) (size : nat) (items : list (Z * list byte))
  | TVector (t : ctype)
  | TArray (n : Z) (t : ctype)
  | TOptional (t : ctype)
  | TObject (fs : fields)
with fields :=
  | FNil
  | FCons (name : list byte) (t : ctype) (initial : value) (rest : fields).

Fixpoint default_fields (fs : fields) : list value :=
  match fs with
  | FNil => []
  | FCons _ _ initial rest => initial :: default_fields rest
  end.

(** [T item = {}] *)
Fixpoint default (t : ctype) : value :=
  match t with
  | TBool => VBool false
  | TInt _ | TUInt _ | TEnum _ _ _ => VInt 0
  | TFloat _ => VFloat 0
  | TBytes | TString => VBytes []
  | TTimestamp => VTime not_a_date_time
  | TDuration => VDuration (seconds_and_ticks 0 0)
  | TVector _ => VList []
  | TArray n t => VList (replicate (Z.to_nat n) (default t))
  | TOptional _ => VNone
  | TObject fs => VObject (default_fields fs)
  end.

(** [static_cast<uint64_t>] to the enumeration's underlying type. *)
Definition enum_cast (is_signed : bool) (size : nat) (z : Z) : Z :=
  (if is_signed then swrap else uwrap) (8 * Z.of_nat size) z.

(** The largest size of a [std::vector]; [resize] beyond it throws. *)
Definition max_size : Z := 2 ^ 63 - 1.
Definition kLengthError : Z := 1.

Definition vector_resize {A} (item : A) (n : Z) (l : list A) : outcome (list A) :=
  if max_size <? n then Faulted (Exception kLengthError)
  else Done (ztake n l ++ replicate (Z.to_nat (n - zlen l)) item).

Definition bytes_of (v : value) : list byte := match v with VBytes b => b | _ => [] end.
Definition items_of (v : value) : list value := match v with VList vs => vs | _ => [] end.
Definition members_of (v : value) : list value := match v with VObject vs => vs | _ => [] end.
End universe.

Scheme ctype_mut := Induction for ctype Sort Prop
  with fields_mut := Induction for fields Sort Prop.

(** ** class BinaryWriteArchive *)
Module BinaryWriteArchive.
Import TelemetryWriter.
Section Archive.
Context `{BoostTime} {S : Type} `{WriteStream S}.

Section items.
Context (write : value -> S -> outcome S).

Fixpoint VisitArrayHelper (items : list value) (s : S) : outcome S :=
  match items with
  | [] => Done s
  | item :: items => s ← write item s; VisitArrayHelper items s
  end.
End items.

(** [Visit] of a value of type [t]; a value that is not of that type is
    excluded by C++'s type system. *)
Fixpoint Visit (t : ctype) (v : value) (s : S) {struct t} : outcome S :=
  match t, v with
  | TBool, VBool b => Write_bool s b
  | TInt n, VInt z | TUInt n, VInt z | TFloat n, VFloat z => WriteScalar n s z
  | TBytes, VBytes b => s ← WriteVaruint s (zlen b); RawWrite s b
  | TString, VBytes b => WriteString s b
  | TTimestamp, VTime p => Write_64 s (ConvertPtimeToEpochMicroseconds p)
  | TDuration, VDuration d => Write_64 s (ConvertDurationToMicroseconds d)
  | TEnum _ _ _, VInt z => WriteVaruint s (u64 z)
  | TVector t, VList vs => s ← WriteVaruint s (zlen vs); VisitArrayHelper (Visit t) vs s
  | TArray _ t, VList vs => VisitArrayHelper (Visit t) vs s
  | TOptional _, VNone => WriteVaruint s 0
  | TOptional t, VSome v => s ← WriteVaruint s 1; Visit t v s
  | TObject fs, VObject vs => Accept fs vs s
  | _, _ => Faulted Undefined
  end
with Accept (fs : fields) (vs : list value) (s : S) {struct fs} : outcome S :=
  match fs, vs with
  | FNil, [] => Done s
  | FCons _ t _ rest, v :: vs => s ← Visit t v s; Accept rest vs s
  | _, _ => Faulted Undefined
  end.
End Archive.

(** [BinaryWriteArchive::Write]: to a fresh string. *)
Definition Write `{BoostTime} (t : ctype) (v : value) : outcome (list byte) :=
  FastOStringStream.str <$> Visit t v FastOStringStream.empty.
End BinaryWriteArchive.

(** ** class BinaryReadArchive *)
Module BinaryReadArchive.
Import TelemetryReader.
Section Archive.
Context `{BoostTime} {S : Type} `{ReadStream S}.

Section items.
Context (read : value -> bool -> S -> outcome (value * bool * S)).

(** The loop over the elements stops at the first error. *)
Fixpoint VisitArrayHelper (items : list value) (error : bool) (s : S)
    : outcome (list value * bool * S) :=
  match items with
  | [] => Done ([], error, s)
  | item :: items =>
      '(item, error, s) ← read item error s;
      if (error : bool) then Done (item :: items, error, s)
      else
        '(items, error, s) ← VisitArrayHelper items error s;
        Done (item :: items, error, s)
  end.
End items.

(** What every scalar overload does with what it read. *)
Definition set_value (old : value) (error : bool) (read : option value * S)
    : value * bool * S :=
  match read with
  | (Some v, s) => (v, error, s)
  | (None, s) => (old, true, s)
  end.

(** [Read<bool>] copies a byte into a [bool]: undefined unless it is 0 or 1. *)
Definition Read_bool (s : S) : outcome (option value * S) :=
  '(maybe_value, s) ← ReadScalar 1 s;
  match maybe_value with
  | None => Done (None, s)
  | Some b => if b <=? 1 then Done (Some (VBool (b =? 1)), s) else Faulted Undefined
  end.

Definition Read_bytes (old : value) (error : bool) (s : S) : outcome (value * bool * S) :=
  '(maybe_size, s) ← ReadVaruint s;
  match maybe_size with
  | None => Done (old, true, s)
  | Some size =>
      value ← vector_resize (byte.of_Z 0) size (bytes_of old);
      '(bs, s) ← rs_read s size;
      let valid := rs_gcount s =? size in
      Done (VBytes (bs ++ zdrop (zlen bs) value), if valid then error else true, s)
  end.

(** [Visit] of an object of type [t] that holds [old]: the object it leaves,
    [error_] and the stream. *)
Fixpoint Visit (t : ctype) (old : value) (error : bool) (s : S) {struct t}
    : outcome (value * bool * S) :=
  match t with
  | TBool => set_value old error <$> Read_bool s
  | TInt n => '(m, s) ← ReadSigned n s; Done (set_value old error (VInt <$> m, s))
  | TUInt n => '(m, s) ← ReadScalar n s; Done (set_value old error (VInt <$> m, s))
  | TFloat n => '(m, s) ← ReadScalar n s; Done (set_value old error (VFloat <$> m, s))
  | TBytes => Read_bytes old error s
  | TString => '(m, s) ← ReadString s; Done (set_value old error (VBytes <$> m, s))
  | TTimestamp =>
      '(m, s) ← ReadSigned 8 s;
      Done (set_value old error ((fun us => VTime (ConvertEpochMicrosecondsToPtime us)) <$> m, s))
  | TDuration =>
      '(m, s) ← ReadSigned 8 s;
      Done (set_value old error ((fun us => VDuration (ConvertMicrosecondsToDuration us)) <$> m, s))
  | TEnum is_signed n _ =>
      '(m, s) ← ReadVaruint s;
      Done (set_value old error ((fun z => VInt (enum_cast is_signed n z)) <$> m, s))
  | TVector t =>
      '(maybe_size, s) ← ReadVaruint s;
      match maybe_size with
      | None => Done (old, true, s)
      | Some size =>
          items ← vector_resize (default t) size (items_of old);
          '(items, error, s) ← VisitArrayHelper (Visit t) items error s;
          Done (VList items, error, s)
      end
  | TArray _ t =>
      '(items, error, s) ← VisitArrayHelper (Visit t) (items_of old) error s;
      Done (VList items, error, s)
  | TOptional t =>
      '(maybe_present, s) ← ReadScalar 1 s;
      match maybe_present with
      | None => Done (old, true, s)
      | Some present =>
          if present =? 0 then Done (old, error, s)
          else if present =? 1 then
            '(item, error, s) ← Visit t (default t) error s;
            Done (VSome item, error, s)
          else Done (old, true, s)
      end
  | TObject fs =>
      '(members, error, s) ← Accept fs (members_of old) error s;
      Done (VObject members, error, s)
  end
with Accept (fs : fields) (olds : list value) (error : bool) (s : S) {struct fs}
    : outcome (list value * bool * S) :=
  match fs, olds with
  | FCons _ t _ rest, old :: olds =>
      '(member, error, s) ← Visit t old error s;
      '(members, error, s) ← Accept rest olds error s;
      Done (member :: members, error, s)
  | _, _ => Done ([], error, s)
  end.

(** [BinaryReadArchive::Read<ValueType>(stream)]: [error()] is not looked at. *)
Definition Read (t : ctype) (s : S) : outcome (value * S) :=
  '(v, _, s) ← Visit t (default t) false s;
  Done (v, s).
End Archive.
End BinaryReadArchive.
