(* ===== verification/ArchiveTheory.v ===== *)
(** * The binary archives: their format and the round trip

    [bytes t v] is the data record of a value [v] of type [t], as the schema
    of [t] describes it; [BinaryWriteArchive] emits it and [BinaryReadArchive]
    reads it.  Reading into an object that is not fresh is [merge]. *)
From S2P Require Import Prelude Varuint Streams TimeConversions TelemetryFormat Archive.

Section specification.
Context `{BoostTime}.

Fixpoint bytes (t : ctype) (v : value) : list byte :=
  match t, v with
  | TBool, VBool b => le_split 1 (if b then 1 else 0)
  | TInt n, VInt z | TUInt n, VInt z | TFloat n, VFloat z => le_split n z
  | TBytes, VBytes b | TString, VBytes b => vbytes (zlen b) ++ b
  | TTimestamp, VTime p => le_split 8 (ConvertPtimeToEpochMicroseconds p)
  | TDuration, VDuration d => le_split 8 (ConvertDurationToMicroseconds d)
  | TEnum _ _ _, VInt z => vbytes (u64 z)
  | TVector t, VList vs => vbytes (zlen vs) ++ concat (map (bytes t) vs)
  | TArray _ t, VList vs => concat (map (bytes t) vs)
  | TOptional _, VNone => vbytes 0
  | TOptional t, VSome v => vbytes 1 ++ bytes t v
  | TObject fs, VObject vs => fields_bytes fs vs
  | _, _ => []
  end
with fields_bytes (fs : fields) (vs : list value) : list byte :=
  match fs, vs with
  | FCons _ t _ rest, v :: vs => bytes t v ++ fields_bytes rest vs
  | _, _ => []
  end.

(** The objects of a type that the format carries: integers of the width of
    the type, times the clock represents, strings and vectors no larger than
    the readers admit. *)
Fixpoint storable (t : ctype) (v : value) : Prop :=
  match t, v with
  | TBool, VBool _ => True
  | TInt n, VInt z => in_s (8 * Z.of_nat n) z
  | TUInt n, VInt z | TFloat n, VFloat z => in_u (8 * Z.of_nat n) z
  | TEnum is_signed n _, VInt z => (if is_signed then in_s else in_u) (8 * Z.of_nat n) z
  | TBytes, VBytes b => zlen b <= max_size
  | TString, VBytes b => zlen b <= kMaxStringSize
  | TTimestamp, VTime p => exists us,
      in_s 64 us /\ ptime_us us = true /\ p = ConvertEpochMicrosecondsToPtime us
  | TDuration, VDuration d => exists us,
      in_s 64 us /\ duration_us us = true /\ d = ConvertMicrosecondsToDuration us
  | TVector t, VList vs => zlen vs <= max_size /\ Forall (storable t) vs
  | TArray n t, VList vs => zlen vs = n /\ Forall (storable t) vs
  | TOptional _, VNone => True
  | TOptional t, VSome v => storable t v
  | TObject fs, VObject vs => storable_fields fs vs
  | _, _ => False
  end
with storable_fields (fs : fields) (vs : list value) : Prop :=
  match fs, vs with
  | FNil, [] => True
  | FCons _ t _ rest, v :: vs => storable t v /\ storable_fields rest vs
  | _, _ => False
  end.

Definition int_size (n : nat) : bool :=
  match n with 1%nat | 2%nat | 4%nat | 8%nat => true | _ => false end.

(** The types C++ has: widths of machine integers, and members whose initial
    value is one of their type. *)
Fixpoint wf_type (t : ctype) : Prop :=
  match t with
  | TInt n | TUInt n | TEnum _ n _ => int_size n = true
  | TFloat n => n = 4%nat \/ n = 8%nat
  | TVector t | TOptional t => wf_type t
  | TArray n t => in_u 64 n /\ wf_type t
  | TObject fs => wf_fields fs
  | _ => True
  end
with wf_fields (fs : fields) : Prop :=
  match fs with
  | FNil => True
  | FCons _ t initial rest => wf_type t /\ storable t initial /\ wf_fields rest
  end.

(** Reading the record of [v] into an object that holds [old]: an absent
    optional leaves what was there, elements are read over the old ones. *)
Fixpoint merge (t : ctype) (old v : value) : value :=
  match t, v with
  | TVector t, VList vs =>
      VList (zip_with (merge t)
        (ztake (zlen vs) (items_of old) ++
         replicate (Z.to_nat (zlen vs - zlen (items_of old))) (default t)) vs)
  | TArray _ t, VList vs => VList (zip_with (merge t) (items_of old) vs)
  | TOptional _, VNone => old
  | TOptional t, VSome v => VSome (merge t (default t) v)
  | TObject fs, VObject vs => VObject (merge_fields fs (members_of old) vs)
  | _, _ => v
  end
with merge_fields (fs : fields) (olds vs : list value) : list value :=
  match fs, olds, vs with
  | FCons _ t _ rest, old :: olds, v :: vs => merge t old v :: merge_fields rest olds vs
  | _, _, _ => []
  end.

(** An object without an engaged optional. *)
Fixpoint clear (t : ctype) (v : value) : Prop :=
  match t, v with
  | TOptional _, v => v = VNone
  | TVector t, VList vs | TArray _ t, VList vs => Forall (clear t) vs
  | TObject fs, VObject vs => clear_fields fs vs
  | _, _ => True
  end
with clear_fields (fs : fields) (vs : list value) : Prop :=
  match fs, vs with
  | FCons _ t _ rest, v :: vs => clear t v /\ clear_fields rest vs
  | _, _ => True
  end.

(** A type none of whose constructors engages an optional. *)
Fixpoint plain (t : ctype) : Prop :=
  match t with
  | TVector t | TArray _ t | TOptional t => plain t
  | TObject fs => plain_fields fs
  | _ => True
  end
with plain_fields (fs : fields) : Prop :=
  match fs with
  | FNil => True
  | FCons _ t initial rest => plain t /\ clear t initial /\ plain_fields rest
  end.
Fixpoint names (fs : fields) : list (list byte) :=
  match fs with FNil => [] | FCons name _ _ rest => name :: names rest end.

(** The members of each class have names of their own. *)
Fixpoint distinct (t : ctype) : Prop :=
  match t with
  | TVector t | TArray _ t | TOptional t => distinct t
  | TObject fs => NoDup (names fs) /\ distinct_fields fs
  | _ => True
  end
with distinct_fields (fs : fields) : Prop :=
  match fs with FNil => True | FCons _ t _ rest => distinct t /\ distinct_fields rest end.
End specification.

(** ** Writing *)
Lemma zlen_u64 {A} (l : list A) n : zlen l <= n -> n < 2 ^ 64 -> in_u 64 (zlen l).
Proof. intros. pose proof (zlen_nonneg l). unfold in_u. lia. Qed.

Lemma u64_range z : in_u 64 (u64 z).
Proof. by apply uwrap_range. Qed.

Section writing.
Import TelemetryWriter.
Context `{BoostTime}.

Definition Visit_ (t : ctype) (v : value) : writer := fun _ _ => BinaryWriteArchive.Visit t v.
Definition Accept_ (fs : fields) (vs : list value) : writer :=
  fun _ _ => BinaryWriteArchive.Accept fs vs.

Definition writes_type (t : ctype) : Prop := forall v,
  storable t v -> writes (Visit_ t v) (bytes t v).
Definition writes_fields (fs : fields) : Prop := forall vs,
  storable_fields fs vs -> writes (Accept_ fs vs) (fields_bytes fs vs).

Lemma writes_items t vs :
  writes_type t -> Forall (storable t) vs ->
  writes (fun _ _ => BinaryWriteArchive.VisitArrayHelper (BinaryWriteArchive.Visit t) vs)
    (concat (map (bytes t) vs)).
Proof.
  intros Ht. induction 1 as [|v vs Hv _ IH]; [exact writes_nil|].
  exact (writes_bind _ _ _ _ (Ht v Hv) IH).
Qed.

Lemma Visit_writes t : writes_type t.
Proof.
  induction t using ctype_mut with (P0 := writes_fields);
    intros v Hv; destruct v; try (by destruct Hv).
  - exact (writes_WriteScalar 1 _).
  - exact (writes_WriteScalar size _).
  - exact (writes_WriteScalar size _).
  - exact (writes_WriteScalar size _).
  - exact (writes_WriteString b (zlen_u64 b _ Hv eq_refl)).
  - exact (writes_WriteString b (zlen_u64 b _ Hv eq_refl)).
  - exact (writes_WriteScalar 8 _).
  - exact (writes_WriteScalar 8 _).
  - exact (writes_WriteVaruint _ (u64_range z)).
  - destruct Hv as [Hl Hv].
    exact (writes_bind _ _ _ _ (writes_WriteVaruint _ (zlen_u64 vs _ Hl eq_refl))
             (writes_items t vs IHt Hv)).
  - exact (writes_items t vs IHt (proj2 Hv)).
  - apply (writes_WriteVaruint 0). done.
  - refine (writes_bind _ _ _ _ (writes_WriteVaruint 1 _) (IHt v Hv)). done.
  - exact (IHt vs Hv).
  - exact writes_nil.
  - destruct Hv as [Hv Hvs]. exact (writes_bind _ _ _ _ (IHt v Hv) (IHt0 v0 Hvs)).
Qed.

Lemma Visit_emits {S} `{WriteStreamLaws S} t v :
  storable t v -> emits (S := S) (BinaryWriteArchive.Visit t v) (bytes t v).
Proof. intros Hv. exact (writes_emits _ _ (Visit_writes t v Hv)). Qed.
End writing.

(** ** Reading *)
Section reading.
Import TelemetryReader.
Context `{BoostTimeLaws} {S : Type} `{ReadStreamLaws S}.

Lemma storable_initial fs : wf_fields fs -> storable_fields fs (default_fields fs).
Proof. induction fs; cbn; [done|]. intros (? & ? & ?). auto. Qed.

Lemma default_storable t : wf_type t -> storable t (default t).
Proof.
  induction t using ctype_mut with (P0 := fun fs => True); cbn; try done; intros Ht.
  - assert (0 < 2 ^ (8 * Z.of_nat size - 1)) by (apply Z.pow_pos_nonneg; destruct size; done || lia).
    unfold in_s. lia.
  - apply (uwrap_range _ 0). lia.
  - apply (uwrap_range _ 0). lia.
  - exists (int64_min + 1). done.
  - exists 0. split_and!; [done|..|done]. apply duration_zero.
  - destruct is_signed.
    + assert (0 < 2 ^ (8 * Z.of_nat size - 1)) by (apply Z.pow_pos_nonneg; destruct size; done || lia).
      unfold in_s. lia.
    + apply (uwrap_range _ 0). lia.
  - destruct Ht as [Hn Ht]. unfold in_u in Hn. split; [rewrite zlen_replicate; lia|].
    apply Forall_replicate. auto.
  - by apply storable_initial.
Qed.

Lemma enum_cast_id sg n z :
  int_size n = true -> (if sg : bool then in_s else in_u) (8 * Z.of_nat n) z ->
  enum_cast sg n (u64 z) = z.
Proof.
  intros Hn Hz. assert (Hn' : 0 < 8 * Z.of_nat n <= 64).
  { do 9 (destruct n as [|n]; [simpl in *; try done; lia|]). done. }
  assert (Hd : forall a, uwrap (8 * Z.of_nat n) (u64 a) = uwrap (8 * Z.of_nat n) a).
  { intros a. unfold uwrap. apply Z.mod_mod_divide.
    exists (2 ^ (64 - 8 * Z.of_nat n)). rewrite <- Z.pow_add_r by lia. f_equal. lia. }
  unfold enum_cast. destruct sg.
  - rewrite <- swrap_uwrap, Hd, swrap_uwrap by lia. by apply swrap_id; lia || done.
  - rewrite Hd. by apply uwrap_id.
Qed.

Lemma vector_resize_done {A} (item : A) n l :
  n <= max_size ->
  vector_resize item n l = Done (ztake n l ++ replicate (Z.to_nat (n - zlen l)) item).
Proof. intros. unfold vector_resize. by rewrite (proj2 (Z.ltb_ge _ _)) by lia. Qed.

(** Reading a scalar sets the value. *)
Lemma reads_scalar {A} (f : S -> outcome (option A * S)) (h : A -> value) d a old :
  reads f d (Some a) ->
  reads (fun s => '(m, s) ← f s; Done (BinaryReadArchive.set_value old false (h <$> m, s)))
    d (h a, false).
Proof.
  intros Hf s tail Hv E. destruct (Hf s tail Hv E) as (s' & -> & V & R).
  exists s'. by rewrite bind_done.
Qed.

Lemma reads_bool b old :
  reads (fun s => BinaryReadArchive.set_value old false <$> BinaryReadArchive.Read_bool s)
    (le_split 1 (if b : bool then 1 else 0)) (VBool b, false).
Proof.
  intros s tail Hv E.
  destruct (reads_uint 1 (if b then 1 else 0)) with (s := s) (tail := tail) as (s' & R & V & T);
    [by destruct b|done|done|].
  exists s'. unfold BinaryReadArchive.Read_bool. rewrite R. by destruct b.
Qed.

Lemma reads_bytes b old :
  zlen b <= max_size ->
  reads (BinaryReadArchive.Read_bytes old false) (vbytes (zlen b) ++ b) (VBytes b, false).
Proof.
  intros Hb. pose proof (zlen_u64 b _ Hb eq_refl) as Hu.
  apply (reads_bind _ _ _ _ (Some (zlen b))); [by apply reads_ReadVaruint|].
  intros s tail Hv E. rewrite vector_resize_done, bind_done by done.
  destruct (read_took s b tail Hv E) as (s' & -> & [V _] & R & G). rewrite bind_done.
  exists s'. rewrite G, Z.eqb_refl. rewrite zdrop_ge, app_nil_r; [done|].
  pose proof (zlen_nonneg (bytes_of old)). pose proof (zlen_nonneg b).
  rewrite zlen_app, zlen_take, zlen_replicate by lia. lia.
Qed.

Lemma Visit_object fs old error (s : S) :
  BinaryReadArchive.Visit (TObject fs) old error s =
  ('(members, error, s) ← BinaryReadArchive.Accept fs (members_of old) error s;
   Done (VObject members, error, s)).
Proof. reflexivity. Qed.

Lemma Accept_cons name t initial rest old olds error (s : S) :
  BinaryReadArchive.Accept (FCons name t initial rest) (old :: olds) error s =
  ('(member, error, s) ← BinaryReadArchive.Visit t old error s;
   '(members, error, s) ← BinaryReadArchive.Accept rest olds error s;
   Done (member :: members, error, s)).
Proof. reflexivity. Qed.

Definition reads_type (t : ctype) : Prop := forall v old,
  wf_type t -> storable t v -> storable t old ->
  reads (S := S) (BinaryReadArchive.Visit t old false) (bytes t v) (merge t old v, false).
Definition reads_fields (fs : fields) : Prop := forall vs olds,
  wf_fields fs -> storable_fields fs vs -> storable_fields fs olds ->
  reads (S := S) (BinaryReadArchive.Accept fs olds false) (fields_bytes fs vs)
    (merge_fields fs olds vs, false).

Lemma reads_items t vs olds :
  reads_type t -> wf_type t -> length olds = length vs ->
  Forall (storable t) vs -> Forall (storable t) olds ->
  reads (S := S) (BinaryReadArchive.VisitArrayHelper (BinaryReadArchive.Visit t) olds false)
    (concat (map (bytes t) vs)) (zip_with (merge t) olds vs, false).
Proof.
  intros Ht Hw Hl Hvs. revert olds Hl. induction Hvs as [|v vs Hv _ IH]; intros [|old olds] Hl Ho;
    try done; [apply (reads_ret ([], false))|].
  apply Forall_cons_1 in Ho as [Ho Hos]. cbn [map concat zip_with].
  intros s tail Vs E. rewrite <- app_assoc in E.
  destruct (Ht v old Hw Hv Ho s _ Vs E) as (s1 & E1 & V1 & R1).
  destruct (IH olds ltac:(simpl in Hl; lia) Hos s1 tail V1 R1) as (s2 & E2 & V2 & R2).
  exists s2. cbn [BinaryReadArchive.VisitArrayHelper]. rewrite E1, bind_done. cbn beta iota.
  by rewrite E2, bind_done.
Qed.

Lemma Forall_ztake {A} (P : A -> Prop) n l : Forall P l -> Forall P (ztake n l).
Proof. apply Forall_take. Qed.

Lemma items_storable t v :
  storable (TVector t) v -> Forall (storable t) (items_of v).
Proof. by destruct v; intros Hv; destruct Hv. Qed.

Lemma reads_vector t vs old :
  reads_type t -> wf_type t -> storable (TVector t) (VList vs) -> storable (TVector t) old ->
  reads (S := S) (BinaryReadArchive.Visit (TVector t) old false) (bytes (TVector t) (VList vs))
    (merge (TVector t) old (VList vs), false).
Proof.
  intros Ht Hw [Hl Hv] Ho. pose proof (zlen_u64 vs _ Hl eq_refl) as Hu.
  intros s0 tail Vs0 E0. cbn [bytes] in E0. rewrite <- app_assoc in E0.
  destruct (reads_ReadVaruint _ Hu s0 _ Vs0 E0) as (s & E1 & Vs & E).
  cbn [BinaryReadArchive.Visit]. rewrite E1, bind_done. cbn beta iota.
  rewrite vector_resize_done, bind_done by done.
  pose proof (zlen_nonneg (items_of old)). pose proof (zlen_nonneg vs).
  destruct (reads_items t vs
    (ztake (zlen vs) (items_of old) ++
     replicate (Z.to_nat (zlen vs - zlen (items_of old))) (default t))) with (s := s) (tail := tail)
    as (s' & E' & V & R); try done.
  - apply Nat2Z.inj. fold (zlen vs). rewrite length_app. unfold ztake.
    rewrite length_take, length_replicate. unfold zlen in *. lia.
  - apply Forall_app. split; [by apply Forall_ztake, items_storable|].
    by apply Forall_replicate, default_storable.
  - exists s'. by rewrite E', bind_done.
Qed.

Lemma reads_array n t vs old :
  reads_type t -> wf_type t -> storable (TArray n t) (VList vs) -> storable (TArray n t) old ->
  reads (S := S) (BinaryReadArchive.Visit (TArray n t) old false) (bytes (TArray n t) (VList vs))
    (merge (TArray n t) old (VList vs), false).
Proof.
  intros Ht Hw [Hl Hv] Ho s tail Vs E. destruct old; try (by destruct Ho). destruct Ho as [Hl' Ho].
  destruct (reads_items t vs vs0) with (s := s) (tail := tail) as (s' & E' & V & R); try done.
  - apply Nat2Z.inj. fold (zlen vs) (zlen vs0). lia.
  - exists s'. cbn [BinaryReadArchive.Visit items_of merge]. by rewrite E', bind_done.
Qed.

Lemma reads_optional t v old :
  reads_type t -> wf_type t -> storable (TOptional t) v ->
  reads (S := S) (BinaryReadArchive.Visit (TOptional t) old false) (bytes (TOptional t) v)
    (merge (TOptional t) old v, false).
Proof.
  intros Ht Hw Hv. destruct v; try (by destruct Hv).
  - intros s tail Vs E.
    destruct (reads_uint 1 0 ltac:(done)) with (s := s) (tail := tail) as (s' & E' & V & R); [done..|].
    exists s'. cbn [BinaryReadArchive.Visit]. by rewrite E', bind_done.
  - intros s0 tail Vs0 E0. cbn [bytes] in E0. rewrite <- app_assoc in E0.
    destruct (reads_uint 1 1 ltac:(done) s0 _ Vs0 E0) as (s & E1 & Vs & E).
    cbn [BinaryReadArchive.Visit]. rewrite E1, bind_done. cbn beta iota.
    destruct (Ht v (default t) Hw Hv (default_storable t Hw) s tail Vs E) as (s' & E' & V & R).
    exists s'. change (1 =? 0) with false. change (1 =? 1) with true. cbn iota.
    by rewrite E', bind_done.
Qed.

Lemma Visit_reads t : reads_type t.
Proof.
  induction t using ctype_mut with (P0 := reads_fields); intros v old Hw Hv Ho;
    try (destruct v; try (by destruct Hv)).
  - apply reads_bool.
  - apply (reads_scalar _ VInt), reads_int; [destruct size; done || lia|done].
  - by apply (reads_scalar _ VInt), reads_uint.
  - by apply (reads_scalar _ VFloat), reads_uint.
  - by apply reads_bytes.
  - by apply (reads_scalar _ VBytes), reads_ReadString.
  - destruct Hv as (us & Hr & Hu & ->). cbn [bytes]. rewrite micros_roundtrip by done.
    apply (reads_scalar _ (fun us => VTime (ConvertEpochMicrosecondsToPtime us))).
    by apply reads_int; [lia|].
  - destruct Hv as (us & Hr & Hu & ->). cbn [bytes]. rewrite duration_roundtrip by done.
    apply (reads_scalar _ (fun us => VDuration (ConvertMicrosecondsToDuration us))).
    by apply reads_int; [lia|].
  - cbn [merge bytes]. rewrite <- (enum_cast_id is_signed size z Hw Hv) at 2.
    apply (reads_scalar _ (fun z => VInt (enum_cast is_signed size z))), reads_ReadVaruint, u64_range.
  - by apply reads_vector.
  - destruct Hw. by apply reads_array.
  - by apply reads_optional.
  - by apply reads_optional.
  - destruct old; try (by destruct Ho). intros s tail Vs E.
    destruct (IHt vs vs0 Hw Hv Ho s tail Vs E) as (s' & E' & V & R).
    exists s'. rewrite Visit_object. cbn [members_of]. by rewrite E', bind_done.
  - destruct old; [|done]. apply (reads_ret ([], false)).
  - destruct old as [|old olds]; [by destruct Ho|]. destruct Hw as (Hw & _ & Hws).
    destruct Hv as [Hv Hvs], Ho as [Ho Hos]. intros s tail Vs E.
    cbn [fields_bytes] in E. rewrite <- app_assoc in E.
    destruct (IHt v old Hw Hv Ho s _ Vs E) as (s1 & E1 & V1 & R1).
    destruct (IHt0 v0 olds Hws Hvs Hos s1 tail V1 R1) as (s2 & E2 & V2 & R2).
    exists s2. rewrite Accept_cons, E1, bind_done. cbn beta iota.
    by rewrite E2, bind_done.
Qed.
End reading.

(** ** Fresh objects *)
Section fresh.
Context `{BoostTimeLaws}.

Lemma clear_initial fs : plain_fields fs -> clear_fields fs (default_fields fs).
Proof. induction fs; cbn; [done|]. intros (? & ? & ?). auto. Qed.

Lemma clear_default t : plain t -> clear t (default t).
Proof.
  induction t using ctype_mut with (P0 := fun fs => True); cbn; try done.
  - intros. apply Forall_replicate. auto.
  - apply clear_initial.
Qed.

Lemma zip_with_id {A} (P Q R : A -> Prop) (f : A -> A -> A) olds vs :
  (forall old v, P old -> Q old -> R v -> f old v = v) -> length olds = length vs ->
  Forall P olds -> Forall Q olds -> Forall R vs -> zip_with f olds vs = vs.
Proof.
  intros Hf Hl HP. revert vs Hl. induction HP as [|old olds Ho _ IH]; intros [|v vs] Hl HQ HR;
    try done. cbn. apply Forall_cons_1 in HQ as [? ?], HR as [? ?].
  rewrite Hf by done. f_equal. apply IH; [simpl in Hl; lia|done..].
Qed.

(** Reading into an object without engaged optionals forgets the object. *)
Lemma merge_clear t : forall old v,
  wf_type t -> plain t -> clear t old -> storable t old -> storable t v -> merge t old v = v.
Proof.
  induction t using ctype_mut with (P0 := fun fs => forall olds vs,
    wf_fields fs -> plain_fields fs -> clear_fields fs olds -> storable_fields fs olds ->
    storable_fields fs vs -> merge_fields fs olds vs = vs);
    intros old v Hw Hp Hc Ho Hv; try reflexivity.
  - destruct v; try done. cbn in *. f_equal. destruct old; try done. cbn [items_of].
    destruct Ho as [_ Ho], Hv as [Hl Hv].
    pose proof (zlen_nonneg vs). pose proof (zlen_nonneg vs0).
    apply zip_with_id with (clear t) (storable t) (storable t).
    + auto.
    + apply Nat2Z.inj. fold (zlen vs). rewrite length_app. unfold ztake.
      rewrite length_take, length_replicate. unfold zlen in *. lia.
    + apply Forall_app. split; [by apply Forall_ztake|]. by apply Forall_replicate, clear_default.
    + apply Forall_app. split; [by apply Forall_ztake|]. by apply Forall_replicate, default_storable.
    + done.
  - destruct v, old; try done. cbn in *. f_equal. destruct Ho as [? ?], Hv as [? ?], Hw.
    apply zip_with_id with (clear t) (storable t) (storable t); auto.
    apply Nat2Z.inj. fold (zlen vs) (zlen vs0). lia.
  - cbn in Hc. subst old. destruct v; try done. cbn in *. f_equal.
    apply IHt; [done|done|by apply clear_default|by apply default_storable|done].
  - destruct v, old; try done. cbn in *. f_equal. by apply IHt.
  - by destruct old, v.
  - destruct old as [|old olds], v as [|v vs]; try done. cbn in *.
    destruct Hw as (? & ? & ?), Hp as (? & ? & ?), Hc, Ho, Hv. f_equal; auto.
Qed.
End fresh.

(** ** Truncated records *)
Section truncation.
Import TelemetryReader.
Context `{BoostTimeLaws} {S : Type} `{ReadStreamLaws S}.

Definition strict_prefix (p d : list byte) : Prop := exists b suf, d = p ++ b :: suf.

Lemma strict_prefix_app p a b :
  strict_prefix p (a ++ b) ->
  strict_prefix p a \/ exists q, p = a ++ q /\ strict_prefix q b.
Proof.
  intros (x & suf & E). apply app_eq_inv in E as [(k & -> & E)|(k & -> & ->)].
  - destruct k as [|y k]; cbn [app] in E.
    + right. exists []. rewrite !app_nil_r. split; [done|]. by exists x, suf.
    + left. by exists y, k.
  - right. exists k. split; [done|]. by exists x, suf.
Qed.

Lemma strict_prefix_len p d : strict_prefix p d -> zlen p < zlen d.
Proof.
  intros (x & suf & ->). rewrite zlen_app, zlen_cons. pose proof (zlen_nonneg suf). lia.
Qed.

(** A reader of an optional value that finds less than [d]. *)
Definition short {A} (f : S -> outcome (option A * S)) (d : list byte) : Prop := forall s,
  rs_valid s -> strict_prefix (rs_rest s) d ->
  exists s', f s = Done (None, s') /\ rs_valid s' /\ rs_rest s' = [].

Lemma short_ReadScalar n d : zlen d = Z.of_nat n -> short (ReadScalar n) d.
Proof.
  intros Hn s Hv Hp. apply strict_prefix_len in Hp. apply ReadScalar_short; [done|lia].
Qed.

Lemma short_ReadSigned n d : zlen d = Z.of_nat n -> short (ReadSigned n) d.
Proof.
  intros Hn s Hv Hp. destruct (short_ReadScalar n d Hn s Hv Hp) as (s' & E & V & R).
  exists s'. unfold ReadSigned. by rewrite E, bind_done.
Qed.

Lemma short_ReadVaruint v : in_u 64 v -> short ReadVaruint (vbytes v).
Proof.
  intros Hu s Hv Hp. destruct (vbytes_wf v Hu) as [Hw Hl]. pose proof (vu_len_u64 v Hu).
  pose proof (strict_prefix_len _ _ Hp) as Hlen. destruct Hp as (b & suf & E).
  apply ReadVaruint_loop_short; [done| | |lia|lia].
  - rewrite <- (take_app_length (rs_rest s) (b :: suf)), <- E.
    apply vu_wf_continues; [done|]. unfold zlen in Hlen. lia.
  - unfold zlen in *. lia.
Qed.

Lemma short_RawRead d : short (fun s => RawRead s (zlen d)) d.
Proof. intros s Hv Hp. apply strict_prefix_len in Hp. by apply tel_RawRead_short. Qed.

Lemma short_ReadString d :
  zlen d <= kMaxStringSize -> short ReadString (vbytes (zlen d) ++ d).
Proof.
  intros Hd s Hv Hp. pose proof (zlen_u64 d _ Hd eq_refl) as Hu. unfold ReadString.
  apply strict_prefix_app in Hp as [Hp|(q & Eq & Hp)].
  - destruct (short_ReadVaruint _ Hu s Hv Hp) as (s' & -> & ? & ?). rewrite bind_done. eauto.
  - destruct (reads_ReadVaruint _ Hu s q Hv Eq) as (s1 & -> & V1 & R1).
    rewrite bind_done. cbn beta iota. rewrite (proj2 (Z.ltb_ge _ _)) by done.
    cbn [mj_assert negb]. rewrite bind_done. apply short_RawRead; [done|by rewrite R1].
Qed.

(** What [Visit] does with data that ends early: [error_] is set. *)
Definition fails (f : S -> outcome (value * bool * S)) (d : list byte) : Prop := forall s,
  rs_valid s -> strict_prefix (rs_rest s) d ->
  exists v s', f s = Done (v, true, s') /\ rs_valid s' /\ rs_rest s' = [].

Lemma fails_scalar {A} (f : S -> outcome (option A * S)) (h : A -> value) d old error :
  short f d ->
  fails (fun s => '(m, s) ← f s; Done (BinaryReadArchive.set_value old error (h <$> m, s))) d.
Proof.
  intros Hf s Hv Hp. destruct (Hf s Hv Hp) as (s' & -> & ? & ?).
  rewrite bind_done. by exists old, s'.
Qed.

Lemma fails_bool old error d : zlen d = 1 ->
  fails (fun s => BinaryReadArchive.set_value old error <$> BinaryReadArchive.Read_bool s) d.
Proof.
  intros Hd s Hv Hp. destruct (short_ReadScalar 1 d Hd s Hv Hp) as (s' & E & ? & ?).
  exists old, s'. unfold BinaryReadArchive.Read_bool. by rewrite E.
Qed.

Lemma fails_bytes b old error :
  zlen b <= max_size -> fails (BinaryReadArchive.Read_bytes old error) (vbytes (zlen b) ++ b).
Proof.
  intros Hb s Hv Hp. pose proof (zlen_u64 b _ Hb eq_refl) as Hu.
  unfold BinaryReadArchive.Read_bytes. apply strict_prefix_app in Hp as [Hp|(q & Eq & Hp)].
  - destruct (short_ReadVaruint _ Hu s Hv Hp) as (s' & -> & ? & ?). rewrite bind_done. eauto.
  - destruct (reads_ReadVaruint _ Hu s q Hv Eq) as (s1 & -> & V1 & R1).
    rewrite bind_done. cbn beta iota. rewrite vector_resize_done, bind_done by done.
    apply strict_prefix_len in Hp. rewrite <- R1 in Hp.
    destruct (read_short s1 _ V1 Hp) as (s2 & -> & V2 & R2 & G). rewrite bind_done.
    cbv zeta beta iota. rewrite G, (proj2 (Z.eqb_neq _ _)) by lia. eauto.
Qed.

(** With no data left nothing is reset: the reader goes on to the end, and an
    error stays. *)
Definition carries_on {A} (f : bool -> S -> outcome (A * bool * S)) : Prop := forall error s,
  rs_valid s -> rs_rest s = [] -> exists a error' s',
  f error s = Done (a, error', s') /\ rs_valid s' /\ rs_rest s' = [] /\
  (error = true -> error' = true).

Lemma none_left {A} (f : S -> outcome (option A * S)) d s :
  short f d -> d <> [] -> rs_valid s -> rs_rest s = [] ->
  exists s', f s = Done (None, s') /\ rs_valid s' /\ rs_rest s' = [].
Proof.
  intros Hf Hd Hv E. apply Hf; [done|]. rewrite E. destruct d as [|x d]; [done|]. by exists x, d.
Qed.

Lemma no_varuint s : rs_valid s -> rs_rest s = [] ->
  exists s', ReadVaruint s = Done (None, s') /\ rs_valid s' /\ rs_rest s' = [].
Proof. apply (none_left _ (vbytes 0)); [by apply short_ReadVaruint|done]. Qed.

Lemma no_scalar n s : (0 < n)%nat -> rs_valid s -> rs_rest s = [] ->
  exists s', ReadScalar n s = Done (None, s') /\ rs_valid s' /\ rs_rest s' = [].
Proof.
  intros Hn. apply (none_left _ (le_split n 0)); [apply short_ReadScalar, zlen_le_split|].
  by destruct n; [lia|].
Qed.

Lemma no_signed n s : (0 < n)%nat -> rs_valid s -> rs_rest s = [] ->
  exists s', ReadSigned n s = Done (None, s') /\ rs_valid s' /\ rs_rest s' = [].
Proof.
  intros Hn. apply (none_left _ (le_split n 0)); [apply short_ReadSigned, zlen_le_split|].
  by destruct n; [lia|].
Qed.

Lemma carries_on_read {A} (f : S -> outcome (option A * S)) (h : A -> value) old :
  (forall s, rs_valid s -> rs_rest s = [] ->
     exists s', f s = Done (None, s') /\ rs_valid s' /\ rs_rest s' = []) ->
  carries_on (fun error s =>
    '(m, s) ← f s; Done (BinaryReadArchive.set_value old error (h <$> m, s))).
Proof.
  intros Hf error s Hv E. destruct (Hf s Hv E) as (s' & -> & ? & ?). rewrite bind_done.
  by exists old, true, s'.
Qed.

Lemma carries_on_items t items :
  (forall old, carries_on (BinaryReadArchive.Visit t old)) ->
  carries_on (BinaryReadArchive.VisitArrayHelper (BinaryReadArchive.Visit t) items).
Proof.
  intros Ht. induction items as [|item items IH]; intros error s Hv E; [by exists [], error, s|].
  cbn [BinaryReadArchive.VisitArrayHelper].
  destruct (Ht item error s Hv E) as (a & e & s1 & -> & V1 & R1 & He1). rewrite bind_done.
  cbn beta iota. destruct e; [by exists (a :: items), true, s1|].
  destruct (IH false s1 V1 R1) as (b & e & s2 & -> & V2 & R2 & He2). rewrite bind_done.
  exists (a :: b), e, s2. split_and!; [done..|]. intros ->. by discriminate He1.
Qed.

Lemma int_size_pos n : int_size n = true -> (0 < n)%nat.
Proof. destruct n; [done|lia]. Qed.

Lemma Visit_carries_on t : forall old, wf_type t -> carries_on (BinaryReadArchive.Visit t old).
Proof.
  induction t using ctype_mut with (P0 := fun fs => forall olds,
    wf_fields fs -> carries_on (BinaryReadArchive.Accept fs olds)); intros old Hw.
  - intros error s Hv E. destruct (no_scalar 1 s ltac:(lia) Hv E) as (s' & E' & V & R).
    exists old, true, s'. cbn [BinaryReadArchive.Visit]. unfold BinaryReadArchive.Read_bool.
    by rewrite E'.
  - apply (carries_on_read _ VInt). intros s. by apply no_signed, int_size_pos.
  - apply (carries_on_read _ VInt). intros s. by apply no_scalar, int_size_pos.
  - apply (carries_on_read _ VFloat). intros s. apply no_scalar. destruct Hw; lia.
  - intros error s Hv E. destruct (no_varuint s Hv E) as (s' & E' & V & R).
    exists old, true, s'. cbn [BinaryReadArchive.Visit]. unfold BinaryReadArchive.Read_bytes.
    by rewrite E'.
  - apply (carries_on_read _ VBytes). intros s.
    apply (none_left _ (vbytes (zlen (@nil byte)) ++ [])); [by apply short_ReadString|done].
  - apply (carries_on_read _ (fun us => VTime (ConvertEpochMicrosecondsToPtime us))).
    intros s. apply no_signed. lia.
  - apply (carries_on_read _ (fun us => VDuration (ConvertMicrosecondsToDuration us))).
    intros s. apply no_signed. lia.
  - apply (carries_on_read _ (fun z => VInt (enum_cast is_signed size z))). exact no_varuint.
  - intros error s Hv E. destruct (no_varuint s Hv E) as (s' & E' & V & R).
    exists old, true, s'. cbn [BinaryReadArchive.Visit]. by rewrite E'.
  - intros error s Hv E. destruct Hw as [_ Hw].
    destruct (carries_on_items t (items_of old) (fun o => IHt o Hw) error s Hv E)
      as (a & e & s' & E' & V & R & He).
    exists (VList a), e, s'. cbn [BinaryReadArchive.Visit]. by rewrite E'.
  - intros error s Hv E. destruct (no_scalar 1 s ltac:(lia) Hv E) as (s' & E' & V & R).
    exists old, true, s'. cbn [BinaryReadArchive.Visit]. by rewrite E'.
  - intros error s Hv E. destruct (IHt (members_of old) Hw error s Hv E) as (a & e & s' & E' & V & R & He).
    exists (VObject a), e, s'. rewrite Visit_object. by rewrite E'.
  - intros error s Hv E. by exists [], error, s.
  - intros error s Hv E. destruct Hw as (Hw & _ & Hws).
    destruct old as [|old olds]; [by exists [], error, s|]. rewrite Accept_cons.
    destruct (IHt old Hw error s Hv E) as (a & e & s1 & -> & V1 & R1 & He1). rewrite bind_done.
    cbn beta iota.
    destruct (IHt0 olds Hws e s1 V1 R1) as (b & e' & s2 & -> & V2 & R2 & He2). rewrite bind_done.
    exists (a :: b), e', s2. split_and!; [done..|]. auto.
Qed.

Definition truncates (t : ctype) : Prop := forall v old,
  wf_type t -> storable t v -> storable t old ->
  fails (BinaryReadArchive.Visit t old false) (bytes t v).

Lemma truncates_items t vs olds :
  truncates t -> wf_type t -> length olds = length vs ->
  Forall (storable t) vs -> Forall (storable t) olds ->
  forall s, rs_valid s -> strict_prefix (rs_rest s) (concat (map (bytes t) vs)) ->
  exists items s', BinaryReadArchive.VisitArrayHelper (BinaryReadArchive.Visit t) olds false s =
    Done (items, true, s') /\ rs_valid s' /\ rs_rest s' = [].
Proof.
  intros Ht Hw Hl Hvs. revert olds Hl. induction Hvs as [|v vs Hv _ IH]; intros [|old olds] Hl Ho s Vs Hp;
    try done.
  { destruct Hp as (x & suf & E). by destruct (rs_rest s). }
  apply Forall_cons_1 in Ho as [Ho Hos]. cbn [map concat] in Hp.
  cbn [BinaryReadArchive.VisitArrayHelper]. apply strict_prefix_app in Hp as [Hp|(q & Eq & Hp)].
  - destruct (Ht v old Hw Hv Ho s Vs Hp) as (a & s' & -> & ? & ?). rewrite bind_done. cbn beta iota.
    eauto.
  - destruct (Visit_reads t v old Hw Hv Ho s q Vs Eq) as (s1 & -> & V1 & R1). rewrite bind_done.
    cbn beta iota. rewrite <- R1 in Hp.
    destruct (IH olds ltac:(simpl in Hl; lia) Hos s1 V1 Hp) as (items & s' & -> & ? & ?).
    rewrite bind_done. cbn beta iota. eauto.
Qed.

Lemma truncates_vector t : truncates t -> truncates (TVector t).
Proof.
  intros Ht v old Hw Hv Ho. destruct v; try (by destruct Hv). destruct Hv as [Hl Hv].
  pose proof (zlen_u64 vs _ Hl eq_refl) as Hu. intros s Vs Hp. cbn [bytes] in Hp.
  cbn [BinaryReadArchive.Visit]. apply strict_prefix_app in Hp as [Hp|(q & Eq & Hp)].
  - destruct (short_ReadVaruint _ Hu s Vs Hp) as (s' & -> & ? & ?). rewrite bind_done. eauto.
  - destruct (reads_ReadVaruint _ Hu s q Vs Eq) as (s1 & -> & V1 & R1).
    rewrite bind_done. cbn beta iota. rewrite vector_resize_done, bind_done by done.
    rewrite <- R1 in Hp. pose proof (zlen_nonneg (items_of old)). pose proof (zlen_nonneg vs).
    destruct (truncates_items t vs (ztake (zlen vs) (items_of old) ++
      replicate (Z.to_nat (zlen vs - zlen (items_of old))) (default t)) Ht Hw) with (s := s1)
      as (items & s' & -> & ? & ?); try done.
    + apply Nat2Z.inj. fold (zlen vs). rewrite length_app. unfold ztake.
      rewrite length_take, length_replicate. unfold zlen in *. lia.
    + apply Forall_app. split; [by apply Forall_ztake, items_storable|].
      by apply Forall_replicate, default_storable.
    + rewrite bind_done. cbn beta iota. eauto.
Qed.

Lemma truncates_array n t : truncates t -> truncates (TArray n t).
Proof.
  intros Ht v old [_ Hw] Hv Ho. destruct v, old; try (by destruct Hv); try (by destruct Ho).
  destruct Hv as [Hl Hv], Ho as [Hl' Ho]. intros s Vs Hp. cbn [bytes] in Hp.
  destruct (truncates_items t vs vs0 Ht Hw) with (s := s) as (items & s' & E & ? & ?); try done.
  { apply Nat2Z.inj. fold (zlen vs) (zlen vs0). lia. }
  cbn [BinaryReadArchive.Visit items_of]. rewrite E, bind_done. cbn beta iota. eauto.
Qed.

Lemma truncates_optional t : truncates t -> truncates (TOptional t).
Proof.
  intros Ht v old Hw Hv Ho s Vs Hp. cbn [BinaryReadArchive.Visit].
  destruct v; try (by destruct Hv); cbn [bytes] in Hp.
  - destruct (short_ReadScalar 1 (vbytes 0) eq_refl s Vs Hp) as (s' & -> & ? & ?).
    rewrite bind_done. eauto.
  - apply strict_prefix_app in Hp as [Hp|(q & Eq & Hp)].
    + destruct (short_ReadScalar 1 (vbytes 1) eq_refl s Vs Hp) as (s' & -> & ? & ?).
      rewrite bind_done. eauto.
    + destruct (reads_uint 1 1 ltac:(done) s q Vs Eq) as (s1 & -> & V1 & R1).
      rewrite bind_done. cbn beta iota. change (1 =? 0) with false. change (1 =? 1) with true.
      cbn iota. rewrite <- R1 in Hp.
      destruct (Ht v (default t) Hw Hv (default_storable t Hw) s1 V1 Hp) as (a & s' & -> & ? & ?).
      rewrite bind_done. cbn beta iota. eauto.
Qed.

Lemma Visit_truncates t : truncates t.
Proof.
  induction t using ctype_mut with (P0 := fun fs => forall vs olds,
    wf_fields fs -> storable_fields fs vs -> storable_fields fs olds ->
    forall s, rs_valid s -> strict_prefix (rs_rest s) (fields_bytes fs vs) ->
    exists ms s', BinaryReadArchive.Accept fs olds false s = Done (ms, true, s') /\
      rs_valid s' /\ rs_rest s' = []);
    try (by apply truncates_vector || apply truncates_array || apply truncates_optional);
    intros v old Hw Hv Ho; try (destruct v; try (by destruct Hv)).
  - by apply fails_bool.
  - apply (fails_scalar _ VInt), short_ReadSigned, zlen_le_split.
  - apply (fails_scalar _ VInt), short_ReadScalar, zlen_le_split.
  - apply (fails_scalar _ VFloat), short_ReadScalar, zlen_le_split.
  - by apply fails_bytes.
  - by apply (fails_scalar _ VBytes), short_ReadString.
  - apply (fails_scalar _ (fun us => VTime (ConvertEpochMicrosecondsToPtime us))).
    apply short_ReadSigned, (zlen_le_split 8).
  - apply (fails_scalar _ (fun us => VDuration (ConvertMicrosecondsToDuration us))).
    apply short_ReadSigned, (zlen_le_split 8).
  - apply (fails_scalar _ (fun z => VInt (enum_cast is_signed size z))).
    apply short_ReadVaruint, u64_range.
  - destruct old; try (by destruct Ho). intros s Vs Hp.
    destruct (IHt vs vs0 Hw Hv Ho s Vs Hp) as (ms & s' & E & ? & ?).
    exists (VObject ms), s'. rewrite Visit_object. cbn [members_of]. by rewrite E.
  - intros s Vs (x & suf & E). by destruct (rs_rest s).
  - destruct old as [|old olds]; [by destruct Ho|]. destruct Hw as (Hw & _ & Hws).
    destruct Hv as [Hv Hvs], Ho as [Ho Hos]. intros s Vs Hp. rewrite Accept_cons.
    cbn [fields_bytes] in Hp. apply strict_prefix_app in Hp as [Hp|(q & Eq & Hp)].
    + destruct (IHt v old Hw Hv Ho s Vs Hp) as (a & s1 & -> & V1 & R1). rewrite bind_done.
      cbn beta iota.
      assert (Hc : carries_on (BinaryReadArchive.Accept rest olds)).
      { intros error s' V' E'.
        destruct (Visit_carries_on (TObject rest) (VObject olds) Hws error s' V' E')
          as (a' & e' & s'' & E'' & ? & ? & ?). rewrite Visit_object in E''. cbn [members_of] in E''.
        apply bind_done_inv in E'' as ([[ms e] s3] & E3 & E4). injection E4 as <- <- <-. eauto 8. }
      destruct (Hc true s1 V1 R1) as (b & e & s2 & -> & V2 & R2 & He). rewrite bind_done.
      rewrite He by done. cbn beta iota. eauto.
    + destruct (Visit_reads t v old Hw Hv Ho s q Vs Eq) as (s1 & -> & V1 & R1). rewrite bind_done.
      cbn beta iota. rewrite <- R1 in Hp.
      destruct (IHt0 v0 olds Hws Hvs Hos s1 V1 Hp) as (ms & s' & -> & ? & ?).
      rewrite bind_done. cbn beta iota. eauto.
Qed.
End truncation.

(** ** Properties *)

(** An example class: a flag, a signed 16-bit integer, an enumeration with a
    negative item, an optional name, a vector of durations and two bytes. *)
Definition demo_class : ctype := TObject
  (FCons (map byte.of_Z [0x61]) TBool (VBool false)
  (FCons (map byte.of_Z [0x62]) (TInt 2) (VInt (-3))
  (FCons (map byte.of_Z [0x63]) (TEnum true 4 [(-1, map byte.of_Z [0x6e]); (2, [])]) (VInt 2)
  (FCons (map byte.of_Z [0x64]) (TOptional TString) VNone
  (FCons (map byte.of_Z [0x65]) (TVector TDuration) (VList [])
  (FCons (map byte.of_Z [0x66]) (TArray 2 (TUInt 1)) (VList [VInt 0; VInt 0]) FNil)))))).

Definition demo_object : value := VObject
  [VBool true; VInt (-300); VInt (-1); VSome (VBytes kHeader);
   VList [VDuration (MAt 1500000); VDuration MNeg]; VList [VInt 7; VInt 255]].

Lemma demo_wf : wf_type demo_class /\ plain demo_class /\ storable demo_class demo_object /\
  storable demo_class (default demo_class) /\ clear demo_class (default demo_class).
Proof.
  assert (Hd : forall us, duration_us us = true) by (intros; unfold duration_us; apply orb_true_r).
  cbn. unfold in_u, in_s, max_size, kMaxStringSize. cbn.
  split_and!; try done; try (by repeat constructor).
  repeat constructor.
  - by exists 1500000.
  - by exists int64_min.
Qed.

Section properties.
Context {W R : Type}.

(** C10: an object written by [BinaryWriteArchive] is the record [bytes t v] on
    any stream with room for it, and [BinaryReadArchive] reads that record
    back: into any object of the class without an engaged optional (such as a
    fresh one) it stores exactly the members that were written, without an
    error, and stops behind the record whatever data follows. *)
Theorem archive_roundtrip `{BoostTimeLaws} `{WriteStreamLaws W} `{ReadStreamLaws R}
    (t : ctype) (v old : value) (w : W) :
  wf_type t -> plain t -> storable t v -> storable t old -> clear t old ->
  ws_valid w -> ws_fits w (zlen (bytes t v)) = true ->
  exists w', BinaryWriteArchive.Visit t v w = Done w' /\ ws_out w' = ws_out w ++ bytes t v /\
    forall (r : R) tail, rs_valid r -> rs_rest r = bytes t v ++ tail ->
      exists r', BinaryReadArchive.Visit t old false r = Done (v, false, r') /\
                 rs_valid r' /\ rs_rest r' = tail.
Proof.
  intros Hw Hp Hv Ho Hc Vw Hf. destruct (Visit_emits t v Hv w Vw Hf) as (w' & E & _ & O & _).
  exists w'. split_and!; [done..|]. intros r tail Vr Er.
  destruct (Visit_reads t v old Hw Hv Ho r tail Vr Er) as (r' & E' & V' & R').
  exists r'. by rewrite merge_clear in E'.
Qed.

(** An optional that is absent in the record keeps, in an object that is
    read into, the value it had: the reader neither resets it nor reports an
    error. *)
Theorem absent_optional_survives `{BoostTimeLaws} `{ReadStreamLaws R}
    (t : ctype) (x : value) (r : R) tail :
  rs_valid r -> rs_rest r = bytes (TOptional t) VNone ++ tail ->
  exists r', BinaryReadArchive.Visit (TOptional t) (VSome x) false r = Done (VSome x, false, r') /\
             rs_valid r' /\ rs_rest r' = tail.
Proof.
  intros Vr Er.
  destruct (reads_uint 1 0 ltac:(done) r tail Vr Er) as (r' & E' & V' & R').
  exists r'. cbn [BinaryReadArchive.Visit]. by rewrite E', bind_done.
Qed.

(** A record cut short anywhere is recognised: reading any strict prefix
    of it consumes what there is, never faults, and sets [error_]. *)
Theorem truncated_record_detected `{BoostTimeLaws} `{ReadStreamLaws R}
    (t : ctype) (v old : value) (r : R) lost :
  wf_type t -> storable t v -> storable t old ->
  rs_valid r -> rs_rest r ++ lost = bytes t v -> lost <> [] ->
  exists v' r', BinaryReadArchive.Visit t old false r = Done (v', true, r') /\
                rs_valid r' /\ rs_rest r' = [].
Proof.
  intros Hw Hv Ho Vr Er Hl. apply (Visit_truncates t v old Hw Hv Ho r Vr).
  destruct lost as [|b suf]; [done|]. by exists b, suf.
Qed.
End properties.

Lemma archive_roundtrip_witness : exists w',
  BinaryWriteArchive.Visit demo_class demo_object FastOStringStream.empty = Done w' /\
  FastOStringStream.str w' = [] ++ bytes demo_class demo_object /\
  forall (r : FastIStringStream.t) tail, FastIStringStream.ok r ->
    FastIStringStream.rest r = bytes demo_class demo_object ++ tail ->
    exists r', BinaryReadArchive.Visit demo_class (default demo_class) false r =
                 Done (demo_object, false, r') /\
               FastIStringStream.ok r' /\ FastIStringStream.rest r' = tail.
Proof.
  refine (archive_roundtrip (W := FastOStringStream.vector) (R := FastIStringStream.t)
    demo_class demo_object (default demo_class) FastOStringStream.empty
    _ _ _ _ _ FastOStringStream.ok_empty eq_refl); apply demo_wf.
Defined.

Lemma absent_optional_survives_witness : exists r',
  BinaryReadArchive.Visit (TOptional TBool) (VSome (VBool true)) false
    (FastIStringStream.make (bytes (TOptional TBool) VNone)) =
    Done (VSome (VBool true), false, r') /\ FastIStringStream.ok r' /\ FastIStringStream.rest r' = [].
Proof.
  exact (absent_optional_survives (R := FastIStringStream.t) TBool (VBool true)
    (FastIStringStream.make (bytes (TOptional TBool) VNone)) []
    (FastIStringStream.fis_ok_make _) eq_refl).
Defined.

Lemma truncated_record_detected_witness : exists v' r',
  BinaryReadArchive.Visit demo_class (default demo_class) false
    (FastIStringStream.make (take 9 (bytes demo_class demo_object))) = Done (v', true, r') /\
  FastIStringStream.ok r' /\ FastIStringStream.rest r' = [].
Proof.
  refine (truncated_record_detected (R := FastIStringStream.t) demo_class demo_object
    (default demo_class) (FastIStringStream.make (take 9 (bytes demo_class demo_object)))
    (drop 9 (bytes demo_class demo_object)) _ _ _ (FastIStringStream.fis_ok_make _) _ _).
  - apply demo_wf.
  - apply demo_wf.
  - apply demo_wf.
  - apply take_drop.
  - vm_compute. discriminate.
Defined.
