(* ===== verification/Schema.v ===== *)
(** * Schemas: BinarySchemaArchive and BinarySchemaParser

    telemetry/binary_write_archive.h emits the schema of a class,
    telemetry/binary_schema_parser.h and .cc turn a schema into a tree of
    elements that can skip and read records without knowing the class. *)
From S2P Require Import Prelude Varuint Streams TimeConversions TelemetryFormat Archive.

(** A loop that runs a fixed number of times: [for (uint64_t i = 0; i < n; i++)].
    The recursion is on the binary number, so that a body that throws ends a
    loop of any length. *)
Section loops.
Context {S : Type} (body : S -> outcome S).

Fixpoint times_pos (p : positive) (s : S) : outcome S :=
  match p with
  | xH => body s
  | xO p => s ← times_pos p s; times_pos p s
  | xI p => s ← body s; s ← times_pos p s; times_pos p s
  end.

Definition times (n : Z) (s : S) : outcome S :=
  match n with Zpos p => times_pos p s | _ => Done s end.

Lemma times_pos_comm p s : (times_pos p s ≫= body) = (body s ≫= times_pos p).
Proof.
  assert (twice : forall p, (forall s, (times_pos p s ≫= body) = (body s ≫= times_pos p)) ->
    forall s, ((times_pos p s ≫= times_pos p) ≫= body) =
              (body s ≫= fun s => times_pos p s ≫= times_pos p)).
  { intros q IH s1. rewrite <- (bind_assoc (body s1)), <- IH, !bind_assoc.
    destruct (times_pos q s1) as [s2|]; [|done]. by rewrite !bind_done, IH. }
  revert s. induction p as [p IH|p IH|]; intros s; cbn [times_pos]; [|by apply twice|done].
  rewrite bind_assoc. destruct (body s) as [s1|f]; [|done]. rewrite !bind_done.
  by apply twice.
Qed.

Lemma times_pos_succ p s : times_pos (Pos.succ p) s = (body s ≫= times_pos p).
Proof.
  revert s. induction p as [p IH|p IH|]; intros s; [|done|done].
  change (times_pos (Pos.succ p) s ≫= times_pos (Pos.succ p) = (body s ≫= times_pos p~1)).
  rewrite IH, bind_assoc. destruct (body s) as [s1|]; [|done]. rewrite !bind_done.
  cbn [times_pos]. rewrite <- bind_assoc, <- times_pos_comm, bind_assoc.
  destruct (times_pos p s1) as [s2|]; [|done]. rewrite !bind_done. apply IH.
Qed.

Lemma times_succ n s : 0 <= n -> times (n + 1) s = (body s ≫= times n).
Proof.
  intros Hn. destruct n as [|p|p]; [| |lia].
  - change (body s = (body s ≫= fun s => Done s)). by destruct (body s) as [s1|f].
  - change (Z.pos p + 1) with (Z.pos (p + 1)). cbn [times]. rewrite Pos.add_1_r.
    apply times_pos_succ.
Qed.

Lemma times_0 n s : n <= 0 -> times n s = Done s.
Proof. by destruct n; [..|done]; intros ?; [|lia]. Qed.
End loops.

(** The same over a container, and the element of a container at an index. *)
Section containers.
Context {A S : Type} (body : A -> S -> outcome S).

Fixpoint for_each (l : list A) (s : S) : outcome S :=
  match l with
  | [] => Done s
  | x :: l => s ← body x s; for_each l s
  end.

Fixpoint at_index (l : list A) (index : Z) (s : S) : outcome S :=
  match l with
  | [] => Faulted Undefined
  | x :: l => if index =? 0 then body x s else at_index l (index - 1) s
  end.
End containers.

(** ** class BinarySchemaArchive *)
Module BinarySchemaArchive.
Import TelemetryWriter.
Section Archive.
Context `{BoostTime} {S : Type} `{WriteStream S} (emit_default : bool).

Definition type (t : Type_) (s : S) : outcome S := WriteVaruint s (type_code t).

(** [FindType] and [VisitPrimitive] for a type with a size. *)
Definition sized (t : Type_) (n : nat) (s : S) : outcome S :=
  s ← type t s; WriteVaruint s (Z.of_nat n).

Definition VisitItem (item : Z * list byte) (s : S) : outcome S :=
  s ← WriteVaruint s (u64 (fst item)); WriteString s (snd item).

Definition VisitEnumeration (items : list (Z * list byte)) (s : S) : outcome S :=
  s ← type kEnum s;
  s ← type kVaruint s;
  s ← WriteVaruint s (zlen items);
  for_each VisitItem items s.

Definition Finish (s : S) : outcome S :=
  s ← WriteVaruint s 0;
  s ← WriteString s [];
  s ← WriteVaruint s 0;
  s ← WriteVaruint s 0;
  WriteVaruint s 0.

(** The schema of a type, taken from an object of it: [VisitArchive::Visit]
    and the overloads it reaches. *)
Fixpoint VisitType (t : ctype) (v : value) (s : S) {struct t} : outcome S :=
  match t with
  | TBool => type kBoolean s
  | TInt n => sized kFixedInt n s
  | TUInt n => sized kFixedUInt n s
  | TFloat n => type (if Nat.eqb n 4 then kFloat32 else kFloat64) s
  | TBytes => type kBytes s
  | TString => type kString s
  | TTimestamp => type kTimestamp s
  | TDuration => type kDuration s
  | TEnum _ _ items => VisitEnumeration items s
  | TVector t => s ← type kArray s; VisitType t (default t) s
  | TArray n t => s ← type kFixedArray s; s ← WriteVaruint s n; VisitType t (default t) s
  | TOptional t =>
      s ← type kUnion s;
      s ← type kNull s;
      s ← VisitType t (default t) s;
      type kFinal s
  | TObject fs =>
      s ← type kObject s;
      s ← WriteVaruint s 0;
      s ← Accept fs (members_of v) s;
      Finish s
  end
with Accept (fs : fields) (vs : list value) (s : S) {struct fs} : outcome S :=
  match fs, vs with
  | FCons name t _ rest, v :: vs =>
      s ← WriteVaruint s 0;
      s ← WriteString s name;
      s ← WriteVaruint s 0;
      s ← VisitType t v s;
      s ← (if emit_default
           then s ← WriteVaruint s 1; BinaryWriteArchive.Visit t v s
           else WriteVaruint s 0);
      Accept rest vs s
  | _, _ => Done s
  end.
End Archive.

(** [BinarySchemaArchive::Write<ValueType>()] *)
Definition Write `{BoostTime} (emit_default : bool) (t : ctype) : outcome (list byte) :=
  FastOStringStream.str <$> VisitType emit_default t (default t) FastOStringStream.empty.
End BinarySchemaArchive.

(** ** class BinarySchemaParser *)
Module BinarySchemaParser.
Import TelemetryReader.

(** [struct Element] and [struct Field].  An element owns its children here;
    in the source they live in the parser's deque and hold a pointer to the
    parent, which only [NextElement] follows.  A type code from 11 to 15 names
    no type but passes the parser's range check, so [type] is the code. *)
#[local] Unset Elimination Schemes.
Inductive Element := mkElement
  (type : Z)
  (name binary_schema : list byte)
  (maybe_fixed_size : Z)
  (int_size : Z)
  (children : list Element)
  (array_size : Z)
  (enum_items : list (Z * list byte))
  (fields : list Field)
  (object_flags : Z)
with Field := mkField
  (field_flags : Z)
  (field_name : list byte)
  (aliases : list (list byte))
  (element : Element)
  (default_value : list byte).
#[local] Set Elimination Schemes.

Definition type_of (e : Element) : Z := let 'mkElement t _ _ _ _ _ _ _ _ _ := e in t.
Definition maybe_fixed_size (e : Element) : Z := let 'mkElement _ _ _ m _ _ _ _ _ _ := e in m.
Definition binary_schema (e : Element) : list byte :=
  let 'mkElement _ _ b _ _ _ _ _ _ _ := e in b.
Definition element (f : Field) : Element := let 'mkField _ _ _ e _ := f in e.

(** The members a case of [ReadType]'s switch sets, over a fresh element. *)
Record contents := {
  c_size : Z; c_int_size : Z; c_children : list Element; c_array_size : Z;
  c_enum_items : list (Z * list byte); c_fields : list Field; c_object_flags : Z;
}.
Definition nothing : contents :=
  {| c_size := -1; c_int_size := -1; c_children := []; c_array_size := 0;
     c_enum_items := []; c_fields := []; c_object_flags := 0 |}.
Definition fixed (n : Z) : contents :=
  {| c_size := n; c_int_size := -1; c_children := []; c_array_size := 0;
     c_enum_items := []; c_fields := []; c_object_flags := 0 |}.
Definition integer (n : Z) : contents :=
  {| c_size := n; c_int_size := n; c_children := []; c_array_size := 0;
     c_enum_items := []; c_fields := []; c_object_flags := 0 |}.
Definition object (flags size : Z) (fields : list Field) : contents :=
  {| c_size := size; c_int_size := -1; c_children := []; c_array_size := 0;
     c_enum_items := []; c_fields := fields; c_object_flags := flags |}.
Definition container (children : list Element) (array_size : Z) : contents :=
  {| c_size := -1; c_int_size := -1; c_children := children; c_array_size := array_size;
     c_enum_items := []; c_fields := []; c_object_flags := 0 |}.
Definition enumeration (child : Element) (items : list (Z * list byte)) : contents :=
  {| c_size := maybe_fixed_size child; c_int_size := -1; c_children := [child];
     c_array_size := 0; c_enum_items := items; c_fields := []; c_object_flags := 0 |}.

Definition make_element (type : Z) (name schema : list byte) (c : contents) : Element :=
  mkElement type name schema (c_size c) (c_int_size c) (c_children c) (c_array_size c)
    (c_enum_items c) (c_fields c) (c_object_flags c).

(** [std::optional::value]; the exceptions of the parser. *)
Definition kBadOptionalAccess : Z := 2.
Definition kInvalidType : Z := 3.
Definition kInvalidUnionIndex : Z := 4.

Definition value_of {A S} (r : outcome (option A * S)) : outcome (A * S) :=
  '(m, s) ← r;
  match m with
  | Some a => Done (a, s)
  | None => Faulted (Exception kBadOptionalAccess)
  end.

(** [std::map::insert] keeps an item that is already there; the map is
    ordered by its keys. *)
Fixpoint map_insert (key : Z) (item : list byte) (m : list (Z * list byte))
    : list (Z * list byte) :=
  match m with
  | [] => [(key, item)]
  | (k, i) :: m' =>
      if key <? k then (key, item) :: m
      else if key =? k then m else (k, i) :: map_insert key item m'
  end.

(** [maybe_size] after the loop over an object's fields. *)
Definition fields_size (fields : list Field) : Z :=
  fold_left (fun size f =>
    if maybe_fixed_size (element f) <? 0 then -1
    else if 0 <=? size then size + maybe_fixed_size (element f) else size) fields 0.

Section reading.
Context {S : Type} `{ReadStream S}.

(** [Ignore] converts its [uint64_t] argument to [std::streamsize]. *)
Definition ignore (s : S) (size : Z) : outcome S := Ignore s (s64 size).

Fixpoint Element_Ignore (e : Element) (s : S) {struct e} : outcome S :=
  match e with
  | mkElement type _ _ fixed_size _ children array_size _ fields _ =>
      if 0 <=? fixed_size then ignore s fixed_size
      else
        match type_of_code type with
        | None => Done s
        | Some kFinal | Some kNull | Some kBoolean | Some kFixedInt | Some kFixedUInt
        | Some kFloat32 | Some kFloat64 | Some kTimestamp | Some kDuration => Faulted Assertion
        | Some kVarint => '(_, s) ← ReadVarint s; Done s
        | Some kVaruint => '(_, s) ← ReadVaruint s; Done s
        | Some kBytes | Some kString => '(size, s) ← value_of (ReadVaruint s); ignore s size
        | Some kObject =>
            for_each (fun f => match f with mkField _ _ _ e _ => Element_Ignore e end) fields s
        | Some kEnum =>
            match children with c :: _ => Element_Ignore c s | [] => Faulted Undefined end
        | Some kArray =>
            '(nelements, s) ← value_of (ReadVaruint s);
            match children with
            | [] => Faulted Undefined
            | c :: _ =>
                if 0 <=? maybe_fixed_size c then ignore s (u64 (nelements * maybe_fixed_size c))
                else times (Element_Ignore c) nelements s
            end
        | Some kFixedArray =>
            match children with
            | [] => Faulted Undefined
            | c :: _ =>
                if 0 <=? maybe_fixed_size c then ignore s (u64 (array_size * maybe_fixed_size c))
                else times (Element_Ignore c) array_size s
            end
        | Some kMap =>
            '(nitems, s) ← value_of (ReadVaruint s);
            match children with
            | [] => if nitems =? 0 then Done s else Faulted Undefined
            | c :: _ => times (fun s => '(_, s) ← ReadString s; Element_Ignore c s) nitems s
            end
        | Some kUnion =>
            '(index, s) ← value_of (ReadVaruint s);
            if zlen children <? index then Faulted (Exception kInvalidUnionIndex)
            else at_index Element_Ignore children index s
        end
  end.

(** [ReadArraySize], [ReadUnionIndex], [ReadBoolean] *)
Definition ReadArraySize (e : Element) (s : S) : outcome (Z * S) :=
  _ ← mj_assert (type_of e =? type_code kArray); value_of (ReadVaruint s).
Definition ReadUnionIndex (e : Element) (s : S) : outcome (Z * S) :=
  _ ← mj_assert (type_of e =? type_code kUnion); value_of (ReadVaruint s).
Definition ReadBoolean (e : Element) (s : S) : outcome (bool * S) :=
  _ ← mj_assert (type_of e =? type_code kBoolean);
  '(b, s) ← value_of (ReadScalar 1 s); Done (negb (b =? 0), s).

Fixpoint ReadUIntLike (e : Element) (s : S) {struct e} : outcome (Z * S) :=
  match e with
  | mkElement type _ _ _ int_size children _ _ _ _ =>
      match type_of_code type with
      | Some kFixedUInt =>
          if int_size =? 1 then value_of (ReadScalar 1 s)
          else if int_size =? 2 then value_of (ReadScalar 2 s)
          else if int_size =? 4 then value_of (ReadScalar 4 s)
          else if int_size =? 8 then value_of (ReadScalar 8 s)
          else Faulted Assertion
      | Some kVaruint => value_of (ReadVaruint s)
      | Some kEnum =>
          match children with c :: _ => ReadUIntLike c s | [] => Faulted Undefined end
      | _ => Faulted Assertion
      end
  end.

Definition ReadIntLike (e : Element) (s : S) : outcome (Z * S) :=
  match e with
  | mkElement type _ _ _ int_size _ _ _ _ _ =>
      match type_of_code type with
      | Some kFixedInt =>
          if int_size =? 1 then value_of (ReadSigned 1 s)
          else if int_size =? 2 then value_of (ReadSigned 2 s)
          else if int_size =? 4 then value_of (ReadSigned 4 s)
          else if int_size =? 8 then value_of (ReadSigned 8 s)
          else Faulted Assertion
      | Some kVarint => value_of (ReadVarint s)
      | Some kTimestamp | Some kDuration => value_of (ReadSigned 8 s)
      | _ => Faulted Assertion
      end
  end.

Definition Element_ReadString (e : Element) (s : S) : outcome (list byte * S) :=
  match type_of_code (type_of e) with
  | Some kBytes | Some kString => value_of (ReadString s)
  | _ => Faulted Assertion
  end.
End reading.

(** [Element::Read]: the record of the element, as bytes. *)
Definition Element_Read {S} `{ReadStream S} (e : Element) (s : S) : outcome (list byte * S) :=
  r ← Element_Ignore e (RecordingStream.make s);
  Done (RecordingStream.str r, RecordingStream.istr r).

(** [for (uint64_t i = 0; i < naliases; i++)] of [ReadField]; the strings come
    out in order. *)
Definition ReadAlias {S} `{ReadStream S} (r : list (list byte) * S)
    : outcome (list (list byte) * S) :=
  let '(aliases, s) := r in
  '(alias, s) ← value_of (ReadString s);
  Done (aliases ++ [alias], s).

(** The loop over an enumeration's values. *)
Definition ReadEnumItem {S} `{ReadStream S} (child : Element) (r : list (Z * list byte) * S)
    : outcome (list (Z * list byte) * S) :=
  let '(items, s) := r in
  '(v, s) ← ReadUIntLike child s;
  '(name, s) ← value_of (ReadString s);
  Done (map_insert v name items, s).

(** [ReadType], the switch inside it with the loops of its object and union
    cases, and [ReadField].  Each takes a stream of any kind, since [ReadType]
    wraps the one it is given in a [RecordingStream] for what it reads itself.
    The fuel bounds the depth of the recursion and these two loops;
    [parse_fuel] is enough. *)
Fixpoint ReadType (fuel : nat) {S : Type} `{ReadStream S} (stream_in : S) (name : list byte)
    {struct fuel} : outcome (Element * S) :=
  match fuel with
  | O => Faulted OutOfFuel
  | Datatypes.S fuel =>
      '(type, c, stream) ← ReadContents fuel (RecordingStream.make stream_in) name;
      Done (make_element type name (RecordingStream.str stream) c, RecordingStream.istr stream)
  end
with ReadContents (fuel : nat) {S : Type} `{ReadStream S} (stream : S) (name : list byte)
    {struct fuel} : outcome (Z * contents * S) :=
  match fuel with
  | O => Faulted OutOfFuel
  | Datatypes.S fuel =>
      '(type, stream) ← value_of (ReadVaruint stream);
      if type_code kDuration <? type then Faulted (Exception kInvalidType)
      else
      '(c, stream) ←
        match type_of_code type with
        | None | Some kFinal | Some kVarint | Some kVaruint | Some kBytes | Some kString =>
            Done (nothing, stream)
        | Some kNull => Done (fixed 0, stream)
        | Some kBoolean => Done (fixed 1, stream)
        | Some kFloat32 => Done (fixed 4, stream)
        | Some kFloat64 | Some kTimestamp | Some kDuration => Done (fixed 8, stream)
        | Some kFixedInt | Some kFixedUInt =>
            '(n, stream) ← value_of (ReadScalar 1 stream); Done (integer n, stream)
        | Some kObject =>
            '(flags, stream) ← value_of (ReadVaruint stream);
            '(fields, stream) ← ReadFields fuel stream;
            Done (object flags (fields_size fields) fields, stream)
        | Some kEnum =>
            '(child, stream) ← ReadType fuel stream name;
            '(nvalues, stream) ← value_of (ReadVaruint stream);
            '(items, stream) ← times (ReadEnumItem child) nvalues ([], stream);
            Done (enumeration child items, stream)
        | Some kFixedArray =>
            '(n, stream) ← value_of (ReadVaruint stream);
            '(child, stream) ← ReadType fuel stream name;
            Done (container [child] n, stream)
        | Some kArray | Some kMap =>
            '(child, stream) ← ReadType fuel stream name;
            Done (container [child] 0, stream)
        | Some kUnion =>
            '(children, stream) ← ReadUnion fuel stream name;
            Done (container children 0, stream)
        end;
      Done (type, c, stream)
  end
with ReadFields (fuel : nat) {S : Type} `{ReadStream S} (stream : S) {struct fuel}
    : outcome (list Field * S) :=
  match fuel with
  | O => Faulted OutOfFuel
  | Datatypes.S fuel =>
      '(maybe_field, stream) ← ReadField fuel stream;
      match (maybe_field : option Field) with
      | None => Done ([], stream)
      | Some field =>
          '(fields, stream) ← ReadFields fuel stream;
          Done (field :: fields, stream)
      end
  end
with ReadUnion (fuel : nat) {S : Type} `{ReadStream S} (stream : S) (name : list byte)
    {struct fuel} : outcome (list Element * S) :=
  match fuel with
  | O => Faulted OutOfFuel
  | Datatypes.S fuel =>
      '(child, stream) ← ReadType fuel stream name;
      if type_of child =? type_code kFinal then Done ([], stream)
      else
        '(children, stream) ← ReadUnion fuel stream name;
        Done (child :: children, stream)
  end
with ReadField (fuel : nat) {S : Type} `{ReadStream S} (stream : S) {struct fuel}
    : outcome (option Field * S) :=
  match fuel with
  | O => Faulted OutOfFuel
  | Datatypes.S fuel =>
      '(field_flags, stream) ← value_of (ReadVaruint stream);
      '(name, stream) ← value_of (ReadString stream);
      '(naliases, stream) ← value_of (ReadVaruint stream);
      '(aliases, stream) ← times ReadAlias naliases ([], stream);
      '(element, stream) ← ReadType fuel stream name;
      '(default_present, stream) ← value_of (ReadScalar 1 stream);
      '(default_value, stream) ←
        (if default_present =? 1 then Element_Read element stream else Done ([], stream));
      if type_of element =? type_code kFinal then Done (None, stream)
      else Done (Some (mkField field_flags name aliases element default_value), stream)
  end.

(** The constructor: the schema in a [BufferReadStream]. *)
Definition parse_fuel (schema : list byte) : nat := 4 * length schema + 4.

Definition parse (schema name : list byte) : outcome Element :=
  fst <$> ReadType (parse_fuel schema) (BufferReadStream.make schema) name.
End BinarySchemaParser.

(** The schema of a class with every kind of member parses. *)
Example parse_example : exists e,
  (schema ← BinarySchemaArchive.Write true
     (TObject (FCons [byte.of_Z 0x61] (TInt 2) (VInt (-3))
              (FCons [byte.of_Z 0x62] (TOptional (TVector TString)) VNone
              (FCons [byte.of_Z 0x63] (TEnum true 4 [(-1, [byte.of_Z 0x6e]); (2, [])]) (VInt 2) FNil))));
   BinarySchemaParser.parse schema []) = Done e /\ BinarySchemaParser.maybe_fixed_size e = -1.
Proof. eexists. split; [vm_compute; reflexivity|reflexivity]. Qed.
