(* ===== verification/SchemaTheory.v ===== *)
(** * Schemas: what is emitted, what is parsed, and what parsed schemas skip

    [schema_bytes] is the schema of a type as README-style bytes, [element_of]
    the element tree of a type.  The archive emits the first, the parser turns
    it into the second, and [Element::Ignore] on the second skips exactly the
    record of any value of the type. *)
From S2P Require Import Prelude Varuint Streams TimeConversions TelemetryFormat Archive ArchiveTheory Schema.
Import BinarySchemaParser.

Section specification.
Context `{BoostTime} (emit : bool).

Definition code (t : Type_) : list byte := vbytes (type_code t).
Definition text (s : list byte) : list byte := vbytes (zlen s) ++ s.
Definition item_bytes (item : Z * list byte) : list byte :=
  vbytes (u64 (fst item)) ++ text (snd item).

(** The record that ends the fields of an object. *)
Definition final_record : list byte :=
  vbytes 0 ++ text [] ++ vbytes 0 ++ vbytes 0 ++ vbytes 0.

Fixpoint schema_bytes (t : ctype) (v : value) : list byte :=
  match t with
  | TBool => code kBoolean
  | TInt n => code kFixedInt ++ vbytes (Z.of_nat n)
  | TUInt n => code kFixedUInt ++ vbytes (Z.of_nat n)
  | TFloat n => code (if Nat.eqb n 4 then kFloat32 else kFloat64)
  | TBytes => code kBytes
  | TString => code kString
  | TTimestamp => code kTimestamp
  | TDuration => code kDuration
  | TEnum _ _ items =>
      code kEnum ++ code kVaruint ++ vbytes (zlen items) ++ concat (map item_bytes items)
  | TVector t => code kArray ++ schema_bytes t (default t)
  | TArray n t => code kFixedArray ++ vbytes n ++ schema_bytes t (default t)
  | TOptional t => code kUnion ++ code kNull ++ schema_bytes t (default t) ++ code kFinal
  | TObject fs => code kObject ++ vbytes 0 ++ fields_schema fs (members_of v) ++ final_record
  end
with fields_schema (fs : fields) (vs : list value) : list byte :=
  match fs, vs with
  | FCons name t _ rest, v :: vs =>
      vbytes 0 ++ text name ++ vbytes 0 ++ schema_bytes t v ++
      (if emit then vbytes 1 ++ bytes t v else vbytes 0) ++ fields_schema rest vs
  | _, _ => []
  end.

Definition type_of_ctype (t : ctype) : Type_ :=
  match t with
  | TBool => kBoolean | TInt _ => kFixedInt | TUInt _ => kFixedUInt
  | TFloat n => if Nat.eqb n 4 then kFloat32 else kFloat64
  | TBytes => kBytes | TString => kString | TTimestamp => kTimestamp | TDuration => kDuration
  | TEnum _ _ _ => kEnum | TVector _ => kArray | TArray _ _ => kFixedArray
  | TOptional _ => kUnion | TObject _ => kObject
  end.

Definition leaf (t : Type_) (name : list byte) (c : contents) : Element :=
  make_element (type_code t) name (code t) c.

Fixpoint element_of (name : list byte) (t : ctype) (v : value) : Element :=
  make_element (type_code (type_of_ctype t)) name (schema_bytes t v)
    match t with
    | TBool => fixed 1
    | TInt n | TUInt n => integer (Z.of_nat n)
    | TFloat n => fixed (if Nat.eqb n 4 then 4 else 8)
    | TBytes | TString => nothing
    | TTimestamp | TDuration => fixed 8
    | TEnum _ _ items =>
        enumeration (leaf kVaruint name nothing)
          (fold_left (fun m item => map_insert (u64 (fst item)) (snd item) m) items [])
    | TVector t => container [element_of name t (default t)] 0
    | TArray n t => container [element_of name t (default t)] n
    | TOptional t => container [leaf kNull name (fixed 0); element_of name t (default t)] 0
    | TObject fs =>
        let fields := fields_of fs (members_of v) in object 0 (fields_size fields) fields
    end
with fields_of (fs : fields) (vs : list value) : list Field :=
  match fs, vs with
  | FCons name t _ rest, v :: vs =>
      mkField 0 name [] (element_of name t v) (if emit then bytes t v else []) ::
      fields_of rest vs
  | _, _ => []
  end.

(** What a schema can carry: names and items no longer than a string may be,
    and default objects whose records fit in memory. *)
Fixpoint describable (t : ctype) : Prop :=
  match t with
  | TEnum _ _ items =>
      in_u 64 (zlen items) /\ Forall (fun item => zlen (snd item) <= kMaxStringSize) items
  | TVector t | TArray _ t | TOptional t =>
      zlen (bytes t (default t)) <= max_size /\ describable t
  | TObject fs => describable_fields fs
  | _ => True
  end
with describable_fields (fs : fields) : Prop :=
  match fs with
  | FNil => True
  | FCons name t initial rest =>
      zlen name <= kMaxStringSize /\ describable t /\ describable_fields rest
  end.
End specification.

(** ** Emitting *)
Section emitting.
Import TelemetryWriter BinarySchemaArchive.
Context `{BoostTimeLaws} (emit : bool).

Lemma writes_type_code t : writes (fun _ _ => type t) (code t).
Proof. apply writes_WriteVaruint. by destruct t. Qed.

Lemma int_size_u64 n : int_size n = true -> in_u 64 (Z.of_nat n).
Proof. do 9 (destruct n as [|n]; [by vm_compute|]). done. Qed.

Lemma writes_sized t n :
  int_size n = true -> writes (fun _ _ => sized t n) (code t ++ vbytes (Z.of_nat n)).
Proof.
  intros Hn.
  exact (writes_bind _ _ _ _ (writes_type_code t) (writes_WriteVaruint _ (int_size_u64 n Hn))).
Qed.

Lemma writes_text d : zlen d <= kMaxStringSize -> writes (fun _ _ s => WriteString s d) (text d).
Proof. intros Hd. by apply writes_WriteString, (zlen_u64 _ kMaxStringSize). Qed.

Lemma writes_each {A} (f : A -> writer) (d : A -> list byte) l :
  Forall (fun x => writes (f x) (d x)) l ->
  writes (fun S W => for_each (fun x => f x S W) l) (concat (map d l)).
Proof.
  induction 1 as [|x l Hx _ IH]; [exact writes_nil|]. exact (writes_bind _ _ _ _ Hx IH).
Qed.

Lemma VisitEnumeration_writes items :
  in_u 64 (zlen items) -> Forall (fun item => zlen (snd item) <= kMaxStringSize) items ->
  writes (fun _ _ => VisitEnumeration items)
    (code kEnum ++ code kVaruint ++ vbytes (zlen items) ++ concat (map item_bytes items)).
Proof.
  intros Hl Hi.
  refine (writes_bind _ _ _ _ (writes_type_code _) (writes_bind _ _ _ _ (writes_type_code _)
    (writes_bind _ _ _ _ (writes_WriteVaruint _ Hl)
      (writes_each (fun item _ _ => VisitItem item) item_bytes items _)))).
  eapply List.Forall_impl, Hi. intros [k n] Hn.
  exact (writes_bind _ _ _ _ (writes_WriteVaruint _ (u64_range k)) (writes_text n Hn)).
Qed.

Lemma writes_zero : writes (fun _ _ s => WriteVaruint s 0) (vbytes 0).
Proof. by apply writes_WriteVaruint. Qed.

Lemma Finish_writes : writes (fun _ _ => Finish) final_record.
Proof.
  refine (writes_bind _ _ _ _ writes_zero (writes_bind _ _ _ _ (writes_text [] _)
    (writes_bind _ _ _ _ writes_zero (writes_bind _ _ _ _ writes_zero writes_zero)))). done.
Qed.

Lemma default_writes t v :
  storable t v ->
  writes (fun _ _ s => if emit then s ← WriteVaruint s 1; BinaryWriteArchive.Visit t v s
                       else WriteVaruint s 0)
    (if emit then vbytes 1 ++ bytes t v else vbytes 0).
Proof.
  intros Hv. destruct emit; [|apply writes_zero].
  refine (writes_bind _ _ _ _ (writes_WriteVaruint 1 _) (Visit_writes t v Hv)). done.
Qed.

Definition VisitType_ (t : ctype) (v : value) : writer := fun _ _ => VisitType emit t v.
Definition Fields_ (fs : fields) (vs : list value) : writer := fun _ _ => Accept emit fs vs.

Lemma VisitType_writes t : forall v,
  wf_type t -> describable t -> storable t v ->
  writes (VisitType_ t v) (schema_bytes emit t v).
Proof.
  induction t using ctype_mut with (P0 := fun fs => forall vs,
    wf_fields fs -> describable_fields fs -> storable_fields fs vs ->
    writes (Fields_ fs vs) (fields_schema emit fs vs)); intros v Hw Hd Hv.
  - apply writes_type_code.
  - by apply writes_sized.
  - by apply writes_sized.
  - apply writes_type_code.
  - apply writes_type_code.
  - apply writes_type_code.
  - apply writes_type_code.
  - apply writes_type_code.
  - destruct Hd. by apply VisitEnumeration_writes.
  - exact (writes_bind _ _ _ _ (writes_type_code _)
      (IHt _ Hw (proj2 Hd) (default_storable t Hw))).
  - destruct Hw as [Hn Hw].
    exact (writes_bind _ _ _ _ (writes_type_code _) (writes_bind _ _ _ _ (writes_WriteVaruint _ Hn)
      (IHt _ Hw (proj2 Hd) (default_storable t Hw)))).
  - exact (writes_bind _ _ _ _ (writes_type_code _) (writes_bind _ _ _ _ (writes_type_code _)
      (writes_bind _ _ _ _ (IHt _ Hw (proj2 Hd) (default_storable t Hw)) (writes_type_code _)))).
  - destruct v; try (by destruct Hv).
    exact (writes_bind _ _ _ _ (writes_type_code _) (writes_bind _ _ _ _ writes_zero
      (writes_bind _ _ _ _ (IHt vs Hw Hd Hv) Finish_writes))).
  - destruct v; [exact writes_nil|done].
  - destruct v as [|v vs]; [by destruct Hv|].
    destruct Hw as (Hw & _ & Hws), Hd as (Hn & Hd & Hds), Hv as [Hv Hvs].
    exact (writes_bind _ _ _ _ writes_zero (writes_bind _ _ _ _ (writes_text name Hn)
      (writes_bind _ _ _ _ writes_zero (writes_bind _ _ _ _ (IHt v Hw Hd Hv)
      (writes_bind _ _ _ _ (default_writes t v Hv) (IHt0 vs Hws Hds Hvs)))))).
Qed.

Lemma VisitType_emits {S} `{WriteStreamLaws S} t v :
  wf_type t -> describable t -> storable t v ->
  emits (S := S) (VisitType emit t v) (schema_bytes emit t v).
Proof. intros Hw Hd Hv. exact (writes_emits _ _ (VisitType_writes t v Hw Hd Hv)). Qed.
End emitting.

(** ** Skipping *)
Section sizes.
Context `{BoostTime} (emit : bool).

Lemma fields_size_from (a : Z) (fs : list Field) :
  0 <= a ->
  fold_left (fun size f =>
    if maybe_fixed_size (element f) <? 0 then -1
    else if 0 <=? size then size + maybe_fixed_size (element f) else size) fs a =
  if fields_size fs <? 0 then -1 else a + fields_size fs.
Proof.
  assert (minus : forall fs, fold_left (fun size f =>
    if maybe_fixed_size (element f) <? 0 then -1
    else if 0 <=? size then size + maybe_fixed_size (element f) else size) fs (-1) = -1).
  { induction fs0 as [|f fs0 IH]; [done|]. cbn [fold_left]. by case_match. }
  unfold fields_size. revert a. induction fs as [|f fs IH]; intros a Ha; cbn [fold_left]; [cbn; lia|].
  destruct (Z.ltb_spec (maybe_fixed_size (element f)) 0); [by rewrite !minus|].
  rewrite (proj2 (Z.leb_le 0 a)), (proj2 (Z.leb_le 0 0)), Z.add_0_l by lia.
  rewrite (IH (a + _)), (IH (maybe_fixed_size (element f))) by lia.
  repeat case_match; rewrite ?Z.ltb_lt, ?Z.ltb_ge in *; lia.
Qed.

Lemma fields_size_cons f fs :
  fields_size (f :: fs) =
  if (maybe_fixed_size (element f) <? 0) || (fields_size fs <? 0) then -1
  else maybe_fixed_size (element f) + fields_size fs.
Proof.
  unfold fields_size at 1. cbn [fold_left].
  destruct (Z.ltb_spec (maybe_fixed_size (element f)) 0) as [Hf|Hf]; cbn [orb].
  - clear Hf. induction fs as [|g fs IH]; [done|]. cbn [fold_left]. by case_match.
  - change (0 <=? 0) with true. cbn iota. rewrite Z.add_0_l. by rewrite fields_size_from.
Qed.

Lemma fields_of_cons name t initial rest v vs :
  fields_of emit (FCons name t initial rest) (v :: vs) =
  mkField 0 name [] (element_of emit name t v) (if emit then bytes t v else []) ::
  fields_of emit rest vs.
Proof. reflexivity. Qed.

Lemma fields_bytes_cons name t initial rest v vs :
  fields_bytes (FCons name t initial rest) (v :: vs) = bytes t v ++ fields_bytes rest vs.
Proof. reflexivity. Qed.

(** A type has a fixed size only if all its records have that size. *)
Lemma fixed_size_exact t : forall name v0 v,
  wf_type t -> storable t v0 -> storable t v ->
  0 <= maybe_fixed_size (element_of emit name t v0) ->
  zlen (bytes t v) = maybe_fixed_size (element_of emit name t v0).
Proof.
  induction t using ctype_mut with (P0 := fun fs => forall vs0 vs,
    wf_fields fs -> storable_fields fs vs0 -> storable_fields fs vs ->
    0 <= fields_size (fields_of emit fs vs0) ->
    zlen (fields_bytes fs vs) = fields_size (fields_of emit fs vs0)).
  1-13: intros name v0 v Hw Hv0 Hv; destruct v; try (by destruct Hv);
    intros Hs; try (cbn in Hs; lia); try apply zlen_le_split.
  - cbn [bytes]. rewrite zlen_le_split. by destruct Hw; subst.
  - destruct v0; try (by destruct Hv0).
    cbn [element_of maybe_fixed_size make_element object c_size members_of] in *. by apply IHt.
  - intros vs0 vs. by destruct vs0, vs.
  - intros [|v0 vs0] [|v vs]; try (by cbn).
    rewrite fields_of_cons, fields_bytes_cons.
    intros (Hw & _ & Hws) [Hv0 Hvs0] [Hv Hvs]. rewrite fields_size_cons. cbn [element].
    destruct (Z.ltb_spec (maybe_fixed_size (element_of emit name t v0)) 0);
      cbn [orb]; cbn iota; [intros; lia|].
    destruct (Z.ltb_spec (fields_size (fields_of emit rest vs0)) 0); cbn iota; [intros; lia|].
    intros _. rewrite zlen_app, (IHt name v0), (IHt0 vs0) by done. done.
Qed.
End sizes.

Section skipping.
Import TelemetryReader.
Context `{BoostTimeLaws} {S : Type} `{ReadStreamLaws S} (emit : bool).

(** [skips f d]: [f] passes over [d] and stops behind it. *)
Definition skips (f : S -> outcome S) (d : list byte) : Prop := forall s tail,
  rs_valid s -> rs_rest s = d ++ tail ->
  exists s', f s = Done s' /\ rs_valid s' /\ rs_rest s' = tail.

Lemma skips_nil : skips (fun s => Done s) [].
Proof. intros s tail Hv E. by exists s. Qed.

Lemma skips_bind f g d e : skips f d -> skips g e -> skips (fun s => f s ≫= g) (d ++ e).
Proof.
  intros Hf Hg s tail Hv E. rewrite <- app_assoc in E.
  destruct (Hf s _ Hv E) as (s1 & E1 & V1 & R1).
  destruct (Hg s1 _ V1 R1) as (s2 & E2 & V2 & R2). exists s2. by rewrite E1, bind_done.
Qed.

(** A reader followed by a skip, as in reading a size and passing over it. *)
Lemma skips_after {A} (f : S -> outcome (A * S)) (g : A -> S -> outcome S) d e a :
  reads f d a -> skips (g a) e -> skips (fun s => '(a, s) ← f s; g a s) (d ++ e).
Proof.
  intros Hf Hg s tail Hv E. rewrite <- app_assoc in E.
  destruct (Hf s _ Hv E) as (s1 & E1 & V1 & R1).
  destruct (Hg s1 _ V1 R1) as (s2 & E2 & V2 & R2). exists s2. by rewrite E1, bind_done.
Qed.

Lemma skips_ext f g d : (forall s, f s = g s) -> skips f d -> skips g d.
Proof. intros E Hf s tail. rewrite <- E. apply Hf. Qed.

Lemma reads_value {A} (f : S -> outcome (option A * S)) d a :
  reads f d (Some a) -> reads (fun s => value_of (f s)) d a.
Proof.
  intros Hf s tail Hv E. destruct (Hf s tail Hv E) as (s' & E' & ? & ?).
  exists s'. unfold value_of. by rewrite E', bind_done.
Qed.

Lemma reads_size v : in_u 64 v -> reads (fun s => value_of (ReadVaruint s)) (vbytes v) v.
Proof. intros. by apply reads_value, reads_ReadVaruint. Qed.

Lemma ignore_skips d : zlen d <= max_size -> skips (fun s => ignore s (zlen d)) d.
Proof.
  intros Hd s tail Hv E. pose proof (zlen_nonneg d). unfold ignore, Ignore.
  rewrite swrap_id; [|lia|unfold in_s, max_size in *; lia].
  destruct (rs_ignore_law s (zlen d) Hv ltac:(lia)) as (s' & -> & V & R).
  exists s'. rewrite R, E, zdrop_app_len. done.
Qed.

Lemma times_skips {A} (f : S -> outcome S) (d : A -> list byte) l :
  Forall (fun x => skips f (d x)) l -> skips (times f (zlen l)) (concat (map d l)).
Proof.
  induction 1 as [|x l Hx _ IH]; [apply skips_nil|].
  rewrite zlen_cons, Z.add_comm.
  eapply skips_ext; [intros s; symmetry; apply times_succ, zlen_nonneg|].
  exact (skips_bind _ _ _ _ Hx IH).
Qed.

Lemma for_each_skips {A B} (f : A -> S -> outcome S) (d : B -> list byte) l k :
  Forall2 (fun x y => skips (f x) (d y)) l k -> skips (for_each f l) (concat (map d k)).
Proof. induction 1 as [|x y l k Hx _ IH]; [apply skips_nil|]. exact (skips_bind _ _ _ _ Hx IH). Qed.

Lemma Element_Ignore_make ty name schema c (s : S) :
  0 <= c_size c -> Element_Ignore (make_element ty name schema c) s = ignore s (c_size c).
Proof. intros Hc. cbn [Element_Ignore make_element]. by rewrite (proj2 (Z.leb_le _ _) Hc). Qed.

(** Every record of a value that fits an object in memory is passed over. *)
Definition skips_type (t : ctype) : Prop := forall name v0 v,
  wf_type t -> storable t v0 -> storable t v -> zlen (bytes t v) <= max_size ->
  skips (Element_Ignore (element_of emit name t v0)) (bytes t v).

Lemma fixed_skips t name v0 v :
  wf_type t -> storable t v0 -> storable t v -> zlen (bytes t v) <= max_size ->
  0 <= maybe_fixed_size (element_of emit name t v0) ->
  skips (Element_Ignore (element_of emit name t v0)) (bytes t v).
Proof.
  intros Hw Hv0 Hv Hl Hs. pose proof (fixed_size_exact emit t name v0 v Hw Hv0 Hv Hs) as E.
  eapply skips_ext; [|by apply (ignore_skips (bytes t v))]. intros s. rewrite E.
  destruct t; cbn [element_of] in *; symmetry; by apply Element_Ignore_make.
Qed.

Lemma zlen_concat_le (l : list (list byte)) x : x ∈ l -> zlen x <= zlen (concat l).
Proof.
  induction l as [|y l IH]; [by intros ?%elem_of_nil|]. cbn [concat]. rewrite zlen_app.
  pose proof (zlen_nonneg y). pose proof (zlen_nonneg (concat l)).
  intros [->|Hx]%elem_of_cons; [lia|]. apply IH in Hx. lia.
Qed.

Lemma items_skip t name vs :
  skips_type t -> wf_type t -> Forall (storable t) vs ->
  zlen (concat (map (bytes t) vs)) <= max_size ->
  skips (times (Element_Ignore (element_of emit name t (default t))) (zlen vs))
    (concat (map (bytes t) vs)).
Proof.
  intros Ht Hw Hv Hl. apply times_skips. rewrite Forall_forall in *. intros v Hin.
  apply Ht; [done|by apply default_storable|by apply Hv|].
  etransitivity; [|exact Hl]. apply zlen_concat_le.
  by apply list_elem_of_In, in_map.
Qed.

(** Elements of a fixed size are passed over in one step. *)
Lemma fixed_items_size t name vs :
  wf_type t -> Forall (storable t) vs ->
  0 <= maybe_fixed_size (element_of emit name t (default t)) ->
  zlen (concat (map (bytes t) vs)) =
  zlen vs * maybe_fixed_size (element_of emit name t (default t)).
Proof.
  intros Hw Hv Hs. induction Hv as [|v vs Hv _ IH]; [done|]. cbn [map concat].
  rewrite zlen_app, zlen_cons, IH.
  rewrite (fixed_size_exact emit t name (default t) v) by (done || by apply default_storable). ring.
Qed.

Lemma array_skips t name vs :
  skips_type t -> wf_type t -> Forall (storable t) vs ->
  zlen (concat (map (bytes t) vs)) <= max_size ->
  skips (fun s =>
    if 0 <=? maybe_fixed_size (element_of emit name t (default t))
    then ignore s (u64 (zlen vs * maybe_fixed_size (element_of emit name t (default t))))
    else times (Element_Ignore (element_of emit name t (default t))) (zlen vs) s)
    (concat (map (bytes t) vs)).
Proof.
  intros Ht Hw Hv Hl.
  destruct (Z.leb_spec 0 (maybe_fixed_size (element_of emit name t (default t)))) as [Hs|Hs].
  - rewrite <- (fixed_items_size t name vs Hw Hv Hs), uwrap_id.
    + by apply ignore_skips.
    + by apply (zlen_u64 _ max_size).
  - by apply items_skip.
Qed.

(** [Element::Ignore] of each element that has no fixed size. *)
Lemma Ignore_varuint name schema (s : S) :
  Element_Ignore (make_element (type_code kVaruint) name schema nothing) s =
  ('(_, s) ← ReadVaruint s; Done s).
Proof. reflexivity. Qed.

Lemma Ignore_text t name schema (s : S) :
  t = kBytes \/ t = kString ->
  Element_Ignore (make_element (type_code t) name schema nothing) s =
  ('(size, s) ← value_of (ReadVaruint s); ignore s size).
Proof. by intros [-> | ->]. Qed.

Lemma Ignore_enum name schema c items (s : S) :
  maybe_fixed_size c < 0 ->
  Element_Ignore (make_element (type_code kEnum) name schema (enumeration c items)) s =
  Element_Ignore c s.
Proof.
  intros Hc. cbn [Element_Ignore make_element enumeration c_size c_children].
  by rewrite (proj2 (Z.leb_gt _ _) Hc).
Qed.

Lemma Ignore_array name schema c n (s : S) :
  Element_Ignore (make_element (type_code kArray) name schema (container [c] n)) s =
  ('(nelements, s) ← value_of (ReadVaruint s);
   if 0 <=? maybe_fixed_size c then ignore s (u64 (nelements * maybe_fixed_size c))
   else times (Element_Ignore c) nelements s).
Proof. reflexivity. Qed.

Lemma Ignore_fixed_array name schema c n (s : S) :
  Element_Ignore (make_element (type_code kFixedArray) name schema (container [c] n)) s =
  if 0 <=? maybe_fixed_size c then ignore s (u64 (n * maybe_fixed_size c))
  else times (Element_Ignore c) n s.
Proof. reflexivity. Qed.

Lemma Ignore_union name schema cs n (s : S) :
  Element_Ignore (make_element (type_code kUnion) name schema (container cs n)) s =
  ('(index, s) ← value_of (ReadVaruint s);
   if zlen cs <? index then Faulted (Exception kInvalidUnionIndex)
   else at_index Element_Ignore cs index s).
Proof. reflexivity. Qed.

Lemma Ignore_object name schema fs (s : S) :
  fields_size fs < 0 ->
  Element_Ignore (make_element (type_code kObject) name schema (object 0 (fields_size fs) fs)) s =
  for_each (fun f => match f with mkField _ _ _ e _ => Element_Ignore e end) fs s.
Proof.
  intros Hs. cbn [Element_Ignore make_element object c_size c_fields].
  by rewrite (proj2 (Z.leb_gt _ _) Hs).
Qed.

Lemma union_skips t name v :
  skips_type t -> wf_type t -> storable (TOptional t) v ->
  zlen (bytes (TOptional t) v) <= max_size ->
  skips (Element_Ignore (element_of emit name (TOptional t) VNone)) (bytes (TOptional t) v).
Proof.
  intros Ht Hw Hv Hl. eapply skips_ext; [intros s; symmetry; apply Ignore_union|].
  destruct v; try (by destruct Hv).
  - refine (skips_after _ _ _ [] 0 (reads_size 0 _) _); [done|]. cbn [at_index].
    eapply skips_ext; [|by apply (ignore_skips [])]. done.
  - refine (skips_after _ _ _ _ 1 (reads_size 1 _) _); [done|].
    apply Ht; [done|by apply default_storable|done|].
    cbn [bytes] in Hl. rewrite zlen_app in Hl. pose proof (zlen_nonneg (vbytes 1)). lia.
Qed.

Lemma Ignore_skips t : skips_type t.
Proof.
  induction t using ctype_mut with (P0 := fun fs => forall vs0 vs,
    wf_fields fs -> storable_fields fs vs0 -> storable_fields fs vs ->
    zlen (fields_bytes fs vs) <= max_size ->
    skips (for_each (fun f => match f with mkField _ _ _ e _ => Element_Ignore e end)
      (fields_of emit fs vs0)) (fields_bytes fs vs)).
  1-13: intros name v0 v Hw Hv0 Hv Hl;
    match goal with |- skips (Element_Ignore ?e) _ =>
      destruct (Z.le_gt_cases 0 (maybe_fixed_size e)) as [Hs|Hs];
      [by apply fixed_skips|] end;
    try (by cbn in Hs; lia); try (destruct v; try (by destruct Hv)).
  - cbn in Hs. by destruct (Nat.eqb size 4).
  - eapply skips_ext; [intros s; symmetry; apply Ignore_text; by left|].
    apply (skips_after _ _ _ _ (zlen b)); [by apply reads_size, (zlen_u64 _ max_size)|].
    by apply ignore_skips.
  - eapply skips_ext; [intros s; symmetry; apply Ignore_text; by right|].
    apply (skips_after _ _ _ _ (zlen b)); [by apply reads_size, (zlen_u64 _ kMaxStringSize)|].
    apply ignore_skips. by transitivity kMaxStringSize.
  - eapply skips_ext; [intros s; symmetry; cbn [element_of type_of_ctype];
      rewrite Ignore_enum by done; exact (Ignore_varuint name (code kVaruint) s)|].
    rewrite <- (app_nil_r (bytes _ _)).
    exact (skips_after _ _ _ _ _ (reads_ReadVaruint _ (u64_range z)) skips_nil).
  - eapply skips_ext; [intros s; symmetry; apply Ignore_array|]. destruct Hv as [Hz Hv].
    cbn [bytes] in *. rewrite zlen_app in Hl. pose proof (zlen_nonneg (vbytes (zlen vs))).
    apply (skips_after _ _ _ _ (zlen vs)); [by apply reads_size, (zlen_u64 _ max_size)|].
    apply array_skips; [done..|lia].
  - eapply skips_ext; [intros s; symmetry; apply Ignore_fixed_array|].
    destruct Hv as [<- Hv], Hw. by apply array_skips.
  - by apply (union_skips t name VNone).
  - by apply (union_skips t name (VSome v)).
  - destruct v0; try (by destruct Hv0).
    eapply skips_ext; [intros s; symmetry; by apply Ignore_object|]. by apply IHt.
  - intros [|] [|]; try done. intros _ _ _ _. apply skips_nil.
  - intros [|v0 vs0] [|v vs]; try (by cbn). intros (Hw & _ & Hws) [Hv0 Hvs0] [Hv Hvs] Hl.
    rewrite fields_of_cons, fields_bytes_cons in *. rewrite zlen_app in Hl.
    pose proof (zlen_nonneg (bytes t v)). pose proof (zlen_nonneg (fields_bytes rest vs)).
    refine (skips_bind _ _ _ _ _ _); [apply IHt|apply IHt0]; done || lia.
Qed.
End skipping.

(** ** Parsing *)
Section recording.
Context {S : Type} `{ReadStreamLaws S}.

(** What a recording stream has recorded and what it has left make up what
    there was to start with. *)
Definition recorded (orig : list byte) (r : RecordingStream.t S) : Prop :=
  RecordingStream.ok r /\ RecordingStream.str r ++ rs_rest (RecordingStream.istr r) = orig.

#[program] Definition recording_laws (orig : list byte) : ReadStreamLaws (RecordingStream.t S) :=
  {| rs_valid := recorded orig; rs_rest r := rs_rest (RecordingStream.istr r) |}.
Next Obligation.
  intros orig r n [Hok E] Hn. destruct (RecordingStream.read_spec r n Hok Hn)
    as (r' & Er & Hok' & Rr & G & Sr).
  exists r'. split; [exact Er|]. split; [|by split]. split; [exact Hok'|].
  rewrite Sr, Rr, <- app_assoc, ztake_zdrop. exact E.
Qed.
Next Obligation.
  intros orig r n [Hok E] Hn. destruct (RecordingStream.read_spec r n Hok Hn)
    as (r' & Er & Hok' & Rr & G & Sr).
  exists r'. cbn [rs_ignore RecordingStream.read_stream]. rewrite RecordingStream.ignore_read, Er.
  split; [done|]. split; [|exact Rr]. split; [exact Hok'|].
  rewrite Sr, Rr, <- app_assoc, ztake_zdrop. exact E.
Qed.

(** A reader run on a fresh recording stream records what it takes. *)
Lemma reads_recorded {A} (f : RecordingStream.t S -> outcome (A * RecordingStream.t S)) d a :
  (forall orig, @reads _ _ (recording_laws orig) A f d a) ->
  forall s tail, rs_valid s -> rs_rest s = d ++ tail ->
  exists r, f (RecordingStream.make s) = Done (a, r) /\ RecordingStream.str r = d /\
            rs_valid (RecordingStream.istr r) /\ rs_rest (RecordingStream.istr r) = tail.
Proof.
  intros Hf s tail Hv E.
  destruct (Hf (rs_rest s) (RecordingStream.make s) tail) as (r & Er & [[Vr _] Hr] & Rr).
  - split; [|done]. split; [exact Hv|exact FastOStringStream.ok_empty].
  - exact E.
  - cbn [rs_rest recording_laws] in Rr. exists r. split_and!; [done| |done|done].
    rewrite Rr, E in Hr. by apply app_inv_tail in Hr.
Qed.

Lemma skips_recorded (f : RecordingStream.t S -> outcome (RecordingStream.t S)) d :
  (forall orig, @skips _ _ (recording_laws orig) f d) ->
  forall s tail, rs_valid s -> rs_rest s = d ++ tail ->
  exists r, f (RecordingStream.make s) = Done r /\ RecordingStream.str r = d /\
            rs_valid (RecordingStream.istr r) /\ rs_rest (RecordingStream.istr r) = tail.
Proof.
  intros Hf s tail Hv E.
  destruct (reads_recorded (fun r => r ← f r; Done (tt, r)) d tt) with (s := s) (tail := tail)
    as (r & Er & Hr); [|done|done|].
  - intros orig r t Vr Et. destruct (Hf orig r t Vr Et) as (r' & -> & ? & ?). by exists r'.
  - apply bind_done_inv in Er as (r' & Er & [= <-]). eauto.
Qed.
End recording.

Section costs.
Context `{BoostTime}.

(** How deep the parser recurses into a type. *)
Fixpoint cost (t : ctype) : nat :=
  match t with
  | TEnum _ _ _ => 4
  | TVector t | TArray _ t => 2 + cost t
  | TOptional t => 6 + cost t
  | TObject fs => 2 + fields_cost fs
  | _ => 2
  end
with fields_cost (fs : fields) : nat :=
  match fs with
  | FNil => 4
  | FCons _ t _ rest => 2 + cost t + fields_cost rest
  end.
End costs.

Section parsing.
Import TelemetryReader.
Context `{BoostTimeLaws} (emit : bool).

(** The switch of [ReadType] behind the type code [t]. *)
Lemma ReadContents_code {S} `{ReadStream S} fuel (s s' : S) name t :
  value_of (ReadVaruint s) = Done (type_code t, s') ->
  ReadContents (Datatypes.S fuel) s name =
  ('(c, s) ←
     match t with
     | kFinal | kVarint | kVaruint | kBytes | kString => Done (nothing, s')
     | kNull => Done (fixed 0, s')
     | kBoolean => Done (fixed 1, s')
     | kFloat32 => Done (fixed 4, s')
     | kFloat64 | kTimestamp | kDuration => Done (fixed 8, s')
     | kFixedInt | kFixedUInt => '(n, s) ← value_of (ReadScalar 1 s'); Done (integer n, s)
     | kObject =>
         '(flags, s) ← value_of (ReadVaruint s');
         '(fields, s) ← ReadFields fuel s;
         Done (object flags (fields_size fields) fields, s)
     | kEnum =>
         '(child, s) ← ReadType fuel s' name;
         '(nvalues, s) ← value_of (ReadVaruint s);
         '(items, s) ← times (ReadEnumItem child) nvalues ([], s);
         Done (enumeration child items, s)
     | kFixedArray =>
         '(n, s) ← value_of (ReadVaruint s');
         '(child, s) ← ReadType fuel s name;
         Done (container [child] n, s)
     | kArray | kMap => '(child, s) ← ReadType fuel s' name; Done (container [child] 0, s)
     | kUnion => '(children, s) ← ReadUnion fuel s' name; Done (container children 0, s)
     end;
   Done (type_code t, c, s)).
Proof. intros E. cbn [ReadContents]. rewrite E. by destruct t. Qed.

Lemma ReadFields_eq {S} `{ReadStream S} fuel (s : S) :
  ReadFields (Datatypes.S fuel) s =
  ('(maybe_field, s) ← ReadField fuel s;
   match (maybe_field : option Field) with
   | None => Done ([], s)
   | Some field => '(fields, s) ← ReadFields fuel s; Done (field :: fields, s)
   end).
Proof. reflexivity. Qed.

Lemma ReadUnion_eq {S} `{ReadStream S} fuel (s : S) name :
  ReadUnion (Datatypes.S fuel) s name =
  ('(child, s) ← ReadType fuel s name;
   if type_of child =? type_code kFinal then Done ([], s)
   else '(children, s) ← ReadUnion fuel s name; Done (child :: children, s)).
Proof. reflexivity. Qed.

Lemma ReadField_eq {S} `{ReadStream S} fuel (s : S) :
  ReadField (Datatypes.S fuel) s =
  ('(field_flags, s) ← value_of (ReadVaruint s);
   '(name, s) ← value_of (ReadString s);
   '(naliases, s) ← value_of (ReadVaruint s);
   '(aliases, s) ← times ReadAlias naliases ([], s);
   '(element, s) ← ReadType fuel s name;
   '(default_present, s) ← value_of (ReadScalar 1 s);
   '(default_value, s) ← (if default_present =? 1 then Element_Read element s else Done ([], s));
   if type_of element =? type_code kFinal then Done (None, s)
   else Done (Some (mkField field_flags name aliases element default_value), s)).
Proof. reflexivity. Qed.

Lemma ReadType_reads fuel name d ty c :
  (forall S `(ReadStreamLaws S), reads (fun s : S => ReadContents fuel s name) d (ty, c)) ->
  forall S `(ReadStreamLaws S),
  reads (fun s : S => ReadType (Datatypes.S fuel) s name) d (make_element ty name d c).
Proof.
  intros Hc S HS HL s tail Hv E.
  destruct (reads_recorded (fun r => ReadContents fuel r name) d (ty, c)) with (s := s) (tail := tail)
    as (r & Er & Sr & Vr & Rr); [intros orig; apply Hc|done|done|].
  exists (RecordingStream.istr r). split_and!; [|done..].
  change (ReadType (Datatypes.S fuel) s name) with
    ('(type, c, stream) ← ReadContents fuel (RecordingStream.make s) name;
     Done (make_element type name (RecordingStream.str stream) c, RecordingStream.istr stream)).
  rewrite Er, bind_done. cbn beta iota. by rewrite Sr.
Qed.

Section stream.
Context {S : Type} `{ReadStreamLaws S}.

Lemma reads_code t : reads (S := S) (fun s => value_of (ReadVaruint s)) (code t) (type_code t).
Proof. apply reads_size. by destruct t. Qed.

Lemma reads_text d :
  zlen d <= kMaxStringSize -> reads (S := S) (fun s => value_of (ReadString s)) (text d) d.
Proof. intros. by apply reads_value, reads_ReadString. Qed.

Lemma reads_u8 n : in_u 8 n -> reads (S := S) (fun s => value_of (ReadScalar 1 s)) (le_split 1 n) n.
Proof. intros. by apply reads_value, (reads_uint 1). Qed.

Lemma contents_reads fuel name t d c :
  (forall s s0 tail, value_of (ReadVaruint s0) = Done (type_code t, s) ->
     rs_valid s -> rs_rest s = d ++ tail ->
     exists s', ReadContents (Datatypes.S fuel) s0 name = Done (type_code t, c, s') /\
                rs_valid s' /\ rs_rest s' = tail) ->
  reads (S := S) (fun s => ReadContents (Datatypes.S fuel) s name) (code t ++ d) (type_code t, c).
Proof.
  intros Hc s0 tail Hv E. rewrite <- app_assoc in E.
  destruct (reads_code t s0 _ Hv E) as (s & E1 & V1 & R1). by apply (Hc s s0 tail).
Qed.

Lemma item_reads name schema k n items :
  zlen n <= kMaxStringSize ->
  forall (s : S) tail, rs_valid s -> rs_rest s = item_bytes (k, n) ++ tail ->
  exists s', ReadEnumItem (make_element (type_code kVaruint) name schema nothing) (items, s) =
    Done (map_insert (u64 k) n items, s') /\ rs_valid s' /\ rs_rest s' = tail.
Proof.
  intros Hn s tail Hv E. unfold item_bytes in E. cbn [fst snd] in E. rewrite <- app_assoc in E.
  destruct (reads_size (u64 k) (u64_range k) s _ Hv E) as (s1 & E1 & V1 & R1).
  destruct (reads_text n Hn s1 _ V1 R1) as (s2 & E2 & V2 & R2). exists s2. split; [|done].
  unfold ReadEnumItem. change (ReadUIntLike (make_element _ name schema nothing) s)
    with (value_of (ReadVaruint s)).
  rewrite E1, bind_done. cbn beta iota. by rewrite E2, bind_done.
Qed.

Lemma items_read name schema l items :
  Forall (fun item => zlen (snd item) <= kMaxStringSize) l ->
  forall (s : S) tail, rs_valid s -> rs_rest s = concat (map item_bytes l) ++ tail ->
  exists s', times (ReadEnumItem (make_element (type_code kVaruint) name schema nothing))
      (zlen l) (items, s) =
    Done (fold_left (fun m item => map_insert (u64 (fst item)) (snd item) m) l items, s') /\
    rs_valid s' /\ rs_rest s' = tail.
Proof.
  intros Hl. revert items. induction Hl as [|[k n] l Hn _ IH]; intros items s tail Hv E;
    [by exists s|].
  cbn [map concat] in E. rewrite <- app_assoc in E.
  destruct (item_reads name schema k n items Hn s _ Hv E) as (s1 & E1 & V1 & R1).
  destruct (IH (map_insert (u64 k) n items) s1 tail V1 R1) as (s2 & E2 & V2 & R2).
  exists s2. rewrite zlen_cons, Z.add_comm, times_succ by apply zlen_nonneg.
  by rewrite E1, bind_done.
Qed.

(** The default value of a field, present or not. *)
Lemma default_reads name t v0 v :
  wf_type t -> storable t v0 -> storable t v -> zlen (bytes t v) <= max_size ->
  reads (S := S) (fun s =>
    '(default_present, s) ← value_of (ReadScalar 1 s);
    if default_present =? 1 then Element_Read (element_of emit name t v0) s else Done ([], s))
    (if emit then vbytes 1 ++ bytes t v else vbytes 0) (if emit then bytes t v else []).
Proof.
  intros Hw Hv0 Hv Hl. destruct emit.
  - refine (reads_bind _ _ (vbytes 1) _ 1 _ (reads_u8 1 _) _); [done|]. cbn beta.
    intros s tail Vs E.
    destruct (skips_recorded (Element_Ignore (element_of true name t v0)) (bytes t v))
      with (s := s) (tail := tail) as (r & Er & Sr & Vr & Rr); [|done|done|].
    + intros orig. by apply (Ignore_skips true t name v0 v).
    + exists (RecordingStream.istr r). split_and!; [|done..]. cbn.
      unfold Element_Read. rewrite Er, bind_done. by rewrite Sr.
  - rewrite <- (app_nil_r (vbytes 0)).
    refine (reads_bind _ _ (vbytes 0) _ 0 _ (reads_u8 0 _) _); [done|]. apply (reads_ret []).
Qed.

Definition no_aliases : S -> outcome (list (list byte) * S) := fun s => times ReadAlias 0 ([], s).

Lemma field_reads fuel name sch e dflt dv :
  zlen name <= kMaxStringSize ->
  reads (S := S) (fun s => ReadType fuel s name) sch e ->
  reads (S := S) (fun s =>
    '(default_present, s) ← value_of (ReadScalar 1 s);
    if default_present =? 1 then Element_Read e s else Done ([], s)) dflt dv ->
  reads (S := S) (ReadField (Datatypes.S fuel)) (vbytes 0 ++ text name ++ vbytes 0 ++ sch ++ dflt)
    (if type_of e =? type_code kFinal then None else Some (mkField 0 name [] e dv)).
Proof.
  intros Hn Ht Hd. eapply reads_ext; [intros s; symmetry; apply ReadField_eq|].
  apply (reads_bind _ _ _ _ 0); [by apply reads_size|].
  apply (reads_bind _ _ _ _ name); [by apply reads_text|].
  apply (reads_bind _ _ _ _ 0); [by apply reads_size|].
  apply (reads_bind no_aliases _ [] _ []); [apply reads_ret|].
  apply (reads_bind _ _ _ _ e); [done|].
  intros s tail Vs E. destruct (Hd s tail Vs E) as (s' & E' & V' & R').
  exists s'. split; [|done].
  apply bind_done_inv in E' as ([p s1] & E1 & E2). rewrite E1, bind_done. cbn beta iota in E2 |- *.
  rewrite E2, bind_done. by destruct (type_of e =? type_code kFinal).
Qed.
End stream.

(** A type that is its code alone. *)
Lemma leaf_reads fuel name t c :
  (forall S `(ReadStreamLaws S) (s s0 : S), value_of (ReadVaruint s0) = Done (type_code t, s) ->
     ReadContents (Datatypes.S fuel) s0 name = Done (type_code t, c, s)) ->
  forall S `(ReadStreamLaws S),
  reads (fun s : S => ReadType (Datatypes.S (Datatypes.S fuel)) s name) (code t) (leaf t name c).
Proof.
  intros Hc. apply ReadType_reads. intros S HS HL. rewrite <- (app_nil_r (code t)).
  apply contents_reads. intros s s0 tail E Hv R. exists s. by rewrite (Hc S HS HL s s0 E).
Qed.

Lemma final_reads fuel :
  (3 <= fuel)%nat ->
  forall S `(ReadStreamLaws S), reads (S := S) (ReadField fuel) final_record None.
Proof.
  intros Hf S HS HL. destruct fuel as [|[|[|fuel]]]; [lia..|].
  refine (field_reads (Datatypes.S (Datatypes.S fuel)) [] (vbytes 0) (leaf kFinal [] nothing)
    (vbytes 0) [] _ _ _); [done| |].
  - apply (leaf_reads fuel [] kFinal nothing).
    intros S' HS' HL' s s0 E. by rewrite (ReadContents_code _ _ _ _ kFinal E).
  - rewrite <- (app_nil_r (vbytes 0)).
    refine (reads_bind _ _ (vbytes 0) _ 0 _ (reads_u8 0 _) _); [done|]. apply (reads_ret []).
Qed.

Definition parses (t : ctype) : Prop := forall fuel name v,
  (cost t <= fuel)%nat -> wf_type t -> describable t -> storable t v ->
  zlen (bytes t v) <= max_size ->
  forall S `(ReadStreamLaws S),
  reads (fun s : S => ReadType fuel s name) (schema_bytes emit t v) (element_of emit name t v).

(** A type whose schema is its code and [d], by the switch of [ReadType]. *)
Lemma parse_code t v fuel name ty d c :
  schema_bytes emit t v = code ty ++ d ->
  element_of emit name t v = make_element (type_code ty) name (code ty ++ d) c ->
  (forall S `(ReadStreamLaws S) (s s0 : S) tail,
     value_of (ReadVaruint s0) = Done (type_code ty, s) -> rs_valid s -> rs_rest s = d ++ tail ->
     exists s', ReadContents (Datatypes.S fuel) s0 name = Done (type_code ty, c, s') /\
                rs_valid s' /\ rs_rest s' = tail) ->
  forall S `(ReadStreamLaws S),
  reads (fun s : S => ReadType (Datatypes.S (Datatypes.S fuel)) s name)
    (schema_bytes emit t v) (element_of emit name t v).
Proof.
  intros -> -> Hc. apply ReadType_reads. intros S HS HL. apply contents_reads.
  exact (Hc S HS HL).
Qed.

Lemma parse_leaf t v fuel name ty c :
  (2 <= fuel)%nat -> schema_bytes emit t v = code ty -> element_of emit name t v = leaf ty name c ->
  (forall S `(ReadStreamLaws S) fuel (s s0 : S), value_of (ReadVaruint s0) = Done (type_code ty, s) ->
     ReadContents (Datatypes.S fuel) s0 name = Done (type_code ty, c, s)) ->
  forall S `(ReadStreamLaws S),
  reads (fun s : S => ReadType fuel s name) (schema_bytes emit t v) (element_of emit name t v).
Proof.
  intros Hf -> -> Hc. destruct fuel as [|[|fuel]]; [lia..|]. apply leaf_reads.
  intros S HS HL. apply Hc, HL.
Qed.

Lemma parse_integer t v fuel name ty n :
  (2 <= fuel)%nat -> ty = kFixedInt \/ ty = kFixedUInt -> int_size n = true ->
  schema_bytes emit t v = code ty ++ vbytes (Z.of_nat n) ->
  element_of emit name t v =
    make_element (type_code ty) name (code ty ++ vbytes (Z.of_nat n)) (integer (Z.of_nat n)) ->
  forall S `(ReadStreamLaws S),
  reads (fun s : S => ReadType fuel s name) (schema_bytes emit t v) (element_of emit name t v).
Proof.
  intros Hf Hty Hn Es Ee. destruct fuel as [|[|fuel]]; [lia..|].
  apply (parse_code _ _ _ _ ty (vbytes (Z.of_nat n)) (integer (Z.of_nat n))); [done..|].
  intros S HS HL s s0 tail E Hv R.
  assert (Hb : in_u 8 (Z.of_nat n) /\ vbytes (Z.of_nat n) = le_split 1 (Z.of_nat n)).
  { do 9 (destruct n as [|n]; [by vm_compute|]). done. }
  destruct Hb as [Hb Eb]. rewrite Eb in R.
  destruct (reads_u8 (Z.of_nat n) Hb s tail Hv R) as (s' & E' & V' & R'). exists s'.
  split; [|done]. rewrite (ReadContents_code _ _ _ _ ty E).
  destruct Hty as [-> | ->]; by rewrite E', !bind_done.
Qed.

Lemma parse_enum is_signed n items : parses (TEnum is_signed n items).
Proof.
  intros fuel name v Hf Hw [Hl Hi] Hv Hz. cbn [cost] in Hf.
  destruct fuel as [|[|fuel]]; [lia..|].
  eapply (parse_code _ _ _ _ kEnum); [reflexivity..|].
  intros S HS HL s s0 tail E Vs R. rewrite (ReadContents_code _ _ _ _ kEnum E).
  rewrite <- app_assoc in R.
  assert (Hk : reads (fun s : S => ReadType fuel s name) (code kVaruint)
                 (leaf kVaruint name nothing)).
  { destruct fuel as [|[|f]]; [lia..|]. apply leaf_reads.
    intros S' HS' HL' s' s0' E'. by rewrite (ReadContents_code _ _ _ _ kVaruint E'). }
  destruct (Hk s _ Vs R) as (s1 & E1 & V1 & R1).
  rewrite E1, bind_done. cbn beta iota. rewrite <- app_assoc in R1.
  destruct (reads_size _ Hl s1 _ V1 R1) as (s2 & E2 & V2 & R2).
  rewrite E2, bind_done. cbn beta iota.
  destruct (items_read name (code kVaruint) items [] Hi s2 tail V2 R2) as (s3 & E3 & V3 & R3).
  change (leaf kVaruint name nothing) with
    (make_element (type_code kVaruint) name (code kVaruint) nothing).
  rewrite E3, !bind_done. by exists s3.
Qed.

Lemma parse_vector t : parses t -> parses (TVector t).
Proof.
  intros Ht fuel name v Hf Hw [Hl Hd] Hv Hz. cbn [cost] in Hf.
  destruct fuel as [|[|fuel]]; [lia..|].
  eapply (parse_code _ _ _ _ kArray); [reflexivity..|].
  intros S HS HL s s0 tail E Vs R. rewrite (ReadContents_code _ _ _ _ kArray E).
  destruct (Ht fuel name (default t) ltac:(lia) Hw Hd (default_storable t Hw) Hl S HS HL s tail Vs R)
    as (s1 & E1 & V1 & R1).
  rewrite E1, !bind_done. by exists s1.
Qed.

Lemma parse_array n t : parses t -> parses (TArray n t).
Proof.
  intros Ht fuel name v Hf [Hn Hw] [Hl Hd] Hv Hz. cbn [cost] in Hf.
  destruct fuel as [|[|fuel]]; [lia..|].
  eapply (parse_code _ _ _ _ kFixedArray); [reflexivity..|].
  intros S HS HL s s0 tail E Vs R. rewrite (ReadContents_code _ _ _ _ kFixedArray E).
  rewrite <- app_assoc in R. destruct (reads_size _ Hn s _ Vs R) as (s1 & E1 & V1 & R1).
  rewrite E1, bind_done. cbn beta iota.
  destruct (Ht fuel name (default t) ltac:(lia) Hw Hd (default_storable t Hw) Hl S HS HL s1 tail V1 R1)
    as (s2 & E2 & V2 & R2).
  rewrite E2, !bind_done. by exists s2.
Qed.

Lemma not_final name t v : (type_of (element_of emit name t v) =? type_code kFinal) = false.
Proof. destruct t; try done. cbn. by destruct (Nat.eqb size 4). Qed.

Lemma cost_pos t : (2 <= cost t)%nat.
Proof. destruct t; cbn; lia. Qed.

Lemma union_reads t fuel name :
  parses t -> (4 + cost t <= fuel)%nat -> wf_type t -> describable t ->
  zlen (bytes t (default t)) <= max_size ->
  forall S `(ReadStreamLaws S),
  reads (fun s : S => ReadUnion fuel s name)
    (code kNull ++ schema_bytes emit t (default t) ++ code kFinal)
    [leaf kNull name (fixed 0); element_of emit name t (default t)].
Proof.
  intros Ht Hf Hw Hd Hl S HS HL s tail Vs R. pose proof (cost_pos t).
  destruct fuel as [|[|[|[|[|fuel]]]]]; [lia..|]. rewrite <- !app_assoc in R.
  assert (Hleaf : forall f ty c, ty = kNull /\ c = fixed 0 \/ ty = kFinal /\ c = nothing ->
    reads (fun s : S => ReadType (Datatypes.S (Datatypes.S f)) s name) (code ty) (leaf ty name c)).
  { intros f ty c Hty. apply leaf_reads. intros S' HS' HL' s' s0' E'.
    rewrite (ReadContents_code _ _ _ _ ty E'). by destruct Hty as [[-> ->]|[-> ->]]. }
  destruct (Hleaf (Datatypes.S (Datatypes.S fuel)) kNull (fixed 0) ltac:(by left) s _ Vs R) as (s1 & E1 & V1 & R1).
  rewrite ReadUnion_eq, E1, bind_done. cbn beta iota.
  change (type_of (leaf kNull name (fixed 0)) =? type_code kFinal) with false. cbn iota.
  destruct (Ht (Datatypes.S (Datatypes.S (Datatypes.S fuel))) name (default t) ltac:(lia) Hw Hd
    (default_storable t Hw) Hl S HS HL s1 _ V1 R1) as (s2 & E2 & V2 & R2).
  rewrite ReadUnion_eq, E2, bind_done. cbn beta iota. rewrite not_final.
  destruct (Hleaf fuel kFinal nothing ltac:(by right) s2 _ V2 R2) as (s3 & E3 & V3 & R3).
  rewrite ReadUnion_eq, E3, !bind_done. cbn. by exists s3.
Qed.

Lemma parse_optional t : parses t -> parses (TOptional t).
Proof.
  intros Ht fuel name v Hf Hw [Hl Hd] Hv Hz. cbn [cost] in Hf.
  destruct fuel as [|[|fuel]]; [lia..|].
  eapply (parse_code _ _ _ _ kUnion); [reflexivity..|].
  intros S HS HL s s0 tail E Vs R. rewrite (ReadContents_code _ _ _ _ kUnion E).
  destruct (union_reads t fuel name Ht ltac:(lia) Hw Hd Hl S _ s tail Vs R)
    as (s1 & E1 & V1 & R1).
  rewrite E1, !bind_done. by exists s1.
Qed.

Definition parses_fields (fs : fields) : Prop := forall fuel vs,
  (fields_cost fs <= fuel)%nat -> wf_fields fs -> describable_fields fs ->
  storable_fields fs vs -> zlen (fields_bytes fs vs) <= max_size ->
  forall S `(ReadStreamLaws S),
  reads (S := S) (ReadFields fuel) (fields_schema emit fs vs ++ final_record) (fields_of emit fs vs).

Lemma parse_object fs : parses_fields fs -> parses (TObject fs).
Proof.
  intros Ht fuel name v Hf Hw Hd Hv Hz. cbn [cost] in Hf. destruct v; try (by destruct Hv).
  destruct fuel as [|[|fuel]]; [lia..|].
  eapply (parse_code _ _ _ _ kObject); [reflexivity..|].
  intros S HS HL s s0 tail E Vs R. rewrite (ReadContents_code _ _ _ _ kObject E).
  rewrite <- app_assoc in R. destruct (reads_size 0 ltac:(done) s _ Vs R) as (s1 & E1 & V1 & R1).
  rewrite E1, bind_done. cbn beta iota. cbn [members_of] in R1.
  destruct (Ht fuel vs ltac:(lia) Hw Hd Hv Hz S HS HL s1 tail V1 R1) as (s2 & E2 & V2 & R2).
  rewrite E2, !bind_done. by exists s2.
Qed.

Lemma parse_no_fields : parses_fields FNil.
Proof.
  intros fuel vs Hf _ _ Hv _ S HS HL s tail Vs R. cbn in Hf.
  destruct fuel as [|fuel]; [lia|]. destruct vs; [|done].
  destruct (final_reads fuel ltac:(lia) S _ s tail Vs R) as (s1 & E1 & V1 & R1).
  exists s1. by rewrite ReadFields_eq, E1, bind_done.
Qed.

Lemma parse_field name t initial rest :
  parses t -> parses_fields rest -> parses_fields (FCons name t initial rest).
Proof.
  intros Ht Hr fuel vs Hf (Hw & _ & Hws) (Hn & Hd & Hds) Hv Hz S HS HL.
  cbn [fields_cost] in Hf. destruct vs as [|v vs]; [by destruct Hv|]. destruct Hv as [Hv Hvs].
  destruct fuel as [|[|fuel]]; [lia..|].
  rewrite fields_bytes_cons, zlen_app in Hz.
  pose proof (zlen_nonneg (bytes t v)). pose proof (zlen_nonneg (fields_bytes rest vs)).
  change (fields_schema emit (FCons name t initial rest) (v :: vs)) with
    (vbytes 0 ++ text name ++ vbytes 0 ++ schema_bytes emit t v ++
     (if emit then vbytes 1 ++ bytes t v else vbytes 0) ++ fields_schema emit rest vs).
  intros s tail Vs R.
  destruct (field_reads fuel name (schema_bytes emit t v) (element_of emit name t v)
    (if emit then vbytes 1 ++ bytes t v else vbytes 0) (if emit then bytes t v else []) Hn)
    with (s := s) (tail := (fields_schema emit rest vs ++ final_record) ++ tail)
    as (s1 & E1 & V1 & R1); [|by apply default_reads; done || lia|done| |].
  - apply Ht; done || lia.
  - rewrite R. by rewrite !app_assoc.
  - rewrite not_final in E1. rewrite fields_of_cons, ReadFields_eq, E1, bind_done. cbn beta iota.
    destruct (Hr (Datatypes.S fuel) vs ltac:(lia) Hws Hds Hvs ltac:(lia) S HS HL s1 tail V1 R1)
      as (s2 & E2 & V2 & R2).
    rewrite E2, bind_done. by exists s2.
Qed.

Lemma ReadType_parses t : parses t.
Proof.
  induction t using ctype_mut with (P0 := parses_fields).
  1-8: intros fuel name v Hf Hw Hd Hv Hz; cbn [cost] in Hf.
  - apply (parse_leaf _ _ _ _ kBoolean (fixed 1)); [done..|].
    intros. by erewrite (ReadContents_code _ _ _ _ kBoolean).
  - apply (parse_integer _ _ _ _ kFixedInt size); [lia|by left|done..].
  - apply (parse_integer _ _ _ _ kFixedUInt size); [lia|by right|done..].
  - destruct (Nat.eqb_spec size 4) as [->|Hn].
    + apply (parse_leaf _ _ _ _ kFloat32 (fixed 4)); [done..|].
      intros. by erewrite (ReadContents_code _ _ _ _ kFloat32).
    + destruct Hw as [->| ->]; [done|].
      apply (parse_leaf _ _ _ _ kFloat64 (fixed 8)); [done..|].
      intros. by erewrite (ReadContents_code _ _ _ _ kFloat64).
  - apply (parse_leaf _ _ _ _ kBytes nothing); [done..|].
    intros. by erewrite (ReadContents_code _ _ _ _ kBytes).
  - apply (parse_leaf _ _ _ _ kString nothing); [done..|].
    intros. by erewrite (ReadContents_code _ _ _ _ kString).
  - apply (parse_leaf _ _ _ _ kTimestamp (fixed 8)); [done..|].
    intros. by erewrite (ReadContents_code _ _ _ _ kTimestamp).
  - apply (parse_leaf _ _ _ _ kDuration (fixed 8)); [done..|].
    intros. by erewrite (ReadContents_code _ _ _ _ kDuration).
  - by apply parse_enum.
  - by apply parse_vector.
  - by apply parse_array.
  - by apply parse_optional.
  - by apply parse_object.
  - apply parse_no_fields.
  - by apply parse_field.
Qed.
End parsing.

(** The fuel of [parse] is enough for every schema the archive writes. *)
Section fuel.
Context `{BoostTimeLaws} (emit : bool).

Lemma length_vbytes v : (1 <= length (vbytes v))%nat.
Proof. unfold vbytes. cbn [vu_bytes]. case_match; cbn; lia. Qed.

Lemma length_code ty : (1 <= length (code ty))%nat.
Proof. apply length_vbytes. Qed.

Lemma fields_schema_cons name t initial rest v vs :
  fields_schema emit (FCons name t initial rest) (v :: vs) =
  vbytes 0 ++ text name ++ vbytes 0 ++ schema_bytes emit t v ++
  (if emit then vbytes 1 ++ bytes t v else vbytes 0) ++ fields_schema emit rest vs.
Proof. reflexivity. Qed.

Lemma cost_bound t : forall v,
  wf_type t -> storable t v -> (cost t <= 4 * length (schema_bytes emit t v))%nat.
Proof.
  induction t using ctype_mut with (P0 := fun fs => forall vs,
    wf_fields fs -> storable_fields fs vs ->
    (fields_cost fs <= 4 * length (fields_schema emit fs vs) + 4)%nat).
  14-15: intros vs Hw Hv; cbn [fields_cost].
  1-13: intros v Hw Hv; cbn [cost schema_bytes]; rewrite ?length_app.
  - pose proof (length_code kBoolean). lia.
  - pose proof (length_code kFixedInt). lia.
  - pose proof (length_code kFixedUInt). lia.
  - case_match; [pose proof (length_code kFloat32)|pose proof (length_code kFloat64)]; lia.
  - pose proof (length_code kBytes). lia.
  - pose proof (length_code kString). lia.
  - pose proof (length_code kTimestamp). lia.
  - pose proof (length_code kDuration). lia.
  - pose proof (length_code kEnum). lia.
  - pose proof (length_code kArray).
    pose proof (IHt (default t) Hw (default_storable t Hw)). lia.
  - destruct Hw as [_ Hw]. pose proof (length_code kFixedArray).
    pose proof (IHt (default t) Hw (default_storable t Hw)). lia.
  - pose proof (length_code kUnion). pose proof (length_code kNull).
    pose proof (IHt (default t) Hw (default_storable t Hw)). lia.
  - destruct v; try (by destruct Hv). pose proof (length_code kObject).
    pose proof (length_vbytes 0). pose proof (IHt vs Hw Hv).
    change (2 + fields_cost fs <= 4 * (length (code kObject) + (length (vbytes 0) +
      (length (fields_schema emit fs vs) + length final_record))))%nat. lia.
  - lia.
  - destruct vs as [|v vs]; [by destruct Hv|]. destruct Hw as (Hw & _ & Hws), Hv as [Hv Hvs].
    pose proof (IHt v Hw Hv). pose proof (IHt0 vs Hws Hvs). pose proof (length_vbytes 0).
    rewrite fields_schema_cons, !length_app. lia.
Qed.
End fuel.

Section schemas.
Context `{BoostTimeLaws}.

Lemma Write_parses emit t name :
  wf_type t -> describable t -> zlen (bytes t (default t)) <= max_size ->
  exists schema, BinarySchemaArchive.Write emit t = Done schema /\
    parse schema name = Done (element_of emit name t (default t)).
Proof.
  intros Hw Hd Hz. pose proof (default_storable t Hw) as Hs.
  pose proof (VisitType_emits (S := FastOStringStream.vector) emit t (default t) Hw Hd Hs) as Hem.
  destruct (Hem FastOStringStream.empty FastOStringStream.ok_empty eq_refl) as (w & E & _ & O & _).
  exists (FastOStringStream.str w). split.
  { unfold BinarySchemaArchive.Write. by rewrite E. }
  cbn [ws_out FastOStringStream.write_laws] in O. rewrite O.
  change (FastOStringStream.str FastOStringStream.empty) with (@nil byte). cbn [app].
  unfold parse, parse_fuel. pose proof (cost_bound emit t (default t) Hw Hs) as Hf.
  pose proof (ReadType_parses emit t (4 * length (schema_bytes emit t (default t)) + 4)%nat name
    (default t) ltac:(lia) Hw Hd Hs Hz BufferReadStream.t _ BufferReadStream.read_laws) as Hp.
  destruct (Hp (BufferReadStream.make (schema_bytes emit t (default t))) []) as (r & Er & _).
  - apply BufferReadStream.brs_ok_make.
  - by rewrite app_nil_r.
  - by rewrite Er.
Qed.
End schemas.

(** ** Properties *)

Lemma demo_describable : describable demo_class /\ zlen (bytes demo_class (default demo_class)) <= max_size.
Proof.
  cbn. unfold in_u, max_size, kMaxStringSize, zlen. cbn. split_and!; try lia; by repeat constructor.
Qed.

Section properties.
Context `{BoostTimeLaws}.

(** C11: the schema that [BinarySchemaArchive] writes for a class, with or
    without default values, is parsed by [BinarySchemaParser] into exactly the
    element tree of the class: every member in order with its name, type,
    size, schema and default record, every enumeration's items, every
    container's element. *)
Theorem schema_roundtrip (emit : bool) (t : ctype) (name : list byte) :
  wf_type t -> describable t -> zlen (bytes t (default t)) <= max_size ->
  exists schema, BinarySchemaArchive.Write emit t = Done schema /\
    parse schema name = Done (element_of emit name t (default t)).
Proof. apply Write_parses. Qed.

(** C12: the element parsed from the schema of a class passes over exactly the
    record of any object of that class, whatever its members, and
    [Element::Read] returns that record. *)
Theorem parsed_schema_skips_records {S} `{ReadStreamLaws S} (emit : bool) (t : ctype)
    (name : list byte) (v : value) (s : S) tail :
  wf_type t -> describable t -> zlen (bytes t (default t)) <= max_size ->
  storable t v -> zlen (bytes t v) <= max_size ->
  rs_valid s -> rs_rest s = bytes t v ++ tail ->
  exists schema e, BinarySchemaArchive.Write emit t = Done schema /\ parse schema name = Done e /\
    (exists s', Element_Ignore e s = Done s' /\ rs_valid s' /\ rs_rest s' = tail) /\
    (exists s', Element_Read e s = Done (bytes t v, s') /\ rs_valid s' /\ rs_rest s' = tail).
Proof.
  intros Hw Hd Hz Hv Hl Vs R. pose proof (default_storable t Hw) as Hs.
  destruct (Write_parses emit t name Hw Hd Hz) as (schema & Es & Ep).
  exists schema, (element_of emit name t (default t)). split_and!; [done..| |].
  - by apply (Ignore_skips emit t name (default t) v Hw Hs Hv Hl s tail).
  - destruct (skips_recorded (Element_Ignore (element_of emit name t (default t))) (bytes t v))
      with (s := s) (tail := tail) as (r & Er & Sr & Vr & Rr); [|done|done|].
    + intros orig. by apply (Ignore_skips emit t name (default t) v).
    + exists (RecordingStream.istr r). unfold Element_Read. rewrite Er, bind_done.
      by rewrite Sr.
Qed.

(** C34: [Ignore] of a union goes to the child the index names, throws for an
    index above the number of children, and for the index that equals it
    reads past the end of the children: the check is one off. *)
Theorem union_index_cases {S} `{ReadStreamLaws S} (name schema : list byte)
    (children : list Element) n (index : Z) (s : S) tail :
  in_u 64 index -> rs_valid s -> rs_rest s = vbytes index ++ tail ->
  let e := make_element (type_code kUnion) name schema (container children n) in
  match Z.compare index (zlen children) with
  | Lt => exists c s', children !! Z.to_nat index = Some c /\ rs_rest s' = tail /\
            Element_Ignore e s = Element_Ignore c s'
  | Eq => Element_Ignore e s = Faulted Undefined
  | Gt => Element_Ignore e s = Faulted (Exception kInvalidUnionIndex)
  end.
Proof.
  intros Hi Vs R. cbv zeta. rewrite Ignore_union.
  destruct (reads_size index Hi s tail Vs R) as (s' & -> & V' & R'). rewrite bind_done.
  assert (Hat : forall l i, 0 <= i ->
    at_index Element_Ignore l i s' =
    match l !! Z.to_nat i with Some c => Element_Ignore c s' | None => Faulted Undefined end).
  { induction l as [|c l IH]; intros i Hi'; [by rewrite lookup_nil|]. cbn [at_index].
    destruct (Z.eqb_spec i 0) as [->|]; [done|]. rewrite IH by lia.
    by replace (Z.to_nat i) with (Datatypes.S (Z.to_nat (i - 1))) by lia. }
  unfold in_u in Hi. destruct (Z.compare_spec index (zlen children)) as [->|Hlt|Hgt].
  - rewrite Z.ltb_irrefl, Hat by lia. by rewrite lookup_ge_None_2 by (unfold zlen; lia).
  - rewrite (proj2 (Z.ltb_ge _ _)), Hat by lia.
    destruct (lookup_lt_is_Some_2 children (Z.to_nat index)) as [c Hc]; [unfold zlen in Hlt; lia|].
    exists c, s'. by rewrite Hc.
  - by rewrite (proj2 (Z.ltb_lt _ _)) by lia.
Qed.
End properties.

Lemma schema_roundtrip_witness :
  exists schema, BinarySchemaArchive.Write true demo_class = Done schema /\
    parse schema [] = Done (element_of true [] demo_class (default demo_class)).
Proof.
  refine (schema_roundtrip true demo_class [] _ _ _); [apply demo_wf|apply demo_describable..].
Defined.

Lemma parsed_schema_skips_records_witness :
  exists schema e, BinarySchemaArchive.Write true demo_class = Done schema /\
    parse schema [] = Done e /\
    (exists s', Element_Ignore e (FastIStringStream.make (bytes demo_class demo_object ++ kHeader)) =
                  Done s' /\ FastIStringStream.ok s' /\ FastIStringStream.rest s' = kHeader) /\
    (exists s', Element_Read e (FastIStringStream.make (bytes demo_class demo_object ++ kHeader)) =
                  Done (bytes demo_class demo_object, s') /\
                FastIStringStream.ok s' /\ FastIStringStream.rest s' = kHeader).
Proof.
  refine (parsed_schema_skips_records (S := FastIStringStream.t) true demo_class [] demo_object
    (FastIStringStream.make (bytes demo_class demo_object ++ kHeader)) kHeader
    _ _ _ _ _ (FastIStringStream.fis_ok_make _) eq_refl).
  - apply demo_wf.
  - apply demo_describable.
  - apply demo_describable.
  - apply demo_wf.
  - vm_compute. discriminate.
Defined.

Lemma union_index_cases_witness :
  let e := make_element (type_code kUnion) [] [] (container [leaf kNull [] (fixed 0)] 0) in
  Element_Ignore e (FastIStringStream.make (vbytes 1)) = Faulted Undefined.
Proof.
  refine (union_index_cases (S := FastIStringStream.t) [] [] [leaf kNull [] (fixed 0)] 0 1
    (FastIStringStream.make (vbytes 1)) [] _ (FastIStringStream.fis_ok_make _) eq_refl).
  split; vm_compute; [discriminate|reflexivity].
Defined.
