(* ===== verification/SchemaTotal.v ===== *)
(** * BinarySchemaParser ends on every input

    A schema comes from a file: whatever its bytes are, the parser returns an
    element or stops with an exception, an assertion or undefined behaviour;
    its recursion and its loops end.  Each step of them takes data. *)
From S2P Require Import Prelude Varuint Streams TimeConversions TelemetryFormat Archive ArchiveTheory Schema SchemaTheory.
Import BinarySchemaParser TelemetryReader.

(** ** Streams that do something definite with a negative size *)

Definition stops {A} (m : outcome A) : Prop := exists f, m = Faulted f /\ f <> OutOfFuel.

Class ReadTotal (S : Type) `{ReadStreamLaws S} :=
  rs_read_neg s n : rs_valid s -> n < 0 -> stops (rs_read s n).
Class IgnoreTotal (S : Type) `{ReadStreamLaws S} :=
  rs_ignore_neg s n : rs_valid s -> n < 0 -> stops (rs_ignore s n).

#[export] Instance buffer_read_total : ReadTotal BufferReadStream.t.
Proof.
  intros s n [Ho Hb] Hn. exists Undefined. split; [|done].
  cbn [rs_read BufferReadStream.read_stream]. unfold BufferReadStream.read.
  rewrite Z.min_l by lia. unfold load.
  by rewrite (proj2 (Z.leb_gt 0 n)), andb_false_r by lia.
Qed.

Section recording_total.
Context {S : Type} `{ReadTotal S}.

#[export] Instance recording_read_total : ReadTotal (RecordingStream.t S).
Proof.
  intros r n [Hv _] Hn. destruct (rs_read_neg (RecordingStream.istr r) n Hv Hn) as (f & E & Hf).
  exists f. split; [|done]. cbn [rs_read RecordingStream.read_stream]. unfold RecordingStream.read.
  by rewrite E.
Qed.

#[export] Instance recording_ignore_total : IgnoreTotal (RecordingStream.t S).
Proof.
  intros r n Hv Hn. destruct (recording_read_total r n Hv Hn) as (f & E & Hf).
  exists f. split; [|done]. cbn [rs_ignore RecordingStream.read_stream].
  rewrite RecordingStream.ignore_read. change (rs_read r n) with (RecordingStream.read r n) in E.
  by rewrite E.
Qed.
End recording_total.

(** ** Progress *)
Section progress.
Context {S : Type} `{ReadStreamLaws S}.

Definition left (s : S) : nat := length (rs_rest s).

(** [progress k m s]: [m], run on [s], took at least [k] bytes of it or
    stopped for a reason other than the model's fuel. *)
Definition progress {A} (k : nat) (m : outcome (A * S)) (s : S) : Prop :=
  match m with
  | Done (_, s') => rs_valid s' /\ (k + left s' <= left s)%nat
  | Faulted f => f <> OutOfFuel
  end.
Definition passes (m : outcome S) (s : S) : Prop :=
  match m with
  | Done s' => rs_valid s' /\ (left s' <= left s)%nat
  | Faulted f => f <> OutOfFuel
  end.

Lemma progress_bind {A B} k j (m : outcome (A * S)) (g : A -> S -> outcome (B * S)) s :
  progress k m s ->
  (forall a s', rs_valid s' -> (k + left s' <= left s)%nat -> progress j (g a s') s') ->
  progress (k + j) ('(a, s) ← m; g a s) s.
Proof.
  intros Hm Hg. destruct m as [[a s']|f]; [|done]. destruct Hm as [Hv Hl].
  specialize (Hg a s' Hv Hl). rewrite bind_done. cbn beta iota. unfold progress in *.
  destruct (g a s') as [[b s'']|f]; [|done]. destruct Hg. split; [done|lia].
Qed.

Lemma progress_ret {A} (a : A) s : rs_valid s -> progress 0 (Done (a, s)) s.
Proof. intros. split; [done|lia]. Qed.

Lemma progress_weaken {A} k j (m : outcome (A * S)) s :
  (j <= k)%nat -> progress k m s -> progress j m s.
Proof. intros Hj. unfold progress. destruct m as [[a s']|f]; [|done]. intros []. split; [done|lia]. Qed.

Lemma progress_exn {A} k e (s : S) : progress (A := A) k (Faulted (Exception e)) s.
Proof. done. Qed.

Lemma passes_after {A} k (m : outcome (A * S)) (g : A -> S -> outcome S) s :
  progress k m s ->
  (forall a s', rs_valid s' -> (k + left s' <= left s)%nat -> passes (g a s') s') ->
  passes ('(a, s) ← m; g a s) s.
Proof.
  intros Hm Hg. destruct m as [[a s']|f]; [|done]. destruct Hm as [Hv Hl].
  specialize (Hg a s' Hv Hl). rewrite bind_done. cbn beta iota. unfold passes in *.
  destruct (g a s') as [s''|f]; [|done]. destruct Hg. split; [done|lia].
Qed.

Lemma passes_bind (m : outcome S) (g : S -> outcome S) s :
  passes m s -> (forall s', rs_valid s' -> passes (g s') s') -> passes (m ≫= g) s.
Proof.
  intros Hm Hg. destruct m as [s'|f]; [|done]. destruct Hm as [Hv Hl].
  specialize (Hg s' Hv). rewrite bind_done. unfold passes in *.
  destruct (g s') as [s''|f]; [|done]. destruct Hg. split; [done|lia].
Qed.

Lemma passes_ret s : rs_valid s -> passes (Done s) s.
Proof. intros. by split. Qed.

Lemma passes_times (f : S -> outcome S) n :
  (forall s, rs_valid s -> passes (f s) s) -> forall s, rs_valid s -> passes (times f n s) s.
Proof.
  intros Hf. destruct n as [|p|p]; intros s Hv; [by apply passes_ret| |by apply passes_ret].
  cbn [times]. revert s Hv. induction p as [p IH|p IH|]; intros s Hv; cbn [times_pos]; [| |auto].
  - apply passes_bind; [auto|]. intros s1 V1. apply passes_bind; auto.
  - apply passes_bind; auto.
Qed.

Lemma passes_each {A} (f : A -> S -> outcome S) l :
  Forall (fun x => forall s, rs_valid s -> passes (f x s) s) l ->
  forall s, rs_valid s -> passes (for_each f l s) s.
Proof.
  induction 1 as [|x l Hx _ IH]; intros s Hv; [by apply passes_ret|].
  cbn [for_each]. apply passes_bind; auto.
Qed.

Lemma passes_at {A} (f : A -> S -> outcome S) l i :
  Forall (fun x => forall s, rs_valid s -> passes (f x s) s) l ->
  forall s, rs_valid s -> passes (at_index f l i s) s.
Proof.
  intros Hl. revert i. induction Hl as [|x l Hx _ IH]; intros i s Hv; [done|].
  cbn [at_index]. case_match; auto.
Qed.

(** A loop that builds a result: its state is the result and the stream. *)
Lemma progress_times {A} (f : A * S -> outcome (A * S)) n :
  (forall a s, rs_valid s -> progress 0 (f (a, s)) s) ->
  forall a s, rs_valid s -> progress 0 (times f n (a, s)) s.
Proof.
  assert (Hpair : forall (m : outcome (A * S)) (g : A * S -> outcome (A * S)) s,
    progress 0 m s -> (forall a s', rs_valid s' -> progress 0 (g (a, s')) s') ->
    progress 0 (m ≫= g) s).
  { intros m g s Hm Hg. destruct m as [[a s']|e]; [|done]. destruct Hm as [Hv Hl].
    specialize (Hg a s' Hv). rewrite bind_done. unfold progress in *.
    destruct (g (a, s')) as [[b s'']|e]; [|done]. destruct Hg. split; [done|lia]. }
  intros Hf. destruct n as [|p|p]; intros a s Hv; [by apply progress_ret| |by apply progress_ret].
  cbn [times]. revert a s Hv. induction p as [p IH|p IH|]; intros a s Hv; cbn [times_pos]; [| |auto].
  - apply Hpair; [auto|]. intros a1 s1 V1. apply Hpair; auto.
  - apply Hpair; auto.
Qed.
End progress.

(** ** The primitives *)
Section primitives.
Context {S : Type} `{ReadStreamLaws S}.

Lemma read_progress s n : rs_valid s -> 0 <= n -> progress 0 (rs_read s n) s.
Proof.
  intros Hv Hn. destruct (rs_read_law s n Hv Hn) as (s' & -> & V & R & _).
  split; [done|]. unfold left. rewrite R. unfold zdrop. rewrite length_drop. lia.
Qed.

Lemma ignore_passes `{!IgnoreTotal S} s n : rs_valid s -> passes (ignore s n) s.
Proof.
  intros Hv. unfold ignore, Ignore. destruct (Z.lt_ge_cases (s64 n) 0) as [Hn|Hn].
  - by destruct (rs_ignore_neg s _ Hv Hn) as (f & -> & Hf).
  - destruct (rs_ignore_law s _ Hv Hn) as (s' & -> & V & R).
    split; [done|]. unfold left. rewrite R. unfold zdrop. rewrite length_drop. lia.
Qed.

Lemma RawRead_progress s n : rs_valid s -> 0 <= n -> progress 0 (RawRead s n) s.
Proof.
  intros Hv Hn. apply (progress_bind 0 0); [by apply read_progress|].
  intros. by apply progress_ret.
Qed.

Lemma ReadScalar_progress n s : rs_valid s -> progress 0 (ReadScalar n s) s.
Proof.
  intros Hv. apply (progress_bind 0 0); [apply RawRead_progress; [done|lia]|].
  intros. by apply progress_ret.
Qed.

Lemma ReadSigned_progress n s : rs_valid s -> progress 0 (ReadSigned n s) s.
Proof.
  intros Hv. apply (progress_bind 0 0); [by apply ReadScalar_progress|].
  intros. by apply progress_ret.
Qed.

(** A byte that was read is a byte less. *)
Lemma byte_read s v s' :
  rs_valid s -> ReadScalar 1 s = Done (Some v, s') -> rs_valid s' /\ (1 + left s' <= left s)%nat.
Proof.
  intros Hv E. destruct (rs_rest s) as [|b l] eqn:R.
  - destruct (ReadScalar_short 1 s Hv) as (s1 & E1 & _); [by rewrite R|]. congruence.
  - destruct (read_byte s b l Hv R) as (s1 & E1 & V1 & R1). rewrite E in E1.
    injection E1 as -> ->. split; [done|]. unfold left. rewrite R, R1. simpl. lia.
Qed.

Lemma value_progress {A} k (m : outcome (option A * S)) s :
  (forall a s', m = Done (Some a, s') -> rs_valid s' /\ (k + left s' <= left s)%nat) ->
  progress 0 m s -> progress k (value_of m) s.
Proof.
  intros Hs Hm. unfold value_of. destruct m as [[[a|] s']|f]; [|done|done].
  rewrite bind_done. apply (Hs a s' eq_refl).
Qed.

Lemma ReadVaruint_loop_progress fuel s result pos :
  rs_valid s -> (0 < fuel)%nat -> 64 <= pos + 7 * (Z.of_nat fuel - 1) ->
  match ReadVaruint_loop fuel s result pos with
  | Done (Some _, s') => rs_valid s' /\ (1 + left s' <= left s)%nat
  | Done (None, s') => rs_valid s' /\ (left s' <= left s)%nat
  | Faulted f => f <> OutOfFuel
  end.
Proof.
  revert s result pos. induction fuel as [|fuel IH]; intros s result pos Hv Hf Hp; [lia|].
  cbn [ReadVaruint_loop]. pose proof (ReadScalar_progress 1 s Hv) as Hb.
  destruct (ReadScalar 1 s) as [[[v|] s1]|f] eqn:E; [| |done].
  - destruct (byte_read s v s1 Hv E) as [V1 L1]. rewrite bind_done. cbn beta iota.
    unfold shift_left_u64. destruct (Z.ltb_spec pos 64); [|done]. rewrite bind_done.
    cbv zeta. destruct (Z.leb_spec 0x80 v); [|by split].
    specialize (IH s1 (Z.lor result (u64 (Z.shiftl (Z.land v 127) pos))) (pos + 7) V1 ltac:(lia) ltac:(lia)).
    destruct (ReadVaruint_loop _ _ _ _) as [[[w|] s2]|f]; [| |done]; destruct IH; split; done || lia.
  - rewrite bind_done. split; [apply Hb|]. destruct Hb. lia.
Qed.

Lemma ReadVaruint_progress s : rs_valid s -> progress 0 (ReadVaruint s) s.
Proof.
  intros Hv. pose proof (ReadVaruint_loop_progress 11 s 0 0 Hv ltac:(lia) ltac:(lia)) as Hl.
  unfold ReadVaruint. destruct (ReadVaruint_loop 11 s 0 0) as [[[v|] s']|f]; [| |done];
    destruct Hl; split; done || lia.
Qed.

Lemma size_progress s : rs_valid s -> progress 1 (value_of (ReadVaruint s)) s.
Proof.
  intros Hv. apply value_progress; [|by apply ReadVaruint_progress]. intros v s' E.
  pose proof (ReadVaruint_loop_progress 11 s 0 0 Hv ltac:(lia) ltac:(lia)) as Hl.
  unfold ReadVaruint in E. by rewrite E in Hl.
Qed.

Lemma ReadVarint_progress s : rs_valid s -> progress 0 (ReadVarint s) s.
Proof.
  intros Hv. apply (progress_bind 0 0); [by apply ReadVaruint_progress|].
  intros. by apply progress_ret.
Qed.

Lemma RawRead_any `{!ReadTotal S} s n : rs_valid s -> progress 0 (RawRead s n) s.
Proof.
  intros Hv. destruct (Z.lt_ge_cases n 0) as [Hn|Hn]; [|by apply RawRead_progress].
  unfold RawRead. by destruct (rs_read_neg s n Hv Hn) as (f & -> & Hf).
Qed.

Lemma ReadString_progress `{!ReadTotal S} s : rs_valid s -> progress 0 (ReadString s) s.
Proof.
  intros Hv. apply (progress_bind 0 0); [by apply ReadVaruint_progress|].
  intros [size|] s1 V1 _; [|by apply progress_ret].
  destruct (kMaxStringSize <? size); [done|]. by apply RawRead_any.
Qed.

Lemma weaker {A} k (m : outcome (A * S)) s : progress k m s -> progress 0 m s.
Proof. apply progress_weaken. lia. Qed.

Lemma value_weak {A} (m : outcome (option A * S)) s : progress 0 m s -> progress 0 (value_of m) s.
Proof. intros Hm. apply value_progress; [|done]. intros a s' ->. exact Hm. Qed.
End primitives.

(** Induction over element trees. *)
Fixpoint Element_tree_ind (P : Element -> Prop)
    (step : forall type name schema size int_size children array_size items fields flags,
      Forall P children -> Forall (fun f => P (element f)) fields ->
      P (mkElement type name schema size int_size children array_size items fields flags))
    (e : Element) {struct e} : P e :=
  match e with
  | mkElement type name schema size int_size children array_size items fields flags =>
      step type name schema size int_size children array_size items fields flags
        ((fix all l : Forall P l :=
            match l with
            | [] => List.Forall_nil P
            | x :: l => @List.Forall_cons _ _ x l (Element_tree_ind P step x) (all l)
            end) children)
        ((fix all l : Forall (fun f => P (element f)) l :=
            match l with
            | [] => List.Forall_nil _
            | x :: l => @List.Forall_cons _ _ x l
                (match x return P (element x) with
                 | mkField _ _ _ e _ => Element_tree_ind P step e end) (all l)
            end) fields)
  end.

Section elements.
Context {S : Type} `{ReadStreamLaws S}.

Lemma Element_Ignore_passes `{!ReadTotal S, !IgnoreTotal S} e (s : S) :
  rs_valid s -> passes (Element_Ignore e s) s.
Proof.
  revert s. induction e as [type name schema size n children array_size items fields flags Hc Hf]
    using Element_tree_ind; intros s Hv. cbn [Element_Ignore].
  destruct (0 <=? size); [by apply ignore_passes|].
  assert (Hfirst : forall s, rs_valid s ->
    match children with c :: _ => passes (Element_Ignore c s) s | [] => True end)
    by (intros; destruct Hc; auto).
  destruct (type_of_code type) as [ty|]; [|by apply passes_ret]. destruct ty; try done.
  - apply (passes_after 0); [by apply ReadVarint_progress|]. intros. by apply passes_ret.
  - apply (passes_after 0); [by apply ReadVaruint_progress|]. intros. by apply passes_ret.
  - apply (passes_after 1); [by apply size_progress|]. intros. by apply ignore_passes.
  - apply (passes_after 1); [by apply size_progress|]. intros. by apply ignore_passes.
  - apply passes_each; [|done]. eapply List.Forall_impl, Hf. intros [? ? ? e ?] He. exact He.
  - destruct children; [done|]. by apply Hfirst.
  - apply (passes_after 1); [by apply size_progress|]. intros a s1 V1 _.
    destruct children; [done|]. case_match; [by apply ignore_passes|]. by apply passes_times.
  - destruct children; [done|]. case_match; [by apply ignore_passes|]. by apply passes_times.
  - apply (passes_after 1); [by apply size_progress|]. intros a s1 V1 _.
    destruct children; [case_match; [by apply passes_ret|done]|]. apply passes_times; [|done].
    intros s2 V2. apply (passes_after 0); [by apply ReadString_progress|]. intros. by apply Hfirst.
  - apply (passes_after 1); [by apply size_progress|]. intros a s1 V1 _.
    destruct (zlen children <? a); [done|]. by apply passes_at.
Qed.

Lemma ReadUIntLike_progress e (s : S) : rs_valid s -> progress 0 (ReadUIntLike e s) s.
Proof.
  revert s. induction e as [type name schema size n children array_size items fields flags Hc Hf]
    using Element_tree_ind; intros s Hv. cbn [ReadUIntLike].
  destruct (type_of_code type) as [ty|]; [|done]. destruct ty; try done.
  - repeat case_match; try done; by apply value_weak, ReadScalar_progress.
  - by apply value_weak, ReadVaruint_progress.
  - destruct Hc; [done|auto].
Qed.

End elements.

Section loop_bodies.
Context {S : Type} `{ReadStreamLaws S}.

Lemma Element_Read_progress `{!ReadTotal S} e (s : S) : rs_valid s -> progress 0 (Element_Read e s) s.
Proof.
  intros Hv. unfold Element_Read.
  pose proof (Element_Ignore_passes e (RecordingStream.make s)) as Hp.
  destruct (Element_Ignore e (RecordingStream.make s)) as [r|f].
  - destruct Hp as [[V1 _] L1]; [by split; [|apply FastOStringStream.ok_empty]|].
    by split.
  - apply Hp. by split; [|apply FastOStringStream.ok_empty].
Qed.

Lemma ReadEnumItem_progress `{!ReadTotal S} child items (s : S) :
  rs_valid s -> progress 0 (ReadEnumItem child (items, s)) s.
Proof.
  intros Hv. apply (progress_bind 0 0); [by apply ReadUIntLike_progress|]. intros v s1 V1 _.
  apply (progress_bind 0 0); [by apply value_weak, ReadString_progress|]. intros.
  by apply progress_ret.
Qed.

Lemma ReadAlias_progress `{!ReadTotal S} aliases (s : S) :
  rs_valid s -> progress 0 (ReadAlias (aliases, s)) s.
Proof.
  intros Hv. apply (progress_bind 0 0); [by apply value_weak, ReadString_progress|].
  intros. by apply progress_ret.
Qed.
End loop_bodies.

(** ** The parser *)

(** With fuel [3 n + 2] for [n] bytes left, none of the five functions runs out. *)
Definition total_at (fuel : nat) : Prop :=
  forall S `(ReadStreamLaws S) `(!ReadTotal S) (s : S), rs_valid s ->
  (forall name, (3 * left s + 2 <= fuel)%nat -> progress 1 (ReadType fuel s name) s) /\
  (forall name, (3 * left s + 1 <= fuel)%nat -> progress 1 (ReadContents fuel s name) s) /\
  ((3 * left s + 3 <= fuel)%nat -> progress 0 (ReadFields fuel s) s) /\
  (forall name, (3 * left s + 3 <= fuel)%nat -> progress 0 (ReadUnion fuel s name) s) /\
  ((3 * left s + 2 <= fuel)%nat -> progress 1 (ReadField fuel s) s).

Section step.
Context (fuel : nat) (IH : total_at fuel) {S : Type} `{ReadTotal S}.

Lemma IH_type (s : S) name : rs_valid s -> (3 * left s + 2 <= fuel)%nat ->
  progress 1 (ReadType fuel s name) s.
Proof. intros Hv. by apply (IH S _ _ _ s Hv). Qed.
Lemma IH_fields (s : S) : rs_valid s -> (3 * left s + 3 <= fuel)%nat ->
  progress 0 (ReadFields fuel s) s.
Proof. intros Hv. by apply (IH S _ _ _ s Hv). Qed.
Lemma IH_union (s : S) name : rs_valid s -> (3 * left s + 3 <= fuel)%nat ->
  progress 0 (ReadUnion fuel s name) s.
Proof. intros Hv. by apply (IH S _ _ _ s Hv). Qed.
Lemma IH_field (s : S) : rs_valid s -> (3 * left s + 2 <= fuel)%nat ->
  progress 1 (ReadField fuel s) s.
Proof. intros Hv. by apply (IH S _ _ _ s Hv). Qed.

Lemma step_type (s : S) name :
  rs_valid s -> (3 * left s + 2 <= Datatypes.S fuel)%nat ->
  progress 1 (ReadType (Datatypes.S fuel) s name) s.
Proof.
  intros Hv Hf. assert (Hr : rs_valid (RecordingStream.make s))
    by (by split; [|apply FastOStringStream.ok_empty]).
  destruct (IH (RecordingStream.t S) _ _ _ (RecordingStream.make s) Hr) as (_ & Hc & _).
  specialize (Hc name). change (left (RecordingStream.make s)) with (left s) in Hc.
  change (ReadType (Datatypes.S fuel) s name) with
    ('(type, c, stream) ← ReadContents fuel (RecordingStream.make s) name;
     Done (make_element type name (RecordingStream.str stream) c, RecordingStream.istr stream)).
  destruct (ReadContents fuel (RecordingStream.make s) name) as [[[ty c] r]|f].
  - destruct Hc as [[V1 _] L1]; [lia|]. by split.
  - apply Hc. lia.
Qed.

Lemma step_contents (s : S) name :
  rs_valid s -> (3 * left s + 1 <= Datatypes.S fuel)%nat ->
  progress 1 (ReadContents (Datatypes.S fuel) s name) s.
Proof.
  intros Hv Hf. cbn [ReadContents]. apply (progress_bind 1 0); [by apply size_progress|].
  intros type s1 V1 L1. destruct (type_code kDuration <? type); [done|].
  apply (progress_bind 0 0); [|intros; by apply progress_ret].
  destruct (type_of_code type) as [ty|]; [|by apply progress_ret].
  destruct ty; try (by apply progress_ret).
  - apply (progress_bind 0 0); [by apply value_weak, ReadScalar_progress|].
    intros. by apply progress_ret.
  - apply (progress_bind 0 0); [by apply value_weak, ReadScalar_progress|].
    intros. by apply progress_ret.
  - apply (progress_bind 0 0); [by apply weaker with 1%nat, size_progress|]. intros flags s2 V2 L2.
    apply (progress_bind 0 0); [apply IH_fields; [done|lia]|]. intros. by apply progress_ret.
  - apply (progress_bind 0 0); [apply weaker with 1%nat, IH_type; [done|lia]|]. intros child s2 V2 L2.
    apply (progress_bind 0 0); [by apply weaker with 1%nat, size_progress|]. intros n s3 V3 L3.
    apply (progress_bind 0 0); [|intros; by apply progress_ret].
    apply progress_times; [|done]. intros. by apply ReadEnumItem_progress.
  - apply (progress_bind 0 0); [apply weaker with 1%nat, IH_type; [done|lia]|].
    intros. by apply progress_ret.
  - apply (progress_bind 0 0); [by apply weaker with 1%nat, size_progress|]. intros n s2 V2 L2.
    apply (progress_bind 0 0); [apply weaker with 1%nat, IH_type; [done|lia]|].
    intros. by apply progress_ret.
  - apply (progress_bind 0 0); [apply weaker with 1%nat, IH_type; [done|lia]|].
    intros. by apply progress_ret.
  - apply (progress_bind 0 0); [apply IH_union; [done|lia]|]. intros. by apply progress_ret.
Qed.

Lemma step_fields (s : S) :
  rs_valid s -> (3 * left s + 3 <= Datatypes.S fuel)%nat ->
  progress 0 (ReadFields (Datatypes.S fuel) s) s.
Proof.
  intros Hv Hf. rewrite ReadFields_eq. apply weaker with 1%nat.
  apply (progress_bind 1 0); [apply IH_field; [done|lia]|].
  intros [field|] s1 V1 L1; [|by apply progress_ret].
  apply (progress_bind 0 0); [apply IH_fields; [done|lia]|]. intros. by apply progress_ret.
Qed.

Lemma step_union (s : S) name :
  rs_valid s -> (3 * left s + 3 <= Datatypes.S fuel)%nat ->
  progress 0 (ReadUnion (Datatypes.S fuel) s name) s.
Proof.
  intros Hv Hf. rewrite ReadUnion_eq. apply weaker with 1%nat.
  apply (progress_bind 1 0); [apply IH_type; [done|lia]|]. intros child s1 V1 L1.
  case_match; [by apply progress_ret|].
  apply (progress_bind 0 0); [apply IH_union; [done|lia]|]. intros. by apply progress_ret.
Qed.

Lemma step_field (s : S) :
  rs_valid s -> (3 * left s + 2 <= Datatypes.S fuel)%nat ->
  progress 1 (ReadField (Datatypes.S fuel) s) s.
Proof.
  intros Hv Hf. rewrite ReadField_eq.
  apply (progress_bind 1 0); [by apply size_progress|]. intros flags s1 V1 L1.
  apply (progress_bind 0 0); [by apply value_weak, ReadString_progress|]. intros name s2 V2 L2.
  apply (progress_bind 0 0); [by apply weaker with 1%nat, size_progress|]. intros n s3 V3 L3.
  apply (progress_bind 0 0).
  { apply progress_times; [|done]. intros. by apply ReadAlias_progress. }
  intros aliases s4 V4 L4.
  apply (progress_bind 0 0); [apply weaker with 1%nat, IH_type; [done|lia]|]. intros e s5 V5 L5.
  apply (progress_bind 0 0); [by apply value_weak, ReadScalar_progress|]. intros d s6 V6 L6.
  apply (progress_bind 0 0); [case_match; [by apply Element_Read_progress|by apply progress_ret]|].
  intros v s7 V7 L7. case_match; by apply progress_ret.
Qed.
End step.

Lemma parser_total fuel : total_at fuel.
Proof.
  induction fuel as [|fuel IH]; intros S HS HL HT s Hv; [split_and!; intros; lia|].
  split_and!; intros.
  - by apply step_type.
  - by apply step_contents.
  - by apply step_fields.
  - by apply step_union.
  - by apply step_field.
Qed.

Lemma parse_ends (schema name : list byte) : parse schema name <> Faulted OutOfFuel.
Proof.
  pose proof (BufferReadStream.brs_ok_make schema) as Hv.
  pose proof (parser_total (parse_fuel schema) BufferReadStream.t _ BufferReadStream.read_laws _
    (BufferReadStream.make schema) Hv) as (Ht & _).
  specialize (Ht name). unfold parse.
  destruct (ReadType _ _ name) as [[e r]|f] eqn:E; [done|].
  cbn. intros [= ->]. apply Ht; [|done]. unfold parse_fuel, left.
  cbn [rs_rest BufferReadStream.read_laws]. rewrite BufferReadStream.brs_rest_make. lia.
Qed.

(** ** Property *)

(** Whatever bytes are given as a schema, the parser ends: with the fuel
    that [parse] gives it, it returns an element or stops the way the source
    does, and never because the model's fuel ran out. *)
Theorem parse_terminates (schema name : list byte) : parse schema name <> Faulted OutOfFuel.
Proof. apply parse_ends. Qed.
