(* ===== verification/ArchiveTyping.v ===== *)
(** * Reading keeps the types of a record

    A record comes from a file or over a wire: whatever its bytes are, what
    [BinaryReadArchive] leaves in an object is an object of the same class, with
    every integer in the range of its type, every string within the reader's
    limit and every array of its size; or the reader stops. *)
From S2P Require Import Prelude Varuint Streams TimeConversions TelemetryFormat Archive ArchiveTheory SchemaTotal.
#[local] Open Scope Z_scope.
Import TelemetryReader.

(** The objects of a type; [storable] without the demand that a time is one
    the format can carry. *)
Section typed.
Context `{BoostTime}.

Fixpoint typed (t : ctype) (v : value) : Prop :=
  match t, v with
  | TBool, VBool _ => True
  | TInt n, VInt z => in_s (8 * Z.of_nat n) z
  | TUInt n, VInt z | TFloat n, VFloat z => in_u (8 * Z.of_nat n) z
  | TEnum is_signed n _, VInt z => (if is_signed then in_s else in_u) (8 * Z.of_nat n) z
  | TBytes, VBytes b => zlen b <= max_size
  | TString, VBytes b => zlen b <= kMaxStringSize
  | TTimestamp, VTime _ => True
  | TDuration, VDuration _ => True
  | TVector t, VList vs => zlen vs <= max_size /\ Forall (typed t) vs
  | TArray n t, VList vs => zlen vs = n /\ Forall (typed t) vs
  | TOptional _, VNone => True
  | TOptional t, VSome v => typed t v
  | TObject fs, VObject vs => typed_fields fs vs
  | _, _ => False
  end
with typed_fields (fs : fields) (vs : list value) : Prop :=
  match fs, vs with
  | FNil, [] => True
  | FCons _ t _ rest, v :: vs => typed t v /\ typed_fields rest vs
  | _, _ => False
  end.

Lemma storable_typed t : forall v, storable t v -> typed t v.
Proof.
  induction t using ctype_mut with (P0 := fun fs => forall vs, storable_fields fs vs -> typed_fields fs vs);
    intros v; destruct v; cbn; try done; try naive_solver.
  - intros [Hn Hv]. split; [done|]. eapply Forall_impl; eauto.
  - intros [Hn Hv]. split; [done|]. eapply Forall_impl; eauto.
Qed.
End typed.

Section reading.
Context `{BoostTimeLaws} {S : Type} `{ReadStreamLaws S}.

(** [s'] is [s] further on. *)
Definition further (s s' : S) : Prop := exists used, rs_rest s = used ++ rs_rest s'.

#[export] Instance further_preorder : PreOrder further.
Proof.
  split; [by exists []|]. intros s1 s2 s3 [u1 E1] [u2 E2]. exists (u1 ++ u2).
  by rewrite E1, E2, app_assoc.
Qed.

(** [gives P m s]: what [m], run on [s], leaves satisfies [P], and the stream
    is further on. *)
Definition gives {A} (P : A -> Prop) (m : outcome (A * S)) (s : S) : Prop :=
  fine m (fun p => P p.1 /\ rs_valid p.2 /\ further s p.2).

Lemma gives_bind {A B} (P : A -> Prop) (Q : B -> Prop) (m : outcome (A * S)) (k : A -> S -> outcome (B * S)) s :
  gives P m s -> (forall a s', P a -> rs_valid s' -> gives Q (k a s') s') ->
  gives Q ('(a, s) ← m; k a s) s.
Proof.
  intros Hm Hk. eapply fine_bind; [exact Hm|]. intros [a s'] (Ha & Hv & Hs). cbn [fst snd] in *.
  eapply fine_mono; [by apply Hk|]. intros [b s''] (Hb & Hv' & Hs'). split_and!; [done..|].
  by etrans.
Qed.

Lemma gives_ret {A} (P : A -> Prop) a s : P a -> rs_valid s -> gives P (Done (a, s)) s.
Proof. intros Ha Hv. unfold gives. cbn. by split_and!. Qed.

Lemma gives_mono {A} (P Q : A -> Prop) m s : (forall a, P a -> Q a) -> gives P m s -> gives Q m s.
Proof. intros Hp Hm. eapply fine_mono; [exact Hm|]. intros p (? & ? & ?). auto. Qed.

(** What is read when it is read. *)
Definition on_some {A} (P : A -> Prop) (m : option A) : Prop := forall a, m = Some a -> P a.

Lemma gives_map {A B} (h : A -> B) (P : A -> Prop) (Q : B -> Prop) (m : outcome (option A * S)) s :
  (forall a, P a -> Q (h a)) -> gives (on_some P) m s ->
  gives (on_some Q) ('(x, s) ← m; Done (option_map h x, s)) s.
Proof.
  intros Hh Hm. eapply gives_bind; [exact Hm|]. intros x s' Hx Hv. apply gives_ret; [|done].
  intros b Hb. destruct x as [a|]; [|done]. injection Hb as <-. by apply Hh, Hx.
Qed.

Lemma gives_read s n : rs_valid s -> 0 <= n -> gives (fun bs => zlen bs <= n) (rs_read s n) s.
Proof.
  intros Hv Hn. destruct (rs_read_law s n Hv Hn) as (s' & -> & V & R & _). unfold gives. cbn.
  split_and!; [|done|].
  - rewrite zlen_take; lia.
  - exists (ztake n (rs_rest s)). by rewrite R, ztake_zdrop.
Qed.

Lemma gives_RawRead s n : rs_valid s -> 0 <= n -> gives (on_some (fun bs => zlen bs <= n)) (RawRead s n) s.
Proof.
  intros Hv Hn. eapply gives_bind; [by apply gives_read|]. intros bs s' Hb V. apply gives_ret; [|done].
  intros x Hx. case_match; [|done]. by injection Hx as <-.
Qed.

Lemma gives_ReadScalar n s :
  rs_valid s -> gives (on_some (in_u (8 * Z.of_nat n))) (ReadScalar n s) s.
Proof.
  intros Hv. unfold ReadScalar.
  eapply gives_map; [|eapply gives_mono; [|apply (gives_RawRead s (Z.of_nat n)); [done|lia]]]; [|done].
  intros bs Hb. pose proof (le_combine_bound bs) as Hc. unfold in_u, zlen in *.
  assert (2 ^ (8 * Z.of_nat (length bs)) <= 2 ^ (8 * Z.of_nat n)) by (apply Z.pow_le_mono_r; lia). lia.
Qed.

Lemma gives_ReadSigned n s :
  (0 < n)%nat -> rs_valid s -> gives (on_some (in_s (8 * Z.of_nat n))) (ReadSigned n s) s.
Proof.
  intros Hn Hv. unfold ReadSigned. eapply gives_map; [|by apply gives_ReadScalar].
  intros z _. apply swrap_range. lia.
Qed.

Lemma lor_u64 a b : in_u 64 a -> in_u 64 b -> in_u 64 (Z.lor a b).
Proof.
  unfold in_u. intros Ha Hb. split; [apply Z.lor_nonneg; lia|].
  destruct (Z.eq_dec (Z.lor a b) 0) as [->|Hz]; [lia|].
  assert (0 < Z.lor a b) by (pose proof (proj2 (Z.lor_nonneg a b)); lia).
  apply Z.log2_lt_pow2; [done|]. rewrite Z.log2_lor by lia.
  assert (forall x, 0 <= x < 2 ^ 64 -> Z.log2 x < 64) as Hl.
  { intros x Hx. destruct (Z.eq_dec x 0) as [->|]; [done|]. apply Z.log2_lt_pow2; lia. }
  apply Z.max_lub_lt; by apply Hl.
Qed.

Lemma gives_ReadVaruint_loop fuel : forall s result pos,
  rs_valid s -> in_u 64 result -> (0 < fuel)%nat -> 64 <= pos + 7 * (Z.of_nat fuel - 1) ->
  gives (on_some (in_u 64)) (ReadVaruint_loop fuel s result pos) s.
Proof.
  induction fuel as [|fuel IH]; intros s result pos Hv Hr Hf Hp; [lia|]. cbn [ReadVaruint_loop].
  eapply gives_bind; [by apply gives_ReadScalar|]. intros [value|] s1 _ V1; [|by apply gives_ret].
  unfold shift_left_u64. destruct (Z.ltb_spec pos 64); [|done]. rewrite bind_done. cbv zeta.
  assert (Hl : in_u 64 (Z.lor result (u64 (Z.shiftl (Z.land value 127) pos))))
    by (apply lor_u64; [done|by apply uwrap_range]).
  destruct (0x80 <=? value); [|by apply gives_ret; [intros ? [= <-]|]]. apply IH; done || lia.
Qed.

Lemma gives_ReadVaruint s : rs_valid s -> gives (on_some (in_u 64)) (ReadVaruint s) s.
Proof. intros Hv. apply gives_ReadVaruint_loop; done || lia. Qed.

Lemma gives_ReadString s :
  rs_valid s -> gives (on_some (fun bs => zlen bs <= kMaxStringSize)) (ReadString s) s.
Proof.
  intros Hv. unfold ReadString. eapply gives_bind; [by apply gives_ReadVaruint|].
  intros [size|] s1 Hn V1; [|by apply gives_ret]. specialize (Hn size eq_refl). unfold in_u in Hn.
  destruct (Z.ltb_spec kMaxStringSize size); [done|].
  eapply gives_mono; [|apply (gives_RawRead s1 size); [done|lia]].
  intros m Hm bs Hb. specialize (Hm bs Hb). cbn in *. lia.
Qed.

(** What a scalar overload leaves. *)
Lemma gives_set {A} (f : S -> outcome (option A * S)) (h : A -> value) (P : A -> Prop) t old error s :
  typed t old -> (forall a, P a -> typed t (h a)) -> gives (on_some P) (f s) s ->
  fine ('(m, s) ← f s; Done (BinaryReadArchive.set_value old error (h <$> m, s)))
    (fun p => typed t p.1.1 /\ rs_valid p.2 /\ further s p.2).
Proof.
  intros Ho Hh Hf. eapply fine_bind; [exact Hf|]. intros [[a|] s'] (Ha & V & Fu); cbn [fst snd] in *;
    cbn; split_and!; [|done..| | |]; try done. by apply Hh, Ha.
Qed.

(** The reading of an object of a class. *)
Definition leaves {A} (P : A -> Prop) (f : bool -> S -> outcome (A * bool * S)) : Prop := forall error s,
  rs_valid s -> fine (f error s) (fun p => P p.1.1 /\ rs_valid p.2 /\ further s p.2).

Lemma leaves_bytes old : typed TBytes old -> leaves (typed TBytes) (BinaryReadArchive.Read_bytes old).
Proof.
  intros Ho error s Hv. unfold BinaryReadArchive.Read_bytes.
  eapply fine_bind; [by apply gives_ReadVaruint|]. intros [[size|] s1] (Hn & V1 & F1); cbn [fst snd] in *;
    [|by split_and!]. specialize (Hn size eq_refl). unfold in_u in Hn.
  unfold vector_resize. destruct (Z.ltb_spec max_size size); [done|]. rewrite bind_done.
  eapply fine_bind; [apply (gives_read s1 size); [done|lia]|]. intros [bs s2] (Hb & V2 & F2).
  cbn [fst snd] in *. cbv zeta. cbn. split_and!; [|done|by etrans].
  set (v := ztake size (bytes_of old) ++ _). assert (Hv' : zlen v = size).
  { unfold v. rewrite zlen_app, zlen_replicate, zlen_take by lia. pose proof (zlen_nonneg (bytes_of old)). lia. }
  rewrite zlen_app, zlen_drop by apply zlen_nonneg. lia.
Qed.

Lemma leaves_items t items :
  (forall old, typed t old -> leaves (typed t) (BinaryReadArchive.Visit t old)) ->
  Forall (typed t) items ->
  leaves (fun vs => zlen vs = zlen items /\ Forall (typed t) vs)
    (BinaryReadArchive.VisitArrayHelper (BinaryReadArchive.Visit t) items).
Proof.
  intros Ht. induction 1 as [|item items Hi Hs IH]; intros error s Hv; [by split_and!|].
  cbn [BinaryReadArchive.VisitArrayHelper]. eapply fine_bind; [by apply Ht|].
  intros [[v e] s1] (H1' & V1 & F1). cbn [fst snd] in *. destruct e.
  - cbn. rewrite !zlen_cons. split_and!; [done|by constructor|done..].
  - eapply fine_bind; [by apply IH|]. intros [[vs e] s2] ((Hl & Hvs) & V2 & F2). cbn [fst snd] in *.
    cbn. rewrite !zlen_cons, Hl. split_and!; [done|by constructor|done|by etrans].
Qed.

Lemma leaves_scalar {A} (f : S -> outcome (option A * S)) (h : A -> value) (P : A -> Prop) t old :
  typed t old -> (forall a, P a -> typed t (h a)) ->
  (forall s, rs_valid s -> gives (on_some P) (f s) s) ->
  leaves (typed t) (fun error s =>
    '(m, s) ← f s; Done (BinaryReadArchive.set_value old error (h <$> m, s))).
Proof. intros Ho Hh Hf error s Hv. eapply gives_set; eauto. Qed.

Lemma leaves_bool old : typed TBool old -> leaves (typed TBool) (BinaryReadArchive.Visit TBool old).
Proof.
  intros Ho error s Hv. cbn [BinaryReadArchive.Visit]. unfold BinaryReadArchive.Read_bool.
  pose proof (gives_ReadScalar 1 s Hv) as Hg. destruct (ReadScalar 1 s) as [[[b|] s1]|f]; [| |exact Hg];
    destruct Hg as (_ & V & F); cbn; [|by split_and!].
  destruct (b <=? 1); [by split_and!|done].
Qed.

Lemma typed_default t : wf_type t -> typed t (default t).
Proof. intros Hw. by apply storable_typed, default_storable. Qed.

Lemma Forall_resize t n vs :
  wf_type t -> Forall (typed t) vs -> 0 <= n ->
  let l := ztake n vs ++ replicate (Z.to_nat (n - zlen vs)) (default t) in
  zlen l = n /\ Forall (typed t) l.
Proof.
  intros Hw Hv Hn. cbv zeta. split.
  - rewrite zlen_app, zlen_replicate, zlen_take by lia. pose proof (zlen_nonneg vs). lia.
  - apply list.Forall_app. split; [by apply Forall_ztake|]. by apply Forall_replicate, typed_default.
Qed.

Lemma leaves_vector t old :
  wf_type t -> (forall old, typed t old -> leaves (typed t) (BinaryReadArchive.Visit t old)) ->
  typed (TVector t) old -> leaves (typed (TVector t)) (BinaryReadArchive.Visit (TVector t) old).
Proof.
  intros Hw Ht Ho error s Hv. cbn [BinaryReadArchive.Visit].
  eapply fine_bind; [by apply gives_ReadVaruint|]. intros [[size|] s1] (Hn & V1 & F1); cbn [fst snd] in *;
    [|by split_and!]. specialize (Hn size eq_refl). unfold in_u in Hn.
  unfold vector_resize. destruct (Z.ltb_spec max_size size); [done|]. rewrite bind_done.
  destruct (Forall_resize t size (items_of old) Hw) as [Hl Hf]; [by destruct old; try done; destruct Ho|lia|].
  eapply fine_bind; [by apply (leaves_items t _ Ht Hf)|]. intros [[vs e] s2] ((Hz & Hvs) & V2 & F2).
  cbn [fst snd] in *. cbn. rewrite Hz, Hl. split_and!; [done..|by etrans].
Qed.

Lemma leaves_optional t old :
  wf_type t -> (forall old, typed t old -> leaves (typed t) (BinaryReadArchive.Visit t old)) ->
  typed (TOptional t) old -> leaves (typed (TOptional t)) (BinaryReadArchive.Visit (TOptional t) old).
Proof.
  intros Hw Ht Ho error s Hv. cbn [BinaryReadArchive.Visit].
  eapply fine_bind; [by apply gives_ReadScalar|]. intros [[present|] s1] (_ & V1 & F1); cbn [fst snd] in *;
    [|by split_and!].
  destruct (present =? 0); [by split_and!|]. destruct (present =? 1); [|by split_and!].
  eapply fine_bind; [by apply Ht, V1; apply typed_default|]. intros [[v e] s2] (Hv2 & V2 & F2).
  cbn [fst snd] in *. cbn. split_and!; [done..|by etrans].
Qed.

Lemma Visit_leaves t : wf_type t -> forall old,
  typed t old -> leaves (typed t) (BinaryReadArchive.Visit t old).
Proof.
  induction t using ctype_mut with (P0 := fun fs => wf_fields fs -> forall olds,
    typed_fields fs olds -> leaves (typed_fields fs) (BinaryReadArchive.Accept fs olds)); intros Hw old Ho.
  - by apply leaves_bool.
  - eapply (leaves_scalar _ VInt _ (TInt size)); [done| |]; [|intros s; by apply gives_ReadSigned, int_size_pos].
    by intros a Ha.
  - eapply (leaves_scalar _ VInt _ (TUInt size)); [done| |]; [|intros s; apply gives_ReadScalar].
    by intros a Ha.
  - eapply (leaves_scalar _ VFloat _ (TFloat size)); [done| |]; [|intros s; apply gives_ReadScalar].
    by intros a Ha.
  - by apply leaves_bytes.
  - eapply (leaves_scalar _ VBytes _ TString); [done| |]; [|intros s; apply gives_ReadString].
    by intros a Ha.
  - eapply (leaves_scalar _ (fun us => VTime (ConvertEpochMicrosecondsToPtime us)) _ TTimestamp); [done| |]; [|intros s; apply gives_ReadSigned; lia].
    by intros a Ha.
  - eapply (leaves_scalar _ (fun us => VDuration (ConvertMicrosecondsToDuration us)) _ TDuration); [done| |]; [|intros s; apply gives_ReadSigned; lia].
    by intros a Ha.
  - eapply (leaves_scalar _ (fun z => VInt (enum_cast is_signed size z)) _ (TEnum is_signed size items)); [done| |].
    + intros a Ha. cbn. unfold enum_cast. pose proof (int_size_pos _ Hw).
      destruct is_signed; [apply swrap_range|apply uwrap_range]; lia.
    + intros s. apply gives_ReadVaruint.
  - exact (leaves_vector t old Hw (IHt Hw) Ho).
  - destruct old; try done. destruct Hw as [_ Hw], Ho as [Hl Hf]. intros error s Hv.
    cbn [BinaryReadArchive.Visit items_of]. eapply fine_bind; [by apply (leaves_items t _ (IHt Hw) Hf)|].
    intros [[vs' e] s2] ((Hz & Hvs) & V2 & F2). cbn [fst snd] in *. cbn. rewrite Hz. by split_and!.
  - exact (leaves_optional t old Hw (IHt Hw) Ho).
  - destruct old; try done. intros error s Hv. rewrite Visit_object. cbn [members_of].
    eapply fine_bind; [by apply IHt|]. intros [[vs' e] s2] (Hvs & V2 & F2). by split_and!.
  - destruct old; [|done]. intros error s Hv. by split_and!.
  - destruct old as [|old olds]; [done|]. destruct Hw as (Hw & _ & Hws), Ho as [Ho Hos]. intros error s Hv.
    rewrite Accept_cons. eapply fine_bind; [by apply IHt|]. intros [[v e] s1] (H1' & V1 & F1). cbn [fst snd] in *.
    eapply fine_bind; [by apply IHt0|]. intros [[vs e'] s2] (H2' & V2 & F2). cbn [fst snd] in *.
    cbn. split_and!; [done..|by etrans].
Qed.
End reading.

(** C30: whatever the bytes are, reading them ends, and when it returns it has
    left an object of the class: every integer is in the range of its type,
    every enumeration in that of its underlying type, strings and vectors are
    within the reader's limits, arrays have their size, at any depth; nothing
    but data from the front of the stream is gone. *)
Theorem reading_keeps_types `{BoostTimeLaws} {R : Type} `{ReadStreamLaws R}
    (t : ctype) (old : value) (error : bool) (r : R) :
  wf_type t -> typed t old -> rs_valid r ->
  match BinaryReadArchive.Visit t old error r with
  | Done (v, _, r') => typed t v /\ rs_valid r' /\ exists used, rs_rest r = used ++ rs_rest r'
  | Faulted f => f <> OutOfFuel
  end.
Proof.
  intros Hw Ho Hv. pose proof (Visit_leaves t Hw old Ho error r Hv) as Hl.
  by destruct (BinaryReadArchive.Visit t old error r) as [[[v e] r']|f].
Qed.

(** The data of a class with a flag of 7: the reader has no such object. *)
Lemma reading_keeps_types_witness :
  match BinaryReadArchive.Visit demo_class (default demo_class) false
    (FastIStringStream.make (map byte.of_Z [1; 0xd4; 0xfe; 5; 1; 1; 0x61; 0; 7; 9])) with
  | Done (v, _, r') => typed demo_class v /\ FastIStringStream.ok r' /\
      exists used, FastIStringStream.rest
        (FastIStringStream.make (map byte.of_Z [1; 0xd4; 0xfe; 5; 1; 1; 0x61; 0; 7; 9])) =
        used ++ FastIStringStream.rest r'
  | Faulted f => f <> OutOfFuel
  end.
Proof.
  refine (reading_keeps_types (R := FastIStringStream.t) demo_class (default demo_class) false
    (FastIStringStream.make (map byte.of_Z [1; 0xd4; 0xfe; 5; 1; 1; 0x61; 0; 7; 9])) _ _
    (FastIStringStream.fis_ok_make _)).
  - apply demo_wf.
  - apply storable_typed, demo_wf.
Defined.
