(* ===== verification/MappedBinaryReader.v ===== *)
(** * telemetry/mapped_binary_reader.h: records of another schema

    [MappedBinaryReader<T>] is made from the schema a record was written with,
    and reads it into a [T], which may have changed since: what a schema
    element and a C++ type have in common is decided when the reader is made,
    by name.  The instance at a type is the equation of [make] and [Read] at
    its [ctype]; external serializers and [std::map] are not among those. *)
From S2P Require Import Prelude Varuint Streams TimeConversions TelemetryFormat Archive Schema.
Import BinarySchemaParser.

Module MappedBinaryReader.

(** ** [std::map<std::string, A>], of which only [insert] and [find] are used *)
Section string_map.
Context {A : Type}.

Fixpoint find (key : list byte) (m : list (list byte * A)) : option A :=
  match m with
  | [] => None
  | (k, x) :: m => if bool_decide (k = key) then Some x else find key m
  end.

(** What is there is kept. *)
Definition insert (key : list byte) (x : A) (m : list (list byte * A)) : list (list byte * A) :=
  match find key m with
  | Some _ => m
  | None => m ++ [(key, x)]
  end.
End string_map.

Definition children (e : Element) : list Element :=
  let 'mkElement _ _ _ _ _ children _ _ _ _ := e in children.
Definition array_size (e : Element) : Z := let 'mkElement _ _ _ _ _ _ n _ _ _ := e in n.
Definition element_fields (e : Element) : list Field :=
  let 'mkElement _ _ _ _ _ _ _ _ fields _ := e in fields.
Definition field_name (f : Field) : list byte := let 'mkField _ name _ _ _ := f in name.

(** A reader: of the same schema; of a container or, without a child, an
    enumeration ([container_readers_]); or of a class, with the fields of the
    element and the readers of the members both sides have. *)
#[local] Unset Elimination Schemes.
Inductive Reader :=
  | SchemasSame
  | Container (child : option Reader)
  | Mapped (fields : list Field) (readers : list (list byte * Reader)).
#[local] Set Elimination Schemes.

Definition kTypeMismatch : Z := 5.
Definition kOutOfRange : Z := 6.

(** [children.at(i)] *)
Definition child_at (e : Element) (i : nat) : outcome Element :=
  match children e !! i with
  | Some c => Done c
  | None => Faulted (Exception kOutOfRange)
  end.

(** The condition on an optional's element; [front] of an empty vector is
    undefined. *)
Definition optional_differs (e : Element) : outcome bool :=
  if zlen (children e) =? 2 then Done false
  else match children e with
       | c :: _ => Done (negb (type_of c =? type_code kNull))
       | [] => Faulted Undefined
       end.

Section readers.
Context `{BoostTime}.

(** [IsContainerTypeMatch], and being a class. *)
Definition type_matches (t : ctype) (e : Element) : bool :=
  match t with
  | TObject _ => type_of e =? type_code kObject
  | TVector _ => type_of e =? type_code kArray
  | TArray _ _ => type_of e =? type_code kFixedArray
  | TOptional _ => type_of e =? type_code kUnion
  | TEnum _ _ _ => type_of e =? type_code kEnum
  | _ => false
  end.

Definition element_map (fields : list Field) : list (list byte * Element) :=
  fold_left (fun m f => insert (field_name f) (element f) m) fields [].

(** The constructor, and the [SchemaArchive] that visits the members.  The
    names of a class's members differ. *)
Fixpoint make (t : ctype) (e : Element) {struct t} : outcome Reader :=
  schema ← BinarySchemaArchive.Write true t;
  if bool_decide (binary_schema e = schema) then Done SchemasSame
  else if negb (type_matches t e) then Faulted (Exception kTypeMismatch)
  else
    match t with
    | TObject fs =>
        readers ← SetupReaders fs (element_map (element_fields e)) [];
        Done (Mapped (element_fields e) readers)
    | TVector t => c ← child_at e 0; r ← make t c; Done (Container (Some r))
    | TArray n t =>
        if negb (n =? array_size e) then Faulted (Exception kTypeMismatch)
        else c ← child_at e 0; r ← make t c; Done (Container (Some r))
    | TOptional t =>
        differs ← optional_differs e;
        if (differs : bool) then Faulted (Exception kTypeMismatch)
        else c ← child_at e 1; r ← make t c; Done (Container (Some r))
    | _ => Done (Container None)
    end
with SetupReaders (fs : fields) (elements : list (list byte * Element))
    (readers : list (list byte * Reader)) {struct fs} : outcome (list (list byte * Reader)) :=
  match fs with
  | FNil => Done readers
  | FCons name t _ rest =>
      match find name elements with
      | None => SetupReaders rest elements readers
      | Some e =>
          r ← make t e;
          SetupReaders rest elements (insert name r readers)
      end
  end.

(** An object that is declared and not initialised: a scalar in it is
    indeterminate. *)
Context (indeterminate : ctype -> value).

Fixpoint declared (t : ctype) : value :=
  match t with
  | TBool | TInt _ | TUInt _ | TFloat _ | TEnum _ _ _ => indeterminate t
  | TArray n t => VList (replicate (Z.to_nat n) (declared t))
  | _ => default t
  end.

(** The record of each field, by its name. *)
Fixpoint ReadFieldData {S} `{ReadStream S} (fields : list Field)
    (data : list (list byte * list byte)) (s : S) : outcome (list (list byte * list byte) * S) :=
  match fields with
  | [] => Done (data, s)
  | f :: fields =>
      '(bytes, s) ← Element_Read (element f) s;
      ReadFieldData fields (insert (field_name f) bytes data) s
  end.

Section items.
Context {S : Type} (read : value -> S -> outcome (value * S)).

Fixpoint ReadItems (items : list value) (s : S) : outcome (list value * S) :=
  match items with
  | [] => Done ([], s)
  | item :: items =>
      '(item, s) ← read item s;
      '(items, s) ← ReadItems items s;
      Done (item :: items, s)
  end.
End items.

(** [Read(value, stream)], with [ReadContainer] and, for the members of a
    class, the [DataArchive]: the object that is left, and the stream.  [error]
    of the archive is not looked at. *)
Fixpoint Read (t : ctype) (r : Reader) {S} `{ReadStream S} (old : value) (s : S) {struct t}
    : outcome (value * S) :=
  match r, t with
  | SchemasSame, t => '(v, _, s) ← BinaryReadArchive.Visit t old false s; Done (v, s)
  | Container (Some r), TVector t =>
      '(size, s) ← value_of (TelemetryReader.ReadVaruint s);
      items ← vector_resize (default t) size (items_of old);
      '(items, s) ← ReadItems (Read t r) items s;
      Done (VList items, s)
  | Container (Some r), TArray _ t =>
      '(items, s) ← ReadItems (Read t r) (items_of old) s;
      Done (VList items, s)
  | Container (Some r), TOptional t =>
      '(union_index, s) ← TelemetryReader.ReadVaruint s;
      if bool_decide (union_index = Some 0) then Done (VNone, s)
      else
        '(item, s) ← Read t r (declared t) s;
        Done (VSome item, s)
  | Container None, TEnum is_signed n _ =>
      '(z, s) ← value_of (TelemetryReader.ReadVaruint s);
      Done (VInt (enum_cast is_signed n z), s)
  | Mapped fields readers, TObject fs =>
      '(data, s) ← ReadFieldData fields [] s;
      members ← ReadMembers fs data readers (members_of old);
      Done (VObject members, s)
  | _, _ => Faulted Assertion
  end
with ReadMembers (fs : fields) (data : list (list byte * list byte))
    (readers : list (list byte * Reader)) (olds : list value) {struct fs} : outcome (list value) :=
  match fs, olds with
  | FCons name t _ rest, old :: olds =>
      member ←
        match find name readers, find name data with
        | Some r, Some d => '(v, _) ← Read t r old (BufferReadStream.make d); Done v
        | _, _ => Done old
        end;
      members ← ReadMembers rest data readers olds;
      Done (member :: members)
  | _, _ => Done []
  end.

(** [Read(data)] *)
Definition ReadData (t : ctype) (r : Reader) (data : list byte) : outcome value :=
  '(v, _) ← Read t r (declared t) (BufferReadStream.make data);
  Done v.
End readers.
End MappedBinaryReader.
