(* ===== verification/MappedTheory.v ===== *)
(** * Schema evolution: what a mapped reader makes of a record

    [mapping tB tA dA] says, of a record of type [tA], how an object of type
    [tB] is read from it, or that it cannot be: that is what
    [MappedBinaryReader] does with it. *)
From S2P Require Import Prelude Varuint Streams TimeConversions TelemetryFormat Archive ArchiveTheory Schema SchemaTheory MappedBinaryReader.
Import BinarySchemaParser MappedBinaryReader.

Section specification.
Context `{BoostTime} (indeterminate : ctype -> value) (emit : bool).

(** The type [tB] has the schema that was written for [tA] with the object
    [dA]. *)
Definition same (tA : ctype) (dA : value) (tB : ctype) : bool :=
  bool_decide (schema_bytes emit tA dA = schema_bytes true tB (default tB)).

(** The first member of a name: its place, its type and its value in [ds]. *)
Fixpoint field_named (name : list byte) (fs : fields) (ds : list value)
    : option (nat * ctype * value) :=
  match fs, ds with
  | FCons n t _ rest, d :: ds =>
      if bool_decide (n = name) then Some (O, t, d)
      else '(i, t, d) ← field_named name rest ds; Some (S i, t, d)
  | _, _ => None
  end.

(** The elements that a container's are read into. *)
Definition resized (t : ctype) (n : Z) (olds : list value) : list value :=
  ztake n olds ++ replicate (Z.to_nat (n - zlen olds)) (default t).

Fixpoint mapping (tB tA : ctype) (dA : value) {struct tB} : option (value -> value -> value) :=
  if same tA dA tB then Some (fun _ v => v)
  else
    match tB, tA with
    | TObject fsB, TObject fsA =>
        f ← members fsB fsA (members_of dA);
        Some (fun old v => VObject (f (members_of old) (members_of v)))
    | TVector b, TVector a =>
        f ← mapping b a (default a);
        Some (fun old v => VList (zip_with f (resized b (zlen (items_of v)) (items_of old)) (items_of v)))
    | TArray n b, TArray m a =>
        if n =? m then
          f ← mapping b a (default a);
          Some (fun old v => VList (zip_with f (items_of old) (items_of v)))
        else None
    | TOptional b, TOptional a =>
        f ← mapping b a (default a);
        Some (fun _ v => match v with VSome v => VSome (f (declared indeterminate b) v) | _ => VNone end)
    | TEnum is_signed n _, TEnum _ _ _ =>
        Some (fun _ v => match v with VInt z => VInt (enum_cast is_signed n (u64 z)) | v => v end)
    | _, _ => None
    end
with members (fsB fsA : fields) (dAs : list value) {struct fsB}
    : option (list value -> list value -> list value) :=
  match fsB with
  | FNil => Some (fun _ _ => [])
  | FCons name b _ rest =>
      f ← match field_named name fsA dAs with
          | None => Some (fun old _ => old)
          | Some (i, a, d) =>
              f ← mapping b a d;
              Some (fun old vs => match vs !! i with Some v => f old v | None => old end)
          end;
      g ← members rest fsA dAs;
      Some (fun olds vs => match olds with old :: olds => f old vs :: g olds vs | [] => [] end)
  end.

(** Two types whose objects have the same records, as two types of one schema
    do unless their enumerations are of different sizes. *)
Definition alike (tA tB : ctype) : Prop := forall v,
  storable tA v -> storable tB v /\ bytes tA v = bytes tB v.

Fixpoint agrees (tB tA : ctype) (dA : value) {struct tB} : Prop :=
  if same tA dA tB then alike tA tB
  else
    match tB, tA with
    | TObject fsB, TObject fsA => agrees_fields fsB fsA (members_of dA)
    | TVector b, TVector a | TArray _ b, TArray _ a | TOptional b, TOptional a => agrees b a (default a)
    | _, _ => True
    end
with agrees_fields (fsB fsA : fields) (dAs : list value) {struct fsB} : Prop :=
  match fsB with
  | FNil => True
  | FCons name b _ rest =>
      match field_named name fsA dAs with
      | None => True
      | Some (_, a, d) => agrees b a d
      end /\ agrees_fields rest fsA dAs
  end.
End specification.

(** ** Maps of strings *)
Lemma find_insert {A} key k (x : A) m :
  find key (insert k x m) =
  match find key m with
  | Some y => Some y
  | None => if bool_decide (k = key) then Some x else None
  end.
Proof.
  assert (Happ : forall m', find key (m ++ m') = match find key m with Some y => Some y | None => find key m' end).
  { intros m'. induction m as [|[k' y] m IH]; [done|]. cbn [app find]. by case_bool_decide. }
  unfold insert. destruct (find k m) eqn:E.
  - case_bool_decide; [subst; by rewrite E|by destruct (find key m)].
  - rewrite Happ. cbn [find]. by case_bool_decide.
Qed.

Section lemmas.
Context `{BoostTimeLaws} (indeterminate : ctype -> value) (emit : bool).

Lemma Write_schema t :
  wf_type t -> describable t ->
  BinarySchemaArchive.Write true t = Done (schema_bytes true t (default t)).
Proof.
  intros Hw Hd. pose proof (default_storable t Hw) as Hs.
  pose proof (VisitType_emits (S := FastOStringStream.vector) true t (default t) Hw Hd Hs) as Hem.
  destruct (Hem FastOStringStream.empty FastOStringStream.ok_empty eq_refl) as (w & E & _ & O & _).
  unfold BinarySchemaArchive.Write. rewrite E. cbn. f_equal. exact O.
Qed.

Lemma Element_reads {S} `{ReadStreamLaws S} t name d v :
  wf_type t -> storable t d -> storable t v -> zlen (bytes t v) <= max_size ->
  reads (S := S) (Element_Read (element_of emit name t d)) (bytes t v) (bytes t v).
Proof.
  intros Hw Hd Hv Hl s tail Vs R.
  destruct (skips_recorded (Element_Ignore (element_of emit name t d)) (bytes t v))
    with (s := s) (tail := tail) as (r & Er & Sr & Vr & Rr); [|done|done|].
  - intros orig. by apply (Ignore_skips emit t name d v).
  - exists (RecordingStream.istr r). unfold Element_Read. by rewrite Er, bind_done, Sr.
Qed.

(** ** The fields of a class *)
Lemma find_elements key fs : forall ds acc,
  find key (fold_left (fun m f => insert (field_name f) (element f) m) (fields_of emit fs ds) acc) =
  match find key acc with
  | Some e => Some e
  | None => (fun '(_, t, d) => element_of emit key t d) <$> field_named key fs ds
  end.
Proof.
  induction fs as [|n t initial rest IH]; intros ds acc;
    [change (fields_of emit FNil ds) with (@nil Field); cbn [fold_left]; by destruct (find key acc)|].
  destruct ds as [|d ds];
    [change (fields_of emit _ []) with (@nil Field); cbn [fold_left]; by destruct (find key acc)|].
  rewrite fields_of_cons. cbn [fold_left].
  rewrite IH. cbn [field_name element]. rewrite find_insert. cbn [field_named].
  destruct (find key acc); [done|]. case_bool_decide as E; [by rewrite E|].
  by destruct (field_named key rest ds) as [[[i a] d']|].
Qed.

Lemma field_named_spec key fs : forall ds i t d,
  field_named key fs ds = Some (i, t, d) -> wf_fields fs -> storable_fields fs ds ->
  wf_type t /\ storable t d /\
  forall vs, storable_fields fs vs -> exists v, vs !! i = Some v /\ storable t v /\
    zlen (bytes t v) <= zlen (fields_bytes fs vs).
Proof.
  induction fs as [|n t' initial rest IH]; intros [|d' ds] i t d E Hw Hd; try done.
  destruct Hw as (Hw & _ & Hws), Hd as [Hd Hds]. cbn [field_named] in E.
  assert (Hlen : forall v vs, zlen (fields_bytes (FCons n t' initial rest) (v :: vs)) =
    zlen (bytes t' v) + zlen (fields_bytes rest vs)) by (intros; by rewrite fields_bytes_cons, zlen_app).
  case_bool_decide.
  - injection E as <- <- <-. split_and!; [done..|]. intros [|v vs] Hv; [done|]. destruct Hv as [Hv Hvs].
    exists v. split_and!; [done..|]. rewrite Hlen. pose proof (zlen_nonneg (fields_bytes rest vs)). lia.
  - destruct (field_named key rest ds) as [[[j a] d1]|] eqn:En; [|done]. cbn in E. injection E as <- <- <-.
    destruct (IH ds j a d1 En Hws Hds) as (? & ? & Hv). split_and!; [done..|].
    intros [|v vs] Hvs; [done|]. destruct Hvs as [_ Hvs]. destruct (Hv vs Hvs) as (w & E & ? & ?).
    exists w. split_and!; [done..|]. rewrite Hlen. pose proof (zlen_nonneg (bytes t' v)). lia.
Qed.

(** The data of the fields, by name. *)
Definition data_of (fs : fields) (ds vs : list value) (key : list byte) : option (list byte) :=
  '(i, t, _) ← field_named key fs ds; bytes t <$> vs !! i.

Lemma ReadFieldData_reads {S} `{ReadStreamLaws S} fs : forall ds vs acc,
  wf_fields fs -> storable_fields fs ds -> storable_fields fs vs -> zlen (fields_bytes fs vs) <= max_size ->
  exists data,
    (forall key, find key data = match find key acc with Some d => Some d | None => data_of fs ds vs key end) /\
    reads (S := S) (ReadFieldData (fields_of emit fs ds) acc) (fields_bytes fs vs) data.
Proof.
  induction fs as [|n t initial rest IH]; intros [|d ds] [|v vs] acc Hw Hd Hv Hl; try done.
  - exists acc. split; [intros key; by destruct (find key acc)|]. apply reads_ret.
  - destruct Hw as (Hw & _ & Hws), Hd as [Hd Hds], Hv as [Hv Hvs].
    rewrite fields_bytes_cons, fields_of_cons in *. rewrite zlen_app in Hl.
    pose proof (zlen_nonneg (bytes t v)). pose proof (zlen_nonneg (fields_bytes rest vs)).
    destruct (IH ds vs (insert n (bytes t v) acc) Hws Hds Hvs ltac:(lia)) as (data & Hf & Hr).
    exists data. split.
    + intros key. rewrite Hf, find_insert. destruct (find key acc); [done|].
      unfold data_of. cbn [field_named]. case_bool_decide; [done|].
      by destruct (field_named key rest ds) as [[[i a] d']|].
    + refine (reads_bind _ _ _ _ _ _ (Element_reads t n d v Hw Hd Hv ltac:(lia)) Hr).
Qed.

(** ** Making and reading *)

(** What [mapping] says is what the reader [m] makes of a record. *)
Definition serves (tB tA : ctype) (dA : value) (m : outcome Reader)
    (o : option (value -> value -> value)) : Prop :=
  match o with
  | None => m = Faulted (Exception kTypeMismatch)
  | Some f => exists r, m = Done r /\
      (agrees emit tB tA dA -> forall vA old,
        storable tA vA -> storable tB old -> clear tB old -> zlen (bytes tA vA) <= max_size ->
        forall S (HS : ReadStream S) (HL : ReadStreamLaws S),
          reads (S := S) (Read indeterminate tB r old) (bytes tA vA) (f old vA))
  end.

Definition maps (tB : ctype) : Prop := forall tA dA name,
  wf_type tB -> describable tB -> plain tB -> distinct tB -> wf_type tA -> storable tA dA ->
  serves tB tA dA (make tB (element_of emit name tA dA)) (mapping indeterminate emit tB tA dA).

Lemma binary_schema_of name t d : binary_schema (element_of emit name t d) = schema_bytes emit t d.
Proof. by destruct t. Qed.

(** The type of an element is that of the class, so that a container meets
    a container of its kind. *)
Definition kind_of (t : ctype) : nat :=
  match t with
  | TObject _ => 1 | TVector _ => 2 | TArray _ _ => 3 | TOptional _ => 4 | TEnum _ _ _ => 5 | _ => 0
  end.

Lemma matches_kind tB name tA dA :
  type_matches tB (element_of emit name tA dA) =
  negb (Nat.eqb (kind_of tB) 0) && Nat.eqb (kind_of tB) (kind_of tA).
Proof. destruct tB, tA; try reflexivity; cbn; by case_match. Qed.

Lemma maps_same tB tA dA m :
  wf_type tB -> plain tB -> same emit tA dA tB = true -> m = Done SchemasSame ->
  serves tB tA dA m (Some (fun _ v => v)).
Proof.
  intros Hw Hp Hs ->. exists SchemasSame. split; [done|]. intros Ha vA old Hv Ho Hc _ S HS HL s tail Vs R.
  assert (Hal : alike tA tB) by (destruct tB; cbn [agrees] in Ha; by rewrite Hs in Ha).
  destruct (Hal vA Hv) as [Hv' Eb]. rewrite Eb in R.
  destruct (Visit_reads tB vA old Hw Hv' Ho s tail Vs R) as (s' & E & V & R').
  rewrite merge_clear in E by done. exists s'.
  assert (Er : Read indeterminate tB SchemasSame old s =
    ('(v, _, s) ← BinaryReadArchive.Visit tB old false s; Done (v, s))) by by destruct tB.
  by rewrite Er, E.
Qed.

(** The constructor past the comparison of schemas. *)
Definition make_inner (t : ctype) (e : Element) : outcome Reader :=
  match t with
  | TObject fs =>
      readers ← SetupReaders fs (element_map (element_fields e)) [];
      Done (Mapped (element_fields e) readers)
  | TVector t => c ← child_at e 0; r ← make t c; Done (Container (Some r))
  | TArray n t =>
      if negb (n =? array_size e) then Faulted (Exception kTypeMismatch)
      else c ← child_at e 0; r ← make t c; Done (Container (Some r))
  | TOptional t =>
      differs ← optional_differs e;
      if (differs : bool) then Faulted (Exception kTypeMismatch)
      else c ← child_at e 1; r ← make t c; Done (Container (Some r))
  | _ => Done (Container None)
  end.

Lemma make_step tB tA dA name :
  wf_type tB -> describable tB ->
  make tB (element_of emit name tA dA) =
  if same emit tA dA tB then Done SchemasSame
  else if negb (type_matches tB (element_of emit name tA dA)) then Faulted (Exception kTypeMismatch)
  else make_inner tB (element_of emit name tA dA).
Proof.
  intros Hw Hd. pose proof (Write_schema tB Hw Hd) as E.
  destruct tB; cbn [make]; rewrite E, bind_done, binary_schema_of; unfold same; by case_bool_decide.
Qed.

(** So it is enough to look at containers of one kind whose schemas differ. *)
Lemma maps_step tB :
  (forall tA dA name, wf_type tB -> describable tB -> plain tB -> distinct tB -> wf_type tA -> storable tA dA ->
    same emit tA dA tB = false -> kind_of tA = kind_of tB -> kind_of tB <> 0%nat ->
    serves tB tA dA (make_inner tB (element_of emit name tA dA)) (mapping indeterminate emit tB tA dA)) ->
  maps tB.
Proof.
  intros Hin tA dA name Hw Hd Hp Hn HwA HdA. rewrite make_step by done.
  destruct (same emit tA dA tB) eqn:Es.
  - replace (mapping indeterminate emit tB tA dA) with (Some (fun _ v : value => v))
      by (destruct tB; cbn [mapping]; by rewrite Es). by apply maps_same.
  - rewrite matches_kind. destruct (Nat.eqb_spec (kind_of tB) 0) as [E0|E0]; cbn [negb andb].
    { replace (mapping indeterminate emit tB tA dA) with (@None (value -> value -> value)); [done|].
      destruct tB; try done; cbn [mapping]; by rewrite Es. }
    destruct (Nat.eqb_spec (kind_of tB) (kind_of tA)) as [Ek|Ek]; cbn [negb]; [by apply Hin|].
    replace (mapping indeterminate emit tB tA dA) with (@None (value -> value -> value)); [done|].
    destruct tB; try done; cbn [mapping]; rewrite Es; by destruct tA.
Qed.

(** ** Containers *)

(** An object of type [b] is read as [f] says from the record of one of [a]. *)
Definition converts (b a : ctype) (r : Reader) (f : value -> value -> value) : Prop := forall v old,
  storable a v -> storable b old -> clear b old -> zlen (bytes a v) <= max_size ->
  forall S (HS : ReadStream S) (HL : ReadStreamLaws S),
    reads (S := S) (Read indeterminate b r old) (bytes a v) (f old v).

Lemma items_convert {S} `{ReadStreamLaws S} b a r f vs : forall olds,
  converts b a r f -> length olds = length vs ->
  Forall (storable a) vs -> Forall (storable b) olds -> Forall (clear b) olds ->
  zlen (concat (map (bytes a) vs)) <= max_size ->
  reads (S := S) (ReadItems (Read indeterminate b r) olds) (concat (map (bytes a) vs)) (zip_with f olds vs).
Proof.
  induction vs as [|v vs IH]; intros [|old olds] Hc Hl Hv Ho Hk Hz; try done; [apply reads_ret|].
  apply Forall_cons_1 in Hv as [Hv Hvs], Ho as [Ho Hos], Hk as [Hk Hks].
  cbn [map concat zip_with] in *. rewrite zlen_app in Hz.
  pose proof (zlen_nonneg (bytes a v)). pose proof (zlen_nonneg (concat (map (bytes a) vs))).
  refine (reads_bind _ _ _ _ _ _ (Hc v old Hv Ho Hk ltac:(lia) S _ _) _).
  apply reads_done. apply IH; try done; [simpl in Hl; lia|lia].
Qed.

Lemma resized_ok b n olds :
  wf_type b -> plain b -> 0 <= n -> Forall (storable b) olds -> Forall (clear b) olds ->
  zlen (resized b n olds) = n /\ Forall (storable b) (resized b n olds) /\ Forall (clear b) (resized b n olds).
Proof.
  intros Hw Hp Hn Ho Hc. unfold resized. split_and!.
  - rewrite zlen_app, zlen_take, zlen_replicate by done. pose proof (zlen_nonneg olds). lia.
  - apply Forall_app. split; [by apply Forall_ztake|]. by apply Forall_replicate, default_storable.
  - apply Forall_app. split; [by apply Forall_ztake|]. by apply Forall_replicate, clear_default.
Qed.

Lemma serves_container tB tA dA b a (m : outcome Element) (o : option (value -> value -> value)) wrap name d :
  m = Done (element_of emit name a d) ->
  (agrees emit tB tA dA -> agrees emit b a d) ->
  serves b a d (make b (element_of emit name a d)) o ->
  (forall r f, converts b a r f -> converts tB tA (Container (Some r)) (wrap f)) ->
  serves tB tA dA (c ← m; r ← make b c; Done (Container (Some r))) (f ← o; Some (wrap f)).
Proof.
  intros -> Ha Hs Hw. rewrite bind_done. destruct o as [f|]; cbn in *.
  - destruct Hs as (r & -> & Hr). rewrite bind_done. exists (Container (Some r)). split; [done|].
    intros Hag. apply Hw. intros v old ????. by apply Hr; [apply Ha|..].
  - by rewrite Hs.
Qed.

Lemma convert_vector b a r f :
  wf_type b -> plain b -> converts b a r f ->
  converts (TVector b) (TVector a) (Container (Some r))
    (fun old v => VList (zip_with f (resized b (zlen (items_of v)) (items_of old)) (items_of v))).
Proof.
  intros Hw Hp Hc v old Hv Ho Hk Hl S HS HL. destruct v as [| | | | | |vs| | |]; try (by destruct Hv).
  destruct old as [| | | | | |olds| | |]; try (by destruct Ho).
  destruct Hv as [Hz Hv], Ho as [_ Ho]. cbn [bytes items_of] in *. rewrite zlen_app in Hl.
  pose proof (zlen_nonneg (vbytes (zlen vs))). pose proof (zlen_nonneg vs).
  destruct (resized_ok b (zlen vs) olds) as (Hrl & Hro & Hrc); try done.
  refine (reads_bind _ _ _ _ (zlen vs) _ (reads_size (zlen vs) _) _); [by apply (zlen_u64 _ max_size)|].
  intros s tail Vs R. rewrite vector_resize_done by done. rewrite bind_done. fold (resized b (zlen vs) olds).
  refine (reads_done _ VList _ _ (items_convert b a r f vs _ Hc _ Hv Hro Hrc _) s tail Vs R); [|lia].
  apply Nat2Z.inj. exact Hrl.
Qed.

Lemma convert_array n b a r f :
  converts b a r f ->
  converts (TArray n b) (TArray n a) (Container (Some r))
    (fun old v => VList (zip_with f (items_of old) (items_of v))).
Proof.
  intros Hc v old Hv Ho Hk Hl S HS HL. destruct v as [| | | | | |vs| | |]; try (by destruct Hv).
  destruct old as [| | | | | |olds| | |]; try (by destruct Ho).
  destruct Hv as [Hz Hv], Ho as [Hzo Ho]. cbn [bytes items_of] in *.
  refine (reads_done _ VList _ _ (items_convert b a r f vs olds Hc _ Hv Ho Hk Hl)).
  apply Nat2Z.inj. by rewrite <- Hz in Hzo.
Qed.

Context (Hind : forall t, wf_type t -> storable t (indeterminate t)).

Lemma declared_ok t : wf_type t -> plain t ->
  storable t (declared indeterminate t) /\ clear t (declared indeterminate t).
Proof.
  induction t using ctype_mut with (P0 := fun fs => True); try done; intros Hw Hp;
    try (split; [by apply default_storable|by apply clear_default]);
    try (split; [by apply (Hind (TInt size))||by apply (Hind (TUInt size))||by apply (Hind (TFloat size))
                  ||by apply (Hind TBool)||by apply (Hind (TEnum is_signed size items))|done]).
  destruct Hw as [Hn Hw]. destruct (IHt Hw Hp) as [Hs Hc]. cbn [declared storable clear]. split_and!.
  - rewrite zlen_replicate. unfold in_u in Hn. lia.
  - by apply Forall_replicate.
  - by apply Forall_replicate.
Qed.

Lemma convert_optional b a r f :
  wf_type b -> plain b -> converts b a r f ->
  converts (TOptional b) (TOptional a) (Container (Some r))
    (fun _ v => match v with VSome v => VSome (f (declared indeterminate b) v) | _ => VNone end).
Proof.
  intros Hw Hp Hc v old Hv _ _ Hl S HS HL. destruct (declared_ok b Hw Hp) as [Hs Hk].
  destruct v as [| | | | | | | |v|]; try (by destruct Hv); cbn [bytes] in *.
  - rewrite <- (app_nil_r (vbytes 0)).
    refine (reads_bind _ _ _ _ (Some 0) _ (reads_ReadVaruint 0 _) _); [done|].
    rewrite bool_decide_true by done. apply reads_ret.
  - rewrite zlen_app in Hl. pose proof (zlen_nonneg (vbytes 1)).
    refine (reads_bind _ _ _ _ (Some 1) _ (reads_ReadVaruint 1 _) _); [done|].
    rewrite bool_decide_false by done.
    refine (reads_done _ VSome _ _ (Hc v _ _ _ _ _ S _ _)); try done. lia.
Qed.

Lemma convert_enum sgB nB itemsB sgA nA itemsA :
  converts (TEnum sgB nB itemsB) (TEnum sgA nA itemsA) (Container None)
    (fun _ v => match v with VInt z => VInt (enum_cast sgB nB (u64 z)) | v => v end).
Proof.
  intros v old Hv _ _ _ S HS HL. destruct v; try (by destruct Hv). cbn [bytes].
  refine (reads_done _ (fun z => VInt (enum_cast sgB nB z)) _ _ (reads_size (u64 z) _)). apply u64_range.
Qed.

Lemma maps_vector b : maps b -> maps (TVector b).
Proof.
  intros IH. apply maps_step. intros tA dA name Hw Hd Hp Hn HwA HdA Es Ek _. destruct tA as [| | | | | | | | |a| | |]; try done.
  cbn [mapping]. rewrite Es.
  refine (serves_container _ _ _ b a _ _ (fun f old v => VList (zip_with f (resized b (zlen (items_of v)) (items_of old)) (items_of v)))
    name (default a) _ _ _ _); [done| | |].
  - intros Ha. cbn [agrees] in Ha. by rewrite Es in Ha.
  - apply IH; try done; [apply Hd|by apply default_storable].
  - intros r f. by apply convert_vector.
Qed.

Lemma maps_array n b : maps b -> maps (TArray n b).
Proof.
  intros IH. apply maps_step. intros tA dA name Hw Hd Hp Hn HwA HdA Es Ek _. destruct tA as [| | | | | | | | | |m a| |]; try done.
  destruct Hw as [Hr Hw], HwA as [HrA HwA]. cbn [mapping make_inner]. rewrite Es.
  change (array_size (element_of emit name (TArray m a) dA)) with m.
  destruct (Z.eqb_spec n m) as [<-|]; [|done]. cbn [negb].
  refine (serves_container _ _ _ b a _ _ (fun f old v => VList (zip_with f (items_of old) (items_of v)))
    name (default a) _ _ _ _); [done| | |].
  - intros Ha. cbn [agrees] in Ha. by rewrite Es in Ha.
  - apply IH; try done; [apply Hd|by apply default_storable].
  - intros r f. apply convert_array.
Qed.

Lemma maps_optional b : maps b -> maps (TOptional b).
Proof.
  intros IH. apply maps_step. intros tA dA name Hw Hd Hp Hn HwA HdA Es Ek _. destruct tA as [| | | | | | | | | | |a|]; try done.
  cbn [mapping make_inner]. rewrite Es.
  change (optional_differs (element_of emit name (TOptional a) dA)) with (Done false).
  rewrite bind_done. cbv iota.
  refine (serves_container _ _ _ b a _ _
    (fun f _ v => match v with VSome v => VSome (f (declared indeterminate b) v) | _ => VNone end)
    name (default a) _ _ _ _); [done| | |].
  - intros Ha. cbn [agrees] in Ha. by rewrite Es in Ha.
  - apply IH; try done; [apply Hd|by apply default_storable].
  - intros r f. by apply convert_optional.
Qed.

Lemma maps_enum sg n items : maps (TEnum sg n items).
Proof.
  apply maps_step. intros tA dA name Hw Hd Hp Hn HwA HdA Es Ek _. destruct tA; try done.
  cbn [mapping make_inner]. rewrite Es. exists (Container None). split; [done|].
  intros _ v old. apply convert_enum.
Qed.

(** ** Classes *)

(** The readers of the members, and what they read from the data of the
    fields. *)
Definition serves_members (fsB fsA : fields) (dAs : list value) (acc : list (list byte * Reader))
    (m : outcome (list (list byte * Reader))) (o : option (list value -> list value -> list value)) : Prop :=
  match o with
  | None => m = Faulted (Exception kTypeMismatch)
  | Some g => exists readers, m = Done readers /\
      (forall key, key ∉ names fsB -> find key readers = find key acc) /\
      (agrees_fields emit fsB fsA dAs -> forall vs olds data,
        storable_fields fsA vs -> storable_fields fsB olds -> clear_fields fsB olds ->
        zlen (fields_bytes fsA vs) <= max_size ->
        (forall key, find key data = data_of fsA dAs vs key) ->
        ReadMembers indeterminate fsB data readers olds = Done (g olds vs))
  end.

Definition maps_fields (fsB : fields) : Prop := forall fsA dAs acc,
  wf_fields fsB -> describable_fields fsB -> plain_fields fsB -> NoDup (names fsB) -> distinct_fields fsB ->
  wf_fields fsA -> storable_fields fsA dAs -> (forall key, key ∈ names fsB -> find key acc = None) ->
  serves_members fsB fsA dAs acc (SetupReaders fsB (element_map (fields_of emit fsA dAs)) acc)
    (members indeterminate emit fsB fsA dAs).

Lemma converts_data b a r f v old :
  converts b a r f -> storable a v -> storable b old -> clear b old -> zlen (bytes a v) <= max_size ->
  exists s, Read indeterminate b r old (BufferReadStream.make (bytes a v)) = Done (f old v, s).
Proof.
  intros Hc Hv Ho Hk Hl.
  destruct (Hc v old Hv Ho Hk Hl BufferReadStream.t _ BufferReadStream.read_laws
    (BufferReadStream.make (bytes a v)) []) as (s & E & _); [apply BufferReadStream.brs_ok_make|by rewrite app_nil_r|].
  by exists s.
Qed.

Lemma ReadMembers_cons name b initial rest old olds data readers :
  ReadMembers indeterminate (FCons name b initial rest) data readers (old :: olds) =
  (member ← match find name readers, find name data with
            | Some r, Some d => '(v, _) ← Read indeterminate b r old (BufferReadStream.make d); Done v
            | _, _ => Done old
            end;
   members ← ReadMembers indeterminate rest data readers olds;
   Done (member :: members)).
Proof. reflexivity. Qed.

Lemma members_cons name b initial rest fsA dAs :
  members indeterminate emit (FCons name b initial rest) fsA dAs =
  (f ← match field_named name fsA dAs with
       | None => Some (fun old _ => old)
       | Some (i, a, d) =>
           f ← mapping indeterminate emit b a d;
           Some (fun old vs => match vs !! i with Some v => f old v | None => old end)
       end;
   g ← members indeterminate emit rest fsA dAs;
   Some (fun olds vs => match olds with old :: olds => f old vs :: g olds vs | [] => [] end)).
Proof. reflexivity. Qed.

Lemma SetupReaders_cons name b initial rest elements readers :
  SetupReaders (FCons name b initial rest) elements readers =
  match find name elements with
  | None => SetupReaders rest elements readers
  | Some e => r ← make b e; SetupReaders rest elements (insert name r readers)
  end.
Proof. reflexivity. Qed.

Lemma maps_member name b initial rest : maps b -> maps_fields rest -> maps_fields (FCons name b initial rest).
Proof.
  intros Hb Hrest fsA dAs acc (Hw & _ & Hws) (_ & Hd & Hds) (Hp & _ & Hps) Hnd [Hn Hns] HwA HdA Hacc.
  cbn [names] in *. apply list.NoDup_cons in Hnd as [Hni Hnd].
  rewrite SetupReaders_cons, members_cons.
  unfold element_map at 1. rewrite find_elements. change (find name (@nil (list byte * Element))) with (@None Element).
  cbv iota. destruct (field_named name fsA dAs) as [[[i a] d]|] eqn:En; cbn [fmap option_fmap option_map].
  - destruct (field_named_spec _ _ _ _ _ _ En HwA HdA) as (Hwa & Hsa & Hv).
    pose proof (Hb a d name Hw Hd Hp Hn Hwa Hsa) as Hm.
    destruct (mapping indeterminate emit b a d) as [f|]; cbn [serves mbind option_bind] in *; [|by rewrite Hm].
    destruct Hm as (r & -> & Hr). rewrite bind_done.
    assert (Hin : forall key, find key (insert name r acc) =
      if bool_decide (name = key) then Some r else find key acc).
    { intros key. rewrite find_insert. case_bool_decide; [subst|by destruct (find key acc)].
      by rewrite Hacc by (by left). }
    pose proof (Hrest fsA dAs (insert name r acc) Hws Hds Hps Hnd Hns HwA HdA) as Hm.
    ospecialize (Hm _).
    { intros key Hk. rewrite Hin, bool_decide_false by (by intros ->). apply Hacc. by right. }
    destruct (members indeterminate emit rest fsA dAs) as [g|]; cbn [serves_members mbind option_bind] in *; [|done].
    destruct Hm as (readers & -> & Hf & Hread). exists readers. split; [done|]. split.
    { intros key [Hne Hni']%not_elem_of_cons. by rewrite Hf, Hin, bool_decide_false by done. }
    intros [Ha Has] vs [|old olds] data Hvs Ho Hc Hl Hdata; [done|]. rewrite En in Ha.
    destruct Ho as [Ho Hos], Hc as [Hc Hcs]. rewrite ReadMembers_cons.
    rewrite (Hf name Hni), Hin, bool_decide_true by done.
    destruct (Hv vs Hvs) as (v & Ev & Hsv & Hlv).
    assert (Edata : find name data = Some (bytes a v)) by (rewrite Hdata; unfold data_of; rewrite En; cbn; by rewrite Ev).
    rewrite Edata.
    destruct (converts_data b a r f v old) as (s & ->); [exact (Hr Ha)|done..|lia|].
    rewrite !bind_done, (Hread Has vs olds data) by done. by rewrite bind_done, Ev.
  - pose proof (Hrest fsA dAs acc Hws Hds Hps Hnd Hns HwA HdA) as Hm.
    ospecialize (Hm _); [intros key Hk; apply Hacc; by right|].
    cbn [mbind option_bind].
    destruct (members indeterminate emit rest fsA dAs) as [g|]; cbn [serves_members mbind option_bind] in *; [|done].
    destruct Hm as (readers & -> & Hf & Hread). exists readers. split; [done|]. split.
    { intros key [Hne Hni']%not_elem_of_cons. by apply Hf. }
    intros [_ Has] vs [|old olds] data Hvs Ho Hc Hl Hdata; [done|].
    destruct Ho as [Ho Hos], Hc as [Hc Hcs]. rewrite ReadMembers_cons, (Hf name Hni), Hacc by (by left).
    rewrite bind_done, (Hread Has vs olds data) by done. by rewrite bind_done.
Qed.

Lemma mapping_object fs fsA dAs :
  same emit (TObject fsA) (VObject dAs) (TObject fs) = false ->
  mapping indeterminate emit (TObject fs) (TObject fsA) (VObject dAs) =
  (f ← members indeterminate emit fs fsA dAs;
   Some (fun old v => VObject (f (members_of old) (members_of v)))).
Proof. intros Es. cbn [mapping]. by rewrite Es. Qed.

Lemma maps_object fs : maps_fields fs -> maps (TObject fs).
Proof.
  intros IH. apply maps_step. intros tA dA name Hw Hd Hp [Hnd Hn] HwA HdA Es Ek _.
  destruct tA as [| | | | | | | | | | | |fsA]; try done. destruct dA as [| | | | | | | | |dAs]; try done.
  rewrite mapping_object by done. cbn [make_inner].
  change (element_fields (element_of emit name (TObject fsA) (VObject dAs))) with (fields_of emit fsA dAs).
  cbn [members_of]. ospecialize (IH fsA dAs [] Hw Hd Hp Hnd Hn HwA HdA _); [done|].
  destruct (members indeterminate emit fs fsA dAs) as [g|]; cbn [serves serves_members mbind option_bind] in *;
    [|by rewrite IH].
  destruct IH as (readers & -> & _ & Hread). rewrite bind_done. eexists. split; [done|].
  intros Ha v old Hv Ho Hc Hl S HS HL. cbn [agrees] in Ha. rewrite Es in Ha.
  destruct v as [| | | | | | | | |vs]; try done. destruct old as [| | | | | | | | |olds]; try done.
  destruct (ReadFieldData_reads (S := S) fsA dAs vs [] HwA HdA Hv Hl) as (data & Hdata & Hr).
  cbn [bytes]. rewrite <- (app_nil_r (fields_bytes fsA vs)).
  refine (reads_bind _ _ _ _ data _ Hr _). cbn [members_of].
  intros s tail Vs R. exists s. split; [|by split].
  change ((members ← ReadMembers indeterminate fs data readers olds; Done (VObject members, s)) =
    Done (VObject (g olds vs), s)).
  by rewrite (Hread Ha vs olds data).
Qed.

Lemma all_map t : maps t.
Proof.
  induction t using ctype_mut with (P0 := maps_fields); try (by apply maps_step).
  - apply maps_enum.
  - by apply maps_vector.
  - by apply maps_array.
  - by apply maps_optional.
  - by apply maps_object.
  - intros fsA dAs acc _ _ _ _ _ _ _ _. exists acc. split; [done|]. split; [done|]. by intros _ vs [|].
  - by apply maps_member.
Qed.
End lemmas.

(** ** Properties *)
Section properties.
Context `{BoostTimeLaws}.

(** The class a record is written from, and an object of it. *)
Definition written (tA : ctype) (vA : value) : Prop :=
  wf_type tA /\ describable tA /\ zlen (bytes tA (default tA)) <= max_size /\
  storable tA vA /\ zlen (bytes tA vA) <= max_size.

(** The class it is read into: a schema can be written for it, a fresh object
    has no engaged optional, and its members have names of their own. *)
Definition read_into (tB : ctype) : Prop :=
  wf_type tB /\ describable tB /\ plain tB /\ distinct tB.

(** C13: a record is read into a class other than the one it was written from as
    [mapping] says.  From the schema of the one and the class of the other the
    reader is made or, exactly when [mapping] has nothing, refused as a type
    mismatch; a reader that is made takes exactly the record off any stream and
    leaves the object that [mapping] says: a member that both sides have, by
    name, has the value that was written, converted if its type has changed,
    one that was added keeps what it had, one that was removed is passed over. *)
Theorem schema_evolution (indeterminate : ctype -> value) (emit : bool) (tA tB : ctype)
    (name : list byte) (vA : value) :
  (forall t, wf_type t -> storable t (indeterminate t)) ->
  written tA vA -> read_into tB -> agrees emit tB tA (default tA) ->
  exists schema record e,
    BinarySchemaArchive.Write emit tA = Done schema /\ BinaryWriteArchive.Write tA vA = Done record /\
    parse schema name = Done e /\
    match mapping indeterminate emit tB tA (default tA) with
    | None => make tB e = Faulted (Exception kTypeMismatch)
    | Some f => exists r, make tB e = Done r /\
        ReadData indeterminate tB r record = Done (f (declared indeterminate tB) vA) /\
        forall (R : Type) (HR : ReadStream R) (HL : ReadStreamLaws R) old (s : R) tail,
          storable tB old -> clear tB old -> rs_valid s -> rs_rest s = record ++ tail ->
          exists s', Read indeterminate tB r old s = Done (f old vA, s') /\ rs_valid s' /\ rs_rest s' = tail
    end.
Proof.
  intros Hind (HwA & HdA & HzA & HvA & HlA) (HwB & HdB & HpB & HnB) Ha.
  destruct (Write_parses emit tA name HwA HdA HzA) as (schema & Es & Ep).
  pose proof (Visit_emits (S := FastOStringStream.vector) tA vA HvA) as Hem.
  destruct (Hem FastOStringStream.empty FastOStringStream.ok_empty eq_refl) as (w & Ew & _ & Ow & _).
  exists schema, (bytes tA vA), (element_of emit name tA (default tA)). split; [done|]. split.
  { unfold BinaryWriteArchive.Write. rewrite Ew. cbn. f_equal. exact Ow. }
  split; [done|].
  pose proof (all_map indeterminate emit Hind tB tA (default tA) name HwB HdB HpB HnB HwA (default_storable tA HwA)) as Hm.
  unfold serves in Hm. destruct (mapping indeterminate emit tB tA (default tA)) as [f|]; [|exact Hm].
  destruct Hm as (r & Er & Hr). exists r. split; [done|]. specialize (Hr Ha). split.
  - destruct (declared_ok indeterminate Hind tB HwB HpB) as [Hs Hc].
    destruct (converts_data indeterminate tB tA r f vA (declared indeterminate tB) Hr HvA Hs Hc HlA) as (s & E).
    unfold ReadData. by rewrite E.
  - intros R HR HL old s tail Ho Hc Vs Rs. by apply (Hr vA old HvA Ho Hc HlA R HR HL s tail).
Qed.

(** A union of two types neither of which is null is taken for an optional
    of the second: an index of 0 leaves no object, and the record of the first
    type is left on the stream, in front of whatever follows. *)
Theorem union_taken_for_optional (indeterminate : ctype -> value) (a b : byte) :
  exists e r,
    parse (SchemaTheory.code kUnion ++ SchemaTheory.code kFixedUInt ++ [byte.of_Z 1] ++
           SchemaTheory.code kFixedUInt ++ [byte.of_Z 1] ++ SchemaTheory.code kFinal) [] = Done e /\
    make (TOptional (TUInt 1)) e = Done r /\
    (BufferReadStream.rest <$> Element_Ignore e (BufferReadStream.make [byte.of_Z 0; a; b])) = Done [b] /\
    exists s, Read indeterminate (TOptional (TUInt 1)) r VNone (BufferReadStream.make [byte.of_Z 0; a; b]) =
      Done (VNone, s) /\ BufferReadStream.rest s = [a; b].
Proof.
  eexists _, _. split; [vm_compute; reflexivity|]. split; [vm_compute; reflexivity|]. split; [by vm_compute|].
  eexists. split; [vm_compute; reflexivity|by vm_compute].
Qed.
End properties.

(** ** An example: a member is moved, one is added, one removed *)
Lemma alike_refl `{BoostTime} t : alike t t.
Proof. by intros v Hv. Qed.

Lemma agrees_same `{BoostTime} emit tB tA dA : same emit tA dA tB = true -> alike tA tB -> agrees emit tB tA dA.
Proof. intros Es Ha. destruct tB; cbn [agrees]; by rewrite Es. Qed.

Lemma agrees_object `{BoostTime} emit fsB fsA dAs :
  same emit (TObject fsA) (VObject dAs) (TObject fsB) = false -> agrees_fields emit fsB fsA dAs ->
  agrees emit (TObject fsB) (TObject fsA) (VObject dAs).
Proof. intros Es Ha. cbn [agrees]. by rewrite Es. Qed.

Definition named (z : Z) : list byte := [byte.of_Z z].
Definition sub_class : ctype := TObject (FCons (named 117) (TUInt 4) (VInt 3) FNil).
Definition old_class : ctype := TObject
  (FCons (named 105) (TInt 1) (VInt (-1))
  (FCons (named 103) TString (VBytes [])
  (FCons (named 111) sub_class (VObject [VInt 3]) FNil))).
Definition old_object : value := VObject [VInt (-7); VBytes (named 120); VObject [VInt 10]].
Definition new_sub_class : ctype := TObject
  (FCons (named 117) (TUInt 4) (VInt 3) (FCons (named 118) TBool (VBool true) FNil)).
Definition new_class : ctype := TObject
  (FCons (named 111) new_sub_class (VObject [VInt 3; VBool true])
  (FCons (named 105) (TInt 1) (VInt 34)
  (FCons (named 101) (TInt 4) (VInt 27) FNil))).

Lemma schema_evolution_witness :
  written old_class old_object /\ read_into new_class /\
  exists schema record e r,
    BinarySchemaArchive.Write true old_class = Done schema /\
    BinaryWriteArchive.Write old_class old_object = Done record /\
    parse schema [] = Done e /\ make new_class e = Done r /\
    ReadData default new_class r record = Done (VObject [VObject [VInt 10; VBool true]; VInt (-7); VInt 27]).
Proof.
  assert (Hw : written old_class old_object).
  { unfold written. cbn. unfold in_s, in_u, max_size, kMaxStringSize, zlen. cbn. split_and!; done || lia. }
  assert (Hr : read_into new_class).
  { unfold read_into. cbn. unfold in_s, in_u, max_size, kMaxStringSize, zlen. cbn.
    split_and!; try (done || lia); apply (bool_decide_unpack _); by vm_compute. }
  split; [exact Hw|]. split; [exact Hr|].
  refine (match schema_evolution default true old_class new_class [] old_object default_storable Hw Hr _ with
          | ex_intro _ schema (ex_intro _ record (ex_intro _ e (conj Es (conj Ew (conj Ep Hm))))) => _ end).
  - apply agrees_object; [by vm_compute|]. split; [|split; [|by split]].
    + apply agrees_object; [by vm_compute|]. split; [|by split].
      apply agrees_same; [by vm_compute|apply alike_refl].
    + apply agrees_same; [by vm_compute|apply alike_refl].
  - exists schema, record, e.
    assert (Hf : option_map (fun f => f (declared default new_class) old_object)
      (mapping default true new_class old_class (default old_class)) =
      Some (VObject [VObject [VInt 10; VBool true]; VInt (-7); VInt 27])) by by vm_compute.
    destruct (mapping default true new_class old_class (default old_class)) as [f|]; [|done].
    destruct Hm as (r & Er & Hread & _). exists r. split_and!; [done..|]. rewrite Hread. f_equal.
    by apply (inj Some).
Defined.
