(* ===== verification/MultiplexStream.v ===== *)
(** * multiplex/format.h and multiplex/stream.h

    The constants and values of the multiplex protocol, and its readers and
    writers: the generic ones, over any stream of Streams.v, and the two
    specialisations that work on a buffer through a raw pointer. *)
From S2P Require Import Prelude Varuint Streams.

(** ** multiplex/format.h *)
Module Format.

Definition kHeader : Z := 0xab54.
Definition kHeaderSize : Z := 4.
Definition kMaxVaruintSize : Z := 5.
Definition kMinVaruintSize : Z := 1.
Definition kCrcSize : Z := 2.
Definition kBroadcastId : Z := 0x7f.

Definition kWriteBase : Z := 0x00.
Definition kReadBase : Z := 0x10.
Definition kReplyBase : Z := 0x20.
Definition kWriteError : Z := 0x30.
Definition kReadError : Z := 0x31.
Definition kClientToServer : Z := 0x40.
Definition kServerToClient : Z := 0x41.
Definition kClientPollServer : Z := 0x42.
Definition kNop : Z := 0x50.

(** [std::variant<int8_t, int16_t, int32_t, float>]; a [float] is its 32-bit
    object representation. *)
Inductive Value :=
  | VInt8 (v : Z)
  | VInt16 (v : Z)
  | VInt32 (v : Z)
  | VFloat (bits : Z).

#[export] Instance Value_eq_dec : EqDecision Value.
Proof. solve_decision. Defined.

Definition index (v : Value) : Z :=
  match v with VInt8 _ => 0 | VInt16 _ => 1 | VInt32 _ => 2 | VFloat _ => 3 end.

(** The object representation of the alternative a value holds. *)
Definition value_bytes (v : Value) : list byte :=
  match v with
  | VInt8 x => le_split 1 x
  | VInt16 x => le_split 2 x
  | VInt32 x => le_split 4 x
  | VFloat x => le_split 4 x
  end.

Definition value_ok (v : Value) : Prop :=
  match v with
  | VInt8 x => in_s 8 x
  | VInt16 x => in_s 16 x
  | VInt32 x => in_s 32 x
  | VFloat x => in_u 32 x
  end.

(** The value of type [type] that a group of bytes holds. *)
Definition value_of_bytes (type : Z) (bs : list byte) : Value :=
  if type =? 0 then VInt8 (swrap 8 (le_combine bs))
  else if type =? 1 then VInt16 (swrap 16 (le_combine bs))
  else if type =? 2 then VInt32 (swrap 32 (le_combine bs))
  else VFloat (le_combine bs).

Definition type_size (type : Z) : Z :=
  if type =? 0 then 1 else if type =? 1 then 2 else 4.

(** Either a value or an error code: [std::variant<Value, uint32_t>]. *)
Inductive ReadResult := RValue (v : Value) | RError (e : Z).

#[export] Instance ReadResult_eq_dec : EqDecision ReadResult.
Proof. solve_decision. Defined.

Fixpoint GetVaruintSize_loop (fuel : nat) (value result : Z) : outcome Z :=
  match fuel with
  | O => Faulted OutOfFuel
  | S fuel =>
      let value := Z.shiftr value 7 in
      let result := result + 1 in
      if value =? 0 then Done result else GetVaruintSize_loop fuel value result
  end.

Definition GetVaruintSize (value : Z) : outcome Z := GetVaruintSize_loop 5 value 0.

End Format.
Import Format.

Definition u32_max : Z := 2 ^ 32 - 1.

(** ** class ReadStream<Base>: the generic template *)
Module GenericReader.
Section Reader.
Context {S : Type} `{ReadStream S}.

Definition RawRead (s : S) (size : Z) : outcome (option (list byte) * S) :=
  '(bs, s) ← rs_read s size;
  Done (if rs_gcount s =? size then Some bs else None, s).

Definition ReadScalar (n : nat) (s : S) : outcome (option (list byte) * S) :=
  RawRead s (Z.of_nat n).

(** The loop runs at most five times; [iters] counts what remains of them. *)
Fixpoint ReadVaruint_loop (iters : nat) (s : S) (result pos : Z) : outcome (option Z * S) :=
  match iters with
  | O => Done (Some u32_max, s)
  | Datatypes.S iters =>
      '(maybe_this_byte, s) ← ReadScalar 1 s;
      match maybe_this_byte with
      | None => Done (None, s)
      | Some bs =>
          let this_byte := le_combine bs in
          let result := Z.lor result (u32 (Z.shiftl (Z.land this_byte 0x7f) pos)) in
          if Z.land this_byte 0x80 =? 0 then Done (Some result, s)
          else ReadVaruint_loop iters s result (pos + 7)
      end
  end.

Definition ReadVaruint (s : S) : outcome (option Z * S) := ReadVaruint_loop 5 s 0 0.
End Reader.
End GenericReader.

(** ** class WriteStream<Base>: the generic template *)
Module GenericWriter.
Section Writer.
Context {S : Type} `{WriteStream S}.

Definition WriteScalar (n : nat) (s : S) (value : Z) : outcome S :=
  ws_write s (le_split n value).

Fixpoint WriteVaruint_loop (fuel : nat) (s : S) (value : Z) : outcome S :=
  match fuel with
  | O => Faulted OutOfFuel
  | Datatypes.S fuel =>
      let this_byte := Z.land value 0x7f in
      let value := Z.shiftr value 7 in
      let this_byte := Z.lor this_byte (if value =? 0 then 0x00 else 0x80) in
      s ← WriteScalar 1 s this_byte;
      if value =? 0 then Done s else WriteVaruint_loop fuel s value
  end.

(** The parameter is a [uint32_t]: a wider argument is converted. *)
Definition WriteVaruint (s : S) (value : Z) : outcome S := WriteVaruint_loop 5 s (u32 value).
End Writer.
End GenericWriter.

(** ** The specialisation ReadStream<base::BufferReadStream> *)
Module BufferReader.
Import BufferReadStream.

(** [i] iterations done, [position] the index of the next byte and
    [remaining] the bytes left; the stream is only advanced on the way out. *)
Fixpoint ReadVaruint_loop (iters : nat) (s : t) (i result pos position remaining : Z)
    : outcome (option Z * t) :=
  match iters with
  | O => Done (Some u32_max, fast_ignore s i)
  | S iters =>
      if remaining =? 0 then Done (None, fast_ignore s i)
      else
        bs ← load (buffer s) position 1;
        let this_byte := le_combine bs in
        let result := Z.lor result (u32 (Z.shiftl (Z.land this_byte 0x7f) pos)) in
        if Z.land this_byte 0x80 =? 0 then Done (Some result, fast_ignore s (i + 1))
        else ReadVaruint_loop iters s (i + 1) result (pos + 7) (position + 1) (remaining - 1)
  end.

Definition ReadVaruint (s : t) : outcome (option Z * t) :=
  ReadVaruint_loop 5 s 0 0 0 (offset s) (remaining s).

Definition ReadScalar (n : nat) (s : t) : outcome (option (list byte) * t) :=
  if remaining s <? Z.of_nat n then Done (None, s)
  else
    bs ← load (buffer s) (offset s) (Z.of_nat n);
    Done (Some bs, fast_ignore s (Z.of_nat n)).
End BufferReader.

(** ** The specialisation WriteStream<base::BufferWriteStream>

    Both write through [position()] with no bounds check: a store outside the
    buffer is undefined behaviour. *)
Module BufferWriter.
Import BufferWriteStream.

Fixpoint WriteVaruint_loop (fuel : nat) (b : list byte) (position value : Z)
    : outcome (list byte * Z) :=
  match fuel with
  | O => Faulted OutOfFuel
  | S fuel =>
      let this_byte := Z.land value 0x7f in
      let value := Z.shiftr value 7 in
      let this_byte := Z.lor this_byte (if value =? 0 then 0x00 else 0x80) in
      b ← store b position [byte.of_Z this_byte];
      let position := position + 1 in
      if value =? 0 then Done (b, position) else WriteVaruint_loop fuel b position value
  end.

Definition WriteVaruint (s : t) (value : Z) : outcome t :=
  '(b, position) ← WriteVaruint_loop 5 (buffer s) (offset s) (u32 value);
  Done (skip {| buffer := b; offset := offset s |} (position - offset s)).

Definition WriteBytes (s : t) (data : list byte) : outcome t :=
  s ← poke s data;
  Done (skip s (zlen data)).

Definition WriteScalar (n : nat) (s : t) (value : Z) : outcome t :=
  WriteBytes s (le_split n value).

(** [response->Write(actual_value)] under [std::visit]. *)
Definition WriteValue (s : t) (v : Value) : outcome t := WriteBytes s (value_bytes v).
End BufferWriter.

(** ** What reading a varuint means

    The reference both readers are proved against: at most five bytes, the
    sum taken modulo [2^32], and the largest [uint32_t] when the fifth byte
    still continues. *)
Fixpoint varuint_ref (iters : nat) (l : list byte) (acc pos : Z) : option Z * list byte :=
  match iters with
  | O => (Some u32_max, l)
  | S iters =>
      match l with
      | [] => (None, [])
      | b :: t =>
          let acc := u32 (acc + payload7 b * 2 ^ pos) in
          if continues b then varuint_ref iters t acc (pos + 7) else (Some acc, t)
      end
  end.

Definition read_varuint_ref (l : list byte) : option Z * list byte := varuint_ref 5 l 0 0.

Lemma varuint_ref_suffix n l acc pos :
  exists d, l = d ++ (varuint_ref n l acc pos).2.
Proof.
  revert l acc pos; induction n as [|n IH]; intros l acc pos; [by exists []|].
  cbn [varuint_ref]. destruct l as [|b t]; [by exists []|].
  case_match; [|by exists [b]]. destruct (IH t (u32 (acc + payload7 b * 2 ^ pos)) (pos + 7)) as [d E].
  exists (b :: d). simpl. by f_equal.
Qed.

Lemma varuint_ref_wf n bs tail acc pos :
  vu_wf bs = true -> (length bs <= n)%nat -> 0 <= pos ->
  varuint_ref n (bs ++ tail) acc pos = (Some (u32 (acc + 2 ^ pos * vu_value bs)), tail).
Proof.
  revert bs acc pos; induction n as [|n IH]; intros bs acc pos Hw Hl Hp;
    [destruct bs; [done|simpl in Hl; lia]|].
  destruct bs as [|b t]; [done|]. rewrite vu_wf_cons in Hw. cbn [varuint_ref app].
  simpl in Hl. destruct (continues b).
  - rewrite IH by (done || lia). do 2 f_equal. unfold uwrap.
    rewrite Zplus_mod_idemp_l. f_equal. cbn [vu_value].
    rewrite Z.pow_add_r by lia. change (2 ^ 7) with 128. ring.
  - destruct t; [|done]. cbn [vu_value app]. do 3 f_equal. ring.
Qed.

Lemma read_varuint_ref_wf bs tail :
  vu_wf bs = true -> zlen bs <= 5 -> read_varuint_ref (bs ++ tail) = (Some (u32 (vu_value bs)), tail).
Proof.
  intros Hw Hl. unfold read_varuint_ref. rewrite varuint_ref_wf; [|done|unfold zlen in Hl; lia|lia].
  do 2 f_equal. f_equal. lia.
Qed.

Lemma read_varuint_ref_bytes v tail :
  in_u 32 v -> read_varuint_ref (vu_bytes 5 v ++ tail) = (Some v, tail).
Proof.
  intros Hv. pose proof (u32_fuel v Hv). pose proof (vu_len_u32 v Hv).
  rewrite read_varuint_ref_wf.
  - by rewrite vu_value_bytes, uwrap_id by done.
  - apply vu_bytes_wf; [done|lia].
  - rewrite zlen_vu_bytes by (done || lia). lia.
Qed.

Lemma varuint_ref_short n l acc pos :
  Forall (fun b => continues b = true) l -> (length l < n)%nat ->
  varuint_ref n l acc pos = (None, []).
Proof.
  revert l acc pos; induction n as [|n IH]; intros l acc pos Hc Hl; [lia|].
  destruct l as [|b t]; [done|]. apply Forall_cons_1 in Hc as [Hb Hc].
  cbn [varuint_ref]. rewrite Hb. apply IH; [done|simpl in Hl; lia].
Qed.

Lemma varuint_ref_overlong n l acc pos :
  Forall (fun b => continues b = true) (take n l) -> (n <= length l)%nat ->
  varuint_ref n l acc pos = (Some u32_max, drop n l).
Proof.
  revert l acc pos; induction n as [|n IH]; intros l acc pos Hc Hl; [done|].
  destruct l as [|b t]; [simpl in Hl; lia|]. simpl in Hc, Hl.
  apply Forall_cons_1 in Hc as [Hb Hc]. cbn [varuint_ref]. rewrite Hb. apply IH; [done|lia].
Qed.

(** ** The readers implement it *)
Section generic_reader.
Import GenericReader.
Context {S : Type} `{ReadStreamLaws S}.

Lemma mux_RawRead_took s d tail :
  rs_valid s -> rs_rest s = d ++ tail ->
  exists s', RawRead s (zlen d) = Done (Some d, s') /\ rs_valid s' /\ rs_rest s' = tail.
Proof.
  intros Hv E. destruct (read_took s d tail Hv E) as (s' & R & [V _] & E' & G).
  exists s'. unfold RawRead. rewrite R, bind_done. cbn beta iota. by rewrite G, Z.eqb_refl.
Qed.

Lemma mux_RawRead_short s n :
  rs_valid s -> zlen (rs_rest s) < n ->
  exists s', RawRead s n = Done (None, s') /\ rs_valid s' /\ rs_rest s' = [].
Proof.
  intros Hv Hn. destruct (read_short s n Hv Hn) as (s' & R & V & E & G).
  exists s'. unfold RawRead. rewrite R, bind_done. cbn beta iota.
  rewrite G, (proj2 (Z.eqb_neq (zlen (rs_rest s)) n)) by lia. done.
Qed.

Lemma ReadVaruint_loop_ref n s acc pos :
  rs_valid s -> (n = 0)%nat \/ pos + 7 * (Z.of_nat n - 1) < 32 -> 0 <= pos -> 0 <= acc < 2 ^ pos ->
  exists s', ReadVaruint_loop n s acc pos = Done ((varuint_ref n (rs_rest s) acc pos).1, s') /\
    rs_valid s' /\ rs_rest s' = (varuint_ref n (rs_rest s) acc pos).2.
Proof.
  revert s acc pos; induction n as [|n IH]; intros s acc pos Hv Hn Hp Ha; [by exists s|].
  cbn [ReadVaruint_loop varuint_ref]. unfold ReadScalar. destruct (rs_rest s) as [|b t] eqn:E.
  - destruct (mux_RawRead_short s 1 Hv) as (s1 & R1 & V1 & E1); [by rewrite E|].
    change (Z.of_nat 1) with 1. rewrite R1, bind_done. eauto.
  - destruct (mux_RawRead_took s [b] t Hv E) as (s1 & R1 & V1 & E1).
    change (Z.of_nat 1) with (zlen [b]). rewrite R1, bind_done. cbn beta iota.
    rewrite le_combine_1, byte_msb. fold (payload7 b). pose proof (payload7_range b).
    rewrite lor_wrapped_shift by lia. destruct (continues b); simpl; [|by exists s1].
    destruct (IH s1 (u32 (acc + payload7 b * 2 ^ pos)) (pos + 7)) as (s2 & R2 & V2 & E2);
      [done|lia|lia|apply wrapped_shift_bound; lia|].
    rewrite E1 in R2, E2. eauto.
Qed.

Lemma ReadVaruint_ref s :
  rs_valid s ->
  exists s', ReadVaruint s = Done ((read_varuint_ref (rs_rest s)).1, s') /\
    rs_valid s' /\ rs_rest s' = (read_varuint_ref (rs_rest s)).2.
Proof. intros. apply ReadVaruint_loop_ref; [done|lia|lia|lia]. Qed.
End generic_reader.

Section buffer_reader.
Import BufferReadStream BufferReader.

Lemma load_one b i x t : zdrop i b = x :: t -> 0 <= i -> load b i 1 = Done [x].
Proof.
  intros E Hi. pose proof (zlen_nonneg t).
  assert (zlen (zdrop i b) = 1 + zlen t) as L by by rewrite E, zlen_cons.
  rewrite zlen_drop in L by lia. rewrite load_done by lia. rewrite E. done.
Qed.

Lemma rest_step (s : t) i b l :
  ok s -> 0 <= i -> rest (fast_ignore s i) = b :: l -> rest (fast_ignore s (i + 1)) = l.
Proof.
  intros Ho Hi E. rewrite rest_fast_ignore in * by (done || lia).
  rewrite <- zdrop_zdrop by lia. by rewrite E.
Qed.

Lemma ReadVaruint_loop_buffer_ref n (s : t) i acc pos :
  ok s -> 0 <= i <= remaining s -> (n = 0)%nat \/ pos + 7 * (Z.of_nat n - 1) < 32 ->
  0 <= pos -> 0 <= acc < 2 ^ pos ->
  exists k, i <= k <= remaining s /\
    ReadVaruint_loop n s i acc pos (offset s + i) (remaining s - i) =
      Done ((varuint_ref n (rest (fast_ignore s i)) acc pos).1, fast_ignore s k) /\
    rest (fast_ignore s k) = (varuint_ref n (rest (fast_ignore s i)) acc pos).2.
Proof.
  revert i acc pos; induction n as [|n IH]; intros i acc pos Ho Hi Hn Hp Ha;
    [exists i; split_and!; done || lia|].
  assert (Hr : zlen (rest (fast_ignore s i)) = remaining s - i).
  { rewrite rest_fast_ignore, zlen_drop, brs_zlen_rest by (done || lia). lia. }
  cbn [ReadVaruint_loop varuint_ref].
  destruct (rest (fast_ignore s i)) as [|b l] eqn:E.
  - rewrite <- Hr. cbn. exists i. split_and!; done || lia.
  - rewrite zlen_cons in Hr. pose proof (zlen_nonneg l).
    rewrite (proj2 (Z.eqb_neq _ 0)) by lia. unfold rest in E. simpl in E.
    rewrite (load_one _ _ _ _ E) by (unfold ok in Ho; lia). rewrite bind_done.
    rewrite le_combine_1, byte_msb. fold (payload7 b). pose proof (payload7_range b).
    rewrite lor_wrapped_shift by lia. fold (rest (fast_ignore s i)) in E.
    pose proof (rest_step s i b l Ho ltac:(lia) E) as E1.
    destruct (continues b); simpl; [|exists (i + 1); split_and!; done || lia].
    destruct (IH (i + 1) (u32 (acc + payload7 b * 2 ^ pos)) (pos + 7)) as (k & ? & R & ?);
      [done|lia|lia|lia|apply wrapped_shift_bound; lia|].
    rewrite E1 in *. exists k. split_and!; [lia|lia| |done].
    rewrite <- R. f_equal; lia.
Qed.

Lemma ReadVaruint_buffer_ref (s : t) :
  ok s -> exists k, 0 <= k <= remaining s /\
    ReadVaruint s = Done ((read_varuint_ref (rest s)).1, fast_ignore s k) /\
    rest (fast_ignore s k) = (read_varuint_ref (rest s)).2.
Proof.
  intros Ho. destruct (ReadVaruint_loop_buffer_ref 5 s 0 0 0) as (k & ? & R & E);
    [done|unfold ok, remaining in *; lia|lia|lia|lia|].
  replace (rest (fast_ignore s 0)) with (rest s) in * by
    (rewrite rest_fast_ignore by (done || lia); done).
  exists k. split_and!; [lia|lia| |done]. unfold read_varuint_ref. rewrite <- R.
  unfold ReadVaruint. f_equal; lia.
Qed.

Lemma ReadScalar_buffer (s : t) n :
  ok s ->
  ReadScalar n s =
    if remaining s <? Z.of_nat n then Done (None, s)
    else Done (Some (ztake (Z.of_nat n) (rest s)), fast_ignore s (Z.of_nat n)).
Proof.
  intros [? ?]. unfold ReadScalar. destruct (Z.ltb_spec (remaining s) (Z.of_nat n)); [done|].
  unfold remaining in *. by rewrite load_done by lia.
Qed.
End buffer_reader.

(** ** The writers *)
Section generic_writer.
Import GenericWriter.
Context {S : Type} `{WriteStreamLaws S}.

Lemma mux_WriteScalar_wrote n s v :
  ws_valid s -> ws_fits s (Z.of_nat n) = true ->
  exists s', WriteScalar n s v = Done s' /\ wrote s (le_split n v) s'.
Proof. intros. apply write_wrote; [done|]. by rewrite zlen_le_split. Qed.
End generic_writer.

(** The byte a step of the writers emits. *)
Lemma varuint_step_byte v :
  0 <= v ->
  byte.of_Z (Z.lor (Z.land v 0x7f) (if Z.shiftr v 7 =? 0 then 0x00 else 0x80)) =
  if v <? 128 then byte.of_Z v else byte.of_Z (v mod 128 + 128).
Proof.
  intros. pose proof (Z.mod_pos_bound v 128 ltac:(lia)).
  rewrite shiftr7, div128_zero, land7f by lia. destruct (Z.ltb_spec v 128).
  - by rewrite Z.lor_0_r, Z.mod_small by lia.
  - by rewrite lor80 by lia.
Qed.

Section generic_varuint.
Import GenericWriter.
Context {S : Type} `{WriteStreamLaws S}.

Lemma mux_WriteVaruint_loop_wrote fuel s v :
  0 <= v < 128 ^ Z.of_nat fuel -> (0 < fuel)%nat ->
  ws_valid s -> ws_fits s (vu_len v) = true ->
  exists s', WriteVaruint_loop fuel s v = Done s' /\ wrote s (vu_bytes fuel v) s'.
Proof.
  revert s v; induction fuel as [|n IH]; intros s v Hv Hf Hs Hfit; [lia|].
  cbn [WriteVaruint_loop vu_bytes]. pose proof (vu_len_pos v ltac:(lia)).
  destruct (mux_WriteScalar_wrote 1 s
    (Z.lor (Z.land v 0x7f) (if Z.shiftr v 7 =? 0 then 0x00 else 0x80))) as (s1 & E1 & W1);
    [done|eapply ws_fits_mono; [|exact Hfit]; lia|].
  change (le_split 1 ?z) with [byte.of_Z z] in W1. rewrite varuint_step_byte in W1 by lia.
  rewrite E1, bind_done, shiftr7, div128_zero by lia. destruct (Z.ltb_spec v 128); [eauto|].
  destruct n as [|n]; [simpl in Hv; lia|].
  destruct (IH s1 (v / 128)) as (s2 & E2 & W2); [by apply div128_bound|lia|apply W1| |].
  - rewrite vu_len_step in Hfit by lia. eapply fits_app; [exact W1| |exact Hfit].
    apply Z.le_trans with 1; [lia|apply vu_len_pos, Z.div_pos; lia].
  - rewrite E2. eexists. split; [done|]. exact (wrote_app _ [_] _ _ _ W1 W2).
Qed.

Lemma mux_WriteVaruint_wrote s v :
  in_u 32 v -> ws_valid s -> ws_fits s (vu_len v) = true ->
  exists s', WriteVaruint s v = Done s' /\ wrote s (vu_bytes 5 v) s'.
Proof.
  intros Hv Hs Hf. unfold WriteVaruint. rewrite uwrap_id by done.
  apply mux_WriteVaruint_loop_wrote; [by apply u32_fuel|lia|done..].
Qed.
End generic_varuint.

Section buffer_writer.
Import BufferWriteStream BufferWriter.

Lemma WriteBytes_store (s : t) d :
  WriteBytes s d = (b ← store (buffer s) (offset s) d;
                    Done {| buffer := b; offset := offset s + zlen d |}).
Proof. unfold WriteBytes, poke. by destruct (store (buffer s) (offset s) d). Qed.

Lemma WriteBytes_app (s : t) d e :
  WriteBytes s (d ++ e) = (s' ← WriteBytes s d; WriteBytes s' e).
Proof.
  rewrite !WriteBytes_store, store_app. destruct (store (buffer s) (offset s) d); [|done].
  rewrite !bind_done, WriteBytes_store. simpl. rewrite zlen_app, Z.add_assoc. done.
Qed.

Lemma WriteBytes_cons (s : t) x e :
  WriteBytes s (x :: e) = (s' ← WriteBytes s [x]; WriteBytes s' e).
Proof. exact (WriteBytes_app s [x] e). Qed.

(** An unchecked write is the checked one as long as it stays inside. *)
Lemma WriteBytes_checked (s : t) d :
  ok s -> WriteBytes s d = if fits s (zlen d) then write s d else Faulted Undefined.
Proof.
  intros Ho. rewrite WriteBytes_store. unfold write, fits, ok in *.
  destruct (Z.leb_spec (offset s + zlen d) (zlen (buffer s))); [done|].
  by rewrite store_oob by lia.
Qed.

Lemma WriteVaruint_loop_store fuel b position v :
  0 <= v < 128 ^ Z.of_nat fuel -> (0 < fuel)%nat ->
  WriteVaruint_loop fuel b position v =
    (b ← store b position (vu_bytes fuel v); Done (b, position + vu_len v)).
Proof.
  revert b position v; induction fuel as [|n IH]; intros b position v Hv Hf; [lia|].
  cbn [WriteVaruint_loop vu_bytes]. rewrite varuint_step_byte by lia.
  rewrite shiftr7, div128_zero by lia. destruct (Z.ltb_spec v 128).
  - by rewrite vu_len_small by lia.
  - destruct n as [|n]; [simpl in Hv; lia|].
    rewrite (store_cons b position _ (vu_bytes (S n) (v / 128))), vu_len_step by lia.
    destruct (store b position [byte.of_Z (v mod 128 + 128)]); [|done].
    rewrite !bind_done, IH by (lia || by apply div128_bound).
    by rewrite Z.add_assoc.
Qed.

Lemma WriteVaruint_bytes (s : t) v :
  WriteVaruint s v = WriteBytes s (vu_bytes 5 (u32 v)).
Proof.
  pose proof (u32_fuel _ (uwrap_range 32 v ltac:(lia))) as Hv.
  unfold WriteVaruint. rewrite WriteVaruint_loop_store by (done || lia).
  rewrite WriteBytes_store. destruct (store _ _ _); [|done]. rewrite !bind_done.
  cbn beta iota. unfold skip. cbn [buffer offset]. rewrite zlen_vu_bytes by (done || lia).
  do 2 f_equal. lia.
Qed.

(** The checked writer of the generic template, on a buffer. *)
Lemma generic_write_loop fuel (s : t) v :
  0 <= v < 128 ^ Z.of_nat fuel -> (0 < fuel)%nat -> ok s ->
  GenericWriter.WriteVaruint_loop fuel s v =
    if fits s (vu_len v) then WriteBytes s (vu_bytes fuel v) else Faulted Assertion.
Proof.
  revert s v; induction fuel as [|n IH]; intros s v Hv Hf Ho; [lia|].
  cbn [GenericWriter.WriteVaruint_loop vu_bytes]. unfold GenericWriter.WriteScalar.
  change (le_split 1 ?z) with [byte.of_Z z]. rewrite varuint_step_byte by lia.
  rewrite shiftr7, div128_zero by lia. pose proof (vu_len_pos v ltac:(lia)). cbn [ws_write write_stream].
  destruct (Z.ltb_spec v 128).
  - rewrite vu_len_small by lia. rewrite WriteBytes_checked by done. change (zlen [_]) with 1.
    destruct (fits s 1) eqn:E; [|by rewrite write_full].
    destruct (bws_write_spec s [byte.of_Z v] Ho E) as (s1 & -> & _). done.
  - destruct n as [|n]; [simpl in Hv; lia|].
    rewrite vu_len_step by lia. pose proof (vu_len_pos (v / 128) ltac:(apply Z.div_pos; lia)).
    destruct (fits s 1) eqn:E.
    + destruct (bws_write_spec s [byte.of_Z (v mod 128 + 128)] Ho E) as (s1 & E1 & O1 & _ & Z1 & P1).
      rewrite E1, bind_done, IH by (lia || done || by apply div128_bound).
      assert (fits s1 (vu_len (v / 128)) = fits s (1 + vu_len (v / 128))) as ->.
      { unfold fits. rewrite Z1, P1. change (zlen [_]) with 1. f_equal. lia. }
      destruct (fits s (1 + vu_len (v / 128))); [|done].
      rewrite (WriteBytes_cons s _ (vu_bytes (S n) (v / 128))), (WriteBytes_checked s [_]) by done.
      change (zlen [_]) with 1. by rewrite E, E1.
    + rewrite write_full by done. rewrite bind_faulted.
      assert (fits s (1 + vu_len (v / 128)) = false) as ->; [|done].
      unfold fits in *. apply Z.leb_gt in E. apply Z.leb_gt. lia.
Qed.
End buffer_writer.

Lemma mux_GetVaruintSize_loop_spec fuel v r :
  0 <= v < 128 ^ Z.of_nat fuel -> (0 < fuel)%nat ->
  Format.GetVaruintSize_loop fuel v r = Done (r + vu_len v).
Proof.
  revert v r; induction fuel as [|n IH]; intros v r Hv Hf; [lia|].
  cbn [Format.GetVaruintSize_loop]. rewrite shiftr7, div128_zero by lia.
  destruct (Z.ltb_spec v 128); [by rewrite vu_len_small by lia|].
  rewrite vu_len_step by lia. destruct n as [|n]; [simpl in Hv; lia|].
  rewrite IH by (lia || by apply div128_bound). f_equal. lia.
Qed.

Lemma GetVaruintSize_spec v : in_u 32 v -> Format.GetVaruintSize v = Done (vu_len v).
Proof.
  intros Hv. unfold Format.GetVaruintSize. rewrite mux_GetVaruintSize_loop_spec; [done| |lia].
  by apply u32_fuel.
Qed.

(** ** Values *)
Lemma index_range v : 0 <= index v <= 3.
Proof. destruct v; simpl; lia. Qed.

Lemma zlen_value_bytes v : zlen (value_bytes v) = type_size (index v).
Proof. by destruct v. Qed.

Lemma type_size_pos t : 1 <= type_size t <= 4.
Proof. unfold type_size. repeat case_match; lia. Qed.

(** A value is what its object representation decodes to. *)
Lemma value_of_value_bytes v : value_ok v -> value_of_bytes (index v) (value_bytes v) = v.
Proof.
  destruct v; intros Hv; unfold value_of_bytes, value_bytes, index, value_ok in *;
    cbn [Z.eqb]; rewrite le_combine_split; f_equal.
  - change (swrap 8 (u8 v) = v). rewrite swrap_uwrap by lia. apply swrap_id; [lia|done].
  - change (swrap 16 (u16 v) = v). rewrite swrap_uwrap by lia. apply swrap_id; [lia|done].
  - change (swrap 32 (u32 v) = v). rewrite swrap_uwrap by lia. apply swrap_id; [lia|done].
  - change (u32 bits = bits). by apply uwrap_id.
Qed.

Lemma index_value_of_bytes t bs : 0 <= t <= 3 -> index (value_of_bytes t bs) = t.
Proof.
  intros. unfold value_of_bytes. destruct (Z.eqb_spec t 0), (Z.eqb_spec t 1), (Z.eqb_spec t 2);
    simpl; lia.
Qed.

(** A successful read takes at least one byte. *)
Lemma varuint_ref_progress n l acc pos v :
  (0 < n)%nat -> (varuint_ref n l acc pos).1 = Some v ->
  zlen (varuint_ref n l acc pos).2 < zlen l.
Proof.
  intros Hn Hv. destruct n as [|n]; [lia|]. revert Hv. cbn [varuint_ref].
  destruct l as [|b t]; [done|]. rewrite zlen_cons. case_match; [|simpl; lia].
  intros _. destruct (varuint_ref_suffix n t (u32 (acc + payload7 b * 2 ^ pos)) (pos + 7)) as [d E].
  pose proof (zlen_nonneg d). rewrite E at 2. rewrite zlen_app. lia.
Qed.

Lemma read_varuint_ref_progress l v :
  (read_varuint_ref l).1 = Some v -> zlen (read_varuint_ref l).2 < zlen l.
Proof. apply varuint_ref_progress. lia. Qed.

Lemma read_varuint_ref_le l : zlen (read_varuint_ref l).2 <= zlen l.
Proof.
  unfold read_varuint_ref. destruct (varuint_ref_suffix 5 l 0 0) as [d E].
  pose proof (zlen_nonneg d). rewrite E at 2. rewrite zlen_app. lia.
Qed.

Lemma varuint_ref_range n l acc pos v :
  (varuint_ref n l acc pos).1 = Some v -> in_u 32 v.
Proof.
  revert l acc pos; induction n as [|n IH]; intros l acc pos; cbn [varuint_ref].
  - intros [= <-]. unfold in_u, u32_max. lia.
  - destruct l as [|b t]; [done|]. case_match; [apply IH|].
    intros [= <-]. apply uwrap_range. lia.
Qed.

(** ** The buffer reader, as its clients use it *)
Section buffer_clients.
Import BufferReadStream.

Lemma brs_varuint (s : t) v tail :
  ok s -> rest s = vu_bytes 5 v ++ tail -> in_u 32 v ->
  exists s', BufferReader.ReadVaruint s = Done (Some v, s') /\ ok s' /\ rest s' = tail.
Proof.
  intros Ho E Hv. destruct (ReadVaruint_buffer_ref s Ho) as (k & ? & R & E').
  rewrite E, read_varuint_ref_bytes in R, E' by done.
  exists (fast_ignore s k). split_and!; [done|by apply ok_fast_ignore|done].
Qed.

Lemma brs_varuint_total (s : t) :
  ok s -> exists o s', BufferReader.ReadVaruint s = Done (o, s') /\ ok s' /\
    zlen (rest s') <= zlen (rest s) /\
    (forall v, o = Some v -> in_u 32 v /\ zlen (rest s') < zlen (rest s)).
Proof.
  intros Ho. destruct (ReadVaruint_buffer_ref s Ho) as (k & ? & R & E').
  eexists _, (fast_ignore s k). split; [exact R|]. split; [by apply ok_fast_ignore|].
  rewrite E'. split; [apply read_varuint_ref_le|]. intros v Hv.
  split; [by apply varuint_ref_range in Hv|by apply read_varuint_ref_progress with v].
Qed.

Lemma brs_scalar (s : t) n d tail :
  ok s -> rest s = d ++ tail -> zlen d = Z.of_nat n ->
  exists s', BufferReader.ReadScalar n s = Done (Some d, s') /\ ok s' /\ rest s' = tail.
Proof.
  intros Ho E Hn. rewrite ReadScalar_buffer by done.
  pose proof (brs_zlen_rest s Ho) as L. rewrite E, zlen_app in L. pose proof (zlen_nonneg tail).
  rewrite (proj2 (Z.ltb_ge (remaining s) _)) by lia. rewrite <- Hn, E, ztake_app_len.
  eexists. split; [done|]. split; [apply ok_fast_ignore; [done|lia]|].
  rewrite rest_fast_ignore by (done || lia). by rewrite E, zdrop_app_len.
Qed.

Lemma brs_scalar_total (s : t) n :
  ok s -> exists o s', BufferReader.ReadScalar n s = Done (o, s') /\ ok s' /\
    zlen (rest s') <= zlen (rest s).
Proof.
  intros Ho. rewrite ReadScalar_buffer by done.
  destruct (Z.ltb_spec (remaining s) (Z.of_nat n)).
  - eexists _, s. split; [done|]. split; [done|lia].
  - eexists _, _. split; [done|]. split; [apply ok_fast_ignore; [done|lia]|].
    rewrite rest_fast_ignore, zlen_drop by (done || lia). pose proof (zlen_nonneg (rest s)). lia.
Qed.
End buffer_clients.

(** ** Writing with room to spare *)
Section emitting.
Import BufferWriteStream.
Implicit Types (w : t).

Definition emitted w (d : list byte) w' : Prop :=
  ok w' /\ out w' = out w ++ d /\ zlen (buffer w') = zlen (buffer w) /\
  offset w' = offset w + zlen d.

Lemma emitted_nil w : ok w -> emitted w [] w.
Proof. intros. unfold emitted. rewrite app_nil_r. change (zlen []) with 0. split_and!; done || lia. Qed.

Lemma emitted_app w1 d w2 e w3 : emitted w1 d w2 -> emitted w2 e w3 -> emitted w1 (d ++ e) w3.
Proof.
  intros (? & E1 & ? & ?) (? & E2 & ? & ?). unfold emitted.
  rewrite E2, E1, app_assoc, zlen_app. split_and!; done || congruence || lia.
Qed.

Lemma emitted_fits w d w' n : emitted w d w' -> fits w' n = fits w (zlen d + n).
Proof. unfold fits. intros (_ & _ & -> & ->). f_equal. lia. Qed.

Lemma fits_le w n m : n <= m -> fits w m = true -> fits w n = true.
Proof. unfold fits. intros ? ?%Z.leb_le. apply Z.leb_le. lia. Qed.

Lemma WriteBytes_emitted w d :
  ok w -> fits w (zlen d) = true -> exists w', BufferWriter.WriteBytes w d = Done w' /\ emitted w d w'.
Proof.
  intros Ho Hf. rewrite WriteBytes_checked, Hf by done.
  destruct (bws_write_spec w d Ho Hf) as (w' & E & ? & ? & ? & ?). by exists w'.
Qed.

Lemma WriteVaruint_emitted w v :
  ok w -> in_u 32 v -> fits w (vu_len v) = true ->
  exists w', BufferWriter.WriteVaruint w v = Done w' /\ emitted w (vu_bytes 5 v) w'.
Proof.
  intros Ho Hv Hf. rewrite WriteVaruint_bytes, uwrap_id by done.
  apply WriteBytes_emitted; [done|]. rewrite zlen_vu_bytes; [done|by apply u32_fuel|lia].
Qed.

(** The varuint and the room left after it. *)
Lemma WriteVaruint_step w v k n :
  ok w -> in_u 32 v -> vu_len v <= k -> 0 <= n -> fits w (k + n) = true ->
  exists w', BufferWriter.WriteVaruint w v = Done w' /\ emitted w (vu_bytes 5 v) w' /\
    ok w' /\ fits w' n = true.
Proof.
  intros Ho Hv Hk Hn Hf. destruct (WriteVaruint_emitted w v Ho Hv) as (w' & E & W).
  { eapply fits_le; [|exact Hf]. lia. }
  exists w'. split_and!; [done|done|apply W|]. rewrite (emitted_fits _ _ _ _ W).
  rewrite zlen_vu_bytes by (by apply u32_fuel || lia). eapply fits_le; [|exact Hf]. lia.
Qed.

Lemma subframe_id_len v : 0 <= v < 128 -> vu_len v <= 1.
Proof. intros. by rewrite vu_len_small by lia. Qed.

Lemma u32_len v : in_u 32 v -> vu_len v <= 5.
Proof. intros. by apply vu_len_u32. Qed.

(** An error subframe. *)
Lemma error_emitted w id reg e n :
  ok w -> 0 <= id < 128 -> in_u 32 reg -> in_u 32 e -> 0 <= n -> fits w (11 + n) = true ->
  exists w', (w ← BufferWriter.WriteVaruint w id; w ← BufferWriter.WriteVaruint w reg;
              BufferWriter.WriteVaruint w e) = Done w' /\
    emitted w (vu_bytes 5 id ++ vu_bytes 5 reg ++ vu_bytes 5 e) w' /\ fits w' n = true.
Proof.
  intros Ho Hid Hr He Hn Hf.
  destruct (WriteVaruint_step w id 1 (5 + (5 + n)) Ho) as (w1 & -> & W1 & O1 & F1);
    [unfold in_u; lia|by apply subframe_id_len|lia|rewrite <- Hf; f_equal; lia|]. rewrite bind_done.
  destruct (WriteVaruint_step w1 reg 5 (5 + n) O1 Hr (u32_len _ Hr)) as (w2 & -> & W2 & O2 & F2);
    [lia|done|]. rewrite bind_done.
  destruct (WriteVaruint_step w2 e 5 n O2 He (u32_len _ He) Hn F2) as (w3 & -> & W3 & O3 & F3).
  exists w3. split_and!; [done| |done].
  eapply emitted_app; [exact W1|]. by eapply emitted_app.
Qed.

(** Taking back everything written since [w0]. *)
Lemma reset_emitted w0 d w :
  ok w0 -> emitted w0 d w -> fits w0 1 = true ->
  exists w', reset w (position w0) = Done w' /\ emitted w0 [] w'.
Proof.
  unfold ok, fits, reset, position. intros Ho (Hw & E & Z & P) Hf%Z.leb_le.
  rewrite (proj2 (Z.leb_le 0 _)), (proj2 (Z.ltb_lt _ _)) by lia. cbn [andb mj_assert].
  rewrite bind_done. eexists. split; [done|]. unfold emitted, ok, out in *. simpl.
  change (zlen []) with 0. rewrite app_nil_r. pose proof (zlen_nonneg d).
  split_and!; [lia..| |done|lia].
  assert (ztake (offset w0) (ztake (offset w) (buffer w)) = ztake (offset w0) (buffer w0)) as <-.
  { rewrite E, ztake_app_le; [by rewrite ztake_ztake_min, Z.min_id|].
    rewrite zlen_take; lia. }
  rewrite ztake_ztake_min. f_equal. lia.
Qed.
End emitting.

(** ** Properties *)

(** The buffer specialisation of the reader implements the generic
    template: on every buffer, in every state, both return the same varuint
    and leave the same bytes unread, and neither faults. *)
Theorem buffer_ReadVaruint_refines_generic (s : BufferReadStream.t) :
  BufferReadStream.ok s ->
  exists o s1 s2, GenericReader.ReadVaruint s = Done (o, s1) /\
    BufferReader.ReadVaruint s = Done (o, s2) /\
    BufferReadStream.ok s1 /\ BufferReadStream.ok s2 /\
    BufferReadStream.rest s1 = BufferReadStream.rest s2.
Proof.
  intros Ho. assert (rs_valid s) as Hv by exact Ho.
  destruct (ReadVaruint_ref s Hv) as (s1 & R1 & V1 & E1).
  destruct (ReadVaruint_buffer_ref s Ho) as (k & ? & R2 & E2).
  exists (read_varuint_ref (BufferReadStream.rest s)).1, s1, (BufferReadStream.fast_ignore s k).
  split_and!; [exact R1|done|exact V1|by apply BufferReadStream.ok_fast_ignore|].
  rewrite E2. exact E1.
Qed.

Lemma buffer_ReadVaruint_refines_generic_witness :
  exists o s1 s2,
    GenericReader.ReadVaruint (BufferReadStream.make [byte.of_Z 0x85; byte.of_Z 1; byte.of_Z 9])
      = Done (o, s1) /\
    BufferReader.ReadVaruint (BufferReadStream.make [byte.of_Z 0x85; byte.of_Z 1; byte.of_Z 9])
      = Done (o, s2) /\
    BufferReadStream.ok s1 /\ BufferReadStream.ok s2 /\
    BufferReadStream.rest s1 = BufferReadStream.rest s2.
Proof.
  apply (buffer_ReadVaruint_refines_generic
           (BufferReadStream.make [byte.of_Z 0x85; byte.of_Z 1; byte.of_Z 9])).
  apply BufferReadStream.brs_ok_make.
Defined.

(** The buffer specialisation of the writer drops the bounds check: where
    the encoding fits it does exactly what the generic template does; where it
    does not, the template asserts and the specialisation writes out of
    bounds. *)
Theorem buffer_WriteVaruint_refines_generic (s : BufferWriteStream.t) (v : Z) :
  BufferWriteStream.ok s -> in_u 32 v ->
  if BufferWriteStream.fits s (vu_len v)
  then exists s', BufferWriter.WriteVaruint s v = Done s' /\
         GenericWriter.WriteVaruint s v = Done s' /\
         BufferWriteStream.out s' = BufferWriteStream.out s ++ vu_bytes 5 v
  else BufferWriter.WriteVaruint s v = Faulted Undefined /\
       GenericWriter.WriteVaruint s v = Faulted Assertion.
Proof.
  intros Ho Hv. pose proof (u32_fuel v Hv) as Hv'. unfold GenericWriter.WriteVaruint.
  rewrite WriteVaruint_bytes, uwrap_id, generic_write_loop, WriteBytes_checked by (done || lia).
  rewrite zlen_vu_bytes by (done || lia).
  destruct (BufferWriteStream.fits s (vu_len v)) eqn:E; [|done].
  destruct (BufferWriteStream.bws_write_spec s (vu_bytes 5 v) Ho) as (s' & W & _ & O & _).
  { rewrite zlen_vu_bytes by (done || lia). done. }
  eauto.
Qed.

Lemma buffer_WriteVaruint_refines_generic_witness :
  in_u 32 300 /\
  (BufferWriter.WriteVaruint (BufferWriteStream.make [byte.of_Z 0]) 300 = Faulted Undefined /\
   GenericWriter.WriteVaruint (BufferWriteStream.make [byte.of_Z 0]) 300 = Faulted Assertion).
Proof.
  split; [split; vm_compute; [discriminate|reflexivity]|].
  refine (buffer_WriteVaruint_refines_generic (BufferWriteStream.make [byte.of_Z 0]) 300
            (BufferWriteStream.bws_ok_make _) _).
  split; vm_compute; [discriminate|reflexivity].
Defined.

(** A multiplex varuint survives encoding and decoding: a [uint32_t] is
    written in [GetVaruintSize] bytes, at most five, and the reader returns it
    and stops behind it. *)
Theorem multiplex_varuint_roundtrip {R} `{ReadStreamLaws R} (s : BufferWriteStream.t) (v : Z) :
  BufferWriteStream.ok s -> in_u 32 v ->
  BufferWriteStream.fits s kMaxVaruintSize = true ->
  exists s' d, BufferWriter.WriteVaruint s v = Done s' /\
    BufferWriteStream.out s' = BufferWriteStream.out s ++ d /\
    GetVaruintSize v = Done (zlen d) /\ kMinVaruintSize <= zlen d <= kMaxVaruintSize /\
    forall (r : R) tail, rs_valid r -> rs_rest r = d ++ tail ->
      exists r', GenericReader.ReadVaruint r = Done (Some v, r') /\
                 rs_valid r' /\ rs_rest r' = tail.
Proof.
  intros Ho Hv Hf. pose proof (u32_fuel v Hv) as Hv'. pose proof (vu_len_u32 v Hv) as Hl.
  assert (zlen (vu_bytes 5 v) = vu_len v) as HL by (apply zlen_vu_bytes; [done|lia]).
  assert (BufferWriteStream.fits s (zlen (vu_bytes 5 v)) = true) as Hf'.
  { unfold BufferWriteStream.fits, kMaxVaruintSize in *. apply Z.leb_le in Hf.
    apply Z.leb_le. lia. }
  destruct (BufferWriteStream.bws_write_spec s (vu_bytes 5 v) Ho Hf') as (s' & W & _ & O & _).
  exists s', (vu_bytes 5 v). rewrite WriteVaruint_bytes, uwrap_id, WriteBytes_checked, Hf' by done.
  rewrite GetVaruintSize_spec, HL by done. unfold kMinVaruintSize, kMaxVaruintSize.
  split_and!; [done..|lia|lia|]. intros r tail Hr Er.
  destruct (ReadVaruint_ref r Hr) as (r' & R1 & V1 & E1).
  rewrite Er, read_varuint_ref_bytes in R1, E1 by done. eauto.
Qed.

Lemma multiplex_varuint_roundtrip_witness :
  in_u 32 70000 /\
  exists s' d, BufferWriter.WriteVaruint (BufferWriteStream.make (replicate 8 (byte.of_Z 0))) 70000
      = Done s' /\
    BufferWriteStream.out s' = [] ++ d /\
    GetVaruintSize 70000 = Done (zlen d) /\ kMinVaruintSize <= zlen d <= kMaxVaruintSize /\
    forall (r : FastIStringStream.t) tail, rs_valid r -> rs_rest r = d ++ tail ->
      exists r', GenericReader.ReadVaruint r = Done (Some 70000, r') /\
                 rs_valid r' /\ rs_rest r' = tail.
Proof.
  split; [split; vm_compute; [discriminate|reflexivity]|].
  refine (multiplex_varuint_roundtrip (BufferWriteStream.make (replicate 8 (byte.of_Z 0))) 70000
            (BufferWriteStream.bws_ok_make _) _ eq_refl).
  split; vm_compute; [discriminate|reflexivity].
Defined.
