(* ===== verification/Register.v ===== *)
(** * multiplex/frame.cc and multiplex/register.cc: the client's side

    [Frame.encode] frames a payload; [RegisterRequest] builds the payload of a
    request to read or write registers; [ParseRegisterReply] decodes the reply. *)
From stdpp Require Import gmap.
From S2P Require Import Prelude Varuint Streams MultiplexStream.
Import Format.

(** ** multiplex/frame.cc *)
Module Frame.

Record Frame := {
  source_id : Z; request_reply : bool; dest_id : Z; payload : list byte }.

Section encode.
Context `{CrcType} {S : Type} `{WriteStream S}.

Definition encode (f : Frame) (stream : S) : outcome S :=
  let crc_stream := CrcStream.make_writer stream in
  s ← GenericWriter.WriteScalar 2 crc_stream kHeader;
  s ← GenericWriter.WriteScalar 1 s (Z.lor (source_id f) (if request_reply f then 0x80 else 0x00));
  s ← GenericWriter.WriteScalar 1 s (dest_id f);
  s ← GenericWriter.WriteVaruint s (zlen (payload f));
  s ← CrcStream.writer_write s (payload f);
  let checksum := u16 (CrcStream.writer_checksum s) in
  s ← GenericWriter.WriteScalar 2 s checksum;
  Done (CrcStream.wbase s).
End encode.
End Frame.

(** ** class RegisterRequest *)
Module RegisterRequest.
Import GenericWriter.

Record t := { buffer_ : FastOStringStream.vector; request_reply_ : bool }.

Definition make : t := {| buffer_ := FastOStringStream.empty; request_reply_ := false |}.

Definition ExpectResponse (r : t) (value : bool) : t :=
  {| buffer_ := buffer_ r; request_reply_ := value |}.

Definition ReadSingle (r : t) (reg type_index : Z) : outcome t :=
  _ ← mj_assert (type_index <=? 3);
  b ← WriteVaruint (buffer_ r) (kReadBase + type_index * 4 + 1);
  b ← WriteVaruint b reg;
  Done {| buffer_ := b; request_reply_ := true |}.

Definition ReadMultiple (r : t) (reg num_registers type_index : Z) : outcome t :=
  _ ← mj_assert (0 <? num_registers);
  _ ← mj_assert (type_index <=? 3);
  let encoded_length := if num_registers <? 4 then num_registers else 0 in
  b ← WriteVaruint (buffer_ r) (kReadBase + type_index * 4 + encoded_length);
  b ← (if encoded_length =? 0 then WriteVaruint b num_registers else Done b);
  b ← WriteVaruint b reg;
  Done {| buffer_ := b; request_reply_ := true |}.

Definition WriteValue (b : FastOStringStream.vector) (value : Value) : outcome FastOStringStream.vector :=
  ws_write b (value_bytes value).

Fixpoint WriteValues (b : FastOStringStream.vector) (values : list Value)
    : outcome FastOStringStream.vector :=
  match values with
  | [] => Done b
  | v :: values => b ← WriteValue b v; WriteValues b values
  end.

Definition WriteSingle (r : t) (reg : Z) (value : Value) : outcome t :=
  b ← WriteVaruint (buffer_ r) (kWriteBase + index value * 4 + 1);
  b ← WriteVaruint b reg;
  b ← WriteValue b value;
  Done {| buffer_ := b; request_reply_ := request_reply_ r |}.

Definition WriteMultiple (r : t) (start_reg : Z) (values : list Value) : outcome t :=
  match values with
  | [] => Faulted Assertion
  | front :: _ =>
      let encoded_length := if zlen values <? 4 then zlen values else 0 in
      b ← WriteVaruint (buffer_ r) (kWriteBase + index front * 4 + encoded_length);
      b ← (if encoded_length =? 0 then WriteVaruint b (zlen values) else Done b);
      b ← WriteVaruint b start_reg;
      b ← WriteValues b values;
      Done {| buffer_ := b; request_reply_ := request_reply_ r |}
  end.

Definition buffer (r : t) : list byte := FastOStringStream.str (buffer_ r).

Definition clear (r : t) : t :=
  {| buffer_ := FastOStringStream.clear (buffer_ r); request_reply_ := false |}.
End RegisterRequest.

(** ** The reply parser *)
Module RegisterParser.
Section Parser.
Context {S : Type} `{ReadStream S}.
Import GenericReader.

(** [RegisterValue], a register and what was said of it. *)
Abbreviation RegisterValue := (Z * ReadResult)%type.

Definition ReadValue (s : S) (type_index : Z) : outcome (option Value * S) :=
  _ ← mj_assert (type_index <=? 3);
  '(maybe, s) ← ReadScalar (Z.to_nat (type_size type_index)) s;
  Done (option_map (value_of_bytes type_index) maybe, s).

(** The [for] loop over the values of a reply: [n] iterations to go, [i] done. *)
Fixpoint ReadValues_loop (n : nat) (i : Z) (s : S) (type start_reg : Z)
    (output : list RegisterValue) : outcome (bool * S * list RegisterValue) :=
  match n with
  | O => Done (true, s, output)
  | Datatypes.S n =>
      '(maybe_value, s) ← ReadValue s type;
      match maybe_value with
      | None => Done (false, s, output)
      | Some value =>
          ReadValues_loop n (i + 1) s type start_reg
            (output ++ [(u32 (start_reg + i), RValue value)])
      end
  end.

Definition ParseSubframe (s : S) (output : list RegisterValue)
    : outcome (bool * S * list RegisterValue) :=
  '(maybe_subframe_id, s) ← ReadVaruint s;
  match maybe_subframe_id with
  | None => Done (false, s, output)
  | Some subframe_id =>
    if (kReplyBase <=? subframe_id) && (subframe_id <? kReplyBase + 16) then
      let encoded_length := Z.land subframe_id 0x03 in
      let type := (subframe_id - kReplyBase) / 4 in
      '(maybe_num_registers, s) ←
        (if encoded_length =? 0 then ReadVaruint s else Done (Some encoded_length, s));
      match maybe_num_registers with
      | None => Done (false, s, output)
      | Some num_registers =>
          '(maybe_start_reg, s) ← ReadVaruint s;
          match maybe_start_reg with
          | None => Done (false, s, output)
          | Some start_reg =>
              ReadValues_loop (Z.to_nat num_registers) 0 s type start_reg output
          end
      end
    else if (subframe_id =? kWriteError) || (subframe_id =? kReadError) then
      '(maybe_this_reg, s) ← ReadVaruint s;
      '(maybe_this_err, s) ← ReadVaruint s;
      match maybe_this_reg, maybe_this_err with
      | Some this_reg, Some this_err =>
          Done (true, s, output ++ [(this_reg, RError this_err)])
      | _, _ => Done (false, s, output)
      end
    else if subframe_id =? kNop then Done (false, s, output)
    else Done (false, s, output)
  end.

(** The [while (true)] loop: a failed subframe ends it and what that subframe
    had pushed is cut off again. *)
Fixpoint ParseRegisterReply_loop (fuel : nat) (s : S) (result : list RegisterValue)
    : outcome (list RegisterValue * S) :=
  match fuel with
  | O => Faulted OutOfFuel
  | Datatypes.S fuel =>
      let old_size := zlen result in
      '(success, s, result) ← ParseSubframe s result;
      if success : bool then ParseRegisterReply_loop fuel s result
      else Done (ztake old_size result, s)
  end.

Definition ParseRegisterReply (fuel : nat) (s : S) : outcome (list RegisterValue * S) :=
  ParseRegisterReply_loop fuel s [].

(** [std::map::insert] keeps the entry a key already has. *)
Definition map_insert (m : gmap Z ReadResult) (pair : RegisterValue) : gmap Z ReadResult :=
  match m !! pair.1 with Some _ => m | None => <[pair.1 := pair.2]> m end.

Definition ParseRegisterReply_map (fuel : nat) (s : S) : outcome (gmap Z ReadResult) :=
  '(data, _) ← ParseRegisterReply fuel s;
  Done (foldl map_insert ∅ data).
End Parser.
End RegisterParser.

Example ReadMultiple_bytes :
  (r ← RegisterRequest.ReadMultiple RegisterRequest.make 2 5 1; Done (RegisterRequest.buffer r))
  = Done (map byte.of_Z [0x14; 0x05; 0x02]).
Proof. vm_compute. reflexivity. Qed.

Example ParseRegisterReply_example :
  (m ← RegisterParser.ParseRegisterReply_map 10 (FastIStringStream.make
          (map byte.of_Z [0x26; 0x04; 0x06; 0x05; 0x04; 0x03]));
   Done (m !! 4, m !! 5))
  = Done (Some (RValue (VInt16 0x0506)), Some (RValue (VInt16 0x0304))).
Proof. vm_compute. reflexivity. Qed.

(** ** The wire format of requests and replies

    The specification the two sides are proved against: the head of a
    subframe about [n] registers of one type, and the subframes of a reply. *)
Definition head_bytes (base type n start : Z) : list byte :=
  vu_bytes 5 (base + type * 4 + (if n <? 4 then n else 0))
  ++ (if n <? 4 then [] else vu_bytes 5 n) ++ vu_bytes 5 start.

Inductive reply :=
  | Values (start : Z) (type : Z) (values : list Value)
  | ErrorReply (is_read : bool) (reg error : Z).

Definition reply_ok (r : reply) : Prop :=
  match r with
  | Values start type values =>
      in_u 32 start /\ 0 <= type <= 3 /\ 0 < zlen values < 2 ^ 32 /\
      Forall (fun v => value_ok v /\ index v = type) values
  | ErrorReply _ reg error => in_u 32 reg /\ in_u 32 error
  end.

Definition reply_bytes (r : reply) : list byte :=
  match r with
  | Values start type values =>
      head_bytes kReplyBase type (zlen values) start ++ concat (map value_bytes values)
  | ErrorReply is_read reg error =>
      vu_bytes 5 (if is_read then kReadError else kWriteError)
      ++ vu_bytes 5 reg ++ vu_bytes 5 error
  end.

Fixpoint number_from (start : Z) (values : list Value) : list (Z * ReadResult) :=
  match values with
  | [] => []
  | v :: values => (u32 start, RValue v) :: number_from (start + 1) values
  end.

(** What a subframe says of which registers. *)
Definition reply_entries (r : reply) : list (Z * ReadResult) :=
  match r with
  | Values start _ values => number_from start values
  | ErrorReply _ reg error => [(reg, RError error)]
  end.

(** *** Lemmas on the parser *)
Section parser_lemmas.
Import GenericReader RegisterParser.
Context {S : Type} `{ReadStreamLaws S}.

Lemma ReadVaruint_bytes_took s v tail :
  rs_valid s -> rs_rest s = vu_bytes 5 v ++ tail -> in_u 32 v ->
  exists s', ReadVaruint s = Done (Some v, s') /\ rs_valid s' /\ rs_rest s' = tail.
Proof.
  intros Hs E Hv. destruct (ReadVaruint_ref s Hs) as (s' & R & V & E').
  rewrite E, read_varuint_ref_bytes in R, E' by done. eauto.
Qed.

Lemma ReadValue_took s v tail :
  rs_valid s -> value_ok v -> rs_rest s = value_bytes v ++ tail ->
  exists s', ReadValue s (index v) = Done (Some v, s') /\ rs_valid s' /\ rs_rest s' = tail.
Proof.
  intros Hs Hv E. unfold ReadValue. pose proof (index_range v). pose proof (type_size_pos (index v)).
  rewrite (proj2 (Z.leb_le _ 3)) by lia. cbn [mj_assert]. rewrite bind_done. unfold ReadScalar.
  rewrite Z2Nat.id, <- zlen_value_bytes by lia.
  destruct (mux_RawRead_took s _ _ Hs E) as (s' & -> & ? & ?). rewrite bind_done.
  cbn [option_map]. rewrite value_of_value_bytes by done. eauto.
Qed.

(** On any data a value is read or the data was too short. *)
Lemma ReadValue_total s type :
  rs_valid s -> 0 <= type <= 3 ->
  exists o s', ReadValue s type = Done (o, s') /\ rs_valid s' /\ zlen (rs_rest s') <= zlen (rs_rest s).
Proof.
  intros Hs Ht. unfold ReadValue. pose proof (type_size_pos type).
  rewrite (proj2 (Z.leb_le _ 3)) by lia. cbn [mj_assert]. rewrite bind_done. unfold ReadScalar.
  rewrite Z2Nat.id by lia. destruct (Z.le_gt_cases (type_size type) (zlen (rs_rest s))) as [Hl|Hl].
  - assert (zlen (ztake (type_size type) (rs_rest s)) = type_size type) as L
      by (rewrite zlen_take; lia).
    destruct (mux_RawRead_took s (ztake (type_size type) (rs_rest s)) (zdrop (type_size type) (rs_rest s)) Hs)
      as (s' & R & V & E); [by rewrite ztake_zdrop|].
    rewrite L in R. rewrite R, bind_done. eexists _, s'. split_and!; [done..|].
    rewrite E, zlen_drop by lia. lia.
  - destruct (mux_RawRead_short s (type_size type) Hs Hl) as (s' & R & V & E).
    rewrite R, bind_done. eexists _, s'. split_and!; [done..|]. rewrite E.
    apply zlen_nonneg.
Qed.

Lemma ReadValues_loop_took s vs type start i output tail :
  rs_valid s -> Forall (fun v => value_ok v /\ index v = type) vs ->
  rs_rest s = concat (map value_bytes vs) ++ tail ->
  exists s', ReadValues_loop (length vs) i s type start output =
      Done (true, s', output ++ number_from (start + i) vs) /\ rs_valid s' /\ rs_rest s' = tail.
Proof.
  revert s i output. induction vs as [|v vs IH]; intros s i output Hs Hvs E.
  - exists s. rewrite app_nil_r. done.
  - apply Forall_cons_1 in Hvs as [[Hv <-] Hvs]. cbn [length ReadValues_loop number_from].
    cbn [map concat] in E. rewrite <- app_assoc in E.
    destruct (ReadValue_took s v _ Hs Hv E) as (s1 & -> & V1 & E1). rewrite bind_done.
    cbn beta iota.
    destruct (IH s1 (i + 1) (output ++ [(u32 (start + i), RValue v)]) V1 Hvs E1)
      as (s2 & -> & ? & ?).
    exists s2. rewrite <- app_assoc, <- (Z.add_assoc start i 1). done.
Qed.

Lemma ReadValues_loop_total n i s type start output :
  rs_valid s -> 0 <= type <= 3 ->
  exists ok s' o, ReadValues_loop n i s type start output = Done (ok, s', o) /\
    rs_valid s' /\ zlen (rs_rest s') <= zlen (rs_rest s).
Proof.
  revert i s output. induction n as [|n IH]; intros i s output Hs Ht.
  - eexists _, _, _. split; [reflexivity|]. split; [done|lia].
  - cbn [ReadValues_loop].
    destruct (ReadValue_total s type Hs Ht) as ([v|] & s1 & -> & V1 & L1); rewrite bind_done;
      cbn beta iota.
    + destruct (IH (i + 1) s1 (output ++ [(u32 (start + i), RValue v)]) V1 Ht)
        as (ok & s2 & o & -> & ? & ?). eexists _, _, _. split; [done|]. split; [done|lia].
    + eexists _, _, _. split; [done|]. split; [done|lia].
Qed.

(** [u32] decomposition of a subframe identifier. *)
Lemma subframe_id_split base type enc :
  base mod 16 = 0 -> 0 <= base -> 0 <= type <= 3 -> 0 <= enc <= 3 ->
  let id := base + type * 4 + enc in
  base <= id < base + 16 /\ (id - base) / 4 = type /\ Z.land id 3 = enc.
Proof.
  intros Hb Hb0 Ht He. cbv zeta. change 3 with (Z.ones 2) at 1. rewrite Z.land_ones by lia.
  change (2 ^ 2) with 4. split; [lia|]. split.
  - symmetry. apply Z.div_unique with enc; lia.
  - apply Z.mod_divide in Hb as [q ->]; [|lia].
    symmetry. apply Z.mod_unique with (4 * q + type); lia.
Qed.

Lemma ParseSubframe_reply s r output tail :
  rs_valid s -> reply_ok r -> rs_rest s = reply_bytes r ++ tail ->
  exists s', ParseSubframe s output = Done (true, s', output ++ reply_entries r) /\
    rs_valid s' /\ rs_rest s' = tail.
Proof.
  intros Hs Hr E. unfold ParseSubframe. destruct r as [start type vs|is_read reg error].
  - destruct Hr as (Hst & Ht & Hn & Hvs). cbn [reply_bytes] in E. unfold head_bytes in E.
    set (enc := if zlen vs <? 4 then zlen vs else 0) in *.
    assert (0 <= enc <= 3) by (unfold enc; destruct (Z.ltb_spec (zlen vs) 4); lia).
    destruct (subframe_id_split kReplyBase type enc) as (Hid & Hty & Hen); [done|done|lia|lia|].
    rewrite <- !app_assoc in E.
    destruct (ReadVaruint_bytes_took s _ _ Hs E)
      as (s1 & -> & V1 & E1); [unfold in_u, kReplyBase in *; lia|]. rewrite bind_done. cbn beta iota zeta.
    rewrite (proj2 (Z.leb_le _ _)), (proj2 (Z.ltb_lt _ (kReplyBase + 16))) by lia. cbn [andb].
    rewrite Hen, Hty.
    assert (exists s2, (if enc =? 0 then ReadVaruint s1 else Done (Some enc, s1)) =
              Done (Some (zlen vs), s2) /\ rs_valid s2 /\
              rs_rest s2 = vu_bytes 5 start ++ concat (map value_bytes vs) ++ tail)
      as (s2 & -> & V2 & E2).
    { subst enc. destruct (Z.ltb_spec (zlen vs) 4).
      - rewrite (proj2 (Z.eqb_neq (zlen vs) 0)) by lia. eauto.
      - cbn [Z.eqb]. apply ReadVaruint_bytes_took; [done|done|unfold in_u; lia]. }
    rewrite bind_done. cbn beta iota.
    destruct (ReadVaruint_bytes_took s2 _ _ V2 E2 Hst) as (s3 & -> & V3 & E3).
    rewrite bind_done. cbn beta iota. replace (Z.to_nat (zlen vs)) with (length vs) by
      (unfold zlen; lia).
    destruct (ReadValues_loop_took s3 vs type start 0 output tail V3 Hvs E3) as (s4 & -> & ? & ?).
    rewrite Z.add_0_r. eauto.
  - destruct Hr as [Hreg Herr]. cbn [reply_bytes] in E. rewrite <- !app_assoc in E.
    destruct (ReadVaruint_bytes_took s _ _ Hs E)
      as (s1 & -> & V1 & E1); [by destruct is_read|]. rewrite bind_done. cbn beta iota.
    destruct (ReadVaruint_bytes_took s1 _ _ V1 E1 Hreg) as (s2 & R2 & V2 & E2).
    destruct (ReadVaruint_bytes_took s2 _ _ V2 E2 Herr) as (s3 & R3 & V3 & E3).
    destruct is_read; cbn -[ReadVaruint]; rewrite R2, bind_done; cbn beta iota;
      rewrite R3, bind_done; eauto.
Qed.

(** Whatever the data, a subframe is parsed or refused, never a fault, and
    when it is parsed it was not empty. *)
Lemma ParseSubframe_total s output :
  rs_valid s ->
  exists ok s' o, ParseSubframe s output = Done (ok, s', o) /\ rs_valid s' /\
    (ok = true -> zlen (rs_rest s') < zlen (rs_rest s)).
Proof.
  intros Hs. unfold ParseSubframe.
  destruct (ReadVaruint_ref s Hs) as (s1 & -> & V1 & E1). rewrite bind_done. cbn beta iota.
  destruct (read_varuint_ref (rs_rest s)).1 as [id|] eqn:Eid;
    [|eexists _, _, _; split; [reflexivity|done]].
  apply read_varuint_ref_progress in Eid. rewrite <- E1 in Eid. clear E1.
  destruct ((kReplyBase <=? id) && (id <? kReplyBase + 16)) eqn:Hc; cbv zeta.
  - apply andb_prop in Hc as [H1%Z.leb_le H2%Z.ltb_lt].
    assert (0 <= (id - kReplyBase) / 4 <= 3) by (Z.div_mod_to_equations; lia).
    assert (exists o s2, (if Z.land id 3 =? 0 then ReadVaruint s1 else Done (Some (Z.land id 3), s1))
              = Done (o, s2) /\ rs_valid s2 /\ zlen (rs_rest s2) <= zlen (rs_rest s1))
      as (o & s2 & -> & V2 & L2).
    { case_match; [|eexists _, _; split; [done|]; split; [done|lia]].
      destruct (ReadVaruint_ref s1 V1) as (s2 & -> & V2 & E2). eexists _, _. split; [done|].
      split; [done|]. rewrite E2. apply read_varuint_ref_le. }
    rewrite bind_done. cbn beta iota. destruct o as [num|]; [|eexists _, _, _; by split].
    destruct (ReadVaruint_ref s2 V2) as (s3 & -> & V3 & E3). rewrite bind_done. cbn beta iota.
    destruct (read_varuint_ref (rs_rest s2)).1 as [start|]; [|eexists _, _, _; by split].
    destruct (ReadValues_loop_total (Z.to_nat num) 0 s3 ((id - kReplyBase) / 4) start output)
      as (ok & s4 & o & -> & V4 & L4); [done..|].
    eexists _, _, _. split; [done|]. split; [done|]. intros _.
    pose proof (read_varuint_ref_le (rs_rest s2)). rewrite E3 in L4. lia.
  - case_match; [|case_match; eexists _, _, _; by split].
    destruct (ReadVaruint_ref s1 V1) as (s2 & -> & V2 & E2). rewrite bind_done. cbn beta iota.
    destruct (ReadVaruint_ref s2 V2) as (s3 & -> & V3 & E3). rewrite bind_done. cbn beta iota.
    pose proof (read_varuint_ref_le (rs_rest s1)). pose proof (read_varuint_ref_le (rs_rest s2)).
    rewrite <- E2 in *. rewrite <- E3 in *.
    repeat case_match; eexists _, _, _; (split; [done|]; split; [done|]; intros _; lia).
Qed.
End parser_lemmas.

(** *** Lemmas on the requests *)
Section request_lemmas.
Import FastOStringStream RegisterRequest.

Lemma fos_varuint b v :
  ok b -> in_u 32 v -> exists b', GenericWriter.WriteVaruint b v = Done b' /\ ok b' /\
    str b' = str b ++ vu_bytes 5 v.
Proof.
  intros Hb Hv. destruct (@mux_WriteVaruint_wrote vector _ write_laws b v Hv Hb eq_refl) as (b' & ? & ? & ? & _). eauto.
Qed.

Lemma WriteValues_spec b vs :
  ok b -> exists b', WriteValues b vs = Done b' /\ ok b' /\
    str b' = str b ++ concat (map value_bytes vs).
Proof.
  revert b; induction vs as [|v vs IH]; intros b Hb.
  - exists b. by rewrite app_nil_r.
  - cbn [WriteValues map concat]. unfold WriteValue. cbn [ws_write write_stream].
    destruct (fos_write_spec b (value_bytes v) Hb) as (b1 & E1 & O1 & S1).
    rewrite E1, bind_done. destruct (IH b1 O1) as (b2 & -> & O2 & S2). exists b2.
    split_and!; [done..|]. by rewrite S2, S1, app_assoc.
Qed.

(** The head of a subframe, as both [ReadMultiple] and [WriteMultiple] write it. *)
Lemma write_head b base type n start :
  ok b -> 0 <= base <= 0x20 -> 0 <= type <= 3 -> 0 < n < 2 ^ 32 -> in_u 32 start ->
  exists b',
    (b ← GenericWriter.WriteVaruint b (base + type * 4 + (if n <? 4 then n else 0));
     b ← (if (if n <? 4 then n else 0) =? 0 then GenericWriter.WriteVaruint b n else Done b);
     GenericWriter.WriteVaruint b start) = Done b' /\
    ok b' /\ str b' = str b ++ head_bytes base type n start.
Proof.
  intros Hb Hba Ht Hn Hst. unfold head_bytes.
  destruct (fos_varuint b (base + type * 4 + (if n <? 4 then n else 0)) Hb)
    as (b1 & -> & O1 & S1); [unfold in_u; destruct (Z.ltb_spec n 4); lia|]. rewrite bind_done.
  destruct (Z.ltb_spec n 4).
  - rewrite (proj2 (Z.eqb_neq n 0)), bind_done by lia.
    destruct (fos_varuint b1 start O1 Hst) as (b2 & -> & O2 & S2). exists b2.
    split_and!; [done..|]. by rewrite S2, S1, <- app_assoc.
  - cbn [Z.eqb]. destruct (fos_varuint b1 n O1) as (b2 & -> & O2 & S2); [unfold in_u; lia|].
    rewrite bind_done. destruct (fos_varuint b2 start O2 Hst) as (b3 & -> & O3 & S3). exists b3.
    split_and!; [done..|]. by rewrite S3, S2, S1, <- !app_assoc.
Qed.
(** With one register, as [ReadSingle] and [WriteSingle] write it. *)
Lemma write_head1 b base type start :
  ok b -> 0 <= base <= 0x20 -> 0 <= type <= 3 -> in_u 32 start ->
  exists b',
    (b ← GenericWriter.WriteVaruint b (base + type * 4 + 1);
     GenericWriter.WriteVaruint b start) = Done b' /\
    ok b' /\ str b' = str b ++ head_bytes base type 1 start.
Proof. intros. refine (write_head b base type 1 start _ _ _ _ _); done || lia. Qed.
End request_lemmas.

(** A request, as the sequence of calls that builds it. *)
Inductive request_op :=
  | OpRead (reg num type : Z)
  | OpReadSingle (reg type : Z)
  | OpWrite (start : Z) (values : list Value)
  | OpWriteSingle (reg : Z) (value : Value).

Definition run_op (r : RegisterRequest.t) (op : request_op) : outcome RegisterRequest.t :=
  match op with
  | OpRead reg num type => RegisterRequest.ReadMultiple r reg num type
  | OpReadSingle reg type => RegisterRequest.ReadSingle r reg type
  | OpWrite start values => RegisterRequest.WriteMultiple r start values
  | OpWriteSingle reg value => RegisterRequest.WriteSingle r reg value
  end.

Fixpoint run_ops (r : RegisterRequest.t) (ops : list request_op) : outcome RegisterRequest.t :=
  match ops with [] => Done r | op :: ops => r ← run_op r op; run_ops r ops end.

Definition op_ok (op : request_op) : Prop :=
  match op with
  | OpRead reg num type => in_u 32 reg /\ 0 < num < 2 ^ 32 /\ 0 <= type <= 3
  | OpReadSingle reg type => in_u 32 reg /\ 0 <= type <= 3
  | OpWrite start values => in_u 32 start /\ 0 < zlen values < 2 ^ 32
  | OpWriteSingle reg _ => in_u 32 reg
  end.

Definition op_bytes (op : request_op) : list byte :=
  match op with
  | OpRead reg num type => head_bytes kReadBase type num reg
  | OpReadSingle reg type => head_bytes kReadBase type 1 reg
  | OpWrite start values =>
      head_bytes kWriteBase (match values with v :: _ => index v | [] => 0 end) (zlen values) start
      ++ concat (map value_bytes values)
  | OpWriteSingle reg value => head_bytes kWriteBase (index value) 1 reg ++ value_bytes value
  end.

Definition op_reads (op : request_op) : bool :=
  match op with OpRead _ _ _ | OpReadSingle _ _ => true | _ => false end.

Section run_ops.
Import FastOStringStream RegisterRequest.

Lemma run_op_spec r op :
  ok (buffer_ r) -> op_ok op ->
  exists r', run_op r op = Done r' /\ ok (buffer_ r') /\
    buffer r' = buffer r ++ op_bytes op /\
    request_reply_ r' = request_reply_ r || op_reads op.
Proof.
  intros Hb Ho. unfold buffer. destruct op as [reg num type|reg type|start vs|reg v]; simpl in Ho.
  - destruct Ho as (? & ? & ?). simpl. unfold ReadMultiple.
    rewrite (proj2 (Z.ltb_lt 0 num)), (proj2 (Z.leb_le type 3)) by lia. cbn [mj_assert].
    rewrite !bind_done. cbv zeta.
    destruct (write_head (buffer_ r) kReadBase type num reg) as (b & E & ? & ?);
      [done|unfold kReadBase; lia|done..|].
    inv_bind. rewrite Hstep, bind_done, Hstep0, bind_done, E, bind_done.
    eexists. split; [done|]. simpl. by rewrite orb_true_r.
  - destruct Ho as (? & ?). simpl. unfold ReadSingle. rewrite (proj2 (Z.leb_le type 3)) by lia.
    cbn [mj_assert]. rewrite bind_done.
    destruct (write_head1 (buffer_ r) kReadBase type reg) as (b & E & ? & ?);
      [done|unfold kReadBase; lia|lia|done|].
    inv_bind. rewrite Hstep, bind_done, E, bind_done.
    eexists. split; [done|]. simpl. by rewrite orb_true_r.
  - destruct Ho as (? & Hn). destruct vs as [|v vs]; [unfold zlen in Hn; simpl in Hn; lia|]. pose proof (index_range v).
    unfold run_op, WriteMultiple. cbv zeta.
    destruct (write_head (buffer_ r) kWriteBase (index v) (zlen (v :: vs)) start) as (b & E & O & E');
      [done|unfold kWriteBase; lia|done..|].
    inv_bind. rewrite Hstep, bind_done, Hstep0, bind_done, E, bind_done.
    destruct (WriteValues_spec b (v :: vs) O) as (b2 & -> & O2 & S2). rewrite bind_done.
    eexists. split; [done|]. cbn [buffer_ request_reply_ op_bytes op_reads].
    rewrite S2, E', orb_false_r, <- app_assoc. done.
  - pose proof (index_range v). unfold run_op, WriteSingle.
    destruct (write_head1 (buffer_ r) kWriteBase (index v) reg) as (b & E & O & E');
      [done|unfold kWriteBase; lia|lia|done|].
    inv_bind. rewrite Hstep, bind_done, E, bind_done.
    unfold WriteValue. cbn [ws_write write_stream].
    destruct (fos_write_spec b (value_bytes v) O) as (b2 & -> & O2 & S2). rewrite bind_done.
    eexists. split; [done|]. cbn [buffer_ request_reply_ op_bytes op_reads].
    rewrite S2, E', orb_false_r, <- app_assoc. done.
Qed.

Lemma run_ops_spec r ops :
  ok (buffer_ r) -> Forall op_ok ops ->
  exists r', run_ops r ops = Done r' /\ ok (buffer_ r') /\
    buffer r' = buffer r ++ concat (map op_bytes ops) /\
    request_reply_ r' = request_reply_ r || existsb op_reads ops.
Proof.
  revert r; induction ops as [|op ops IH]; intros r Hb Ho.
  - exists r. simpl. by rewrite app_nil_r, orb_false_r.
  - apply Forall_cons_1 in Ho as [Ho Hos]. destruct (run_op_spec r op Hb Ho) as (r1 & E1 & O1 & B1 & R1).
    cbn [run_ops]. rewrite E1, bind_done. destruct (IH r1 O1 Hos) as (r2 & -> & O2 & B2 & R2).
    exists r2. simpl. by rewrite B2, B1, R2, R1, <- app_assoc, <- orb_assoc.
Qed.
End run_ops.

Section loop_lemmas.
Import RegisterParser.
Context {S : Type} `{ReadStreamLaws S}.

Lemma ParseRegisterReply_loop_total fuel s result :
  rs_valid s -> zlen (rs_rest s) < Z.of_nat fuel ->
  exists result' s', ParseRegisterReply_loop fuel s result = Done (result', s').
Proof.
  revert s result; induction fuel as [|n IH]; intros s result Hs Hf.
  { pose proof (zlen_nonneg (rs_rest s)). lia. }
  cbn [ParseRegisterReply_loop].
  destruct (ParseSubframe_total s result Hs) as (ok & s1 & o & -> & V1 & L1).
  rewrite bind_done. cbn beta iota. destruct ok; [|eauto]. apply IH; [done|].
  specialize (L1 eq_refl). lia.
Qed.

Lemma ParseRegisterReply_loop_replies fuel s result rs stop :
  rs_valid s -> Forall reply_ok rs -> rs_rest s = concat (map reply_bytes rs) ++ stop ->
  zlen (rs_rest s) < Z.of_nat fuel -> (stop = [] \/ exists t, stop = byte.of_Z kNop :: t) ->
  exists s', ParseRegisterReply_loop fuel s result =
    Done (result ++ concat (map reply_entries rs), s').
Proof.
  revert s result fuel. induction rs as [|r rs IH]; intros s result fuel Hs Hrs E Hf Hstop;
    (destruct fuel as [|fuel]; [pose proof (zlen_nonneg (rs_rest s)); lia|]);
    cbn [ParseRegisterReply_loop]; cbn [map concat] in *.
  - assert (exists s' r', ParseSubframe s result = Done (false, s', r') /\ ztake (zlen result) r' = result)
      as (s' & r' & -> & Er).
    { unfold ParseSubframe. destruct (ReadVaruint_ref s Hs) as (s1 & -> & V1 & E1).
      rewrite bind_done. cbn beta iota. rewrite E. exists s1, result.
      split; [|by apply ztake_ge]. destruct Hstop as [->|[t ->]]; done. }
    rewrite bind_done. cbn beta iota. rewrite Er, app_nil_r. eauto.
  - apply Forall_cons_1 in Hrs as [Hr Hrs]. rewrite <- app_assoc in E.
    destruct (ParseSubframe_reply s r result _ Hs Hr E) as (s1 & E1 & V1 & R1).
    destruct (ParseSubframe_total s result Hs) as (ok & s1' & o & E1' & _ & L1).
    rewrite E1 in E1'. injection E1' as <- <- <-. specialize (L1 eq_refl).
    rewrite E1, bind_done. cbn beta iota.
    destruct (IH s1 (result ++ reply_entries r) fuel V1 Hrs R1 ltac:(lia) Hstop) as (s2 & ->).
    rewrite <- app_assoc. eauto.
Qed.
End loop_lemmas.

(** ** Properties *)

(** A request built by any sequence of calls holds exactly the subframes
    of those calls, in order, and asks for a response once anything is read. *)
Theorem RegisterRequest_builds (ops : list request_op) :
  Forall op_ok ops ->
  exists r, run_ops RegisterRequest.make ops = Done r /\
    RegisterRequest.buffer r = concat (map op_bytes ops) /\
    RegisterRequest.request_reply_ r = existsb op_reads ops /\
    RegisterRequest.buffer (RegisterRequest.clear r) = [].
Proof.
  intros Ho. destruct (run_ops_spec RegisterRequest.make ops FastOStringStream.ok_empty Ho)
    as (r & ? & ? & ? & ?). eauto.
Qed.

Lemma RegisterRequest_builds_witness :
  Forall op_ok [OpRead 2 5 1; OpWriteSingle 2 (VInt32 0x22)] /\
  exists r, run_ops RegisterRequest.make [OpRead 2 5 1; OpWriteSingle 2 (VInt32 0x22)] = Done r /\
    RegisterRequest.buffer r = concat (map op_bytes [OpRead 2 5 1; OpWriteSingle 2 (VInt32 0x22)]) /\
    RegisterRequest.request_reply_ r = true /\
    RegisterRequest.buffer (RegisterRequest.clear r) = [].
Proof.
  assert (H : Forall op_ok [OpRead 2 5 1; OpWriteSingle 2 (VInt32 0x22)])
    by (repeat constructor; simpl; unfold in_u; lia).
  split; [exact H|]. exact (RegisterRequest_builds _ H).
Defined.

(** A reply made of any well-formed subframes, ended by the data or by a
    nop, is decoded into exactly the registers, values and errors they state,
    in order, with consecutive registers numbered modulo [2^32]. *)
Theorem ParseRegisterReply_decodes {S} `{ReadStreamLaws S} (s : S) (rs : list reply)
    (stop : list byte) (fuel : nat) :
  rs_valid s -> Forall reply_ok rs -> rs_rest s = concat (map reply_bytes rs) ++ stop ->
  (stop = [] \/ exists t, stop = byte.of_Z kNop :: t) -> zlen (rs_rest s) < Z.of_nat fuel ->
  exists s', RegisterParser.ParseRegisterReply fuel s = Done (concat (map reply_entries rs), s').
Proof.
  intros Hs Hrs E Hstop Hf.
  exact (ParseRegisterReply_loop_replies fuel s [] rs stop Hs Hrs E Hf Hstop).
Qed.

Definition witness_replies : list reply :=
  [Values 4 1 [VInt16 0x0506; VInt16 (-2)]; ErrorReply true 9 3].

Lemma ParseRegisterReply_decodes_witness :
  Forall reply_ok witness_replies /\
  exists s', RegisterParser.ParseRegisterReply 100
      (FastIStringStream.make (concat (map reply_bytes witness_replies) ++ []))
    = Done (concat (map reply_entries witness_replies), s').
Proof.
  assert (H : Forall reply_ok witness_replies).
  { repeat constructor; simpl; unfold in_u, in_s, zlen; simpl; lia. }
  split; [exact H|].
  refine (ParseRegisterReply_decodes
    (FastIStringStream.make (concat (map reply_bytes witness_replies) ++ []))
    witness_replies [] 100 _ H eq_refl (or_introl eq_refl) _).
  - apply FastIStringStream.fis_ok_make.
  - vm_compute. reflexivity.
Defined.

(** The parser is total: on every byte string it terminates, within one
    iteration more than there are bytes, with a list of results and without an
    assertion, an out-of-bounds access or an exception. *)
Theorem ParseRegisterReply_total {S} `{ReadStreamLaws S} (s : S) (fuel : nat) :
  rs_valid s -> zlen (rs_rest s) < Z.of_nat fuel ->
  exists result s', RegisterParser.ParseRegisterReply fuel s = Done (result, s').
Proof. apply ParseRegisterReply_loop_total. Qed.

Lemma ParseRegisterReply_total_witness :
  exists result s', RegisterParser.ParseRegisterReply 3
      (FastIStringStream.make [byte.of_Z 0x2f; byte.of_Z 0xff]) = Done (result, s').
Proof.
  refine (ParseRegisterReply_total (FastIStringStream.make [byte.of_Z 0x2f; byte.of_Z 0xff]) 3 _ _).
  - apply FastIStringStream.fis_ok_make.
  - vm_compute. reflexivity.
Defined.

(** *** Frames *)

(** The bytes of a frame ahead of its checksum. *)
Definition frame_head (f : Frame.Frame) : list byte :=
  le_split 2 kHeader
  ++ [byte.of_Z (Z.lor (Frame.source_id f) (if Frame.request_reply f then 0x80 else 0x00))]
  ++ [byte.of_Z (Frame.dest_id f)]
  ++ vu_bytes 5 (zlen (Frame.payload f)) ++ Frame.payload f.

Definition frame_bytes `{CrcType} (f : Frame.Frame) : list byte :=
  frame_head f ++ le_split 2 (u16 (crc_of (frame_head f))).

Section frame_lemmas.
Context `{CrcLaws} {S : Type} `{WriteStreamLaws S}.

(** [wrote] through a checksumming writer, with what was checksummed. *)
Definition crc_wrote (s : CrcStream.writer S) (d : list byte) (s' : CrcStream.writer S) : Prop :=
  wrote s d s' /\ CrcStream.wcrc s' = process_bytes (CrcStream.wcrc s) d.

Lemma crc_write s d :
  ws_valid s -> ws_fits s (zlen d) = true ->
  exists s', CrcStream.writer_write s d = Done s' /\ crc_wrote s d s'.
Proof.
  intros Hv Hf. destruct (write_wrote s d Hv Hf) as (s' & E & W). exists s'. split; [exact E|].
  split; [exact W|]. cbn in E. unfold CrcStream.writer_write in E.
  destruct (ws_write (CrcStream.wbase s) d); [|done]. by injection E as <-.
Qed.

Lemma crc_wrote_app s d s1 e s2 :
  crc_wrote s d s1 -> crc_wrote s1 e s2 -> crc_wrote s (d ++ e) s2.
Proof.
  intros [W1 C1] [W2 C2]. split; [exact (wrote_app _ _ _ _ _ W1 W2)|]. by rewrite C2, C1, process_app.
Qed.

Lemma crc_write_varuint_loop fuel s v :
  0 <= v < 128 ^ Z.of_nat fuel -> (0 < fuel)%nat -> ws_valid s -> ws_fits s (vu_len v) = true ->
  exists s', GenericWriter.WriteVaruint_loop fuel s v = Done s' /\ crc_wrote s (vu_bytes fuel v) s'.
Proof.
  revert s v; induction fuel as [|n IH]; intros s v Hv Hf Hs Hfit; [lia|].
  cbn [GenericWriter.WriteVaruint_loop vu_bytes]. pose proof (vu_len_pos v ltac:(lia)).
  unfold GenericWriter.WriteScalar. change (le_split 1 ?z) with [byte.of_Z z].
  rewrite varuint_step_byte by lia.
  destruct (crc_write s [if v <? 128 then byte.of_Z v else byte.of_Z (v mod 128 + 128)] Hs)
    as (s1 & E1 & W1); [eapply ws_fits_mono; [|exact Hfit]; change (zlen [_]) with 1; lia|].
  cbn [ws_write CrcStream.writer_stream]. rewrite E1, bind_done, shiftr7, div128_zero by lia.
  destruct (Z.ltb_spec v 128); [eauto|]. destruct n as [|n]; [simpl in Hv; lia|].
  destruct (IH s1 (v / 128)) as (s2 & E2 & W2); [by apply div128_bound|lia|apply W1| |].
  - rewrite vu_len_step in Hfit by lia. eapply fits_app; [apply W1| |exact Hfit].
    apply Z.le_trans with 1; [lia|apply vu_len_pos, Z.div_pos; lia].
  - rewrite E2. eexists. split; [done|]. exact (crc_wrote_app _ [_] _ _ _ W1 W2).
Qed.
End frame_lemmas.

Section encode_lemmas.
Context `{CrcLaws} {S : Type} `{WriteStreamLaws S}.

(** One step of the encoder, keeping track of the room left. *)
Lemma crc_step s d n :
  ws_valid s -> ws_fits s (zlen d + n) = true -> 0 <= n ->
  exists s', CrcStream.writer_write s d = Done s' /\ crc_wrote s d s' /\
             ws_valid s' /\ ws_fits s' n = true.
Proof.
  intros Hv Hf Hn. pose proof (zlen_nonneg d).
  destruct (crc_write s d Hv) as (s' & E & W); [eapply fits_app_l; [| |exact Hf]; lia|].
  exists s'. split_and!; [done..|apply W|]. eapply fits_app; [apply W|lia|exact Hf].
Qed.

Lemma encode_spec (f : Frame.Frame) (s : S) :
  in_u 32 (zlen (Frame.payload f)) -> ws_valid s ->
  ws_fits s (7 + vu_len (zlen (Frame.payload f)) + zlen (Frame.payload f)) = true ->
  exists s', Frame.encode f s = Done s' /\ ws_valid s' /\ ws_out s' = ws_out s ++ frame_bytes f.
Proof.
  intros Hp Hv Hf. pose proof (u32_fuel _ Hp) as Hp'. pose proof (vu_len_u32 _ Hp).
  pose proof (zlen_nonneg (Frame.payload f)). set (n := zlen (Frame.payload f)) in *.
  unfold Frame.encode, GenericWriter.WriteScalar, GenericWriter.WriteVaruint.
  cbn [ws_write CrcStream.writer_stream]. fold n. rewrite (uwrap_id 32 n Hp).
  destruct (crc_step (CrcStream.make_writer s) (le_split 2 kHeader) (5 + vu_len n + n) Hv)
    as (s1 & -> & W1 & V1 & F1);
    [rewrite zlen_le_split; cbn [ws_fits CrcStream.writer_laws CrcStream.make_writer CrcStream.wbase];
     rewrite <- Hf; f_equal; lia|lia|]. rewrite bind_done.
  destruct (crc_step s1 [byte.of_Z (Z.lor (Frame.source_id f)
     (if Frame.request_reply f then 0x80 else 0x00))] (4 + vu_len n + n) V1) as (s2 & E2 & W2 & V2 & F2);
    [rewrite <- F1; f_equal; change (zlen [_]) with 1; lia|lia|].
  change (le_split 1 ?z) with [byte.of_Z z]. rewrite E2, bind_done.
  destruct (crc_step s2 [byte.of_Z (Frame.dest_id f)] (3 + vu_len n + n) V2) as (s3 & E3 & W3 & V3 & F3);
    [rewrite <- F2; f_equal; change (zlen [_]) with 1; lia|lia|].
  rewrite E3, bind_done.
  destruct (crc_write_varuint_loop 5 s3 n Hp') as (s4 & -> & W4);
    [lia|done|eapply ws_fits_mono; [|exact F3]; lia|]. rewrite bind_done.
  assert (ws_fits s4 (n + 2) = true) as F4.
  { destruct W4 as [(_ & _ & F4) _]. rewrite F4, zlen_vu_bytes by (done || lia).
    eapply ws_fits_mono; [|exact F3]. lia. }
  destruct (crc_step s4 (Frame.payload f) 2 (proj1 (proj1 W4)) F4) as (s5 & -> & W5 & V5 & F5);
    [lia|]. rewrite bind_done.
  destruct (crc_step s5 (le_split 2 (u16 (CrcStream.writer_checksum s5))) 0 V5) as (s6 & -> & W6 & V6 & _);
    [by rewrite zlen_le_split|lia|]. rewrite bind_done.
  pose proof (crc_wrote_app _ _ _ _ _ W1 (crc_wrote_app _ _ _ _ _ W2
    (crc_wrote_app _ _ _ _ _ W3 (crc_wrote_app _ _ _ _ _ W4 W5)))) as W.
  fold (frame_head f) in W. eexists. split; [done|]. split; [apply V6|].
  destruct W6 as [(_ & O6 & _) _], W as [(_ & O & _) C]. cbn [ws_out CrcStream.writer_laws] in *.
  rewrite O6, O, <- app_assoc. cbn [CrcStream.make_writer CrcStream.wbase CrcStream.wcrc] in *.
  do 2 f_equal. unfold frame_bytes, CrcStream.writer_checksum. by rewrite C.
Qed.
End encode_lemmas.

(** Encoding a frame appends header, source with the reply bit,
    destination, payload size and payload, and then the 16-bit checksum of all
    of that, on any stream with room for it. *)
Theorem Frame_encode_bytes `{CrcLaws} {S} `{WriteStreamLaws S} (f : Frame.Frame) (s : S) :
  in_u 32 (zlen (Frame.payload f)) -> ws_valid s ->
  ws_fits s (7 + vu_len (zlen (Frame.payload f)) + zlen (Frame.payload f)) = true ->
  exists s', Frame.encode f s = Done s' /\ ws_out s' = ws_out s ++ frame_bytes f.
Proof. intros. destruct (encode_spec f s) as (s' & ? & ? & ?); eauto. Qed.

(** A checksum for the witnesses: the sum of the bytes, modulo [2^16]. *)
#[export] Instance sum_crc : CrcType := {|
  crc_state := Z; crc_init := 0;
  process_bytes c d := foldl (fun a b => (a + byte.unsigned b) mod 65536) c d;
  checksum c := c |}.

#[export] Instance sum_crc_laws : CrcLaws.
Proof. constructor; [done|]. intros c a b. apply foldl_app. Qed.

Definition witness_frame : Frame.Frame :=
  {| Frame.source_id := 1; Frame.request_reply := true; Frame.dest_id := 2;
     Frame.payload := map byte.of_Z [0x11; 0x05] |}.

Lemma Frame_encode_bytes_witness :
  exists s', Frame.encode witness_frame FastOStringStream.empty = Done s' /\
    FastOStringStream.str s' = [] ++ frame_bytes witness_frame.
Proof.
  refine (Frame_encode_bytes witness_frame FastOStringStream.empty _ FastOStringStream.ok_empty eq_refl).
  split; vm_compute; [discriminate|reflexivity].
Defined.
