(* ===== verification/MicroServer.v ===== *)
(** * multiplex/micro_server.cc: the server end of the multiplex protocol

    [MicroServer::Impl] with its tunnels, its register and tunnel subframes
    and its frame handling.  The application ([MicroServer::Server]), the
    users of the tunnels (the callbacks they register) and the datagram
    transport are parameters: the first two records of functions, the last
    the sequence of events that drives the handlers. *)
From S2P Require Import Prelude Varuint Streams MultiplexStream.
Import Format.

(** ** The interfaces *)

Inductive WriteAction := kSuccess | kUnknownRegister | kNotWriteable | kDiscardRemaining.
Inductive Action := kAccept | kDiscard.

(** [MicroServer::Server], over the application's own state. *)
Record Server (T : Type) := {
  StartFrame : T -> T;
  Write : T -> Z -> Value -> WriteAction * T;
  Read : T -> Z -> Z -> ReadResult;
  CompleteFrame : T -> Action * T;
}.
Arguments StartFrame {T}. Arguments Write {T}. Arguments Read {T}. Arguments CompleteFrame {T}.

(** What the callbacks of a tunnel's users do: besides changing the users'
    own state they may start further operations on the tunnels. *)
Inductive Call :=
  | CallRead (tunnel : nat) (size : Z)
  | CallWrite (tunnel : nat) (data : list byte).

Record Client (C : Type) := {
  on_read : C -> nat -> list byte -> C * list Call;
  on_write : C -> nat -> Z -> C * list Call;
}.
Arguments on_read {C}. Arguments on_write {C}.

(** [MicroDatagramServer::Header] *)
Record Header := { h_source : Z; h_destination : Z; h_size : Z; h_flags : Z }.

(** ** State *)
Record Stats := {
  wrong_id : Z; receive_overrun : Z; unknown_subframe : Z; missing_subframe : Z;
  malformed_subframe : Z; write_error : Z; last_write_error : Z; discards : Z }.

Definition stats0 : Stats :=
  {| wrong_id := 0; receive_overrun := 0; unknown_subframe := 0; missing_subframe := 0;
     malformed_subframe := 0; write_error := 0; last_write_error := 0; discards := 0 |}.

Inductive counter := CWrongId | CReceiveOverrun | CUnknown | CMissing | CMalformed | CDiscards.

(** [stats_.x++] on a [uint32_t]. *)
Definition bump (c : counter) (s : Stats) : Stats :=
  let b k x := if k : bool then u32 (x + 1) else x in
  let hit c' := match c, c' with
    | CWrongId, CWrongId | CReceiveOverrun, CReceiveOverrun | CUnknown, CUnknown
    | CMissing, CMissing | CMalformed, CMalformed | CDiscards, CDiscards => true
    | _, _ => false end in
  {| wrong_id := b (hit CWrongId) (wrong_id s);
     receive_overrun := b (hit CReceiveOverrun) (receive_overrun s);
     unknown_subframe := b (hit CUnknown) (unknown_subframe s);
     missing_subframe := b (hit CMissing) (missing_subframe s);
     malformed_subframe := b (hit CMalformed) (malformed_subframe s);
     write_error := write_error s; last_write_error := last_write_error s;
     discards := b (hit CDiscards) (discards s) |}.

(** [TunnelStream]: [t_read_size] is the size of the span a pending read
    fills, 0 when there is none; [t_data] is the part of [read_data_] in use;
    [t_write] is the data of the pending write, empty when there is none. *)
Record Tunnel := {
  t_id : Z; t_read_size : Z; t_data : list byte; t_write : list byte }.

Definition tunnel0 : Tunnel := {| t_id := 0; t_read_size := 0; t_data := []; t_write := [] |}.
Definition read_data_size_max : Z := 128.

Section Impl.
Context {T C : Type} (server : Server T) (client : Client C).

(** The part of [Impl] that handling subframes touches. *)
Record State := {
  tunnels : list Tunnel; anything_to_do : bool; stats : Stats; srv : T; cli : C }.

Definition set_tunnels (ts : list Tunnel) (s : State) : State :=
  {| tunnels := ts; anything_to_do := anything_to_do s; stats := stats s; srv := srv s; cli := cli s |}.
Definition set_todo (b : bool) (s : State) : State :=
  {| tunnels := tunnels s; anything_to_do := b; stats := stats s; srv := srv s; cli := cli s |}.
Definition count (c : counter) (s : State) : State :=
  {| tunnels := tunnels s; anything_to_do := anything_to_do s; stats := bump c (stats s);
     srv := srv s; cli := cli s |}.
Definition set_srv (t : T) (s : State) : State :=
  {| tunnels := tunnels s; anything_to_do := anything_to_do s; stats := stats s; srv := t; cli := cli s |}.
Definition set_cli (c : C) (s : State) : State :=
  {| tunnels := tunnels s; anything_to_do := anything_to_do s; stats := stats s; srv := srv s; cli := c |}.

(** Access to a tunnel through its index in [tunnels_]. *)
Definition tunnel_at (s : State) (i : nat) : outcome Tunnel :=
  match tunnels s !! i with Some t => Done t | None => Faulted Undefined end.
Definition put_tunnel (i : nat) (t : Tunnel) (s : State) : State :=
  set_tunnels (<[i := t]> (tunnels s)) s.

(** ** class TunnelStream *)
Definition AsyncReadSome (s : State) (i : nat) (size : Z) : outcome State :=
  t ← tunnel_at s i;
  _ ← mj_assert (t_read_size t =? 0);
  let s := put_tunnel i {| t_id := t_id t; t_read_size := size; t_data := t_data t;
                           t_write := t_write t |} s in
  Done (if negb (size =? 0) && negb (zlen (t_data t) =? 0) then set_todo true s else s).

Definition AsyncWriteSome (s : State) (i : nat) (data : list byte) : outcome State :=
  t ← tunnel_at s i;
  _ ← mj_assert (zlen (t_write t) =? 0);
  Done (put_tunnel i {| t_id := t_id t; t_read_size := t_read_size t; t_data := t_data t;
                        t_write := data |} s).

Definition run_call (s : State) (c : Call) : outcome State :=
  match c with
  | CallRead i size => AsyncReadSome s i size
  | CallWrite i data => AsyncWriteSome s i data
  end.

Fixpoint run_calls (s : State) (cs : list Call) : outcome State :=
  match cs with [] => Done s | c :: cs => s ← run_call s c; run_calls s cs end.

Definition DoReadTransfer (s : State) (i : nat) : outcome (bool * State) :=
  t ← tunnel_at s i;
  if zlen (t_data t) =? 0 then Done (false, s)
  else if t_read_size t =? 0 then Done (false, s)
  else
    let to_copy := Z.min (t_read_size t) (zlen (t_data t)) in
    let copied := ztake to_copy (t_data t) in
    let s := put_tunnel i {| t_id := t_id t; t_read_size := 0;
                             t_data := zdrop to_copy (t_data t); t_write := t_write t |} s in
    let '(c, calls) := on_read client (cli s) i copied in
    s ← run_calls (set_cli c s) calls;
    Done (true, s).

(** [MakeTunnel] returns the index of the stream it hands out. *)
Definition MakeTunnel (s : State) (id : Z) : outcome (nat * State) :=
  _ ← mj_assert (negb (id =? 0));
  match list_find (fun t => t_id t = 0) (tunnels s) with
  | Some (i, t) =>
      Done (i, put_tunnel i {| t_id := id; t_read_size := t_read_size t; t_data := t_data t;
                               t_write := t_write t |} s)
  | None => Faulted Assertion
  end.

Definition FindTunnel (s : State) (id : Z) : option nat :=
  match list_find (fun t => t_id t = id) (tunnels s) with Some (i, _) => Some i | None => None end.

(** The loop of [Poll] over the tunnels. *)
Fixpoint Poll_loop (s : State) (idx : list nat) (all_done : bool) : outcome (bool * State) :=
  match idx with
  | [] => Done (all_done, s)
  | i :: idx =>
      '(moved, s) ← DoReadTransfer s i;
      Poll_loop s idx (if moved : bool then false else all_done)
  end.

Definition Poll (s : State) : outcome State :=
  if negb (anything_to_do s) then Done s
  else
    '(all_done, s) ← Poll_loop s (seq 0 (length (tunnels s))) true;
    Done (if all_done : bool then set_todo false s else s).

(** ** Subframes

    [str] is the request being parsed, [w] the response being written and
    [resp] whether [response_stream] is not null.  The response is written
    through the unchecked buffer writer, as in the source. *)
Context (max_size : Z).

Definition kNeededOverhead : Z := kMaxVaruintSize + kCrcSize + 16.

(** The end both tunnel subframes share: the size, the data and, when any was
    sent, the completion of the pending write. *)
Definition send_tunnel_data (s : State) (i : nat) (w : BufferWriteStream.t) (to_copy : Z)
    : outcome (State * BufferWriteStream.t) :=
  w ← BufferWriter.WriteVaruint w to_copy;
  if 0 <? to_copy then
    t ← tunnel_at s i;
    w ← BufferWriteStream.write w (ztake to_copy (t_write t));
    let s := put_tunnel i {| t_id := t_id t; t_read_size := t_read_size t; t_data := t_data t;
                             t_write := [] |} s in
    let '(c, calls) := on_write client (cli s) i to_copy in
    s ← run_calls (set_cli c s) calls;
    Done (s, w)
  else Done (s, w).

Definition ProcessSubframeClientToServer (s : State) (str : BufferReadStream.t)
    (w : BufferWriteStream.t) (resp : bool)
    : outcome (bool * State * BufferReadStream.t * BufferWriteStream.t) :=
  '(maybe_channel, str) ← BufferReader.ReadVaruint str;
  '(maybe_bytes, str) ← BufferReader.ReadVaruint str;
  match maybe_channel, maybe_bytes with
  | Some channel, Some bytes =>
    if BufferReadStream.remaining str <? bytes then Done (true, s, str, w)
    else
    match FindTunnel s channel with
    | None => Done (true, s, str, w)
    | Some i =>
      t ← tunnel_at s i;
      let remaining_space := read_data_size_max - zlen (t_data t) in
      '(s, str) ←
        (if remaining_space <? bytes then Done (count CReceiveOverrun s, str)
         else
           '(data, str) ← BufferReadStream.read str bytes;
           Done (put_tunnel i {| t_id := t_id t; t_read_size := t_read_size t;
                                 t_data := t_data t ++ data; t_write := t_write t |} s, str));
      '(_, s) ← DoReadTransfer s i;
      let s := set_todo true s in
      if resp : bool then
        w ← BufferWriter.WriteVaruint w kServerToClient;
        w ← BufferWriter.WriteVaruint w channel;
        t ← tunnel_at s i;
        let to_copy := Z.min (max_size - kNeededOverhead)
          (Z.min (zlen (t_write t)) (BufferWriteStream.remaining w - kNeededOverhead)) in
        '(s, w) ← send_tunnel_data s i w to_copy;
        Done (false, s, str, w)
      else Done (false, s, str, w)
    end
  | _, _ => Done (true, s, str, w)
  end.

Definition ProcessSubframeClientPollServer (s : State) (str : BufferReadStream.t)
    (w : BufferWriteStream.t) (resp : bool)
    : outcome (bool * State * BufferReadStream.t * BufferWriteStream.t) :=
  '(maybe_channel, str) ← BufferReader.ReadVaruint str;
  '(maybe_max_bytes, str) ← BufferReader.ReadVaruint str;
  match maybe_channel, maybe_max_bytes with
  | Some channel, Some max_bytes =>
    match FindTunnel s channel with
    | None => Done (true, s, str, w)
    | Some i =>
      if resp : bool then
        w ← BufferWriter.WriteVaruint w kServerToClient;
        w ← BufferWriter.WriteVaruint w channel;
        t ← tunnel_at s i;
        let to_copy := Z.min (max_size - kNeededOverhead)
          (Z.min max_bytes
             (Z.min (zlen (t_write t)) (BufferWriteStream.remaining w - kNeededOverhead))) in
        '(s, w) ← send_tunnel_data s i w to_copy;
        Done (false, s, str, w)
      else Done (false, s, str, w)
    end
  | _, _ => Done (true, s, str, w)
  end.

Definition ReadValue (type : Z) (str : BufferReadStream.t)
    : outcome (option Value * BufferReadStream.t) :=
  _ ← mj_assert (type <=? 3);
  '(maybe, str) ← BufferReader.ReadScalar (Z.to_nat (type_size type)) str;
  Done (option_map (value_of_bytes type) maybe, str).

Definition EmitWriteError (w : BufferWriteStream.t) (resp : bool) (error_reg error : Z)
    : outcome BufferWriteStream.t :=
  if resp then
    w ← BufferWriter.WriteVaruint w kWriteError;
    w ← BufferWriter.WriteVaruint w error_reg;
    BufferWriter.WriteVaruint w error
  else Done w.

Definition EmitReadError (w : BufferWriteStream.t) (reg error : Z) : outcome BufferWriteStream.t :=
  w ← BufferWriter.WriteVaruint w kReadError;
  w ← BufferWriter.WriteVaruint w reg;
  BufferWriter.WriteVaruint w error.

(** [EmitReadResult] and [EmitRead] are declared in the source and not called. *)
Definition EmitReadResult (w : BufferWriteStream.t) (reg : Z) (value : Value)
    : outcome BufferWriteStream.t :=
  w ← BufferWriter.WriteVaruint w (Z.lor 0x20 (index value));
  w ← BufferWriter.WriteVaruint w reg;
  BufferWriter.WriteValue w value.

Definition EmitRead (w : BufferWriteStream.t) (reg : Z) (read_result : ReadResult)
    : outcome BufferWriteStream.t :=
  match read_result with
  | RValue v => EmitReadResult w reg v
  | RError e => EmitReadError w reg e
  end.

Inductive SubframeAction := kContinue | kMalformed | kDiscardFrame.

(** The count of a register subframe: in its two low bits or a varuint. *)
Definition read_count (encoded_length : Z) (str : BufferReadStream.t)
    : outcome (option Z * BufferReadStream.t) :=
  if encoded_length =? 0 then BufferReader.ReadVaruint str else Done (Some encoded_length, str).

Fixpoint Write_loop (n : nat) (s : State) (str : BufferReadStream.t) (w : BufferWriteStream.t)
    (resp : bool) (type current_register : Z)
    : outcome (SubframeAction * State * BufferReadStream.t * BufferWriteStream.t) :=
  match n with
  | O => Done (kContinue, s, str, w)
  | S n =>
      '(maybe_value, str) ← ReadValue type str;
      match maybe_value with
      | None => Done (kMalformed, s, str, w)
      | Some value =>
          let '(write_action, t) := Write server (srv s) current_register value in
          let s := set_srv t s in
          match write_action with
          | kDiscardRemaining => Done (kDiscardFrame, count CDiscards s, str, w)
          | _ =>
              w ← (match write_action with
                   | kUnknownRegister => EmitWriteError w resp current_register 1
                   | kNotWriteable => EmitWriteError w resp current_register 2
                   | _ => Done w end);
              Write_loop n s str w resp type (u32 (current_register + 1))
          end
      end
  end.

Definition ProcessSubframeWrite (type_length : Z) (s : State) (str : BufferReadStream.t)
    (w : BufferWriteStream.t) (resp : bool)
    : outcome (SubframeAction * State * BufferReadStream.t * BufferWriteStream.t) :=
  let encoded_length := type_length mod 4 in
  let type := type_length / 4 in
  '(num_registers, str) ← read_count encoded_length str;
  match num_registers with
  | None => Done (kMalformed, s, str, w)
  | Some num_registers =>
      '(start_register, str) ← BufferReader.ReadVaruint str;
      match start_register with
      | None => Done (kMalformed, s, str, w)
      | Some start_register =>
          Write_loop (Z.to_nat num_registers) s str w resp type start_register
      end
  end.

(** [start] is the write position saved for the error path. *)
Fixpoint Read_loop (n : nat) (s : State) (w : BufferWriteStream.t) (start type current_register : Z)
    : outcome (bool * BufferWriteStream.t) :=
  match n with
  | O => Done (false, w)
  | S n =>
      match Read server (srv s) current_register type with
      | RValue v =>
          w ← BufferWriter.WriteValue w v;
          Read_loop n s w start type (u32 (current_register + 1))
      | RError e =>
          w ← BufferWriteStream.reset w start;
          w ← EmitReadError w current_register e;
          Done (true, w)
      end
  end.

Definition ProcessSubframeRead (type_length : Z) (s : State) (str : BufferReadStream.t)
    (w : BufferWriteStream.t) (resp : bool)
    : outcome (bool * BufferReadStream.t * BufferWriteStream.t) :=
  if negb resp then Done (false, str, w)
  else
  let encoded_length := type_length mod 4 in
  let type := type_length / 4 in
  '(num_registers, str) ← read_count encoded_length str;
  match num_registers with
  | None => Done (true, str, w)
  | Some num_registers =>
      '(start_register, str) ← BufferReader.ReadVaruint str;
      match start_register with
      | None => Done (true, str, w)
      | Some start_register =>
          let start := BufferWriteStream.position w in
          w ← BufferWriter.WriteVaruint w (Z.lor (Z.lor kReplyBase (type * 4)) encoded_length);
          w ← (if encoded_length =? 0 then BufferWriter.WriteVaruint w num_registers else Done w);
          w ← BufferWriter.WriteVaruint w start_register;
          '(malformed, w) ← Read_loop (Z.to_nat num_registers) s w start type start_register;
          Done (malformed, str, w)
      end
  end.

(** The [while (buffer_stream.remaining())] loop: every iteration reads at
    least the type of a subframe, so one unit of fuel a byte is enough. *)
Fixpoint ProcessSubframes_loop (fuel : nat) (s : State) (str : BufferReadStream.t)
    (w : BufferWriteStream.t) (resp : bool) : outcome (State * BufferWriteStream.t) :=
  match fuel with
  | O => Faulted OutOfFuel
  | S fuel =>
    if BufferReadStream.remaining str =? 0 then Done (s, w)
    else
    '(maybe_subframe_type, str) ← BufferReader.ReadVaruint str;
    match maybe_subframe_type with
    | None => Done (count CMissing s, w)
    | Some subframe_type =>
      if subframe_type =? kClientToServer then
        '(malformed, s, str, w) ← ProcessSubframeClientToServer s str w resp;
        if malformed : bool then Done (count CMalformed s, w)
        else ProcessSubframes_loop fuel s str w resp
      else if subframe_type =? kClientPollServer then
        '(malformed, s, str, w) ← ProcessSubframeClientPollServer s str w resp;
        if malformed : bool then Done (count CMalformed s, w)
        else ProcessSubframes_loop fuel s str w resp
      else if subframe_type =? kNop then ProcessSubframes_loop fuel s str w resp
      else if (kWriteBase <=? subframe_type) && (subframe_type <? kWriteBase + 16) then
        '(action, s, str, w) ← ProcessSubframeWrite (subframe_type - kWriteBase) s str w resp;
        match action with
        | kMalformed => Done (count CMalformed s, w)
        | kDiscardFrame => Done (s, w)
        | kContinue => ProcessSubframes_loop fuel s str w resp
        end
      else if (kReadBase <=? subframe_type) && (subframe_type <? kReadBase + 16) then
        '(malformed, str, w) ← ProcessSubframeRead (subframe_type - kReadBase) s str w resp;
        if malformed : bool then Done (count CMalformed s, w)
        else ProcessSubframes_loop fuel s str w resp
      else Done (count CUnknown s, w)
    end
  end.

Definition ProcessSubframes (s : State) (subframes : list byte) (w : BufferWriteStream.t)
    (resp : bool) : outcome (State * BufferWriteStream.t) :=
  ProcessSubframes_loop (S (length subframes)) s (BufferReadStream.make subframes) w resp.

(** ** Frames *)

(** A write handed to the datagram transport: header, data and the header of
    the frame it answers. *)
Record Sent := { tx_header : Header; tx_data : list byte; tx_query : Header }.

Record Impl := {
  core : State;
  config_id : Z;
  read_header : Header;
  read_buffer : list byte;
  read_outstanding : bool;
  write_buffer : list byte;
  write_outstanding : bool;
  sent : list Sent;
}.

Definition with_core (c : State) (m : Impl) : Impl :=
  {| core := c; config_id := config_id m; read_header := read_header m;
     read_buffer := read_buffer m; read_outstanding := read_outstanding m;
     write_buffer := write_buffer m; write_outstanding := write_outstanding m; sent := sent m |}.
Definition with_read (h : Header) (b : list byte) (o : bool) (m : Impl) : Impl :=
  {| core := core m; config_id := config_id m; read_header := h; read_buffer := b;
     read_outstanding := o; write_buffer := write_buffer m;
     write_outstanding := write_outstanding m; sent := sent m |}.
Definition with_write (b : list byte) (o : bool) (log : list Sent) (m : Impl) : Impl :=
  {| core := core m; config_id := config_id m; read_header := read_header m;
     read_buffer := read_buffer m; read_outstanding := read_outstanding m;
     write_buffer := b; write_outstanding := o; sent := log |}.

(** The read is left to the transport, which completes it by an event. *)
Definition MaybeStartReadFrame (m : Impl) : Impl :=
  if read_outstanding m then m else with_read (read_header m) (read_buffer m) true m.

Definition WriteResponse (m : Impl) (client_id response_size : Z) : outcome Impl :=
  _ ← mj_assert (negb (write_outstanding m));
  data ← load (write_buffer m) 0 response_size;
  let write_header := {| h_source := Z.land (config_id m) 0x7f; h_destination := client_id;
                         h_size := response_size; h_flags := 0 |} in
  Done (with_write (write_buffer m) true
          (sent m ++ [{| tx_header := write_header; tx_data := data; tx_query := read_header m |}]) m).

Definition HandleWrite (m : Impl) (ec : Z) : Impl :=
  let s := core m in
  let st := stats s in
  let st := if ec =? 0 then st else
    {| wrong_id := wrong_id st; receive_overrun := receive_overrun st;
       unknown_subframe := unknown_subframe st; missing_subframe := missing_subframe st;
       malformed_subframe := malformed_subframe st; write_error := u32 (write_error st + 1);
       last_write_error := u32 ec; discards := discards st |} in
  with_write (write_buffer m) false (sent m)
    (with_core {| tunnels := tunnels s; anything_to_do := anything_to_do s; stats := st;
                  srv := srv s; cli := cli s |} m).

Definition ProcessFrame (m : Impl) : outcome Impl :=
  let h := read_header m in
  let mine := Z.land (config_id m) 0x7f in
  let broadcast := h_destination h =? kBroadcastId in
  let m := if broadcast || negb (h_destination h =? mine)
           then with_core (count CWrongId (core m)) m else m in
  if negb broadcast && negb (h_destination h =? mine) then Done m
  else
    let need_response := negb (Z.land (h_source h) 0x80 =? 0) && negb (write_outstanding m) in
    let s := set_srv (StartFrame server (srv (core m))) (core m) in
    subframes ← load (read_buffer m) 0 (h_size h);
    '(s, w) ← ProcessSubframes s subframes (BufferWriteStream.make (write_buffer m)) need_response;
    let '(action, t) := CompleteFrame server (srv s) in
    let m := with_core (set_srv t s) m in
    let m := with_write (BufferWriteStream.buffer w) (write_outstanding m) (sent m) m in
    match action with
    | kDiscard => Done (with_core (count CDiscards (core m)) m)
    | kAccept =>
        if need_response
        then WriteResponse m (Z.land (h_source h) 0x7f) (BufferWriteStream.offset w)
        else Done m
    end.

(** [HandleReadDatagram]: the transport has filled in the header and the
    buffer. *)
Definition HandleReadDatagram (m : Impl) (ec : Z) (h : Header) (buf : list byte) : outcome Impl :=
  let m := with_read h buf false m in
  if negb (ec =? 0) then Done (MaybeStartReadFrame m)
  else
    m ← ProcessFrame m;
    Done (MaybeStartReadFrame m).

Definition Start (m : Impl) : Impl := MaybeStartReadFrame m.

(** ** Events

    What drives the server once started: completions of the transport, calls
    of the tunnels' users, [Poll], and whoever holds the pointer [config()]
    returns. *)
Definition configure (m : Impl) (id : Z) : Impl :=
  {| core := core m; config_id := id; read_header := read_header m;
     read_buffer := read_buffer m; read_outstanding := read_outstanding m;
     write_buffer := write_buffer m; write_outstanding := write_outstanding m; sent := sent m |}.

Inductive event :=
  | EvRead (ec : Z) (h : Header) (buf : list byte)
  | EvWritten (ec : Z)
  | EvTunnel (c : Call)
  | EvPoll
  | EvConfigure (id : Z).

Definition step (m : Impl) (e : event) : outcome Impl :=
  match e with
  | EvRead ec h buf => HandleReadDatagram m ec h buf
  | EvWritten ec => Done (HandleWrite m ec)
  | EvTunnel c => s ← run_call (core m) c; Done (with_core s m)
  | EvPoll => s ← Poll (core m); Done (with_core s m)
  | EvConfigure id => Done (configure m id)
  end.

(** The transport completes only what is outstanding, and leaves the buffer
    it was given at its size. *)
Definition enabled (m : Impl) (e : event) : Prop :=
  match e with
  | EvRead _ h buf => read_outstanding m = true /\ zlen buf = zlen (read_buffer m)
  | EvWritten _ => write_outstanding m = true
  | EvTunnel _ | EvPoll => True
  | EvConfigure id => in_u 8 id
  end.

Inductive steps : Impl -> list event -> Impl -> Prop :=
  | steps_nil m : steps m [] m
  | steps_cons m e m1 es m2 :
      enabled m e -> step m e = Done m1 -> steps m1 es m2 -> steps m (e :: es) m2.
End Impl.

(** ** Lemmas *)

(** A client that keeps to the contract of a stream: a completion may start
    the next operation of the same kind on the same tunnel, and nothing else. *)
Definition polite {C} (client : Client C) : Prop :=
  (forall c i d, (on_read client c i d).2 = [] \/
     exists n, 0 <= n /\ (on_read client c i d).2 = [CallRead i n]) /\
  (forall c i n, (on_write client c i n).2 = [] \/
     exists d, (on_write client c i n).2 = [CallWrite i d]).

Definition tunnel_ok (t : Tunnel) : Prop :=
  0 <= t_read_size t /\ zlen (t_data t) <= read_data_size_max.

Section invariants.
Context {T C : Type} (server : Server T) (client : Client C).
Abbreviation St := (@State T C).
Implicit Types (s : St).

Definition state_ok (s : St) : Prop := Forall tunnel_ok (tunnels s).

(** [keeps s s']: the tunnels are the same ones, and still well formed. *)
Definition keeps (s s' : St) : Prop :=
  state_ok s' /\ map t_id (tunnels s') = map t_id (tunnels s).

Lemma keeps_refl s : state_ok s -> keeps s s.
Proof. done. Qed.

Lemma keeps_trans s1 s2 s3 : keeps s1 s2 -> keeps s2 s3 -> keeps s1 s3.
Proof. intros [? E1] [? E2]. split; [done|]. by rewrite E2. Qed.

Lemma put_tunnel_keeps s i t t' :
  state_ok s -> tunnels s !! i = Some t -> tunnel_ok t' -> t_id t' = t_id t ->
  keeps s (put_tunnel i t' s).
Proof.
  intros Hs Hi Ht Hid. split; simpl.
  - by apply Forall_insert.
  - change (@map Tunnel Z) with (@fmap list list_fmap Tunnel Z).
    rewrite list_fmap_insert, Hid. apply list_insert_id. by rewrite list_lookup_fmap, Hi.
Qed.

Lemma tunnel_at_done s i t : tunnel_at s i = Done t -> tunnels s !! i = Some t.
Proof. unfold tunnel_at. case_match; congruence. Qed.

Lemma tunnel_ok_at s i t : state_ok s -> tunnels s !! i = Some t -> tunnel_ok t.
Proof. intros Hs. by apply Forall_lookup_1. Qed.

Lemma lookup_put s i t t' : tunnels s !! i = Some t -> tunnels (put_tunnel i t' s) !! i = Some t'.
Proof.
  intros Hi. simpl. apply list_lookup_insert_eq. by eapply lookup_lt_Some.
Qed.

Lemma AsyncReadSome_ok s i t n :
  state_ok s -> tunnels s !! i = Some t -> t_read_size t = 0 -> 0 <= n ->
  exists s', AsyncReadSome s i n = Done s' /\ keeps s s'.
Proof.
  intros Hs Hi Hr Hn. unfold AsyncReadSome, tunnel_at. rewrite Hi, bind_done, Hr.
  cbn [mj_assert Z.eqb]. rewrite bind_done. eexists. split; [done|].
  assert (keeps s (put_tunnel i {| t_id := t_id t; t_read_size := n; t_data := t_data t;
            t_write := t_write t |} s)).
  { eapply put_tunnel_keeps; [done..| |done]. split; [done|]. by apply (tunnel_ok_at _ _ _ Hs Hi). }
  case_match; done.
Qed.

Lemma AsyncWriteSome_ok s i t d :
  state_ok s -> tunnels s !! i = Some t -> t_write t = [] ->
  exists s', AsyncWriteSome s i d = Done s' /\ keeps s s'.
Proof.
  intros Hs Hi Hw. unfold AsyncWriteSome, tunnel_at. rewrite Hi, bind_done, Hw.
  cbn [mj_assert]. eexists. split; [done|].
  eapply put_tunnel_keeps; [done..| |done]. by apply (tunnel_ok_at _ _ _ Hs Hi).
Qed.

Lemma FindTunnel_lookup (s : St) id i :
  FindTunnel s id = Some i -> exists t, tunnels s !! i = Some t /\ t_id t = id.
Proof.
  unfold FindTunnel. destruct (list_find _ _) as [[j t]|] eqn:E; [|done]. intros [= ->].
  apply list_find_Some in E as (? & ? & _). eauto.
Qed.

Context (Hpolite : polite client).

(** Data reaches a waiting reader in order; the transfer cannot fail. *)
Lemma DoReadTransfer_ok s i t :
  state_ok s -> tunnels s !! i = Some t ->
  exists moved s', DoReadTransfer client s i = Done (moved, s') /\ keeps s s'.
Proof.
  intros Hs Hi. pose proof (tunnel_ok_at _ _ _ Hs Hi) as [? ?].
  unfold DoReadTransfer, tunnel_at. rewrite Hi, bind_done.
  destruct (Z.eqb_spec (zlen (t_data t)) 0); [by eexists _, s|].
  destruct (Z.eqb_spec (t_read_size t) 0); [by eexists _, s|]. cbv zeta.
  set (t' := {| t_id := t_id t; t_read_size := 0; t_data := _; t_write := t_write t |}).
  assert (keeps s (put_tunnel i t' s)) as K.
  { eapply put_tunnel_keeps; [done..| |done]. split; [done|]. simpl.
    pose proof (zlen_nonneg (t_data t)). rewrite zlen_drop by lia. lia. }
  destruct (on_read client (cli (put_tunnel i t' s)) i _) as [c calls] eqn:E.
  assert (exists s', run_calls (set_cli c (put_tunnel i t' s)) calls = Done s' /\
            keeps (put_tunnel i t' s) s') as (s' & -> & K').
  { destruct (proj1 Hpolite (cli (put_tunnel i t' s)) i
      (ztake (Z.min (t_read_size t) (zlen (t_data t))) (t_data t))) as [Hc|(sz & Hn & Hc)];
      rewrite E in Hc; simpl in Hc; subst calls.
    - eexists. split; [done|]. split; [apply K|done].
    - cbn [run_calls run_call].
      destruct (AsyncReadSome_ok (set_cli c (put_tunnel i t' s)) i t' sz) as (s' & -> & K');
        [apply K|by eapply lookup_put|done|done|]. rewrite bind_done. by exists s'. }
  rewrite bind_done. eexists _, s'. split; [done|]. by eapply keeps_trans.
Qed.
(** *** Subframes without a response

    When no response is wanted every subframe handler runs to completion, on
    any data, and leaves the response buffer alone. *)
Definition shorter (str' str : BufferReadStream.t) : Prop :=
  BufferReadStream.ok str' /\
  zlen (BufferReadStream.rest str') <= zlen (BufferReadStream.rest str).

Lemma shorter_trans a b c : shorter a b -> shorter b c -> shorter a c.
Proof. unfold shorter. intros [? ?] [? ?]. split; [done|lia]. Qed.

Lemma shorter_refl a : BufferReadStream.ok a -> shorter a a.
Proof. unfold shorter. split; [done|lia]. Qed.

Lemma read_two (str : BufferReadStream.t) :
  BufferReadStream.ok str -> exists o1 o2 str1 str2,
    BufferReader.ReadVaruint str = Done (o1, str1) /\
    BufferReader.ReadVaruint str1 = Done (o2, str2) /\ shorter str2 str /\
    (forall v, o2 = Some v -> in_u 32 v).
Proof.
  intros Ho. destruct (brs_varuint_total str Ho) as (o1 & s1 & E1 & O1 & L1 & _).
  destruct (brs_varuint_total s1 O1) as (o2 & s2 & E2 & O2 & L2 & R2).
  exists o1, o2, s1, s2. split_and!; [done|done|split; [done|lia]|]. intros v Hv. by apply R2.
Qed.

Lemma ClientToServer_quiet max_size s (str : BufferReadStream.t) w :
  state_ok s -> BufferReadStream.ok str ->
  exists b s' str', ProcessSubframeClientToServer client max_size s str w false = Done (b, s', str', w) /\
    keeps s s' /\ shorter str' str.
Proof.
  intros Hs Ho. unfold ProcessSubframeClientToServer.
  destruct (read_two str Ho) as (o1 & o2 & str1 & str2 & -> & E2 & L2 & R2).
  rewrite bind_done. cbn beta iota. rewrite E2, bind_done. cbn beta iota.
  destruct o1 as [channel|]; [|by eexists _, s, str2].
  destruct o2 as [bytes|]; [|by eexists _, s, str2]. specialize (R2 bytes eq_refl) as [Hb _].
  destruct (Z.ltb_spec (BufferReadStream.remaining str2) bytes); [by eexists _, s, str2|].
  destruct (FindTunnel s channel) as [i|] eqn:Ef; [|by eexists _, s, str2].
  destruct (FindTunnel_lookup s channel i Ef) as (t & Hi & Hid).
  pose proof (tunnel_ok_at _ _ _ Hs Hi) as [? ?].
  unfold tunnel_at at 1. rewrite Hi, bind_done. cbv zeta.
  assert (exists s1 str3 t1,
    (if read_data_size_max - zlen (t_data t) <? bytes then Done (count CReceiveOverrun s, str2)
     else '(data, str) ← BufferReadStream.read str2 bytes;
          Done (put_tunnel i {| t_id := t_id t; t_read_size := t_read_size t;
                                t_data := t_data t ++ data; t_write := t_write t |} s, str))
    = Done (s1, str3) /\ keeps s s1 /\ shorter str3 str2 /\ tunnels s1 !! i = Some t1)
    as (s1 & str3 & t1 & E3 & K1 & S3 & Hi1).
  { destruct (Z.ltb_spec (read_data_size_max - zlen (t_data t)) bytes) as [|Hsp].
    - eexists _, str2, t. split; [done|]. split_and!; [done|apply shorter_refl, L2|done].
    - pose proof (rs_read_law str2 bytes (proj1 L2 : rs_valid str2) Hb) as (str3 & R & V & E & _).
      cbn [rs_read BufferReadStream.read_stream] in R. rewrite R, bind_done. cbn beta iota.
      eexists _, str3, _. split; [done|]. split_and!.
      + eapply put_tunnel_keeps; [done..| |done]. split; [done|]. simpl.
        rewrite zlen_app. pose proof (zlen_take bytes (BufferReadStream.rest str2) Hb).
        cbn [rs_rest BufferReadStream.read_laws]. lia.
      + split; [exact V|]. cbn [rs_rest BufferReadStream.read_laws] in E. rewrite E, zlen_drop by lia.
        pose proof (zlen_nonneg (BufferReadStream.rest str2)). lia.
      + by eapply lookup_put. }
  rewrite E3, bind_done. cbn beta iota.
  destruct (DoReadTransfer_ok s1 i t1 (proj1 K1) Hi1) as (mv & s2 & -> & K2).
  rewrite bind_done. cbn beta iota. eexists _, _, str3. split; [done|]. split.
  - exact (keeps_trans _ _ _ K1 K2).
  - eapply shorter_trans; [exact S3|exact L2].
Qed.

Lemma ClientPollServer_quiet max_size s (str : BufferReadStream.t) w :
  BufferReadStream.ok str ->
  exists b str', ProcessSubframeClientPollServer client max_size s str w false = Done (b, s, str', w) /\
    shorter str' str.
Proof.
  intros Ho. unfold ProcessSubframeClientPollServer.
  destruct (read_two str Ho) as (o1 & o2 & str1 & str2 & -> & E2 & L2 & R2).
  rewrite bind_done. cbn beta iota. rewrite E2, bind_done. cbn beta iota.
  repeat case_match; by eexists _, str2.
Qed.

Lemma server_ReadValue_total type (str : BufferReadStream.t) :
  BufferReadStream.ok str -> type <= 3 ->
  exists o str', ReadValue type str = Done (o, str') /\ shorter str' str.
Proof.
  intros Ho Ht. unfold ReadValue. rewrite (proj2 (Z.leb_le _ _) Ht). cbn [mj_assert].
  rewrite bind_done.
  destruct (brs_scalar_total str (Z.to_nat (type_size type)) Ho) as (o & str' & -> & ? & ?).
  rewrite bind_done. by eexists _, str'.
Qed.

Lemma Write_loop_quiet n s (str : BufferReadStream.t) w type reg :
  state_ok s -> BufferReadStream.ok str -> type <= 3 ->
  exists a s' str', Write_loop server n s str w false type reg = Done (a, s', str', w) /\
    keeps s s' /\ shorter str' str.
Proof.
  revert s str reg. induction n as [|n IH]; intros s str reg Hs Ho Ht.
  { eexists _, s, str. split; [reflexivity|]. split; [done|by apply shorter_refl]. }
  cbn [Write_loop]. destruct (server_ReadValue_total type str Ho Ht) as (o & str1 & -> & L1).
  rewrite bind_done. cbn beta iota.
  destruct o as [v|]; [|by eexists _, s, str1].
  destruct (Write server (srv s) reg v) as [a t]. cbv zeta.
  destruct a; cbn [EmitWriteError]; rewrite ?bind_done; try (by eexists _, _, str1);
    (destruct (IH (set_srv t s) str1 (u32 (reg + 1)) Hs (proj1 L1) Ht) as (a & s2 & str2 & -> & K & L);
     eexists _, s2, str2; split; [done|]; split; [exact K|by eapply shorter_trans]).
Qed.

Lemma Write_quiet tl s (str : BufferReadStream.t) w :
  state_ok s -> BufferReadStream.ok str -> 0 <= tl < 16 ->
  exists a s' str', ProcessSubframeWrite server tl s str w false = Done (a, s', str', w) /\
    keeps s s' /\ shorter str' str.
Proof.
  intros Hs Ho Ht. unfold ProcessSubframeWrite, read_count. cbv zeta.
  assert (exists o str1, (if tl mod 4 =? 0 then BufferReader.ReadVaruint str
            else Done (Some (tl mod 4), str)) = Done (o, str1) /\ shorter str1 str) as (o & str1 & -> & L1).
  { case_match; [|by eexists _, str; split; [|apply shorter_refl]].
    destruct (brs_varuint_total str Ho) as (o & str1 & -> & ? & ? & _). by eexists _, str1. }
  rewrite bind_done. cbn beta iota. destruct o as [num|]; [|by eexists _, s, str1].
  destruct (brs_varuint_total str1 (proj1 L1)) as (o & str2 & -> & O2 & L2 & _).
  rewrite bind_done. cbn beta iota.
  assert (shorter str2 str) as L3 by (eapply shorter_trans; [by split|exact L1]).
  destruct o as [start|]; [|by eexists _, s, str2].
  destruct (Write_loop_quiet (Z.to_nat num) s str2 w (tl / 4) start Hs O2) as (a & s3 & str3 & -> & K & L);
    [Z.div_mod_to_equations; lia|].
  eexists _, s3, str3. split; [done|]. split; [done|]. by eapply shorter_trans.
Qed.

Lemma ProcessSubframes_loop_quiet max_size fuel s (str : BufferReadStream.t) w :
  state_ok s -> BufferReadStream.ok str -> zlen (BufferReadStream.rest str) < Z.of_nat fuel ->
  exists s', ProcessSubframes_loop server client max_size fuel s str w false = Done (s', w) /\
    keeps s s'.
Proof.
  revert s str. induction fuel as [|n IH]; intros s str Hs Ho Hf.
  { pose proof (zlen_nonneg (BufferReadStream.rest str)). lia. }
  cbn [ProcessSubframes_loop].
  destruct (Z.eqb_spec (BufferReadStream.remaining str) 0); [by exists s|].
  destruct (brs_varuint_total str Ho) as (o & str1 & -> & O1 & L1 & R1). rewrite bind_done.
  cbn beta iota. destruct o as [ty|]; [|by exists (count CMissing s)].
  destruct (R1 ty eq_refl) as [Hty Hlt]. unfold in_u in Hty.
  assert (forall s1 (str2 : BufferReadStream.t), keeps s s1 -> shorter str2 str1 ->
    exists s', ProcessSubframes_loop server client max_size n s1 str2 w false = Done (s', w) /\
      keeps s s') as Hnext.
  { intros s1 str2 K [O2 L2]. destruct (IH s1 str2 (proj1 K) O2 ltac:(lia)) as (s' & -> & K').
    exists s'. split; [done|]. by eapply keeps_trans. }
  destruct (ty =? kClientToServer).
  { destruct (ClientToServer_quiet max_size s str1 w Hs O1) as (b & s1 & str2 & -> & K & L).
    rewrite bind_done. cbn beta iota. destruct b; [by exists (count CMalformed s1)|by apply Hnext]. }
  destruct (ty =? kClientPollServer).
  { destruct (ClientPollServer_quiet max_size s str1 w O1) as (b & str2 & -> & L).
    rewrite bind_done. cbn beta iota. destruct b; [by exists (count CMalformed s)|by apply Hnext]. }
  destruct (ty =? kNop); [apply Hnext; [done|by apply shorter_refl]|].
  destruct ((kWriteBase <=? ty) && (ty <? kWriteBase + 16)) eqn:Hw.
  { apply andb_prop in Hw as [H1%Z.leb_le H2%Z.ltb_lt]. unfold kWriteBase in *.
    destruct (Write_quiet (ty - 0) s str1 w Hs O1 ltac:(lia)) as (a & s1 & str2 & -> & K & L).
    rewrite bind_done. cbn beta iota.
    destruct a; [by apply Hnext|by exists (count CMalformed s1)|by exists s1]. }
  destruct ((kReadBase <=? ty) && (ty <? kReadBase + 16)); [|by exists (count CUnknown s)].
  cbn [ProcessSubframeRead negb]. rewrite bind_done. cbn beta iota.
  apply Hnext; [done|by apply shorter_refl].
Qed.

Lemma ProcessSubframes_quiet max_size s frame w :
  state_ok s -> exists s', ProcessSubframes server client max_size s frame w false = Done (s', w) /\
    keeps s s'.
Proof.
  intros Hs. apply ProcessSubframes_loop_quiet; [done|apply BufferReadStream.brs_ok_make|].
  rewrite BufferReadStream.brs_rest_make. unfold zlen. lia.
Qed.
End invariants.
