(* ===== verification/MicroServerSafety.v ===== *)
(** * The safety of the multiplex server

    What holds of [MicroServer.Impl] over every sequence of events: the buffer
    of an outstanding write is never touched, at most one write is outstanding,
    what is sent lies inside the buffer and answers a frame that asked for it,
    and a frame that gets no response is handled without any fault. *)
From S2P Require Import Prelude Varuint Streams MultiplexStream MicroServer.
Import Format.

(** [grown w w']: [w'] is [w] after some writing into the same buffer. *)
Definition grown (w w' : BufferWriteStream.t) : Prop :=
  BufferWriteStream.ok w' /\
  zlen (BufferWriteStream.buffer w') = zlen (BufferWriteStream.buffer w).

(** With no response wanted the response buffer is not written at all. *)
Definition resp_safe (resp : bool) (w w' : BufferWriteStream.t) : Prop :=
  if resp then BufferWriteStream.ok w -> grown w w' else w' = w.

Lemma resp_safe_refl resp w : resp_safe resp w w.
Proof. by destruct resp. Qed.

Lemma resp_safe_trans resp w1 w2 w3 :
  resp_safe resp w1 w2 -> resp_safe resp w2 w3 -> resp_safe resp w1 w3.
Proof.
  destruct resp; simpl; [|congruence]. intros H1 H2 Ho. destruct (H1 Ho) as [O1 L1].
  destruct (H2 O1) as [O2 L2]. split; [done|congruence].
Qed.

Lemma resp_safe_true w w' : (BufferWriteStream.ok w -> grown w w') -> resp_safe true w w'.
Proof. done. Qed.

Create HintDb server.
#[local] Hint Resolve resp_safe_refl : server.

(** Takes a successful chain of calls apart, pairs included. *)
Ltac peel :=
  repeat (inv_bind; match goal with
  | H : (let '(_, _) := ?p in _) = Done _ |- _ => destruct p
  | H : (match ?x with _ => _ end) = Done _ |- _ => destruct x eqn:?
  | H : Faulted _ = Done _ |- _ => discriminate H
  end; try discriminate; cbv zeta in *); inv_bind.

Lemma WriteBytes_grown w d w' :
  BufferWriter.WriteBytes w d = Done w' -> BufferWriteStream.ok w -> grown w w'.
Proof.
  rewrite WriteBytes_store. intros E [? ?]. apply bind_done_inv in E as (b & Eb & [= <-]).
  pose proof (zlen_store _ _ _ _ Eb). apply store_inv in Eb as (? & ? & _).
  pose proof (zlen_nonneg d). split; [|done]. unfold BufferWriteStream.ok. simpl. lia.
Qed.

Lemma WriteVaruint_grown w v w' :
  BufferWriter.WriteVaruint w v = Done w' -> BufferWriteStream.ok w -> grown w w'.
Proof. rewrite WriteVaruint_bytes. apply WriteBytes_grown. Qed.

Lemma write_grown w d w' :
  BufferWriteStream.write w d = Done w' -> BufferWriteStream.ok w -> grown w w'.
Proof.
  unfold BufferWriteStream.write. intros E Ho. inv_bind. subst w'.
  apply (WriteBytes_grown w d); [|done]. by rewrite WriteBytes_store, Hstep0.
Qed.

Lemma reset_grown w p w' : BufferWriteStream.reset w p = Done w' -> grown w w'.
Proof.
  unfold BufferWriteStream.reset. intros E. inv_bind. subst w'.
  apply andb_prop in Hstep as [?%Z.leb_le ?%Z.ltb_lt]. split; [|done].
  unfold BufferWriteStream.ok. simpl. lia.
Qed.

#[local] Hint Resolve WriteBytes_grown WriteVaruint_grown write_grown : server.

Section safety.
Context {T C : Type} (server : Server T) (client : Client C) (max_size : Z).
Abbreviation St := (@State T C).
Implicit Types (s : St) (w : BufferWriteStream.t) (str : BufferReadStream.t).

Lemma grown_trans w1 w2 w3 : grown w1 w2 -> grown w2 w3 -> grown w1 w3.
Proof. intros [? ?] [? ?]. split; [done|congruence]. Qed.

(** One writing step, then the others. *)
Lemma chain_true w1 w2 w3 :
  (BufferWriteStream.ok w1 -> grown w1 w2) -> resp_safe true w2 w3 -> resp_safe true w1 w3.
Proof. intros H1 H2. exact (resp_safe_trans true w1 w2 w3 H1 H2). Qed.

Lemma send_tunnel_data_safe s i w n s' w' :
  send_tunnel_data client s i w n = Done (s', w') -> resp_safe true w w'.
Proof.
  unfold send_tunnel_data. intros E. peel; simplify_eq;
    repeat (eapply chain_true; [by eauto with server|]); apply resp_safe_refl.
Qed.

Lemma ClientToServer_safe s str w resp b s' str' w' :
  ProcessSubframeClientToServer client max_size s str w resp = Done (b, s', str', w') ->
  resp_safe resp w w'.
Proof.
  unfold ProcessSubframeClientToServer. intros E. peel; simplify_eq; eauto with server;
    repeat (eapply chain_true; [by eauto with server|]); by eapply send_tunnel_data_safe.
Qed.

Lemma ClientPollServer_safe s str w resp b s' str' w' :
  ProcessSubframeClientPollServer client max_size s str w resp = Done (b, s', str', w') ->
  resp_safe resp w w'.
Proof.
  unfold ProcessSubframeClientPollServer. intros E. peel; simplify_eq; eauto with server;
    repeat (eapply chain_true; [by eauto with server|]); by eapply send_tunnel_data_safe.
Qed.

(** Three varuints in a row, as both error subframes are written. *)
Lemma three_varuints_safe w a b c w' :
  (w ← BufferWriter.WriteVaruint w a; w ← BufferWriter.WriteVaruint w b;
   BufferWriter.WriteVaruint w c) = Done w' -> resp_safe true w w'.
Proof.
  intros E. inv_bind. do 2 (eapply chain_true; [by eauto with server|]).
  apply resp_safe_true; eauto with server.
Qed.

Lemma EmitWriteError_safe w resp reg e w' :
  EmitWriteError w resp reg e = Done w' -> resp_safe resp w w'.
Proof. destruct resp; [apply three_varuints_safe|]. by intros [= ->]. Qed.

Lemma EmitReadError_safe w reg e w' : EmitReadError w reg e = Done w' -> resp_safe true w w'.
Proof. apply three_varuints_safe. Qed.

Lemma Write_loop_safe n s str w resp type reg a s' str' w' :
  Write_loop server n s str w resp type reg = Done (a, s', str', w') -> resp_safe resp w w'.
Proof.
  revert s str w reg. induction n as [|n IH]; intros s str w reg E; cbn [Write_loop] in E.
  { simplify_eq. auto with server. }
  peel; simplify_eq; eauto with server;
    (eapply resp_safe_trans; [by eapply EmitWriteError_safe|by eapply IH]).
Qed.

Lemma Write_safe tl s str w resp a s' str' w' :
  ProcessSubframeWrite server tl s str w resp = Done (a, s', str', w') -> resp_safe resp w w'.
Proof.
  unfold ProcessSubframeWrite, read_count. intros E.
  peel; simplify_eq; eauto with server; by eapply Write_loop_safe.
Qed.

Lemma Read_loop_safe n s w start type reg b w' :
  Read_loop server n s w start type reg = Done (b, w') -> resp_safe true w w'.
Proof.
  revert w reg. induction n as [|n IH]; intros w reg E; cbn [Read_loop] in E.
  { simplify_eq. auto with server. }
  peel; simplify_eq.
  - eapply chain_true; [intros ?; by eapply WriteBytes_grown|]. by eapply IH.
  - eapply chain_true; [intros ?; by eapply reset_grown|]. by eapply EmitReadError_safe.
Qed.

Lemma Read_safe tl s str w resp b str' w' :
  ProcessSubframeRead server tl s str w resp = Done (b, str', w') -> resp_safe resp w w'.
Proof.
  unfold ProcessSubframeRead. intros E. destruct resp; cbn [negb] in E; [|by simplify_eq].
  peel; simplify_eq; eauto with server;
    repeat (eapply chain_true; [by eauto with server|]); by eapply Read_loop_safe.
Qed.

Lemma ProcessSubframes_safe s frame w resp s' w' :
  ProcessSubframes server client max_size s frame w resp = Done (s', w') -> resp_safe resp w w'.
Proof.
  unfold ProcessSubframes. generalize (S (length frame)) as fuel, (BufferReadStream.make frame) as str.
  intros fuel. revert s w. induction fuel as [|n IH]; intros s w str E;
    cbn [ProcessSubframes_loop] in E; [done|].
  peel; simplify_eq; eauto with server.
  all: try by eapply ClientToServer_safe.
  all: try by eapply ClientPollServer_safe.
  all: try by eapply Write_safe.
  all: try by eapply Read_safe.
  all: eapply resp_safe_trans; [|by eapply IH].
  - by eapply ClientToServer_safe.
  - by eapply ClientPollServer_safe.
  - by eapply Write_safe.
  - by eapply Read_safe.
Qed.
End safety.

(** ** The server as a whole *)

(** What is true of every response: it answers, with its size, a frame that
    asked for a response and was addressed to it or to everyone. *)
Definition sent_ok (size : Z) (x : Sent) : Prop :=
  zlen (tx_data x) = h_size (tx_header x) /\ h_size (tx_header x) <= size /\
  0 <= h_source (tx_header x) <= 127 /\
  h_destination (tx_header x) = Z.land (h_source (tx_query x)) 0x7f /\
  Z.land (h_source (tx_query x)) 0x80 <> 0 /\
  (h_destination (tx_query x) = kBroadcastId \/
   h_destination (tx_query x) = h_source (tx_header x)).

(** The number of writes the transport has completed. *)
Definition completions (es : list event) : Z :=
  zlen (List.filter (fun e => match e with EvWritten _ => true | _ => false end) es).

Section transport.
Context {T C : Type} (server : Server T) (client : Client C) (max_size : Z).
Abbreviation M := (@Impl T C).
Implicit Types (m : M).

(** The buffer of the outstanding write still holds what was handed over. *)
Definition pending_intact m : Prop :=
  write_outstanding m = true -> exists x, list.last (sent m) = Some x /\
    ztake (h_size (tx_header x)) (write_buffer m) = tx_data x.

Definition server_inv m : Prop :=
  read_outstanding m = true /\ Forall (sent_ok (zlen (write_buffer m))) (sent m) /\
  pending_intact m.

Definition pending m : Z := if write_outstanding m then 1 else 0.

(** One step: the invariant is kept, the buffers keep their sizes, and the
    log grows by the writes that were started. *)
Definition step_ok m m' (completed : Z) : Prop :=
  server_inv m' /\ zlen (write_buffer m') = zlen (write_buffer m) /\
  sent m `prefix_of` sent m' /\
  zlen (sent m') - zlen (sent m) = completed + pending m' - pending m.

Lemma step_ok_same m m' :
  server_inv m -> read_outstanding m' = true -> sent m' = sent m ->
  write_buffer m' = write_buffer m -> write_outstanding m' = write_outstanding m ->
  step_ok m m' 0.
Proof.
  intros (? & ? & P) R Es Eb Eo. unfold step_ok, server_inv, pending_intact, pending.
  rewrite R, Es, Eb, Eo. split_and!; [done..|lia].
Qed.

Lemma src_masked z : 0 <= Z.land z 0x7f <= 127.
Proof. rewrite land7f. pose proof (Z.mod_pos_bound z 128). lia. Qed.

(** What handling a frame does to the log and to the write buffer. *)
Definition logged m m' : Prop :=
  Forall (sent_ok (zlen (write_buffer m'))) (sent m') /\ pending_intact m' /\
  zlen (write_buffer m') = zlen (write_buffer m) /\ sent m `prefix_of` sent m' /\
  zlen (sent m') - zlen (sent m) = pending m' - pending m.

Lemma WriteResponse_logged m n m' :
  Forall (sent_ok (zlen (write_buffer m))) (sent m) ->
  Z.land (h_source (read_header m)) 0x80 <> 0 ->
  (h_destination (read_header m) = kBroadcastId \/
   h_destination (read_header m) = Z.land (config_id m) 0x7f) ->
  WriteResponse m (Z.land (h_source (read_header m)) 0x7f) n = Done m' -> logged m m'.
Proof.
  intros F Hs Hd E. unfold WriteResponse in E. inv_bind.
  apply load_inv in Hstep0 as (_ & Hn & Hl & ->). apply negb_true_iff in Hstep.
  subst m'. unfold logged, pending_intact, pending.
  cbn [write_buffer sent write_outstanding with_write]. rewrite zdrop_0. split_and!.
  - apply Forall_app. split; [done|]. apply Forall_singleton. unfold sent_ok.
    cbn [tx_data tx_header tx_query h_size h_source h_destination].
    rewrite zlen_take by lia. split_and!; [lia|lia|apply src_masked|apply src_masked|done|done|done].
  - intros _. eexists. split; [by rewrite last_snoc|]. done.
  - done.
  - by apply prefix_app_r.
  - rewrite zlen_app, Hstep. change (zlen [_]) with 1. lia.
Qed.

(** A frame without a response, from the part of the state it leaves alone. *)
Lemma quiet_logged m m' :
  Forall (sent_ok (zlen (write_buffer m))) (sent m) -> pending_intact m ->
  sent m' = sent m -> write_outstanding m' = write_outstanding m ->
  zlen (write_buffer m') = zlen (write_buffer m) ->
  (write_outstanding m = true -> write_buffer m' = write_buffer m) -> logged m m'.
Proof.
  intros F P Es Eo Ez Eb. unfold logged, pending. rewrite Es, Eo, Ez.
  split_and!; [done| |done..|lia]. intros Ho. rewrite Eo in Ho.
  destruct (P Ho) as (x & ? & ?). exists x. by rewrite Es, Eb.
Qed.

Lemma logged_core m0 m m' :
  sent m = sent m0 -> write_buffer m = write_buffer m0 ->
  write_outstanding m = write_outstanding m0 -> logged m m' -> logged m0 m'.
Proof. unfold logged, pending. by intros <- <- <-. Qed.

(** The frame once it is known to be addressed to this server. *)
Lemma subframes_logged m m' s s' w (t : T) need :
  Forall (sent_ok (zlen (write_buffer m))) (sent m) -> pending_intact m ->
  (need = true -> write_outstanding m = false /\
     Z.land (h_source (read_header m)) 0x80 <> 0) ->
  (h_destination (read_header m) = kBroadcastId \/
   h_destination (read_header m) = Z.land (config_id m) 0x7f) ->
  ProcessSubframes server client max_size s (ztake (h_size (read_header m)) (read_buffer m))
    (BufferWriteStream.make (write_buffer m)) need = Done (s', w) ->
  m' = with_write (BufferWriteStream.buffer w) (write_outstanding m) (sent m)
         (with_core (set_srv t s') m) ->
  logged m m' /\ forall m2, need = true ->
    WriteResponse m' (Z.land (h_source (read_header m)) 0x7f) (BufferWriteStream.offset w) = Done m2 ->
    logged m m2.
Proof.
  intros F P Hneed Hd E ->. apply ProcessSubframes_safe in E.
  assert (zlen (BufferWriteStream.buffer w) = zlen (write_buffer m)) as Ez.
  { destruct need; simpl in E; [|by subst w].
    by destruct E as [_ ?]; [apply BufferWriteStream.bws_ok_make|]. }
  split.
  - apply quiet_logged; [done..|exact Ez|]. intros Ho.
    destruct need; [by destruct (Hneed eq_refl); congruence|]. simpl in E. by subst w.
  - intros m2 Hn E2. set (m' := with_write _ _ _ _) in *.
    assert (logged m' m2) as L.
    { apply (WriteResponse_logged m' (BufferWriteStream.offset w)); [simpl; by rewrite Ez|by apply Hneed|exact Hd|exact E2]. }
    unfold logged in *. cbn [m' write_buffer sent with_write] in L. by rewrite Ez in L.
Qed.

Lemma ProcessFrame_logged m m' :
  Forall (sent_ok (zlen (write_buffer m))) (sent m) -> pending_intact m ->
  ProcessFrame server client max_size m = Done m' -> logged m m'.
Proof.
  intros F P. unfold ProcessFrame. cbv zeta. set (m1 := if _ || _ then _ else m).
  assert (write_buffer m1 = write_buffer m /\ write_outstanding m1 = write_outstanding m /\
          sent m1 = sent m /\ read_header m1 = read_header m /\ read_buffer m1 = read_buffer m /\
          config_id m1 = config_id m) as (Eb & Eo & Es & Eh & Er & Ec) by (unfold m1; by case_match).
  assert (Forall (sent_ok (zlen (write_buffer m1))) (sent m1) /\ pending_intact m1) as [F1 P1].
  { unfold pending_intact. by rewrite Eb, Es, Eo. }
  clearbody m1. rewrite <- Eh, <- Ec. destruct (negb _ && negb _) eqn:Hmine.
  { intros [= <-]. by apply quiet_logged; rewrite ?Eb. }
  assert (h_destination (read_header m1) = kBroadcastId \/
          h_destination (read_header m1) = Z.land (config_id m1) 0x7f) as Hd.
  { apply andb_false_iff in Hmine as [H%negb_false_iff%Z.eqb_eq|H%negb_false_iff%Z.eqb_eq]; auto. }
  set (need := negb _ && negb _). intros E. inv_bind. destruct r0 as [s w].
  apply load_inv in Hstep as (_ & _ & _ & ->). rewrite zdrop_0 in Hstep0.
  destruct (CompleteFrame server (srv s)) as [action t]. cbn beta iota zeta in E.
  assert (need = true -> write_outstanding m1 = false /\ Z.land (h_source (read_header m1)) 0x80 <> 0) as Hn.
  { intros H. by apply andb_prop in H as [?%negb_true_iff%Z.eqb_neq ?%negb_true_iff]. }
  destruct (subframes_logged m1 _ _ s w t need F1 P1 Hn Hd Hstep0 eq_refl) as [L1 L2].
  apply (logged_core m m1 m'); [done..|].
  destruct action; [destruct need eqn:Hneed|]; [by apply L2|by injection E as <-|by injection E as <-].
Qed.

Lemma logged_step m0 m m' :
  server_inv m0 -> logged m0 m -> read_outstanding m' = true -> write_buffer m' = write_buffer m ->
  sent m' = sent m -> write_outstanding m' = write_outstanding m -> step_ok m0 m' 0.
Proof.
  intros I (F & P & Z & Pre & L) R Eb Es Eo. unfold step_ok, server_inv, pending_intact, pending in *.
  rewrite Eb, Es, Eo. split_and!; [done..|lia].
Qed.

Lemma step_step_ok m e m' :
  server_inv m -> enabled m e -> step server client max_size m e = Done m' ->
  step_ok m m' (completions [e]).
Proof.
  intros I. pose proof I as (R & F & P). destruct e as [ec h buf|ec|c| |id]; cbn [step enabled].
  - intros [Ro Hb] E. unfold HandleReadDatagram in E. cbv zeta in E.
    destruct (negb (ec =? 0)).
    { injection E as <-. by apply step_ok_same. }
    inv_bind. apply ProcessFrame_logged in Hstep; [|done..]. subst m'.
    apply (logged_step m r); [done|exact Hstep| |unfold MaybeStartReadFrame; by case_match..].
    unfold MaybeStartReadFrame. by case_match.
  - intros Ho [= <-]. unfold step_ok, server_inv, pending_intact, pending. simpl.
    rewrite Ho. split_and!; [done..|change (completions _) with 1; lia].
  - intros _ E. inv_bind. subst m'. by apply step_ok_same.
  - intros _ E. inv_bind. subst m'. by apply step_ok_same.
  - intros _ [= <-]. by apply step_ok_same.
Qed.

(** The whole server, over any sequence of events. *)
Lemma steps_step_ok m es m' :
  server_inv m -> steps server client max_size m es m' -> step_ok m m' (completions es).
Proof.
  intros I H. revert I. induction H as [m|m e m1 es m2 He E H IH]; intros I.
  - apply step_ok_same; [done|apply I|done..].
  - destruct (step_step_ok m e m1 I He E) as (I1 & Z1 & P1 & L1).
    destruct (IH I1) as (I2 & Z2 & P2 & L2). split; [done|]. split; [congruence|].
    split; [by etrans|].
    assert (completions (e :: es) = completions [e] + completions es) as ->; [|lia].
    unfold completions. simpl. destruct e; simpl; rewrite ?zlen_cons; change (zlen []) with 0; lia.
Qed.
End transport.

Section quiet.
Context {T C : Type} (server : Server T) (client : Client C) (max_size : Z) (Hpolite : polite client).
Implicit Types (m : @Impl T C).

Lemma keeps_srv s s' (t : T) : keeps s s' -> keeps s (@set_srv T C t s').
Proof. done. Qed.

Lemma ProcessFrame_quiet m :
  state_ok (core m) -> 0 <= h_size (read_header m) <= zlen (read_buffer m) ->
  Z.land (h_source (read_header m)) 0x80 = 0 \/ write_outstanding m = true ->
  exists m', ProcessFrame server client max_size m = Done m' /\ keeps (core m) (core m') /\
    sent m' = sent m /\ write_buffer m' = write_buffer m /\
    write_outstanding m' = write_outstanding m.
Proof.
  intros Hs Hz Hq. unfold ProcessFrame. cbv zeta. set (m1 := if _ || _ then _ else m).
  assert (write_buffer m1 = write_buffer m /\ write_outstanding m1 = write_outstanding m /\
          sent m1 = sent m /\ read_buffer m1 = read_buffer m /\ keeps (core m) (core m1))
    as (Eb & Eo & Es & Er & K) by (unfold m1; by case_match).
  clearbody m1. destruct (negb _ && negb (h_destination _ =? _)); [by exists m1|].
  rewrite Er, load_done, bind_done by lia.
  assert (negb (Z.land (h_source (read_header m)) 0x80 =? 0) && negb (write_outstanding m1) = false) as ->.
  { rewrite Eo. destruct Hq as [-> | ->]; [done|by rewrite andb_false_r]. }
  destruct (ProcessSubframes_quiet server client Hpolite max_size
    (set_srv (StartFrame server (srv (core m1))) (core m1))
    (ztake (h_size (read_header m)) (zdrop 0 (read_buffer m)))
    (BufferWriteStream.make (write_buffer m1)) (proj1 K)) as (s & -> & K2).
  rewrite bind_done. cbn beta iota. destruct (CompleteFrame server (srv s)) as [action t].
  assert (keeps (core m) s) as K3 by (by eapply keeps_trans; [exact K|]).
  destruct action; (eexists; split; [done|]); by rewrite <- Eb, <- Es, <- Eo.
Qed.
End quiet.

(** ** Properties *)

(** C1: whatever the transport, the tunnels' users and the application do,
    in whatever order, the server keeps listening, never overwrites or resends
    the buffer of a write that is outstanding, never starts a second one
    before the first has completed, and sends only responses that lie in its
    buffer and answer frames that asked for one. *)
Theorem server_transport_safe {T C} (server : Server T) (client : Client C) (max_size : Z)
    (m : @Impl T C) (es : list event) (m' : @Impl T C) :
  server_inv m -> steps server client max_size m es m' ->
  read_outstanding m' = true /\
  Forall (sent_ok (zlen (write_buffer m))) (sent m') /\
  (write_outstanding m' = true -> exists x, list.last (sent m') = Some x /\
     ztake (h_size (tx_header x)) (write_buffer m') = tx_data x) /\
  sent m `prefix_of` sent m' /\
  zlen (sent m') - zlen (sent m) = completions es + pending m' - pending m.
Proof.
  intros I H. destruct (steps_step_ok _ _ _ _ _ _ I H) as ((R & F & P) & Z & Pre & L).
  rewrite Z in F. by split_and!.
Qed.

(** A frame that is not to be answered, because it does not ask for it or
    because the previous answer is still being sent, is handled to the end on
    any content: no assertion, no access outside a buffer; the buffers and the
    tunnels keep their form and the next frame is being waited for. *)
Theorem unanswered_frame_handled {T C} (server : Server T) (client : Client C) (max_size : Z)
    (m : @Impl T C) (h : Header) (buf : list byte) :
  polite client -> state_ok (core m) -> 0 <= h_size h <= zlen buf ->
  Z.land (h_source h) 0x80 = 0 \/ write_outstanding m = true ->
  exists m', HandleReadDatagram server client max_size m 0 h buf = Done m' /\
    read_outstanding m' = true /\ state_ok (core m') /\
    map t_id (tunnels (core m')) = map t_id (tunnels (core m)) /\
    sent m' = sent m /\ write_buffer m' = write_buffer m /\
    write_outstanding m' = write_outstanding m.
Proof.
  intros Hc Hs Hz Hq. unfold HandleReadDatagram. cbn [Z.eqb negb].
  destruct (ProcessFrame_quiet server client max_size Hc (with_read h buf false m) Hs Hz Hq)
    as (m1 & -> & [K1 K2] & E1 & E2 & E3). rewrite bind_done. eexists. split; [done|].
  unfold MaybeStartReadFrame. case_match; by split_and!.
Qed.

(** *** Witnesses

    An application with one int32 register, and tunnel users who read again
    whenever a read completes. *)
Definition demo_server : Server Z := {|
  StartFrame t := t;
  Write t reg v := if reg =? 1 then
    match v with VInt32 z => (kSuccess, z) | _ => (kNotWriteable, t) end else (kUnknownRegister, t);
  Read t reg type := if (reg =? 1) && (type =? 2) then RValue (VInt32 (swrap 32 t)) else RError 1;
  CompleteFrame t := (kAccept, t) |}.

Definition demo_client : Client (list byte) := {|
  on_read c i d := (c ++ d, [CallRead i 4]);
  on_write c i n := (c, []) |}.

Lemma demo_polite : polite demo_client.
Proof. split; intros; [right; by exists 4|by left]. Qed.

Definition demo_impl : @Impl Z (list byte) := {|
  core := {| tunnels := [{| t_id := 7; t_read_size := 4; t_data := []; t_write := [] |}];
             anything_to_do := false; stats := stats0; srv := 42; cli := [] |};
  config_id := 5; read_header := {| h_source := 0; h_destination := 0; h_size := 0; h_flags := 0 |};
  read_buffer := replicate 32 (byte.of_Z 0); read_outstanding := true;
  write_buffer := replicate 32 (byte.of_Z 0); write_outstanding := false; sent := [] |}.

Definition demo_frame (bs : list Z) : list byte :=
  map byte.of_Z bs ++ replicate (32 - length bs) (byte.of_Z 0).

(** Read register 1, twice, the second while the first answer is still out;
    the answer completes; then an unanswered write to register 1. *)
Definition demo_events : list event :=
  [EvRead 0 {| h_source := 0x82; h_destination := 5; h_size := 2; h_flags := 0 |} (demo_frame [0x19; 1]);
   EvRead 0 {| h_source := 0x82; h_destination := 5; h_size := 2; h_flags := 0 |} (demo_frame [0x50; 0x50]);
   EvWritten 0;
   EvRead 0 {| h_source := 0x02; h_destination := 5; h_size := 6; h_flags := 0 |}
     (demo_frame [0x09; 1; 1; 0; 0; 0])].

Fixpoint run_events (m : @Impl Z (list byte)) (es : list event) : outcome (@Impl Z (list byte)) :=
  match es with
  | [] => Done m
  | e :: es => m ← step demo_server demo_client 64 m e; run_events m es
  end.

Definition demo_end : @Impl Z (list byte) :=
  match run_events demo_impl demo_events with Done m => m | Faulted _ => demo_impl end.

Example demo_sends :
  (srv (core demo_end), map tx_data (sent demo_end)) =
  (1, [map byte.of_Z [0x29; 1; 42; 0; 0; 0]]).
Proof. vm_compute. reflexivity. Qed.

Lemma demo_steps : steps demo_server demo_client 64 demo_impl demo_events demo_end.
Proof.
  repeat (eapply steps_cons; [vm_compute; auto|vm_compute; reflexivity|]).
  match goal with |- steps _ _ _ ?m [] _ => replace demo_end with m by (vm_compute; reflexivity) end.
  apply steps_nil.
Qed.

Lemma server_transport_safe_witness :
  read_outstanding demo_end = true /\
  Forall (sent_ok (zlen (write_buffer demo_impl))) (sent demo_end) /\
  (write_outstanding demo_end = true -> exists x, list.last (sent demo_end) = Some x /\
     ztake (h_size (tx_header x)) (write_buffer demo_end) = tx_data x) /\
  sent demo_impl `prefix_of` sent demo_end /\
  zlen (sent demo_end) - zlen (sent demo_impl) =
    completions demo_events + pending demo_end - pending demo_impl.
Proof.
  refine (server_transport_safe demo_server demo_client 64 demo_impl demo_events demo_end _ demo_steps).
  split; [done|]. split; [by constructor|done].
Defined.

Lemma unanswered_frame_handled_witness :
  exists m', HandleReadDatagram demo_server demo_client 64 demo_impl 0
      {| h_source := 0x02; h_destination := 5; h_size := 6; h_flags := 0 |}
      (demo_frame [0x40; 7; 3; 1; 2; 3]) = Done m' /\
    read_outstanding m' = true /\ state_ok (core m') /\
    map t_id (tunnels (core m')) = map t_id (tunnels (core demo_impl)) /\
    sent m' = sent demo_impl /\ write_buffer m' = write_buffer demo_impl /\
    write_outstanding m' = write_outstanding demo_impl.
Proof.
  refine (unanswered_frame_handled demo_server demo_client 64 demo_impl _ _ demo_polite _ _ _).
  - repeat constructor; vm_compute; discriminate.
  - split; vm_compute; discriminate.
  - by left.
Defined.
