(* ===== verification/RegisterServer.v ===== *)
(** * Registers over the wire, end to end

    The specification of the register service, which says for a sequence of
    register operations what the application sees and what is answered, and
    the refinement: [MicroServer] given the bytes [RegisterRequest] builds
    does just that, and [ParseRegisterReply] gives the client the answers. *)
From S2P Require Import Prelude Varuint Streams MultiplexStream Register MicroServer MicroServerSafety.
Import Format.

(** ** The specification *)
Section spec.
Context {T : Type} (server : Server T).

(** Reading [n] registers from [reg] on: their values, or the first register
    that could not be read and why. *)
Fixpoint read_values (t : T) (n : nat) (type reg : Z) : list Value + Z * Z :=
  match n with
  | O => inl []
  | S n =>
      match Read server t reg type with
      | RError e => inr (reg, e)
      | RValue v =>
          match read_values t n type (u32 (reg + 1)) with
          | inl vs => inl (v :: vs)
          | inr re => inr re
          end
      end
  end.

Definition serve_read (t : T) (start n type : Z) : reply * SubframeAction :=
  match read_values t (Z.to_nat n) type start with
  | inl vs => (Values start type vs, kContinue)
  | inr (reg, e) => (ErrorReply true reg e, kMalformed)
  end.

(** Writing values to successive registers: one error reply for each that the
    application refuses, until it discards the rest of the frame. *)
Fixpoint serve_write (t : T) (reg : Z) (values : list Value) : list reply * T * SubframeAction :=
  match values with
  | [] => ([], t, kContinue)
  | v :: values =>
      let '(action, t) := Write server t reg v in
      match action with
      | kDiscardRemaining => ([], t, kDiscardFrame)
      | _ =>
          let '(replies, t, verdict) := serve_write t (u32 (reg + 1)) values in
          (match action with
           | kUnknownRegister => [ErrorReply false reg 1]
           | kNotWriteable => [ErrorReply false reg 2]
           | _ => [] end ++ replies, t, verdict)
      end
  end.

Definition serve_op (t : T) (op : request_op) : list reply * T * SubframeAction :=
  match op with
  | OpRead reg num type => let '(r, v) := serve_read t reg num type in ([r], t, v)
  | OpReadSingle reg type => let '(r, v) := serve_read t reg 1 type in ([r], t, v)
  | OpWrite start values => serve_write t start values
  | OpWriteSingle reg value => serve_write t reg [value]
  end.

(** Operation after operation, until one ends the frame. *)
Fixpoint serve (t : T) (ops : list request_op) : list reply * T * SubframeAction :=
  match ops with
  | [] => ([], t, kContinue)
  | op :: ops =>
      let '(replies, t, verdict) := serve_op t op in
      match verdict with
      | kContinue => let '(more, t, verdict) := serve t ops in (replies ++ more, t, verdict)
      | _ => (replies, t, verdict)
      end
  end.

(** The registers from [reg] on. *)
Fixpoint registers_from (reg : Z) (n : nat) : list Z :=
  match n with O => [] | S n => u32 reg :: registers_from (reg + 1) n end.

(** The registers that an operation asks for, and those that a reply to a read names. *)
Definition op_registers (op : request_op) : list Z :=
  match op with
  | OpRead reg num _ => registers_from reg (Z.to_nat num)
  | OpReadSingle reg _ => registers_from reg 1
  | _ => []
  end.

Definition requested (ops : list request_op) : list Z := ops ≫= op_registers.

Definition named (r : reply) : list Z :=
  match r with
  | Values start _ values => registers_from start (length values)
  | ErrorReply is_read reg _ => if is_read then [reg] else []
  end.

(** An error, instead of what was asked for. *)
Definition refusal (r : reply) : bool := match r with ErrorReply _ _ _ => true | _ => false end.

(** An application that answers a read with a value of the type asked for,
    or with an error code. *)
Definition typed_server : Prop := forall t reg type, 0 <= type <= 3 ->
  match Read server t reg type with
  | RValue v => value_ok v /\ index v = type
  | RError e => in_u 32 e
  end.
End spec.

(** The values of one write are of one type. *)
Definition op_typed (op : request_op) : Prop :=
  op_ok op /\
  match op with
  | OpWrite _ (v :: values) =>
      Forall (fun v' => value_ok v' /\ index v' = index v) (v :: values)
  | OpWriteSingle _ v => value_ok v
  | _ => True
  end.

(** Room enough for whatever an operation answers, or starts to answer. *)
Definition op_room (op : request_op) : Z :=
  match op with
  | OpRead _ num type => 11 + num * type_size type
  | OpReadSingle _ type => 11 + type_size type
  | OpWrite _ values => 11 * zlen values
  | OpWriteSingle _ _ => 11
  end.

Definition room (ops : list request_op) : Z := foldr (fun op n => op_room op + n) 0 ops.

(** ** Writing into the response buffer *)
Section answering.
Import BufferWriteStream.
Implicit Types (w : t).

(** The response stream after a step that may write [d] to it. *)
Definition answered (resp : bool) w (d : list byte) w' (n : Z) : Prop :=
  if resp then emitted w d w' /\ fits w' n = true else w' = w.

Lemma answered_app resp w1 d w2 e w3 n m :
  answered resp w1 d w2 n -> answered resp w2 e w3 m -> answered resp w1 (d ++ e) w3 m.
Proof.
  destruct resp; simpl; [|congruence]. intros [H1 _] [H2 ?]. split; [by eapply emitted_app|done].
Qed.

(** Before anything is written: room for [n] bytes, when they are wanted. *)
Definition ready (resp : bool) w (n : Z) : Prop := resp = true -> ok w /\ fits w n = true.

Lemma answered_ready resp w d w' n : answered resp w d w' n -> ready resp w' n.
Proof. intros H ->. destruct H as [[? _] ?]. done. Qed.

Lemma ready_le resp w n m : n <= m -> ready resp w m -> ready resp w n.
Proof. intros Hn H E. destruct (H E). split; [done|]. by eapply fits_le. Qed.

Lemma answered_nil resp w n : ready resp w n -> answered resp w [] w n.
Proof. destruct resp; [|done]. intros H. destruct (H eq_refl). split; [by apply emitted_nil|done]. Qed.
End answering.

(** ** The refinement *)
Section serving.
Context {T C : Type} (server : Server T) (client : Client C) (max_size : Z).
Context (Htyped : typed_server server).
Abbreviation St := (@State T C).
Implicit Types (s : St) (w : BufferWriteStream.t) (str : BufferReadStream.t).

(** How a frame that ends with a verdict leaves the counters. *)
Definition finish (verdict : SubframeAction) s : St :=
  match verdict with
  | kContinue => s
  | kMalformed => count CMalformed s
  | kDiscardFrame => count CDiscards s
  end.

Lemma set_srv_id s : set_srv (srv s) s = s.
Proof. by destruct s. Qed.

Lemma server_head str base type n start tail :
  BufferReadStream.ok str -> BufferReadStream.rest str = head_bytes base type n start ++ tail ->
  0 <= base <= 0x20 -> 0 <= type <= 3 -> 0 < n < 2 ^ 32 -> in_u 32 start ->
  exists tl str1 str2 str3, 0 <= tl < 16 /\ tl / 4 = type /\ tl mod 4 = (if n <? 4 then n else 0) /\
    BufferReader.ReadVaruint str = Done (Some (base + tl), str1) /\
    read_count (tl mod 4) str1 = Done (Some n, str2) /\
    BufferReader.ReadVaruint str2 = Done (Some start, str3) /\
    BufferReadStream.ok str3 /\ BufferReadStream.rest str3 = tail.
Proof.
  intros Ho E Hb Ht Hn Hs. unfold head_bytes in E. rewrite <- !app_assoc in E.
  set (enc := if n <? 4 then n else 0) in *. exists (type * 4 + enc).
  assert (0 <= enc < 4) by (unfold enc; destruct (Z.ltb_spec n 4); lia).
  assert ((type * 4 + enc) / 4 = type /\ (type * 4 + enc) mod 4 = enc) as [-> ->]
    by (split; Z.div_mod_to_equations; lia).
  rewrite <- Z.add_assoc in E.
  destruct (brs_varuint str _ _ Ho E) as (str1 & -> & O1 & E1); [unfold in_u; lia|].
  assert (exists str2, read_count enc str1 = Done (Some n, str2) /\ BufferReadStream.ok str2 /\
            BufferReadStream.rest str2 = vu_bytes 5 start ++ tail) as (str2 & E2 & O2 & R2).
  { unfold read_count, enc. destruct (Z.ltb_spec n 4).
    - rewrite (proj2 (Z.eqb_neq n 0)) by lia. by exists str1.
    - cbn [Z.eqb]. apply brs_varuint; [done|done|unfold in_u; lia]. }
  destruct (brs_varuint str2 _ _ O2 R2 Hs) as (str3 & E3 & O3 & R3).
  exists str1, str2, str3. split_and!; done || lia.
Qed.

Lemma server_ReadValue str v tail :
  BufferReadStream.ok str -> BufferReadStream.rest str = value_bytes v ++ tail -> value_ok v ->
  exists str', MicroServer.ReadValue (index v) str = Done (Some v, str') /\
    BufferReadStream.ok str' /\ BufferReadStream.rest str' = tail.
Proof.
  intros Ho E Hv. pose proof (index_range v). unfold MicroServer.ReadValue.
  rewrite (proj2 (Z.leb_le _ _)) by lia. cbn [mj_assert]. rewrite bind_done.
  pose proof (type_size_pos (index v)).
  destruct (brs_scalar str (Z.to_nat (type_size (index v))) (value_bytes v) tail Ho E)
    as (str' & -> & O' & E'); [rewrite zlen_value_bytes; lia|]. rewrite bind_done.
  cbn beta iota. exists str'. cbn [option_map]. by rewrite value_of_value_bytes.
Qed.

(** A refused write, answered or not. *)
Lemma EmitWriteError_answered w resp reg e n :
  ready resp w (11 + n) -> in_u 32 reg -> in_u 32 e -> 0 <= n ->
  exists w', EmitWriteError w resp reg e = Done w' /\
    answered resp w (reply_bytes (ErrorReply false reg e)) w' n.
Proof.
  intros Hr ? ? ?. destruct resp; [|by exists w]. destruct (Hr eq_refl) as [Ho Hf].
  destruct (error_emitted w kWriteError reg e n Ho) as (w' & E & ? & ?); [done..|]. by exists w'.
Qed.

Lemma ready_drop resp w n m : 0 <= n -> ready resp w (n + m) -> ready resp w m.
Proof. intros Hn. apply ready_le. lia. Qed.

Lemma Write_loop_serves vs s str w resp type reg tail n :
  BufferReadStream.ok str -> BufferReadStream.rest str = concat (map value_bytes vs) ++ tail ->
  Forall (fun v => value_ok v /\ index v = type) vs -> in_u 32 reg ->
  ready resp w (11 * zlen vs + n) -> 0 <= n ->
  let '(replies, t, verdict) := serve_write server (srv s) reg vs in
  exists str' w', Write_loop server (length vs) s str w resp type reg =
      Done (verdict, finish verdict (set_srv t s), str', w') /\
    answered resp w (concat (map reply_bytes replies)) w' n /\ verdict <> kMalformed /\
    (verdict = kContinue -> BufferReadStream.ok str' /\ BufferReadStream.rest str' = tail).
Proof.
  revert s str w reg. induction vs as [|v vs IH]; intros s str w reg Ho E Hv Hreg Hr Hn.
  { cbn [serve_write]. exists str, w. cbn [finish]. rewrite set_srv_id.
    split_and!; [done|by apply answered_nil|done|done]. }
  apply Forall_cons_1 in Hv as [[Hok <-] Hv]. cbn [map concat] in E. rewrite <- app_assoc in E.
  cbn [serve_write length Write_loop]. rewrite zlen_cons in Hr.
  destruct (server_ReadValue str v _ Ho E Hok) as (str1 & -> & O1 & E1). rewrite bind_done.
  cbn beta iota. destruct (Write server (srv s) reg v) as [action t1]. cbv zeta.
  pose proof (uwrap_range 32 (reg + 1) ltac:(lia)) as Hreg'. pose proof (zlen_nonneg vs).
  assert (forall w1 d, answered resp w d w1 (11 * zlen vs + n) ->
    let '(replies, t, verdict) := serve_write server t1 (u32 (reg + 1)) vs in
    exists str' w', Write_loop server (length vs) (set_srv t1 s) str1 w1 resp (index v) (u32 (reg + 1)) =
        Done (verdict, finish verdict (set_srv t s), str', w') /\
      answered resp w (d ++ concat (map reply_bytes replies)) w' n /\ verdict <> kMalformed /\
      (verdict = kContinue -> BufferReadStream.ok str' /\ BufferReadStream.rest str' = tail)) as Hnext.
  { intros w1 d A. specialize (IH (set_srv t1 s) str1 w1 _ O1 E1 Hv Hreg' (answered_ready _ _ _ _ _ A) Hn).
    change (srv (set_srv t1 s)) with t1 in IH.
    destruct (serve_write server t1 _ vs) as [[replies t] verdict].
    destruct IH as (str' & w' & -> & A' & ? & ?). exists str', w'.
    split_and!; [done|by eapply answered_app|done|done]. }
  assert (forall e, in_u 32 e -> exists w', EmitWriteError w resp reg e = Done w' /\
    answered resp w (reply_bytes (ErrorReply false reg e)) w' (11 * zlen vs + n)) as Herr.
  { intros e He. apply EmitWriteError_answered; [|done|done|lia].
    eapply ready_le; [|exact Hr]. lia. }
  assert (answered resp w [] w (11 * zlen vs + n)) as Hnil.
  { apply answered_nil. eapply ready_le; [|exact Hr]. lia. }
  destruct action.
  - rewrite bind_done. specialize (Hnext w [] Hnil). by destruct (serve_write _ _ _ _) as [[??]?].
  - destruct (Herr 1 ltac:(done)) as (w1 & -> & A). rewrite bind_done. specialize (Hnext w1 _ A).
    by destruct (serve_write _ _ _ _) as [[??]?].
  - destruct (Herr 2 ltac:(done)) as (w1 & -> & A). rewrite bind_done. specialize (Hnext w1 _ A).
    by destruct (serve_write _ _ _ _) as [[??]?].
  - exists str1, w. split_and!; [done| |done|done].
    destruct resp; [|done]. destruct Hnil as [? _]. split; [done|]. destruct (Hr eq_refl).
    eapply fits_le; [|done]. lia.
Qed.

Lemma Read_loop_serves n s w0 d w type reg m :
  BufferWriteStream.ok w0 -> emitted w0 d w -> BufferWriteStream.fits w0 (11 + m) = true ->
  0 <= type <= 3 -> in_u 32 reg -> 0 <= m ->
  BufferWriteStream.fits w (Z.of_nat n * type_size type + m) = true ->
  exists w', Read_loop server n s w (BufferWriteStream.position w0) type reg =
      Done (match read_values server (srv s) n type reg with inl _ => false | inr _ => true end, w') /\
    match read_values server (srv s) n type reg with
    | inl vs => emitted w (concat (map value_bytes vs)) w' /\ BufferWriteStream.fits w' m = true /\
                zlen vs = Z.of_nat n
    | inr (reg', e) => emitted w0 (reply_bytes (ErrorReply true reg' e)) w' /\
                BufferWriteStream.fits w' m = true
    end.
Proof.
  intros Ho0 W F0 Ht Hreg Hm. revert w d reg W Hreg. pose proof (type_size_pos type).
  induction n as [|n IH]; intros w d reg W Hreg F; cbn [Read_loop read_values].
  { exists w. split_and!; [done|apply emitted_nil, W|exact F|done]. }
  pose proof (Htyped (srv s) reg type Ht) as Hty.
  destruct (Read server (srv s) reg type) as [v|e].
  - destruct Hty as [Hok Hix]. pose proof (zlen_value_bytes v) as Zv. rewrite Hix in Zv.
    destruct (WriteBytes_emitted w (value_bytes v)) as (w1 & E1 & W1);
      [apply W|eapply fits_le; [|exact F]; nia|].
    unfold BufferWriter.WriteValue. rewrite E1, bind_done.
    destruct (IH w1 _ (u32 (reg + 1)) (emitted_app _ _ _ _ _ W W1) (uwrap_range 32 _ ltac:(lia)))
      as (w2 & -> & R).
    { rewrite (emitted_fits _ _ _ _ W1). eapply fits_le; [|exact F]. nia. }
    exists w2. destruct (read_values _ _ _ _ _) as [vs|[reg' e]]; [|done].
    destruct R as (? & ? & ?). split_and!; [done|by eapply emitted_app|done|rewrite zlen_cons; lia].
  - destruct (reset_emitted w0 d w Ho0 W) as (w1 & -> & W1); [eapply fits_le; [|exact F0]; lia|].
    rewrite bind_done. unfold EmitReadError.
    destruct (error_emitted w1 kReadError reg e m) as (w2 & -> & W2 & F2);
      [apply W1|done..| |].
    { rewrite (emitted_fits _ _ _ _ W1). exact F0. }
    rewrite bind_done. exists w2. split_and!; [done| |done]. exact (emitted_app _ _ _ _ _ W1 W2).
Qed.

Lemma reply_id type enc :
  0 <= type <= 3 -> 0 <= enc < 4 -> Z.lor (Z.lor kReplyBase (type * 4)) enc = kReplyBase + type * 4 + enc.
Proof.
  intros Ht He. assert (type = 0 \/ type = 1 \/ type = 2 \/ type = 3) as [-> | [-> | [-> | ->]]] by lia;
  assert (enc = 0 \/ enc = 1 \/ enc = 2 \/ enc = 3) as [-> | [-> | [-> | ->]]] by lia; reflexivity.
Qed.

(** The head of a reply. *)
Lemma reply_head_emitted w type n start m :
  BufferWriteStream.ok w -> 0 <= type <= 3 -> 0 < n < 2 ^ 32 -> in_u 32 start -> 0 <= m ->
  BufferWriteStream.fits w (11 + m) = true ->
  let enc := if n <? 4 then n else 0 in
  exists w',
    (w ← BufferWriter.WriteVaruint w (Z.lor (Z.lor kReplyBase (type * 4)) enc);
     w ← (if enc =? 0 then BufferWriter.WriteVaruint w n else Done w);
     BufferWriter.WriteVaruint w start) = Done w' /\
    emitted w (head_bytes kReplyBase type n start) w' /\ BufferWriteStream.fits w' m = true.
Proof.
  intros Ho Ht Hn Hs Hm F. cbv zeta. unfold head_bytes.
  rewrite reply_id by (destruct (Z.ltb_spec n 4); lia).
  destruct (WriteVaruint_step w (kReplyBase + type * 4 + (if n <? 4 then n else 0)) 1 (10 + m) Ho)
    as (w1 & -> & W1 & O1 & F1);
    [unfold in_u, kReplyBase; destruct (Z.ltb_spec n 4); lia
    |apply subframe_id_len; unfold kReplyBase; destruct (Z.ltb_spec n 4); lia
    |lia|rewrite <- F; f_equal; lia|]. rewrite bind_done.
  assert (exists w2, (if (if n <? 4 then n else 0) =? 0 then BufferWriter.WriteVaruint w1 n else Done w1)
            = Done w2 /\ emitted w1 (if n <? 4 then [] else vu_bytes 5 n) w2 /\
            BufferWriteStream.fits w2 (5 + m) = true) as (w2 & -> & W2 & F2).
  { destruct (Z.ltb_spec n 4).
    - rewrite (proj2 (Z.eqb_neq n 0)) by lia. exists w1. split_and!; [done|by apply emitted_nil|].
      eapply fits_le; [|exact F1]. lia.
    - cbn [Z.eqb]. destruct (WriteVaruint_step w1 n 5 (5 + m) O1) as (w2 & ? & ? & ? & ?);
        [unfold in_u; lia|apply u32_len; unfold in_u; lia|lia|rewrite <- F1; f_equal; lia|]. eauto. }
  rewrite bind_done.
  destruct (WriteVaruint_step w2 start 5 m (proj1 W2) Hs (u32_len _ Hs) Hm F2) as (w3 & -> & W3 & ? & F3).
  exists w3. split_and!; [done| |done].
  eapply emitted_app; [exact W1|]. by eapply emitted_app.
Qed.

Lemma Read_serves tl n start type s str1 str2 str3 w m :
  0 <= type <= 3 -> 0 < n < 2 ^ 32 -> in_u 32 start -> 0 <= m ->
  tl / 4 = type -> tl mod 4 = (if n <? 4 then n else 0) ->
  read_count (tl mod 4) str1 = Done (Some n, str2) ->
  BufferReader.ReadVaruint str2 = Done (Some start, str3) ->
  ready true w (11 + n * type_size type + m) ->
  let '(r, v) := serve_read server (srv s) start n type in
  exists w', ProcessSubframeRead server tl s str1 w true =
      Done (match v with kMalformed => true | _ => false end, str3, w') /\
    answered true w (reply_bytes r) w' m.
Proof.
  intros Ht Hn Hs Hm Hd Hmod Hc Hv Hr. destruct (Hr eq_refl) as [Ho F].
  pose proof (type_size_pos type). unfold serve_read, ProcessSubframeRead. cbn [negb]. cbv zeta.
  rewrite Hc, bind_done. cbn beta iota. rewrite Hv, bind_done. cbn beta iota. rewrite Hd, Hmod.
  destruct (reply_head_emitted w type n start (n * type_size type + m) Ho Ht Hn Hs)
    as (w1 & E1 & W1 & F1); [nia|rewrite <- F; f_equal; lia|]. cbv zeta in E1.
  inv_bind. rewrite Hstep, bind_done, Hstep0, bind_done, E1, bind_done.
  destruct (Read_loop_serves (Z.to_nat n) s w _ w1 type start m Ho W1) as (w2 & -> & R);
    [eapply fits_le; [|exact F]; nia|done|done|done|by rewrite Z2Nat.id by lia|].
  rewrite bind_done.
  destruct (read_values server (srv s) (Z.to_nat n) type start) as [vs|[reg e]]; exists w2.
  - destruct R as (W2 & F2 & Z2). split; [done|]. split; [|done]. cbn [reply_bytes].
    rewrite Z2, Z2Nat.id by lia. by eapply emitted_app.
  - by split.
Qed.

(** *** One operation *)

(** What the loop over the subframes does with the subframe of an operation. *)
Definition op_served (op : request_op) : Prop := forall s str w resp tail fuel m,
  BufferReadStream.ok str -> BufferReadStream.rest str = op_bytes op ++ tail ->
  ready resp w (op_room op + m) -> 0 <= m -> (resp = false -> op_reads op = false) ->
  let '(replies, t, verdict) := serve_op server (srv s) op in
  exists str' w', answered resp w (concat (map reply_bytes replies)) w' m /\
    ProcessSubframes_loop server client max_size (S fuel) s str w resp =
      (match verdict with
       | kContinue => ProcessSubframes_loop server client max_size fuel (set_srv t s) str' w' resp
       | _ => Done (finish verdict (set_srv t s), w')
       end) /\
    (verdict = kContinue -> BufferReadStream.ok str' /\ BufferReadStream.rest str' = tail).

Lemma remaining_cons str b l :
  BufferReadStream.ok str -> BufferReadStream.rest str = b :: l -> (BufferReadStream.remaining str =? 0) = false.
Proof.
  intros Ho E. rewrite <- BufferReadStream.brs_zlen_rest, E, zlen_cons by done.
  pose proof (zlen_nonneg l). apply Z.eqb_neq. lia.
Qed.

Lemma vu_bytes_cons v : exists b l, vu_bytes 5 v = b :: l.
Proof. simpl. destruct (v <? 128); eauto. Qed.

Lemma head_remaining str base type n start tail :
  BufferReadStream.ok str -> BufferReadStream.rest str = head_bytes base type n start ++ tail ->
  (BufferReadStream.remaining str =? 0) = false.
Proof.
  intros Ho E. unfold head_bytes in E. destruct (vu_bytes_cons (base + type * 4 + (if n <? 4 then n else 0)))
    as (b & l & Eb). rewrite Eb in E. exact (remaining_cons str b _ Ho E).
Qed.

Lemma read_served start n type s str w tail fuel m :
  BufferReadStream.ok str -> BufferReadStream.rest str = head_bytes kReadBase type n start ++ tail ->
  0 <= type <= 3 -> 0 < n < 2 ^ 32 -> in_u 32 start ->
  ready true w (11 + n * type_size type + m) -> 0 <= m ->
  let '(r, v) := serve_read server (srv s) start n type in
  exists str' w', answered true w (reply_bytes r) w' m /\
    ProcessSubframes_loop server client max_size (S fuel) s str w true =
      (match v with
       | kContinue => ProcessSubframes_loop server client max_size fuel s str' w' true
       | _ => Done (finish v s, w')
       end) /\
    BufferReadStream.ok str' /\ BufferReadStream.rest str' = tail.
Proof.
  intros Ho E Ht Hn Hs Hr Hm.
  destruct (server_head str kReadBase type n start tail Ho E) as
    (tl & str1 & str2 & str3 & Htl & Hd & Hmod & E1 & E2 & E3 & O3 & R3);
    [unfold kReadBase; lia|done..|].
  pose proof (Read_serves tl n start type s str1 str2 str3 w m Ht Hn Hs Hm Hd Hmod E2 E3 Hr) as R.
  unfold serve_read in *.
  cbn [ProcessSubframes_loop]. rewrite (head_remaining _ _ _ _ _ _ Ho E), E1, bind_done. cbn beta iota.
  unfold kClientToServer, kClientPollServer, kNop, kWriteBase, kReadBase in *.
  rewrite !(proj2 (Z.eqb_neq _ _)) by lia. rewrite (proj2 (Z.ltb_ge _ (0 + 16))), andb_false_r by lia.
  rewrite (proj2 (Z.leb_le _ _)), (proj2 (Z.ltb_lt _ _)) by lia. cbn [andb].
  replace (16 + tl - 16) with tl by lia.
  destruct (read_values server (srv s) (Z.to_nat n) type start) as [vs|[reg e]];
    destruct R as (w' & -> & A); rewrite bind_done; exists str3, w'; by split_and!.
Qed.

Lemma write_served start vs type s str w resp tail fuel m :
  BufferReadStream.ok str ->
  BufferReadStream.rest str = head_bytes kWriteBase type (zlen vs) start ++ concat (map value_bytes vs) ++ tail ->
  0 <= type <= 3 -> 0 < zlen vs < 2 ^ 32 -> in_u 32 start ->
  Forall (fun v => value_ok v /\ index v = type) vs ->
  ready resp w (11 * zlen vs + m) -> 0 <= m ->
  let '(replies, t, verdict) := serve_write server (srv s) start vs in
  exists str' w', answered resp w (concat (map reply_bytes replies)) w' m /\
    ProcessSubframes_loop server client max_size (S fuel) s str w resp =
      (match verdict with
       | kContinue => ProcessSubframes_loop server client max_size fuel (set_srv t s) str' w' resp
       | _ => Done (finish verdict (set_srv t s), w')
       end) /\
    (verdict = kContinue -> BufferReadStream.ok str' /\ BufferReadStream.rest str' = tail).
Proof.
  intros Ho E Ht Hn Hs Hvs Hr Hm.
  destruct (server_head str kWriteBase type (zlen vs) start _ Ho E) as
    (tl & str1 & str2 & str3 & Htl & Hd & Hmod & E1 & E2 & E3 & O3 & R3);
    [unfold kWriteBase; lia|done..|].
  pose proof (Write_loop_serves vs s str3 w resp type start tail m O3 R3 Hvs Hs Hr Hm) as R.
  destruct (serve_write server (srv s) start vs) as [[replies t] verdict].
  destruct R as (str' & w' & EW & A & Hv & Hk).
  cbn [ProcessSubframes_loop]. rewrite (head_remaining _ _ _ _ _ _ Ho E), E1, bind_done. cbn beta iota.
  unfold kClientToServer, kClientPollServer, kNop, kWriteBase in *.
  rewrite !(proj2 (Z.eqb_neq _ _)) by lia. rewrite (proj2 (Z.leb_le _ _)), (proj2 (Z.ltb_lt _ _)) by lia.
  cbn [andb]. replace (0 + tl - 0) with tl by lia. unfold ProcessSubframeWrite. cbv zeta.
  rewrite E2, bind_done. cbn beta iota. rewrite E3, bind_done. cbn beta iota. rewrite Hd.
  replace (Z.to_nat (zlen vs)) with (length vs) by (unfold zlen; lia). rewrite EW, bind_done.
  exists str', w'. split; [done|]. split; [|done]. by destruct verdict.
Qed.

Lemma op_is_served op : op_typed op -> op_served op.
Proof.
  intros [Hok Hty] s str w resp tail fuel m Ho E Hr Hm Hreads.
  destruct op as [reg num type|reg type|start vs|reg v]; cbn [serve_op op_bytes op_room] in *.
  - destruct Hok as (? & ? & ?). destruct resp; [|by specialize (Hreads eq_refl)].
    pose proof (read_served reg num type s str w tail fuel m Ho E) as R.
    destruct (serve_read server (srv s) reg num type) as [r v].
    destruct R as (str' & w' & A & L & ?); [done..|]. exists str', w'.
    rewrite set_srv_id. cbn [map concat]. by rewrite app_nil_r.
  - destruct Hok as (? & ?). destruct resp; [|by specialize (Hreads eq_refl)].
    pose proof (read_served reg 1 type s str w tail fuel m Ho E) as R. rewrite Z.mul_1_l in R.
    destruct (serve_read server (srv s) reg 1 type) as [r v].
    destruct R as (str' & w' & A & L & ?); [done..|]. exists str', w'.
    rewrite set_srv_id. cbn [map concat]. by rewrite app_nil_r.
  - destruct Hok as (? & Hn). destruct vs as [|v vs]; [unfold zlen in Hn; simpl in Hn; lia|].
    rewrite <- app_assoc in E. pose proof (index_range v).
    by apply (write_served start (v :: vs) (index v) s str w resp tail fuel m).
  - rewrite <- app_assoc in E. pose proof (index_range v).
    apply (write_served reg [v] (index v) s str w resp tail fuel m); try done.
    + cbn [map concat]. by rewrite app_nil_r.
    + by repeat constructor.
Qed.

(** *** A whole request *)
Lemma head_bytes_length base type n start : (1 <= length (head_bytes base type n start))%nat.
Proof.
  unfold head_bytes. destruct (vu_bytes_cons (base + type * 4 + (if n <? 4 then n else 0))) as (x & l & ->).
  simpl. lia.
Qed.

Lemma op_bytes_length op : (1 <= length (op_bytes op))%nat.
Proof.
  destruct op; cbn [op_bytes]; rewrite ?length_app;
    match goal with |- context [head_bytes ?b ?t ?n ?r] => pose proof (head_bytes_length b t n r) end; lia.
Qed.

Lemma typed_ok ops : Forall op_typed ops -> Forall op_ok ops.
Proof. induction 1 as [|op ops [] _ IH]; by constructor. Qed.

Lemma room_nonneg ops : Forall op_typed ops -> 0 <= room ops.
Proof.
  induction 1 as [|op ops [Hok _] _ IH]; simpl; [lia|].
  destruct op as [reg num type|reg type|start vs|reg v]; simpl in *;
    try pose proof (type_size_pos type); nia.
Qed.

Lemma loop_serves ops s str w resp fuel :
  Forall op_typed ops -> BufferReadStream.ok str ->
  BufferReadStream.rest str = concat (map op_bytes ops) ->
  (length (BufferReadStream.rest str) < fuel)%nat -> ready resp w (room ops) ->
  (resp = false -> existsb op_reads ops = false) ->
  let '(replies, t, verdict) := serve server (srv s) ops in
  exists w', ProcessSubframes_loop server client max_size fuel s str w resp =
      Done (finish verdict (set_srv t s), w') /\
    exists n, answered resp w (concat (map reply_bytes replies)) w' n.
Proof.
  revert s str w fuel. induction ops as [|op ops IH]; intros s str w fuel Ht Ho E Hf Hr Hreads.
  - cbn [serve]. destruct fuel as [|fuel]; [lia|]. cbn [ProcessSubframes_loop].
    rewrite <- BufferReadStream.brs_zlen_rest, E by done. exists w. cbn [finish].
    rewrite set_srv_id. split; [done|]. exists 0. by apply answered_nil.
  - pose proof (Forall_cons_1 _ _ _ Ht) as [Hop Hops]. cbn [serve map concat] in *.
    destruct fuel as [|fuel]; [lia|]. cbn [room foldr] in Hr. fold (room ops) in Hr.
    pose proof (room_nonneg ops Hops). pose proof (op_bytes_length op).
    pose proof (op_is_served op Hop s str w resp _ fuel (room ops) Ho E Hr ltac:(done)) as R.
    destruct (serve_op server (srv s) op) as [[replies t] verdict].
    destruct R as (str' & w' & A & -> & Hk).
    { intros H'. by apply Hreads, orb_false_iff in H' as []. }
    rewrite E, length_app in Hf. destruct verdict; [|exists w'; split; [done|eauto]..].
    destruct (Hk eq_refl) as [O' E']. specialize (IH (set_srv t s) str' w' fuel Hops O' E').
    change (srv (set_srv t s)) with t in IH. destruct (serve server t ops) as [[more t'] verdict].
    destruct IH as (w2 & -> & n & A2); [rewrite E'; lia|by eapply answered_ready| |].
    { intros H'. by apply Hreads, orb_false_iff in H' as []. }
    exists w2. split; [by destruct verdict|]. exists n.
    rewrite map_app, concat_app. by eapply answered_app.
Qed.
End serving.

(** *** The replies of the specification *)
Section replies.
Context {T : Type} (server : Server T) (Htyped : typed_server server).

Lemma read_values_ok t n type reg :
  0 <= type <= 3 -> in_u 32 reg ->
  match read_values server t n type reg with
  | inl vs => zlen vs = Z.of_nat n /\ Forall (fun v => value_ok v /\ index v = type) vs
  | inr (r, e) => in_u 32 r /\ in_u 32 e
  end.
Proof.
  intros Ht. revert reg. induction n as [|n IH]; intros reg Hreg; cbn [read_values].
  { split; [done|by constructor]. }
  pose proof (Htyped t reg type Ht) as Hty.
  destruct (Read server t reg type) as [v|e]; [|done].
  specialize (IH (u32 (reg + 1)) (uwrap_range 32 _ ltac:(lia))).
  destruct (read_values _ _ _ _ _) as [vs|[r e]]; [|done]. destruct IH as [? ?].
  split; [rewrite zlen_cons; lia|by constructor].
Qed.

Lemma serve_read_ok t start n type :
  0 <= type <= 3 -> 0 < n < 2 ^ 32 -> in_u 32 start -> reply_ok (serve_read server t start n type).1.
Proof.
  intros Ht Hn Hs. unfold serve_read.
  pose proof (read_values_ok t (Z.to_nat n) type start Ht Hs) as R.
  destruct (read_values _ _ _ _ _) as [vs|[r e]]; [|done]. destruct R.
  cbn [fst reply_ok]. split_and!; done || lia.
Qed.

Lemma serve_write_ok t vs reg :
  in_u 32 reg -> Forall reply_ok (serve_write server t reg vs).1.1.
Proof.
  revert t reg. induction vs as [|v vs IH]; intros t reg Hreg; cbn [serve_write]; [by constructor|].
  destruct (Write server t reg v) as [action t1].
  specialize (IH t1 (u32 (reg + 1)) (uwrap_range 32 _ ltac:(lia))).
  destruct (serve_write server t1 _ vs) as [[replies t2] verdict].
  destruct action; cbn; [exact IH|by constructor|by constructor|by constructor].
Qed.

Lemma serve_ok t ops : Forall op_typed ops -> Forall reply_ok (serve server t ops).1.1.
Proof.
  intros H. revert t. induction H as [|op ops [Hok _] _ IH]; intros t; cbn [serve]; [by constructor|].
  assert (Forall reply_ok (serve_op server t op).1.1) as Ho.
  { destruct op as [reg num type|reg type|start vs|reg v]; cbn [serve_op].
    - destruct Hok as (? & ? & ?). pose proof (serve_read_ok t reg num type) as R.
      destruct (serve_read _ _ _ _ _). constructor; [by apply R|constructor].
    - destruct Hok as (? & ?). pose proof (serve_read_ok t reg 1 type) as R.
      destruct (serve_read _ _ _ _ _). constructor; [by apply R|constructor].
    - apply serve_write_ok, Hok.
    - apply serve_write_ok, Hok. }
  destruct (serve_op server t op) as [[replies t1] verdict]. specialize (IH t1).
  destruct (serve server t1 ops) as [[more t2] v2]. destruct verdict; [|done..].
  simpl in *. by apply Forall_app.
Qed.
End replies.

(** *** What is named in a response *)
Section names.
Context {T : Type} (server : Server T).

Lemma registers_from_wrapped n : forall reg, registers_from (u32 reg) n = registers_from reg n.
Proof.
  assert (H : forall x y, u32 x = u32 y -> registers_from x n = registers_from y n).
  { induction n as [|n IH]; intros x y E; [done|]. cbn [registers_from]. rewrite E. f_equal. apply IH.
    unfold u32, uwrap in *. by rewrite <- (Z.add_mod_idemp_l x), E, Z.add_mod_idemp_l by done. }
  intros reg. apply H. unfold u32, uwrap. by apply Z.mod_mod.
Qed.

Lemma number_from_names vs : forall start, map fst (number_from start vs) = registers_from start (length vs).
Proof. induction vs as [|v vs IH]; intros start; [done|]. cbn. by rewrite IH. Qed.

Lemma read_values_names t n type : forall reg, in_u 32 reg ->
  match read_values server t n type reg with
  | inl vs => length vs = n
  | inr (r, _) => r ∈ registers_from reg n
  end.
Proof.
  induction n as [|n IH]; intros reg Hreg; cbn [read_values registers_from]; [done|]. rewrite (uwrap_id 32 reg) by (done || lia).
  destruct (Read server t reg type); [|by left]. specialize (IH (u32 (reg + 1)) (uwrap_range 32 _ ltac:(lia))).
  destruct (read_values _ _ _ _ _) as [vs|[r e]]; [cbn; by rewrite IH|]. right. by rewrite registers_from_wrapped in IH.
Qed.

Lemma serve_write_names t vs : forall reg, let '(replies, _, verdict) := serve_write server t reg vs in replies ≫= named = [] /\ verdict <> kMalformed.
Proof.
  revert t. induction vs as [|v vs IH]; intros t reg; cbn [serve_write]; [done|]. destruct (Write server t reg v) as [action t1].
  specialize (IH t1 (u32 (reg + 1))). destruct (serve_write server t1 _ vs) as [[replies t2] verdict]. destruct IH as [IH Hv].
  destruct action; cbn; by rewrite ?IH.
Qed.

(** What the response to one operation names: all of its registers, or the first that
    failed and none behind it. *)
Lemma serve_op_names t op : op_ok op ->
  let '(replies, _, verdict) := serve_op server t op in
  match verdict with
  | kContinue => replies ≫= named = op_registers op
  | kMalformed => exists reg, reg ∈ op_registers op /\ replies ≫= named = [reg]
  | kDiscardFrame => op_registers op = [] /\ replies ≫= named = []
  end.
Proof.
  intros Hok. assert (Hread : forall reg n type, in_u 32 reg -> let '(r, v) := serve_read server t reg n type in
    match v with
    | kContinue => named r = registers_from reg (Z.to_nat n)
    | kMalformed => exists reg', reg' ∈ registers_from reg (Z.to_nat n) /\ named r = [reg']
    | kDiscardFrame => False
    end).
  { intros reg n type Hr. unfold serve_read. pose proof (read_values_names t (Z.to_nat n) type reg Hr) as R.
    destruct (read_values _ _ _ _ _) as [vs|[r e]]; [cbn; by rewrite R|by exists r]. }
  destruct op as [reg num type|reg type|start vs|reg v]; cbn [serve_op op_registers] in *.
  - specialize (Hread reg num type (proj1 Hok)). destruct (serve_read _ _ _ _ _) as [r []]; cbn; rewrite ?app_nil_r; done.
  - specialize (Hread reg 1 type (proj1 Hok)). destruct (serve_read _ _ _ _ _) as [r []]; cbn; rewrite ?app_nil_r; done.
  - pose proof (serve_write_names t vs start) as R. destruct (serve_write _ _ _ _) as [[replies t'] []], R; done.
  - pose proof (serve_write_names t [v] reg) as R. destruct (serve_write _ _ _ _) as [[replies t'] []], R; done.
Qed.

(** The operation that ends a frame early: the registers in front of it are named,
    and of its own at most the one that could not be read. *)
Definition cut_short (ops : list request_op) (verdict : SubframeAction) (names : list Z) : Prop :=
  exists before op after, ops = before ++ op :: after /\
    match verdict with
    | kMalformed => exists reg, reg ∈ op_registers op /\ names = requested before ++ [reg]
    | _ => op_registers op = [] /\ names = requested before
    end.

Lemma serve_names ops : forall t, Forall op_ok ops ->
  let '(replies, _, verdict) := serve server t ops in
  match verdict with kContinue => replies ≫= named = requested ops | _ => cut_short ops verdict (replies ≫= named) end.
Proof.
  induction ops as [|op ops IH]; intros t Hok; cbn [serve]; [done|]. apply Forall_cons_1 in Hok as [Hop Hok].
  pose proof (serve_op_names t op Hop) as R. destruct (serve_op server t op) as [[replies t1] verdict].
  destruct verdict; [|destruct R as (reg & Hr & E); exists [], op, ops; split; [done|by exists reg]|by exists [], op, ops].
  specialize (IH t1 Hok). destruct (serve server t1 ops) as [[more t2] verdict]. rewrite bind_app, R.
  destruct verdict; [by rewrite IH| |]; destruct IH as (before & op' & after & -> & IH); exists (op :: before), op', after; (split; [done|]).
  - destruct IH as (reg & Hr & E). exists reg. split; [done|]. rewrite E. cbn. by rewrite app_assoc.
  - destruct IH as [Hr E]. split; [done|]. by rewrite E.
Qed.

(** Replies without a refusal. *)
Lemma served_entries replies : forallb (fun r => negb (refusal r)) replies = true ->
  map fst (concat (map reply_entries replies)) = replies ≫= named /\
  Forall (fun e => exists v, snd e = RValue v) (concat (map reply_entries replies)).
Proof.
  induction replies as [|r replies IH]; intros Hr; cbn in *; [done|]. apply andb_true_iff in Hr as [Hr Hrs]. destruct (IH Hrs) as [IH1 IH2].
  rewrite map_app, IH1. destruct r as [start type vs|]; [|done]. cbn. split; [by rewrite number_from_names|].
  apply list.Forall_app. split; [|done]. clear. revert start. induction vs as [|v vs IH]; intros start; cbn; constructor; [by eexists|apply IH].
Qed.
End names.

(** *** A response that does not fit *)
Section overflow.
Context {T C : Type} (server : Server T) (client : Client C) (max_size : Z).
Context (Htyped : typed_server server).
Implicit Types (s : @State T C) (w : BufferWriteStream.t).

Lemma Read_loop_overflows n s w start type reg :
  BufferWriteStream.ok w -> 0 <= type <= 3 -> (forall r, exists v, Read server (srv s) r type = RValue v) ->
  BufferWriteStream.fits w (Z.of_nat n * type_size type) = false ->
  Read_loop server n s w start type reg = Faulted Undefined.
Proof.
  intros Ho Ht Hall. revert w reg Ho. induction n as [|n IH]; intros w reg Ho F.
  { unfold BufferWriteStream.fits, BufferWriteStream.ok in *. apply Z.leb_gt in F. lia. }
  cbn [Read_loop]. destruct (Hall reg) as [v Ev]. pose proof (Htyped (srv s) reg type Ht) as Hty.
  rewrite Ev in *. destruct Hty as [_ Hix]. pose proof (zlen_value_bytes v) as Zv. rewrite Hix in Zv.
  unfold BufferWriter.WriteValue.
  destruct (BufferWriteStream.fits w (zlen (value_bytes v))) eqn:Fv.
  - destruct (WriteBytes_emitted w _ Ho Fv) as (w1 & -> & W1). rewrite bind_done.
    apply IH; [apply W1|]. rewrite (emitted_fits _ _ _ _ W1), Zv, <- F. f_equal. lia.
  - by rewrite WriteBytes_checked, Fv by done.
Qed.
End overflow.

Section misread.
Context {T C : Type} (server : Server T) (client : Client C) (max_size : Z).
Implicit Types (s : @State T C) (w : BufferWriteStream.t).

(** Without a response stream a read subframe is dropped after its first byte. *)
Lemma unanswered_read_step fuel s str str1 w id :
  kReadBase <= id < kReadBase + 16 -> (BufferReadStream.remaining str =? 0) = false ->
  BufferReader.ReadVaruint str = Done (Some id, str1) ->
  ProcessSubframes_loop server client max_size (S fuel) s str w false =
  ProcessSubframes_loop server client max_size fuel s str1 w false.
Proof.
  intros Hid Hr E. cbn [ProcessSubframes_loop]. rewrite Hr, E, bind_done. cbn beta iota.
  unfold kClientToServer, kClientPollServer, kNop, kWriteBase, kReadBase in *.
  rewrite !(proj2 (Z.eqb_neq _ _)) by lia. rewrite (proj2 (Z.ltb_ge _ (0 + 16))), andb_false_r by lia.
  by rewrite (proj2 (Z.leb_le _ _)), (proj2 (Z.ltb_lt _ _)) by lia.
Qed.

(** A frame that ends in the write of one int8 to register 17. *)
Lemma singleton_write s str w reg :
  BufferReadStream.ok str -> BufferReadStream.rest str = map byte.of_Z [0x01; 0x11; reg] ->
  0 <= reg < 128 ->
  exists s', ProcessSubframes_loop server client max_size 4 s str w false = Done (s', w) /\
    srv s' = (Write server (srv s) 17 (VInt8 reg)).2.
Proof.
  intros Ho E Hreg.
  pose proof (write_served server client max_size 17 [VInt8 reg] 0 s str w false [] 3 0 Ho E) as R.
  cbn [serve_write] in R. destruct (Write server (srv s) 17 (VInt8 reg)) as [action t].
  assert (forall str', BufferReadStream.ok str' -> BufferReadStream.rest str' = [] ->
    ProcessSubframes_loop server client max_size 3 (set_srv t s) str' w false = Done (set_srv t s, w)) as Hend.
  { intros str' O' E'. cbn [ProcessSubframes_loop].
    by rewrite <- BufferReadStream.brs_zlen_rest, E' by done. }
  destruct action; destruct R as (str' & w' & A & R & Hk); try done;
    try (by repeat constructor; simpl; unfold in_s; lia);
    simpl in A; subst w'; rewrite R.
  4: by eexists.
  all: destruct (Hk eq_refl); eexists; (split; [by apply Hend|done]).
Qed.
End misread.

(** ** Properties *)

(** C8: the multiplex server implements the register service.  Given the
    bytes of any sequence of register operations, and room for the answers if
    they are wanted, it runs to the end of the frame without a fault, makes
    the application see exactly the writes of the specification, in order,
    answers with exactly its replies, and counts the frame as the verdict
    says; operations that ask for no reply need no response stream.  A read has one
    reply, a write one for each value that the application refuses.  Where no read
    fails and no write discards the frame, the response names each register that was
    requested once, in order; where one does, it names those in front of that
    operation and, of a read, only the register that failed: not each requested
    register, as format.h has it ([failed_read_names_one]). *)
Theorem server_refines_register_spec {T C} (server : Server T) (client : Client C) (max_size : Z)
    (s : @State T C) (ops : list request_op) (w : BufferWriteStream.t) (resp : bool) :
  typed_server server -> Forall op_typed ops -> BufferWriteStream.ok w ->
  BufferWriteStream.fits w (room ops) = true -> (resp = false -> existsb op_reads ops = false) ->
  let '(replies, t, verdict) := serve server (srv s) ops in
  exists w', ProcessSubframes server client max_size s (concat (map op_bytes ops)) w resp =
      Done (finish verdict (set_srv t s), w') /\
    (if resp then BufferWriteStream.out w' = BufferWriteStream.out w ++ concat (map reply_bytes replies)
     else w' = w) /\
    match verdict with
    | kContinue => replies ≫= named = requested ops
    | _ => cut_short ops verdict (replies ≫= named)
    end.
Proof.
  intros Hsrv Hops Ho Hf Hreads. unfold ProcessSubframes. pose proof (serve_names server ops (srv s) (typed_ok ops Hops)) as Hn.
  pose proof (loop_serves server client max_size Hsrv ops s
    (BufferReadStream.make (concat (map op_bytes ops))) w resp
    (S (length (concat (map op_bytes ops)))) Hops
    (BufferReadStream.brs_ok_make _) (BufferReadStream.brs_rest_make _)) as R.
  rewrite BufferReadStream.brs_rest_make in R.
  destruct (serve server (srv s) ops) as [[replies t] verdict].
  destruct R as (w' & E & n & A); [lia|done|done|]. exists w'. split; [exact E|]. split; [|done].
  destruct resp; [|exact A]. by destruct A as [(_ & ? & _) _].
Qed.

(** A request built by the client library and served. *)
Lemma request_served {T C} (server : Server T) (client : Client C) (max_size : Z) (s : @State T C) (ops : list request_op) (buf : list byte) :
  typed_server server -> Forall op_typed ops -> room ops <= zlen buf ->
  let '(replies, t, verdict) := serve server (srv s) ops in
  exists r w',
    run_ops RegisterRequest.make ops = Done r /\ RegisterRequest.request_reply_ r = existsb op_reads ops /\
    ProcessSubframes server client max_size s (RegisterRequest.buffer r) (BufferWriteStream.make buf) (existsb op_reads ops) =
      Done (finish verdict (set_srv t s), w') /\
    (existsb op_reads ops = true -> (length (BufferWriteStream.out w') <= length buf)%nat /\
      forall fuel, (length (BufferWriteStream.out w') < fuel)%nat -> exists rest,
        RegisterParser.ParseRegisterReply fuel (FastIStringStream.make (BufferWriteStream.out w')) =
          Done (concat (map reply_entries replies), rest)).
Proof.
  intros Hsrv Hops Hroom.
  destruct (run_ops_spec RegisterRequest.make ops FastOStringStream.ok_empty) as (r & Er & _ & Eb & Erep);
    [by apply typed_ok|].
  pose proof (serve_ok server Hsrv (srv s) ops Hops) as Hrep. unfold ProcessSubframes.
  change (RegisterRequest.buffer RegisterRequest.make) with (@nil byte) in Eb. simpl in Eb. set (resp := existsb op_reads ops) in *.
  pose proof (loop_serves server client max_size Hsrv ops s
    (BufferReadStream.make (RegisterRequest.buffer r)) (BufferWriteStream.make buf) resp
    (S (length (RegisterRequest.buffer r))) Hops (BufferReadStream.brs_ok_make _)) as R.
  rewrite BufferReadStream.brs_rest_make in R.
  destruct (serve server (srv s) ops) as [[replies t] verdict].
  destruct R as (w' & E & n & A); [done|lia| |done|].
  { intros _. split; [apply BufferWriteStream.bws_ok_make|]. by apply Z.leb_le. }
  exists r, w'. split; [done|]. split; [exact Erep|]. split; [done|]. intros Hr. rewrite Hr in A. destruct A as ((Ow & Eo & Zw & _) & _).
  assert (length (BufferWriteStream.out w') <= length buf)%nat as Hle.
  { unfold BufferWriteStream.out, BufferWriteStream.ok, ztake in *. rewrite length_take. simpl in Zw. unfold zlen in Zw. lia. }
  split; [done|]. intros fuel Hfuel. assert (BufferWriteStream.out w' = concat (map reply_bytes replies) ++ []) as Eo'
    by (rewrite app_nil_r; exact Eo).
  destruct (@ParseRegisterReply_loop_replies _ _ FastIStringStream.read_laws fuel (FastIStringStream.make (BufferWriteStream.out w')) []
    replies [] (FastIStringStream.fis_ok_make _) (Hrep : Forall reply_ok replies) Eo') as (rest & Ep); [|by left|by exists rest].
  cbn [rs_rest FastIStringStream.read_laws]. rewrite FastIStringStream.fis_rest_make. unfold zlen. lia.
Qed.

(** C38: a request to read more than the response buffer holds makes the
    server write outside of it: the writers it uses do not check, and nothing
    bounds the number of registers of a request. *)
Theorem oversized_read_overflows {T C} (server : Server T) (client : Client C) (max_size : Z)
    (s : @State T C) (reg num type : Z) (w : BufferWriteStream.t) :
  typed_server server -> op_ok (OpRead reg num type) ->
  (forall r, exists v, Read server (srv s) r type = RValue v) ->
  BufferWriteStream.ok w -> BufferWriteStream.fits w 11 = true ->
  BufferWriteStream.fits w (zlen (head_bytes kReplyBase type num reg) + num * type_size type) = false ->
  ProcessSubframes server client max_size s (op_bytes (OpRead reg num type)) w true = Faulted Undefined.
Proof.
  intros Hsrv (Hreg & Hn & Ht) Hall Ho Hf Hover. unfold ProcessSubframes. cbn [op_bytes].
  set (fuel := length _). set (str := BufferReadStream.make _).
  assert (BufferReadStream.ok str) as O0 by apply BufferReadStream.brs_ok_make.
  assert (BufferReadStream.rest str = head_bytes kReadBase type num reg ++ []) as E0 by
    (rewrite app_nil_r; apply BufferReadStream.brs_rest_make).
  destruct (server_head str kReadBase type num reg [] O0 E0) as
    (tl & str1 & str2 & str3 & Htl & Hd & Hmod & E1 & E2 & E3 & _);
    [unfold kReadBase; lia|done..|].
  cbn [ProcessSubframes_loop]. rewrite (head_remaining _ _ _ _ _ _ O0 E0), E1, bind_done. cbn beta iota.
  unfold kClientToServer, kClientPollServer, kNop, kWriteBase, kReadBase in *.
  rewrite !(proj2 (Z.eqb_neq _ _)) by lia. rewrite (proj2 (Z.ltb_ge _ (0 + 16))), andb_false_r by lia.
  rewrite (proj2 (Z.leb_le _ _)), (proj2 (Z.ltb_lt _ _)) by lia. cbn [andb].
  replace (16 + tl - 16) with tl by lia. unfold ProcessSubframeRead. cbn [negb]. cbv zeta.
  rewrite E2, bind_done. cbn beta iota. rewrite E3, bind_done. cbn beta iota. rewrite Hd, Hmod.
  destruct (reply_head_emitted w type num reg 0 Ho Ht Hn Hreg ltac:(lia) Hf) as (w1 & Eh & W1 & _).
  cbv zeta in Eh. inv_bind. rewrite Hstep, bind_done, Hstep0, bind_done, Eh, bind_done.
  rewrite (Read_loop_overflows server Hsrv); [done|apply W1|done|done|].
  rewrite (emitted_fits _ _ _ _ W1), Z2Nat.id by lia. exact Hover.
Qed.

(** A read that is not answered is not skipped: its operands are taken
    for subframes.  Two reads of one int8 register each, the first of
    register 1, sent while a response is outstanding, write the number of the
    second register into register 17. *)
Theorem unanswered_reads_write {T C} (server : Server T) (client : Client C) (max_size : Z)
    (s : @State T C) (reg : Z) (w : BufferWriteStream.t) :
  0 <= reg < 128 ->
  exists r s', run_ops RegisterRequest.make [OpReadSingle 1 0; OpReadSingle reg 0] = Done r /\
    ProcessSubframes server client max_size s (RegisterRequest.buffer r) w false = Done (s', w) /\
    srv s' = (Write server (srv s) 17 (VInt8 reg)).2.
Proof.
  intros Hreg.
  destruct (run_ops_spec RegisterRequest.make [OpReadSingle 1 0; OpReadSingle reg 0] FastOStringStream.ok_empty)
    as (r & Er & _ & Eb & _); [repeat constructor; unfold in_u; simpl; lia|].
  exists r. assert (RegisterRequest.buffer r = map byte.of_Z [0x11; 0x01; 0x11; reg]) as ->.
  { rewrite Eb. change (RegisterRequest.buffer RegisterRequest.make) with (@nil byte).
    unfold head_bytes. simpl. by rewrite (proj2 (Z.ltb_lt reg 128)) by lia. }
  unfold ProcessSubframes. set (frame := map byte.of_Z _).
  change (length frame) with 4%nat.
  assert (BufferReadStream.ok (BufferReadStream.make frame)) as O0 by apply BufferReadStream.brs_ok_make.
  assert (BufferReadStream.rest (BufferReadStream.make frame) =
          vu_bytes 5 0x11 ++ map byte.of_Z [0x01; 0x11; reg]) as E0 by reflexivity.
  destruct (brs_varuint _ _ _ O0 E0) as (str1 & R & O1 & E1); [done|].
  rewrite (unanswered_read_step server client max_size 4 s _ str1 w 0x11);
    [|done|exact (remaining_cons _ _ _ O0 E0)|exact R].
  destruct (singleton_write server client max_size s str1 w reg) as (s' & -> & E); [done|done|lia|].
  by exists s'.
Qed.

(** A read of more than one register is answered for the first that fails alone: the
    registers in front of it and behind it are not named, and neither is what the
    frame asks for behind the read. *)
Theorem failed_read_names_one {T} (server : Server T) (t : T) (start n type reg e : Z) (more : list request_op) :
  read_values server t (Z.to_nat n) type start = inr (reg, e) ->
  serve server t (OpRead start n type :: more) = ([ErrorReply true reg e], t, kMalformed).
Proof. intros E. cbn [serve serve_op]. unfold serve_read. by rewrite E. Qed.

(** *** Witnesses *)
Lemma demo_typed : typed_server demo_server.
Proof.
  intros t reg type Ht. unfold demo_server, Read.
  destruct (reg =? 1), (Z.eqb_spec type 2); cbn [andb]; try (unfold in_u; lia).
  subst. split; [by apply (swrap_range 32 t)|done].
Qed.

(** Write 7 to register 1, a value to a register that does not exist, read
    register 1 back and then registers 1 to 4, of which the last three fail. *)
Definition demo_ops : list request_op :=
  [OpWriteSingle 1 (VInt32 7); OpWrite 1 [VInt16 3; VInt16 4]; OpReadSingle 1 2; OpRead 1 4 2].

Lemma demo_ops_typed : Forall op_typed demo_ops.
Proof. repeat constructor; simpl; unfold in_u, in_s; try lia; done. Qed.

Definition demo_replies : list reply :=
  [ErrorReply false 1 2; ErrorReply false 2 1; Values 1 2 [VInt32 7]; ErrorReply true 2 1].

Example demo_served : serve demo_server 42 demo_ops = (demo_replies, 7, kMalformed).
Proof. vm_compute. reflexivity. Qed.

Definition demo_state : @State Z (list byte) := core demo_impl.
Definition demo_buffer : list byte := replicate 128 (byte.of_Z 0).

Lemma server_refines_register_spec_witness :
  exists w', ProcessSubframes demo_server demo_client 64 demo_state (concat (map op_bytes demo_ops))
      (BufferWriteStream.make demo_buffer) true =
      Done (finish kMalformed (set_srv 7 demo_state), w') /\
    BufferWriteStream.out w' =
      BufferWriteStream.out (BufferWriteStream.make demo_buffer) ++ concat (map reply_bytes demo_replies) /\
    cut_short demo_ops kMalformed [1; 2].
Proof.
  refine (server_refines_register_spec demo_server demo_client 64 demo_state demo_ops
    (BufferWriteStream.make demo_buffer) true demo_typed demo_ops_typed
    (BufferWriteStream.bws_ok_make _) _ _); [vm_compute; reflexivity|discriminate].
Defined.

(** An application that answers every read with zero. *)
Definition zero_server : Server unit := {|
  StartFrame t := t; Write t _ _ := (kSuccess, t);
  Read _ _ type := RValue (value_of_bytes type (replicate (Z.to_nat (type_size type)) (byte.of_Z 0)));
  CompleteFrame t := (kAccept, t) |}.

Lemma zero_typed : typed_server zero_server.
Proof.
  intros t reg type Ht. cbn [Read zero_server].
  assert (type = 0 \/ type = 1 \/ type = 2 \/ type = 3) as [-> | [-> | [-> | ->]]] by lia;
    split; vm_compute; done || (split; discriminate || done).
Qed.

Definition zero_state : @State unit unit :=
  {| tunnels := []; anything_to_do := false; stats := stats0; srv := tt; cli := tt |}.

Lemma oversized_read_overflows_witness :
  ProcessSubframes zero_server {| on_read c _ _ := (c, []); on_write c _ _ := (c, []) |} 64 zero_state
    (op_bytes (OpRead 0 100 2)) (BufferWriteStream.make demo_buffer) true = Faulted Undefined.
Proof.
  refine (oversized_read_overflows zero_server _ 64 zero_state 0 100 2 _ zero_typed _ _
    (BufferWriteStream.bws_ok_make _) _ _).
  - split_and!; unfold in_u; lia.
  - intros r. eexists. reflexivity.
  - vm_compute. reflexivity.
  - vm_compute. reflexivity.
Defined.

Lemma unanswered_reads_write_witness :
  exists r s', run_ops RegisterRequest.make [OpReadSingle 1 0; OpReadSingle 5 0] = Done r /\
    ProcessSubframes demo_server demo_client 64 demo_state (RegisterRequest.buffer r)
      (BufferWriteStream.make demo_buffer) false = Done (s', BufferWriteStream.make demo_buffer) /\
    srv s' = (Write demo_server (srv demo_state) 17 (VInt8 5)).2.
Proof.
  refine (unanswered_reads_write demo_server demo_client 64 demo_state 5 (BufferWriteStream.make demo_buffer) _).
  lia.
Defined.
