(* ===== verification/MicroStreamDatagram.v ===== *)
(** * multiplex/micro_stream_datagram.cc: datagrams over a byte stream

    [MicroStreamDatagram::Impl] finds frames in a byte stream and delivers
    them, and writes datagrams as frames.  What the code does to the outside,
    starting an operation of the underlying stream or invoking a callback, is
    a list of outputs; every callback is invoked in tail position, so what the
    user does from inside of it is a later step.  The checksum is boost's and
    a parameter. *)
From S2P Require Import Prelude Varuint Streams MultiplexStream Register MicroServer.
Import Format.

(** multiplex/micro_error.h *)
Definition kPayloadTruncated : Z := 1.

(** A completed read has set source, destination and size of the header the
    reader gave, when it was a frame that completed it. *)
Inductive output :=
  | StartedRead (size : Z)
  | StartedWrite (data : list byte)
  | ReadDone (ec : Z) (header : option (Z * Z * Z)) (data : list byte)
  | WriteDone (ec size : Z).

Section Impl.
Context `{CrcType}.

(** [current_read] is the size of [current_read_data_] while a read is in
    progress, [current_write] is [current_write_size_] while a write is. *)
Record State := {
  read_start : Z;
  read_buffer : list byte;
  write_buffer : list byte;
  current_read : option Z;
  current_write : option Z;
  checksum_mismatch : Z;
}.

Definition buffer_size (s : State) : Z := zlen (read_buffer s).

Definition with_reads (start : Z) (b : list byte) (s : State) : State :=
  {| read_start := start; read_buffer := b; write_buffer := write_buffer s;
     current_read := current_read s; current_write := current_write s;
     checksum_mismatch := checksum_mismatch s |}.
Definition with_current_read (r : option Z) (s : State) : State :=
  {| read_start := read_start s; read_buffer := read_buffer s; write_buffer := write_buffer s;
     current_read := r; current_write := current_write s; checksum_mismatch := checksum_mismatch s |}.
Definition with_writes (b : list byte) (c : option Z) (s : State) : State :=
  {| read_start := read_start s; read_buffer := read_buffer s; write_buffer := b;
     current_read := current_read s; current_write := c; checksum_mismatch := checksum_mismatch s |}.
Definition count_mismatch (s : State) : State :=
  {| read_start := read_start s; read_buffer := read_buffer s; write_buffer := write_buffer s;
     current_read := current_read s; current_write := current_write s;
     checksum_mismatch := u32 (checksum_mismatch s + 1) |}.

Definition make (buffer_size : Z) : State :=
  {| read_start := 0; read_buffer := replicate (Z.to_nat buffer_size) (byte.of_Z 0);
     write_buffer := replicate (Z.to_nat buffer_size) (byte.of_Z 0);
     current_read := None; current_write := None; checksum_mismatch := 0 |}.

(** ** Writing *)
Definition AsyncWrite (s : State) (header : Header) (data : list byte)
    : outcome (State * list output) :=
  _ ← mj_assert (match current_write s with None => true | Some _ => false end);
  varuint_size ← GetVaruintSize (u32 (zlen data));
  let header_size := 2 + 1 + 1 + varuint_size in
  _ ← mj_assert (header_size + 2 + zlen data <? buffer_size s);
  b ← store (write_buffer s) header_size data;
  header_span ← load b 0 header_size;
  h ← BufferWriter.WriteScalar 2 (BufferWriteStream.make header_span) kHeader;
  h ← BufferWriter.WriteScalar 1 h (u8 (h_source header));
  h ← BufferWriter.WriteScalar 1 h (u8 (h_destination header));
  h ← BufferWriter.WriteVaruint h (zlen data);
  b ← store b 0 (BufferWriteStream.buffer h);
  let crc_location := header_size + zlen data in
  covered ← load b 0 crc_location;
  let actual_crc := u16 (crc_of covered) in
  crc_span ← load b crc_location 2;
  c ← BufferWriter.WriteScalar 2 (BufferWriteStream.make crc_span) actual_crc;
  b ← store b crc_location (BufferWriteStream.buffer c);
  frame ← load b 0 (crc_location + 2);
  Done (with_writes b (Some (zlen data)) s, [StartedWrite frame]).

Definition HandleWrite (s : State) (ec : Z) : State * list output :=
  (with_writes (write_buffer s) None s,
   match current_write s with Some bytes => [WriteDone ec bytes] | None => [] end).

(** ** Reading *)
Definition StartReadFrame (s : State) : State * list output :=
  (s, [StartedRead (buffer_size s - read_start s)]).

(** The first [size] bytes of the buffer are dropped. *)
Definition Consume (s : State) (size : Z) : outcome State :=
  if size =? 0 then Done s
  else
    _ ← mj_assert (size <=? read_start s);
    moved ← load (read_buffer s) size (read_start s - size);
    b ← store (read_buffer s) 0 moved;
    Done (with_reads (read_start s - size) b s).

Definition InvokeReadCallback (s : State) (ec : Z) (header : option (Z * Z * Z)) (data : list byte)
    : State * list output :=
  (with_current_read None s,
   match current_read s with Some _ => [ReadDone ec header data] | None => [] end).

(** The search for the low byte of the header, as an index. *)
Fixpoint find_header_from (l : list byte) (i : Z) : option Z :=
  match l with
  | [] => None
  | b :: l => if byte.unsigned b =? Z.land kHeader 0xff then Some i else find_header_from l (i + 1)
  end.

Definition find_header (s : State) : option Z :=
  find_header_from (ztake (read_start s) (read_buffer s)) 0.

(** The last part of [TryEmitOneFrame], once a whole frame is there: the
    header has been read, [data] stands at the payload. *)
Definition EmitFrame (s : State) (data : BufferReadStream.t) (source_id dest_id payload_size : Z)
    : outcome (bool * State * list output) :=
  let crc_location := 2 + BufferReadStream.offset data + payload_size in
  covered ← load (read_buffer s) 0 crc_location;
  let expected_crc := u16 (crc_of covered) in
  data ← BufferReadStream.ignore data payload_size;
  '(maybe_actual_crc, data) ← BufferReader.ReadScalar 2 data;
  match maybe_actual_crc with
  | None => Faulted Assertion
  | Some actual_crc =>
      if negb (expected_crc =? le_combine actual_crc) then
        s ← Consume (count_mismatch s) 2;
        Done (false, s, [])
      else
        match current_read s with
        | None => Faulted Undefined
        | Some room =>
            let size_to_write := Z.min payload_size room in
            payload ← load (read_buffer s) (crc_location - payload_size) size_to_write;
            s ← Consume s (crc_location + 2);
            let '(s, out) := InvokeReadCallback s
              (if size_to_write <? payload_size then kPayloadTruncated else 0)
              (Some (source_id, dest_id, payload_size)) payload in
            Done (true, s, out)
        end
  end.

Definition TryEmitOneFrame (s : State) : outcome (bool * State * list output) :=
  match find_header s with
  | None => Done (false, with_reads 0 (read_buffer s) s, [])
  | Some found =>
      s ← Consume s found;
      if read_start s <? 2 then Done (false, s, [])
      else
      second ← load (read_buffer s) 1 1;
      if negb (le_combine second =? Z.land (Z.shiftr kHeader 8) 0xff) then
        s ← Consume s 2;
        Done (true, s, [])
      else if read_start s <? kHeaderSize + kCrcSize + kMinVaruintSize then Done (false, s, [])
      else
      span ← load (read_buffer s) 2 (read_start s - 2);
      let data := BufferReadStream.make span in
      '(maybe_source_id, data) ← BufferReader.ReadScalar 1 data;
      '(maybe_dest_id, data) ← BufferReader.ReadScalar 1 data;
      '(maybe_size, data) ← BufferReader.ReadVaruint data;
      match maybe_size with
      | None => Done (false, s, [])
      | Some payload_size =>
          if 4096 <? payload_size then Done (false, with_reads 0 (read_buffer s) s, [])
          else if u64 (buffer_size s - 7) <? payload_size
          then Done (false, with_reads 0 (read_buffer s) s, [])
          else
          let data_we_have := read_start s - (2 + BufferReadStream.offset data) in
          if data_we_have <? payload_size + 2 then Done (false, s, [])
          else
          match maybe_source_id, maybe_dest_id with
          | Some source_id, Some dest_id =>
              EmitFrame s data (le_combine source_id) (le_combine dest_id) payload_size
          | _, _ => Faulted Undefined
          end
      end
  end.

Definition AsyncRead (s : State) (room : Z) : outcome (State * list output) :=
  _ ← mj_assert (match current_read s with None => true | Some _ => false end);
  '(emitted, s, out) ← TryEmitOneFrame (with_current_read (Some room) s);
  if emitted : bool then Done (s, out)
  else let '(s, more) := StartReadFrame s in Done (s, out ++ more).

(** The stream has written [data] into the span it was given. *)
Definition HandleReadFrame (s : State) (ec : Z) (data : list byte) : outcome (State * list output) :=
  b ← store (read_buffer s) (read_start s) data;
  let s := with_reads (read_start s) b s in
  if negb (ec =? 0) then
    Done (InvokeReadCallback (with_reads 0 (read_buffer s) s) ec None [])
  else
    let s := with_reads (read_start s + zlen data) (read_buffer s) s in
    '(emitted, s, out) ← TryEmitOneFrame s;
    if emitted : bool then Done (s, out)
    else let '(s, more) := StartReadFrame s in Done (s, out ++ more).

Definition properties_max_size : Z := 115.

End Impl.

(** ** What the receiver does, on the bytes it holds

    [scan size l] is the outcome of looking for one frame in [l] with a
    buffer of [size] bytes: wait for more with part of [l] kept, a false
    header, a frame with a wrong checksum, or a frame and what follows it. *)
Inductive scanned :=
  | Wait (rest : list byte)
  | FalseStart (rest : list byte)
  | Mismatch (rest : list byte)
  | Deliver (source dest : Z) (payload rest : list byte).

Fixpoint skip_to_header (l : list byte) : list byte :=
  match l with
  | [] => []
  | b :: t => if byte.unsigned b =? 0x54 then l else skip_to_header t
  end.

Section scan.
Context `{CrcType}.

Definition scan_payload (size : Z) (l : list byte) (src dst : byte) (n : Z) (rest : list byte) : scanned :=
  if 4096 <? n then Wait []
  else if size - 7 <? n then Wait []
  else if zlen rest <? n + 2 then Wait l
  else if u16 (crc_of (ztake (zlen l - zlen rest + n) l)) =? le_combine (ztake 2 (zdrop n rest))
  then Deliver (byte.unsigned src) (byte.unsigned dst) (ztake n rest) (zdrop (n + 2) rest)
  else Mismatch (zdrop 2 l).

Definition scan (size : Z) (received : list byte) : scanned :=
  let l := skip_to_header received in
  match l with
  | _ :: b1 :: t =>
      if negb (byte.unsigned b1 =? 0xab) then FalseStart t
      else if zlen l <? 7 then Wait l
      else match t with
      | src :: dst :: t =>
          let '(maybe_size, rest) := read_varuint_ref t in
          match maybe_size with
          | None => Wait l
          | Some n => scan_payload size l src dst n rest
          end
      | _ => Wait l
      end
  | _ => Wait l
  end.
End scan.

(** ** Lemmas *)
Section lemmas.
Context `{CrcType}.
Implicit Types (s : State).

Definition content s : list byte := ztake (read_start s) (read_buffer s).
Definition ok s : Prop := 0 <= read_start s <= buffer_size s.

(** What handling received bytes leaves alone. *)
Definition stable s s' : Prop :=
  ok s' /\ buffer_size s' = buffer_size s /\ write_buffer s' = write_buffer s /\
  current_write s' = current_write s.

Lemma stable_refl s : ok s -> stable s s.
Proof. by unfold stable. Qed.

Lemma stable_trans s1 s2 s3 : stable s1 s2 -> stable s2 s3 -> stable s1 s3.
Proof. unfold stable. intros (?&?&?&?) (?&?&?&?). split_and!; congruence. Qed.

Lemma zlen_content s : ok s -> zlen (content s) = read_start s.
Proof. unfold ok, content, buffer_size. intros. rewrite zlen_take by lia. lia. Qed.

Lemma load_content s i n :
  ok s -> 0 <= i -> 0 <= n -> i + n <= read_start s ->
  load (read_buffer s) i n = Done (ztake n (zdrop i (content s))).
Proof.
  unfold ok, content, buffer_size. intros. rewrite load_done by lia. f_equal.
  rewrite <- (ztake_zdrop (read_start s) (read_buffer s)) at 1.
  assert (zlen (ztake (read_start s) (read_buffer s)) = read_start s) as Z1 by (rewrite zlen_take; lia).
  rewrite zdrop_app_le by lia. apply ztake_app_le.
  rewrite zlen_drop, Z1 by lia. lia.
Qed.

Lemma Consume_ok s n :
  ok s -> 0 <= n <= read_start s ->
  exists s', Consume s n = Done s' /\ stable s s' /\ content s' = zdrop n (content s) /\
    current_read s' = current_read s /\ checksum_mismatch s' = checksum_mismatch s.
Proof.
  intros Ho Hn. unfold Consume. destruct (Z.eqb_spec n 0) as [->|].
  { exists s. by split_and!; [|apply stable_refl|..]. }
  rewrite (proj2 (Z.leb_le _ _)) by lia. cbn [mj_assert]. rewrite bind_done.
  rewrite load_content, bind_done by (done || lia).
  pose proof (zlen_content s Ho) as Zc.
  assert (ztake (read_start s - n) (zdrop n (content s)) = zdrop n (content s)) as ->
    by (apply ztake_ge; rewrite zlen_drop; lia).
  assert (zlen (zdrop n (content s)) = read_start s - n) as Zd by (rewrite zlen_drop; lia).
  unfold ok, buffer_size in Ho.
  destruct (store (read_buffer s) 0 (zdrop n (content s))) as [b|f] eqn:Es;
    [|rewrite store_done in Es by lia; done].
  rewrite bind_done. eexists. split; [done|]. unfold stable, ok, buffer_size. simpl.
  pose proof (zlen_store _ _ _ _ Es) as Zb. split_and!; try done; try lia.
  unfold content at 1. simpl. apply store_prefix in Es. simpl in Es.
  rewrite Zd in Es. exact Es.
Qed.

Lemma find_header_spec l i :
  match find_header_from l i with
  | None => skip_to_header l = []
  | Some j => i <= j < i + zlen l /\ skip_to_header l = zdrop (j - i) l
  end.
Proof.
  revert i. induction l as [|b t IH]; intros i; [done|]. cbn [find_header_from skip_to_header].
  change (Z.land kHeader 0xff) with 0x54. pose proof (zlen_nonneg t). rewrite zlen_cons.
  destruct (byte.unsigned b =? 0x54); [split; [lia|by rewrite Z.sub_diag]|].
  specialize (IH (i + 1)). destruct (find_header_from t (i + 1)) as [j|]; [|done].
  destruct IH as [? ->]. split; [lia|]. rewrite zdrop_cons by lia. f_equal. lia.
Qed.

Lemma with_reads_0_ok s : stable s (with_reads 0 (read_buffer s) s) /\ content (with_reads 0 (read_buffer s) s) = [].
Proof.
  split; [|done]. unfold stable, ok, buffer_size. simpl. pose proof (zlen_nonneg (read_buffer s)).
  split_and!; done || lia.
Qed.

(** The outcome of [TryEmitOneFrame] that a scan describes. *)
Definition emits s (room : Z) (v : scanned) (r : outcome (bool * State * list output)) : Prop :=
  exists s', stable s s' /\
  match v with
  | Wait rest => r = Done (false, s', []) /\ content s' = rest /\ current_read s' = Some room /\
      checksum_mismatch s' = checksum_mismatch s
  | FalseStart rest => r = Done (true, s', []) /\ content s' = rest /\ current_read s' = Some room /\
      checksum_mismatch s' = checksum_mismatch s
  | Mismatch rest => r = Done (false, s', []) /\ content s' = rest /\ current_read s' = Some room /\
      checksum_mismatch s' = u32 (checksum_mismatch s + 1)
  | Deliver src dst payload rest =>
      r = Done (true, s', [ReadDone (if room <? zlen payload then kPayloadTruncated else 0)
                             (Some (src, dst, zlen payload)) (ztake room payload)]) /\
      content s' = rest /\ current_read s' = None /\ checksum_mismatch s' = checksum_mismatch s
  end.

Lemma EmitFrame_scan s room data src dst n l :
  ok s -> current_read s = Some room -> 0 <= room -> content s = l ->
  BufferReadStream.ok data -> BufferReadStream.buffer data = zdrop 2 l -> 2 <= zlen l ->
  0 <= n -> n + 2 <= zlen (BufferReadStream.rest data) ->
  emits s room
    (let rest := BufferReadStream.rest data in
     if u16 (crc_of (ztake (zlen l - zlen rest + n) l)) =? le_combine (ztake 2 (zdrop n rest))
     then Deliver src dst (ztake n rest) (zdrop (n + 2) rest) else Mismatch (zdrop 2 l))
    (EmitFrame s data src dst n).
Proof.
  intros Ho Hr Hroom Hl Od Hb Hl2 Hn Hrest. cbv zeta. unfold EmitFrame. cbv zeta.
  pose proof (zlen_content s Ho) as Zs. rewrite Hl in Zs.
  pose proof (BufferReadStream.brs_zlen_rest data Od) as Zr. unfold BufferReadStream.remaining in Zr.
  assert (zlen (BufferReadStream.buffer data) = zlen l - 2) as Zb by (rewrite Hb, zlen_drop; lia).
  destruct Od as [Of0 Of1].
  set (rest := BufferReadStream.rest data) in *.
  assert (zdrop (2 + BufferReadStream.offset data) l = rest) as Hrl.
  { unfold rest, BufferReadStream.rest. by rewrite Hb, zdrop_zdrop by lia. }
  assert (2 + BufferReadStream.offset data = zlen l - zlen rest) as Hoff by lia.
  rewrite Hoff in *.
  rewrite load_content, Hl, bind_done, zdrop_0 by (done || lia).
  unfold BufferReadStream.ignore. rewrite bind_done.
  set (data2 := BufferReadStream.fast_ignore data _).
  destruct (brs_scalar data2 2 (ztake 2 (zdrop n rest)) (zdrop 2 (zdrop n rest))) as (data3 & -> & _).
  { apply BufferReadStream.ok_fast_ignore; unfold BufferReadStream.ok, BufferReadStream.remaining; lia. }
  { unfold data2. rewrite BufferReadStream.rest_fast_ignore by (unfold BufferReadStream.ok; lia).
    rewrite ztake_zdrop. fold rest. f_equal. lia. }
  { rewrite zlen_take, zlen_drop by lia. lia. }
  rewrite bind_done. cbn beta iota.
  destruct (u16 (crc_of (ztake (zlen l - zlen rest + n) l)) =? le_combine (ztake 2 (zdrop n rest)));
    cbn [negb].
  - rewrite Hr. rewrite load_content, Hl, bind_done by (done || lia).
    destruct (Consume_ok s (zlen l - zlen rest + n + 2) Ho) as (s' & -> & St & Cs & Rs & Ms); [lia|].
    rewrite bind_done. unfold InvokeReadCallback. rewrite Rs, Hr.
    assert (zlen (ztake n rest) = n) as Zn by (rewrite zlen_take; lia).
    exists (with_current_read None s'). split; [exact St|]. rewrite Zn. split_and!; [|..|done].
    + do 4 f_equal.
      * by rewrite (Z.ltb_antisym n), (Z.ltb_antisym n), Z.leb_antisym; zcases; lia || done.
      * replace (zlen l - zlen rest + n - n) with (zlen l - zlen rest) by lia.
        rewrite Hrl, ztake_ztake_min. f_equal. lia.
    + change (content (with_current_read None s')) with (content s').
      replace (zlen l - zlen rest + n + 2) with ((zlen l - zlen rest) + (n + 2)) in Cs by lia.
      rewrite Cs, Hl, <- zdrop_zdrop by lia. by rewrite Hrl.
    + done.
  - destruct (Consume_ok (count_mismatch s) 2 Ho) as (s' & -> & St & Cs & Rs & Ms); [simpl; lia|].
    rewrite bind_done. exists s'. split_and!; [exact St..|done|by rewrite <- Hl|by rewrite Rs|by rewrite Ms].
Qed.

Lemma le_combine_one (b : byte) : le_combine [b] = byte.unsigned b.
Proof. unfold le_combine. cbn. by rewrite Z.lor_0_r. Qed.

Lemma emits_stable s s1 room v r :
  stable s s1 -> checksum_mismatch s1 = checksum_mismatch s -> emits s1 room v r -> emits s room v r.
Proof.
  intros St Ms (s' & St' & R). exists s'. split; [by eapply stable_trans|].
  rewrite <- Ms. exact R.
Qed.

Lemma emits_wait s room :
  ok s -> current_read s = Some room -> emits s room (Wait (content s)) (Done (false, s, [])).
Proof. intros. exists s. split; [by apply stable_refl|done]. Qed.

Lemma emits_wipe s room :
  current_read s = Some room ->
  emits s room (Wait []) (Done (false, with_reads 0 (read_buffer s) s, [])).
Proof. intros. eexists. destruct (with_reads_0_ok s) as [St ->]. split; [exact St|done]. Qed.

(** The fields after a header, on a buffer that starts with one. *)
Lemma fields_scan s room l src dst t :
  ok s -> current_read s = Some room -> 0 <= room -> 7 <= buffer_size s < 2 ^ 63 ->
  content s = l -> zdrop 2 l = src :: dst :: t -> 2 <= zlen l ->
  emits s room
    (let '(maybe_size, rest) := read_varuint_ref t in
     match maybe_size with None => Wait l | Some n => scan_payload (buffer_size s) l src dst n rest end)
    (span ← load (read_buffer s) 2 (read_start s - 2);
     let data := BufferReadStream.make span in
     '(maybe_source_id, data) ← BufferReader.ReadScalar 1 data;
     '(maybe_dest_id, data) ← BufferReader.ReadScalar 1 data;
     '(maybe_size, data) ← BufferReader.ReadVaruint data;
     match maybe_size with
     | None => Done (false, s, [])
     | Some payload_size =>
         if 4096 <? payload_size then Done (false, with_reads 0 (read_buffer s) s, [])
         else if u64 (buffer_size s - 7) <? payload_size
         then Done (false, with_reads 0 (read_buffer s) s, [])
         else
         let data_we_have := read_start s - (2 + BufferReadStream.offset data) in
         if data_we_have <? payload_size + 2 then Done (false, s, [])
         else
         match maybe_source_id, maybe_dest_id with
         | Some source_id, Some dest_id =>
             EmitFrame s data (le_combine source_id) (le_combine dest_id) payload_size
         | _, _ => Faulted Undefined
         end
     end).
Proof.
  intros Ho Hr Hroom Hsz Hl Ht Hl2. pose proof (zlen_content s Ho) as Zs. rewrite Hl in Zs.
  rewrite load_content, Hl, bind_done by (done || lia).
  rewrite (ztake_ge _ (zdrop 2 l)) by (rewrite zlen_drop; lia). cbv zeta.
  pose proof (BufferReadStream.brs_ok_make (zdrop 2 l)) as O0.
  assert (BufferReadStream.rest (BufferReadStream.make (zdrop 2 l)) = [src] ++ dst :: t) as R0 by
    (rewrite BufferReadStream.brs_rest_make; exact Ht).
  assert (BufferReadStream.buffer (BufferReadStream.make (zdrop 2 l)) = zdrop 2 l) as B0 by done.
  generalize dependent (BufferReadStream.make (zdrop 2 l)). intros d0 O0 R0 B0.
  rewrite ReadScalar_buffer by done. rewrite <- BufferReadStream.brs_zlen_rest, R0 by done.
  pose proof (zlen_nonneg t). rewrite zlen_app, (zlen_cons dst). change (zlen [src]) with 1.
  rewrite (proj2 (Z.ltb_ge _ _)), bind_done by lia. cbn beta iota.
  assert (BufferReadStream.ok (BufferReadStream.fast_ignore d0 1)) as O1.
  { apply BufferReadStream.ok_fast_ignore; [done|].
    rewrite <- BufferReadStream.brs_zlen_rest, R0, zlen_app, (zlen_cons dst) by done. change (zlen [src]) with 1. lia. }
  assert (BufferReadStream.rest (BufferReadStream.fast_ignore d0 1) = [dst] ++ t) as R1
    by (rewrite BufferReadStream.rest_fast_ignore, R0 by (done || lia); done).
  change (Z.of_nat 1) with 1. set (d1 := BufferReadStream.fast_ignore d0 1) in *.
  rewrite ReadScalar_buffer by done. rewrite <- BufferReadStream.brs_zlen_rest, R1 by done.
  rewrite zlen_app. change (zlen [dst]) with 1.
  rewrite (proj2 (Z.ltb_ge _ _)), bind_done by lia. cbn beta iota.
  assert (BufferReadStream.ok (BufferReadStream.fast_ignore d1 1)) as O2.
  { apply BufferReadStream.ok_fast_ignore; [done|].
    rewrite <- BufferReadStream.brs_zlen_rest, R1, zlen_app by done. change (zlen [dst]) with 1. lia. }
  assert (BufferReadStream.rest (BufferReadStream.fast_ignore d1 1) = t) as R2
    by (rewrite BufferReadStream.rest_fast_ignore, R1 by (done || lia); done).
  change (Z.of_nat 1) with 1. set (d2 := BufferReadStream.fast_ignore d1 1) in *.
  destruct (ReadVaruint_buffer_ref d2 O2) as (k & Hk & -> & R3). rewrite bind_done. cbn beta iota.
  rewrite R2 in *. pose proof (varuint_ref_range 5 t 0 0) as Hrange. fold (read_varuint_ref t) in Hrange.
  destruct (read_varuint_ref t) as [[n|] rest]; cbn [fst snd] in *;
    [|rewrite <- Hl; by apply emits_wait].
  specialize (Hrange n eq_refl) as [Hn _].
  assert (BufferReadStream.ok (BufferReadStream.fast_ignore d2 k)) as O3 by
    (by apply BufferReadStream.ok_fast_ignore).
  set (d3 := BufferReadStream.fast_ignore d2 k) in *.
  assert (BufferReadStream.buffer d3 = zdrop 2 l) as B3 by exact B0. clearbody d3. clear d1 d2 O1 O2 R1 R2 Hk.
  unfold scan_payload. destruct (4096 <? n); [by apply emits_wipe|].
  rewrite (uwrap_id 64) by (unfold in_u; lia).
  destruct (buffer_size s - 7 <? n); [by apply emits_wipe|].
  pose proof (BufferReadStream.brs_zlen_rest d3 O3) as Zr. unfold BufferReadStream.remaining in Zr.
  rewrite B3, R3, zlen_drop in Zr by lia.
  replace (read_start s - (2 + BufferReadStream.offset d3)) with (zlen rest) by lia.
  destruct (Z.ltb_spec (zlen rest) (n + 2)); [rewrite <- Hl; by apply emits_wait|].
  rewrite !(ztake_app_full [_]) by done. rewrite !le_combine_one. rewrite <- R3.
  by apply EmitFrame_scan; rewrite ?R3.
Qed.

(** [TryEmitOneFrame] is [scan]: in particular it never faults, neither in
    its own assertion nor in [Consume]'s, and never leaves the buffer. *)
Lemma TryEmitOneFrame_scan s room :
  ok s -> current_read s = Some room -> 0 <= room -> 7 <= buffer_size s < 2 ^ 63 ->
  emits s room (scan (buffer_size s) (content s)) (TryEmitOneFrame s).
Proof.
  intros Ho Hr Hroom Hsz. unfold TryEmitOneFrame, find_header. fold (content s).
  pose proof (find_header_spec (content s) 0) as F. unfold scan.
  destruct (find_header_from (content s) 0) as [j|]; [|rewrite F; by apply emits_wipe].
  destruct F as [Hj ->]. rewrite Z.sub_0_r. rewrite zlen_content in Hj by done.
  destruct (Consume_ok s j Ho ltac:(lia)) as (s1 & -> & St & Cs & Rs & Ms). rewrite bind_done, <- Cs.
  apply (emits_stable s s1); [done|done|]. rewrite Hr in Rs.
  assert (buffer_size s = buffer_size s1) as Ez by (symmetry; apply St). rewrite Ez in *.
  pose proof (proj1 St) as O1. clear dependent s j. rename s1 into s.
  pose proof (zlen_content s O1) as Zs.
  destruct (content s) as [|b0 [|b1 t]] eqn:El.
  - rewrite <- Zs. change (zlen [] <? 2) with true. rewrite <- El. by apply emits_wait.
  - rewrite <- Zs. change (zlen [b0] <? 2) with true. rewrite <- El. by apply emits_wait.
  - rewrite !zlen_cons in *. pose proof (zlen_nonneg t). rewrite <- Zs.
    rewrite (proj2 (Z.ltb_ge _ 2)) by lia.
    rewrite (load_content s 1 1), El, bind_done by (done || lia).
    change (ztake 1 (zdrop 1 (b0 :: b1 :: t))) with [b1]. rewrite le_combine_one.
    change (Z.land (Z.shiftr kHeader 8) 255) with 0xab.
    destruct (negb (byte.unsigned b1 =? 0xab)).
    { destruct (Consume_ok s 2 O1 ltac:(lia)) as (s' & -> & St & Cs & Rs' & Ms). rewrite bind_done.
      exists s'. rewrite El in Cs. split; [done|]. by rewrite Rs'. }
    change (kHeaderSize + kCrcSize + kMinVaruintSize) with 7.
    destruct (Z.ltb_spec (1 + (1 + zlen t)) 7); [rewrite <- El; by apply emits_wait|].
    destruct t as [|src [|dst t]]; [unfold zlen in *; simpl in *; lia..|]. rewrite Zs.
    apply fields_scan; [done..| | |]; [exact El|done|rewrite !zlen_cons in *; pose proof (zlen_nonneg t); lia].
Qed.
End lemmas.
