(* ===== verification/DatagramTransport.v ===== *)
(** * Datagrams over a byte stream: what the transport guarantees

    The writer sends exactly the frames the client library encodes, and the
    receiver delivers a frame whole, once, however the stream cuts it up and
    whatever precedes it, as long as the receiver is not stuck; and the two
    ways in which it gets stuck. *)
From S2P Require Import Prelude Varuint Streams MultiplexStream Register MicroServer MicroStreamDatagram.
Import Format.

(** ** Scanning frames *)
Section frames.
Context `{CrcType}.
Implicit Types (f : Frame.Frame).

Definition frame_source f : Z :=
  Z.lor (Frame.source_id f) (if Frame.request_reply f then 0x80 else 0x00).

(** A frame whose fields fit their bytes and that fits a buffer of [size]. *)
Definition frame_fits (size : Z) f : Prop :=
  in_u 8 (frame_source f) /\ in_u 8 (Frame.dest_id f) /\
  zlen (Frame.payload f) <= 4096 /\ zlen (Frame.payload f) <= size - 7.

Definition frame_tail f : list byte :=
  vu_bytes 5 (zlen (Frame.payload f)) ++ Frame.payload f ++ le_split 2 (u16 (crc_of (frame_head f))).

Lemma frame_bytes_split f :
  frame_bytes f = byte.of_Z 0x54 :: byte.of_Z 0xab :: byte.of_Z (frame_source f) ::
                  byte.of_Z (Frame.dest_id f) :: frame_tail f.
Proof.
  unfold frame_bytes, frame_tail. unfold frame_head at 1.
  by rewrite <- !app_assoc.
Qed.

Lemma vu_len_payload f : zlen (Frame.payload f) <= 4096 -> 1 <= vu_len (zlen (Frame.payload f)) <= 2.
Proof.
  intros Hp. pose proof (zlen_nonneg (Frame.payload f)). split; [by apply vu_len_pos|].
  destruct (Z.lt_ge_cases (zlen (Frame.payload f)) 128); [by rewrite vu_len_small by lia; lia|].
  rewrite vu_len_step, vu_len_small by (try (Z.div_mod_to_equations); lia). lia.
Qed.

Lemma payload_u32 f : zlen (Frame.payload f) <= 4096 -> in_u 32 (zlen (Frame.payload f)).
Proof. pose proof (zlen_nonneg (Frame.payload f)). unfold in_u. lia. Qed.

Lemma zlen_frame_tail f :
  zlen (Frame.payload f) <= 4096 ->
  zlen (frame_tail f) = vu_len (zlen (Frame.payload f)) + zlen (Frame.payload f) + 2.
Proof.
  intros Hp. unfold frame_tail. rewrite !zlen_app, zlen_le_split, zlen_vu_bytes;
    [lia|by apply u32_fuel, payload_u32|lia].
Qed.

Lemma zlen_frame_bytes f :
  zlen (Frame.payload f) <= 4096 ->
  zlen (frame_bytes f) = 6 + vu_len (zlen (Frame.payload f)) + zlen (Frame.payload f).
Proof. intros Hp. rewrite frame_bytes_split, !zlen_cons, zlen_frame_tail by done. lia. Qed.

Lemma unsigned_of_Z8 v : in_u 8 v -> byte.unsigned (byte.of_Z v) = v.
Proof. unfold in_u. intros. apply byte_of_Z_unsigned. lia. Qed.

(** A whole frame is found, with its fields, and what follows it is kept. *)
Lemma scan_frame size f rest :
  frame_fits size f ->
  scan size (frame_bytes f ++ rest) = Deliver (frame_source f) (Frame.dest_id f) (Frame.payload f) rest.
Proof.
  intros (Hs & Hd & Hp & Hz). pose proof (zlen_frame_bytes f Hp) as Zf.
  pose proof (vu_len_payload f Hp). pose proof (zlen_nonneg (Frame.payload f)). pose proof (zlen_nonneg rest).
  set (p := Frame.payload f) in *. set (crc := le_split 2 (u16 (crc_of (frame_head f)))).
  assert (frame_bytes f ++ rest = byte.of_Z 0x54 :: byte.of_Z 0xab :: byte.of_Z (frame_source f) ::
     byte.of_Z (Frame.dest_id f) :: vu_bytes 5 (zlen p) ++ (p ++ crc ++ rest)) as E.
  { rewrite frame_bytes_split. unfold frame_tail. simpl. by rewrite <- !app_assoc. }
  assert (zlen (frame_bytes f ++ rest) = 6 + vu_len (zlen p) + zlen p + zlen rest) as Zl
    by (rewrite zlen_app; lia).
  unfold scan. assert (skip_to_header (frame_bytes f ++ rest) = frame_bytes f ++ rest) as ->
    by (rewrite E; reflexivity).
  rewrite E at 1. change (negb (byte.unsigned (byte.of_Z 171) =? 171)) with false. cbn iota.
  rewrite Zl, (proj2 (Z.ltb_ge _ 7)) by lia.
  rewrite read_varuint_ref_bytes by by apply payload_u32.
  unfold scan_payload. rewrite !(proj2 (Z.ltb_ge _ (zlen p))) by lia.
  rewrite !zlen_app. change (zlen crc) with 2. rewrite (proj2 (Z.ltb_ge _ (zlen p + 2))) by lia.
  assert (ztake (zlen (frame_bytes f) + zlen rest - (zlen p + (2 + zlen rest)) + zlen p)
            (frame_bytes f ++ rest) = frame_head f) as ->.
  { unfold frame_bytes. rewrite <- app_assoc. apply ztake_app_full.
    unfold frame_bytes. rewrite zlen_app, zlen_le_split. lia. }
  rewrite zdrop_app_len, ztake_app_full by done.
  unfold crc at 1. rewrite le_combine_split.
  change (2 ^ (Z.of_nat 2 * 8)) with (2 ^ 16). unfold uwrap at 2.
  rewrite Z.mod_mod, Z.eqb_refl by done. rewrite !unsigned_of_Z8, ztake_app_len by done.
  f_equal. rewrite app_assoc. apply zdrop_app_full. rewrite zlen_app. done.
Qed.

(** A part of a frame is kept until the rest has come. *)
Lemma scan_prefix size f p q :
  frame_fits size f -> frame_bytes f = p ++ q -> q <> [] -> scan size p = Wait p.
Proof.
  intros (Hs & Hd & Hp & Hz) E Hq. pose proof (zlen_frame_bytes f Hp) as Zf.
  pose proof (vu_len_payload f Hp). pose proof (zlen_nonneg p).
  assert (1 <= zlen q) by (destruct q; [done|rewrite zlen_cons; pose proof (zlen_nonneg q); lia]).
  rewrite frame_bytes_split in E. unfold scan.
  destruct p as [|b0 p]; [done|]. simpl in E. injection E as <- E.
  change (skip_to_header (byte.of_Z 0x54 :: p)) with (byte.of_Z 0x54 :: p).
  destruct p as [|b1 p]; [done|]. injection E as <- E.
  change (negb (byte.unsigned (byte.of_Z 171) =? 171)) with false. cbn iota.
  destruct (Z.ltb_spec (zlen (byte.of_Z 0x54 :: byte.of_Z 0xab :: p)) 7) as [|H7]; [done|].
  rewrite !zlen_cons in H7. destruct p as [|b2 p]; [done|]. injection E as <- E.
  destruct p as [|b3 p]; [done|]. injection E as <- E. rewrite !zlen_cons in H7.
  unfold frame_tail in E. set (n := zlen (Frame.payload f)) in *.
  assert (zlen (vu_bytes 5 n) = vu_len n) as Zv by (apply zlen_vu_bytes; [by apply u32_fuel, payload_u32|lia]).
  assert (p = vu_bytes 5 n ++ ztake (zlen p - vu_len n)
            (Frame.payload f ++ le_split 2 (u16 (crc_of (frame_head f))))) as Ep.
  { apply (f_equal (ztake (zlen p))) in E. rewrite ztake_app_len, ztake_app, Zv in E by lia.
    rewrite (ztake_ge (zlen p) (vu_bytes 5 n)) in E by lia. done. }
  set (t := ztake _ _) in Ep. rewrite Ep, read_varuint_ref_bytes by by apply payload_u32.
  unfold scan_payload. rewrite !(proj2 (Z.ltb_ge _ n)) by lia.
  rewrite (proj2 (Z.ltb_lt (zlen t) _)); [done|].
  apply (f_equal zlen) in E. apply (f_equal zlen) in Ep.
  rewrite !zlen_app, zlen_le_split in *. lia.
Qed.
End frames.

(** Bytes among which no header can start. *)
Definition no_header (l : list byte) : Prop := Forall (fun b => byte.unsigned b <> 0x54) l.

Lemma skip_junk junk l : no_header junk -> skip_to_header (junk ++ l) = skip_to_header l.
Proof.
  induction 1 as [|b junk Hb _ IH]; [done|]. simpl. by rewrite (proj2 (Z.eqb_neq _ _) Hb).
Qed.

Lemma skip_skip a b : skip_to_header (skip_to_header a ++ b) = skip_to_header (a ++ b).
Proof.
  induction a as [|x a IH]; [done|]. cbn [skip_to_header app].
  destruct (byte.unsigned x =? 0x54) eqn:E; [|done]. cbn [skip_to_header app]. by rewrite E.
Qed.

Lemma skip_idem a : skip_to_header (skip_to_header a) = skip_to_header a.
Proof. pose proof (skip_skip a []) as E. by rewrite !app_nil_r in E. Qed.

Lemma scan_skip `{CrcType} size l : scan size (skip_to_header l) = scan size l.
Proof. unfold scan. by rewrite skip_idem. Qed.

Lemma zlen_skip l : zlen (skip_to_header l) <= zlen l.
Proof.
  induction l as [|b l IH]; [done|]. cbn [skip_to_header]. case_match; [lia|].
  rewrite zlen_cons. lia.
Qed.

(** ** Receiving *)
Section receiving.
Context `{CrcType}.
Implicit Types (s : State).

(** A receiver with a read in progress, for [room] bytes. *)
Definition reading s (room : Z) : Prop :=
  ok s /\ current_read s = Some room /\ 0 <= room /\ 7 <= buffer_size s < 2 ^ 63.

(** What has been received is put after what was there. *)
Lemma receive_stored s data :
  ok s -> zlen data <= buffer_size s - read_start s ->
  exists b, store (read_buffer s) (read_start s) data = Done b /\
    let s1 := with_reads (read_start s + zlen data) b s in
    stable s s1 /\ content s1 = content s ++ data.
Proof.
  unfold ok, buffer_size. intros Ho Hd. pose proof (zlen_nonneg data).
  destruct (store (read_buffer s) (read_start s) data) as [b|f] eqn:E;
    [|rewrite store_done in E by lia; done].
  exists b. split; [done|]. cbv zeta. pose proof (zlen_store _ _ _ _ E).
  split; [|exact (store_prefix _ _ _ _ E)].
  unfold stable, ok, buffer_size. simpl. split_and!; done || lia.
Qed.

(** How the outputs of a handler go with what was found in the buffer. *)
Definition received s (room : Z) (v : scanned) s' (out : list output) : Prop :=
  stable s s' /\
  match v with
  | Wait rest => out = [StartedRead (buffer_size s - zlen rest)] /\ content s' = rest /\
      current_read s' = Some room
  | Mismatch rest => out = [StartedRead (buffer_size s - zlen rest)] /\ content s' = rest /\
      current_read s' = Some room /\ checksum_mismatch s' = u32 (checksum_mismatch s + 1)
  | FalseStart rest => out = [] /\ content s' = rest /\ current_read s' = Some room
  | Deliver src dst payload rest =>
      out = [ReadDone (if room <? zlen payload then kPayloadTruncated else 0)
               (Some (src, dst, zlen payload)) (ztake room payload)] /\
      content s' = rest /\ current_read s' = None
  end.

Lemma emits_received s room v r :
  emits s room v r ->
  exists s' out,
    ('(emitted, s, out) ← r;
     if emitted : bool then Done (s, out)
     else let '(s, more) := StartReadFrame s in Done (s, out ++ more)) = Done (s', out) /\
    received s room v s' out.
Proof.
  intros (s' & St & R). exists s'. pose proof (zlen_content s' (proj1 St)) as Zc.
  pose proof (proj1 (proj2 St)) as Ez. unfold received, StartReadFrame.
  destruct v; destruct R as (-> & Ec & Er & Em); rewrite bind_done; rewrite <- Ec, ?Zc, <- ?Ez;
    eexists; split; reflexivity || done.
Qed.

Lemma HandleReadFrame_received s room data :
  reading s room -> zlen data <= buffer_size s - read_start s ->
  exists s' out, HandleReadFrame s 0 data = Done (s', out) /\
    received s room (scan (buffer_size s) (content s ++ data)) s' out.
Proof.
  intros (Ho & Hr & Hroom & Hsz) Hd. unfold HandleReadFrame.
  destruct (receive_stored s data Ho Hd) as (b & -> & St & Ec). rewrite bind_done.
  cbn [Z.eqb negb]. cbv zeta.
  set (s1 := with_reads (read_start s + zlen data) b s) in *.
  change (with_reads _ _ _) with s1. assert (buffer_size s1 = buffer_size s) as Ez by apply St.
  pose proof (TryEmitOneFrame_scan s1 room (proj1 St) Hr Hroom) as T. rewrite Ez, Ec in T.
  destruct (emits_received _ _ _ _ (T Hsz)) as (s' & out & -> & St' & R).
  exists s', out. split; [done|]. split; [by eapply stable_trans|]. rewrite Ez in R. exact R.
Qed.

Lemma AsyncRead_received s room :
  ok s -> current_read s = None -> 0 <= room -> 7 <= buffer_size s < 2 ^ 63 ->
  exists s' out, AsyncRead s room = Done (s', out) /\
    received s room (scan (buffer_size s) (content s)) s' out.
Proof.
  intros Ho Hr Hroom Hsz. unfold AsyncRead. rewrite Hr. cbn [mj_assert]. rewrite bind_done.
  exact (emits_received _ _ _ _ (TryEmitOneFrame_scan (with_current_read (Some room) s) room Ho eq_refl Hroom Hsz)).
Qed.

(** The stream delivers chunk after chunk. *)
Fixpoint feed s (chunks : list (list byte)) : outcome (State * list output) :=
  match chunks with
  | [] => Done (s, [])
  | c :: chunks =>
      '(s, out) ← HandleReadFrame s 0 c;
      '(s, more) ← feed s chunks;
      Done (s, out ++ more)
  end.

(** As long as what has come is a part of the frame, more is read. *)
Lemma feed_waits s room got chunks :
  reading s room -> content s = skip_to_header got ->
  zlen (got ++ concat chunks) <= buffer_size s ->
  (forall g, g `prefix_of` got ++ concat chunks -> scan (buffer_size s) g = Wait (skip_to_header g)) ->
  exists s' reads, feed s chunks = Done (s', map StartedRead reads) /\
    length reads = length chunks /\ reading s' room /\ buffer_size s' = buffer_size s /\
    content s' = skip_to_header (got ++ concat chunks).
Proof.
  revert s got. induction chunks as [|c chunks IH]; intros s got Hrd Ec Hz Hw.
  { exists s, []. simpl. by rewrite app_nil_r. }
  pose proof Hrd as (Ho & _). cbn [concat] in *. pose proof (zlen_nonneg (concat chunks)).
  rewrite app_assoc in Hz, Hw. rewrite zlen_app, (zlen_app got) in Hz.
  pose proof (zlen_skip got). pose proof (zlen_content s Ho) as Zc. rewrite Ec in Zc.
  destruct (HandleReadFrame_received s room c Hrd ltac:(lia)) as (s1 & out & E1 & R1).
  rewrite Ec, <- scan_skip, skip_skip, scan_skip in R1.
  rewrite (Hw (got ++ c)) in R1 by by exists (concat chunks).
  destruct R1 as (St & -> & Ec1 & Hr1). pose proof St as (Ho1 & Ez1 & _).
  destruct (IH s1 (got ++ c)) as (s2 & reads & E2 & L2 & Rd2 & Z2 & Ec2).
  { unfold reading. rewrite Ez1. split_and!; done || apply Hrd. }
  { done. }
  { rewrite Ez1, zlen_app, (zlen_app got). lia. }
  { intros g Hg. rewrite Ez1. by apply Hw. }
  cbn [feed]. rewrite E1, bind_done. cbn beta iota. rewrite E2, bind_done. cbn beta iota.
  eexists s2, (_ :: reads). split; [reflexivity|]. split; [simpl; by rewrite L2|].
  split; [done|]. split; [congruence|]. by rewrite Ec2, <- app_assoc.
Qed.

Lemma feed_app s c1 c2 :
  feed s (c1 ++ c2) = ('(s, o1) ← feed s c1; '(s, o2) ← feed s c2; Done (s, o1 ++ o2)).
Proof.
  revert s. induction c1 as [|c c1 IH]; intros s; cbn [feed app].
  { rewrite bind_done. by destruct (feed s c2) as [[]|]. }
  destruct (HandleReadFrame s 0 c) as [[s1 o]|]; [|done]. rewrite !bind_done, IH.
  destruct (feed s1 c1) as [[s2 o1]|]; [|done]. rewrite !bind_done.
  destruct (feed s2 c2) as [[s3 o2]|]; [|done]. rewrite !bind_done. by rewrite app_assoc.
Qed.

(** Every part of junk and a frame waits. *)
Lemma scan_junk_prefix size f junk p q :
  frame_fits size f -> no_header junk -> junk ++ frame_bytes f = p ++ q -> q <> [] ->
  scan size p = Wait (skip_to_header p).
Proof.
  intros Hf Hj E Hq. rewrite <- scan_skip.
  destruct (Nat.le_gt_cases (length p) (length junk)) as [Hl|Hl].
  - assert (skip_to_header p = []) as ->; [|done].
    apply (f_equal (take (length p))) in E. rewrite take_app_length, take_app_le in E by done.
    rewrite <- E. rewrite <- (app_nil_r (take _ junk)), skip_junk; [done|]. by apply Forall_take.
  - apply app_eq_app in E as [k [[E1 E2]|[-> E2]]].
    + subst junk. rewrite length_app in Hl. lia.
    + rewrite skip_junk by done.
      assert (skip_to_header k = k) as Hk.
      { destruct k as [|b k]; [done|]. rewrite frame_bytes_split in E2. by injection E2 as <- _. }
      rewrite Hk. by apply (scan_prefix size f k q).
Qed.
End receiving.

(** ** Sending *)
Section sending.
Context `{CrcType}.
Implicit Types (s : State).

Definition datagram_frame (header : Header) (data : list byte) : Frame.Frame :=
  {| Frame.source_id := h_source header; Frame.request_reply := false;
     Frame.dest_id := h_destination header; Frame.payload := data |}.

(** A full span ends up holding exactly what was written. *)
Lemma emitted_full w d w' :
  BufferWriteStream.offset w = 0 -> zlen (BufferWriteStream.buffer w) = zlen d ->
  emitted w d w' -> BufferWriteStream.buffer w' = d.
Proof.
  intros O Z (_ & Eo & Ez & Ep). unfold BufferWriteStream.out in Eo. rewrite O in *.
  change (ztake 0 _) with (@nil byte) in Eo. simpl in Eo.
  by rewrite ztake_ge in Eo by lia.
Qed.

Lemma emitted_scalar w n v m :
  BufferWriteStream.ok w -> 0 <= m -> BufferWriteStream.fits w (Z.of_nat n + m) = true ->
  exists w', BufferWriter.WriteScalar n w v = Done w' /\ emitted w (le_split n v) w' /\
    BufferWriteStream.ok w' /\ BufferWriteStream.fits w' m = true.
Proof.
  intros Ho Hm Hf. unfold BufferWriter.WriteScalar.
  destruct (WriteBytes_emitted w (le_split n v) Ho) as (w' & -> & W).
  { rewrite zlen_le_split. eapply fits_le; [|exact Hf]. lia. }
  exists w'. split_and!; [done|done|apply W|]. rewrite (emitted_fits _ _ _ _ W), zlen_le_split.
  exact Hf.
Qed.

Lemma write_header_span (span : list byte) header data :
  in_u 8 (h_source header) -> in_u 8 (h_destination header) -> in_u 32 (zlen data) ->
  zlen span = 4 + vu_len (zlen data) ->
  exists h,
    (h ← BufferWriter.WriteScalar 2 (BufferWriteStream.make span) kHeader;
     h ← BufferWriter.WriteScalar 1 h (u8 (h_source header));
     h ← BufferWriter.WriteScalar 1 h (u8 (h_destination header));
     BufferWriter.WriteVaruint h (zlen data)) = Done h /\
    BufferWriteStream.buffer h ++ data = frame_head (datagram_frame header data).
Proof.
  intros Hs Hd Hn Hz. pose proof (vu_len_u32 _ Hn). rewrite !uwrap_id by done.
  set (w := BufferWriteStream.make span).
  assert (BufferWriteStream.fits w (4 + vu_len (zlen data)) = true) as F
    by (unfold BufferWriteStream.fits; simpl; apply Z.leb_le; lia).
  destruct (emitted_scalar w 2 kHeader (2 + vu_len (zlen data)) (BufferWriteStream.bws_ok_make _))
    as (w1 & -> & W1 & O1 & F1); [lia|rewrite <- F; f_equal; lia|]. rewrite bind_done.
  destruct (emitted_scalar w1 1 (h_source header) (1 + vu_len (zlen data)) O1)
    as (w2 & -> & W2 & O2 & F2); [lia|rewrite <- F1; f_equal; lia|]. rewrite bind_done.
  destruct (emitted_scalar w2 1 (h_destination header) (vu_len (zlen data)) O2)
    as (w3 & -> & W3 & O3 & F3); [lia|rewrite <- F2; f_equal; lia|]. rewrite bind_done.
  destruct (WriteVaruint_emitted w3 (zlen data) O3 Hn F3) as (w4 & -> & W4).
  exists w4. split; [done|].
  pose proof (emitted_app _ _ _ _ _ W1 (emitted_app _ _ _ _ _ W2 (emitted_app _ _ _ _ _ W3 W4))) as W.
  apply emitted_full in W; [|done|].
  - rewrite W. unfold frame_head, datagram_frame. simpl. by rewrite Z.lor_0_r.
  - change (BufferWriteStream.buffer w) with span. rewrite Hz, !zlen_app, !zlen_le_split, zlen_vu_bytes; [simpl; lia|by apply u32_fuel|lia].
Qed.
End sending.

(** ** Properties *)

(** C22: whatever bytes arrive, the receiver handles them without a fault, and
    afterwards, as the scan of what it holds says: one read of the stream is
    in progress, for all the room that is left in the buffer, or the callback
    has been invoked, once, with one frame whose checksum is right; or, on the
    first byte of a header that is not followed by its second, neither, and
    then every later attempt to read fails an assertion. *)
Theorem receiver_refines_scan `{CrcType} (s : State) (room : Z) (data : list byte) :
  reading s room -> zlen data <= buffer_size s - read_start s ->
  exists s' out, HandleReadFrame s 0 data = Done (s', out) /\
    ok s' /\ buffer_size s' = buffer_size s /\
    match scan (buffer_size s) (content s ++ data) with
    | Wait rest => out = [StartedRead (buffer_size s - zlen rest)] /\ content s' = rest /\
        current_read s' = Some room
    | Mismatch rest => out = [StartedRead (buffer_size s - zlen rest)] /\ content s' = rest /\
        current_read s' = Some room /\ checksum_mismatch s' = u32 (checksum_mismatch s + 1)
    | Deliver src dst payload rest =>
        out = [ReadDone (if room <? zlen payload then kPayloadTruncated else 0)
                 (Some (src, dst, zlen payload)) (ztake room payload)] /\
        content s' = rest /\ current_read s' = None
    | FalseStart rest => out = [] /\ content s' = rest /\
        forall r, AsyncRead s' r = Faulted Assertion
    end.
Proof.
  intros Hr Hd. destruct (HandleReadFrame_received s room data Hr Hd) as (s' & out & E & St & R).
  exists s', out. split; [exact E|]. split; [apply St|]. split; [apply St|].
  destruct (scan _ _); try exact R. destruct R as (? & ? & Er). split_and!; [done..|].
  intros r. unfold AsyncRead. by rewrite Er.
Qed.

(** C9: a frame is received whole, once, however the stream cuts it up: with
    bytes that cannot start a header before it and anything after it, the
    receiver asks for more until the last byte has come, then delivers source,
    destination and payload, cut to the reader's buffer with an error when it
    is too small, and keeps what follows for the next read. *)
Theorem frame_received_in_chunks `{CrcType} (s : State) (room : Z) (f : Frame.Frame)
    (junk rest last : list byte) (chunks : list (list byte)) :
  reading s room -> content s = [] -> frame_fits (buffer_size s) f -> no_header junk ->
  concat chunks ++ last = junk ++ frame_bytes f ++ rest ->
  zlen (concat chunks) < zlen (junk ++ frame_bytes f) ->
  zlen (junk ++ frame_bytes f ++ rest) <= buffer_size s ->
  exists s' reads, feed s (chunks ++ [last]) = Done (s', map StartedRead reads ++
      [ReadDone (if room <? zlen (Frame.payload f) then kPayloadTruncated else 0)
         (Some (frame_source f, Frame.dest_id f, zlen (Frame.payload f)))
         (ztake room (Frame.payload f))]) /\
    length reads = length chunks /\ content s' = rest /\ current_read s' = None.
Proof.
  intros Hr Hc Hf Hj E Hl Hz. pose proof (zlen_nonneg last).
  assert (zlen (concat chunks) + zlen last <= buffer_size s) as Hz'
    by (rewrite <- zlen_app, E; exact Hz).
  assert (exists k, junk ++ frame_bytes f = concat chunks ++ k /\ k <> []) as (k & Ek & Hk).
  { exists (zdrop (zlen (concat chunks)) (junk ++ frame_bytes f)).
    pose proof (zlen_nonneg (concat chunks)). split.
    - apply (f_equal (ztake (zlen (concat chunks)))) in E.
      rewrite ztake_app_len, app_assoc, ztake_app_le in E by lia.
      rewrite E at 1. by rewrite ztake_zdrop.
    - intros E0. apply (f_equal zlen) in E0. rewrite zlen_drop in E0 by lia.
      change (zlen []) with 0 in E0. lia. }
  destruct (feed_waits s room [] chunks Hr Hc) as (s1 & reads & E1 & L & R1 & Z1 & C1); simpl; [lia| |].
  { intros g [g' Hg]. apply (scan_junk_prefix (buffer_size s) f junk g (g' ++ k) Hf Hj).
    - by rewrite Ek, Hg, app_assoc.
    - by destruct g', k. }
  simpl in C1. pose proof R1 as (O1 & Hr1 & _). pose proof (zlen_content s1 O1) as Zc.
  pose proof (zlen_skip (concat chunks)). rewrite C1 in Zc.
  destruct (HandleReadFrame_received s1 room last R1) as (s2 & out & E2 & _ & R2); [lia|].
  rewrite C1, Z1, <- scan_skip, skip_skip, E, skip_junk in R2 by done.
  rewrite scan_skip, scan_frame in R2 by done. destruct R2 as (-> & C2 & Hr2).
  exists s2, reads. rewrite feed_app, E1, bind_done. cbn beta iota. cbn [feed].
  rewrite E2, !bind_done. cbn beta iota. rewrite app_nil_r. done.
Qed.

(** A datagram is written as the frame the client library would encode:
    one write of the stream, of header, source, destination, size, payload
    and checksum; nothing of it leaves the write buffer. *)
Theorem AsyncWrite_sends_frame `{CrcType} (s : State) (header : Header) (data : list byte) :
  current_write s = None -> zlen (write_buffer s) = buffer_size s ->
  in_u 8 (h_source header) -> in_u 8 (h_destination header) -> in_u 32 (zlen data) ->
  6 + vu_len (zlen data) + zlen data < buffer_size s ->
  exists s', AsyncWrite s header data =
      Done (s', [StartedWrite (frame_bytes (datagram_frame header data))]) /\
    current_write s' = Some (zlen data) /\ zlen (write_buffer s') = buffer_size s'.
Proof.
  intros Hw Hb Hs Hd Hn Hfit. pose proof (vu_len_u32 _ Hn). pose proof (zlen_nonneg data).
  unfold AsyncWrite. rewrite Hw. cbn [mj_assert]. rewrite bind_done.
  rewrite (uwrap_id 32 (zlen data)), GetVaruintSize_spec, bind_done by done. cbv zeta.
  replace (2 + 1 + 1 + vu_len (zlen data)) with (4 + vu_len (zlen data)) by lia.
  remember (4 + vu_len (zlen data)) as hs eqn:Ehs.
  rewrite (proj2 (Z.ltb_lt _ _)) by lia. cbn [mj_assert]. rewrite bind_done.
  destruct (store (write_buffer s) hs data) as [b1|f1] eqn:E1; [|rewrite store_done in E1 by lia; done].
  pose proof (zlen_store _ _ _ _ E1) as Z1. apply store_prefix in E1. rewrite bind_done.
  rewrite load_done, bind_done, zdrop_0 by lia.
  destruct (write_header_span (ztake hs b1) header data Hs Hd Hn) as (h & Eh & Bh).
  { rewrite zlen_take by lia. lia. }
  inv_bind. rewrite Hstep, bind_done, Hstep0, bind_done, Hstep1, bind_done. 
  rewrite Eh, bind_done.
  set (hb := BufferWriteStream.buffer h) in *.
  assert (zlen hb = hs) as Zh.
  { apply (f_equal zlen) in Bh. unfold frame_head, datagram_frame in Bh. simpl Frame.payload in Bh.
    rewrite !zlen_app, zlen_le_split, zlen_vu_bytes in Bh by (try lia; by apply u32_fuel).
    change (zlen [_]) with 1 in Bh. lia. }
  rewrite store_done, bind_done, Zh, Z.add_0_l by lia.
  change (ztake 0 b1) with (@nil byte). cbn [app].
  assert (zdrop hs b1 = data ++ zdrop (hs + zlen data) b1) as Ed.
  { rewrite <- (ztake_zdrop (hs + zlen data) b1) at 1. rewrite E1.
    rewrite <- app_assoc, zdrop_app_full; [done|]. rewrite zlen_take by lia. lia. }
  rewrite Ed, app_assoc, Bh. set (head := frame_head _).
  assert (zlen head = hs + zlen data) as Zhd by (unfold head; rewrite <- Bh, zlen_app; lia).
  set (b2 := head ++ zdrop (hs + zlen data) b1).
  assert (zlen b2 = buffer_size s) as Z2 by (unfold b2; rewrite zlen_app, zlen_drop by lia; lia).
  rewrite (load_done b2 0), zdrop_0, bind_done by lia.
  assert (ztake (hs + zlen data) b2 = head) as E2 by (by apply ztake_app_full). rewrite E2.
  rewrite (load_done b2 (hs + zlen data)), bind_done by lia.
  destruct (emitted_scalar (BufferWriteStream.make (ztake 2 (zdrop (hs + zlen data) b2))) 2 (u16 (crc_of head)) 0
    (BufferWriteStream.bws_ok_make _)) as (c & -> & Wc & _).
  { lia. }
  { unfold BufferWriteStream.fits. simpl. rewrite zlen_take, zlen_drop by lia. apply Z.leb_le. lia. }
  rewrite bind_done. apply emitted_full in Wc; [|done|].
  2: { simpl. rewrite zlen_take, zlen_drop, zlen_le_split by lia. lia. }
  rewrite Wc. destruct (store b2 (hs + zlen data) _) as [b3|f3] eqn:E3;
    [|rewrite store_done in E3 by (rewrite ?zlen_le_split; lia); done].
  pose proof (zlen_store _ _ _ _ E3) as Z3. apply store_prefix in E3. rewrite zlen_le_split in E3.
  rewrite bind_done, load_done, bind_done, zdrop_0 by lia.
  change (hs + zlen data + Z.of_nat 2) with (hs + zlen data + 2) in E3. rewrite E3, E2.
  eexists. split; [reflexivity|]. split; [done|]. unfold buffer_size in *. simpl. lia.
Qed.

(** A frame the receiver accepts the size of and can never hold.  A payload
    of 7 bytes less than the buffer passes the check, with a size of two bytes
    the frame is one byte longer than the buffer: once the buffer is full the
    receiver asks the stream for zero bytes, and does so again after each such
    read. *)
Theorem buffer_sized_frame_wedges `{CrcType} (s : State) (room : Z) (f : Frame.Frame) (data : list byte) :
  reading s room -> frame_fits (buffer_size s) f ->
  128 <= zlen (Frame.payload f) -> zlen (Frame.payload f) = buffer_size s - 7 ->
  content s ++ data = ztake (buffer_size s) (frame_bytes f) ->
  exists s' s'', HandleReadFrame s 0 data = Done (s', [StartedRead 0]) /\
    HandleReadFrame s' 0 [] = Done (s'', [StartedRead 0]) /\
    content s' = ztake (buffer_size s) (frame_bytes f) /\ content s'' = content s' /\ reading s'' room.
Proof.
  intros Hr Hf H128 Hn E. pose proof Hr as (Ho & Er & Hroom & Hsz). pose proof Hf as (_ & _ & Hp & _).
  pose proof (zlen_frame_bytes f Hp) as Zf. pose proof (vu_len_payload f Hp).
  rewrite vu_len_step, (vu_len_small (_ / 128)) in Zf by (try (Z.div_mod_to_equations); lia).
  set (p := ztake (buffer_size s) (frame_bytes f)) in *.
  assert (zlen p = buffer_size s) as Zp by (unfold p; rewrite zlen_take by lia; lia).
  assert (scan (buffer_size s) p = Wait p) as Sp.
  { apply (scan_prefix (buffer_size s) f p (zdrop (buffer_size s) (frame_bytes f)) Hf);
      [unfold p; by rewrite ztake_zdrop|]. intros E0. apply (f_equal zlen) in E0.
    rewrite zlen_drop in E0 by lia. change (zlen []) with 0 in E0. lia. }
  pose proof (zlen_content s Ho) as Zc.
  assert (zlen (content s) + zlen data = zlen p) as Zd by (by rewrite <- E, zlen_app).
  destruct (HandleReadFrame_received s room data Hr) as (s1 & out1 & E1 & St1 & R1); [lia|].
  rewrite E, Sp in R1. destruct R1 as (-> & C1 & Er1). pose proof St1 as (O1 & Z1 & _).
  assert (reading s1 room) as Hr1 by (unfold reading; rewrite Z1; split_and!; done || apply Hsz).
  destruct (HandleReadFrame_received s1 room [] Hr1) as (s2 & out2 & E2 & St2 & R2).
  { rewrite <- zlen_content, C1, Zp, Z1 by done. change (zlen []) with 0. lia. }
  rewrite app_nil_r, C1, Z1, Sp in R2. destruct R2 as (-> & C2 & Er2).
  pose proof St2 as (O2 & Z2 & _). exists s1, s2.
  rewrite E1, E2, Zp, C1, C2. rewrite Z.sub_diag. split_and!; try done.
  unfold reading. rewrite Z2, Z1. split_and!; done || apply Hsz.
Qed.

(** *** Witnesses *)
Definition demo_payload (n : nat) : list byte := replicate n (byte.of_Z 0x33).

Definition demo_datagram (n : nat) : Frame.Frame :=
  {| Frame.source_id := 2; Frame.request_reply := true; Frame.dest_id := 5; Frame.payload := demo_payload n |}.

(** A receiver of 32 bytes into which a reader of 16 waits. *)
Definition demo_receiver (size : Z) : State := with_current_read (Some 16) (make size).

Lemma demo_reading : reading (demo_receiver 32) 16.
Proof. split_and!; vm_compute; done || discriminate. Qed.

Lemma receiver_refines_scan_witness :
  exists s' out, HandleReadFrame (demo_receiver 32) 0 (map byte.of_Z [1; 2; 0x54; 0x00; 0x54]) = Done (s', out) /\
    ok s' /\ buffer_size s' = 32 /\ out = [] /\ content s' = map byte.of_Z [0x54] /\
    forall r, AsyncRead s' r = Faulted Assertion.
Proof.
  refine (receiver_refines_scan (demo_receiver 32) 16 (map byte.of_Z [1; 2; 0x54; 0x00; 0x54]) demo_reading _).
  vm_compute. discriminate.
Defined.

Lemma demo_fits : frame_fits (buffer_size (demo_receiver 32)) (demo_datagram 3).
Proof. split_and!; vm_compute; done || discriminate. Qed.

Lemma frame_received_in_chunks_witness :
  exists s' reads, feed (demo_receiver 32)
      ([map byte.of_Z [9; 0x54]; map byte.of_Z [0xab; 0x82; 5; 3; 0x33]] ++
       [zdrop 6 (frame_bytes (demo_datagram 3)) ++ map byte.of_Z [7]]) =
      Done (s', map StartedRead reads ++ [ReadDone 0 (Some (0x82, 5, 3)) (demo_payload 3)]) /\
    length reads = 2%nat /\ content s' = map byte.of_Z [7] /\ current_read s' = None.
Proof.
  refine (frame_received_in_chunks (demo_receiver 32) 16 (demo_datagram 3) (map byte.of_Z [9])
    (map byte.of_Z [7]) (zdrop 6 (frame_bytes (demo_datagram 3)) ++ map byte.of_Z [7])
    [map byte.of_Z [9; 0x54]; map byte.of_Z [0xab; 0x82; 5; 3; 0x33]] demo_reading _ demo_fits _ _ _ _).
  - reflexivity.
  - repeat constructor; vm_compute; discriminate.
  - vm_compute. reflexivity.
  - vm_compute. reflexivity.
  - vm_compute. discriminate.
Defined.

Definition demo_header : Header :=
  {| h_source := 5; h_destination := 2; h_size := 0; h_flags := 0 |}.

Lemma AsyncWrite_sends_frame_witness :
  exists s', AsyncWrite (demo_receiver 32) demo_header (demo_payload 4) =
      Done (s', [StartedWrite (frame_bytes (datagram_frame demo_header (demo_payload 4)))]) /\
    current_write s' = Some 4 /\ zlen (write_buffer s') = buffer_size s'.
Proof.
  refine (AsyncWrite_sends_frame (demo_receiver 32) demo_header (demo_payload 4) _ _ _ _ _ _);
    try reflexivity; split; vm_compute; done || discriminate.
Defined.

Lemma buffer_sized_frame_wedges_witness :
  exists s' s'', HandleReadFrame (demo_receiver 135) 0 (ztake 135 (frame_bytes (demo_datagram 128))) =
      Done (s', [StartedRead 0]) /\
    HandleReadFrame s' 0 [] = Done (s'', [StartedRead 0]) /\
    content s' = ztake 135 (frame_bytes (demo_datagram 128)) /\ content s'' = content s' /\ reading s'' 16.
Proof.
  refine (buffer_sized_frame_wedges (demo_receiver 135) 16 (demo_datagram 128)
    (ztake 135 (frame_bytes (demo_datagram 128))) _ _ _ _ _).
  - split_and!; vm_compute; done || discriminate.
  - split_and!; vm_compute; done || discriminate.
  - vm_compute. discriminate.
  - vm_compute. reflexivity.
  - vm_compute. reflexivity.
Defined.
