(* ===== verification/AtomicEventQueue.v ===== *)
(** * micro/atomic_event_queue.h: a queue filled from any context

    [AtomicEventQueue::Queue] may run on several threads or interrupt levels
    at once and [Poll] on one.  The model is a machine whose steps are the
    single atomic accesses of the source: each call of [Queue] is a producer
    with its own position in the code, the poller has another, and any of them
    may make the next step.  The accesses to [entry.function], which are not
    atomic, are steps of their own. *)
From S2P Require Import Prelude.

Section queue.
Context {F : Type} (ignore_full : bool).

Record Entry := { state : Z; function : option F }.

Definition entry0 : Entry := {| state := 0; function := None |}.

(** Where a call of [Queue] stands: about to load the state of an entry, to
    try to claim it, to store the function, to publish it, to count it; or
    returned. *)
Inductive producer :=
  | PLoad (i : nat) (f : F)
  | PClaim (i : nat) (f : F)
  | PStore (i : nat) (f : F)
  | PPublish (i : nat) (f : F)
  | PCount
  | PReturned.

(** Where [Poll] stands: not running, or in the iteration for an entry. *)
Inductive poller :=
  | CIdle
  | CCheck (i : nat)
  | CLoad (i : nat)
  | CLock (i : nat)
  | CTake (i : nat)
  | CRelease (i : nat) (f : F)
  | CRun (i : nat) (f : F)
  | CDecrement (i : nat).

(** [posted] and [ran] are histories: what was published, what was invoked. *)
Record Queue := {
  entries : list Entry; count : Z; producers : list producer; polling : poller;
  posted : list F; ran : list F }.

Definition with_entry (i : nat) (e : Entry) (q : Queue) : Queue :=
  {| entries := <[i := e]> (entries q); count := count q; producers := producers q;
     polling := polling q; posted := posted q; ran := ran q |}.
Definition with_count (c : Z) (q : Queue) : Queue :=
  {| entries := entries q; count := c; producers := producers q;
     polling := polling q; posted := posted q; ran := ran q |}.
Definition with_producer (j : nat) (p : producer) (q : Queue) : Queue :=
  {| entries := entries q; count := count q; producers := <[j := p]> (producers q);
     polling := polling q; posted := posted q; ran := ran q |}.
Definition with_poller (c : poller) (q : Queue) : Queue :=
  {| entries := entries q; count := count q; producers := producers q;
     polling := c; posted := posted q; ran := ran q |}.
Definition log_posted (f : F) (q : Queue) : Queue :=
  {| entries := entries q; count := count q; producers := producers q;
     polling := polling q; posted := posted q ++ [f]; ran := ran q |}.
Definition log_ran (f : F) (q : Queue) : Queue :=
  {| entries := entries q; count := count q; producers := producers q;
     polling := polling q; posted := posted q; ran := ran q ++ [f] |}.

Definition make (size : nat) : Queue :=
  {| entries := replicate size entry0; count := 0; producers := []; polling := CIdle;
     posted := []; ran := [] |}.

(** [fetch_or]: the new entry and the old state. *)
Definition fetch_or (e : Entry) (bits : Z) : Entry * Z :=
  ({| state := Z.lor (state e) bits; function := function e |}, state e).

Definition entry_at (q : Queue) (i : nat) : outcome Entry :=
  match entries q !! i with Some e => Done e | None => Faulted Undefined end.

(** One step of producer [j]. *)
Definition step_producer (q : Queue) (j : nat) (p : producer) : outcome Queue :=
  match p with
  | PLoad i f =>
      match entries q !! i with
      | None =>
          if ignore_full then Done (with_producer j PReturned q) else Faulted Assertion
      | Some e =>
          if state e =? 0 then Done (with_producer j (PClaim i f) q)
          else Done (with_producer j (PLoad (S i) f) q)
      end
  | PClaim i f =>
      e ← entry_at q i;
      let '(e, old) := fetch_or e 0x01 in
      let q := with_entry i e q in
      if negb (old =? 0) then Done (with_producer j (PLoad (S i) f) q)
      else Done (with_producer j (PStore i f) q)
  | PStore i f =>
      e ← entry_at q i;
      Done (with_producer j (PPublish i f)
              (with_entry i {| state := state e; function := Some f |} q))
  | PPublish i f =>
      e ← entry_at q i;
      let '(e, should_be_1) := fetch_or e 0x02 in
      _ ← mj_assert (should_be_1 =? 1);
      Done (with_producer j PCount (log_posted f (with_entry i e q)))
  | PCount => Done (with_producer j PReturned (with_count (count q + 1) q))
  | PReturned => Done q
  end.

(** One step of [Poll]; the end of the loop over the entries is its return. *)
Definition step_poller (q : Queue) : outcome Queue :=
  match polling q with
  | CIdle => Done (with_poller (CCheck 0) q)
  | CCheck i =>
      match entries q !! i with
      | None => Done (with_poller CIdle q)
      | Some _ =>
          if count q =? 0 then Done (with_poller CIdle q) else Done (with_poller (CLoad i) q)
      end
  | CLoad i =>
      e ← entry_at q i;
      if state e =? 0x03 then Done (with_poller (CLock i) q)
      else if state e =? 0x07 then Faulted Assertion
      else Done (with_poller (CCheck (S i)) q)
  | CLock i =>
      e ← entry_at q i;
      let '(e, should_be_three) := fetch_or e 0x04 in
      _ ← mj_assert (should_be_three =? 0x03);
      Done (with_poller (CTake i) (with_entry i e q))
  | CTake i =>
      e ← entry_at q i;
      match function e with
      | None => Faulted Undefined
      | Some f =>
          Done (with_poller (CRelease i f) (with_entry i {| state := state e; function := None |} q))
      end
  | CRelease i f =>
      e ← entry_at q i;
      let should_be_7 := state e in
      let q := with_entry i {| state := Z.land (state e) 0; function := function e |} q in
      _ ← mj_assert (should_be_7 =? 0x07);
      Done (with_poller (CRun i f) q)
  | CRun i f => Done (with_poller (CDecrement i) (log_ran f q))
  | CDecrement i => Done (with_poller (CCheck (S i)) (with_count (count q - 1) q))
  end.

(** Any interleaving: calls of [Queue] begin, producers and the poller step. *)
Inductive action := Call (f : F) | Produce (j : nat) | PollStep.

Definition step (q : Queue) (a : action) : outcome Queue :=
  match a with
  | Call f =>
      Done {| entries := entries q; count := count q; producers := producers q ++ [PLoad 0 f];
              polling := polling q; posted := posted q; ran := ran q |}
  | Produce j =>
      match producers q !! j with Some p => step_producer q j p | None => Done q end
  | PollStep => step_poller q
  end.

Fixpoint run (q : Queue) (actions : list action) : outcome Queue :=
  match actions with
  | [] => Done q
  | a :: actions => q ← step q a; run q actions
  end.

(** ** The invariant *)

Definition owns (i : nat) (p : producer) : Z :=
  match p with PStore k _ | PPublish k _ => if decide (k = i) then 1 else 0 | _ => 0 end.

Definition counting (p : producer) : Z := match p with PCount => 1 | _ => 0 end.

Definition total {A} (g : A -> Z) (l : list A) : Z := foldr (fun a n => g a + n) 0 l.

Definition full (e : Entry) : Z := if (state e =? 3) || (state e =? 7) then 1 else 0.

(** The functions waiting in an entry, and in the poller's hands. *)
Definition waiting (e : Entry) : list F :=
  if (state e =? 3) || (state e =? 7) then match function e with Some f => [f] | None => [] end else [].
Definition held (c : poller) : list F :=
  match c with CRelease _ f | CRun _ f => [f] | _ => [] end.

Definition after_release (c : poller) : Z :=
  match c with CRun _ _ | CDecrement _ => 1 | _ => 0 end.

(** Past its check of [count_] the poller relies on it. *)
Definition past_check (c : poller) : bool :=
  match c with CIdle | CCheck _ => false | _ => true end.

Definition poller_ok (q : Queue) : Prop :=
  match polling q with
  | CLock i => exists e, entries q !! i = Some e /\ state e = 3
  | CLoad i => exists e, entries q !! i = Some e
  | CTake i => exists e f, entries q !! i = Some e /\ state e = 7 /\ function e = Some f
  | CRelease i f => exists e, entries q !! i = Some e /\ state e = 7 /\ function e = None
  | _ => True
  end.

Definition locked (c : poller) (i : nat) : bool :=
  match c with CTake k | CRelease k _ => bool_decide (k = i) | _ => false end.

Definition entry_ok (q : Queue) (i : nat) (e : Entry) : Prop :=
  (state e = 0 \/ state e = 1 \/ state e = 3 \/ state e = 7) /\
  total (owns i) (producers q) = (if state e =? 1 then 1 else 0) /\
  (state e = 3 -> exists f, function e = Some f) /\
  (state e = 7 -> locked (polling q) i = true).

Definition producer_ok (q : Queue) (p : producer) : Prop :=
  match p with
  | PClaim i _ | PStore i _ => exists e, entries q !! i = Some e
  | PPublish i f => exists e, entries q !! i = Some e /\ function e = Some f
  | _ => True
  end.

Definition inv (q : Queue) : Prop :=
  (forall i e, entries q !! i = Some e -> entry_ok q i e) /\
  Forall (producer_ok q) (producers q) /\ poller_ok q /\
  count q + total counting (producers q) = total full (entries q) + after_release (polling q) /\
  (past_check (polling q) = true -> 1 <= count q) /\ 0 <= count q /\
  posted q ≡ₚ ran q ++ concat (map waiting (entries q)) ++ held (polling q).

(** ** Lemmas *)
Lemma total_insert {A} (g : A -> Z) l i x y :
  l !! i = Some x -> total g (<[i := y]> l) = total g l - g x + g y.
Proof.
  revert i. induction l as [|a l IH]; intros i Hi; [done|].
  destruct i as [|i]; simpl in *; [injection Hi as ->; lia|]. rewrite (IH i Hi). lia.
Qed.

Lemma total_snoc {A} (g : A -> Z) l x : total g (l ++ [x]) = total g l + g x.
Proof. induction l as [|a l IH]; simpl; [lia|]. rewrite IH. lia. Qed.

Lemma total_nonneg {A} (g : A -> Z) l : (forall a, 0 <= g a) -> 0 <= total g l.
Proof. intros Hg. induction l as [|a l IH]; simpl; [lia|]. specialize (Hg a). lia. Qed.

Lemma total_lookup {A} (g : A -> Z) l i x :
  (forall a, 0 <= g a) -> l !! i = Some x -> g x <= total g l.
Proof.
  intros Hg. revert i. induction l as [|a l IH]; intros i Hi; [done|].
  pose proof (Hg a). pose proof (total_nonneg g l Hg).
  destruct i as [|i]; simpl in *; [injection Hi as ->; lia|]. specialize (IH i Hi). lia.
Qed.

(** With one owner there is no other. *)
Lemma total_unique {A} (g : A -> Z) l i j x y :
  (forall a, 0 <= g a) -> total g l = g x -> l !! i = Some x -> l !! j = Some y -> i <> j -> g y = 0.
Proof.
  intros Hg Ht Hi Hj Hij.
  (* without [x] nothing is left *)
  pose proof (total_insert (fun a => g a) l i x x Hi) as _.
  assert (forall l i j, l !! i = Some x -> l !! j = Some y -> i <> j -> g x + g y <= total g l) as H2.
  { clear -Hg. induction l as [|a l IH]; intros i j Hi Hj Hij; [done|].
    destruct i as [|i], j as [|j]; simpl in *; [done| | |].
    - injection Hi as ->. pose proof (total_lookup g l j y Hg Hj). lia.
    - injection Hj as ->. pose proof (total_lookup g l i x Hg Hi). lia.
    - specialize (IH i j Hi Hj). pose proof (Hg a). lia. }
  pose proof (H2 l i j Hi Hj Hij). pose proof (Hg y). lia.
Qed.

Lemma concat_insert (g : Entry -> list F) l i e e' :
  l !! i = Some e -> concat (map g (<[i := e']> l)) ++ g e ≡ₚ concat (map g l) ++ g e'.
Proof.
  revert i. induction l as [|a l IH]; intros i Hi; [done|].
  destruct i as [|i]; simpl in *.
  - injection Hi as ->. solve_Permutation.
  - rewrite <- !app_assoc. by rewrite (IH i Hi).
Qed.

Lemma concat_insert_same (g : Entry -> list F) l i e e' :
  l !! i = Some e -> g e' = g e -> concat (map g (<[i := e']> l)) = concat (map g l).
Proof.
  intros Hi Hg. change (@map Entry (list F)) with (@fmap list list_fmap Entry (list F)).
  rewrite list_fmap_insert, Hg. f_equal. apply list_insert_id. by rewrite list_lookup_fmap, Hi.
Qed.

Lemma owns_nonneg i p : 0 <= owns i p.
Proof. destruct p; simpl; repeat case_decide; lia. Qed.
Lemma counting_nonneg p : 0 <= counting p.
Proof. destruct p; simpl; lia. Qed.

(** An owner's entry is in state 1. *)
Lemma owner_state q i j p e :
  entries q !! i = Some e -> entry_ok q i e -> producers q !! j = Some p -> owns i p = 1 -> state e = 1.
Proof.
  intros He (_ & Ht & _) Hj Hp. pose proof (total_lookup (owns i) _ _ _ (owns_nonneg i) Hj).
  destruct (Z.eqb_spec (state e) 1); [done|]. lia.
Qed.

Lemma owned_total q i e : entry_ok q i e -> state e <> 1 -> total (owns i) (producers q) = 0.
Proof. intros (_ & Ht & _) Hs. by rewrite (proj2 (Z.eqb_neq _ _) Hs) in Ht. Qed.

(** A producer moves on without an effect on anything else. *)
Lemma inv_move q j p p' :
  inv q -> producers q !! j = Some p -> (forall i, owns i p' = owns i p) ->
  counting p' = counting p -> producer_ok q p' -> inv (with_producer j p' q).
Proof.
  intros (HE & HP & HC & HN & HR & H0 & HL) Hj Ho Hc Hp. unfold inv. simpl. split_and!; try done.
  - intros i e Hi. destruct (HE i e Hi) as (? & Ht & ? & ?). unfold entry_ok. simpl.
    rewrite (total_insert _ _ _ _ _ Hj), Ho. split_and!; [done|lia|done|done].
  - by apply Forall_insert.
  - rewrite (total_insert _ _ _ _ _ Hj), Hc. lia.
Qed.

(** Entries persist under updates. *)
Lemma entry_exists (l : list Entry) i e' k e :
  l !! k = Some e -> exists x, <[i := e']> l !! k = Some x.
Proof.
  intros Hk. destruct (decide (i = k)) as [->|]; [|rewrite list_lookup_insert_ne; eauto].
  rewrite list_lookup_insert_eq; [eauto|]. by eapply lookup_lt_Some.
Qed.

(** The other producers, when one changes an entry that only it may own. *)
Lemma producers_entry q i j e e' p p' :
  entries q !! i = Some e -> entry_ok q i e -> producers q !! j = Some p ->
  (state e = 0 \/ state e = 1) -> (state e = 1 -> owns i p = 1) ->
  Forall (producer_ok q) (producers q) -> producer_ok (with_entry i e' q) p' ->
  Forall (producer_ok (with_entry i e' q)) (<[j := p']> (producers q)).
Proof.
  intros Hi (_ & Htot & _) Hj He Hown HP Hp'. apply Forall_lookup_2. intros n x Hn.
  destruct (decide (n = j)) as [->|Hnj].
  { rewrite list_lookup_insert_eq in Hn by (by eapply lookup_lt_Some). by injection Hn as <-. }
  rewrite list_lookup_insert_ne in Hn by done. pose proof (Forall_lookup_1 _ _ _ _ HP Hn) as Hx.
  destruct x as [k f|k f|k f|k f| |]; simpl in *; try done.
  - destruct Hx as [y Hy]. by eapply entry_exists.
  - destruct Hx as [y Hy]. by eapply entry_exists.
  - destruct (decide (k = i)) as [->|Hk]; [|by rewrite list_lookup_insert_ne by done].
    assert (owns i (PPublish i f) = 1) as H1 by (simpl; by rewrite decide_True).
    destruct He as [He|He]; rewrite He in Htot; simpl in Htot.
    + pose proof (total_lookup (owns i) _ _ _ (owns_nonneg i) Hn). lia.
    + pose proof (total_unique (owns i) _ j n p _ (owns_nonneg i) ltac:(by rewrite Hown) Hj Hn). lia.
Qed.

(** An entry is updated by a producer that goes from [p] to [p']. *)
Lemma inv_entry q i j e e' p p' (news : list F) :
  inv q -> entries q !! i = Some e -> producers q !! j = Some p ->
  (state e = 0 \/ state e = 1) -> (state e' = 1 \/ state e' = 3) ->
  (state e = 1 -> owns i p = 1) ->
  (forall k, k <> i -> owns k p' = 0 /\ owns k p = 0) ->
  total (owns i) (producers q) - owns i p + owns i p' = (if state e' =? 1 then 1 else 0) ->
  (state e' = 3 -> exists f, function e' = Some f) ->
  producer_ok (with_entry i e' q) p' -> waiting e' = news ->
  counting p' - counting p = full e' ->
  inv {| entries := <[i := e']> (entries q); count := count q; producers := <[j := p']> (producers q);
         polling := polling q; posted := posted q ++ news; ran := ran q |}.
Proof.
  intros (HE & HP & HC & HN & HR & H0 & HL) Hi Hj He He' Hown Hk Ht Hfn Hp' Hw Hcnt.
  assert (forall k, k <> i -> <[i := e']> (entries q) !! k = entries q !! k) as Hne
    by (intros k Hk'; by apply list_lookup_insert_ne).
  assert (full e = 0 /\ waiting e = []) as [Hfe Hwe] by
    (unfold full, waiting; destruct He as [-> | ->]; done).
  unfold inv. simpl. split_and!; try done.
  - intros k x Hx. unfold entry_ok. simpl. rewrite (total_insert _ _ _ _ _ Hj).
    destruct (decide (k = i)) as [->|Hki].
    + rewrite list_lookup_insert_eq in Hx by (by eapply lookup_lt_Some). injection Hx as <-.
      split_and!; [tauto|done|done|]. intros E. destruct He' as [E'|E']; rewrite E' in E; done.
    + rewrite Hne in Hx by done. destruct (HE k x Hx) as (? & Htk & ? & ?). destruct (Hk k Hki) as [-> ->].
      split_and!; [done|lia|done|done].
  - exact (producers_entry q i j e e' p p' Hi (HE i e Hi) Hj He Hown HP Hp').
  - unfold poller_ok in *. simpl. destruct (polling q); try done.
    + destruct HC as [y Hy]. by eapply entry_exists.
    + destruct HC as (y & Hy & Hs). exists y. rewrite Hne; [done|]. intros ->.
      rewrite Hi in Hy. injection Hy as ->. destruct He; congruence.
    + destruct HC as (y & f & Hy & Hs & ?). exists y, f. rewrite Hne; [done|]. intros ->.
      rewrite Hi in Hy. injection Hy as ->. destruct He; congruence.
    + destruct HC as (y & Hy & Hs & ?). exists y. rewrite Hne; [done|]. intros ->.
      rewrite Hi in Hy. injection Hy as ->. destruct He; congruence.
  - rewrite (total_insert _ _ _ _ _ Hj), (total_insert _ _ _ _ _ Hi). lia.
  - pose proof (concat_insert waiting _ _ _ e' Hi) as Hc. rewrite Hwe, app_nil_r in Hc.
    rewrite Hc, Hw, HL. solve_Permutation.
Qed.

(** A step of a producer. *)
Lemma step_producer_inv q j p q' :
  inv q -> producers q !! j = Some p -> step_producer q j p = Done q' -> inv q'.
Proof.
  intros I Hj E. pose proof I as (HE & HP & HC & HN & HR & H0 & HL).
  pose proof (Forall_lookup_1 _ _ _ _ HP Hj) as Hp.
  destruct p as [i f|i f|i f|i f| |]; cbn [step_producer] in E.
  - destruct (entries q !! i) as [e|] eqn:Hi.
    + case_match; injection E as <-; (eapply inv_move; [done|exact Hj|done|done|]); simpl; eauto.
    + destruct ignore_full; [|done]. injection E as <-. by eapply inv_move.
  - destruct Hp as [e Hi]. unfold entry_at in E. rewrite Hi, bind_done in E. cbn [fetch_or] in E.
    destruct (HE i e Hi) as (Hs & Ht & Hfn & _).
    destruct (Z.eqb_spec (state e) 0) as [Hz|Hz]; cbn [negb] in E; injection E as <-.
    + rewrite Hz in *. unfold with_producer, with_entry. simpl.
      rewrite <- (app_nil_r (posted q)).
      eapply (inv_entry q i j e _ (PClaim i f) (PStore i f) []); [done|exact Hi|exact Hj|by left|by left| | | | | |done|done]; simpl.
      * by rewrite Hz.
      * intros k Hk. by rewrite decide_False.
      * rewrite decide_True by done. simpl in Ht. lia.
      * done.
      * eexists. by rewrite list_lookup_insert_eq by (by eapply lookup_lt_Some).
    + assert (with_entry i {| state := Z.lor (state e) 1; function := function e |} q = q) as ->.
      { unfold with_entry. rewrite list_insert_id; [by destruct q|].
        rewrite Hi. f_equal. destruct e as [st fn]. simpl in *. f_equal.
        destruct Hs as [->|[->|[->| ->]]]; done. }
      by eapply inv_move.
  - destruct Hp as [e Hi]. unfold entry_at in E. rewrite Hi, bind_done in E. injection E as <-.
    pose proof (owner_state q i j _ e Hi (HE i e Hi) Hj ltac:(simpl; by rewrite decide_True)) as Hs.
    destruct (HE i e Hi) as (_ & Ht & _). rewrite Hs in Ht. simpl in Ht.
    unfold with_producer, with_entry. simpl. rewrite Hs, <- (app_nil_r (posted q)).
    eapply (inv_entry q i j e _ (PStore i f) (PPublish i f) []); [done|exact Hi|exact Hj|by right|by left| | | | | |done|done]; simpl.
    + by rewrite decide_True.
    + intros k Hk. by rewrite !decide_False.
    + rewrite decide_True by done. lia.
    + done.
    + eexists. by rewrite list_lookup_insert_eq by (by eapply lookup_lt_Some).
  - destruct Hp as (e & Hi & Hfn). unfold entry_at in E. rewrite Hi, bind_done in E. cbn [fetch_or] in E.
    pose proof (owner_state q i j _ e Hi (HE i e Hi) Hj ltac:(simpl; by rewrite decide_True)) as Hs.
    destruct (HE i e Hi) as (_ & Ht & _). rewrite Hs in Ht, E. cbn [mj_assert Z.eqb Pos.eqb] in E. simpl in Ht.
    rewrite bind_done in E. injection E as <-.
    unfold with_producer, log_posted, with_entry. simpl. rewrite Hfn.
    eapply (inv_entry q i j e _ (PPublish i f) PCount [f]); [done|exact Hi|exact Hj|by right|by right| | | | |done|done|done]; simpl.
    + by rewrite decide_True.
    + intros k Hk. by rewrite decide_False.
    + rewrite decide_True by done. lia.
    + eauto.
  - injection E as <-. unfold inv, with_producer, with_count. simpl. split_and!; try done; try lia.
    + intros i e Hi. destruct (HE i e Hi) as (? & Ht & ? & ?). unfold entry_ok. simpl.
      rewrite (total_insert _ _ _ _ _ Hj). simpl. split_and!; [done|lia|done|done].
    + by apply Forall_insert.
    + rewrite (total_insert _ _ _ _ _ Hj). simpl. lia.
  - by injection E as <-.
Qed.

(** No producer fails but one that finds the queue full. *)
Lemma step_producer_safe q j p :
  inv q -> producers q !! j = Some p ->
  (exists q', step_producer q j p = Done q') \/
  (exists f, p = PLoad (length (entries q)) f /\ ignore_full = false) \/
  (exists i f, p = PLoad i f /\ entries q !! i = None /\ ignore_full = false).
Proof.
  intros (HE & HP & _) Hj. pose proof (Forall_lookup_1 _ _ _ _ HP Hj) as Hp.
  destruct p as [i f|i f|i f|i f| |]; cbn [step_producer]; try (by left; eexists).
  - destruct (entries q !! i) as [e|] eqn:Hi; [left; case_match; by eexists|].
    destruct ignore_full; [left; by eexists|]. right; right. eauto.
  - destruct Hp as [e Hi]. unfold entry_at. rewrite Hi, bind_done. cbn [fetch_or].
    left. case_match; by eexists.
  - destruct Hp as [e Hi]. unfold entry_at. rewrite Hi, bind_done. left. by eexists.
  - destruct Hp as (e & Hi & Hfn). unfold entry_at. rewrite Hi, bind_done. cbn [fetch_or].
    rewrite (owner_state q i j _ e Hi (HE i e Hi) Hj) by (simpl; by rewrite decide_True).
    left. by eexists.
Qed.

(** An entry is updated by the poller, which goes from one position to the next. *)
Lemma inv_poller q i e e' c :
  inv q -> entries q !! i = Some e -> (state e = 3 \/ state e = 7) ->
  (state e' = 0 \/ (state e' = 7 /\ locked c i = true)) ->
  (forall k, k <> i -> locked (polling q) k = true -> locked c k = true) ->
  (forall q', entries q' = <[i := e']> (entries q) -> polling q' = c -> poller_ok q') ->
  full e' + after_release c = full e + after_release (polling q) ->
  past_check (polling q) = true ->
  waiting e' ++ held c = waiting e ++ held (polling q) ->
  inv (with_poller c (with_entry i e' q)).
Proof.
  intros (HE & HP & HC & HN & HR & H0 & HL) Hi He He' Hlk Hok Hfull Hpast Hw.
  unfold inv. simpl. split_and!.
  - intros k x Hx. unfold entry_ok. simpl. destruct (decide (k = i)) as [->|Hki].
    + rewrite list_lookup_insert_eq in Hx by (by eapply lookup_lt_Some). injection Hx as <-.
      rewrite (owned_total q i e (HE i e Hi)) by (destruct He; congruence).
      destruct He' as [E'|[E' Hl]]; rewrite E'; split_and!; try done; tauto.
    + rewrite list_lookup_insert_ne in Hx by done. destruct (HE k x Hx) as (? & ? & ? & ?).
      split_and!; try done. intros H7. by apply Hlk; auto.
  - apply Forall_lookup_2. intros n x Hn. pose proof (Forall_lookup_1 _ _ _ _ HP Hn) as Hx.
    destruct x as [k f|k f|k f|k f| |]; simpl in *; try done.
    + destruct Hx as [y Hy]. by eapply entry_exists.
    + destruct Hx as [y Hy]. by eapply entry_exists.
    + destruct (decide (k = i)) as [->|Hk]; [|by rewrite list_lookup_insert_ne by done].
      pose proof (owner_state q i n _ e Hi (HE i e Hi) Hn ltac:(simpl; by rewrite decide_True)).
      destruct He; congruence.
  - by apply Hok.
  - rewrite (total_insert _ _ _ _ _ Hi). lia.
  - intros _. by apply HR.
  - lia.
  - pose proof (concat_insert waiting _ _ _ e' Hi) as Hc. rewrite HL.
    f_equiv. apply (Permutation_app_inv_r (waiting e)).
    transitivity (concat (map waiting (entries q)) ++ (waiting e ++ held (polling q))); [solve_Permutation|].
    rewrite <- Hw, app_assoc, <- Hc. solve_Permutation.
Qed.

Lemma step_poller_inv q :
  inv q -> exists q', step_poller q = Done q' /\ inv q'.
Proof.
  intros I. pose proof I as (HE & HP & HC & HN & HR & H0 & HL). unfold step_poller, poller_ok in *.
  assert (forall c, poller_ok (with_poller c q) -> after_release c = after_release (polling q) ->
    held c = held (polling q) -> (past_check c = true -> 1 <= count q) ->
    (forall k, locked (polling q) k = true -> locked c k = true) -> inv (with_poller c q)) as Hmove.
  { intros c H1 H2 H3 H4 H5. unfold inv. simpl. rewrite H2, H3. split_and!; try done.
    intros i e Hi. destruct (HE i e Hi) as (? & ? & ? & ?). unfold entry_ok. simpl. split_and!; auto. }
  destruct (polling q) as [|i|i|i|i|i f|i f|i] eqn:Hpoll; unfold entry_at.
  - eexists. split; [done|]. by apply Hmove.
  - destruct (entries q !! i) as [e|] eqn:Hi; [|eexists; split; [done|]; by apply Hmove].
    destruct (Z.eqb_spec (count q) 0); (eexists; split; [done|]); apply Hmove; try done.
    + exists e. exact Hi.
    + intros _. lia.
  - destruct HC as [e Hi]. rewrite Hi, bind_done. destruct (HE i e Hi) as (Hs & _ & _ & H7).
    destruct (Z.eqb_spec (state e) 3).
    { eexists. split; [done|]. apply Hmove; try done. by exists e. }
    destruct (Z.eqb_spec (state e) 7) as [E7|]; [specialize (H7 E7); by rewrite Hpoll in H7|].
    eexists. split; [done|]. by apply Hmove.
  - destruct HC as (e & Hi & Hs). rewrite Hi, bind_done. cbn [fetch_or]. rewrite Hs. cbn [mj_assert Z.eqb Pos.eqb].
    rewrite bind_done. eexists. split; [done|].
    destruct (HE i e Hi) as (_ & _ & Hfn & _). destruct (Hfn Hs) as [f Hf].
    apply (inv_poller q i e); try done; try (by left); rewrite ?Hpoll; try done.
    + right. split; [done|]. simpl. by rewrite bool_decide_true.
    + intros q' E1 E2. unfold poller_ok. rewrite E2, E1.
      eexists _, f. by rewrite list_lookup_insert_eq by (by eapply lookup_lt_Some).
    + unfold full. by rewrite Hs.
    + unfold waiting. by rewrite Hs.
  - destruct HC as (e & f & Hi & Hs & Hf). rewrite Hi, bind_done, Hf. eexists. split; [done|].
    apply (inv_poller q i e); try done; try (by right); rewrite ?Hpoll; try done.
    + right. split; [done|]. simpl. by rewrite bool_decide_true.
    + intros q' E1 E2. unfold poller_ok. rewrite E2, E1.
      eexists. by rewrite list_lookup_insert_eq by (by eapply lookup_lt_Some).
    + unfold waiting. simpl. by rewrite Hs, Hf.
  - destruct HC as (e & Hi & Hs & Hf). rewrite Hi, bind_done, Hs. cbn [mj_assert Z.eqb Pos.eqb].
    rewrite bind_done. eexists. split; [done|].
    apply (inv_poller q i e); try done; try (by right); try (by left); rewrite ?Hpoll; try done.
    + intros k Hk. simpl. by rewrite bool_decide_false.
    + intros q' E1 E2. unfold poller_ok. by rewrite E2.
    + unfold full. by rewrite Hs.
    + unfold waiting. simpl. by rewrite Hs, Hf.
  - eexists. split; [done|]. unfold inv. simpl. split_and!; try done.
    + intros k e Hi. destruct (HE k e Hi) as (? & ? & ? & ?). unfold entry_ok. rewrite Hpoll in *. by split_and!.
    + rewrite HL. simpl. solve_Permutation.
  - eexists. split; [done|]. specialize (HR eq_refl). unfold inv. simpl in *. split_and!; try done; try lia.
    intros k e Hi. destruct (HE k e Hi) as (? & ? & ? & ?). unfold entry_ok. rewrite Hpoll in *. by split_and!.
Qed.

Lemma inv_call q f q' : inv q -> step q (Call f) = Done q' -> inv q'.
Proof.
  intros (HE & HP & HC & HN & HR & H0 & HL) [= <-]. unfold inv. simpl. split_and!; try done.
  - intros i e Hi. destruct (HE i e Hi) as (? & ? & ? & ?). unfold entry_ok. simpl.
    rewrite total_snoc. simpl. split_and!; [done|lia|done|done].
  - apply Forall_app. split; [done|]. by constructor.
  - rewrite total_snoc. simpl. lia.
Qed.

Lemma step_inv q a q' : inv q -> step q a = Done q' -> inv q'.
Proof.
  intros I E. destruct a as [f|j|].
  - by eapply inv_call.
  - cbn [step] in E. destruct (producers q !! j) as [p|] eqn:Hj; [|by injection E as <-].
    by eapply step_producer_inv.
  - destruct (step_poller_inv q I) as (q2 & E2 & I2). cbn [step] in E. rewrite E2 in E.
    by injection E as <-.
Qed.

Lemma run_inv q actions q' : inv q -> run q actions = Done q' -> inv q'.
Proof.
  revert q. induction actions as [|a actions IH]; intros q I E; [by injection E as <-|].
  cbn [run] in E. apply bind_done_inv in E as (q1 & E1 & E). eapply IH; [|exact E].
  by eapply step_inv.
Qed.

Lemma inv_make size : inv (make size).
Proof.
  unfold inv, make. simpl.
  assert (total full (replicate size entry0) = 0) as ->.
  { induction size as [|n IH]; [done|]. exact IH. }
  assert (concat (map waiting (replicate size entry0)) = []) as ->.
  { induction size as [|n IH]; [done|]. exact IH. }
  split_and!; try done. intros i e [-> _]%lookup_replicate. unfold entry_ok. simpl. by split_and!; [left|..].
Qed.

(** ** Polling when nobody else runs *)

Lemma run_app q a b : run q (a ++ b) = (q ← run q a; run q b).
Proof.
  revert q. induction a as [|x a IH]; intros q; [done|]. cbn [run app].
  destruct (step q x); [|done]. by rewrite !bind_done.
Qed.

Definition quiet (q : Queue) : Prop := Forall (fun p => p = PReturned) (producers q).

Lemma quiet_total q g : quiet q -> g PReturned = 0 -> total g (producers q) = 0.
Proof.
  unfold quiet. intros Hq Hg. induction Hq as [|p l -> _ IH]; [done|]. simpl. lia.
Qed.

Lemma run_poll q n :
  run q (replicate (S n) PollStep) = (q' ← step_poller q; run q' (replicate n PollStep)).
Proof. reflexivity. Qed.

(** The seven accesses that take and run the event of one entry. *)
Lemma poll_entry q i e f :
  polling q = CCheck i -> entries q !! i = Some e -> count q <> 0 ->
  state e = 3 -> function e = Some f ->
  exists q', run q (replicate 7 PollStep) = Done q' /\ polling q' = CCheck (S i) /\
    entries q' = <[i := entry0]> (entries q) /\ count q' = count q - 1 /\
    producers q' = producers q /\ ran q' = ran q ++ [f].
Proof.
  intros Hp Hi Hc Hs Hf. pose proof (lookup_lt_Some _ _ _ Hi) as Hlt.
  assert (forall x (l : list Entry), length l = length (entries q) -> <[i := x]> l !! i = Some x) as Hins
    by (intros x l Hl; apply list_lookup_insert_eq; lia).
  rewrite run_poll. unfold step_poller. rewrite Hp, Hi, (proj2 (Z.eqb_neq _ _) Hc), bind_done.
  rewrite run_poll. unfold step_poller, entry_at. cbn [polling with_poller entries]. rewrite Hi, bind_done, Hs.
  cbn [Z.eqb Pos.eqb]. rewrite bind_done.
  rewrite run_poll. unfold step_poller, entry_at. cbn [polling with_poller entries]. rewrite Hi, bind_done.
  cbn [fetch_or]. rewrite Hs. cbn [mj_assert Z.eqb Pos.eqb]. rewrite !bind_done.
  rewrite run_poll. unfold step_poller, entry_at. cbn [polling with_poller with_entry entries].
  rewrite Hins, bind_done by done. cbn [function]. rewrite Hf, bind_done.
  rewrite run_poll. unfold step_poller, entry_at. cbn [polling with_poller with_entry entries].
  rewrite list_insert_insert_eq, Hins, bind_done by done. cbn [state function]. change (mj_assert (Z.lor 3 4 =? 7)) with (Done tt). rewrite !bind_done.
  rewrite run_poll. unfold step_poller. cbn [polling with_poller with_entry entries]. rewrite bind_done.
  rewrite run_poll. unfold step_poller. cbn [polling with_poller with_entry entries log_ran]. rewrite bind_done.
  eexists. split; [reflexivity|]. simpl. rewrite !list_insert_insert_eq. by split_and!.
Qed.

Lemma sweep n q i :
  inv q -> quiet q -> polling q = CCheck i -> (length (entries q) - i = n)%nat ->
  (forall k e, (k < i)%nat -> entries q !! k = Some e -> state e = 0) ->
  exists steps q', run q (replicate steps PollStep) = Done q' /\ polling q' = CIdle /\
    producers q' = producers q /\ length (entries q') = length (entries q) /\ total full (entries q') = 0.
Proof.
  revert q i. induction n as [|n IH]; intros q i I Hq Hp Hn Hbefore.
  - exists 1%nat. rewrite run_poll. unfold step_poller. rewrite Hp.
    rewrite (lookup_ge_None_2 (entries q) i) by lia. rewrite bind_done.
    eexists. split; [done|]. split_and!; try done. simpl.
    assert (Forall (fun e => state e = 0) (entries q)) as HF.
    { apply Forall_lookup_2. intros k e Hk. apply (Hbefore k); [|done]. apply lookup_lt_Some in Hk. lia. }
    clear -HF. induction HF as [|e l He _ IH]; [done|]. simpl. unfold full at 1. by rewrite He.
  - destruct (lookup_lt_is_Some_2 (entries q) i) as [e Hi]; [lia|].
    pose proof I as (HE & _ & _ & HN & _ & H0 & _).
    rewrite (quiet_total q counting Hq), Hp in HN by done. simpl in HN.
    destruct (Z.eqb_spec (count q) 0) as [Hc|Hc].
    { exists 1%nat. rewrite run_poll. unfold step_poller. rewrite Hp, Hi, (proj2 (Z.eqb_eq _ _) Hc), bind_done.
      eexists. split; [done|]. split_and!; try done. simpl. lia. }
    destruct (HE i e Hi) as (Hs & Ht & Hf & H7). rewrite (quiet_total q _ Hq) in Ht by done.
    destruct (Z.eqb_spec (state e) 1) as [|H1]; [done|].
    assert (state e <> 7) as Hn7 by (intros E; specialize (H7 E); by rewrite Hp in H7).
    destruct (decide (state e = 3)) as [H3|H3].
    + destruct (Hf H3) as [f Ef]. destruct (poll_entry q i e f Hp Hi Hc H3 Ef) as (q1 & E1 & P1 & En1 & _ & Pr1 & _).
      pose proof (run_inv _ _ _ I E1) as I1.
      destruct (IH q1 (S i) I1) as (steps & q2 & E2 & P2 & Pr2 & L2 & T2); [unfold quiet; by rewrite Pr1|done| | |].
      * rewrite En1, length_insert. lia.
      * intros k x Hk Hx. rewrite En1 in Hx. destruct (decide (k = i)) as [->|].
        { rewrite list_lookup_insert_eq in Hx by (by eapply lookup_lt_Some). by injection Hx as <-. }
        rewrite list_lookup_insert_ne in Hx by done. apply (Hbefore k); [lia|done].
      * exists (7 + steps)%nat, q2. rewrite replicate_add, run_app, E1, bind_done.
        split_and!; try done; [congruence|]. by rewrite L2, En1, length_insert.
    + assert (state e = 0) as Hz by (destruct Hs as [?|[?|[?|?]]]; done).
      assert (run q (replicate 2 PollStep) = Done (with_poller (CCheck (S i)) (with_poller (CLoad i) q))) as E1.
      { rewrite run_poll. unfold step_poller. rewrite Hp, Hi, (proj2 (Z.eqb_neq _ _) Hc), bind_done.
        rewrite run_poll. unfold step_poller, entry_at. cbn [polling with_poller entries].
        by rewrite Hi, bind_done, Hz. }
      pose proof (run_inv _ _ _ I E1) as I1.
      destruct (IH _ (S i) I1) as (steps & q2 & E2 & P2 & Pr2 & L2 & T2); [done|done|simpl; lia| |].
      * intros k x Hk Hx. simpl in Hx. destruct (decide (k = i)) as [->|]; [congruence|]. apply (Hbefore k); [lia|done].
      * exists (2 + steps)%nat, q2. rewrite replicate_add, run_app, E1, bind_done. by split_and!.
Qed.

Lemma no_full_no_waiting q : total full (entries q) = 0 -> concat (map waiting (entries q)) = [].
Proof.
  induction (entries q) as [|e l IH]; [done|]. simpl. intros Hz.
  assert (0 <= full e) by (unfold full; case_match; lia).
  assert (0 <= total full l) by (apply total_nonneg; intros a; unfold full; case_match; lia).
  rewrite IH by lia. unfold waiting, full in *. destruct (_ || _); [lia|done].
Qed.
End queue.

(** ** Properties *)

(** C37: whatever the interleaving of producers, in threads or interrupts, with
    the poller, no event is lost or run twice: what was published is what was
    run, what waits in an entry and what the poller holds.  The count never
    goes below zero, and no assertion on the state of an entry ever fails: the
    one step that can fail is that of a producer that has found every entry
    taken, and only when it was not told to ignore that. *)
Theorem atomic_queue_sound {F} (ignore_full : bool) (size : nat) (actions : list (@action F)) (q : @Queue F) :
  run ignore_full (make size) actions = Done q ->
  posted q ≡ₚ ran q ++ concat (map waiting (entries q)) ++ held (polling q) /\ 0 <= count q /\
  forall a, (exists q', step ignore_full q a = Done q') \/
    (ignore_full = false /\ exists j i f, a = Produce j /\ producers q !! j = Some (PLoad i f) /\
       entries q !! i = None).
Proof.
  intros E. pose proof (run_inv _ _ _ _ (inv_make size) E) as I.
  pose proof I as (_ & _ & _ & _ & _ & H0 & HL). split; [done|]. split; [done|].
  intros [f|j|]; [left; by eexists| |left; destruct (step_poller_inv q I) as (q' & E' & _); eauto].
  cbn [step]. destruct (producers q !! j) as [p|] eqn:Hj; [|left; by eexists].
  destruct (step_producer_safe ignore_full q j p I Hj) as [H|[(f & -> & Hi)|(i & f & -> & Hi & Hn)]].
  - by left.
  - right. split; [done|]. exists j, (length (entries q)), f. split_and!; try done. by apply lookup_ge_None_2.
  - right. split; [done|]. by exists j, i, f.
Qed.

(** Once the producers have returned, one call of [Poll] runs every event
    that is waiting, and returns. *)
Theorem atomic_queue_poll_drains {F} (ignore_full : bool) (size : nat) (actions : list (@action F)) (q : @Queue F) :
  run ignore_full (make size) actions = Done q -> quiet q -> polling q = CIdle ->
  exists n q', run ignore_full q (replicate n PollStep) = Done q' /\ polling q' = CIdle /\
    ran q' ≡ₚ posted q' /\ count q' = 0.
Proof.
  intros E Hq Hp. pose proof (run_inv _ _ _ _ (inv_make size) E) as I.
  assert (step ignore_full q PollStep = Done (with_poller (CCheck 0) q)) as E1
    by (cbn [step]; unfold step_poller; by rewrite Hp).
  pose proof (step_inv _ _ _ _ I E1) as I1.
  destruct (sweep ignore_full (length (entries q)) (with_poller (CCheck 0) q) 0 I1) as
    (n & q' & E2 & P2 & Pr2 & _ & T2); [done|done|simpl; lia|lia|].
  exists (S n), q'. cbn [replicate run]. rewrite E1, bind_done, E2.
  pose proof (run_inv _ _ _ _ I1 E2) as (_ & _ & _ & HN & _ & _ & HL).
  rewrite (no_full_no_waiting q' T2), P2, !app_nil_r in HL.
  rewrite Pr2, (quiet_total (with_poller (CCheck 0) q)), P2, T2 in HN by done.
  split_and!; [done|done|by symmetry|simpl in HN; lia].
Qed.

(** *** Witnesses: two producers whose steps alternate, on a queue of two. *)
Definition demo_actions : list (@action Z) :=
  [Call 10; Call 20; Produce 0; Produce 1; Produce 0; Produce 1; Produce 0; Produce 1; Produce 0;
   Produce 1; Produce 0; Produce 1; Produce 1; Produce 1].

Definition demo_queue : @Queue Z :=
  match run false (make 2) demo_actions with Done q => q | Faulted _ => make 2 end.

Example demo_posted : (posted demo_queue, count demo_queue) = ([10; 20], 2).
Proof. vm_compute. reflexivity. Qed.

Lemma atomic_queue_sound_witness :
  posted demo_queue ≡ₚ ran demo_queue ++ concat (map waiting (entries demo_queue)) ++ held (polling demo_queue) /\
  0 <= count demo_queue /\
  forall a, (exists q', step false demo_queue a = Done q') \/
    (false = false /\ exists j i f, a = Produce j /\ producers demo_queue !! j = Some (PLoad i f) /\
       entries demo_queue !! i = None).
Proof. refine (atomic_queue_sound false 2 demo_actions demo_queue _). vm_compute. reflexivity. Defined.

Lemma atomic_queue_poll_drains_witness :
  exists n q', run false demo_queue (replicate n PollStep) = Done q' /\ polling q' = CIdle /\
    ran q' ≡ₚ posted q' /\ count q' = 0.
Proof.
  refine (atomic_queue_poll_drains false 2 demo_actions demo_queue _ _ _).
  - vm_compute. reflexivity.
  - vm_compute. repeat constructor.
  - vm_compute. reflexivity.
Defined.
