(* ===== verification/Tokenizer.v ===== *)
(** * base/tokenizer.h: splitting a command at delimiters *)
From S2P Require Import Prelude.
From stdpp Require Import strings.
#[local] Open Scope Z_scope.

(** The bytes of a C string literal. *)
Definition text_of (s : String.string) : list byte := String.list_byte_of_string s.
Arguments text_of s%_string.

Module Tokenizer.

Record t := { source : list byte; delimiters : list byte; position : Z }.

Definition make (source delimiters : list byte) : t :=
  {| source := source; delimiters := delimiters; position := 0 |}.

(** [strchr(delimiters_, c) != nullptr]: the terminating null of [delimiters_]
    counts as one of its characters. *)
Definition is_delimiter (delimiters : list byte) (c : byte) : bool :=
  bool_decide (c ∈ delimiters) || (byte.unsigned c =? 0).

(** The loop of [next]: how far the first delimiter is, if there is one. *)
Fixpoint scan (delimiters l : list byte) : option Z :=
  match l with
  | [] => None
  | c :: l => if is_delimiter delimiters c then Some 0 else Z.succ <$> scan delimiters l
  end.

Definition remaining (s : t) : list byte := zdrop (position s) (source s).

Definition next (s : t) : list byte * t :=
  if position s =? zlen (source s) then ([], s)
  else
    match scan (delimiters s) (remaining s) with
    | Some i =>
        (ztake i (remaining s),
         {| source := source s; delimiters := delimiters s; position := position s + i + 1 |})
    | None =>
        (remaining s,
         {| source := source s; delimiters := delimiters s; position := zlen (source s) |})
    end.

(** A token ends at the first delimiter, which is dropped. *)
Lemma scan_some d l i :
  scan d l = Some i ->
  exists c, l = ztake i l ++ c :: zdrop (i + 1) l /\ 0 <= i < zlen l /\
    is_delimiter d c = true /\ Forall (fun c => is_delimiter d c = false) (ztake i l).
Proof.
  revert i. induction l as [|c l IH]; intros i E; [done|]. cbn [scan] in E.
  rewrite zlen_cons. pose proof (zlen_nonneg l). destruct (is_delimiter d c) eqn:Ec.
  - injection E as <-. exists c. split_and!; [done|lia|lia|done|constructor].
  - destruct (scan d l) as [j|]; [|done]. injection E as <-.
    destruct (IH j eq_refl) as (c' & El & Hj & Hc & Hf). exists c'.
    rewrite ztake_cons, zdrop_cons by lia. replace (Z.succ j - 1) with j by lia.
    replace (Z.succ j + 1 - 1) with (j + 1) by lia.
    split_and!; [by rewrite El at 1|lia|lia|done|by constructor].
Qed.

Lemma scan_none d l : scan d l = None -> Forall (fun c => is_delimiter d c = false) l.
Proof.
  induction l as [|c l IH]; [constructor|]. cbn [scan]. destruct (is_delimiter d c) eqn:E; [done|].
  destruct (scan d l); [done|]. intros _. constructor; auto.
Qed.

Lemma scan_word d w : Forall (fun c => is_delimiter d c = false) w -> scan d w = None.
Proof. induction 1 as [|c w Hc _ IH]; [done|]. cbn [scan]. by rewrite Hc, IH. Qed.

Lemma word_bool d w : forallb (fun c => negb (is_delimiter d c)) w = true -> Forall (fun c => is_delimiter d c = false) w.
Proof.
  induction w as [|c w IH]; cbn [forallb]; intros E; [by constructor|].
  apply andb_true_iff in E as [Ec E]. constructor; [by apply negb_true_iff|by apply IH].
Qed.

Definition ok (s : t) : Prop := 0 <= position s <= zlen (source s).

Lemma next_ok s : ok s -> ok (snd (next s)).
Proof.
  intros Hs. unfold next, ok in *. destruct (position s =? zlen (source s)); [done|].
  pose proof (zlen_nonneg (source s)).
  destruct (scan (delimiters s) (remaining s)) as [i|] eqn:E; cbn [snd position source]; [|lia].
  apply scan_some in E as (_ & _ & Hi & _). unfold remaining in Hi.
  rewrite zlen_drop in Hi by lia. lia.
Qed.

Lemma next_spec s :
  ok s ->
  let '(token, s') := next s in
  Forall (fun c => is_delimiter (delimiters s) c = false) token /\
  (remaining s = token /\ remaining s' = [] \/
   exists c, is_delimiter (delimiters s) c = true /\ remaining s = token ++ c :: remaining s').
Proof.
  intros Hs. unfold next, ok in *. destruct (Z.eqb_spec (position s) (zlen (source s))) as [E|E].
  - split; [constructor|]. left. unfold remaining. rewrite E. by rewrite zdrop_ge.
  - destruct (scan (delimiters s) (remaining s)) as [i|] eqn:Es.
    + apply scan_some in Es as (c & El & Hi & Hc & Hf). split; [done|]. right. exists c.
      split; [done|]. rewrite El at 1. unfold remaining. cbn [position source].
      rewrite zdrop_zdrop by lia. by replace (position s + i + 1) with (position s + (i + 1)) by lia.
    + split; [by apply scan_none|]. left. split; [done|].
      unfold remaining. cbn [position source]. by rewrite zdrop_ge by lia.
Qed.

(** A token in front of a delimiter. *)
Lemma scan_app d tok c rest :
  Forall (fun c => is_delimiter d c = false) tok -> is_delimiter d c = true ->
  scan d (tok ++ c :: rest) = Some (zlen tok).
Proof.
  intros Ht Hc. induction Ht as [|x tok Hx _ IH]; cbn [app scan]; [by rewrite Hc|].
  rewrite Hx, IH, zlen_cons. cbn. f_equal. lia.
Qed.

Lemma next_token_at d tok c rest :
  Forall (fun c => is_delimiter d c = false) tok -> is_delimiter d c = true ->
  exists s', next (make (tok ++ c :: rest) d) = (tok, s') /\ remaining s' = rest /\ position s' = zlen tok + 1.
Proof.
  intros Ht Hc. unfold next, remaining. cbn [position make source delimiters].
  pose proof (zlen_nonneg tok). pose proof (zlen_nonneg rest).
  destruct (Z.eqb_spec 0 (zlen (tok ++ c :: rest))) as [E|_]; [rewrite zlen_app, zlen_cons in E; lia|].
  change (zdrop 0 ?l) with l. rewrite (scan_app d tok c rest Ht Hc), ztake_app_len.
  eexists. split; [reflexivity|]. cbn [position source]. split; [|lia].
  replace (0 + zlen tok + 1) with (zlen (tok ++ [c])) by (rewrite zlen_app; change (zlen [c]) with 1; lia).
  change (c :: rest) with ([c] ++ rest). rewrite app_assoc. apply zdrop_app_len.
Qed.

Lemma next_token d tok c rest :
  Forall (fun c => is_delimiter d c = false) tok -> is_delimiter d c = true ->
  exists s', next (make (tok ++ c :: rest) d) = (tok, s') /\ remaining s' = rest.
Proof. intros Ht Hc. destruct (next_token_at d tok c rest Ht Hc) as (s' & ? & ? & _). by exists s'. Qed.

End Tokenizer.
