(* ===== verification/CString.v ===== *)
(** * What the source uses of the C library on strings

    [strtol] and [strtoull] with base 0 on the memory behind a pointer, with
    [long] of a given number of bits, and [snprintf] of a number; what is
    printed is read back. *)
From stdpp Require Import strings pretty.
From S2P Require Import Prelude Tokenizer.
#[local] Open Scope Z_scope.

Definition char_code (c : byte) : Z := byte.unsigned c.

(** [isspace] in the "C" locale *)
Definition isspace (c : byte) : bool :=
  (char_code c =? 32) || ((9 <=? char_code c) && (char_code c <=? 13)).

(** The value of a digit in any base up to 16. *)
Definition digit_value (c : byte) : option Z :=
  let z := char_code c in
  if (48 <=? z) && (z <=? 57) then Some (z - 48)
  else if (97 <=? z) && (z <=? 102) then Some (z - 87)
  else if (65 <=? z) && (z <=? 70) then Some (z - 55)
  else None.

Definition digit_in (base : Z) (c : byte) : option Z :=
  match digit_value c with
  | Some d => if d <? base then Some d else None
  | None => None
  end.

(** The number that the digits at the front stand for. *)
Fixpoint digits (base : Z) (l : list byte) (value : Z) : Z :=
  match l with
  | [] => value
  | c :: l => match digit_in base c with
              | Some d => digits base l (value * base + d)
              | None => value
              end
  end.

Fixpoint skip_space (l : list byte) : list byte :=
  match l with
  | c :: l' => if isspace c then skip_space l' else l
  | [] => []
  end.

(** The sign, and what follows. *)
Definition sign (l : list byte) : bool * list byte :=
  match l with
  | c :: l' => if char_code c =? 45 then (true, l')
               else if char_code c =? 43 then (false, l') else (false, l)
  | [] => (false, [])
  end.

(** The base that the prefix says, and the digits; [0x] is a prefix only in
    front of a digit. *)
Definition prefix (l : list byte) : Z * list byte :=
  match l with
  | z :: x :: d :: l' =>
      if (char_code z =? 48) && ((char_code x =? 120) || (char_code x =? 88)) &&
         (match digit_in 16 d with Some _ => true | None => false end)
      then (16, d :: l')
      else if char_code z =? 48 then (8, l) else (10, l)
  | z :: _ => if char_code z =? 48 then (8, l) else (10, l)
  | [] => (10, [])
  end.

(** A value outside [long] is its nearest end. *)
Definition clip (bits z : Z) : Z := Z.max (- 2 ^ (bits - 1)) (Z.min (2 ^ (bits - 1) - 1) z).

Definition strtol (bits : Z) (s : list byte) : Z :=
  let '(negative, rest) := sign (skip_space s) in
  let '(base, rest) := prefix rest in
  let value := digits base rest 0 in
  clip bits (if negative then - value else value).

Definition strtoull (s : list byte) : Z :=
  let '(negative, rest) := sign (skip_space s) in
  let '(base, rest) := prefix rest in
  let value := digits base rest 0 in
  if 2 ^ 64 - 1 <? value then 2 ^ 64 - 1 else uwrap 64 (if negative then - value else value).

(** How many characters the number takes: [str_end] less the pointer, none
    when there is no number. *)
Fixpoint digit_run (base : Z) (l : list byte) : nat :=
  match l with
  | c :: l => match digit_in base c with Some _ => S (digit_run base l) | None => O end
  | [] => O
  end.

Definition number_end (s : list byte) : Z :=
  let '(_, rest) := sign (skip_space s) in
  let '(base, rest) := prefix rest in
  match digit_run base rest with
  | O => 0
  | n => zlen s - zlen rest + Z.of_nat n
  end.

(** [std::stol] and its relatives with a base: the sign, the magnitude and how
    many characters were taken, or no conversion.  A prefix belongs to base 16
    and to base 0, which finds the base. *)
Definition prefix_in (base : Z) (l : list byte) : Z * list byte :=
  if base =? 0 then prefix l
  else if base =? 16 then (if fst (prefix l) =? 16 then prefix l else (16, l))
  else (base, l).

Definition scan_integer (base : Z) (s : list byte) : option (bool * Z * Z) :=
  let '(negative, rest) := sign (skip_space s) in
  let '(base, rest) := prefix_in base rest in
  match digit_run base rest with
  | O => None
  | n => Some (negative, digits base rest 0, zlen s - zlen rest + Z.of_nat n)
  end.

(** [strtol] with a base, on memory that need not end in a null: undefined when
    it looks behind the end of it. *)
Definition looks_behind (base : Z) (memory : list byte) : bool :=
  let '(_, rest) := sign (skip_space memory) in
  let '(base, rest) := prefix_in base rest in
  match drop (digit_run base rest) rest, digit_run base rest with
  | [], _ => true
  | [x], 1%nat => (base =? 16) && ((char_code x =? 120) || (char_code x =? 88)) &&
                  match rest with z :: _ => char_code z =? 48 | [] => false end
  | _, _ => false
  end.

Definition strtol_in (bits base : Z) (memory : list byte) : outcome Z :=
  if looks_behind base memory then Faulted Undefined
  else
    match scan_integer base memory with
    | None => Done 0
    | Some (negative, magnitude, _) => Done (clip bits (if negative then - magnitude else magnitude))
    end.

(** The exceptions [std::invalid_argument] and [std::out_of_range]. *)
Definition kInvalidArgument : Z := 4.
Definition kOutOfRange : Z := 2.

Definition stol (bits base : Z) (s : list byte) : outcome (Z * Z) :=
  match scan_integer base s with
  | None => Faulted (Exception kInvalidArgument)
  | Some (negative, magnitude, pos) =>
      let z := if negative then - magnitude else magnitude in
      if (- 2 ^ (bits - 1) <=? z) && (z <? 2 ^ (bits - 1)) then Done (z, pos)
      else Faulted (Exception kOutOfRange)
  end.

Definition stoull (base : Z) (s : list byte) : outcome (Z * Z) :=
  match scan_integer base s with
  | None => Faulted (Exception kInvalidArgument)
  | Some (negative, magnitude, pos) =>
      if 2 ^ 64 <=? magnitude then Faulted (Exception kOutOfRange)
      else Done (uwrap 64 (if negative then - magnitude else magnitude), pos)
  end.

(** ** Printing *)
Definition decimal (n : Z) : list byte := text_of (pretty.pretty n).

(** [snprintf] stores at most one byte less than the size, and a null; into
    no space it stores nothing, and the string read back is not one. *)
Definition snprintf (buffer s : list byte) : outcome (list byte) :=
  if zlen buffer =? 0 then Faulted Undefined
  else store buffer 0 (ztake (zlen buffer - 1) s ++ [byte.of_Z 0]).

(** ** Lemmas *)
Lemma clip_range bits z : 0 < bits -> in_s bits (clip bits z).
Proof. intros Hb. unfold clip, in_s. pose proof (Z.pow_pos_nonneg 2 (bits - 1)). lia. Qed.

Lemma clip_id bits z : in_s bits z -> clip bits z = z.
Proof. unfold clip, in_s. lia. Qed.

Lemma strtol_range bits s : 0 < bits -> in_s bits (strtol bits s).
Proof.
  intros Hb. unfold strtol. destruct (sign (skip_space s)) as [neg rest]. destruct (prefix rest) as [base r].
  by apply clip_range.
Qed.

(** Nothing of a number continues in front of these characters. *)
Definition no_digit (tail : list byte) : Prop :=
  match tail with c :: _ => digit_in 16 c = None /\ char_code c <> 120 /\ char_code c <> 88 | [] => True end.

(** A run of decimal digits and its value. *)
Definition is_run (ds : list byte) (x : Z) : Prop :=
  Forall (fun c => exists d, digit_in 10 c = Some d) ds /\
  forall tail v, digits 10 (ds ++ tail) v = digits 10 tail (v * 10 ^ zlen ds + x).

Lemma pretty_char d : (d < 10)%N ->
  let c := Ascii.byte_of_ascii (pretty_N_char d) in
  char_code c = 48 + Z.of_N d /\ digit_in 10 c = Some (Z.of_N d) /\ isspace c = false.
Proof.
  intros Hd c. assert (Hc : (d = 0 \/ d = 1 \/ d = 2 \/ d = 3 \/ d = 4 \/ d = 5 \/ d = 6 \/ d = 7 \/ d = 8 \/ d = 9)%N) by lia.
  subst c. by repeat (destruct Hc as [->|Hc]; [done|]); subst.
Qed.

Lemma pretty_run x : (0 < x)%N -> forall s, exists d ds,
  text_of (pretty_N_go x s) = d :: ds ++ text_of s /\ is_run (d :: ds) (Z.of_N x) /\
  49 <= char_code d <= 57.
Proof.
  induction (N.lt_wf_0 x) as [x _ IH]. intros Hx s. rewrite pretty_N_go_step by done.
  assert (Hm : (x `mod` 10 < 10)%N) by (apply N.mod_lt; lia).
  destruct (pretty_char (x `mod` 10) Hm) as (Hc & Hd & _).
  set (c := Ascii.byte_of_ascii (pretty_N_char (x `mod` 10))) in *.
  pose proof (N.div_mod x 10 ltac:(lia)) as Hdm.
  destruct (decide (x `div` 10 = 0)%N) as [E|E].
  - rewrite E, pretty_N_go_0. exists c, []. rewrite E in Hdm. split; [done|]. split.
    + split; [by repeat econstructor|]. intros tail v. cbn [app digits]. rewrite Hd.
      change (zlen [c]) with 1. f_equal. lia.
    + lia.
  - destruct (IH (x `div` 10)%N) with (s := String (pretty_N_char (x `mod` 10)) s) as (d & ds & Et & [Hf Hr] & Hh);
      [by apply N.div_lt; lia|lia|].
    exists d, (ds ++ [c]). split; [rewrite Et, <- app_assoc; done|]. split; [|done]. split.
    + change (d :: ds ++ [c]) with ((d :: ds) ++ [c]). apply list.Forall_app.
      split; [done|]. by repeat econstructor.
    + intros tail v. change (d :: ds ++ [c]) with ((d :: ds) ++ [c]). rewrite <- app_assoc, Hr.
      cbn [app digits]. rewrite Hd. f_equal.
      rewrite !zlen_cons, zlen_app. change (zlen [c]) with 1. rewrite Z.add_assoc.
      rewrite (Z.pow_add_r 10 (1 + zlen ds) 1) by (pose proof (zlen_nonneg ds); lia). lia.
Qed.

Lemma no_digit_stops base tail v :
  base <= 16 -> no_digit tail -> digits base tail v = v /\ digit_run base tail = O.
Proof.
  intros Hb. destruct tail as [|c tail]; [done|]. cbn [no_digit digits digit_run]. unfold digit_in.
  intros [Hc _]. destruct (digit_value c) as [d|]; [|done]. destruct (Z.ltb_spec d 16); [done|].
  by rewrite (proj2 (Z.ltb_ge d base)) by lia.
Qed.

Lemma run_stops ds x tail v :
  is_run ds x -> no_digit tail ->
  digits 10 (ds ++ tail) v = v * 10 ^ zlen ds + x /\ digit_run 10 (ds ++ tail) = length ds.
Proof.
  intros [Hf Hr] Ht. split; [rewrite Hr; by apply no_digit_stops|]. clear Hr.
  induction Hf as [|c ds [d Hd] _ IH]; [by apply (no_digit_stops 10 tail 0)|].
  cbn [app digit_run length]. by rewrite Hd, IH.
Qed.

Lemma digit_no_space c : 43 < char_code c <= 57 -> isspace c = false.
Proof. intros Hc. unfold isspace. destruct (Z.eqb_spec (char_code c) 32); [lia|]. cbn. lia. Qed.

Lemma prefix_decimal c l : 49 <= char_code c <= 57 -> prefix (c :: l) = (10, c :: l).
Proof.
  intros Hc. assert (E : (char_code c =? 48) = false) by lia.
  unfold prefix. rewrite E. by destruct l as [|? [|? ?]].
Qed.

Lemma decimal_run x : (0 < x)%N -> exists d ds,
  text_of (pretty.pretty x) = d :: ds /\ is_run (d :: ds) (Z.of_N x) /\ 49 <= char_code d <= 57.
Proof.
  intros Hx. destruct (pretty_run x Hx EmptyString) as (d & ds & E & Hr & Hd). exists d, ds.
  split; [|done]. unfold pretty, pretty_N. rewrite decide_False by lia. rewrite E. cbn. by rewrite app_nil_r.
Qed.

(** The characters of a number: digits and a sign. *)
Lemma decimal_chars z : Forall (fun c => 45 <= char_code c <= 57) (decimal z).
Proof.
  assert (Hp : forall p, Forall (fun c => 45 <= char_code c <= 57) (text_of (pretty.pretty (N.pos p)))).
  { intros p. destruct (decimal_run (N.pos p) eq_refl) as (d & ds & -> & [Hr _] & _). eapply list.Forall_impl; [exact Hr|].
    intros c [v Hv]. unfold digit_in in Hv. destruct (digit_value c) as [d'|] eqn:Ed; [|done].
    assert (d' < 10) by (revert Hv; destruct (Z.ltb_spec d' 10); done). revert Ed. clear Hv. unfold digit_value.
    repeat case_match; intros [= <-]; lia. }
  destruct z as [|p|p]; [by repeat constructor|exact (Hp p)|]. change (decimal (Z.neg p)) with (byte.of_Z 45 :: text_of (pretty.pretty (N.pos p))).
  constructor; [done|apply Hp].
Qed.

(** A number above zero, and what follows it. *)
Lemma decimal_positive x tail : (0 < x)%N -> no_digit tail -> exists d ds,
  text_of (pretty.pretty x) = d :: ds /\ 49 <= char_code d <= 57 /\
  digits 10 (d :: ds ++ tail) 0 = Z.of_N x /\ digit_run 10 (d :: ds ++ tail) = S (length ds).
Proof.
  intros Hx Ht. destruct (decimal_run x Hx) as (d & ds & E & Hr & Hd).
  exists d, ds. destruct (run_stops (d :: ds) (Z.of_N x) tail 0 Hr Ht) as [H1 H2].
  split; [done|]. split; [done|]. split; [etrans; [exact H1|lia]|exact H2].
Qed.

(** What is printed, with a sign if it is negative, and what follows it. *)
Lemma decimal_number z tail :
  no_digit tail -> exists rest base,
  sign (skip_space (decimal z ++ tail)) = (z <? 0, rest) /\ prefix rest = (base, rest) /\
  digits base rest 0 = Z.abs z /\ number_end (decimal z ++ tail) = zlen (decimal z).
Proof.
  intros Ht. destruct z as [|p|p].
  - exists (byte.of_Z 48 :: tail), 8. change (decimal 0 ++ tail) with (byte.of_Z 48 :: tail).
    assert (Hp : prefix (byte.of_Z 48 :: tail) = (8, byte.of_Z 48 :: tail)).
    { destruct tail as [|c [|c' tail]]; [done..|]. destruct Ht as (_ & Hx & HX). unfold prefix.
      by rewrite (proj2 (Z.eqb_neq _ _) Hx), (proj2 (Z.eqb_neq _ _) HX). }
    destruct (no_digit_stops 8 tail 0 ltac:(lia) Ht) as [E1 E2].
    split_and!; [done|done|exact E1|]. unfold number_end. change (sign _) with (false, byte.of_Z 48 :: tail).
    cbv beta iota. rewrite Hp. cbn [digit_run]. change (digit_in 8 (byte.of_Z 48)) with (Some 0).
    rewrite E2, zlen_cons. change (zlen (decimal 0)) with 1. lia.
  - destruct (decimal_positive (N.pos p) tail ltac:(lia) Ht) as (d & ds & E & Hd & Hv & Hn).
    exists (d :: ds ++ tail), 10. change (decimal (Z.pos p)) with (text_of (pretty.pretty (N.pos p))). rewrite E.
    assert (Hs : sign (skip_space (d :: ds ++ tail)) = (false, d :: ds ++ tail)).
    { cbn [skip_space]. rewrite digit_no_space by lia. unfold sign.
      by rewrite (proj2 (Z.eqb_neq _ 45)), (proj2 (Z.eqb_neq _ 43)) by lia. }
    split_and!; [exact Hs|by apply prefix_decimal|exact Hv|].
    unfold number_end. cbn [app]. rewrite Hs, prefix_decimal, Hn by done. rewrite !zlen_cons. unfold zlen. lia.
  - destruct (decimal_positive (N.pos p) tail ltac:(lia) Ht) as (d & ds & E & Hd & Hv & Hn).
    exists (d :: ds ++ tail), 10.
    change (decimal (Z.neg p)) with (byte.of_Z 45 :: text_of (pretty.pretty (N.pos p))). rewrite E.
    assert (Hs : sign (skip_space (byte.of_Z 45 :: d :: ds ++ tail)) = (true, d :: ds ++ tail)) by done.
    split_and!; [exact Hs|by apply prefix_decimal|exact Hv|].
    unfold number_end. cbn [app]. rewrite Hs, prefix_decimal, Hn by done. rewrite !zlen_cons. unfold zlen. lia.
Qed.

(** What [snprintf] prints of an integer, [strtol] and [strtoull] read. *)
Lemma strtol_decimal bits z tail : in_s bits z -> no_digit tail -> strtol bits (decimal z ++ tail) = z.
Proof.
  intros Hz Ht. destruct (decimal_number z tail Ht) as (rest & base & Es & Ep & Ed & _).
  unfold strtol. rewrite Es, Ep, Ed.
  replace (if z <? 0 then - Z.abs z else Z.abs z) with z by (destruct (Z.ltb_spec z 0); lia). by apply clip_id.
Qed.

Lemma strtoull_decimal z tail : in_u 64 z -> no_digit tail -> strtoull (decimal z ++ tail) = z.
Proof.
  intros Hz Ht. destruct (decimal_number z tail Ht) as (rest & base & Es & Ep & Ed & _).
  unfold strtoull. rewrite Es, Ep, Ed. unfold in_u in Hz. rewrite (proj2 (Z.ltb_ge z 0)) by lia.
  rewrite (proj2 (Z.ltb_ge _ _)) by lia. rewrite uwrap_id by (unfold in_u; lia). lia.
Qed.
