(* ===== verification/FrameStream.v ===== *)
(** * multiplex/frame_stream.h: what the host's frame streams share

    A frame stream sends and receives frames over a stream of boost, or a
    socket.  Every operation it starts outside, and every call of a callback of
    its client, is an output; the completion of an operation is a later call of
    the handler that was given to it.  boost::asio's own conventions: a read that
    completes brings between one byte and the size it was asked for, an operation
    that was cancelled completes with [kAborted]. *)
From S2P Require Import Prelude Streams MultiplexStream Register.
#[local] Open Scope Z_scope.

(** [boost::asio::error::operation_aborted] *)
Definition kAborted : Z := 125.

Inductive output :=
  | StartWrite (data : list byte)
  | StartRead (size : Z)
  | TimerCancel
  | TimerStart (timeout : Z)
  (** The callback of a read, posted to the executor, or called at once; with
      the frame that the client gave. *)
  | ReadPosted (ec : Z) (frame : option Frame.Frame)
  | ReadCalled (ec : Z) (frame : option Frame.Frame)
  | WriteCalled (ec : Z)
  | WritePosted (ec : Z).

(** [base::FailIf], which ends the program. *)
Definition FailIf (ec : Z) : outcome unit := mj_assert (ec =? 0).

(** ** io/streambuf_read_stream.h *)
Module StreambufReadStream.

Record t := { buffer : list byte; current : Z; last_read : Z }.

Definition make (b : list byte) : t := {| buffer := b; current := 0; last_read := 0 |}.

Definition offset (s : t) : Z := current s.
Definition remaining (s : t) : Z := zlen (buffer s) - current s.

Definition ignore (s : t) (size : Z) : outcome t :=
  let to_ignore := Z.min size (remaining s) in
  Done {| buffer := buffer s; current := current s + to_ignore; last_read := to_ignore |}.

Definition read (s : t) (size : Z) : outcome (list byte * t) :=
  let to_read := Z.min size (remaining s) in
  Done (ztake to_read (zdrop (current s) (buffer s)),
        {| buffer := buffer s; current := current s + to_read; last_read := to_read |}).

#[global] Instance stream : ReadStream t := {|
  rs_read := read; rs_ignore := ignore; rs_gcount := last_read |}.

Definition ok (s : t) : Prop := 0 <= current s <= zlen (buffer s).

#[global] Program Instance laws : ReadStreamLaws t := {|
  rs_valid := ok; rs_rest s := zdrop (current s) (buffer s) |}.
Next Obligation.
  intros s n [Ho Hl] Hn. eexists. unfold rs_read, stream, read, remaining.
  rewrite zlen_drop by lia. split; [f_equal; f_equal|].
  - destruct (Z.le_ge_cases n (zlen (buffer s) - current s)); [by rewrite Z.min_l by lia|].
    rewrite Z.min_r by lia. rewrite !ztake_ge; [done|rewrite zlen_drop; lia..].
  - unfold ok. cbn. split_and!; [lia|lia| |lia]. rewrite zdrop_zdrop by lia.
    destruct (Z.le_ge_cases n (zlen (buffer s) - current s)); [rewrite Z.min_l by lia; f_equal; lia|].
    rewrite Z.min_r by lia. rewrite !zdrop_ge; [done|lia..].
Qed.
Next Obligation.
  intros s n [Ho Hl] Hn. eexists. unfold rs_ignore, stream, ignore, remaining.
  split; [done|]. unfold ok. cbn. split; [lia|]. rewrite zdrop_zdrop by lia.
  destruct (Z.le_ge_cases n (zlen (buffer s) - current s)); [rewrite Z.min_l by lia; f_equal; lia|].
  rewrite Z.min_r by lia. rewrite !zdrop_ge; [done|lia..].
Qed.
End StreambufReadStream.

(** ** The source of a frame, and whether it is to be answered, in a byte *)
Lemma source_bits (i : Z) (b : bool) : in_u 7 i -> let source := Z.lor i (if b then 0x80 else 0x00) in
  in_u 8 source /\ Z.land source 0x7f = i /\ negb (Z.land source 0x80 =? 0) = b.
Proof.
  intros Hi. assert (Hc : Forall (fun i => forall b : bool,
    bool_decide (0 <= Z.lor i (if b then 0x80 else 0x00) < 2 ^ 8) = true /\ Z.land (Z.lor i (if b then 0x80 else 0x00)) 0x7f = i /\
    negb (Z.land (Z.lor i (if b then 0x80 else 0x00)) 0x80 =? 0) = b) (seqZ 0 128)).
  { repeat (constructor; [intros []; by vm_compute|]). constructor. }
  intros source. assert (Hin : i ∈ seqZ 0 128) by (apply elem_of_seqZ; unfold in_u in Hi; lia).
  destruct (proj1 (list.Forall_forall _ _) Hc i Hin b) as (H1 & H2 & H3). by apply bool_decide_eq_true in H1.
Qed.

(** Source and destination in the identifier of a CAN frame. *)
Lemma id_bits (source dest : Z) : in_u 8 source -> in_u 7 dest -> let id := Z.lor (Z.shiftl source 8) dest in
  in_u 16 id /\ Z.shiftr id 8 = source /\ Z.land id 0x7f = dest.
Proof.
  intros Hs Hd id. unfold in_u in *.
  assert (Z.shiftr id 8 = source) as E.
  { unfold id. rewrite Z.shiftr_lor, Z.shiftr_shiftl_l by lia. change (8 - 8) with 0.
    rewrite Z.shiftl_0_r, (Z.shiftr_div_pow2 dest), Z.div_small by lia. apply Z.lor_0_r. }
  assert (0 <= id) as Hi by (apply Z.lor_nonneg; split; [apply Z.shiftl_nonneg|]; lia).
  split_and!; [done| |done|].
  - rewrite Z.shiftr_div_pow2 in E by lia. pose proof (Z.div_mod id (2 ^ 8) ltac:(lia)).
    pose proof (Z.mod_pos_bound id (2 ^ 8) ltac:(lia)). lia.
  - unfold id. rewrite Z.land_lor_distr_l. change 0x7f with (Z.ones 7). rewrite !Z.land_ones by lia.
    rewrite Z.shiftl_mul_pow2 by lia. replace (source * 2 ^ 8) with (source * 2 * 2 ^ 7) by lia.
    rewrite Z.mod_mul, Z.lor_0_l, Z.mod_small by lia. done.
Qed.

(** ** Clients of a frame stream

    A client reads one frame at a time; the stream brings bytes while it is read;
    timer and cancellation may come at any time, and so may writes. *)
Inductive event :=
  | Ask (frame : Frame.Frame) (timeout : Z)
  | Send (frames : list Frame.Frame)
  | Arrive (data : list byte)
  | Timer (canceled : bool)
  | Cancel.

(** What an event brings, what the callbacks of reads deliver, and what goes out. *)
Definition arrived (e : event) : list byte := match e with Arrive data => data | _ => [] end.
Definition delivered (o : output) : list Frame.Frame := match o with ReadPosted 0 (Some f) => [f] | _ => [] end.
Definition started (o : output) : list byte := match o with StartWrite data => data | _ => [] end.

Section runs.
Context {State : Type} (handle : event -> State -> outcome (State * list output)) (possible : event -> State -> bool).

Fixpoint run (es : list event) (s : State) : outcome (State * list output) :=
  match es with
  | [] => Done (s, [])
  | e :: es =>
      '(s, out) ← handle e s;
      '(s, more) ← run es s;
      Done (s, out ++ more)
  end.

(** Every event is one that can come where it does. *)
Fixpoint legal (es : list event) (s : State) : bool :=
  match es with
  | [] => true
  | e :: es => possible e s && match handle e s with Done (s, _) => legal es s | Faulted _ => true end
  end.

(** The last event, and those in front of it. *)
Lemma run_last es e s s' out : run (es ++ [e]) s = Done (s', out) ->
  exists s1 o1 o2, run es s = Done (s1, o1) /\ handle e s1 = Done (s', o2) /\ out = o1 ++ o2.
Proof.
  revert s out. induction es as [|e' es IH]; intros s out; cbn [run app].
  - destruct (handle e s) as [[s1 o1]|] eqn:E; [|done]. rewrite !bind_done. intros [= <- <-].
    eexists _, [], _. split; [done|]. split; [done|]. by rewrite app_nil_r.
  - destruct (handle e' s) as [[s1 o1]|]; [|done]. rewrite !bind_done. cbn beta iota.
    destruct (run (es ++ [e]) s1) as [[s2 o2]|] eqn:E2; [|done]. rewrite bind_done. intros [= <- <-].
    destruct (IH _ _ E2) as (s3 & o3 & o4 & -> & E4 & ->). rewrite bind_done. eexists _, _, _. split; [done|]. split; [done|].
    by rewrite app_assoc.
Qed.

Lemma legal_last es e s s1 o1 : legal (es ++ [e]) s = true -> run es s = Done (s1, o1) -> legal es s = true /\ possible e s1 = true.
Proof.
  revert s o1. induction es as [|e' es IH]; intros s o1; cbn [run app legal].
  - intros [H _]%andb_true_iff [= <- <-]. done.
  - intros [H1 H2]%andb_true_iff. rewrite H1. destruct (handle e' s) as [[s2 o2]|]; [|done]. rewrite bind_done. cbn beta iota.
    destruct (run es s2) as [[s3 o3]|] eqn:E; [|done]. rewrite bind_done. intros [= -> <-]. cbn [andb]. by eapply IH.
Qed.

(** An invariant of what has come, what has been delivered and the state, kept by
    every event as long as what has come is [fine]. *)
Context (inv : list byte -> list Frame.Frame -> State -> Prop) (fine : list byte -> bool) (sent : event -> list byte).
Context (fine_front : forall a b, fine (a ++ b) = true -> fine a = true).
Context (handle_keeps : forall e got fs s,
  inv got fs s -> possible e s = true -> fine (got ++ arrived e) = true ->
  exists s' out, handle e s = Done (s', out) /\ inv (got ++ arrived e) (fs ++ concat (map delivered out)) s' /\
    concat (map started out) = sent e).

Lemma run_keeps es : forall got fs s,
  inv got fs s -> legal es s = true -> fine (got ++ concat (map arrived es)) = true ->
  exists s' out, run es s = Done (s', out) /\
    inv (got ++ concat (map arrived es)) (fs ++ concat (map delivered out)) s' /\
    concat (map started out) = concat (map sent es).
Proof.
  induction es as [|e es IH]; intros got fs s Hi Hp Hs; cbn [run map concat legal] in *.
  { exists s, []. cbn. by rewrite !app_nil_r. }
  apply andb_true_iff in Hp as [Hp Hl]. rewrite app_assoc in Hs.
  destruct (handle_keeps e got fs s Hi Hp) as (s1 & out & E & Hi1 & Ho); [by eapply fine_front|].
  rewrite E in *. rewrite bind_done. cbn beta iota.
  destruct (IH _ _ _ Hi1 Hl Hs) as (s2 & more & -> & Hi2 & Hm). rewrite bind_done. cbn beta iota.
  eexists _, _. split; [done|]. rewrite !map_app, !concat_app, Ho, Hm, !app_assoc. done.
Qed.
End runs.
