(* ===== verification/Rs485FrameStream.v ===== *)
(** * multiplex/rs485_frame_stream.cc: frames on a serial line, the host's side

    [Rs485FrameStream::Impl] keeps what it has received in a [streambuf] and
    looks for frames in it when there is a client that waits for one.  The frame
    of the client is written into while a frame is looked for. *)
From S2P Require Import Prelude Streams MultiplexStream Register FrameStream.
Import Format.
#[local] Open Scope Z_scope.

Module Rs485FrameStream.

Definition kBlockSize : Z := 4096.

Abbreviation reader := (CrcStream.reader StreambufReadStream.t).

Section Impl.
Context `{CrcType}.

Record State := {
  write_buffer : FastOStringStream.vector;
  read_outstanding : bool;
  streambuf : list byte;
  current_frame : option Frame.Frame;
  current_callback : bool;
}.

Definition make : State :=
  {| write_buffer := FastOStringStream.empty; read_outstanding := false; streambuf := [];
     current_frame := None; current_callback := false |}.

Definition with_write_buffer (b : FastOStringStream.vector) (s : State) : State :=
  {| write_buffer := b; read_outstanding := read_outstanding s; streambuf := streambuf s;
     current_frame := current_frame s; current_callback := current_callback s |}.
Definition with_outstanding (o : bool) (s : State) : State :=
  {| write_buffer := write_buffer s; read_outstanding := o; streambuf := streambuf s;
     current_frame := current_frame s; current_callback := current_callback s |}.
Definition with_streambuf (b : list byte) (s : State) : State :=
  {| write_buffer := write_buffer s; read_outstanding := read_outstanding s; streambuf := b;
     current_frame := current_frame s; current_callback := current_callback s |}.
Definition with_current (f : option Frame.Frame) (c : bool) (s : State) : State :=
  {| write_buffer := write_buffer s; read_outstanding := read_outstanding s; streambuf := streambuf s;
     current_frame := f; current_callback := c |}.

(** ** Writing *)
Definition AsyncWrite (frame : Frame.Frame) (s : State) : outcome (State * list output) :=
  b ← Frame.encode frame (FastOStringStream.clear (write_buffer s));
  Done (with_write_buffer b s, [StartWrite (FastOStringStream.str b)]).

Fixpoint encode_all (frames : list Frame.Frame) (b : FastOStringStream.vector)
    : outcome FastOStringStream.vector :=
  match frames with
  | [] => Done b
  | frame :: frames => b ← Frame.encode frame b; encode_all frames b
  end.

Definition AsyncWriteMultiple (frames : list Frame.Frame) (s : State) : outcome (State * list output) :=
  b ← encode_all frames (FastOStringStream.clear (write_buffer s));
  Done (with_write_buffer b s, [StartWrite (FastOStringStream.str b)]).

(** ** Looking for a frame *)
Fixpoint DiscardUntil (value : Z) (streambuf : list byte) : list byte :=
  match streambuf with
  | [] => []
  | c :: rest => if byte.unsigned c =? value then streambuf else DiscardUntil value rest
  end.

Definition consume (size : Z) (streambuf : list byte) : list byte := zdrop size streambuf.

(** [std::string::resize], and the read over its first bytes. *)
Definition resize (n : Z) (payload : list byte) : list byte :=
  if zlen payload <? n then payload ++ replicate (Z.to_nat (n - zlen payload)) (byte.of_Z 0)
  else ztake n payload.
Definition overwrite (data payload : list byte) : list byte := data ++ zdrop (zlen data) payload.

Definition with_source (id : Z) (f : Frame.Frame) : Frame.Frame :=
  {| Frame.source_id := Z.land id 0x7f; Frame.request_reply := negb (Z.land id 0x80 =? 0);
     Frame.dest_id := Frame.dest_id f; Frame.payload := Frame.payload f |}.
Definition with_dest (id : Z) (f : Frame.Frame) : Frame.Frame :=
  {| Frame.source_id := Frame.source_id f; Frame.request_reply := Frame.request_reply f;
     Frame.dest_id := id; Frame.payload := Frame.payload f |}.
Definition with_payload (p : list byte) (f : Frame.Frame) : Frame.Frame :=
  {| Frame.source_id := Frame.source_id f; Frame.request_reply := Frame.request_reply f;
     Frame.dest_id := Frame.dest_id f; Frame.payload := p |}.

(** How a round of the loop ends: it waits for more, or starts again behind two
    bytes, or has found a frame. *)
Inductive round := More | Again | Found (offset : Z).

(** The part of a round behind the size. *)
Definition ReadPayload (crc_stream : reader) (payload_size : Z) (frame : Frame.Frame)
    : outcome (round * Frame.Frame) :=
  if StreambufReadStream.remaining (CrcStream.rbase crc_stream) <? u32 (payload_size + 2) then Done (More, frame)
  else
    '(data, crc_stream) ← CrcStream.reader_read crc_stream payload_size;
    let frame := with_payload (overwrite data (resize payload_size (Frame.payload frame))) frame in
    let calculated_checksum := u16 (CrcStream.reader_checksum crc_stream) in
    '(read_checksum, crc_stream) ← GenericReader.ReadScalar 2 crc_stream;
    match read_checksum with
    | None => Faulted Undefined
    | Some read_checksum =>
        if negb (calculated_checksum =? le_combine read_checksum) then Done (Again, frame)
        else Done (Found (StreambufReadStream.offset (CrcStream.rbase crc_stream)), frame)
    end.

Definition ParseRound (streambuf : list byte) (frame : Frame.Frame) : outcome (round * Frame.Frame) :=
  let stream := StreambufReadStream.make streambuf in
  let crc_stream : reader := CrcStream.make_reader stream in
  '(maybe_header, crc_stream) ← GenericReader.ReadScalar 2 crc_stream;
  match maybe_header with
  | None => Done (More, frame)
  | Some header =>
      if negb (le_combine header =? kHeader) then Done (Again, frame)
      else
      '(maybe_source_id, crc_stream) ← GenericReader.ReadScalar 1 crc_stream;
      match maybe_source_id with
      | None => Done (More, frame)
      | Some source_id =>
          let frame := with_source (le_combine source_id) frame in
          '(maybe_dest_id, crc_stream) ← GenericReader.ReadScalar 1 crc_stream;
          match maybe_dest_id with
          | None => Done (More, frame)
          | Some dest_id =>
              let frame := with_dest (le_combine dest_id) frame in
              '(maybe_payload_size, crc_stream) ← GenericReader.ReadVaruint crc_stream;
              match maybe_payload_size with
              | None => Done (More, frame)
              | Some payload_size => ReadPayload crc_stream payload_size frame
              end
          end
      end
  end.

(** With whether a frame was found. *)
Fixpoint ParseFrame_loop (fuel : nat) (streambuf : list byte) (frame : Frame.Frame)
    : outcome (bool * list byte * Frame.Frame) :=
  match fuel with
  | O => Faulted OutOfFuel
  | S fuel =>
      let streambuf := DiscardUntil (Z.land kHeader 0xff) streambuf in
      '(r, frame) ← ParseRound streambuf frame;
      match r with
      | More => Done (false, streambuf, frame)
      | Again => ParseFrame_loop fuel (consume 2 streambuf) frame
      | Found offset => Done (true, consume offset streambuf, frame)
      end
  end.

Definition ParseFrame (s : State) : outcome (State * list output) :=
  match current_frame s with
  | None => Faulted Assertion
  | Some frame =>
      '(found, b, frame) ← ParseFrame_loop (S (length (streambuf s))) (streambuf s) frame;
      let s := with_streambuf b s in
      if found : bool then Done (with_current None false s, [ReadPosted 0 (Some frame)])
      else Done (with_current (Some frame) (current_callback s) s, [])
  end.

(** ** Reading *)
Definition MaybeStartRead (s : State) : outcome (State * list output) :=
  if read_outstanding s then Done (s, [])
  else if negb (current_callback s) then Done (s, [])
  else
    '(s, out) ← ParseFrame s;
    if negb (current_callback s) then Done (s, out)
    else Done (with_outstanding true s, out ++ [StartRead kBlockSize]).

Definition AsyncRead (frame : Frame.Frame) (timeout : Z) (s : State) : outcome (State * list output) :=
  _ ← mj_assert (match current_frame s with None => true | _ => false end);
  _ ← mj_assert (negb (current_callback s));
  let s := with_current (Some frame) true s in
  let timer := if timeout =? 0 then TimerCancel else TimerStart timeout in
  '(s, out) ← MaybeStartRead s;
  Done (s, timer :: out).

Definition HandleRead (ec : Z) (data : list byte) (s : State) : outcome (State * list output) :=
  _ ← FailIf ec;
  let s := with_outstanding false (with_streambuf (streambuf s ++ data) s) in
  '(s, out) ← (if current_callback s then ParseFrame s else Done (s, []));
  '(s, more) ← MaybeStartRead s;
  Done (s, out ++ more).

Definition HandleTimer (ec : Z) (s : State) : outcome (State * list output) :=
  if ec =? kAborted then Done (s, [])
  else
    _ ← FailIf ec;
    if current_callback s then
      match current_frame s with
      | None => Faulted Assertion
      | Some frame => Done (with_current None false s, [ReadCalled kAborted (Some frame)])
      end
    else Done (s, []).

Definition cancel (s : State) : outcome (State * list output) :=
  if current_callback s then Done (with_current None false s, [ReadPosted kAborted (current_frame s)])
  else Done (s, []).

Definition read_data_queued (s : State) : bool := 0 <? zlen (streambuf s).
End Impl.
End Rs485FrameStream.
