(* ===== verification/Rs485Theory.v ===== *)
(** * What the frame stream of a serial line guarantees

    A reference decoder of a whole byte string, and the frame stream as a
    refinement of it: whatever the chunks, timeouts and cancellations, the frames
    that reads bring are those of the decoder, in order; and a read that waits has
    got all there are. *)
From S2P Require Import Prelude Varuint Streams MultiplexStream Register MicroServer MicroStreamDatagram DatagramTransport.
From S2P Require Import FrameStream Rs485FrameStream.
Import Format Rs485FrameStream.
#[local] Open Scope Z_scope.

(** ** The decoder *)
Section decoder.
Context `{CrcType}.

(** What is at the start of a byte string: nothing yet, with what is kept; no
    frame, with where to go on; a frame, and what follows; or a size so large that
    adding the two bytes of the checksum wraps around. *)
Inductive seen :=
  | SWait (rest : list byte)
  | SAgain (rest : list byte)
  | SFound (f : Frame.Frame) (rest : list byte)
  | SBroken.

Definition see_payload (l : list byte) (src dst : byte) (n : Z) (rest : list byte) : seen :=
  if 2 ^ 32 - 2 <=? n then SBroken
  else if zlen rest <? n + 2 then SWait l
  else if u16 (crc_of (ztake (zlen l - zlen rest + n) l)) =? le_combine (ztake 2 (zdrop n rest))
  then SFound {| Frame.source_id := Z.land (byte.unsigned src) 0x7f;
                 Frame.request_reply := negb (Z.land (byte.unsigned src) 0x80 =? 0);
                 Frame.dest_id := byte.unsigned dst; Frame.payload := ztake n rest |} (zdrop (n + 2) rest)
  else SAgain (zdrop 2 l).

Definition see (received : list byte) : seen :=
  let l := skip_to_header received in
  match l with
  | _ :: b1 :: t =>
      if negb (byte.unsigned b1 =? 0xab) then SAgain t
      else
      match t with
      | src :: dst :: t =>
          let '(maybe_size, rest) := read_varuint_ref t in
          match maybe_size with
          | None => SWait l
          | Some n => see_payload l src dst n rest
          end
      | _ => SWait l
      end
  | _ => SWait l
  end.

(** All frames of a byte string, and whether no size was too large. *)
Fixpoint decode (fuel : nat) (l : list byte) : list Frame.Frame * bool :=
  match fuel with
  | O => ([], false)
  | S fuel =>
      match see l with
      | SWait _ => ([], true)
      | SAgain rest => decode fuel rest
      | SFound f rest => let '(fs, b) := decode fuel rest in (f :: fs, b)
      | SBroken => ([], false)
      end
  end.

Definition frames_in (l : list byte) : list Frame.Frame := (decode (S (length l)) l).1.
Definition sound_in (l : list byte) : bool := (decode (S (length l)) l).2.

Lemma skip_app_header a b x t : skip_to_header a = x :: t -> skip_to_header (a ++ b) = (x :: t) ++ b.
Proof.
  induction a as [|y a IH]; [done|]. cbn [skip_to_header app]. case_match; [|done]. by intros [= -> ->].
Qed.

Lemma skip_length a : (length (skip_to_header a) <= length a)%nat.
Proof. pose proof (zlen_skip a). unfold zlen in *. lia. Qed.

Lemma see_skip l : see (skip_to_header l) = see l.
Proof. unfold see. by rewrite skip_idem. Qed.

(** What a round leaves is shorter, or the same when it waits. *)
Lemma see_shorter l :
  match see l with
  | SWait rest => rest = skip_to_header l
  | SAgain rest | SFound _ rest => (length rest < length l)%nat
  | SBroken => True
  end.
Proof.
  unfold see. pose proof (skip_length l) as Hl.
  destruct (skip_to_header l) as [|b0 [|b1 t]] eqn:E; [done..|]. cbn [length] in Hl.
  destruct (negb _); [cbn; lia|]. destruct t as [|src [|dst t]]; [done..|].
  destruct (read_varuint_ref t) as [[n|] rest] eqn:Ev; [|done]. unfold see_payload.
  pose proof (read_varuint_ref_le t) as Hr. rewrite Ev in Hr. cbn [snd] in Hr. cbn [length] in Hl.
  repeat case_match; simplify_eq; try done; unfold zdrop; rewrite ?length_drop; unfold zlen in *; cbn [length] in *; lia.
Qed.

Lemma decode_more fuel : forall fuel' l, (length l < fuel)%nat -> (length l < fuel')%nat -> decode fuel l = decode fuel' l.
Proof.
  induction fuel as [|fuel IH]; intros [|fuel'] l H1 H2; try lia. cbn [decode].
  pose proof (see_shorter l). case_match; try done; [apply IH; lia|by rewrite (IH fuel') by lia].
Qed.

Lemma frames_in_eq l : frames_in l =
  match see l with
  | SWait _ | SBroken => []
  | SAgain rest => frames_in rest
  | SFound f rest => f :: frames_in rest
  end.
Proof.
  unfold frames_in at 1. cbn [decode]. pose proof (see_shorter l). unfold frames_in.
  destruct (see l); try done; rewrite (decode_more (length l) (S (length rest))) by lia; [done|].
  by destruct (decode (S (length rest)) rest).
Qed.

Lemma sound_in_eq l : sound_in l =
  match see l with
  | SWait _ => true
  | SBroken => false
  | SAgain rest | SFound _ rest => sound_in rest
  end.
Proof.
  unfold sound_in at 1. cbn [decode]. pose proof (see_shorter l). unfold sound_in.
  destruct (see l); try done; rewrite (decode_more (length l) (S (length rest))) by lia; [done|].
  by destruct (decode (S (length rest)) rest).
Qed.
End decoder.

(** ** More bytes do not change what was found *)
Section extension.
Context `{CrcType}.

Lemma varuint_ref_app n : forall l acc pos v rest m,
  varuint_ref n l acc pos = (Some v, rest) -> varuint_ref n (l ++ m) acc pos = (Some v, rest ++ m).
Proof.
  induction n as [|n IH]; intros l acc pos v rest m; cbn [varuint_ref]; [by intros [= <- <-]|].
  destruct l as [|b l]; [done|]. cbn [app]. case_match; [apply IH|]. by intros [= <- <-].
Qed.

Lemma see_payload_app l src dst n rest m :
  zlen rest <= zlen l -> 0 <= n ->
  match see_payload l src dst n rest with
  | SWait _ => True
  | SAgain r => see_payload (l ++ m) src dst n (rest ++ m) = SAgain (r ++ m)
  | SFound f r => see_payload (l ++ m) src dst n (rest ++ m) = SFound f (r ++ m)
  | SBroken => see_payload (l ++ m) src dst n (rest ++ m) = SBroken
  end.
Proof.
  intros Hl Hn. unfold see_payload. destruct (_ <=? n); [done|]. rewrite !zlen_app.
  pose proof (zlen_nonneg m). pose proof (zlen_nonneg rest).
  destruct (Z.ltb_spec (zlen rest) (n + 2)) as [|Hr]; [done|]. rewrite (proj2 (Z.ltb_ge _ _)) by lia.
  replace (zlen l + zlen m - (zlen rest + zlen m) + n) with (zlen l - zlen rest + n) by lia.
  rewrite (ztake_app_le _ l m), (ztake_app_le n rest m) by lia.
  rewrite (zdrop_app_le n rest m), (zdrop_app_le (n + 2) rest m) by lia.
  rewrite ztake_app_le by (rewrite zlen_drop; lia).
  destruct (_ =? _); [done|]. by rewrite zdrop_app_le by lia.
Qed.

Lemma see_app l m :
  match see l with
  | SWait r => see (r ++ m) = see (l ++ m)
  | SAgain r => see (l ++ m) = SAgain (r ++ m)
  | SFound f r => see (l ++ m) = SFound f (r ++ m)
  | SBroken => see (l ++ m) = SBroken
  end.
Proof.
  destruct (see l) eqn:E; try by rewrite <- (see_skip (rest ++ m)), <- (see_skip (l ++ m));
    pose proof (see_shorter l) as Hs; rewrite E in Hs; rewrite Hs, skip_skip.
  all: unfold see in *; destruct (skip_to_header l) as [|b0 [|b1 t]] eqn:Es; try done;
    erewrite skip_app_header by done; cbn [app]; destruct (negb _); [simplify_eq; done|];
    destruct t as [|src [|dst t]]; try done; cbn [app];
    destruct (read_varuint_ref t) as [[n|] rest'] eqn:Ev; try done;
    unfold read_varuint_ref in *; rewrite (varuint_ref_app _ _ _ _ _ _ m Ev).
  all: pose proof (see_payload_app (b0 :: b1 :: src :: dst :: t) src dst n rest' m) as Hp; rewrite E in Hp;
    apply Hp; [|by apply (varuint_ref_range 5 t 0 0); rewrite Ev].
  all: pose proof (read_varuint_ref_le t) as Hr; unfold read_varuint_ref in Hr; rewrite Ev in Hr;
    rewrite !zlen_cons; cbn [snd] in Hr; lia.
Qed.

(** What a part of the bytes says, before the rest has come. *)
Lemma frames_in_app_wait l r m : see l = SWait r -> frames_in (l ++ m) = frames_in (r ++ m) /\ sound_in (l ++ m) = sound_in (r ++ m).
Proof.
  intros E. pose proof (see_app l m) as Ha. rewrite E in Ha.
  by rewrite (frames_in_eq (l ++ m)), (frames_in_eq (r ++ m)), (sound_in_eq (l ++ m)), (sound_in_eq (r ++ m)), Ha.
Qed.

Lemma frames_in_app_again l r m : see l = SAgain r -> frames_in (l ++ m) = frames_in (r ++ m) /\ sound_in (l ++ m) = sound_in (r ++ m).
Proof.
  intros E. pose proof (see_app l m) as Ha. rewrite E in Ha.
  by rewrite (frames_in_eq (l ++ m)), (sound_in_eq (l ++ m)), Ha.
Qed.

Lemma frames_in_app_found l f r m : see l = SFound f r ->
  frames_in (l ++ m) = f :: frames_in (r ++ m) /\ sound_in (l ++ m) = sound_in (r ++ m).
Proof.
  intros E. pose proof (see_app l m) as Ha. rewrite E in Ha.
  by rewrite (frames_in_eq (l ++ m)), (sound_in_eq (l ++ m)), Ha.
Qed.

Lemma sound_prefix k : forall l m, (length l < k)%nat -> sound_in (l ++ m) = true -> sound_in l = true.
Proof.
  induction k as [|k IH]; intros l m Hl; [lia|]. rewrite (sound_in_eq l), (sound_in_eq (l ++ m)).
  pose proof (see_app l m) as Ha. pose proof (see_shorter l) as Hs.
  destruct (see l); [done|..]; rewrite Ha; [apply IH; lia..|done].
Qed.

(** What the decoder makes of the bytes of a frame. *)
Definition frame_sendable (f : Frame.Frame) : Prop :=
  in_u 7 (Frame.source_id f) /\ in_u 8 (Frame.dest_id f) /\ zlen (Frame.payload f) < 2 ^ 32 - 2.

Lemma see_frame f rest : frame_sendable f -> see (frame_bytes f ++ rest) = SFound f rest.
Proof.
  intros (Hs & Hd & Hp). destruct (source_bits _ (Frame.request_reply f) Hs) as (Hs8 & Hb1 & Hb2). fold (frame_source f) in *.
  pose proof (zlen_nonneg (Frame.payload f)). pose proof (zlen_nonneg rest).
  set (p := Frame.payload f) in *. set (crc := le_split 2 (u16 (crc_of (frame_head f)))).
  assert (E : frame_bytes f ++ rest = byte.of_Z 0x54 :: byte.of_Z 0xab :: byte.of_Z (frame_source f) ::
     byte.of_Z (Frame.dest_id f) :: vu_bytes 5 (zlen p) ++ (p ++ crc ++ rest)).
  { rewrite frame_bytes_split. unfold frame_tail. simpl. by rewrite <- !app_assoc. }
  unfold see. assert (skip_to_header (frame_bytes f ++ rest) = frame_bytes f ++ rest) as ->
    by (rewrite E; reflexivity).
  rewrite E at 1. change (negb (byte.unsigned (byte.of_Z 171) =? 171)) with false. cbn iota.
  rewrite read_varuint_ref_bytes by (unfold in_u; lia). unfold see_payload.
  rewrite (proj2 (Z.leb_gt _ _)) by lia. rewrite !zlen_app. change (zlen crc) with 2.
  rewrite (proj2 (Z.ltb_ge _ (zlen p + 2))) by lia.
  replace (zlen (frame_bytes f) + zlen rest - (zlen p + (2 + zlen rest)) + zlen p) with (zlen (frame_bytes f) - 2) by lia.
  assert (ztake (zlen (frame_bytes f) - 2) (frame_bytes f ++ rest) = frame_head f) as ->.
  { unfold frame_bytes. rewrite <- app_assoc. apply ztake_app_full.
    unfold frame_bytes. rewrite zlen_app, zlen_le_split. lia. }
  rewrite zdrop_app_len, ztake_app_full by done. unfold crc at 1. rewrite le_combine_split.
  change (2 ^ (Z.of_nat 2 * 8)) with (2 ^ 16). unfold uwrap at 2. rewrite Z.mod_mod, Z.eqb_refl by done.
  rewrite !unsigned_of_Z8, ztake_app_len, Hb1, Hb2 by done.
  f_equal; [by destruct f|]. rewrite app_assoc. apply zdrop_app_full. by rewrite zlen_app.
Qed.

(** Frames with any bytes among which no header starts in front of each. *)
Fixpoint line (l : list (list byte * Frame.Frame)) (after : list byte) : list byte :=
  match l with
  | [] => after
  | (junk, f) :: l => junk ++ frame_bytes f ++ line l after
  end.

Lemma line_decodes l after :
  Forall (fun jf => no_header jf.1 /\ frame_sendable jf.2) l -> no_header after ->
  frames_in (line l after) = map snd l /\ sound_in (line l after) = true.
Proof.
  intros Hl Ha. induction Hl as [|[junk f] l [Hj Hf] _ IH].
  - cbn [line map]. rewrite frames_in_eq, sound_in_eq. pose proof (skip_junk after [] Ha) as Hs.
    rewrite app_nil_r in Hs. unfold see. by rewrite Hs.
  - cbn [line map fst snd] in *. assert (see (junk ++ frame_bytes f ++ line l after) = SFound f (line l after)) as E.
    { by rewrite <- see_skip, skip_junk, see_skip, see_frame. }
    rewrite frames_in_eq, sound_in_eq, E. destruct IH as [-> ->]. done.
Qed.
End extension.

(** ** A round of the loop sees what the decoder sees *)
Section rounds.
Context `{CrcLaws}.

(** The reader somewhere in [l], with the checksum of what is in front of it. *)
Definition stands (l : list byte) (r : reader) : Prop :=
  StreambufReadStream.buffer (CrcStream.rbase r) = l /\ StreambufReadStream.ok (CrcStream.rbase r) /\
  CrcStream.rcrc r = process_bytes crc_init (ztake (StreambufReadStream.current (CrcStream.rbase r)) l).

Lemma stands_start l : stands l (CrcStream.make_reader (StreambufReadStream.make l)).
Proof.
  split_and!; [done| |cbn; by rewrite ztake_0, process_nil].
  split; cbn; [lia|apply zlen_nonneg].
Qed.

Lemma stands_read l r n d r' : stands l r -> 0 <= n -> CrcStream.reader_read r n = Done (d, r') -> stands l r'.
Proof.
  intros (El & (Ho1 & Ho2) & Ec) Hn. unfold CrcStream.reader_read, rs_read, StreambufReadStream.stream, StreambufReadStream.read.
  rewrite bind_done. intros [= <- <-]. unfold StreambufReadStream.remaining, stands, StreambufReadStream.ok. cbn. rewrite El in *.
  set (c := StreambufReadStream.current (CrcStream.rbase r)) in *. split_and!; [done|lia|lia|].
  rewrite Ec, <- process_app. f_equal. unfold ztake, zdrop. rewrite take_take_drop. f_equal. lia.
Qed.

Lemma stands_scalar l r n x r' : stands l r -> GenericReader.ReadScalar n r = Done (x, r') -> stands l r'.
Proof.
  intros Hs. unfold GenericReader.ReadScalar, GenericReader.RawRead. cbn [rs_read CrcStream.reader_stream].
  destruct (CrcStream.reader_read r (Z.of_nat n)) as [[d r1]|] eqn:E; [|done].
  rewrite bind_done. intros [= _ <-]. eapply stands_read; [exact Hs| |exact E]. lia.
Qed.

Lemma stands_varuint l n : forall r acc pos x r',
  stands l r -> GenericReader.ReadVaruint_loop n r acc pos = Done (x, r') -> stands l r'.
Proof.
  induction n as [|n IH]; intros r acc pos x r' Hs; cbn [GenericReader.ReadVaruint_loop]; [by intros [= _ <-]|].
  destruct (GenericReader.ReadScalar 1 r) as [[y r1]|] eqn:E; [|done]. rewrite bind_done. cbn beta iota.
  pose proof (stands_scalar _ _ _ _ _ Hs E) as Hs1. destruct y as [bs|]; [|by intros [= _ <-]].
  cbv zeta. case_match; [by intros [= _ <-]|]. by apply IH.
Qed.

Lemma stands_position l r : stands l r ->
  rs_valid r /\ StreambufReadStream.current (CrcStream.rbase r) = zlen l - zlen (rs_rest r) /\
  rs_rest r = zdrop (zlen l - zlen (rs_rest r)) l.
Proof.
  intros (El & Ho & _). split; [exact Ho|]. destruct Ho as [Ho1 Ho2].
  cbn [rs_rest CrcStream.reader_laws StreambufReadStream.laws]. rewrite El in *.
  rewrite zlen_drop by lia. split; [lia|]. f_equal. lia.
Qed.

(** A read of some bytes: there, or not. *)
Lemma scalar_there l r d tail : stands l r -> rs_rest r = d ++ tail -> exists r',
  GenericReader.ReadScalar (length d) r = Done (Some d, r') /\ stands l r' /\ rs_rest r' = tail.
Proof.
  intros Hs E. destruct (mux_RawRead_took r d tail (proj1 (stands_position _ _ Hs)) E) as (r' & R & _ & E').
  exists r'. split_and!; [exact R|by eapply stands_scalar|done].
Qed.

Lemma scalar_short (r : reader) n : rs_valid r -> zlen (rs_rest r) < Z.of_nat n -> exists r', GenericReader.ReadScalar n r = Done (None, r').
Proof. intros Hv Hn. destruct (mux_RawRead_short r _ Hv Hn) as (r' & R & _). by exists r'. Qed.

Lemma header_matches b1 : (le_combine [byte.of_Z 0x54; b1] =? kHeader) = (byte.unsigned b1 =? 0xab).
Proof. by destruct b1; vm_compute. Qed.

Lemma skip_head l b t : skip_to_header l = b :: t -> b = byte.of_Z 0x54.
Proof.
  induction l as [|x l IH]; [done|]. cbn [skip_to_header]. case_match eqn:E; [|done]. intros [= -> _].
  apply Z.eqb_eq in E. by rewrite <- (byte.of_Z_unsigned b), E.
Qed.

Lemma ReadPayload_sees l r frame n :
  stands l r -> in_u 32 n ->
  forall src dst, Frame.source_id frame = Z.land (byte.unsigned src) 0x7f ->
  Frame.request_reply frame = negb (Z.land (byte.unsigned src) 0x80 =? 0) -> Frame.dest_id frame = byte.unsigned dst ->
  match see_payload l src dst n (rs_rest r) with
  | SWait _ => ReadPayload r n frame = Done (More, frame)
  | SAgain _ => exists frame', ReadPayload r n frame = Done (Again, frame')
  | SFound f rest => exists k, ReadPayload r n frame = Done (Found k, f) /\ zdrop k l = rest
  | SBroken => True
  end.
Proof.
  intros Hs Hn src dst Es Er Ed. unfold see_payload, ReadPayload. destruct (Z.leb_spec (2 ^ 32 - 2) n); [done|].
  destruct (stands_position _ _ Hs) as (Hv & Hp & Hr). unfold StreambufReadStream.remaining.
  rewrite (proj1 Hs), Hp. set (rest := rs_rest r) in *. pose proof (zlen_nonneg rest).
  unfold in_u in Hn. rewrite (uwrap_id 32 (n + 2)) by (unfold in_u; lia).
  replace (zlen l - (zlen l - zlen rest)) with (zlen rest) by lia.
  destruct (Z.ltb_spec (zlen rest) (n + 2)); [done|].
  destruct (rs_read_law r n Hv ltac:(lia)) as (r1 & R1 & V1 & E1 & _). cbn [rs_read CrcStream.reader_stream] in R1.
  rewrite R1, bind_done. cbn beta iota. fold rest in R1, E1.
  pose proof (stands_read _ _ n _ _ Hs (proj1 Hn) R1) as Hs1. destruct (stands_position _ _ Hs1) as (_ & Hp1 & _).
  assert (zlen (rs_rest r1) = zlen rest - n) as Z1 by (rewrite E1, zlen_drop; lia).
  destruct (scalar_there l r1 (ztake 2 (rs_rest r1)) (zdrop 2 (rs_rest r1)) Hs1) as (r2 & R2 & Hs2 & E2);
    [by rewrite ztake_zdrop|].
  replace (length (ztake 2 (rs_rest r1))) with 2%nat in R2
    by (pose proof (zlen_take 2 (rs_rest r1) ltac:(lia)); unfold zlen in *; lia).
  rewrite R2, bind_done. cbn beta iota. unfold CrcStream.reader_checksum. rewrite (proj2 (proj2 Hs1)), Hp1, Z1.
  rewrite E1. fold (crc_of (ztake (zlen l - (zlen rest - n)) l)).
  replace (zlen l - (zlen rest - n)) with (zlen l - zlen rest + n) by lia.
  destruct (u16 _ =? le_combine _); cbn [negb]; cbn iota; [|by eexists].
  destruct (stands_position _ _ Hs2) as (_ & Hp2 & _). unfold StreambufReadStream.offset.
  assert (zlen (rs_rest r2) = zlen rest - n - 2) as Z2 by (rewrite E2, zlen_drop; lia).
  exists (StreambufReadStream.current (CrcStream.rbase r2)). assert (zlen rest <= zlen l) by (destruct Hs as (_ & [Ho _] & _); lia).
  split; [|rewrite Hp2, Z2; rewrite Hr at 2; rewrite zdrop_zdrop by lia; f_equal; lia].
  do 2 f_equal. unfold with_payload. rewrite Es, Er, Ed. f_equal.
  fold rest. unfold overwrite, resize. assert (zlen (ztake n rest) = n) as -> by (rewrite zlen_take; lia).
  rewrite zdrop_ge; [by rewrite app_nil_r|]. case_match; rewrite ?zlen_app, ?zlen_replicate, ?zlen_take; lia.
Qed.

Lemma ParseRound_sees received frame :
  let l := skip_to_header received in
  match see received with
  | SWait _ => exists frame', ParseRound l frame = Done (More, frame')
  | SAgain rest => exists frame', ParseRound l frame = Done (Again, frame') /\ rest = zdrop 2 l
  | SFound f rest => exists k, ParseRound l frame = Done (Found k, f) /\ zdrop k l = rest
  | SBroken => True
  end.
Proof.
  cbv zeta. unfold see. set (l := skip_to_header received) in *.
  pose proof (stands_start l) as Hs. unfold ParseRound. set (r := CrcStream.make_reader _) in *.
  assert (Er : rs_rest r = l) by (cbn; apply zdrop_0). assert (Hv : rs_valid r) by apply Hs.
  destruct l as [|b0 [|b1 t]] eqn:El;
    [destruct (scalar_short r 2 Hv) as (r1 & R1); [by rewrite Er|]; rewrite R1, bind_done; by eexists..|].
  assert (b0 = byte.of_Z 0x54) as -> by by eapply skip_head.
  destruct (scalar_there _ r [byte.of_Z 0x54; b1] t Hs Er) as (r1 & R1 & Hs1 & E1). cbn [length] in R1.
  rewrite R1, bind_done. cbn beta iota. rewrite header_matches. destruct (_ =? 0xab); cbn [negb]; [|by eexists].
  destruct t as [|src t]; [destruct (scalar_short r1 1) as (r2 & R2); [apply Hs1|by rewrite E1|];
    rewrite R2, bind_done; by eexists|].
  destruct (scalar_there _ r1 [src] t Hs1 E1) as (r2 & R2 & Hs2 & E2). cbn [length] in R2.
  rewrite R2, bind_done. cbn beta iota.
  destruct t as [|dst t]; [destruct (scalar_short r2 1) as (r3 & R3); [apply Hs2|by rewrite E2|];
    rewrite R3, bind_done; by eexists|].
  destruct (scalar_there _ r2 [dst] t Hs2 E2) as (r3 & R3 & Hs3 & E3). cbn [length] in R3.
  rewrite R3, bind_done. cbn beta iota. rewrite !le_combine_1.
  destruct (ReadVaruint_ref r3) as (r4 & R4 & _ & E4); [apply Hs3|]. rewrite E3 in R4, E4.
  rewrite R4, bind_done. cbn beta iota. pose proof (stands_varuint _ _ _ _ _ _ _ Hs3 R4) as Hs4.
  destruct (read_varuint_ref t) as [[n|] rest] eqn:Ev; cbn [fst snd] in *; [|by eexists].
  assert (in_u 32 n) as Hn by (apply (varuint_ref_range 5 t 0 0); unfold read_varuint_ref in Ev; by rewrite Ev).
  set (frame' := with_dest _ _).
  pose proof (ReadPayload_sees _ r4 frame' n Hs4 Hn src dst eq_refl eq_refl eq_refl) as P. rewrite E4 in P.
  destruct (see_payload _ src dst n rest) eqn:Ep; [by eexists| |exact P|done].
  destruct P as [f' ->]. exists f'. split; [done|]. unfold see_payload in Ep. repeat case_match; by simplify_eq.
Qed.

Lemma DiscardUntil_skips l : DiscardUntil (Z.land kHeader 0xff) l = skip_to_header l.
Proof. by induction l as [|b l IH]; cbn; [|rewrite IH]. Qed.

(** [b] is what [l] stands for once [fs] have been found. *)
Definition leaves (l : list byte) (fs : list Frame.Frame) (b : list byte) : Prop :=
  forall m, frames_in (l ++ m) = fs ++ frames_in (b ++ m) /\ sound_in (l ++ m) = sound_in (b ++ m).

Lemma ParseFrame_loop_sees fuel : forall l frame, (length l < fuel)%nat -> sound_in l = true ->
  (exists b frame', ParseFrame_loop fuel l frame = Done (false, b, frame') /\ see b = SWait b /\ leaves l [] b) \/
  (exists b f, ParseFrame_loop fuel l frame = Done (true, b, f) /\ leaves l [f] b).
Proof.
  induction fuel as [|fuel IH]; intros l frame Hf Hs; [lia|]. cbn [ParseFrame_loop]. rewrite DiscardUntil_skips.
  pose proof (ParseRound_sees l frame) as R. cbv zeta in R. pose proof (see_shorter l) as Hl.
  rewrite sound_in_eq in Hs. destruct (see l) as [r|r|f r|] eqn:E; [..|done].
  - left. subst r. destruct R as [frame' ->]. rewrite bind_done. cbn beta iota. eexists _, _. split; [done|].
    split; [by rewrite see_skip|]. intros m. by apply frames_in_app_wait.
  - destruct R as (frame' & -> & ->). rewrite bind_done. cbn beta iota. unfold consume.
    destruct (IH (zdrop 2 (skip_to_header l)) frame' ltac:(lia) Hs) as [(b & f' & -> & Hb & Hr)|(b & f' & -> & Hr)]; [left|right];
      eexists _, _; (split; [done|]); [split; [done|]|]; intros m; destruct (Hr m) as [<- <-]; by apply frames_in_app_again.
  - right. destruct R as (k & -> & <-). rewrite bind_done. cbn beta iota. eexists _, _. split; [done|].
    intros m. by apply frames_in_app_found.
Qed.
End rounds.

(** ** The frame stream and its clients *)
Section clients.
Context `{CrcLaws}.

Definition possible (e : event) (s : State) : bool :=
  match e with
  | Ask _ _ => negb (current_callback s)
  | Send frames => forallb (fun f => bool_decide (zlen (Frame.payload f) < 2 ^ 32)) frames
  | Arrive data => read_outstanding s && (0 <? zlen data) && (zlen data <=? kBlockSize)
  | Timer _ | Cancel => true
  end.

Definition handle (e : event) (s : State) : outcome (State * list output) :=
  match e with
  | Ask frame timeout => AsyncRead frame timeout s
  | Send frames => AsyncWriteMultiple frames s
  | Arrive data => HandleRead 0 data s
  | Timer canceled => HandleTimer (if canceled then kAborted else 0) s
  | Cancel => cancel s
  end.

(** What has come stands for what has been delivered and what is kept; a read of
    the stream that is in progress has nothing to find in what is kept, and there
    is one while the client waits. *)
Record inv (got : list byte) (fs : list Frame.Frame) (s : State) : Prop := {
  inv_leaves : leaves got fs (streambuf s);
  inv_reading : read_outstanding s = true -> see (streambuf s) = SWait (streambuf s);
  inv_waiting : current_callback s = true -> read_outstanding s = true;
  inv_frame : if current_callback s then current_frame s <> None else current_frame s = None;
  inv_writer : FastOStringStream.ok (write_buffer s);
}.

Lemma rs485_leaves_refl l : leaves l [] l.
Proof. by split. Qed.

Lemma rs485_leaves_more l fs b m : leaves l fs b -> leaves (l ++ m) fs (b ++ m).
Proof. intros Hl k. rewrite <- !app_assoc. apply Hl. Qed.

Lemma rs485_leaves_trans l fs b fs' b' : leaves l fs b -> leaves b fs' b' -> leaves l (fs ++ fs') b'.
Proof.
  intros H1 H2 m. destruct (H1 m) as [-> ->], (H2 m) as [-> ->]. by rewrite app_assoc.
Qed.

Lemma rs485_leaves_sound l fs b : leaves l fs b -> sound_in l = sound_in b.
Proof. intros Hl. destruct (Hl []) as [_ Hs]. by rewrite !app_nil_r in Hs. Qed.

Lemma rs485_leaves_wait l fs b : leaves l fs b -> see b = SWait b -> frames_in l = fs.
Proof.
  intros Hl Hb. destruct (Hl []) as [Hs _]. rewrite !app_nil_r in Hs. by rewrite Hs, (frames_in_eq b), Hb, app_nil_r.
Qed.

Lemma rs485_leaves_prefix l fs b : leaves l fs b -> fs `prefix_of` frames_in l.
Proof. intros Hl. destruct (Hl []) as [Hs _]. rewrite !app_nil_r in Hs. rewrite Hs. by eexists. Qed.

(** Looking for a frame. *)
Lemma rs485_ParseFrame_keeps got fs s :
  leaves got fs (streambuf s) -> sound_in got = true -> current_callback s = true -> current_frame s <> None ->
  FastOStringStream.ok (write_buffer s) ->
  exists s' out, ParseFrame s = Done (s', out) /\ read_outstanding s' = read_outstanding s /\
    leaves got (fs ++ concat (map delivered out)) (streambuf s') /\ FastOStringStream.ok (write_buffer s') /\
    concat (map started out) = [] /\
    if current_callback s' then out = [] /\ see (streambuf s') = SWait (streambuf s') /\ current_frame s' <> None
    else current_frame s' = None.
Proof.
  intros Hl Hs Hc Hf Hw. unfold ParseFrame. destruct (current_frame s) as [frame|]; [|done].
  rewrite (rs485_leaves_sound _ _ _ Hl) in Hs.
  destruct (ParseFrame_loop_sees (S (length (streambuf s))) (streambuf s) frame ltac:(lia) Hs)
    as [(b & f & -> & Hb & Hr)|(b & f & -> & Hr)]; rewrite bind_done; cbn beta iota; eexists _, _; (split; [done|]);
    cbn; rewrite ?Hc; split_and!; try done; by eapply rs485_leaves_trans.
Qed.

(** Starting a read when the client waits for one. *)
Lemma rs485_MaybeStartRead_keeps got fs s :
  leaves got fs (streambuf s) -> sound_in got = true ->
  (read_outstanding s = true -> see (streambuf s) = SWait (streambuf s)) ->
  (if current_callback s then current_frame s <> None else current_frame s = None) ->
  FastOStringStream.ok (write_buffer s) ->
  exists s' out, MaybeStartRead s = Done (s', out) /\ inv got (fs ++ concat (map delivered out)) s' /\
    concat (map started out) = [].
Proof.
  intros Hl Hs Hr Hf Hw. unfold MaybeStartRead. destruct (read_outstanding s) eqn:Er.
  { exists s, []. split; [done|]. cbn. rewrite app_nil_r. split; [|done]. by constructor; rewrite ?Er. }
  destruct (current_callback s) eqn:Ec; cbn [negb].
  2:{ exists s, []. split; [done|]. cbn. rewrite app_nil_r. split; [|done]. constructor; rewrite ?Er, ?Ec; done. }
  destruct (rs485_ParseFrame_keeps got fs s Hl Hs Ec Hf Hw) as (s1 & out & -> & Er1 & Hl1 & Hw1 & Hs1 & Hc1).
  rewrite bind_done. cbn beta iota. destruct (current_callback s1) eqn:Ec1; cbn [negb]; eexists _, _; (split; [done|]).
  - destruct Hc1 as (-> & Hw' & Hf1). rewrite map_app, concat_app. cbn in *. rewrite app_nil_r in *. split; [|done].
    constructor; cbn; rewrite ?Ec1; done.
  - split; [|done]. constructor; rewrite ?Er1, ?Er, ?Ec1; done.
Qed.

Lemma encode_all_bytes frames : forall b,
  Forall (fun f => zlen (Frame.payload f) < 2 ^ 32) frames -> FastOStringStream.ok b ->
  exists b', encode_all frames b = Done b' /\ FastOStringStream.ok b' /\
    FastOStringStream.str b' = FastOStringStream.str b ++ concat (map frame_bytes frames).
Proof.
  induction frames as [|f frames IH]; intros b Hf Hb; [exists b; cbn; by rewrite app_nil_r|].
  apply Forall_cons_1 in Hf as [Hf Hfs]. cbn [encode_all map concat].
  destruct (encode_spec f b) as (b1 & E1 & V1 & O1); [split; [apply zlen_nonneg|done]|exact Hb|done|].
  rewrite E1, bind_done. destruct (IH b1 Hfs V1) as (b' & -> & V' & O'). exists b'. split_and!; [done..|].
  rewrite O'. cbn in O1. by rewrite O1, app_assoc.
Qed.

Definition sent (e : event) : list byte := match e with Send frames => concat (map frame_bytes frames) | _ => [] end.

Lemma rs485_HandleRead_keeps got fs s data :
  inv got fs s -> read_outstanding s = true -> sound_in (got ++ data) = true ->
  exists s' out, HandleRead 0 data s = Done (s', out) /\ inv (got ++ data) (fs ++ concat (map delivered out)) s' /\
    concat (map started out) = [].
Proof.
  intros [Hl Hr Hw Hf Hb] Ho Hs. unfold HandleRead. cbn [FailIf mj_assert Z.eqb]. rewrite bind_done.
  apply (rs485_leaves_more _ _ _ data) in Hl. set (s0 := with_outstanding false _).
  change (streambuf s ++ data) with (streambuf s0) in Hl.
  change (current_callback s) with (current_callback s0) in *. change (current_frame s) with (current_frame s0) in *.
  change (write_buffer s) with (write_buffer s0) in *. assert (read_outstanding s0 = false) as Er by done.
  clearbody s0. destruct (current_callback s0) eqn:Ec.
  - destruct (rs485_ParseFrame_keeps (got ++ data) fs s0 Hl Hs Ec Hf Hb) as (s1 & out & -> & Er1 & Hl1 & Hw1 & Hs1 & Hc1).
    rewrite bind_done. cbn beta iota.
    destruct (rs485_MaybeStartRead_keeps _ _ s1 Hl1 Hs) as (s2 & more & E2 & Hi & Hs2); [by rewrite Er1, Er|by destruct (current_callback s1); [apply Hc1|]|done|].
    rewrite E2, bind_done. eexists _, _. split; [done|]. rewrite !map_app, !concat_app, Hs1, Hs2, app_assoc. done.
  - rewrite bind_done. cbn beta iota.
    destruct (rs485_MaybeStartRead_keeps _ _ s0 Hl Hs) as (s2 & more & E2 & Hi & Hs2); [by rewrite Er|by rewrite Ec|done|].
    rewrite E2, bind_done. by eexists _, _.
Qed.

Lemma rs485_handle_keeps e got fs s :
  inv got fs s -> possible e s = true -> sound_in (got ++ arrived e) = true ->
  exists s' out, handle e s = Done (s', out) /\ inv (got ++ arrived e) (fs ++ concat (map delivered out)) s' /\
    concat (map started out) = sent e.
Proof.
  intros Hi Hp Hs. destruct e as [frame timeout|frames|data|canceled|]; cbn [handle possible arrived sent] in *;
    rewrite ?app_nil_r in *; [..|pose proof Hi as [Hl Hr Hw Hf Hb]|pose proof Hi as [Hl Hr Hw Hf Hb]].
  - destruct Hi as [Hl Hr Hw Hf Hb]. apply negb_true_iff in Hp. rewrite Hp in Hf. unfold AsyncRead. rewrite Hf, Hp.
    cbn [mj_assert negb]. rewrite !bind_done.
    destruct (rs485_MaybeStartRead_keeps got fs (with_current (Some frame) true s)) as (s' & out & E & Hi & Ho); [done..|].
    rewrite E, bind_done. eexists _, _. split; [done|]. by destruct (timeout =? 0).
  - destruct Hi as [Hl Hr Hw Hf Hb]. unfold AsyncWriteMultiple.
    destruct (encode_all_bytes frames (FastOStringStream.clear (write_buffer s))) as (b & -> & Hb' & Ob).
    + rewrite List.Forall_forall. intros f Hin. rewrite forallb_forall in Hp. by apply (bool_decide_eq_true _), Hp.
    + apply FastOStringStream.ok_clear.
    + rewrite bind_done. eexists _, _. split; [done|]. cbn. rewrite !app_nil_r, Ob. split; [by constructor|done].
  - apply andb_true_iff in Hp as [[Hp _]%andb_true_iff _]. by apply rs485_HandleRead_keeps.
  - unfold HandleTimer. destruct canceled; cbn [kAborted Z.eqb Pos.eqb].
    + exists s, []. cbn. by rewrite app_nil_r.
    + cbn [FailIf mj_assert Z.eqb]. change (0 =? kAborted) with false. cbn iota. rewrite bind_done.
      destruct (current_callback s) eqn:Ec; [destruct (current_frame s) as [f|]; [|done]|exists s, []; cbn; by rewrite app_nil_r].
      eexists _, _. split; [done|]. cbn. rewrite app_nil_r. split; [by constructor|done].
  - unfold cancel. destruct (current_callback s) eqn:Ec; [|exists s, []; cbn; by rewrite app_nil_r].
    eexists _, _. split; [done|]. cbn. rewrite app_nil_r. split; [by constructor|done].
Qed.

Lemma sound_front a b : sound_in (a ++ b) = true -> sound_in a = true.
Proof. apply (sound_prefix (S (length a))). lia. Qed.

Lemma rs485_inv_make : inv [] [] make.
Proof. by constructor. Qed.

(** C24: a host on a serial line.  In any order of reads, writes, bytes that
    arrive in any chunks, timeouts and cancellations, the frame stream refines the
    decoder of the whole byte string: nothing faults as long as no size in it is
    within two of 2^32; the frames that the reads bring are those of the decoder,
    whole and in order; a client that waits has got all there are and the line is
    being read; and what is written are the frames that were sent, one after the
    other. *)
Theorem rs485_refines_decoder (es : list event) :
  legal handle possible es make = true -> sound_in (concat (map arrived es)) = true ->
  exists s out, run handle es make = Done (s, out) /\
    concat (map delivered out) `prefix_of` frames_in (concat (map arrived es)) /\
    (current_callback s = true ->
      concat (map delivered out) = frames_in (concat (map arrived es)) /\ read_outstanding s = true) /\
    concat (map started out) = concat (map sent es).
Proof.
  intros Hl Hs. destruct (run_keeps handle possible inv sound_in sent sound_front rs485_handle_keeps es [] [] make rs485_inv_make Hl Hs) as (s & out & E & Hi & Ho).
  cbn [app] in Hi. exists s, out. split_and!; [done|by eapply rs485_leaves_prefix, inv_leaves| |done].
  intros Hc. pose proof (inv_waiting _ _ _ Hi Hc) as Hr. split; [|done].
  symmetry. eapply rs485_leaves_wait; [apply Hi|by apply (inv_reading _ _ _ Hi)].
Qed.

(** C25: frames go through.  Whatever bytes without the first byte of a header
    are between them, and however the line cuts the whole up, the frames that one
    host sends are received by another one that keeps reading, each once, unchanged
    and in order. *)
Theorem rs485_carries_frames (l : list (list byte * Frame.Frame)) (after : list byte) (es : list event) :
  Forall (fun jf => no_header jf.1 /\ frame_sendable jf.2) l -> no_header after ->
  legal handle possible es make = true -> concat (map arrived es) = line l after ->
  exists s out, run handle es make = Done (s, out) /\
    concat (map delivered out) `prefix_of` map snd l /\
    (current_callback s = true -> concat (map delivered out) = map snd l).
Proof.
  intros Hf Ha Hl E. destruct (line_decodes l after Hf Ha) as [Ef Es]. rewrite <- E in Ef, Es.
  destruct (run_keeps handle possible inv sound_in sent sound_front rs485_handle_keeps es [] [] make rs485_inv_make Hl Es) as (s & out & R & Hi & _). cbn [app] in Hi. rewrite <- Ef.
  exists s, out. split_and!; [done|by eapply rs485_leaves_prefix, inv_leaves|].
  intros Hc. pose proof (inv_waiting _ _ _ Hi Hc) as Hr.
  symmetry. eapply rs485_leaves_wait; [apply Hi|by apply (inv_reading _ _ _ Hi)].
Qed.
End clients.

(** Two frames, one to be answered, with a timeout in the first read and cuts
    inside of a header and of a payload. *)
Definition two_frames : list Frame.Frame :=
  [{| Frame.source_id := 1; Frame.request_reply := true; Frame.dest_id := 2; Frame.payload := map byte.of_Z [0x11; 0x54; 0xab] |};
   {| Frame.source_id := 2; Frame.request_reply := false; Frame.dest_id := 1; Frame.payload := [] |}].
Definition no_frame : Frame.Frame :=
  {| Frame.source_id := 0; Frame.request_reply := false; Frame.dest_id := 0; Frame.payload := [] |}.
Definition two_bytes : list byte := byte.of_Z 7 :: concat (map frame_bytes two_frames).
Definition reading_two : list event :=
  [Ask no_frame 15; Send two_frames; Arrive (ztake 2 two_bytes); Timer false; Ask no_frame 15; Timer true;
   Arrive (ztake 4 (zdrop 2 two_bytes)); Arrive (zdrop 6 two_bytes); Ask no_frame 0; Ask no_frame 0].

Lemma rs485_refines_decoder_witness :
  legal handle possible reading_two make = true /\ frames_in (concat (map arrived reading_two)) = two_frames /\
  exists s out, run handle reading_two make = Done (s, out) /\
    concat (map delivered out) `prefix_of` frames_in (concat (map arrived reading_two)) /\
    (current_callback s = true ->
      concat (map delivered out) = frames_in (concat (map arrived reading_two)) /\ read_outstanding s = true) /\
    concat (map started out) = concat (map sent reading_two).
Proof.
  split; [vm_compute; reflexivity|]. split; [vm_compute; reflexivity|].
  apply (rs485_refines_decoder reading_two); vm_compute; reflexivity.
Defined.

Lemma rs485_carries_frames_witness :
  let l := combine [[byte.of_Z 7]; []] two_frames in
  concat (map arrived reading_two) = line l [] /\
  exists s out, run handle reading_two make = Done (s, out) /\
    concat (map delivered out) `prefix_of` map snd l /\
    (current_callback s = true -> concat (map delivered out) = map snd l).
Proof.
  split; [vm_compute; reflexivity|].
  apply (rs485_carries_frames (combine [[byte.of_Z 7]; []] two_frames) [] reading_two);
    [|by constructor|vm_compute; reflexivity..].
  repeat constructor; vm_compute; discriminate || reflexivity.
Defined.

(** ** What a damaged size does *)
Section damage.
Context `{CrcLaws}.

(** A header with some size. *)
Definition damaged (src dst : byte) (size : list byte) : list byte := byte.of_Z 0x54 :: byte.of_Z 0xab :: src :: dst :: size.

(** A size that is a lie holds up everything behind it: until that many bytes
    have come no frame is found, whichever came in between. *)
Theorem damaged_size_holds_up (src dst : byte) (n : Z) (rest : list byte) :
  in_u 32 n -> n < 2 ^ 32 - 2 -> zlen rest < n + 2 -> frames_in (damaged src dst (vu_bytes 5 n) ++ rest) = [].
Proof.
  intros Hn Hn2 Hr. rewrite frames_in_eq. unfold see, damaged. cbn [app].
  change (skip_to_header (byte.of_Z 0x54 :: ?l)) with (byte.of_Z 0x54 :: l).
  change (negb (byte.unsigned (byte.of_Z 171) =? 171)) with false. cbn iota.
  rewrite read_varuint_ref_bytes by done. unfold see_payload. rewrite (proj2 (Z.leb_gt _ _)), (proj2 (Z.ltb_lt _ _)) by lia. done.
Qed.
Definition ones : list byte := replicate 5 (byte.of_Z 0xff).

Lemma ParseRound_overflow src dst rest frame :
  1 <= zlen rest < 2 ^ 32 -> ParseRound (damaged src dst ones ++ rest) frame = Faulted Undefined.
Proof.
  intros Hn. set (l := damaged src dst ones ++ rest). pose proof (stands_start l) as Hs. unfold ParseRound.
  set (r := CrcStream.make_reader _) in *.
  assert (Er : rs_rest r = [byte.of_Z 0x54; byte.of_Z 0xab] ++ [src] ++ [dst] ++ ones ++ rest) by apply zdrop_0.
  destruct (scalar_there _ r _ _ Hs Er) as (r1 & R1 & Hs1 & E1). cbn [length] in R1. rewrite R1, bind_done. cbn beta iota.
  rewrite header_matches. change (negb _) with false. cbn iota.
  destruct (scalar_there _ r1 _ _ Hs1 E1) as (r2 & R2 & Hs2 & E2). cbn [length] in R2. rewrite R2, bind_done. cbn beta iota.
  destruct (scalar_there _ r2 _ _ Hs2 E2) as (r3 & R3 & Hs3 & E3). cbn [length] in R3. rewrite R3, bind_done. cbn beta iota.
  destruct (ReadVaruint_ref r3) as (r4 & R4 & _ & E4); [apply Hs3|]. rewrite E3 in R4, E4.
  assert (read_varuint_ref (ones ++ rest) = (Some u32_max, rest)) as Ev.
  { unfold read_varuint_ref. rewrite varuint_ref_overlong; [done| |cbn; lia]. repeat constructor. }
  rewrite Ev in R4, E4. cbn [fst snd] in R4, E4. rewrite R4, bind_done. cbn beta iota.
  pose proof (stands_varuint _ _ _ _ _ _ _ Hs3 R4) as Hs4. destruct (stands_position _ _ Hs4) as (V4 & Hp & _).
  unfold ReadPayload, StreambufReadStream.remaining. rewrite (proj1 Hs4), Hp, E4.
  change (u32 (u32_max + 2)) with 1. rewrite (proj2 (Z.ltb_ge _ _)) by lia.
  destruct (rs_read_law r4 u32_max V4 ltac:(done)) as (r5 & R5 & V5 & E5 & _). cbn [rs_read CrcStream.reader_stream] in R5.
  rewrite R5, bind_done. cbn beta iota. destruct (scalar_short r5 2 V5) as (r6 & R6).
  - rewrite E5, E4, zdrop_ge by (unfold u32_max; lia). done.
  - by rewrite R6, bind_done.
Qed.

(** A size of ones, as an idle line has them: the two bytes of the checksum are
    added in 32 bits, the comparison with what is there succeeds, and a checksum
    that is not there is looked at. *)
Theorem damaged_size_undefined (s : State) (frame : Frame.Frame) (src dst : byte) (rest : list byte) :
  current_callback s = true -> current_frame s = Some frame -> streambuf s = [] -> 1 <= zlen rest < 2 ^ 32 ->
  HandleRead 0 (damaged src dst ones ++ rest) s = Faulted Undefined.
Proof.
  intros Hc Hf Hb Hn. unfold HandleRead. cbn [FailIf mj_assert Z.eqb]. rewrite bind_done. cbv zeta.
  cbn [current_callback with_outstanding with_streambuf]. rewrite Hc. unfold ParseFrame.
  cbn [current_frame streambuf with_outstanding with_streambuf]. rewrite Hf, Hb. cbn [app ParseFrame_loop].
  rewrite DiscardUntil_skips. change (skip_to_header (damaged src dst ones ++ rest)) with (damaged src dst ones ++ rest).
  by rewrite ParseRound_overflow.
Qed.
End damage.

Lemma damaged_size_undefined_witness :
  exists s out, run handle [Ask no_frame 15] make = Done (s, out) /\
    HandleRead 0 (damaged (byte.of_Z 1) (byte.of_Z 0) ones ++ [byte.of_Z 0xff]) s = Faulted Undefined.
Proof.
  eexists _, _. split; [vm_compute; reflexivity|].
  eapply (damaged_size_undefined _ no_frame); [reflexivity..|]. split; vm_compute; [discriminate|reflexivity].
Defined.
