(* ===== verification/FdcanusbFrameStream.v ===== *)
(** * multiplex/fdcanusb_frame_stream.cc: frames as lines of text

    [FdcanusbFrameStream::Impl] talks to an adapter for a CAN bus: a frame is sent
    as a line "can send", acknowledged with "OK", and received as a line "rcv".
    What follows a line in the [streambuf] is memory behind the [string_view] of
    the line: [strtol], which looks for the end of a number by itself, and
    [ParseHexByte], which takes two characters, may look there. *)
From S2P Require Import Prelude Streams MultiplexStream Register Tokenizer CString FrameStream.
From stdpp Require Import strings.
#[local] Open Scope Z_scope.

Module FdcanusbFrameStream.

Definition kBlockSize : Z := 4096.
Definition kMaxLineLength : Z := 512.

Definition RoundUpDlc (value : Z) : Z :=
  if value =? 0 then 0
  else if value =? 1 then 1
  else if value =? 2 then 2
  else if value =? 3 then 3
  else if value =? 4 then 4
  else if value =? 5 then 5
  else if value =? 6 then 6
  else if value =? 7 then 7
  else if value =? 8 then 8
  else if value <=? 12 then 12
  else if value <=? 16 then 16
  else if value <=? 20 then 20
  else if value <=? 24 then 24
  else if value <=? 32 then 32
  else if value <=? 48 then 48
  else if value <=? 64 then 64
  else 0.

(** ** Encoding *)

(** A digit as [fmt] writes it, and a number that is not negative, with as many
    digits as it needs, or with two at least. *)
Definition hex_digit (d : Z) : byte := byte.of_Z (if d <? 10 then 48 + d else 87 + d).
Fixpoint format_x (fuel : nat) (n : Z) : list byte :=
  match fuel with
  | O => []
  | S fuel => (if n <? 16 then [] else format_x fuel (n / 16)) ++ [hex_digit (n mod 16)]
  end.
Definition format_02x (c : byte) : list byte :=
  [hex_digit (byte.unsigned c / 16); hex_digit (byte.unsigned c mod 16)].

Section Encode.
Context {S : Type} `{WriteStream S}.

(** [base::WriteStream::Iterator]: every character is a write. *)
Fixpoint put (text : list byte) (stream : S) : outcome S :=
  match text with
  | [] => Done stream
  | c :: text => stream ← ws_write stream [c]; put text stream
  end.

Fixpoint put_payload (payload : list byte) (stream : S) : outcome S :=
  match payload with
  | [] => Done stream
  | c :: payload => stream ← put (format_02x c) stream; put_payload payload stream
  end.

Fixpoint put_padding (n : nat) (stream : S) : outcome S :=
  match n with
  | O => Done stream
  | Datatypes.S n => stream ← put (text_of "50") stream; put_padding n stream
  end.

Definition EncodeFdcanusb (frame : Frame.Frame) (stream : S) : outcome S :=
  let id := Z.lor (Z.shiftl (Z.lor (Frame.source_id frame) (if Frame.request_reply frame then 0x80 else 0x00)) 8)
                  (Frame.dest_id frame) in
  stream ← put (text_of "can send " ++ format_x 8 id ++ text_of " ") stream;
  stream ← put_payload (Frame.payload frame) stream;
  let actual_size := RoundUpDlc (zlen (Frame.payload frame)) in
  stream ← put_padding (Z.to_nat (actual_size - zlen (Frame.payload frame))) stream;
  put [byte.of_Z 10] stream.
End Encode.

(** ** Decoding *)
Definition ParseHexNybble (c : byte) : Z :=
  let z := byte.unsigned c in
  if (48 <=? z) && (z <=? 57) then z - 48
  else if (97 <=? z) && (z <=? 102) then z - 97 + 10
  else if (65 <=? z) && (z <=? 70) then z - 65 + 10
  else -1.

(** On the memory behind a pointer. *)
Definition ParseHexByte (value : list byte) : outcome Z :=
  match value with
  | [] => Faulted Undefined
  | c :: value =>
      let high := ParseHexNybble c in
      if high <? 0 then Done high
      else
        match value with
        | [] => Faulted Undefined
        | c :: _ =>
            let low := ParseHexNybble c in
            if low <? 0 then Done low else Done (Z.lor (Z.shiftl high 4) low)
        end
  end.

(** The loop over the data, two characters a round: [data] is what is left of the
    token, [memory] the memory from there on, [payload] what is left to be
    written.  Behind the payload is a null that may only be written as such. *)
Fixpoint ParseData (data memory : list byte) (room : nat) : outcome (list byte) :=
  match data with
  | [] => Done []
  | _ :: data =>
      value ← ParseHexByte memory;
      match room with
      | O => if u8 value =? 0 then Done [] else Faulted Undefined
      | S room =>
          match data with
          | [] => Done [byte.of_Z value]
          | _ :: data =>
              rest ← ParseData data (zdrop 2 memory) room;
              Done (byte.of_Z value :: rest)
          end
      end
  end.

Definition is_newline (c : byte) : bool := (byte.unsigned c =? 10) || (byte.unsigned c =? 13).

Fixpoint find_newline (l : list byte) : option Z :=
  match l with
  | [] => None
  | c :: l => if is_newline c then Some 0 else Z.succ <$> find_newline l
  end.

(** [boost::starts_with] *)
Definition starts_with (line prefix : list byte) : bool := bool_decide (prefix `prefix_of` line).

Record State := {
  write_buffer : FastOStringStream.vector;
  read_outstanding : bool;
  outstanding_oks : Z;
  streambuf : list byte;
  current_frame : option Frame.Frame;
  current_callback : bool;
}.

Definition make : State :=
  {| write_buffer := FastOStringStream.empty; read_outstanding := false; outstanding_oks := 0; streambuf := [];
     current_frame := None; current_callback := false |}.

Definition with_write (b : FastOStringStream.vector) (oks : Z) (s : State) : State :=
  {| write_buffer := b; read_outstanding := read_outstanding s; outstanding_oks := oks; streambuf := streambuf s;
     current_frame := current_frame s; current_callback := current_callback s |}.
Definition with_oks (oks : Z) (s : State) : State := with_write (write_buffer s) oks s.
Definition with_outstanding (o : bool) (s : State) : State :=
  {| write_buffer := write_buffer s; read_outstanding := o; outstanding_oks := outstanding_oks s; streambuf := streambuf s;
     current_frame := current_frame s; current_callback := current_callback s |}.
Definition with_streambuf (b : list byte) (s : State) : State :=
  {| write_buffer := write_buffer s; read_outstanding := read_outstanding s; outstanding_oks := outstanding_oks s;
     streambuf := b; current_frame := current_frame s; current_callback := current_callback s |}.
Definition with_current (f : option Frame.Frame) (c : bool) (s : State) : State :=
  {| write_buffer := write_buffer s; read_outstanding := read_outstanding s; outstanding_oks := outstanding_oks s;
     streambuf := streambuf s; current_frame := f; current_callback := c |}.

(** ** Writing *)
Fixpoint encode_all (frames : list Frame.Frame) (b : FastOStringStream.vector) (oks : Z)
    : outcome (FastOStringStream.vector * Z) :=
  match frames with
  | [] => Done (b, oks)
  | frame :: frames => b ← EncodeFdcanusb frame b; encode_all frames b (oks + 1)
  end.

Definition AsyncWrite (frame : Frame.Frame) (s : State) : outcome (State * list output) :=
  b ← EncodeFdcanusb frame (FastOStringStream.clear (write_buffer s));
  Done (with_write b (outstanding_oks s + 1) s, [StartWrite (FastOStringStream.str b)]).

Definition AsyncWriteMultiple (frames : list Frame.Frame) (s : State) : outcome (State * list output) :=
  '(b, oks) ← encode_all frames (FastOStringStream.clear (write_buffer s)) (outstanding_oks s);
  Done (with_write b oks s, [StartWrite (FastOStringStream.str b)]).

(** ** Reading *)
Definition EmitFrame (frame : Frame.Frame) (s : State) : State * list output :=
  (with_current None false s, [TimerCancel; ReadPosted 0 (Some frame)]).

(** The frame that a line "rcv" stands for, if it has all three parts. *)
Definition ParseRcv (line memory : list byte) : outcome (option Frame.Frame) :=
  let tokenizer := Tokenizer.make line (text_of " ") in
  let '(rcv, tokenizer) := Tokenizer.next tokenizer in
  let at_address := Tokenizer.position tokenizer in
  let '(address, tokenizer) := Tokenizer.next tokenizer in
  let at_data := Tokenizer.position tokenizer in
  let '(data, _) := Tokenizer.next tokenizer in
  if (zlen rcv =? 0) || (zlen address =? 0) || (zlen data =? 0) then Done None
  else
    int_address ← strtol_in 64 16 (zdrop at_address memory);
    payload ← ParseData data (zdrop at_data memory) (Z.to_nat (zlen data / 2));
    Done (Some {| Frame.source_id := Z.land (Z.shiftr int_address 8) 0x7f;
                  Frame.request_reply := negb (Z.land (Z.shiftr int_address 8) 0x80 =? 0);
                  Frame.dest_id := Z.land int_address 0x7f;
                  Frame.payload := payload |}).

(** A line, and the memory from its start on. *)
Definition ParseLine (line memory : list byte) (s : State) : outcome (State * list output) :=
  if zlen line =? 0 then Done (s, [])
  else if bool_decide (line = text_of "OK") then Done (with_oks (Z.max (outstanding_oks s - 1) 0) s, [])
  else if starts_with line (text_of "rcv ") then
    match current_frame s with
    | None => Faulted Assertion
    | Some _ =>
        frame ← ParseRcv line memory;
        match frame with
        | None => Done (s, [])
        | Some frame => Done (EmitFrame frame s)
        end
    end
  else Done (s, []).

(** With whether there was a line.  [consume] takes no more than there is. *)
Definition ParseFrame (s : State) : outcome (bool * State * list output) :=
  match current_frame s with
  | None => Faulted Assertion
  | Some _ =>
      match find_newline (streambuf s) with
      | None =>
          let size := zlen (streambuf s) in
          if kMaxLineLength <? size then Done (false, with_streambuf (zdrop (size + 1) (streambuf s)) s, [])
          else Done (false, s, [])
      | Some i =>
          '(s, out) ← ParseLine (ztake i (streambuf s)) (streambuf s) s;
          Done (true, with_streambuf (zdrop (i + 1) (streambuf s)) s, out)
      end
  end.

Definition MaybeStartRead (s : State) : outcome (State * list output) :=
  if read_outstanding s then Done (s, [])
  else if negb (current_callback s) then Done (s, [])
  else
    '(_, s, out) ← ParseFrame s;
    if negb (current_callback s) then Done (s, out)
    else Done (with_outstanding true s, out ++ [StartRead kBlockSize]).

Definition AsyncRead (frame : Frame.Frame) (timeout : Z) (s : State) : outcome (State * list output) :=
  _ ← mj_assert (match current_frame s with None => true | _ => false end);
  _ ← mj_assert (negb (current_callback s));
  let s := with_current (Some frame) true s in
  let timer := if timeout =? 0 then TimerCancel else TimerStart timeout in
  '(s, out) ← MaybeStartRead s;
  Done (s, timer :: out).

Fixpoint ParseFrames (fuel : nat) (s : State) : outcome (State * list output) :=
  if negb (current_callback s) then Done (s, [])
  else
    match fuel with
    | O => Faulted OutOfFuel
    | S fuel =>
        '(handled, s, out) ← ParseFrame s;
        if handled : bool then
          '(s, more) ← ParseFrames fuel s;
          Done (s, out ++ more)
        else Done (s, out)
    end.

Definition HandleRead (ec : Z) (data : list byte) (s : State) : outcome (State * list output) :=
  _ ← FailIf ec;
  let s := with_outstanding false (with_streambuf (streambuf s ++ data) s) in
  '(s, out) ← ParseFrames (S (length (streambuf s))) s;
  '(s, more) ← MaybeStartRead s;
  Done (s, out ++ more).

Definition HandleTimer (ec : Z) (s : State) : outcome (State * list output) :=
  if ec =? kAborted then Done (s, [])
  else
    _ ← FailIf ec;
    let s := with_oks 0 s in
    if current_callback s then
      match current_frame s with
      | None => Faulted Assertion
      | Some frame => Done (with_current None false s, [ReadCalled kAborted (Some frame)])
      end
    else Done (s, []).

Definition cancel (s : State) : outcome (State * list output) := Faulted Assertion.

(** [^rcv[[:print:]]+$] without [std::regex::multiline]: the whole of what is
    there. *)
Definition isprint (c : byte) : bool := (32 <=? byte.unsigned c) && (byte.unsigned c <=? 126).
Definition rcv_present (l : list byte) : bool :=
  starts_with l (text_of "rcv") && (3 <? zlen l) && forallb isprint (drop 3 l).

Definition read_data_queued (s : State) : bool :=
  if negb (outstanding_oks s =? 0) then true
  else if zlen (streambuf s) =? 0 then false
  else rcv_present (streambuf s).

Definition properties_max_size : Z := 64.
End FdcanusbFrameStream.
