(* ===== verification/FdcanusbText.v ===== *)
(** * Lines of an fdcanusb adapter: what is written, and what is read

    The text of a frame, that encoding writes it, and that a line "rcv" with the
    same address and data is parsed into the frame, padded to a length that the bus
    allows. *)
From S2P Require Import Prelude Streams MultiplexStream Register Tokenizer CString FrameStream FdcanusbFrameStream.
From stdpp Require Import strings.
Import FdcanusbFrameStream.
#[local] Open Scope Z_scope.

(** ** The text *)
Definition id_of (f : Frame.Frame) : Z :=
  Z.lor (Z.shiftl (Z.lor (Frame.source_id f) (if Frame.request_reply f then 0x80 else 0x00)) 8) (Frame.dest_id f).
Definition hex (d : list byte) : list byte := concat (map format_02x d).

(** The sizes that the bus has, and the least that holds a payload. *)
Definition bus_sizes : list Z := [0; 1; 2; 3; 4; 5; 6; 7; 8; 12; 16; 20; 24; 32; 48; 64].
Definition bus_size (n : Z) : Z := match List.find (Z.leb n) bus_sizes with Some size => size | None => 0 end.
Definition padding (f : Frame.Frame) : nat := Z.to_nat (bus_size (zlen (Frame.payload f)) - zlen (Frame.payload f)).
Definition padded (f : Frame.Frame) : list byte := Frame.payload f ++ replicate (padding f) (byte.of_Z 0x50).

Lemma RoundUpDlc_size n : 0 <= n -> RoundUpDlc n = bus_size n.
Proof. intros Hn. unfold RoundUpDlc, bus_size, bus_sizes. cbn [List.find]. repeat (case_match; simplify_eq; try lia). Qed.

Lemma bus_size_bound n : 0 <= n <= 64 -> n <= bus_size n <= 64.
Proof. intros Hn. rewrite <- RoundUpDlc_size by lia. unfold RoundUpDlc. repeat (case_match; [lia|]). lia. Qed.

(** Address and data. *)
Definition frame_text (f : Frame.Frame) : list byte := format_x 8 (id_of f) ++ text_of " " ++ hex (padded f).

Section encoding.
Context {S : Type} `{WriteStreamLaws S}.

Lemma put_emits text : emits (S := S) (put text) text.
Proof.
  induction text as [|c text IH]; [exact emits_nil|]. cbn [put].
  exact (emits_bind (fun s => ws_write s [c]) (put text) [c] text (emits_write [c]) IH).
Qed.

Lemma put_payload_emits payload : emits (S := S) (put_payload payload) (hex payload).
Proof.
  induction payload as [|c payload IH]; [exact emits_nil|].
  exact (emits_bind (put (format_02x c)) (put_payload payload) (format_02x c) (hex payload) (put_emits _) IH).
Qed.

Lemma put_padding_emits n : emits (S := S) (put_padding n) (hex (replicate n (byte.of_Z 0x50))).
Proof.
  induction n as [|n IH]; [exact emits_nil|].
  exact (emits_bind (put (text_of "50")) (put_padding n) (text_of "50") _ (put_emits _) IH).
Qed.

Lemma hex_app a b : hex (a ++ b) = hex a ++ hex b.
Proof. unfold hex. by rewrite map_app, concat_app. Qed.

(** A frame is one line. *)
Lemma EncodeFdcanusb_emits f :
  emits (S := S) (EncodeFdcanusb f) (text_of "can send " ++ frame_text f ++ [byte.of_Z 10]).
Proof.
  pose proof (emits_bind _ _ _ _ (put_emits (text_of "can send " ++ format_x 8 (id_of f) ++ text_of " "))
    (emits_bind _ _ _ _ (put_payload_emits (Frame.payload f))
      (emits_bind _ _ _ _ (put_padding_emits (padding f)) (put_emits [byte.of_Z 10])))) as E.
  unfold padding in E at 1. rewrite <- RoundUpDlc_size in E by apply zlen_nonneg.
  unfold frame_text, padded. rewrite hex_app, <- !app_assoc in *. exact E.
Qed.
End encoding.

(** ** Hexadecimal digits *)
Lemma hex_digit_value d : 0 <= d < 16 ->
  digit_in 16 (hex_digit d) = Some d /\ ParseHexNybble (hex_digit d) = d /\ isspace (hex_digit d) = false /\
  char_code (hex_digit d) <> 45 /\ char_code (hex_digit d) <> 43 /\ char_code (hex_digit d) <> 120 /\
  char_code (hex_digit d) <> 88 /\ Tokenizer.is_delimiter (text_of " ") (hex_digit d) = false /\ is_newline (hex_digit d) = false.
Proof.
  intros Hd. assert (H : d = 0 \/ d = 1 \/ d = 2 \/ d = 3 \/ d = 4 \/ d = 5 \/ d = 6 \/ d = 7 \/ d = 8 \/ d = 9 \/
    d = 10 \/ d = 11 \/ d = 12 \/ d = 13 \/ d = 14 \/ d = 15) by lia.
  repeat (destruct H as [->|H]; [vm_compute; by split_and!|]). subst. vm_compute. by split_and!.
Qed.

Definition is_hex (c : byte) : Prop := exists d, 0 <= d < 16 /\ c = hex_digit d.

Lemma format_x_digits fuel : forall n, 0 <= n < 16 ^ Z.of_nat fuel -> (0 < fuel)%nat ->
  format_x fuel n <> [] /\ Forall is_hex (format_x fuel n) /\
  forall tail v,
    digits 16 (format_x fuel n ++ tail) v = digits 16 tail (v * 16 ^ zlen (format_x fuel n) + n) /\
    digit_run 16 (format_x fuel n ++ tail) = (length (format_x fuel n) + digit_run 16 tail)%nat.
Proof.
  induction fuel as [|fuel IH]; intros n Hn Hf; [lia|]. cbn [format_x].
  pose proof (Z.mod_pos_bound n 16 ltac:(lia)) as Hm. destruct (hex_digit_value _ Hm) as (Hd & _).
  destruct (Z.ltb_spec n 16) as [Hs|Hs].
  - cbn [app]. split; [done|]. split; [constructor; [by eexists|constructor]|]. intros tail v.
    cbn [digits digit_run length]. rewrite Hd. split; [|done]. change (zlen [_]) with 1.
    rewrite Z.mod_small by lia. f_equal; lia.
  - destruct fuel as [|fuel]; [change (16 ^ Z.of_nat 1) with 16 in Hn; lia|].
    assert (Hn' : 0 <= n / 16 < 16 ^ Z.of_nat (Datatypes.S fuel)).
    { rewrite (Nat2Z.inj_succ (Datatypes.S fuel)), Z.pow_succ_r in Hn by lia. split; [apply Z.div_pos; lia|apply Z.div_lt_upper_bound; lia]. }
    destruct (IH (n / 16) Hn' ltac:(lia)) as (Hne & Hh & Hv). set (ds := format_x (Datatypes.S fuel) (n / 16)) in *.
    split; [by destruct ds|]. split; [apply list.Forall_app; split; [done|]; constructor; [by eexists|constructor]|].
    intros tail v. rewrite <- app_assoc. destruct (Hv ([hex_digit (n mod 16)] ++ tail) v) as [-> ->].
    cbn [app digits digit_run]. rewrite Hd, length_app, zlen_app. change (zlen [_]) with 1.
    pose proof (zlen_nonneg ds). rewrite Z.pow_add_r by lia. pose proof (Z.div_mod n 16 ltac:(lia)).
    change (16 ^ 1) with 16. cbn [length]. split; [f_equal; lia|lia].
Qed.

(** No prefix [0x] where the second character is none. *)
Lemma prefix_none z x l : char_code x <> 120 -> char_code x <> 88 -> prefix_in 16 (z :: x :: l) = (16, z :: x :: l).
Proof.
  intros H1 H2. unfold prefix_in, CString.prefix. cbn [Z.eqb Pos.eqb]. destruct l; [by destruct (char_code z =? 48)|].
  rewrite (proj2 (Z.eqb_neq (char_code x) 120)), (proj2 (Z.eqb_neq (char_code x) 88)) by done.
  rewrite andb_false_r. cbn [andb]. by destruct (char_code z =? 48).
Qed.

Lemma strtol_in_hex n c tail : 0 <= n < 2 ^ 31 -> no_digit (c :: tail) ->
  strtol_in 64 16 (format_x 8 n ++ c :: tail) = Done n.
Proof.
  intros Hn Ht. destruct (format_x_digits 8 n) as (Hl & Hh & Hv); [lia..|].
  destruct (Hv (c :: tail) 0) as [Hd Hr]. destruct (no_digit_stops 16 (c :: tail) (0 * 16 ^ zlen (format_x 8 n) + n) ltac:(lia) Ht) as [Es Er].
  rewrite Es in Hd. rewrite Er, Nat.add_0_r in Hr. set (ds := format_x 8 n) in *.
  destruct ds as [|x ds]; [done|]. apply Forall_cons_1 in Hh as [(d & Hd0 & ->) Hh].
  destruct (hex_digit_value d Hd0) as (H1 & H2 & H3 & H4 & H5 & _).
  assert (Ep : prefix_in 16 ((hex_digit d :: ds) ++ c :: tail) = (16, (hex_digit d :: ds) ++ c :: tail)).
  { destruct ds as [|y ds]; cbn [app]; [by apply prefix_none; apply Ht|].
    apply Forall_cons_1 in Hh as [(e & He & ->) _]. apply prefix_none; by apply hex_digit_value. }
  assert (Esign : sign (skip_space ((hex_digit d :: ds) ++ c :: tail)) = (false, (hex_digit d :: ds) ++ c :: tail)).
  { cbn [app skip_space]. rewrite H3. unfold sign. by rewrite (proj2 (Z.eqb_neq _ 45)), (proj2 (Z.eqb_neq _ 43)) by done. }
  unfold strtol_in, looks_behind, scan_integer. rewrite Esign, Ep, Hr. cbn [length].
  change (drop (Datatypes.S (length ds)) ((hex_digit d :: ds) ++ c :: tail)) with (drop (length (hex_digit d :: ds)) ((hex_digit d :: ds) ++ c :: tail)).
  rewrite drop_app_length. assert (Hx : (match c :: tail, Datatypes.S (length ds) with
    | [], _ => true
    | [x], 1%nat => (16 =? 16) && ((char_code x =? 120) || (char_code x =? 88)) && match (hex_digit d :: ds) ++ c :: tail with z :: _ => char_code z =? 48 | [] => false end
    | _, _ => false end) = false).
  { destruct tail; [|done]. destruct ds; [|done]. destruct Ht as (_ & Hc1 & Hc2). by rewrite (proj2 (Z.eqb_neq _ 120)), (proj2 (Z.eqb_neq _ 88)) by done. }
  rewrite Hx, Hd, clip_id by (unfold in_s; lia). f_equal; lia.
Qed.

(** ** The data of a line *)
Lemma ParseHexByte_hex b tail : ParseHexByte (format_02x b ++ tail) = Done (byte.unsigned b).
Proof.
  pose proof (byte.unsigned_range b). destruct (hex_digit_value (byte.unsigned b / 16)) as (_ & Hh & _).
  { split; [apply Z.div_pos; lia|apply Z.div_lt_upper_bound; lia]. }
  destruct (hex_digit_value (byte.unsigned b mod 16)) as (_ & Hl & _); [by apply Z.mod_pos_bound|].
  unfold format_02x. cbn [app ParseHexByte]. rewrite Hh, Hl.
  rewrite (proj2 (Z.ltb_ge (_ / _) 0)) by (apply Z.div_pos; lia).
  rewrite (proj2 (Z.ltb_ge (_ mod _) 0)) by (apply Z.mod_pos_bound; lia). f_equal. by destruct b.
Qed.

Lemma hex_length d : length (hex d) = (2 * length d)%nat.
Proof. induction d as [|b d IH]; [done|]. unfold hex in *. cbn [map concat]. rewrite length_app, IH. cbn. lia. Qed.

Lemma ParseData_hex d : forall tail, ParseData (hex d) (hex d ++ tail) (length d) = Done d.
Proof.
  induction d as [|b d IH]; intros tail; [done|]. change (hex (b :: d)) with (format_02x b ++ hex d). rewrite <- app_assoc.
  unfold format_02x at 1. cbn [app ParseData length]. rewrite ParseHexByte_hex, bind_done, byte.of_Z_unsigned.
  change (zdrop 2 (format_02x b ++ hex d ++ tail)) with (hex d ++ tail). by rewrite IH, bind_done.
Qed.

Lemma is_hex_char c : is_hex c -> Tokenizer.is_delimiter (text_of " ") c = false /\ is_newline c = false.
Proof. intros (d & Hd & ->). split; by apply hex_digit_value. Qed.

Lemma hex_digits d : Forall is_hex (hex d).
Proof.
  induction d as [|b d IH]; [constructor|]. pose proof (byte.unsigned_range b).
  change (hex (b :: d)) with (format_02x b ++ hex d). apply list.Forall_app. split; [|done].
  constructor; [exists (byte.unsigned b / 16)|constructor; [exists (byte.unsigned b mod 16)|constructor]].
  - split; [|done]. split; [apply Z.div_pos; lia|apply Z.div_lt_upper_bound; lia].
  - split; [|done]. by apply Z.mod_pos_bound.
Qed.

(** ** Lines *)
Lemma next_word (s : Tokenizer.t) tok c rest :
  Tokenizer.ok s -> Tokenizer.remaining s = tok ++ c :: rest ->
  Forall (fun c => Tokenizer.is_delimiter (Tokenizer.delimiters s) c = false) tok ->
  Tokenizer.is_delimiter (Tokenizer.delimiters s) c = true ->
  exists s', Tokenizer.next s = (tok, s') /\ Tokenizer.ok s' /\ Tokenizer.remaining s' = rest /\
    Tokenizer.position s' = Tokenizer.position s + zlen tok + 1 /\ Tokenizer.delimiters s' = Tokenizer.delimiters s.
Proof.
  unfold Tokenizer.ok. intros Ho E Ht Hc. unfold Tokenizer.next.
  pose proof (zlen_nonneg tok). pose proof (zlen_nonneg rest).
  assert (Hz : zlen (Tokenizer.source s) - Tokenizer.position s = zlen tok + 1 + zlen rest).
  { apply (f_equal zlen) in E. unfold Tokenizer.remaining in E. rewrite zlen_drop, zlen_app, zlen_cons in E by lia. lia. }
  rewrite (proj2 (Z.eqb_neq _ _)) by lia. rewrite E, (Tokenizer.scan_app _ tok c rest Ht Hc), ztake_app_len.
  eexists. split; [done|]. cbn. split_and!; [lia|lia| |done|done].
  unfold Tokenizer.remaining in *. cbn. replace (Tokenizer.position s + zlen tok + 1) with (Tokenizer.position s + (zlen tok + 1)) by lia.
  rewrite <- zdrop_zdrop, E by lia. change (c :: rest) with ([c] ++ rest). rewrite app_assoc.
  apply zdrop_app_full. by rewrite zlen_app.
Qed.

Lemma next_last_word (s : Tokenizer.t) :
  Tokenizer.ok s -> Forall (fun c => Tokenizer.is_delimiter (Tokenizer.delimiters s) c = false) (Tokenizer.remaining s) ->
  (Tokenizer.next s).1 = Tokenizer.remaining s.
Proof.
  intros Ho Ht. unfold Tokenizer.next. destruct (Z.eqb_spec (Tokenizer.position s) (zlen (Tokenizer.source s))) as [E|].
  - unfold Tokenizer.remaining. by rewrite E, zdrop_ge.
  - by rewrite (Tokenizer.scan_word _ _ Ht).
Qed.

(** A frame that fits on the bus, and what the other side makes of it. *)
Definition fits_bus (f : Frame.Frame) : Prop :=
  in_u 7 (Frame.source_id f) /\ in_u 7 (Frame.dest_id f) /\ 1 <= zlen (Frame.payload f) <= 64.
Definition on_bus (f : Frame.Frame) : Frame.Frame :=
  {| Frame.source_id := Frame.source_id f; Frame.request_reply := Frame.request_reply f;
     Frame.dest_id := Frame.dest_id f; Frame.payload := padded f |}.

Definition rcv_line (f : Frame.Frame) : list byte := text_of "rcv " ++ frame_text f.

Lemma ParseRcv_frame f c m : fits_bus f -> no_digit (c :: m) -> ParseRcv (rcv_line f) (rcv_line f ++ c :: m) = Done (Some (on_bus f)).
Proof.
  intros (Hs & Hd & Hp) Hc. destruct (source_bits _ (Frame.request_reply f) Hs) as (S8 & S1 & S2).
  destruct (id_bits _ _ S8 Hd) as (I16 & I1 & I2). fold (id_of f) in *.
  destruct (format_x_digits 8 (id_of f)) as (Hne & Hx & _); [unfold in_u in I16; lia..|].
  set (address := format_x 8 (id_of f)) in *. set (d := text_of " ") in *.
  assert (Hw : forall l, Forall is_hex l -> Forall (fun c => Tokenizer.is_delimiter d c = false) l).
  { intros l Hl. eapply list.Forall_impl; [exact Hl|]. intros x Hh. by apply is_hex_char. }
  assert (E0 : rcv_line f = text_of "rcv" ++ byte.of_Z 32 :: address ++ byte.of_Z 32 :: hex (padded f)) by done.
  unfold ParseRcv. fold d. set (t0 := Tokenizer.make (rcv_line f) d).
  destruct (next_word t0 (text_of "rcv") (byte.of_Z 32) (address ++ byte.of_Z 32 :: hex (padded f)))
    as (t1 & -> & O1 & R1 & P1 & D1); [split; [done|apply zlen_nonneg]|exact E0|by repeat constructor|done|].
  cbn beta iota. change (Tokenizer.delimiters t0) with d in D1. rewrite <- D1 in Hw.
  destruct (next_word t1 address (byte.of_Z 32) (hex (padded f)) O1 R1 (Hw _ Hx)) as (t2 & -> & O2 & R2 & P2 & D2); [by rewrite D1|].
  cbn beta iota. rewrite <- D2 in Hw. pose proof (next_last_word t2 O2) as Hl. rewrite R2 in Hl. specialize (Hl (Hw _ (hex_digits _))).
  destruct (Tokenizer.next t2) as [data t3]. cbn [fst] in Hl. subst data. change (zlen (text_of "rcv") =? 0) with false. cbn [orb].
  assert (Hlen : zlen (hex (padded f)) = 2 * zlen (padded f)) by (unfold zlen; rewrite hex_length; lia).
  assert (Hpad : 1 <= zlen (padded f)) by (unfold padded; rewrite zlen_app; pose proof (zlen_nonneg (replicate (padding f) (byte.of_Z 0x50))); lia).
  assert ((zlen address =? 0) = false) as ->.
  { apply Z.eqb_neq. destruct address; [done|]. rewrite zlen_cons. pose proof (zlen_nonneg address). lia. }
  rewrite Hlen. rewrite (proj2 (Z.eqb_neq (2 * _) 0)) by lia. cbn [orb].
  change (Tokenizer.position t0) with 0 in P1. change (zlen (text_of "rcv")) with 3 in P1. rewrite P2, P1.
  assert (M1 : zdrop (0 + 3 + 1) (rcv_line f ++ c :: m) = address ++ byte.of_Z 32 :: hex (padded f) ++ c :: m).
  { transitivity ((address ++ byte.of_Z 32 :: hex (padded f)) ++ c :: m); [done|]. by rewrite <- app_assoc. }
  assert (M2 : zdrop (0 + 3 + 1 + zlen address + 1) (rcv_line f ++ c :: m) = hex (padded f) ++ c :: m).
  { pose proof (zlen_nonneg address). replace (0 + 3 + 1 + zlen address + 1) with (0 + 3 + 1 + (zlen address + 1)) by lia.
    rewrite <- zdrop_zdrop, M1 by lia. change (byte.of_Z 32 :: ?l) with ([byte.of_Z 32] ++ l). rewrite app_assoc.
    apply zdrop_app_full. by rewrite zlen_app. }
  rewrite M1, M2. unfold address. rewrite strtol_in_hex, bind_done by (done || unfold in_u in I16; lia).
  replace (Z.to_nat (2 * zlen (padded f) / 2)) with (length (padded f)) by (rewrite Z.mul_comm, Z.div_mul by done; unfold zlen; lia).
  rewrite ParseData_hex, bind_done. do 2 f_equal. unfold on_bus. by rewrite I1, I2, S1, S2.
Qed.

(** A line has no line end in it. *)
Lemma rcv_line_chars f : fits_bus f -> Forall (fun c => is_newline c = false) (rcv_line f).
Proof.
  intros (Hs & Hd & _). destruct (source_bits _ (Frame.request_reply f) Hs) as (S8 & _).
  destruct (id_bits _ _ S8 Hd) as (I16 & _). fold (id_of f) in *.
  destruct (format_x_digits 8 (id_of f)) as (_ & Hx & _); [unfold in_u in I16; lia..|].
  assert (Hw : forall l, Forall is_hex l -> Forall (fun c => is_newline c = false) l).
  { intros l Hl. eapply list.Forall_impl; [exact Hl|]. intros x Hh. by apply is_hex_char. }
  unfold rcv_line, frame_text. apply list.Forall_app. split; [by repeat constructor|].
  apply list.Forall_app. split; [by apply Hw|]. apply list.Forall_app. split; [by repeat constructor|].
  apply Hw, hex_digits.
Qed.

(** ** What is behind a line does not matter, where it is not looked at *)
Lemma skip_space_app l m : skip_space l <> [] -> skip_space (l ++ m) = skip_space l ++ m.
Proof. induction l as [|c l IH]; [done|]. cbn [skip_space app]. by destruct (isspace c). Qed.

Lemma sign_app l m : l <> [] -> sign (l ++ m) = ((sign l).1, (sign l).2 ++ m).
Proof. destruct l as [|c l]; [done|]. intros _. unfold sign. cbn [app]. by destruct (char_code c =? 45), (char_code c =? 43). Qed.

Lemma digit_run_app base l m : drop (digit_run base l) l <> [] ->
  digit_run base (l ++ m) = digit_run base l /\ forall v, digits base (l ++ m) v = digits base l v.
Proof.
  induction l as [|c l IH]; [done|]. cbn [digit_run app digits]. destruct (digit_in base c) as [d|]; [|done].
  cbn [drop]. intros Hn. destruct (IH Hn) as [-> Hd]. split; [done|]. intros v. apply Hd.
Qed.

Lemma digit_run_drop base l : (digit_run base l <= length l)%nat.
Proof. induction l as [|c l IH]; [done|]. cbn [digit_run length]. destruct (digit_in base c); lia. Qed.

Lemma prefix_in_16 l : exists r, prefix_in 16 l = (16, r).
Proof. unfold prefix_in. cbn [Z.eqb Pos.eqb]. destruct (Z.eqb_spec (CString.prefix l).1 16) as [E|]; [|by eexists].
  destruct (CString.prefix l) as [b r]. cbn in E. subst. by eexists.
Qed.

(** What [looks_behind] says of the number. *)
Definition ends_inside (r : list byte) : bool :=
  match drop (digit_run 16 r) r, digit_run 16 r with
  | [], _ => false
  | [x], 1%nat => negb (((char_code x =? 120) || (char_code x =? 88)) && match r with z :: _ => char_code z =? 48 | [] => false end)
  | _, _ => true
  end.

Lemma looks_behind_eq memory r : prefix_in 16 (sign (skip_space memory)).2 = (16, r) -> looks_behind 16 memory = negb (ends_inside r).
Proof.
  unfold looks_behind, ends_inside. destruct (sign (skip_space memory)) as [neg r0]. cbn [snd]. intros ->.
  destruct (drop _ r) as [|x [|y l]]; [done| |by destruct (digit_run 16 r) as [|[|]]].
  destruct (digit_run 16 r) as [|[|]]; [done| |done]. by rewrite negb_involutive.
Qed.

Lemma prefix_in_app l r m : prefix_in 16 l = (16, r) -> ends_inside r = true -> prefix_in 16 (l ++ m) = (16, r ++ m).
Proof.
  unfold prefix_in. cbn [Z.eqb Pos.eqb]. destruct l as [|z [|x [|d l]]]; cbn [app].
  - cbn. by intros [= <-].
  - destruct (digit_in 16 z) as [v|] eqn:Ez.
    + assert (r = [z] -> ends_inside r = false) as Hr by (intros ->; unfold ends_inside; cbn; by rewrite Ez).
      cbn. intros E Hi. enough (r = [z]) by (rewrite Hr in Hi; done). destruct (char_code z =? 48); by injection E.
    + assert ((char_code z =? 48) = false) as Hz.
      { apply Z.eqb_neq. intros E. unfold digit_in, digit_value in Ez. by rewrite E in Ez. }
      unfold CString.prefix. rewrite Hz. cbn. intros [= <-] _. by destruct m as [|x [|d m]].
  - unfold CString.prefix at 1 2. intros E Hi. assert (r = [z; x]) as -> by (destruct (char_code z =? 48); by injection E). clear E.
    destruct (char_code z =? 48) eqn:Ez.
    + destruct ((char_code x =? 120) || (char_code x =? 88)) eqn:Ex.
      * exfalso. unfold ends_inside in Hi. apply Z.eqb_eq in Ez as Ez'. cbn [digit_run] in Hi.
        assert (digit_in 16 z = Some 0) as Hz by (unfold digit_in, digit_value; by rewrite Ez').
        assert (digit_in 16 x = None) as Hx.
        { unfold digit_in, digit_value. by destruct (Z.eqb_spec (char_code x) 120) as [->|]; [|destruct (Z.eqb_spec (char_code x) 88) as [->|]]. }
        rewrite Hz, Hx in Hi. cbn in Hi. by rewrite Ex, Ez in Hi.
      * unfold CString.prefix. destruct m; cbn [app]; rewrite Ez; [done|]. by rewrite Ex.
    + unfold CString.prefix. destruct m; cbn [app]; by rewrite Ez.
  - unfold CString.prefix. destruct (_ && _); [cbn; by intros [= <-]|]. by destruct (char_code z =? 48); cbn; intros [= <-].
Qed.

Lemma strtol_in_app memory m n : strtol_in 64 16 memory = Done n -> strtol_in 64 16 (memory ++ m) = Done n.
Proof.
  destruct (prefix_in_16 (sign (skip_space memory)).2) as [r Er].
  intros E. assert (ends_inside r = true) as Hi.
  { unfold strtol_in in E. rewrite (looks_behind_eq _ _ Er) in E. by destruct (ends_inside r). }
  assert (Hd : drop (digit_run 16 r) r <> []) by (intros Hd; unfold ends_inside in Hi; by rewrite Hd in Hi).
  assert (Hs : skip_space memory <> []) by (intros Hs; rewrite Hs in Er; cbn in Er; by injection Er as <-).
  assert (Er' : prefix_in 16 (sign (skip_space (memory ++ m))).2 = (16, r ++ m)).
  { rewrite skip_space_app, sign_app by done. cbn [snd]. by apply prefix_in_app. }
  destruct (digit_run_app 16 r m Hd) as [Hr Hv].
  assert (Hi' : ends_inside (r ++ m) = true).
  { pose proof (digit_run_drop 16 r). unfold ends_inside in *. rewrite Hr, drop_app_le by done.
    destruct (drop (digit_run 16 r) r) as [|x [|y l]]; [done| |by destruct (digit_run 16 r) as [|[|]]].
    destruct (digit_run 16 r) as [|[|]]; [by destruct m| |by destruct m]. destruct m; [by rewrite !app_nil_r|done]. }
  unfold strtol_in, scan_integer in *. rewrite (looks_behind_eq _ _ Er), Hi in E. rewrite (looks_behind_eq _ _ Er'), Hi'. cbn [negb] in *.
  rewrite skip_space_app, sign_app in * by done. destruct (sign (skip_space memory)) as [neg r0]. cbn [fst snd] in *.
  rewrite Er' . rewrite Er in E. rewrite Hr, Hv. by destruct (digit_run 16 r).
Qed.

Lemma ParseHexByte_app memory m z : ParseHexByte memory = Done z -> ParseHexByte (memory ++ m) = Done z.
Proof.
  destruct memory as [|c [|d memory]]; cbn [ParseHexByte app]; [done| |done]. by destruct (_ <? 0).
Qed.

Lemma ParseData_app k : forall data memory m room p, (length data <= k)%nat -> (length data <= length memory)%nat ->
  ParseData data memory room = Done p -> ParseData data (memory ++ m) room = Done p.
Proof.
  induction k as [|k IH]; intros [|c data] memory m room p Hk Hm; cbn [length] in *; try done; try lia.
  cbn [ParseData]. destruct (ParseHexByte memory) as [z|] eqn:Ez; [|done]. rewrite (ParseHexByte_app _ m _ Ez), !bind_done.
  destruct room as [|room]; [done|]. destruct data as [|d data]; [done|]. cbn [length] in *.
  destruct (ParseData data (zdrop 2 memory) room) as [rest|] eqn:Er; [|done].
  assert (zdrop 2 (memory ++ m) = zdrop 2 memory ++ m) as -> by (apply zdrop_app_le; unfold zlen; lia).
  assert (length data <= length (zdrop 2 memory))%nat by (unfold zdrop; rewrite length_drop; lia).
  assert (length data <= k)%nat as Hk2 by lia. by rewrite (IH data _ m _ _ Hk2 ltac:(done) Er).
Qed.

(** The parts of a line are in the line. *)
Lemma next_inside s : Tokenizer.ok s -> let '(token, s') := Tokenizer.next s in
  Tokenizer.ok s' /\ Tokenizer.source s' = Tokenizer.source s /\ Tokenizer.position s + zlen token <= zlen (Tokenizer.source s).
Proof.
  intros Ho. pose proof (Tokenizer.next_ok s Ho) as Ho'. unfold Tokenizer.next in *. pose proof Ho as [H1 H2].
  destruct (_ =? _); [split_and!; [done..|rewrite zlen_nil; lia]|].
  destruct (Tokenizer.scan _ _) as [i|] eqn:E; (split_and!; [done..|]).
  - apply Tokenizer.scan_some in E as (_ & _ & Hi & _). rewrite zlen_take by lia. unfold Tokenizer.remaining in *.
    rewrite zlen_drop in * by lia. lia.
  - unfold Tokenizer.remaining. rewrite zlen_drop by lia. lia.
Qed.

Lemma ParseRcv_app line memory m f : zlen line <= zlen memory ->
  ParseRcv line memory = Done f -> ParseRcv line (memory ++ m) = Done f.
Proof.
  intros Hl. unfold ParseRcv. set (t0 := Tokenizer.make line _).
  assert (O0 : Tokenizer.ok t0) by (split; [done|apply zlen_nonneg]).
  pose proof (next_inside t0 O0) as N0. destruct (Tokenizer.next t0) as [rcv t1]. destruct N0 as (O1 & S1 & _).
  pose proof (next_inside t1 O1) as N1. destruct (Tokenizer.next t1) as [address t2]. destruct N1 as (O2 & S2 & L1).
  pose proof (next_inside t2 O2) as N2. destruct (Tokenizer.next t2) as [data t3]. destruct N2 as (_ & _ & L2).
  destruct (_ || _); [done|]. unfold Tokenizer.ok in *. rewrite S1 in S2, L1, O1. rewrite S2 in L2, O2.
  change (Tokenizer.source t0) with line in *.
  pose proof (zlen_nonneg address). pose proof (zlen_nonneg data).
  rewrite !zdrop_app_le by lia. intros E.
  destruct (strtol_in 64 16 (zdrop (Tokenizer.position t1) memory)) as [a|] eqn:Ea; [|done].
  rewrite (strtol_in_app _ m _ Ea). rewrite bind_done in *. cbn beta in *.
  destruct (ParseData data (zdrop (Tokenizer.position t2) memory) (Z.to_nat (zlen data / 2))) as [p|] eqn:Ep; [|done].
  assert (length data <= length (zdrop (Tokenizer.position t2) memory))%nat as Hd.
  { assert (zlen data <= zlen (zdrop (Tokenizer.position t2) memory)) by (rewrite zlen_drop; lia). unfold zlen in *. lia. }
  by rewrite (ParseData_app (length data) data _ m _ p (Nat.le_refl _) Hd Ep).
Qed.
