(* ===== verification/FdcanusbTheory.v ===== *)
(** * What the frame stream of an fdcanusb adapter guarantees

    A reference reading of the adapter's text as lines, the frame stream as a
    refinement of it, frames that go from one host to another, and the frames that
    a client does not get although they have come. *)
From stdpp Require Import strings.
From S2P Require Import Prelude Streams MultiplexStream Register Tokenizer CString FrameStream FdcanusbFrameStream FdcanusbText.
Import FdcanusbFrameStream.
#[local] Open Scope Z_scope.

(** ** Lines *)

(** The lines of a text, each with its end, and what follows the last. *)
Fixpoint lines_from (line l : list byte) : list (list byte * byte) * list byte :=
  match l with
  | [] => ([], line)
  | c :: l =>
      if is_newline c then let '(ls, rest) := lines_from [] l in ((line, c) :: ls, rest)
      else lines_from (line ++ [c]) l
  end.

Definition lines (l : list byte) : list (list byte * byte) * list byte := lines_from [] l.

(** What a line says, by itself. *)
Definition meaning (line : list byte * byte) : outcome (option Frame.Frame) :=
  if starts_with line.1 (text_of "rcv ") then ParseRcv line.1 (line.1 ++ [line.2]) else Done None.

Definition frame_of (line : list byte * byte) : list Frame.Frame :=
  match meaning line with Done (Some f) => [f] | _ => [] end.

Definition frames_of (ls : list (list byte * byte)) : list Frame.Frame := concat (map frame_of ls).

(** Lines that have a meaning and are not too long. *)
Definition tame_line (line : list byte * byte) : bool := is_done (meaning line) && (zlen line.1 <=? kMaxLineLength).
Definition tame (l : list byte) : bool := forallb tame_line (lines l).1 && (zlen (lines l).2 <=? kMaxLineLength).

Lemma fd_lines_from_app a b : forall line,
  lines_from line (a ++ b) =
    ((lines_from line a).1 ++ (lines_from (lines_from line a).2 b).1, (lines_from (lines_from line a).2 b).2).
Proof.
  induction a as [|c a IH]; intros line; cbn [lines_from app].
  - apply surjective_pairing.
  - destruct (is_newline c); [|apply IH]. rewrite IH. by destruct (lines_from [] a).
Qed.

Lemma lines_from_line l : forall line, lines_from line l =
  match find_newline l with
  | None => ([], line ++ l)
  | Some i => let '(ls, rest) := lines_from [] (zdrop (i + 1) l) in
      ((line ++ ztake i l, match zdrop i l with c :: _ => c | [] => byte.of_Z 0 end) :: ls, rest)
  end.
Proof.
  induction l as [|c l IH]; intros line; cbn [lines_from find_newline]; [by rewrite app_nil_r|].
  destruct (is_newline c) eqn:Ec; [by rewrite app_nil_r|]. rewrite IH.
  assert (Hf : match find_newline l with Some i => 0 <= i | None => True end).
  { clear. induction l as [|c l IH]; [done|]. cbn [find_newline]. destruct (is_newline c); [done|].
    destruct (find_newline l); cbn; [lia|done]. }
  destruct (find_newline l) as [i|]; cbn [fmap option_fmap option_map]; [|by rewrite <- app_assoc].
  rewrite !zdrop_cons, ztake_cons by lia. replace (Z.succ i - 1) with i by lia. replace (Z.succ i + 1 - 1) with (i + 1) by lia.
  by rewrite <- app_assoc.
Qed.

(** What [find_newline] finds. *)
Lemma find_newline_spec l i : find_newline l = Some i ->
  exists c, l = ztake i l ++ c :: zdrop (i + 1) l /\ 0 <= i /\ lines l = ((ztake i l, c) :: (lines (zdrop (i + 1) l)).1, (lines (zdrop (i + 1) l)).2).
Proof.
  intros E. assert (H : 0 <= i /\ i < zlen l).
  { revert i E. induction l as [|c l IH]; [done|]. intros i. cbn [find_newline]. rewrite zlen_cons. pose proof (zlen_nonneg l).
    destruct (is_newline c); [intros [= <-]; lia|]. destruct (find_newline l) as [j|]; [|done]. intros [= <-].
    destruct (IH j eq_refl). lia. }
  destruct H as [H1 H2]. destruct (zdrop i l) as [|c rest] eqn:Ed.
  { apply (f_equal zlen) in Ed. rewrite zlen_drop in Ed by lia. change (zlen []) with 0 in Ed. lia. }
  assert (rest = zdrop (i + 1) l) as -> by by rewrite <- zdrop_zdrop, Ed by lia.
  exists c. split_and!; [by rewrite <- Ed, ztake_zdrop|done|]. unfold lines. rewrite lines_from_line, E, Ed.
  by destruct (lines_from [] (zdrop (i + 1) l)).
Qed.

Lemma find_newline_none l : find_newline l = None -> lines l = ([], l).
Proof. intros E. unfold lines. by rewrite lines_from_line, E. Qed.

(** The line that is not ended is the front of what it becomes. *)
Lemma lines_from_front line l : line `prefix_of` (match (lines_from line l).1 with (line', _) :: _ => line' | [] => (lines_from line l).2 end).
Proof.
  rewrite lines_from_line. destruct (find_newline l) as [i|]; cbn; [|by eexists].
  destruct (lines_from [] (zdrop (i + 1) l)). cbn. by eexists.
Qed.

Lemma tame_front a b : tame (a ++ b) = true -> tame a = true.
Proof.
  unfold tame, lines. rewrite fd_lines_from_app. cbn [fst snd]. set (r := (lines_from [] a).2).
  rewrite forallb_app. intros [[H1 H2]%andb_true_iff H3%Z.leb_le]%andb_true_iff. rewrite H1. cbn [andb].
  apply Z.leb_le. pose proof (lines_from_front r b) as [k Hk].
  destruct (lines_from r b).1 as [|[line' c] ls]; [rewrite Hk, zlen_app in H3; pose proof (zlen_nonneg k); lia|].
  cbn [forallb] in H2. apply andb_true_iff in H2 as [H2 _]. unfold tame_line in H2. cbn [fst] in H2.
  apply andb_true_iff in H2 as [_ H2%Z.leb_le]. rewrite Hk, zlen_app in H2. pose proof (zlen_nonneg k). lia.
Qed.

(** [l] stands for what [fs] came from, and then [b]. *)
Definition leaves (l : list byte) (fs : list Frame.Frame) (b : list byte) : Prop :=
  exists ls, frames_of ls = fs /\ lines l = (ls ++ (lines b).1, (lines b).2).

Lemma fd_leaves_refl l : leaves l [] l.
Proof. exists []. split; [done|]. by destruct (lines l). Qed.

Lemma frames_of_app a b : frames_of (a ++ b) = frames_of a ++ frames_of b.
Proof. unfold frames_of. by rewrite map_app, concat_app. Qed.

Lemma fd_leaves_more l fs b m : leaves l fs b -> leaves (l ++ m) fs (b ++ m).
Proof.
  intros (ls & Hf & E). exists ls. split; [done|]. unfold lines in *. rewrite !fd_lines_from_app, E. cbn [fst snd].
  by rewrite app_assoc.
Qed.

Lemma leaves_line l fs b i c : leaves l fs b -> find_newline b = Some i -> b = ztake i b ++ c :: zdrop (i + 1) b ->
  leaves l (fs ++ frame_of (ztake i b, c)) (zdrop (i + 1) b).
Proof.
  intros (ls & Hf & E) Hi Hb. destruct (find_newline_spec b i Hi) as (c' & Hb' & _ & El).
  rewrite Hb in Hb' at 1. apply app_inj_1 in Hb' as [_ [= ->]]; [|done]. rewrite El in E. cbn [fst snd] in E.
  exists (ls ++ [(ztake i b, c')]). split; [rewrite frames_of_app, Hf; unfold frames_of; cbn; by rewrite app_nil_r|].
  rewrite E, <- app_assoc. done.
Qed.

Lemma fd_leaves_prefix l fs b : leaves l fs b -> fs `prefix_of` frames_of (lines l).1.
Proof. intros (ls & Hf & E). rewrite E. cbn [fst]. rewrite frames_of_app, Hf. by eexists. Qed.

Lemma leaves_all l fs b : leaves l fs b -> find_newline b = None -> frames_of (lines l).1 = fs.
Proof.
  intros (ls & Hf & E) Hb. rewrite E, (find_newline_none b Hb). cbn [fst]. by rewrite app_nil_r.
Qed.

Lemma leaves_tame l fs b : leaves l fs b -> tame l = true -> tame b = true.
Proof.
  intros (ls & _ & E). unfold tame. rewrite E. cbn [fst snd]. rewrite forallb_app.
  intros [[_ ->]%andb_true_iff ->]%andb_true_iff. done.
Qed.

(** ** A line at a time *)

(** A client that waits, with its frame, or that does not. *)
Definition waits (s : State) : Prop := if current_callback s then current_frame s <> None else current_frame s = None.

Lemma ParseLine_meaning line c m s :
  is_done (meaning (line, c)) = true -> waits s -> current_callback s = true ->
  exists s' out, ParseLine line (line ++ c :: m) s = Done (s', out) /\
    streambuf s' = streambuf s /\ read_outstanding s' = read_outstanding s /\ write_buffer s' = write_buffer s /\
    waits s' /\ concat (map delivered out) = frame_of (line, c) /\ concat (map started out) = [] /\
    (current_callback s' = true -> frame_of (line, c) = []).
Proof.
  unfold meaning, frame_of, meaning, waits. cbn [fst snd]. intros Hm Hw Hc. rewrite Hc in Hw. unfold ParseLine.
  destruct (Z.eqb_spec (zlen line) 0) as [E|_].
  { destruct line; [|rewrite zlen_cons in E; pose proof (zlen_nonneg line); lia].
    change (starts_with [] (text_of "rcv ")) with false. eexists _, _. split; [done|]. rewrite Hc. by split_and!. }
  case_bool_decide as Eo.
  { subst line. change (starts_with (text_of "OK") (text_of "rcv ")) with false. eexists _, _. split; [done|]. cbn.
    rewrite Hc. by split_and!. }
  destruct (starts_with line (text_of "rcv ")); [|eexists _, _; split; [done|]; rewrite Hc; by split_and!].
  destruct (current_frame s) as [fr|] eqn:Ef; [|done].
  destruct (ParseRcv line (line ++ [c])) as [f|] eqn:Er; [|done].
  change (c :: m) with ([c] ++ m). rewrite app_assoc.
  rewrite (ParseRcv_app line (line ++ [c]) m f) by (done || (rewrite zlen_app; pose proof (zlen_nonneg [c]); lia)).
  rewrite bind_done. destruct f as [f|]; eexists _, _; (split; [done|]); cbn; rewrite ?Hc, ?Ef; by split_and!.
Qed.

(** What a round of parsing keeps. *)
Definition parsed (got : list byte) (fs : list Frame.Frame) (s s' : State) (out : list output) : Prop :=
  leaves got (fs ++ concat (map delivered out)) (streambuf s') /\ read_outstanding s' = read_outstanding s /\
  write_buffer s' = write_buffer s /\ waits s' /\ concat (map started out) = [] /\
  (current_callback s' = true -> concat (map delivered out) = []).

Lemma fd_ParseFrame_keeps got fs s :
  leaves got fs (streambuf s) -> tame got = true -> waits s -> current_callback s = true ->
  exists handled s' out, ParseFrame s = Done (handled, s', out) /\ parsed got fs s s' out /\
    if handled : bool then (length (streambuf s') < length (streambuf s))%nat /\ find_newline (streambuf s) <> None
    else find_newline (streambuf s') = None /\ current_callback s' = true.
Proof.
  intros Hl Ht Hw Hc. unfold ParseFrame, parsed. pose proof Hw as Hw'. unfold waits in Hw'. rewrite Hc in Hw'.
  destruct (current_frame s) as [fr|] eqn:Ef; [|done]. pose proof (leaves_tame _ _ _ Hl Ht) as Hb.
  destruct (find_newline (streambuf s)) as [i|] eqn:Ei.
  - destruct (find_newline_spec _ _ Ei) as (c & Eb & Hi & El). unfold tame in Hb. rewrite El in Hb. cbn [fst snd forallb] in Hb.
    apply andb_true_iff in Hb as [[[Hm _]%andb_true_iff _]%andb_true_iff _].
    destruct (ParseLine_meaning (ztake i (streambuf s)) c (zdrop (i + 1) (streambuf s)) s Hm Hw Hc)
      as (s1 & out & E & E1 & E2 & E3 & W & D & St & Hn). rewrite <- Eb in E. rewrite E, bind_done.
    eexists true, _, _. split; [done|]. cbn. split_and!; try done.
    + rewrite D, E1. by apply leaves_line.
    + intros Hc1. by rewrite D, Hn.
    + rewrite E1. apply (f_equal length) in Eb. rewrite length_app in Eb. cbn [length] in Eb. lia.
  - unfold tame in Hb. rewrite (find_newline_none _ Ei) in Hb. cbn in Hb. apply Z.leb_le in Hb.
    rewrite (proj2 (Z.ltb_ge _ _)) by done. eexists false, _, _. split; [done|]. cbn. rewrite app_nil_r. by split_and!.
Qed.

Lemma parsed_trans got fs s1 s2 s3 out more :
  parsed got fs s1 s2 out -> parsed got (fs ++ concat (map delivered out)) s2 s3 more ->
  (current_callback s3 = true -> current_callback s2 = true) -> parsed got fs s1 s3 (out ++ more).
Proof.
  intros (H1 & H2 & H3 & H4 & H5 & H6) (K1 & K2 & K3 & K4 & K5 & K6) Hc. unfold parsed.
  rewrite !map_app, !concat_app, app_assoc. split_and!; try done; try congruence.
  - by rewrite H5, K5.
  - intros H. by rewrite H6, K6 by auto.
Qed.

Lemma fd_ParseFrames_keeps got fuel : forall fs s,
  (length (streambuf s) < fuel)%nat -> leaves got fs (streambuf s) -> tame got = true -> waits s ->
  exists s' out, ParseFrames fuel s = Done (s', out) /\ parsed got fs s s' out /\
    (current_callback s' = true -> find_newline (streambuf s') = None /\ current_callback s = true).
Proof.
  induction fuel as [|fuel IH]; intros fs s Hf Hl Ht Hw; [lia|]. cbn [ParseFrames].
  destruct (current_callback s) eqn:Hc; cbn [negb].
  2:{ eexists _, _. split; [done|]. unfold parsed. cbn. rewrite app_nil_r, Hc. by split_and!. }
  destruct (fd_ParseFrame_keeps got fs s Hl Ht Hw Hc) as (handled & s1 & out & -> & P & Hh). rewrite bind_done. cbn beta iota.
  destruct handled; [destruct Hh as [Hh _]|eexists _, _; split; [done|]; split; [done|]; by destruct Hh].
  pose proof P as (Hl1 & _ & _ & Hw1 & _). destruct (IH _ s1 ltac:(lia) Hl1 Ht Hw1) as (s2 & more & -> & P2 & H2).
  rewrite bind_done. cbn beta iota. eexists _, _. split; [done|]. split; [|intros H; by split; [apply H2|]].
  eapply parsed_trans; [done..|]. intros H. by apply H2.
Qed.

(** ** Runs *)
Record inv (got : list byte) (fs : list Frame.Frame) (s : State) : Prop := {
  inv_leaves : leaves got fs (streambuf s);
  inv_waits : waits s;
  inv_reading : current_callback s = true -> read_outstanding s = true;
  inv_writer : FastOStringStream.ok (write_buffer s);
}.

Lemma fd_inv_make : inv [] [] make.
Proof. constructor; try done. apply fd_leaves_refl. Qed.

Lemma fd_MaybeStartRead_keeps got fs s :
  leaves got fs (streambuf s) -> tame got = true -> waits s -> FastOStringStream.ok (write_buffer s) ->
  exists s' out, MaybeStartRead s = Done (s', out) /\ inv got (fs ++ concat (map delivered out)) s' /\
    concat (map started out) = [] /\ (find_newline (streambuf s) = None -> find_newline (streambuf s') = None).
Proof.
  intros Hl Ht Hw Hb. unfold MaybeStartRead. destruct (read_outstanding s) eqn:Er.
  { eexists _, _. split; [done|]. cbn. rewrite app_nil_r. split_and!; by try constructor. }
  destruct (current_callback s) eqn:Hc; cbn [negb].
  2:{ eexists _, _. split; [done|]. cbn. rewrite app_nil_r. split_and!; try done. constructor; try done. by rewrite Hc. }
  destruct (fd_ParseFrame_keeps got fs s Hl Ht Hw Hc) as (handled & s1 & out & -> & (Hl1 & Hr1 & Hw1 & Hk1 & Hs1 & Hd1) & Hh).
  rewrite bind_done. cbn beta iota. assert (Hn : find_newline (streambuf s) = None -> find_newline (streambuf s1) = None)
    by (destruct handled; [by destruct Hh|by intros _; apply Hh]).
  destruct (current_callback s1) eqn:Hc1; cbn [negb]; eexists _, _; (split; [done|]).
  - rewrite !map_app, !concat_app, Hs1. cbn. rewrite !app_nil_r. split_and!; try done.
    constructor; try done. cbn. by rewrite Hw1.
  - split_and!; try done. constructor; try done; [by rewrite Hc1|by rewrite Hw1].
Qed.

Lemma fd_HandleRead_keeps got fs s data :
  inv got fs s -> tame (got ++ data) = true ->
  exists s' out, HandleRead 0 data s = Done (s', out) /\ inv (got ++ data) (fs ++ concat (map delivered out)) s' /\
    concat (map started out) = [] /\ (current_callback s' = true -> find_newline (streambuf s') = None).
Proof.
  intros [Hl Hw Hr Hb] Ht. unfold HandleRead. cbn [FailIf mj_assert Z.eqb]. rewrite bind_done. cbv zeta.
  set (s0 := with_outstanding false _). apply (fd_leaves_more _ _ _ data) in Hl.
  destruct (fd_ParseFrames_keeps (got ++ data) (S (length (streambuf s0))) fs s0 ltac:(lia) Hl Ht Hw)
    as (s1 & out & -> & (Hl1 & _ & Hw1 & Hk1 & Hs1 & _) & Hn). rewrite bind_done. cbn beta iota.
  destruct (fd_MaybeStartRead_keeps _ _ s1 Hl1 Ht Hk1) as (s2 & more & E2 & Hi & Hs2 & Hn2); [by rewrite Hw1|].
  rewrite E2, bind_done. cbn beta iota. eexists _, _. split; [done|]. rewrite !map_app, !concat_app, Hs1, Hs2, app_assoc.
  split_and!; try done. intros Hc. apply Hn2. destruct (current_callback s1) eqn:Hc1; [by apply Hn|].
  unfold MaybeStartRead in E2. rewrite Hc1 in E2. destruct (read_outstanding s1); injection E2 as <- _; by rewrite Hc1 in Hc.
Qed.

Definition possible (e : event) (s : State) : bool :=
  match e with
  | Ask _ _ => negb (current_callback s)
  | Arrive data => read_outstanding s && (0 <? zlen data) && (zlen data <=? kBlockSize)
  | Send _ | Timer _ => true
  | Cancel => false
  end.

Definition handle (e : event) (s : State) : outcome (State * list output) :=
  match e with
  | Ask frame timeout => AsyncRead frame timeout s
  | Send frames => AsyncWriteMultiple frames s
  | Arrive data => HandleRead 0 data s
  | Timer canceled => HandleTimer (if canceled then kAborted else 0) s
  | Cancel => cancel s
  end.

(** The text of a frame that is sent. *)
Definition sent_line (f : Frame.Frame) : list byte := text_of "can send " ++ frame_text f ++ [byte.of_Z 10].
Definition sent (e : event) : list byte := match e with Send frames => concat (map sent_line frames) | _ => [] end.

Lemma encode_all_lines frames : forall b oks, FastOStringStream.ok b ->
  exists b' oks', encode_all frames b oks = Done (b', oks') /\ FastOStringStream.ok b' /\
    FastOStringStream.str b' = FastOStringStream.str b ++ concat (map sent_line frames).
Proof.
  induction frames as [|f frames IH]; intros b oks Hb; [exists b, oks; cbn; by rewrite app_nil_r|].
  cbn [encode_all map concat]. destruct (EncodeFdcanusb_emits f b) as (b1 & E1 & V1 & O1 & _); [exact Hb|done|]. rewrite E1, bind_done.
  destruct (IH b1 (oks + 1) V1) as (b' & oks' & -> & V' & O'). exists b', oks'. split_and!; [done..|].
  rewrite O'. cbn in O1. by rewrite O1, <- app_assoc.
Qed.

Lemma fd_handle_keeps e got fs s :
  inv got fs s -> possible e s = true -> tame (got ++ arrived e) = true ->
  exists s' out, handle e s = Done (s', out) /\ inv (got ++ arrived e) (fs ++ concat (map delivered out)) s' /\
    concat (map started out) = sent e.
Proof.
  intros Hi Hp Ht. pose proof Hi as [Hl Hw Hr Hb]. destruct e as [frame timeout|frames|data|canceled|];
    cbn [handle possible arrived sent] in *; rewrite ?app_nil_r in *; [..|done].
  - apply negb_true_iff in Hp. unfold waits in Hw. rewrite Hp in Hw. unfold AsyncRead. rewrite Hw, Hp. cbn [mj_assert negb]. rewrite !bind_done.
    destruct (fd_MaybeStartRead_keeps got fs (with_current (Some frame) true s)) as (s' & out & E & Hi' & Ho & _); [done..|].
    rewrite E, bind_done. eexists _, _. split; [done|]. by destruct (timeout =? 0).
  - unfold AsyncWriteMultiple. destruct (encode_all_lines frames (FastOStringStream.clear (write_buffer s)) (outstanding_oks s))
      as (b & oks & -> & Hb' & Ob); [apply FastOStringStream.ok_clear|].
    rewrite bind_done. cbn beta iota. eexists _, _. split; [done|]. cbn. rewrite !app_nil_r, Ob. split; [by constructor|done].
  - destruct (fd_HandleRead_keeps got fs s data Hi Ht) as (s' & out & E & Hi' & Hs & _). by eexists _, _.
  - unfold HandleTimer. destruct canceled; [exists s, []; cbn; by rewrite app_nil_r|].
    change (0 =? kAborted) with false. cbn [FailIf mj_assert Z.eqb]. rewrite bind_done. unfold waits in Hw.
    cbn [with_oks with_write current_callback current_frame]. destruct (current_callback s) eqn:Ec.
    + destruct (current_frame s) as [f|]; [|done]. eexists _, _. split; [done|]. cbn. rewrite app_nil_r. by split.
    + eexists _, _. split; [done|]. cbn. rewrite app_nil_r. split; [|done]. constructor; try done; [unfold waits; cbn; by rewrite Ec|cbn; by rewrite Ec].
Qed.

Lemma fd_run_inv es : legal handle possible es make = true -> tame (concat (map arrived es)) = true ->
  exists s out, run handle es make = Done (s, out) /\
    inv (concat (map arrived es)) (concat (map delivered out)) s /\ concat (map started out) = concat (map sent es).
Proof. exact (run_keeps handle possible inv tame sent tame_front fd_handle_keeps es [] [] make fd_inv_make). Qed.

(** Who still waits once some text has come has got all. *)
Lemma fd_run_all es data s out :
  legal handle possible (es ++ [Arrive data]) make = true -> tame (concat (map arrived (es ++ [Arrive data]))) = true ->
  run handle (es ++ [Arrive data]) make = Done (s, out) -> current_callback s = true ->
  concat (map delivered out) = frames_of (lines (concat (map arrived (es ++ [Arrive data])))).1.
Proof.
  intros Hl Ht E Hc. destruct (fd_run_inv _ Hl Ht) as (s' & out' & E' & Hi & _). rewrite E in E'. injection E' as <- <-.
  destruct (run_last handle _ _ _ _ _ E) as (s1 & o1 & o2 & E1 & E2 & ->).
  destruct (legal_last handle possible _ _ _ _ _ Hl E1) as [Hl1 _]. rewrite (map_app arrived), concat_app in *. cbn [map concat arrived handle] in *. rewrite app_nil_r in *.
  destruct (fd_run_inv es Hl1 (tame_front _ _ Ht)) as (s1' & o1' & E1' & Hi1 & _). rewrite E1 in E1'. injection E1' as <- <-.
  destruct (fd_HandleRead_keeps _ _ _ data Hi1 Ht) as (s' & out' & E2' & _ & _ & Hn). rewrite E2 in E2'.
  injection E2' as <- <-. symmetry. eapply leaves_all; [apply Hi|by apply Hn].
Qed.

(** C26: a host with an fdcanusb adapter.  In any order of reads, writes, text
    that arrives in any chunks, and timeouts, the frame stream refines the reading
    of the whole text as lines: as long as every line has a meaning and none is
    longer than 512, nothing faults, the frames that the reads bring are those of
    the lines "rcv", whole and in order, and every frame that is sent is a line; and
    a client that still waits after some text has come has got all there are. *)
Theorem fdcanusb_refines_lines (es : list event) :
  legal handle possible es make = true -> tame (concat (map arrived es)) = true ->
  exists s out, run handle es make = Done (s, out) /\
    concat (map delivered out) `prefix_of` frames_of (lines (concat (map arrived es))).1 /\
    concat (map started out) = concat (map sent es) /\
    forall before data, es = before ++ [Arrive data] -> current_callback s = true ->
      concat (map delivered out) = frames_of (lines (concat (map arrived es))).1.
Proof.
  intros Hl Ht. destruct (fd_run_inv es Hl Ht) as (s & out & E & Hi & Ho). exists s, out. split_and!; [done|by eapply fd_leaves_prefix, inv_leaves|done|].
  intros before data -> Hc. by eapply fd_run_all.
Qed.

(** ** Frames from host to host *)

(** What an adapter writes: the acknowledgement of a frame that was sent, or a frame
    that was received; with the end of the line, some line ends. *)
Inductive adapter_line := LOk | LRcv (f : Frame.Frame).

Definition adapter_text (l : adapter_line) : list byte := match l with LOk => text_of "OK" | LRcv f => rcv_line f end.
Definition adapter_frame (l : adapter_line) : list Frame.Frame := match l with LOk => [] | LRcv f => [on_bus f] end.
Definition line_ok (l : adapter_line * list byte) : Prop :=
  match l.1 with LOk => True | LRcv f => fits_bus f end /\ l.2 <> [] /\ Forall (fun c => is_newline c = true) l.2.

Definition transcript (ls : list (adapter_line * list byte)) : list byte := concat (map (fun l => adapter_text l.1 ++ l.2) ls).

Lemma newline_no_digit c m : is_newline c = true -> no_digit (c :: m).
Proof. by destruct c. Qed.

Lemma lines_word line : forall cur l, Forall (fun c => is_newline c = false) line -> lines_from cur (line ++ l) = lines_from (cur ++ line) l.
Proof.
  induction line as [|c line IH]; intros cur l Hl; [by rewrite app_nil_r|]. apply Forall_cons_1 in Hl as [Hc Hl].
  cbn [lines_from app]. rewrite Hc, IH by done. by rewrite <- app_assoc.
Qed.

Lemma lines_ends ends l : Forall (fun c => is_newline c = true) ends ->
  lines_from [] (ends ++ l) = (map (pair []) ends ++ (lines l).1, (lines l).2).
Proof.
  induction 1 as [|c ends Hc _ IH]; [apply surjective_pairing|]. cbn [lines_from app map]. by rewrite Hc, IH.
Qed.

Lemma rcv_line_length f : fits_bus f -> zlen (rcv_line f) <= 142.
Proof.
  intros (_ & _ & Hp). pose proof (bus_size_bound (zlen (Frame.payload f)) ltac:(lia)).
  assert (forall fuel n, (length (format_x fuel n) <= fuel)%nat) as Hx.
  { induction fuel as [|fuel IH]; intros n; [done|]. cbn [format_x]. rewrite length_app. cbn [length].
    destruct (n <? 16); [cbn; lia|]. specialize (IH (n / 16)). lia. }
  specialize (Hx 8%nat (id_of f)). unfold rcv_line, frame_text, padded, padding, zlen in *.
  rewrite !length_app, hex_length, length_app, length_replicate.
  change (length (text_of "rcv ")) with 4%nat. change (length (text_of " ")) with 1%nat. lia.
Qed.

Lemma adapter_meaning l c : line_ok (l, [c]) -> meaning (adapter_text l, c) = Done (head (adapter_frame l)).
Proof.
  intros (Hf & _ & Hc). cbn [fst snd] in *. apply Forall_cons_1 in Hc as [Hc _]. destruct l as [|f]; [done|].
  unfold meaning. cbn [fst snd adapter_text]. unfold starts_with. rewrite bool_decide_true by by eexists.
  apply ParseRcv_frame; [done|]. by apply newline_no_digit.
Qed.

Lemma transcript_lines ls : Forall line_ok ls ->
  frames_of (lines (transcript ls)).1 = concat (map adapter_frame (map fst ls)) /\ tame (transcript ls) = true.
Proof.
  induction 1 as [|[l ends] ls (Hf & Hne & He) _ IH]; [done|]. cbn [fst snd] in *.
  unfold transcript in *. cbn [map concat fst snd]. set (rest := concat _) in *.
  assert (Hw : Forall (fun c => is_newline c = false) (adapter_text l)) by (destruct l; [by repeat constructor|by apply rcv_line_chars]).
  assert (Hz : zlen (adapter_text l) <= kMaxLineLength).
  { destruct l as [|f]; [done|]. pose proof (rcv_line_length f Hf). unfold kMaxLineLength. cbn [adapter_text]. lia. }
  destruct ends as [|e ends]; [done|]. apply Forall_cons_1 in He as [He Hes].
  assert (E : lines ((adapter_text l ++ e :: ends) ++ rest) = ((adapter_text l, e) :: map (pair []) ends ++ (lines rest).1, (lines rest).2)).
  { unfold lines at 1. rewrite <- app_assoc, lines_word by done. cbn [lines_from app]. by rewrite He, lines_ends. }
  assert (Hm : meaning (adapter_text l, e) = Done (head (adapter_frame l))) by (apply adapter_meaning; split_and!; [done..|by constructor]).
  assert (Hn : forall x, frames_of (map (pair []) ends ++ x) = frames_of x).
  { intros x. rewrite frames_of_app. enough (frames_of (map (pair []) ends) = []) as -> by done. clear. by induction ends. }
  assert (Ht : forallb tame_line (map (pair []) ends) = true) by (clear; by induction ends).
  unfold tame in *. rewrite E. cbn [fst snd forallb]. change (frames_of (?x :: ?y)) with (frame_of x ++ frames_of y).
  rewrite Hn, forallb_app, Ht. destruct IH as [-> [-> ->]%andb_true_iff]. unfold frame_of, tame_line. rewrite Hm. cbn [fst is_done].
  rewrite (proj2 (Z.leb_le _ _)) by done. destruct l; by split.
Qed.

(** C27: frames go through.  What an adapter writes, acknowledgements and the
    frames of the bus, each a line with any line ends, in whatever pieces it
    arrives: a client that keeps reading gets each frame once and in order, as the
    one who sent it gave it, padded to a length that the bus allows. *)
Theorem fdcanusb_carries_frames (ls : list (adapter_line * list byte)) (es : list event) (data : list byte) :
  Forall line_ok ls -> legal handle possible (es ++ [Arrive data]) make = true ->
  concat (map arrived (es ++ [Arrive data])) = transcript ls ->
  exists s out, run handle (es ++ [Arrive data]) make = Done (s, out) /\
    concat (map delivered out) `prefix_of` concat (map adapter_frame (map fst ls)) /\
    (current_callback s = true -> concat (map delivered out) = concat (map adapter_frame (map fst ls))).
Proof.
  intros Hok Hl E. destruct (transcript_lines ls Hok) as [Ef Ht]. rewrite <- E in Ef, Ht. rewrite <- Ef.
  destruct (fd_run_inv _ Hl Ht) as (s & out & R & Hi & _). exists s, out. split_and!; [done|by eapply fd_leaves_prefix, inv_leaves|].
  intros Hc. by eapply fd_run_all.
Qed.

(** Two frames; the text of the first one comes in three pieces. *)
Definition bus_frame (source payload : Z) : Frame.Frame :=
  {| Frame.source_id := source; Frame.request_reply := true; Frame.dest_id := 1; Frame.payload := [byte.of_Z payload] |}.
Definition blank : Frame.Frame :=
  {| Frame.source_id := 0; Frame.request_reply := false; Frame.dest_id := 0; Frame.payload := [] |}.
Definition crlf : list byte := [byte.of_Z 13; byte.of_Z 10].
Definition two_lines : list (adapter_line * list byte) :=
  [(LOk, crlf); (LRcv (bus_frame 2 0x41), [byte.of_Z 10]); (LRcv (bus_frame 3 0x42), crlf)].
Definition two_reads : list event :=
  [Ask blank 15; Send [bus_frame 1 7]; Arrive (ztake 9 (transcript two_lines)); Timer false; Ask blank 15;
   Arrive (ztake 8 (zdrop 9 (transcript two_lines))); Ask blank 0].

Lemma fdcanusb_refines_lines_witness :
  legal handle possible two_reads make = true /\
  exists s out, run handle two_reads make = Done (s, out) /\
    concat (map delivered out) `prefix_of` frames_of (lines (concat (map arrived two_reads))).1 /\
    concat (map started out) = concat (map sent two_reads) /\
    forall before data, two_reads = before ++ [Arrive data] -> current_callback s = true ->
      concat (map delivered out) = frames_of (lines (concat (map arrived two_reads))).1.
Proof.
  split; [vm_compute; reflexivity|]. apply (fdcanusb_refines_lines two_reads); vm_compute; reflexivity.
Defined.

Lemma fdcanusb_carries_frames_witness :
  let es := two_reads ++ [Arrive (zdrop 17 (transcript two_lines))] in
  concat (map arrived es) = transcript two_lines /\
  exists s out, run handle es make = Done (s, out) /\
    concat (map delivered out) `prefix_of` concat (map adapter_frame (map fst two_lines)) /\
    (current_callback s = true -> concat (map delivered out) = concat (map adapter_frame (map fst two_lines))).
Proof.
  split; [vm_compute; reflexivity|].
  apply (fdcanusb_carries_frames two_lines two_reads); [|vm_compute; reflexivity..].
  repeat constructor; vm_compute; discriminate || reflexivity.
Defined.

(** A read that finds a line end, or any line that is no frame, in front of what has
    come looks no further: it reads the stream and times out, with the frame there
    in its buffer. *)
Theorem line_in_front_holds_back (s : State) (frame : Frame.Frame) (timeout : Z) (line : list byte) (c : byte) (rest : list byte) :
  current_callback s = false -> current_frame s = None -> read_outstanding s = false ->
  streambuf s = line ++ c :: rest -> Forall (fun c => is_newline c = false) line -> is_newline c = true ->
  meaning (line, c) = Done None ->
  exists s' s'', AsyncRead frame timeout s =
      Done (s', [if timeout =? 0 then TimerCancel else TimerStart timeout; StartRead kBlockSize]) /\
    HandleTimer 0 s' = Done (s'', [ReadCalled kAborted (Some frame)]) /\ streambuf s'' = rest.
Proof.
  intros Hc Hf Hr Hb Hl Hn Hm. unfold AsyncRead. rewrite Hc, Hf. cbn [mj_assert negb]. rewrite !bind_done.
  unfold MaybeStartRead. cbn [read_outstanding with_current current_callback negb]. rewrite Hr. unfold ParseFrame.
  cbn [current_frame streambuf with_current]. set (s1 := with_current (Some frame) true s).
  assert (Hi : find_newline (streambuf s) = Some (zlen line)).
  { rewrite Hb. clear - Hl Hn. induction Hl as [|x line Hx _ IH]; cbn [app find_newline]; [by rewrite Hn|].
    rewrite Hx, IH, zlen_cons. cbn. f_equal. lia. }
  rewrite Hi, Hb, ztake_app_len.
  destruct (ParseLine_meaning line c rest s1) as (s2 & out & E & E1 & E2 & E3 & W & D & St & _); [by rewrite Hm|done|done|].
  assert (Hout : out = [] /\ current_callback s2 = true /\ current_frame s2 = Some frame).
  { unfold ParseLine in E. destruct (zlen line =? 0); [injection E; intros <- <-; done|]. case_bool_decide; [injection E; intros <- <-; done|].
    destruct (starts_with line (text_of "rcv ")) eqn:Es; [|injection E; intros <- <-; done]. cbn [current_frame s1 with_current] in E.
    unfold meaning in Hm. cbn [fst snd] in Hm. rewrite Es in Hm. change (c :: rest) with ([c] ++ rest) in E. rewrite app_assoc in E.
    rewrite (ParseRcv_app line (line ++ [c]) rest None) in E by (done || (rewrite zlen_app; pose proof (zlen_nonneg [c]); lia)).
    rewrite bind_done in E. by injection E as <- <-. }
  destruct Hout as (-> & Hc2 & Hf2). rewrite E, !bind_done. cbn beta iota. cbn [with_streambuf current_callback]. rewrite Hc2. cbn [negb].
  eexists _, _. split; [done|]. unfold HandleTimer. change (0 =? kAborted) with false. cbn [FailIf mj_assert Z.eqb]. rewrite bind_done.
  cbn [with_oks with_write with_outstanding with_streambuf current_callback current_frame]. rewrite Hc2, Hf2. split; [done|].
  cbn. rewrite E1. cbn. rewrite Hb. change (c :: rest) with ([c] ++ rest). rewrite app_assoc. apply zdrop_app_full. by rewrite zlen_app.
Qed.

(** Two frames in one piece, with the line ends that the adapter uses: the second
    is not received. *)
Lemma line_in_front_holds_back_witness :
  exists s out, run handle [Ask blank 15; Arrive (transcript [(LRcv (bus_frame 2 0x41), crlf); (LRcv (bus_frame 3 0x42), crlf)])] make
      = Done (s, out) /\ concat (map delivered out) = [bus_frame 2 0x41] /\
    exists s' s'', AsyncRead blank 15 s = Done (s', [TimerStart 15; StartRead kBlockSize]) /\
      HandleTimer 0 s' = Done (s'', [ReadCalled kAborted (Some blank)]) /\ streambuf s'' = rcv_line (bus_frame 3 0x42) ++ crlf.
Proof.
  eexists _, _. split; [vm_compute; reflexivity|]. split; [vm_compute; reflexivity|].
  apply (line_in_front_holds_back _ blank 15 [] (byte.of_Z 10) (rcv_line (bus_frame 3 0x42) ++ crlf));
    first [vm_compute; reflexivity|constructor].
Defined.
