(* ===== verification/SocketcanFrameStream.v ===== *)
(** * multiplex/socketcan_frame_stream.cc: frames on a CAN bus of the host

    [SocketcanFrameStream::Impl] sends and receives the [canfd_frame] of Linux; how
    that lies in memory belongs to the kernel, so a frame here is the record.
    What follows the code: one frame a write, several frames one after the other as
    the writes complete, and frames that are received as they come. *)
From S2P Require Import Prelude Streams MultiplexStream Register FrameStream FdcanusbFrameStream FdcanusbText.
#[local] Open Scope Z_scope.

Module SocketcanFrameStream.

(** linux/can.h *)
Definition CAN_EFF_FLAG : Z := 0x80000000.
Definition CANFD_MTU : Z := 72.
Record canfd_frame := { can_id : Z; len : Z; data : list byte }.

(** The table of sizes is the same as that of the adapter's stream. *)
Definition RoundUpDlc (value : Z) : Z :=
  if value =? 0 then 0
  else if value =? 1 then 1
  else if value =? 2 then 2
  else if value =? 3 then 3
  else if value =? 4 then 4
  else if value =? 5 then 5
  else if value =? 6 then 6
  else if value =? 7 then 7
  else if value =? 8 then 8
  else if value <=? 12 then 12
  else if value <=? 16 then 16
  else if value <=? 20 then 20
  else if value <=? 24 then 24
  else if value <=? 32 then 32
  else if value <=? 48 then 48
  else if value <=? 64 then 64
  else 0.

(** Who hears of the end of a write: the client, or the next of several writes,
    [WriteMultipleContext]. *)
Inductive write_callback :=
  | ClientWrite
  | NextWrite (frames : list Frame.Frame) (index : Z).

Inductive can_output :=
  | Write (frame : canfd_frame) (callback : write_callback)
  | StartedRead
  | CancelStream
  | Other (o : output).

Record State := {
  current_frame : option Frame.Frame;
  current_callback : bool;
  send_frame : canfd_frame;
}.

Definition make : State :=
  {| current_frame := None; current_callback := false;
     send_frame := {| can_id := 0; len := 0; data := replicate 64 (byte.of_Z 0) |} |}.

Definition with_send (f : canfd_frame) (s : State) : State :=
  {| current_frame := current_frame s; current_callback := current_callback s; send_frame := f |}.
Definition with_current (f : option Frame.Frame) (c : bool) (s : State) : State :=
  {| current_frame := f; current_callback := c; send_frame := send_frame s |}.

(** The loop that pads [data] from a size to another. *)
Fixpoint pad (n : nat) (i : Z) (data : list byte) : outcome (list byte) :=
  match n with
  | O => Done data
  | S n => data ← store data i [byte.of_Z 0x50]; pad n (i + 1) data
  end.

Definition AsyncWrite (frame : Frame.Frame) (callback : write_callback) (s : State) : outcome (State * list can_output) :=
  let id := Z.lor (Z.shiftl (Z.lor (Frame.source_id frame) (if Frame.request_reply frame then 0x80 else 0x00)) 8)
                  (Frame.dest_id frame) in
  let id := if 0x7ff <? id then Z.lor id CAN_EFF_FLAG else id in
  let actual_size := RoundUpDlc (zlen (Frame.payload frame)) in
  data ← store (data (send_frame s)) 0 (Frame.payload frame);
  data ← pad (Z.to_nat (actual_size - zlen (Frame.payload frame))) (zlen (Frame.payload frame)) data;
  let f := {| can_id := id; len := actual_size; data := data |} in
  Done (with_send f s, [Write f callback]).

Definition StartWriteMultipleContext (frames : list Frame.Frame) (index : Z) (s : State)
    : outcome (State * list can_output) :=
  if zlen frames <=? index then Done (s, [Other (WritePosted 0)])
  else
    match frames !! Z.to_nat index with
    | None => Faulted Undefined
    | Some frame => AsyncWrite frame (NextWrite frames (index + 1)) s
    end.

Definition AsyncWriteMultiple (frames : list Frame.Frame) (s : State) : outcome (State * list can_output) :=
  StartWriteMultipleContext frames 0 s.

(** A write has completed. *)
Definition HandleWrite (ec : Z) (callback : write_callback) (s : State) : outcome (State * list can_output) :=
  match callback with
  | ClientWrite => Done (s, [Other (WriteCalled ec)])
  | NextWrite frames index =>
      if negb (ec =? 0) then Done (s, [Other (WritePosted ec)])
      else StartWriteMultipleContext frames index s
  end.

Definition AsyncRead (frame : Frame.Frame) (timeout : Z) (s : State) : outcome (State * list can_output) :=
  _ ← mj_assert (match current_frame s with None => true | _ => false end);
  _ ← mj_assert (negb (current_callback s));
  let timer := if timeout =? 0 then TimerCancel else TimerStart timeout in
  Done (with_current (Some frame) true s, [Other timer; StartedRead]).

(** A read has completed, with [size] bytes and [recv_frame] filled. *)
Definition HandleRead (ec size : Z) (recv_frame : canfd_frame) (s : State) : outcome (State * list can_output) :=
  if negb (ec =? 0) then Done (with_current None false s, [Other (ReadPosted ec (current_frame s))])
  else
    _ ← mj_assert (size =? CANFD_MTU);
    match current_frame s with
    | None => Faulted Undefined
    | Some _ =>
        payload ← load (data recv_frame) 0 (len recv_frame);
        let frame :=
          {| Frame.source_id := Z.shiftr (Z.land (can_id recv_frame) 0x7f00) 8;
             Frame.dest_id := Z.land (can_id recv_frame) 0x007f;
             Frame.request_reply := negb (Z.land (can_id recv_frame) 0x8000 =? 0);
             Frame.payload := payload |} in
        Done (with_current None false s, [Other (ReadPosted 0 (Some frame))])
    end.

Definition HandleTimer (ec : Z) (s : State) : outcome (State * list can_output) :=
  if ec =? kAborted then Done (s, [])
  else
    _ ← FailIf ec;
    if current_callback s then Done (s, [CancelStream]) else Done (s, []).

Definition cancel (s : State) : outcome (State * list can_output) := Faulted Assertion.
Definition read_data_queued (s : State) : bool := false.
Definition properties_max_size : Z := 64.
End SocketcanFrameStream.
Import SocketcanFrameStream.

(** ** Frames go through *)
Lemma pad_stores n : forall i d, 0 <= i -> i + Z.of_nat n <= zlen d ->
  exists d', pad n i d = Done d' /\ zlen d' = zlen d /\ ztake (i + Z.of_nat n) d' = ztake i d ++ replicate n (byte.of_Z 0x50).
Proof.
  induction n as [|n IH]; intros i d Hi Hd.
  { exists d. cbn [pad replicate]. by rewrite Z.add_0_r, app_nil_r. }
  cbn [pad]. destruct (store d i [byte.of_Z 0x50]) as [d1|f] eqn:E; [|rewrite store_done in E by (change (zlen [_]) with 1; lia); done].
  rewrite bind_done. pose proof (zlen_store _ _ _ _ E) as Hz. destruct (IH (i + 1) d1 ltac:(lia) ltac:(lia)) as (d' & -> & Hz' & Ht).
  exists d'. split_and!; [done|lia|]. replace (i + Z.of_nat (S n)) with (i + 1 + Z.of_nat n) by lia. rewrite Ht.
  pose proof (store_prefix _ _ _ _ E) as Hp. change (zlen [_]) with 1 in Hp. rewrite Hp, <- app_assoc. done.
Qed.

Lemma can_RoundUpDlc_size n : 0 <= n -> RoundUpDlc n = bus_size n.
Proof. exact (RoundUpDlc_size n). Qed.

(** The state of a stream that has sent something. *)
Definition ready (s : State) : Prop := zlen (data (send_frame s)) = 64.

Definition fits_can (f : Frame.Frame) : Prop :=
  in_u 7 (Frame.source_id f) /\ in_u 7 (Frame.dest_id f) /\ zlen (Frame.payload f) <= 64.

Lemma id_and_flag id mask : in_u 16 id -> 0 <= mask < 2 ^ 31 -> Z.land (Z.lor id CAN_EFF_FLAG) mask = Z.land id mask.
Proof.
  intros Hi Hm. rewrite Z.land_lor_distr_l. enough (Z.land CAN_EFF_FLAG mask = 0) as -> by apply Z.lor_0_r.
  change CAN_EFF_FLAG with (Z.shiftl 1 31). apply Z.bits_inj'. intros n Hn.
  rewrite Z.land_spec, Z.bits_0. destruct (Z.lt_ge_cases n 31).
  - rewrite Z.shiftl_spec_low by lia. done.
  - apply andb_false_iff. right. apply Z.bits_above_log2; [lia|]. destruct (Z.eq_dec mask 0) as [->|]; [cbn; lia|].
    apply Z.log2_lt_pow2; [lia|]. apply Z.lt_le_trans with (2 ^ 31); [lia|]. apply Z.pow_le_mono_r; lia.
Qed.

Lemma AsyncWrite_frame f callback s : fits_can f -> ready s ->
  exists s' c, AsyncWrite f callback s = Done (s', [Write c callback]) /\ ready s' /\
    current_frame s' = current_frame s /\ current_callback s' = current_callback s /\
    len c = zlen (padded f) /\ zlen (data c) = 64 /\ ztake (len c) (data c) = padded f /\
    (can_id c = id_of f \/ can_id c = Z.lor (id_of f) CAN_EFF_FLAG).
Proof.
  intros (Hs & Hd & Hp) Hr. unfold AsyncWrite, ready in *. set (p := Frame.payload f) in *. pose proof (zlen_nonneg p).
  pose proof (bus_size_bound (zlen p) ltac:(lia)) as Hb. rewrite can_RoundUpDlc_size by lia.
  destruct (store (data (send_frame s)) 0 p) as [d|] eqn:E; [|rewrite store_done in E by lia; done]. rewrite bind_done.
  pose proof (zlen_store _ _ _ _ E) as Hz. pose proof (store_prefix _ _ _ _ E) as Ht. cbn [ztake Z.to_nat] in Ht.
  destruct (pad_stores (padding f) (zlen p) d ltac:(lia)) as (d' & E' & Hz' & Ht'); [unfold padding; fold p; lia|].
  unfold padding in E' at 1. fold p in E'. rewrite E', bind_done. cbn beta zeta.
  assert (Hl : zlen (padded f) = bus_size (zlen p)).
  { unfold padded, padding. fold p. rewrite zlen_app, zlen_replicate. lia. }
  eexists _, _. split; [done|]. cbn. split_and!; try lia; try done.
  - replace (bus_size (zlen p)) with (zlen p + Z.of_nat (padding f)) by (unfold padding; fold p; lia).
    rewrite Ht'. unfold padded. fold p. f_equal. rewrite Z.add_0_l in Ht. exact Ht.
  - fold (id_of f). destruct (_ <? _); auto.
Qed.

(** What [HandleRead] makes of a frame that was sent. *)
Definition brings (f : Frame.Frame) (c : canfd_frame) : Prop := forall r frame, current_frame r = Some frame ->
  HandleRead 0 CANFD_MTU c r = Done (with_current None false r, [Other (ReadPosted 0 (Some (on_bus f)))]).

Lemma sent_frame_brings f c : fits_can f -> len c = zlen (padded f) -> zlen (data c) = 64 -> ztake (len c) (data c) = padded f ->
  can_id c = id_of f \/ can_id c = Z.lor (id_of f) CAN_EFF_FLAG -> brings f c.
Proof.
  intros (Hs & Hd & Hp) Hl Hz Hc Hi r frame Hr. unfold HandleRead. cbn [Z.eqb negb]. change (CANFD_MTU =? CANFD_MTU) with true. cbn [mj_assert]. rewrite bind_done, Hr.
  pose proof (zlen_nonneg (padded f)).
  assert (zlen (padded f) <= 64) as Hb.
  { pose proof (bus_size_bound (zlen (Frame.payload f))). pose proof (zlen_nonneg (Frame.payload f)).
    unfold padded, padding. rewrite zlen_app, zlen_replicate. lia. }
  rewrite load_done by lia. rewrite zdrop_0, Hc, bind_done. do 5 f_equal. unfold on_bus.
  destruct (source_bits _ (Frame.request_reply f) Hs) as (S8 & S1 & S2). destruct (id_bits _ _ S8 Hd) as (I16 & I1 & I2).
  fold (id_of f) in *. set (id := id_of f) in *.
  assert (forall mask, 0 <= mask < 2 ^ 31 -> Z.land (can_id c) mask = Z.land id mask) as Hm.
  { intros mask Hm. destruct Hi as [->| ->]; [done|]. by apply id_and_flag. }
  assert (Z.shiftr (Z.land id 0x7f00) 8 = Frame.source_id f) as E1 by (rewrite Z.shiftr_land, I1; exact S1).
  assert (Z.land id 0x8000 = Z.shiftl (Z.land (Z.shiftr id 8) 0x80) 8) as E2.
  { rewrite Z.shiftl_land. change (Z.shiftl 0x80 8) with 0x8000. apply Z.bits_inj'. intros n Hn. rewrite !Z.land_spec.
    destruct (Z.lt_ge_cases n 8).
    - assert (Z.testbit 0x8000 n = false) as -> by (change 0x8000 with (2 ^ 15); apply Z.pow2_bits_false; lia). by rewrite !andb_false_r.
    - by rewrite Z.shiftl_spec, Z.shiftr_spec, Z.sub_add by lia. }
  assert (negb (Z.land id 0x8000 =? 0) = Frame.request_reply f) as E3.
  { rewrite E2, I1. clear - S2. revert S2. generalize (Z.land (Z.lor (Frame.source_id f) (if Frame.request_reply f then 128 else 0)) 128).
    intros b <-. destruct (Z.eqb_spec b 0) as [->|Hb0]; [done|]. rewrite (proj2 (Z.eqb_neq _ 0)); [done|].
    by rewrite Z.shiftl_eq_0_iff by lia. }
  by rewrite !Hm, I2, E1, E3 by lia.
Qed.

(** Writes that complete, one after the other: what is sent, and what the client
    hears of in the end. *)
Fixpoint complete (n : nat) (r : outcome (State * list can_output)) : list canfd_frame * option Z :=
  match r with
  | Done (s, [Write c callback]) =>
      match n with
      | O => ([], None)
      | S n => let '(cs, ec) := complete n (HandleWrite 0 callback s) in (c :: cs, ec)
      end
  | Done (_, [Other (WritePosted ec)]) => ([], Some ec)
  | _ => ([], None)
  end.

Lemma complete_rest rest : forall before s, Forall fits_can rest -> ready s ->
  exists cs, complete (length rest) (StartWriteMultipleContext (before ++ rest) (zlen before) s) = (cs, Some 0) /\ Forall2 brings rest cs.
Proof.
  induction rest as [|f rest IH]; intros before s Hf Hs; unfold StartWriteMultipleContext; rewrite zlen_app.
  - change (zlen []) with 0. rewrite (proj2 (Z.leb_le _ _)) by lia. exists []. by split; [|constructor].
  - apply Forall_cons_1 in Hf as [Hf Hfs]. rewrite zlen_cons. pose proof (zlen_nonneg rest).
    rewrite (proj2 (Z.leb_gt _ _)) by lia. rewrite (list_lookup_middle before rest f) by (unfold zlen; lia).
    destruct (AsyncWrite_frame f (NextWrite (before ++ f :: rest) (zlen before + 1)) s Hf Hs)
      as (s' & c & -> & Hs' & _ & _ & Hl & Hz & Hc & Hi). cbn [complete length HandleWrite Z.eqb negb].
    destruct (IH (before ++ [f]) s' Hfs Hs') as (cs & E & Hcs).
    rewrite zlen_app, <- app_assoc in E. cbn [app] in E. change (zlen [f]) with 1 in E. rewrite E.
    exists (c :: cs). split; [done|]. constructor; [by apply sent_frame_brings|done].
Qed.

(** Frames go through.  However many are given to one write, they are sent
    one after the other, each as the one before has gone, and the client hears once
    that all have; and a frame that was sent is received with its source,
    destination and the bit for an answer, its payload padded to a length that the
    bus allows. *)
Theorem socketcan_carries_frames (frames : list Frame.Frame) (s : State) :
  Forall fits_can frames -> ready s ->
  exists cs, complete (length frames) (AsyncWriteMultiple frames s) = (cs, Some 0) /\ Forall2 brings frames cs.
Proof. exact (complete_rest frames [] s). Qed.

Lemma socketcan_carries_frames_witness :
  let frames := [{| Frame.source_id := 1; Frame.request_reply := true; Frame.dest_id := 2; Frame.payload := replicate 9 (byte.of_Z 7) |};
                 {| Frame.source_id := 1; Frame.request_reply := false; Frame.dest_id := 3; Frame.payload := [] |}] in
  Forall fits_can frames /\
  exists cs, complete (length frames) (AsyncWriteMultiple frames make) = (cs, Some 0) /\ Forall2 brings frames cs.
Proof.
  assert (Hf : Forall fits_can
    [{| Frame.source_id := 1; Frame.request_reply := true; Frame.dest_id := 2; Frame.payload := replicate 9 (byte.of_Z 7) |};
     {| Frame.source_id := 1; Frame.request_reply := false; Frame.dest_id := 3; Frame.payload := [] |}]).
  { repeat constructor; vm_compute; discriminate || reflexivity. }
  split; [exact Hf|]. apply (socketcan_carries_frames _ make Hf). reflexivity.
Defined.

(** A payload longer than the bus allows is copied over the end of the frame. *)
Lemma long_payload_overflows f callback s : ready s -> 64 < zlen (Frame.payload f) -> AsyncWrite f callback s = Faulted Undefined.
Proof.
  intros Hr Hp. unfold AsyncWrite. unfold ready in Hr.
  assert (store (data (send_frame s)) 0 (Frame.payload f) = Faulted Undefined) as ->; [|done].
  unfold store. rewrite Z.add_0_l, (proj2 (Z.leb_gt (zlen (Frame.payload f)) _)) by lia. by rewrite andb_false_r.
Qed.
