(* ===== verification/ExclusiveCommand.v ===== *)
(** * io/exclusive_command.h and offset_buffer.h

    [ExclusiveCommand] runs one command at a time: a command has a handler to call
    when it is done, and the next one starts after that.  What is posted to the
    executor is an output, and its turn comes as a later call.  A command and the
    handler it was given are one value here; a nonce is the identity of the shared
    pointer to both. *)
From S2P Require Import Prelude.
#[local] Open Scope Z_scope.

Module ExclusiveCommand.
Section ExclusiveCommand.
Context {Command : Type}.

(** [Concrete]: a command with its handler. *)
Record Base := { nonce : nat; command : Command }.

(** [made] is how many there have been. *)
Record t := { waiting : option Base; queued : list Base; made : nat }.

Definition make : t := {| waiting := None; queued := []; made := O |}.

(** What is posted: the call of [Invoke] of a command, or [ItemDone]. *)
Inductive posted := PostInvoke (item : Base) | PostItemDone.

Definition MaybeStart (s : t) : t * list posted :=
  match waiting s, queued s with
  | None, item :: rest => ({| waiting := Some item; queued := rest; made := made s |}, [PostInvoke item])
  | _, _ => (s, [])
  end.

(** With the nonce. *)
Definition Invoke (c : Command) (s : t) : nat * t * list posted :=
  let item := {| nonce := made s; command := c |} in
  let '(s, out) := MaybeStart {| waiting := waiting s; queued := queued s ++ [item]; made := S (made s) |} in
  (nonce item, s, out).

Definition is_nonce (n : option nat) (item : Base) : bool :=
  match n with Some n => (n =? nonce item)%nat | None => false end.

(** With how many were removed, none or one. *)
Definition remove (n : option nat) (s : t) : Z * t :=
  let left := List.filter (fun item => negb (is_nonce n item)) (queued s) in
  if (length left =? length (queued s))%nat then (0, s)
  else (1, {| waiting := waiting s; queued := left; made := made s |}).

Definition ItemDone (s : t) : outcome (t * list posted) :=
  _ ← mj_assert (match waiting s with Some _ => true | None => false end);
  Done (MaybeStart {| waiting := None; queued := queued s; made := made s |}).

(** What [HandlerWrapper] does once it has called the handler. *)
Definition Handled (s : t) : outcome (list posted) :=
  _ ← mj_assert (match waiting s with Some _ => true | None => false end);
  Done [PostItemDone].
End ExclusiveCommand.
Arguments Base : clear implicits.
Arguments t : clear implicits.
Arguments posted : clear implicits.
End ExclusiveCommand.

(** ** OffsetBufferSequence

    A buffer is a range of memory, its address and size. *)
Definition buffer_size (buffers : list (Z * Z)) : Z := foldr (fun b n => snd b + n) 0 buffers.

Fixpoint OffsetBufferSequence_loop (offset : Z) (buffers : list (Z * Z)) (consumed_so_far : Z) : list (Z * Z) :=
  match buffers with
  | [] => []
  | (address, size) :: buffers =>
      if offset <? consumed_so_far then
        (address, size) :: OffsetBufferSequence_loop offset buffers consumed_so_far
      else if consumed_so_far + size <? offset then
        OffsetBufferSequence_loop offset buffers (consumed_so_far + size)
      else
        let to_skip := offset - consumed_so_far in
        (address + to_skip, size - to_skip) :: OffsetBufferSequence_loop offset buffers (consumed_so_far + size)
  end.

Definition OffsetBufferSequence (buffers : list (Z * Z)) (offset : Z) : outcome (list (Z * Z)) :=
  _ ← mj_assert (offset <? buffer_size buffers);
  Done (OffsetBufferSequence_loop offset buffers 0).

(** The addresses of the bytes of some buffers. *)
Definition cells (buffers : list (Z * Z)) : list Z := concat (map (fun b => seqZ (fst b) (snd b)) buffers).

Definition sized (buffers : list (Z * Z)) : Prop := Forall (fun b => 0 <= snd b) buffers.

Lemma zlen_cells buffers : sized buffers -> zlen (cells buffers) = buffer_size buffers.
Proof.
  induction 1 as [|[a n] buffers Hn _ IH]; [done|]. cbn in *. unfold cells in *. cbn [map concat fst snd].
  rewrite zlen_app, IH. f_equal. unfold zlen. rewrite length_seqZ. lia.
Qed.

Lemma drop_seqZ a n k : 0 <= k <= n -> zdrop k (seqZ a n) = seqZ (a + k) (n - k).
Proof.
  intros Hk. replace n with (k + (n - k)) at 1 by lia. rewrite seqZ_app by lia.
  apply zdrop_app_full. unfold zlen. rewrite length_seqZ. lia.
Qed.

Lemma OffsetBufferSequence_loop_all offset buffers : forall consumed, offset < consumed ->
  OffsetBufferSequence_loop offset buffers consumed = buffers.
Proof.
  induction buffers as [|[a n] buffers IH]; intros consumed Hc; [done|]. cbn [OffsetBufferSequence_loop].
  rewrite (proj2 (Z.ltb_lt _ _)) by done. by rewrite IH.
Qed.

Lemma OffsetBufferSequence_loop_cells offset buffers : forall consumed, sized buffers -> consumed <= offset ->
  cells (OffsetBufferSequence_loop offset buffers consumed) = zdrop (offset - consumed) (cells buffers) /\
  sized (OffsetBufferSequence_loop offset buffers consumed).
Proof.
  induction buffers as [|[a n] buffers IH]; intros consumed Hs Hc.
  { unfold cells, zdrop. cbn. by rewrite drop_nil. }
  pose proof Hs as Hs0. apply Forall_cons_1 in Hs as [Hn Hs]. cbn in Hn. cbn [OffsetBufferSequence_loop].
  rewrite (proj2 (Z.ltb_ge _ _)) by lia.
  assert (Hz : zlen (seqZ a n) = n) by (unfold zlen; rewrite length_seqZ; lia).
  change (cells ((a, n) :: buffers)) with (seqZ a n ++ cells buffers).
  destruct (Z.ltb_spec (consumed + n) offset) as [Hlt|Hge].
  - destruct (IH (consumed + n) Hs ltac:(lia)) as [-> Hs']. split; [|done].
    rewrite zdrop_app by lia. rewrite Hz, (zdrop_ge _ (seqZ a n)) by lia. cbn. f_equal. lia.
  - assert (Hr : cells (OffsetBufferSequence_loop offset buffers (consumed + n)) = cells buffers /\
                 sized (OffsetBufferSequence_loop offset buffers (consumed + n))).
    { destruct (Z.eq_dec (consumed + n) offset) as [E|].
      - destruct (IH (consumed + n) Hs ltac:(lia)) as [-> Hs']. split; [|done]. by rewrite E, Z.sub_diag.
      - by rewrite OffsetBufferSequence_loop_all by lia. }
    destruct Hr as [Hr Hr']. split; [|constructor; [cbn; lia|done]].
    change (cells (?b :: ?l)) with (seqZ (fst b) (snd b) ++ cells l). cbn [fst snd]. rewrite Hr.
    rewrite zdrop_app by lia. rewrite Hz, drop_seqZ by lia. f_equal. unfold zdrop at 1.
    by replace (Z.to_nat (offset - consumed - n)) with O by lia.
Qed.

(** The buffers behind an offset are the rest of the bytes. *)
Lemma OffsetBufferSequence_cells buffers offset : sized buffers -> 0 <= offset < buffer_size buffers ->
  exists rest, OffsetBufferSequence buffers offset = Done rest /\ cells rest = zdrop offset (cells buffers) /\ sized rest.
Proof.
  intros Hs Ho. unfold OffsetBufferSequence. rewrite (proj2 (Z.ltb_lt _ _)) by lia. cbn [mj_assert]. rewrite bind_done.
  destruct (OffsetBufferSequence_loop_cells offset buffers 0 Hs ltac:(lia)) as [Hc Hr].
  rewrite Z.sub_0_r in Hc. by eexists.
Qed.
