(* ===== verification/StreamAsioClient.v ===== *)
(** * multiplex/stream_asio_client.cc: the host's client

    [StreamAsioClient] sends the requests of its callers over a frame stream, one
    operation at a time behind an [ExclusiveCommand], waits for the answers, and
    makes byte streams of the tunnels of a device.  All of it is callbacks: here
    each callback is a value with what it captured, what is posted to the executor
    is a list, the operations of the frame stream that are in progress are another,
    and an event is a call of a caller, the executor's running of what was posted,
    the end of an operation or of a timer's wait.  The handlers of the callers are
    numbers; what they do when they are called comes after the event. *)
From stdpp Require Import gmap.
From S2P Require Import Prelude Varuint Streams MultiplexStream Register FrameStream ExclusiveCommand.
#[local] Open Scope Z_scope.
Import Format.

Module StreamAsioClient.

(** ** The data *)

(** [kDefaultTimeout], in milliseconds. *)
Definition kDefaultTimeout : Z := 15.

(** What function2 throws when an empty function is called. *)
Definition kBadFunctionCall : Z := 1.

Record IdRequest := { id : Z; request : RegisterRequest.t }.

(** [IdRegisterValue]: a device, a register of it, and what it said of that. *)
Abbreviation IdRegisterValue := (Z * Z * ReadResult)%type.

(** The lambda [next] of [SequenceRegister]. *)
Record Next := { next_handler : nat; next_reply : option nat; remainder : list IdRequest }.

(** The commands for the lock, with what they capture; the data of a write is
    that of its buffers. *)
Inductive command :=
  | TransmitAll (request : list IdRequest) (handler : nat)
  | TransmitOne (request : IdRequest) (reply : option nat) (handler : Next)
  | ReadTunnel (self ctx : nat)
  | WriteTunnel (self : nat) (buffers : list (list byte)).

Abbreviation Item := (ExclusiveCommand.Base command).

(** Operations of the frame stream, and the callbacks they are given.  [item] is
    what the [HandlerWrapper] of a callback points to. *)
Inductive operation :=
  | AsyncWrite (frame : Frame.Frame)
  | AsyncWriteMultiple (frames : list Frame.Frame)
  | AsyncRead (timeout : Z).

Inductive callback :=
  | TransmitAllDone (item : Item)
  | SingleWriteDone (item : Item) (reply : option nat) (request_reply : bool)
  | ReadDone (item : Item) (reply : option nat)
  | RequestReadDone (item : Item) (self ctx : nat)
  | TunnelReadDone (item : Item) (self ctx : nat)
  | TunnelWriteDone (item : Item) (size : Z).

(** What is posted to the executor: something of the lock, a handler of
    [AsyncTransmit], a handler of a tunnel, or the [HandlerWrapper] of an item. *)
Inductive task :=
  | Lock (p : ExclusiveCommand.posted command)
  | CallHandler (handler : nat) (ec : Z)
  | CallSizeHandler (handler : option nat) (ec size : Z)
  | CallWrapper (item : Item) (ec : Z).

Inductive output :=
  | Called (handler : nat) (ec : Z)
  | CalledSize (handler : nat) (ec size : Z)
  (** Bytes that are stored at addresses of a reader's buffers. *)
  | Stored (cells : list (Z * byte))
  | Started (op : operation)
  | TimerWait (poll_rate : Z).

Record ReadContext := {
  handler : option nat; buffers : list (Z * Z); canceled : bool; bytes_read : Z }.

Record Tunnel := {
  id_ : Z; channel_ : Z; poll_rate : Z;
  read_nonce : option nat; write_nonce : option nat;
  write_handler : option nat; read_context : option nat }.

(** [contexts] and [tunnels] are the objects that shared pointers point to, and
    [waits] the waits for poll timers, with what their callbacks capture. *)
Record State := {
  lock : ExclusiveCommand.t command;
  posted : list task;
  operations : list (operation * callback);
  waits : list (nat * nat);
  rx_frame : Frame.Frame;
  tx_frame : Frame.Frame;
  tx_frames : list Frame.Frame;
  tunnels : list Tunnel;
  contexts : list ReadContext;
  replies : gmap nat (list IdRegisterValue);
}.

Definition no_frame : Frame.Frame :=
  {| Frame.source_id := 0; Frame.request_reply := false; Frame.dest_id := 0; Frame.payload := [] |}.

Definition make : State :=
  {| lock := ExclusiveCommand.make; posted := []; operations := []; waits := [];
     rx_frame := no_frame; tx_frame := no_frame; tx_frames := [];
     tunnels := []; contexts := []; replies := ∅ |}.

Definition with_lock l s : State :=
  {| lock := l; posted := posted s; operations := operations s; waits := waits s; rx_frame := rx_frame s;
     tx_frame := tx_frame s; tx_frames := tx_frames s; tunnels := tunnels s; contexts := contexts s; replies := replies s |}.
Definition with_posted p s : State :=
  {| lock := lock s; posted := p; operations := operations s; waits := waits s; rx_frame := rx_frame s;
     tx_frame := tx_frame s; tx_frames := tx_frames s; tunnels := tunnels s; contexts := contexts s; replies := replies s |}.
Definition with_operations o s : State :=
  {| lock := lock s; posted := posted s; operations := o; waits := waits s; rx_frame := rx_frame s;
     tx_frame := tx_frame s; tx_frames := tx_frames s; tunnels := tunnels s; contexts := contexts s; replies := replies s |}.
Definition with_waits w s : State :=
  {| lock := lock s; posted := posted s; operations := operations s; waits := w; rx_frame := rx_frame s;
     tx_frame := tx_frame s; tx_frames := tx_frames s; tunnels := tunnels s; contexts := contexts s; replies := replies s |}.
Definition with_rx_frame f s : State :=
  {| lock := lock s; posted := posted s; operations := operations s; waits := waits s; rx_frame := f;
     tx_frame := tx_frame s; tx_frames := tx_frames s; tunnels := tunnels s; contexts := contexts s; replies := replies s |}.
Definition with_tx_frame f s : State :=
  {| lock := lock s; posted := posted s; operations := operations s; waits := waits s; rx_frame := rx_frame s;
     tx_frame := f; tx_frames := tx_frames s; tunnels := tunnels s; contexts := contexts s; replies := replies s |}.
Definition with_tx_frames f s : State :=
  {| lock := lock s; posted := posted s; operations := operations s; waits := waits s; rx_frame := rx_frame s;
     tx_frame := tx_frame s; tx_frames := f; tunnels := tunnels s; contexts := contexts s; replies := replies s |}.
Definition with_tunnels t s : State :=
  {| lock := lock s; posted := posted s; operations := operations s; waits := waits s; rx_frame := rx_frame s;
     tx_frame := tx_frame s; tx_frames := tx_frames s; tunnels := t; contexts := contexts s; replies := replies s |}.
Definition with_contexts c s : State :=
  {| lock := lock s; posted := posted s; operations := operations s; waits := waits s; rx_frame := rx_frame s;
     tx_frame := tx_frame s; tx_frames := tx_frames s; tunnels := tunnels s; contexts := c; replies := replies s |}.
Definition with_replies r s : State :=
  {| lock := lock s; posted := posted s; operations := operations s; waits := waits s; rx_frame := rx_frame s;
     tx_frame := tx_frame s; tx_frames := tx_frames s; tunnels := tunnels s; contexts := contexts s; replies := r |}.

(** ** A monad: the state, what goes out, and faults *)
Definition M (A : Type) : Type := State -> outcome (A * State * list output).

#[global] Instance M_ret : MRet M := fun A a s => Done (a, s, []).
#[global] Instance M_bind : MBind M := fun A B k m s =>
  '(a, s, out) ← m s;
  '(b, s, more) ← k a s;
  Done (b, s, out ++ more).

Definition skip : M unit := mret tt.
Definition gets {A} (f : State -> A) : M A := fun s => Done (f s, s, []).
Definition modify (f : State -> State) : M unit := fun s => Done (tt, f s, []).
Definition emit (o : output) : M unit := fun s => Done (tt, s, [o]).
Definition lift {A} (m : outcome A) : M A := fun s => a ← m; Done (a, s, []).
Definition fault {A} (f : fault) : M A := fun s => Faulted f.

(** What a pointer points to. *)
Definition deref {A} (l : State -> list A) (i : nat) : M A := fun s =>
  match l s !! i with Some a => Done (a, s, []) | None => Faulted Undefined end.

Definition set_tunnel (self : nat) (t : Tunnel) : M unit := modify (fun s => with_tunnels (<[self := t]> (tunnels s)) s).
Definition set_context (ctx : nat) (c : ReadContext) : M unit := modify (fun s => with_contexts (<[ctx := c]> (contexts s)) s).

Definition with_read_nonce n t : Tunnel :=
  {| id_ := id_ t; channel_ := channel_ t; poll_rate := poll_rate t; read_nonce := n; write_nonce := write_nonce t;
     write_handler := write_handler t; read_context := read_context t |}.
Definition with_write_nonce n t : Tunnel :=
  {| id_ := id_ t; channel_ := channel_ t; poll_rate := poll_rate t; read_nonce := read_nonce t; write_nonce := n;
     write_handler := write_handler t; read_context := read_context t |}.
Definition with_write_handler h t : Tunnel :=
  {| id_ := id_ t; channel_ := channel_ t; poll_rate := poll_rate t; read_nonce := read_nonce t; write_nonce := write_nonce t;
     write_handler := h; read_context := read_context t |}.
Definition with_read_context c t : Tunnel :=
  {| id_ := id_ t; channel_ := channel_ t; poll_rate := poll_rate t; read_nonce := read_nonce t; write_nonce := write_nonce t;
     write_handler := write_handler t; read_context := c |}.

(** [std::move] of the handler of a context. *)
Definition take_handler (ctx : nat) : M (option nat) :=
  c ← deref contexts ctx;
  _ ← set_context ctx {| handler := None; buffers := buffers c; canceled := canceled c; bytes_read := bytes_read c |};
  mret (handler c).

Definition set_canceled (ctx : nat) : M unit :=
  c ← deref contexts ctx;
  set_context ctx {| handler := handler c; buffers := buffers c; canceled := true; bytes_read := bytes_read c |}.

Definition post (tasks : list task) : M unit := modify (fun s => with_posted (posted s ++ tasks) s).

(** A call of the frame stream. *)
Definition start (op : operation) (cb : callback) : M unit :=
  _ ← modify (fun s => with_operations (operations s ++ [(op, cb)]) s);
  emit (Started op).

(** A call of a handler of a tunnel. *)
Definition call_size (h : option nat) (ec size : Z) : M unit :=
  match h with Some h => emit (CalledSize h ec size) | None => fault (Exception kBadFunctionCall) end.

(** [lock_.Invoke] and [lock_.remove] *)
Definition lock_Invoke (c : command) : M nat :=
  l ← gets lock;
  let '(nonce, l, out) := ExclusiveCommand.Invoke c l in
  _ ← modify (with_lock l);
  _ ← post (map Lock out);
  mret nonce.

Definition lock_remove (nonce : option nat) : M bool :=
  l ← gets lock;
  let '(n, l) := ExclusiveCommand.remove nonce l in
  _ ← modify (with_lock l);
  mret (negb (n =? 0)).

(** [boost::asio::buffer_copy] of data into a reader's buffers: as much as fits. *)
Definition buffer_copy (buffers : list (Z * Z)) (data : list byte) : list (Z * byte) := zip (cells buffers) data.

Definition buffers_size (buffers : list (list byte)) : Z := zlen (concat buffers).

Section client.
(** [options_.source_id] and [stream_properties_.max_size] *)
Context (source_id max_size : Z).

(** ** Registers *)
Definition AsyncRegister (request : IdRequest) (reply : option nat) (handler : Next) : M unit :=
  _ ← lock_Invoke (TransmitOne request reply handler);
  skip.

Definition SequenceRegister (request : list IdRequest) (reply : option nat) (callback : nat) : M unit :=
  match request with
  | [] => post [CallHandler callback 0]
  | this_request :: remainder =>
      AsyncRegister this_request reply {| next_handler := callback; next_reply := reply; remainder := remainder |}
  end.

(** The lambda [next]. *)
Definition next (n : Next) (ec : Z) : M unit :=
  if negb (ec =? 0) then post [CallHandler (next_handler n) ec]
  else SequenceRegister (remainder n) (next_reply n) (next_handler n).

Definition AsyncTransmit (requests : list IdRequest) (reply : option nat) (handler : nat) : M unit :=
  let any_replies := existsb (fun id_request => RegisterRequest.request_reply_ (request id_request)) requests in
  _ ← match reply with
      | Some reply => modify (fun s => with_replies (<[reply := []]> (replies s)) s)
      | None => skip
      end;
  if any_replies then SequenceRegister requests reply handler
  else _ ← lock_Invoke (TransmitAll requests handler); skip.

(** The command of [AsyncTransmit]. *)
Definition TransmitAll_command (item : Item) (requests : list IdRequest) : M unit :=
  _ ← lift (mj_assert (forallb (fun r => negb (RegisterRequest.request_reply_ (request r))) requests));
  let frames := map (fun r => {| Frame.source_id := source_id; Frame.dest_id := id r; Frame.request_reply := false;
                                 Frame.payload := RegisterRequest.buffer (request r) |}) requests in
  _ ← modify (with_tx_frames frames);
  start (AsyncWriteMultiple frames) (TransmitAllDone item).

(** The command of [AsyncRegister]. *)
Definition TransmitOne_command (item : Item) (r : IdRequest) (reply : option nat) : M unit :=
  let request_reply := RegisterRequest.request_reply_ (request r) in
  let frame := {| Frame.source_id := source_id; Frame.dest_id := id r; Frame.request_reply := request_reply;
                  Frame.payload := RegisterRequest.buffer (request r) |} in
  _ ← modify (with_tx_frame frame);
  start (AsyncWrite frame) (SingleWriteDone item reply request_reply).

Definition HandleSingleWrite (ec : Z) (handler : Item) (reply : option nat) (request_reply : bool) : M unit :=
  if negb request_reply then post [CallWrapper handler ec]
  else
    _ ← lift (FailIf ec);
    start (AsyncRead kDefaultTimeout) (ReadDone handler reply).

Definition HandleRead (ec : Z) (reply : option nat) (handler : Item) : M unit :=
  if ec =? kAborted then post [CallWrapper handler ec]
  else
    _ ← lift (FailIf ec);
    rx ← gets rx_frame;
    tx ← gets tx_frame;
    if negb (Frame.source_id rx =? Frame.dest_id tx) || negb (Frame.dest_id rx =? Frame.source_id tx) then
      start (AsyncRead kDefaultTimeout) (ReadDone handler reply)
    else
      _ ← match reply with
          | Some reply =>
              '(parsed_values, _) ← lift (RegisterParser.ParseRegisterReply (S (length (Frame.payload rx)))
                                            (FastIStringStream.make (Frame.payload rx)));
              modify (fun s => with_replies (<[reply := default [] (replies s !! reply) ++
                                map (fun v => (Frame.source_id rx, fst v, snd v)) parsed_values]> (replies s)) s)
          | None => skip
          end;
      post [CallWrapper handler ec].

(** ** Tunnels *)
Definition MakeTunnel (id channel rate : Z) : M unit :=
  modify (fun s => with_tunnels (tunnels s ++
    [{| id_ := id; channel_ := channel; poll_rate := rate; read_nonce := None; write_nonce := None;
        write_handler := None; read_context := None |}]) s).

(** [temp_data_] is filled from the buffers: they hold [size] bytes. *)
Definition MakeFrame (self : nat) (buffers : list (list byte)) (size : Z) (request_reply : bool) : M unit :=
  t ← deref tunnels self;
  stream ← lift (GenericWriter.WriteVaruint FastOStringStream.empty kClientToServer);
  stream ← lift (GenericWriter.WriteVaruint stream (channel_ t));
  stream ← lift (GenericWriter.WriteVaruint stream (u32 size));
  stream ← lift (FastOStringStream.write stream (ztake size (concat buffers)));
  modify (with_tx_frame {| Frame.source_id := source_id; Frame.dest_id := id_ t;
                           Frame.request_reply := request_reply; Frame.payload := FastOStringStream.str stream |}).

Definition async_read_some (self : nat) (bufs : list (Z * Z)) (h : option nat) : M unit :=
  t ← deref tunnels self;
  _ ← lift (mj_assert (match read_context t with None => true | Some _ => false end));
  if buffer_size bufs =? 0 then post [CallSizeHandler h 0 0]
  else
    ctx ← gets (fun s => length (contexts s));
    _ ← modify (fun s => with_contexts
          (contexts s ++ [{| handler := h; buffers := bufs; canceled := false; bytes_read := 0 |}]) s);
    _ ← set_tunnel self (with_read_context (Some ctx) t);
    nonce ← lock_Invoke (ReadTunnel self ctx);
    t ← deref tunnels self;
    set_tunnel self (with_read_nonce (Some nonce) t).

(** The command of [async_read_some]. *)
Definition ReadTunnel_command (item : Item) (self ctx : nat) : M unit :=
  t ← deref tunnels self;
  _ ← set_tunnel self (with_read_nonce None t);
  c ← deref contexts ctx;
  if canceled c then call_size (handler c) kAborted 0
  else
    _ ← MakeFrame self [] 0 true;
    tx ← gets tx_frame;
    start (AsyncWrite tx) (RequestReadDone item self ctx).

Definition async_write_some (self : nat) (bufs : list (list byte)) (h : nat) : M unit :=
  t ← deref tunnels self;
  _ ← lift (mj_assert (match write_handler t with None => true | Some _ => false end));
  if buffers_size bufs =? 0 then post [CallSizeHandler (Some h) 0 0]
  else
    _ ← set_tunnel self (with_write_handler (Some h) t);
    nonce ← lock_Invoke (WriteTunnel self bufs);
    t ← deref tunnels self;
    set_tunnel self (with_write_nonce (Some nonce) t).

(** The command of [async_write_some]. *)
Definition kVarUintSize : Z := 1.
Definition kNeededOverhead : Z := 3 * kVarUintSize.

Definition WriteTunnel_command (item : Item) (self : nat) (bufs : list (list byte)) : M unit :=
  let size := buffers_size bufs in
  size ← (if 0 <=? max_size then
            _ ← lift (mj_assert (kNeededOverhead <=? max_size));
            mret (Z.min size (max_size - kNeededOverhead))
          else mret size);
  _ ← MakeFrame self bufs size false;
  tx ← gets tx_frame;
  start (AsyncWrite tx) (TunnelWriteDone item size).

(** Its handler. *)
Definition WriteTunnel_handler (self : nat) (ec size : Z) : M unit :=
  t ← deref tunnels self;
  let copy := write_handler t in
  _ ← set_tunnel self (with_write_nonce None (with_write_handler None t));
  call_size copy ec size.

Definition MaybeRetry (ec : Z) (self ctx : nat) : M unit :=
  c ← deref contexts ctx;
  if canceled c then
    h ← take_handler ctx;
    post [CallSizeHandler h kAborted 0]
  else
    _ ← lift (FailIf ec);
    t ← deref tunnels self;
    if 0 <? bytes_read c then
      h ← take_handler ctx;
      _ ← post [CallSizeHandler h 0 (bytes_read c)];
      set_tunnel self (with_read_context None t)
    else
      _ ← modify (fun s => with_waits (waits s ++ [(self, ctx)]) s);
      emit (TimerWait (poll_rate t)).

(** The callback of [poll_timer_.async_wait]. *)
Definition HandlePollTimer (ec : Z) (self ctx : nat) : M unit :=
  c ← deref contexts ctx;
  if canceled c then
    h ← take_handler ctx;
    post [CallSizeHandler h kAborted 0]
  else
    _ ← lift (FailIf ec);
    copy ← take_handler ctx;
    t ← deref tunnels self;
    _ ← set_tunnel self (with_read_context None t);
    async_read_some self (buffers c) copy.

(** [cancel], what it does about reads and about writes.  Canceling the timer has
    no effect of its own: its callback comes, early. *)
Definition cancel_read (t : Tunnel) : M unit :=
  _ ← match read_context t with Some ctx => set_canceled ctx | None => skip end;
  removed ← lock_remove (read_nonce t);
  if removed : bool then
    match read_context t with
    | Some ctx => h ← take_handler ctx; post [CallSizeHandler h kAborted 0]
    | None => fault Assertion
    end
  else skip.

Definition cancel_write (t : Tunnel) : M unit :=
  removed ← lock_remove (write_nonce t);
  if removed : bool then post [CallSizeHandler (write_handler t) kAborted 0] else skip.

Definition cancel (self : nat) : M unit :=
  t ← deref tunnels self;
  _ ← cancel_read t;
  _ ← cancel_write t;
  set_tunnel self {| id_ := id_ t; channel_ := channel_ t; poll_rate := poll_rate t; read_nonce := None;
                     write_nonce := None; write_handler := None; read_context := None |}.

(** ** The lock: a command, and the handler it was given *)
Definition Invoke (item : Item) : M unit :=
  match ExclusiveCommand.command item with
  | TransmitAll requests _ => TransmitAll_command item requests
  | TransmitOne r reply _ => TransmitOne_command item r reply
  | ReadTunnel self ctx => ReadTunnel_command item self ctx
  | WriteTunnel self bufs => WriteTunnel_command item self bufs
  end.

(** [HandlerWrapper::operator()] *)
Definition HandlerWrapper (item : Item) (ec size : Z) : M unit :=
  _ ← match ExclusiveCommand.command item with
      | TransmitAll _ handler => emit (Called handler ec)
      | TransmitOne _ _ n => next n ec
      | ReadTunnel self ctx => MaybeRetry ec self ctx
      | WriteTunnel self _ => WriteTunnel_handler self ec size
      end;
  l ← gets lock;
  out ← lift (ExclusiveCommand.Handled l);
  post (map Lock out).

Definition ItemDone : M unit :=
  l ← gets lock;
  '(l, out) ← lift (ExclusiveCommand.ItemDone l);
  _ ← modify (with_lock l);
  post (map Lock out).

(** The callbacks of the two operations of a poll. *)
Definition HandleRequestRead (ec : Z) (cb : Item) (self ctx : nat) : M unit :=
  _ ← lift (FailIf ec);
  start (AsyncRead kDefaultTimeout) (TunnelReadDone cb self ctx).

(** What an answer to a poll says: its data, or nothing if it is not one. *)
Definition parse_answer (channel : Z) (payload : list byte) : outcome (option (list byte)) :=
  let stream := FastIStringStream.make payload in
  '(maybe_subframe, stream) ← GenericReader.ReadVaruint stream;
  match maybe_subframe with
  | None => Done None
  | Some subframe =>
    if negb (subframe =? kServerToClient) then Done None else
    '(maybe_channel, stream) ← GenericReader.ReadVaruint stream;
    match maybe_channel with
    | None => Done None
    | Some this_channel =>
      if negb (this_channel =? channel) then Done None else
      '(maybe_size, stream) ← GenericReader.ReadVaruint stream;
      match maybe_size with
      | None => Done None
      | Some size =>
        if FastIStringStream.remaining stream <? size then Done None
        else Done (Some (ztake size (zdrop (FastIStringStream.offset stream) payload)))
      end
    end
  end.

Definition TunnelHandleRead (ec : Z) (cb : Item) (self ctx : nat) (read_data_queued : bool) : M unit :=
  c ← deref contexts ctx;
  if canceled c then HandlerWrapper cb kAborted 0
  else if ec =? kAborted then HandlerWrapper cb 0 0
  else
    frame ← gets rx_frame;
    t ← deref tunnels self;
    if negb (Frame.source_id frame =? id_ t) || negb (Frame.dest_id frame =? source_id) then HandlerWrapper cb 0 0
    else
      answer ← lift (parse_answer (channel_ t) (Frame.payload frame));
      match answer with
      | None => HandlerWrapper cb 0 0
      | Some data =>
          _ ← emit (Stored (buffer_copy (buffers c) data));
          let bytes_read := bytes_read c + zlen data in
          if read_data_queued && (zlen data <? buffer_size (buffers c)) then
            offset_buffers ← lift (OffsetBufferSequence (buffers c) (zlen data));
            _ ← set_context ctx {| handler := handler c; buffers := offset_buffers; canceled := canceled c;
                                   bytes_read := bytes_read |};
            HandleRequestRead 0 cb self ctx
          else
            _ ← set_context ctx {| handler := handler c; buffers := buffers c; canceled := canceled c;
                                   bytes_read := bytes_read |};
            HandlerWrapper cb 0 bytes_read
      end.

(** ** Events *)
Inductive event :=
  | ETransmit (requests : list IdRequest) (reply : option nat) (h : nat)
  | EMakeTunnel (id channel rate : Z)
  | ERead (self : nat) (bufs : list (Z * Z)) (h : nat)
  | EWrite (self : nat) (bufs : list (list byte)) (h : nat)
  | ECancel (self : nat)
  (** The [n]-th of what is posted runs. *)
  | ERun (n : nat)
  (** The [n]-th of the operations in progress ends; a read with the frame it
      received, if any. *)
  | EComplete (n : nat) (ec : Z) (frame : option Frame.Frame) (read_data_queued : bool)
  (** The [n]-th of the waits for a poll timer ends. *)
  | ETimer (n : nat) (ec : Z).

Definition run_task (t : task) : M unit :=
  match t with
  | Lock (ExclusiveCommand.PostInvoke item) => Invoke item
  | Lock ExclusiveCommand.PostItemDone => ItemDone
  | CallHandler h ec => emit (Called h ec)
  | CallSizeHandler h ec size => call_size h ec size
  | CallWrapper item ec => HandlerWrapper item ec 0
  end.

Definition complete (cb : callback) (ec : Z) (read_data_queued : bool) : M unit :=
  match cb with
  | TransmitAllDone item => HandlerWrapper item ec 0
  | SingleWriteDone item reply request_reply => HandleSingleWrite ec item reply request_reply
  | ReadDone item reply => HandleRead ec reply item
  | RequestReadDone item self ctx => HandleRequestRead ec item self ctx
  | TunnelReadDone item self ctx => TunnelHandleRead ec item self ctx read_data_queued
  | TunnelWriteDone item size => HandlerWrapper item ec (if ec =? 0 then size else 0)
  end.

Definition handle (e : event) : M unit :=
  match e with
  | ETransmit requests reply h => AsyncTransmit requests reply h
  | EMakeTunnel id channel rate => MakeTunnel id channel rate
  | ERead self bufs h => async_read_some self bufs (Some h)
  | EWrite self bufs h => async_write_some self bufs h
  | ECancel self => cancel self
  | ERun n =>
      t ← deref posted n;
      _ ← modify (fun s => with_posted (delete n (posted s)) s);
      run_task t
  | EComplete n ec frame queued =>
      '(op, cb) ← deref operations n;
      _ ← modify (fun s => with_operations (delete n (operations s)) s);
      _ ← (match op, frame with
           | AsyncRead _, Some frame => modify (with_rx_frame frame)
           | _, _ => skip
           end);
      complete cb ec queued
  | ETimer n ec =>
      '(self, ctx) ← deref waits n;
      _ ← modify (fun s => with_waits (delete n (waits s)) s);
      HandlePollTimer ec self ctx
  end.

Fixpoint run (es : list event) : M unit :=
  match es with
  | [] => skip
  | e :: es => _ ← handle e; run es
  end.
End client.
End StreamAsioClient.
