(* ===== verification/ClientInvariant.v ===== *)
(** * Who still has to be answered

    The bookkeeping of the host's client in the abstract: the reads and the writes
    of tunnels that have not ended, and what the tunnels and the contexts of reads
    say of them.  A read is [early] until its command runs, and [late] from then
    on, while it waits for the device or for its poll timer. *)
From stdpp Require Import sets.
From S2P Require Import Prelude.
#[local] Open Scope nat_scope.

(** ** Reads

    An early read is its nonce, tunnel and context; of a context only the handler
    and [canceled] matter, of a tunnel only [read_nonce] and [read_context]. *)
Record reads_ok (early : list (nat * nat * nat)) (late : list (nat * nat))
    (cs : list (option nat * bool)) (ts : list (option nat * option nat)) : Prop := {
  r_early : forall n t c, (n, t, c) ∈ early <-> ts !! t = Some (Some n, Some c);
  r_nonce : forall t n o, ts !! t = Some (Some n, o) -> is_Some o;
  r_nodup : NoDup ((snd <$> early) ++ (snd <$> late));
  r_handler : forall c h b, cs !! c = Some (h, b) -> (is_Some h <-> c ∈ (snd <$> early) ++ (snd <$> late));
  r_late : forall t c, (t, c) ∈ late ->
    exists h b n o, cs !! c = Some (h, b) /\ ts !! t = Some (n, o) /\ (b = false -> o = Some c);
  r_context : forall t n c, ts !! t = Some (n, Some c) -> exists h, cs !! c = Some (h, false);
  r_owner : forall t t' n n' c, ts !! t = Some (n, Some c) -> ts !! t' = Some (n', Some c) -> t = t';
}.

#[global] Instance reads_ok_proper : Proper ((≡ₚ) ==> (≡ₚ) ==> eq ==> eq ==> iff) reads_ok.
Proof.
  assert (forall early early' late late' cs ts, early ≡ₚ early' -> late ≡ₚ late' ->
    reads_ok early late cs ts -> reads_ok early' late' cs ts) as H.
  { intros early early' late late' cs ts He Hl [H1 H2 H3 H4 H5 H6 H7]. split; [| | | | |done|done].
    - intros. by rewrite <- He.
    - done.
    - by rewrite <- He, <- Hl.
    - intros. rewrite <- He, <- Hl. by eapply H4.
    - intros t c. rewrite <- Hl. apply H5. }
  intros early early' He late late' Hl cs ? <- ts ? <-. split; by apply H.
Qed.

Section reads.
Context (early : list (nat * nat * nat)) (late : list (nat * nat)) (cs : list (option nat * bool)) (ts : list (option nat * option nat)).

Lemma reads_bound c : reads_ok early late cs ts -> c ∈ (snd <$> early) ++ (snd <$> late) -> exists h b, cs !! c = Some (Some h, b).
Proof.
  intros H Hc. assert (is_Some (cs !! c)) as [[h b] E].
  { apply elem_of_app in Hc as [([[n t] c'] & -> & Hc)%list_elem_of_fmap|([t c'] & -> & Hc)%list_elem_of_fmap].
    - apply (r_early _ _ _ _ H) in Hc. destruct (r_context _ _ _ _ H _ _ _ Hc) as [h E]. eauto.
    - destruct (r_late _ _ _ _ H _ _ Hc) as (h & b & n & o & E & _). eauto. }
  destruct (proj2 (r_handler _ _ _ _ H c h b E) Hc) as [h' ->]. eauto.
Qed.

(** A new read of a tunnel that has none. *)
Lemma reads_new t n h n0 : reads_ok early late cs ts -> ts !! t = Some (n0, None) ->
  reads_ok ((n, t, length cs) :: early) late (cs ++ [(Some h, false)]) (<[t := (Some n, Some (length cs))]> ts).
Proof.
  intros H Ht. pose proof (lookup_lt_Some _ _ _ Ht) as Hl. pose proof H as [H1 H2 H3 H4 H5 H6 H7].
  assert (Hf : length cs ∉ (snd <$> early) ++ (snd <$> late)).
  { intros Hc. destruct (reads_bound _ H Hc) as (h' & b & E). apply lookup_lt_Some in E. lia. }
  split.
  - intros n' t' c'. rewrite elem_of_cons, H1. destruct (decide (t' = t)) as [->|Hn].
    + rewrite list_lookup_insert_eq, Ht by done. naive_solver.
    + rewrite list_lookup_insert_ne by done. naive_solver.
  - intros t' n' o. destruct (decide (t' = t)) as [->|Hn].
    + rewrite list_lookup_insert_eq by done. naive_solver.
    + rewrite list_lookup_insert_ne by done. apply H2.
  - cbn. constructor; done.
  - intros c h' b. cbn. rewrite elem_of_cons, lookup_snoc_Some. intros [[Hc E]|[-> [= <- <-]]].
    + rewrite (H4 _ _ _ E). split; [auto|]. intros [->|]; [lia|done].
    + naive_solver.
  - intros t' c Hc. destruct (H5 t' c Hc) as (h' & b & n' & o & Ec & Et & Hb). exists h', b.
    destruct (decide (t' = t)) as [->|Hn].
    + exists (Some n), (Some (length cs)). rewrite Et in Ht. injection Ht as -> ->. rewrite list_lookup_insert_eq by done.
      split_and!; [by apply lookup_app_l_Some|done|]. intros ->. by specialize (Hb eq_refl).
    + exists n', o. rewrite list_lookup_insert_ne by done. split_and!; [by apply lookup_app_l_Some|done|done].
  - intros t' n' c. destruct (decide (t' = t)) as [->|Hn].
    + rewrite list_lookup_insert_eq by done. intros [= <- <-]. exists (Some h). apply lookup_snoc_Some. auto.
    + rewrite list_lookup_insert_ne by done. intros E. destruct (H6 _ _ _ E) as [h' ?]. exists h'. by apply lookup_app_l_Some.
  - assert (Hb : forall t' n', ts !! t' = Some (n', Some (length cs)) -> False).
    { intros t' n' E. destruct (H6 _ _ _ E) as [h' E']. apply lookup_lt_Some in E'. lia. }
    intros t1 t2 n1 n2 c E1 E2. apply list_lookup_insert_Some in E1, E2. naive_solver.
Qed.

(** Its command runs. *)
Lemma reads_run t n c : reads_ok ((n, t, c) :: early) late cs ts -> NoDup early ->
  reads_ok early ((t, c) :: late) cs (<[t := (None, Some c)]> ts).
Proof.
  intros H Hnd. pose proof H as [H1 H2 H3 H4 H5 H6 H7]. pose proof (proj1 (H1 n t c) ltac:(set_solver)) as Ht.
  pose proof (lookup_lt_Some _ _ _ Ht) as Hl.
  assert (Hp : (snd <$> early) ++ (snd <$> ((t, c) :: late)) ≡ₚ (snd <$> ((n, t, c) :: early)) ++ (snd <$> late)).
  { cbn. by rewrite Permutation_middle. }
  assert (Hx : forall n' c', (n', t, c') ∉ early).
  { intros n' c' Hc. pose proof (proj1 (H1 n' t c') ltac:(set_solver)) as E. rewrite Ht in E. injection E as <- <-.
    cbn in H3. apply list.NoDup_cons in H3 as [H3 _]. apply H3. apply elem_of_app. left. apply list_elem_of_fmap. by exists (n, t, c). }
  split.
  - intros n' t' c'. destruct (decide (t' = t)) as [->|Hn].
    + rewrite list_lookup_insert_eq by done. split; [|done]. intros []%Hx.
    + rewrite list_lookup_insert_ne, <- H1, elem_of_cons by done. naive_solver.
  - intros t' n' o. destruct (decide (t' = t)) as [->|Hn].
    + by rewrite list_lookup_insert_eq by done.
    + rewrite list_lookup_insert_ne by done. apply H2.
  - by rewrite Hp.
  - intros c' h b E. rewrite Hp. by eapply H4.
  - intros t' c' [[= -> ->]|Hc]%elem_of_cons.
    + destruct (H6 _ _ _ Ht) as [h E]. exists h, false, None, (Some c). rewrite list_lookup_insert_eq by done. done.
    + destruct (H5 t' c' Hc) as (h & b & n' & o & Ec & Et & Hb). destruct (decide (t' = t)) as [->|Hn].
      * exists h, b, None, (Some c). rewrite list_lookup_insert_eq by done. rewrite Ht in Et. by injection Et as <- <-.
      * exists h, b, n', o. by rewrite list_lookup_insert_ne by done.
  - intros t' n' c'. destruct (decide (t' = t)) as [->|Hn].
    + rewrite list_lookup_insert_eq by done. intros [= <- <-]. by eapply H6.
    + rewrite list_lookup_insert_ne by done. apply H6.
  - intros t1 t2 n1 n2 c' E1 E2. apply list_lookup_insert_Some in E1, E2. naive_solver.
Qed.
End reads.

Section reads_end.
Context (early : list (nat * nat * nat)) (late : list (nat * nat)) (cs : list (option nat * bool)) (ts : list (option nat * option nat)).

(** The handler of a late read is taken: of one that was canceled, or one whose
    tunnel forgets it. *)
Lemma reads_take t c b : reads_ok early ((t, c) :: late) cs ts -> (exists h, cs !! c = Some (h, b)) ->
  reads_ok early late (<[c := (None, b)]> cs) ts.
Proof.
  intros H [h Ec]. pose proof H as [H1 H2 H3 H4 H5 H6 H7]. pose proof (lookup_lt_Some _ _ _ Ec) as Hl.
  cbn in H3. rewrite <- Permutation_middle in H3. apply list.NoDup_cons in H3 as [Hc H3]. split.
  - done.
  - done.
  - done.
  - intros c' h' b' E. destruct (decide (c' = c)) as [->|Hn].
    + rewrite list_lookup_insert_eq in E by done. injection E as <- <-. split; [by intros []|done].
    + rewrite list_lookup_insert_ne in E by done. rewrite (H4 _ _ _ E). cbn. rewrite <- Permutation_middle, elem_of_cons. naive_solver.
  - intros t' c' Hc'. destruct (H5 t' c' ltac:(set_solver)) as (h' & b' & n & o & E & Et & Hb).
    destruct (decide (c' = c)) as [->|Hn].
    + exfalso. apply Hc, elem_of_app. right. apply list_elem_of_fmap. by exists (t', c).
    + exists h', b', n, o. by rewrite list_lookup_insert_ne by done.
  - intros t' n c' E. destruct (H6 _ _ _ E) as [h' E']. destruct (decide (c' = c)) as [->|Hn].
    + rewrite Ec in E'. injection E' as -> ->. exists None. by rewrite list_lookup_insert_eq by done.
    + exists h'. by rewrite list_lookup_insert_ne by done.
  - done.
Qed.

(** A tunnel that has no early read forgets the read it has, which is canceled if
    it has not ended. *)
Lemma reads_forget_gen (t : nat) n o (cs' : list (option nat * bool)) : reads_ok early late cs ts -> ts !! t = Some (n, o) -> (forall n' c, (n', t, c) ∉ early) ->
  (forall (c : nat) h b, cs' !! c = Some (h, b) -> exists b', cs !! c = Some (h, b')) ->
  (forall (c : nat) h b, cs !! c = Some (h, b) -> exists b', cs' !! c = Some (h, b') /\
    (o <> Some c -> b' = b) /\ (c ∈ snd <$> late -> o = Some c -> b' = true)) ->
  reads_ok early late cs' (<[t := (None, None)]> ts).
Proof.
  intros H Ht Hx Hcs Hcs'. pose proof H as [H1 H2 H3 H4 H5 H6 H7]. pose proof (lookup_lt_Some _ _ _ Ht) as Hl. split.
  - intros n' t' c'. destruct (decide (t' = t)) as [->|Hn].
    + rewrite list_lookup_insert_eq by done. split; [|done]. intros []%Hx.
    + by rewrite list_lookup_insert_ne, <- H1 by done.
  - intros t' n' o'. destruct (decide (t' = t)) as [->|Hn].
    + by rewrite list_lookup_insert_eq by done.
    + rewrite list_lookup_insert_ne by done. apply H2.
  - done.
  - intros c h b E. destruct (Hcs _ _ _ E) as [b' E']. by eapply H4.
  - intros t' c Hc. destruct (H5 t' c Hc) as (h & b & n' & o' & Ec & Et & Hb).
    destruct (Hcs' _ _ _ Ec) as (b' & Ec' & Hb1 & Hb2). exists h, b'.
    assert (c ∈ snd <$> late) as Hcl by (apply list_elem_of_fmap; by exists (t', c)).
    destruct (decide (t' = t)) as [->|Hn].
    + exists None, None. rewrite list_lookup_insert_eq by done. split_and!; [done|done|].
      rewrite Ht in Et. injection Et as <- <-. intros ->. destruct (decide (o = Some c)) as [E|E]; [by specialize (Hb2 Hcl E)|].
      rewrite <- Hb1 in Hb by done. by specialize (Hb eq_refl).
    + exists n', o'. rewrite list_lookup_insert_ne by done. split_and!; [done|done|]. intros ->.
      destruct (decide (o = Some c)) as [E|E]; [by specialize (Hb2 Hcl E)|]. apply Hb. by rewrite Hb1.
  - intros t' n' c. destruct (decide (t' = t)) as [->|Hn].
    + by rewrite list_lookup_insert_eq by done.
    + rewrite list_lookup_insert_ne by done. intros E. destruct (H6 _ _ _ E) as [h Ec]. exists h.
      destruct (Hcs' _ _ _ Ec) as (b' & -> & Hb & _). do 3 f_equal. apply Hb. intros ->. destruct Hn. by eapply H7.
  - intros t1 t2 n1 n2 c' E1 E2. apply list_lookup_insert_Some in E1, E2. naive_solver.
Qed.

Lemma reads_forget t n o : reads_ok early late cs ts -> ts !! t = Some (n, o) -> (forall n' c, (n', t, c) ∉ early) ->
  (forall c, o = Some c -> c ∉ snd <$> late) -> reads_ok early late cs (<[t := (None, None)]> ts).
Proof. intros H Ht Hx Ho. eapply reads_forget_gen; [done..|eauto|]. intros c h b E. exists b. split_and!; [done..|]. intros Hc []%Ho. done. Qed.

Lemma reads_cancel t n c h : reads_ok early late cs ts -> ts !! t = Some (n, Some c) -> (forall n' c, (n', t, c) ∉ early) ->
  cs !! c = Some (h, false) -> reads_ok early late (<[c := (h, true)]> cs) (<[t := (None, None)]> ts).
Proof.
  intros H Ht Hx Hc. pose proof (lookup_lt_Some _ _ _ Hc) as Hl. eapply reads_forget_gen; [done..| |].
  - intros c' h' b'. rewrite list_lookup_insert_Some. naive_solver.
  - intros c' h' b' E. destruct (decide (c' = c)) as [->|Hn].
    + exists true. rewrite list_lookup_insert_eq by done. rewrite Hc in E. simplify_eq. split_and!; [done|by intros []|done].
    + exists b'. rewrite list_lookup_insert_ne by done. split_and!; [done..|]. congruence.
Qed.

Lemma reads_new_tunnel : reads_ok early late cs ts -> reads_ok early late cs (ts ++ [(None, None)]).
Proof.
  intros [H1 H2 H3 H4 H5 H6 H7].
  assert (Hs : forall t n c, (ts ++ [(None, None)]) !! t = Some (n, Some c) <-> ts !! t = Some (n, Some c)).
  { intros t n c. rewrite lookup_snoc_Some. split; [naive_solver|]. intros E. left. split; [by apply lookup_lt_Some in E|done]. }
  split; [|intros t n o E|done|done|intros t c Hc|intros t n c E|intros t1 t2 n1 n2 c E1 E2].
  - intros. by rewrite Hs.
  - apply lookup_snoc_Some in E as [[_ E]|[_ ?]]; [|done]. by eapply H2.
  - destruct (H5 t c Hc) as (h & b & n & o & Ec & Et & Hb). exists h, b, n, o. split_and!; [done| |done]. by apply lookup_app_l_Some.
  - apply Hs in E. by eapply H6.
  - apply Hs in E1, E2. by eapply H7.
Qed.
End reads_end.

(** Its early read is canceled, and its handler taken. *)
Lemma reads_cancel_early early late cs ts t n c h : reads_ok ((n, t, c) :: early) late cs ts -> cs !! c = Some (h, false) -> NoDup early ->
  reads_ok early late (<[c := (None, true)]> cs) (<[t := (None, None)]> ts).
Proof.
  intros H Hc Hnd. pose proof (proj1 (r_early _ _ _ _ H n t c) ltac:(set_solver)) as Ht.
  pose proof (lookup_lt_Some _ _ _ Ht) as Hl. pose proof (lookup_lt_Some _ _ _ Hc) as Hl'.
  apply reads_run in H; [|done]. set (ts1 := <[t := _]> ts) in H.
  assert (ts1 !! t = Some (None, Some c)) as Ht1 by (unfold ts1; by rewrite list_lookup_insert_eq).
  replace (<[t := (None, None)]> ts) with (<[t := (None : option nat, None : option nat)]> ts1)
    by (unfold ts1; by rewrite list_insert_insert_eq).
  replace (<[c := (None, true)]> cs) with (<[c := (None : option nat, true)]> (<[c := (h, true)]> cs)) by by rewrite list_insert_insert_eq.
  eapply reads_take; [|exists h; by rewrite list_lookup_insert_eq]. eapply reads_cancel; [done..| |done].
  intros n' c' E. apply (r_early _ _ _ _ H) in E. by rewrite Ht1 in E.
Qed.

(** ** Writes

    A write that has not ended is its nonce and tunnel; of a tunnel only
    [write_nonce] and [write_handler] matter.  [orphans] of the writes are not known
    to their tunnel any more: it was canceled while they were in progress. *)
Record writes_ok (orphans : nat) (writes : list (nat * nat)) (ts : list (option nat * option nat)) : Prop := {
  w_nonce : forall n t h, ts !! t = Some (Some n, h) -> (n, t) ∈ writes;
  w_bound : forall n t, (n, t) ∈ writes -> t < length ts;
  w_handler : forall t n h, ts !! t = Some (n, h) -> (is_Some h <-> is_Some n);
  w_nodup : NoDup writes;
  w_count : length writes = length (omap fst ts) + orphans;
}.

#[global] Instance writes_ok_proper orphans : Proper ((≡ₚ) ==> eq ==> iff) (writes_ok orphans).
Proof.
  assert (forall writes writes' ts, writes ≡ₚ writes' -> writes_ok orphans writes ts -> writes_ok orphans writes' ts) as H.
  { intros writes writes' ts Hw [H1 H2 H3 H4 H5]. split; [| |done|by rewrite <- Hw|by rewrite <- Hw].
    - intros n t h E. rewrite <- Hw. by eapply H1.
    - intros n t E. rewrite <- Hw in E. by eapply H2. }
  intros writes writes' Hw ts ? <-. split; by apply H.
Qed.

Lemma length_omap_insert {A B} (f : A -> option B) l i x y : l !! i = Some x ->
  length (omap f (<[i := y]> l)) + length (option_list (f x)) = length (omap f l) + length (option_list (f y)).
Proof.
  assert (Hc : forall z k, length (omap f (z :: k)) = length (option_list (f z)) + length (omap f k)) by (intros z k; cbn; by destruct (f z)).
  revert i. induction l as [|z l IH]; intros [|i] E; try done.
  - injection E as ->. change (<[0 := y]> (x :: l)) with (y :: l). rewrite !Hc. lia.
  - specialize (IH i E). change (<[S i := y]> (z :: l)) with (z :: <[i := y]> l). rewrite !Hc. lia.
Qed.

Section writes.
Context (orphans : nat) (writes : list (nat * nat)) (ts : list (option nat * option nat)).

Lemma writes_new t n n0 h : writes_ok orphans writes ts -> ts !! t = Some (n0, None) -> (forall t', (n, t') ∉ writes) ->
  writes_ok orphans ((n, t) :: writes) (<[t := (Some n, Some h)]> ts).
Proof.
  intros [H1 H2 H3 H4 H5] Ht Hf. pose proof (lookup_lt_Some _ _ _ Ht) as Hl.
  assert (n0 = None) as -> by (destruct n0 as [n0|]; [|done]; destruct (proj2 (H3 _ _ _ Ht)) as [? ?]; eauto; done).
  split; [intros n' t' h' E|intros n' t' E|intros t' n' h' E|by constructor|].
  - apply elem_of_cons. apply list_lookup_insert_Some in E as [(<- & [= <- <-] & _)|[_ E]]; [by left|right; by eapply H1].
  - rewrite length_insert. apply elem_of_cons in E as [[= -> ->]|E]; [done|by eapply H2].
  - apply list_lookup_insert_Some in E as [(<- & [= <- <-] & _)|[_ E]]; [done|by eapply H3].
  - pose proof (length_omap_insert fst ts t _ (Some n, Some h) Ht) as E. cbn in *. lia.
Qed.

(** A write ends, and the tunnel forgets what it has for its write: its own, or one
    that has been given to the tunnel since. *)
Lemma writes_done t n n' h : writes_ok orphans ((n, t) :: writes) ts -> ts !! t = Some (Some n', h) ->
  writes_ok orphans writes (<[t := (None, None)]> ts).
Proof.
  intros [H1 H2 H3 H4 H5] Ht. apply list.NoDup_cons in H4 as [Hf H4].
  split; [intros n1 t1 h1 E|intros n1 t1 E|intros t1 n1 h1 E|done|].
  - apply list_lookup_insert_Some in E as [(_ & [=] & _)|[Hn E]]. apply H1, elem_of_cons in E as [[= -> ->]|E]; done.
  - rewrite length_insert. eapply H2. by apply elem_of_cons; right.
  - apply list_lookup_insert_Some in E as [(<- & [= <- <-] & _)|[_ E]]; [done|by eapply H3].
  - pose proof (length_omap_insert fst ts t _ (None, None) Ht) as E. cbn in *. lia.
Qed.

(** The tunnel forgets a write that has not ended. *)
Lemma writes_forget t n h : writes_ok orphans writes ts -> ts !! t = Some (Some n, h) ->
  writes_ok (S orphans) writes (<[t := (None, None)]> ts).
Proof.
  intros [H1 H2 H3 H4 H5] Ht. split; [intros n1 t1 h1 E|intros n1 t1 E|intros t1 n1 h1 E|done|].
  - apply list_lookup_insert_Some in E as [(_ & [=] & _)|[Hn E]]. by eapply H1.
  - rewrite length_insert. by eapply H2.
  - apply list_lookup_insert_Some in E as [(<- & [= <- <-] & _)|[_ E]]; [done|by eapply H3].
  - pose proof (length_omap_insert fst ts t _ (None, None) Ht) as E. cbn in *. lia.
Qed.

Lemma writes_new_tunnel : writes_ok orphans writes ts -> writes_ok orphans writes (ts ++ [(None, None)]).
Proof.
  intros [H1 H2 H3 H4 H5]. split; [intros n t h E|intros n t E|intros t n h E|done|].
  - apply lookup_snoc_Some in E as [[_ E]|[_ [=]]]. by eapply H1.
  - rewrite length_app. cbn. specialize (H2 _ _ E). lia.
  - apply lookup_snoc_Some in E as [[_ E]|[_ [= <- <-]]]; [by eapply H3|done].
  - rewrite omap_app, length_app. cbn. lia.
Qed.

End writes.

(** An early read whose tunnel forgets it, and which is canceled: it keeps its handler. *)
Lemma reads_cancel_running early late cs ts n t c h : reads_ok ((n, t, c) :: early) late cs ts -> cs !! c = Some (h, false) -> NoDup early ->
  reads_ok early ((t, c) :: late) (<[c := (h, true)]> cs) (<[t := (None, None)]> ts).
Proof.
  intros H Hc Hnd. pose proof (proj1 (r_early _ _ _ _ H n t c) ltac:(set_solver)) as Ht. pose proof (lookup_lt_Some _ _ _ Ht) as Hl.
  apply reads_run in H; [|done]. set (ts1 := <[t := _]> ts) in H.
  assert (ts1 !! t = Some (None, Some c)) as Ht1 by (unfold ts1; by rewrite list_lookup_insert_eq).
  replace (<[t := (None, None)]> ts) with (<[t := (None : option nat, None : option nat)]> ts1)
    by (unfold ts1; by rewrite list_insert_insert_eq).
  eapply reads_cancel; [done..| |done]. intros n' c' E. apply (r_early _ _ _ _ H) in E. by rewrite Ht1 in E.
Qed.
