(* ===== verification/ClientTheory.v ===== *)
(** * The host's client: one operation at a time, every handler called

    The lock of the client is held by at most one command, its token: what is
    posted, or the one operation of the frame stream in progress, that will go on
    with it.  Behind the lock the bookkeeping of ClientInvariant.v is kept, so that
    each handler a caller gives is called as often as it was given, once nothing is
    left to happen.  A cancellation that comes too late leaves traces, which a
    [ghost] remembers: a read whose turn is to come and that will keep the lock, and
    writes that their tunnel does not know any more. *)
From stdpp Require Import gmap sets.
From S2P Require Import Prelude Varuint Streams MultiplexStream Register FrameStream ExclusiveCommand StreamAsioClient ClientInvariant.
#[local] Open Scope Z_scope.
Import StreamAsioClient.

(** ** Running a step *)
Definition wp {A} (m : M A) (s : State) (Q : A -> State -> list output -> Prop) : Prop :=
  exists a s' out, m s = Done (a, s', out) /\ Q a s' out.

Section wp.
Context {A : Type}.
Implicit Types (s : State).

Lemma wp_bind {B} (m : M A) (k : A -> M B) s Q :
  wp m s (fun a s' out => wp (k a) s' (fun b s'' more => Q b s'' (out ++ more))) -> wp (m ≫= k) s Q.
Proof.
  intros (a & s1 & o1 & E1 & b & s2 & o2 & E2 & H). exists b, s2, (o1 ++ o2). split; [|done].
  unfold mbind at 1, M_bind at 1. rewrite E1, bind_done. cbn beta iota. by rewrite E2, bind_done.
Qed.

Lemma wp_ret (a : A) s Q : Q a s [] -> wp (mret a) s Q.
Proof. intros H. by exists a, s, []. Qed.
Lemma wp_gets (f : State -> A) s Q : Q (f s) s [] -> wp (gets f) s Q.
Proof. intros H. by exists (f s), s, []. Qed.
Lemma wp_modify f s (Q : unit -> State -> list output -> Prop) : Q tt (f s) [] -> wp (modify f) s Q.
Proof. intros H. by exists tt, (f s), []. Qed.
Lemma wp_emit o s (Q : unit -> State -> list output -> Prop) : Q tt s [o] -> wp (emit o) s Q.
Proof. intros H. by exists tt, s, [o]. Qed.
Lemma wp_lift (m : outcome A) a s Q : m = Done a -> Q a s [] -> wp (lift m) s Q.
Proof. intros -> H. by exists a, s, []. Qed.
Lemma wp_deref (l : State -> list A) i a s Q : l s !! i = Some a -> Q a s [] -> wp (deref l i) s Q.
Proof. intros E H. exists a, s, []. unfold deref. by rewrite E. Qed.
Lemma wp_mono (m : M A) s (Q R : A -> State -> list output -> Prop) :
  wp m s Q -> (forall a s' out, Q a s' out -> R a s' out) -> wp m s R.
Proof. intros (a & s' & out & E & H) HR. exists a, s', out. auto. Qed.
End wp.

(** One step of the above, where it is clear which. *)
Ltac wp_step :=
  match goal with
  | |- wp (_ ≫= _) _ _ => apply wp_bind
  | |- wp (mret _) _ _ => apply wp_ret
  | |- wp skip _ _ => apply wp_ret
  | |- wp (gets _) _ _ => apply wp_gets
  | |- wp (modify _) _ _ => apply wp_modify
  | |- wp (post _) _ _ => apply wp_modify
  | |- wp (set_tunnel _ _) _ _ => apply wp_modify
  | |- wp (set_context _ _) _ _ => apply wp_modify
  | |- wp (emit _) _ _ => apply wp_emit
  | |- wp (deref _ _) _ _ => eapply wp_deref; [cbn; eassumption|]
  end.

(** ** Tokens *)
Inductive token := Invoking (i : Item) | Holding (i : Item) | Finishing.

Definition callback_item (cb : callback) : Item :=
  match cb with
  | TransmitAllDone i | SingleWriteDone i _ _ | ReadDone i _ | RequestReadDone i _ _ | TunnelReadDone i _ _
  | TunnelWriteDone i _ => i
  end.

Definition task_tokens (t : task) : list token :=
  match t with
  | Lock (ExclusiveCommand.PostInvoke i) => [Invoking i]
  | Lock ExclusiveCommand.PostItemDone => [Finishing]
  | CallWrapper i _ => [Holding i]
  | _ => []
  end.

Definition tokens (s : State) : list token :=
  (posted s ≫= task_tokens) ++ ((fun o => Holding (callback_item (snd o))) <$> operations s).

Definition invoking (t : token) : list Item := match t with Invoking i => [i] | _ => [] end.
Definition holding (t : token) : list Item := match t with Holding i => [i] | _ => [] end.

(** What is remembered of cancellations that came too late: the items whose read
    was canceled and that still have their turn, or that the tunnel has forgotten;
    the reads of commands that have run; and how many writes are not known to their
    tunnels any more. *)
Record ghost := { gone : list Item; left_reads : list (nat * nat); orphans : nat }.

(** A read that was canceled. *)
Definition canceled_read (cs : list ReadContext) (i : Item) : Prop :=
  exists t c x, ExclusiveCommand.command i = ReadTunnel t c /\ cs !! c = Some x /\ canceled x = true.

Definition token_of (w : Item) (t : token) : Prop := match t with Invoking i | Holding i => i = w | Finishing => True end.

(** Whoever has the lock has one token; it may be that of a read that was canceled,
    and once that has had its turn nobody has a token. *)
Definition lock_ok (g : ghost) (l : ExclusiveCommand.t command) (cs : list ReadContext) (toks : list token) : Prop :=
  match ExclusiveCommand.waiting l with
  | None => toks = [] /\ ExclusiveCommand.queued l = [] /\ gone g = [] /\ left_reads g = []
  | Some w =>
      (exists t, toks = [t] /\ token_of w t /\ left_reads g = [] /\
        (gone g = [] \/ t = Invoking w /\ gone g = [w] /\ canceled_read cs w)) \/
      (toks = [] /\ canceled_read cs w)
  end.

(** Contexts that stay canceled. *)
Definition cancels_more (cs cs' : list ReadContext) : Prop :=
  forall c x, cs !! c = Some x -> canceled x = true -> exists y, cs' !! c = Some y /\ canceled y = true.

Lemma canceled_read_more cs cs' i : cancels_more cs cs' -> canceled_read cs i -> canceled_read cs' i.
Proof. intros H (t & c & x & Hi & Hx & Hc). destruct (H c x Hx Hc) as (y & ? & ?). by exists t, c, y. Qed.

Lemma lock_ok_more g l cs cs' toks : cancels_more cs cs' -> lock_ok g l cs toks -> lock_ok g l cs' toks.
Proof.
  intros H. unfold lock_ok. destruct (ExclusiveCommand.waiting l); [|done].
  intros [(t & ? & ? & ? & [?|(? & ? & Hc)])|[? Hc]]; [left; exists t; by auto| |right; split; [done|]; by eapply canceled_read_more].
  left. exists t. split_and!; try done. right. split_and!; [done..|]. by eapply canceled_read_more.
Qed.

Lemma cancels_more_insert cs c x y : cs !! c = Some x -> (canceled x = true -> canceled y = true) -> cancels_more cs (<[c := y]> cs).
Proof.
  intros Hx Hy c' x' Hx' Hc. destruct (decide (c' = c)) as [->|Hn].
  - exists y. rewrite list_lookup_insert_eq by by eapply lookup_lt_Some. split; [done|]. rewrite Hx in Hx'. simplify_eq. auto.
  - exists x'. by rewrite list_lookup_insert_ne by done.
Qed.

Lemma cancels_more_app cs x : cancels_more cs (cs ++ [x]).
Proof. intros c y Hy Hc. exists y. split; [|done]. by apply lookup_app_l_Some. Qed.

(** ** What the items, contexts and tunnels say *)
Definition read_of (i : Item) : option (nat * nat * nat) :=
  match ExclusiveCommand.command i with ReadTunnel t c => Some (ExclusiveCommand.nonce i, t, c) | _ => None end.
Definition late_of (i : Item) : option (nat * nat) :=
  match ExclusiveCommand.command i with ReadTunnel t c => Some (t, c) | _ => None end.
Definition write_of (i : Item) : option (nat * nat) :=
  match ExclusiveCommand.command i with WriteTunnel t _ => Some (ExclusiveCommand.nonce i, t) | _ => None end.
Definition context_view (c : ReadContext) := (handler c, canceled c).
Definition read_view (t : Tunnel) := (read_nonce t, read_context t).
Definition write_view (t : Tunnel) := (write_nonce t, write_handler t).

(** The tunnel of a write that ends has a handler for it. *)
Lemma writes_known_done k n t writes ts tun : writes_ok k ((n, t) :: writes) (write_view <$> ts) -> ts !! t = Some tun -> is_Some (write_handler tun) ->
  writes_ok k writes (<[t := (None, None)]> (write_view <$> ts)).
Proof.
  intros H Ht Hh. assert (E : (write_view <$> ts) !! t = Some (write_nonce tun, write_handler tun)) by by rewrite list_lookup_fmap, Ht.
  destruct (proj1 (w_handler _ _ _ H _ _ _ E) Hh) as [n' En]. rewrite En in E. by eapply writes_done.
Qed.

(** A command that sends everything at once asks for no answers. *)
Definition command_ok (c : command) : bool :=
  match c with
  | TransmitAll requests _ => forallb (fun r => negb (RegisterRequest.request_reply_ (request r))) requests
  | _ => true
  end.

(** [early] is the items whose command has not run, [held] those that hold the lock;
    [k] writes are not known to their tunnels any more. *)
Record inv (k : nat) (early held : list Item) (made : nat) (ws : list (nat * nat)) (cs : list ReadContext) (ts : list Tunnel) : Prop := {
  i_fresh : Forall (fun i => (ExclusiveCommand.nonce i < made)%nat /\ command_ok (ExclusiveCommand.command i) = true) (early ++ held);
  i_nonces : NoDup (ExclusiveCommand.nonce <$> early ++ held);
  i_reads : reads_ok (omap read_of early) (omap late_of held ++ ws) (context_view <$> cs) (read_view <$> ts);
  i_writes : writes_ok k (omap write_of (early ++ held)) (write_view <$> ts);
  i_channels : Forall (fun t => in_u 32 (channel_ t)) ts;
}.

Lemma inv_perm k early early' held made ws cs ts : early ≡ₚ early' -> inv k early held made ws cs ts -> inv k early' held made ws cs ts.
Proof. intros He [H1 H2 H3 H4 H5]. split; [by rewrite <- He..|done]. Qed.

Lemma inv_waits_perm k early held made ws ws' cs ts : ws ≡ₚ ws' -> inv k early held made ws cs ts -> inv k early held made ws' cs ts.
Proof. intros He [H1 H2 H3 H4 H5]. split; [done|done|by rewrite <- He|done..]. Qed.

Section inv.
Context (k : nat) (early held : list Item) (made : nat) (ws : list (nat * nat)) (cs : list ReadContext) (ts : list Tunnel).

Lemma nodup_reads : NoDup (ExclusiveCommand.nonce <$> early) -> NoDup (omap read_of early).
Proof.
  induction early as [|i l IH]; cbn; [constructor|]. rewrite !list.NoDup_cons. intros [Hi Hl]. specialize (IH Hl).
  destruct (read_of i) as [[[n t] c]|] eqn:E; [|done]. constructor; [|done]. intros (j & Hj & Ej)%list_elem_of_omap.
  apply Hi, list_elem_of_fmap. exists j. split; [|done]. unfold read_of in *. destruct (ExclusiveCommand.command i), (ExclusiveCommand.command j); congruence.
Qed.

Lemma inv_new_nonce c : inv k early held made ws cs ts -> command_ok c = true ->
  let item := {| ExclusiveCommand.nonce := made; ExclusiveCommand.command := c |} in
  Forall (fun i => (ExclusiveCommand.nonce i < S made)%nat /\ command_ok (ExclusiveCommand.command i) = true) ((item :: early) ++ held) /\
  NoDup (ExclusiveCommand.nonce <$> (item :: early) ++ held).
Proof.
  intros [H1 H2 _ _ _] Hc item. split.
  - constructor; [split; [cbn; lia|exact Hc]|]. eapply list.Forall_impl; [exact H1|]. intros i [? ?]. split; [lia|done].
  - constructor; [|done]. intros (i & E & Hi)%list_elem_of_fmap.
    apply (proj1 (list.Forall_forall _ _) H1) in Hi as [Hi _]. cbn in *. lia.
Qed.

Lemma inv_new_transmit c : inv k early held made ws cs ts -> match c with TransmitAll _ _ | TransmitOne _ _ _ => True | _ => False end -> command_ok c = true ->
  inv k ({| ExclusiveCommand.nonce := made; ExclusiveCommand.command := c |} :: early) held (S made) ws cs ts.
Proof. intros H Hc Hok. destruct (inv_new_nonce c H Hok), H. split; [done|done| |by destruct c|done]. by destruct c. Qed.

Lemma inv_new_read t tun bufs h : inv k early held made ws cs ts -> ts !! t = Some tun -> read_context tun = None ->
  inv k ({| ExclusiveCommand.nonce := made; ExclusiveCommand.command := ReadTunnel t (length cs) |} :: early) held (S made) ws
    (cs ++ [{| handler := Some h; buffers := bufs; canceled := false; bytes_read := 0 |}])
    (<[t := with_read_nonce (Some made) (with_read_context (Some (length cs)) tun)]> ts).
Proof.
  intros H Ht Hc. destruct (inv_new_nonce (ReadTunnel t (length cs)) H eq_refl) as [Hf Hn], H as [H1 H2 H3 H4 H5]. split; [done|done| | |].
  - rewrite fmap_app, list_fmap_insert. cbn. replace (length cs) with (length (context_view <$> cs)) by apply length_fmap.
    eapply reads_new; [done|]. rewrite list_lookup_fmap, Ht. cbn. unfold read_view. by rewrite Hc.
  - rewrite list_fmap_insert, list_insert_id; [done|]. by rewrite list_lookup_fmap, Ht.
  - apply Forall_insert; [done|]. cbn. exact (Forall_lookup_1 _ _ _ _ H5 Ht).
Qed.

Lemma inv_new_write t tun bufs h : inv k early held made ws cs ts -> ts !! t = Some tun -> write_handler tun = None ->
  inv k ({| ExclusiveCommand.nonce := made; ExclusiveCommand.command := WriteTunnel t bufs |} :: early) held (S made) ws cs
    (<[t := with_write_nonce (Some made) (with_write_handler (Some h) tun)]> ts).
Proof.
  intros H Ht Hc. destruct (inv_new_nonce (WriteTunnel t bufs) H eq_refl) as [Hf Hn], H as [H1 H2 H3 H4 H5]. split; [done|done| | |].
  - rewrite list_fmap_insert, list_insert_id; [done|]. by rewrite list_lookup_fmap, Ht.
  - rewrite list_fmap_insert. cbn. eapply writes_new; [done| |].
    + rewrite list_lookup_fmap, Ht. cbn. unfold write_view. by rewrite Hc.
    + intros t' (i & Hi & E)%list_elem_of_omap. apply (proj1 (list.Forall_forall _ _) H1) in Hi as [Hi _]. unfold write_of in E.
      destruct (ExclusiveCommand.command i); try done. injection E as E _. lia.
  - apply Forall_insert; [done|]. cbn. exact (Forall_lookup_1 _ _ _ _ H5 Ht).
Qed.

(** A command runs. *)
Lemma inv_run i : inv k (i :: early) held made ws cs ts -> late_of i = None -> inv k early (i :: held) made ws cs ts.
Proof.
  intros [H1 H2 H3 H4 H5] Hi. split; [by rewrite <- Permutation_middle..| |by rewrite <- Permutation_middle|done].
  cbn in *. rewrite Hi. unfold read_of in H3. unfold late_of in Hi. by destruct (ExclusiveCommand.command i).
Qed.

Lemma inv_run_read i t c tun : inv k (i :: early) held made ws cs ts -> ExclusiveCommand.command i = ReadTunnel t c -> ts !! t = Some tun ->
  inv k early (i :: held) made ws cs (<[t := with_read_nonce None tun]> ts).
Proof.
  intros [H1 H2 H3 H4 H5] Hi Ht. split; [by rewrite <- Permutation_middle..| | |].
  - rewrite list_fmap_insert. cbn in *. unfold read_of in H3 at 1. unfold late_of at 1. rewrite Hi in *.
    assert (read_context tun = Some c) as Hc.
    { pose proof (proj1 (r_early _ _ _ _ H3 (ExclusiveCommand.nonce i) t c) ltac:(set_solver)) as E. rewrite list_lookup_fmap, Ht in E.
      by injection E. }
    replace (read_view _) with (@None nat, Some c) by (unfold read_view; cbn; by rewrite Hc).
    eapply reads_run; [exact H3|]. apply nodup_reads. rewrite fmap_app in H2. apply list.NoDup_cons in H2 as [_ H2]. by apply list.NoDup_app in H2 as [H2 _].
  - rewrite list_fmap_insert, list_insert_id; [by rewrite <- Permutation_middle|]. by rewrite list_lookup_fmap, Ht.
  - apply Forall_insert; [done|]. cbn. exact (Forall_lookup_1 _ _ _ _ H5 Ht).
Qed.

Lemma inv_end i : inv k early (i :: held) made ws cs ts -> late_of i = None -> write_of i = None -> inv k early held made ws cs ts.
Proof.
  intros [H1 H2 H3 H4 H5] Hr Hw. rewrite <- Permutation_middle in H1, H2, H4. cbn in *. rewrite Hr in H3. rewrite Hw in H4.
  split; [by apply Forall_cons_1 in H1 as []|by apply list.NoDup_cons in H2 as []|done..].
Qed.

Lemma inv_end_write i t bufs tun : inv k early (i :: held) made ws cs ts -> ExclusiveCommand.command i = WriteTunnel t bufs ->
  ts !! t = Some tun -> is_Some (write_handler tun) -> inv k early held made ws cs (<[t := with_write_nonce None (with_write_handler None tun)]> ts).
Proof.
  intros [H1 H2 H3 H4 H5] Hi Ht Hh. rewrite <- Permutation_middle in H1, H2, H4. cbn in *. unfold late_of in H3 at 1.
  unfold write_of in H4 at 1. rewrite Hi in *.
  split; [by apply Forall_cons_1 in H1 as []|by apply list.NoDup_cons in H2 as []| | |].
  - rewrite list_fmap_insert, list_insert_id; [done|]. by rewrite list_lookup_fmap, Ht.
  - rewrite list_fmap_insert. by eapply writes_known_done.
  - apply Forall_insert; [done|]. cbn. exact (Forall_lookup_1 _ _ _ _ H5 Ht).
Qed.

(** A read goes to wait. *)
Lemma inv_wait i t c : inv k early (i :: held) made ws cs ts -> ExclusiveCommand.command i = ReadTunnel t c ->
  inv k early held made (ws ++ [(t, c)]) cs ts.
Proof.
  intros [H1 H2 H3 H4 H5] Hi. rewrite <- Permutation_middle in H1, H2, H4. cbn in *. unfold late_of in H3 at 1.
  unfold write_of in H4 at 1. rewrite Hi in *.
  split; [by apply Forall_cons_1 in H1 as []|by apply list.NoDup_cons in H2 as []| |done..].
  by rewrite app_assoc, <- Permutation_cons_append.
Qed.

Lemma inv_unwait_item i t c : inv k early (i :: held) made ws cs ts -> ExclusiveCommand.command i = ReadTunnel t c ->
  inv k early held made ((t, c) :: ws) cs ts.
Proof.
  intros H Hi. apply (inv_wait i t c) in H; [|done]. destruct H as [H1 H2 H3 H4 H5]. split; [done|done| |done..].
  by rewrite Permutation_cons_append.
Qed.
End inv.

Section inv_reads.
Context (k : nat) (early held : list Item) (made : nat) (ws ws' : list (nat * nat)) (cs : list ReadContext) (ts : list Tunnel).

(** What a late read has: its context, with its handler, and its tunnel. *)
Lemma inv_late t c : inv k early held made ws cs ts -> (t, c) ∈ omap late_of held ++ ws ->
  exists x tun, cs !! c = Some x /\ is_Some (handler x) /\ ts !! t = Some tun /\ (canceled x = false -> read_context tun = Some c).
Proof.
  intros H Hc. destruct H as [_ _ H _ _]. destruct (r_late _ _ _ _ H t c Hc) as (h & b & n & o & Ec & Et & Hb).
  pose proof Ec as Ec0. rewrite list_lookup_fmap in Ec. rewrite list_lookup_fmap in Et. apply fmap_Some in Ec as (x & Ec & [= -> ->]), Et as (tun & Et & [= -> ->]).
  exists x, tun. split_and!; [done| |done|done]. apply (r_handler _ _ _ _ H c _ _ Ec0). apply elem_of_app. right.
  apply list_elem_of_fmap. by exists (t, c).
Qed.

Definition taken (x : ReadContext) : ReadContext :=
  {| handler := None; buffers := buffers x; canceled := canceled x; bytes_read := bytes_read x |}.

(** The handler of a read that waits, or waited, is taken. *)
Lemma inv_take t c x : inv k early held made ws cs ts -> ws ≡ₚ (t, c) :: ws' -> cs !! c = Some x ->
  inv k early held made ws' (<[c := taken x]> cs) ts.
Proof.
  intros [H1 H2 H3 H4 H5] Hw Hx. split; [done|done| |done|done].
  rewrite list_fmap_insert. eapply reads_take.
  - by rewrite Hw, <- Permutation_middle in H3.
  - exists (handler x). by rewrite list_lookup_fmap, Hx.
Qed.

(** And its tunnel forgets it. *)
Lemma inv_take_forget t c x tun : inv k early held made ws cs ts -> ws ≡ₚ (t, c) :: ws' -> cs !! c = Some x -> canceled x = false ->
  ts !! t = Some tun -> inv k early held made ws' (<[c := taken x]> cs) (<[t := with_read_context None tun]> ts) /\ read_nonce tun = None.
Proof.
  intros H Hw Hx Hc Ht. pose proof (inv_late t c H) as Hl. destruct Hl as (x' & tun' & Ex & _ & Et & Hr).
  { rewrite Hw. set_solver. }
  rewrite Hx in Ex. rewrite Ht in Et. simplify_eq. specialize (Hr Hc).
  pose proof (i_reads _ _ _ _ _ _ _ H) as H3. rewrite Hw, <- Permutation_middle in H3.
  assert (read_nonce tun' = None) as Hn.
  { destruct (read_nonce tun') as [n|] eqn:E; [|done]. exfalso. pose proof (r_nodup _ _ _ _ H3) as Hnd. apply list.NoDup_app in Hnd as (_ & Hnd & _).
    apply (Hnd c); [|by left]. apply list_elem_of_fmap. exists (n, t, c). split; [done|]. apply (r_early _ _ _ _ H3).
    rewrite list_lookup_fmap, Ht. cbn. unfold read_view. by rewrite E, Hr. }
  split; [|done]. destruct (inv_take t c x' H Hw Hx) as [H1 H2 H3' H4 H5]. split; [done|done| | |].
  - rewrite list_fmap_insert in H3'. rewrite !list_fmap_insert. replace (read_view (with_read_context None tun')) with (@None nat, @None nat) by (unfold read_view; cbn; by rewrite Hn).
    eapply reads_forget; [exact H3'|by rewrite list_lookup_fmap, Ht| |].
    + intros n' c' E. apply (r_early _ _ _ _ H3) in E. rewrite list_lookup_fmap, Ht in E. cbn in E. unfold read_view in E. by rewrite Hn in E.
    + intros c' E. rewrite Hr in E. injection E as <-. pose proof (r_nodup _ _ _ _ H3) as Hnd.
      apply list.NoDup_app in Hnd as (_ & _ & Hnd). cbn in Hnd. by apply list.NoDup_cons in Hnd as [Hnd _].
  - rewrite list_fmap_insert, list_insert_id; [done|]. by rewrite list_lookup_fmap, Ht.
  - apply Forall_insert; [done|]. cbn. exact (Forall_lookup_1 _ _ _ _ H5 Ht).
Qed.

(** Nothing changes for a context that keeps its handler. *)
Lemma inv_same c x y : inv k early held made ws cs ts -> cs !! c = Some x -> context_view y = context_view x ->
  inv k early held made ws (<[c := y]> cs) ts.
Proof.
  intros [H1 H2 H3 H4 H5] Hx Hy. split; [done|done| |done|done].
  rewrite list_fmap_insert, Hy, list_insert_id; [done|]. by rewrite list_lookup_fmap, Hx.
Qed.

Lemma inv_new_tunnel tun : inv k early held made ws cs ts -> read_view tun = (None, None) -> write_view tun = (None, None) ->
  in_u 32 (channel_ tun) -> inv k early held made ws cs (ts ++ [tun]).
Proof.
  intros [H1 H2 H3 H4 H5] Hr Hw Hc. split; [done|done| | |].
  - rewrite fmap_app. cbn. rewrite Hr. by apply reads_new_tunnel.
  - rewrite fmap_app. cbn. rewrite Hw. by apply writes_new_tunnel.
  - apply list.Forall_app. split; [done|by constructor].
Qed.
End inv_reads.

(** ** The client's invariant *)
Definition early_items (toks : list token) (s : State) : list Item := ExclusiveCommand.queued (lock s) ++ (toks ≫= invoking).
Definition held_items (toks : list token) : list Item := toks ≫= holding.

(** The item of a transmission. *)
Definition transmission (i : Item) : Prop := late_of i = None /\ write_of i = None.

Definition callback_ok (cb : callback) : Prop :=
  match cb with
  | RequestReadDone i t c | TunnelReadDone i t c => ExclusiveCommand.command i = ReadTunnel t c
  | TunnelWriteDone i _ => late_of i = None
  | _ => transmission (callback_item cb)
  end.

Definition task_ok (t : task) : Prop :=
  match t with CallWrapper i _ => transmission i | CallSizeHandler h _ _ => is_Some h | _ => True end.

(** Of the items whose command has not run, those that are [gone] are as if it had. *)
Definition items_ok (g : ghost) (early held : list Item) (made : nat) (ws : list (nat * nat)) (cs : list ReadContext) (ts : list Tunnel) : Prop :=
  exists live, early ≡ₚ live ++ gone g /\ Forall (fun i => write_of i = None) (gone g) /\
    inv (orphans g) live (gone g ++ held) made (left_reads g ++ ws) cs ts.

Section items.
Context (g : ghost) (early held : list Item) (made made' : nat) (ws ws' : list (nat * nat)) (cs cs' : list ReadContext) (ts ts' : list Tunnel).

Lemma items_perm early' : early ≡ₚ early' -> items_ok g early held made ws cs ts -> items_ok g early' held made ws cs ts.
Proof. intros He (live & Hl & Hw & H). exists live. by rewrite <- He. Qed.

(** Where there is nothing to remember. *)
Lemma items_plain : gone g = [] -> left_reads g = [] -> items_ok g early held made ws cs ts <-> inv (orphans g) early held made ws cs ts.
Proof.
  intros Hg Hx. unfold items_ok. rewrite Hg, Hx. split.
  - intros (live & Hl & _ & H). eapply inv_perm; [|exact H]. by rewrite Hl, app_nil_r.
  - intros H. exists early. by rewrite app_nil_r.
Qed.

Lemma items_map : (forall live, inv (orphans g) live (gone g ++ held) made (left_reads g ++ ws) cs ts ->
    inv (orphans g) live (gone g ++ held) made' (left_reads g ++ ws') cs' ts') ->
  items_ok g early held made ws cs ts -> items_ok g early held made' ws' cs' ts'.
Proof. intros Hf (live & Hl & Hw & H). exists live. auto. Qed.

Lemma items_add item : (forall live, inv (orphans g) live (gone g ++ held) made (left_reads g ++ ws) cs ts ->
    inv (orphans g) (item :: live) (gone g ++ held) made' (left_reads g ++ ws') cs' ts') ->
  items_ok g early held made ws cs ts -> items_ok g (item :: early) held made' ws' cs' ts'.
Proof. intros Hf (live & Hl & Hw & H). exists (item :: live). split; [by rewrite Hl|auto]. Qed.
End items.

(** [toks] are the tokens of the state, and those that are in hand. *)
Record good (g : ghost) (toks : list token) (s : State) : Prop := {
  g_lock : lock_ok g (lock s) (contexts s) toks;
  g_inv : items_ok g (early_items toks s) (held_items toks) (ExclusiveCommand.made (lock s)) (waits s) (contexts s) (tunnels s);
  g_callbacks : Forall (fun o => callback_ok (snd o)) (operations s);
  g_tasks : Forall task_ok (posted s);
}.

(** The handlers that are given, called, and owed. *)
Definition given (e : event) : list nat :=
  match e with ETransmit _ _ h | ERead _ _ h | EWrite _ _ h => [h] | _ => [] end.
Definition called (o : output) : list nat :=
  match o with Called h _ | CalledSize h _ _ => [h] | _ => [] end.

Definition task_handlers (t : task) : list nat :=
  match t with CallHandler h _ => [h] | CallSizeHandler h _ _ => option_list h | _ => [] end.
Definition item_handlers (i : Item) : list nat :=
  match ExclusiveCommand.command i with TransmitAll _ h => [h] | TransmitOne _ _ n => [next_handler n] | _ => [] end.
Definition owed (toks : list token) (s : State) : list nat :=
  omap handler (contexts s) ++ omap write_handler (tunnels s) ++ (posted s ≫= task_handlers) ++
  ((early_items toks s ++ held_items toks) ≫= item_handlers).

Definition times (h : nat) (l : list nat) : nat := count_occ Nat.eq_dec l h.
#[local] Arguments times : simpl never.

Lemma times_app h l k : times h (l ++ k) = (times h l + times h k)%nat.
Proof. apply count_occ_app. Qed.

Lemma times_nil h : times h [] = O.
Proof. done. Qed.

Lemma times_cons h x l : times h (x :: l) = (times h [x] + times h l)%nat.
Proof. apply (times_app h [x] l). Qed.

#[global] Instance times_proper h : Proper ((≡ₚ) ==> eq) (times h).
Proof. intros l k H. by apply Permutation_count_occ. Qed.

Lemma times_omap_cons {A} (f : A -> option nat) h x l :
  times h (omap f (x :: l)) = (times h (option_list (f x)) + times h (omap f l))%nat.
Proof. cbn. destruct (f x); [apply times_cons|done]. Qed.

Lemma times_insert {A} (f : A -> option nat) h l i x y : l !! i = Some x ->
  (times h (omap f (<[i := y]> l)) + times h (option_list (f x)) = times h (omap f l) + times h (option_list (f y)))%nat.
Proof.
  revert i. induction l as [|z l IH]; intros [|i] E; try done.
  - injection E as ->. change (<[0%nat := y]> (x :: l)) with (y :: l). rewrite !times_omap_cons. lia.
  - specialize (IH i E). change (<[S i := y]> (z :: l)) with (z :: <[i := y]> l). rewrite !times_omap_cons. lia.
Qed.

Section ghost.
Context (g : ghost).

(** What a step does with [toks] in hand, and [toks'] in hand afterwards. *)
Definition steps (new : list nat) (toks : list token) (m : M unit) (s : State) (toks' : list token) : Prop :=
  wp m s (fun _ s' out => good g (toks' ++ tokens s') s' /\
    forall h, (times h new + times h (owed (toks ++ tokens s) s) = times h (out ≫= called) + times h (owed (toks' ++ tokens s') s'))%nat).

Lemma steps_bind new toks1 m k s toks2 toks3 : steps new toks1 m s toks2 ->
  (forall s', good g (toks2 ++ tokens s') s' -> steps [] toks2 k s' toks3) -> steps new toks1 (_ ← m; k) s toks3.
Proof.
  intros (a & s1 & o1 & E1 & Hg & H1) Hk. apply wp_bind. exists a, s1, o1. split; [done|].
  destruct (Hk s1 Hg) as (b & s2 & o2 & E2 & Hg' & H2). exists b, s2, o2. split; [done|]. split; [done|].
  intros h. specialize (H1 h). specialize (H2 h). rewrite times_nil in H2. rewrite bind_app, times_app. lia.
Qed.

(** ** Invoking the lock *)
Lemma lock_Invoke_spec c toks s : lock_ok g (lock s) (contexts s) (toks ++ tokens s) ->
  exists l p, lock_Invoke c s = Done (ExclusiveCommand.made (lock s), with_posted (posted s ++ p) (with_lock l s), []) /\
    let s' := with_posted (posted s ++ p) (with_lock l s) in
    lock_ok g l (contexts s) (toks ++ tokens s') /\
    early_items (toks ++ tokens s') s' ≡ₚ
      {| ExclusiveCommand.nonce := ExclusiveCommand.made (lock s); ExclusiveCommand.command := c |} :: early_items (toks ++ tokens s) s /\
    held_items (toks ++ tokens s') = held_items (toks ++ tokens s) /\
    ExclusiveCommand.made l = S (ExclusiveCommand.made (lock s)) /\ (p ≫= task_handlers) = [] /\ Forall task_ok p.
Proof.
  intros Hl. set (item := {| ExclusiveCommand.nonce := _; ExclusiveCommand.command := c |}).
  destruct s as [l ps ops ws rx tx txs ts cs rs]. destruct l as [w q n]. unfold lock_ok in Hl. cbn in Hl, item.
  destruct w as [i|]; cbn.
  - exists {| ExclusiveCommand.waiting := Some i; ExclusiveCommand.queued := q ++ [item]; ExclusiveCommand.made := S n |}, [].
    split; [done|]. unfold tokens. cbn. rewrite app_nil_r. split_and!; [done| |done..]. unfold early_items. cbn. by rewrite <- (Permutation_cons_append q item).
  - destruct Hl as (Hl & -> & Hgo & Hle). apply app_eq_nil in Hl as [-> Hl]. unfold tokens in Hl. cbn in Hl. apply app_eq_nil in Hl as [Hp Ho].
    exists {| ExclusiveCommand.waiting := Some item; ExclusiveCommand.queued := []; ExclusiveCommand.made := S n |}, [Lock (ExclusiveCommand.PostInvoke item)].
    unfold tokens. cbn. rewrite bind_app, Hp, Ho. cbn. split; [done|].
    split_and!; [left; eexists; split_and!; by auto|done..|by repeat constructor].
Qed.

Lemma times_owed h toks s : times h (owed toks s) =
  (times h (omap handler (contexts s)) + times h (omap write_handler (tunnels s)) + times h (posted s ≫= task_handlers) +
   times h (early_items toks s ≫= item_handlers) + times h (held_items toks ≫= item_handlers))%nat.
Proof. unfold owed. rewrite bind_app, !times_app. lia. Qed.

(** A token in hand is the only one. *)
Lemma good_hand t s : good g ([t] ++ tokens s) s ->
  (exists i, ExclusiveCommand.waiting (lock s) = Some i /\ token_of i t) /\ posted s ≫= task_tokens = [] /\ operations s = [] /\ tokens s = [].
Proof.
  intros [H _ _ _]. unfold lock_ok in H. destruct (ExclusiveCommand.waiting (lock s)); [|naive_solver].
  destruct H as [(t' & H & Ht & _)|[H _]]; [|done]. injection H as <- H. split; [eauto|]. unfold tokens in *. apply app_eq_nil in H as [-> H].
  apply fmap_nil_inv in H as ->. done.
Qed.

(** One whose command has run has nothing to remember. *)
Definition running (t : token) : Prop := match t with Invoking _ => False | _ => True end.

Lemma good_running t s : good g ([t] ++ tokens s) s -> running t -> gone g = [] /\ left_reads g = [].
Proof.
  intros [H _ _ _] Ht. unfold lock_ok in H. destruct (ExclusiveCommand.waiting (lock s)); [|naive_solver].
  destruct H as [(t' & H & _ & Hx & [Hg|(-> & _)])|[H _]]; [done| |done]. injection H as -> _. done.
Qed.

Lemma good_plain t s : good g ([t] ++ tokens s) s -> running t ->
  inv (orphans g) (early_items [t] s) (held_items [t]) (ExclusiveCommand.made (lock s)) (waits s) (contexts s) (tunnels s).
Proof.
  intros Hg Ht. destruct (good_hand _ _ Hg) as (_ & _ & _ & Hn), (good_running _ _ Hg Ht) as [Hgo Hle]. destruct Hg as [_ H2 _ _].
  rewrite Hn in H2. by apply items_plain in H2.
Qed.

(** The lock goes on with another token. *)
Lemma lock_running s cs t' w : gone g = [] -> left_reads g = [] -> ExclusiveCommand.waiting (lock s) = Some w -> token_of w t' ->
  lock_ok g (lock s) cs [t'].
Proof. intros Hgo Hle Hw Ht. unfold lock_ok. rewrite Hw. left. exists t'. split_and!; auto. Qed.

Lemma tokens_post ps s : posted s ≫= task_tokens = [] -> operations s = [] ->
  tokens (with_posted (posted s ++ ps) s) = ps ≫= task_tokens.
Proof. intros Hp Ho. unfold tokens. cbn. by rewrite bind_app, Hp, Ho, app_nil_r. Qed.

(** What is posted is neither a token nor holds one. *)
Lemma tokens_post_plain t s : task_tokens t = [] -> tokens (with_posted (posted s ++ [t]) s) = tokens s.
Proof. intros Ht. unfold tokens. cbn. by rewrite bind_app, bind_singleton, Ht, app_nil_r. Qed.

Lemma steps_post t toks s : good g (toks ++ tokens s) s -> task_tokens t = [] -> task_ok t ->
  steps (task_handlers t) toks (post [t]) s toks.
Proof.
  intros [H1 H2 H3 H4] Ht Hok. eexists tt, _, []. split; [done|]. rewrite (tokens_post_plain t s Ht). split.
  - split; [done..|]. cbn. apply list.Forall_app. by split; [|constructor].
  - intros h. rewrite !times_owed. cbn. rewrite (bind_app task_handlers), bind_singleton, times_app. unfold early_items. cbn. rewrite times_nil. lia.
Qed.

(** A token is posted, or goes into an operation. *)
Lemma steps_post_token t tok s : good g ([tok] ++ tokens s) s -> task_tokens t = [tok] -> task_ok t -> task_handlers t = [] ->
  steps [] [tok] (post [t]) s [].
Proof.
  intros Hg Ht Hok Hh. destruct (good_hand _ _ Hg) as (_ & Hp & Ho & Hn). rewrite Hn in Hg. destruct Hg as [H1 H2 H3 H4].
  eexists tt, _, []. split; [done|]. rewrite Hn, (tokens_post [t] s Hp Ho), bind_singleton, Ht. split.
  - split; [done..|]. cbn. apply list.Forall_app. by split; [|constructor].
  - intros h. rewrite !times_owed. cbn. rewrite (bind_app task_handlers), bind_singleton, Hh, !app_nil_r. done.
Qed.

Lemma steps_start op cb s : good g ([Holding (callback_item cb)] ++ tokens s) s -> callback_ok cb ->
  steps [] [Holding (callback_item cb)] (start op cb) s [].
Proof.
  intros Hg Hok. destruct (good_hand _ _ Hg) as (_ & Hp & Ho & Hn). rewrite Hn in Hg. destruct Hg as [H1 H2 H3 H4].
  unfold steps, start. do 3 wp_step. rewrite Hn. unfold tokens. cbn. rewrite Hp, Ho. cbn. split.
  - split; [done..| |done]. cbn. by repeat constructor.
  - intros h. reflexivity.
Qed.

(** What the tokens, contexts and tunnels say is all that matters. *)
Lemma steps_from new toks toks' m s toks2 :
  (good g (toks ++ tokens s) s -> good g (toks' ++ tokens s) s) ->
  (forall h, times h (owed (toks ++ tokens s) s) = times h (owed (toks' ++ tokens s) s)) ->
  (good g (toks' ++ tokens s) s -> steps new toks' m s toks2) -> good g (toks ++ tokens s) s -> steps new toks m s toks2.
Proof.
  intros Hg Hh Hs H. destruct (Hs (Hg H)) as (a & s' & out & E & Hg' & Ht). exists a, s', out. split; [done|]. split; [done|].
  intros h. by rewrite Hh.
Qed.

(** A step that only changes a frame or the replies. *)
Definition quiet (f : State -> State) : Prop := forall s, lock (f s) = lock s /\ posted (f s) = posted s /\
  operations (f s) = operations s /\ waits (f s) = waits s /\ contexts (f s) = contexts s /\ tunnels (f s) = tunnels s.

Lemma quiet_good f toks s : quiet f -> good g (toks ++ tokens s) s -> good g (toks ++ tokens (f s)) (f s).
Proof.
  intros Hf [H1 H2 H3 H4]. destruct (Hf s) as (E1 & E2 & E3 & E4 & E5 & E6).
  unfold tokens, early_items in *. split; unfold early_items; by rewrite ?E1, ?E2, ?E3, ?E4, ?E5, ?E6.
Qed.

Lemma quiet_owed f toks s : quiet f -> owed (toks ++ tokens (f s)) (f s) = owed (toks ++ tokens s) s.
Proof.
  intros Hf. destruct (Hf s) as (E1 & E2 & E3 & E4 & E5 & E6). unfold owed, tokens, early_items. by rewrite E1, E2, E3, E5, E6.
Qed.

Lemma steps_quiet f toks s : quiet f -> good g (toks ++ tokens s) s -> steps [] toks (modify f) s toks.
Proof.
  intros Hf Hg. eexists tt, _, []. split; [done|]. split; [by apply quiet_good|]. intros h. by rewrite quiet_owed.
Qed.

Lemma steps_skip toks s : good g (toks ++ tokens s) s -> steps [] toks skip s toks.
Proof. intros Hg. by exists tt, s, []. Qed.

(** A transmission is given to the lock. *)
Definition transmits (c : command) : Prop := match c with TransmitAll _ _ | TransmitOne _ _ _ => True | _ => False end.

Lemma steps_transmit c toks s : good g (toks ++ tokens s) s -> transmits c -> command_ok c = true ->
  steps (item_handlers {| ExclusiveCommand.nonce := O; ExclusiveCommand.command := c |}) toks (_ ← lock_Invoke c; skip) s toks.
Proof.
  intros Hg Hc Hok. destruct (lock_Invoke_spec c toks s (g_lock _ _ _ Hg)) as (l & p & E & Hl & He & Hh & Hm & Hp & Ho). destruct Hg as [H1 H2 H3 H4].
  set (s' := with_posted _ _) in *. exists tt, s', []. split; [unfold mbind, M_bind; by rewrite E|]. split.
  - split; [done| |done|].
    + rewrite Hh. change (ExclusiveCommand.made (lock s')) with (ExclusiveCommand.made l). rewrite Hm.
      eapply items_perm; [symmetry; exact He|]. eapply items_add; [|exact H2]. intros live Hv. by apply inv_new_transmit.
    + apply list.Forall_app. by split.
  - intros h. rewrite !times_owed, He, Hh. cbn [contexts tunnels posted s' with_posted with_lock].
    rewrite (bind_app task_handlers), Hp, app_nil_r, bind_cons, times_app.
    change (item_handlers (ExclusiveCommand.Build_Base O c)) with (item_handlers (ExclusiveCommand.Build_Base (ExclusiveCommand.made (lock s)) c)).
    cbn [mbind list_bind]. rewrite times_nil. lia.
Qed.

Lemma steps_emit new o toks s : good g (toks ++ tokens s) s -> called o = new -> steps new toks (emit o) s toks.
Proof.
  intros Hg Ho. eexists tt, _, _. split; [done|]. split; [done|]. intros h. cbn. by rewrite Ho, app_nil_r.
Qed.

(** ** Registers *)

(** Any payload is parsed, to the end. *)
Lemma parse_total f : exists values rest,
  RegisterParser.ParseRegisterReply (S (length (Frame.payload f))) (FastIStringStream.make (Frame.payload f)) = Done (values, rest).
Proof.
  apply ParseRegisterReply_total; [apply FastIStringStream.fis_ok_make|].
  cbn [rs_rest FastIStringStream.read_laws]. rewrite FastIStringStream.fis_rest_make. unfold zlen. lia.
Qed.

Section registers.
Context (source_id : Z).

Lemma steps_SequenceRegister requests reply callback toks s : good g (toks ++ tokens s) s ->
  steps [callback] toks (SequenceRegister requests reply callback) s toks.
Proof.
  intros Hg. destruct requests as [|r rest]; cbn [SequenceRegister]; [by apply (steps_post (CallHandler callback 0))|].
  by apply (steps_transmit (TransmitOne r reply {| next_handler := callback; next_reply := reply; remainder := rest |})).
Qed.

Lemma steps_next n ec toks s : good g (toks ++ tokens s) s -> steps [next_handler n] toks (next n ec) s toks.
Proof.
  intros Hg. unfold next. destruct (negb _); [by apply (steps_post (CallHandler (next_handler n) ec))|]. by apply steps_SequenceRegister.
Qed.

Lemma quiet_replies r : quiet (fun s => with_replies (r s) s).
Proof. by intros s. Qed.

Lemma steps_pre f m new toks s toks' : quiet f -> good g (toks ++ tokens s) s ->
  (forall s', good g (toks ++ tokens s') s' -> steps new toks m s' toks') -> steps new toks (_ ← modify f; m) s toks'.
Proof.
  intros Hf Hg Hm. destruct (Hm (f s) (quiet_good f toks s Hf Hg)) as (a & s' & out & E & Hg' & Hh). unfold steps. do 2 wp_step.
  exists a, s', out. split; [done|]. split; [done|]. intros h. rewrite <- Hh. by rewrite quiet_owed.
Qed.

Lemma steps_AsyncTransmit requests reply h toks s : good g (toks ++ tokens s) s ->
  steps [h] toks (AsyncTransmit requests reply h) s toks.
Proof.
  intros Hg. unfold AsyncTransmit. set (rest := if existsb _ _ then _ else _).
  assert (Hr : forall s', good g (toks ++ tokens s') s' -> steps [h] toks rest s' toks).
  { intros s' Hg'. unfold rest. destruct (existsb _ _) eqn:Ha; [by apply steps_SequenceRegister|].
    apply (steps_transmit (TransmitAll requests h)); [done|done|]. apply forallb_forall. intros r Hr. apply negb_true_iff.
    apply not_true_iff_false. intros E. apply not_true_iff_false in Ha. apply Ha, existsb_exists. by exists r. }
  destruct reply as [reply|].
  - apply steps_pre; [|done..]. by intros s'.
  - exact (steps_pre (fun s => s) rest [h] toks s toks (fun s => ltac:(done)) Hg Hr).
Qed.

Lemma steps_TransmitAll i requests s : good g ([Holding i] ++ tokens s) s -> transmission i ->
  forallb (fun r => negb (RegisterRequest.request_reply_ (request r))) requests = true ->
  steps [] [Holding i] (TransmitAll_command source_id i requests) s [].
Proof.
  intros Hg Hi Hr. unfold TransmitAll_command, steps. wp_step. rewrite Hr. eapply wp_lift; [done|].
  apply steps_pre; [by intros s'|done|]. intros s' Hg'. by apply (steps_start _ (TransmitAllDone i)).
Qed.

Lemma steps_TransmitOne i r reply s : good g ([Holding i] ++ tokens s) s -> transmission i ->
  steps [] [Holding i] (TransmitOne_command source_id i r reply) s [].
Proof.
  intros Hg Hi. unfold TransmitOne_command. apply steps_pre; [by intros s'|done|]. intros s' Hg'.
  by apply (steps_start _ (SingleWriteDone i reply _)).
Qed.

Lemma steps_HandleSingleWrite ec i reply (request_reply : bool) s : good g ([Holding i] ++ tokens s) s -> transmission i ->
  (request_reply = true -> ec = 0) -> steps [] [Holding i] (HandleSingleWrite ec i reply request_reply) s [].
Proof.
  intros Hg Hi He. unfold HandleSingleWrite. destruct request_reply; cbn [negb].
  - rewrite (He eq_refl). unfold steps. wp_step. eapply wp_lift; [done|]. by apply (steps_start _ (ReadDone i reply)).
  - by apply (steps_post_token (CallWrapper i ec)).
Qed.

Lemma steps_HandleRead ec reply i s : good g ([Holding i] ++ tokens s) s -> transmission i -> ec = 0 \/ ec = kAborted ->
  steps [] [Holding i] (HandleRead ec reply i) s [].
Proof.
  intros Hg Hi He. unfold HandleRead. destruct (Z.eqb_spec ec kAborted) as [|Hn]; [by apply (steps_post_token (CallWrapper i ec))|].
  destruct He as [->|]; [|done]. unfold steps. wp_step. eapply wp_lift; [done|]. do 4 wp_step.
  destruct (_ || _); [by apply (steps_start _ (ReadDone i reply))|].
  assert (Hp : forall s', good g ([Holding i] ++ tokens s') s' -> steps [] [Holding i] (post [CallWrapper i 0]) s' []).
  { intros s' Hg'. by apply (steps_post_token (CallWrapper i 0)). }
  destruct reply as [reply|]; [|do 2 wp_step; by apply (Hp s)].
  destruct (parse_total (rx_frame s)) as (parsed & rest & E).
  do 2 wp_step. eapply wp_lift; [exact E|]. cbn beta iota. wp_step.
  refine (Hp (with_replies _ s) _). by apply (quiet_good (fun s => with_replies _ s)).
Qed.
End registers.

(** ** The lock *)
Lemma held_finishing i s : good g ([Holding i] ++ tokens s) s -> late_of i = None -> write_of i = None -> good g ([Finishing] ++ tokens s) s.
Proof.
  intros Hg Hr Hw. pose proof (good_plain _ _ Hg I) as Hv. destruct (good_running _ _ Hg I) as [Hgo Hle].
  destruct (good_hand _ _ Hg) as ((j & Hj & _) & _ & _ & Hn). rewrite Hn in *. destruct Hg as [H1 H2 H3 H4].
  split; [by eapply lock_running|apply items_plain; [done..|]; exact (inv_end _ _ _ _ _ _ _ i Hv Hr Hw)|done..].
Qed.

(** A command that is no longer held. *)
Lemma steps_end i new m s : good g ([Holding i] ++ tokens s) s -> late_of i = None -> write_of i = None -> item_handlers i = new ->
  (good g ([Finishing] ++ tokens s) s -> steps new [Finishing] m s [Finishing]) -> steps [] [Holding i] m s [Finishing].
Proof.
  intros Hg Hr Hw Hi Hm. pose proof (held_finishing _ _ Hg Hr Hw) as Hg'. destruct (Hm Hg') as (a & s' & out & E & Hg2 & Hh).
  exists a, s', out. split; [done|]. split; [done|]. intros h. rewrite <- Hh, <- Hi. destruct (good_hand _ _ Hg) as (_ & _ & _ & ->).
  rewrite !times_owed. cbn [app]. unfold held_items. cbn. rewrite app_nil_r, times_nil. unfold early_items. cbn. lia.
Qed.

Lemma steps_Handled s : good g ([Finishing] ++ tokens s) s ->
  steps [] [Finishing] (l ← gets lock; out ← lift (ExclusiveCommand.Handled l); post (map Lock out)) s [].
Proof.
  intros Hg. unfold steps. do 3 wp_step. destruct (good_hand _ _ Hg) as ((j & Hj & _) & _).
  eapply wp_lift; [unfold ExclusiveCommand.Handled; by rewrite Hj|]. by apply (steps_post_token (Lock ExclusiveCommand.PostItemDone)).
Qed.

Lemma steps_ItemDone s : good g ([Finishing] ++ tokens s) s -> steps [] [Finishing] ItemDone s [].
Proof.
  intros Hg. pose proof (good_plain _ _ Hg I) as Hv. destruct (good_running _ _ Hg I) as [Hgo Hle].
  destruct (good_hand _ _ Hg) as ((j & Hj & _) & Hp & Ho & Hn). rewrite Hn in Hg. destruct Hg as [H1 H2 H3 H4].
  unfold steps, ItemDone. do 3 wp_step. unfold ExclusiveCommand.ItemDone. rewrite Hj. eapply wp_lift; [done|].
  rewrite Hn. cbn. destruct s as [l ps ops ws rx tx txs ts cs rs]. destruct l as [w q n]. cbn in *. subst ops.
  unfold ExclusiveCommand.MaybeStart. cbn. destruct q as [|i q]; cbn; do 3 wp_step; unfold tokens; cbn; rewrite bind_app, Hp; cbn.
  - rewrite !app_nil_r. split; [split; [done|by apply items_plain|done..]|]. done.
  - assert (Hq : q ++ [i] ≡ₚ (i :: q) ++ []) by (by rewrite app_nil_r, <- Permutation_cons_append).
    split; [split|].
    + left. eexists. split_and!; by auto.
    + apply items_plain; [done..|]. eapply inv_perm; [symmetry; exact Hq|exact Hv].
    + done.
    + apply list.Forall_app. by split; [|repeat constructor].
    + intros h. f_equal. apply times_proper. rewrite !app_nil_r, (bind_app task_handlers). cbn. rewrite app_nil_r.
      do 3 f_equiv. by rewrite <- (Permutation_cons_append q i).
Qed.

(** ** Reads of tunnels *)

(** A handler that is taken from a context is posted. *)
Definition take_post (c : nat) (x : ReadContext) (ec size : Z) (s : State) : State :=
  with_posted (posted s ++ [CallSizeHandler (handler x) ec size]) (with_contexts (<[c := taken x]> (contexts s)) s).

Lemma take_post_tokens c x ec size s : tokens (take_post c x ec size s) = tokens s.
Proof. unfold tokens. cbn. rewrite bind_app. cbn. by rewrite app_nil_r. Qed.

Lemma take_post_owed c x ec size toks s h : contexts s !! c = Some x -> times h (owed toks (take_post c x ec size s)) = times h (owed toks s).
Proof.
  intros Hx. rewrite !times_owed. cbn [take_post contexts tunnels posted with_posted with_contexts].
  pose proof (times_insert handler h (contexts s) c x (taken x) Hx) as E. rewrite (bind_app task_handlers), bind_singleton, times_app.
  unfold early_items. cbn in *. rewrite times_nil in E. lia.
Qed.

Lemma tunnel_owed t tun tun' toks s h : tunnels s !! t = Some tun -> write_handler tun' = write_handler tun ->
  times h (owed toks (with_tunnels (<[t := tun']> (tunnels s)) s)) = times h (owed toks s).
Proof.
  intros Ht Hw. rewrite !times_owed. pose proof (times_insert write_handler h (tunnels s) t tun tun' Ht) as E. rewrite Hw in E.
  unfold early_items. cbn in *. lia.
Qed.

Lemma hand_owed i h s : item_handlers i = [] ->
  times h (owed ([Holding i] ++ tokens s) s) = times h (owed ([Finishing] ++ tokens s) s).
Proof.
  intros Hi. rewrite !times_owed. unfold early_items, held_items. cbn. by rewrite Hi.
Qed.

Lemma wp_take_handler c x s (Q : option nat -> State -> list output -> Prop) : contexts s !! c = Some x ->
  Q (handler x) (with_contexts (<[c := taken x]> (contexts s)) s) [] -> wp (take_handler c) s Q.
Proof. intros Hx HQ. unfold take_handler. do 2 wp_step. do 2 wp_step. by wp_step. Qed.

(** A held read goes to wait: what is left in hand is the end of the command. *)
Lemma held_wait i t c s : good g ([Holding i] ++ tokens s) s -> ExclusiveCommand.command i = ReadTunnel t c ->
  (forall cs, lock_ok g (lock s) cs [Finishing]) /\
  inv (orphans g) (early_items [Finishing] s) [] (ExclusiveCommand.made (lock s)) ((t, c) :: waits s) (contexts s) (tunnels s).
Proof.
  intros Hg Hi. destruct (good_hand _ _ Hg) as ((j & Hj & _) & _ & _ & Hn), (good_running _ _ Hg I) as [Hgo Hle].
  split; [intros cs; by eapply lock_running|]. exact (inv_unwait_item _ _ _ _ _ _ _ i t c (good_plain _ _ Hg I) Hi).
Qed.

Lemma held_read i t c s : good g ([Holding i] ++ tokens s) s -> ExclusiveCommand.command i = ReadTunnel t c ->
  exists x tun, contexts s !! c = Some x /\ is_Some (handler x) /\ tunnels s !! t = Some tun /\
    (canceled x = false -> read_context tun = Some c).
Proof.
  intros Hg Hi. destruct (held_wait i t c s Hg Hi) as [_ H]. eapply inv_late; [exact H|]. cbn. set_solver.
Qed.

Lemma steps_MaybeRetry i t c ec s : good g ([Holding i] ++ tokens s) s -> ExclusiveCommand.command i = ReadTunnel t c ->
  (forall x, contexts s !! c = Some x -> canceled x = false -> ec = 0) ->
  steps [] [Holding i] (MaybeRetry ec t c) s [Finishing].
Proof.
  intros Hg Hi He. destruct (held_wait i t c s Hg Hi) as [Hl Hv]. destruct (held_read i t c s Hg Hi) as (x & tun & Hx & Hh & Ht & Hr).
  destruct (good_hand _ _ Hg) as (_ & _ & _ & Hn), (good_running _ _ Hg I) as [Hgo Hle]. pose proof Hg as [_ _ H3 H4].
  assert (Hi' : item_handlers i = []) by (unfold item_handlers; by rewrite Hi).
  unfold steps, MaybeRetry. do 2 wp_step. destruct (canceled x) eqn:Hc.
  - wp_step. eapply wp_take_handler; [exact Hx|]. wp_step. change (with_posted _ _) with (take_post c x kAborted 0 s).
    rewrite take_post_tokens. split; [split|].
    + by rewrite Hn.
    + rewrite Hn. apply items_plain; [done..|]. eapply inv_take; [exact Hv|done|exact Hx].
    + done.
    + apply list.Forall_app. by split; [|repeat constructor].
    + intros h. rewrite take_post_owed, hand_owed by done. done.
  - specialize (Hr eq_refl). rewrite (He _ Hx Hc). wp_step. eapply wp_lift; [done|]. do 2 wp_step. destruct (_ <? _).
    + wp_step. eapply wp_take_handler; [exact Hx|]. do 3 wp_step. change (with_posted _ _) with (take_post c x 0 (bytes_read x) s).
      change (tokens (with_tunnels ?ts ?s')) with (tokens s'). rewrite take_post_tokens.
      destruct (inv_take_forget _ _ _ _ _ (waits s) _ _ t c x tun Hv ltac:(done) Hx Hc Ht) as [Hv' _]. split; [split|].
      * by rewrite Hn.
      * rewrite Hn. by apply items_plain.
      * done.
      * apply list.Forall_app. by split; [|repeat constructor].
      * intros h. rewrite hand_owed by done.
        rewrite (tunnel_owed t tun) by done. by rewrite take_post_owed.
    + do 2 wp_step. wp_step. change (tokens (with_waits ?w ?s')) with (tokens s'). split; [split|].
      * by rewrite Hn.
      * rewrite Hn. apply items_plain; [done..|]. eapply inv_waits_perm; [apply Permutation_cons_append|exact Hv].
      * done.
      * done.
      * intros h. by rewrite hand_owed.
Qed.

(** ** Writes of tunnels *)
Lemma held_write i t bufs s : good g ([Holding i] ++ tokens s) s -> ExclusiveCommand.command i = WriteTunnel t bufs ->
  exists tun, tunnels s !! t = Some tun.
Proof.
  intros Hg Hi. destruct (good_plain _ _ Hg I) as [_ _ _ H4 _]. apply lookup_lt_is_Some. rewrite <- (length_fmap write_view).
  apply (w_bound _ _ _ H4 (ExclusiveCommand.nonce i) t).
  apply list_elem_of_omap. exists i. split; [|unfold write_of; by rewrite Hi]. unfold held_items. cbn. set_solver.
Qed.

(** The tunnel of a write that ends has a handler for it. *)
Definition may_end (i : Item) (s : State) : Prop :=
  forall t b tun, ExclusiveCommand.command i = WriteTunnel t b -> tunnels s !! t = Some tun -> is_Some (write_handler tun).

Lemma steps_WriteTunnel_handler i t bufs ec size s : good g ([Holding i] ++ tokens s) s -> ExclusiveCommand.command i = WriteTunnel t bufs ->
  may_end i s -> steps [] [Holding i] (WriteTunnel_handler t ec size) s [Finishing].
Proof.
  intros Hg Hi Hm. destruct (held_write i t bufs s Hg Hi) as (tun & Ht). destruct (Hm t bufs tun Hi Ht) as [h Hh].
  destruct (good_hand _ _ Hg) as ((j & Hj & _) & _ & _ & Hn), (good_running _ _ Hg I) as [Hgo Hle]. pose proof (good_plain _ _ Hg I) as Hv.
  pose proof Hg as [_ _ H3 H4].
  unfold steps, WriteTunnel_handler. do 3 wp_step. wp_step. rewrite Hh. cbn [call_size]. wp_step.
  change (tokens (with_tunnels ?ts ?s')) with (tokens s'). split; [split|].
  - rewrite Hn. by eapply lock_running.
  - rewrite Hn. apply items_plain; [done..|]. refine (inv_end_write _ _ _ _ _ _ _ i t bufs tun Hv Hi Ht _). by rewrite Hh.
  - done.
  - done.
  - intros h'. rewrite hand_owed by (unfold item_handlers; by rewrite Hi). rewrite !times_owed.
    pose proof (times_insert write_handler h' (tunnels s) t tun (with_write_nonce None (with_write_handler None tun)) Ht) as E.
    rewrite Hh in E. unfold early_items. cbn in *. rewrite times_nil in *. lia.
Qed.

(** ** The handler of the lock *)
Lemma steps_HandlerWrapper i ec size s : good g ([Holding i] ++ tokens s) s ->
  (forall t c x, ExclusiveCommand.command i = ReadTunnel t c -> contexts s !! c = Some x -> canceled x = false -> ec = 0) ->
  may_end i s -> steps [] [Holding i] (HandlerWrapper i ec size) s [].
Proof.
  intros Hg He Hm. unfold HandlerWrapper. eapply steps_bind; [|intros; by apply steps_Handled].
  destruct (ExclusiveCommand.command i) as [rs h|r reply n|t c|t b] eqn:Hi.
  - eapply (steps_end i [h]); [done|unfold late_of; by rewrite Hi|unfold write_of; by rewrite Hi|unfold item_handlers; by rewrite Hi|].
    intros Hg'. by apply steps_emit.
  - eapply (steps_end i [next_handler n]); [done|unfold late_of; by rewrite Hi|unfold write_of; by rewrite Hi|unfold item_handlers; by rewrite Hi|].
    intros Hg'. by apply steps_next.
  - apply steps_MaybeRetry; [done|done|]. eauto.
  - by eapply steps_WriteTunnel_handler.
Qed.

(** ** Commands *)

(** A command that is not that of a read that was canceled. *)
Lemma good_live i s : good g ([Invoking i] ++ tokens s) s -> ~ canceled_read (contexts s) i ->
  gone g = [] /\ left_reads g = [] /\
  inv (orphans g) (early_items [Invoking i] s) (held_items [Invoking i]) (ExclusiveCommand.made (lock s)) (waits s) (contexts s) (tunnels s).
Proof.
  intros Hg Hc. destruct (good_hand _ _ Hg) as ((w & Hw & Hwi) & _ & _ & Hn). destruct Hg as [H1 H2 _ _]. rewrite Hn in *.
  unfold lock_ok in H1. rewrite Hw in H1. cbn in Hwi. subst w.
  destruct H1 as [(t & Ht & _ & Hle & [Hgo|(_ & _ & ?)])|[? _]]; [|done..]. split_and!; [done..|]. by apply items_plain in H2.
Qed.

Lemma good_run i s : good g ([Invoking i] ++ tokens s) s -> late_of i = None -> good g ([Holding i] ++ tokens s) s.
Proof.
  intros Hg Hi. destruct (good_hand _ _ Hg) as ((j & Hj & Hji) & _ & _ & Hn), (good_live _ _ Hg) as (Hgo & Hle & Hv).
  { intros (t & c & x & E & _). unfold late_of in Hi. by rewrite E in Hi. }
  rewrite Hn in *. destruct Hg as [H1 H2 H3 H4].
  split; [by eapply lock_running|apply items_plain; [done..|]|done..]. unfold early_items, held_items in *. cbn in *.
  rewrite app_nil_r. apply inv_run; [|done]. eapply inv_perm; [|exact Hv]. by rewrite <- Permutation_cons_append.
Qed.

Lemma run_owed i s h : tokens s = [] -> times h (owed ([Invoking i] ++ tokens s) s) = times h (owed ([Holding i] ++ tokens s) s).
Proof.
  intros Hn. rewrite Hn, !times_owed. unfold early_items, held_items. cbn. rewrite !app_nil_r, bind_app, times_app. cbn. rewrite app_nil_r, times_nil. lia.
Qed.

Lemma steps_run i m s toks : good g ([Invoking i] ++ tokens s) s -> late_of i = None ->
  (good g ([Holding i] ++ tokens s) s -> steps [] [Holding i] m s toks) -> steps [] [Invoking i] m s toks.
Proof.
  intros Hg Hi Hm. destruct (good_hand _ _ Hg) as (_ & _ & _ & Hn). eapply (steps_from [] [Invoking i] [Holding i]); [|intros; by apply run_owed|done|done].
  intros. by apply good_run.
Qed.

(** [MakeFrame] makes a frame. *)
Definition tunnel_bytes (channel : Z) (data : list byte) : list byte :=
  vu_bytes 5 Format.kClientToServer ++ vu_bytes 5 channel ++ vu_bytes 5 (u32 (zlen data)) ++ data.

Lemma write_varuint s v : in_u 32 v -> FastOStringStream.ok s ->
  exists s', GenericWriter.WriteVaruint s v = Done s' /\ FastOStringStream.ok s' /\ FastOStringStream.str s' = FastOStringStream.str s ++ vu_bytes 5 v.
Proof. intros Hv Hs. destruct (mux_WriteVaruint_wrote s v Hv) as (s' & E & O & R & _); [exact Hs|done|]. by exists s'. Qed.

Lemma wp_MakeFrame source t bufs size request_reply tun s (Q : unit -> State -> list output -> Prop) :
  tunnels s !! t = Some tun -> in_u 32 (channel_ tun) -> 0 <= size <= zlen (concat bufs) ->
  Q tt (with_tx_frame {| Frame.source_id := source; Frame.request_reply := request_reply; Frame.dest_id := id_ tun;
          Frame.payload := tunnel_bytes (channel_ tun) (ztake size (concat bufs)) |} s) [] ->
  wp (MakeFrame source t bufs size request_reply) s Q.
Proof.
  intros Ht Hc Hs HQ. unfold MakeFrame. do 2 wp_step.
  destruct (write_varuint FastOStringStream.empty Format.kClientToServer ltac:(done) FastOStringStream.ok_empty) as (s1 & E1 & O1 & R1).
  destruct (write_varuint s1 (channel_ tun) Hc O1) as (s2 & E2 & O2 & R2).
  destruct (write_varuint s2 (u32 size) (uwrap_range 32 size ltac:(lia)) O2) as (s3 & E3 & O3 & R3).
  destruct (FastOStringStream.fos_write_spec s3 (ztake size (concat bufs)) O3) as (s4 & E4 & O4 & R4).
  wp_step. eapply wp_lift; [exact E1|]. wp_step. eapply wp_lift; [exact E2|]. wp_step. eapply wp_lift; [exact E3|].
  wp_step. eapply wp_lift; [exact E4|]. wp_step. rewrite R4, R3, R2, R1, <- !app_assoc. unfold tunnel_bytes in HQ.
  rewrite zlen_take, Z.min_l in HQ by lia. exact HQ.
Qed.

Section commands.
Context (source_id max_size : Z).

Lemma steps_ReadTunnel i t c s : good g ([Invoking i] ++ tokens s) s -> ExclusiveCommand.command i = ReadTunnel t c ->
  ~ canceled_read (contexts s) i -> steps [] [Invoking i] (ReadTunnel_command source_id i t c) s [].
Proof.
  intros Hg Hi Hnc. destruct (good_hand _ _ Hg) as ((j & Hj & Hji) & _ & Ho & Hn), (good_live _ _ Hg Hnc) as (Hgo & Hle & H2). pose proof Hg as [_ _ H3 H4].
  unfold early_items, held_items in H2. cbn in H2. apply (inv_perm _ _ (i :: ExclusiveCommand.queued (lock s))) in H2;
    [|by rewrite <- Permutation_cons_append].
  pose proof H2 as [_ _ V3 _ V5]. cbn in V3. unfold read_of in V3 at 1. rewrite Hi in V3.
  pose proof (proj1 (r_early _ _ _ _ V3 (ExclusiveCommand.nonce i) t c) ltac:(set_solver)) as E.
  destruct (r_context _ _ _ _ V3 _ _ _ E) as [h Ec]. rewrite list_lookup_fmap in E. apply fmap_Some in E as (tun & Ht & [= _ _]).
  rewrite list_lookup_fmap in Ec. apply fmap_Some in Ec as (x & Hx & [= _ Hc]).
  pose proof (inv_run_read _ _ _ _ _ _ _ i t c tun H2 Hi Ht) as Hv.
  unfold steps, ReadTunnel_command. do 4 wp_step. wp_step. wp_step. rewrite <- Hc. wp_step.
  assert (Ht' : tunnels (with_tunnels (<[t := with_read_nonce None tun]> (tunnels s)) s) !! t = Some (with_read_nonce None tun)).
  { cbn. apply list_lookup_insert_eq. by eapply lookup_lt_Some. }
  eapply wp_MakeFrame; [exact Ht'| |done|].
  { exact (Forall_lookup_1 _ _ _ _ V5 Ht). }
  do 2 wp_step. set (s1 := with_tx_frame _ _).
  assert (Hg1 : good g ([Holding i] ++ tokens s1) s1).
  { change (tokens s1) with (tokens s). rewrite Hn. split; [by eapply (lock_running s1)|apply items_plain; [done..|]|done..].
    unfold early_items, held_items. cbn. rewrite app_nil_r. exact Hv. }
  destruct (steps_start (AsyncWrite (tx_frame s1)) (RequestReadDone i t c) s1 Hg1 Hi) as (a & s' & out & E' & Hg' & Hh).
  exists a, s', out. split; [exact E'|]. split; [exact Hg'|]. intros h'. rewrite run_owed by done. specialize (Hh h').
  assert (E2 : times h' (owed ([Holding i] ++ tokens s1) s1) = times h' (owed ([Holding i] ++ tokens s) s))
    by exact (tunnel_owed t tun (with_read_nonce None tun) _ s h' Ht eq_refl).
  cbn [callback_item] in Hh. rewrite E2 in Hh. exact Hh.
Qed.

Lemma steps_WriteTunnel i t bufs s : good g ([Invoking i] ++ tokens s) s -> ExclusiveCommand.command i = WriteTunnel t bufs ->
  max_size < 0 \/ 3 <= max_size -> steps [] [Invoking i] (WriteTunnel_command source_id max_size i t bufs) s [].
Proof.
  intros Hg Hi Hm. assert (late_of i = None) as Hl by (unfold late_of; by rewrite Hi). apply steps_run; [done|done|]. clear Hg. intros Hg.
  destruct (held_write i t bufs s Hg Hi) as (tun & Ht). destruct (good_plain _ _ Hg I) as [_ _ _ _ V5].
  unfold steps, WriteTunnel_command. pose proof (zlen_nonneg (concat bufs)) as Hz.
  assert (Hk : forall size, 0 <= size <= zlen (concat bufs) -> steps [] [Holding i]
    (_ ← MakeFrame source_id t bufs size false; tx ← gets tx_frame; start (AsyncWrite tx) (TunnelWriteDone i size)) s []).
  { intros size Hs. unfold steps. wp_step. eapply wp_MakeFrame; [exact Ht|exact (Forall_lookup_1 _ _ _ _ V5 Ht)|exact Hs|].
    do 2 wp_step. refine (steps_start _ (TunnelWriteDone i size) (with_tx_frame _ s) _ Hl). by apply (quiet_good (fun s => with_tx_frame _ s)). }
  wp_step. unfold buffers_size, kNeededOverhead, kVarUintSize. destruct (Z.leb_spec 0 max_size).
  - wp_step. rewrite (proj2 (Z.leb_le _ _)) by lia. eapply wp_lift; [done|]. wp_step. apply Hk. lia.
  - wp_step. apply Hk. lia.
Qed.

Lemma steps_Invoke i s : good g ([Invoking i] ++ tokens s) s -> max_size < 0 \/ 3 <= max_size ->
  ~ canceled_read (contexts s) i -> steps [] [Invoking i] (Invoke source_id max_size i) s [].
Proof.
  intros Hg Hm Hnc. unfold Invoke. assert (command_ok (ExclusiveCommand.command i) = true) as Ha.
  { destruct (good_live _ _ Hg Hnc) as (_ & _ & [H1 _ _ _ _]). apply (proj1 (list.Forall_forall _ _) H1 i). unfold early_items. cbn. set_solver. }
  destruct (ExclusiveCommand.command i) as [rs h|r reply n|t c|t b] eqn:Hi.
  - assert (transmission i) as Ht by (unfold transmission, late_of, write_of; by rewrite Hi). apply steps_run; [done|apply Ht|]. intros. by apply steps_TransmitAll.
  - assert (transmission i) as Ht by (unfold transmission, late_of, write_of; by rewrite Hi). apply steps_run; [done|apply Ht|]. intros. by apply steps_TransmitOne.
  - by apply steps_ReadTunnel.
  - by apply steps_WriteTunnel.
Qed.
End commands.

(** ** The calls of tunnels *)
Lemma steps_async_read_some t bufs h tun toks s : good g (toks ++ tokens s) s -> tunnels s !! t = Some tun -> read_context tun = None ->
  steps [h] toks (async_read_some t bufs (Some h)) s toks.
Proof.
  intros Hg Ht Hr. pose proof (lookup_lt_Some _ _ _ Ht) as Hlt. unfold steps, async_read_some. do 3 wp_step. rewrite Hr.
  eapply wp_lift; [done|]. destruct (_ =? 0); [apply (steps_post (CallSizeHandler (Some h) 0 0)); [done|done|by eexists]|].
  do 2 wp_step. do 2 wp_step. do 2 wp_step. cbn [tunnels with_contexts]. set (tun1 := with_read_context _ tun). set (s1 := with_tunnels _ _).
  destruct Hg as [H1 H2 H3 H4].
  apply (lock_ok_more _ _ _ (contexts s1) _ (cancels_more_app _ _)) in H1.
  destruct (lock_Invoke_spec (ReadTunnel t (length (contexts s))) toks s1 H1) as (l & p & E & Hl & He & Hh & Hm & Hp & Ho).
  set (s2 := with_posted _ _) in *. wp_step. eexists _, s2, []. split; [exact E|].
  wp_step. eapply wp_deref; [exact (list_lookup_insert_eq (tunnels s) t tun1 Hlt)|]. wp_step.
  change (tokens (with_tunnels ?ts ?s')) with (tokens s'). split; [split|].
  - exact Hl.
  - rewrite Hh. change (early_items ?k (with_tunnels _ s2)) with (early_items k s2). eapply items_perm; [symmetry; exact He|].
    cbn [lock waits contexts tunnels with_tunnels with_posted with_lock s2 s1 with_contexts]. rewrite Hm, list_insert_insert_eq.
    eapply items_add; [|exact H2]. intros live Hv. by apply inv_new_read.
  - done.
  - apply list.Forall_app. by split.
  - intros h'. rewrite !times_owed. change (early_items ?k (with_tunnels _ s2)) with (early_items k s2). rewrite He, Hh.
    cbn [contexts tunnels posted with_tunnels with_posted with_lock s2 s1 with_contexts].
    rewrite omap_app, (bind_app task_handlers), Hp, app_nil_r, bind_cons, !times_app, list_insert_insert_eq.
    set (tun2 := with_read_nonce _ _). pose proof (times_insert write_handler h' (tunnels s) t tun tun2 Ht) as E'.
    change (early_items ?k s1) with (early_items k s). change (tokens s1) with (tokens s). cbn in *. rewrite !times_nil. lia.
Qed.

Lemma steps_async_write_some t bufs h tun toks s : good g (toks ++ tokens s) s -> tunnels s !! t = Some tun -> write_handler tun = None ->
  steps [h] toks (async_write_some t bufs h) s toks.
Proof.
  intros Hg Ht Hr. pose proof (lookup_lt_Some _ _ _ Ht) as Hlt. unfold steps, async_write_some. do 3 wp_step. rewrite Hr.
  eapply wp_lift; [done|]. destruct (_ =? 0); [apply (steps_post (CallSizeHandler (Some h) 0 0)); [done|done|by eexists]|].
  do 2 wp_step. set (tun1 := with_write_handler _ tun). set (s1 := with_tunnels _ _). destruct Hg as [H1 H2 H3 H4].
  destruct (lock_Invoke_spec (WriteTunnel t bufs) toks s1 H1) as (l & p & E & Hl & He & Hh & Hm & Hp & Ho).
  set (s2 := with_posted _ _) in *. wp_step. eexists _, s2, []. split; [exact E|].
  wp_step. eapply wp_deref; [exact (list_lookup_insert_eq (tunnels s) t tun1 Hlt)|]. wp_step.
  change (tokens (with_tunnels ?ts ?s')) with (tokens s'). split; [split|].
  - exact Hl.
  - rewrite Hh. change (early_items ?k (with_tunnels _ s2)) with (early_items k s2). eapply items_perm; [symmetry; exact He|].
    cbn [lock waits contexts tunnels with_tunnels with_posted with_lock s2 s1]. rewrite Hm, list_insert_insert_eq.
    eapply items_add; [|exact H2]. intros live Hv. by apply inv_new_write.
  - done.
  - apply list.Forall_app. by split.
  - intros h'. rewrite !times_owed. change (early_items ?k (with_tunnels _ s2)) with (early_items k s2). rewrite He, Hh.
    cbn [contexts tunnels posted with_tunnels with_posted with_lock s2 s1].
    rewrite (bind_app task_handlers), Hp, app_nil_r, bind_cons, !times_app, list_insert_insert_eq.
    set (tun2 := with_write_nonce _ _). pose proof (times_insert write_handler h' (tunnels s) t tun tun2 Ht) as E'. rewrite Hr in E'.
    change (early_items ?k s1) with (early_items k s). change (tokens s1) with (tokens s). cbn in *. rewrite !times_nil in *. lia.
Qed.

(** ** A poll timer *)
#[local] Arguments tokens : simpl never.

Lemma steps_HandlePollTimer t c ec s : lock_ok g (lock s) (contexts s) (tokens s) ->
  items_ok g (early_items (tokens s) s) (held_items (tokens s)) (ExclusiveCommand.made (lock s)) ((t, c) :: waits s) (contexts s) (tunnels s) ->
  Forall (fun o => callback_ok (snd o)) (operations s) -> Forall task_ok (posted s) ->
  (forall x, contexts s !! c = Some x -> canceled x = false -> ec = 0) ->
  steps [] [] (HandlePollTimer ec t c) s [].
Proof.
  intros H1 H2 H3 H4 He. pose proof H2 as (live & _ & _ & Hv0). destruct (inv_late _ _ _ _ _ _ _ t c Hv0 ltac:(set_solver)) as (x & tun & Hx & [h Hh] & Ht & Hr).
  pose proof (cancels_more_insert _ c x (taken x) Hx ltac:(done)) as Hmore.
  assert (Hws : left_reads g ++ (t, c) :: waits s ≡ₚ (t, c) :: left_reads g ++ waits s) by (by rewrite Permutation_middle).
  unfold steps, HandlePollTimer. do 2 wp_step. destruct (canceled x) eqn:Hc.
  - wp_step. eapply wp_take_handler; [exact Hx|]. wp_step. change (with_posted _ _) with (take_post c x kAborted 0 s).
    rewrite take_post_tokens. split; [split|].
    + by eapply lock_ok_more.
    + eapply items_map; [|exact H2]. intros l Hv. eapply inv_take; [exact Hv|exact Hws|exact Hx].
    + done.
    + apply list.Forall_app. split; [done|]. constructor; [|constructor]. cbn. rewrite Hh. by eexists.
    + intros h'. by rewrite take_post_owed.
  - rewrite (He _ Hx Hc). wp_step. eapply wp_lift; [done|]. wp_step. eapply wp_take_handler; [exact Hx|].
    do 2 wp_step. do 2 wp_step. rewrite Hh. cbn [tunnels with_contexts]. set (s1 := with_tunnels _ _).
    assert (Hg : good g ([] ++ tokens s1) s1).
    { split; [by eapply lock_ok_more| |exact H3|exact H4]. eapply items_map; [|exact H2]. intros l Hv.
      by destruct (inv_take_forget _ _ _ _ _ _ _ _ t c x tun Hv Hws Hx Hc Ht) as [? _]. }
    assert (Ht' : tunnels s1 !! t = Some (with_read_context None tun)) by (apply list_lookup_insert_eq; by eapply lookup_lt_Some).
    destruct (steps_async_read_some t (buffers x) h _ [] s1 Hg Ht' eq_refl) as (a & s' & out & E & Hg' & Ho).
    exists a, s', out. split; [exact E|]. split; [exact Hg'|]. intros h'. specialize (Ho h'). etransitivity; [|exact Ho]. rewrite !times_owed.
    pose proof (times_insert handler h' (contexts s) c x (taken x) Hx) as E1. rewrite Hh in E1.
    pose proof (times_insert write_handler h' (tunnels s) t tun (with_read_context None tun) Ht) as E2. cbn in *. rewrite !times_nil in *.
    unfold early_items. cbn. change (tokens s1) with (tokens s). lia.
Qed.

(** ** The answer to a poll *)
Lemma parse_answer_total channel payload : exists answer, parse_answer channel payload = Done answer.
Proof.
  unfold parse_answer. set (stream := FastIStringStream.make payload).
  assert (V : rs_valid stream) by apply FastIStringStream.fis_ok_make.
  destruct (ReadVaruint_ref stream V) as (s1 & -> & V1 & _). rewrite bind_done. cbn beta iota.
  case_match; [|by eexists]. case_match; [by eexists|]. destruct (ReadVaruint_ref s1 V1) as (s2 & -> & V2 & _). rewrite bind_done. cbn beta iota.
  case_match; [|by eexists]. case_match; [by eexists|]. destruct (ReadVaruint_ref s2 V2) as (s3 & -> & V3 & _). rewrite bind_done. cbn beta iota.
  case_match; [|by eexists]. case_match; by eexists.
Qed.

Lemma steps_HandleRequestRead i t c s : good g ([Holding i] ++ tokens s) s -> ExclusiveCommand.command i = ReadTunnel t c ->
  steps [] [Holding i] (HandleRequestRead 0 i t c) s [].
Proof.
  intros Hg Hi. unfold HandleRequestRead, steps. wp_step. eapply wp_lift; [done|]. by apply (steps_start _ (TunnelReadDone i t c)).
Qed.

(** A context that keeps its handler changes. *)
Lemma steps_context c x y m s i toks : good g ([Holding i] ++ tokens s) s -> contexts s !! c = Some x -> context_view y = context_view x ->
  (forall s', good g ([Holding i] ++ tokens s') s' -> steps [] [Holding i] m s' toks) ->
  steps [] [Holding i] (_ ← set_context c y; m) s toks.
Proof.
  intros [H1 H2 H3 H4] Hx Hy Hm. unfold steps. do 2 wp_step. set (s1 := with_contexts _ s).
  pose proof Hy as Hy'. unfold context_view in Hy'. injection Hy' as _ Hyc.
  destruct (Hm s1) as (a & s' & out & E & Hg & Hh).
  { split; [eapply lock_ok_more; [|exact H1]; eapply cancels_more_insert; [exact Hx|congruence]| |done..].
    eapply items_map; [|exact H2]. intros l Hv. by eapply inv_same. }
  exists a, s', out. split; [exact E|]. split; [exact Hg|]. intros h. specialize (Hh h). etransitivity; [|exact Hh]. rewrite !times_owed.
  pose proof (times_insert handler h (contexts s) c x y Hx) as E1. unfold context_view in Hy. injection Hy as E2 _. rewrite E2 in E1.
  change (early_items ?k s1) with (early_items k s). change (tokens s1) with (tokens s). cbn in *. lia.
Qed.

Lemma steps_TunnelHandleRead source_id ec i t c queued s : good g ([Holding i] ++ tokens s) s -> ExclusiveCommand.command i = ReadTunnel t c ->
  steps [] [Holding i] (TunnelHandleRead source_id ec i t c queued) s [].
Proof.
  intros Hg Hi. destruct (held_read i t c s Hg Hi) as (x & tun & Hx & Hh & Ht & Hr).
  assert (Hw : forall s' size, good g ([Holding i] ++ tokens s') s' -> steps [] [Holding i] (HandlerWrapper i 0 size) s' []).
  { intros s' size Hg'. apply steps_HandlerWrapper; [done..|]. intros t' b tun' E. by rewrite Hi in E. }
  unfold steps, TunnelHandleRead. do 2 wp_step. destruct (canceled x) eqn:Hc.
  { apply steps_HandlerWrapper; [done| |intros t' b tun' E; by rewrite Hi in E].
    intros t' c' x' E Hx'. rewrite Hi in E. injection E as <- <-. rewrite Hx in Hx'. injection Hx' as <-. by rewrite Hc. }
  destruct (_ =? kAborted); [by apply Hw|]. do 4 wp_step. destruct (_ || _); [by apply Hw|].
  destruct (parse_answer_total (channel_ tun) (Frame.payload (rx_frame s))) as [answer Ea]. wp_step. eapply wp_lift; [exact Ea|].
  destruct answer as [data|]; [|by apply Hw]. do 2 wp_step. destruct (_ && _) eqn:Hq.
  - apply andb_true_iff in Hq as [_ Hq]. wp_step. eapply wp_lift; [unfold OffsetBufferSequence; by rewrite Hq|].
    apply (steps_context c x _ _ _ i []); [done|done|unfold context_view; by rewrite <- Hc|]. intros s' Hg'. by apply steps_HandleRequestRead.
  - apply (steps_context c x _ _ _ i []); [done|done|unfold context_view; by rewrite <- Hc|]. intros s' Hg'. by apply Hw.
Qed.

End ghost.

(** ** Cancellation *)
Section remove.
Context {C : Type}.
Implicit Types (q : list (ExclusiveCommand.Base C)).

Lemma filter_none n q : n ∉ ExclusiveCommand.nonce <$> q -> List.filter (fun i => negb (ExclusiveCommand.is_nonce (Some n) i)) q = q.
Proof.
  induction q as [|i q IH]; [done|]. cbn. rewrite elem_of_cons. intros Hn. destruct (Nat.eqb_spec n (ExclusiveCommand.nonce i)) as [->|]; [naive_solver|].
  cbn. f_equal. apply IH. naive_solver.
Qed.

Lemma remove_none (l : ExclusiveCommand.t C) : ExclusiveCommand.remove None l = (0, l).
Proof.
  unfold ExclusiveCommand.remove. replace (List.filter _ _) with (ExclusiveCommand.queued l); [by rewrite Nat.eqb_refl|].
  induction (ExclusiveCommand.queued l) as [|i q IH]; [done|]. cbn. by f_equal.
Qed.

Lemma remove_item (l : ExclusiveCommand.t C) item : NoDup (ExclusiveCommand.nonce <$> ExclusiveCommand.queued l) -> item ∈ ExclusiveCommand.queued l ->
  exists q, ExclusiveCommand.remove (Some (ExclusiveCommand.nonce item)) l =
      (1, {| ExclusiveCommand.waiting := ExclusiveCommand.waiting l; ExclusiveCommand.queued := q; ExclusiveCommand.made := ExclusiveCommand.made l |}) /\
    ExclusiveCommand.queued l ≡ₚ item :: q.
Proof.
  destruct l as [w q n]. cbn. intros Hnd (q1 & q2 & ->)%list_elem_of_split. exists (q1 ++ q2).
  split; [|by rewrite Permutation_middle]. rewrite fmap_app, fmap_cons, <- Permutation_middle, <- fmap_app in Hnd.
  apply list.NoDup_cons in Hnd as [Hn _]. unfold ExclusiveCommand.remove. cbn [ExclusiveCommand.queued].
  assert (Hi : ExclusiveCommand.is_nonce (Some (ExclusiveCommand.nonce item)) item = true) by apply Nat.eqb_refl.
  assert (Hf : List.filter (fun i => negb (ExclusiveCommand.is_nonce (Some (ExclusiveCommand.nonce item)) i)) (q1 ++ item :: q2) = q1 ++ q2).
  { rewrite List.filter_app. cbn [List.filter]. rewrite Hi. cbn [negb]. rewrite <- List.filter_app. by apply filter_none. }
  rewrite Hf, !length_app. cbn [length]. rewrite (proj2 (Nat.eqb_neq _ _)) by lia. done.
Qed.
End remove.

(** What cancellation does to the read of a tunnel, if it has one, and to the lock. *)
Definition forgot_read (tun : Tunnel) : Tunnel := with_read_nonce None (with_read_context None tun).
Definition forgot_write (tun : Tunnel) : Tunnel := with_write_nonce None (with_write_handler None tun).
Definition marked (x : ReadContext) : ReadContext :=
  {| handler := handler x; buffers := buffers x; canceled := true; bytes_read := bytes_read x |}.

Section inv_cancel.
Context (k : nat) (early held : list Item) (made : nat) (ws : list (nat * nat)) (cs : list ReadContext) (ts : list Tunnel).

Lemma inv_no_read t tun : inv k early held made ws cs ts -> ts !! t = Some tun -> read_context tun = None ->
  read_nonce tun = None /\ inv k early held made ws cs (<[t := forgot_read tun]> ts).
Proof.
  intros H Ht Hr. pose proof (i_reads _ _ _ _ _ _ _ H) as H3.
  assert (E : (read_view <$> ts) !! t = Some (read_nonce tun, None)) by (rewrite list_lookup_fmap, Ht; cbn; unfold read_view; by rewrite Hr).
  assert (read_nonce tun = None) as Hn.
  { destruct (read_nonce tun) as [n|] eqn:En; [|done]. by destruct (r_nonce _ _ _ _ H3 t n None E). }
  rewrite Hn in E. split; [done|]. destruct H as [H1 H2 _ H4 H5]. split; [done|done| | |].
  - rewrite list_fmap_insert. change (read_view (forgot_read tun)) with (@None nat, @None nat). by rewrite list_insert_id.
  - rewrite list_fmap_insert, list_insert_id; [done|]. by rewrite list_lookup_fmap, Ht.
  - apply Forall_insert; [done|]. exact (Forall_lookup_1 _ _ _ _ H5 Ht).
Qed.

(** A late read is marked. *)
Lemma inv_cancel_late t tun c : inv k early held made ws cs ts -> ts !! t = Some tun -> read_context tun = Some c -> read_nonce tun = None ->
  exists x, cs !! c = Some x /\ inv k early held made ws (<[c := marked x]> cs) (<[t := forgot_read tun]> ts).
Proof.
  intros [H1 H2 H3 H4 H5] Ht Hc Hn.
  assert (E : (read_view <$> ts) !! t = Some (None, Some c)) by (rewrite list_lookup_fmap, Ht; cbn; unfold read_view; by rewrite Hc, Hn).
  destruct (r_context _ _ _ _ H3 _ _ _ E) as [h Ec]. pose proof Ec as Ec'. rewrite list_lookup_fmap in Ec'.
  apply fmap_Some in Ec' as (x & Hx & [= Eh Eb]). exists x. split; [done|]. split; [done|done| | |].
  - rewrite !list_fmap_insert. change (context_view (marked x)) with (handler x, true). rewrite <- Eh.
    eapply reads_cancel; [done|done| |done]. intros n' c' E'. apply (r_early _ _ _ _ H3) in E'. by rewrite E in E'.
  - rewrite list_fmap_insert, list_insert_id; [done|]. by rewrite list_lookup_fmap, Ht.
  - apply Forall_insert; [done|]. exact (Forall_lookup_1 _ _ _ _ H5 Ht).
Qed.

(** An early read is the read of an item. *)
Lemma inv_early_item t tun n : inv k early held made ws cs ts -> ts !! t = Some tun -> read_nonce tun = Some n ->
  exists i c x, i ∈ early /\ ExclusiveCommand.nonce i = n /\ ExclusiveCommand.command i = ReadTunnel t c /\ read_context tun = Some c /\
    cs !! c = Some x /\ is_Some (handler x).
Proof.
  intros [H1 H2 H3 H4 H5] Ht Hn. assert (E : (read_view <$> ts) !! t = Some (Some n, read_context tun)) by (rewrite list_lookup_fmap, Ht; cbn; unfold read_view; by rewrite Hn).
  destruct (r_nonce _ _ _ _ H3 _ _ _ E) as [c Hc]. rewrite Hc in E. apply (r_early _ _ _ _ H3) in E as E'.
  destruct (r_context _ _ _ _ H3 _ _ _ E) as [h Ec]. pose proof Ec as Ec'. rewrite list_lookup_fmap in Ec. apply fmap_Some in Ec as (x & Hx & [= -> _]).
  pose proof E' as (i & Hi & Er)%list_elem_of_omap. unfold read_of in Er. destruct (ExclusiveCommand.command i) as [| |t' c'|] eqn:Ei; try done.
  injection Er as <- <- <-. exists i, c', x. split_and!; try done. apply (r_handler _ _ _ _ H3 _ _ _ Ec'). apply elem_of_app. left.
  apply list_elem_of_fmap. by exists (ExclusiveCommand.nonce i, t', c').
Qed.

Lemma inv_cancel_early i t tun c x : inv k (i :: early) held made ws cs ts -> ExclusiveCommand.command i = ReadTunnel t c -> ts !! t = Some tun ->
  cs !! c = Some x -> inv k early held made ws (<[c := taken (marked x)]> cs) (<[t := forgot_read tun]> ts).
Proof.
  intros [H1 H2 H3 H4 H5] Hi Ht Hx. cbn in *. unfold read_of in H3 at 1. unfold write_of in H4 at 1. rewrite Hi in *.
  split; [by apply Forall_cons_1 in H1 as []|by apply list.NoDup_cons in H2 as []| | |].
  - rewrite !list_fmap_insert. change (context_view _) with (@None nat, true). change (read_view (forgot_read tun)) with (@None nat, @None nat).
    pose proof (proj1 (r_early _ _ _ _ H3 (ExclusiveCommand.nonce i) t c) ltac:(set_solver)) as E.
    destruct (r_context _ _ _ _ H3 _ _ _ E) as [h Ec]. eapply reads_cancel_early; [exact H3|exact Ec|].
    apply nodup_reads. rewrite fmap_app in H2. apply list.NoDup_cons in H2 as [_ H2]. by apply list.NoDup_app in H2 as [H2 _].
  - rewrite list_fmap_insert, list_insert_id; [done|]. by rewrite list_lookup_fmap, Ht.
  - apply Forall_insert; [done|]. exact (Forall_lookup_1 _ _ _ _ H5 Ht).
Qed.

Lemma inv_no_write t tun : inv k early held made ws cs ts -> ts !! t = Some tun -> write_nonce tun = None ->
  write_handler tun = None /\ inv k early held made ws cs (<[t := forgot_write tun]> ts).
Proof.
  intros [H1 H2 H3 H4 H5] Ht Hn.
  assert (E : (write_view <$> ts) !! t = Some (None, write_handler tun)) by (rewrite list_lookup_fmap, Ht; cbn; unfold write_view; by rewrite Hn).
  assert (write_handler tun = None) as Hh.
  { destruct (write_handler tun) as [h|]; [|done]. by destruct (proj1 (w_handler _ _ _ H4 _ _ _ E)); [by eexists|]. }
  rewrite Hh in E. split; [done|]. split; [done|done| | |].
  - rewrite list_fmap_insert, list_insert_id; [done|]. by rewrite list_lookup_fmap, Ht.
  - rewrite list_fmap_insert. change (write_view (forgot_write tun)) with (@None nat, @None nat). by rewrite list_insert_id.
  - apply Forall_insert; [done|]. exact (Forall_lookup_1 _ _ _ _ H5 Ht).
Qed.

Lemma inv_write_item t tun n : inv k early held made ws cs ts -> ts !! t = Some tun -> write_nonce tun = Some n ->
  exists i b, i ∈ early ++ held /\ ExclusiveCommand.nonce i = n /\ ExclusiveCommand.command i = WriteTunnel t b.
Proof.
  intros [H1 H2 H3 H4 H5] Ht Hn.
  assert (E : (write_view <$> ts) !! t = Some (Some n, write_handler tun)) by (rewrite list_lookup_fmap, Ht; cbn; unfold write_view; by rewrite Hn).
  pose proof (w_nonce _ _ _ H4 n t _ E) as (i & Hi & Ew)%list_elem_of_omap.
  unfold write_of in Ew. destruct (ExclusiveCommand.command i) as [| | |t' b] eqn:Ei; try done. injection Ew as <- <-. by exists i, b.
Qed.

Lemma inv_cancel_write i t tun b : inv k (i :: early) held made ws cs ts -> ExclusiveCommand.command i = WriteTunnel t b -> ts !! t = Some tun ->
  is_Some (write_handler tun) -> inv k early held made ws cs (<[t := forgot_write tun]> ts).
Proof.
  intros [H1 H2 H3 H4 H5] Hi Ht Hh. cbn in *. unfold read_of in H3 at 1. unfold write_of in H4 at 1. rewrite Hi in *.
  split; [by apply Forall_cons_1 in H1 as []|by apply list.NoDup_cons in H2 as []| | |].
  - rewrite list_fmap_insert, list_insert_id; [done|]. by rewrite list_lookup_fmap, Ht.
  - rewrite list_fmap_insert. by eapply writes_known_done.
  - apply Forall_insert; [done|]. exact (Forall_lookup_1 _ _ _ _ H5 Ht).
Qed.

(** A write in progress is not known to its tunnel any more. *)
Lemma inv_forget_write t tun n : inv k early held made ws cs ts -> ts !! t = Some tun -> write_nonce tun = Some n ->
  is_Some (write_handler tun) /\ inv (S k) early held made ws cs (<[t := forgot_write tun]> ts).
Proof.
  intros [H1 H2 H3 H4 H5] Ht Hn.
  assert (E : (write_view <$> ts) !! t = Some (Some n, write_handler tun)) by (rewrite list_lookup_fmap, Ht; cbn; unfold write_view; by rewrite Hn).
  split; [apply (w_handler _ _ _ H4 _ _ _ E); by eexists|]. split; [done|done| | |].
  - rewrite list_fmap_insert, list_insert_id; [done|]. by rewrite list_lookup_fmap, Ht.
  - rewrite list_fmap_insert. by eapply writes_forget.
  - apply Forall_insert; [done|]. exact (Forall_lookup_1 _ _ _ _ H5 Ht).
Qed.

(** The command of a read that is canceled is to run: it is as if it had. *)
Lemma inv_cancel_running i t tun c x : inv k (i :: early) held made ws cs ts -> ExclusiveCommand.command i = ReadTunnel t c -> ts !! t = Some tun ->
  cs !! c = Some x -> inv k early (i :: held) made ws (<[c := marked x]> cs) (<[t := forgot_read tun]> ts).
Proof.
  intros [H1 H2 H3 H4 H5] Hi Ht Hx. split; [by rewrite <- Permutation_middle..| | |].
  - cbn in *. unfold read_of in H3 at 1. unfold late_of at 1. rewrite Hi in *. rewrite !list_fmap_insert.
    pose proof (proj1 (r_early _ _ _ _ H3 (ExclusiveCommand.nonce i) t c) ltac:(set_solver)) as E.
    destruct (r_context _ _ _ _ H3 _ _ _ E) as [h Ec]. pose proof Ec as Ec'. rewrite list_lookup_fmap, Hx in Ec'. cbn in Ec'. injection Ec' as Eh _.
    change (context_view (marked x)) with (handler x, true). rewrite Eh. change (read_view (forgot_read tun)) with (@None nat, @None nat).
    eapply reads_cancel_running; [exact H3|exact Ec|].
    apply nodup_reads. rewrite fmap_app in H2. apply list.NoDup_cons in H2 as [_ H2]. by apply list.NoDup_app in H2 as [H2 _].
  - rewrite list_fmap_insert, list_insert_id; [by rewrite <- Permutation_middle|]. by rewrite list_lookup_fmap, Ht.
  - apply Forall_insert; [done|]. exact (Forall_lookup_1 _ _ _ _ H5 Ht).
Qed.

(** The command of a read runs, whose tunnel has been given another one: the tunnel
    forgets that one's nonce, if it has one. *)
Lemma inv_forget_nonce t tun n : inv k early held made ws cs ts -> ts !! t = Some tun -> read_nonce tun = Some n ->
  exists i live, early ≡ₚ i :: live /\ write_of i = None /\ inv k live (i :: held) made ws cs (<[t := with_read_nonce None tun]> ts).
Proof.
  intros H Ht Hn. destruct (inv_early_item t tun n H Ht Hn) as (i & c & x & Hi & _ & Hc & _).
  apply list_elem_of_split in Hi as (l1 & l2 & Hi). exists i, (l1 ++ l2). assert (early ≡ₚ i :: l1 ++ l2) as He by (by rewrite Hi, Permutation_middle).
  split; [done|]. split; [unfold write_of; by rewrite Hc|]. eapply inv_run_read; [|exact Hc|exact Ht]. by eapply inv_perm.
Qed.

Lemma inv_no_nonce t tun : inv k early held made ws cs ts -> ts !! t = Some tun -> read_nonce tun = None ->
  inv k early held made ws cs (<[t := with_read_nonce None tun]> ts).
Proof.
  intros H Ht Hn. rewrite list_insert_id; [done|]. rewrite Ht. destruct tun; cbn in *. by subst.
Qed.
End inv_cancel.

(** Only contexts and the queue change, and [p] is posted. *)
Record kept (s s1 : State) (p : list task) : Prop := {
  k_tunnels : tunnels s1 = tunnels s;
  k_operations : operations s1 = operations s;
  k_waits : waits s1 = waits s;
  k_posted : posted s1 = posted s ++ p;
  k_waiting : ExclusiveCommand.waiting (lock s1) = ExclusiveCommand.waiting (lock s);
  k_made : ExclusiveCommand.made (lock s1) = ExclusiveCommand.made (lock s);
  k_plain : p ≫= task_tokens = [];
  k_tasks : Forall task_ok p;
}.

Lemma kept_tokens s s1 p : kept s s1 p -> tokens s1 = tokens s.
Proof. intros [_ Ho _ Hp _ _ Hk _]. unfold tokens. by rewrite Ho, Hp, bind_app, Hk, app_nil_r. Qed.

Definition balance (h : nat) (s : State) : nat :=
  (times h (omap handler (contexts s)) + times h (posted s ≫= task_handlers) + times h (ExclusiveCommand.queued (lock s) ≫= item_handlers))%nat.

Lemma remove_absent {C} n (l : ExclusiveCommand.t C) : n ∉ ExclusiveCommand.nonce <$> ExclusiveCommand.queued l ->
  ExclusiveCommand.remove (Some n) l = (0, l).
Proof. intros Hn. unfold ExclusiveCommand.remove. by rewrite filter_none, Nat.eqb_refl. Qed.

(** A queue without one of its items. *)
Definition with_queue (q : list Item) (l : ExclusiveCommand.t command) : ExclusiveCommand.t command :=
  {| ExclusiveCommand.waiting := ExclusiveCommand.waiting l; ExclusiveCommand.queued := q; ExclusiveCommand.made := ExclusiveCommand.made l |}.

Section cancel.
Context (g : ghost) (l : ExclusiveCommand.t command) (toks : list token) (live : list Item).
Context (made : nat) (ws : list (nat * nat)) (cs : list ReadContext) (ts : list Tunnel).
Context (Hlock : lock_ok g l cs toks) (Hlive : ExclusiveCommand.queued l ++ (toks ≫= invoking) ≡ₚ live ++ gone g).
Context (Hinv : inv (orphans g) live (gone g ++ held_items toks) made ws cs ts).

(** The nonces of the queue and of the tokens differ. *)
Lemma token_nonces : NoDup (ExclusiveCommand.nonce <$> ExclusiveCommand.queued l ++ (toks ≫= invoking) ++ (toks ≫= holding)).
Proof.
  pose proof (i_nonces _ _ _ _ _ _ _ Hinv) as Hn. rewrite app_assoc in Hn. rewrite <- Hlive, <- app_assoc in Hn. exact Hn.
Qed.

Lemma token_not_queued i : i ∈ (toks ≫= invoking) ++ (toks ≫= holding) ->
  ExclusiveCommand.nonce i ∉ ExclusiveCommand.nonce <$> ExclusiveCommand.queued l.
Proof.
  intros Hi Hq. pose proof token_nonces as Hn. rewrite fmap_app in Hn. apply list.NoDup_app in Hn as (_ & Hn & _).
  apply (Hn _ Hq). apply list_elem_of_fmap. by exists i.
Qed.

(** What is live is in the queue, or its command is to run. *)
Lemma live_where i : i ∈ live -> i ∈ ExclusiveCommand.queued l \/
  (toks = [Invoking i] /\ ExclusiveCommand.waiting l = Some i /\ gone g = [] /\ left_reads g = []).
Proof.
  intros Hi. assert (i ∈ ExclusiveCommand.queued l ++ (toks ≫= invoking)) as Hq by (rewrite Hlive; apply elem_of_app; by left).
  apply elem_of_app in Hq as [Hq|Hq]; [by left|]. unfold lock_ok in Hlock. destruct (ExclusiveCommand.waiting l) as [w|] eqn:Ew.
  - destruct Hlock as [(t & -> & Ht & Hle & Hg)|[-> _]]; [|by apply not_elem_of_nil in Hq].
    destruct t as [j|j|]; cbn in Hq; try (by apply not_elem_of_nil in Hq). apply list_elem_of_singleton in Hq as ->. cbn in Ht. subst j.
    right. destruct Hg as [Hg|(_ & Hg & _)]; [done|]. exfalso.
    pose proof (i_nonces _ _ _ _ _ _ _ Hinv) as Hn. rewrite Hg, fmap_app in Hn. apply list.NoDup_app in Hn as (_ & Hn & _).
    apply (Hn (ExclusiveCommand.nonce w)); [|cbn; by left]. apply list_elem_of_fmap. by exists w.
  - destruct Hlock as (-> & _). by apply not_elem_of_nil in Hq.
Qed.

(** An item of the queue that is live is removed. *)
Lemma live_removed i : i ∈ live -> i ∈ ExclusiveCommand.queued l ->
  exists q rest, ExclusiveCommand.remove (Some (ExclusiveCommand.nonce i)) l = (1, with_queue q l) /\
    ExclusiveCommand.queued l ≡ₚ i :: q /\ live ≡ₚ i :: rest /\ q ++ (toks ≫= invoking) ≡ₚ rest ++ gone g /\ lock_ok g (with_queue q l) cs toks.
Proof.
  intros Hi Hq. destruct (remove_item l i) as (q & E & Hp); [|done|].
  { pose proof token_nonces as Hn. rewrite fmap_app in Hn. by apply list.NoDup_app in Hn as [Hn _]. }
  apply list_elem_of_split in Hi as (l1 & l2 & Hi). assert (live ≡ₚ i :: l1 ++ l2) as He by (by rewrite Hi, Permutation_middle).
  exists q, (l1 ++ l2). split_and!; [done..| |].
  - apply (Permutation_cons_inv (a := i)). by rewrite !app_comm_cons, <- Hp, <- He.
  - unfold lock_ok in *. cbn. destruct (ExclusiveCommand.waiting l); [done|]. destruct Hlock as (_ & Hn & _). rewrite Hn in Hq. by apply not_elem_of_nil in Hq.
Qed.
End cancel.

Lemma wp_lock_remove n k l s (Q : bool -> State -> list output -> Prop) : ExclusiveCommand.remove n (lock s) = (k, l) ->
  Q (negb (k =? 0)) (with_lock l s) [] -> wp (lock_remove n) s Q.
Proof. intros E HQ. unfold lock_remove. do 2 wp_step. rewrite E. do 2 wp_step. by wp_step. Qed.

Lemma wp_set_canceled c x s (Q : unit -> State -> list output -> Prop) : contexts s !! c = Some x ->
  Q tt (with_contexts (<[c := marked x]> (contexts s)) s) [] -> wp (set_canceled c) s Q.
Proof. intros Hx HQ. unfold set_canceled. do 2 wp_step. by wp_step. Qed.

(** The command of a read that is to run when it is canceled has nothing left to do
    but to say so. *)
Definition with_gone (i : Item) (g : ghost) : ghost := {| gone := [i]; left_reads := []; orphans := orphans g |}.

Lemma wp_cancel_read g t tun s : good g (tokens s) s -> tunnels s !! t = Some tun ->
  wp (cancel_read tun) s (fun _ s1 out => out = [] /\ exists g' p, kept s s1 p /\ (forall h, balance h s1 = balance h s) /\
    orphans g' = orphans g /\ lock_ok g' (lock s1) (contexts s1) (tokens s) /\
    items_ok g' (early_items (tokens s) s1) (held_items (tokens s)) (ExclusiveCommand.made (lock s)) (waits s) (contexts s1)
      (<[t := forgot_read tun]> (tunnels s))).
Proof.
  intros [H1 (live & Hl & Hw & Hv) H3 H4] Ht. unfold cancel_read.
  destruct (read_context tun) as [c|] eqn:Hr.
  - destruct (read_nonce tun) as [n|] eqn:En.
    + destruct (inv_early_item _ _ _ _ _ _ _ t tun n Hv Ht En) as (i & c' & x & Hi & <- & Hcmd & Hr' & Hx & [h Hh]).
      rewrite Hr in Hr'. injection Hr' as <-. pose proof (cancels_more_insert _ c x (marked x) Hx ltac:(done)) as Hm.
      destruct (live_where g (lock s) (tokens s) live _ _ _ _ H1 Hl Hv i Hi) as [Hq|(Htk & Hwt & Hgo & Hle)].
      * destruct (live_removed g (lock s) (tokens s) live _ _ _ _ H1 Hl Hv i Hi Hq) as (q & rest & E & Hp & Hlr & Hqr & Hlk).
        apply (inv_perm _ _ _ _ _ _ _ _ Hlr) in Hv. wp_step. eapply wp_set_canceled; [exact Hx|]. wp_step. eapply wp_lock_remove; [exact E|].
        cbn [Z.eqb negb]. wp_step. eapply wp_take_handler; [apply list_lookup_insert_eq; by eapply lookup_lt_Some|]. wp_step. split; [done|].
        exists g. eexists [_]. split_and!; [split|..]; try done.
        -- constructor; [|constructor]. cbn. rewrite Hh. by eexists.
        -- intros h'. unfold balance. cbn [contexts posted lock with_posted with_contexts with_lock ExclusiveCommand.queued with_queue].
           rewrite list_insert_insert_eq, (bind_app task_handlers), Hp. rewrite (bind_cons item_handlers), !times_app.
           pose proof (times_insert handler h' (contexts s) c x (taken (marked x)) Hx) as E'. assert (item_handlers i = []) as -> by (unfold item_handlers; by rewrite Hcmd).
           cbn in *. rewrite ?app_nil_r, times_nil in *. lia.
        -- cbn [contexts with_posted with_contexts with_lock]. rewrite list_insert_insert_eq. eapply lock_ok_more; [|exact Hlk]. by eapply cancels_more_insert.
        -- cbn [contexts with_posted with_contexts with_lock]. rewrite list_insert_insert_eq. exists rest. split_and!; [done..|]. by eapply inv_cancel_early.
      * wp_step. eapply wp_set_canceled; [exact Hx|]. wp_step. eapply wp_lock_remove.
        { apply remove_absent. eapply token_not_queued; [exact Hl|exact Hv|]. rewrite Htk. cbn. set_solver. }
        cbn [Z.eqb negb]. wp_step. split; [done|]. exists (with_gone i g), []. cbn [lock contexts with_contexts with_lock].
        assert (live ≡ₚ i :: ExclusiveCommand.queued (lock s)) as He.
        { rewrite Hgo, app_nil_r in Hl. rewrite <- Hl, Htk. unfold early_items. cbn. by rewrite <- Permutation_cons_append. }
        rewrite Hgo, Hle, Htk in Hv. apply (inv_perm _ _ _ _ _ _ _ _ He) in Hv. split_and!; [split|..]; try done.
        -- cbn. by rewrite app_nil_r.
        -- intros h'. unfold balance. cbn [contexts posted lock with_contexts with_lock].
           pose proof (times_insert handler h' (contexts s) c x (marked x) Hx) as E'. cbn in *. lia.
        -- unfold lock_ok. rewrite Hwt, Htk. left. exists (Invoking i). split_and!; try done. right. split_and!; try done.
           exists t, c, (marked x). split_and!; [done| |done]. apply list_lookup_insert_eq. by eapply lookup_lt_Some.
        -- exists (ExclusiveCommand.queued (lock s)). rewrite Htk. split_and!; [done| |].
           { constructor; [|constructor]. unfold write_of. by rewrite Hcmd. }
           by eapply inv_cancel_running.
    + destruct (inv_cancel_late _ _ _ _ _ _ _ t tun c Hv Ht Hr En) as (x & Hx & Hv').
      wp_step. eapply wp_set_canceled; [exact Hx|]. wp_step. eapply wp_lock_remove; [apply remove_none|]. cbn [Z.eqb negb]. wp_step.
      split; [done|]. exists g, []. split_and!; [split|..]; try done.
      * cbn. by rewrite app_nil_r.
      * intros h'. unfold balance. cbn [contexts posted lock with_contexts with_lock].
        pose proof (times_insert handler h' (contexts s) c x (marked x) Hx) as E'. cbn in *. lia.
      * eapply lock_ok_more; [|exact H1]. by eapply cancels_more_insert.
      * by exists live.
  - destruct (inv_no_read _ _ _ _ _ _ _ t tun Hv Ht Hr) as [Hn Hv']. rewrite Hn. do 2 wp_step. wp_step. eapply wp_lock_remove; [apply remove_none|].
    cbn [Z.eqb negb]. wp_step. split; [done|]. exists g, []. split_and!; [split|..]; try done; [cbn; by rewrite app_nil_r|by exists live].
Qed.

(** The handler that a cancellation drops: that of a write whose command is to run,
    or that is in progress. *)
Definition dropped (toks : list token) (tun : Tunnel) : list nat :=
  if existsb (ExclusiveCommand.is_nonce (write_nonce tun)) ((toks ≫= invoking) ++ (toks ≫= holding)) then option_list (write_handler tun) else [].

Definition more_orphans (n : nat) (g : ghost) : ghost := {| gone := gone g; left_reads := left_reads g; orphans := orphans g + n |}.

Lemma wp_cancel_write g t tun tun' toks ws ts s :
  lock_ok g (lock s) (contexts s) toks -> items_ok g (early_items toks s) (held_items toks) (ExclusiveCommand.made (lock s)) ws (contexts s) ts ->
  ts !! t = Some tun' -> write_view tun' = write_view tun ->
  wp (cancel_write tun) s (fun _ s1 out => out = [] /\ exists p, kept s s1 p /\ contexts s1 = contexts s /\
    (forall h, balance h s1 + times h (dropped toks tun) = balance h s + times h (option_list (write_handler tun)))%nat /\
    lock_ok (more_orphans (length (dropped toks tun)) g) (lock s1) (contexts s) toks /\
    items_ok (more_orphans (length (dropped toks tun)) g) (early_items toks s1) (held_items toks) (ExclusiveCommand.made (lock s)) ws (contexts s)
      (<[t := forgot_write tun']> ts)).
Proof.
  intros H1 (live & Hl & Hgw & Hv) Ht Hw. unfold write_view in Hw. injection Hw as Hwn Hwh. unfold cancel_write, dropped.
  destruct (write_nonce tun) as [n|] eqn:En.
  - destruct (inv_write_item _ _ _ _ _ _ _ t tun' n Hv Ht Hwn) as (i & b & Hi & <- & Hcmd).
    destruct (inv_forget_write _ _ _ _ _ _ _ t tun' _ Hv Ht Hwn) as [[h Hh] Hvf]. rewrite Hwh in Hh.
    assert (i ∈ live \/ i ∈ toks ≫= holding) as Hi'.
    { rewrite !elem_of_app in Hi. destruct Hi as [Hi|[Hi|Hi]]; [by left| |by right]. exfalso.
      apply (proj1 (list.Forall_forall _ _) Hgw) in Hi. unfold write_of in Hi. by rewrite Hcmd in Hi. }
    assert (i ∈ live /\ i ∈ ExclusiveCommand.queued (lock s) \/ i ∈ (toks ≫= invoking) ++ (toks ≫= holding)) as [[Hil Hq]|Htk].
    { destruct Hi' as [Hil|]; [|right; apply elem_of_app; by right].
      destruct (live_where g (lock s) toks live _ _ _ _ H1 Hl Hv i Hil) as [|(-> & _)]; [by left|right; cbn; set_solver]. }
    + destruct (live_removed g (lock s) toks live _ _ _ _ H1 Hl Hv i Hil Hq) as (q & rest & E & Hp & Hlr & Hqr & Hlk).
      assert (existsb (ExclusiveCommand.is_nonce (Some (ExclusiveCommand.nonce i))) ((toks ≫= invoking) ++ (toks ≫= holding)) = false) as ->.
      { apply not_true_iff_false. intros (j & Hj & Ej)%existsb_exists. apply Nat.eqb_eq in Ej. apply list_elem_of_In in Hj.
        apply (token_not_queued g (lock s) toks live _ _ _ _ Hl Hv j Hj). rewrite <- Ej. apply list_elem_of_fmap. by exists i. }
      apply (inv_perm _ _ _ _ _ _ _ _ Hlr) in Hv.
      wp_step. eapply wp_lock_remove; [exact E|]. cbn [Z.eqb negb]. wp_step. split; [done|]. eexists [_]. split_and!; [split|..]; try done.
      * constructor; [|constructor]. cbn. rewrite Hh. by eexists.
      * intros h'. unfold balance. cbn [contexts posted lock with_posted with_lock ExclusiveCommand.queued with_queue].
        rewrite (bind_app task_handlers), Hp, (bind_cons item_handlers), !times_app.
        assert (item_handlers i = []) as -> by (unfold item_handlers; by rewrite Hcmd). cbn. rewrite ?app_nil_r, times_nil. lia.
      * exists rest. split_and!; [done..|]. unfold more_orphans. cbn [length orphans gone left_reads]. rewrite Nat.add_0_r.
        eapply inv_cancel_write; [exact Hv|exact Hcmd|exact Ht|]. rewrite Hwh, Hh. by eexists.
    + assert (existsb (ExclusiveCommand.is_nonce (Some (ExclusiveCommand.nonce i))) ((toks ≫= invoking) ++ (toks ≫= holding)) = true) as ->.
      { apply existsb_exists. exists i. split; [by apply list_elem_of_In|apply Nat.eqb_refl]. }
      wp_step. eapply wp_lock_remove; [by apply remove_absent, (token_not_queued g (lock s) toks live _ _ _ _ Hl Hv)|]. cbn [Z.eqb negb]. wp_step.
      split; [done|]. exists []. split_and!; [split|..]; try done.
      * cbn. by rewrite app_nil_r.
      * exists live. split_and!; [done..|]. rewrite Hh. unfold more_orphans. cbn [length orphans gone left_reads option_list]. rewrite Nat.add_1_r. exact Hvf.
  - destruct (inv_no_write _ _ _ _ _ _ _ t tun' Hv Ht Hwn) as [Hn Hv']. rewrite Hwh in Hn. rewrite Hn.
    assert (existsb (ExclusiveCommand.is_nonce None) ((toks ≫= invoking) ++ (toks ≫= holding)) = false) as ->.
    { apply not_true_iff_false. by intros (j & _ & Ej)%existsb_exists. }
    wp_step. eapply wp_lock_remove; [apply remove_none|]. cbn [Z.eqb negb]. wp_step. split; [done|]. exists [].
    split_and!; [split|..]; try done.
    + cbn. by rewrite app_nil_r.
    + exists live. unfold more_orphans. cbn [length orphans gone left_reads]. by rewrite Nat.add_0_r.
Qed.

(** What stays as it is, and what the tunnel has forgotten. *)
Definition canceled_tunnel (t : nat) (s s' : State) : Prop :=
  tokens s' = tokens s /\ operations s' = operations s /\ (exists p, posted s' = posted s ++ p) /\
  exists tun', tunnels s' !! t = Some tun' /\ read_nonce tun' = None /\ write_handler tun' = None.

Lemma wp_cancel g t tun s : good g (tokens s) s -> tunnels s !! t = Some tun ->
  wp (cancel t) s (fun _ s' out => out = [] /\ exists g', good g' (tokens s') s' /\ orphans g' = (orphans g + length (dropped (tokens s) tun))%nat /\
    canceled_tunnel t s s' /\
    forall h, times h (owed (tokens s) s) = (times h (owed (tokens s') s') + times h (dropped (tokens s) tun))%nat).
Proof.
  intros Hg Ht. pose proof (lookup_lt_Some _ _ _ Ht) as Hlt. unfold cancel. do 2 wp_step.
  wp_step. eapply wp_mono; [by apply (wp_cancel_read g t)|]. intros [] s1 o1 [-> (g1 & p1 & K1 & B1 & Or1 & L1 & V1)].
  destruct Hg as [H1 H2 H3 H4]. pose proof (kept_tokens _ _ _ K1) as T1.
  wp_step. eapply wp_mono.
  { eapply (wp_cancel_write g1 t tun (forgot_read tun) (tokens s)); [exact L1|by rewrite (k_made _ _ _ K1)|by apply list_lookup_insert_eq|done]. }
  intros [] s2 o2 [-> (p2 & K2 & C2 & B2 & L2 & V2)]. pose proof (kept_tokens _ _ _ K2) as T2.
  wp_step. change (tokens (with_tunnels ?ts ?s')) with (tokens s'). rewrite T2, T1. rewrite (k_made _ _ _ K1), list_insert_insert_eq in V2.
  split; [done|]. exists (more_orphans (length (dropped (tokens s) tun)) g1). split_and!; [split|..].
  - cbn [lock contexts with_tunnels]. by rewrite C2.
  - change (early_items ?k (with_tunnels _ ?s')) with (early_items k s').
    cbn [lock waits contexts tunnels with_tunnels]. rewrite (k_made _ _ _ K2), (k_made _ _ _ K1), (k_waits _ _ _ K2), (k_waits _ _ _ K1), C2,
      (k_tunnels _ _ _ K2), (k_tunnels _ _ _ K1). exact V2.
  - cbn. by rewrite (k_operations _ _ _ K2), (k_operations _ _ _ K1).
  - cbn. rewrite (k_posted _ _ _ K2), (k_posted _ _ _ K1). apply list.Forall_app. split; [|apply K2]. apply list.Forall_app. split; [done|apply K1].
  - unfold more_orphans. cbn [orphans]. by rewrite Or1.
  - unfold canceled_tunnel. cbn [operations posted tunnels with_tunnels]. change (tokens (with_tunnels ?ts ?s')) with (tokens s').
    rewrite T2, T1, (k_operations _ _ _ K2), (k_operations _ _ _ K1), (k_posted _ _ _ K2), (k_posted _ _ _ K1), (k_tunnels _ _ _ K2), (k_tunnels _ _ _ K1), <- app_assoc.
    split_and!; [done..|by eexists|]. eexists. split; [by apply list_lookup_insert_eq|done].
  - intros h. specialize (B1 h). specialize (B2 h). rewrite !times_owed. unfold balance in *.
    change (early_items ?k (with_tunnels _ ?s')) with (early_items k s'). unfold early_items. cbn [contexts tunnels posted lock with_tunnels].
    rewrite (k_tunnels _ _ _ K2), (k_tunnels _ _ _ K1).
    pose proof (times_insert write_handler h (tunnels s) t tun (forgot_write (forgot_read tun)) Ht) as E.
    change (write_handler (forgot_write _)) with (@None nat) in E. rewrite !bind_app, !times_app.
    change (forgot_write (forgot_read tun)) with {| id_ := id_ tun; channel_ := channel_ tun; poll_rate := poll_rate tun; read_nonce := None;
      write_nonce := None; write_handler := None; read_context := None |} in E. cbn [option_list] in *. rewrite ?times_nil in *. lia.
Qed.

(** ** Events

    What the callers, the executor and the frame stream may do: as the interfaces
    have it, a tunnel has one read and one write at a time, and a wait for a timer
    ends with an error only when it was canceled.  Everything else is left open:
    tunnels are canceled at any time, and operations end with any error. *)
Definition possible (e : event) (s : State) : bool :=
  match e with
  | ETransmit _ _ _ => true
  | EMakeTunnel _ channel _ => (0 <=? channel) && (channel <? 2 ^ 32)
  | ERead t _ _ => match tunnels s !! t with Some tun => match read_context tun with None => true | _ => false end | None => false end
  | EWrite t _ _ => match tunnels s !! t with Some tun => match write_handler tun with None => true | _ => false end | None => false end
  | ECancel t => match tunnels s !! t with Some _ => true | None => false end
  | ERun n => match posted s !! n with Some _ => true | None => false end
  | EComplete n _ _ _ => match operations s !! n with Some _ => true | None => false end
  | ETimer n ec =>
      match waits s !! n with
      | Some (_, c) => (ec =? 0) || match contexts s !! c with Some x => canceled x | None => false end
      | None => false
      end
  end.

(** The errors of the frame stream that do not end the program. *)
Definition completes (cb : callback) (ec : Z) : bool :=
  match cb with
  | SingleWriteDone _ _ true | RequestReadDone _ _ _ => ec =? 0
  | ReadDone _ _ => (ec =? 0) || (ec =? kAborted)
  | _ => true
  end.

(** The tunnel of a write that has been sent has a handler for it. *)
Definition answerable (cb : callback) (s : State) : bool :=
  match cb with
  | TunnelWriteDone i _ =>
      match ExclusiveCommand.command i with
      | WriteTunnel t _ => match tunnels s !! t with Some tun => match write_handler tun with Some _ => true | None => false end | None => false end
      | _ => true
      end
  | _ => true
  end.

(** An event that the client goes on from. *)
Definition ends_well (e : event) (s : State) : bool :=
  match e with
  | EComplete n ec _ _ => match operations s !! n with Some (_, cb) => completes cb ec && answerable cb s | None => false end
  | _ => true
  end.

(** The handlers that an event drops. *)
Definition lost (e : event) (s : State) : list nat :=
  match e with
  | ECancel t => match tunnels s !! t with Some tun => dropped (tokens s) tun | None => [] end
  | _ => []
  end.

(** Somebody has the lock, and nothing will go on with it. *)
Definition stuck (s : State) : Prop := is_Some (ExclusiveCommand.waiting (lock s)) /\ tokens s = [].

Lemma lock_ok_perm g l cs toks toks' : lock_ok g l cs toks -> toks ≡ₚ toks' -> toks = toks'.
Proof.
  unfold lock_ok. destruct (ExclusiveCommand.waiting l); [intros [(t & -> & _)|[-> _]] H|intros [-> _] H].
  - symmetry. by apply Permutation_singleton_l in H.
  - by apply Permutation_nil_l in H.
  - by apply Permutation_nil_l in H.
Qed.

(** What an event does: [gone_handlers] are dropped, and [twice] is still owed
    although it has been called, when the lock is kept. *)
Definition goes (g : ghost) (new gone_handlers : list nat) (m : M unit) (s : State) : Prop :=
  wp m s (fun _ s' out => exists g' twice, good g' (tokens s') s' /\ orphans g' = (orphans g + length gone_handlers)%nat /\
    (twice = [] \/ ~ stuck s /\ stuck s' /\ exists h, twice = [h]) /\
    forall h, (times h new + times h (owed (tokens s) s) + times h twice =
               times h (out ≫= called) + times h (owed (tokens s') s') + times h gone_handlers)%nat).

Lemma goes_steps g new m s : steps g new [] m s [] -> goes g new [] m s.
Proof.
  intros H. eapply wp_mono; [exact H|]. intros a s' out [Hg Hh]. exists g, []. split_and!; [done|cbn; lia|by left|].
  intros h. specialize (Hh h). cbn [app] in Hh. rewrite !times_nil. lia.
Qed.

Lemma goes_cancel g t tun s : good g (tokens s) s -> tunnels s !! t = Some tun -> goes g [] (dropped (tokens s) tun) (cancel t) s.
Proof.
  intros Hg Ht. eapply wp_mono; [by apply (wp_cancel g t tun)|]. intros a s' out (-> & g' & Hg' & Ho & _ & Hh). exists g', []. split_and!; [done..|by left|].
  intros h. specialize (Hh h). cbn [mbind list_bind]. rewrite !times_nil. lia.
Qed.

Section events.
Context (source_id max_size : Z) (Hmax : max_size < 0 \/ 3 <= max_size).

Lemma delete_bind {A B} (f : A -> list B) l n x : l !! n = Some x -> l ≫= f ≡ₚ f x ++ (delete n l ≫= f).
Proof. intros Hx. by rewrite (delete_Permutation l n x Hx) at 1. Qed.

Lemma canceled_or_not cs i : canceled_read cs i \/ ~ canceled_read cs i.
Proof.
  destruct (ExclusiveCommand.command i) as [| |t c|] eqn:Ei; try (right; intros (t' & c' & x & E & _); congruence).
  destruct (cs !! c) as [x|] eqn:Ex; [|right; intros (t' & c' & x & E & Hx & _); congruence].
  destruct (canceled x) eqn:Ec; [left; by exists t, c, x|right; intros (t' & c' & x' & E & Hx & Hc); congruence].
Qed.

(** The turn of a read that was canceled: it says so, and the lock is kept. *)
Lemma canceled_turn g i s : good g ([Invoking i] ++ tokens s) s -> canceled_read (contexts s) i ->
  exists g' s' h, Invoke source_id max_size i s = Done (tt, s', [CalledSize h kAborted 0]) /\ good g' (tokens s') s' /\ orphans g' = orphans g /\ stuck s' /\
    forall h', times h' (owed (tokens s') s') = times h' (owed ([Invoking i] ++ tokens s) s).
Proof.
  intros Hg Hc. pose proof Hc as (t & c & x & Hi & Hx & Hcx). destruct (good_hand _ _ _ Hg) as ((w & Hw & Hwi) & Hp & Ho & Hn). cbn in Hwi. subst w.
  destruct Hg as [H1 H2 H3 H4]. rewrite Hn in *. cbn [app] in *. destruct H2 as (live & Hl & Hgw & Hv).
  unfold lock_ok in H1. rewrite Hw in H1. destruct H1 as [(tk & [= <-] & _ & Hle & Hgo)|[? _]]; [|done].
  assert (gone g = [i]) as Hgi.
  { destruct Hgo as [Hgo|(_ & Hgo & _)]; [|done]. exfalso. rewrite Hgo, app_nil_r in Hl.
    destruct Hv as [_ _ V3 _ _]. assert ((ExclusiveCommand.nonce i, t, c) ∈ omap read_of live) as E.
    { apply list_elem_of_omap. exists i. split; [rewrite <- Hl; unfold early_items; cbn; set_solver|unfold read_of; by rewrite Hi]. }
    apply (r_early _ _ _ _ V3) in E. destruct (r_context _ _ _ _ V3 _ _ _ E) as [h0 Ec]. rewrite list_lookup_fmap, Hx in Ec. cbn in Ec.
    injection Ec as _ Ec. congruence. }
  rewrite Hgi, Hle in *. unfold early_items, held_items in Hl, Hv. cbn in Hl, Hv. apply Permutation_app_inv_r in Hl.
  assert ((t, c) ∈ omap late_of [i] ++ waits s) as Hin.
  { apply elem_of_app. left. apply list_elem_of_omap. exists i. split; [by left|unfold late_of; by rewrite Hi]. }
  destruct (inv_late _ _ _ _ _ _ _ t c Hv Hin) as (x' & tun & Hx' & [h Hh] & Ht & _).
  rewrite Hx in Hx'. injection Hx' as <-.
  set (s' := with_tunnels (<[t := with_read_nonce None tun]> (tunnels s)) s).
  assert (exists rest fs, live ≡ₚ rest ++ fs /\ Forall (fun i => write_of i = None) fs /\
    inv (orphans g) rest (fs ++ [i]) (ExclusiveCommand.made (lock s)) (waits s) (contexts s) (tunnels s')) as (rest & fs & Hlr & Hfs & Hv').
  { destruct (read_nonce tun) as [n|] eqn:En.
    - destruct (inv_forget_nonce _ _ _ _ _ _ _ t tun n Hv Ht En) as (j & rest & Hj & Hjw & Hvj). exists rest, [j].
      split; [by rewrite Hj, Permutation_cons_append|]. split; [by constructor|exact Hvj].
    - exists live, []. rewrite app_nil_r. split_and!; [done..|]. by eapply inv_no_nonce. }
  exists {| gone := fs; left_reads := [(t, c)]; orphans := orphans g |}, s', h. split_and!; [| |done|split; [by eexists|exact Hn]|].
  - unfold Invoke. rewrite Hi. unfold ReadTunnel_command, mbind, M_bind, deref. rewrite Ht, bind_done. cbn beta iota.
    unfold set_tunnel, modify. rewrite bind_done. cbn beta iota. cbn [contexts with_tunnels]. rewrite Hx, bind_done. cbn beta iota.
    rewrite Hcx, Hh. cbn. done.
  - change (tokens s') with (tokens s). rewrite Hn. split; [unfold lock_ok; cbn; rewrite Hw; right; by split| |done..].
    exists rest. cbn [gone left_reads orphans]. split_and!; [unfold early_items; cbn; by rewrite app_nil_r, <- Hlr, Hl|done|].
    unfold held_items. cbn. rewrite app_nil_r. eapply (inv_unwait_item _ _ _ _ _ _ _ i); [|exact Hi].
    destruct Hv' as [V1 V2 V3 V4 V5]. split; [by rewrite <- Permutation_cons_append in V1|by rewrite <- Permutation_cons_append in V2| | |done].
    + by rewrite <- Permutation_cons_append in V3.
    + by rewrite <- Permutation_cons_append in V4.
  - intros h'. change (tokens s') with (tokens s). rewrite Hn, !times_owed. pose proof (times_insert write_handler h' (tunnels s) t tun (with_read_nonce None tun) Ht) as E.
    assert (item_handlers i = []) as Hih by (unfold item_handlers; by rewrite Hi).
    unfold early_items. cbn in *. rewrite !(bind_app item_handlers), !times_app. cbn. rewrite Hih. cbn. rewrite times_nil. lia.
Qed.

Lemma goes_run_task g n t s : good g (tokens s) s -> posted s !! n = Some t ->
  goes g [] [] (handle source_id max_size (ERun n)) s.
Proof.
  intros Hg Hn. cbn [handle]. unfold goes. do 4 wp_step. set (s1 := with_posted _ s).
  assert (Ht : tokens s = task_tokens t ++ tokens s1).
  { eapply lock_ok_perm; [apply Hg|]. unfold tokens. cbn. by rewrite (delete_bind task_tokens _ _ _ Hn), app_assoc. }
  assert (Hg1 : good g (task_tokens t ++ tokens s1) s1).
  { rewrite <- Ht. destruct Hg as [H1 H2 H3 H4]. split; [done..|]. by apply Forall_delete. }
  assert (Hto : task_ok t) by (eapply Forall_lookup_1; [apply Hg|done]).
  assert (Ho : forall h, times h (owed (tokens s) s) = (times h (task_handlers t) + times h (owed (task_tokens t ++ tokens s1) s1))%nat).
  { intros h. rewrite <- Ht, !times_owed. cbn [app contexts tunnels posted s1 with_posted]. rewrite (delete_bind task_handlers _ _ _ Hn), times_app.
    change (early_items ?k s1) with (early_items k s). lia. }
  assert (Hs : steps g (task_handlers t) (task_tokens t) (run_task source_id max_size t) s1 [] ->
    wp (run_task source_id max_size t) s1 (fun _ s' out => exists g' twice, good g' (tokens s') s' /\ orphans g' = (orphans g + length (@nil nat))%nat /\
    (twice = [] \/ ~ stuck s /\ stuck s' /\ exists h, twice = [h]) /\
    forall h, (times h [] + times h (owed (tokens s) s) + times h twice = times h (out ≫= called) + times h (owed (tokens s') s') + times h [])%nat)).
  { intros H. eapply wp_mono; [exact H|]. intros a s' out [Hg' Hh]. exists g, []. split_and!; [done|cbn; lia|by left|].
    intros h. specialize (Hh h). specialize (Ho h). cbn [app] in Hh. rewrite !times_nil in *. lia. }
  destruct t as [[i|]|h ec|h ec size|i ec]; cbn in Hto.
  - destruct (canceled_or_not (contexts s1) i) as [Hc|Hc]; [|apply Hs; by apply steps_Invoke].
    destruct (canceled_turn g i s1 Hg1 Hc) as (g' & s' & h & E & Hg' & Hor & Hst & Hh). exists tt, s', [CalledSize h kAborted 0].
    split; [exact E|]. exists g', [h]. split_and!; [done|cbn; lia| |].
    + right. split_and!; [|done|by exists h]. intros [_ Hns]. rewrite Hns in Ht. done.
    + intros h'. specialize (Hh h'). specialize (Ho h'). change (task_tokens (Lock (ExclusiveCommand.PostInvoke i))) with [Invoking i] in Ho.
      rewrite Hh. change (task_handlers (Lock (ExclusiveCommand.PostInvoke i))) with (@nil nat) in Ho. rewrite Ho.
      cbn [app mbind list_bind called]. rewrite !times_nil. lia.
  - apply Hs. by apply steps_ItemDone.
  - apply Hs. by apply steps_emit.
  - apply Hs. destruct Hto as [h' ->]. by apply steps_emit.
  - apply Hs. destruct Hto as [Hto Htw]. apply steps_HandlerWrapper; [done| |].
    + intros t c x E. unfold late_of in Hto. by rewrite E in Hto.
    + intros t b tun E. unfold write_of in Htw. by rewrite E in Htw.
Qed.

Lemma steps_complete g n op cb ec frame queued s : good g (tokens s) s -> operations s !! n = Some (op, cb) -> completes cb ec = true ->
  answerable cb s = true -> steps g [] [] (handle source_id max_size (EComplete n ec frame queued)) s [].
Proof.
  intros Hg Hn Hc Han. cbn [handle]. unfold steps. do 2 wp_step. cbn beta iota. do 2 wp_step. set (s1 := with_operations _ s).
  set (i := callback_item cb).
  assert (Ht : tokens s = [Holding i] ++ tokens s1).
  { eapply lock_ok_perm; [apply Hg|]. unfold tokens. cbn. rewrite (delete_Permutation _ _ _ Hn) at 1. cbn. by rewrite Permutation_middle. }
  assert (Hg1 : good g ([Holding i] ++ tokens s1) s1).
  { rewrite <- Ht. destruct Hg as [H1 H2 H3 H4]. split; [done|done| |done]. by apply Forall_delete. }
  assert (Hcb : callback_ok cb) by exact (Forall_lookup_1 _ _ _ _ (g_callbacks _ _ _ Hg) Hn).
  assert (Ho : forall h, times h (owed ([] ++ tokens s) s) = times h (owed ([Holding i] ++ tokens s1) s1)).
  { intros h. by rewrite <- Ht, !times_owed. }
  enough (Hs : forall s', good g ([Holding i] ++ tokens s') s' -> tunnels s' = tunnels s -> steps g [] [Holding i] (complete source_id cb ec queued) s' []).
  { assert (Hs' : steps g [] [Holding i] (_ ← (match op, frame with AsyncRead _, Some frame => modify (with_rx_frame frame) | _, _ => skip end);
      complete source_id cb ec queued) s1 []).
    { destruct op, frame; try (refine (wp_bind _ _ _ _ (wp_ret _ _ _ _)); by apply (Hs s1)).
      refine (wp_bind _ _ _ _ (wp_modify _ _ _ _)). refine (Hs (with_rx_frame _ s1) _ eq_refl). by apply (quiet_good g (with_rx_frame _)). }
    destruct Hs' as (a & s' & out & E & Hg' & Hh). exists a, s', out. split; [done|]. split; [done|]. intros h. rewrite Ho. apply Hh. }
  clear - Hc Hcb Han. intros s' Hg Hts. destruct cb as [j|j reply rr|j reply|j t c|j t c|j size]; cbn in *; subst i.
  - destruct Hcb as [Hcb Hcw]. apply steps_HandlerWrapper; [done| |].
    + intros t c x E. unfold late_of in Hcb. by rewrite E in Hcb.
    + intros t b tun E. unfold write_of in Hcw. by rewrite E in Hcw.
  - apply steps_HandleSingleWrite; [done|done|]. intros ->. by apply Z.eqb_eq.
  - apply steps_HandleRead; [done|done|]. apply orb_true_iff in Hc as [?%Z.eqb_eq|?%Z.eqb_eq]; auto.
  - apply Z.eqb_eq in Hc as ->. by apply steps_HandleRequestRead.
  - by apply steps_TunnelHandleRead.
  - apply steps_HandlerWrapper; [done| |].
    + intros t c x E. unfold late_of in Hcb. by rewrite E in Hcb.
    + intros t b tun E Htun. rewrite E, <- Hts, Htun in Han. by destruct (write_handler tun).
Qed.

Lemma steps_timer g n t c ec s : good g (tokens s) s -> waits s !! n = Some (t, c) ->
  (ec =? 0) || match contexts s !! c with Some x => canceled x | None => false end = true ->
  steps g [] [] (handle source_id max_size (ETimer n ec)) s [].
Proof.
  intros [H1 H2 H3 H4] Hn Hc. cbn [handle]. unfold steps. do 2 wp_step. cbn beta iota. do 2 wp_step. set (s1 := with_waits _ s).
  apply (steps_HandlePollTimer g t c ec s1); try done.
  - destruct H2 as (live & Hl & Hw & Hv). exists live. split_and!; [done..|]. eapply inv_waits_perm; [|exact Hv].
    apply Permutation_app_head. apply delete_Permutation, Hn.
  - intros x Hx Hcx. change (contexts s1) with (contexts s) in Hx. rewrite Hx, Hcx, orb_false_r in Hc. by apply Z.eqb_eq.
Qed.

Lemma goes_handle g e s : good g (tokens s) s -> possible e s = true -> ends_well e s = true ->
  goes g (given e) (lost e s) (handle source_id max_size e) s.
Proof.
  intros Hg Hp Hw. destruct e as [rs reply h|id channel rate|t bufs h|t bufs h|t|n|n ec frame queued|n ec]; cbn in Hp, Hw; cbn [given lost handle].
  - apply goes_steps. by apply steps_AsyncTransmit.
  - apply andb_true_iff in Hp as [?%Z.leb_le ?%Z.ltb_lt]. apply goes_steps. unfold MakeTunnel, steps. wp_step. destruct Hg as [H1 H2 H3 H4]. split.
    + split; [done| |done..]. eapply items_map; [|exact H2]. intros live Hv. by apply inv_new_tunnel.
    + intros h. rewrite !times_owed. cbn [tunnels with_tunnels]. rewrite omap_app, times_app. unfold early_items. cbn. rewrite !times_nil.
      fold (tokens s). lia.
  - destruct (tunnels s !! t) as [tun|] eqn:Ht; [|done]. destruct (read_context tun) eqn:Hr; [done|]. apply goes_steps. by eapply steps_async_read_some.
  - destruct (tunnels s !! t) as [tun|] eqn:Ht; [|done]. destruct (write_handler tun) eqn:Hr; [done|]. apply goes_steps. by eapply steps_async_write_some.
  - destruct (tunnels s !! t) as [tun|] eqn:Ht; [|done]. by apply goes_cancel.
  - destruct (posted s !! n) as [tk|] eqn:Ht; [|done]. by eapply goes_run_task.
  - destruct (operations s !! n) as [[op cb]|] eqn:Ho; [|done]. apply andb_true_iff in Hw as [Hc Ha]. apply goes_steps. by eapply steps_complete.
  - destruct (waits s !! n) as [[t c]|] eqn:Hwn; [|done]. apply goes_steps. by eapply steps_timer.
Qed.
End events.
