(* ===== verification/TextArchive.v ===== *)
(** * micro/serializable_handler_detail.h: members by name, as text

    [SetArchive] and [ReadArchive] find one scalar of an object by a dotted
    key, [EnumerateArchive] writes every scalar with its name.  The scalars are
    those for which the archives compile: integers, [bool], floating point,
    enumerations and, without classes in them, optionals.  Numbers are scanned
    and printed by the C library (CString.v), floating point by [FloatText]. *)
From stdpp Require Import strings.
From S2P Require Import Prelude Varuint Streams TimeConversions TelemetryFormat Archive Tokenizer CString.
#[local] Open Scope Z_scope.

(** [strtof] and [strtod] on the memory behind a pointer, [snprintf("%f")], and
    the conversion of an [unsigned long long]; the size of the type is 4 or 8. *)
Class FloatText := {
  strtof : nat -> list byte -> Z;
  format_float : nat -> Z -> list byte;
  float_of_integer : nat -> Z -> Z;
}.

Definition null : byte := byte.of_Z 0.
Definition dot : byte := byte.of_Z 46.
Definition dots : list byte := [dot].

(** ** Scalars *)
Section scalars.
Context `{BoostTime} `{FloatText}.

(** [ParseValue] of what [value] points to: text up to a null. *)
Definition of_unsigned (t : ctype) (z : Z) : outcome value :=
  match t with
  | TBool => Done (VBool (negb (z =? 0)))
  | TInt n => Done (VInt (swrap (8 * Z.of_nat n) z))
  | TUInt n => Done (VInt (uwrap (8 * Z.of_nat n) z))
  | TFloat n => Done (VFloat (float_of_integer n z))
  | _ => Faulted Undefined
  end.

Definition ParseValue (t : ctype) (value : list byte) : outcome Archive.value :=
  match t with
  | TInt n => Done (VInt (swrap (8 * Z.of_nat n) (strtol 64 value)))
  | TFloat n => Done (VFloat (strtof n value))
  | TEnum is_signed n _ => Done (VInt (enum_cast is_signed n (swrap 32 (strtol 64 value))))
  | TOptional t => VSome <$> of_unsigned t (strtoull value)
  | t => of_unsigned t (strtoull value)
  end.

(** What [snprintf] makes of a value with [FormatSpecifier::GetFormat]. *)
Fixpoint text (t : ctype) (v : value) : outcome (list byte) :=
  match t, v with
  | TBool, VBool b => Done (decimal (if b then 1 else 0))
  | TInt _, VInt z | TUInt _, VInt z => Done (decimal z)
  | TEnum _ _ _, VInt z => Done (decimal (swrap 32 z))
  | TFloat n, VFloat bits => Done (format_float n bits)
  | TOptional _, VNone => Done []
  | TOptional t, VSome v => text t v
  | _, _ => Faulted Undefined
  end.
End scalars.

(** ** ItemArchive: the member a key names

    [scalar] is what the derived archive does with the scalar it reaches.
    [behind] is the memory behind the key, into which [strtol] would read on. *)
Module ItemArchive.
Section ItemArchive.
Context `{BoostTime} (long_bits : Z) (behind : list byte).
Context {A : Type} (scalar : ctype -> value -> A -> outcome (value * A)).

(** The constructor: the first name of the key, and the rest. *)
Definition split (key : list byte) : list byte * list byte :=
  let '(my_key, tokenizer) := Tokenizer.next (Tokenizer.make key dots) in
  (my_key, Tokenizer.remaining tokenizer).

(** The index in front of [remaining_key], and the key of the element: what
    follows with the byte in front of it.  The token of an empty string has no
    address.  [None]: the index is refused. *)
Definition array_key (size : Z) (remaining_key : list byte) : outcome (option (nat * list byte)) :=
  if zlen remaining_key =? 0 then Faulted Undefined
  else
    let '(index_str, tokenizer) := Tokenizer.next (Tokenizer.make remaining_key dots) in
    let memory := remaining_key ++ behind in
    let index := uwrap long_bits (strtol long_bits memory) in
    if (size <=? index) || negb (number_end memory =? zlen index_str) then Done None
    else
      let remaining := Tokenizer.remaining tokenizer in
      Done (Some (Z.to_nat index,
                  if zlen remaining =? 0 then remaining
                  else zdrop (Tokenizer.position tokenizer - 1) remaining_key)).

Section array.
Context (visit : value -> list byte -> A -> outcome (value * A * bool)).

(** [Visit] of the element at an index, in a sub-archive of its own. *)
Fixpoint at_element (items : list value) (index : nat) (key : list byte) (a : A)
    : outcome (list value * A * bool) :=
  match items, index with
  | [], _ => Faulted Undefined
  | item :: items, O =>
      let '(my_key, remaining_key) := split key in
      if bool_decide (my_key = []) then
        '(item, a, found) ← visit item remaining_key a;
        Done (item :: items, a, found)
      else Done (item :: items, a, false)
  | item :: items, S index =>
      '(items, a, found) ← at_element items index key a;
      Done (item :: items, a, found)
  end.
End array.

(** [Visit] once the name has matched: the object, what the archive has done,
    and [found_]. *)
Fixpoint Visit (t : ctype) (v : value) (remaining_key : list byte) (a : A) {struct t}
    : outcome (value * A * bool) :=
  match t with
  | TObject fs =>
      '(vs, a, found) ← Accept fs (members_of v) remaining_key a;
      Done (VObject vs, a, found)
  | TArray n t =>
      item ← array_key (zlen (items_of v)) remaining_key;
      match item with
      | None => Done (v, a, false)
      | Some (index, key) =>
          '(items, a, found) ← at_element (Visit t) (items_of v) index key a;
          Done (VList items, a, found)
      end
  | t => '(v, a) ← scalar t v a; Done (v, a, true)
  end
(** [Accept] by an archive that is made with a key: the first member of that
    name, and no other. *)
with Accept (fs : fields) (vs : list value) (key : list byte) (a : A) {struct fs}
    : outcome (list value * A * bool) :=
  match fs, vs with
  | FCons name t _ rest, v :: vs =>
      let '(my_key, remaining_key) := split key in
      if bool_decide (my_key = name) then
        '(v, a, found) ← Visit t v remaining_key a;
        Done (v :: vs, a, found)
      else
        '(vs, a, found) ← Accept rest vs key a;
        Done (v :: vs, a, found)
  | _, vs => Done (vs, a, false)
  end.
End ItemArchive.
End ItemArchive.

(** ** SetArchive *)
Module SetArchive.
Section SetArchive.
Context `{BoostTime} `{FloatText} (long_bits : Z).

Definition scalar (value : list byte) (t : ctype) (_ : Archive.value) (a : unit)
    : outcome (Archive.value * unit) :=
  v ← ParseValue t (value ++ [null]); Done (v, a).

(** The value follows the key in memory, behind a space, and is followed by a
    null. *)
Definition Set_ (fs : fields) (vs : list Archive.value) (key value : list byte)
    : outcome (bool * list Archive.value) :=
  '(vs, _, found) ← ItemArchive.Accept long_bits (text_of " " ++ value ++ [null]) (scalar value) fs vs key tt;
  Done (found, vs).
End SetArchive.
End SetArchive.

(** ** ReadArchive *)
Module ReadArchive.
Section ReadArchive.
Context `{BoostTime} `{FloatText} (long_bits : Z).

(** [EmitValue]: the buffer, and what of it is written.  The number that
    [snprintf] returns is the length of all of the text. *)
Definition scalar (t : ctype) (v : value) (a : list byte * list byte)
    : outcome (value * (list byte * list byte)) :=
  out ← text t v;
  buffer ← snprintf (fst a) out;
  data ← load buffer 0 (zlen out);
  Done (v, (buffer, data)).

Definition Read (fs : fields) (vs : list value) (key buffer : list byte)
    : outcome (bool * list byte * list byte) :=
  '(_, (buffer, data), found) ← ItemArchive.Accept long_bits [null] scalar fs vs key (buffer, []);
  Done (found, buffer, data).
End ReadArchive.
End ReadArchive.

(** ** EnumerateArchive *)
Module EnumerateArchive.
Section EnumerateArchive.
Context `{BoostTime} `{FloatText}.

(** [Context], with the object that [evaluate_enumerate_archive] visits. *)
Record Context_ := {
  item_class : fields;
  item : list value;
  root_prefix : list byte;
  buffer : list byte;
  current_field_index_to_write : Z;
}.

(** What the archives of one evaluation share; [data] is what is given to
    [AsyncWrite]. *)
Record walk := { current_index : Z; done : bool; out_buffer : list byte; data : list byte }.

(** The prefixes of an archive and of its parents, its own first.  Whether a
    parent's fits is not looked at. *)
Fixpoint FormatPrefix (prefixes : list (list byte)) (buffer : list byte) (current : Z)
    : outcome (bool * list byte * Z) :=
  match prefixes with
  | [] => Done (false, buffer, current)
  | prefix :: parents =>
      '(_, buffer, current) ← FormatPrefix parents buffer current;
      if zlen buffer - current <? zlen prefix + 2 then Done (true, buffer, current)
      else
        buffer ← store buffer current (prefix ++ dots);
        Done (false, buffer, current + zlen prefix + 1)
  end.

Definition crlf_ : list byte := map byte.of_Z [0x0d; 0x0a].

(** [snprintf] into the rest of the buffer, which is not empty there, moves on
    by the length of all of the text. *)
Definition FormatField (prefixes : list (list byte)) (buffer name value : list byte)
    : outcome (list byte * list byte) :=
  '(overflow, buffer, it) ← FormatPrefix prefixes buffer 0;
  if (overflow : bool) then Done (buffer, [])
  else if zlen buffer - it <? zlen name + 3 then Done (buffer, [])
  else
    buffer ← store buffer it (name ++ text_of " ");
    let it := it + zlen name + 1 in
    buffer ← store buffer it (ztake (zlen buffer - it - 1) value ++ [null]);
    let it := it + zlen value in
    buffer ← store buffer it crlf_;
    data ← load buffer 0 (it + 2);
    Done (buffer, data).

Definition EmitValue (target : Z) (prefixes : list (list byte)) (name : list byte) (t : ctype) (v : value)
    (w : walk) : outcome walk :=
  if current_index w =? target then
    value ← text t v;
    '(buffer, data) ← FormatField prefixes (out_buffer w) name value;
    Done {| current_index := uwrap 16 (current_index w + 1); done := true; out_buffer := buffer; data := data |}
  else
    Done {| current_index := uwrap 16 (current_index w + 1); done := done w;
            out_buffer := out_buffer w; data := data w |}.

Section items.
Context (visit : list byte -> value -> walk -> outcome walk).

Fixpoint VisitItems (items : list value) (i : Z) (w : walk) : outcome walk :=
  match items with
  | [] => Done w
  | item :: items => w ← visit (decimal i) item w; VisitItems items (i + 1) w
  end.
End items.

(** [Visit] of a pair by an archive with these prefixes. *)
Fixpoint Visit (target : Z) (t : ctype) (prefixes : list (list byte)) (name : list byte) (v : value)
    (w : walk) {struct t} : outcome walk :=
  if done w then Done w
  else
    match t with
    | TObject fs => Accept target fs (members_of v) (name :: prefixes) w
    | TArray _ t => VisitItems (fun number item => Visit target t (name :: prefixes) number item) (items_of v) 0 w
    | t => EmitValue target prefixes name t v w
    end
with Accept (target : Z) (fs : fields) (vs : list value) (prefixes : list (list byte)) (w : walk) {struct fs}
    : outcome walk :=
  match fs, vs with
  | FCons name t _ rest, v :: vs =>
      w ← Visit target t prefixes name v w;
      Accept target rest vs prefixes w
  | _, _ => Done w
  end.

(** [evaluate_enumerate_archive] *)
Definition evaluate (c : Context_) : outcome (Context_ * option (list byte)) :=
  w ← Accept (current_field_index_to_write c) (item_class c) (item c) [root_prefix c]
        {| current_index := 0; done := false; out_buffer := buffer c; data := [] |};
  Done ({| item_class := item_class c; item := item c; root_prefix := root_prefix c;
           buffer := out_buffer w; current_field_index_to_write := current_field_index_to_write c |},
        if done w then Some (data w) else None).

(** What follows: the data given to [AsyncWrite], which completes at once when
    it is empty; or the callback. *)
Inductive action := Write (data : list byte) | Callback (error : Z) | Nothing.

(** [SerializableHandler::Enumerate] *)
Definition Enumerate (fs : fields) (vs : list value) (prefix buffer : list byte) : outcome (Context_ * action) :=
  '(c, data) ← evaluate {| item_class := fs; item := vs; root_prefix := prefix; buffer := buffer;
                           current_field_index_to_write := 0 |};
  Done (c, match data with Some d => Write d | None => Nothing end).

(** The callback of the [AsyncWrite] in [EmitValue]. *)
Definition written (c : Context_) (error : Z) : outcome (Context_ * action) :=
  if negb (error =? 0) then Done (c, Callback error)
  else
    '(c, data) ← evaluate {| item_class := item_class c; item := item c; root_prefix := root_prefix c;
                             buffer := buffer c;
                             current_field_index_to_write := uwrap 16 (current_field_index_to_write c + 1) |};
    Done (c, match data with Some d => Write d | None => Callback 0 end).
End EnumerateArchive.
End EnumerateArchive.
