(* ===== verification/TextTheory.v ===== *)
(** * Members by name: what is set is read back, what is listed can be read

    A path says where a scalar is in an object, and its key is its text. *)
From stdpp Require Import strings.
From S2P Require Import Prelude Varuint Streams TimeConversions TelemetryFormat Archive ArchiveTheory Tokenizer CString TextArchive.
#[local] Open Scope Z_scope.

(** ** Paths *)
Inductive step := SMember (name : list byte) | SIndex (i : nat).

Definition step_text (s : step) : list byte :=
  match s with SMember name => name | SIndex i => decimal (Z.of_nat i) end.

Fixpoint key_of (p : list step) : list byte :=
  match p with
  | [] => []
  | [s] => step_text s
  | s :: p => step_text s ++ dot :: key_of p
  end.

(** The scalar at a path, and the object with another in its place.  Of members
    of one name the first is meant. *)
Section locate.
Context `{BoostTime}.

Fixpoint locate (t : ctype) (v : value) (p : list step) {struct t} : option (ctype * value * (value -> value)) :=
  match t, p with
  | TObject fs, SMember name :: p =>
      '(t', x, put) ← locate_member fs (members_of v) name p;
      Some (t', x, fun y => VObject (put y))
  | TObject _, _ => None
  | TArray _ t, SIndex i :: p =>
      item ← items_of v !! i;
      '(t', x, put) ← locate t item p;
      Some (t', x, fun y => VList (<[i := put y]> (items_of v)))
  | TArray _ _, _ => None
  | t, [] => Some (t, v, fun y => y)
  | _, _ => None
  end
with locate_member (fs : fields) (vs : list value) (name : list byte) (p : list step) {struct fs}
    : option (ctype * value * (value -> list value)) :=
  match fs, vs with
  | FCons n t _ rest, v :: vs =>
      if bool_decide (name = n) then
        '(t', x, put) ← locate t v p; Some (t', x, fun y => put y :: vs)
      else
        '(t', x, put) ← locate_member rest vs name p; Some (t', x, fun y => v :: put y)
  | _, _ => None
  end.
End locate.

(** Names that a key can have, and indices that a [long] holds. *)
Definition clean (long_bits : Z) (s : step) : Prop :=
  match s with
  | SMember name => Forall (fun c => Tokenizer.is_delimiter dots c = false) name
  | SIndex i => Z.of_nat i < 2 ^ (long_bits - 1)
  end.

(** ** Keys *)
Lemma digit_no_dot c d : digit_in 10 c = Some d -> Tokenizer.is_delimiter dots c = false.
Proof.
  intros Hd. assert (Hc : 48 <= char_code c).
  { unfold digit_in, digit_value in Hd. repeat case_match; try done; lia. }
  unfold Tokenizer.is_delimiter, dots. rewrite bool_decide_false.
  - change (byte.unsigned c) with (char_code c). by destruct (Z.eqb_spec (char_code c) 0); [lia|].
  - intros ->%list_elem_of_singleton. by change (char_code dot) with 46 in Hc.
Qed.

Lemma decimal_digits z :
  0 <= z -> decimal z <> [] /\ Forall (fun c => Tokenizer.is_delimiter dots c = false) (decimal z).
Proof.
  intros Hz. destruct z as [|p|p]; [by split; [done|repeat constructor]| |lia].
  destruct (decimal_run (N.pos p) ltac:(lia)) as (d & ds & E & [Hf _]).
  change (decimal (Z.pos p)) with (text_of (pretty.pretty (N.pos p))). rewrite E. split; [done|].
  eapply List.Forall_impl, Hf. intros c [d' Hd]. by eapply digit_no_dot.
Qed.

Section keys.
Context (long_bits : Z) (Hbits : 0 < long_bits).

Lemma step_clean s : clean long_bits s -> Forall (fun c => Tokenizer.is_delimiter dots c = false) (step_text s).
Proof. destruct s; cbn; [done|]. intros _. apply decimal_digits. lia. Qed.

(** A token without a delimiter, at the end or in front of a dot. *)
Lemma split_word w : Forall (fun c => Tokenizer.is_delimiter dots c = false) w -> ItemArchive.split w = (w, []).
Proof.
  intros Hw. unfold ItemArchive.split, Tokenizer.next, Tokenizer.remaining. cbn [Tokenizer.make Tokenizer.position Tokenizer.source Tokenizer.delimiters].
  pose proof (zlen_nonneg w). destruct (Z.eqb_spec 0 (zlen w)) as [E|_].
  - destruct w; [done|]. rewrite zlen_cons in E. pose proof (zlen_nonneg w). lia.
  - change (zdrop 0 w) with w. replace (Tokenizer.scan dots w) with (@None Z); [|by rewrite Tokenizer.scan_word].
    cbn [Tokenizer.source Tokenizer.position]. by rewrite zdrop_ge.
Qed.

Lemma split_dot w rest :
  Forall (fun c => Tokenizer.is_delimiter dots c = false) w ->
  ItemArchive.split (w ++ dot :: rest) = (w, rest).
Proof.
  intros Hw. unfold ItemArchive.split.
  destruct (Tokenizer.next_token dots w dot rest Hw) as (t & E & R); [done|]. by rewrite E, R.
Qed.

Lemma split_key s p : clean long_bits s -> ItemArchive.split (key_of (s :: p)) = (step_text s, key_of p).
Proof.
  intros Hs. destruct p as [|s' p]; [by apply split_word, step_clean|]. by apply split_dot, step_clean.
Qed.

(** The element's key is that of the rest of the path, behind an empty name. *)
Lemma array_key_index behind size i p :
  no_digit behind -> clean long_bits (SIndex i) -> Z.of_nat i < size ->
  exists key, ItemArchive.array_key long_bits behind size (key_of (SIndex i :: p)) = Done (Some (i, key)) /\
    ItemArchive.split key = ([], key_of p).
Proof.
  intros Hb Hi Hs. cbn [clean] in Hi. destruct (decimal_digits (Z.of_nat i) ltac:(lia)) as [Hne Hd].
  assert (Hp : 0 < 2 ^ (long_bits - 1)) by lia.
  assert (H2 : 2 ^ long_bits = 2 * 2 ^ (long_bits - 1)).
  { rewrite <- Z.pow_succ_r by lia. f_equal. lia. }
  set (w := decimal (Z.of_nat i)) in *.
  assert (Hz : 0 < zlen w) by (destruct w; [done|]; rewrite zlen_cons; pose proof (zlen_nonneg w); lia).
  assert (Hm : forall tail, no_digit tail -> strtol long_bits (w ++ tail) = Z.of_nat i /\ number_end (w ++ tail) = zlen w).
  { intros tail Ht. split; [apply strtol_decimal; [unfold in_s; lia|done]|].
    by destruct (decimal_number (Z.of_nat i) tail Ht) as (? & ? & _ & _ & _ & ?). }
  unfold ItemArchive.array_key. destruct p as [|s p].
  - change (key_of [SIndex i]) with w. rewrite (proj2 (Z.eqb_neq (zlen w) 0)) by lia. pose proof (split_word w Hd) as Hw.
    unfold ItemArchive.split in Hw. destruct (Tokenizer.next (Tokenizer.make w dots)) as [tok t].
    injection Hw as -> Hr. destruct (Hm behind Hb) as [-> ->]. rewrite uwrap_id by (unfold in_u; lia).
    rewrite (proj2 (Z.leb_gt size _)), Z.eqb_refl by lia. cbn [negb orb]. rewrite Hr, Nat2Z.id.
    exists []. split; [done|]. by apply split_word.
  - change (key_of (SIndex i :: s :: p)) with (w ++ dot :: key_of (s :: p)).
    generalize (key_of (s :: p)) as rest. intros rest. pose proof (zlen_nonneg rest).
    rewrite (proj2 (Z.eqb_neq (zlen (w ++ dot :: rest)) 0)) by (rewrite zlen_app, zlen_cons; lia).
    destruct (Tokenizer.next_token_at dots w dot rest Hd) as (t & -> & Hr & Hpos); [done|].
    destruct (Hm (dot :: rest ++ behind)) as [E1 E2]; [by split|].
    rewrite <- app_assoc. cbn [app]. rewrite E1, E2, uwrap_id by (unfold in_u; lia).
    rewrite (proj2 (Z.leb_gt size _)), Z.eqb_refl by lia. cbn [negb orb]. rewrite Hr, Nat2Z.id.
    destruct (Z.eqb_spec (zlen rest) 0) as [E|_].
    + exists rest. split; [done|]. destruct rest as [|c rest]; [by apply split_word|].
      rewrite zlen_cons in E. pose proof (zlen_nonneg rest). lia.
    + exists (dot :: rest). split; [|by apply (split_dot [])].
      rewrite Hpos. do 3 f_equal. replace (zlen w + 1 - 1) with (zlen w) by lia. apply zdrop_app_len.
Qed.
End keys.

(** ** The archives reach what a path names *)
Section located.
Context `{BoostTime} (long_bits : Z) (Hbits : 0 < long_bits) (behind : list byte) (Hbehind : no_digit behind).
Context {A : Type} (scalar : ctype -> value -> A -> outcome (value * A)).

Lemma at_element_located visit items i key rest item y a a' :
  items !! i = Some item -> ItemArchive.split key = ([], rest) -> visit item rest a = Done (y, a', true) ->
  ItemArchive.at_element (A := A) visit items i key a = Done (<[i := y]> items, a', true).
Proof.
  revert items. induction i as [|i IH]; intros [|x items] Hi Hk Hv; try done; cbn [ItemArchive.at_element].
  - injection Hi as ->. rewrite Hk, bool_decide_true, Hv by done. done.
  - by rewrite (IH items Hi Hk Hv).
Qed.

Definition reaches (t : ctype) : Prop := forall v p t' x put y a a',
  locate t v p = Some (t', x, put) -> Forall (clean long_bits) p -> scalar t' x a = Done (y, a') ->
  ItemArchive.Visit long_bits behind scalar t v (key_of p) a = Done (put y, a', true).

Lemma item_Visit_object fs v key a :
  ItemArchive.Visit long_bits behind scalar (TObject fs) v key a =
  ('(vs, a, found) ← ItemArchive.Accept long_bits behind scalar fs (members_of v) key a;
   Done (VObject vs, a, found)).
Proof. reflexivity. Qed.

Lemma item_Accept_cons name t initial rest v vs key a :
  ItemArchive.Accept long_bits behind scalar (FCons name t initial rest) (v :: vs) key a =
  (let '(my_key, remaining_key) := ItemArchive.split key in
   if bool_decide (my_key = name) then
     '(v, a, found) ← ItemArchive.Visit long_bits behind scalar t v remaining_key a;
     Done (v :: vs, a, found)
   else
     '(vs, a, found) ← ItemArchive.Accept long_bits behind scalar rest vs key a;
     Done (v :: vs, a, found)).
Proof. reflexivity. Qed.

Lemma item_reached t : reaches t.
Proof.
  induction t using ctype_mut with (P0 := fun fs => forall vs name p t' x put y a a',
    locate_member fs vs name p = Some (t', x, put) -> Forall (clean long_bits) (SMember name :: p) ->
    scalar t' x a = Done (y, a') ->
    ItemArchive.Accept long_bits behind scalar fs vs (key_of (SMember name :: p)) a = Done (put y, a', true));
    try (intros v [|s p] t' x put y a a' E Hc Hs; try done; injection E as <- <- <-;
         cbn [ItemArchive.Visit key_of]; by rewrite Hs).
  - intros v [|[name|i] p] t' x put y a a' E Hc Hs; try done. cbn [locate] in E.
    destruct (items_of v !! i) as [item|] eqn:Ei; [|done]. cbn [mbind option_bind] in E.
    destruct (locate t item p) as [[[t1 x1] put1]|] eqn:El; [|done]. injection E as <- <- <-.
    apply Forall_cons_1 in Hc as [Hci Hc].
    destruct (array_key_index long_bits Hbits behind (zlen (items_of v)) i p) as (key & Ek & Hk); [done|done| |].
    { apply lookup_lt_Some in Ei. unfold zlen. lia. }
    cbn [ItemArchive.Visit]. rewrite Ek, bind_done.
    rewrite (at_element_located _ _ _ _ _ _ _ _ _ Ei Hk (IHt item p t1 x1 put1 y a a' El Hc Hs)). done.
  - intros v [|[name|i] p] t' x put y a a' E Hc Hs; try done. cbn [locate] in E.
    destruct (locate_member fs (members_of v) name p) as [[[t1 x1] put1]|] eqn:El; [|done].
    injection E as <- <- <-. rewrite item_Visit_object.
    by rewrite (IHt (members_of v) name p t1 x1 put1 y a a' El Hc Hs).
  - intros [|v vs] n p t' x put y a a' E Hc Hs; [done|]. cbn [locate_member] in E.
    rewrite item_Accept_cons, (split_key long_bits) by exact (Forall_inv Hc).
    cbn [step_text]. case_bool_decide.
    + destruct (locate t v p) as [[[t1 x1] put1]|] eqn:El; [|done]. injection E as <- <- <-.
      apply Forall_cons_1 in Hc as [_ Hc]. by rewrite (IHt v p t1 x1 put1 y a a' El Hc Hs).
    + destruct (locate_member rest vs n p) as [[[t1 x1] put1]|] eqn:El; [|done]. injection E as <- <- <-.
      by rewrite (IHt0 vs n p t1 x1 put1 y a a' El Hc Hs).
Qed.
End located.

(** ** One scalar is replaced *)
Section replaced.
Context `{BoostTime}.

Lemma locate_put t : forall v p t' x put y,
  locate t v p = Some (t', x, put) -> exists put', locate t (put y) p = Some (t', y, put').
Proof.
  induction t using ctype_mut with (P0 := fun fs => forall vs name p t' x put y,
    locate_member fs vs name p = Some (t', x, put) ->
    exists put', locate_member fs (put y) name p = Some (t', y, put'));
    try (intros v [|s p] t' x put y E; try done; injection E as <- <- <-; by eexists).
  - intros v [|[name|i] p] t' x put y E; try done. cbn [locate] in E.
    destruct (items_of v !! i) as [item|] eqn:Ei; [|done]. cbn [mbind option_bind] in E.
    destruct (locate t item p) as [[[t1 x1] put1]|] eqn:El; [|done]. injection E as <- <- <-.
    destruct (IHt item p t1 x1 put1 y El) as [put' E']. eexists. cbn [locate items_of].
    rewrite list_lookup_insert_eq by (by eapply lookup_lt_Some). cbn [mbind option_bind]. by rewrite E'.
  - intros v [|[name|i] p] t' x put y E; try done. cbn [locate] in E.
    destruct (locate_member fs (members_of v) name p) as [[[t1 x1] put1]|] eqn:El; [|done].
    injection E as <- <- <-. destruct (IHt (members_of v) name p t1 x1 put1 y El) as [put' E'].
    eexists. cbn [locate members_of]. by rewrite E'.
  - intros [|v vs] n p t' x put y E; [done|]. cbn [locate_member] in E. case_bool_decide as En.
    + destruct (locate t v p) as [[[t1 x1] put1]|] eqn:El; [|done]. injection E as <- <- <-.
      destruct (IHt v p t1 x1 put1 y El) as [put' E']. eexists. cbn [locate_member].
      rewrite bool_decide_true by done. by rewrite E'.
    + destruct (locate_member rest vs n p) as [[[t1 x1] put1]|] eqn:El; [|done]. injection E as <- <- <-.
      destruct (IHt0 vs n p t1 x1 put1 y El) as [put' E']. eexists. cbn [locate_member].
      rewrite bool_decide_false by done. by rewrite E'.
Qed.

Lemma locate_other t : forall v p t' x put y q t2 x2 put2,
  locate t v p = Some (t', x, put) -> q <> p -> locate t v q = Some (t2, x2, put2) ->
  exists put2', locate t (put y) q = Some (t2, x2, put2').
Proof.
  induction t using ctype_mut with (P0 := fun fs => forall vs name p t' x put y name2 q t2 x2 put2,
    locate_member fs vs name p = Some (t', x, put) -> (name2, q) <> (name, p) ->
    locate_member fs vs name2 q = Some (t2, x2, put2) ->
    exists put2', locate_member fs (put y) name2 q = Some (t2, x2, put2'));
    try (intros v [|s p] t' x put y [|s2 q] t2 x2 put2 E Hne E2; done).
  - intros v [|[name|i] p] t' x put y [|[name2|j] q] t2 x2 put2 E Hne E2; try done. cbn [locate] in E, E2.
    destruct (items_of v !! i) as [item|] eqn:Ei; [|done]. cbn [mbind option_bind] in E.
    destruct (locate t item p) as [[[t1 x1] put1]|] eqn:El; [|done]. injection E as <- <- <-.
    cbn [locate items_of]. destruct (decide (j = i)) as [->|Hj].
    + rewrite list_lookup_insert_eq by (by eapply lookup_lt_Some). rewrite Ei in E2. cbn [mbind option_bind] in *.
      destruct (locate t item q) as [[[t3 x3] put3]|] eqn:Eq; [|done]. injection E2 as <- <- <-.
      destruct (IHt item p t1 x1 put1 y q t3 x3 put3 El) as [put' ->]; [congruence|done|by eexists].
    + rewrite list_lookup_insert_ne by done. destruct (items_of v !! j) as [item2|]; [|done].
      cbn [mbind option_bind] in *. destruct (locate t item2 q) as [[[t3 x3] put3]|]; [|done].
      injection E2 as <- <- <-. by eexists.
  - intros v [|[name|i] p] t' x put y [|[name2|j] q] t2 x2 put2 E Hne E2; try done. cbn [locate] in E, E2.
    destruct (locate_member fs (members_of v) name p) as [[[t1 x1] put1]|] eqn:El; [|done].
    injection E as <- <- <-. cbn [locate members_of].
    destruct (locate_member fs (members_of v) name2 q) as [[[t3 x3] put3]|] eqn:E3; [|done].
    injection E2 as <- <- <-.
    destruct (IHt (members_of v) name p t1 x1 put1 y name2 q t3 x3 put3 El) as [put' ->];
      [congruence|done|by eexists].
  - intros vs n p t' x put y n2 q t2 x2 put2 E. by cbn in E.
  - intros [|v vs] n p t' x put y n2 q t2 x2 put2 E Hne E2; [done|]. cbn [locate_member] in E, E2.
    destruct (decide (n = name)) as [En|En];
      [rewrite (bool_decide_true _ En) in E|rewrite (bool_decide_false _ En) in E].
    + destruct (locate t v p) as [[[t1 x1] put1]|] eqn:El; [|done]. injection E as <- <- <-.
      cbn [locate_member]. destruct (decide (n2 = name)) as [En2|En2];
        [rewrite (bool_decide_true _ En2) in *|rewrite (bool_decide_false _ En2) in *].
      * destruct (locate t v q) as [[[t3 x3] put3]|] eqn:Eq; [|done]. injection E2 as <- <- <-.
        destruct (IHt v p t1 x1 put1 y q t3 x3 put3 El) as [put' ->]; [congruence|done|by eexists].
      * destruct (locate_member rest vs n2 q) as [[[t3 x3] put3]|]; [|done]. injection E2 as <- <- <-. by eexists.
    + destruct (locate_member rest vs n p) as [[[t1 x1] put1]|] eqn:El; [|done]. injection E as <- <- <-.
      cbn [locate_member]. destruct (decide (n2 = name)) as [En2|En2];
        [rewrite (bool_decide_true _ En2) in *|rewrite (bool_decide_false _ En2) in *].
      * destruct (locate t v q) as [[[t3 x3] put3]|]; [|done]. injection E2 as <- <- <-. by eexists.
      * destruct (locate_member rest vs n2 q) as [[[t3 x3] put3]|] eqn:Eq; [|done]. injection E2 as <- <- <-.
        destruct (IHt0 vs n p t1 x1 put1 y n2 q t3 x3 put3 El Hne Eq) as [put' ->]. by eexists.
Qed.

Lemma locate_object fs vs p t' x put :
  locate (TObject fs) (VObject vs) p = Some (t', x, put) ->
  exists name p' put', p = SMember name :: p' /\ locate_member fs vs name p' = Some (t', x, put') /\
    forall y, put y = VObject (put' y).
Proof.
  destruct p as [|[name|i] p']; try done. cbn [locate members_of]. intros E.
  destruct (locate_member fs vs name p') as [[[t1 x1] put1]|] eqn:El; [|done]. injection E as <- <- <-.
  by exists name, p', put1.
Qed.
End replaced.

(** ** Setting and reading *)
Section set_read.
Context `{BoostTime} `{FloatText} (long_bits : Z).

(** Text of which all fits the buffer, and its null. *)
Lemma snprintf_fits buffer out :
  zlen out < zlen buffer -> exists b, snprintf buffer out = Done b /\ load b 0 (zlen out) = Done out.
Proof.
  intros Hl. pose proof (zlen_nonneg out). unfold snprintf. rewrite (proj2 (Z.eqb_neq (zlen buffer) 0)) by lia.
  rewrite ztake_ge by lia.
  assert (Hs : zlen (out ++ [byte.of_Z 0]) = zlen out + 1) by by rewrite zlen_app.
  rewrite store_done by lia. eexists. split; [done|]. change (ztake 0 buffer) with (@nil byte). cbn [app].
  assert (Hd : zlen (zdrop (0 + zlen (out ++ [byte.of_Z 0])) buffer) = zlen buffer - (zlen out + 1)).
  { rewrite zlen_drop by lia. lia. }
  rewrite load_done; [|lia|lia|rewrite zlen_app; lia]. f_equal.
  change (zdrop 0 ?l) with l. rewrite <- app_assoc. apply ztake_app_len.
Qed.

Definition integral (t : ctype) : Prop :=
  match t with TInt n | TUInt n => int_size n = true | _ => False end.

Lemma int_size_bound n : int_size n = true -> 0 < 8 * Z.of_nat n <= 64.
Proof. do 9 (destruct n as [|n]; [by intros|]). done. Qed.

Lemma Parse_decimal t z :
  integral t -> storable t (VInt z) -> ParseValue t (decimal z ++ [null]) = Done (VInt z).
Proof.
  intros Ht Hz. assert (Hn : no_digit [null]) by by split.
  destruct t as [|n|n| | | | | | | | | |]; try done; pose proof (int_size_bound n Ht) as Hb; cbn in Hz |- *.
  - assert (Hp : 2 ^ (8 * Z.of_nat n - 1) <= 2 ^ 63) by (apply Z.pow_le_mono_r; lia).
    rewrite strtol_decimal; [|unfold in_s in *; lia|done]. by rewrite swrap_id by (done || lia).
  - assert (Hp : 2 ^ (8 * Z.of_nat n) <= 2 ^ 64) by (apply Z.pow_le_mono_r; lia).
    rewrite strtoull_decimal; [|unfold in_u in *; lia|done]. by rewrite uwrap_id.
Qed.

(** C32: [Set] with the key of a scalar, wherever it is in the object, puts there
    what its text says and changes nothing else, and [Read] with the same key
    then gives the text of that value; of an integer in range, the one that was
    set. *)
Theorem set_reads_back fs vs p t x put value y :
  0 < long_bits -> Forall (clean long_bits) p ->
  locate (TObject fs) (VObject vs) p = Some (t, x, put) -> ParseValue t (value ++ [null]) = Done y ->
  exists vs', SetArchive.Set_ long_bits fs vs (key_of p) value = Done (true, vs') /\
    (exists put', locate (TObject fs) (VObject vs') p = Some (t, y, put')) /\
    (forall q t2 x2 put2, q <> p -> locate (TObject fs) (VObject vs) q = Some (t2, x2, put2) ->
      exists put2', locate (TObject fs) (VObject vs') q = Some (t2, x2, put2')) /\
    (forall buffer out, text t y = Done out -> zlen out < zlen buffer ->
      exists buffer', ReadArchive.Read long_bits fs vs' (key_of p) buffer = Done (true, buffer', out)) /\
    (forall z, integral t -> storable t (VInt z) -> value = decimal z -> y = VInt z /\ text t y = Done value).
Proof.
  intros Hb Hc E Hy. destruct (locate_object _ _ _ _ _ _ E) as (name & p' & put' & -> & El & Hput).
  exists (put' y).
  assert (Hreach : forall A (scalar : ctype -> Archive.value -> A -> outcome (Archive.value * A)) behind vs1 x1 put1 y1 a a',
    no_digit behind -> locate_member fs vs1 name p' = Some (t, x1, put1) -> scalar t x1 a = Done (y1, a') ->
    ItemArchive.Accept long_bits behind scalar fs vs1 (key_of (SMember name :: p')) a = Done (put1 y1, a', true)).
  { intros A scalar behind vs1 x1 put1 y1 a a' Hbe El1 Hs.
    pose proof (item_reached long_bits Hb behind Hbe scalar (TObject fs) (VObject vs1) (SMember name :: p')
      t x1 (fun z => VObject (put1 z)) y1 a a') as Hr.
    rewrite item_Visit_object in Hr. cbn [locate members_of] in Hr. rewrite El1 in Hr. specialize (Hr eq_refl Hc Hs).
    destruct (ItemArchive.Accept _ _ _ _ _ _ _) as [[[vs2 a2] f2]|]; [|done]. rewrite bind_done in Hr.
    cbn beta iota in Hr. injection Hr as -> -> ->. done. }
  assert (Hsp : no_digit (text_of " " ++ value ++ [null])) by by split.
  split; [|split; [|split; [|split]]].
  - unfold SetArchive.Set_. rewrite (Hreach _ _ _ _ _ _ y tt tt Hsp El); [done|].
    unfold SetArchive.scalar. by rewrite Hy.
  - rewrite <- Hput. by eapply locate_put.
  - intros q t2 x2 put2 Hq Eq. rewrite <- Hput. by eapply locate_other.
  - intros buffer out Ho Hl. destruct (snprintf_fits buffer out Hl) as (b & Es & Eload). exists b.
    destruct (locate_put (TObject fs) _ _ _ _ _ y E) as [put2 E2]. rewrite Hput in E2.
    destruct (locate_object _ _ _ _ _ _ E2) as (name2 & p2 & put3 & [= <- <-] & El2 & _).
    unfold ReadArchive.Read. rewrite (Hreach _ _ [null] _ _ _ y (buffer, []) (b, out) ltac:(by split) El2); [done|].
    unfold ReadArchive.scalar. rewrite Ho. cbn [fst]. rewrite bind_done, Es, bind_done, Eload. done.
  - intros z Ht Hz ->. rewrite (Parse_decimal t z Ht Hz) in Hy. injection Hy as <-. by destruct t.
Qed.
End set_read.

(** ** Listing *)
Section listing.
Context `{BoostTime}.

Section items.
Context (scalars : list step -> value -> list (list step * ctype * value)) (path : list step).

Fixpoint item_scalars (items : list value) (i : nat) : list (list step * ctype * value) :=
  match items with
  | [] => []
  | item :: items => scalars (path ++ [SIndex i]) item ++ item_scalars items (S i)
  end.
End items.

(** The scalars of an object that is at [path], in order, with their paths. *)
Fixpoint scalars (t : ctype) (path : list step) (v : value) : list (list step * ctype * value) :=
  match t with
  | TObject fs => member_scalars fs path (members_of v)
  | TArray _ t => item_scalars (scalars t) path (items_of v) 0
  | t => [(path, t, v)]
  end
with member_scalars (fs : fields) (path : list step) (vs : list value) : list (list step * ctype * value) :=
  match fs, vs with
  | FCons name t _ rest, v :: vs => scalars t (path ++ [SMember name]) v ++ member_scalars rest path vs
  | _, _ => []
  end.

(** What is written of one: its key, a space, its text and a line end. *)
Definition line (path : list step) (value : list byte) : list byte :=
  key_of path ++ text_of " " ++ value ++ EnumerateArchive.crlf_.
End listing.

Section enumerate.
Context `{BoostTime} `{FloatText}.
Import EnumerateArchive.

Lemma key_of_snoc path s : key_of (path ++ [s]) = concat (map (fun s => step_text s ++ dots) path) ++ step_text s.
Proof.
  induction path as [|s0 path IH]; [done|]. cbn [app map concat]. rewrite <- app_assoc, <- IH.
  destruct path as [|s1 path]; cbn [app key_of]; unfold dots; by rewrite <- app_assoc.
Qed.

(** The prefixes that fit are written in front. *)
Lemma FormatPrefix_done prefixes buffer :
  let text := concat (map (fun s => step_text s ++ dots) (rev prefixes)) in
  zlen text + 1 <= zlen buffer ->
  exists b, FormatPrefix (map step_text prefixes) buffer 0 = Done (false, b, zlen text) /\
    zlen b = zlen buffer /\ ztake (zlen text) b = text.
Proof.
  induction prefixes as [|s prefixes IH]; cbv zeta; intros Hl; [by exists buffer|].
  cbn [rev map] in *. rewrite map_app, concat_app in *. cbn [map concat] in *. rewrite app_nil_r in *.
  set (text0 := concat (map (fun s => step_text s ++ dots) (rev prefixes))) in *.
  rewrite !zlen_app in *. change (zlen dots) with 1 in *.
  pose proof (zlen_nonneg text0). pose proof (zlen_nonneg (step_text s)).
  destruct IH as (b & E & Hb & Ht); [cbv zeta; lia|]. cbv zeta in E. cbn [FormatPrefix].
  rewrite E, bind_done. cbn beta iota. rewrite (proj2 (Z.ltb_ge _ _)) by lia.
  destruct (store b (zlen text0) (step_text s ++ dots)) as [b'|f] eqn:Es.
  2:{ rewrite store_done in Es; [done|lia|]. rewrite zlen_app. change (zlen dots) with 1. lia. }
  exists b'. split; [rewrite bind_done; do 2 f_equal; lia|]. split; [by rewrite (zlen_store _ _ _ _ Es)|].
  apply store_prefix in Es. rewrite zlen_app in Es. change (zlen dots) with 1 in Es. by rewrite Es, Ht.
Qed.

Lemma FormatField_done prefixes s buffer value :
  zlen (line (rev prefixes ++ [s]) value) <= zlen buffer ->
  exists b, FormatField (map step_text prefixes) buffer (step_text s) value =
      Done (b, line (rev prefixes ++ [s]) value) /\ zlen b = zlen buffer.
Proof.
  unfold line. rewrite key_of_snoc. set (text0 := concat (map (fun s => step_text s ++ dots) (rev prefixes))).
  rewrite !zlen_app. change (zlen (text_of " ")) with 1. change (zlen crlf_) with 2. intros Hl.
  pose proof (zlen_nonneg text0). pose proof (zlen_nonneg (step_text s)). pose proof (zlen_nonneg value).
  destruct (FormatPrefix_done prefixes buffer) as (b & E & Hb & Ht); [cbv zeta; fold text0; lia|].
  cbv zeta in E. unfold FormatField. fold text0 in E, Ht. rewrite E, bind_done. cbn beta iota.
  rewrite (proj2 (Z.ltb_ge _ _)) by lia.
  set (w := step_text s ++ text_of " ") in *.
  assert (Hw : zlen w = zlen (step_text s) + 1) by by unfold w; rewrite zlen_app.
  destruct (store b (zlen text0) w) as [b1|] eqn:E1; [|rewrite store_done in E1 by lia; done].
  pose proof (zlen_store _ _ _ _ E1) as L1. apply store_prefix in E1. rewrite Ht in E1.
  rewrite bind_done. cbn zeta.
  set (it := zlen text0 + zlen (step_text s) + 1) in *.
  assert (Hit : it = zlen (text0 ++ w)) by (rewrite zlen_app; lia).
  rewrite ztake_ge by lia.
  destruct (store b1 it (value ++ [null])) as [b2|] eqn:E2;
    [|rewrite store_done in E2 by (rewrite ?zlen_app; change (zlen [null]) with 1; lia); done].
  pose proof (zlen_store _ _ _ _ E2) as L2. apply store_prefix in E2. rewrite bind_done.
  assert (P2 : ztake (it + zlen value) b2 = text0 ++ w ++ value).
  { assert (Hp : ztake (it + zlen value) (ztake (it + zlen (value ++ [null])) b2) = ztake (it + zlen value) b2).
    { rewrite ztake_ztake_min. f_equal. rewrite zlen_app. change (zlen [null]) with 1. lia. }
    assert (P1 : ztake it b1 = text0 ++ w) by (rewrite <- E1; f_equal; lia).
    rewrite <- Hp, E2, P1. replace (it + zlen value) with (zlen ((text0 ++ w) ++ value)) by (rewrite !zlen_app; lia).
    rewrite (app_assoc (text0 ++ w)), ztake_app_len. by rewrite <- app_assoc. }
  destruct (store b2 (it + zlen value) crlf_) as [b3|] eqn:E3;
    [|rewrite store_done in E3 by (change (zlen crlf_) with 2; lia); done].
  pose proof (zlen_store _ _ _ _ E3) as L3. apply store_prefix in E3. rewrite bind_done.
  change (zlen crlf_) with 2 in E3.
  rewrite load_done by lia. rewrite bind_done. exists b3. split; [|lia]. do 2 f_equal.
  change (zdrop 0 b3) with b3. rewrite E3, P2. unfold w. by rewrite <- !app_assoc.
Qed.

(** *** One evaluation

    [walks k N ls f]: [f] passes over the scalars with the lines [ls]; when the
    scalar to write is among them it writes its line. *)
Definition walks (k N : Z) (ls : list (list byte)) (f : walk -> outcome walk) : Prop :=
  (forall w, done w = true -> f w = Done w) /\
  forall w, done w = false -> 0 <= current_index w -> current_index w + zlen ls < 2 ^ 16 ->
    zlen (out_buffer w) = N ->
    if (current_index w <=? k) && (k <? current_index w + zlen ls) then
      exists b l, ls !! Z.to_nat (k - current_index w) = Some l /\ zlen b = N /\
        f w = Done {| current_index := k + 1; done := true; out_buffer := b; data := l |}
    else f w = Done {| current_index := current_index w + zlen ls; done := false;
                       out_buffer := out_buffer w; data := data w |}.

Lemma walks_nil k N : walks k N [] (fun w => Done w).
Proof.
  split; [done|]. intros [i d b x] Hd Hi Hl Hb. cbn in *. subst d. rewrite Z.add_0_r.
  destruct (Z.leb_spec i k), (Z.ltb_spec k i); cbn; done || lia.
Qed.

Lemma walks_app k N l1 l2 f g :
  walks k N l1 f -> walks k N l2 g -> walks k N (l1 ++ l2) (fun w => w ← f w; g w).
Proof.
  intros [Hf1 Hf] [Hg1 Hg]. split; [intros w Hw; rewrite Hf1 by done; by apply Hg1|].
  intros w Hd Hi Hl Hb. rewrite zlen_app in *. pose proof (zlen_nonneg l1). pose proof (zlen_nonneg l2).
  specialize (Hf w Hd Hi ltac:(lia) Hb).
  destruct (Z.leb_spec (current_index w) k) as [H3|H3]; cbn [andb] in *.
  2:{ rewrite Hf, bind_done. specialize (Hg {| current_index := current_index w + zlen l1; done := false;
        out_buffer := out_buffer w; data := data w |} eq_refl). cbn [current_index out_buffer data] in Hg.
      specialize (Hg ltac:(lia) ltac:(lia) Hb). rewrite (proj2 (Z.leb_gt _ k)) in Hg by lia. cbn [andb] in Hg.
      rewrite Hg. do 2 f_equal. lia. }
  destruct (Z.ltb_spec k (current_index w + zlen l1)) as [H4|H4].
  - rewrite (proj2 (Z.ltb_lt _ _)) by lia. destruct Hf as (b & l & El & Eb & Ef). exists b, l.
    split; [by apply lookup_app_l_Some|]. split; [done|]. rewrite Ef, bind_done. by apply Hg1.
  - rewrite Hf, bind_done. specialize (Hg {| current_index := current_index w + zlen l1; done := false;
      out_buffer := out_buffer w; data := data w |} eq_refl). cbn [current_index out_buffer data] in Hg.
    specialize (Hg ltac:(lia) ltac:(lia) Hb). rewrite (proj2 (Z.leb_le _ k)) in Hg by lia. cbn [andb] in Hg.
    rewrite Z.add_assoc. destruct (Z.ltb_spec k (current_index w + zlen l1 + zlen l2)).
    + destruct Hg as (b & l & El & Eb & Eg). exists b, l. split; [|by split].
      rewrite lookup_app_r by (unfold zlen in *; lia). rewrite <- El. f_equal. unfold zlen in *. lia.
    + done.
Qed.

Lemma walks_ext k N ls f g : (forall w, f w = g w) -> walks k N ls f -> walks k N ls g.
Proof.
  intros E [H1 H2]. split; [intros w; rewrite <- E; apply H1|]. intros w Hd Hi Hl Hb.
  specialize (H2 w Hd Hi Hl Hb). by rewrite <- E.
Qed.

(** The line of a scalar, which fits the buffer. *)
Definition lines (N : Z) : list (list step * ctype * value) -> list (list byte) -> Prop :=
  Forall2 (fun e l => let '(path, t, v) := e in
    exists value, text t v = Done value /\ l = line path value /\ zlen l <= N).

Lemma walks_scalar k N prefixes s t v l :
  lines N [(rev prefixes ++ [s], t, v)] [l] ->
  walks k N [l] (fun w => if done w then Done w
                          else EmitValue k (map step_text prefixes) (step_text s) t v w).
Proof.
  intros Hl. apply list.Forall2_cons in Hl as [(value & Et & -> & Hn) _]. split; [by intros w ->|].
  intros w Hd Hi Hw Hb. rewrite Hd. unfold EmitValue. change (zlen [_]) with 1 in *.
  assert (Hu : uwrap 16 (current_index w + 1) = current_index w + 1) by (apply uwrap_id; unfold in_u; lia).
  destruct (Z.eqb_spec (current_index w) k) as [<-|Hk].
  - rewrite Z.leb_refl, (proj2 (Z.ltb_lt _ _)) by lia. cbn [andb]. rewrite Et, bind_done.
    destruct (FormatField_done prefixes s (out_buffer w) value) as (b & E & Hbl); [by rewrite Hb|].
    rewrite E, bind_done. exists b. eexists. rewrite Z.sub_diag. split; [done|]. split; [by rewrite Hbl|].
    cbn beta iota. by rewrite Hu.
  - replace ((current_index w <=? k) && (k <? current_index w + 1)) with false by lia.
    by rewrite Hu, Hd.
Qed.

Lemma Visit_walks k N t : forall prefixes s v ls,
  lines N (scalars t (rev prefixes ++ [s]) v) ls ->
  walks k N ls (Visit k t (map step_text prefixes) (step_text s) v).
Proof.
  induction t using ctype_mut with (P0 := fun fs => forall prefixes vs ls,
    lines N (member_scalars fs (rev prefixes) vs) ls ->
    walks k N ls (Accept k fs vs (map step_text prefixes)));
    try (intros prefixes s v ls Hl; pose proof (list.Forall2_length _ _ _ Hl) as Hlen;
         destruct ls as [|l [|? ?]]; try discriminate Hlen;
         match goal with |- walks _ _ _ (Visit _ ?t _ _ _) => exact (walks_scalar k N prefixes s t v l Hl) end).
  - intros prefixes s v ls Hl.
    assert (Hi : forall items i ls, lines N (item_scalars (scalars t) (rev prefixes ++ [s]) items i) ls ->
      walks k N ls (VisitItems (fun number item => Visit k t (step_text s :: map step_text prefixes) number item)
        items (Z.of_nat i))).
    { intros items. induction items as [|item items IHi]; intros i ls' Hl'.
      - apply Forall2_nil_inv_l in Hl' as ->. apply walks_nil.
      - cbn [item_scalars] in Hl'. apply Forall2_app_inv_l in Hl' as (l1 & l2 & H1 & H2 & ->).
        cbn [VisitItems]. replace (Z.of_nat i + 1) with (Z.of_nat (S i)) by lia.
        exact (walks_app _ _ _ _ _ _ (IHt (s :: prefixes) (SIndex i) item l1 H1) (IHi (S i) l2 H2)). }
    destruct (Hi (items_of v) 0%nat ls Hl) as [Hi1 Hi2]. split; [by intros w Hw; cbn [Visit]; rewrite Hw|].
    intros w Hd. cbn [Visit]. rewrite Hd. by apply Hi2.
  - intros prefixes s v ls Hl. destruct (IHt (s :: prefixes) (members_of v) ls Hl) as [Hi1 Hi2].
    split; [by intros w Hw; cbn [Visit]; rewrite Hw|]. intros w Hd. specialize (Hi2 w Hd).
    change (Visit k (TObject fs) (map step_text prefixes) (step_text s) v w) with
      (if done w then Done w else Accept k fs (members_of v) (step_text s :: map step_text prefixes) w).
    by rewrite Hd.
  - intros prefixes vs ls Hl. apply Forall2_nil_inv_l in Hl as ->. apply walks_nil.
  - intros prefixes [|v vs] ls Hl; [apply Forall2_nil_inv_l in Hl as ->; apply walks_nil|].
    cbn [member_scalars] in Hl. apply Forall2_app_inv_l in Hl as (l1 & l2 & H1 & H2 & ->).
    exact (walks_app _ _ _ _ _ _ (IHt prefixes (SMember name) v l1 H1) (IHt0 prefixes vs l2 H2)).
Qed.

Lemma Accept_walks k N fs : forall prefixes vs ls,
  lines N (member_scalars fs (rev prefixes) vs) ls ->
  walks k N ls (Accept k fs vs (map step_text prefixes)).
Proof.
  induction fs as [|name t initial rest IH]; intros prefixes [|v vs] ls Hl;
    try (apply Forall2_nil_inv_l in Hl as ->; apply walks_nil).
  cbn [member_scalars] in Hl. apply Forall2_app_inv_l in Hl as (l1 & l2 & H1 & H2 & ->).
  exact (walks_app _ _ _ _ _ _ (Visit_walks k N t prefixes (SMember name) v l1 H1) (IH prefixes vs l2 H2)).
Qed.

(** *** All of them *)
Lemma evaluate_line c ls :
  lines (zlen (buffer c)) (member_scalars (item_class c) [SMember (root_prefix c)] (item c)) ls ->
  zlen ls < 2 ^ 16 -> 0 <= current_field_index_to_write c ->
  exists b, zlen b = zlen (buffer c) /\
    evaluate c = Done ({| item_class := item_class c; item := item c; root_prefix := root_prefix c; buffer := b;
                          current_field_index_to_write := current_field_index_to_write c |},
                       ls !! Z.to_nat (current_field_index_to_write c)).
Proof.
  intros Hl Hn Hk.
  destruct (Accept_walks (current_field_index_to_write c) (zlen (buffer c)) (item_class c)
    [SMember (root_prefix c)] (item c) ls Hl) as [_ Hw]. unfold evaluate.
  cbn [map step_text] in Hw.
  specialize (Hw {| current_index := 0; done := false; out_buffer := buffer c; data := [] |} eq_refl).
  cbn [current_index out_buffer data] in Hw. specialize (Hw ltac:(lia) ltac:(lia) eq_refl).
  rewrite (proj2 (Z.leb_le 0 _)) in Hw by lia. cbn [andb] in Hw.
  destruct (Z.ltb_spec (current_field_index_to_write c) (0 + zlen ls)) as [Hlt|Hge].
  - destruct Hw as (b & l & El & Eb & E). exists b. split; [done|]. rewrite E, bind_done. cbn [done data out_buffer].
    rewrite Z.sub_0_r in El. by rewrite El.
  - exists (buffer c). split; [done|]. rewrite Hw, bind_done. cbn [done data out_buffer].
    rewrite lookup_ge_None_2 by (unfold zlen in Hge; lia). done.
Qed.

(** What is written when every write completes, and what comes in the end. *)
Fixpoint drive (n : nat) (r : Context_ * action) : outcome (list (list byte) * action) :=
  match n, r with
  | S n, (c, Write d) =>
      r ← written c 0;
      '(ds, a) ← drive n r;
      Done (d :: ds, a)
  | _, (_, a) => Done ([], a)
  end.

Lemma drive_lines ls n : forall c done_,
  lines (zlen (buffer c)) (member_scalars (item_class c) [SMember (root_prefix c)] (item c)) (done_ ++ ls) ->
  zlen (done_ ++ ls) < 2 ^ 16 -> ls <> [] -> length ls = n ->
  current_field_index_to_write c = zlen done_ ->
  drive n (c, match ls with l :: _ => Write l | [] => Nothing end) = Done (ls, Callback 0).
Proof.
  revert n. induction ls as [|l ls IH]; intros n c done_ Hl Hn Hne Hlen Hk; [done|].
  destruct n as [|n]; [done|]. injection Hlen as Hlen. cbn [drive]. unfold written. cbn [negb Z.eqb].
  rewrite zlen_app, zlen_cons in Hn. pose proof (zlen_nonneg done_). pose proof (zlen_nonneg ls).
  assert (Hu : uwrap 16 (current_field_index_to_write c + 1) = zlen done_ + 1)
    by (rewrite uwrap_id by (unfold in_u; lia); lia). rewrite Hu.
  assert (Happ : (done_ ++ [l]) ++ ls = done_ ++ l :: ls) by by rewrite <- app_assoc.
  destruct (evaluate_line {| item_class := item_class c; item := item c; root_prefix := root_prefix c;
    buffer := buffer c; current_field_index_to_write := zlen done_ + 1 |} (done_ ++ l :: ls))
    as (b & Hb & E); [done|rewrite zlen_app, zlen_cons; lia|cbn; lia|].
  cbn [item_class item root_prefix buffer current_field_index_to_write] in *. rewrite E, !bind_done. cbn beta iota.
  assert (El : (done_ ++ l :: ls) !! Z.to_nat (zlen done_ + 1) = head ls).
  { rewrite lookup_app_r by (unfold zlen; lia). replace (Z.to_nat (zlen done_ + 1) - length done_)%nat with 1%nat
      by (unfold zlen; lia). by destruct ls. }
  rewrite El. destruct ls as [|l2 ls].
  - destruct n; [|done]. done.
  - cbn [head]. rewrite (IH n _ (done_ ++ [l])); try done.
    + cbn. rewrite Hb, <- app_assoc. exact Hl.
    + rewrite <- app_assoc. cbn [app]. rewrite zlen_app, zlen_cons. lia.
    + cbn. rewrite zlen_app. done.
Qed.
End enumerate.

(** What is listed can be read. *)
Section paths.
Context `{BoostTime}.

Lemma locate_member_names fs : forall vs name p r, locate_member fs vs name p = Some r -> name ∈ names fs.
Proof.
  induction fs as [|n t initial rest IH]; intros [|v vs] name p r E; try done. cbn [locate_member] in E.
  destruct (decide (name = n)) as [->|Hn]; [by left|]. rewrite (bool_decide_false _ Hn) in E.
  right. destruct (locate_member rest vs name p) as [[[t1 x1] put1]|] eqn:El; [|done]. by eapply IH.
Qed.

Lemma scalars_located t : forall path v path' t' x,
  distinct t -> (path', t', x) ∈ scalars t path v ->
  exists p put, path' = path ++ p /\ locate t v p = Some (t', x, put).
Proof.
  induction t using ctype_mut with (P0 := fun fs => forall path vs path' t' x,
    NoDup (names fs) -> distinct_fields fs -> (path', t', x) ∈ member_scalars fs path vs ->
    exists name p put, path' = path ++ SMember name :: p /\ locate_member fs vs name p = Some (t', x, put));
    try (intros path v path' t' x _ Hin; apply list_elem_of_singleton in Hin; injection Hin as -> -> ->;
         exists [], (fun y => y); by rewrite app_nil_r).
  - intros path v path' t' x Hd Hin. cbn [scalars distinct] in *.
    assert (Hi : forall items i, (path', t', x) ∈ item_scalars (scalars t) path items i ->
      exists j item p put, items !! j = Some item /\ path' = path ++ SIndex (i + j) :: p /\
        locate t item p = Some (t', x, put)).
    { induction items as [|item items IHi]; intros i Hin'; [by apply not_elem_of_nil in Hin'|].
      cbn [item_scalars] in Hin'. apply elem_of_app in Hin' as [Hin'|Hin'].
      - destruct (IHt _ _ _ _ _ Hd Hin') as (p & put & -> & El). exists 0%nat, item, p, put.
        rewrite Nat.add_0_r, <- app_assoc. by split.
      - destruct (IHi (S i) Hin') as (j & it & p & put & Ej & -> & El). exists (S j), it, p, put.
        by rewrite Nat.add_succ_r. }
    destruct (Hi (items_of v) 0%nat Hin) as (j & item & p & put & Ej & -> & El).
    exists (SIndex j :: p). eexists. split; [done|]. cbn [locate]. rewrite Ej. cbn [mbind option_bind]. by rewrite El.
  - intros path v path' t' x [Hn Hd] Hin. cbn [scalars] in Hin.
    destruct (IHt path (members_of v) path' t' x Hn Hd Hin) as (name & p & put & -> & El).
    exists (SMember name :: p). eexists. split; [done|]. cbn [locate]. by rewrite El.
  - intros path vs path' t' x _ _ Hin. by apply not_elem_of_nil in Hin.
  - intros path [|v vs] path' t' x Hn Hd Hin; [by apply not_elem_of_nil in Hin|]. cbn [names] in Hn.
    apply list.NoDup_cons in Hn as [Hni Hn]. destruct Hd as [Hd Hds].
    cbn [member_scalars] in Hin. apply elem_of_app in Hin as [Hin|Hin].
    + destruct (IHt _ _ _ _ _ Hd Hin) as (p & put & -> & El). exists name, p. eexists.
      split; [by rewrite <- app_assoc|]. cbn [locate_member]. rewrite bool_decide_true by done. by rewrite El.
    + destruct (IHt0 path vs path' t' x Hn Hds Hin) as (n2 & p & put & -> & El). exists n2, p. eexists.
      split; [done|]. cbn [locate_member]. rewrite bool_decide_false; [by rewrite El|].
      intros ->. by apply locate_member_names in El.
Qed.
End paths.

Section properties.
Context `{BoostTime} `{FloatText}.
Import EnumerateArchive.

(** [Enumerate] writes every scalar of an object, wherever it is nested, in
    order and once, as a line with its key and its text; it calls back when the
    last write is through, and never for an object without a scalar.  The keys
    it prints are, behind the prefix, the paths under which [Set] and [Read]
    find that scalar.  The lines have to fit the buffer, each by itself. *)
Theorem enumerate_lists_all fs vs prefix buffer ls :
  lines (zlen buffer) (member_scalars fs [SMember prefix] vs) ls -> zlen ls < 2 ^ 16 ->
  NoDup (names fs) -> distinct_fields fs ->
  (exists r, Enumerate fs vs prefix buffer = Done r /\
    drive (length ls) r = Done (ls, match ls with [] => Nothing | _ => Callback 0 end)) /\
  forall path t x, (path, t, x) ∈ member_scalars fs [SMember prefix] vs ->
    exists p put, path = SMember prefix :: p /\ locate (TObject fs) (VObject vs) p = Some (t, x, put).
Proof.
  intros Hl Hn Hd Hds. split.
  - unfold Enumerate. destruct (evaluate_line {| item_class := fs; item := vs; root_prefix := prefix;
      buffer := buffer; current_field_index_to_write := 0 |} ls Hl Hn) as (b & Hb & E); [done|].
    cbn [item_class item root_prefix EnumerateArchive.buffer current_field_index_to_write] in *.
    rewrite E, bind_done. eexists. split; [done|]. destruct ls as [|l ls]; [done|].
    refine (drive_lines (l :: ls) _ _ [] _ _ _ eq_refl _); [|done..].
    cbn [EnumerateArchive.buffer item_class item root_prefix app]. by rewrite Hb.
  - intros path t x Hin.
    exact (scalars_located (TObject fs) [SMember prefix] (VObject vs) path t x (conj Hd Hds) Hin).
Qed.

(** The key of an array without an index, as [set motor.gains 1] has it,
    makes [strtol] read from a null pointer, in [Set] and in [Read]; a dot with
    nothing behind it is taken for index 0. *)
Theorem missing_index_undefined long_bits name n t initial rest v vs value buffer :
  Forall (fun c => Tokenizer.is_delimiter dots c = false) name ->
  SetArchive.Set_ long_bits (FCons name (TArray n t) initial rest) (v :: vs) name value = Faulted Undefined /\
  ReadArchive.Read long_bits (FCons name (TArray n t) initial rest) (v :: vs) name buffer = Faulted Undefined /\
  (1 <= zlen (items_of v) -> 0 < long_bits ->
    exists key, ItemArchive.array_key long_bits [null] (zlen (items_of v)) dots = Done (Some (O, key))).
Proof.
  intros Hn. unfold SetArchive.Set_, ReadArchive.Read. rewrite !item_Accept_cons, !(split_word name Hn), !bool_decide_true by done.
  split; [done|]. split; [done|]. intros Hs Hb. unfold ItemArchive.array_key. change (zlen dots =? 0) with false.
  cbv iota. change (Tokenizer.next (Tokenizer.make dots dots)) with ([] : list byte,
    {| Tokenizer.source := dots; Tokenizer.delimiters := dots; Tokenizer.position := 1 |}). cbv beta iota.
  change (strtol long_bits (dots ++ [null])) with (clip long_bits 0).
  pose proof (Z.pow_pos_nonneg 2 (long_bits - 1) ltac:(lia) ltac:(lia)).
  assert (H2 : 0 < 2 ^ long_bits) by (apply Z.pow_pos_nonneg; lia).
  rewrite clip_id, uwrap_id by (unfold in_s, in_u; lia). rewrite (proj2 (Z.leb_gt _ 0)) by lia.
  change (number_end (dots ++ [null])) with 0. by eexists.
Qed.

(** A member that is not there: the object stays as it is. *)
Lemma unknown_member long_bits fs vs name p value :
  clean long_bits (SMember name) -> name ∉ names fs -> length vs = length (names fs) ->
  SetArchive.Set_ long_bits fs vs (key_of (SMember name :: p)) value = Done (false, vs).
Proof.
  intros Hc Hn Hl. unfold SetArchive.Set_.
  assert (E : ItemArchive.Accept long_bits (text_of " " ++ value ++ [null]) (SetArchive.scalar value) fs vs
    (key_of (SMember name :: p)) tt = Done (vs, tt, false)); [|by rewrite E].
  revert vs Hl. induction fs as [|n t initial rest IH]; intros [|v vs] Hl; try done.
  cbn [names] in Hn. apply not_elem_of_cons in Hn as [Hne Hn]. rewrite item_Accept_cons, (split_key long_bits) by done.
  cbn [step_text]. rewrite bool_decide_false by done. rewrite IH by (done || by injection Hl). done.
Qed.
End properties.

(** ** An example *)
#[local] Instance no_floats : FloatText := {|
  strtof _ _ := 0; format_float _ _ := text_of "0.000000"; float_of_integer _ z := z |}.

Definition motor_fields : fields :=
  FCons (text_of "gains") (TArray 2 (TInt 2)) (VList [VInt 1; VInt 2])
  (FCons (text_of "limit") (TOptional (TUInt 1)) VNone
  (FCons (text_of "pos") (TObject (FCons (text_of "min") (TInt 4) (VInt (-5)) FNil)) (VObject [VInt (-5)]) FNil)).
Definition motor_values : list value := default_fields motor_fields.

Lemma set_reads_back_witness :
  key_of [SMember (text_of "gains"); SIndex 1] = text_of "gains.1" /\
  exists vs', SetArchive.Set_ 32 motor_fields motor_values (text_of "gains.1") (text_of "-300") = Done (true, vs') /\
    exists buffer', ReadArchive.Read 32 motor_fields vs' (text_of "gains.1") (replicate 20 null) =
      Done (true, buffer', text_of "-300").
Proof.
  split; [by vm_compute|].
  refine (match set_reads_back 32 motor_fields motor_values [SMember (text_of "gains"); SIndex 1] (TInt 2) (VInt 2)
    (fun y => VObject [VList [VInt 1; y]; VNone; VObject [VInt (-5)]]) (text_of "-300") (VInt (-300)) _ _ _ _ with
    | ex_intro _ vs' (conj Es (conj _ (conj _ (conj Hr _)))) => ex_intro _ vs' (conj Es _) end).
  - done.
  - repeat constructor.
  - by vm_compute.
  - by vm_compute.
  - by apply Hr; vm_compute.
Defined.

Import EnumerateArchive.

Lemma enumerate_lists_all_witness :
  let ls := map (fun s => text_of s ++ crlf_) ["tel.gains.0 1"; "tel.gains.1 2"; "tel.limit "; "tel.pos.min -5"]%string in
  exists r, Enumerate motor_fields motor_values (text_of "tel") (replicate 20 null) = Done r /\
    drive 4 r = Done (ls, Callback 0).
Proof.
  intros ls. refine (proj1 (enumerate_lists_all motor_fields motor_values (text_of "tel") (replicate 20 null) ls _ _ _ _)).
  - unfold ls. cbn [map]. repeat (constructor; [eexists; split; [by vm_compute|split; [by vm_compute|by vm_compute]]|]).
    constructor.
  - by vm_compute.
  - apply (bool_decide_unpack _). by vm_compute.
  - cbn. split_and!; try done. apply list.NoDup_singleton.
Defined.

Lemma missing_index_undefined_witness :
  SetArchive.Set_ 32 motor_fields motor_values (text_of "gains") (text_of "7") = Faulted Undefined.
Proof.
  refine (proj1 (missing_index_undefined 32 (text_of "gains") 2 (TInt 2) (VList [VInt 1; VInt 2]) _
    (VList [VInt 1; VInt 2]) [VNone; VObject [VInt (-5)]] (text_of "7") [] _)). by apply Tokenizer.word_bool.
Defined.
