(* ===== verification/Json5.v ===== *)
(** * base/json5_write_archive.h, json5_read_archive.h, escape_json_string.cc

    Objects of the universe [ctype] as JSON5 text.  [Json5WriteArchive] appends
    to a [std::ostream], which is the list of the characters put into it;
    [Json5ReadArchive] takes characters from a [std::istream], which is the list
    of those still to come.  [Error] throws: it is the exception [kJsonParse].
    The text of an error, and with it [line_] and [column_], is not modelled.
    Loops that take a character a round are by recursion on what is left; the
    others have as much fuel as there are characters, and a few more. *)
From stdpp Require Import strings.
From Stdlib Require Import Strings.Ascii.
From S2P Require Import Prelude Varuint Streams TimeConversions TelemetryFormat Archive Tokenizer CString.
#[local] Open Scope Z_scope.

(** The code of a character, as a numeral. *)
Notation "'chr' c" := (ltac:(let z := eval vm_compute in (Z.of_N (N_of_ascii c)) in exact z))
  (at level 9, c at level 9, only parsing).

(** What the archives call in other libraries: [fmt::format] with "{:.9g}" or
    "{:.17g}" of a finite number; [std::stod] and the conversion of its result
    to the type ([None]: it throws); boost's text of points in time and of
    durations.  The size of a floating-point type is 4 or 8. *)
Class Json5Externals `{BoostTime} := {
  fmt_float : nat -> Z -> list byte;
  stod : nat -> list byte -> option Z;
  time_to_simple_string : ptime -> list byte;
  time_from_string : list byte -> option ptime;
  duration_to_simple_string : duration -> list byte;
  duration_from_string : list byte -> option duration;
}.

(** ** Floating-point values by their bits *)
Definition mantissa_bits (size : nat) : Z := if bool_decide (size = 4%nat) then 23 else 52.
Definition infinity (size : nat) : Z := Z.shiftl (2 ^ (8 * Z.of_nat size - 1 - mantissa_bits size) - 1) (mantissa_bits size).
Definition minus_infinity (size : nat) : Z := 2 ^ (8 * Z.of_nat size - 1) + infinity size.
Definition quiet_NaN (size : nat) : Z := infinity size + 2 ^ (mantissa_bits size - 1).
Definition isfinite (size : nat) (bits : Z) : bool := bits mod 2 ^ (8 * Z.of_nat size - 1) <? infinity size.

(** ** base/escape_json_string.cc *)
Definition EscapeJsonChar (c : byte) : list byte :=
  let z := char_code c in
  if z =? chr "034"%char then map byte.of_Z [chr "\"%char; chr "034"%char]
  else if z =? chr "\"%char then map byte.of_Z [chr "\"%char; chr "\"%char]
  else if z =? 8 then map byte.of_Z [chr "\"%char; chr "b"%char]
  else if z =? 12 then map byte.of_Z [chr "\"%char; chr "f"%char]
  else if z =? 10 then map byte.of_Z [chr "\"%char; chr "n"%char]
  else if z =? 13 then map byte.of_Z [chr "\"%char; chr "r"%char]
  else if z =? 9 then map byte.of_Z [chr "\"%char; chr "t"%char]
  else if z =? 0 then text_of "\u0000"
  else [c].

Definition EscapeJsonString (s : list byte) : list byte := concat (map EscapeJsonChar s).

(** A string literal holds no quote: the quoted text. *)
Definition quote : byte := byte.of_Z (chr "034"%char).
Definition quoted (s : list byte) : list byte := quote :: s ++ [quote].
Definition newline : list byte := [byte.of_Z 10].
Definition spaces (n : Z) : list byte := replicate (Z.to_nat n) (byte.of_Z (chr " "%char)).

(** ** class Json5WriteArchive *)
Module Json5WriteArchive.
Section Archive.
Context `{Json5Externals}.

Record Options := { indent : Z; standard : bool }.
Definition default_options : Options := {| indent := 0; standard := false |}.
Definition set_indent (o : Options) (n : Z) : Options := {| indent := n; standard := standard o |}.

(** [std::string(n, ' ')], which throws when [n] is negative. *)
Definition Indent (o : Options) (extra : Z) : outcome (list byte) :=
  let n := indent o + extra + 2 in
  if n <? 0 then Faulted (Exception kLengthError) else Done (spaces n).

Definition FormatFloat (o : Options) (size : nat) (bits : Z) : list byte :=
  if bits =? infinity size then text_of (if standard o then "null" else "Infinity")
  else if bits =? minus_infinity size then text_of (if standard o then "null" else "-Infinity")
  else if negb (isfinite size bits) then text_of (if standard o then "null" else "NaN")
  else fmt_float size bits.

(** [std::map::at], which throws. *)
Fixpoint enumeration_at (items : list (Z * list byte)) (z : Z) : outcome (list byte) :=
  match items with
  | [] => Faulted (Exception kOutOfRange)
  | (z', name) :: items => if z =? z' then Done name else enumeration_at items z
  end.

Section array.
Context {A : Type} (Value : A -> list byte -> outcome (list byte)).

Fixpoint WriteItems (o : Options) (items : list A) (first : bool) (stream : list byte) : outcome (list byte) :=
  match items with
  | [] => Done stream
  | item :: items =>
      let stream := if first then stream else stream ++ text_of "," ++ newline in
      blank ← Indent o 2;
      stream ← Value item (stream ++ blank);
      WriteItems o items false stream
  end.

Definition WriteArray (o : Options) (items : list A) (stream : list byte) : outcome (list byte) :=
  stream ← WriteItems o items true (stream ++ text_of "[" ++ newline);
  blank ← Indent o 0;
  Done (stream ++ newline ++ blank ++ text_of "]").
End array.

(** What [Accept] puts around the members. *)
Definition Braces (o : Options) (serialize : list byte -> outcome (list byte)) (stream : list byte)
    : outcome (list byte) :=
  stream ← serialize (stream ++ text_of "{" ++ newline);
  blank ← Indent o (-2);
  Done (stream ++ newline ++ blank ++ text_of "}").

(** [Value]: the dispatch of base/visit_archive.h on the type, with
    no name in front.  A class is written by a sub-archive of its own. *)
Fixpoint Value (t : ctype) (o : Options) (v : value) (stream : list byte) {struct t} : outcome (list byte) :=
  match t, v with
  | TBool, VBool b => Done (stream ++ text_of (if b then "true" else "false"))
  | TInt _, VInt z | TUInt _, VInt z => Done (stream ++ decimal z)
  | TFloat n, VFloat bits => Done (stream ++ FormatFloat o n bits)
  | TBytes, VBytes b =>
      WriteArray (fun c stream => Done (stream ++ decimal (char_code c))) o b stream
  | TString, VBytes b => Done (stream ++ quoted (EscapeJsonString b))
  | TTimestamp, VTime p => Done (stream ++ quoted (time_to_simple_string p))
  | TDuration, VDuration d => Done (stream ++ quoted (duration_to_simple_string d))
  | TEnum _ _ items, VInt z => name ← enumeration_at items z; Done (stream ++ quoted name)
  | TVector t, VList vs | TArray _ t, VList vs => WriteArray (Value t o) o vs stream
  | TOptional _, VNone => Done (stream ++ text_of "null")
  | TOptional t, VSome v => Value t o v stream
  | TObject fs, VObject vs =>
      let sub := set_indent o (indent o + 2) in
      Braces sub (Members fs sub vs true) stream
  | _, _ => Faulted Undefined
  end
(** [Serialize] of the class: [Visit] of every member, with [first_]. *)
with Members (fs : fields) (o : Options) (vs : list value) (first_ : bool) (stream : list byte) {struct fs}
    : outcome (list byte) :=
  match fs, vs with
  | FNil, [] => Done stream
  | FCons name t _ rest, v :: vs =>
      let stream := if first_ then stream else stream ++ text_of "," ++ newline in
      blank ← Indent o 0;
      stream ← Value t o v (stream ++ blank ++ quoted name ++ text_of " : ");
      Members rest o vs false stream
  | _, _ => Faulted Undefined
  end.

(** [Accept] of an object by an archive with these options. *)
Definition Accept (fs : fields) (o : Options) (vs : list value) (stream : list byte) : outcome (list byte) :=
  Braces o (Members fs o vs true) stream.

Definition Write (t : ctype) (o : Options) (v : value) : outcome (list byte) := Value t o v [].
End Archive.
End Json5WriteArchive.

(** ** class Json5ReadArchive *)
Definition kJsonParse : Z := 3.
Definition kBadTime : Z := 5.

Section scanner.

(** [Error], [Get] and [Peek]; at the end [Peek] is -1 and [Get] an error. *)
Definition Error {A} : outcome A := Faulted (Exception kJsonParse).

Definition Get (s : list byte) : outcome (Z * list byte) :=
  match s with
  | [] => Error
  | c :: s => Done (char_code c, s)
  end.

Definition Peek (s : list byte) : Z :=
  match s with
  | [] => -1
  | c :: _ => char_code c
  end.

Definition isdigit (c : Z) : bool := (chr "0"%char <=? c) && (c <=? chr "9"%char).
Definition isalpha (c : Z) : bool :=
  ((chr "a"%char <=? c) && (c <=? chr "z"%char)) || ((chr "A"%char <=? c) && (c <=? chr "Z"%char)).
Definition IsIdentifierFirstCharacter (c : Z) : bool :=
  isalpha c || ((c =? chr "$"%char) || (c =? chr "_"%char)).
Definition IsIdentifierCharacter (c : Z) : bool := IsIdentifierFirstCharacter c || isdigit c.
Definition IsWhitespace (c : Z) : bool :=
  (c =? 0x09) || (c =? 0x0a) || (c =? 0x0b) || (c =? 0x0c) || (c =? 0x0d) || (c =? 0x20) || (c =? 0xa0).

(** [strchr] finds the terminating null of [possible], too. *)
Fixpoint ReadUntilOneOf (possible : list Z) (s : list byte) : outcome (list byte) :=
  match s with
  | [] => Error
  | c :: s => if bool_decide (char_code c ∈ possible ++ [0]) then Done s else ReadUntilOneOf possible s
  end.

(** [current] is what of the terminus is still to come. *)
Fixpoint ReadUntil (terminus current : list Z) (s : list byte) : outcome (list byte) :=
  match s with
  | [] => Error
  | c :: s =>
      match current with
      | x :: current =>
          if char_code c =? x then
            match current with [] => Done s | _ => ReadUntil terminus current s end
          else ReadUntil terminus terminus s
      | [] => Faulted Undefined
      end
  end.

Fixpoint IgnoreWhitespace_loop (fuel : nat) (s : list byte) : outcome (list byte) :=
  match fuel with
  | O => Faulted OutOfFuel
  | S fuel =>
      let c := Peek s in
      if IsWhitespace c then '(_, s) ← Get s; IgnoreWhitespace_loop fuel s
      else if c =? chr "/"%char then
        '(_, s) ← Get s;
        '(next, s) ← Get s;
        if next =? chr "/"%char then s ← ReadUntilOneOf [0x0a; 0x0d] s; IgnoreWhitespace_loop fuel s
        else if next =? chr "*"%char then
          let terminus := [chr "*"%char; chr "/"%char] in
          s ← ReadUntil terminus terminus s; IgnoreWhitespace_loop fuel s
        else Error
      else Done s
  end.

Definition IgnoreWhitespace (s : list byte) : outcome (list byte) :=
  IgnoreWhitespace_loop (S (length s)) s.

Fixpoint ReadCharacters (literal s : list byte) : outcome (list byte) :=
  match literal with
  | [] => Done s
  | x :: literal =>
      '(c, s) ← Get s;
      if c =? char_code x then ReadCharacters literal s else Error
  end.

Definition ReadLiteral (literal s : list byte) : outcome (list byte) :=
  s ← IgnoreWhitespace s; ReadCharacters literal s.

(** [while (p(Peek())) { ostr.put(Get()); }], for a [p] that is false of -1. *)
Fixpoint take_while (p : Z -> bool) (s : list byte) : list byte * list byte :=
  match s with
  | c :: s' => if p (char_code c) then let '(ostr, s) := take_while p s' in (c :: ostr, s) else ([], s)
  | [] => ([], [])
  end.

(** *** Strings and names *)
Definition Read_EscapeSequence (s : list byte) : outcome (list byte * list byte) :=
  '(first, s) ← Get s;
  if first =? chr "\"%char then Done ([byte.of_Z first], s)
  else if first =? chr "'"%char then Done ([byte.of_Z first], s)
  else if first =? chr "034"%char then Done ([byte.of_Z first], s)
  else if first =? chr "b"%char then Done ([byte.of_Z 8], s)
  else if first =? chr "f"%char then Done ([byte.of_Z 12], s)
  else if first =? chr "n"%char then Done ([byte.of_Z 10], s)
  else if first =? chr "r"%char then Done ([byte.of_Z 13], s)
  else if first =? chr "t"%char then Done ([byte.of_Z 9], s)
  else if first =? chr "v"%char then Done ([byte.of_Z 11], s)
  else if first =? chr "x"%char then
    '(char1, s) ← Get s;
    '(char2, s) ← Get s;
    '(z, _) ← stol 64 16 (map byte.of_Z [char1; char2]);
    Done ([byte.of_Z z], s)
  else Error.

(** The characters up to [terminator], which [first] was. *)
Fixpoint Read_JSON5TerminatedString (fuel : nat) (terminator : Z) (s ostr : list byte)
    : outcome (list byte * list byte) :=
  match fuel with
  | O => Faulted OutOfFuel
  | S fuel =>
      '(c, s) ← Get s;
      if c =? terminator then Done (ostr, s)
      else if c =? chr "\"%char then
        '(escape, s) ← Read_EscapeSequence s;
        Read_JSON5TerminatedString fuel terminator s (ostr ++ escape)
      else if 0x80 <=? c then Faulted Assertion
      else Read_JSON5TerminatedString fuel terminator s (ostr ++ [byte.of_Z c])
  end.

Definition Read_JSON5String (s : list byte) : outcome (list byte * list byte) :=
  '(first, s) ← Get s;
  if (first =? chr "034"%char) || (first =? chr "'"%char)
  then Read_JSON5TerminatedString (S (length s)) first s []
  else Error.

Definition Read_JSON5Identifier (s : list byte) : outcome (list byte * list byte) :=
  '(first, s) ← Get s;
  if negb (IsIdentifierFirstCharacter first) then Error
  else let '(ostr, s) := take_while IsIdentifierCharacter s in Done (byte.of_Z first :: ostr, s).

Definition Read_JSON5MemberName (s : list byte) : outcome (list byte * list byte) :=
  s ← IgnoreWhitespace s;
  if Peek s =? chr "034"%char then Read_JSON5String s else Read_JSON5Identifier s.

(** *** Numbers *)
Record Number := { text : list byte; base : Z }.

Definition Read_DecimalDigits (s : list byte) : list byte * list byte := take_while isdigit s.

Definition Read_SignedInteger (s : list byte) : outcome (list byte * list byte) :=
  if (Peek s =? chr "+"%char) || (Peek s =? chr "-"%char) then
    '(first, s) ← Get s;
    let '(digits, s) := Read_DecimalDigits s in
    Done (byte.of_Z first :: digits, s)
  else Done (Read_DecimalDigits s).

Definition Read_ExponentPart (s : list byte) : outcome (list byte * list byte) :=
  if negb (Peek s =? chr "e"%char) && negb (Peek s =? chr "E"%char) then Done ([], s)
  else
    '(first, s) ← Get s;
    '(digits, s) ← Read_SignedInteger s;
    Done (byte.of_Z first :: digits, s).

Definition Read_DecimalIntegerLiteral (initial_zero : bool) (s : list byte) : list byte * list byte :=
  if initial_zero then (text_of "0", s) else Read_DecimalDigits s.

Definition Read_DecimalLiteral (initial_zero : bool) (s : list byte) : outcome (list byte * list byte) :=
  let first := if initial_zero then chr "0"%char else Peek s in
  let '(ostr, s) := if negb (first =? chr "."%char) then Read_DecimalIntegerLiteral initial_zero s else ([], s) in
  let next := Peek s in
  if next =? chr "."%char then
    '(dot, s) ← Get s;
    let '(digits, s) := Read_DecimalDigits s in
    '(exponent, s) ← Read_ExponentPart s;
    Done (ostr ++ byte.of_Z dot :: digits ++ exponent, s)
  else if (next =? chr "e"%char) || (next =? chr "E"%char) then
    '(exponent, s) ← Read_ExponentPart s;
    Done (ostr ++ exponent, s)
  else Done (ostr, s).

(** A [std::ostringstream] made with a text is written over from its start. *)
Definition over (initial written : list byte) : list byte := written ++ drop (length written) initial.

Definition Read_BinaryIntegerLiteral (s : list byte) : list byte * list byte :=
  let '(digits, s) := take_while (fun c => (c =? chr "0"%char) || (c =? chr "1"%char)) s in
  (over (text_of "0b") digits, s).
Definition Read_OctalIntegerLiteral (s : list byte) : list byte * list byte :=
  let '(digits, s) := take_while (fun c => (chr "0"%char <=? c) && (c <=? chr "7"%char)) s in
  (over (text_of "0o") digits, s).
Definition Read_HexIntegerLiteral (s : list byte) : list byte * list byte :=
  let '(digits, s) := take_while (fun c =>
    ((chr "0"%char <=? c) && (c <=? chr "9"%char)) || ((chr "a"%char <=? c) && (c <=? chr "f"%char)) ||
    ((chr "A"%char <=? c) && (c <=? chr "F"%char))) s in
  (over (text_of "0x") digits, s).

Definition number (base : Z) (read : list byte * list byte) : Number * list byte :=
  ({| text := fst read; base := base |}, snd read).

Definition Read_NumericLiteral (permissive_nan : bool) (s : list byte) : outcome (Number * list byte) :=
  let first := Peek s in
  if first =? chr "I"%char then
    s ← ReadLiteral (text_of "Infinity") s; Done (number 0 (text_of "Infinity", s))
  else if first =? chr "N"%char then
    s ← ReadLiteral (text_of "NaN") s; Done (number 0 (text_of "NaN", s))
  else if permissive_nan && (first =? chr "n"%char) then
    s ← ReadLiteral (text_of "null") s; Done (number 0 (text_of "NaN", s))
  else if negb (first =? chr "0"%char) then number 0 <$> Read_DecimalLiteral false s
  else
    '(_, s) ← Get s;
    let next := Peek s in
    if (next =? chr "b"%char) || (next =? chr "B"%char) then
      '(_, s) ← Get s; Done (number 2 (Read_BinaryIntegerLiteral s))
    else if (next =? chr "o"%char) || (next =? chr "O"%char) then
      '(_, s) ← Get s; Done (number 8 (Read_OctalIntegerLiteral s))
    else if (next =? chr "x"%char) || (next =? chr "X"%char) then
      '(_, s) ← Get s; Done (number 16 (Read_HexIntegerLiteral s))
    else number 0 <$> Read_DecimalLiteral true s.

Definition Read_JSON5Number (permissive_nan : bool) (s : list byte) : outcome (Number * list byte) :=
  if (Peek s =? chr "+"%char) || (Peek s =? chr "-"%char) then
    '(prefix, s) ← Get s;
    '(result, s) ← Read_NumericLiteral permissive_nan s;
    Done ({| text := byte.of_Z prefix :: text result; base := base result |}, s)
  else Read_NumericLiteral permissive_nan s.

(** The exceptions of [stoll] become errors, those of [stoull] do not. *)
Definition Read_JSON5SignedInteger (permissive_nan : bool) (s : list byte) : outcome (Z * list byte) :=
  '(number, s) ← Read_JSON5Number permissive_nan s;
  match stol 64 (base number) (text number) with
  | Done (result, pos) => if negb (pos =? zlen (text number)) then Error else Done (result, s)
  | Faulted _ => Error
  end.

Definition Read_JSON5UnsignedInteger (permissive_nan : bool) (s : list byte) : outcome (Z * list byte) :=
  '(number, s) ← Read_JSON5Number permissive_nan s;
  '(result, pos) ← stoull (base number) (text number);
  if negb (pos =? zlen (text number)) then Error else Done (result, s).

Definition CheckLimit (low high in_ : Z) : outcome Z :=
  if (in_ <? low) || (high <? in_) then Error else Done in_.

(** *** A value of a member that no class asks for *)
Fixpoint Ignore_JSON5Value (permissive_nan : bool) (fuel : nat) (s : list byte) {struct fuel} : outcome (list byte) :=
  match fuel with
  | O => Faulted OutOfFuel
  | S fuel =>
      let next := Peek s in
      if next =? chr "034"%char then '(_, s) ← Read_JSON5String s; Done s
      else if next =? chr "["%char then
        s ← ReadLiteral (text_of "[") s; Ignore_JSON5Array permissive_nan fuel s
      else if next =? chr "{"%char then
        s ← ReadLiteral (text_of "{") s; Ignore_JSON5Object permissive_nan fuel s
      else if next =? chr "t"%char then ReadLiteral (text_of "true") s
      else if next =? chr "f"%char then ReadLiteral (text_of "false") s
      else if next =? chr "n"%char then ReadLiteral (text_of "null") s
      else '(_, s) ← Read_JSON5Number permissive_nan s; Done s
  end
(** The loops behind the bracket and behind the brace. *)
with Ignore_JSON5Array (permissive_nan : bool) (fuel : nat) (s : list byte) {struct fuel} : outcome (list byte) :=
  match fuel with
  | O => Faulted OutOfFuel
  | S fuel =>
      s ← IgnoreWhitespace s;
      if Peek s =? chr "]"%char then '(_, s) ← Get s; Done s
      else
        s ← Ignore_JSON5Value permissive_nan fuel s;
        s ← IgnoreWhitespace s;
        if Peek s =? chr ","%char then '(_, s) ← Get s; Ignore_JSON5Array permissive_nan fuel s
        else if Peek s =? chr "]"%char then '(_, s) ← Get s; Done s
        else Error
  end
with Ignore_JSON5Object (permissive_nan : bool) (fuel : nat) (s : list byte) {struct fuel} : outcome (list byte) :=
  match fuel with
  | O => Faulted OutOfFuel
  | S fuel =>
      s ← IgnoreWhitespace s;
      if Peek s =? chr "}"%char then '(_, s) ← Get s; Done s
      else
        '(_, s) ← Read_JSON5MemberName s;
        s ← IgnoreWhitespace s;
        s ← ReadLiteral (text_of ":") s;
        s ← IgnoreWhitespace s;
        s ← Ignore_JSON5Value permissive_nan fuel s;
        s ← IgnoreWhitespace s;
        if Peek s =? chr ","%char then '(_, s) ← Get s; Ignore_JSON5Object permissive_nan fuel s
        else if Peek s =? chr "}"%char then '(_, s) ← Get s; Done s
        else Error
  end.

Definition Ignore (permissive_nan : bool) (s : list byte) : outcome (list byte) :=
  Ignore_JSON5Value permissive_nan (2 * length s + 2) s.
End scanner.

Module Json5ReadArchive.
Section Archive.
Context `{Json5Externals} (permissive_nan : bool).

(** [ToFloat]: the base of the number is not looked at. *)
Definition ToFloat (size : nat) (str : list byte) : outcome Z :=
  if bool_decide (str = text_of "Infinity") || bool_decide (str = text_of "+Infinity") then Done (infinity size)
  else if bool_decide (str = text_of "-Infinity") then Done (minus_infinity size)
  else if bool_decide (str = text_of "NaN") then Done (quiet_NaN size)
  else match stod size str with Some bits => Done bits | None => Error end.

Definition read_float (size : nat) (s : list byte) : outcome (Z * list byte) :=
  '(number, s) ← Read_JSON5Number permissive_nan s;
  bits ← ToFloat size (text number);
  Done (bits, s).

Definition read_signed (size : nat) (s : list byte) : outcome (Z * list byte) :=
  '(z, s) ← Read_JSON5SignedInteger permissive_nan s;
  let half := 2 ^ (8 * Z.of_nat size - 1) in
  z ← CheckLimit (- half) (half - 1) z;
  Done (z, s).

Definition read_unsigned (size : nat) (s : list byte) : outcome (Z * list byte) :=
  '(z, s) ← Read_JSON5UnsignedInteger permissive_nan s;
  z ← CheckLimit 0 (2 ^ (8 * Z.of_nat size) - 1) z;
  Done (z, s).

Definition read_bool (s : list byte) : outcome (bool * list byte) :=
  let next := Peek s in
  if next =? chr "t"%char then s ← ReadLiteral (text_of "true") s; Done (true, s)
  else if next =? chr "f"%char then s ← ReadLiteral (text_of "false") s; Done (false, s)
  else Error.

Fixpoint enumeration_named (items : list (Z * list byte)) (name : list byte) : outcome Z :=
  match items with
  | [] => Error
  | (z, name') :: items => if bool_decide (name' = name) then Done z else enumeration_named items name
  end.

(** [time_from_string] and [duration_from_string] throw boost's exceptions. *)
Definition from_string {A} (parse : list byte -> option A) (s : list byte) : outcome (A * list byte) :=
  '(text, s) ← Read_JSON5String s;
  match parse text with Some a => Done (a, s) | None => Faulted (Exception kBadTime) end.

(** [ReadArray]: [callback] makes sure that there is an element [pos]. *)
Section array.
Context {A : Type} (Value : A -> list byte -> outcome (A * list byte)).
Context (callback : nat -> list A -> outcome (list A)).

Fixpoint ReadItems (fuel : nat) (pos : nat) (value : list A) (s : list byte)
    : outcome (nat * list A * list byte) :=
  match fuel with
  | O => Faulted OutOfFuel
  | S fuel =>
      s ← IgnoreWhitespace s;
      if Peek s =? chr "]"%char then '(_, s) ← Get s; Done (pos, value, s)
      else
        value ← callback pos value;
        match value !! pos with
        | None => Faulted Undefined
        | Some item =>
            '(item, s) ← Value item s;
            let value := <[pos := item]> value in
            s ← IgnoreWhitespace s;
            '(_, s) ← (if Peek s =? chr ","%char then Get s else Done (0, s));
            s ← IgnoreWhitespace s;
            if Peek s =? chr "]"%char then '(_, s) ← Get s; Done (S pos, value, s)
            else ReadItems fuel (S pos) value s
        end
  end.

Definition ReadArray (value : list A) (s : list byte) : outcome (nat * list A * list byte) :=
  s ← ReadLiteral (text_of "[") s;
  ReadItems (S (length s)) 0 value s.
End array.

(** The callback of a [std::vector], which it extends, and of a [std::array].
    For the element behind the last of an array no more than a reference is
    formed before the error. *)
Definition vector_slot {A} (item : A) (pos : nat) (value : list A) : outcome (list A) :=
  Done (if bool_decide (length value <= pos)%nat then value ++ [item] else value).
Definition array_slot {A} (N : Z) (pos : nat) (value : list A) : outcome (list A) :=
  if N <? Z.of_nat (S pos) then Error else Done value.

Definition read_vector {A} (Value : A -> list byte -> outcome (A * list byte)) (item : A) (value : list A)
    (s : list byte) : outcome (list A * list byte) :=
  '(_, value, s) ← ReadArray Value (vector_slot item) value s;
  Done (value, s).
Definition read_array {A} (Value : A -> list byte -> outcome (A * list byte)) (N : Z) (value : list A)
    (s : list byte) : outcome (list A * list byte) :=
  '(pos, value, s) ← ReadArray Value (array_slot N) value s;
  if Z.of_nat pos <? N then Error else Done (value, s).

Definition read_octet (_ : byte) (s : list byte) : outcome (byte * list byte) :=
  '(z, s) ← read_unsigned 1 s; Done (byte.of_Z z, s).

(** *** Members *)
Record Cursor := { done_ : bool; current_field_name_ : list byte; any_found_ : bool }.
Definition at_end (m : Cursor) : Cursor :=
  {| done_ := true; current_field_name_ := current_field_name_ m; any_found_ := any_found_ m |}.
Definition at_member (m : Cursor) (name : list byte) : Cursor :=
  {| done_ := done_ m; current_field_name_ := name; any_found_ := any_found_ m |}.
Definition set_any_found (m : Cursor) (b : bool) : Cursor :=
  {| done_ := done_ m; current_field_name_ := current_field_name_ m; any_found_ := b |}.

Definition Prepare_JSON5Member (m : Cursor) (s : list byte) : outcome (Cursor * list byte) :=
  s ← IgnoreWhitespace s;
  if Peek s =? chr "}"%char then s ← ReadLiteral (text_of "}") s; Done (at_end m, s)
  else
    '(name, s) ← Read_JSON5MemberName s;
    s ← ReadLiteral (text_of ":") s;
    s ← IgnoreWhitespace s;
    Done (at_member m name, s).

(** What follows the value of a member. *)
Definition NextMember (m : Cursor) (s : list byte) : outcome (Cursor * list byte) :=
  s ← IgnoreWhitespace s;
  if negb (Peek s =? chr ","%char) then s ← ReadLiteral (text_of "}") s; Done (at_end m, s)
  else '(_, s) ← Get s; Prepare_JSON5Member m s.

(** [Accept] of an object of which [serialize] visits the members. *)
Section object.
Context (serialize : list value -> Cursor -> list byte -> outcome (list value * Cursor * list byte)).

Fixpoint AcceptMembers (fuel : nat) (members : list value) (m : Cursor) (s : list byte)
    : outcome (list value * list byte) :=
  match fuel with
  | O => Faulted OutOfFuel
  | S fuel =>
      if done_ m then Done (members, s)
      else
        '(members, m, s) ← serialize members (set_any_found m false) s;
        '(m, s) ← (if any_found_ m then Done (m, s) else s ← Ignore permissive_nan s; NextMember m s);
        AcceptMembers fuel members m s
  end.

Definition AcceptObject (members : list value) (s : list byte) : outcome (list value * list byte) :=
  s ← ReadLiteral (text_of "{") s;
  '(m, s) ← Prepare_JSON5Member {| done_ := false; current_field_name_ := []; any_found_ := false |} s;
  AcceptMembers (S (length s)) members m s.
End object.

(** [Value] of an object of type [t] that holds [old]: the dispatch of
    base/visit_archive.h, and what it leaves in the object. *)
Fixpoint Value (t : ctype) (old : value) (s : list byte) {struct t} : outcome (value * list byte) :=
  match t with
  | TBool => '(b, s) ← read_bool s; Done (VBool b, s)
  | TInt n => '(z, s) ← read_signed n s; Done (VInt z, s)
  | TUInt n => '(z, s) ← read_unsigned n s; Done (VInt z, s)
  | TFloat n => '(bits, s) ← read_float n s; Done (VFloat bits, s)
  | TBytes => '(b, s) ← read_vector read_octet (byte.of_Z 0) (bytes_of old) s; Done (VBytes b, s)
  | TString => '(text, s) ← Read_JSON5String s; Done (VBytes text, s)
  | TTimestamp => '(p, s) ← from_string time_from_string s; Done (VTime p, s)
  | TDuration => '(d, s) ← from_string duration_from_string s; Done (VDuration d, s)
  | TEnum _ _ items => '(text, s) ← Read_JSON5String s; z ← enumeration_named items text; Done (VInt z, s)
  | TVector t => '(vs, s) ← read_vector (Value t) (default t) (items_of old) s; Done (VList vs, s)
  | TArray n t => '(vs, s) ← read_array (Value t) n (items_of old) s; Done (VList vs, s)
  | TOptional t =>
      if Peek s =? chr "n"%char then s ← ReadLiteral (text_of "null") s; Done (VNone, s)
      else
        '(v, s) ← Value t (match old with VSome v => v | _ => default t end) s;
        Done (VSome v, s)
  | TObject fs => '(members, s) ← AcceptObject (Members fs) (members_of old) s; Done (VObject members, s)
  end
(** [Serialize] of the class: [Visit] of every member. *)
with Members (fs : fields) (olds : list value) (m : Cursor) (s : list byte) {struct fs}
    : outcome (list value * Cursor * list byte) :=
  match fs, olds with
  | FCons name t _ rest, old :: olds =>
      '(old, m, s) ← (if done_ m || negb (bool_decide (name = current_field_name_ m)) then Done (old, m, s)
                      else
                        '(v, s) ← Value t old s;
                        '(m, s) ← NextMember (set_any_found m true) s;
                        Done (v, m, s));
      '(olds, m, s) ← Members rest olds m s;
      Done (old :: olds, m, s)
  | _, _ => Done ([], m, s)
  end.

(** [Accept] and [Read]. *)
Definition Accept (fs : fields) (members : list value) (s : list byte) : outcome (list value * list byte) :=
  AcceptObject (Members fs) members s.
Definition Read (t : ctype) (s : list byte) : outcome value := fst <$> Value t (default t) s.
End Archive.
End Json5ReadArchive.
