(* ===== verification/Json5Theory.v ===== *)
(** * JSON5: what is written is read back

    [json] is the text of an object, [legible] tells the objects that text
    carries.  Reading the text of an object of one class into an object of
    another merges the members they share and skips the others; any text at all
    is read to an end, and leaves an object of its class. *)
From stdpp Require Import strings.
From Stdlib Require Import Strings.Ascii.
From S2P Require Import Prelude Varuint Streams TimeConversions TelemetryFormat Archive ArchiveTheory ArchiveTyping Tokenizer CString Json5.
#[local] Open Scope Z_scope.

(** ** The scanner on text of a known form *)
(** Whitespace, and text that begins with neither whitespace nor a comment. *)
Definition white (w : list byte) : Prop := Forall (fun c => IsWhitespace (char_code c) = true) w.
Definition starts (s : list byte) : Prop := IsWhitespace (Peek s) = false /\ Peek s <> 47.

Lemma white_nil : white [].
Proof. constructor. Qed.

Lemma IgnoreWhitespace_enough w tail : white w -> starts tail ->
  forall fuel, (length w < fuel)%nat -> IgnoreWhitespace_loop fuel (w ++ tail) = Done tail.
Proof.
  intros Hw [Hs Hc]. induction Hw as [|c w Hw _ IH]; intros [|fuel] Hf; cbn [length] in Hf; try lia.
  - cbn [app IgnoreWhitespace_loop]. rewrite Hs. by destruct (Z.eqb_spec (Peek tail) 47).
  - cbn [app IgnoreWhitespace_loop Peek]. rewrite Hw. cbn [Get]. rewrite bind_done. apply IH. lia.
Qed.

Lemma IgnoreWhitespace_white w tail : white w -> starts tail -> IgnoreWhitespace (w ++ tail) = Done tail.
Proof. intros Hw Ht. apply IgnoreWhitespace_enough; [done..|]. rewrite length_app. lia. Qed.

Lemma IgnoreWhitespace_none tail : starts tail -> IgnoreWhitespace tail = Done tail.
Proof. apply (IgnoreWhitespace_white []), white_nil. Qed.

Lemma ReadCharacters_app literal tail : ReadCharacters literal (literal ++ tail) = Done tail.
Proof.
  induction literal as [|c literal IH]; [done|]. cbn [app ReadCharacters Get]. rewrite bind_done.
  by rewrite Z.eqb_refl.
Qed.

Lemma ReadLiteral_white w literal tail :
  white w -> starts (literal ++ tail) -> ReadLiteral literal (w ++ literal ++ tail) = Done tail.
Proof.
  intros Hw Hs. unfold ReadLiteral. rewrite IgnoreWhitespace_white by done. rewrite bind_done.
  apply ReadCharacters_app.
Qed.

Lemma ReadLiteral_here literal tail : starts (literal ++ tail) -> ReadLiteral literal (literal ++ tail) = Done tail.
Proof. apply (ReadLiteral_white []), white_nil. Qed.

Lemma white_spaces n : white (spaces n).
Proof. apply Forall_replicate. done. Qed.

Lemma white_line n : white (newline ++ spaces n).
Proof. constructor; [done|apply white_spaces]. Qed.

Lemma take_while_app p w tail :
  Forall (fun c => p (char_code c) = true) w -> p (Peek tail) = false -> take_while p (w ++ tail) = (w, tail).
Proof.
  intros Hw Ht. induction Hw as [|c w Hc _ IH].
  - destruct tail as [|c tail]; [done|]. cbn [app take_while Peek] in *. by rewrite Ht.
  - cbn [app take_while]. by rewrite Hc, IH.
Qed.

(** ** Strings *)

(** A character that stands for itself between quotes, and one that can be
    escaped. *)
Definition plain_char (c : byte) : bool :=
  (char_code c <? 128) && negb (char_code c =? 34) && negb (char_code c =? 92).
Definition ascii (c : byte) : bool := (0 <? char_code c) && (char_code c <? 128).

Definition reads_char (u : list byte) (c : byte) : Prop := forall fuel s ostr,
  Read_JSON5TerminatedString (S fuel) 34 (u ++ s) ostr = Read_JSON5TerminatedString fuel 34 s (ostr ++ [c]).

Lemma byte_of_code c : byte.of_Z (char_code c) = c.
Proof. exact (byte.of_Z_unsigned c). Qed.

Lemma reads_itself c : plain_char c = true -> reads_char [c] c.
Proof.
  unfold plain_char. intros [[H1 H2]%andb_true_iff H3]%andb_true_iff fuel s ostr.
  cbn [app Read_JSON5TerminatedString Get]. rewrite bind_done.
  rewrite (proj1 (negb_true_iff _) H2), (proj1 (negb_true_iff _) H3).
  rewrite (proj2 (Z.leb_gt _ _)) by lia. by rewrite byte_of_code.
Qed.

Lemma reads_escaped c : ascii c = true -> reads_char (EscapeJsonChar c) c.
Proof.
  unfold ascii. intros [Hz Hc]%andb_true_iff. unfold EscapeJsonChar. cbv zeta.
  repeat (match goal with |- context [char_code c =? ?k] => destruct (Z.eqb_spec (char_code c) k) as [E|?] end;
    [try lia; intros ???; by rewrite <- (byte_of_code c), E|]).
  apply reads_itself. unfold plain_char. by rewrite Hc, !(proj2 (Z.eqb_neq _ _)) by done.
Qed.

Lemma reads_prefix (f : byte -> list byte) b rest : Forall (fun c => reads_char (f c) c) b -> forall fuel ostr,
  Read_JSON5TerminatedString (length b + fuel) 34 (concat (map f b) ++ rest) ostr =
  Read_JSON5TerminatedString fuel 34 rest (ostr ++ b).
Proof.
  induction 1 as [|c b Hc _ IH]; intros fuel ostr; [by rewrite app_nil_r|].
  cbn [map concat length Nat.add]. rewrite <- app_assoc, Hc, IH. by rewrite <- app_assoc.
Qed.

Lemma reads_json_text (f : byte -> list byte) b tail : Forall (fun c => reads_char (f c) c) b -> forall fuel ostr,
  (length b < fuel)%nat ->
  Read_JSON5TerminatedString fuel 34 (concat (map f b) ++ quote :: tail) ostr = Done (ostr ++ b, tail).
Proof.
  intros Hb fuel ostr Hf. replace fuel with (length b + S (fuel - length b - 1))%nat by lia.
  by rewrite reads_prefix.
Qed.

Lemma length_units (f : byte -> list byte) b : (forall c, f c <> []) -> (length b <= length (concat (map f b)))%nat.
Proof.
  intros Hf. induction b as [|c b IH]; [done|]. cbn [map concat length]. rewrite length_app.
  specialize (Hf c). destruct (f c); [done|]. cbn [length]. lia.
Qed.

Lemma reads_quoted (f : byte -> list byte) b tail :
  Forall (fun c => reads_char (f c) c) b -> (forall c, f c <> []) ->
  Read_JSON5String (quoted (concat (map f b)) ++ tail) = Done (b, tail).
Proof.
  intros Hb Hf. unfold quoted, Read_JSON5String. cbn [app Get]. rewrite bind_done, <- app_assoc. cbn [app].
  change (char_code quote) with 34. cbn [Z.eqb orb].
  apply (reads_json_text f b tail Hb _ []). rewrite length_app. pose proof (length_units f b Hf). cbn [length]. lia.
Qed.

Lemma escape_nonempty c : EscapeJsonChar c <> [].
Proof. unfold EscapeJsonChar. cbv zeta. by repeat case_match. Qed.

Lemma Read_escaped b tail :
  forallb ascii b = true -> Read_JSON5String (quoted (EscapeJsonString b) ++ tail) = Done (b, tail).
Proof.
  intros Hb. apply reads_quoted; [|exact escape_nonempty]. rewrite forallb_forall in Hb.
  apply list.Forall_forall. intros c Hc. by apply reads_escaped, Hb, list_elem_of_In.
Qed.

Lemma concat_map_single {A} (l : list A) : concat (map (fun c => [c]) l) = l.
Proof. induction l as [|x l IH]; [done|]. cbn. by rewrite IH. Qed.

Lemma Read_plain b tail : forallb plain_char b = true -> Read_JSON5String (quoted b ++ tail) = Done (b, tail).
Proof.
  intros Hb. rewrite <- (concat_map_single b) at 1. apply reads_quoted; [|done].
  rewrite forallb_forall in Hb. apply list.Forall_forall. intros c Hc. by apply reads_itself, Hb, list_elem_of_In.
Qed.

(** ** Numbers *)

(** What may follow a number or a literal in text that was written. *)
Definition ends (tail : list byte) : Prop := Peek tail = -1 \/ Peek tail = 44 \/ Peek tail = 10.

Definition all_digits (l : list byte) : Prop := Forall (fun c => isdigit (char_code c) = true) l.

(** The whole part of a number: no zero in front. *)
Definition whole (l : list byte) : Prop :=
  l = text_of "0" \/ exists c r, l = c :: r /\ all_digits l /\ char_code c <> 48.
Definition fraction (l : list byte) : Prop := l = [] \/ exists r, l = text_of "." ++ r /\ all_digits r.
Definition exponent (l : list byte) : Prop :=
  l = [] \/ exists r sg, l = text_of "e" ++ sg ++ r /\ (sg = [] \/ sg = text_of "+" \/ sg = text_of "-") /\
    all_digits r.

(** What "{:d}" and "{:.9g}" print of a finite number. *)
Definition numeral (l : list byte) : Prop := exists sg i f e,
  l = sg ++ i ++ f ++ e /\ (sg = [] \/ sg = text_of "-") /\ whole i /\ fraction f /\ exponent e.

(** [digit_stop s]: no digit is at the front. *)
Lemma Peek_app l tail : l <> [] -> Peek (l ++ tail) = Peek l.
Proof. by destruct l. Qed.

Lemma Read_digits r tail :
  all_digits r -> isdigit (Peek tail) = false -> Read_DecimalDigits (r ++ tail) = (r, tail).
Proof. apply take_while_app. Qed.

Lemma ends_no_digit tail : ends tail -> isdigit (Peek tail) = false.
Proof. by intros [->|[->| ->]]. Qed.

Lemma digit_code c : isdigit (char_code c) = true -> 48 <= char_code c <= 57.
Proof. unfold isdigit. intros [? ?]%andb_true_iff. lia. Qed.

Lemma Peek_digits r tail : all_digits r -> r = [] \/ 48 <= Peek (r ++ tail) <= 57.
Proof. intros Hr. destruct Hr as [|c r Hc _]; [by left|]. right. by apply digit_code. Qed.

Lemma Read_exponent e tail : exponent e -> ends tail -> Read_ExponentPart (e ++ tail) = Done (e, tail).
Proof.
  intros He Ht. pose proof (ends_no_digit _ Ht) as Hd. destruct He as [->|(r & sg & -> & Hs & Hr)].
  - cbn [app]. unfold Read_ExponentPart. by destruct Ht as [->|[->| ->]].
  - rewrite <- !app_assoc. change (text_of "e") with [byte.of_Z 101]. unfold Read_ExponentPart. cbn [app Peek Get].
    change (negb _ && negb _) with false. cbv iota. rewrite bind_done.
    assert (Read_SignedInteger (sg ++ r ++ tail) = Done (sg ++ r, tail)) as ->; [|done].
    unfold Read_SignedInteger. destruct Hs as [->|[->| ->]].
    + cbn [app]. destruct (Peek_digits r tail Hr) as [->|Hp].
      * cbn [app]. rewrite <- (Read_digits [] tail) by done. by destruct Ht as [->|[->| ->]].
      * rewrite !(proj2 (Z.eqb_neq _ _)) by lia. cbn [orb]. by rewrite Read_digits.
    + change (text_of "+") with [byte.of_Z 43]. cbn [app Peek Get]. change (_ || _) with true. rewrite bind_done.
      by rewrite Read_digits.
    + change (text_of "-") with [byte.of_Z 45]. cbn [app Peek Get]. change (_ || _) with true. rewrite bind_done.
      by rewrite Read_digits.
Qed.

(** What stands behind the whole part. *)
Lemma Peek_behind f e tail : fraction f -> exponent e -> ends tail ->
  let p := Peek (f ++ e ++ tail) in
  isdigit p = false /\ p <> 98 /\ p <> 66 /\ p <> 111 /\ p <> 79 /\ p <> 120 /\ p <> 88.
Proof.
  intros [->|(r & -> & _)] He Ht; [|done]. destruct He as [->|(r & sg & -> & _ & _)]; [|done].
  cbn [app]. by destruct Ht as [->|[->| ->]].
Qed.

Lemma Read_decimal zero i f e tail : fraction f -> exponent e -> ends tail ->
  (if zero : bool then i = text_of "0" else all_digits i /\ i <> []) ->
  Read_DecimalLiteral zero ((if zero then [] else i) ++ f ++ e ++ tail) = Done (i ++ f ++ e, tail).
Proof.
  intros Hf He Ht Hi. unfold Read_DecimalLiteral. cbv zeta.
  assert (E : (if negb ((if zero then 48 else Peek ((if zero then [] else i) ++ f ++ e ++ tail)) =? 46)
    then Read_DecimalIntegerLiteral zero ((if zero then [] else i) ++ f ++ e ++ tail)
    else ([], (if zero then [] else i) ++ f ++ e ++ tail)) = (i, f ++ e ++ tail)).
  { destruct zero; [by subst|]. destruct Hi as [Hi Hn].
    destruct (Peek_digits i (f ++ e ++ tail) Hi) as [?|Hp]; [done|].
    rewrite (proj2 (Z.eqb_neq _ _)) by lia. cbn [negb].
    apply Read_digits; [done|]. apply Peek_behind; done. }
  rewrite E. clear E. destruct Hf as [->|(r & -> & Hr)].
  - cbn [app]. destruct He as [->|(r & sg & -> & Hs & Hr)].
    + cbn [app]. rewrite app_nil_r. by destruct Ht as [->|[->| ->]].
    + change (Peek ((text_of "e" ++ sg ++ r) ++ tail)) with 101. cbn [Z.eqb Pos.eqb orb].
      rewrite Read_exponent; [done| |done]. right. by exists r, sg.
  - change (text_of ".") with [byte.of_Z 46]. cbn [app Peek Get]. change (_ =? 46) with true. cbv iota.
    rewrite bind_done. change (byte.of_Z (char_code _)) with (byte.of_Z 46).
    rewrite Read_digits; [|done|].
    + by rewrite Read_exponent by done.
    + destruct He as [->|(? & ? & -> & _)]; [|done]. by apply ends_no_digit.
Qed.

Lemma Read_numeric pn i f e tail : whole i -> fraction f -> exponent e -> ends tail ->
  Read_NumericLiteral pn (i ++ f ++ e ++ tail) = Done ({| text := i ++ f ++ e; base := 0 |}, tail).
Proof.
  intros Hi Hf He Ht. unfold Read_NumericLiteral. cbv zeta. destruct Hi as [->|(c & r & -> & Hd & Hz)].
  - change (text_of "0") with [byte.of_Z 48]. cbn [app Peek Get].
    change (char_code (byte.of_Z 48)) with 48. cbn [Z.eqb Pos.eqb andb negb].
    rewrite andb_false_r, bind_done.
    destruct (Peek_behind f e tail Hf He Ht) as (_ & ? & ? & ? & ? & ? & ?).
    rewrite !(proj2 (Z.eqb_neq _ _)) by done. cbn [orb].
    pose proof (Read_decimal true (text_of "0") f e tail Hf He Ht eq_refl) as E. cbn [app] in E. by rewrite E.
  - pose proof (digit_code c (Forall_inv Hd)) as Hc. change (Peek ((c :: r) ++ f ++ e ++ tail)) with (char_code c).
    rewrite !(proj2 (Z.eqb_neq _ _)) by (done || lia). rewrite andb_false_r. cbn [negb].
    by rewrite (Read_decimal false (c :: r) f e tail Hf He Ht) by done.
Qed.

Lemma Read_number pn l tail : numeral l -> ends tail ->
  Read_JSON5Number pn (l ++ tail) = Done ({| text := l; base := 0 |}, tail).
Proof.
  intros (sg & i & f & e & -> & Hs & Hi & Hf & He) Ht. rewrite <- !app_assoc. unfold Read_JSON5Number.
  destruct Hs as [->| ->].
  - assert (Hp : 48 <= Peek (i ++ f ++ e ++ tail) <= 57).
    { destruct Hi as [->|(c & r & -> & Hd & _)]; [by cbn|]. by apply digit_code, (Forall_inv Hd). }
    cbn [app]. rewrite !(proj2 (Z.eqb_neq _ _)) by lia. cbn [orb]. by apply Read_numeric.
  - change (text_of "-") with [byte.of_Z 45]. cbn [app Peek Get]. change (_ || _) with true. cbv iota.
    rewrite bind_done, Read_numeric by done. by rewrite bind_done.
Qed.

Lemma isdigit_in c d : digit_in 10 c = Some d -> isdigit (char_code c) = true.
Proof.
  unfold digit_in, digit_value, isdigit. cbv zeta. destruct ((48 <=? _) && _); [done|].
  destruct ((97 <=? char_code c) && (char_code c <=? 102)) eqn:E1;
    [|destruct ((65 <=? char_code c) && (char_code c <=? 70)) eqn:E2; [|done]];
    (destruct (Z.ltb_spec (char_code c - (if (97 <=? char_code c) && (char_code c <=? 102) then 87 else 55)) 10));
    try rewrite E1 in *; lia || (case_match; [lia|done]).
Qed.

(** What the writer prints of an integer, and what is made of it. *)
Lemma decimal_whole z : exists sg i, decimal z = sg ++ i /\ (sg = [] \/ sg = text_of "-") /\ whole i.
Proof.
  assert (Hp : forall p, whole (text_of (pretty.pretty (N.pos p)))).
  { intros p. destruct (decimal_run (N.pos p) eq_refl) as (d & ds & -> & [Hr _] & Hd). right. exists d, ds.
    split; [done|]. split; [|lia]. eapply list.Forall_impl; [exact Hr|]. intros c [x Hx]. by apply (isdigit_in c x). }
  destruct z as [|p|p].
  - exists [], (decimal 0). split_and!; [done|by left|by left].
  - exists [], (decimal (Z.pos p)). split_and!; [done|by left|apply Hp].
  - exists (text_of "-"), (text_of (pretty.pretty (N.pos p))). split_and!; [done|by right|apply Hp].
Qed.

Lemma decimal_numeral z : numeral (decimal z).
Proof.
  destruct (decimal_whole z) as (sg & i & -> & Hs & Hi). exists sg, i, [], [].
  split_and!; [by rewrite !app_nil_r|done..|by left|by left].
Qed.

Lemma numeral_head l : numeral l -> exists c r, l = c :: r /\ (char_code c = 45 \/ 48 <= char_code c <= 57).
Proof.
  intros (sg & i & f & e & -> & [->| ->] & Hi & _); [|by eexists _, _; split; [done|by left]].
  destruct Hi as [->|(c & r & -> & Hd & _)]; eexists _, _; (split; [done|]); right; [done|].
  by apply digit_code, (Forall_inv Hd).
Qed.

Lemma decimal_nonempty z : decimal z <> [].
Proof. destruct (numeral_head _ (decimal_numeral z)) as (c & r & -> & _). done. Qed.

Lemma scan_decimal z : scan_integer 0 (decimal z) = Some (z <? 0, Z.abs z, zlen (decimal z)).
Proof.
  destruct (decimal_number z [] I) as (rest & base & Es & Ep & Ed & En). rewrite !app_nil_r in *.
  unfold scan_integer, prefix_in. unfold number_end in En. rewrite Es in *. change (0 =? 0) with true. cbv iota.
  rewrite Ep in *. rewrite Ed. destruct (digit_run base rest); [|by rewrite En].
  destruct (decimal_nonempty z). destruct (decimal z); [done|]. rewrite zlen_cons in En.
  pose proof (zlen_nonneg l). lia.
Qed.

Lemma stol_decimal z : in_s 64 z -> stol 64 0 (decimal z) = Done (z, zlen (decimal z)).
Proof.
  intros [Hl Hh]. unfold stol. rewrite scan_decimal. cbv zeta.
  replace (if z <? 0 then - Z.abs z else Z.abs z) with z by (destruct (Z.ltb_spec z 0); lia).
  by rewrite (proj2 (Z.leb_le _ _)), (proj2 (Z.ltb_lt _ _)) by lia.
Qed.

Lemma stoull_decimal z : in_u 64 z -> stoull 0 (decimal z) = Done (z, zlen (decimal z)).
Proof.
  intros Hz. pose proof Hz as [Hl Hh]. unfold stoull. rewrite scan_decimal.
  rewrite (proj2 (Z.leb_gt _ _)), (proj2 (Z.ltb_ge _ _)) by lia.
  rewrite Z.abs_eq, uwrap_id by (done || lia). done.
Qed.

Section reading.
Context `{Json5Externals} (pn : bool).
Import Json5ReadArchive.

Lemma read_signed_decimal n z tail :
  int_size n = true -> in_s (8 * Z.of_nat n) z -> ends tail -> read_signed pn n (decimal z ++ tail) = Done (z, tail).
Proof.
  intros Hn Hz Ht. unfold read_signed, Read_JSON5SignedInteger.
  rewrite (Read_number pn _ _ (decimal_numeral z) Ht), bind_done. cbn [text base].
  rewrite stol_decimal.
  - cbv beta iota. rewrite Z.eqb_refl. cbn [negb]. rewrite bind_done. unfold CheckLimit.
    destruct Hz as [Hl Hh]. rewrite !(proj2 (Z.ltb_ge _ _)) by lia. done.
  - destruct n as [|[|[|[|[|[|[|[|[|n]]]]]]]]]; try done; destruct Hz; split; lia.
Qed.

Lemma read_unsigned_decimal n z tail :
  int_size n = true -> in_u (8 * Z.of_nat n) z -> ends tail -> read_unsigned pn n (decimal z ++ tail) = Done (z, tail).
Proof.
  intros Hn Hz Ht. unfold read_unsigned, Read_JSON5UnsignedInteger.
  rewrite (Read_number pn _ _ (decimal_numeral z) Ht), bind_done. cbn [text base].
  rewrite stoull_decimal.
  - rewrite bind_done, Z.eqb_refl. cbn [negb]. rewrite bind_done. unfold CheckLimit.
    destruct Hz as [Hl Hh]. rewrite !(proj2 (Z.ltb_ge _ _)) by lia. done.
  - destruct n as [|[|[|[|[|[|[|[|[|n]]]]]]]]]; try done; destruct Hz; split; lia.
Qed.
End reading.
