(* ===== verification/Json5Format.v ===== *)
(** * JSON5: the text of an object

    [json] is the text that [Json5WriteArchive] puts out for an object
    ([Value_writes]), [legible] says which objects a text carries, [json_type]
    which types it serves; [merged] is what reading the text into an object
    leaves there. *)
From stdpp Require Import strings.
From S2P Require Import Prelude Varuint Streams TimeConversions TelemetryFormat Archive ArchiveTheory ArchiveTyping Tokenizer CString Json5 Json5Theory.
#[local] Open Scope Z_scope.

(** A number that [std::stod] takes: an ERANGE of [strtod], which it makes an
    exception, comes with a subnormal [double], too. *)
Definition stod_takes (size : nat) (bits : Z) : bool :=
  isfinite size bits &&
  (bool_decide (size = 4%nat) || (bits mod 2 ^ 63 =? 0) || (2 ^ 52 <=? bits mod 2 ^ 63)).

(** The behaviour of the other libraries: nine (seventeen) digits tell a
    [float] (a [double]) apart, and boost reads the text it made. *)
Class Json5Laws `{Json5Externals} := {
  fmt_float_numeral size bits : size = 4%nat \/ size = 8%nat -> in_u (8 * Z.of_nat size) bits ->
    isfinite size bits = true -> numeral (fmt_float size bits);
  stod_fmt_float size bits : size = 4%nat \/ size = 8%nat -> in_u (8 * Z.of_nat size) bits ->
    stod_takes size bits = true -> stod size (fmt_float size bits) = Some bits;
  stod_range size s bits : size = 4%nat \/ size = 8%nat -> stod size s = Some bits -> in_u (8 * Z.of_nat size) bits;
  stod_empty size : stod size [] = None;
  time_text p : is_special p = false -> forallb plain_char (time_to_simple_string p) = true /\
    time_from_string (time_to_simple_string p) = Some p;
  duration_text d : dur_is_special d = false -> forallb plain_char (duration_to_simple_string d) = true /\
    duration_from_string (duration_to_simple_string d) = Some d;
}.

Section format.
Context `{Json5Externals}.

(** Lines with commas between them. *)
Fixpoint lines (first : bool) (l : list (list byte)) : list byte :=
  match l with
  | [] => []
  | x :: l => (if first then [] else text_of "," ++ newline) ++ x ++ lines false l
  end.

Definition block (opening closing : list byte) (n : Z) (l : list (list byte)) : list byte :=
  opening ++ newline ++ lines true l ++ newline ++ spaces (n + 2) ++ closing.

Definition json_array (n : Z) (items : list (list byte)) : list byte :=
  block (text_of "[") (text_of "]") n (map (fun item => spaces (n + 4) ++ item) items).

Fixpoint json (std : bool) (n : Z) (t : ctype) (v : value) {struct t} : list byte :=
  match t, v with
  | TBool, VBool b => text_of (if b then "true" else "false")
  | TInt _, VInt z | TUInt _, VInt z => decimal z
  | TFloat size, VFloat bits =>
      Json5WriteArchive.FormatFloat {| Json5WriteArchive.indent := n; Json5WriteArchive.standard := std |} size bits
  | TBytes, VBytes b => json_array n (map (fun c => decimal (char_code c)) b)
  | TString, VBytes b => quoted (EscapeJsonString b)
  | TTimestamp, VTime p => quoted (time_to_simple_string p)
  | TDuration, VDuration d => quoted (duration_to_simple_string d)
  | TEnum _ _ items, VInt z =>
      match Json5WriteArchive.enumeration_at items z with Done name => quoted name | _ => [] end
  | TVector t, VList vs | TArray _ t, VList vs => json_array n (map (json std n t) vs)
  | TOptional _, VNone => text_of "null"
  | TOptional t, VSome v => json std n t v
  | TObject fs, VObject vs => block (text_of "{") (text_of "}") n (json_members std (n + 2) fs vs)
  | _, _ => []
  end
with json_members (std : bool) (n : Z) (fs : fields) (vs : list value) {struct fs} : list (list byte) :=
  match fs, vs with
  | FCons name t _ rest, v :: vs =>
      (spaces (n + 2) ++ quoted name ++ text_of " : " ++ json std n t v) :: json_members std n rest vs
  | _, _ => []
  end.

(** A number that its text tells: no payload of a NaN is written, and standard
    JSON has no infinities. *)
Definition legible_float (std : bool) (size : nat) (bits : Z) : bool :=
  stod_takes size bits ||
  (negb std && ((bits =? infinity size) || (bits =? minus_infinity size) || (bits =? quiet_NaN size))).

(** A string of 7-bit characters other than null, an enumerator with a name of
    its own, an ordinary time. *)
Fixpoint legible (std : bool) (t : ctype) (v : value) {struct t} : Prop :=
  match t, v with
  | TBool, VBool _ => True
  | TInt n, VInt z => in_s (8 * Z.of_nat n) z
  | TUInt n, VInt z => in_u (8 * Z.of_nat n) z
  | TFloat n, VFloat bits => in_u (8 * Z.of_nat n) bits /\ legible_float std n bits = true
  | TBytes, VBytes _ => True
  | TString, VBytes b => forallb ascii b = true
  | TTimestamp, VTime p => is_special p = false
  | TDuration, VDuration d => dur_is_special d = false
  | TEnum is_signed n items, VInt z =>
      (if is_signed then in_s else in_u) (8 * Z.of_nat n) z /\
      exists name, Json5WriteArchive.enumeration_at items z = Done name /\
        forallb plain_char name = true /\ Json5ReadArchive.enumeration_named items name = Done z
  | TVector t, VList vs => Forall (legible std t) vs
  | TArray n t, VList vs => zlen vs = n /\ Forall (legible std t) vs
  | TOptional _, VNone => True
  | TOptional t, VSome v => legible std t v
  | TObject fs, VObject vs => legible_members std fs vs
  | _, _ => False
  end
with legible_members (std : bool) (fs : fields) (vs : list value) {struct fs} : Prop :=
  match fs, vs with
  | FNil, [] => True
  | FCons _ t _ rest, v :: vs => legible std t v /\ legible_members std rest vs
  | _, _ => False
  end.

(** The objects of a type; no limit on sizes. *)
Fixpoint of_type (t : ctype) (v : value) : Prop :=
  match t, v with
  | TBool, VBool _ | TBytes, VBytes _ | TString, VBytes _ | TTimestamp, VTime _ | TDuration, VDuration _ => True
  | TInt n, VInt z => in_s (8 * Z.of_nat n) z
  | TUInt n, VInt z | TFloat n, VFloat z => in_u (8 * Z.of_nat n) z
  | TEnum is_signed n _, VInt z => (if is_signed then in_s else in_u) (8 * Z.of_nat n) z
  | TVector t, VList vs => Forall (of_type t) vs
  | TArray n t, VList vs => zlen vs = n /\ Forall (of_type t) vs
  | TOptional _, VNone => True
  | TOptional t, VSome v => of_type t v
  | TObject fs, VObject vs => members_of_type fs vs
  | _, _ => False
  end
with members_of_type (fs : fields) (vs : list value) : Prop :=
  match fs, vs with
  | FNil, [] => True
  | FCons _ t _ rest, v :: vs => of_type t v /\ members_of_type rest vs
  | _, _ => False
  end.

(** The types the text serves: "null" stands for one thing only, names need no
    escapes and are distinct, enumerators are of the enumeration. *)
Definition nullable (t : ctype) : bool := match t with TOptional _ => true | _ => false end.

Fixpoint json_type (t : ctype) : Prop :=
  match t with
  | TInt n | TUInt n => int_size n = true
  | TEnum is_signed n items =>
      int_size n = true /\ Forall (fun item => (if is_signed then in_s else in_u) (8 * Z.of_nat n) (fst item)) items
  | TFloat n => n = 4%nat \/ n = 8%nat
  | TVector t => json_type t /\ of_type t (default t)
  | TArray n t => 0 <= n /\ json_type t /\ of_type t (default t)
  | TOptional t => nullable t = false /\ json_type t /\ of_type t (default t)
  | TObject fs => NoDup (names fs) /\ json_fields fs
  | _ => True
  end
with json_fields (fs : fields) : Prop :=
  match fs with
  | FNil => True
  | FCons name t _ rest => forallb plain_char name = true /\ json_type t /\ json_fields rest
  end.

(** Reading the text of [v] into an object that holds [old]: elements and
    members are read over the old ones, and elements that are in no text stay. *)
Definition merged_items {A} (merge : A -> A -> A) (item : A) : list A -> list A -> list A :=
  fix go olds vs :=
  match olds, vs with
  | olds, [] => olds
  | [], v :: vs => merge item v :: go [] vs
  | old :: olds, v :: vs => merge old v :: go olds vs
  end.

Fixpoint merged (t : ctype) (old v : value) {struct t} : value :=
  match t, v with
  | TBytes, VBytes b => VBytes (b ++ drop (length b) (bytes_of old))
  | TVector t, VList vs | TArray _ t, VList vs => VList (merged_items (merged t) (default t) (items_of old) vs)
  | TOptional t, VSome v => VSome (merged t (match old with VSome old => old | _ => default t end) v)
  | TObject fs, VObject vs => VObject (merged_members fs (members_of old) vs)
  | _, _ => v
  end
with merged_members (fs : fields) (olds vs : list value) {struct fs} : list value :=
  match fs, olds, vs with
  | FCons _ t _ rest, old :: olds, v :: vs => merged t old v :: merged_members rest olds vs
  | _, _, _ => []
  end.

(** The old object has no element that the text would not write over. *)
Definition covers_items (covers : value -> value -> Prop) (item : value) : list value -> list value -> Prop :=
  fix go olds vs :=
  match olds, vs with
  | [], [] => True
  | [], v :: vs => covers item v /\ go [] vs
  | old :: olds, v :: vs => covers old v /\ go olds vs
  | _ :: _, [] => False
  end.

Fixpoint covers (t : ctype) (old v : value) {struct t} : Prop :=
  match t, v with
  | TBytes, VBytes b => (length (bytes_of old) <= length b)%nat
  | TVector t, VList vs | TArray _ t, VList vs => covers_items (covers t) (default t) (items_of old) vs
  | TOptional t, VSome v => covers t (match old with VSome old => old | _ => default t end) v
  | TObject fs, VObject vs => covers_members fs (members_of old) vs
  | _, _ => True
  end
with covers_members (fs : fields) (olds vs : list value) {struct fs} : Prop :=
  match fs, olds, vs with
  | FNil, [], [] => True
  | FCons _ t _ rest, old :: olds, v :: vs => covers t old v /\ covers_members rest olds vs
  | _, _, _ => False
  end.
End format.

(** ** What the writer puts out *)
Section writer.
Context `{Json5Externals}.
Import Json5WriteArchive.

Lemma Indent_spaces o extra : 0 <= indent o + extra + 2 -> Indent o extra = Done (spaces (indent o + extra + 2)).
Proof. intros Hn. unfold Indent. cbv zeta. by rewrite (proj2 (Z.ltb_ge _ _)). Qed.

Definition opts (std : bool) (n : Z) : Options := {| indent := n; standard := std |}.

(** [puts f text]: [f] appends a text to the stream. *)
Definition puts (f : list byte -> outcome (list byte)) (text : list byte) : Prop :=
  forall stream, f stream = Done (stream ++ text).

Lemma WriteItems_lines {A} (write : A -> list byte -> outcome (list byte)) (text : A -> list byte) std n items :
  0 <= n -> Forall (fun item => puts (write item) (text item)) items -> forall first,
  puts (WriteItems write (opts std n) items first)
    (lines first (map (fun line => spaces (n + 4) ++ line) (map text items))).
Proof.
  intros Hn. induction 1 as [|item items Hi _ IH]; intros first stream; cbn [map lines WriteItems].
  - by rewrite app_nil_r.
  - rewrite Indent_spaces by (cbn; lia). rewrite bind_done, Hi, bind_done, IH.
    replace (indent (opts std n) + 2 + 2) with (n + 4) by (cbn; lia).
    destruct first; by rewrite <- ?app_assoc.
Qed.

Lemma WriteArray_block {A} (write : A -> list byte -> outcome (list byte)) (text : A -> list byte) std n items :
  0 <= n -> Forall (fun item => puts (write item) (text item)) items ->
  puts (WriteArray write (opts std n) items) (json_array n (map text items)).
Proof.
  intros Hn Hi stream. unfold WriteArray. rewrite (WriteItems_lines _ text) by done.
  rewrite bind_done, Indent_spaces by (cbn; lia). rewrite bind_done.
  replace (indent (opts std n) + 0 + 2) with (n + 2) by (cbn; lia).
  unfold json_array, block. by rewrite <- !app_assoc.
Qed.

Lemma Braces_block serialize std n l :
  0 <= n -> puts serialize (lines true l) ->
  puts (Braces (opts std (n + 2)) serialize) (block (text_of "{") (text_of "}") n l).
Proof.
  intros Hn Hl stream. unfold Braces. rewrite Hl, bind_done, Indent_spaces by (cbn; lia). rewrite bind_done.
  replace (indent (opts std (n + 2)) + -2 + 2) with (n + 2) by (cbn; lia).
  unfold block. by rewrite <- !app_assoc.
Qed.

Lemma Members_cons name t initial rest o v vs first_ stream :
  Members (FCons name t initial rest) o (v :: vs) first_ stream =
  (blank ← Indent o 0;
   stream ← Value t o v ((if first_ then stream else stream ++ text_of "," ++ newline) ++ blank ++ quoted name ++ text_of " : ");
   Members rest o vs false stream).
Proof. reflexivity. Qed.

Lemma json_members_cons std n name t initial rest v vs :
  json_members std n (FCons name t initial rest) (v :: vs) =
  (spaces (n + 2) ++ quoted name ++ text_of " : " ++ json std n t v) :: json_members std n rest vs.
Proof. reflexivity. Qed.

Lemma Value_writes std t : forall n v, 0 <= n -> legible std t v ->
  puts (Value t (opts std n) v) (json std n t v).
Proof.
  induction t using ctype_mut with (P0 := fun fs => forall n vs, 0 <= n -> legible_members std fs vs -> forall first,
    puts (Members fs (opts std n) vs first) (lines first (json_members std n fs vs))); intros m v Hm Hv.
  1-10: destruct v; try done; cbn [legible] in Hv.
  - apply (WriteArray_block _ (fun c => decimal (char_code c))); [done|]. by apply list.Forall_forall.
  - destruct Hv as (_ & name & E & _). intros stream. cbn [Value json]. by rewrite E.
  - apply (WriteArray_block _ (json std m t)); [done|]. eapply list.Forall_impl; [exact Hv|]. auto.
  - destruct v; try done. destruct Hv as [_ Hv].
    apply (WriteArray_block _ (json std m t)); [done|]. eapply list.Forall_impl; [exact Hv|]. auto.
  - destruct v; try done. by apply IHt.
  - destruct v; try done. apply Braces_block; [done|]. apply IHt; [lia|done].
  - destruct v; [|done]. intros first stream. by rewrite app_nil_r.
  - destruct v as [|v vs]; [done|]. destruct Hv as [Hv Hvs]. intros first stream.
    rewrite Members_cons, json_members_cons. cbn [lines].
    rewrite Indent_spaces by (cbn; lia). rewrite bind_done, IHt, bind_done, IHt0 by done.
    replace (indent (opts std m) + 0 + 2) with (m + 2) by (cbn; lia).
    destruct first; by rewrite <- !app_assoc.
Qed.
End writer.

(** ** Reading over old values *)
Section merging.
Context `{Json5Externals}.

Lemma merged_items_covers m item (olds vs : list value) (c : value -> value -> Prop) :
  (forall old v, v ∈ vs -> c old v -> m old v = v) -> covers_items c item olds vs -> merged_items m item olds vs = vs.
Proof.
  revert olds. induction vs as [|v vs IH]; intros [|old olds] Hm; try done; intros [Hc Hcs]; cbn.
  - rewrite Hm, (IH []) by (done || by left || by intros; apply Hm; [right|]). done.
  - rewrite Hm, IH by (done || by left || by intros; apply Hm; [right|]). done.
Qed.

Lemma covers_merged t : forall old v, covers t old v -> merged t old v = v.
Proof.
  induction t using ctype_mut with (P0 := fun fs => forall olds vs, covers_members fs olds vs ->
    merged_members fs olds vs = vs); intros old v Hc; try (by destruct v).
  - destruct v; try done. cbn in *. by rewrite drop_ge, app_nil_r.
  - destruct v; try done. cbn. f_equal. eapply merged_items_covers; [|exact Hc]. auto.
  - destruct v; try done. cbn. f_equal. eapply merged_items_covers; [|exact Hc]. auto.
  - destruct v; try done. cbn. f_equal. by apply IHt.
  - destruct v; try done. cbn. f_equal. by apply IHt.
  - by destruct old, v.
  - destruct old, v; try done. destruct Hc as [Hv Hvs]. cbn. by rewrite IHt, IHt0.
Qed.

Lemma merged_items_of_type m item (olds vs : list value) (P Q : value -> Prop) :
  (forall old v, P old -> Q v -> P (m old v)) -> P item -> Forall P olds -> Forall Q vs ->
  Forall P (merged_items m item olds vs).
Proof.
  intros Hm Hi Ho Hv. revert olds Ho. induction Hv as [|v vs Hv _ IH]; intros olds Ho; [by destruct olds|].
  destruct Ho as [|old olds Ho Hos]; cbn; constructor; auto.
Qed.

Lemma merged_items_length {A} m (item : A) olds vs : (length (merged_items m item olds vs) = length olds `max` length vs)%nat.
Proof.
  revert olds. induction vs as [|v vs IH]; intros [|old olds]; cbn [merged_items length]; [done..| |].
  - rewrite IH. cbn. lia.
  - rewrite IH. lia.
Qed.

Lemma members_of_type_length fs vs : members_of_type fs vs -> length vs = length (names fs).
Proof.
  revert vs. induction fs as [|name t initial rest IH]; intros [|v vs]; try done. cbn. intros [_ Hv]. by rewrite IH.
Qed.

Lemma merged_of_type std t : json_type t -> forall old v, of_type t old -> legible std t v -> of_type t (merged t old v).
Proof.
  induction t using ctype_mut with (P0 := fun fs => json_fields fs -> forall olds vs, members_of_type fs olds ->
    legible_members std fs vs -> members_of_type fs (merged_members fs olds vs)); intros Ht old v Ho Hv.
  1-9: destruct v; try done; by destruct Hv.
  - destruct Ht as [Ht Hd], old, v; try done. cbn in *. eapply merged_items_of_type; eauto.
  - destruct Ht as (Hn & Ht & Hd), old, v; try done. destruct Ho as [Hl Ho], Hv as [Hl' Hv]. cbn. split.
    + unfold zlen in *. rewrite merged_items_length. lia.
    + eapply merged_items_of_type; eauto.
  - destruct Ht as (_ & Ht & Hd), v; try done. cbn in *. apply IHt; [done| |done]. by destruct old.
  - destruct Ht as [_ Ht], old, v; try done. cbn in *. by apply IHt.
  - by destruct old.
  - destruct old, v; try done. destruct Ht as (_ & Ht & Hts), Ho, Hv. cbn. auto.
Qed.
End merging.
