(* ===== verification/Json5Roundtrip.v ===== *)
(** * JSON5: reading what was written

    The text of an object is read into an object of the same class, or of
    another one: members are found by name in any order, and a member that the
    reader does not ask for is skipped exactly. *)
From stdpp Require Import strings.
From S2P Require Import Prelude Varuint Streams TimeConversions TelemetryFormat Archive ArchiveTheory ArchiveTyping Tokenizer CString Json5 Json5Theory Json5Format.
#[local] Open Scope Z_scope.
Import Json5ReadArchive.

Section reading.
Context `{Json5Laws} (pn : bool).

(** ** What a value begins with *)
Definition starter (c : byte) : bool :=
  let z := char_code c in
  (z =? 34) || (z =? 91) || (z =? 123) || (z =? 116) || (z =? 102) || (z =? 110) || (z =? 73) || (z =? 78) ||
  (z =? 45) || ((48 <=? z) && (z <=? 57)).

Definition begins (t : ctype) (s : list byte) : Prop := exists c r,
  s = c :: r /\ starter c = true /\ (nullable t = false -> char_code c <> 110).

Lemma numeral_begins t l : numeral l -> begins t l.
Proof.
  intros Hl. destruct (numeral_head l Hl) as (c & r & -> & Hc). exists c, r. split_and!; [done| |lia].
  unfold starter. cbv zeta. destruct Hc as [->|Hc]; [done|].
  rewrite (proj2 (Z.leb_le 48 _)), (proj2 (Z.leb_le _ 57)) by lia. by rewrite !orb_true_r.
Qed.

Lemma float_text std n size bits : size = 4%nat \/ size = 8%nat -> in_u (8 * Z.of_nat size) bits ->
  legible_float std size bits = true ->
  let text := Json5WriteArchive.FormatFloat (opts std n) size bits in
  (stod_takes size bits = true /\ text = fmt_float size bits /\ numeral text) \/
  (bits = infinity size /\ text = text_of "Infinity") \/
  (bits = minus_infinity size /\ text = text_of "-Infinity") \/
  (bits = quiet_NaN size /\ text = text_of "NaN").
Proof.
  intros Hs Hb Hl. unfold Json5WriteArchive.FormatFloat, legible_float in *.
  assert (Hi : isfinite size (infinity size) = false /\ isfinite size (minus_infinity size) = false /\
    isfinite size (quiet_NaN size) = false /\ infinity size <> minus_infinity size /\ infinity size <> quiet_NaN size /\
    minus_infinity size <> quiet_NaN size) by (destruct Hs as [-> | ->]; vm_compute; split_and!; done).
  destruct Hi as (H1' & H2' & H3' & D1 & D2 & D3). destruct (stod_takes size bits) eqn:E.
  - left. unfold stod_takes in E. apply andb_true_iff in E as [E _].
    destruct (Z.eqb_spec bits (infinity size)) as [->|_]; [congruence|].
    destruct (Z.eqb_spec bits (minus_infinity size)) as [->|_]; [congruence|].
    rewrite E. cbn [negb]. split_and!; [done..|]. by apply fmt_float_numeral.
  - right. cbn [orb] in Hl. destruct std; [done|]. cbn [negb andb] in Hl.
    destruct (Z.eqb_spec bits (infinity size)) as [->|_]; [by left|]. cbn [orb] in Hl.
    destruct (Z.eqb_spec bits (minus_infinity size)) as [->|_]; [by right; left|]. cbn [orb] in Hl.
    apply Z.eqb_eq in Hl as ->. right; right. by rewrite H3'.
Qed.

Lemma json_begins std n t v : json_type t -> legible std t v -> begins t (json std n t v).
Proof.
  revert n v. induction t using ctype_mut with (P0 := fun _ => True); [..|done|done];
    intros m v Ht Hv; destruct v as [b|z|bits|b|p|d|vs| |v|vs]; try done; cbn [json];
    try (by apply numeral_begins, decimal_numeral); try (by eexists _, _; split_and!; [reflexivity|..]).
  - destruct b; by eexists _, _; split_and!; [reflexivity|..].
  - destruct Hv as [Hb Hl]. destruct (float_text std m size bits Ht Hb Hl) as [(_ & _ & Hn)|[[_ E]|[[_ E]|[_ E]]]];
      [by apply numeral_begins|..]; unfold opts in E; rewrite E; by eexists _, _; split_and!; [reflexivity|..].
  - destruct Hv as (_ & name & -> & _). by eexists _, _; split_and!; [reflexivity|..].
  - destruct Ht as (Hn & Ht & _). destruct (IHt m v Ht Hv) as (c & r & E & Hc & Hz). exists c, r.
    split_and!; [done..|]. auto.
Qed.

Lemma starter_starts c : starter c = true -> IsWhitespace (char_code c) = false /\ char_code c <> 47 /\
  char_code c <> 93 /\ char_code c <> 125 /\ char_code c <> 44.
Proof.
  unfold starter, IsWhitespace. cbv zeta. intros [Hc|[? ?]%andb_true_iff]%orb_true_iff.
  - repeat (apply orb_true_iff in Hc as [Hc|Hc]; [|apply Z.eqb_eq in Hc; rewrite Hc; by split_and!]).
    apply Z.eqb_eq in Hc. rewrite Hc. by split_and!.
  - rewrite !(proj2 (Z.eqb_neq _ _)) by lia. split_and!; [done|lia..].
Qed.

Lemma begins_starts t s tail : begins t s -> starts (s ++ tail) /\ Peek (s ++ tail) <> 93 /\
  Peek (s ++ tail) <> 125 /\ Peek (s ++ tail) <> 44.
Proof. intros (c & r & -> & Hc & _). destruct (starter_starts c Hc) as (? & ? & ? & ? & ?). by split_and!. Qed.

Lemma lines_length l : (length l <= length (lines false l))%nat.
Proof. induction l as [|x l IH]; [done|]. cbn [lines length]. rewrite !length_app. cbn. lia. Qed.

(** ** Arrays *)
Section arrays.
Context {A : Type} (read : A -> list byte -> outcome (A * list byte)) (callback : nat -> list A -> outcome (list A)).
Context (text : A -> list byte) (merge : A -> A -> A) (item : A) (R : A -> Prop).

(** The container is [pre ++ olds] and the elements [vs] are still to come. *)
Context (I : list A -> list A -> list A -> Prop).
Definition slot (olds : list A) : list A := match olds with [] => [item] | _ => olds end.
Hypothesis Hcallback : forall pre olds v vs,
  I pre olds (v :: vs) -> callback (length pre) (pre ++ olds) = Done (pre ++ slot olds).
Hypothesis Hstep : forall pre olds v vs x, I pre olds (v :: vs) -> I (pre ++ [x]) (tail (slot olds)) vs.

Definition reads_item (v : A) : Prop :=
  (exists t, begins t (text v)) /\
  forall old tl, R old -> ends tl -> read old (text v ++ tl) = Done (merge old v, tl).

Definition closing (n : Z) (tl : list byte) : list byte := newline ++ spaces (n + 2) ++ text_of "]" ++ tl.
Definition indented (n : Z) (items : list A) : list (list byte) :=
  map (fun line => spaces (n + 4) ++ line) (map text items).

(** What the loop finds behind whitespace. *)
Definition at_item (n : Z) (items : list A) (tl : list byte) : list byte :=
  match items with
  | [] => text_of "]" ++ tl
  | v :: vs => text v ++ lines false (indented n vs) ++ closing n tl
  end.

Lemma closing_ends n (vs : list A) tl : ends (lines false (indented n vs) ++ closing n tl).
Proof. destruct vs; unfold ends; cbn; auto. Qed.

Lemma IgnoreWhitespace_closing n tl : IgnoreWhitespace (closing n tl) = Done (text_of "]" ++ tl).
Proof. unfold closing. rewrite app_assoc. apply IgnoreWhitespace_white; [apply white_line|done]. Qed.

Lemma lookup_slot pre olds : (pre ++ slot olds) !! length pre = Some (hd item olds).
Proof. rewrite lookup_app_r by lia. rewrite Nat.sub_diag. by destruct olds. Qed.

Lemma insert_slot pre olds x : <[length pre := x]> (pre ++ slot olds) = (pre ++ [x]) ++ tail (slot olds).
Proof.
  rewrite insert_app_r_alt by lia. rewrite Nat.sub_diag, <- app_assoc. f_equal. by destruct olds.
Qed.

Lemma merged_items_cons olds v vs :
  merged_items merge item olds (v :: vs) = merge (hd item olds) v :: merged_items merge item (tail (slot olds)) vs.
Proof. by destruct olds. Qed.

Lemma Forall_tail_slot olds : R item -> Forall R olds -> R (hd item olds) /\ Forall R (tail (slot olds)).
Proof. intros Hi [|old os Ho Hos]; cbn; split; try done. Qed.

Lemma ReadItems_text n tl items : Forall reads_item items -> R item -> forall pre olds w fuel,
  Forall R olds -> I pre olds items -> white w -> (length items < fuel)%nat ->
  ReadItems read callback fuel (length pre) (pre ++ olds) (w ++ at_item n items tl) =
  Done ((length pre + length items)%nat, pre ++ merged_items merge item olds items, tl).
Proof.
  intros Hr Hi. induction Hr as [|v vs [[t Hb] Hv] Hvs IH]; intros pre olds w [|fuel] Ho HI Hw Hf;
    cbn [length at_item] in *; try lia; cbn [ReadItems].
  - rewrite IgnoreWhitespace_white by done. rewrite bind_done. change (Peek (text_of "]" ++ tl)) with 93. cbn [Z.eqb Pos.eqb].
    change (text_of "]") with [byte.of_Z 93]. cbn [app Get]. rewrite bind_done.
    replace (length pre + 0)%nat with (length pre) by lia. by destruct olds.
  - destruct (begins_starts _ _ (lines false (indented n vs) ++ closing n tl) Hb) as (Hs & Hp & _).
    rewrite IgnoreWhitespace_white by done. rewrite bind_done.
    rewrite (proj2 (Z.eqb_neq _ _) Hp), (Hcallback _ _ _ _ HI), bind_done, lookup_slot.
    destruct (Forall_tail_slot olds Hi Ho) as [Hh Ht].
    rewrite Hv, bind_done by (done || apply closing_ends). cbv zeta. rewrite insert_slot, merged_items_cons.
    set (x := merge (hd item olds) v).
    specialize (IH (pre ++ [x]) (tail (slot olds))). rewrite !length_app, <- !app_assoc in IH. cbn [length app] in IH.
    replace (length pre + S (length vs))%nat with (length pre + 1 + length vs)%nat by lia.
    replace (S (length pre)) with (length pre + 1)%nat by lia. rewrite <- app_assoc. cbn [app].
    destruct vs as [|v' vs].
    + cbn [lines indented map app]. rewrite IgnoreWhitespace_closing, bind_done.
      change (Peek (text_of "]" ++ tl)) with 93. cbn [Z.eqb Pos.eqb]. rewrite bind_done, IgnoreWhitespace_none, bind_done by done.
      change (Peek (text_of "]" ++ tl)) with 93. cbn [Z.eqb Pos.eqb]. change (text_of "]") with [byte.of_Z 93]. cbn [app Get].
      rewrite bind_done. cbn [length]. replace (length pre + 1 + 0)%nat with (length pre + 1)%nat by lia.
      by destruct (tail (slot olds)).
    + inversion Hvs as [|? ? [[t' Hb'] _] _]; subst.
      destruct (begins_starts _ _ (lines false (indented n vs) ++ closing n tl) Hb') as (Hs' & Hp' & _).
      cbn [lines indented map]. rewrite <- !app_assoc.
      change (text_of ",") with [byte.of_Z 44]. cbn [app]. rewrite IgnoreWhitespace_none by done. rewrite bind_done.
      change (Peek (byte.of_Z 44 :: _)) with 44. cbn [Z.eqb Pos.eqb Get]. rewrite bind_done.
      rewrite (app_assoc newline), IgnoreWhitespace_white, bind_done by (apply white_line || done).
      fold (indented n vs). rewrite (proj2 (Z.eqb_neq _ _) Hp').
      apply (IH [] fuel Ht); [by eapply Hstep|constructor|cbn [length] in *; lia].
Qed.

Lemma ReadArray_text n olds items tl :
  Forall reads_item items -> R item -> Forall R olds -> I [] olds items ->
  ReadArray read callback olds (json_array n (map text items) ++ tl) =
  Done (length items, merged_items merge item olds items, tl).
Proof.
  intros Hr Hi Ho HI. unfold json_array, block, ReadArray. rewrite <- !app_assoc.
  rewrite ReadLiteral_here, bind_done by done. fold (indented n items). fold (closing n tl).
  assert (E : exists w, white w /\ newline ++ lines true (indented n items) ++ closing n tl = w ++ at_item n items tl).
  { destruct items as [|v vs]; cbn [lines indented map at_item app].
    - exists (newline ++ newline ++ spaces (n + 2)). split; [|by rewrite <- !app_assoc].
      constructor; [done|apply white_line].
    - exists (newline ++ spaces (n + 4)). split; [apply white_line|]. by rewrite <- !app_assoc. }
  destruct E as (w & Hw & ->). apply (ReadItems_text n tl items Hr Hi [] olds w); [done..|].
  rewrite length_app. enough (length items <= length (at_item n items tl))%nat by lia.
  destruct items as [|v vs]; [cbn; lia|]. cbn [at_item]. rewrite !length_app.
  destruct (Forall_inv Hr) as [[t (c & r & -> & _)] _]. cbn [length].
  pose proof (lines_length (indented n vs)). unfold indented in *. rewrite !length_map in *. lia.
Qed.
End arrays.

(** ** Values without members *)
Definition reads_back (std : bool) (t : ctype) : Prop := json_type t -> forall n v old tl,
  legible std t v -> of_type t old -> ends tl ->
  Value pn t old (json std n t v ++ tl) = Done (merged t old v, tl).

Lemma read_literal_bool (b : bool) tl : read_bool (text_of (if b then "true" else "false") ++ tl) = Done (b, tl).
Proof. destruct b; unfold read_bool; cbv zeta; [change (Peek (_ ++ tl)) with 116|change (Peek (_ ++ tl)) with 102]; cbn [Z.eqb Pos.eqb];
  by rewrite ReadLiteral_here. Qed.

Lemma read_float_text std n size bits tl : size = 4%nat \/ size = 8%nat -> in_u (8 * Z.of_nat size) bits ->
  legible_float std size bits = true -> ends tl ->
  read_float pn size (Json5WriteArchive.FormatFloat (opts std n) size bits ++ tl) = Done (bits, tl).
Proof.
  intros Hs Hb Hl Ht. unfold read_float.
  destruct (float_text std n size bits Hs Hb Hl) as [(Ht' & E & Hn)|[[-> E]|[[-> E]|[-> E]]]].
  - rewrite (Read_number pn _ _ Hn Ht), bind_done, E. cbn [text]. unfold ToFloat.
    destruct (numeral_head _ Hn) as (c & r & Ec & Hc). rewrite E in Ec.
    rewrite !bool_decide_false; [by rewrite stod_fmt_float| | | |]; rewrite Ec; intros [= -> ->];
      vm_compute in Hc; try (destruct Hc as [?|[? ?]]; congruence).
    rewrite E in Hn. destruct Hn as (sg & i & f & e & En & Hsg & Hi & _). rewrite Ec in En.
    destruct Hsg as [->| ->]; destruct Hi as [->|(c & r & -> & Hd & _)]; try discriminate En;
      injection En; intros; subst; apply Forall_inv in Hd; discriminate Hd.
  - rewrite E. unfold Read_JSON5Number, Read_NumericLiteral. cbv zeta. change (Peek (text_of "Infinity" ++ tl)) with 73.
    cbn [Z.eqb Pos.eqb orb]. rewrite ReadLiteral_here by done. done.
  - rewrite E. unfold Read_JSON5Number. change (text_of "-Infinity" ++ tl) with (byte.of_Z 45 :: text_of "Infinity" ++ tl).
    cbn [Peek Get]. change (_ || _) with true. cbv iota. rewrite bind_done.
    unfold Read_NumericLiteral. cbv zeta. change (Peek (text_of "Infinity" ++ tl)) with 73.
    cbn [Z.eqb Pos.eqb orb]. rewrite ReadLiteral_here by done. done.
  - rewrite E. unfold Read_JSON5Number, Read_NumericLiteral. cbv zeta. change (Peek (text_of "NaN" ++ tl)) with 78.
    cbn [Z.eqb Pos.eqb orb]. rewrite ReadLiteral_here by done. done.
Qed.

Lemma reads_json_items std t n vs : reads_back std t -> json_type t -> Forall (legible std t) vs ->
  Forall (reads_item (Value pn t) (json std n t) (merged t) (of_type t)) vs.
Proof.
  intros Hr Ht Hvs. eapply list.Forall_impl; [exact Hvs|]. intros v Hv. split.
  - exists t. by apply json_begins.
  - intros old tl Ho He. by apply Hr.
Qed.

Lemma read_vector_text {A} (read : A -> list byte -> outcome (A * list byte)) text merge item (R : A -> Prop) n olds vs tl :
  Forall (reads_item read text merge R) vs -> R item -> Forall R olds ->
  read_vector read item olds (json_array n (map text vs) ++ tl) = Done (merged_items merge item olds vs, tl).
Proof.
  intros Hr Hi Ho. unfold read_vector.
  rewrite (ReadArray_text read (vector_slot item) text merge item R (fun _ _ _ => True)); [done|..|done|done|done|done]; [|done].
  intros pre os v vs' _. unfold vector_slot. rewrite length_app. destruct os as [|o os]; cbn [length slot].
  - rewrite bool_decide_true by lia. by rewrite app_nil_r.
  - by rewrite bool_decide_false by lia.
Qed.

Lemma read_array_text {A} (read : A -> list byte -> outcome (A * list byte)) text merge item (R : A -> Prop) N n olds vs tl :
  Forall (reads_item read text merge R) vs -> R item -> Forall R olds -> zlen olds = N -> zlen vs = N ->
  read_array read N olds (json_array n (map text vs) ++ tl) = Done (merged_items merge item olds vs, tl).
Proof.
  intros Hr Hi Ho HN HN'. unfold read_array.
  rewrite (ReadArray_text read (array_slot N) text merge item R
    (fun pre olds vs => zlen pre + zlen olds = N /\ length olds = length vs)); [|..|done|done|done|].
  - rewrite bind_done. cbv beta iota. rewrite (proj2 (Z.ltb_ge _ _)) by (unfold zlen in *; lia). done.
  - intros pre os v vs' [E El]. destruct os as [|o os]; [done|]. unfold array_slot, zlen in *. cbn [length] in *.
    rewrite (proj2 (Z.ltb_ge _ _)) by lia. done.
  - intros pre os v vs' x [E El]. destruct os as [|o os]; [done|]. cbn [slot tail length] in *.
    rewrite zlen_app. rewrite zlen_cons in E. change (zlen [x]) with 1. lia.
  - unfold zlen in *. cbn [length]. lia.
Qed.

Lemma read_octets n olds b tl :
  read_vector (read_octet pn) (byte.of_Z 0) olds (json_array n (map (fun c => decimal (char_code c)) b) ++ tl) =
  Done (b ++ drop (length b) olds, tl).
Proof.
  rewrite (read_vector_text (read_octet pn) (fun c => decimal (char_code c)) (fun _ c => c) (byte.of_Z 0) (fun _ => True)).
  - do 2 f_equal. revert olds. induction b as [|c b IH]; intros [|o olds]; cbn; try done; [by rewrite IH, drop_nil|by rewrite IH].
  - apply list.Forall_forall. intros c _. split; [exists (TUInt 1); apply numeral_begins, decimal_numeral|].
    intros old tl' _ He. unfold read_octet. rewrite read_unsigned_decimal; [|done| |done].
    + rewrite bind_done. by rewrite byte_of_code.
    + exact (byte_range c).
  - done.
  - by apply list.Forall_forall.
Qed.

(** ** Members *)
Section members.
Context (std : bool) (n : Z) (tl : list byte).

Definition brace : list byte := newline ++ spaces (n + 2) ++ text_of "}" ++ tl.
Definition member_lines (first : bool) (fs : fields) (vs : list value) : list byte :=
  lines first (json_members std (n + 2) fs vs) ++ brace.

(** The reader is in front of the first of the values [vs] of the members [fs],
    or behind the last of them. *)
Definition positioned (fs : fields) (vs : list value) (m : Cursor) (s : list byte) : Prop :=
  match fs, vs with
  | FNil, [] => done_ m = true /\ s = tl
  | FCons name t _ rest, v :: vs => done_ m = false /\ current_field_name_ m = name /\
      s = json std (n + 2) t v ++ member_lines false rest vs
  | _, _ => False
  end.

Definition next_position (m : Cursor) (fs : fields) : Cursor :=
  match fs with FNil => at_end m | FCons name _ _ _ => at_member m name end.

Lemma next_positioned m fs vs : done_ m = false -> legible_members std fs vs ->
  positioned fs vs (next_position m fs) (match fs, vs with
    | FCons _ t _ rest, v :: vs => json std (n + 2) t v ++ member_lines false rest vs | _, _ => tl end).
Proof. destruct fs as [|name t initial rest], vs as [|v vs]; cbn; naive_solver. Qed.

Lemma IgnoreWhitespace_brace : IgnoreWhitespace brace = Done (text_of "}" ++ tl).
Proof. unfold brace. rewrite app_assoc. apply IgnoreWhitespace_white; [apply white_line|done]. Qed.

Lemma member_lines_ends fs vs : ends (member_lines false fs vs).
Proof. unfold ends, member_lines. destruct fs, vs; cbn; auto. Qed.

(** [Prepare_JSON5Member] and what follows a value lead to the next position. *)
Lemma Prepare_positioned m fs vs w : done_ m = false -> white w -> json_fields fs -> legible_members std fs vs -> exists s',
  Prepare_JSON5Member m (w ++ member_lines true fs vs) = Done (next_position m fs, s') /\
  positioned fs vs (next_position m fs) s'.
Proof.
  intros Hm Hw Hf Hv. destruct fs as [|name t initial rest], vs as [|v vs]; try done.
  - exists tl. split; [|by cbn]. unfold Prepare_JSON5Member, member_lines. cbn [json_members lines app].
    unfold brace. rewrite (app_assoc newline), (app_assoc w), IgnoreWhitespace_white, bind_done;
      [|apply list.Forall_app; split; [done|apply white_line]|done].
    change (Peek (text_of "}" ++ tl)) with 125. cbn [Z.eqb Pos.eqb]. by rewrite ReadLiteral_here.
  - destruct Hf as (Hn & Ht & _), Hv as [Hv _].
    exists (json std (n + 2) t v ++ member_lines false rest vs). split; [|by cbn].
    unfold Prepare_JSON5Member, member_lines. rewrite json_members_cons. cbn [lines app]. rewrite <- !app_assoc.
    rewrite (app_assoc w), IgnoreWhitespace_white, bind_done;
      [|apply list.Forall_app; split; [done|apply white_spaces]|done].
    set (after := json std (n + 2) t v ++ _). change (Peek (quoted name ++ _)) with 34. cbn [Z.eqb Pos.eqb].
    unfold Read_JSON5MemberName. rewrite IgnoreWhitespace_none, bind_done by done.
    change (Peek (quoted name ++ _)) with 34. cbn [Z.eqb Pos.eqb]. rewrite Read_plain, bind_done by done.
    change (text_of " : " ++ after) with ([byte.of_Z 32] ++ text_of ":" ++ [byte.of_Z 32] ++ after).
    assert (Hsp : white [byte.of_Z 32]) by (by constructor).
    rewrite ReadLiteral_white, bind_done by done.
    rewrite IgnoreWhitespace_white, bind_done; [done|done|].
    eapply begins_starts, json_begins; done.
Qed.

Lemma Next_positioned m fs vs : done_ m = false -> json_fields fs -> legible_members std fs vs -> exists s',
  NextMember m (member_lines false fs vs) = Done (next_position m fs, s') /\
  positioned fs vs (next_position m fs) s'.
Proof.
  intros Hm Hf Hv. destruct fs as [|name t initial rest], vs as [|v vs]; try done.
  - exists tl. split; [|by cbn]. unfold NextMember, member_lines. cbn [json_members lines app].
    rewrite IgnoreWhitespace_brace, bind_done. change (Peek (text_of "}" ++ tl)) with 125. cbn [Z.eqb Pos.eqb negb].
    by rewrite ReadLiteral_here.
  - destruct (Prepare_positioned m (FCons name t initial rest) (v :: vs) newline Hm) as (s' & E & Hp);
      [apply (white_line 0)|done..|].
    exists s'. split; [|done]. rewrite <- E. unfold NextMember, member_lines. rewrite json_members_cons. cbn [lines].
    rewrite <- !app_assoc. rewrite IgnoreWhitespace_none, bind_done by done.
    change (text_of ",") with [byte.of_Z 44]. cbn [app Peek]. change (char_code (byte.of_Z 44)) with 44.
    cbn [Z.eqb Pos.eqb negb Get]. rewrite bind_done. done.
Qed.
End members.

(** ** What is skipped *)
Lemma Ignore_Array_step fuel s :
  Ignore_JSON5Array pn (S fuel) s =
  (s ← IgnoreWhitespace s;
   if Peek s =? 93 then '(_, s) ← Get s; Done s
   else
     s ← Ignore_JSON5Value pn fuel s;
     s ← IgnoreWhitespace s;
     if Peek s =? 44 then '(_, s) ← Get s; Ignore_JSON5Array pn fuel s
     else if Peek s =? 93 then '(_, s) ← Get s; Done s
     else Error).
Proof. reflexivity. Qed.

Lemma Ignore_Object_step fuel s :
  Ignore_JSON5Object pn (S fuel) s =
  (s ← IgnoreWhitespace s;
   if Peek s =? 125 then '(_, s) ← Get s; Done s
   else
     '(_, s) ← Read_JSON5MemberName s;
     s ← IgnoreWhitespace s;
     s ← ReadLiteral (text_of ":") s;
     s ← IgnoreWhitespace s;
     s ← Ignore_JSON5Value pn fuel s;
     s ← IgnoreWhitespace s;
     if Peek s =? 44 then '(_, s) ← Get s; Ignore_JSON5Object pn fuel s
     else if Peek s =? 125 then '(_, s) ← Get s; Done s
     else Error).
Proof. reflexivity. Qed.

Definition skips (text : list byte) : Prop := forall fuel tl, ends tl -> (2 * length text + 1 <= fuel)%nat ->
  Ignore_JSON5Value pn fuel (text ++ tl) = Done tl.

Definition skips_item {A} (text : A -> list byte) (v : A) : Prop :=
  (exists t, begins t (text v)) /\ skips (text v).

Lemma Ignore_items {A} (text : A -> list byte) n tl items : Forall (skips_item text) items -> forall w fuel,
  white w -> (2 * length (lines false (indented text n items)) + 1 <= fuel)%nat ->
  Ignore_JSON5Array pn fuel (w ++ at_item text n items tl) = Done tl.
Proof.
  induction 1 as [|v vs [[t Hb] Hv] Hvs IH]; intros w [|fuel] Hw Hf; try lia; rewrite Ignore_Array_step;
    cbn [at_item].
  - rewrite IgnoreWhitespace_white by done. done.
  - destruct (begins_starts _ _ (lines false (indented text n vs) ++ closing n tl) Hb) as (Hs & Hp & _).
    rewrite IgnoreWhitespace_white by done. rewrite bind_done, (proj2 (Z.eqb_neq _ _) Hp).
    cbn [indented map lines] in Hf. rewrite !length_app in Hf.
    change (length (text_of ",")) with 1%nat in Hf. change (length newline) with 1%nat in Hf.
    rewrite Hv, bind_done by (apply closing_ends || lia).
    destruct vs as [|v' vs].
    + cbn [lines indented map app]. rewrite IgnoreWhitespace_closing, bind_done.
      done.
    + inversion Hvs as [|? ? [[t' Hb'] _] _]; subst.
      cbn [lines indented map]. rewrite <- !app_assoc.
      change (text_of ",") with [byte.of_Z 44]. cbn [app]. rewrite IgnoreWhitespace_none by done. rewrite bind_done.
      cbn [Peek]. change (char_code (byte.of_Z 44)) with 44. cbn [Z.eqb Pos.eqb Get]. rewrite bind_done.
      rewrite (app_assoc newline). fold (indented text n vs).
      apply (IH (newline ++ spaces (n + 4)) fuel); [apply white_line|].
      fold (indented text n (v' :: vs)) in Hf. lia.
Qed.

Lemma Ignore_array_text {A} (text : A -> list byte) n items :
  Forall (skips_item text) items -> skips (json_array n (map text items)).
Proof.
  intros Hi [|fuel] tl Ht Hf; [lia|]. unfold json_array, block in *. fold (indented text n items) in *.
  rewrite <- !app_assoc in *. cbn [Ignore_JSON5Value]. cbv zeta.
  change (Peek (text_of "[" ++ _)) with 91. cbn [Z.eqb Pos.eqb]. rewrite ReadLiteral_here, bind_done by done.
  fold (closing n tl). repeat rewrite length_app in Hf.
  change (length (text_of "[")) with 1%nat in Hf. change (length newline) with 1%nat in Hf.
  assert (Hl : (2 * length (lines false (indented text n items)) + 1 <= fuel)%nat).
  { destruct items as [|v vs]; cbn [indented map lines] in *; [cbn; lia|].
    rewrite !length_app in *. change (length (text_of ",")) with 1%nat. change (length newline) with 1%nat. cbn in Hf. lia. }
  destruct items as [|v vs].
  - apply (Ignore_items text n tl [] Hi (newline ++ newline ++ spaces (n + 2))); [|done].
    constructor; [done|apply white_line].
  - cbn [indented map lines app]. rewrite <- !app_assoc, (app_assoc newline).
    apply (Ignore_items text n tl (v :: vs) Hi (newline ++ spaces (n + 4))); [apply white_line|done].
Qed.

Lemma member_lines_cons std n tl first name t initial rest v vs :
  member_lines std n tl first (FCons name t initial rest) (v :: vs) =
  (if first then [] else text_of "," ++ newline) ++ spaces (n + 2 + 2) ++ quoted name ++ text_of " : " ++
  json std (n + 2) t v ++ member_lines std n tl false rest vs.
Proof. unfold member_lines. rewrite json_members_cons. cbn [lines]. by rewrite <- !app_assoc. Qed.

Fixpoint members_skip (std : bool) (n : Z) (fs : fields) (vs : list value) : Prop :=
  match fs, vs with
  | FCons _ t _ rest, v :: vs => skips_item (json std n t) v /\ members_skip std n rest vs
  | _, _ => True
  end.

Lemma Ignore_members std n tl fs : json_fields fs -> forall vs w fuel, legible_members std fs vs ->
  members_skip std (n + 2) fs vs -> white w ->
  (2 * length (lines false (json_members std (n + 2) fs vs)) + 1 <= fuel)%nat ->
  Ignore_JSON5Object pn fuel (w ++ member_lines std n tl true fs vs) = Done tl.
Proof.
  induction fs as [|name t initial rest IH]; intros Hf vs w [|fuel] Hl Hs Hw Hfu; try lia;
    destruct vs as [|v vs]; try done; rewrite Ignore_Object_step.
  - unfold member_lines. cbn [json_members lines app]. unfold brace.
    rewrite (app_assoc newline), (app_assoc w), IgnoreWhitespace_white;
      [done|apply list.Forall_app; split; [done|apply white_line]|done].
  - destruct Hf as (Hn & Ht & Hf), Hl as [Hl Hls], Hs as [[[t' Hb] Hs] Hss].
    rewrite json_members_cons in Hfu. cbn [lines] in Hfu. repeat rewrite length_app in Hfu.
    change (length (text_of ",")) with 1%nat in Hfu. change (length newline) with 1%nat in Hfu.
    rewrite member_lines_cons. cbn [app].
    rewrite (app_assoc w), IgnoreWhitespace_white, bind_done;
      [|apply list.Forall_app; split; [done|apply white_spaces]|done].
    set (after := json std (n + 2) t v ++ _). change (Peek (quoted name ++ _)) with 34. cbn [Z.eqb Pos.eqb].
    unfold Read_JSON5MemberName. rewrite IgnoreWhitespace_none, bind_done by done.
    change (Peek (quoted name ++ _)) with 34. cbn [Z.eqb Pos.eqb]. rewrite Read_plain, bind_done by done.
    change (text_of " : " ++ after) with ([byte.of_Z 32] ++ text_of ":" ++ [byte.of_Z 32] ++ after).
    assert (Hsp : white [byte.of_Z 32]) by (by constructor).
    rewrite IgnoreWhitespace_white, bind_done by done. rewrite ReadLiteral_here, bind_done by done.
    rewrite IgnoreWhitespace_white, bind_done; [|done|by eapply begins_starts].
    unfold after. rewrite Hs, bind_done by (apply member_lines_ends || lia).
    destruct rest as [|name' t'' initial' rest], vs as [|v' vs]; try done.
    + unfold member_lines. cbn [json_members lines app]. by rewrite IgnoreWhitespace_brace.
    + rewrite (member_lines_cons _ _ _ false). rewrite <- !app_assoc.
      rewrite IgnoreWhitespace_none, bind_done by done. change (text_of ",") with [byte.of_Z 44].
      cbn [app Peek]. change (char_code (byte.of_Z 44)) with 44. cbn [Z.eqb Pos.eqb Get]. rewrite bind_done.
      rewrite <- (IH Hf (v' :: vs) newline fuel Hls Hss (white_line 0)) by lia.
      by rewrite (member_lines_cons _ _ _ true).
Qed.

Lemma Ignore_object_text std n fs vs : json_fields fs -> legible_members std fs vs -> members_skip std (n + 2) fs vs ->
  skips (block (text_of "{") (text_of "}") n (json_members std (n + 2) fs vs)).
Proof.
  intros Hf Hl Hs [|fuel] tl Ht Hfu; [lia|]. unfold block in *. rewrite <- !app_assoc in *.
  cbn [Ignore_JSON5Value]. cbv zeta. change (Peek (text_of "{" ++ _)) with 123. cbn [Z.eqb Pos.eqb].
  rewrite ReadLiteral_here, bind_done by done. fold (brace n tl). fold (member_lines std n tl true fs vs).
  repeat rewrite length_app in Hfu. change (length (text_of "{")) with 1%nat in Hfu.
  change (length newline) with 1%nat in Hfu.
  apply (Ignore_members std n tl fs Hf vs newline); [done|done|apply (white_line 0)|].
  destruct (json_members std (n + 2) fs vs); cbn [lines] in *; [cbn; lia|].
  rewrite !length_app in *. change (length (text_of ",")) with 1%nat. change (length newline) with 1%nat.
  cbn [length] in Hfu. lia.
Qed.

(** The text of any value is skipped exactly. *)
Lemma skips_string s b : (forall tl, Read_JSON5String (quoted s ++ tl) = Done (b, tl)) -> skips (quoted s).
Proof.
  intros Hs [|fuel] tl _ Hf; [lia|]. cbn [Ignore_JSON5Value]. cbv zeta.
  change (Peek (quoted s ++ tl)) with 34. cbn [Z.eqb Pos.eqb]. by rewrite Hs.
Qed.

Lemma skips_number l : (exists c r, l = c :: r /\ (char_code c = 73 \/ char_code c = 78 \/ char_code c = 45 \/ 48 <= char_code c <= 57)) ->
  (forall tl, ends tl -> exists x, Read_JSON5Number pn (l ++ tl) = Done (x, tl)) -> skips l.
Proof.
  intros (c & r & -> & Hc) Hl [|fuel] tl Ht Hf; [lia|]. cbn [Ignore_JSON5Value]. cbv zeta.
  change (Peek ((c :: r) ++ tl)) with (char_code c). rewrite !(proj2 (Z.eqb_neq _ _)) by lia.
  destruct (Hl tl Ht) as [x ->]. done.
Qed.

Lemma skips_numeral l : numeral l -> skips l.
Proof.
  intros Hl. apply skips_number.
  - destruct (numeral_head l Hl) as (c & r & -> & Hc). exists c, r. split; [done|lia].
  - intros tl Ht. rewrite Read_number by done. eauto.
Qed.

Lemma skips_float std n size bits : size = 4%nat \/ size = 8%nat -> in_u (8 * Z.of_nat size) bits ->
  legible_float std size bits = true -> skips (Json5WriteArchive.FormatFloat (opts std n) size bits).
Proof.
  intros Hs Hb Hl. destruct (float_text std n size bits Hs Hb Hl) as [(_ & _ & Hn)|Hi]; [by apply skips_numeral|].
  apply skips_number.
  - destruct Hi as [[_ ->]|[[_ ->]|[_ ->]]]; eexists _, _; (split; [reflexivity|]); vm_compute; auto.
  - intros tl Ht. pose proof (read_float_text std n size bits tl Hs Hb Hl Ht) as E. unfold read_float in E.
    apply bind_done_inv in E as ([x s'] & E & E'). exists x. rewrite E. do 2 f_equal.
    apply bind_done_inv in E' as (y & _ & E'). by injection E'.
Qed.

Lemma json_skips std t : json_type t -> forall n v, legible std t v -> skips (json std n t v).
Proof.
  induction t using ctype_mut with (P0 := fun fs => json_fields fs -> forall n vs, legible_members std fs vs ->
    members_skip std n fs vs); intros Ht m v Hv.
  1-10: destruct v as [b|z|bits|b|p|d|vs| |v|vs]; try done; cbn [json]; try (by apply skips_numeral, decimal_numeral).
  - intros [|fuel] tl Hb Hf; [lia|]. destruct b; cbn [Ignore_JSON5Value]; cbv zeta;
      [change (Peek (_ ++ tl)) with 116|change (Peek (_ ++ tl)) with 102]; cbn [Z.eqb Pos.eqb];
      by rewrite ReadLiteral_here.
  - destruct Hv. by apply skips_float.
  - apply (Ignore_array_text (fun c => decimal (char_code c))). apply list.Forall_forall. intros c _.
    split; [exists (TUInt 1); apply numeral_begins|apply skips_numeral]; apply decimal_numeral.
  - apply (skips_string _ b). intros tl. by apply Read_escaped.
  - eapply skips_string. intros tl. by apply Read_plain, time_text.
  - eapply skips_string. intros tl. by apply Read_plain, duration_text.
  - destruct Hv as (_ & name & -> & Hp & _). eapply skips_string. intros tl. by apply Read_plain.
  - destruct Ht as [Ht _]. apply (Ignore_array_text (json std m t)). eapply list.Forall_impl; [exact Hv|]. intros v Hvv.
    split; [exists t; by apply json_begins|by apply IHt].
  - destruct v as [| | | | | |vs| | |]; try done. destruct Ht as (_ & Ht & _), Hv as [_ Hv].
    apply (Ignore_array_text (json std m t)). eapply list.Forall_impl; [exact Hv|]. intros v Hvv.
    split; [exists t; by apply json_begins|by apply IHt].
  - destruct Ht as (_ & Ht & _), v; try done; [|by apply IHt].
    intros [|fuel] tl Hb Hf; [lia|]. cbn [json Ignore_JSON5Value]. cbv zeta.
    change (Peek (_ ++ tl)) with 110. cbn [Z.eqb Pos.eqb]. by rewrite ReadLiteral_here.
  - destruct Ht as [_ Ht], v; try done. apply Ignore_object_text; [done..|]. by apply IHt.
  - done.
  - destruct v as [|v vs]; [done|]. destruct Ht as (_ & Ht & Hts), Hv as [Hv Hvs].
    split; [split; [exists t; by apply json_begins|by apply IHt]|by apply IHt0].
Qed.

End reading.
