(* ===== verification/Json5Total.v ===== *)
(** * JSON5: reading ends

    Whatever the text is, [Json5ReadArchive] reads it to an end: the loops have
    fuel enough, what is taken is taken from the front, and what is left in an
    object is an object of its class. *)
From stdpp Require Import strings.
From S2P Require Import Prelude Varuint Streams TimeConversions TelemetryFormat Archive ArchiveTheory ArchiveTyping Tokenizer CString Json5 Json5Theory Json5Format.
#[local] Open Scope Z_scope.
Import Json5ReadArchive.

(** [s'] is [s] without at least [k] characters from its front. *)
Definition after (k : nat) (s s' : list byte) : Prop := exists used, s = used ++ s' /\ (k <= length used)%nat.

Lemma after_refl s : after 0 s s.
Proof. by exists []. Qed.

Lemma after_cons c s : after 1 (c :: s) s.
Proof. exists [c]. split; [done|]. cbn. lia. Qed.

Lemma after_trans i j s1 s2 s3 : after i s1 s2 -> after j s2 s3 -> after (i + j) s1 s3.
Proof.
  intros (u1 & -> & H1) (u2 & -> & H2). exists (u1 ++ u2). rewrite app_assoc, length_app. split; [done|lia].
Qed.

Lemma after_weaken i j s s' : (j <= i)%nat -> after i s s' -> after j s s'.
Proof. intros Hj (u & -> & Hu). exists u. split; [done|lia]. Qed.

Lemma after_length k s s' : after k s s' -> (k + length s' <= length s)%nat.
Proof. intros (u & -> & Hu). rewrite length_app. lia. Qed.

(** What a reader of text gives: it does not run out of fuel, it takes at least
    [k] characters, and what it returns satisfies [P]. *)
Definition takes (k : nat) (m : outcome (list byte)) (s : list byte) : Prop := fine m (after k s).
Definition gets {A} (P : A -> Prop) (k : nat) (m : outcome (A * list byte)) (s : list byte) : Prop :=
  fine m (fun p => P p.1 /\ after k s p.2).

Lemma takes_bind i j k (m : outcome (list byte)) (f : list byte -> outcome (list byte)) s :
  takes i m s -> (forall s', after i s s' -> takes j (f s') s') -> (k <= i + j)%nat -> takes k (m ≫= f) s.
Proof.
  intros Hm Hf Hk. eapply fine_bind; [exact Hm|]. intros s' H'. eapply fine_mono; [by apply Hf|].
  intros s'' H''. eapply after_weaken; [exact Hk|]. by eapply after_trans.
Qed.

Lemma takes_gets {A} (P : A -> Prop) i j k (m : outcome (list byte)) (f : list byte -> outcome (A * list byte)) s :
  takes i m s -> (forall s', after i s s' -> gets P j (f s') s') -> (k <= i + j)%nat -> gets P k (m ≫= f) s.
Proof.
  intros Hm Hf Hk. eapply fine_bind; [exact Hm|]. intros s' H'. eapply fine_mono; [by apply Hf|].
  intros [a s''] [Ha H'']. split; [done|]. eapply after_weaken; [exact Hk|]. by eapply after_trans.
Qed.

Lemma gets_takes {A} (P : A -> Prop) i j k (m : outcome (A * list byte)) (f : A -> list byte -> outcome (list byte)) s :
  gets P i m s -> (forall a s', P a -> after i s s' -> takes j (f a s') s') -> (k <= i + j)%nat ->
  takes k ('(a, s') ← m; f a s') s.
Proof.
  intros Hm Hf Hk. eapply fine_bind; [exact Hm|]. intros [a s'] [Ha H']. eapply fine_mono; [by apply Hf|].
  intros s'' H''. eapply after_weaken; [exact Hk|]. by eapply after_trans.
Qed.

Lemma obtains_bind {A B} (P : A -> Prop) (Q : B -> Prop) i j k (m : outcome (A * list byte))
    (f : A -> list byte -> outcome (B * list byte)) s :
  gets P i m s -> (forall a s', P a -> after i s s' -> gets Q j (f a s') s') -> (k <= i + j)%nat ->
  gets Q k ('(a, s') ← m; f a s') s.
Proof.
  intros Hm Hf Hk. eapply fine_bind; [exact Hm|]. intros [a s'] [Ha H']. eapply fine_mono; [by apply Hf|].
  intros [b s''] [Hb H'']. split; [done|]. eapply after_weaken; [exact Hk|]. by eapply after_trans.
Qed.

Lemma obtains_done {A} (P : A -> Prop) a s : P a -> gets P 0 (Done (a, s)) s.
Proof. intros Ha. split; [done|apply after_refl]. Qed.

Lemma takes_done s : takes 0 (Done s) s.
Proof. apply after_refl. Qed.

Lemma gets_weaken {A} (P Q : A -> Prop) i j (m : outcome (A * list byte)) s :
  (forall a, P a -> Q a) -> (j <= i)%nat -> gets P i m s -> gets Q j m s.
Proof.
  intros HP Hj Hm. eapply fine_mono; [exact Hm|]. intros [a s'] [Ha H']. split; [by apply HP|]. by eapply after_weaken.
Qed.

Lemma takes_weaken i j (m : outcome (list byte)) s : (j <= i)%nat -> takes i m s -> takes j m s.
Proof. intros Hj Hm. eapply fine_mono; [exact Hm|]. intros s' H'. by eapply after_weaken. Qed.

Definition any {A} (_ : A) : Prop := True.

Lemma gets_Get s : gets any 1 (Get s) s.
Proof. destruct s as [|c s]; [done|]. split; [done|apply after_cons]. Qed.

Lemma gets_error {A} (P : A -> Prop) k s : gets P k Error s.
Proof. done. Qed.

Lemma takes_error k s : takes k Error s.
Proof. done. Qed.

Create HintDb json5.
#[export] Hint Resolve gets_Get gets_error takes_error obtains_done takes_done : json5.

(** The next step of a reader takes [i] characters and what follows [j]. *)
Ltac step i j := cbv zeta; first
  [ eapply (obtains_bind _ _ i j); [solve [eauto with json5]|intros ? ? ? ?|lia]
  | eapply (gets_takes _ i j); [solve [eauto with json5]|intros ? ? ? ?|lia]
  | eapply (takes_gets _ i j); [solve [eauto with json5]|intros ? ?|lia]
  | eapply (takes_bind i j); [solve [eauto with json5]|intros ? ?|lia] ].

(** All branches of the conditionals in front. *)
Ltac branches := repeat match goal with
  | |- gets _ _ (if ?b then _ else _) _ => destruct b
  | |- takes _ (if ?b then _ else _) _ => destruct b
  end; eauto with json5.

Lemma takes_ReadUntilOneOf possible s : takes 1 (ReadUntilOneOf possible s) s.
Proof.
  induction s as [|c s IH]; [done|]. cbn [ReadUntilOneOf]. case_bool_decide; [apply after_cons|].
  eapply fine_mono; [exact IH|]. intros s' H'. eapply after_weaken; [|eapply after_trans; [apply after_cons|exact H']]. lia.
Qed.

Lemma takes_ReadUntil terminus s : terminus <> [] -> forall current, current <> [] -> takes 1 (ReadUntil terminus current s) s.
Proof.
  intros Ht. induction s as [|c s IH]; intros [|x current] Hc; try done. cbn [ReadUntil].
  assert (Hn : forall current, current <> [] -> takes 1 (ReadUntil terminus current s) (c :: s)).
  { intros cur Hcur. eapply fine_mono; [by apply IH|]. intros s' H'.
    eapply after_weaken; [|eapply after_trans; [apply after_cons|exact H']]. lia. }
  destruct (_ =? _); [|by apply Hn]. destruct current; [apply after_cons|by apply Hn].
Qed.

Lemma takes_IgnoreWhitespace_loop fuel s : (length s < fuel)%nat -> takes 0 (IgnoreWhitespace_loop fuel s) s.
Proof.
  revert s. induction fuel as [|fuel IH]; intros s Hf; [lia|]. cbn [IgnoreWhitespace_loop]. cbv zeta.
  assert (Hn : forall k s', after (S k) s s' -> takes 0 (IgnoreWhitespace_loop fuel s') s').
  { intros k s' H'. apply IH. apply after_length in H'. lia. }
  branches.
  - step 1%nat 0%nat. eauto.
  - step 1%nat 0%nat. step 1%nat 0%nat. assert (H' : after 2 s s'0) by (by apply (after_trans 1 1 s s')).
    branches.
    + eapply (takes_bind 1 0); [apply takes_ReadUntilOneOf|intros s2 Hu|lia]. apply (Hn 2%nat). by apply (after_trans 2 1 s s'0).
    + eapply (takes_bind 1 0); [by apply takes_ReadUntil|intros s2 Hu|lia]. apply (Hn 2%nat). by apply (after_trans 2 1 s s'0).
Qed.

Lemma takes_IgnoreWhitespace s : takes 0 (IgnoreWhitespace s) s.
Proof. apply takes_IgnoreWhitespace_loop. lia. Qed.
#[export] Hint Resolve takes_IgnoreWhitespace : json5.

Lemma takes_ReadCharacters literal s : takes (length literal) (ReadCharacters literal s) s.
Proof.
  revert s. induction literal as [|x literal IH]; intros s; [apply takes_done|]. cbn [ReadCharacters length].
  step 1%nat (length literal). branches.
Qed.

Lemma takes_ReadLiteral literal s : takes (length literal) (ReadLiteral literal s) s.
Proof. unfold ReadLiteral. step 0%nat (length literal). apply takes_ReadCharacters. Qed.

Lemma takes_one literal s : literal <> [] -> takes 1 (ReadLiteral literal s) s.
Proof. intros Hl. eapply takes_weaken; [|apply takes_ReadLiteral]. destruct literal; [done|]. cbn. lia. Qed.

(** Literals that are not empty. *)
Ltac literal k j := first
  [ eapply (takes_gets _ k j); [by apply takes_one|intros ? ?|lia]
  | eapply (takes_bind k j); [by apply takes_one|intros ? ?|lia] ].

Lemma take_while_after p s : let '(w, s') := take_while p s in s = w ++ s'.
Proof.
  induction s as [|c s IH]; [done|]. cbn [take_while]. destruct (p _); [|done].
  destruct (take_while p s) as [w s']. by rewrite IH.
Qed.

Lemma gets_take_while p s : gets any 0 (Done (take_while p s)) s.
Proof.
  pose proof (take_while_after p s) as E. destruct (take_while p s) as [w s']. rewrite E. split; [done|].
  exists w. split; [done|lia].
Qed.

Lemma fine_stol bits base s : fine (stol bits base s) any.
Proof. unfold stol. destruct (scan_integer base s) as [[[? ?] ?]|]; [cbv zeta; by destruct (_ && _)|done]. Qed.

Lemma fine_stoull base s : fine (stoull base s) (fun r => in_u 64 r.1).
Proof.
  unfold stoull. destruct (scan_integer base s) as [[[? ?] ?]|]; [|done]. destruct (_ <=? _); [done|].
  by apply uwrap_range.
Qed.

Lemma gets_value {A B} (P : A -> Prop) (Q : B -> Prop) (m : outcome A) (f : A -> outcome (B * list byte)) k s :
  fine m P -> (forall a, P a -> gets Q k (f a) s) -> gets Q k (m ≫= f) s.
Proof. intros Hm Hf. eapply fine_bind; [exact Hm|done]. Qed.

Lemma gets_escape s : gets any 1 (Read_EscapeSequence s) s.
Proof.
  unfold Read_EscapeSequence. step 1%nat 0%nat. branches; try by apply obtains_done.
  eapply (obtains_bind _ _ 1 0); [apply gets_Get|intros c1 s1 _ H1|lia].
  eapply (obtains_bind _ _ 1 0); [apply gets_Get|intros c2 s2 _ H2|lia].
  eapply gets_value; [apply fine_stol|]. intros [z pos] _. by apply obtains_done.
Qed.
#[export] Hint Resolve gets_escape : json5.

Lemma gets_terminated fuel terminator s ostr :
  (length s < fuel)%nat -> gets any 0 (Read_JSON5TerminatedString fuel terminator s ostr) s.
Proof.
  revert s ostr. induction fuel as [|fuel IH]; intros s ostr Hf; [lia|]. cbn [Read_JSON5TerminatedString].
  eapply (obtains_bind _ _ 1 0); [apply gets_Get|intros c s1 _ H1|lia]. apply after_length in H1 as Hl.
  branches; [by apply obtains_done| |done|apply IH; lia].
  eapply (obtains_bind _ _ 1 0); [apply gets_escape|intros e s2 _ H2|lia]. apply after_length in H2. apply IH. lia.
Qed.

Lemma gets_String s : gets any 1 (Read_JSON5String s) s.
Proof.
  unfold Read_JSON5String. eapply (obtains_bind _ _ 1 0); [apply gets_Get|intros c s1 _ H1|lia].
  branches. apply gets_terminated. lia.
Qed.
#[export] Hint Resolve gets_String : json5.

Lemma gets_Identifier s : gets any 1 (Read_JSON5Identifier s) s.
Proof.
  unfold Read_JSON5Identifier. eapply (obtains_bind _ _ 1 0); [apply gets_Get|intros c s1 _ H1|lia].
  branches. pose proof (gets_take_while IsIdentifierCharacter s1) as Hw.
  destruct (take_while _ s1) as [w s2]. by destruct Hw.
Qed.
#[export] Hint Resolve gets_Identifier : json5.

Lemma gets_MemberName s : gets any 1 (Read_JSON5MemberName s) s.
Proof. unfold Read_JSON5MemberName. step 0%nat 1%nat. branches. Qed.
#[export] Hint Resolve gets_MemberName : json5.

(** ** Numbers *)
Lemma gets_DecimalDigits s : gets any 0 (Done (Read_DecimalDigits s)) s.
Proof. apply gets_take_while. Qed.

Lemma gets_SignedInteger s : gets any 0 (Read_SignedInteger s) s.
Proof.
  unfold Read_SignedInteger. branches; [|apply gets_DecimalDigits].
  eapply (obtains_bind _ _ 1 0); [apply gets_Get|intros c s1 _ H1|lia].
  pose proof (gets_DecimalDigits s1) as Hw. destruct (Read_DecimalDigits s1) as [w s2]. by destruct Hw.
Qed.
#[export] Hint Resolve gets_SignedInteger : json5.

Lemma gets_ExponentPart s : gets any 0 (Read_ExponentPart s) s.
Proof.
  unfold Read_ExponentPart. branches; [by apply obtains_done|].
  eapply (obtains_bind _ _ 1 0); [apply gets_Get|intros c s1 _ H1|lia].
  eapply (obtains_bind _ _ 0 0); [apply gets_SignedInteger|intros d s2 _ H2|lia]. by apply obtains_done.
Qed.
#[export] Hint Resolve gets_ExponentPart : json5.

(** A reader that goes on from [s1], behind [s]. *)
Lemma gets_after {A} (P : A -> Prop) i j k (m : outcome (A * list byte)) s s1 :
  after i s s1 -> gets P j m s1 -> (k <= i + j)%nat -> gets P k m s.
Proof.
  intros Hs Hm Hk. eapply fine_mono; [exact Hm|]. intros [a s2] [Ha H2]. split; [done|].
  eapply after_weaken; [exact Hk|]. by eapply after_trans.
Qed.

Lemma gets_DecimalLiteral zero s : gets any 0 (Read_DecimalLiteral zero s) s.
Proof.
  unfold Read_DecimalLiteral. cbv zeta.
  assert (Hi : gets any 0 (Done (if negb ((if zero then 48 else Peek s) =? 46)
    then Read_DecimalIntegerLiteral zero s else ([], s))) s).
  { destruct (negb _); [|by apply obtains_done]. unfold Read_DecimalIntegerLiteral.
    destruct zero; [by apply obtains_done|apply gets_DecimalDigits]. }
  destruct (if negb _ then _ else _) as [ostr s1]. destruct Hi as [_ Hi]. cbn [snd] in Hi.
  apply (gets_after _ 0 0 0 _ s s1 Hi); [|lia]. branches; [| |by apply obtains_done].
  - eapply (obtains_bind _ _ 1 0); [apply gets_Get|intros c s2 _ H2|lia].
    pose proof (gets_DecimalDigits s2) as Hw. destruct (Read_DecimalDigits s2) as [w s3]. destruct Hw as [_ Hw].
    apply (gets_after _ 0 0 0 _ s2 s3 Hw); [|lia].
    eapply (obtains_bind _ _ 0 0); [apply gets_ExponentPart|intros e s4 _ H4|lia]. by apply obtains_done.
  - eapply (obtains_bind _ _ 0 0); [apply gets_ExponentPart|intros e s4 _ H4|lia]. by apply obtains_done.
Qed.

Lemma gets_radix base initial p s :
  gets any 0 (Done (number base (let '(w, s') := take_while p s in (over initial w, s')))) s.
Proof.
  pose proof (take_while_after p s) as E. destruct (take_while p s) as [w s']. split; [done|]. rewrite E. exists w.
  split; [done|lia].
Qed.

(** A numeral that took no character is empty. *)
Definition solid {A} (text : A -> list byte) (m : outcome (A * list byte)) (s : list byte) : Prop :=
  fine m (fun p => after 0 s p.2 /\ (text p.1 = [] \/ after 1 s p.2)).

Lemma gets_solid {A} (text : A -> list byte) (m : outcome (A * list byte)) s : gets any 1 m s -> solid text m s.
Proof.
  intros Hm. eapply fine_mono; [exact Hm|]. intros p [_ Hp]. split; [by eapply after_weaken; [|exact Hp]; lia|by right].
Qed.

Lemma solid_DecimalLiteral s : solid id (Read_DecimalLiteral false s) s.
Proof.
  unfold Read_DecimalLiteral. cbv zeta. destruct (Z.eqb_spec (Peek s) 46) as [E|E]; cbn [negb].
  - rewrite E. cbn [Z.eqb Pos.eqb]. apply gets_solid.
    eapply (obtains_bind _ _ 1 0); [apply gets_Get|intros c s2 _ H2|lia].
    pose proof (gets_DecimalDigits s2) as Hw. destruct (Read_DecimalDigits s2) as [w s3]. destruct Hw as [_ Hw].
    apply (gets_after _ 0 0 0 _ s2 s3 Hw); [|lia].
    eapply (obtains_bind _ _ 0 0); [apply gets_ExponentPart|intros e s4 _ H4|lia]. by apply obtains_done.
  - pose proof (gets_DecimalLiteral false s) as Hall. unfold Read_DecimalLiteral in Hall. cbv zeta in Hall.
    rewrite (proj2 (Z.eqb_neq _ _) E) in Hall. cbn [negb] in Hall.
    pose proof (take_while_after isdigit s) as Ew. unfold Read_DecimalIntegerLiteral, Read_DecimalDigits in *.
    destruct (take_while isdigit s) as [[|c w] s1]; cbn [app] in *.
    + subst s1. rewrite (proj2 (Z.eqb_neq _ _) E) in *.
      destruct ((Peek s =? 101) || (Peek s =? 69)) eqn:Ee; [|split; [apply after_refl|by left]].
      apply gets_solid. eapply (obtains_bind any any 1 0); [|intros e s4 _ H4; by apply obtains_done|lia].
      unfold Read_ExponentPart. replace (negb (Peek s =? 101) && negb (Peek s =? 69)) with false
        by (rewrite <- negb_orb, Ee; done).
      eapply (obtains_bind _ _ 1 0); [apply gets_Get|intros x s5 _ H5|lia].
      eapply (obtains_bind _ _ 0 0); [apply gets_SignedInteger|intros d s6 _ H6|lia]. by apply obtains_done.
    + apply gets_solid. assert (H1 : after 1 s s1) by (exists (c :: w); split; [done|cbn; lia]).
      apply (gets_after _ 1 0 1 _ s s1 H1); [|lia]. branches; [| |by apply obtains_done].
      * eapply (obtains_bind _ _ 1 0); [apply gets_Get|intros c2 s2 _ H2|lia].
        pose proof (gets_DecimalDigits s2) as Hw. unfold Read_DecimalDigits in Hw.
        destruct (take_while isdigit s2) as [w2 s3]. destruct Hw as [_ Hw].
        apply (gets_after _ 0 0 0 _ s2 s3 Hw); [|lia].
        eapply (obtains_bind _ _ 0 0); [apply gets_ExponentPart|intros e s4 _ H4|lia]. by apply obtains_done.
      * eapply (obtains_bind _ _ 0 0); [apply gets_ExponentPart|intros e s4 _ H4|lia]. by apply obtains_done.
Qed.

Lemma gets_number base (m : outcome (list byte * list byte)) s : gets any 0 m s -> gets any 0 (number base <$> m) s.
Proof. destruct m as [[w s']|f]; [|done]. by intros [_ Hs]. Qed.

Lemma solid_NumericLiteral pn s : solid text (Read_NumericLiteral pn s) s.
Proof.
  unfold Read_NumericLiteral. cbv zeta.
  repeat match goal with |- solid _ (if ?b then _ else _) _ => destruct b end.
  1-3: apply gets_solid; eapply (takes_gets _ 1 0); [by apply takes_one|intros; by apply obtains_done|lia].
  - pose proof (solid_DecimalLiteral s) as Hd. by destruct (Read_DecimalLiteral false s) as [[w s1]|f].
  - apply gets_solid. eapply (obtains_bind _ _ 1 0); [apply gets_Get|intros c s1 _ H1|lia]. branches.
    1-3: eapply (obtains_bind _ _ 1 0); [apply gets_Get|intros c2 s2 _ H2|lia]; apply gets_radix.
    apply gets_number, gets_DecimalLiteral.
Qed.

Lemma solid_Number pn s : solid text (Read_JSON5Number pn s) s.
Proof.
  unfold Read_JSON5Number. destruct (_ || _); [|apply solid_NumericLiteral]. apply gets_solid.
  eapply (obtains_bind _ _ 1 0); [apply gets_Get|intros c s1 _ H1|lia].
  pose proof (solid_NumericLiteral pn s1) as Hn. destruct (Read_NumericLiteral pn s1) as [[x s2]|f]; [|done].
  destruct Hn as [Ha _]. split; [done|exact Ha].
Qed.

(** What is made of a numeral is made of some characters. *)
Lemma gets_of_number {B} pn (Q : B -> Prop) (g : Number * list byte -> outcome (B * list byte)) s :
  (forall x s', text x = [] -> is_done (g (x, s')) = false) ->
  (forall x s', fine (g (x, s')) (fun p => Q p.1 /\ p.2 = s')) ->
  gets Q 1 (Read_JSON5Number pn s ≫= g) s.
Proof.
  intros He Hg. pose proof (solid_Number pn s) as Hn. destruct (Read_JSON5Number pn s) as [[x s1]|fl]; [|exact Hn].
  destruct Hn as [_ Hn]. rewrite bind_done. specialize (He x s1). specialize (Hg x s1).
  destruct (g (x, s1)) as [[b s2]|fl]; [|exact Hg]. destruct Hg as [Hq E]. cbn [snd] in E. subst s2. split; [exact Hq|].
  destruct Hn as [Hn|Hn]; [|exact Hn]. by specialize (He Hn).
Qed.

Lemma scan_empty base : scan_integer base [] = None.
Proof. unfold scan_integer, prefix_in. destruct (base =? 0), (base =? 16); reflexivity. Qed.

Lemma stol_empty bits base s : text s = [] -> stol bits base (text s) = Faulted (Exception kInvalidArgument).
Proof. intros ->. unfold stol. by rewrite scan_empty. Qed.
Lemma stoull_empty base s : text s = [] -> stoull base (text s) = Faulted (Exception kInvalidArgument).
Proof. intros ->. unfold stoull. by rewrite scan_empty. Qed.

Lemma gets_any_Number pn s : gets any 0 (Read_JSON5Number pn s) s.
Proof.
  pose proof (solid_Number pn s) as Hn. destruct (Read_JSON5Number pn s) as [[x s1]|f]; [|done].
  destruct Hn as [Ha _]. by split.
Qed.
#[export] Hint Resolve gets_any_Number : json5.

(** ** What is skipped *)
Lemma Ignore_ends pn fuel : forall s,
  ((2 * length s + 1 <= fuel)%nat -> takes 0 (Ignore_JSON5Value pn fuel s) s) /\
  ((2 * length s + 2 <= fuel)%nat -> takes 0 (Ignore_JSON5Array pn fuel s) s) /\
  ((2 * length s + 2 <= fuel)%nat -> takes 0 (Ignore_JSON5Object pn fuel s) s).
Proof.
  induction fuel as [|fuel IH]; intros s; [split_and!; lia|].
  assert (IHv : forall k s', after k s s' -> (2 * length s + 1 <= fuel + 2 * k)%nat -> takes 0 (Ignore_JSON5Value pn fuel s') s').
  { intros k s' H1 Hf. apply after_length in H1. apply IH. lia. }
  assert (IHa : forall k s', after (S k) s s' -> (2 * length s + 1 <= S fuel)%nat -> takes 0 (Ignore_JSON5Array pn fuel s') s').
  { intros k s' H1 Hf. apply after_length in H1. apply IH. lia. }
  assert (IHo : forall k s', after (S k) s s' -> (2 * length s + 1 <= S fuel)%nat -> takes 0 (Ignore_JSON5Object pn fuel s') s').
  { intros k s' H1 Hf. apply after_length in H1. apply IH. lia. }
  split_and!; intros Hf; [cbn [Ignore_JSON5Value]; cbv zeta|cbn [Ignore_JSON5Array]|cbn [Ignore_JSON5Object]].
  - branches; try (eapply takes_weaken; [|by apply takes_one]; lia).
    + step 1%nat 0%nat. apply takes_done.
    + eapply (takes_bind 1 0); [by apply takes_one|intros s1 H1|lia]. by eapply IHa.
    + eapply (takes_bind 1 0); [by apply takes_one|intros s1 H1|lia]. by eapply IHo.
    + step 0%nat 0%nat. apply takes_done.
  - eapply (takes_bind 0 0); [apply takes_IgnoreWhitespace|intros s1 H1|lia]. branches.
    { eapply (gets_takes any 1 0); [apply gets_Get|intros c s2 _ _; apply takes_done|lia]. }
    eapply (takes_bind 0 0); [apply (IHv 0%nat); [done|lia]|intros s2 H2|lia].
    eapply (takes_bind 0 0); [apply takes_IgnoreWhitespace|intros s3 H3|lia]. branches.
    + eapply (gets_takes any 1 0); [apply gets_Get|intros c s4 _ H4|lia]. apply (IHa 0%nat); [|lia].
      apply (after_trans 0 1 s s3); [|done]. apply (after_trans 0 0 s s2); [|done]. by apply (after_trans 0 0 s s1).
    + eapply (gets_takes any 1 0); [apply gets_Get|intros c s4 _ _; apply takes_done|lia].
  - eapply (takes_bind 0 0); [apply takes_IgnoreWhitespace|intros s1 H1|lia]. branches.
    { eapply (gets_takes any 1 0); [apply gets_Get|intros c s2 _ _; apply takes_done|lia]. }
    eapply (gets_takes any 1 0); [apply gets_MemberName|intros c s2 _ H2|lia].
    eapply (takes_bind 0 0); [apply takes_IgnoreWhitespace|intros s3 H3|lia].
    eapply (takes_bind 1 0); [by apply takes_one|intros s4 H4|lia].
    eapply (takes_bind 0 0); [apply takes_IgnoreWhitespace|intros s5 H5|lia].
    assert (H' : after 2 s s5).
    { apply (after_trans 2 0 s s4); [|done]. apply (after_trans 1 1 s s3); [|done]. apply (after_trans 1 0 s s2); [|done].
      by apply (after_trans 0 1 s s1). }
    eapply (takes_bind 0 0); [apply (IHv 2%nat); [done|lia]|intros s6 H6|lia].
    eapply (takes_bind 0 0); [apply takes_IgnoreWhitespace|intros s7 H7|lia]. branches.
    + eapply (gets_takes any 1 0); [apply gets_Get|intros c' s8 _ H8|lia]. apply (IHo 2%nat); [|lia].
      apply (after_trans 2 1 s s7); [|done]. apply (after_trans 2 0 s s6); [|done]. by apply (after_trans 2 0 s s5).
    + eapply (gets_takes any 1 0); [apply gets_Get|intros c' s8 _ _; apply takes_done|lia].
Qed.

Lemma takes_Ignore pn s : takes 0 (Ignore pn s) s.
Proof. apply Ignore_ends. lia. Qed.
#[export] Hint Resolve takes_Ignore : json5.

(** ** What is read *)
Section reading.
Context `{Json5Laws} (pn : bool).

Lemma fine_CheckLimit low high z : fine (CheckLimit low high z) (fun z => low <= z <= high).
Proof.
  unfold CheckLimit. destruct (Z.ltb_spec z low), (Z.ltb_spec high z); cbn; done.
Qed.

Lemma gets_signed n s : int_size n = true -> gets (in_s (8 * Z.of_nat n)) 1 (read_signed pn n s) s.
Proof.
  intros Hn. unfold read_signed, Read_JSON5SignedInteger. rewrite bind_assoc. apply gets_of_number; intros x s' *.
  - intros Hx. by rewrite (stol_empty 64 (base x) x Hx).
  - destruct (stol 64 (base x) (text x)) as [[z pos]|f]; [|done]. destruct (negb _); [done|]. rewrite bind_done.
    cbv zeta. eapply fine_bind; [apply fine_CheckLimit|]. intros z2 Hz. split; [|done]. cbn [fst]. unfold in_s. cbv beta in *. lia.
Qed.

Lemma gets_unsigned n s : gets (in_u (8 * Z.of_nat n)) 1 (read_unsigned pn n s) s.
Proof.
  unfold read_unsigned, Read_JSON5UnsignedInteger. rewrite bind_assoc. apply gets_of_number; intros x s' *.
  - intros Hx. by rewrite (stoull_empty (base x) x Hx).
  - rewrite bind_assoc. eapply fine_bind; [apply fine_stoull|]. intros [z pos] _. destruct (negb _); [done|].
    rewrite bind_done. eapply fine_bind; [apply fine_CheckLimit|]. intros z2 Hz. split; [|done]. cbn [fst]. unfold in_u. cbv beta in *. lia.
Qed.

Lemma gets_float n s : n = 4%nat \/ n = 8%nat -> gets (in_u (8 * Z.of_nat n)) 1 (read_float pn n s) s.
Proof.
  intros Hn. unfold read_float. apply gets_of_number; intros x s' *.
  - intros Hx. rewrite Hx. unfold ToFloat. by rewrite stod_empty.
  - unfold ToFloat.
    assert (Hs : in_u (8 * Z.of_nat n) (infinity n) /\ in_u (8 * Z.of_nat n) (minus_infinity n) /\
      in_u (8 * Z.of_nat n) (quiet_NaN n)) by (destruct Hn as [->| ->]; vm_compute; split_and!; done).
    destruct Hs as (? & ? & ?). repeat (case_match; [done|]). destruct (stod n (text x)) as [bits|] eqn:E; [|done].
    split; [|done]. by eapply stod_range.
Qed.

Lemma gets_bool s : gets any 1 (read_bool s) s.
Proof.
  unfold read_bool. cbv zeta. branches; (eapply (takes_gets any 1 0); [by apply takes_one|intros; by apply obtains_done|lia]).
Qed.

Lemma gets_from_string {A} (parse : list byte -> option A) s : gets any 1 (from_string parse s) s.
Proof.
  unfold from_string. eapply (obtains_bind any any 1 0); [apply gets_String|intros t s1 _ H2|lia].
  destruct (parse t); [by apply obtains_done|done].
Qed.

Section array.
Context {A : Type} (Value : A -> list byte -> outcome (A * list byte)) (callback : nat -> list A -> outcome (list A)).
Context (T : A -> Prop) (C : nat -> list A -> Prop).
Hypothesis HValue : forall old s, T old -> gets T 1 (Value old s) s.
Hypothesis Hcallback : forall pos value, C pos value -> Forall T value ->
  fine (callback pos value) (fun value => (pos < length value)%nat /\ Forall T value /\
    forall x, C (S pos) (<[pos := x]> value)).

Lemma gets_items fuel : forall pos value s, C pos value -> Forall T value -> (length s < fuel)%nat ->
  fine (ReadItems Value callback fuel pos value s)
    (fun p => (C p.1.1 p.1.2 /\ Forall T p.1.2) /\ after 0 s p.2).
Proof.
  induction fuel as [|fuel IH]; intros pos value s HC HT Hf; [lia|]. cbn [ReadItems].
  eapply fine_bind; [apply takes_IgnoreWhitespace|]. intros s1 H2. destruct (_ =? _).
  { eapply fine_bind; [apply gets_Get|]. intros [c s2] [_ H3]. cbn. split; [done|].
    eapply (after_weaken 1); [lia|]. by apply (after_trans 0 1 s s1). }
  eapply fine_bind; [by apply Hcallback|]. clear HC HT. intros value1 (Hl & HT & HC).
  destruct (lookup_lt_is_Some_2 value1 pos Hl) as [item Hi]. rewrite Hi.
  eapply fine_bind; [apply HValue; by eapply Forall_lookup_1|]. intros [item' s2] [Hi' H3]. cbv zeta.
  cbn [fst snd] in *. set (value2 := <[pos := item']> value1).
  assert (HT2 : Forall T value2) by (by apply Forall_insert). specialize (HC item'). fold value2 in HC.
  eapply fine_bind; [apply takes_IgnoreWhitespace|]. intros s3 H4.
  eapply (fine_bind _ _ (fun p => any p.1 /\ after 0 s3 p.2)).
  { destruct (_ =? _); [|by apply obtains_done]. eapply gets_weaken; [done| |apply gets_Get]. lia. }
  intros [c s4] [_ H5]. cbn [snd] in *.
  eapply fine_bind; [apply takes_IgnoreWhitespace|]. intros s5 H6.
  assert (Ha : after 1 s s5).
  { apply (after_trans 1 0 s s4); [|done]. apply (after_trans 1 0 s s3); [|done]. apply (after_trans 1 0 s s2); [|done].
    by apply (after_trans 0 1 s s1). }
  destruct (_ =? _).
  - eapply fine_bind; [apply gets_Get|]. intros [c' s6] [_ H7]. cbn. split; [done|].
    eapply (after_weaken 2); [lia|]. by apply (after_trans 1 1 s s5).
  - apply after_length in Ha as Hl'. eapply fine_mono; [apply IH; [done|done|lia]|].
    intros p [Hp Hp']. split; [done|]. eapply (after_weaken 1); [lia|]. by apply (after_trans 1 0 s s5).
Qed.

Lemma gets_array value s : C 0%nat value -> Forall T value ->
  fine (ReadArray Value callback value s) (fun p => (C p.1.1 p.1.2 /\ Forall T p.1.2) /\ after 1 s p.2).
Proof.
  intros HC HT. unfold ReadArray. eapply fine_bind; [by apply takes_one|]. intros s1 H2.
  eapply fine_mono; [by apply gets_items; [done|done|lia]|]. intros p [Hp Hp']. split; [done|].
  by apply (after_trans 1 0 s s1).
Qed.
End array.

Lemma gets_vector {A} (Value : A -> list byte -> outcome (A * list byte)) (T : A -> Prop) item value s :
  (forall old s, T old -> gets T 1 (Value old s) s) -> T item -> Forall T value ->
  gets (Forall T) 1 (read_vector Value item value s) s.
Proof.
  intros HV Hi HT. unfold read_vector. eapply fine_bind.
  { apply (gets_array Value (vector_slot item) T (fun pos value => pos <= length value)%nat HV); [|lia|done].
    intros pos l Hp Hl. unfold vector_slot. cbn. case_bool_decide; split_and!; try done; try lia.
    - rewrite length_app. cbn. lia.
    - apply list.Forall_app. split; [done|by constructor].
    - intros x. rewrite length_insert, length_app. cbn. lia.
    - intros x. rewrite length_insert. lia. }
  intros [[pos l] s'] [[_ Hl] Ha]. by split.
Qed.

Lemma gets_std_array {A} (Value : A -> list byte -> outcome (A * list byte)) (T : A -> Prop) N value s :
  (forall old s, T old -> gets T 1 (Value old s) s) -> zlen value = N -> Forall T value ->
  gets (fun l => zlen l = N /\ Forall T l) 1 (read_array Value N value s) s.
Proof.
  intros HV HN HT. unfold read_array. eapply fine_bind.
  { apply (gets_array Value (array_slot N) T (fun _ value => zlen value = N) HV); [|done|done].
    intros pos l Hp Hl. unfold array_slot. destruct (Z.ltb_spec N (Z.of_nat (S pos))); [done|].
    cbn. split_and!; [unfold zlen in Hp; lia|done|]. intros x. unfold zlen in *. by rewrite length_insert. }
  intros [[pos l] s'] [[Hz Hl] Ha]. destruct (_ <? _); [done|]. by split.
Qed.

(** *** Members *)
Lemma gets_Prepare m s : gets (fun m' => any_found_ m' = any_found_ m) 1 (Prepare_JSON5Member m s) s.
Proof.
  unfold Prepare_JSON5Member. eapply (takes_gets _ 0 1); [apply takes_IgnoreWhitespace|intros s1 H2|lia]. branches.
  - eapply (takes_gets _ 1 0); [by apply takes_one|intros s2 H3; by apply obtains_done|lia].
  - eapply (obtains_bind any _ 1 0); [apply gets_MemberName|intros name s2 _ H3|lia].
    eapply (takes_gets _ 1 0); [by apply takes_one|intros s3 H4|lia].
    eapply (takes_gets _ 0 0); [apply takes_IgnoreWhitespace|intros s4 H5; by apply obtains_done|lia].
Qed.

Lemma gets_NextMember m s : gets (fun m' => any_found_ m' = any_found_ m) 1 (NextMember m s) s.
Proof.
  unfold NextMember. eapply (takes_gets _ 0 1); [apply takes_IgnoreWhitespace|intros s1 H2|lia]. branches.
  - eapply (takes_gets _ 1 0); [by apply takes_one|intros s2 H3; by apply obtains_done|lia].
  - eapply (obtains_bind any _ 1 1); [apply gets_Get|intros c s2 _ H3; apply gets_Prepare|lia].
Qed.

Definition passes (P : list value -> Prop) (m : Cursor) (s : list byte) (p : list value * Cursor * list byte) : Prop :=
  P p.1.1 /\ after 0 s p.2 /\ (any_found_ p.1.2 = any_found_ m \/ after 1 s p.2).

Section object.
Context (serialize : list value -> Cursor -> list byte -> outcome (list value * Cursor * list byte)) (P : list value -> Prop).
Hypothesis Hserialize : forall members m s, P members -> fine (serialize members m s) (passes P m s).

Lemma gets_members fuel : forall members m s, P members -> (length s < fuel)%nat ->
  gets P 0 (AcceptMembers pn serialize fuel members m s) s.
Proof.
  induction fuel as [|fuel IH]; intros members m s HP Hf; [lia|]. cbn [AcceptMembers].
  destruct (done_ m); [by apply obtains_done|]. eapply fine_bind; [by apply Hserialize|].
  intros [[members1 m1] s1] (HP1 & H2 & H3). cbn [fst snd] in *.
  eapply (fine_bind _ _ (fun p => after 1 s p.2)).
  - destruct (any_found_ m1) eqn:Ea; [destruct H3 as [[=]|H3]; exact H3|].
    eapply fine_bind; [apply takes_Ignore|]. intros s2 H4. eapply fine_mono; [apply gets_NextMember|].
    intros p [_ H5]. apply (after_trans 0 1 s s2); [|done]. by apply (after_trans 0 0 s s1).
  - intros [m2 s2] H4. cbn [snd] in H4. apply after_length in H4 as Hl.
    eapply (gets_after _ 1 0); [exact H4|apply IH; [done|lia]|lia].
Qed.

Lemma gets_object members s : P members -> gets P 1 (AcceptObject pn serialize members s) s.
Proof.
  intros HP. unfold AcceptObject. eapply (takes_gets _ 1 0); [by apply takes_one|intros s1 H2|lia].
  eapply (obtains_bind _ _ 1 0); [apply gets_Prepare|intros m s2 _ H3|lia]. apply gets_members; [done|lia].
Qed.
End object.

Lemma gets_enumerator is_signed n items name :
  Forall (fun item => (if is_signed : bool then in_s else in_u) (8 * Z.of_nat n) (fst item)) items ->
  fine (enumeration_named items name) ((if is_signed then in_s else in_u) (8 * Z.of_nat n)).
Proof.
  induction 1 as [|[z name'] items Hz _ IH]; [done|]. cbn [enumeration_named]. by case_bool_decide.
Qed.

Lemma Members_step name t initial rest old olds m s :
  Members pn (FCons name t initial rest) (old :: olds) m s =
  ('(old, m, s) ← (if done_ m || negb (bool_decide (name = current_field_name_ m)) then Done (old, m, s)
                   else
                     '(v, s) ← Value pn t old s;
                     '(m, s) ← NextMember (set_any_found m true) s;
                     Done (v, m, s));
   '(olds, m, s) ← Members pn rest olds m s;
   Done (old :: olds, m, s)).
Proof. reflexivity. Qed.

Lemma gets_Value t : json_type t -> forall old s, of_type t old -> gets (of_type t) 1 (Value pn t old s) s.
Proof.
  induction t using ctype_mut with (P0 := fun fs => json_fields fs -> forall olds m s, members_of_type fs olds ->
    fine (Members pn fs olds m s) (passes (members_of_type fs) m s)); intros Ht; [intros old s Ho..| |].
  - eapply (obtains_bind _ _ 1 0); [apply gets_bool|intros b s1 _ _; by apply obtains_done|lia].
  - eapply (obtains_bind _ _ 1 0); [by apply gets_signed|intros z s1 Hz _; by apply obtains_done|lia].
  - eapply (obtains_bind _ _ 1 0); [by apply gets_unsigned|intros z s1 Hz _; by apply obtains_done|lia].
  - eapply (obtains_bind _ _ 1 0); [by apply gets_float|intros z s1 Hz _; by apply obtains_done|lia].
  - eapply (obtains_bind _ _ 1 0); [apply (gets_vector _ any)|intros z s1 Hz _; by apply obtains_done|lia]; [|done|by apply list.Forall_forall].
    intros c s' _. eapply (obtains_bind _ _ 1 0); [apply gets_unsigned|intros z s1 Hz _; by apply obtains_done|lia].
  - eapply (obtains_bind _ _ 1 0); [apply gets_String|intros z s1 Hz _; by apply obtains_done|lia].
  - eapply (obtains_bind _ _ 1 0); [apply gets_from_string|intros z s1 Hz _; by apply obtains_done|lia].
  - eapply (obtains_bind _ _ 1 0); [apply gets_from_string|intros z s1 Hz _; by apply obtains_done|lia].
  - destruct Ht as [Hn Hi]. eapply (obtains_bind _ _ 1 0); [apply gets_String|intros name s1 _ _|lia].
    eapply gets_value; [by apply gets_enumerator|intros z Hz; by apply obtains_done].
  - destruct Ht as [Ht Hd].
    eapply (obtains_bind _ _ 1 0); [apply (gets_vector _ (of_type t)); [auto|done|by destruct old]|
      intros z s1 Hz _; by apply obtains_done|lia].
  - destruct Ht as (Hn & Ht & Hd), old; try done. destruct Ho as [Hz Ho].
    eapply (obtains_bind _ _ 1 0); [apply (gets_std_array _ (of_type t)); [auto|done|done]|
      intros z s1 Hl _; by apply obtains_done|lia].
  - destruct Ht as (Hn & Ht & Hd). cbn [Value]. branches.
    + eapply (takes_gets _ 1 0); [by apply takes_one|intros; by apply obtains_done|lia].
    + eapply (obtains_bind _ _ 1 0); [apply IHt; [done|by destruct old]|intros z s1 Hz _; by apply obtains_done|lia].
  - destruct Ht as [Hn Ht], old; try done.
    eapply (obtains_bind _ _ 1 0); [apply (gets_object _ (members_of_type fs)); [auto|done]|
      intros z s1 Hl _; by apply obtains_done|lia].
  - intros olds m s Ho. destruct olds; [|done]. cbn. split_and!; [done|apply after_refl|by left].
  - intros olds m s Ho. destruct olds as [|old olds]; [done|]. destruct Ht as (_ & Ht & Hts), Ho as [Ho Hos].
    rewrite Members_step.
    eapply (fine_bind _ _ (fun p => of_type t p.1.1 /\ after 0 s p.2 /\ (any_found_ p.1.2 = any_found_ m \/ after 1 s p.2))).
    + destruct (_ || _); [split_and!; [done|apply after_refl|by left]|].
      eapply fine_bind; [by apply IHt|]. intros [v s1] [Hv H2]. eapply fine_bind; [apply gets_NextMember|].
      intros [m1 s2] [_ H3]. cbn [fst snd] in *. pose proof (after_trans 1 1 s s1 s2 H2 H3) as H4.
      cbn. split_and!; [done|by eapply after_weaken; [|exact H4]; lia|right; by eapply after_weaken; [|exact H4]; lia].
    + intros [[v m1] s1] (Hv & H2 & H3). eapply fine_bind; [by apply IHt0|].
      intros [[vs m2] s2] (Hvs & H4 & H5). cbn [fst snd] in *. cbn. split_and!; [done..|by apply (after_trans 0 0 s s1)|].
      destruct H3 as [H3|H3]; [|right; by apply (after_trans 1 0 s s1)]. rewrite <- H3.
      destruct H5 as [H5|H5]; [by left|right; by apply (after_trans 0 1 s s1)].
Qed.
End reading.
