(* ===== verification/Json5Properties.v ===== *)
(** * JSON5: properties of the archives

    Objects of classes: members in any order, members that are missing and
    members that are unknown; the round trip; that reading ends on any text;
    and where the text of numbers and strings is refused. *)
From stdpp Require Import strings.
From S2P Require Import Prelude Varuint Streams TimeConversions TelemetryFormat Archive ArchiveTheory ArchiveTyping Tokenizer CString Json5 Json5Theory Json5Format Json5Roundtrip Json5Total.
#[local] Open Scope Z_scope.
Import Json5ReadArchive.

(** ** What a class takes from the text of another *)
Section assignment.
Context `{Json5Externals}.

Fixpoint field_type (fs : fields) (name : list byte) : option ctype :=
  match fs with
  | FNil => None
  | FCons name' t _ rest => if bool_decide (name' = name) then Some t else field_type rest name
  end.

(** The members that both classes have are of the same types. *)
Fixpoint same_types (fs fs' : fields) : Prop :=
  match fs' with
  | FNil => True
  | FCons name t _ rest => (field_type fs name = None \/ field_type fs name = Some t) /\ same_types fs rest
  end.

(** What becomes of one member. *)
Fixpoint assigned (name : list byte) (t : ctype) (old : value) (fs' : fields) (vs' : list value) : value :=
  match fs', vs' with
  | FCons name' _ _ rest, v :: vs =>
      assigned name t (if bool_decide (name = name') then merged t old v else old) rest vs
  | _, _ => old
  end.

Fixpoint assigned_all (fs : fields) (olds : list value) (fs' : fields) (vs' : list value) : list value :=
  match fs, olds with
  | FCons name t _ rest, old :: olds => assigned name t old fs' vs' :: assigned_all rest olds fs' vs'
  | _, _ => []
  end.

Lemma assigned_all_skip fs olds name t i rest v vs : name ∉ names fs ->
  assigned_all fs olds (FCons name t i rest) (v :: vs) = assigned_all fs olds rest vs.
Proof.
  revert olds. induction fs as [|name' t' i' fs IH]; intros [|old olds] Hn; try done.
  cbn [names] in Hn. apply not_elem_of_cons in Hn as [Hne Hn]. cbn [assigned_all assigned].
  rewrite bool_decide_false by congruence. by rewrite IH.
Qed.

Lemma assigned_all_none fs olds : length olds = length (names fs) -> assigned_all fs olds FNil [] = olds.
Proof.
  revert olds. induction fs as [|name t i fs IH]; intros [|old olds] Hl; try done.
  cbn in *. by rewrite IH by lia.
Qed.

Lemma assigned_other name t old fs' vs' : name ∉ names fs' -> assigned name t old fs' vs' = old.
Proof.
  revert vs' old. induction fs' as [|name' t' i fs' IH]; intros [|v vs] old Hn; try done.
  cbn [names] in Hn. apply not_elem_of_cons in Hn as [Hne Hn]. cbn [assigned].
  rewrite bool_decide_false by done. by apply IH.
Qed.

(** A class takes from its own text what it merges. *)
Lemma assigned_all_self fs olds vs : NoDup (names fs) -> length vs = length (names fs) ->
  length olds = length (names fs) -> assigned_all fs olds fs vs = merged_members fs olds vs.
Proof.
  revert olds vs. induction fs as [|name t i fs IH]; intros [|old olds] [|v vs] Hn Hv Ho; try done.
  cbn [names] in *. apply list.NoDup_cons in Hn as [Hni Hn]. cbn [assigned_all assigned merged_members].
  rewrite bool_decide_true by done. cbn in Hv, Ho.
  rewrite assigned_other, assigned_all_skip, IH by (done || lia). done.
Qed.

Lemma same_types_self_aux fs fs0 : NoDup (names fs0) ->
  (forall name t, field_type fs name = Some t -> field_type fs0 name = Some t) ->
  NoDup (names fs) -> same_types fs0 fs.
Proof.
  intros Hn0. induction fs as [|name t i fs IH]; intros Hf Hn; [done|].
  cbn [names] in Hn. apply list.NoDup_cons in Hn as [Hni Hn]. cbn [same_types]. split.
  - right. apply Hf. cbn [field_type]. by rewrite bool_decide_true.
  - apply IH; [|done]. intros name' t' E. apply Hf. cbn [field_type].
    rewrite bool_decide_false; [done|]. intros <-. apply Hni. clear -E. induction fs as [|name'' t'' i'' fs IH]; [done|].
    cbn [field_type names] in *. case_bool_decide; subst; [by left|right; auto].
Qed.

Lemma same_types_self fs : NoDup (names fs) -> same_types fs fs.
Proof. intros Hn. by apply same_types_self_aux. Qed.
End assignment.

(** ** Reading an object *)
Section reading.
Context `{Json5Laws} (pn : bool) (std : bool) (n : Z) (tl : list byte).

Fixpoint all_read_back (fs : fields) : Prop :=
  match fs with FNil => True | FCons _ t _ rest => reads_back pn std t /\ all_read_back rest end.

Fixpoint number_of (fs : fields) : nat := match fs with FNil => O | FCons _ _ _ rest => S (number_of rest) end.

(** [serves fs' vs' m]: there are members to come, as the reader admits them. *)
Definition serves (fs fs' : fields) (vs' : list value) : Prop :=
  json_fields fs' /\ legible_members std fs' vs' /\ same_types fs fs'.

Lemma serves_tail fs name t i rest v vs : serves fs (FCons name t i rest) (v :: vs) -> serves fs rest vs.
Proof. unfold serves. cbn. naive_solver. Qed.

(** What one pass over the members of the class leaves: either nothing was
    found, and the member in front is not one of the class, or it is further on. *)
Definition passed (fs : fields) (olds : list value) (fs' : fields) (vs' : list value) (m : Cursor) (s : list byte)
    (r : list value * Cursor * list byte) : Prop :=
  let '(olds2, m2, s2) := r in
  members_of_type fs olds2 /\
  exists fs2 vs2, positioned std n tl fs2 vs2 m2 s2 /\ (forall fs0, serves fs0 fs' vs' -> serves fs0 fs2 vs2) /\
    assigned_all fs olds fs' vs' = assigned_all fs olds2 fs2 vs2 /\
    (forall name t old, name ∉ names fs -> assigned name t old fs' vs' = assigned name t old fs2 vs2) /\
    ((fs2 = fs' /\ vs2 = vs' /\ m2 = m /\ s2 = s /\ (done_ m = false -> current_field_name_ m ∉ names fs)) \/
     ((number_of fs2 < number_of fs')%nat /\ any_found_ m2 = true)).

Lemma next_found m fs : any_found_ (next_position m fs) = any_found_ m.
Proof. by destruct fs. Qed.

Lemma same_types_rest name t i rest fs' : name ∉ names rest -> same_types (FCons name t i rest) fs' -> same_types rest fs'.
Proof.
  intros Hn. induction fs' as [|name' t' i' fs' IH]; [done|]. cbn [same_types field_type].
  intros [Hf Hs]. split; [|by apply IH]. case_bool_decide; [|done]. subst. left. clear -Hn.
  induction rest as [|name t'' i rest IH]; [done|]. cbn [names field_type] in *.
  apply not_elem_of_cons in Hn as [Hne Hn]. rewrite bool_decide_false by done. auto.
Qed.

Lemma serves_rest name t i rest fs' vs' : name ∉ names rest ->
  serves (FCons name t i rest) fs' vs' -> serves rest fs' vs'.
Proof. intros Hn (? & ? & ?). split_and!; [done..|]. by eapply same_types_rest. Qed.

(** The first member of the class is not the one in front. *)
Lemma passed_miss name t initial rest old olds fs' vs' m s olds2 m2 s2 : name ∉ names rest -> of_type t old ->
  done_ m || negb (bool_decide (name = current_field_name_ m)) = true ->
  passed rest olds fs' vs' m s (olds2, m2, s2) ->
  passed (FCons name t initial rest) (old :: olds) fs' vs' m s (old :: olds2, m2, s2).
Proof.
  intros Hni Ho E (Hos2 & fs2 & vs2 & Hp2 & Hs2 & Ha & Hna & Hcase). split; [by split|]. exists fs2, vs2.
  split_and!; [done..| | |].
  - cbn [assigned_all]. f_equal; [|done]. by apply Hna.
  - intros name' t' old' Hn'. cbn [names] in Hn'. apply not_elem_of_cons in Hn' as [? Hn']. by apply Hna.
  - destruct Hcase as [(-> & -> & -> & -> & Hc)|Hc]; [|by right]. left. split_and!; [done..|]. intros Hd.
    rewrite Hd in E. cbn [orb] in E. apply negb_true_iff, bool_decide_eq_false in E.
    cbn [names]. apply not_elem_of_cons. split; [congruence|auto].
Qed.

(** It is, and what follows it is at [m1] and [s1]. *)
Lemma passed_hit name t initial i rest old olds v fs' vs' m s m1 s1 olds2 m2 s2 :
  name ∉ names rest -> of_type t (merged t old v) -> any_found_ m1 = true ->
  passed rest olds fs' vs' m1 s1 (olds2, m2, s2) ->
  passed (FCons name t initial rest) (old :: olds) (FCons name t i fs') (v :: vs') m s (merged t old v :: olds2, m2, s2).
Proof.
  intros Hni Ho Hf (Hos2 & fs2 & vs2 & Hp2 & Hs2 & Ha & Hna & Hcase). split; [by split|]. exists fs2, vs2.
  split_and!; [done| | | |].
  - intros fs0 Hs0. by eapply Hs2, serves_tail.
  - cbn [assigned_all assigned]. rewrite bool_decide_true by done. rewrite assigned_all_skip, Ha by done.
    f_equal. by apply Hna.
  - intros nm tt oo Hnm. cbn [names] in Hnm. apply not_elem_of_cons in Hnm as [Hne Hnm]. cbn [assigned].
    rewrite bool_decide_false by done. by apply Hna.
  - right. destruct Hcase as [(-> & -> & -> & -> & _)|[Hlt Hfo]]; cbn [number_of]; split; try lia; done.
Qed.

Lemma Members_pass fs : all_read_back fs -> NoDup (names fs) -> json_fields fs -> forall olds fs' vs' m s,
  members_of_type fs olds -> serves fs fs' vs' -> positioned std n tl fs' vs' m s -> exists r,
  Members pn fs olds m s = Done r /\ passed fs olds fs' vs' m s r.
Proof.
  induction fs as [|name t initial rest IH]; intros Hr Hn Hj olds fs' vs' m s Ho Hs Hp.
  { destruct olds; [|done]. exists ([], m, s). split; [done|]. split; [done|]. exists fs', vs'.
    split_and!; [done..|]. left. split_and!; [done..|]. intros _. by apply not_elem_of_nil. }
  destruct olds as [|old olds]; [done|]. destruct Hr as [Hr Hrs], Hj as (_ & Ht & Hj), Ho as [Ho Hos].
  cbn [names] in Hn. apply list.NoDup_cons in Hn as [Hni Hn]. rewrite Members_step.
  destruct (done_ m || negb (bool_decide (name = current_field_name_ m))) eqn:E.
  - rewrite bind_done. destruct (IH Hrs Hn Hj olds fs' vs' m s Hos (serves_rest _ _ _ _ _ _ Hni Hs) Hp)
      as ([[olds2 m2] s2] & E2 & Hp2).
    rewrite E2, bind_done. eexists. split; [done|]. by apply passed_miss.
  - apply orb_false_iff in E as [Hd E]. apply negb_false_iff, bool_decide_eq_true in E.
    destruct fs' as [|name' t' i' fs'], vs' as [|v vs']; try done; [destruct Hp; congruence|].
    destruct Hp as (_ & Hc & ->). assert (Hname : name' = name) by congruence. clear E Hc. subst name'.
    destruct Hs as ((Hpl & Ht' & Hf') & (Hl & Hls) & (Hty & Hst)).
    cbn [field_type] in Hty. rewrite bool_decide_true in Hty by done. destruct Hty as [?|[= ->]]; [done|].
    rewrite Hr, bind_done by (done || apply member_lines_ends).
    destruct (Next_positioned std n tl (set_any_found m true) fs' vs' Hd Hf' Hls) as (s1 & E1 & Hp1).
    rewrite E1, !bind_done.
    assert (Hs1 : serves (FCons name t' initial rest) fs' vs') by done.
    destruct (IH Hrs Hn Hj olds fs' vs' _ s1 Hos (serves_rest _ _ _ _ _ _ Hni Hs1) Hp1) as ([[olds2 m2] s2] & E2 & Hp2).
    rewrite E2, bind_done. eexists. split; [done|].
    eapply passed_hit; [done|by eapply merged_of_type| |exact Hp2]. by rewrite next_found.
Qed.

Lemma ignored_first name fs t v rest vs m s : serves fs (FCons name t VNone rest) (v :: vs) -> done_ m = false ->
  s = json std (n + 2) t v ++ member_lines std n tl false rest vs -> exists s',
  (s ← Ignore pn s; NextMember m s) = Done (next_position m rest, s') /\
  positioned std n tl rest vs (next_position m rest) s'.
Proof.
  intros ((_ & Ht & Hf) & (Hl & Hls) & _) Hm ->.
  destruct (Next_positioned std n tl m rest vs Hm Hf Hls) as (s' & E & Hp). exists s'. split; [|done].
  unfold Ignore. rewrite (json_skips pn std t Ht (n + 2) v Hl), bind_done; [done|apply member_lines_ends|].
  rewrite length_app. lia.
Qed.

Lemma AcceptMembers_text fs : all_read_back fs -> NoDup (names fs) -> json_fields fs -> forall fuel olds fs' vs' m s,
  members_of_type fs olds -> serves fs fs' vs' -> positioned std n tl fs' vs' m s -> (number_of fs' < fuel)%nat ->
  AcceptMembers pn (Members pn fs) fuel olds m s = Done (assigned_all fs olds fs' vs', tl).
Proof.
  intros Hr Hn Hj. induction fuel as [|fuel IH]; intros olds fs' vs' m s Ho Hs Hp Hf; [lia|].
  cbn [AcceptMembers]. destruct fs' as [|name t i rest], vs' as [|v vs]; try done.
  { destruct Hp as [-> ->]. rewrite assigned_all_none; [done|]. by eapply members_of_type_length. }
  pose proof Hp as (Hd & Hc & Es). rewrite Hd.
  destruct (Members_pass fs Hr Hn Hj olds _ _ (set_any_found m false) s Ho Hs Hp)
    as ([[olds2 m2] s2] & -> & Ho2 & fs2 & vs2 & Hp2 & Hs2 & -> & _ & Hcase).
  rewrite bind_done. destruct Hcase as [(-> & -> & -> & -> & Hno)|[Hlt ->]].
  - change (any_found_ (set_any_found m false)) with false. cbv iota.
    destruct (ignored_first name fs t v rest vs (set_any_found m false) s Hs Hd Es) as (s' & E & Hp').
    rewrite E, bind_done. cbn [number_of] in Hf.
    rewrite assigned_all_skip; [|rewrite <- Hc; by apply Hno].
    apply IH; [done|by eapply serves_tail|done|lia].
  - rewrite bind_done. apply IH; [done|by apply Hs2|done|lia].
Qed.

Lemma positioned_length fs' vs' m s : json_fields fs' -> legible_members std fs' vs' ->
  positioned std n tl fs' vs' m s -> (number_of fs' <= length s)%nat.
Proof.
  intros Hj Hl. destruct fs' as [|name t i rest], vs' as [|v vs]; try done; [cbn; lia|].
  intros (_ & _ & ->). destruct Hj as (_ & Ht & Hj), Hl as [Hl Hls]. rewrite length_app.
  destruct (json_begins std (n + 2) t v Ht Hl) as (c & r & -> & _). cbn [length number_of].
  unfold member_lines. rewrite length_app. pose proof (lines_length (json_members std (n + 2) rest vs)) as Hle.
  enough (length (json_members std (n + 2) rest vs) = number_of rest) by lia.
  clear -Hls. revert vs Hls. induction rest as [|name t i rest IH]; intros [|v vs] Hls; try done.
  rewrite json_members_cons. cbn [length number_of]. f_equal. apply IH, Hls.
Qed.

Lemma Value_object fs fs' olds vs' : all_read_back fs -> NoDup (names fs) -> json_fields fs ->
  members_of_type fs olds -> serves fs fs' vs' ->
  Value pn (TObject fs) (VObject olds) (json std n (TObject fs') (VObject vs') ++ tl) =
  Done (VObject (assigned_all fs olds fs' vs'), tl).
Proof.
  intros Hr Hn Hj Ho Hs. pose proof Hs as (Hf & Hl & _).
  set (text := json std n _ _ ++ tl). change (Value pn (TObject fs) (VObject olds) text) with
    ('(members, s) ← AcceptObject pn (Members pn fs) olds text; Done (VObject members, s)). unfold text.
  change (json std n (TObject fs') (VObject vs')) with (block (text_of "{") (text_of "}") n (json_members std (n + 2) fs' vs')).
  unfold AcceptObject, block. rewrite <- !app_assoc, ReadLiteral_here, bind_done by done.
  fold (brace n tl). fold (member_lines std n tl true fs' vs').
  destruct (Prepare_positioned std n tl {| done_ := false; current_field_name_ := []; any_found_ := false |}
    fs' vs' newline eq_refl (white_line 0) Hf Hl) as (s' & E & Hp).
  rewrite E, bind_done. rewrite (AcceptMembers_text fs Hr Hn Hj _ olds fs' vs') by
    (done || (apply positioned_length in Hp; [lia|done..])). done.
Qed.
End reading.

Section roundtrip.
Context `{Json5Laws} (pn std : bool).

Lemma legible_of_type t : forall v, legible std t v -> of_type t v.
Proof.
  induction t using ctype_mut with (P0 := fun fs => forall vs, legible_members std fs vs -> members_of_type fs vs);
    intros v Hv; destruct v; try done; try (by destruct Hv); cbn in *.
  - eapply list.Forall_impl; [exact Hv|done].
  - destruct Hv as [Hl Hv]. split; [done|]. eapply list.Forall_impl; [exact Hv|done].
  - auto.
  - auto.
  - destruct Hv. auto.
Qed.

Lemma typed_items t old : of_type (TVector t) old -> Forall (of_type t) (items_of old).
Proof. by destruct old. Qed.

Lemma Value_reads t : reads_back pn std t.
Proof.
  induction t using ctype_mut with (P0 := all_read_back pn std); [intros Ht k v old tl Hv Ho He..| |].
  1-9: destruct v as [b|z|bits|b|p|d|vs| |v|vs]; try done; cbn [json Value merged].
  - by rewrite read_literal_bool.
  - by rewrite read_signed_decimal.
  - by rewrite read_unsigned_decimal.
  - destruct Hv as [Hb Hl]. by rewrite (read_float_text pn std k).
  - by rewrite read_octets.
  - by rewrite Read_escaped.
  - destruct (time_text p Hv) as [Hp E]. unfold from_string. by rewrite Read_plain, bind_done, E by done.
  - destruct (duration_text d Hv) as [Hp E]. unfold from_string. by rewrite Read_plain, bind_done, E by done.
  - destruct Hv as (_ & name & -> & Hp & E). rewrite Read_plain, bind_done by done. by rewrite E.
  - destruct v as [| | | | | |vs| | |]; try done. destruct Ht as [Ht Hd]. cbn [json Value merged].
    rewrite (read_vector_text _ _ (merged t) _ (of_type t)); [done|by apply reads_json_items|done|by apply typed_items].
  - destruct v as [| | | | | |vs| | |], old as [| | | | | |os| | |]; try done. destruct Ht as (Hn & Ht & Hd), Ho as [Hz Ho], Hv as [Hz' Hv].
    cbn [json Value merged items_of].
    rewrite (read_array_text _ _ (merged t) (default t) (of_type t)); try done. by apply reads_json_items.
  - destruct Ht as (Hn & Ht & Hd), v as [| | | | | | | |v|]; try done; cbn [json Value merged].
    destruct (json_begins std k t v Ht Hv) as (c & r & E & _ & Hc). rewrite E. cbn [app Peek].
    rewrite (proj2 (Z.eqb_neq _ _)) by auto. change (c :: r ++ tl) with ((c :: r) ++ tl). rewrite <- E.
    rewrite IHt; [done|done|done| |done]. by destruct old.
  - destruct Ht as [Hn Ht], v as [| | | | | | | | |vs], old as [| | | | | | | | |os]; try done.
    rewrite (Value_object pn std k tl fs fs os vs IHt Hn Ht Ho); [|split_and!; [done..|by apply same_types_self]].
    rewrite assigned_all_self; [done|done| |by eapply members_of_type_length].
    exact (members_of_type_length fs vs (legible_of_type (TObject fs) (VObject vs) Hv)).
  - done.
  - done.
Qed.

Lemma fields_read fs : all_read_back pn std fs.
Proof. induction fs as [|name t i rest IH]; [done|]. split; [apply Value_reads|done]. Qed.
End roundtrip.

(** ** The properties *)

(** C14: an object that is written as JSON5 is read back: into an object of the
    same class it is merged, so that of the old contents only those elements of
    vectors stay that the text has no others for; without such elements what is
    read is what was written.  The options of the archives do not matter, nor
    does what follows a value that ends. *)
Theorem json5_roundtrip `{Json5Laws} (pn : bool) (o : Json5WriteArchive.Options) (t : ctype) (old v : value)
    (tl : list byte) :
  json_type t -> legible (Json5WriteArchive.standard o) t v -> of_type t old ->
  0 <= Json5WriteArchive.indent o -> ends tl -> exists text,
  Json5WriteArchive.Write t o v = Done text /\
  Value pn t old (text ++ tl) = Done (merged t old v, tl) /\
  (covers t old v -> merged t old v = v).
Proof.
  intros Ht Hv Ho Hn He. destruct o as [n std]. exists (json std n t v).
  split; [exact (Value_writes std t n v Hn Hv [])|]. split; [by apply Value_reads|]. apply covers_merged.
Qed.

(** C15: a class reads what another one wrote: the members that both have are
    merged, wherever they stand in the text, the members that only the text has
    are skipped, and those that it lacks keep their values. *)
Theorem json5_evolution `{Json5Laws} (pn : bool) (o : Json5WriteArchive.Options) (fs fs' : fields)
    (olds vs : list value) (tl : list byte) :
  json_type (TObject fs) -> json_type (TObject fs') -> same_types fs fs' ->
  legible (Json5WriteArchive.standard o) (TObject fs') (VObject vs) -> of_type (TObject fs) (VObject olds) ->
  0 <= Json5WriteArchive.indent o -> exists text,
  Json5WriteArchive.Write (TObject fs') o (VObject vs) = Done text /\
  Value pn (TObject fs) (VObject olds) (text ++ tl) = Done (VObject (assigned_all fs olds fs' vs), tl).
Proof.
  intros [Hn Hj] [_ Hj'] Hs Hl Ho Hi. destruct o as [n std]. exists (json std n (TObject fs') (VObject vs)).
  split; [exact (Value_writes std (TObject fs') n (VObject vs) Hi Hl [])|].
  by apply Value_object; [apply fields_read|..].
Qed.

(** C21: whatever the text is, reading it ends; when it returns, at least one
    character has been taken, all from the front, and the object is one of its
    class, with every integer in the range of its type and every array of its
    size. *)
Theorem json5_read_ends `{Json5Laws} (pn : bool) (t : ctype) (old : value) (s : list byte) :
  json_type t -> of_type t old ->
  match Value pn t old s with
  | Done (v, s') => of_type t v /\ exists used, s = used ++ s' /\ used <> []
  | Faulted f => f <> OutOfFuel
  end.
Proof.
  intros Ht Ho. pose proof (gets_Value pn t Ht old s Ho) as Hg.
  destruct (Value pn t old s) as [[v s']|f]; [|done]. destruct Hg as [Hv (used & -> & Hu)].
  split; [done|]. exists used. split; [done|]. intros ->. cbn in Hu. lia.
Qed.

(** ** Numbers with a base *)
Definition radix (letter : byte) (b : Z) : Prop :=
  (letter, b) = (byte.of_Z 98, 2) \/ (letter, b) = (byte.of_Z 111, 8) \/ (letter, b) = (byte.of_Z 120, 16).

Definition digits_of (b : Z) (ds : list byte) : Prop := Forall (fun c => exists d, digit_in b c = Some d) ds.

Lemma digit_run_all b ds tail : digits_of b ds -> (match tail with c :: _ => digit_in b c = None | [] => True end) ->
  digit_run b (ds ++ tail) = length ds.
Proof.
  intros Hd Ht. induction Hd as [|c ds [d Hc] _ IH]; cbn [app digit_run length].
  - destruct tail as [|c tail]; [done|]. cbn. by rewrite Ht.
  - by rewrite Hc, IH.
Qed.

(** The codes of a digit, which begins neither a sign nor a prefix. *)
Lemma digit_codes b c d : digit_in b c = Some d ->
  d < b /\ (48 <= char_code c <= 57 /\ d = char_code c - 48 \/ 97 <= char_code c <= 102 /\ d = char_code c - 87 \/
            65 <= char_code c <= 70 /\ d = char_code c - 55).
Proof.
  unfold digit_in, digit_value. cbv zeta.
  destruct ((48 <=? char_code c) && (char_code c <=? 57)) eqn:E1;
    [|destruct ((97 <=? char_code c) && (char_code c <=? 102)) eqn:E2;
      [|destruct ((65 <=? char_code c) && (char_code c <=? 70)) eqn:E3; [|done]]];
    (case_match; [|done]); intros [= <-]; split; lia.
Qed.

Lemma digit_range b c d : digit_in b c = Some d -> 48 <= char_code c <= 57 \/ 65 <= char_code c <= 70 \/ 97 <= char_code c <= 102.
Proof. intros Hd%digit_codes. lia. Qed.

Lemma prefix_digits b c ds : b = 2 \/ b = 8 \/ b = 16 -> digits_of b (c :: ds) -> forall tail,
  (ds = [] -> (length tail <= 1)%nat) -> prefix_in b (c :: ds ++ tail) = (b, c :: ds ++ tail).
Proof.
  intros Hb Hd tail Ht. unfold prefix_in. destruct Hb as [->|[->| ->]]; cbn [Z.eqb Pos.eqb]; [done..|].
  assert (fst (prefix (c :: ds ++ tail)) <> 16) as Hp; [|by rewrite (proj2 (Z.eqb_neq _ _) Hp)].
  unfold prefix. destruct ds as [|c2 ds].
  - specialize (Ht eq_refl). destruct tail as [|? [|? ?]]; cbn in Ht; try lia; cbn; by destruct (_ =? 48).
  - inversion Hd as [|? ? _ Hd2]; subst. inversion Hd2 as [|? ? [d2 H2] _]; subst.
    apply digit_range in H2. cbn [app].
    rewrite (proj2 (Z.eqb_neq (char_code c2) 120)), (proj2 (Z.eqb_neq (char_code c2) 88)) by lia.
    rewrite andb_false_r. destruct (ds ++ tail); by destruct (_ =? 48).
Qed.

Lemma scan_digits b c ds tail : b = 2 \/ b = 8 \/ b = 16 -> digits_of b (c :: ds) -> (ds = [] -> (length tail <= 1)%nat) ->
  (match tail with x :: _ => digit_in b x = None | [] => True end) ->
  scan_integer b (c :: ds ++ tail) = Some (false, digits b (c :: ds ++ tail) 0, zlen (c :: ds)).
Proof.
  intros Hb Hd Hl Ht. pose proof Hd as Hd'. inversion Hd' as [|? ? [d Hc] _]; subst.
  apply digit_range in Hc. unfold scan_integer.
  assert (Hs : skip_space (c :: ds ++ tail) = c :: ds ++ tail).
  { cbn [skip_space]. unfold isspace. rewrite (proj2 (Z.eqb_neq _ 32)) by lia.
    rewrite (proj2 (Z.leb_gt _ 13)) by lia. by rewrite andb_false_r. }
  rewrite Hs. unfold sign. rewrite (proj2 (Z.eqb_neq _ 45)), (proj2 (Z.eqb_neq _ 43)) by lia.
  rewrite (prefix_digits b c ds Hb Hd tail Hl).
  change (c :: ds ++ tail) with ((c :: ds) ++ tail). rewrite digit_run_all by done. cbn [length].
  do 2 f_equal. rewrite zlen_cons. unfold zlen. lia.
Qed.

Lemma Read_radix pn letter b ds tl : radix letter b -> digits_of b ds -> ends tl ->
  Read_JSON5Number pn (text_of "0" ++ letter :: ds ++ tl) =
  Done ({| text := over (text_of "0" ++ [letter]) ds; base := b |}, tl).
Proof.
  intros Hr Hd Ht.
  assert (Hw : forall p, (forall c d, digit_in b c = Some d -> p (char_code c) = true) -> p (-1) = false -> p 44 = false ->
    p 10 = false -> take_while p (ds ++ tl) = (ds, tl)).
  { intros p Hp H1 H2 H3. apply take_while_app; [|by destruct Ht as [->|[->| ->]]].
    eapply list.Forall_impl; [exact Hd|]. intros c [d Hc]. by eapply Hp. }
  unfold Read_JSON5Number, Read_NumericLiteral. change (text_of "0" ++ letter :: ds ++ tl) with (byte.of_Z 48 :: letter :: ds ++ tl).
  cbn [Peek Get]. change (char_code (byte.of_Z 48)) with 48. cbn [Z.eqb Pos.eqb orb negb]. cbv zeta.
  rewrite andb_false_r. cbn [Peek Get]. rewrite bind_done. cbn [Peek Get].
  destruct Hr as [[= -> ->]|[[= -> ->]|[= -> ->]]].
  - change (char_code (byte.of_Z 98)) with 98. cbn [Z.eqb Pos.eqb orb]. rewrite bind_done.
    unfold Read_BinaryIntegerLiteral. rewrite Hw by (done || (intros c d Hc%digit_codes; apply orb_true_iff; lia)). done.
  - change (char_code (byte.of_Z 111)) with 111. cbn [Z.eqb Pos.eqb orb]. rewrite bind_done.
    unfold Read_OctalIntegerLiteral. rewrite Hw by (done || (intros c d Hc%digit_codes; apply andb_true_iff; lia)). done.
  - change (char_code (byte.of_Z 120)) with 120. cbn [Z.eqb Pos.eqb orb]. rewrite bind_done.
    unfold Read_HexIntegerLiteral. rewrite Hw by (done || (intros c d Hc%digit_range; lia)). done.
Qed.

Lemma digits_nonneg b l v : 0 <= b -> 0 <= v -> 0 <= digits b l v.
Proof.
  intros Hb. revert v. induction l as [|c l IH]; intros v Hv; [done|]. cbn [digits].
  destruct (digit_in b c) as [d|] eqn:E; [|done]. apply digit_codes in E. apply IH. nia.
Qed.

(** One character of the prefix that was not written over is no digit. *)
Lemma short_radix letter b c : radix letter b -> (exists d, digit_in b c = Some d) ->
  stol 64 b [c; letter] = Done (digits b [c; letter] 0, 1).
Proof.
  intros Hr [d Hc]. unfold stol. change [c; letter] with (c :: [] ++ [letter]).
  rewrite scan_digits; [|by destruct Hr as [[= _ ->]|[[= _ ->]|[= _ ->]]]; auto|by constructor; [exists d|]|cbn; lia|
    by destruct Hr as [[= -> ->]|[[= -> ->]|[= -> ->]]]].
  pose proof (digits_nonneg b (c :: [] ++ [letter]) 0) as Hn. cbv zeta.
  assert (Hb : 0 <= b <= 16) by (destruct Hr as [[= _ ->]|[[= _ ->]|[= _ ->]]]; lia).
  assert (Hd : digits b (c :: [] ++ [letter]) 0 = d).
  { cbn [app digits]. rewrite Hc. destruct Hr as [[= -> ->]|[[= -> ->]|[= -> ->]]]; done. }
  apply digit_codes in Hc. rewrite (proj2 (Z.leb_le _ _)), (proj2 (Z.ltb_lt _ _)) by lia. done.
Qed.

(** A binary, octal or hexadecimal integer is read as the number its digits
    stand for when there are at least two of them and the type holds it; with
    one digit it is refused, because the digits are written over the prefix of
    the text that is converted, and then a letter of it is left. *)
Theorem radix_literals (pn : bool) (n : nat) (letter : byte) (b : Z) (ds tl : list byte) :
  radix letter b -> digits_of b ds -> ends tl -> int_size n = true ->
  ((length ds <= 1)%nat -> read_signed pn n (text_of "0" ++ letter :: ds ++ tl) = Error) /\
  ((2 <= length ds)%nat -> digits b ds 0 < 2 ^ (8 * Z.of_nat n - 1) ->
   read_signed pn n (text_of "0" ++ letter :: ds ++ tl) = Done (digits b ds 0, tl)).
Proof.
  intros Hr Hd Ht Hn. unfold read_signed, Read_JSON5SignedInteger. rewrite (Read_radix pn letter b ds tl Hr Hd Ht), !bind_done.
  cbn [text base]. assert (Hb : b = 2 \/ b = 8 \/ b = 16) by (destruct Hr as [[= _ ->]|[[= _ ->]|[= _ ->]]]; auto).
  split; intros Hl.
  - assert (exists c, over (text_of "0" ++ [letter]) ds = [c; letter] /\ exists d, digit_in b c = Some d) as (c & -> & Hc).
    { destruct ds as [|c [|? ?]]; cbn in Hl; try lia.
      - exists (byte.of_Z 48). split; [done|]. exists 0. by destruct Hb as [->|[->| ->]].
      - exists c. split; [done|]. by apply Forall_inv in Hd. }
    by rewrite (short_radix letter b c Hr Hc).
  - intros Hv. destruct ds as [|c [|c2 ds]]; cbn [length] in Hl; try lia.
    assert (over (text_of "0" ++ [letter]) (c :: c2 :: ds) = c :: c2 :: ds) as ->.
    { unfold over. rewrite drop_ge by (cbn; lia). apply app_nil_r. }
    pose proof (scan_digits b c (c2 :: ds) [] Hb Hd ltac:(done) I) as E. rewrite app_nil_r in E.
    pose proof (digits_nonneg b (c :: c2 :: ds) 0 ltac:(lia) ltac:(lia)) as Hz.
    assert (2 ^ (8 * Z.of_nat n - 1) <= 2 ^ 63) as Hp.
    { destruct n as [|[|[|[|[|[|[|[|[|n]]]]]]]]]; try done. }
    unfold stol. rewrite E. cbv zeta. rewrite (proj2 (Z.leb_le _ _)), (proj2 (Z.ltb_lt _ _)) by lia. cbn [andb].
    rewrite Z.eqb_refl. cbn [negb]. rewrite bind_done. unfold CheckLimit.
    rewrite !(proj2 (Z.ltb_ge _ _)) by lia. done.
Qed.

Lemma radix_literals_witness :
  read_signed false 4 (text_of "0" ++ byte.of_Z 120 :: text_of "f" ++ text_of ",") = Error /\
  read_signed false 4 (text_of "0" ++ byte.of_Z 120 :: text_of "fF" ++ text_of ",") = Done (255, text_of ",").
Proof.
  assert (Hr : radix (byte.of_Z 120) 16) by (by right; right).
  split.
  - refine (proj1 (radix_literals false 4 (byte.of_Z 120) 16 (text_of "f") (text_of ",") Hr _ _ eq_refl) _);
      [repeat (constructor; [by eexists|]); constructor|by right; left|cbn; lia].
  - refine (proj2 (radix_literals false 4 (byte.of_Z 120) 16 (text_of "fF") (text_of ",") Hr _ _ eq_refl) _ _);
      [repeat (constructor; [by eexists|]); constructor|by right; left|cbn; lia|by vm_compute].
Defined.

(** ** Strings that do not come back *)

(** A string with a character of more than seven bits is written so that
    reading it stops the program, and one with a null so that it is refused. *)
Theorem strings_refused (good : list byte) (c : byte) (rest tl : list byte) :
  forallb ascii good = true ->
  (128 <= char_code c -> Read_JSON5String (quoted (EscapeJsonString (good ++ c :: rest)) ++ tl) = Faulted Assertion) /\
  (char_code c = 0 -> Read_JSON5String (quoted (EscapeJsonString (good ++ c :: rest)) ++ tl) = Error).
Proof.
  intros Hg. assert (E : exists fuel, Read_JSON5String (quoted (EscapeJsonString (good ++ c :: rest)) ++ tl) =
    Read_JSON5TerminatedString (S fuel) 34 (EscapeJsonChar c ++ EscapeJsonString rest ++ quote :: tl) good).
  { unfold EscapeJsonString. rewrite map_app, concat_app. cbn [map concat]. unfold quoted, Read_JSON5String.
    cbn [app Get]. rewrite bind_done. change (char_code quote) with 34. cbn [Z.eqb Pos.eqb orb].
    rewrite <- !app_assoc. set (s := concat (map EscapeJsonChar good) ++ _).
    pose proof (length_units EscapeJsonChar good escape_nonempty) as Hl.
    exists (length s - length good)%nat.
    replace (S (length s)) with (length good + S (length s - length good))%nat by (unfold s; rewrite length_app; lia).
    unfold s. rewrite reads_prefix; [done|].
    rewrite forallb_forall in Hg. apply list.Forall_forall. intros x Hx. by apply reads_escaped, Hg, list_elem_of_In. }
  destruct E as [fuel ->]. split; intros Hc.
  - assert (EscapeJsonChar c = [c]) as ->.
    { unfold EscapeJsonChar. cbv zeta. by rewrite !(proj2 (Z.eqb_neq _ _)) by lia. }
    cbn [app Read_JSON5TerminatedString Get]. rewrite bind_done, !(proj2 (Z.eqb_neq _ _)) by lia.
    by rewrite (proj2 (Z.leb_le _ _)).
  - assert (c = byte.of_Z 0) as -> by (by rewrite <- (byte_of_code c), Hc). done.
Qed.

(** ** A concrete class, for the witnesses *)
Lemma numeral_plain l : numeral l -> forallb plain_char l = true.
Proof.
  assert (Hd : forall r, all_digits r -> forallb plain_char r = true).
  { induction 1 as [|c r Hc _ IH]; [done|]. cbn [forallb]. rewrite IH, andb_true_r. apply digit_code in Hc.
    unfold plain_char. rewrite !(proj2 (Z.eqb_neq _ _)) by lia. by rewrite (proj2 (Z.ltb_lt _ _)) by lia. }
  intros (sg & i & f & e & -> & Hs & Hi & Hf & He). rewrite !forallb_app. repeat (apply andb_true_iff; split).
  - by destruct Hs as [->| ->].
  - destruct Hi as [->|(c & r & -> & Hr & _)]; [done|by apply Hd].
  - destruct Hf as [->|(r & -> & Hr)]; [done|]. rewrite forallb_app. by rewrite (Hd r Hr).
  - destruct He as [->|(r & sg' & -> & Hs' & Hr)]; [done|]. rewrite !forallb_app, (Hd r Hr), !andb_true_r.
    by destruct Hs' as [->|[->| ->]].
Qed.

Definition demo_time (s : list byte) : option micro_time :=
  match scan_integer 0 s with
  | Some (negative, magnitude, _) => Some (MAt (if negative then - magnitude else magnitude))
  | None => None
  end.

Definition demo_time_text (t : micro_time) : list byte := match t with MAt us => decimal us | _ => [] end.

#[export] Instance demo_text : Json5Externals := {|
  fmt_float _ bits := decimal bits;
  stod size s := match stoull 0 s with
                 | Done (z, _) => if z <? 2 ^ (8 * Z.of_nat size) then Some z else None
                 | Faulted _ => None
                 end;
  time_to_simple_string := demo_time_text; time_from_string := demo_time;
  duration_to_simple_string := demo_time_text; duration_from_string := demo_time |}.

Lemma demo_time_back us :
  forallb plain_char (demo_time_text (MAt us)) = true /\ demo_time (demo_time_text (MAt us)) = Some (MAt us).
Proof.
  split; [apply numeral_plain, decimal_numeral|]. unfold demo_time, demo_time_text. rewrite scan_decimal.
  do 2 f_equal. destruct (Z.ltb_spec us 0); lia.
Qed.

#[export] Instance demo_text_laws : Json5Laws.
Proof.
  constructor; cbn [fmt_float stod time_to_simple_string time_from_string duration_to_simple_string duration_from_string demo_text].
  - intros. apply decimal_numeral.
  - intros size bits Hs Hb _. rewrite stoull_decimal.
    + destruct Hb. by rewrite (proj2 (Z.ltb_lt _ _)).
    + destruct Hs as [->| ->]; destruct Hb; split; cbn in *; lia.
  - intros size s bits _. pose proof (fine_stoull 0 s) as Hf. destruct (stoull 0 s) as [[z pos]|f]; [|done].
    destruct (Z.ltb_spec z (2 ^ (8 * Z.of_nat size))); [|done]. intros [= <-]. destruct Hf as [Hz _]. by split.
  - done.
  - intros [| | |us] Hp; [done..|apply demo_time_back].
  - intros [| | |us] Hp; [done..|apply demo_time_back].
Qed.

Definition point_fields : fields :=
  FCons (text_of "x") (TInt 4) (VInt 0) (FCons (text_of "label") TString (VBytes []) FNil).
Definition shape_fields : fields :=
  FCons (text_of "id") (TUInt 2) (VInt 7)
  (FCons (text_of "points") (TVector (TObject point_fields)) (VList [])
  (FCons (text_of "scale") (TOptional (TFloat 4)) VNone
  (FCons (text_of "when") TTimestamp (VTime (H := micro_clock) MNadt) FNil))).
Definition shape_values : list value :=
  [VInt 300; VList [VObject [VInt (-4); VBytes (text_of "a\b")]; VObject [VInt 12; VBytes []]];
   VSome (VFloat 0x7f800000); VTime (H := micro_clock) (MAt (-25))].

(** The same class, later: a member is gone, one is new, and the order is not
    the same. *)
Definition new_fields : fields :=
  FCons (text_of "when") TTimestamp (VTime (H := micro_clock) MNadt)
  (FCons (text_of "color") (TUInt 1) (VInt 3)
  (FCons (text_of "points") (TVector (TObject point_fields)) (VList []) FNil)).

Lemma demo_distinct (l : list (list byte)) : bool_decide (NoDup l) = true -> NoDup l.
Proof. apply bool_decide_eq_true_1. Qed.

Lemma point_json : json_type (TObject point_fields).
Proof. split; [by apply demo_distinct|]. cbn. by split_and!. Qed.

Lemma shape_json : json_type (TObject shape_fields).
Proof.
  split; [by apply demo_distinct|]. destruct point_json as [Hn Hp]. cbn [shape_fields json_fields json_type default of_type].
  split_and!; done || (by left) || by cbn.
Qed.

Lemma new_json : json_type (TObject new_fields).
Proof.
  split; [by apply demo_distinct|]. destruct point_json as [Hn Hp]. cbn [new_fields json_fields json_type default of_type].
  split_and!; done || by cbn.
Qed.

Lemma shape_legible : legible false (TObject shape_fields) (VObject shape_values).
Proof. cbn. split_and!; try done. repeat constructor; done. Qed.

Definition old_shape : list value := [VInt 1; VList [VObject [VInt 5; VBytes []]]; VSome (VFloat 5); VTime (H := micro_clock) MPos].

Lemma old_shape_of_type : of_type (TObject shape_fields) (VObject old_shape).
Proof. cbn. split_and!; try done. repeat constructor; done. Qed.

(** Into an object with a point, an optional and a time of its own. *)
Lemma json5_roundtrip_witness : exists text,
  Json5WriteArchive.Write (TObject shape_fields) Json5WriteArchive.default_options (VObject shape_values) = Done text /\
  Value false (TObject shape_fields) (VObject old_shape) (text ++ newline) = Done (VObject shape_values, newline).
Proof.
  destruct (json5_roundtrip false Json5WriteArchive.default_options (TObject shape_fields)
    (VObject old_shape) (VObject shape_values) newline shape_json shape_legible old_shape_of_type) as (text & Hw & Hr & Hc);
    [done|by right; right|].
  exists text. split; [exact Hw|]. rewrite Hr, Hc; [done|]. cbn. by split_and!.
Defined.

(** The color is in no text, the identity and the scale in no object. *)
Lemma json5_evolution_witness : exists text,
  Json5WriteArchive.Write (TObject shape_fields) Json5WriteArchive.default_options (VObject shape_values) = Done text /\
  Value true (TObject new_fields) (VObject [VTime (H := micro_clock) MNadt; VInt 3; VList []]) (text ++ text_of "]") =
    Done (VObject [VTime (H := micro_clock) (MAt (-25)); VInt 3;
      VList [VObject [VInt (-4); VBytes (text_of "a\b")]; VObject [VInt 12; VBytes []]]], text_of "]").
Proof.
  refine (json5_evolution true Json5WriteArchive.default_options new_fields shape_fields
    [VTime (H := micro_clock) MNadt; VInt 3; VList []] shape_values (text_of "]") new_json shape_json _ shape_legible _ _); [| |done].
  - cbn. split_and!; auto.
  - cbn. split_and!; done || constructor.
Defined.

(** A comment, a member that is unknown, and a number that is not. *)
Lemma json5_read_ends_witness :
  match Value false (TObject shape_fields) (VObject old_shape) (text_of "{ /* x */ y : [1, {}], id : 70000 }") with
  | Done (v, s') => of_type (TObject shape_fields) v /\
      exists used, text_of "{ /* x */ y : [1, {}], id : 70000 }" = used ++ s' /\ used <> []
  | Faulted f => f <> OutOfFuel
  end.
Proof.
  refine (json5_read_ends false (TObject shape_fields) (VObject old_shape) (text_of "{ /* x */ y : [1, {}], id : 70000 }")
    shape_json old_shape_of_type).
Defined.

Lemma strings_refused_witness :
  Read_JSON5String (quoted (EscapeJsonString (text_of "ol" ++ byte.of_Z 0xc3 :: [byte.of_Z 0xa9])) ++ text_of ",") = Faulted Assertion /\
  Read_JSON5String (quoted (EscapeJsonString (text_of "ol" ++ byte.of_Z 0 :: [])) ++ text_of ",") = Error.
Proof.
  split.
  - refine (proj1 (strings_refused (text_of "ol") (byte.of_Z 0xc3) [byte.of_Z 0xa9] (text_of ",") eq_refl) _). by vm_compute.
  - refine (proj2 (strings_refused (text_of "ol") (byte.of_Z 0) [] (text_of ",") eq_refl) _). by vm_compute.
Defined.
