(* ===== verification/PoolMap.v ===== *)
(** * micro/pool_map.h: a map of fixed capacity

    The nodes lie in an array in the order of insertion and are searched from
    the front. *)
From S2P Require Import Prelude.
#[local] Open Scope Z_scope.

Module PoolMap.
Section PoolMap.
Context {V : Type}.

(** The nodes in use, in the order of insertion, and the size of the array. *)
Record t := { data : list (list byte * V); max_size : Z }.

Definition make (max : Z) : t := {| data := []; max_size := max |}.
Definition size (m : t) : Z := zlen (data m).

Definition same_key (a b : list byte) : bool := bool_decide (a = b).

Fixpoint find_from (l : list (list byte * V)) (key : list byte) (i : nat) : option nat :=
  match l with
  | [] => None
  | (k, _) :: l => if same_key k key then Some i else find_from l key (S i)
  end.

(** [find]: the index of the node, nothing for [end()]. *)
Definition find (m : t) (key : list byte) : option nat := find_from (data m) key 0.

(** [insert]: the index and whether the node is new; a full map asserts. *)
Definition insert (m : t) (key : list byte) (value : V) : outcome (t * nat * bool) :=
  match find m key with
  | Some i => Done (m, i, false)
  | None =>
      _ ← mj_assert (size m <? max_size m);
      Done ({| data := data m ++ [(key, value)]; max_size := max_size m |}, length (data m), true)
  end.

(** [contains] runs over the same nodes. *)
Definition contains (m : t) (key : list byte) : bool :=
  existsb (fun node => same_key (fst node) key) (data m).

Definition update (i : nat) (v : V) (m : t) : t :=
  {| data := alter (fun node => (fst node, v)) i (data m); max_size := max_size m |}.
End PoolMap.
Arguments t V : clear implicits.
End PoolMap.
