(* ===== verification/SerializableHandler.v ===== *)
(** * micro/serializable_handler.h: objects known by their record and schema

    The interface [SerializableHandlerBase], its contract [HandlerLaws], and the
    handler of a class, built on the archives of Archive.v and Schema.v, which
    meets it; and the framing of what a handler writes that persistent_config.cc
    and telemetry_manager.cc share. *)
From stdpp Require Import strings.
From S2P Require Import Prelude Varuint Streams TimeConversions TelemetryFormat Archive ArchiveTheory Schema SchemaTheory Tokenizer TextArchive.
#[local] Open Scope Z_scope.

(** ** class SerializableHandlerBase

    The binary half, over any stream, and the text half: [Set] of a member by
    its dotted name, and [Read], which formats a member into the buffer it is
    given and says what is written from it. *)
Class SerializableHandlerBase (H : Type) := {
  WriteBinary : H -> writer;
  WriteSchema : H -> writer;
  ReadBinary : H -> forall S (_ : ReadStream S), S -> outcome (Z * H * S);
  SetDefault : H -> H;
  Set_ : H -> list byte -> list byte -> outcome (Z * H);
  Read_ : H -> list byte -> list byte -> outcome (Z * list byte * list byte);
}.

(** [SerializableHandler<T>]: an object of a class whose members are [fs].
    The theorems on the managers hold for any text half. *)
Section handler.
Context `{BoostTime}.

Class TextArchives := {
  SetArchive : fields -> list value -> list byte -> list byte -> outcome (bool * list value);
  ReadArchive : fields -> list value -> list byte -> list byte -> outcome (bool * list byte * list byte);
}.

Record SerializableHandler := { item_class : fields; item : list value }.

Definition with_item (h : SerializableHandler) (vs : list value) : SerializableHandler :=
  {| item_class := item_class h; item := vs |}.

#[global] Instance serializable_handler `{TextArchives} :
    SerializableHandlerBase SerializableHandler := {|
  WriteBinary h := fun _ _ => BinaryWriteArchive.Accept (item_class h) (item h);
  WriteSchema h := fun _ _ => BinarySchemaArchive.VisitType true (TObject (item_class h))
                     (Archive.default (TObject (item_class h)));
  ReadBinary h := fun _ _ s =>
    '(members, error, s) ← BinaryReadArchive.Accept (item_class h) (item h) false s;
    Done (if error : bool then 1 else 0, with_item h members, s);
  SetDefault h := with_item h (default_fields (item_class h));
  Set_ h key v :=
    '(found, vs) ← SetArchive (item_class h) (item h) key v;
    Done (if found : bool then 0 else 1, with_item h vs);
  Read_ h key buffer :=
    '(found, buffer, out) ← ReadArchive (item_class h) (item h) key buffer;
    Done (if found : bool then 0 else 1, buffer, out);
|}.

(** The text half as it is: the archives of TextArchive.v. *)
Definition text_archives `{FloatText} (long_bits : Z) : TextArchives := {|
  SetArchive fs vs key v := TextArchive.SetArchive.Set_ long_bits fs vs key v;
  ReadArchive fs vs key buffer := TextArchive.ReadArchive.Read long_bits fs vs key buffer;
|}.
End handler.

(** ** The messages of the managers *)
Definition crlf : list byte := map byte.of_Z [0x0d; 0x0a].
Definition message (s : String.string) : list byte := text_of s ++ crlf.
Arguments message s%_string.

(** The body of [Emit]: the prefix, the name and the size of what [work] writes
    go into the output buffer; the buffer and what of it is sent. *)
Definition emit_into (output_buffer prefix name : list byte) (work : writer)
    : outcome (list byte * list byte) :=
  ostream ← BufferWriteStream.write (BufferWriteStream.make output_buffer) prefix;
  ostream ← BufferWriteStream.write ostream name;
  ostream ← BufferWriteStream.write ostream crlf;
  let size_position := BufferWriteStream.offset ostream in
  let ostream := BufferWriteStream.skip ostream 4 in
  ostream ← work _ _ ostream;
  let size := u32 (BufferWriteStream.offset ostream - (size_position + 4)) in
  b ← store (BufferWriteStream.buffer ostream) size_position (le_split 4 size);
  data ← load b 0 (BufferWriteStream.offset ostream);
  Done (b, data).

(** What it sends *)
Definition framed (prefix name body : list byte) : list byte :=
  prefix ++ name ++ crlf ++ le_split 4 (zlen body) ++ body.

Lemma bws_write_done (w : BufferWriteStream.t) d :
  BufferWriteStream.ok w -> BufferWriteStream.offset w + zlen d <= zlen (BufferWriteStream.buffer w) ->
  exists w', BufferWriteStream.write w d = Done w' /\ BufferWriteStream.ok w' /\
    BufferWriteStream.offset w' = BufferWriteStream.offset w + zlen d /\
    zlen (BufferWriteStream.buffer w') = zlen (BufferWriteStream.buffer w) /\
    BufferWriteStream.out w' = BufferWriteStream.out w ++ d.
Proof.
  intros Hv Hl. destruct (BufferWriteStream.bws_write_spec w d Hv) as (w' & E & V & O & L & F).
  - by apply Z.leb_le.
  - by exists w'.
Qed.

Lemma store_middle (buf a x c y : list byte) n :
  ztake n buf = a ++ x ++ c -> n <= zlen buf -> n = zlen a + zlen x + zlen c -> zlen y = zlen x ->
  exists buf', store buf (zlen a) y = Done buf' /\ ztake n buf' = a ++ y ++ c /\
    zlen buf' = zlen buf.
Proof.
  intros Et Hn En Hy. rewrite <- (ztake_zdrop n buf), Et. set (t := zdrop n buf).
  assert (Hlen : zlen buf = n + zlen t)
    by (rewrite <- (ztake_zdrop n buf), zlen_app, Et, !zlen_app; unfold t; lia).
  pose proof (zlen_nonneg a). pose proof (zlen_nonneg x). pose proof (zlen_nonneg c).
  pose proof (zlen_nonneg t).
  exists ((a ++ y ++ c) ++ t). split_and!.
  - rewrite store_done; [|lia|rewrite !zlen_app; lia]. rewrite <- !app_assoc.
    assert (Ez : zdrop (zlen a + zlen y) (a ++ x ++ c ++ t) = c ++ t)
      by (rewrite Hy, <- zlen_app, (app_assoc a x); apply zdrop_app_len).
    by rewrite ztake_app_len, Ez.
  - replace n with (zlen (a ++ y ++ c)) by (rewrite !zlen_app; lia). apply ztake_app_len.
  - rewrite !zlen_app. lia.
Qed.

(** Skipping keeps what was written and leaves a gap. *)
Lemma skipped_out (w : BufferWriteStream.t) n :
  BufferWriteStream.ok w -> 0 <= n ->
  BufferWriteStream.offset w + n <= zlen (BufferWriteStream.buffer w) ->
  exists x, BufferWriteStream.out (BufferWriteStream.skip w n) = BufferWriteStream.out w ++ x /\
    zlen x = n.
Proof.
  intros V Hn Hl. unfold BufferWriteStream.ok, BufferWriteStream.out in *. cbn.
  set (o := BufferWriteStream.offset w) in *. set (b := BufferWriteStream.buffer w) in *.
  exists (zdrop o (ztake (o + n) b)). split.
  - rewrite <- (ztake_zdrop o (ztake (o + n) b)) at 1. f_equal.
    rewrite ztake_ztake_min. f_equal. lia.
  - rewrite zlen_drop, zlen_take by lia. lia.
Qed.

Lemma emit_into_spec buffer prefix name (work : writer) body :
  writes work body -> zlen (framed prefix name body) <= zlen buffer ->
  zlen body < 2 ^ 32 ->
  exists b, emit_into buffer prefix name work = Done (b, framed prefix name body) /\
    zlen b = zlen buffer.
Proof.
  intros Hw Hf Hb. unfold framed in Hf. rewrite !zlen_app, zlen_le_split in Hf.
  pose proof (zlen_nonneg prefix). pose proof (zlen_nonneg name). pose proof (zlen_nonneg body).
  change (zlen crlf) with 2 in Hf. unfold emit_into.
  destruct (bws_write_done (BufferWriteStream.make buffer) prefix)
    as (w1 & -> & V1 & O1 & L1 & T1); [apply BufferWriteStream.bws_ok_make|cbn; lia|].
  cbn [BufferWriteStream.offset BufferWriteStream.buffer BufferWriteStream.make] in O1, L1.
  change (BufferWriteStream.out (BufferWriteStream.make buffer)) with (@nil byte) in T1.
  rewrite bind_done.
  destruct (bws_write_done w1 name) as (w2 & -> & V2 & O2 & L2 & T2); [done|lia|]. rewrite bind_done.
  destruct (bws_write_done w2 crlf) as (w3 & -> & V3 & O3 & L3 & T3);
    [done|change (zlen crlf) with 2; lia|]. rewrite bind_done.
  change (zlen crlf) with 2 in O3. cbv zeta.
  set (w4 := BufferWriteStream.skip w3 4).
  assert (V4 : BufferWriteStream.ok w4) by (unfold BufferWriteStream.ok, w4; cbn; lia).
  destruct (@writes_emits _ _ BufferWriteStream.write_laws work body Hw w4 V4) as (w5 & E5 & W5).
  { apply Z.leb_le. unfold w4. cbn. lia. }
  destruct (buffer_wrote w4 w5 body V4 W5) as (V5 & T5 & O5 & L5).
  unfold w4 in O5, L5, T5. cbn [BufferWriteStream.skip BufferWriteStream.offset
    BufferWriteStream.buffer] in O5, L5. rewrite E5, bind_done.
  set (hdr := prefix ++ name ++ crlf).
  assert (Eh : BufferWriteStream.out w3 = hdr) by (rewrite T3, T2, T1, <- !app_assoc; done).
  assert (Hh : zlen hdr = BufferWriteStream.offset w3)
    by (rewrite <- Eh; unfold BufferWriteStream.out, BufferWriteStream.ok in *;
        rewrite zlen_take by lia; lia).
  destruct (skipped_out w3 4) as (x & Ex & Hx); [done|lia|lia|].
  destruct (store_middle (BufferWriteStream.buffer w5) hdr x body (le_split 4 (zlen body))
    (BufferWriteStream.offset w5)) as (b & Eb & Tb & Lb).
  - change (ztake (BufferWriteStream.offset w5) (BufferWriteStream.buffer w5)) with
      (BufferWriteStream.out w5). by rewrite T5, Ex, Eh, <- app_assoc.
  - apply V5.
  - lia.
  - rewrite zlen_le_split. lia.
  - exists b. rewrite O5. replace (BufferWriteStream.offset w3 + 4 + zlen body -
      (BufferWriteStream.offset w3 + 4)) with (zlen body) by lia.
    rewrite uwrap_id by (split; [lia|exact Hb]). rewrite <- Hh, Eb, bind_done.
    rewrite Hh, <- O5, load_done by (unfold BufferWriteStream.ok in V5; lia). rewrite bind_done.
    change (zdrop 0 b) with b. rewrite Tb. split; [|lia].
    unfold framed, hdr. by rewrite <- !app_assoc.
Qed.

(** ** The contract of a handler *)
(** A handler writes a record of its object and a schema of its class, and
    reads the record of a kindred object over its own. *)
Class HandlerLaws (T : Type) `{SerializableHandlerBase T} := {
  handler_ok : T -> Prop;
  kin : T -> T -> Prop;
  record_of : T -> list byte;
  schema_of : T -> list byte;
  overlay : T -> T -> T;
  WriteBinary_law h : handler_ok h -> writes (WriteBinary h) (record_of h);
  WriteSchema_law h : handler_ok h -> writes (WriteSchema h) (schema_of h);
  kin_equiv : Equivalence kin;
  kin_schema a b : kin a b -> schema_of a = schema_of b;
  ReadBinary_law old h : handler_ok old -> handler_ok h -> kin old h ->
    forall S `(ReadStreamLaws S), reads (ReadBinary old S _) (record_of h) (0, overlay old h);
  overlay_law old h : handler_ok old -> handler_ok h -> kin old h ->
    handler_ok (overlay old h) /\ kin old (overlay old h);
}.

(** The handler of a class meets it. *)
Section handler_laws.
Context `{BoostTimeLaws} `{!TextArchives}.

Lemma merge_length fs : forall olds vs,
  storable_fields fs olds -> storable_fields fs vs -> length (merge_fields fs olds vs) = length vs.
Proof.
  induction fs as [|name t i rest IH]; intros [|old olds] [|v vs]; try done.
  cbn. intros [_ Ho] [_ Hv]. f_equal. by apply IH.
Qed.

Lemma zip_with_preserves {A} (P : A -> Prop) (f : A -> A -> A) l k :
  Forall (fun x => forall y, P y -> P (f y x)) k -> Forall P l -> Forall P (zip_with f l k).
Proof.
  intros Hk. revert l. induction Hk as [|x k Hx _ IH]; intros [|y l] Hl; try by constructor.
  apply Forall_cons_1 in Hl as [Hy Hl]. cbn. constructor; auto.
Qed.

Lemma merge_storable t : forall old v,
  wf_type t -> storable t old -> storable t v -> storable t (merge t old v).
Proof.
  induction t using ctype_mut with (P0 := fun fs => forall olds vs,
    wf_fields fs -> storable_fields fs olds -> storable_fields fs vs ->
    storable_fields fs (merge_fields fs olds vs)).
  1-9: intros old v Hw Ho Hv; exact Hv.
  - intros old v Hw Ho Hv. destruct v; try (by destruct Hv). destruct Hv as [Hl Hv].
    cbn [merge storable]. split.
    + pose proof (zlen_nonneg vs). unfold zlen in *. rewrite length_zip_with. lia.
    + apply zip_with_preserves.
      * eapply List.Forall_impl, Hv. intros x Hx y Hy. by apply IHt.
      * apply Forall_app. split; [by apply Forall_ztake, items_storable|].
        by apply Forall_replicate, default_storable.
  - intros old v [Hn Hw] Ho Hv. destruct v, old; try (by destruct Hv); try (by destruct Ho).
    destruct Hv as [Hl Hv], Ho as [Hl' Ho]. cbn [merge storable items_of]. split.
    + unfold zlen in *. rewrite length_zip_with. lia.
    + apply zip_with_preserves; [|done]. eapply List.Forall_impl, Hv.
      intros x Hx y Hy. by apply IHt.
  - intros old v Hw Ho Hv. destruct v; try (by destruct Hv);
    apply IHt; [done|by apply default_storable|done].
  - intros old v Hw Ho Hv. destruct v, old; try (by destruct Hv); try (by destruct Ho).
    by apply IHt.
  - intros olds vs. by destruct olds, vs.
  - intros [|old olds] [|v vs] (Hw & _ & Hws); try (by cbn). intros [Ho Hos] [Hv Hvs].
    split; auto.
Qed.

Definition class_ok (fs : fields) : Prop :=
  wf_fields fs /\ describable_fields fs /\
  zlen (bytes (TObject fs) (Archive.default (TObject fs))) <= max_size.

#[global] Program Instance serializable_handler_laws : HandlerLaws SerializableHandler := {|
  handler_ok h := class_ok (item_class h) /\ storable_fields (item_class h) (item h);
  kin a b := item_class a = item_class b;
  record_of h := fields_bytes (item_class h) (item h);
  schema_of h := schema_bytes true (TObject (item_class h)) (Archive.default (TObject (item_class h)));
  overlay old h := with_item old (merge_fields (item_class old) (item old) (item h)) |}.
Next Obligation.
  intros h [_ Hv]. exact (Visit_writes (TObject (item_class h)) (VObject (item h)) Hv).
Qed.
Next Obligation.
  intros h [(Hw & Hd & _) _].
  apply (VisitType_writes true (TObject (item_class h))); [done|done|].
  by apply (default_storable (TObject (item_class h))).
Qed.
Next Obligation. split; [by intros ?|by intros ?|by intros ? ? ? -> ->]. Qed.
Next Obligation. intros a b E. cbv beta in *. by rewrite E. Qed.
Next Obligation.
  intros old h [(Hw & _ & _) Ho] [_ Hv] E S HS HL s tail Vs R. rewrite <- E in Hv, R.
  destruct (Visit_reads (TObject (item_class old)) (VObject (item h)) (VObject (item old)) Hw Hv Ho
    s tail Vs R) as (s' & Er & V' & R').
  rewrite Visit_object in Er. cbn [members_of] in Er.
  apply bind_done_inv in Er as ([[ms e] s1] & E1 & [= <- -> <-]).
  exists s1. cbn [ReadBinary serializable_handler]. by rewrite E1, bind_done.
Qed.
Next Obligation.
  intros old h [Hc Ho] [_ Hv] E. rewrite <- E in Hv. split; [|done]. split; [exact Hc|].
  apply (merge_storable (TObject (item_class old)) (VObject (item old)) (VObject (item h)));
    [apply Hc|done|done].
Qed.
End handler_laws.
