(* ===== verification/PersistentConfig.v ===== *)
(** * micro/persistent_config.cc: configuration kept in flash

    [PersistentConfig] with its commands, over a [PoolMap] of its elements, and
    the [FlashWriteStream] it writes through (micro/flash.h).  What it knows of
    a configuration object is the interface [SerializableHandlerBase]. *)
From stdpp Require Import strings pretty.
From S2P Require Import Prelude Varuint Streams TimeConversions TelemetryFormat Archive ArchiveTheory Schema SchemaTheory Tokenizer CString PoolMap SerializableHandler.
#[local] Open Scope Z_scope.

(** ** micro/flash.h

    The flash itself is hardware behind [FlashInterface]: [memory] is what
    [GetInfo] delimits, as it reads at a time, and a position is an offset from
    its start. *)
Class FlashInterface := {
  flash_state : Type;
  memory : flash_state -> list byte;
  Erase : flash_state -> flash_state;
  Unlock : flash_state -> flash_state;
  Lock : flash_state -> flash_state;
  ProgramByte : flash_state -> Z -> byte -> flash_state;
}.

Module FlashWriteStream.
Section FlashWriteStream.
Context `{FlashInterface}.

Record t := { flash : flash_state; position : Z }.

Definition make (f : flash_state) (start : Z) : t := {| flash := f; position := start |}.

Definition write_byte (s : t) (c : byte) : t :=
  {| flash := ProgramByte (flash s) (position s) c; position := position s + 1 |}.

Definition write (s : t) (data : list byte) : outcome t := Done (fold_left write_byte data s).

Definition skip (s : t) (amount : Z) : t := {| flash := flash s; position := position s + amount |}.

#[global] Instance write_stream : WriteStream t := {| ws_write := write |}.
End FlashWriteStream.
End FlashWriteStream.

(** [SizeCountingStream] *)
Module SizeCountingStream.
Definition t : Type := Z.
Definition write (s : t) (data : list byte) : outcome t := Done (s + zlen data).
#[global] Instance write_stream : WriteStream t := {| ws_write := write |}.
End SizeCountingStream.

(** ** class PersistentConfig *)
Section PersistentConfig.
Context `{FlashInterface} `{CrcType} {T : Type} `{SerializableHandlerBase T}.

(** [updated], a callback, is known by the name of its element. *)
Record Element := { serializable : T; enumerate : bool }.

Definition with_serializable (e : Element) (h : T) : Element :=
  {| serializable := h; enumerate := enumerate e |}.

(** What runs when an asynchronous write or enumeration completes. *)
Inductive continuation := Respond | ListNext | EnumerateNext | ReadNext.

(** A response is a stream and a callback, known by a number. *)
Inductive output :=
  | StartWrite (response : Z) (data : list byte) (next : continuation)
  | StartEnumerate (response : Z) (name : list byte)
  | Callback (response error : Z)
  | Updated (name : list byte).

Record State := {
  elements : PoolMap.t Element;
  flash : flash_state;
  output_buffer : list byte;
  current_list_index : Z;
  current_response : Z;
  current_enumerate_index : Z;
  end_enumerate_index : Z;
}.

Definition kMaxSize : Z := 16.

Definition make (f : flash_state) (buffer : list byte) : State :=
  {| elements := PoolMap.make kMaxSize; flash := f; output_buffer := buffer;
     current_list_index := 0; current_response := 0;
     current_enumerate_index := 0; end_enumerate_index := 0 |}.

Definition with_elements (m : PoolMap.t Element) (s : State) : State :=
  {| elements := m; flash := flash s; output_buffer := output_buffer s;
     current_list_index := current_list_index s; current_response := current_response s;
     current_enumerate_index := current_enumerate_index s;
     end_enumerate_index := end_enumerate_index s |}.
Definition with_flash (f : flash_state) (s : State) : State :=
  {| elements := elements s; flash := f; output_buffer := output_buffer s;
     current_list_index := current_list_index s; current_response := current_response s;
     current_enumerate_index := current_enumerate_index s;
     end_enumerate_index := end_enumerate_index s |}.
Definition with_buffer (b : list byte) (s : State) : State :=
  {| elements := elements s; flash := flash s; output_buffer := b;
     current_list_index := current_list_index s; current_response := current_response s;
     current_enumerate_index := current_enumerate_index s;
     end_enumerate_index := end_enumerate_index s |}.
Definition with_list (i : Z) (s : State) : State :=
  {| elements := elements s; flash := flash s; output_buffer := output_buffer s;
     current_list_index := i; current_response := current_response s;
     current_enumerate_index := current_enumerate_index s;
     end_enumerate_index := end_enumerate_index s |}.
Definition with_response (r : Z) (s : State) : State :=
  {| elements := elements s; flash := flash s; output_buffer := output_buffer s;
     current_list_index := current_list_index s; current_response := r;
     current_enumerate_index := current_enumerate_index s;
     end_enumerate_index := end_enumerate_index s |}.
Definition with_enumerate (i e : Z) (s : State) : State :=
  {| elements := elements s; flash := flash s; output_buffer := output_buffer s;
     current_list_index := current_list_index s; current_response := current_response s;
     current_enumerate_index := i; end_enumerate_index := e |}.

Definition nodes (s : State) : list (list byte * Element) := PoolMap.data (elements s).
Definition element_at (s : State) (i : nat) : option (list byte * Element) := nodes s !! i.
Definition put (i : nat) (h : T) (s : State) : State :=
  match element_at s i with
  | Some (_, e) => with_elements (PoolMap.update i (with_serializable e h) (elements s)) s
  | None => s
  end.

Definition result : Type := outcome (State * list output).

(** [WriteMessage] and the messages of the commands. *)
Definition WriteMessage (m : list byte) (response : Z) : list output :=
  [StartWrite response m Respond].
Definition WriteOK (response : Z) : list output := WriteMessage (message "OK") response.
Definition UnknownCommand (response : Z) : list output :=
  WriteMessage (message "ERR unknown subcommand") response.

(** [RegisterDetail] *)
Definition RegisterDetail (s : State) (name : list byte) (h : T) (enum : bool) : outcome State :=
  '(m, _, inserted) ← PoolMap.insert (elements s) name {| serializable := h; enumerate := enum |};
  _ ← mj_assert inserted;
  Done (with_elements m s).

(** [EnumerateCallback]: the loop skips the elements that are not enumerated. *)
Fixpoint next_enumerated (fuel : nat) (s : State) : option (list byte) * State :=
  match fuel with
  | O => (None, s)
  | S fuel =>
      if end_enumerate_index s <=? current_enumerate_index s then (None, s)
      else
        match element_at s (Z.to_nat (current_enumerate_index s)) with
        | None => (None, s)
        | Some (name, e) =>
            let s := with_enumerate (current_enumerate_index s + 1) (end_enumerate_index s) s in
            if enumerate e then (Some name, s) else next_enumerated fuel s
        end
  end.

Definition EnumerateCallback (s : State) (error : Z) : result :=
  if negb (error =? 0) then Done (s, [Callback (current_response s) error])
  else
    match next_enumerated (S (length (nodes s))) s with
    | (None, s) => Done (s, WriteOK (current_response s))
    | (Some name, s) => Done (s, [StartEnumerate (current_response s) name])
    end.

Definition Enumerate (s : State) (maybe_field : list byte) (response : Z) : result :=
  let s := with_response response s in
  if negb (zlen maybe_field =? 0) then
    match PoolMap.find (elements s) maybe_field with
    | None => Done (s, WriteMessage (message "ERR unknown group") response)
    | Some i => EnumerateCallback (with_enumerate (Z.of_nat i) (Z.of_nat i + 1) s) 0
    end
  else EnumerateCallback (with_enumerate 0 (PoolMap.size (elements s)) s) 0.

(** [ListCallback] copies the name into the buffer without looking at the
    size of the buffer. *)
Definition ListCallback (s : State) (error : Z) : result :=
  if negb (error =? 0) then Done (s, [Callback (current_response s) error])
  else if PoolMap.size (elements s) <=? current_list_index s
  then Done (s, WriteOK (current_response s))
  else
    match element_at s (Z.to_nat (current_list_index s)) with
    | None => Done (s, WriteOK (current_response s))
    | Some (name, _) =>
        let s := with_list (current_list_index s + 1) s in
        b ← store (output_buffer s) 0 (name ++ crlf);
        line ← load b 0 (zlen name + 2);
        Done (with_buffer b s, [StartWrite (current_response s) line ListNext])
    end.

Definition List_ (s : State) (response : Z) : result :=
  ListCallback (with_list 0 (with_response response s)) 0.

(** [Emit] *)
Definition Emit (s : State) (prefix name : list byte) (work : writer) (response : Z) : result :=
  '(b, data) ← emit_into (output_buffer s) prefix name work;
  Done (with_buffer b s, [StartWrite response data Respond]).

Definition Schema (s : State) (name : list byte) (response : Z) : result :=
  match PoolMap.find (elements s) name ≫= element_at s with
  | None => Done (s, WriteMessage (message "ERR unknown name") response)
  | Some (_, e) => Emit s (text_of "cschema ") name (WriteSchema (serializable e)) response
  end.

Definition Data (s : State) (name : list byte) (response : Z) : result :=
  match PoolMap.find (elements s) name ≫= element_at s with
  | None => Done (s, WriteMessage (message "ERR unknown name") response)
  | Some (_, e) => Emit s (text_of "cdata ") name (WriteBinary (serializable e)) response
  end.

(** [Get]: the handler starts the write of the value it formatted, unless the
    value is empty; [AsyncWrite] of nothing completes at once. *)
Definition ReadCallback (s : State) (error : Z) : result :=
  if negb (error =? 0) then Done (s, [Callback (current_response s) error])
  else Done (s, WriteMessage crlf (current_response s)).

Definition Get (s : State) (field : list byte) (response : Z) : result :=
  let '(group, tokenizer) := Tokenizer.next (Tokenizer.make field (text_of ".")) in
  match PoolMap.find (elements s) group ≫= element_at s with
  | None => Done (s, WriteMessage (message "ERR unknown group") response)
  | Some (_, e) =>
      let s := with_response response s in
      '(err, buffer, data) ← Read_ (serializable e) (Tokenizer.remaining tokenizer) (output_buffer s);
      let s := with_buffer buffer s in
      if err =? 0 then
        match data with
        | [] => ReadCallback s 0
        | _ => Done (s, [StartWrite response data ReadNext])
        end
      else Done (s, WriteMessage (message "ERR error reading") response)
  end.

Definition SetCommand (s : State) (command : list byte) (response : Z) : result :=
  let '(group, tokenizer) := Tokenizer.next (Tokenizer.make command (text_of ".")) in
  match PoolMap.find (elements s) group with
  | None => Done (s, WriteMessage (message "ERR unknown group") response)
  | Some i =>
      match element_at s i with
      | None => Faulted Undefined
      | Some (name, e) =>
          let '(key, name_value) :=
            Tokenizer.next (Tokenizer.make (Tokenizer.remaining tokenizer) (text_of " ")) in
          let v := Tokenizer.remaining name_value in
          '(res, h) ← Set_ (serializable e) key v;
          let s := put i h s in
          if res =? 0 then Done (s, Updated name :: WriteOK response)
          else Done (s, WriteMessage (message "ERR error setting") response)
      end
  end.

Definition notify (s : State) : list output := map (fun node => Updated (fst node)) (nodes s).

(** [CalculateSchemaCrc] *)
Definition CalculateSchemaCrc (h : T) : outcome Z :=
  c ← WriteSchema h _ _ (CrcStream.make_writer (tt : NullWriteStream.t));
  Done (u32 (CrcStream.writer_checksum c)).

(** [DoLoad]: a record at a time.  Each takes at least a byte of the flash,
    so as much fuel as there are bytes, and one more, is enough. *)
Fixpoint Load_loop (fuel : nat) (s : State) (flash_stream : BufferReadStream.t) : outcome State :=
  match fuel with
  | O => Faulted OutOfFuel
  | S fuel =>
      '(maybe_name_size, flash_stream) ← TelemetryReader.ReadVaruint flash_stream;
      match maybe_name_size with
      | None => Done s
      | Some name_size =>
          if (name_size =? 0) || (u32 kMaxStringSize <=? name_size) then Done s
          else
          let name := ztake name_size
            (zdrop (BufferReadStream.offset flash_stream) (BufferReadStream.buffer flash_stream)) in
          flash_stream ← BufferReadStream.ignore flash_stream name_size;
          if BufferReadStream.remaining flash_stream <? 8 then Done s
          else
          '(maybe_expected_crc, flash_stream) ← TelemetryReader.ReadScalar 4 flash_stream;
          '(maybe_data_size, flash_stream) ← TelemetryReader.ReadScalar 4 flash_stream;
          match maybe_expected_crc, maybe_data_size with
          | Some expected_crc, Some data_size =>
              match PoolMap.find (elements s) name with
              | None =>
                  flash_stream ← BufferReadStream.ignore flash_stream data_size;
                  Load_loop fuel s flash_stream
              | Some i =>
                  match element_at s i with
                  | None => Faulted Undefined
                  | Some (_, e) =>
                      actual_crc ← CalculateSchemaCrc (serializable e);
                      if negb (actual_crc =? expected_crc) then
                        flash_stream ← BufferReadStream.ignore flash_stream data_size;
                        Load_loop fuel s flash_stream
                      else
                        '(_, h, flash_stream) ← ReadBinary (serializable e) _ _ flash_stream;
                        Load_loop fuel (put i h s) flash_stream
                  end
              end
          | _, _ => Done s
          end
      end
  end.

Definition DoLoad (s : State) : result :=
  let m := memory (flash s) in
  s ← Load_loop (S (length m)) s (BufferReadStream.make m);
  Done (s, notify s).

Definition Load (s : State) (response : Z) : result :=
  '(s, out) ← DoLoad s;
  Done (s, out ++ WriteOK response).

(** One round of the loop of [Write], to a stream over the flash. *)
Definition WriteElement (node : list byte * Element) (stream : FlashWriteStream.t)
    : outcome FlashWriteStream.t :=
  let h := serializable (snd node) in
  stream ← TelemetryWriter.WriteString stream (fst node);
  crc ← CalculateSchemaCrc h;
  stream ← TelemetryWriter.Write_32 stream crc;
  size ← WriteBinary h _ SizeCountingStream.write_stream (0 : SizeCountingStream.t);
  stream ← TelemetryWriter.Write_32 stream (u32 size);
  WriteBinary h _ _ stream.

Definition Write (s : State) (response : Z) : result :=
  let f := Erase (Unlock (flash s)) in
  stream ← for_each WriteElement (nodes s) (FlashWriteStream.make f 0);
  stream ← TelemetryWriter.Write_32 stream 0;
  let s := with_flash (Lock (FlashWriteStream.flash stream)) s in
  Done (s, WriteOK response).

(** [Size]: the same writes into a counting stream; the number is printed by
    [snprintf("%d\r\nOK\r\n")] into the output buffer, cut to its size. *)
Definition SizeElement (node : list byte * Element) (stream : SizeCountingStream.t)
    : outcome SizeCountingStream.t :=
  stream ← TelemetryWriter.WriteString stream (fst node);
  stream ← TelemetryWriter.Write_32 stream 0;
  stream ← TelemetryWriter.Write_32 stream 0;
  WriteBinary (serializable (snd node)) _ SizeCountingStream.write_stream stream.

Definition counted_size (s : State) : outcome Z :=
  stream ← for_each SizeElement (nodes s) (0 : SizeCountingStream.t);
  TelemetryWriter.Write_32 stream 0.

Definition Size (s : State) (response : Z) : result :=
  size ← counted_size s;
  let line := decimal (swrap 32 size) ++ crlf ++ message "OK" in
  b ← snprintf (output_buffer s) line;
  Done (with_buffer b s, WriteMessage (ztake (zlen b - 1) line) response).

Definition Default (s : State) (response : Z) : result :=
  let m := {| PoolMap.data := map (fun node => (fst node,
                with_serializable (snd node) (SetDefault (serializable (snd node))))) (nodes s);
              PoolMap.max_size := PoolMap.max_size (elements s) |} in
  let s := with_elements m s in
  Done (s, notify s ++ WriteOK response).

(** [Command]: the dispatch on the first word. *)
Definition Command (s : State) (command : list byte) (response : Z) : result :=
  let '(cmd, tokenizer) := Tokenizer.next (Tokenizer.make command (text_of " ")) in
  let remaining := Tokenizer.remaining tokenizer in
  let named w := bool_decide (cmd = text_of w) in
  if named "enumerate"%string then Enumerate s remaining response
  else if named "list"%string then List_ s response
  else if named "schema"%string then Schema s remaining response
  else if named "data"%string then Data s remaining response
  else if named "get"%string then Get s remaining response
  else if named "set"%string then SetCommand s remaining response
  else if named "load"%string then Load s response
  else if named "write"%string then Write s response
  else if named "size"%string then Size s response
  else if named "default"%string then Default s response
  else Done (s, UnknownCommand response).

(** The completion of what a command started. *)
Definition Complete (s : State) (response : Z) (next : continuation) (error : Z) : result :=
  match next with
  | Respond => Done (s, [Callback response error])
  | ListNext => ListCallback s error
  | EnumerateNext => EnumerateCallback s error
  | ReadNext => ReadCallback s error
  end.
End PersistentConfig.
