(* ===== verification/ConfigTheory.v ===== *)
(** * PersistentConfig: what is written to flash and what is loaded from it

    The contract of the flash; the image
    [Write] leaves in flash; what [DoLoad] makes of any such image. *)
From stdpp Require Import strings pretty.
From S2P Require Import Prelude Varuint Streams TimeConversions TelemetryFormat Archive ArchiveTheory Schema SchemaTheory Tokenizer CString PoolMap SerializableHandler PersistentConfig.
#[local] Open Scope Z_scope.

(** ** Contracts *)

(** What FlashInterface documents: programming follows an erase, and sets the
    byte it is given. *)
Definition erased : byte := byte.of_Z 0xff.

Class FlashLaws `{FlashInterface} := {
  unlocked : flash_state -> Prop;
  Unlock_law f : unlocked (Unlock f) /\ memory (Unlock f) = memory f;
  Erase_law f : unlocked f ->
    unlocked (Erase f) /\ memory (Erase f) = replicate (length (memory f)) erased;
  ProgramByte_law f i c : unlocked f -> memory f !! i = Some erased ->
    unlocked (ProgramByte f (Z.of_nat i) c) /\
    memory (ProgramByte f (Z.of_nat i) c) = <[i := c]> (memory f);
  Lock_law f : memory (Lock f) = memory f;
}.

(** ** The streams of [Write] *)
Section streams.
Context `{FlashLaws}.

(** Everything from the position on is erased. *)
Definition flash_ok (s : FlashWriteStream.t) : Prop :=
  unlocked (FlashWriteStream.flash s) /\ 0 <= FlashWriteStream.position s /\
  exists k, memory (FlashWriteStream.flash s) =
    ztake (FlashWriteStream.position s) (memory (FlashWriteStream.flash s)) ++ replicate k erased /\
  zlen (ztake (FlashWriteStream.position s) (memory (FlashWriteStream.flash s))) =
    FlashWriteStream.position s.

Lemma write_byte_spec f done_ k c :
  unlocked f -> memory f = done_ ++ replicate (S k) erased ->
  let f' := ProgramByte f (zlen done_) c in
  unlocked f' /\ memory f' = (done_ ++ [c]) ++ replicate k erased.
Proof.
  intros Hu E. cbv zeta. unfold zlen.
  destruct (ProgramByte_law f (length done_) c Hu) as [Hu' Em].
  { rewrite E, lookup_app_r, Nat.sub_diag by lia. done. }
  split; [done|]. rewrite Em, E. rewrite insert_app_r_alt, Nat.sub_diag by lia.
  by rewrite <- app_assoc.
Qed.

Lemma write_bytes_spec d : forall f done_ k,
  unlocked f -> memory f = done_ ++ replicate (length d + k) erased ->
  let s' := fold_left FlashWriteStream.write_byte d (FlashWriteStream.make f (zlen done_)) in
  unlocked (FlashWriteStream.flash s') /\
  memory (FlashWriteStream.flash s') = (done_ ++ d) ++ replicate k erased /\
  FlashWriteStream.position s' = zlen (done_ ++ d).
Proof.
  induction d as [|c d IH]; intros f done_ k Hu E.
  { cbn. rewrite app_nil_r. done. }
  cbn [fold_left]. cbn [length Nat.add] in E.
  destruct (write_byte_spec f done_ _ c Hu E) as [Hu' E'].
  replace (FlashWriteStream.write_byte (FlashWriteStream.make f (zlen done_)) c) with
    (FlashWriteStream.make (ProgramByte f (zlen done_) c) (zlen (done_ ++ [c])))
    by (unfold FlashWriteStream.write_byte, FlashWriteStream.make; cbn;
        rewrite zlen_app; reflexivity).
  replace (done_ ++ c :: d) with ((done_ ++ [c]) ++ d) by (by rewrite <- app_assoc).
  exact (IH _ _ _ Hu' E').
Qed.

#[global] Program Instance flash_write_laws : WriteStreamLaws FlashWriteStream.t := {|
  ws_valid := flash_ok;
  ws_out s := ztake (FlashWriteStream.position s) (memory (FlashWriteStream.flash s));
  ws_fits s n := FlashWriteStream.position s + n <=? zlen (memory (FlashWriteStream.flash s)) |}.
Next Obligation.
  intros [f p] d (Hu & Hp & k & E & El) Hf%Z.leb_le. cbn in *.
  set (done_ := ztake p (memory f)) in *.
  assert (Hk : exists j, (k = length d + j)%nat).
  { exists (k - length d)%nat. rewrite E, zlen_app in Hf. unfold zlen in *.
    rewrite length_replicate in Hf. lia. }
  destruct Hk as [j ->].
  pose proof (write_bytes_spec d f done_ j Hu E) as (Hu' & Em & Ep).
  replace (FlashWriteStream.make f (zlen done_)) with
    {| FlashWriteStream.flash := f; FlashWriteStream.position := p |} in *
    by (unfold FlashWriteStream.make; by rewrite El).
  eexists. split; [reflexivity|]. set (s' := fold_left _ d _) in *.
  assert (Et : ztake (FlashWriteStream.position s') (memory (FlashWriteStream.flash s')) = done_ ++ d).
  { rewrite Em, Ep. apply ztake_app_len. }
  unfold flash_ok. rewrite Et. split_and!; [done|rewrite Ep; apply zlen_nonneg| |done|].
  - exists j. by rewrite Em, Ep.
  - intros n Hn. f_equal; [rewrite Ep, zlen_app; lia|]. rewrite Em, E, !zlen_app.
    unfold zlen. rewrite !length_replicate. lia.
Qed.
Next Obligation. intros s n m Hn Hm%Z.leb_le. apply Z.leb_le. lia. Qed.

End streams.

Lemma write_all_counts ds n :
  @write_all _ SizeCountingStream.write_stream ds n = Done (n + zlen (concat ds)).
Proof.
  revert n. induction ds as [|d ds IH]; intros n; [cbn; f_equal; unfold zlen; simpl; lia|].
  cbn [write_all]. change (ws_write n d) with (@Done Z (n + zlen d)). rewrite bind_done, IH.
  cbn [concat]. rewrite zlen_app. f_equal. lia.
Qed.

(** Any writer counts as what it writes. *)
Lemma writes_counts (f : writer) d n :
  writes f d -> f _ SizeCountingStream.write_stream n = Done (n + zlen d).
Proof. intros (ds & <- & Hf). rewrite Hf. apply write_all_counts. Qed.

Lemma write_all_crc `{CrcLaws} ds (c : CrcStream.writer NullWriteStream.t) :
  exists c', write_all ds c = Done c' /\
    CrcStream.wcrc c' = process_bytes (CrcStream.wcrc c) (concat ds).
Proof.
  revert c. induction ds as [|d ds IH]; intros c; [exists c; by rewrite process_nil|].
  cbn [write_all]. destruct (IH {| CrcStream.wbase := CrcStream.wbase c;
    CrcStream.wcrc := process_bytes (CrcStream.wcrc c) d |}) as (c' & E & Ec).
  exists c'. split; [exact E|]. rewrite Ec. cbn [CrcStream.wcrc concat]. by rewrite process_app.
Qed.

(** ** The image in flash *)

(** An element of the image: name, schema checksum, data. *)
Definition entry : Type := list byte * Z * list byte.

Definition entry_bytes (e : entry) : list byte :=
  let '(name, crc, data) := e in
  text name ++ le_split 4 crc ++ le_split 4 (zlen data) ++ data.
Definition end_bytes : list byte := le_split 4 0.
Definition image (es : list entry) : list byte := concat (map entry_bytes es) ++ end_bytes.

Section image.
Context `{FlashLaws} `{CrcLaws} {T : Type} `{HandlerLaws T}.

(** The checksum that stands for a class. *)
Definition schema_crc (h : T) : Z := u32 (crc_of (schema_of h)).

Lemma CalculateSchemaCrc_spec h : handler_ok h -> CalculateSchemaCrc h = Done (schema_crc h).
Proof.
  intros Hh. destruct (WriteSchema_law h Hh) as (ds & Ed & Hf). unfold CalculateSchemaCrc.
  rewrite Hf. destruct (write_all_crc ds (CrcStream.make_writer tt)) as (c & E & Ec).
  unfold NullWriteStream.t in *. rewrite E, bind_done. unfold CrcStream.writer_checksum.
  rewrite Ec, Ed. done.
Qed.

Definition entry_of (node : list byte * Element (T := T)) : entry :=
  (fst node, schema_crc (serializable (snd node)), record_of (serializable (snd node))).

Definition node_ok (node : list byte * Element (T := T)) : Prop :=
  zlen (fst node) <= kMaxStringSize /\ handler_ok (serializable (snd node)) /\
  zlen (record_of (serializable (snd node))) < 2 ^ 32.

Lemma u32_record h : zlen (record_of (T := T) h) < 2 ^ 32 ->
  u32 (zlen (record_of h)) = zlen (record_of h).
Proof. intros. apply uwrap_id. split; [apply zlen_nonneg|done]. Qed.

Lemma WriteElement_emits node :
  node_ok node -> emits (WriteElement node) (entry_bytes (entry_of node)).
Proof.
  intros (Hn & Hh & Hr). set (h := serializable (snd node)).
  refine (emits_ext (fun stream =>
    stream ← TelemetryWriter.WriteString stream (fst node);
    stream ← TelemetryWriter.Write_32 stream (schema_crc h);
    stream ← TelemetryWriter.Write_32 stream (zlen (record_of h));
    WriteBinary h _ _ stream) _ _ _ _).
  - intros s. unfold WriteElement. fold h.
    destruct (TelemetryWriter.WriteString s (fst node)) as [s1|]; [|done]. rewrite !bind_done.
    rewrite (CalculateSchemaCrc_spec h Hh), bind_done.
    destruct (TelemetryWriter.Write_32 s1 (schema_crc h)) as [s2|]; [|done]. rewrite !bind_done.
    rewrite (writes_counts _ _ 0 (WriteBinary_law h Hh)), bind_done, Z.add_0_l.
    by rewrite (u32_record h Hr).
  - unfold entry_of, entry_bytes. fold h.
    refine (emits_bind _ _ _ _ (writes_emits _ _ (writes_text _ Hn))
      (emits_bind _ _ _ _ (writes_emits _ _ (writes_WriteScalar 4 _))
        (emits_bind _ _ _ _ (writes_emits _ _ (writes_WriteScalar 4 _))
          (writes_emits _ _ (WriteBinary_law h Hh))))).
Qed.

Lemma nodes_emits nodes :
  Forall node_ok nodes ->
  emits (for_each WriteElement nodes) (concat (map (fun n => entry_bytes (entry_of n)) nodes)).
Proof.
  induction 1 as [|n nodes Hn _ IH]; [exact emits_nil|].
  exact (emits_bind _ _ _ _ (WriteElement_emits n Hn) IH).
Qed.

Definition image_of (nodes : list (list byte * Element (T := T))) : list byte :=
  image (map entry_of nodes).

(** The whole of [Write]. *)
Lemma Write_spec s response :
  Forall node_ok (nodes s) -> zlen (image_of (nodes s)) <= zlen (memory (flash s)) ->
  exists f', Write s response = Done (with_flash f' s, WriteOK response) /\
    exists k, memory f' = image_of (nodes s) ++ replicate k erased.
Proof.
  intros Hn Hl. unfold Write. set (f := Erase (Unlock (flash s))).
  destruct (Unlock_law (flash s)) as [Hu Em]. destruct (Erase_law _ Hu) as [Hu' Em'].
  rewrite Em in Em'. fold f in Hu', Em'.
  assert (Hw : emits (fun st => for_each WriteElement (nodes s) st ≫= fun st =>
    TelemetryWriter.Write_32 st 0) (image_of (nodes s))).
  { unfold image_of, image. rewrite map_map.
    exact (emits_bind _ _ _ _ (nodes_emits _ Hn) (writes_emits _ _ (writes_WriteScalar 4 0))). }
  destruct (Hw (FlashWriteStream.make f 0)) as (st & E & (Hu2 & _ & k & Ek & _) & O & _).
  - split_and!; [done|done|]. exists (length (memory (flash s))). cbn. by rewrite Em'.
  - apply Z.leb_le. cbn. rewrite Em'. unfold zlen in *. rewrite length_replicate. lia.
  - exists (Lock (FlashWriteStream.flash st)).
    apply bind_done_inv in E as (st1 & E1 & E2). rewrite E1, bind_done, E2, bind_done.
    split; [done|]. exists k. rewrite Lock_law, Ek.
    cbn [ws_out flash_write_laws] in O. rewrite O. done.
Qed.

(** ** Counting *)
Lemma SizeElement_counts node n :
  node_ok node -> SizeElement node n = Done (n + zlen (entry_bytes (entry_of node))).
Proof.
  intros (Hn & Hh & Hr). unfold SizeElement, TelemetryWriter.Write_32.
  rewrite (writes_counts _ _ n (writes_text _ Hn)), bind_done.
  rewrite (writes_counts _ _ _ (writes_WriteScalar 4 0)), bind_done.
  rewrite (writes_counts _ _ _ (writes_WriteScalar 4 0)), bind_done.
  rewrite (writes_counts _ _ _ (WriteBinary_law _ Hh)). f_equal.
  unfold entry_of, entry_bytes. rewrite !zlen_app, !zlen_le_split. lia.
Qed.

Lemma counted_size_image s :
  Forall node_ok (nodes s) -> counted_size s = Done (zlen (image_of (nodes s))).
Proof.
  intros Hn. unfold counted_size.
  assert (Hs : forall n, for_each SizeElement (nodes s) n =
    Done (n + zlen (concat (map (fun e => entry_bytes (entry_of e)) (nodes s))))).
  { induction Hn as [|e l He _ IH]; intros n; [cbn; f_equal; unfold zlen; simpl; lia|].
    cbn [for_each map concat]. rewrite (SizeElement_counts e n He), bind_done, IH.
    rewrite zlen_app. f_equal. lia. }
  rewrite Hs, bind_done.
  etransitivity; [exact (writes_counts _ _ _ (writes_WriteScalar 4 0))|].
  unfold image_of, image. rewrite map_map, zlen_app. f_equal.
Qed.

(** ** Loading *)

(** What a record in flash holds: the record of a handler of its class, or
    bytes that mean nothing to this program. *)
Inductive saved := Stored (h : T) | Foreign (data : list byte).
Definition saved_bytes (d : saved) : list byte :=
  match d with Stored h => record_of h | Foreign data => data end.
Definition saved_entry (r : list byte * Z * saved) : entry :=
  let '(name, crc, d) := r in (name, crc, saved_bytes d).

Definition found (s : State (T := T)) (name : list byte) : option (nat * Element (T := T)) :=
  match PoolMap.find (elements s) name with
  | Some i => match element_at s i with Some (_, e) => Some (i, e) | None => None end
  | None => None
  end.

(** A record is applied to the element of its name if the class is still the
    one it was written for, and passed over otherwise. *)
Definition restore (s : State (T := T)) (r : list byte * Z * saved) : State (T := T) :=
  let '(name, crc, d) := r in
  match found s name, d with
  | Some (i, e), Stored h =>
      if schema_crc (serializable e) =? crc
      then put i (overlay (serializable e) h) s else s
  | _, _ => s
  end.

(** Records a program with these elements may find: if name and checksum match
    an element, the data is a record of its class. *)
Definition acceptable (s : State (T := T)) (r : list byte * Z * saved) : Prop :=
  let '(name, crc, d) := r in
  0 < zlen name < kMaxStringSize /\ in_u 32 crc /\ zlen (saved_bytes d) < 2 ^ 32 /\
  match found s name with
  | Some (_, e) => schema_crc (serializable e) = crc ->
      exists h, d = Stored h /\ handler_ok h /\ kin (serializable e) h
  | None => True
  end.

Definition elements_ok (s : State (T := T)) : Prop :=
  Forall (fun node => handler_ok (serializable (snd node))) (nodes s).

Lemma find_from_some l key i j :
  PoolMap.find_from (V := Element (T := T)) l key i = Some j ->
  (i <= j)%nat /\ exists e, l !! (j - i)%nat = Some (key, e).
Proof.
  revert i. induction l as [|[k e] l IH]; intros i E; [done|]. cbn in E.
  unfold PoolMap.same_key in E. case_bool_decide; [injection E as <-; subst|].
  - split; [lia|]. rewrite Nat.sub_diag. by exists e.
  - apply IH in E as [Hl (e' & He)]. split; [lia|]. exists e'.
    by replace (j - i)%nat with (S (j - S i)) by lia.
Qed.

Lemma found_some (s : State (T := T)) name i e :
  found s name = Some (i, e) -> element_at s i = Some (name, e).
Proof.
  unfold found, PoolMap.find. intros E.
  destruct (PoolMap.find_from _ _ _) as [j|] eqn:Ef; [|done].
  destruct (find_from_some _ _ _ _ Ef) as [_ (e' & He)]. rewrite Nat.sub_0_r in He.
  unfold element_at, nodes in *. rewrite He in *. by simplify_eq.
Qed.

(** [find] has a node whenever it has an index. *)
Lemma find_found (s : State (T := T)) name i :
  PoolMap.find (elements s) name = Some i -> exists e, found s name = Some (i, e).
Proof.
  unfold found, PoolMap.find. intros Ef.
  destruct (find_from_some _ _ _ _ Ef) as [_ (e & He)]. rewrite Nat.sub_0_r in He.
  rewrite Ef. unfold element_at, nodes. rewrite He. by exists e.
Qed.

(** Elements keep their names, places and classes. *)
Definition shape (a b : list byte * Element (T := T)) : Prop :=
  fst a = fst b /\ kin (serializable (snd a)) (serializable (snd b)).
Definition same_shape (s s' : State (T := T)) : Prop := Forall2 shape (nodes s) (nodes s').

Lemma find_shape l l' key i :
  Forall2 shape l l' -> PoolMap.find_from l key i = PoolMap.find_from l' key i.
Proof.
  intros Hl. revert i. induction Hl as [|[k e] [k' e'] l l' [Hk _] _ IH]; intros i; [done|].
  cbn in *. subst. by rewrite IH.
Qed.

Lemma found_shape s s' name :
  same_shape s s' ->
  match found s name, found s' name with
  | Some (i, e), Some (j, e') => i = j /\ kin (serializable e) (serializable e')
  | None, None => True
  | _, _ => False
  end.
Proof.
  intros Hs. unfold found, PoolMap.find. rewrite (find_shape (PoolMap.data (elements s)) (PoolMap.data (elements s')) name 0 Hs).
  destruct (PoolMap.find_from _ name 0) as [i|]; [|done]. unfold element_at.
  destruct (nodes s !! i) as [[k e]|] eqn:E.
  - destruct (Forall2_lookup_l _ _ _ _ _ Hs E) as ([k' e'] & E' & _ & Hk). by rewrite E'.
  - destruct (nodes s' !! i) as [[k' e']|] eqn:E'; [|done].
    destruct (Forall2_lookup_r _ _ _ _ _ Hs E') as (x & Ex & _). congruence.
Qed.

Lemma schema_crc_kin a b : kin a b -> schema_crc a = schema_crc b.
Proof. intros Hk. unfold schema_crc. by rewrite (kin_schema a b Hk). Qed.

Lemma acceptable_shape s s' r : same_shape s s' -> acceptable s r -> acceptable s' r.
Proof.
  destruct r as [[name crc] d]. intros Hs (Hn & Hc & Hd & Hm). split_and!; [apply Hn|apply Hn|done|done|].
  pose proof (found_shape s s' name Hs) as Hf. pose proof kin_equiv.
  destruct (found s name) as [[i e]|], (found s' name) as [[j e']|]; try done.
  destruct Hf as [_ Hk]. intros Ec. destruct Hm as (h & Ed & Hh & Hkh).
  - by rewrite (schema_crc_kin _ _ Hk).
  - exists h. split_and!; [done|done|]. etransitivity; [symmetry; exact Hk|done].
Qed.

Lemma same_shape_refl s : same_shape s s.
Proof.
  unfold same_shape. pose proof kin_equiv. induction (nodes s); constructor; [by split|done].
Qed.

Lemma same_shape_trans s1 s2 s3 : same_shape s1 s2 -> same_shape s2 s3 -> same_shape s1 s3.
Proof.
  unfold same_shape. pose proof kin_equiv as Hk.
  generalize (nodes s1) (nodes s2) (nodes s3). intros l1 l2 l3 H12. revert l3.
  induction H12 as [|a b l1 l2 [Ea Ka] _ IH]; intros l3 H23.
  - apply Forall2_nil_inv_l in H23 as ->. constructor.
  - apply Forall2_cons_inv_l in H23 as (c & l4 & [Eb Kb] & Hl & ->). constructor; [|auto].
    split; [congruence|by transitivity (serializable (snd b))].
Qed.

(** [put] replaces an object and nothing else. *)
Lemma nodes_put i h (s : State (T := T)) name e :
  element_at s i = Some (name, e) ->
  nodes (put i h s) = <[i := (name, with_serializable e h)]> (nodes s).
Proof.
  intros E. unfold put. rewrite E. unfold element_at in E. unfold nodes, PoolMap.update, with_elements.
  cbn [PoolMap.data elements]. fold (nodes s).
  apply list_eq. intros j. destruct (decide (j = i)) as [->|Hj].
  - rewrite list_lookup_alter_eq, list_lookup_insert_eq by (by eapply lookup_lt_Some).
    by rewrite E.
  - by rewrite list_lookup_alter_ne, list_lookup_insert_ne by done.
Qed.

Lemma restore_keeps s r :
  acceptable s r -> elements_ok s -> same_shape s (restore s r) /\ elements_ok (restore s r).
Proof.
  destruct r as [[name crc] d]. intros (_ & _ & _ & Hm) Hok. cbn [restore].
  destruct (found s name) as [[i e]|] eqn:Ef; [|by split; [apply same_shape_refl|]].
  destruct d as [h|data]; [|by split; [apply same_shape_refl|]].
  destruct (Z.eqb_spec (schema_crc (serializable e)) crc) as [Ec|];
    [|by split; [apply same_shape_refl|]].
  destruct (Hm Ec) as (h' & [= <-] & Hh & Hk). apply found_some in Ef.
  unfold elements_ok, same_shape. rewrite (nodes_put _ _ _ _ _ Ef). unfold element_at in Ef.
  pose proof (proj1 (list.Forall_lookup _ _) Hok _ _ Ef) as He. cbn in He.
  destruct (overlay_law _ _ He Hh Hk) as [Ho Hk']. split.
  - apply Forall2_same_length_lookup_2; [by rewrite length_insert|].
    intros j x y Hx Hy. destruct (decide (j = i)) as [->|Hj].
    + rewrite Ef in Hx. injection Hx as <-.
      rewrite list_lookup_insert_eq in Hy by (by eapply lookup_lt_Some). injection Hy as <-.
      by split.
    + rewrite list_lookup_insert_ne in Hy by done. pose proof kin_equiv.
      assert (x = y) as -> by congruence. by split.
  - by apply Forall_insert.
Qed.

(** Passing over the data of a record. *)
Lemma ignore_data (str : BufferReadStream.t) d tail :
  BufferReadStream.ok str -> BufferReadStream.rest str = d ++ tail ->
  exists str', BufferReadStream.ignore str (zlen d) = Done str' /\
    BufferReadStream.ok str' /\ BufferReadStream.rest str' = tail.
Proof.
  intros Hv R. destruct (@rs_ignore_law _ _ BufferReadStream.read_laws str (zlen d) Hv (zlen_nonneg d))
    as (str' & E & V & R'). exists str'. split; [exact E|]. split; [exact V|].
  rewrite <- (zdrop_app_len d tail), <- R. exact R'.
Qed.

(** The header of a record: name, checksum and size. *)
Lemma Load_header fuel (s : State (T := T)) name crc data tail str :
  0 < zlen name < kMaxStringSize -> in_u 32 crc -> zlen data < 2 ^ 32 ->
  BufferReadStream.ok str ->
  BufferReadStream.rest str = entry_bytes (name, crc, data) ++ tail ->
  exists str', BufferReadStream.ok str' /\ BufferReadStream.rest str' = data ++ tail /\
    Load_loop (S fuel) s str =
    match PoolMap.find (elements s) name with
    | None => str ← BufferReadStream.ignore str' (zlen data); Load_loop fuel s str
    | Some i =>
        match element_at s i with
        | None => Faulted Undefined
        | Some (_, e) =>
            actual_crc ← CalculateSchemaCrc (serializable e);
            if negb (actual_crc =? crc) then
              str ← BufferReadStream.ignore str' (zlen data); Load_loop fuel s str
            else
              '(_, h, str) ← ReadBinary (serializable e) _ _ str'; Load_loop fuel (put i h s) str
        end
    end.
Proof.
  intros Hn Hc Hd Hv R. unfold entry_bytes, text in R. rewrite <- !app_assoc in R.
  pose proof (zlen_nonneg data). pose proof (zlen_nonneg tail).
  assert (Hu : in_u 64 (zlen name)) 
    by (change kMaxStringSize with 16777216 in Hn; unfold in_u; lia).
  destruct (@reads_ReadVaruint _ _ BufferReadStream.read_laws _ Hu str _ Hv R) as (s1 & E1 & V1 & R1).
  destruct (ignore_data s1 name _ V1 R1) as (s2 & E2 & V2 & R2).
  destruct (@reads_uint _ _ BufferReadStream.read_laws 4 crc Hc s2 _ V2 R2) as (s3 & E3 & V3 & R3).
  destruct (@reads_uint _ _ BufferReadStream.read_laws 4 (zlen data) (conj (zlen_nonneg data) Hd)
    s3 _ V3 R3) as (s4 & E4 & V4 & R4).
  exists s4. split_and!; [exact V4|exact R4|]. cbn [Load_loop]. rewrite E1, bind_done. cbn beta iota.
  rewrite (proj2 (Z.eqb_neq (zlen name) 0)) by lia.
  change (u32 kMaxStringSize) with kMaxStringSize. rewrite (proj2 (Z.leb_gt _ _)) by lia.
  cbn [orb]. change (zdrop (BufferReadStream.offset s1) (BufferReadStream.buffer s1)) with
    (BufferReadStream.rest s1).
  change (BufferReadStream.rest s1) with (rs_rest s1). rewrite R1, ztake_app_len, E2, bind_done.
  rewrite <- (BufferReadStream.brs_zlen_rest s2 V2).
  rewrite R2, !zlen_app, !zlen_le_split.
  rewrite (proj2 (Z.ltb_ge _ 8)) by lia.
  rewrite E3, bind_done. cbn beta iota. rewrite E4, bind_done. done.
Qed.

Lemma Load_record fuel s r tail str :
  acceptable s r -> elements_ok s -> BufferReadStream.ok str ->
  BufferReadStream.rest str = entry_bytes (saved_entry r) ++ tail ->
  exists str', BufferReadStream.ok str' /\ BufferReadStream.rest str' = tail /\
    Load_loop (S fuel) s str = Load_loop fuel (restore s r) str'.
Proof.
  destruct r as [[name crc] d]. intros (Hn & Hc & Hd & Hm) Hok Hv R.
  destruct (Load_header fuel s name crc (saved_bytes d) tail str Hn Hc Hd Hv R)
    as (s1 & V1 & R1 & ->). cbn [restore].
  destruct (ignore_data s1 (saved_bytes d) tail V1 R1) as (s2 & E2 & V2 & R2).
  destruct (PoolMap.find (elements s) name) as [i|] eqn:Ef.
  - destruct (find_found s name i Ef) as (e & Hf). rewrite Hf in Hm |- *.
    pose proof (found_some _ _ _ _ Hf) as He. rewrite He.
    pose proof (proj1 (list.Forall_lookup _ _) Hok _ _ He) as Hh. cbn in Hh.
    rewrite (CalculateSchemaCrc_spec _ Hh), bind_done.
    destruct (Z.eqb_spec (schema_crc (serializable e)) crc) as [Ec|Ec]; cbn [negb].
    + destruct (Hm Ec) as (h & -> & Hok' & Hk).
      destruct (ReadBinary_law _ _ Hh Hok' Hk BufferReadStream.t BufferReadStream.read_laws
        s1 tail V1 R1) as (s3 & E3 & V3 & R3).
      exists s3. split_and!; [exact V3|exact R3|]. by rewrite E3, bind_done.
    + exists s2. split_and!; [done..|]. rewrite E2, bind_done. by destruct d.
  - unfold found. rewrite Ef. exists s2. split_and!; [done..|]. by rewrite E2, bind_done.
Qed.

Lemma Load_all rs : forall fuel s tail str,
  (length rs < fuel)%nat -> Forall (acceptable s) rs -> elements_ok s -> BufferReadStream.ok str ->
  BufferReadStream.rest str = image (map saved_entry rs) ++ tail ->
  Load_loop fuel s str = Done (fold_left restore rs s) /\ same_shape s (fold_left restore rs s).
Proof.
  induction rs as [|r rs IH]; intros fuel s tail str Hf Hrs Hok Hv R;
    (destruct fuel as [|fuel]; [simpl in Hf; lia|]).
  - split; [|apply same_shape_refl]. cbn [fold_left].
    assert (R' : rs_rest str = vbytes 0 ++ (map byte.of_Z [0; 0; 0] ++ tail)) by exact R.
    destruct (@reads_ReadVaruint _ _ BufferReadStream.read_laws 0 ltac:(done) str _ Hv R') as (s1 & E1 & V1 & R1).
    cbn [Load_loop]. by rewrite E1, bind_done.
  - apply Forall_cons_1 in Hrs as [Hr Hrs]. cbn [fold_left].
    unfold image in R. cbn [map concat] in R. rewrite <- !app_assoc in R.
    destruct (restore_keeps s r Hr Hok) as [Hs Hok'].
    destruct (Load_record fuel s r _ str Hr Hok Hv R) as (s1 & V1 & R1 & ->).
    rewrite app_assoc in R1.
    destruct (IH fuel (restore s r) tail s1 ltac:(simpl in Hf; lia)) as [E Hs']; [|done..|].
    + eapply List.Forall_impl, Hrs. intros r'. by apply acceptable_shape.
    + split; [done|]. by eapply same_shape_trans.
Qed.

Lemma entry_nonempty e : (1 <= length (entry_bytes e))%nat.
Proof.
  destruct e as [[name crc] data]. unfold entry_bytes, text. rewrite !length_app.
  pose proof (length_vbytes (zlen name)). lia.
Qed.

Lemma image_length es : (length es < length (image es))%nat.
Proof.
  unfold image. rewrite length_app. change (length end_bytes) with 4%nat.
  induction es as [|e es IH]; [simpl; lia|]. cbn [map concat length]. rewrite length_app.
  pose proof (entry_nonempty e). lia.
Qed.

Lemma DoLoad_spec s rs tail :
  Forall (acceptable s) rs -> elements_ok s ->
  memory (flash s) = image (map saved_entry rs) ++ tail ->
  DoLoad s = Done (fold_left restore rs s, notify s) /\ same_shape s (fold_left restore rs s).
Proof.
  intros Hrs Hok Em. unfold DoLoad.
  destruct (Load_all rs (S (length (memory (flash s)))) s tail
    (BufferReadStream.make (memory (flash s)))) as [E Hs]; [|done|done| | |].
  - rewrite Em, length_app. pose proof (image_length (map saved_entry rs)) as Hl.
    rewrite length_map in Hl. lia.
  - apply BufferReadStream.brs_ok_make.
  - by rewrite BufferReadStream.brs_rest_make.
  - split; [|done]. rewrite E, bind_done. do 2 f_equal. unfold notify.
    clear - Hs. unfold same_shape in Hs. induction Hs as [|a b l l' [Hab _] _ IH]; [done|].
    cbn. by rewrite Hab, IH.
Qed.
End image.
