(* ===== verification/ConfigProperties.v ===== *)
(** * PersistentConfig: the properties of its commands *)
From stdpp Require Import strings pretty.
From S2P Require Import Prelude Varuint Streams TimeConversions TelemetryFormat Archive ArchiveTheory Schema SchemaTheory Register Tokenizer CString PoolMap SerializableHandler PersistentConfig ConfigTheory.
#[local] Open Scope Z_scope.

Section lemmas.
Context `{FlashLaws} `{CrcLaws} {T : Type} `{HandlerLaws T}.
Implicit Types s : State (T := T).

(** ** One element a name *)
Lemma find_from_unique (l : list (list byte * Element (T := T))) key e i j :
  NoDup (map fst l) -> l !! j = Some (key, e) ->
  PoolMap.find_from l key i = Some (i + j)%nat.
Proof.
  revert i j. induction l as [|[k x] l IH]; intros i j Hd E; [done|].
  cbn [map fst] in Hd. apply list.NoDup_cons in Hd as [Hk Hd]. cbn [PoolMap.find_from].
  unfold PoolMap.same_key. destruct j as [|j].
  - injection E as -> ->. rewrite bool_decide_true by done. f_equal. lia.
  - change (l !! j = Some (key, e)) in E. rewrite bool_decide_false.
    + rewrite (IH (S i) j Hd E). f_equal. lia.
    + intros ->. apply Hk. apply list_elem_of_lookup_2 with j. by rewrite list_lookup_fmap, E.
Qed.

Lemma found_unique s i name e :
  NoDup (map fst (nodes s)) -> nodes s !! i = Some (name, e) -> found s name = Some (i, e).
Proof.
  intros Hd E. unfold found, PoolMap.find. fold (nodes s).
  rewrite (find_from_unique (nodes s) name e 0 i Hd E). cbn [Nat.add].
  unfold element_at. by rewrite E.
Qed.

(** ** Loading what was written *)
Definition stored (node : list byte * Element (T := T)) : list byte * Z * saved :=
  (fst node, schema_crc (serializable (snd node)), Stored (serializable (snd node))).

Definition overlaid (a b : list byte * Element (T := T)) : list byte * Element (T := T) :=
  (fst a, with_serializable (snd a) (overlay (serializable (snd a)) (serializable (snd b)))).

Lemma saved_stored l : map saved_entry (map stored l) = map entry_of l.
Proof. by rewrite map_map. Qed.

Lemma stored_acceptable s l :
  NoDup (map fst (nodes s)) -> Forall2 shape (nodes s) l -> Forall node_ok l ->
  Forall (fun node => 0 < zlen (fst node) < kMaxStringSize) l ->
  Forall (acceptable s) (map stored l).
Proof.
  intros Hd Hs Hok Hn. apply Forall_fmap, list.Forall_lookup_2. intros i [name e] E.
  destruct (Forall2_lookup_r _ _ _ _ _ Hs E) as ([name' e'] & E' & En & Hk). cbn in En, Hk. subst.
  pose proof (proj1 (list.Forall_lookup _ _) Hok _ _ E) as (_ & Hh & Hr). cbn in Hh, Hr.
  pose proof (proj1 (list.Forall_lookup _ _) Hn _ _ E) as Hz. cbn in Hz.
  unfold acceptable, stored. cbn [compose fst snd saved_bytes].
  rewrite (found_unique s i name e' Hd E').
  split_and!; [apply Hz|apply Hz|by apply uwrap_range|done|].
  intros _. exists (serializable e). by split_and!.
Qed.

Lemma fst_overlaid l k : map fst (zip_with overlaid l k) = map fst (take (length k) l).
Proof. revert k. induction l as [|x l IH]; intros [|y k]; try done. cbn. by f_equal. Qed.

Lemma restore_stored s i name e h :
  found s name = Some (i, e) -> kin (serializable e) h ->
  restore s (name, schema_crc h, Stored h) = put i (overlay (serializable e) h) s.
Proof.
  intros Hf Hk. cbn [restore]. by rewrite Hf, (schema_crc_kin _ _ Hk), Z.eqb_refl.
Qed.

(** The records are applied from the front. *)
Lemma restore_all l : forall s pre rest,
  nodes s = pre ++ rest -> NoDup (map fst (nodes s)) -> Forall2 shape rest l ->
  nodes (fold_left restore (map stored l) s) = pre ++ zip_with overlaid rest l.
Proof.
  induction l as [|b l IH]; intros s pre rest En Hd Hs.
  { apply Forall2_nil_inv_r in Hs as ->. exact En. }
  apply Forall2_cons_inv_r in Hs as (a & rest' & [Hab Hk] & Hs & ->).
  destruct a as [name e], b as [name' e']. cbn in Hab, Hk. subst name'.
  assert (Ei : nodes s !! length pre = Some (name, e))
    by (rewrite En, lookup_app_r, Nat.sub_diag by lia; done).
  cbn [map fold_left zip_with].
  change (stored (name, e')) with (name, schema_crc (serializable e'), Stored (serializable e')).
  rewrite (restore_stored s _ _ _ _ (found_unique s _ _ _ Hd Ei) Hk).
  set (s' := put _ _ s).
  assert (En' : nodes s' = (pre ++ [overlaid (name, e) (name, e')]) ++ rest').
  { unfold s'. rewrite (nodes_put _ _ s name e Ei), En.
    rewrite insert_app_r_alt, Nat.sub_diag by lia. cbn. by rewrite <- app_assoc. }
  rewrite (IH s' _ rest' En'); [by rewrite <- app_assoc| |done].
  rewrite En', !map_app. rewrite En, map_app in Hd. cbn in Hd |- *. by rewrite <- app_assoc.
Qed.

Lemma Emit_spec s prefix name (work : writer) body response :
  writes work body -> zlen (framed prefix name body) <= zlen (output_buffer s) ->
  zlen body < 2 ^ 32 ->
  exists b, Emit s prefix name work response =
    Done (with_buffer b s, [StartWrite response (framed prefix name body) Respond]) /\
    zlen b = zlen (output_buffer s).
Proof.
  intros Hw Hf Hb. destruct (emit_into_spec _ _ _ _ _ Hw Hf Hb) as (b & E & Hl).
  exists b. unfold Emit. by rewrite E.
Qed.
End lemmas.

(** ** Commands that answer in several writes *)
Section exchange.
Context `{FlashInterface} `{CrcType} {T : Type} `{SerializableHandlerBase T}.
Implicit Types s : State (T := T).

(** What the stream and the enumerated handler do: they complete without an
    error, and the command goes on. *)
Fixpoint finish (fuel : nat) (r : result (T := T)) : outcome (State (T := T) * list output) :=
  match fuel with
  | O => Faulted OutOfFuel
  | S fuel =>
      '(s, out) ← r;
      match out with
      | [StartWrite response _ ListNext] =>
          '(s, more) ← finish fuel (Complete s response ListNext 0); Done (s, out ++ more)
      | [StartEnumerate response _] =>
          '(s, more) ← finish fuel (Complete s response EnumerateNext 0); Done (s, out ++ more)
      | _ => Done (s, out)
      end
  end.

Definition line_fits s (node : list byte * Element (T := T)) : bool :=
  zlen (fst node) + 2 <=? zlen (output_buffer s).
Definition line_of (response : Z) (node : list byte * Element (T := T)) : output :=
  StartWrite response (fst node ++ crlf) ListNext.

Lemma finish_S fuel r :
  finish (S fuel) r =
    ('(s, out) ← r;
     match out with
     | [StartWrite response _ ListNext] =>
         '(s, more) ← finish fuel (Complete s response ListNext 0); Done (s, out ++ more)
     | [StartEnumerate response _] =>
         '(s, more) ← finish fuel (Complete s response EnumerateNext 0); Done (s, out ++ more)
     | _ => Done (s, out)
     end).
Proof. reflexivity. Qed.

Lemma store_front (buf d : list byte) :
  zlen d <= zlen buf ->
  exists b, store buf 0 d = Done b /\ zlen b = zlen buf /\ load b 0 (zlen d) = Done d.
Proof.
  intros Hl. pose proof (zlen_nonneg d). exists (d ++ zdrop (zlen d) buf).
  assert (El : zlen (d ++ zdrop (zlen d) buf) = zlen buf) by (rewrite zlen_app, zlen_drop; lia).
  split_and!; [by rewrite store_done by lia|done|].
  rewrite load_done by lia. f_equal. change (zdrop 0 ?b) with b. apply ztake_app_len.
Qed.

Lemma list_from s response pre rest fuel :
  nodes s = pre ++ rest -> current_list_index s = zlen pre -> current_response s = response ->
  (length rest < fuel)%nat ->
  if forallb (line_fits s) rest
  then exists s', finish fuel (ListCallback s 0) =
                    Done (s', map (line_of response) rest ++ WriteOK response) /\
                  nodes s' = nodes s
  else finish fuel (ListCallback s 0) = Faulted Undefined.
Proof.
  revert s pre fuel. induction rest as [|[name e] rest IH];
    intros s pre [|fuel] En Ei Er Hf; try (exfalso; simpl in Hf; lia).
  - cbn [forallb]. exists s. split; [|done]. rewrite finish_S. unfold ListCallback.
    cbn [Z.eqb negb]. unfold PoolMap.size. fold (nodes s).
    rewrite En, Ei, app_nil_r, Z.leb_refl, bind_done, Er. done.
  - assert (He : element_at s (Z.to_nat (current_list_index s)) = Some (name, e)).
    { unfold element_at. rewrite En, Ei. unfold zlen. rewrite Nat2Z.id.
      by rewrite lookup_app_r, Nat.sub_diag by lia. }
    assert (Hl : (PoolMap.size (elements s) <=? current_list_index s) = false).
    { apply Z.leb_gt. unfold PoolMap.size. fold (nodes s). rewrite En, Ei, zlen_app, zlen_cons.
      pose proof (zlen_nonneg rest). lia. }
    assert (Ez : zlen (name ++ crlf) = zlen name + 2) by (rewrite zlen_app; done).
    rewrite finish_S. unfold ListCallback. cbn [Z.eqb negb forallb]. rewrite Hl, He.
    unfold line_fits at 1. cbn [fst]. set (s1 := with_list _ s).
    change (output_buffer s1) with (output_buffer s).
    change (current_response s1) with (current_response s). rewrite Er.
    destruct (Z.leb_spec (zlen name + 2) (zlen (output_buffer s))) as [Hz|Hz]; cbn [andb];
      [|unfold store; rewrite (proj2 (Z.leb_gt (0 + zlen (name ++ crlf)) _)) by lia; done].
    destruct (store_front (output_buffer s) (name ++ crlf)) as (b & Es & Lb & Ld); [lia|].
    rewrite Es, bind_done, <- Ez, Ld, !bind_done.
    change (Complete (with_buffer b s1) response ListNext 0) with
      (ListCallback (with_buffer b s1) 0).
    specialize (IH (with_buffer b s1) (pre ++ [(name, e)]) fuel).
    assert (Eq : forall l, forallb (line_fits (with_buffer b s1)) l = forallb (line_fits s) l).
    { intros l. induction l as [|x l IHl]; [done|]. cbn [forallb]. rewrite IHl. f_equal.
      unfold line_fits. cbn. by rewrite Lb. }
    assert (En1 : nodes (with_buffer b s1) = (pre ++ [(name, e)]) ++ rest)
      by (rewrite <- app_assoc; exact En).
    assert (Ei1 : current_list_index (with_buffer b s1) = zlen (pre ++ [(name, e)]))
      by (change (current_list_index s + 1 = zlen (pre ++ [(name, e)])); by rewrite Ei, zlen_app).
    rewrite Eq in IH. specialize (IH En1 Ei1 Er ltac:(simpl in Hf; lia)).
    destruct (forallb (line_fits s) rest).
    + destruct IH as (s' & E' & En'). exists s'. split; [|exact En'].
      etransitivity; [|reflexivity]. by rewrite E'.
    + by rewrite IH.
Qed.

(** The names that are enumerated. *)
Definition enumerated (response : Z) (l : list (list byte * Element (T := T))) : list output :=
  map (fun node => StartEnumerate response (fst node)) (filter (fun node => enumerate (snd node) = true) l).

Definition after_next (r : option (list byte) * State (T := T)) : result (T := T) :=
  match r with
  | (None, s) => Done (s, WriteOK (current_response s))
  | (Some name, s) => Done (s, [StartEnumerate (current_response s) name])
  end.

Lemma enumerate_from s response pre rest post f fuel :
  nodes s = pre ++ rest ++ post -> current_enumerate_index s = zlen pre ->
  end_enumerate_index s = zlen pre + zlen rest -> current_response s = response ->
  (length rest < f)%nat -> (length rest < fuel)%nat ->
  exists s', finish fuel (after_next (next_enumerated f s)) =
               Done (s', enumerated response rest ++ WriteOK response) /\ nodes s' = nodes s.
Proof.
  revert s pre f fuel. induction rest as [|[name e] rest IH];
    intros s pre [|f] [|fuel] En Ei Ee Er Hf Hg; try (exfalso; simpl in Hf, Hg; lia).
  - exists s. split; [|done]. rewrite finish_S. cbn [next_enumerated].
    rewrite (proj2 (Z.leb_le _ _)) by (rewrite Ei, Ee; change (zlen (@nil (list byte * Element)))
      with 0; lia). cbn [after_next]. by rewrite bind_done, Er.
  - rewrite zlen_cons in Ee. pose proof (zlen_nonneg rest). pose proof (zlen_nonneg pre).
    assert (He : element_at s (Z.to_nat (current_enumerate_index s)) = Some (name, e)).
    { unfold element_at. rewrite En, Ei. unfold zlen. rewrite Nat2Z.id.
      by rewrite lookup_app_r, Nat.sub_diag by lia. }
    cbn [next_enumerated]. rewrite (proj2 (Z.leb_gt _ _)) by lia. rewrite He. cbv zeta.
    set (s1 := with_enumerate _ _ s).
    assert (En1 : nodes s1 = (pre ++ [(name, e)]) ++ rest ++ post)
      by (rewrite <- app_assoc; exact En).
    assert (Ei1 : current_enumerate_index s1 = zlen (pre ++ [(name, e)]))
      by (change (current_enumerate_index s + 1 = zlen (pre ++ [(name, e)]));
          by rewrite Ei, zlen_app).
    assert (Ee1 : end_enumerate_index s1 = zlen (pre ++ [(name, e)]) + zlen rest)
      by (rewrite zlen_app; change (zlen [(name, e)]) with 1; change (end_enumerate_index s1)
          with (end_enumerate_index s); lia).
    unfold enumerated. rewrite filter_cons. cbn [snd].
    destruct (enumerate e) eqn:Ev; [rewrite decide_True by done|rewrite decide_False by done].
    + cbn [after_next map fst]. rewrite finish_S, bind_done.
      destruct (IH s1 _ (S (length (nodes s1))) fuel En1 Ei1 Ee1 Er) as (s' & E' & En').
      { rewrite En1, !length_app. lia. } { simpl in Hg. lia. }
      exists s'. split; [|exact En']. change (current_response s1) with (current_response s).
      rewrite Er. change (Complete s1 response EnumerateNext 0) with
        (after_next (next_enumerated (S (length (nodes s1))) s1)).
      by rewrite E'.
    + destruct (IH s1 _ f (S fuel) En1 Ei1 Ee1 Er) as (s' & E' & En');
        [simpl in Hf; lia|simpl in Hg; lia|]. by exists s'.
Qed.
End exchange.

(** ** Properties *)
Section properties.
Context `{FlashLaws} `{CrcLaws} {T : Type} `{HandlerLaws T}.
Implicit Types s : State (T := T).

(** A configuration that can be saved. *)
Definition saveable s : Prop :=
  NoDup (map fst (nodes s)) /\ Forall node_ok (nodes s) /\
  Forall (fun node => 0 < zlen (fst node) < kMaxStringSize) (nodes s) /\
  zlen (image_of (nodes s)) <= zlen (memory (flash s)).

(** C31: what [Write] leaves in flash, [Load] restores.  In any program whose
    elements have the names and classes of those written, every element gets
    the record that was written for it, and every element is notified. *)
Theorem write_load_roundtrip s response :
  saveable s ->
  exists f', Write s response = Done (with_flash f' s, WriteOK response) /\
  forall s0, flash s0 = f' -> elements_ok s0 -> Forall2 shape (nodes s0) (nodes s) ->
    exists s1, Load s0 response = Done (s1, notify s0 ++ WriteOK response) /\
      nodes s1 = zip_with overlaid (nodes s0) (nodes s).
Proof.
  intros (Hd & Hok & Hn & Hl). destruct (Write_spec s response Hok Hl) as (f' & E & k & Em).
  exists f'. split; [exact E|]. intros s0 Ef Hok0 Hs.
  assert (Hd0 : NoDup (map fst (nodes s0))).
  { replace (map fst (nodes s0)) with (map fst (nodes s)); [done|].
    clear - Hs. induction Hs as [|a b l l' [Hab _] _ IH]; [done|]. cbn. by rewrite Hab, IH. }
  destruct (DoLoad_spec s0 (map stored (nodes s)) (replicate k erased)) as [El _]; [|done| |].
  - by apply stored_acceptable.
  - by rewrite Ef, Em, saved_stored.
  - eexists. split; [unfold Load; by rewrite El, bind_done|].
    exact (restore_all (nodes s) s0 [] (nodes s0) eq_refl Hd0 Hs).
Qed.

(** [Load] of any records in flash applies, in order, those whose name and
    schema checksum are those of an element, passes over every other record
    whatever it holds, keeps the names and classes of the elements, and
    notifies them all. *)
Theorem load_applies_records s rs tail response :
  Forall (acceptable s) rs -> elements_ok s ->
  memory (flash s) = image (map saved_entry rs) ++ tail ->
  Load s response = Done (fold_left restore rs s, notify s ++ WriteOK response) /\
  same_shape s (fold_left restore rs s).
Proof.
  intros Hrs Hok Em. destruct (DoLoad_spec s rs tail Hrs Hok Em) as [E Hs].
  split; [|exact Hs]. unfold Load. by rewrite E, bind_done.
Qed.

(** [Size] prints the number of bytes that [Write] programs: the flash
    holds that many bytes of image and is erased after them. *)
Theorem size_is_what_write_programs s response :
  saveable s ->
  let n := zlen (image_of (nodes s)) in
  let line := decimal n ++ crlf ++ message "OK" in
  n < 2 ^ 31 -> zlen line < zlen (output_buffer s) ->
  (exists b, Size s response = Done (with_buffer b s, [StartWrite response line Respond])) /\
  exists f' k, Write s response = Done (with_flash f' s, WriteOK response) /\
    zlen (memory f') = n + Z.of_nat k /\ zdrop n (memory f') = replicate k erased.
Proof.
  intros (Hd & Hok & Hn & Hl) n line Hz Hb. split.
  - unfold Size. rewrite (counted_size_image s Hok), bind_done. fold n.
    pose proof (zlen_nonneg (image_of (nodes s))) as Hp. fold n in Hp. pose proof (zlen_nonneg line).
    rewrite swrap_id by (unfold in_s; lia). fold line. unfold snprintf.
    rewrite (proj2 (Z.eqb_neq _ _)) by lia. rewrite (ztake_ge (zlen (output_buffer s) - 1)) by lia.
    assert (E1 : zlen (line ++ [byte.of_Z 0]) = zlen line + 1) by (rewrite zlen_app; done).
    rewrite store_done; [|lia|lia]. rewrite bind_done. eexists. do 2 f_equal.
    unfold WriteMessage. rewrite ztake_ge; [done|].
    rewrite (zlen_app (ztake 0 _)), zlen_app, zlen_drop by lia. change (zlen (ztake 0 _)) with 0. lia.
  - destruct (Write_spec s response Hok Hl) as (f' & E & k & Em). exists f', k.
    split; [exact E|]. rewrite Em. split; [|apply zdrop_app_len].
    rewrite zlen_app. f_equal. unfold zlen. by rewrite length_replicate.
Qed.

(** [schema] and [data] of a registered name answer with one write, a
    prefix, the name, the little-endian size and that many bytes of schema or
    data, assembled in the output buffer; another name is an error. *)
Theorem answers_are_framed s name response :
  (forall i e, found s name = Some (i, e) ->
     handler_ok (serializable e) /\
     zlen (framed (text_of "cschema ") name (schema_of (serializable e))) <= zlen (output_buffer s) /\
     zlen (framed (text_of "cdata ") name (record_of (serializable e))) <= zlen (output_buffer s) /\
     zlen (schema_of (serializable e)) < 2 ^ 32 /\ zlen (record_of (serializable e)) < 2 ^ 32) ->
  match found s name with
  | Some (_, e) =>
      (exists b, Schema s name response = Done (with_buffer b s,
         [StartWrite response (framed (text_of "cschema ") name (schema_of (serializable e))) Respond]) /\
         zlen b = zlen (output_buffer s)) /\
      (exists b, Data s name response = Done (with_buffer b s,
         [StartWrite response (framed (text_of "cdata ") name (record_of (serializable e))) Respond]) /\
         zlen b = zlen (output_buffer s))
  | None =>
      let error := WriteMessage (message "ERR unknown name") response in
      Schema s name response = Done (s, error) /\ Data s name response = Done (s, error)
  end.
Proof.
  intros Hf. unfold Schema, Data. destruct (PoolMap.find (elements s) name) as [i|] eqn:Ef.
  - destruct (find_found s name i Ef) as (e & E). rewrite E. cbn [mbind option_bind].
    rewrite (found_some s name i e E).
    destruct (Hf i e E) as (Hh & Hs1 & Hs2 & Hs3 & Hs4).
    split; apply Emit_spec; try done; [by apply WriteSchema_law|by apply WriteBinary_law].
  - unfold found. by rewrite Ef.
Qed.

(** [list] answers with one line for each element in the order of
    registration, each sent when the one before is done, and then OK; when a
    name and its line end do not fit the output buffer it writes outside it. *)
Theorem list_protocol s response :
  if forallb (line_fits s) (nodes s)
  then exists s', finish (S (length (nodes s))) (List_ s response) =
                    Done (s', map (line_of response) (nodes s) ++ WriteOK response) /\
                  nodes s' = nodes s
  else finish (S (length (nodes s))) (List_ s response) = Faulted Undefined.
Proof.
  exact (list_from (with_list 0 (with_response response s)) response [] (nodes s)
    (S (length (nodes s))) eq_refl eq_refl eq_refl (Nat.lt_succ_diag_r _)).
Qed.

(** [enumerate] hands over each element registered for enumeration, in
    order and each when the one before is done, and then says OK; with a name
    it does so for the element of that name, and says so if there is none. *)
Theorem enumerate_protocol s field response :
  let run := finish (S (length (nodes s))) (Enumerate s field response) in
  let all l := exists s', run = Done (s', enumerated response l ++ WriteOK response) /\
                          nodes s' = nodes s in
  match field with
  | [] => all (nodes s)
  | _ =>
      match found s field with
      | Some (_, e) => all [(field, e)]
      | None => run = Done (with_response response s,
                            WriteMessage (message "ERR unknown group") response)
      end
  end.
Proof.
  cbv zeta. destruct field as [|c field].
  - exact (enumerate_from (with_enumerate 0 (zlen (nodes s)) (with_response response s)) response
      [] (nodes s) [] _ _ (eq_sym (app_nil_r _)) eq_refl eq_refl eq_refl
      (Nat.lt_succ_diag_r _) (Nat.lt_succ_diag_r _)).
  - set (name := c :: field). unfold Enumerate.
    rewrite (proj2 (Z.eqb_neq (zlen name) 0))
      by (unfold name; rewrite zlen_cons; pose proof (zlen_nonneg field); lia). cbn [negb].
    change (elements (with_response response s)) with (elements s).
    destruct (PoolMap.find (elements s) name) as [i|] eqn:Ef; [|unfold found; by rewrite Ef].
    destruct (find_found s name i Ef) as (e & E). rewrite E.
    pose proof (found_some s name i e E) as Hi. unfold element_at in Hi.
    pose proof (lookup_lt_Some _ _ _ Hi) as Hlt.
    set (s1 := with_enumerate _ _ _).
    assert (Et : zlen (take i (nodes s)) = Z.of_nat i) by (unfold zlen; rewrite length_take; lia).
    refine (enumerate_from s1 response (take i (nodes s)) [(name, e)] (drop (S i) (nodes s)) _ _
      _ _ _ eq_refl _ _).
    + change (nodes s1) with (nodes s). symmetry. by apply take_drop_middle.
    + change (current_enumerate_index s1) with (Z.of_nat i). lia.
    + change (end_enumerate_index s1) with (Z.of_nat i + 1). change (zlen [(name, e)]) with 1. lia.
    + change (nodes s1) with (nodes s). simpl. lia.
    + simpl. lia.
Qed.

(** [set group.key value] changes the object of the named element and
    nothing else, as its handler says, and notifies that element alone when the
    handler took the value. *)
Theorem set_changes_one_element s group key v i e res h response :
  Forall (fun c => Tokenizer.is_delimiter (text_of ".") c = false) group ->
  Forall (fun c => Tokenizer.is_delimiter (text_of " ") c = false) key ->
  found s group = Some (i, e) -> Set_ (serializable e) key v = Done (res, h) ->
  exists s', Command s (text_of "set " ++ group ++ text_of "." ++ key ++ text_of " " ++ v) response =
      Done (s', if res =? 0 then Updated group :: WriteOK response
                else WriteMessage (message "ERR error setting") response) /\
    nodes s' = <[i := (group, with_serializable e h)]> (nodes s) /\
    flash s' = flash s /\ output_buffer s' = output_buffer s.
Proof.
  intros Hg Hk Hf Es. pose proof (found_some s group i e Hf) as He.
  assert (Ef : PoolMap.find (elements s) group = Some i).
  { unfold found in Hf. destruct (PoolMap.find (elements s) group) as [j|]; [|done].
    destruct (element_at s j) as [[]|]; [|done]. by injection Hf as ->. }
  unfold Command.
  destruct (Tokenizer.next_token (text_of " ") (text_of "set") (byte.of_Z 0x20)
    (group ++ text_of "." ++ key ++ text_of " " ++ v)) as (t1 & E1 & R1);
    [by repeat constructor|done|].
  change (text_of "set " ++ ?l) with (text_of "set" ++ byte.of_Z 0x20 :: l). rewrite E1, R1.
  cbv zeta. exists (put i h s). split.
  - transitivity (SetCommand s (group ++ text_of "." ++ key ++ text_of " " ++ v) response);
      [reflexivity|]. unfold SetCommand.
    destruct (Tokenizer.next_token (text_of ".") group (byte.of_Z 0x2e)
      (key ++ text_of " " ++ v) Hg) as (t2 & E2 & R2); [done|].
    change (text_of "." ++ ?l) with (byte.of_Z 0x2e :: l). rewrite E2, Ef, He, R2.
    destruct (Tokenizer.next_token (text_of " ") key (byte.of_Z 0x20) v Hk) as (t3 & E3 & R3); [done|].
    change (text_of " " ++ v) with (byte.of_Z 0x20 :: v). rewrite E3, R3. cbv zeta.
    rewrite Es, bind_done. by destruct (res =? 0).
  - rewrite (nodes_put i h s group e He). unfold put. by rewrite He.
Qed.

(** Loading from erased flash, eleven bytes or more of it, executes an
    undefined shift on its first record. *)
Theorem erased_flash_load_undefined s response tail :
  memory (flash s) = replicate 11 erased ++ tail -> Load s response = Faulted Undefined.
Proof.
  intros Em. unfold Load, DoLoad. rewrite Em.
  set (st := BufferReadStream.make _).
  assert (E : TelemetryReader.ReadVaruint st = Faulted Undefined).
  { refine (ReadVaruint_loop_overlong 11 st 0 0 (replicate 10 erased) erased tail _ _ _ _ _).
    - apply BufferReadStream.brs_ok_make.
    - apply BufferReadStream.brs_rest_make.
    - by repeat constructor.
    - simpl. lia.
    - done. }
  generalize (length (replicate 11 erased ++ tail)). intros n. cbn [Load_loop]. by rewrite E.
Qed.

End properties.

(** ** A device

    Its flash is an array of 256 bytes; it has two elements. *)
#[local] Instance array_flash : FlashInterface := {|
  flash_state := list byte; memory f := f; Erase f := replicate (length f) erased;
  Unlock f := f; Lock f := f; ProgramByte f i c := <[Z.to_nat i := c]> f |}.

#[local] Instance array_flash_laws : FlashLaws.
Proof.
  refine {| unlocked _ := True |}; [done|done| |done].
  intros f i c _ _. split; [done|]. cbn. by rewrite Nat2Z.id.
Qed.

(** A text half that knows one member, the first. *)
#[local] Instance first_text : TextArchives := {|
  SetArchive fs vs key v :=
    match fs, vs with
    | FCons name _ _ _, _ :: vs' =>
        if bool_decide (name = key) then Done (true, VBytes v :: vs') else Done (false, vs)
    | _, _ => Done (false, vs)
    end;
  ReadArchive _ _ _ buffer := Done (false, buffer, []) |}.

Definition demo_fields : fields := match demo_class with TObject fs => fs | _ => FNil end.
Definition demo_members : list value := match demo_object with VObject vs => vs | _ => [] end.
Definition name_fields : fields := FCons (text_of "label") TString (VBytes []) FNil.

Definition motor (members : list value) : SerializableHandler :=
  {| item_class := demo_fields; item := members |}.
Definition label (s : list byte) : SerializableHandler :=
  {| item_class := name_fields; item := [VBytes s] |}.

Definition device (f : list byte) (members : list value) (s : list byte) :
    State (T := SerializableHandler) :=
  with_elements {|
    PoolMap.data := [(text_of "motor", {| serializable := motor members; enumerate := true |});
                     (text_of "id", {| serializable := label s; enumerate := false |})];
    PoolMap.max_size := kMaxSize |}
  (make f (replicate 600 (byte.of_Z 0))).

Lemma label_class_ok : class_ok name_fields.
Proof.
  unfold class_ok. cbn. unfold in_u, max_size, kMaxStringSize, zlen. cbn.
  split_and!; try lia; try done; by repeat constructor.
Qed.

Lemma motor_ok members :
  storable_fields demo_fields members -> handler_ok (motor members).
Proof. intros Hm. split; [|exact Hm]. split_and!; [apply demo_wf|apply demo_describable..]. Qed.

Lemma label_ok s : zlen s <= kMaxStringSize -> handler_ok (label s).
Proof. intros Hs. split; [apply label_class_ok|]. cbn. by split. Qed.

Definition blank : list byte := replicate 600 erased.
Definition old_label : list byte := text_of "unit 1".
Definition new_label : list byte := text_of "unit 22".

(** What was configured, and the program that loads it: other values. *)
Definition saved_device : State := device blank demo_members new_label.
Definition fresh_device (f : list byte) : State :=
  device f (default_fields demo_fields) old_label.

Lemma demo_members_storable :
  storable_fields demo_fields demo_members /\
  storable_fields demo_fields (default_fields demo_fields).
Proof. split; apply demo_wf. Qed.

Lemma saved_device_ok : saveable saved_device.
Proof.
  split_and!.
  - apply (bool_decide_eq_true_1 (NoDup _)). vm_compute. reflexivity.
  - constructor; [|constructor; [|constructor]].
    + split; [by vm_compute|]. split; [apply motor_ok, demo_members_storable|by vm_compute].
    + split; [by vm_compute|]. split; [by apply label_ok; vm_compute|by vm_compute].
  - by repeat constructor.
  - by vm_compute.
Qed.

Lemma fresh_device_ok f : elements_ok (fresh_device f).
Proof.
  constructor; [|constructor; [|constructor]].
  - apply motor_ok, demo_members_storable.
  - by apply label_ok; vm_compute.
Qed.

Lemma fresh_shape f members s : Forall2 shape (nodes (fresh_device f)) (nodes (device blank members s)).
Proof. constructor; [by split|]. constructor; [by split|constructor]. Qed.

Lemma write_load_roundtrip_witness :
  exists f', Write saved_device 7 = Done (with_flash f' saved_device, WriteOK 7) /\
    exists s1, Load (fresh_device f') 7 =
      Done (s1, [Updated (text_of "motor"); Updated (text_of "id")] ++ WriteOK 7) /\
    nodes s1 = nodes saved_device.
Proof.
  destruct (write_load_roundtrip saved_device 7 saved_device_ok) as (f' & E & Hl).
  exists f'. split; [exact E|].
  destruct (Hl (fresh_device f') eq_refl (fresh_device_ok f') (fresh_shape f' _ _))
    as (s1 & E1 & En). exists s1. split; [exact E1|]. rewrite En. reflexivity.
Defined.

(** Flash with a record of a program that had another element, a record of an
    older class of [motor], and the label. *)
Definition older_records : list (list byte * Z * saved (T := SerializableHandler)) :=
  [(text_of "gone", 5, Foreign kHeader); (text_of "motor", 6, Foreign kHeader);
   (text_of "id", schema_crc (label new_label), Stored (label new_label))].
Definition older_flash : list byte := image (map saved_entry older_records).

Lemma load_applies_records_witness :
  Load (fresh_device older_flash) 7 =
    Done (put 1 (label new_label) (fresh_device older_flash),
          [Updated (text_of "motor"); Updated (text_of "id")] ++ WriteOK 7) /\
  same_shape (fresh_device older_flash) (put 1 (label new_label) (fresh_device older_flash)).
Proof.
  refine (load_applies_records (fresh_device older_flash) older_records [] 7 _
    (fresh_device_ok _) _).
  - constructor; [|constructor; [|constructor; [|constructor]]];
      (split; [split; vm_compute; reflexivity|]); (split; [split; vm_compute; [discriminate|reflexivity]|]);
      (split; [vm_compute; reflexivity|]).
    + exact I.
    + intros Ec. vm_compute in Ec. discriminate.
    + intros _. exists (label new_label). split; [done|]. by split; [apply label_ok; vm_compute|].
  - by rewrite app_nil_r.
Defined.

Lemma size_is_what_write_programs_witness :
  (exists b, Size saved_device 7 =
     Done (with_buffer b saved_device, [StartWrite 7 (decimal 79 ++ crlf ++ message "OK") Respond])) /\
  exists f' k, Write saved_device 7 = Done (with_flash f' saved_device, WriteOK 7) /\
    zlen (memory f') = 79 + Z.of_nat k /\ zdrop 79 (memory f') = replicate k erased.
Proof.
  refine (size_is_what_write_programs saved_device 7 saved_device_ok _ _); vm_compute; reflexivity.
Defined.

Lemma answers_are_framed_witness :
  (exists b, Schema saved_device (text_of "id") 7 = Done (with_buffer b saved_device,
     [StartWrite 7 (framed (text_of "cschema ") (text_of "id") (schema_of (label new_label))) Respond]) /\
     zlen b = 600) /\
  (exists b, Data saved_device (text_of "id") 7 = Done (with_buffer b saved_device,
     [StartWrite 7 (framed (text_of "cdata ") (text_of "id") (vbytes 7 ++ new_label)) Respond]) /\
     zlen b = 600).
Proof.
  refine (answers_are_framed saved_device (text_of "id") 7 _).
  intros i e E. vm_compute in E. injection E as <- <-.
  split; [by apply (label_ok new_label); vm_compute|].
  split_and!; vm_compute; done.
Defined.

Lemma set_changes_one_element_witness :
  exists s', Command saved_device (text_of "set " ++ text_of "id" ++ text_of "." ++
      text_of "label" ++ text_of " " ++ text_of "unit 3") 7 =
      Done (s', Updated (text_of "id") :: WriteOK 7) /\
    nodes s' = <[1%nat := (text_of "id", with_serializable
      {| serializable := label new_label; enumerate := false |} (label (text_of "unit 3")))]>
      (nodes saved_device) /\
    flash s' = blank /\ output_buffer s' = replicate 600 (byte.of_Z 0).
Proof.
  refine (set_changes_one_element saved_device (text_of "id") (text_of "label") (text_of "unit 3")
    1 {| serializable := label new_label; enumerate := false |} 0 (label (text_of "unit 3")) 7
    _ _ _ _).
  - by repeat constructor.
  - by repeat constructor.
  - vm_compute. reflexivity.
  - vm_compute. reflexivity.
Defined.

Lemma erased_flash_load_undefined_witness :
  Load (fresh_device blank) 7 = Faulted Undefined.
Proof.
  refine (erased_flash_load_undefined (fresh_device blank) 7 (replicate 589 erased) _).
  reflexivity.
Defined.
