(* ===== verification/AsyncStreams.v ===== *)
(** * micro/async_stream.h, async_read.h and async_exclusive.h

    Operations on streams of other objects.  A call to the stream is an output
    of the step that makes it, and its completion a later call of the
    continuation, with the arguments the stream gives it. *)
From stdpp Require Import gmultiset.
From S2P Require Import Prelude Tokenizer.
#[local] Open Scope Z_scope.

(** ** [AsyncWrite]: all of the data, however the stream takes it *)
Module AsyncWrite.

(** What a step leads to: the callback, or another [AsyncWriteSome]. *)
Inductive action := Callback (error : Z) | WriteSome (data : list byte).

Definition start (data : list byte) : action :=
  match data with [] => Callback 0 | _ => WriteSome data end.

(** The continuation of [WriteSome data].  The rest is at [data.begin() + size],
    which has to be within the data. *)
Definition continuation (data : list byte) (error size : Z) : outcome action :=
  if negb (error =? 0) then Done (Callback error)
  else if zlen data =? size then Done (Callback 0)
  else if (0 <=? size) && (size <? zlen data) then Done (start (zdrop size data))
  else Faulted Undefined.
End AsyncWrite.

(** ** [AsyncRead]: the whole of a buffer *)
Module AsyncRead.

(** [ReadSome i n]: [AsyncReadSome] into the [n] bytes of the buffer at [i]. *)
Inductive action := Callback (error : Z) | ReadSome (i n : Z).

Definition start (i n : Z) : action := if n =? 0 then Callback 0 else ReadSome i n.

Definition continuation (i n error size : Z) : outcome action :=
  if negb (error =? 0) then Done (Callback error)
  else if n =? size then Done (Callback 0)
  else if (0 <=? size) && (size <? n) then Done (start (i + size) (n - size))
  else Faulted Undefined.
End AsyncRead.

(** ** [AsyncWriter], which keeps its place in an object *)
Module AsyncWriter.

Record State := { data : list byte; written : Z }.

Inductive action := Callback (error written : Z) | WriteSome (data : list byte).

Definition StartWrite (s : State) : outcome (State * action) :=
  rest ← load (data s) (written s) (zlen (data s) - written s);
  Done (s, WriteSome rest).

Definition Write (data : list byte) : outcome (State * action) :=
  StartWrite {| data := data; written := 0 |}.

Definition handle (s : State) (error size : Z) : outcome (State * action) :=
  if negb (error =? 0) then Done (s, Callback error 0)
  else
    let s := {| data := data s; written := written s + size |} in
    if written s =? zlen (data s) then Done (s, Callback 0 (written s))
    else StartWrite s.
End AsyncWriter.

(** ** async_read.h: a line, a byte at a time *)
Module AsyncReadUntil.

(** [errc::kDelimiterNotFound] of micro/error.h *)
Definition kDelimiterNotFound : Z := 1.

(** The continuation a read was started with: the one of
    [AsyncReadUntilHelper], which has its position, or of [AsyncIgnoreUntil]. *)
Inductive handler := Until (position : Z) | Ignore.

#[global] Instance handler_eq_dec : EqDecision handler.
Proof. solve_decision. Defined.

(** The place in the buffer of the byte it reads. *)
Definition place (h : handler) : Z := match h with Until position => position | Ignore => 0 end.

(** What a continuation does: the callback of the context with an error and a
    size, or one more read. *)
Inductive action := Callback (error size : Z) | ReadSome (h : handler).

Definition start (buffer : list byte) : outcome action :=
  _ ← mj_assert (zlen buffer <? 65535);
  Done (ReadSome (Until 0)).

Definition ignore : action := ReadSome Ignore.

(** The stream has put [data] into the buffer at the place of the read. *)
Definition handle (delimiters buffer : list byte) (h : handler) (error size : Z) : outcome action :=
  match h with
  | Until position =>
      if negb (error =? 0) then Done (Callback error (position + size))
      else
        _ ← mj_assert ((size =? 0) || (size =? 1));
        c ← load buffer position 1;
        if existsb (Tokenizer.is_delimiter delimiters) c then Done (Callback 0 (position + size))
        else if position + 1 =? zlen buffer then Done (Callback kDelimiterNotFound position)
        else Done (ReadSome (Until (uwrap 16 (position + 1))))
  | Ignore =>
      if negb (error =? 0) then Done (Callback error 0)
      else
        c ← load buffer 0 1;
        if existsb (Tokenizer.is_delimiter delimiters) c then Done (Callback 0 0)
        else Done ignore
  end.
End AsyncReadUntil.

(** ** [AsyncExclusive]: one operation at a time on a resource

    Calling an operation is the last thing each of these functions does: they
    return the operation to be called, and what it does, also when it
    relinquishes the resource before it returns, comes after. *)
Module AsyncExclusive.
Section AsyncExclusive.
Context {Op : Type}.

Record State := { outstanding : bool; callbacks : list (option Op) }.

Definition make (MaxLockers : nat) : State :=
  {| outstanding := false; callbacks := replicate MaxLockers None |}.

(** The first free place takes the operation. *)
Fixpoint queue (op : Op) (l : list (option Op)) : option (list (option Op)) :=
  match l with
  | [] => None
  | None :: l => Some (Some op :: l)
  | Some o :: l => cons (Some o) <$> queue op l
  end.

Definition AsyncStart (op : Op) (s : State) : outcome (State * option Op) :=
  if outstanding s then
    match queue op (callbacks s) with
    | Some l => Done ({| outstanding := true; callbacks := l |}, None)
    | None => Faulted Assertion
    end
  else Done ({| outstanding := true; callbacks := callbacks s |}, Some op).

(** The first occupied place is the next, and is emptied. *)
Fixpoint unqueue (l : list (option Op)) : option (Op * list (option Op)) :=
  match l with
  | [] => None
  | Some op :: l => Some (op, None :: l)
  | None :: l => '(op, l) ← unqueue l; Some (op, None :: l)
  end.

Definition MaybeStartQueued (s : State) : outcome (State * option Op) :=
  _ ← mj_assert (negb (outstanding s));
  match unqueue (callbacks s) with
  | Some (op, l) => AsyncStart op {| outstanding := outstanding s; callbacks := l |}
  | None => Done (s, None)
  end.

(** The callback an operation is given to relinquish the resource. *)
Definition Release (s : State) : outcome (State * option Op) :=
  MaybeStartQueued {| outstanding := false; callbacks := callbacks s |}.
End AsyncExclusive.
Arguments State Op : clear implicits.
End AsyncExclusive.
