(* ===== verification/AsyncExclusiveTheory.v ===== *)
(** * AsyncExclusive: one operation at a time, none lost

    The operations that are started and the relinquishing of the resource, in
    any order. *)
From stdpp Require Import strings.
From S2P Require Import Prelude Tokenizer AsyncStreams.
#[local] Open Scope Z_scope.
Import AsyncExclusive.

Section exclusive.
Context {Op : Type}.
Implicit Types (s : State Op) (l : list (option Op)).

(** What the users of the resource do, and the operations that are called. *)
Inductive event := EStart (op : Op) | ERelease.

Definition step s (e : event) : outcome (State Op * option Op) :=
  match e with EStart op => AsyncStart op s | ERelease => Release s end.

Fixpoint run s (es : list event) : outcome (State Op * list Op) :=
  match es with
  | [] => Done (s, [])
  | e :: es =>
      '(s, called) ← step s e;
      '(s, more) ← run s es;
      Done (s, option_list called ++ more)
  end.

(** The operations that wait. *)
Fixpoint occupied l : list Op :=
  match l with [] => [] | Some op :: l => op :: occupied l | None :: l => occupied l end.
Definition waiting s : list Op := occupied (callbacks s).

(** Only the operation that has the resource relinquishes it, and an operation
    that has to wait finds a place. *)
Definition allowed s (e : event) : Prop :=
  match e with
  | EStart _ => outstanding s = true -> (length (waiting s) < length (callbacks s))%nat
  | ERelease => outstanding s = true
  end.

Fixpoint obeys s (es : list event) : Prop :=
  match es with
  | [] => True
  | e :: es => allowed s e /\ forall s' called, step s e = Done (s', called) -> obeys s' es
  end.

Definition submitted (es : list event) : list Op :=
  omap (fun e => match e with EStart op => Some op | ERelease => None end) es.
Definition releases (es : list event) : nat :=
  length (List.filter (fun e => match e with EStart _ => false | ERelease => true end) es).

(** ** The places *)
Lemma queue_some op l : (length (occupied l) < length l)%nat ->
  exists l', queue op l = Some l' /\ occupied l' ≡ₚ op :: occupied l /\ length l' = length l.
Proof.
  induction l as [|[o|] l IH]; cbn; [lia| |].
  - intros Hl. destruct IH as (l' & E & Hp & Hl'); [lia|]. exists (Some o :: l'). rewrite E.
    cbn. split_and!; [done| |lia]. rewrite Hp. apply Permutation_swap.
  - intros _. by eexists.
Qed.

Lemma waiting_length l : (length (occupied l) <= length l)%nat.
Proof. induction l as [|[|] l IH]; cbn; lia. Qed.

Lemma queue_none op l : queue op l = None <-> length (occupied l) = length l.
Proof.
  induction l as [|[o|] l IH]; cbn; [done| |].
  - rewrite fmap_None, IH. cbn in *. lia.
  - pose proof (waiting_length l). split; [done|]. cbn in *. lia.
Qed.

Lemma unqueue_some l op l' :
  unqueue l = Some (op, l') -> occupied l = op :: occupied l' /\ length l' = length l.
Proof.
  revert l'. induction l as [|[o|] l IH]; intros l' E; cbn in E; [done| |].
  - injection E as <- <-. done.
  - destruct (unqueue l) as [[o k]|] eqn:Eu; [|done]. injection E as <- <-. cbn.
    destruct (IH k eq_refl) as [-> ->]. done.
Qed.

Lemma unqueue_none l : unqueue l = None -> occupied l = [].
Proof.
  induction l as [|[o|] l IH]; cbn; [done..|]. destruct (unqueue l) as [[]|]; [done|]. intros _. by apply IH.
Qed.

Lemma unqueue_waiting l op k :
  occupied l = op :: k -> exists l', unqueue l = Some (op, l') /\ occupied l' = k /\ length l' = length l.
Proof.
  intros E. destruct (unqueue l) as [[o l']|] eqn:Eu.
  - destruct (unqueue_some _ _ _ Eu) as [E' Hl]. rewrite E in E'. injection E' as <- ->. by exists l'.
  - apply unqueue_none in Eu. by rewrite Eu in E.
Qed.

(** ** One step *)

(** What holds between steps: nobody waits for a resource that is free. *)
Definition ok s : Prop := outstanding s = false -> waiting s = [].

Definition busy s : nat := if outstanding s then 1 else 0.

(** What a start and a relinquishing do to those that wait. *)
Lemma start_spec s op :
  ok s -> (outstanding s = true -> (length (waiting s) < length (callbacks s))%nat) ->
  exists s', AsyncStart op s = Done (s', if outstanding s then None else Some op) /\
    outstanding s' = true /\ length (callbacks s') = length (callbacks s) /\
    waiting s' ≡ₚ (if outstanding s then [op] else []) ++ waiting s.
Proof.
  intros Hs Hl. unfold AsyncStart. destruct (outstanding s).
  - destruct (queue_some op (callbacks s) (Hl eq_refl)) as (l & -> & Hp & E). by eexists.
  - by eexists.
Qed.

Lemma release_spec s :
  exists s', Release s = Done (s', head (waiting s)) /\
    outstanding s' = (if waiting s is [] then false else true) /\
    length (callbacks s') = length (callbacks s) /\ waiting s' = tail (waiting s).
Proof.
  unfold Release, MaybeStartQueued, waiting. cbn.
  destruct (unqueue (callbacks s)) as [[op l]|] eqn:E.
  - destruct (unqueue_some _ _ _ E) as [Ew Hl]. rewrite Ew. by eexists.
  - apply unqueue_none in E. rewrite E. by eexists.
Qed.

Lemma step_spec s e : ok s -> allowed s e ->
  exists s' called, step s e = Done (s', called) /\ ok s' /\
    length (callbacks s') = length (callbacks s) /\
    (length (option_list called) + busy s = busy s' + releases [e])%nat /\
    submitted [e] ++ waiting s ≡ₚ option_list called ++ waiting s'.
Proof.
  unfold ok, busy. intros Hs Ha. destruct e as [op|]; cbn [step]; cbn.
  - unfold AsyncStart. destruct (outstanding s) eqn:Eo.
    + destruct (queue_some op (callbacks s) (Ha Eo)) as (l & -> & Hp & Hl).
      eexists _, None. split_and!; [done|done|exact Hl|done|]. unfold waiting. cbn. by symmetry.
    + eexists _, (Some op). by split_and!.
  - cbn in Ha. unfold Release, MaybeStartQueued. cbn. rewrite Ha.
    destruct (unqueue (callbacks s)) as [[op l]|] eqn:E; cbn.
    + destruct (unqueue_some _ _ _ E) as [Ew Hl]. exists {| outstanding := true; callbacks := l |}, (Some op). unfold waiting. cbn. rewrite Ew.
      by split_and!.
    + apply unqueue_none in E. exists {| outstanding := false; callbacks := callbacks s |}, None. unfold waiting. cbn. rewrite E. by split_and!.
Qed.

Lemma releases_cons e es : releases (e :: es) = (releases [e] + releases es)%nat.
Proof. by destruct e. Qed.

Lemma run_spec es : forall s, ok s -> obeys s es ->
  exists s' called, run s es = Done (s', called) /\ ok s' /\
    (length called + busy s = busy s' + releases es)%nat /\
    submitted es ++ waiting s ≡ₚ called ++ waiting s'.
Proof.
  induction es as [|e es IH]; cbn [run obeys]; intros s Hs Ho.
  - exists s, []. by split_and!.
  - destruct Ho as [Ha Ho]. destruct (step_spec s e Hs Ha) as (s1 & c1 & E1 & Hs1 & _ & Hn1 & Hp1).
    destruct (IH s1 Hs1 (Ho _ _ E1)) as (s2 & c2 & E2 & Hs2 & Hn2 & Hp2).
    exists s2, (option_list c1 ++ c2). rewrite E1, bind_done, E2. split; [done|]. split; [exact Hs2|].
    rewrite releases_cons, length_app. split; [lia|].
    change (submitted (e :: es)) with (submitted ([e] ++ es)). unfold submitted. rewrite omap_app.
    fold (submitted [e]) (submitted es).
    rewrite <- app_assoc, (app_assoc _ (submitted es)), (Permutation_app_comm (submitted [e])), <- !app_assoc.
    rewrite Hp1, <- Hp2, !app_assoc. f_equiv. apply Permutation_app_comm.
Qed.

(** Relinquishing goes through all that wait. *)
Lemma drain k : forall s, outstanding s = true -> waiting s = k ->
  exists s', run s (replicate (length k) ERelease) = Done (s', k) /\ outstanding s' = true /\ waiting s' = [].
Proof.
  unfold waiting. induction k as [|op k IH]; cbn [length replicate run]; intros s Ho Ew.
  - by exists s.
  - destruct (unqueue_waiting _ _ _ Ew) as (l & E & El & _). cbn [step].
    unfold Release, MaybeStartQueued. cbn. rewrite E. cbn.
    destruct (IH {| outstanding := true; callbacks := l |} eq_refl El) as (s' & -> & ? & ?).
    exists s'. by rewrite bind_done.
Qed.
End exclusive.
Arguments event Op : clear implicits.

(** C33: an [AsyncExclusive] gives its resource to one operation at a time and
    loses none: however starting and relinquishing interleave, every operation
    that was called but the last has relinquished the resource; the operations
    that were started are those that were called and those that wait, each once;
    nobody waits for a resource that is free; and when those before them
    relinquish it, all that wait are called. *)
Theorem exclusive_one_at_a_time {Op} (MaxLockers : nat) (es : list (event Op)) :
  obeys (make MaxLockers) es ->
  exists s called, run (make MaxLockers) es = Done (s, called) /\
    length called = (releases es + busy s)%nat /\
    submitted es ≡ₚ called ++ waiting s /\
    (outstanding s = false -> waiting s = []) /\
    exists s', run s (replicate (length (waiting s)) ERelease) = Done (s', waiting s) /\ waiting s' = [].
Proof.
  intros Ho.
  assert (Hw : forall n, occupied (replicate n (@None Op)) = []) by (intros n; by induction n).
  destruct (run_spec es (make MaxLockers) (fun _ => Hw MaxLockers) Ho) as (s & called & E & Hs & Hn & Hp).
  exists s, called. split; [exact E|]. unfold busy at 1 in Hn. cbn in Hn. split; [lia|].
  unfold waiting at 1 in Hp. cbn in Hp. rewrite Hw, app_nil_r in Hp. split; [exact Hp|]. split; [exact Hs|].
  destruct (outstanding s) eqn:Eo.
  - destruct (drain (waiting s) s Eo eq_refl) as (s' & E' & _ & Hw'). by exists s'.
  - rewrite (Hs Eo). by exists s; split; [|apply Hs].
Qed.

(** The users of a resource: [B] waits while [X] comes again and again. *)
Fixpoint rounds {Op} (X : Op) (n : nat) : list (event Op) :=
  match n with O => [] | S n => ERelease :: EStart X :: rounds X n end.

Definition overtaking {Op} (A X B : Op) (n : nat) : list (event Op) :=
  EStart A :: EStart X :: EStart B :: rounds X n.

(** The resource is not given in the order of asking, and an operation can
    wait for ever: with two places or more, one that waits in the second place
    is overtaken by every later one that finds the first place free, as many as
    there are. *)
Theorem exclusive_overtakes {Op} (A X B : Op) (places n : nat) :
  obeys (make (2 + places)) (overtaking A X B n) /\
  exists s, run (make (2 + places)) (overtaking A X B n) = Done (s, A :: replicate n X) /\
    waiting s = [X; B].
Proof.
  set (s0 := {| outstanding := true; callbacks := Some X :: Some B :: replicate places None |}).
  assert (Hw : forall k, occupied (replicate k (@None Op)) = []) by (intros k; by induction k).
  assert (Hr : forall m, obeys s0 (rounds X m) /\ run s0 (rounds X m) = Done (s0, replicate m X)).
  { induction m as [|m [IH1 IH2]]; [done|]. cbn [rounds obeys run replicate]. split.
    - split; [done|]. intros s1 c1 [= <- <-]. split; [cbn; intros _; rewrite Hw; cbn; lia|].
      by intros s2 c2 [= <- <-].
    - cbn. fold s0. by rewrite IH2. }
  destruct (Hr n) as [Ho E]. split.
  - cbn [overtaking obeys]. split; [done|]. intros s1 c1 [= <- <-].
    split; [cbn; rewrite Hw; cbn; lia|]. intros s2 c2 [= <- <-].
    split; [cbn; rewrite Hw; cbn; lia|]. by intros s3 c3 [= <- <-].
  - exists s0. cbn. fold s0. rewrite E. split; [done|]. unfold waiting. cbn. by rewrite Hw.
Qed.

Lemma exclusive_one_at_a_time_witness :
  exists s called, run (make 3) [EStart 1; EStart 2; EStart 3; ERelease; EStart 4] = Done (s, called) /\
    length called = (releases [EStart 1; EStart 2; EStart 3; ERelease; EStart 4] + busy s)%nat /\
    submitted [EStart 1; EStart 2; EStart 3; ERelease; EStart 4] ≡ₚ called ++ waiting s /\
    (outstanding s = false -> waiting s = []) /\
    exists s', run s (replicate (length (waiting s)) ERelease) = Done (s', waiting s) /\ waiting s' = [].
Proof.
  refine (exclusive_one_at_a_time 3 [EStart 1; EStart 2; EStart 3; ERelease; EStart 4] _).
  repeat (split; [vm_compute; try lia; done|intros ? ? [= <- <-]]). exact I.
Defined.

(** ** [AsyncWrite] *)
Section write.
Import AsyncWrite.

(** A stream that takes [sizes] of the data it is offered, one after another:
    the pieces, and what the writer is at. *)
Fixpoint feed (a : action) (sizes : list Z) : outcome (list (list byte) * action) :=
  match a, sizes with
  | WriteSome data, n :: sizes =>
      a ← continuation data 0 n;
      '(pieces, a) ← feed a sizes;
      Done (ztake n data :: pieces, a)
  | a, _ => Done ([], a)
  end.

(** [AsyncWrite] writes all of its data once, in order, in whatever pieces
    the stream takes it, and calls back exactly when the last of it is taken. *)
Theorem AsyncWrite_in_pieces data sizes :
  Forall (fun n => 0 < n) sizes -> fold_right Z.add 0 sizes <= zlen data ->
  exists pieces, feed (start data) sizes =
      Done (pieces, start (zdrop (fold_right Z.add 0 sizes) data)) /\
    concat pieces = ztake (fold_right Z.add 0 sizes) data.
Proof.
  revert data. induction sizes as [|n sizes IH]; cbn [fold_right]; intros data Hp Hs.
  - exists []. destruct data; by split.
  - apply Forall_cons_1 in Hp as [Hn Hp].
    assert (Hz : 0 <= fold_right Z.add 0 sizes).
    { clear -Hp. induction Hp; cbn; lia. }
    destruct data as [|b data]; [change (zlen []) with 0 in Hs; lia|]. set (d := b :: data) in *.
    change (start d) with (WriteSome d). cbn [feed].
    assert (Ec : continuation d 0 n = Done (start (zdrop n d))).
    { unfold continuation. cbn [negb Z.eqb]. destruct (Z.eqb_spec (zlen d) n) as [<-|Hne].
      - by rewrite zdrop_ge by lia.
      - by rewrite (proj2 (Z.leb_le 0 n)), (proj2 (Z.ltb_lt n (zlen d))) by lia. }
    rewrite Ec, bind_done. destruct (IH (zdrop n d) Hp) as (pieces & E & Ep).
    { rewrite zlen_drop; lia. }
    exists (ztake n d :: pieces). rewrite E, bind_done, zdrop_zdrop by lia. split; [done|].
    cbn [concat]. rewrite Ep, <- (ztake_zdrop n (ztake (n + _) d)), ztake_ztake_min, Z.min_l by lia.
    by rewrite zdrop_ztake, Z.add_simpl_l by lia.
Qed.

Lemma AsyncWrite_in_pieces_witness :
  exists pieces, feed (start (text_of "hello")) [2; 1; 2] =
      Done (pieces, start (zdrop (fold_right Z.add 0 [2; 1; 2]) (text_of "hello"))) /\
    concat pieces = ztake (fold_right Z.add 0 [2; 1; 2]) (text_of "hello").
Proof.
  refine (AsyncWrite_in_pieces (text_of "hello") [2; 1; 2] _ _).
  - by repeat constructor.
  - vm_compute. discriminate.
Defined.
End write.
