(* ===== verification/StreamPipe.v ===== *)
(** * micro/stream_pipe.cc and event_queue.h: a pipe between two streams

    [EventQueue] runs the events that were posted, one after the other;
    [StreamPipe] has two sides, and what one writes the other reads.  A buffer
    belongs to the caller: of a read the pipe keeps the size, of a write the
    data.  What an operation puts into the buffer of a read is an output of its
    step; the two callbacks of an event are called one after the other, and
    whatever they do to the pipe are steps in between. *)
From S2P Require Import Prelude.
#[local] Open Scope Z_scope.

(** ** class EventQueue *)
Module EventQueue.
Section EventQueue.
Context {Event World : Type}.

(** [run e w]: what the event does to the program, and what it posts. *)
Context (run : Event -> World -> World * list Event).

Definition Post (events : list Event) (e : Event) : list Event := events ++ [e].

(** The loop over the copy. *)
Fixpoint run_copy (copy : list Event) (w : World) (events : list Event) : World * list Event :=
  match copy with
  | [] => (w, events)
  | e :: copy => let '(w, posted) := run e w in run_copy copy w (foldl Post events posted)
  end.

Fixpoint Poll (fuel : nat) (w : World) (events : list Event) : outcome World :=
  match events with
  | [] => Done w
  | _ =>
      match fuel with
      | O => Faulted OutOfFuel
      | S fuel => let '(w, events) := run_copy events w [] in Poll fuel w events
      end
  end.
End EventQueue.
End EventQueue.

(** ** class StreamPipe *)
Module StreamPipe.

Inductive side := A | B.

(** One of each side. *)
Definition set_at {T} (s : side) (x : T) (f : side -> T) : side -> T := fun s' =>
  match s, s' with A, A | B, B => x | _, _ => f s' end.

Definition other (s : side) : side := match s with A => B | B => A end.

Section StreamPipe.
Context {Callback : Type}.

(** class Side; a buffer of size 0 and an empty callback are those of no
    operation. *)
Record Side := {
  outstanding_read_buffer : Z;
  outstanding_read_callback : option Callback;
  pending_read_callback : option Callback;
  outstanding_write_buffer : list byte;
  outstanding_write_callback : option Callback;
  pending_write_callback : option Callback;
}.

Definition new_side : Side :=
  {| outstanding_read_buffer := 0; outstanding_read_callback := None; pending_read_callback := None;
     outstanding_write_buffer := []; outstanding_write_callback := None; pending_write_callback := None |}.

Definition with_outstanding_read (n : Z) (c : option Callback) (s : Side) : Side :=
  {| outstanding_read_buffer := n; outstanding_read_callback := c; pending_read_callback := pending_read_callback s;
     outstanding_write_buffer := outstanding_write_buffer s; outstanding_write_callback := outstanding_write_callback s;
     pending_write_callback := pending_write_callback s |}.
Definition with_pending_read (c : option Callback) (s : Side) : Side :=
  {| outstanding_read_buffer := outstanding_read_buffer s; outstanding_read_callback := outstanding_read_callback s;
     pending_read_callback := c; outstanding_write_buffer := outstanding_write_buffer s;
     outstanding_write_callback := outstanding_write_callback s; pending_write_callback := pending_write_callback s |}.
Definition with_outstanding_write (d : list byte) (c : option Callback) (s : Side) : Side :=
  {| outstanding_read_buffer := outstanding_read_buffer s; outstanding_read_callback := outstanding_read_callback s;
     pending_read_callback := pending_read_callback s; outstanding_write_buffer := d; outstanding_write_callback := c;
     pending_write_callback := pending_write_callback s |}.
Definition with_pending_write (c : option Callback) (s : Side) : Side :=
  {| outstanding_read_buffer := outstanding_read_buffer s; outstanding_read_callback := outstanding_read_callback s;
     pending_read_callback := pending_read_callback s; outstanding_write_buffer := outstanding_write_buffer s;
     outstanding_write_callback := outstanding_write_callback s; pending_write_callback := c |}.

(** The functions that are posted, with what they capture. *)
Inductive event :=
  | ReadCopied (s : side) (to_copy : Z)
  | ReadEmpty (s : side)
  | WriteCopied (s : side) (to_copy : Z)
  | WriteEmpty (s : side).

(** A call of a callback. *)
Inductive call := Call (c : Callback) (size : Z).

(** [events] is the queue behind [poster_], [calls] are the callbacks that the
    event that is running has still to call. *)
Record State := { sides : side -> Side; events : list event; calls : list call }.

Definition make : State := {| sides := fun _ => new_side; events := []; calls := [] |}.
Definition update (s : side) (f : Side -> Side) (p : State) : State :=
  {| sides := set_at s (f (sides p s)) (sides p); events := events p; calls := calls p |}.
Definition post (e : event) (p : State) : State :=
  {| sides := sides p; events := EventQueue.Post (events p) e; calls := calls p |}.

(** [AsyncReadSome] into a buffer of [n] bytes, by a side; with what it copies
    into the buffer. *)
Definition AsyncReadSome (s : side) (n : Z) (c : Callback) (p : State) : outcome (State * list byte) :=
  let data := outstanding_write_buffer (sides p (other s)) in
  if negb (zlen data =? 0) then
    let to_copy := Z.min n (zlen data) in
    Done (post (ReadCopied s to_copy) (update s (with_pending_read (Some c)) p), ztake to_copy data)
  else
    _ ← mj_assert (outstanding_read_buffer (sides p s) =? 0);
    if n =? 0 then Done (post (ReadEmpty s) (update s (with_pending_read (Some c)) p), [])
    else Done (update s (with_outstanding_read n (Some c)) p, []).

(** [AsyncWriteSome] of some data; with what it copies into the buffer of the
    read of the other side. *)
Definition AsyncWriteSome (s : side) (data : list byte) (c : Callback) (p : State) : outcome (State * list byte) :=
  let n := outstanding_read_buffer (sides p (other s)) in
  if negb (n =? 0) then
    let to_copy := Z.min (zlen data) n in
    Done (post (WriteCopied s to_copy) (update s (with_pending_write (Some c)) p), ztake to_copy data)
  else
    _ ← mj_assert (zlen (outstanding_write_buffer (sides p s)) =? 0);
    if zlen data =? 0 then Done (post (WriteEmpty s) (update s (with_pending_write (Some c)) p), [])
    else Done (update s (with_outstanding_write data (Some c)) p, []).

(** An empty callback cannot be called. *)
Definition callback (c : option Callback) (size : Z) : outcome call :=
  match c with Some c => Done (Call c size) | None => Faulted Undefined end.

(** The body of an event: the callbacks are taken out before either is called. *)
Definition run (e : event) (p : State) : outcome State :=
  match e with
  | ReadCopied s to_copy =>
      read_cbk ← callback (pending_read_callback (sides p s)) to_copy;
      let p := update s (with_pending_read None) p in
      write_cbk ← callback (outstanding_write_callback (sides p (other s))) to_copy;
      let p := update (other s) (with_outstanding_write [] None) p in
      Done {| sides := sides p; events := events p; calls := [read_cbk; write_cbk] |}
  | ReadEmpty s =>
      cbk ← callback (pending_read_callback (sides p s)) 0;
      let p := update s (with_pending_read None) p in
      Done {| sides := sides p; events := events p; calls := [cbk] |}
  | WriteCopied s to_copy =>
      write_cbk ← callback (pending_write_callback (sides p s)) to_copy;
      let p := update s (with_pending_write None) p in
      read_cbk ← callback (outstanding_read_callback (sides p (other s))) to_copy;
      let p := update (other s) (with_outstanding_read 0 None) p in
      Done {| sides := sides p; events := events p; calls := [write_cbk; read_cbk] |}
  | WriteEmpty s =>
      cbk ← callback (pending_write_callback (sides p s)) 0;
      let p := update s (with_pending_write None) p in
      Done {| sides := sides p; events := events p; calls := [cbk] |}
  end.

(** The queue starts its next event when the one before has returned. *)
Definition next_event (p : State) : outcome (option State) :=
  match calls p, events p with
  | [], e :: rest => Some <$> run e {| sides := sides p; events := rest; calls := [] |}
  | _, _ => Done None
  end.

(** The next callback is called. *)
Definition next_call (p : State) : option (call * State) :=
  match calls p with
  | c :: rest => Some (c, {| sides := sides p; events := events p; calls := rest |})
  | [] => None
  end.
End StreamPipe.
End StreamPipe.
