(* ===== verification/StreamPipeTheory.v ===== *)
(** * The pipe between two streams: nothing is lost or made up

    Clients that have at most one read and one write in progress on each side,
    any order of operations, events and callbacks: what the callbacks of the
    writes of a side say was taken is what the callbacks of the reads of the
    other side say was received. *)
From S2P Require Import Prelude StreamPipe.
#[local] Open Scope Z_scope.
Import StreamPipe.

(** ** The queue *)
Section queue.
Context {Event World : Type} (run : Event -> World -> World * list Event).

(** One event after the other, what an event posts behind all others. *)
Fixpoint first_in_first_out (fuel : nat) (w : World) (events : list Event) : outcome World :=
  match events with
  | [] => Done w
  | e :: events =>
      match fuel with
      | O => Faulted OutOfFuel
      | S fuel => let '(w, posted) := run e w in first_in_first_out fuel w (events ++ posted)
      end
  end.

Lemma Post_all (events posted : list Event) : foldl EventQueue.Post events posted = events ++ posted.
Proof.
  revert events. induction posted as [|e posted IH]; intros events; [by rewrite app_nil_r|].
  cbn [foldl]. unfold EventQueue.Post at 2. by rewrite IH, <- app_assoc.
Qed.

Lemma run_copy_fifo copy : forall fuel w rest,
  let '(w', events) := EventQueue.run_copy run copy w rest in
  first_in_first_out (length copy + fuel) w (copy ++ rest) = first_in_first_out fuel w' events.
Proof.
  induction copy as [|e copy IH]; intros fuel w rest; [done|]. cbn [EventQueue.run_copy length app Nat.add first_in_first_out].
  destruct (run e w) as [w1 posted]. specialize (IH fuel w1 (rest ++ posted)). rewrite Post_all.
  rewrite <- app_assoc. exact IH.
Qed.

Lemma first_in_more fuel : forall fuel' w events w', (fuel <= fuel')%nat ->
  first_in_first_out fuel w events = Done w' -> first_in_first_out fuel' w events = Done w'.
Proof.
  induction fuel as [|fuel IH]; intros [|fuel'] w [|e events] w' Hf; cbn [first_in_first_out]; try done; try lia.
  destruct (run e w) as [w1 posted]. apply IH. lia.
Qed.

(** [Poll] goes through copies of the queue, but runs the events in their order. *)
Lemma poll_in_order fuel : forall w events w',
  EventQueue.Poll run fuel w events = Done w' -> exists n, first_in_first_out n w events = Done w'.
Proof.
  induction fuel as [|fuel IH]; intros w events w'; destruct events as [|e events]; cbn [EventQueue.Poll]; try done.
  - intros [= <-]. by exists O.
  - intros [= <-]. by exists O.
  - pose proof (run_copy_fifo (e :: events)) as Hc.
    assert (forall fuel, let '(w1, events1) := EventQueue.run_copy run (e :: events) w [] in
      first_in_first_out (length (e :: events) + fuel) w (e :: events) = first_in_first_out fuel w1 events1) as Hc'.
    { intros n. specialize (Hc n w []). by rewrite app_nil_r in Hc. }
    destruct (EventQueue.run_copy run (e :: events) w []) as [w1 events1].
    intros E. destruct (IH _ _ _ E) as [n En]. exists (length (e :: events) + n)%nat. by rewrite Hc'.
Qed.

Lemma fifo_length n : forall w events w', first_in_first_out n w events = Done w' -> (length events <= n)%nat.
Proof.
  induction n as [|n IH]; intros w [|e events] w'; cbn [first_in_first_out length]; try done; try lia.
  destruct (run e w) as [w1 posted]. intros E%IH. rewrite length_app in E. lia.
Qed.

Lemma poll_more fuel : forall fuel' w events w', (fuel <= fuel')%nat ->
  EventQueue.Poll run fuel w events = Done w' -> EventQueue.Poll run fuel' w events = Done w'.
Proof.
  induction fuel as [|fuel IH]; intros [|fuel'] w [|e events] w' Hf; cbn [EventQueue.Poll]; try done; try lia.
  destruct (EventQueue.run_copy run (e :: events) w []) as [w1 events1]. apply IH. lia.
Qed.

(** And it ends whenever running them in their order does. *)
Lemma poll_ends n : forall w events w',
  first_in_first_out n w events = Done w' -> EventQueue.Poll run n w events = Done w'.
Proof.
  induction (lt_wf n) as [n _ IH]. intros w [|e events] w'; [by destruct n|].
  intros E. apply fifo_length in E as Hl. destruct n as [|n]; [done|]. cbn [EventQueue.Poll].
  pose proof (run_copy_fifo (e :: events) (S n - length (e :: events)) w []) as Hc. rewrite app_nil_r in Hc.
  destruct (EventQueue.run_copy run (e :: events) w []) as [w1 events1].
  replace (length (e :: events) + (S n - length (e :: events)))%nat with (S n) in Hc by lia.
  rewrite Hc in E. cbn [length] in *.
  apply (poll_more (S n - S (length events))%nat); [lia|]. apply IH; [lia|exact E].
Qed.

(** C36: [Poll] runs the events in the order in which they were posted, those
    that events post while it runs included, and returns when there are no
    more: it goes through copies of the queue, and ends exactly when running one
    event after the other from the front of one queue does. *)
Theorem poll_is_fifo (w w' : World) (events : list Event) :
  (exists fuel, EventQueue.Poll run fuel w events = Done w') <->
  (exists fuel, first_in_first_out fuel w events = Done w').
Proof. split; intros [fuel E]; [by eapply poll_in_order|exists fuel; by apply poll_ends]. Qed.
End queue.

(** ** Clients of the pipe *)

(** The operation that a callback belongs to. *)
Inductive operation := RRead (s : side) | RWrite (s : side).

(** [reading s]: the read that is in progress on a side, with its size and what
    is at the front of its buffer; [writing s]: the data of the write. *)
Record World := {
  pipe : State (Callback := operation);
  reading : side -> option (Z * list byte);
  writing : side -> option (list byte);
  received : side -> list byte;
  sent : side -> list byte;
}.

Definition start : World :=
  {| pipe := make; reading := fun _ => None; writing := fun _ => None; received := fun _ => []; sent := fun _ => [] |}.

Inductive action := Read (s : side) (n : Z) | Write (s : side) (data : list byte) | Event | Callback.

(** What a client may do: one read and one write at a time on each side. *)
Definition allowed (w : World) (a : action) : bool :=
  match a with
  | Read s n => (0 <=? n) && bool_decide (reading w s = None)
  | Write s _ => bool_decide (writing w s = None)
  | _ => true
  end.

Definition place (data : list byte) (r : option (Z * list byte)) : option (Z * list byte) :=
  match data, r with
  | _ :: _, Some (n, _) => Some (n, data)
  | _, _ => r
  end.

(** The client hears of the end of an operation. *)
Definition finish (c : call (Callback := operation)) (p : State) (w : World) : outcome World :=
  match c with
  | Call (RRead s) n =>
      match reading w s with
      | Some (_, buffer) => Done
          {| pipe := p; reading := set_at s (None) (reading w); writing := writing w;
             received := set_at s (received w s ++ ztake n buffer) (received w); sent := sent w |}
      | None => Faulted Undefined
      end
  | Call (RWrite s) n =>
      match writing w s with
      | Some data => Done
          {| pipe := p; reading := reading w; writing := set_at s (None) (writing w);
             received := received w; sent := set_at s (sent w s ++ ztake n data) (sent w) |}
      | None => Faulted Undefined
      end
  end.

Definition with_pipe (p : State) (w : World) : World :=
  {| pipe := p; reading := reading w; writing := writing w; received := received w; sent := sent w |}.

Definition act (a : action) (w : World) : outcome World :=
  match a with
  | Read s n =>
      '(p, data) ← AsyncReadSome s n (RRead s) (pipe w);
      Done {| pipe := p; reading := set_at s (Some (n, data)) (reading w); writing := writing w;
              received := received w; sent := sent w |}
  | Write s d =>
      '(p, data) ← AsyncWriteSome s d (RWrite s) (pipe w);
      Done {| pipe := p; reading := set_at (other s) (place data (reading w (other s))) (reading w);
              writing := set_at s (Some d) (writing w); received := received w; sent := sent w |}
  | Event =>
      p ← next_event (pipe w);
      Done (match p with Some p => with_pipe p w | None => w end)
  | Callback =>
      match next_call (pipe w) with
      | Some (c, p) => finish c p w
      | None => Done w
      end
  end.

Fixpoint acts (l : list action) (w : World) : outcome World :=
  match l with
  | [] => Done w
  | a :: l => w ← act a w; acts l w
  end.

(** Every action is one that a client may do where it does it. *)
Fixpoint legal (l : list action) (w : World) : bool :=
  match l with
  | [] => true
  | a :: l => allowed w a && match act a w with Done w => legal l w | Faulted _ => true end
  end.

(** ** The state of the pipe from a side to the other *)

(** Where a read is, and where a write: not in progress, waiting for the other
    side, empty and behind an event, or with its callback about to be called. *)
Inductive read_status := RIdle | RWaits (n : Z) | REmpty | RCalled (n k : Z) (buffer : list byte).
Inductive write_status := WIdle | WWaits (d : list byte) | WEmpty | WCalled (d : list byte) (k : Z).

(** Or the two have met, and the event of the one that came later is posted. *)
Inductive channel :=
  | Free (r : read_status) (w : write_status)
  | ReadMeets (n : Z) (d : list byte)
  | WriteMeets (n : Z) (d : list byte).

Definition wf (x : channel) : Prop :=
  match x with
  | Free (RWaits _) (WWaits _) => False
  | Free (RWaits n) _ => 0 < n
  | Free _ (WWaits d) => d <> []
  | Free _ _ => True
  | ReadMeets n d => 0 <= n /\ d <> []
  | WriteMeets n _ => 0 < n
  end.

Definition moved (n : Z) (d : list byte) : Z := Z.min n (zlen d).

(** The side that reads, and the side that writes. *)
Definition reader_of (r : side) (x : channel) : Z * option operation * option operation :=
  match x with
  | Free (RWaits n) _ | WriteMeets n _ => (n, Some (RRead r), None)
  | Free REmpty _ | ReadMeets _ _ => (0, None, Some (RRead r))
  | _ => (0, None, None)
  end.
Definition writer_of (s : side) (x : channel) : list byte * option operation * option operation :=
  match x with
  | Free _ (WWaits d) | ReadMeets _ d => (d, Some (RWrite s), None)
  | Free _ WEmpty | WriteMeets _ _ => ([], None, Some (RWrite s))
  | _ => ([], None, None)
  end.

Definition read_side (x : Side (Callback := operation)) : Z * option operation * option operation :=
  (outstanding_read_buffer x, outstanding_read_callback x, pending_read_callback x).
Definition write_side (x : Side (Callback := operation)) : list byte * option operation * option operation :=
  (outstanding_write_buffer x, outstanding_write_callback x, pending_write_callback x).

(** The events and the calls of a read of a side, and of a write. *)
Definition of_read (r : side) (e : event) : bool :=
  match e, r with ReadCopied A _, A | ReadCopied B _, B | ReadEmpty A, A | ReadEmpty B, B => true | _, _ => false end.
Definition of_write (s : side) (e : event) : bool :=
  match e, s with WriteCopied A _, A | WriteCopied B _, B | WriteEmpty A, A | WriteEmpty B, B => true | _, _ => false end.
Definition calls_read (r : side) (c : call (Callback := operation)) : bool :=
  match c, r with Call (RRead A) _, A | Call (RRead B) _, B => true | _, _ => false end.
Definition calls_write (s : side) (c : call (Callback := operation)) : bool :=
  match c, s with Call (RWrite A) _, A | Call (RWrite B) _, B => true | _, _ => false end.

Definition read_events (r : side) (x : channel) : list event :=
  match x with
  | Free REmpty _ => [ReadEmpty r]
  | ReadMeets n d => [ReadCopied r (moved n d)]
  | _ => []
  end.
Definition write_events (s : side) (x : channel) : list event :=
  match x with
  | Free _ WEmpty => [WriteEmpty s]
  | WriteMeets n d => [WriteCopied s (moved n d)]
  | _ => []
  end.
Definition read_calls (r : side) (x : channel) : list (call (Callback := operation)) :=
  match x with Free (RCalled _ k _) _ => [Call (RRead r) k] | _ => [] end.
Definition write_calls (s : side) (x : channel) : list (call (Callback := operation)) :=
  match x with Free _ (WCalled _ k) => [Call (RWrite s) k] | _ => [] end.

Definition read_of (x : channel) : option (Z * list byte) :=
  match x with
  | Free RIdle _ => None
  | Free (RWaits n) _ => Some (n, [])
  | Free REmpty _ => Some (0, [])
  | Free (RCalled n _ buffer) _ => Some (n, buffer)
  | ReadMeets n d | WriteMeets n d => Some (n, ztake (moved n d) d)
  end.
Definition write_of (x : channel) : option (list byte) :=
  match x with
  | Free _ WIdle => None
  | Free _ (WWaits d) | Free _ (WCalled d _) => Some d
  | Free _ WEmpty => Some []
  | ReadMeets _ d | WriteMeets _ d => Some d
  end.

(** What has been moved and the reader, or the writer, has not been told. *)
Definition not_received (x : channel) : list byte :=
  match x with Free (RCalled _ k buffer) _ => ztake k buffer | _ => [] end.
Definition not_sent (x : channel) : list byte :=
  match x with Free _ (WCalled d k) => ztake k d | _ => [] end.

(** The pipe from side [s] to the other is in the state [x]. *)
Record is_in (w : World) (s : side) (x : channel) : Prop := {
  in_wf : wf x;
  in_reader : read_side (sides (pipe w) (other s)) = reader_of (other s) x;
  in_writer : write_side (sides (pipe w) s) = writer_of s x;
  in_read_events : List.filter (of_read (other s)) (events (pipe w)) = read_events (other s) x;
  in_write_events : List.filter (of_write s) (events (pipe w)) = write_events s x;
  in_read_calls : List.filter (calls_read (other s)) (calls (pipe w)) = read_calls (other s) x;
  in_write_calls : List.filter (calls_write s) (calls (pipe w)) = write_calls s x;
  in_reading : reading w (other s) = read_of x;
  in_writing : writing w s = write_of x;
  in_bytes : received w (other s) ++ not_received x = sent w s ++ not_sent x;
}.

Definition inv (w : World) : Prop := forall s, exists x, is_in w s x.

Lemma inv_start : inv start.
Proof. intros s. exists (Free RIdle WIdle). by destruct s; constructor. Qed.

Lemma filter_post (f : event -> bool) l e : List.filter f (l ++ [e]) = List.filter f l ++ (if f e then [e] else []).
Proof. rewrite List.filter_app. cbn. by destruct (f e). Qed.

(** A channel that the step leaves alone. *)
Lemma is_in_other w w' s x :
  is_in w s x ->
  read_side (sides (pipe w') (other s)) = read_side (sides (pipe w) (other s)) ->
  write_side (sides (pipe w') s) = write_side (sides (pipe w) s) ->
  List.filter (of_read (other s)) (events (pipe w')) = List.filter (of_read (other s)) (events (pipe w)) ->
  List.filter (of_write s) (events (pipe w')) = List.filter (of_write s) (events (pipe w)) ->
  List.filter (calls_read (other s)) (calls (pipe w')) = List.filter (calls_read (other s)) (calls (pipe w)) ->
  List.filter (calls_write s) (calls (pipe w')) = List.filter (calls_write s) (calls (pipe w)) ->
  reading w' (other s) = reading w (other s) -> writing w' s = writing w s ->
  received w' (other s) = received w (other s) -> sent w' s = sent w s -> is_in w' s x.
Proof. intros [] E1 E2 E3 E4 E5 E6 E7 E8 E9 E10. constructor; congruence. Qed.

(** The fields of the two sides of a channel. *)
Lemma in_fields w s x : is_in w s x ->
  (outstanding_read_buffer (sides (pipe w) (other s)) = (reader_of (other s) x).1.1 /\
   outstanding_read_callback (sides (pipe w) (other s)) = (reader_of (other s) x).1.2 /\
   pending_read_callback (sides (pipe w) (other s)) = (reader_of (other s) x).2) /\
  (outstanding_write_buffer (sides (pipe w) s) = (writer_of s x).1.1 /\
   outstanding_write_callback (sides (pipe w) s) = (writer_of s x).1.2 /\
   pending_write_callback (sides (pipe w) s) = (writer_of s x).2).
Proof. intros []. rewrite <- in_reader0, <- in_writer0. by split_and!. Qed.

Lemma other_other s : other (other s) = s.
Proof. by destruct s. Qed.

(** What a step does to the two channels: it takes one of them to another state
    and leaves the other one alone. *)
Lemma inv_step w w' s y x : is_in w s y -> (is_in w s y -> is_in w' s y) -> is_in w' (other s) x -> inv w'.
Proof. intros Hy Hs Hx s'. destruct s, s'; cbn [other] in *; eauto. Qed.

(** The fields of a state after a step, for a given side. *)
Ltac compute_step := unfold post, EventQueue.Post; cbn [with_pipe pipe reading writing received sent sides events calls update
  set_at other read_side write_side outstanding_read_buffer outstanding_read_callback pending_read_callback
  outstanding_write_buffer outstanding_write_callback pending_write_callback with_outstanding_read with_pending_read
  with_outstanding_write with_pending_write].

Ltac unaffected := let H := fresh in intros H; eapply is_in_other; [exact H|..]; compute_step; rewrite ?filter_post;
  cbn [of_read of_write]; rewrite ?app_nil_r; reflexivity.

(** The channel that is affected. *)
Ltac affected := cbn [other] in *; constructor; compute_step; rewrite ?filter_post; cbn [of_read of_write];
  rewrite ?app_nil_r;
  try match goal with E : List.filter ?f ?l = _ |- context [List.filter ?f ?l] => rewrite E; reflexivity end;
  cbn in *; unfold read_side, write_side in *; cbn in *; rewrite ?app_nil_r in *; try congruence; auto.

Lemma zlen_zero {A} (l : list A) : (zlen l =? 0) = bool_decide (l = []).
Proof.
  destruct l as [|x l]; [done|]. rewrite zlen_cons, bool_decide_false by done. pose proof (zlen_nonneg l). lia.
Qed.

Lemma write_waits s ω r : (exists d, ω = WWaits d) \/
  (writer_of s (Free r ω)).1.1 = [] /\ (forall r', write_of (Free r' ω) = write_of (Free r ω)) /\
  (forall r', not_sent (Free r' ω) = not_sent (Free r ω)) /\
  (forall n, 0 < n -> wf (Free (RWaits n) ω)) /\ wf (Free REmpty ω).
Proof. destruct ω; [right|left|right|right]; eauto; by split_and!. Qed.

Lemma read_keeps s n w : inv w -> 0 <= n -> reading w s = None -> exists w', act (Read s n) w = Done w' /\ inv w'.
Proof.
  intros Hi Hn Hr. destruct (Hi (other s)) as [x Hx]. destruct (Hi s) as [y Hy].
  pose proof Hx as [Hwf Hre Hwr Hev Hew Hcr Hcw Hrd Hwt Hby]. destruct (in_fields _ _ _ Hx) as [(R1 & R2 & R3) (W1 & W2 & W3)].
  rewrite other_other in *. rewrite Hr in Hrd. unfold act, AsyncReadSome. rewrite zlen_zero, W1.
  destruct x as [[] ω| |]; try discriminate Hrd.
  destruct (write_waits (other s) ω RIdle) as [[d ->]|(Hω & _ & _ & Hw1 & Hw2)].
  - cbn [writer_of fst snd]. rewrite bool_decide_false by done. cbn [negb]. rewrite bind_done. eexists. split; [done|].
    eapply (inv_step w _ s y (ReadMeets n d) Hy); [by destruct s; unaffected|].
    destruct s; affected.
  - rewrite Hω, bool_decide_true by done. cbn [negb]. rewrite R1. change ((reader_of s (Free RIdle ω)).1.1 =? 0) with true.
    cbn [mj_assert]. rewrite bind_done. destruct (Z.eqb_spec n 0) as [->|Hne]; rewrite bind_done; eexists; (split; [done|]).
    + eapply (inv_step w _ s y (Free REmpty ω) Hy); [by destruct s; unaffected|]. destruct s; affected.
    + eapply (inv_step w _ s y (Free (RWaits n) ω) Hy); [by destruct s; unaffected|].
      specialize (Hw1 n ltac:(lia)). destruct s; affected.
Qed.

Lemma read_waits_or r ω : (exists n, r = RWaits n) \/
  (forall s, (reader_of s (Free r ω)).1.1 = 0) /\ (forall d, d <> [] -> wf (Free r (WWaits d))) /\ wf (Free r WEmpty).
Proof. destruct r; [right|left|right|right]; eauto; by split_and!. Qed.

Lemma write_keeps s d w : inv w -> writing w s = None -> exists w', act (Write s d) w = Done w' /\ inv w'.
Proof.
  intros Hi Hn. destruct (Hi s) as [x Hx]. destruct (Hi (other s)) as [y Hy].
  pose proof Hx as [Hwf Hre Hwr Hev Hew Hcr Hcw Hrd Hwt Hby]. destruct (in_fields _ _ _ Hx) as [(R1 & R2 & R3) (W1 & W2 & W3)].
  rewrite Hn in Hwt. unfold act, AsyncWriteSome. rewrite R1.
  destruct x as [r []| |]; try discriminate Hwt.
  destruct (read_waits_or r WIdle) as [[n ->]|(Hr & Hw1 & Hw2)].
  - cbn [reader_of fst snd]. cbn [wf] in Hwf. rewrite (proj2 (Z.eqb_neq _ _)) by lia. cbn [negb]. rewrite bind_done.
    eexists. split; [done|]. rewrite Z.min_comm. fold (moved n d).
    assert (Hp : place (ztake (moved n d) d) (reading w (other s)) = Some (n, ztake (moved n d) d)).
    { rewrite Hrd. by destruct (ztake (moved n d) d). }
    rewrite Hp.
    eapply (inv_step w _ (other s) y (WriteMeets n d) Hy); [by destruct s; unaffected|].
    destruct s; affected.
  - rewrite Hr. cbn [Z.eqb negb]. rewrite W1. cbn [writer_of fst snd]. change (@zlen byte [] =? 0) with true.
    cbn [mj_assert]. rewrite bind_done, zlen_zero. destruct d as [|c d].
    + rewrite bool_decide_true by done. rewrite bind_done. eexists. split; [done|].
      eapply (inv_step w _ (other s) y (Free r WEmpty) Hy); [by destruct s; unaffected|]. destruct s; affected.
    + rewrite bool_decide_false by done. rewrite bind_done. eexists. split; [done|].
      specialize (Hw1 (c :: d) ltac:(done)).
      eapply (inv_step w _ (other s) y (Free r (WWaits (c :: d))) Hy); [by destruct s; unaffected|]. destruct s; affected.
Qed.

(** No callback is about to be called. *)
Lemma no_calls w s x : is_in w s x -> calls (pipe w) = [] ->
  read_calls (other s) x = [] /\ write_calls s x = [].
Proof. intros Hx E. by rewrite <- (in_read_calls _ _ _ Hx), <- (in_write_calls _ _ _ Hx), E. Qed.

(** The channel of an event, from which it is read off. *)
Definition channel_of (e : event) : side :=
  match e with ReadCopied s _ | ReadEmpty s => other s | WriteCopied s _ | WriteEmpty s => s end.

(** What becomes of the channel. *)
Definition after_event (e : event) (x : channel) : channel :=
  match x, e with
  | (ReadMeets n d | WriteMeets n d), _ => Free (RCalled n (moved n d) (ztake (moved n d) d)) (WCalled d (moved n d))
  | Free REmpty ω, ReadEmpty _ => Free (RCalled 0 0 []) ω
  | Free ρ WEmpty, WriteEmpty _ => Free ρ (WCalled [] 0)
  | _, _ => x
  end.

Lemma event_keeps w : inv w -> exists w', act Event w = Done w' /\ inv w'.
Proof.
  intros Hi. destruct (calls (pipe w)) as [|c cs] eqn:Ec; [|by exists w; unfold act, next_event; rewrite Ec].
  destruct (events (pipe w)) as [|e rest] eqn:Ee; [by exists w; unfold act, next_event; rewrite Ec, Ee|].
  destruct (Hi (channel_of e)) as [x Hx]. destruct (Hi (other (channel_of e))) as [y Hy].
  destruct (no_calls _ _ _ Hx Ec) as [C1 C2]. destruct (no_calls _ _ _ Hy Ec) as [D1 D2].
  pose proof Hx as [Hwf Hre Hwr Hev Hew Hcr Hcw Hrd Hwt Hby]. destruct (in_fields _ _ _ Hx) as [(R1 & R2 & R3) (W1 & W2 & W3)].
  rewrite Ee in Hev, Hew.
  set (e0 := e). destruct e as [s k|s|s k|s]; cbn [channel_of] in *; rewrite ?other_other in *;
    destruct x as [[|n| |n k' b] [|d| |d k'']|n d|n d]; try discriminate C1; try discriminate C2;
    destruct s; cbn in Hev, Hew; try discriminate Hev; try discriminate Hew;
    match type of Hx with is_in _ _ ?x => pose (x' := after_event e0 x) end;
    cbn [other] in *; cbn in R2, R3, W2, W3; unfold act, next_event; rewrite Ec, Ee; cbn [run sides];
    repeat ((rewrite R3 || rewrite W2 || rewrite R2 || rewrite W3); cbn [callback]; rewrite bind_done;
      cbn [update sides set_at other]);
    cbn [fmap outcome_map]; rewrite bind_done; eexists; (split; [done|]);
    (eapply (inv_step w _ _ y x' Hy);
     [intros H; eapply is_in_other; [exact H|..]; compute_step; rewrite ?Ee, ?Ec; reflexivity|]);
    subst x' e0; cbn [after_event];
    first [injection Hev; intros; subst | injection Hew; intros; subst].
  all: rewrite Ec in *; affected; by rewrite Hby, ztake_ztake_min, Z.min_id.
Qed.

Lemma calls_head w c rest : inv w -> calls (pipe w) = c :: rest -> exists s, exists x y, is_in w s x /\ is_in w (other s) y /\
  ((exists k n b ω, c = Call (RRead (other s)) k /\ x = Free (RCalled n k b) ω /\
      List.filter (calls_read (other s)) rest = []) \/
   (exists k d ρ, c = Call (RWrite s) k /\ x = Free ρ (WCalled d k) /\ List.filter (calls_write s) rest = [])).
Proof.
  intros Hi E. destruct c as [[s|s] k].
  - destruct (Hi (other s)) as [x Hx], (Hi s) as [y Hy]. exists (other s), x, y. rewrite other_other. split_and!; [done..|].
    left. pose proof (in_read_calls _ _ _ Hx) as Hc. rewrite other_other, E in Hc.
    destruct x as [[|n| |n k' b] ω| |]; destruct s; try discriminate Hc; cbn in Hc; injection Hc as <- Hc;
      by eexists _, _, _, _.
  - destruct (Hi s) as [x Hx], (Hi (other s)) as [y Hy]. exists s, x, y. split_and!; [done..|].
    right. pose proof (in_write_calls _ _ _ Hx) as Hc. rewrite E in Hc.
    destruct x as [ρ [|d| |d k']| |]; destruct s; try discriminate Hc; cbn in Hc; injection Hc as <- Hc; by eexists _, _, _.
Qed.

Lemma callback_keeps w : inv w -> exists w', act Callback w = Done w' /\ inv w'.
Proof.
  intros Hi. destruct (calls (pipe w)) as [|c rest] eqn:Ec; [by exists w; unfold act, next_call; rewrite Ec|].
  destruct (calls_head w c rest Hi Ec) as (s & x & y & Hx & Hy & Hc).
  pose proof Hx as [Hwf Hre Hwr Hev Hew Hcr Hcw Hrd Hwt Hby]. rewrite Ec in Hcr, Hcw.
  unfold act, next_call. rewrite Ec.
  destruct Hc as [(k & n & b & ω & -> & -> & Hc)|(k & d & ρ & -> & -> & Hc)]; cbn [finish];
    rewrite ?Hrd, ?Hwt; cbn [read_of write_of]; eexists; (split; [done|]).
  - eapply (inv_step w _ (other s) y (Free RIdle ω) Hy);
     [intros H; eapply is_in_other; [exact H|..]; destruct s; compute_step; rewrite ?Ec; reflexivity|].
    rewrite other_other. destruct s; affected.
  - eapply (inv_step w _ (other s) y (Free ρ WIdle) Hy);
     [intros H; eapply is_in_other; [exact H|..]; destruct s; compute_step; rewrite ?Ec; reflexivity|].
    rewrite other_other. destruct s; affected; by destruct ρ.
Qed.

Lemma act_keeps a w : inv w -> allowed w a = true -> exists w', act a w = Done w' /\ inv w'.
Proof.
  intros Hi Ha. destruct a as [s n|s d| |]; cbn [allowed] in Ha.
  - apply andb_true_iff in Ha as [Hn Hr%bool_decide_eq_true]. apply read_keeps; [done|lia|done].
  - apply bool_decide_eq_true in Ha. by apply write_keeps.
  - by apply event_keeps.
  - by apply callback_keeps.
Qed.

Lemma acts_keep l : forall w, inv w -> legal l w = true -> exists w', acts l w = Done w' /\ inv w'.
Proof.
  induction l as [|a l IH]; intros w Hi Hl; [by exists w|]. cbn [legal acts] in *.
  apply andb_true_iff in Hl as [Ha Hl]. destruct (act_keeps a w Hi Ha) as (w1 & E & Hi1).
  rewrite E in *. rewrite bind_done. by apply IH.
Qed.

(** Nothing is about to happen by itself. *)
Definition quiet (w : World) : bool := match events (pipe w), calls (pipe w) with [], [] => true | _, _ => false end.

Definition settle (w : World) : action := match calls (pipe w) with [] => Event | _ => Callback end.
Definition unsettled (w : World) : nat := (3 * length (events (pipe w)) + length (calls (pipe w)))%nat.

Lemma run_calls e (p p' : State (Callback := operation)) : run e p = Done p' -> events p' = events p /\ (length (calls p') <= 2)%nat.
Proof.
  intros E. destruct e; cbn [run] in E; inv_bind; subst; cbn; auto.
Qed.

Lemma finish_pipe c p w w' : finish c p w = Done w' -> pipe w' = p.
Proof. destruct c as [[s|s] k]; cbn [finish]; case_match; try case_match; try done; by intros [= <-]. Qed.

Lemma settle_less w w' : quiet w = false -> act (settle w) w = Done w' -> (unsettled w' < unsettled w)%nat.
Proof.
  unfold quiet, settle, unsettled. destruct (calls (pipe w)) as [|c cs] eqn:Ec.
  - destruct (events (pipe w)) as [|e rest] eqn:Ee; [done|]. intros _. unfold act, next_event. rewrite Ec, Ee.
    destruct (run e _) as [p|f] eqn:Er; [|done]. apply run_calls in Er as [E1 E2].
    cbn [fmap outcome_map]. rewrite bind_done. intros [= <-]. cbn [with_pipe pipe]. rewrite E1. cbn [events length]. lia.
  - intros _. unfold act, next_call. rewrite Ec. intros E%finish_pipe. rewrite E. cbn. lia.
Qed.

Lemma settles n : forall w, inv w -> (unsettled w <= n)%nat -> exists l w', 
  Forall (fun a => a = Event \/ a = Callback) l /\ acts l w = Done w' /\ inv w' /\ quiet w' = true.
Proof.
  induction n as [|n IH]; intros w Hi Hn; destruct (quiet w) eqn:Eq; try (by exists [], w).
  - unfold quiet, unsettled in *. destruct (events (pipe w)), (calls (pipe w)); cbn in *; lia || done.
  - assert (Ha : allowed w (settle w) = true) by (unfold settle; by case_match).
    destruct (act_keeps _ w Hi Ha) as (w1 & E & Hi1). apply settle_less in E as Hlt; [|done].
    destruct (IH w1 Hi1) as (l & w' & Hl & El & Hi' & Hq); [lia|]. exists (settle w :: l), w'.
    split_and!; [|cbn [acts]; by rewrite E|done|done]. constructor; [|done]. unfold settle. case_match; auto.
Qed.

(** What the state of a channel says of the bytes. *)
Lemma in_prefix w s x : is_in w s x -> received w (other s) `prefix_of` sent w s \/ sent w s `prefix_of` received w (other s).
Proof.
  intros Hx. apply (prefix_weak_total _ _ (received w (other s) ++ not_received x)); [by eexists|].
  rewrite (in_bytes _ _ _ Hx). by eexists.
Qed.

Lemma in_quiet w s x : is_in w s x -> quiet w = true ->
  received w (other s) = sent w s /\ (reading w (other s) = None \/ writing w s = None).
Proof.
  intros [Hwf _ _ Hev Hew Hcr Hcw -> -> Hby]. unfold quiet.
  destruct (events (pipe w)); [|done]. destruct (calls (pipe w)); [|done]. intros _. cbn in Hev, Hew, Hcr, Hcw.
  destruct x as [[|n| |n k b] [|d| |d k']| |]; try done; cbn in Hby; rewrite !app_nil_r in Hby; cbn; auto.
Qed.

Definition is_own (a : action) : bool := match a with Event | Callback => true | _ => false end.

(** C35: clients that have at most one read and one write in progress on each
    side of a pipe, in any order, and between any events and callbacks, never
    meet an assertion or an empty callback; what the reads of a side report is
    at all times the same bytes, in the same order, as what the writes of the
    other side report, up to what only one of the two has been told; and from
    wherever they are, a number of events and callbacks brings the pipe to a
    state in which the two are equal and no read waits while there is a write. *)
Theorem pipe_conserves (l : list action) :
  legal l start = true ->
  exists w, acts l start = Done w /\
    (forall s, received w (other s) `prefix_of` sent w s \/ sent w s `prefix_of` received w (other s)) /\
    exists own w', forallb is_own own = true /\ acts own w = Done w' /\ quiet w' = true /\
      forall s, received w' (other s) = sent w' s /\ (reading w' (other s) = None \/ writing w' s = None).
Proof.
  intros Hl. destruct (acts_keep l start inv_start Hl) as (w & E & Hi). exists w. split_and!; [done|..].
  - intros s. destruct (Hi s) as [x Hx]. by eapply in_prefix.
  - destruct (settles _ w Hi (Nat.le_refl _)) as (own & w' & Ho & E' & Hi' & Hq). exists own, w'.
    split_and!; [|done..|].
    + apply forallb_forall. intros a Ha. rewrite List.Forall_forall in Ho. by destruct (Ho a Ha) as [->| ->].
    + intros s. destruct (Hi' s) as [x Hx]. by eapply in_quiet.
Qed.

(** A write that two reads take, one of them before it; the second write is
    longer than the read that waits for it. *)
Definition exchange : list action :=
  [Read A 4; Write B [byte.of_Z 1; byte.of_Z 2]; Event; Callback; Write A [byte.of_Z 9]; Callback; Read A 2;
   Write B [byte.of_Z 3; byte.of_Z 4; byte.of_Z 5]; Read B 0; Event; Callback].

Lemma pipe_conserves_witness :
  legal exchange start = true /\
  (exists w, acts exchange start = Done w /\ sent w B = map byte.of_Z [1; 2; 3; 4] /\ received w A = map byte.of_Z [1; 2]) /\
  exists w, acts exchange start = Done w /\
    (forall s, received w (other s) `prefix_of` sent w s \/ sent w s `prefix_of` received w (other s)) /\
    exists own w', forallb is_own own = true /\ acts own w = Done w' /\ quiet w' = true /\
      forall s, received w' (other s) = sent w' s /\ (reading w' (other s) = None \/ writing w' s = None).
Proof.
  split; [vm_compute; reflexivity|]. split; [|apply (pipe_conserves exchange); vm_compute; reflexivity].
  eexists. split; [vm_compute; reflexivity|]. vm_compute. auto.
Defined.
