(* ===== verification/CommandManager.v ===== *)
(** * micro/command_manager.cc: commands by line

    [CommandManager::Impl] over a read stream and the shared write stream.
    Registered commands, the other users of the write stream and the streams
    themselves are foreign: a call to one is an output, and what it does, in
    which order ever, are later steps. *)
From stdpp Require Import strings.
From S2P Require Import Prelude Varuint Streams TimeConversions TelemetryFormat Archive ArchiveTheory Schema SchemaTheory Tokenizer PoolMap SerializableHandler AsyncStreams.
#[local] Open Scope Z_scope.

Section CommandManager.
Context {Command Other : Type}.

(** [command_function]: a registered one, or [UnknownGroup]. *)
Inductive command := CRegistered (c : Command) | CUnknownGroup.

(** The operations on the write stream: the one that [HandleCommand] starts,
    and those of other users. *)
Inductive operation := OCommand | OOther (o : Other).

(** The callback of [read_until_context_]. *)
Inductive read_callback := CHandleRead | CMaybeStartRead.

(** [Invoke]: the command function is called with its arguments; [Reply]: what
    [UnknownGroup] writes; [StartOther]: the operation of another user gets the
    write stream. *)
Inductive output :=
  | ReadSome (h : AsyncReadUntil.handler)
  | Invoke (c : Command) (args : list byte)
  | Reply (data : list byte)
  | StartOther (o : Other).

(** [group_arguments] is the size of the span; an empty [current_command] is
    [None]. *)
Record State := {
  max_line_length : Z;
  registry : PoolMap.t Command;
  write_outstanding : bool;
  line_buffer : list byte;
  arguments : list byte;
  group_arguments : Z;
  current_command : option command;
  done_callback : bool;
  callback : option read_callback;
  write_stream : AsyncExclusive.State operation;
}.

(** [line] and [args] are the memory of the pool. *)
Definition make (max : Z) (line args : list byte) (w : AsyncExclusive.State operation) : State :=
  {| max_line_length := max; registry := PoolMap.make 16; write_outstanding := false;
     line_buffer := line; arguments := args; group_arguments := 0; current_command := None;
     done_callback := false; callback := None; write_stream := w |}.

Definition with_registry (r : PoolMap.t Command) (s : State) : State :=
  {| max_line_length := max_line_length s; registry := r; write_outstanding := write_outstanding s;
     line_buffer := line_buffer s; arguments := arguments s; group_arguments := group_arguments s;
     current_command := current_command s; done_callback := done_callback s; callback := callback s;
     write_stream := write_stream s |}.
Definition with_line (b : list byte) (s : State) : State :=
  {| max_line_length := max_line_length s; registry := registry s; write_outstanding := write_outstanding s;
     line_buffer := b; arguments := arguments s; group_arguments := group_arguments s;
     current_command := current_command s; done_callback := done_callback s; callback := callback s;
     write_stream := write_stream s |}.
Definition with_callback (c : read_callback) (s : State) : State :=
  {| max_line_length := max_line_length s; registry := registry s; write_outstanding := write_outstanding s;
     line_buffer := line_buffer s; arguments := arguments s; group_arguments := group_arguments s;
     current_command := current_command s; done_callback := done_callback s; callback := Some c;
     write_stream := write_stream s |}.
Definition with_write_stream (w : AsyncExclusive.State operation) (s : State) : State :=
  {| max_line_length := max_line_length s; registry := registry s; write_outstanding := write_outstanding s;
     line_buffer := line_buffer s; arguments := arguments s; group_arguments := group_arguments s;
     current_command := current_command s; done_callback := done_callback s; callback := callback s;
     write_stream := w |}.
Definition with_command (c : command) (args : list byte) (size : Z) (s : State) : State :=
  {| max_line_length := max_line_length s; registry := registry s; write_outstanding := true;
     line_buffer := replicate (Z.to_nat (max_line_length s)) (byte.of_Z 0); arguments := args;
     group_arguments := size; current_command := Some c;
     done_callback := done_callback s; callback := callback s; write_stream := write_stream s |}.
Definition with_started (s : State) : State :=
  {| max_line_length := max_line_length s; registry := registry s; write_outstanding := write_outstanding s;
     line_buffer := line_buffer s; arguments := arguments s; group_arguments := 0;
     current_command := None; done_callback := true; callback := callback s;
     write_stream := write_stream s |}.
Definition with_responded (s : State) : State :=
  {| max_line_length := max_line_length s; registry := registry s; write_outstanding := false;
     line_buffer := line_buffer s; arguments := arguments s; group_arguments := group_arguments s;
     current_command := current_command s; done_callback := false; callback := callback s;
     write_stream := write_stream s |}.

Definition result : Type := outcome (State * list output).

Definition Register (name : list byte) (c : Command) (s : State) : outcome State :=
  '(r, _, inserted) ← PoolMap.insert (registry s) name c;
  _ ← mj_assert inserted;
  Done (with_registry r s).

Definition delimiters : list byte := crlf.

Definition MaybeStartRead (s : State) : result :=
  if write_outstanding s then Done (s, [])
  else
    let s := with_callback CHandleRead s in
    a ← AsyncReadUntil.start (line_buffer s);
    match a with
    | AsyncReadUntil.ReadSome h => Done (s, [ReadSome h])
    | AsyncReadUntil.Callback _ _ => Done (s, [])
    end.

(** The operation of [HandleCommand], when it gets the write stream. *)
Definition StartCommand (s : State) : result :=
  match current_command s with
  | None => Faulted Undefined
  | Some c =>
      args ← load (arguments s) 0 (group_arguments s);
      Done (with_started s,
            match c with
            | CRegistered c => [Invoke c args]
            | CUnknownGroup => [Reply (message "ERR unknown command")]
            end)
  end.

Definition call (op : option operation) (s : State) : result :=
  match op with
  | None => Done (s, [])
  | Some OCommand => StartCommand s
  | Some (OOther o) => Done (s, [StartOther o])
  end.

(** An operation asks for the write stream, or relinquishes it, and the one
    that gets it is called. *)
Definition acquire (op : operation) (s : State) : result :=
  '(w, op) ← AsyncExclusive.AsyncStart op (write_stream s);
  call op (with_write_stream w s).
Definition relinquish (s : State) : result :=
  '(w, op) ← AsyncExclusive.Release (write_stream s);
  call op (with_write_stream w s).

Definition lookup_node (s : State) (i : nat) : option Command := snd <$> PoolMap.data (registry s) !! i.

Definition HandleCommand (size : Z) (s : State) : result :=
  _ ← mj_assert (negb (write_outstanding s));
  line ← load (line_buffer s) 0 (size - 1);
  let '(cmd, tokenizer) := Tokenizer.next (Tokenizer.make line (text_of " ")) in
  if zlen cmd =? 0 then Done (s, [])
  else
    let command :=
      match PoolMap.find (registry s) cmd ≫= lookup_node s with
      | None => CUnknownGroup
      | Some c => CRegistered c
      end in
    let args := Tokenizer.remaining tokenizer in
    b ← store (replicate (Z.to_nat (max_line_length s)) (byte.of_Z 0)) 0 args;
    acquire OCommand (with_command command b (zlen args) s).

(** A function that calls foreign code has work left after it; the flag says
    that it does, and [Return] below does it. *)
Definition is_call (o : output) : bool := match o with ReadSome _ => false | _ => true end.

Definition then_read (r : result) : outcome (State * list output * bool) :=
  '(s, out) ← r;
  if existsb is_call out then Done (s, out, true)
  else
    '(s, more) ← MaybeStartRead s;
    Done (s, out ++ more, false).

Definition HandleRead (error size : Z) (s : State) : outcome (State * list output * bool) :=
  if negb (error =? 0) then
    Done (with_callback CMaybeStartRead s, [ReadSome AsyncReadUntil.Ignore], false)
  else then_read (HandleCommand size s).

(** The stream has completed a read: [data] is in the buffer, and the
    continuation [h] is called. *)
Definition ReadDone (h : AsyncReadUntil.handler) (error : Z) (data : list byte) (s : State)
    : outcome (State * list output * bool) :=
  b ← store (line_buffer s) (AsyncReadUntil.place h) data;
  let s := with_line b s in
  a ← AsyncReadUntil.handle delimiters b h error (zlen data);
  match a with
  | AsyncReadUntil.ReadSome h => Done (s, [ReadSome h], false)
  | AsyncReadUntil.Callback error size =>
      match callback s with
      | None => Faulted Undefined
      | Some CHandleRead => HandleRead error size s
      | Some CMaybeStartRead => '(s, out) ← MaybeStartRead s; Done (s, out, false)
      end
  end.

(** The callback of the [Response] a command was given. *)
Definition Respond (s : State) : outcome (State * list output * bool) :=
  if done_callback s then
    then_read (relinquish (with_responded s))
  else Faulted Undefined.

(** ** The manager and those it works with

    [reads] are the reads that the stream has not completed, [pending] the
    foreign calls after which a function of the manager goes on, and [running]
    is the operation that has the write stream. *)
Record System := {
  manager : State;
  reads : list AsyncReadUntil.handler;
  pending : nat;
  running : option operation;
}.

Inductive event :=
  | EReadDone (h : AsyncReadUntil.handler) (error : Z) (data : list byte)
  | ERespond
  | EReturn
  | EOtherStart (o : Other)
  | EOtherRelease.

Definition reads_in (out : list output) : list AsyncReadUntil.handler :=
  omap (fun o => match o with ReadSome h => Some h | _ => None end) out.

(** Who has the write stream after [out], when [old] had it. *)
Definition running_after (old : option operation) (out : list output) : option operation :=
  fold_left (fun r o => match o with
                        | ReadSome _ => r
                        | Invoke _ _ | Reply _ => Some OCommand
                        | StartOther o => Some (OOther o)
                        end) out old.

Definition after (reads : list AsyncReadUntil.handler) (pending : nat) (running : option operation)
    (r : State * list output * bool) : System * list output :=
  let '(s, out, more) := r in
  ({| manager := s; reads := reads ++ reads_in out;
      pending := if more : bool then S pending else pending;
      running := running_after running out |}, out).

Fixpoint remove_read (h : AsyncReadUntil.handler) (l : list AsyncReadUntil.handler) :=
  match l with
  | [] => []
  | k :: l => if decide (h = k) then l else k :: remove_read h l
  end.

Definition quiet (r : result) : outcome (State * list output * bool) :=
  '(s, out) ← r; Done (s, out, false).

Definition step (sys : System) (e : event) : outcome (System * list output) :=
  let s := manager sys in
  match e with
  | EReadDone h error data =>
      after (remove_read h (reads sys)) (pending sys) (running sys) <$> ReadDone h error data s
  | ERespond => after (reads sys) (pending sys) None <$> Respond s
  | EReturn =>
      match pending sys with
      | O => Done (sys, [])
      | S n => after (reads sys) n (running sys) <$> quiet (MaybeStartRead s)
      end
  | EOtherStart o =>
      after (reads sys) (pending sys) (running sys) <$>
        quiet (acquire (OOther o) s)
  | EOtherRelease =>
      after (reads sys) (pending sys) None <$> quiet (relinquish s)
  end.

Fixpoint run (sys : System) (es : list event) : outcome (System * list output) :=
  match es with
  | [] => Done (sys, [])
  | e :: es =>
      '(sys, out) ← step sys e;
      '(sys, more) ← run sys es;
      Done (sys, out ++ more)
  end.

(** [CommandManager::AsyncStart] *)
Definition AsyncStart (s : State) : outcome (System * list output) :=
  after [] 0 None <$> quiet (MaybeStartRead s).
End CommandManager.
Arguments State : clear implicits.
Arguments System : clear implicits.
Arguments event : clear implicits.
Arguments output : clear implicits.
Arguments operation : clear implicits.
Arguments command : clear implicits.
