(* ===== verification/CommandTheory.v ===== *)
(** * CommandManager: every line is answered, once and in order

    The commands a sequence of bytes stands for, and that the manager, whatever
    the other users of the write stream do, calls exactly those. *)
From stdpp Require Import strings.
From S2P Require Import Prelude Varuint Streams TimeConversions TelemetryFormat Archive ArchiveTheory Schema SchemaTheory Tokenizer PoolMap SerializableHandler AsyncStreams AsyncExclusiveTheory CommandManager.
#[local] Open Scope Z_scope.
#[local] Abbreviation Until := AsyncReadUntil.Until.
#[local] Abbreviation Ignore := AsyncReadUntil.Ignore.

(** ** What the bytes say

    A line ends at a carriage return, a line feed or a null.  One that does not
    fit the buffer, and one during which the stream reported an error, is
    dropped up to its end. *)
Inductive input := IByte (c : byte) | IError.
Inductive line_state := Collect (l : list byte) | Skip.

Definition ends_line (c : byte) : bool := Tokenizer.is_delimiter crlf c.

Definition take_input (max : Z) (st : line_state) (i : input) : line_state * list (list byte) :=
  match st, i with
  | Collect l, IByte c =>
      if ends_line c then (Collect [], [l])
      else if zlen l + 1 =? max then (Skip, []) else (Collect (l ++ [c]), [])
  | Collect _, IError => (Skip, [])
  | Skip, IByte c => (if ends_line c then Collect [] else Skip, [])
  | Skip, IError => (Collect [], [])
  end.

Fixpoint lines_from (max : Z) (st : line_state) (ins : list input) : list (list byte) :=
  match ins with
  | [] => []
  | i :: ins => (take_input max st i).2 ++ lines_from max (take_input max st i).1 ins
  end.

Definition state_after (max : Z) (st : line_state) (ins : list input) : line_state :=
  fold_left (fun st i => (take_input max st i).1) ins st.

Section theory.
Context {Command Other : Type}.
Implicit Types (s : State Command Other) (sys : System Command Other)
  (w : AsyncExclusive.State (operation Other)).

(** What a command is answered with, and what a line is. *)
Definition answer_of (c : command Command) (args : list byte) : output Command Other :=
  match c with
  | CRegistered c => Invoke c args
  | CUnknownGroup => Reply (message "ERR unknown command")
  end.

Definition find_command (r : PoolMap.t Command) (name : list byte) : command Command :=
  match PoolMap.find r name ≫= (fun i => snd <$> PoolMap.data r !! i) with
  | None => CUnknownGroup
  | Some c => CRegistered c
  end.

Definition answer (r : PoolMap.t Command) (line : list byte) : list (output Command Other) :=
  let '(name, rest) := Tokenizer.next (Tokenizer.make line (text_of " ")) in
  match name with
  | [] => []
  | _ => [answer_of (find_command r name) (Tokenizer.remaining rest)]
  end.

(** The answers among the outputs. *)
Definition is_answer (o : output Command Other) : bool :=
  match o with Invoke _ _ | Reply _ => true | _ => false end.
Definition answers (out : list (output Command Other)) : list (output Command Other) :=
  List.filter is_answer out.

Definition inputs (es : list (event Other)) : list input :=
  omap (fun e => match e with
                 | EReadDone _ error data =>
                     Some (if error =? 0 then IByte (hd (byte.of_Z 0) data) else IError)
                 | _ => None
                 end) es.

(** ** Who may do what

    The stream completes reads that were started, with a byte or an error; a
    command responds once, after it has returned; another user relinquishes the
    write stream when it has it, and no more of them wait than leave a place for
    the manager. *)
Fixpoint own_of (l : list (operation Other)) : nat :=
  match l with [] => 0 | OCommand :: l => S (own_of l) | OOther _ :: l => own_of l end.
Fixpoint others_of (l : list (operation Other)) : nat :=
  match l with [] => 0 | OCommand :: l => others_of l | OOther _ :: l => S (others_of l) end.
Definition own w : nat := own_of (waiting w).
Definition others w : nat := others_of (waiting w).

Definition allowed sys (e : event Other) : Prop :=
  match e with
  | EReadDone h error data =>
      h ∈ reads sys /\ (if error =? 0 then zlen data = 1 else zlen data <= 1)
  | ERespond => running sys = Some OCommand /\ pending sys = 0%nat
  | EReturn => pending sys <> 0%nat
  | EOtherStart _ =>
      (S (others (write_stream (manager sys))) <
       length (AsyncExclusive.callbacks (write_stream (manager sys))))%nat
  | EOtherRelease => exists o, running sys = Some (OOther o)
  end.

Fixpoint obeys sys (es : list (event Other)) : Prop :=
  match es with
  | [] => True
  | e :: es => allowed sys e /\ forall sys' out, step sys e = Done (sys', out) -> obeys sys' es
  end.

(** The same, as a test. *)
Definition allowedb sys (e : event Other) : bool :=
  match e with
  | EReadDone h error data =>
      existsb (fun k => bool_decide (k = h)) (reads sys) &&
      (if error =? 0 then zlen data =? 1 else zlen data <=? 1)
  | ERespond => match running sys with Some OCommand => Nat.eqb (pending sys) 0 | _ => false end
  | EReturn => negb (Nat.eqb (pending sys) 0)
  | EOtherStart _ =>
      Nat.ltb (S (others (write_stream (manager sys))))
        (length (AsyncExclusive.callbacks (write_stream (manager sys))))
  | EOtherRelease => match running sys with Some (OOther _) => true | _ => false end
  end.

Fixpoint obeysb sys (es : list (event Other)) : bool :=
  match es with
  | [] => true
  | e :: es => allowedb sys e && match step sys e with Done (sys', _) => obeysb sys' es | Faulted _ => true end
  end.

Lemma allowedb_sound sys e : allowedb sys e = true -> allowed sys e.
Proof.
  destruct e as [h error data| | |o|]; cbn [allowedb allowed].
  - intros [Hh Hd]%andb_prop. split.
    + apply existsb_exists in Hh as (k & Hk & ->%bool_decide_eq_true). by apply list_elem_of_In.
    + by destruct (error =? 0); lia.
  - destruct (running sys) as [[]|]; try done. intros ->%Nat.eqb_eq. done.
  - intros H%negb_true_iff%Nat.eqb_neq. done.
  - intros H%Nat.ltb_lt. done.
  - destruct (running sys) as [[|o]|]; try done. intros _. by exists o.
Qed.

Lemma obeysb_sound es : forall sys, obeysb sys es = true -> obeys sys es.
Proof.
  induction es as [|e es IH]; intros sys; cbn [obeysb obeys]; [done|].
  intros [Ha Ho]%andb_prop. split; [by apply allowedb_sound|]. intros sys' out E. rewrite E in Ho. by apply IH.
Qed.

(** ** The invariant *)

(** What of a command that waits for the write stream is kept. *)
Definition queued s : list (output Command Other) :=
  match current_command s with
  | Some c => [answer_of c (ztake (group_arguments s) (arguments s))]
  | None => []
  end.

Definition reading (rs : list AsyncReadUntil.handler) s (st : line_state) : Prop :=
  match st with
  | Collect l =>
      rs = [Until (zlen l)] /\ callback s = Some CHandleRead /\
      ztake (zlen l) (line_buffer s) = l /\ zlen l < max_line_length s
  | Skip => rs = [Ignore] /\ callback s = Some CMaybeStartRead
  end.

Record buffers_ok (r : PoolMap.t Command) (max : Z) (places : nat) s : Prop := {
  of_registry : registry s = r;
  of_max : max_line_length s = max;
  of_line : zlen (line_buffer s) = max;
  of_arguments : zlen (arguments s) = max;
  of_places : length (AsyncExclusive.callbacks (write_stream s)) = places;
}.

(** A command waits for the write stream, or there is none. *)
Definition command_waits s : Prop :=
  if write_outstanding s
  then own (write_stream s) = 1%nat /\ (exists c, current_command s = Some c) /\
       0 <= group_arguments s <= zlen (arguments s)
  else own (write_stream s) = 0%nat /\ current_command s = None.

Definition command_ok (running : option (operation Other)) s : Prop :=
  match running with
  | Some OCommand => write_outstanding s = true /\ own (write_stream s) = 0%nat /\
      current_command s = None /\ done_callback s = true
  | _ => command_waits s
  end.

Record core (r : PoolMap.t Command) (max : Z) (places : nat) (running : option (operation Other)) s : Prop := {
  core_buffers : buffers_ok r max places s;
  core_exclusive : ok (write_stream s);
  core_running : AsyncExclusive.outstanding (write_stream s) = (if running is Some _ then true else false);
  core_places : (others (write_stream s) < places)%nat;
  core_command : command_ok running s;
}.

Record invariant (r : PoolMap.t Command) (max : Z) (places : nat) sys (st : line_state) : Prop := {
  inv_core : core r max places (running sys) (manager sys);
  inv_pending : (pending sys <= 1)%nat;
  inv_reads :
    if negb (write_outstanding (manager sys)) && Nat.eqb (pending sys) 0
    then reading (reads sys) (manager sys) st
    else reads sys = [] /\ st = Collect [];
}.

(** ** Who waits *)
#[local] Instance own_of_proper : Proper ((≡ₚ) ==> eq) own_of.
Proof. induction 1 as [|[|] ? ? ? IH|[|] [|]|]; cbn; congruence. Qed.
#[local] Instance others_of_proper : Proper ((≡ₚ) ==> eq) others_of.
Proof. induction 1 as [|[|] ? ? ? IH|[|] [|]|]; cbn; congruence. Qed.

Lemma waiting_split w : length (waiting w) = (own w + others w)%nat.
Proof. unfold own, others. induction (waiting w) as [|[|o] l IH]; cbn; lia. Qed.

Lemma command_ok_idle running s :
  command_ok running s -> write_outstanding s = false ->
  own (write_stream s) = 0%nat /\ current_command s = None /\ running <> Some OCommand.
Proof.
  intros Hc Hw. destruct running as [[|o]|]; cbn in Hc; unfold command_waits in Hc; rewrite Hw in Hc;
    naive_solver.
Qed.

Lemma queued_idle s : current_command s = None -> queued s = [].
Proof. unfold queued. by intros ->. Qed.

(** ** The steps of the manager *)
Section steps.
Context (r : PoolMap.t Command) (max : Z) (places : nat) (Hmax : 0 < max < 65535).

Lemma MaybeStartRead_reads s :
  write_outstanding s = false -> zlen (line_buffer s) < 65535 ->
  MaybeStartRead s = Done (with_callback CHandleRead s, [ReadSome (Until 0)]).
Proof.
  intros Hw Hl. unfold MaybeStartRead. rewrite Hw. cbv zeta. unfold AsyncReadUntil.start. cbn [line_buffer with_callback].
  by rewrite (proj2 (Z.ltb_lt _ _)) by done.
Qed.

(** A command that waited gets the write stream. *)
Lemma StartCommand_spec s c :
  current_command s = Some c -> 0 <= group_arguments s <= zlen (arguments s) ->
  StartCommand s = Done (with_started s, queued s).
Proof.
  intros Ec Hg. unfold StartCommand, queued. rewrite Ec, load_done by lia. rewrite bind_done.
  by destruct c.
Qed.

Lemma relinquish_spec s :
  buffers_ok r max places s -> (others (write_stream s) < places)%nat -> command_waits s ->
  exists s' out,
    relinquish s = Done (s', out) /\
    core r max places (running_after None out) s' /\ answers out ++ queued s' = queued s /\
    reads_in out = [] /\ write_outstanding s' = write_outstanding s /\ callback s' = callback s /\
    line_buffer s' = line_buffer s /\ existsb is_call out = (if running_after None out is Some _ then true else false).
Proof.
  intros [] Ho Hc. unfold relinquish. destruct (release_spec (write_stream s)) as (w' & -> & Eo & El & Ew).
  rewrite bind_done. unfold command_waits in Hc. unfold own, others in *.
  assert (Hb : buffers_ok r max places (with_write_stream w' s)) by (constructor; cbn; congruence).
  destruct (waiting (write_stream s)) as [|[|o] l]; cbn [head tail call own_of others_of] in *.
  - destruct (write_outstanding s) eqn:E; [naive_solver|]. destruct Hc as [_ Hc].
    eexists _, []. split_and!; try done. constructor; cbn; unfold ok, others; rewrite ?Ew; try done.
    + unfold command_waits, own. cbn. by rewrite E, Ew.
  - destruct (write_outstanding s) eqn:E; [|naive_solver]. destruct Hc as (Hown & [c Ec] & Hg).
    rewrite (StartCommand_spec (with_write_stream w' s) c Ec Hg).
    assert (Hq : exists o, queued (with_write_stream w' s) = [o] /\ is_answer o = true /\ is_call o = true /\
      reads_in [o] = [] /\ running_after None [o] = Some OCommand).
    { unfold queued. cbn. rewrite Ec. destruct c; eexists; by split_and!. }
    destruct Hq as (o & Hq & Ha & Hcall & Hr & Hra).
    eexists _, [o]. rewrite Hq, Hra. split_and!; try done.
    + constructor; [by destruct Hb; constructor|..]; cbn; unfold ok, others, own; rewrite ?Ew;
        [congruence|done|done|]. split_and!; try done. lia.
    + unfold answers. cbn. rewrite Ha. unfold queued in *. cbn in *. by rewrite Ec in *.
    + cbn. by rewrite Hcall.
  - eexists _, [StartOther o]. split_and!; try done.
    constructor; cbn; unfold ok, others; rewrite ?Ew; [done|congruence|done|lia|].
    + unfold command_waits, own in *. cbn. by rewrite Ew.
Qed.

(** Another user asks for the write stream. *)
Lemma acquire_other running s o :
  core r max places running s -> (S (others (write_stream s)) < places)%nat ->
  exists s' out, acquire (OOther o) s = Done (s', out) /\
    core r max places (running_after running out) s' /\ answers out = [] /\ queued s' = queued s /\
    reads_in out = [] /\ write_outstanding s' = write_outstanding s /\ callback s' = callback s /\
    line_buffer s' = line_buffer s.
Proof.
  intros [Hb He Hr Hp Hc] Ho. unfold acquire.
  assert (Hown : (own (write_stream s) <= 1)%nat)
    by (destruct running as [[|o']|]; cbn in Hc; unfold command_waits in Hc; repeat case_match; lia).
  destruct (start_spec (write_stream s) (OOther o) He) as (w' & -> & Eo & El & Ew).
  { intros _. rewrite waiting_split, (of_places _ _ _ _ Hb). lia. }
  rewrite bind_done.
  assert (Hb' : buffers_ok r max places (with_write_stream w' s)) by (destruct Hb; constructor; cbn; congruence).
  assert (Hn : own w' = own (write_stream s) /\
    others w' = ((if AsyncExclusive.outstanding (write_stream s) then 1 else 0) + others (write_stream s))%nat).
  { unfold own, others. rewrite Ew. by destruct (AsyncExclusive.outstanding (write_stream s)). }
  destruct Hn as [Hn Hm]. rewrite Hr in *. exists (with_write_stream w' s).
  destruct running as [op|]; cbn [call] in *.
  - exists []. split_and!; try done. constructor; cbn; [done|by unfold ok; rewrite Eo|done|lia|].
    destruct op; unfold command_ok, command_waits in *; cbn; by rewrite Hn.
  - exists [StartOther o]. split_and!; try done. constructor; cbn; [done|by unfold ok; rewrite Eo|done|lia|].
    unfold command_ok, command_waits in *; cbn; by rewrite Hn.
Qed.

(** A command asks for it. *)
Lemma acquire_command running s c b n :
  core r max places running s -> write_outstanding s = false -> zlen b = max -> 0 <= n <= max ->
  exists s' out, acquire OCommand (with_command c b n s) = Done (s', out) /\
    core r max places (running_after running out) s' /\
    answers out ++ queued s' = [answer_of c (ztake n b)] /\ reads_in out = [] /\
    write_outstanding s' = true.
Proof.
  intros [Hb He Hr Hp Hc] Hw Hl Hn. destruct (command_ok_idle running s Hc Hw) as (Hown & Hcur & Hrun).
  unfold acquire. cbn [write_stream with_command].
  destruct (start_spec (write_stream s) OCommand He) as (w' & -> & Eo & El & Ew).
  { intros _. rewrite waiting_split, (of_places _ _ _ _ Hb). lia. }
  rewrite bind_done. set (s1 := with_write_stream w' (with_command c b n s)).
  assert (Hb' : buffers_ok r max places s1).
  { destruct Hb; constructor; cbn; try congruence. rewrite zlen_replicate. lia. }
  assert (Hq : queued s1 = [answer_of c (ztake n b)]) by done.
  assert (Hm : own w' = (if AsyncExclusive.outstanding (write_stream s) then 1 else 0)%nat /\
    others w' = others (write_stream s)).
  { unfold own, others in *. rewrite Ew. destruct (AsyncExclusive.outstanding (write_stream s)); cbn; lia. }
  destruct Hm as [Hm Ho]. rewrite Hr in *. destruct running as [[|o]|]; [done|..]; cbn [call].
  - exists s1, []. rewrite Hq. split_and!; try done.
    constructor; cbn; [done|by unfold ok; rewrite Eo|done|lia|].
    unfold command_waits. cbn. split_and!; [done|by exists c|lia|lia].
  - rewrite (StartCommand_spec s1 c eq_refl) by (cbn; lia). rewrite Hq.
    exists (with_started s1), [answer_of c (ztake n b)].
    assert (Ea : answers [answer_of c (ztake n b)] = [answer_of c (ztake n b)] /\
      running_after None [answer_of c (ztake n b)] = Some OCommand /\
      reads_in [answer_of c (ztake n b)] = []) by by destruct c.
    destruct Ea as (-> & -> & ->). split_and!; try done.
    constructor; [by destruct Hb'; constructor|..]; cbn; [by unfold ok; rewrite Eo|done|lia|by split_and!].
Qed.

(** A line. *)
Lemma find_command_lookup s name :
  match PoolMap.find (registry s) name ≫= lookup_node s with
  | None => CUnknownGroup
  | Some c => CRegistered c
  end = find_command (registry s) name.
Proof. done. Qed.

Lemma remaining_le (t : Tokenizer.t) : Tokenizer.ok t -> zlen (Tokenizer.remaining t) <= zlen (Tokenizer.source t).
Proof. unfold Tokenizer.ok, Tokenizer.remaining. intros. rewrite zlen_drop; lia. Qed.

Lemma next_source (t : Tokenizer.t) : Tokenizer.source (Tokenizer.next t).2 = Tokenizer.source t.
Proof. unfold Tokenizer.next. by repeat case_match. Qed.

Lemma HandleCommand_spec running s line :
  core r max places running s -> write_outstanding s = false -> zlen line < max ->
  ztake (zlen line) (line_buffer s) = line ->
  exists s' out, HandleCommand (zlen line + 1) s = Done (s', out) /\
    core r max places (running_after running out) s' /\ answers out ++ queued s' = answer r line /\
    reads_in out = [] /\
    (out = [] /\ s' = s \/ write_outstanding s' = true).
Proof.
  intros [Hb He Hr Hp Hc] Hw Hl Hline. unfold HandleCommand. rewrite Hw.
  cbn [mj_assert negb]. rewrite bind_done.
  destruct (command_ok_idle running s Hc Hw) as (Hown & Hcur & Hrun). destruct Hb as [Er Em Eline Ea Epl].
  pose proof (zlen_nonneg line). replace (zlen line + 1 - 1) with (zlen line) by lia.
  rewrite load_done by lia. rewrite bind_done. change (zdrop 0 (line_buffer s)) with (line_buffer s).
  rewrite Hline. unfold answer.
  pose proof (Tokenizer.next_ok (Tokenizer.make line (text_of " "))) as Hok.
  pose proof (next_source (Tokenizer.make line (text_of " "))) as Hsrc.
  destruct (Tokenizer.next (Tokenizer.make line (text_of " "))) as [cmd t]. cbn [fst snd] in *.
  destruct cmd as [|b cmd].
  { exists s, []. rewrite (queued_idle s Hcur). split_and!; try done; try (by left). }
  rewrite zlen_cons, (proj2 (Z.eqb_neq _ _)) by (pose proof (zlen_nonneg cmd); lia).
  rewrite find_command_lookup, Er. cbv zeta.
  assert (Hargs : zlen (Tokenizer.remaining t) <= zlen line).
  { pose proof (remaining_le t) as Hle. rewrite Hsrc in Hle. apply Hle, Hok. unfold Tokenizer.ok. cbn. lia. }
  pose proof (zlen_nonneg (Tokenizer.remaining t)). set (args := Tokenizer.remaining t) in *.
  set (zeros := replicate _ _). assert (Hz : zlen zeros = max) by (unfold zeros; rewrite zlen_replicate; lia).
  rewrite store_done by lia. rewrite bind_done. cbn [ztake Z.to_nat take app].
  change (ztake 0 zeros) with (@nil byte). cbn [app].
  destruct (acquire_command running s (find_command r (b :: cmd)) (args ++ zdrop (0 + zlen args) zeros) (zlen args))
    as (s' & out & E & Hcore & Hans & Hreads & Hw').
  - by constructor; [constructor|..].
  - done.
  - rewrite zlen_app, zlen_drop by lia. lia.
  - lia.
  - exists s', out. rewrite ztake_app_len in Hans. split_and!; try done. by right.
Qed.

(** ** Reading on *)
Lemma core_with_line running s b :
  zlen b = max -> core r max places running s -> core r max places running (with_line b s).
Proof. intros Hb [[] ? ? ? Hc]. constructor; [by constructor|done..]. Qed.

Lemma core_with_callback running s c :
  core r max places running s -> core r max places running (with_callback c s).
Proof. intros [[] ? ? ? Hc]. constructor; [by constructor|done..]. Qed.

Lemma reading_fresh running s :
  core r max places running s ->
  reading [Until 0] (with_callback CHandleRead s) (Collect []).
Proof.
  intros [[_ Em _ _ _] _ _ _ _]. cbn. rewrite Em. change (zlen []) with 0. split_and!; [done|done|done|lia].
Qed.

Lemma answers_app out more : answers (out ++ more) = answers out ++ answers more.
Proof. apply List.filter_app. Qed.

Lemma reads_in_app (out more : list (output Command Other)) :
  reads_in (out ++ more) = reads_in out ++ reads_in more.
Proof. apply omap_app. Qed.

(** What is left after a function that may have called foreign code. *)
Lemma then_read_spec running s out :
  core r max places (running_after running out) s -> reads_in out = [] ->
  exists res sys' out', then_read (Done (s, out)) = Done res /\ after [] 0 running res = (sys', out') /\
    invariant r max places sys' (Collect []) /\ answers out' = answers out /\
    queued (manager sys') = queued s.
Proof.
  intros Hcore Hreads. unfold then_read. rewrite bind_done. destruct (existsb is_call out).
  - eexists _, _, _. split; [done|]. split; [done|]. split; [|by split].
    constructor; cbn; [done|lia|]. rewrite andb_false_r, Hreads. by split.
  - destruct (write_outstanding s) eqn:Hw.
    + unfold MaybeStartRead. rewrite Hw, bind_done, app_nil_r. eexists _, _, _.
      split; [done|]. split; [done|]. split; [|by split].
      constructor; cbn; [done|lia|]. rewrite Hw, Hreads. by split.
    + rewrite (MaybeStartRead_reads s Hw) by (rewrite (of_line _ _ _ _ (core_buffers _ _ _ _ _ Hcore)); lia).
      rewrite bind_done. eexists _, _, _. split; [done|]. split; [done|].
      rewrite answers_app. cbn [answers List.filter is_answer]. rewrite app_nil_r. split; [|by split].
      assert (Er : running_after running (out ++ [ReadSome (Until 0)]) = running_after running out)
        by (unfold running_after; by rewrite fold_left_app).
      constructor; cbn [CommandManager.running manager pending reads after].
      * rewrite Er. by apply core_with_callback.
      * lia.
      * cbn [write_outstanding with_callback]. rewrite Hw, reads_in_app, Hreads. cbn [negb andb Nat.eqb app].
        by eapply reading_fresh.
Qed.

(** A byte put behind the line so far. *)
Lemma line_extended b l c :
  ztake (zlen l) b = l -> zlen l < zlen b ->
  exists b', store b (zlen l) [c] = Done b' /\ zlen b' = zlen b /\ ztake (zlen l) b' = l /\
    load b' (zlen l) 1 = Done [c] /\ ztake (zlen l + 1) b' = l ++ [c].
Proof.
  intros Hl Hb. pose proof (zlen_nonneg l). rewrite store_done by (change (zlen [c]) with 1; lia).
  rewrite Hl. change (zlen [c]) with 1. eexists. split; [done|].
  assert (Hz : zlen (l ++ [c] ++ zdrop (zlen l + 1) b) = zlen b).
  { rewrite !zlen_app, zlen_drop by lia. change (zlen [c]) with 1. lia. }
  split; [exact Hz|]. split; [apply ztake_app_len|]. split.
  - rewrite load_done by lia. by rewrite zdrop_app_len.
  - rewrite app_assoc. apply ztake_app_full. rewrite zlen_app. done.
Qed.

(** The reading of a line ends without one. *)
Lemma line_lost running s error size :
  core r max places running s -> write_outstanding s = false -> error <> 0 ->
  exists res sys' out, HandleRead error size s = Done res /\ after [] 0 running res = (sys', out) /\
    invariant r max places sys' Skip /\ answers out = [] /\ queued (manager sys') = queued s.
Proof.
  intros Hcore Hw He. unfold HandleRead. rewrite (proj2 (Z.eqb_neq error 0)) by done. cbn [negb].
  eexists _, _, _. split; [done|]. split; [done|]. split; [|done].
  constructor; cbn; [by apply core_with_callback|lia|]. rewrite Hw. by split.
Qed.

Lemma core_queued running s :
  core r max places running s -> write_outstanding s = false -> queued s = [].
Proof. intros [_ _ _ _ Hc] Hw. apply queued_idle, (command_ok_idle _ _ Hc Hw). Qed.

Lemma read_byte_collect running s l c :
  core r max places running s -> write_outstanding s = false -> reading [Until (zlen l)] s (Collect l) ->
  exists res sys' out, ReadDone (Until (zlen l)) 0 [c] s = Done res /\
    after [] 0 running res = (sys', out) /\
    invariant r max places sys' (take_input max (Collect l) (IByte c)).1 /\
    answers out ++ queued (manager sys') = flat_map (answer r) (take_input max (Collect l) (IByte c)).2.
Proof.
  intros Hcore Hw (_ & Hcb & Hl & Hlt). pose proof (core_buffers _ _ _ _ _ Hcore) as [_ Em Eb _ _].
  rewrite Em in Hlt. destruct (line_extended (line_buffer s) l c Hl) as (b & Es & Hb & Hl' & Hload & Hl''); [lia|].
  pose proof (core_queued _ _ Hcore Hw) as Hq.
  assert (Hcore' : core r max places running (with_line b s)) by (apply core_with_line; [lia|done]).
  unfold ReadDone. cbn [AsyncReadUntil.place]. rewrite Es, bind_done. cbv zeta.
  unfold AsyncReadUntil.handle. cbn [Z.eqb negb]. change (zlen [c]) with 1. cbn [Z.eqb orb mj_assert Pos.eqb].
  rewrite bind_done, Hload, bind_done. cbn [existsb]. rewrite orb_false_r.
  fold (ends_line c). change (Tokenizer.is_delimiter delimiters c) with (ends_line c). cbn [take_input].
  destruct (ends_line c).
  - rewrite bind_done. cbn [callback with_line]. rewrite Hcb. unfold HandleRead. cbn [Z.eqb negb fst snd flat_map].
    destruct (HandleCommand_spec running (with_line b s) l Hcore' Hw) as (s' & out & E & Hc' & Ha & Hr & _);
      [lia|done|]. rewrite E.
    destruct (then_read_spec running s' out Hc' Hr) as (res & sys' & out' & E' & Ea & Hi & Hans & Hqs).
    exists res, sys', out'. split_and!; try done. by rewrite app_nil_r, Hans, Hqs.
  - rewrite Hb, Eb. destruct (Z.eqb_spec (zlen l + 1) max) as [Hfull|Hfull]; cbn [fst snd flat_map].
    + rewrite bind_done. cbn [callback with_line]. rewrite Hcb.
      destruct (line_lost running (with_line b s) AsyncReadUntil.kDelimiterNotFound (zlen l) Hcore' Hw)
        as (res & sys' & out' & E' & Ea & Hi & Hans & Hqs); [done|].
      exists res, sys', out'. split_and!; try done. rewrite Hans, Hqs. exact Hq.
    + rewrite bind_done. eexists _, _, _. split; [done|]. split; [done|]. split; [|exact Hq].
      pose proof (zlen_nonneg l). constructor; cbn; [done|lia|]. rewrite Hw. cbn.
      rewrite uwrap_id by (unfold in_u; lia). rewrite zlen_app. change (zlen [c]) with 1.
      split_and!; [done|done|done|lia].
Qed.

Lemma read_byte_skip running s c :
  core r max places running s -> write_outstanding s = false -> reading [Ignore] s Skip ->
  exists res sys' out, ReadDone Ignore 0 [c] s = Done res /\ after [] 0 running res = (sys', out) /\
    invariant r max places sys' (take_input max Skip (IByte c)).1 /\
    answers out ++ queued (manager sys') = [].
Proof.
  intros Hcore Hw (_ & Hcb). pose proof (core_buffers _ _ _ _ _ Hcore) as [_ Em Eb _ _].
  destruct (line_extended (line_buffer s) [] c) as (b & Es & Hb & _ & Hload & _); [done|change (zlen []) with 0; lia|].
  change (zlen []) with 0 in *. pose proof (core_queued _ _ Hcore Hw) as Hq.
  assert (Hcore' : core r max places running (with_line b s)) by (apply core_with_line; [lia|done]).
  unfold ReadDone. cbn [AsyncReadUntil.place]. rewrite Es, bind_done. cbv zeta.
  unfold AsyncReadUntil.handle. cbn [Z.eqb negb]. rewrite Hload, bind_done. cbn [existsb]. rewrite orb_false_r.
  change (Tokenizer.is_delimiter delimiters c) with (ends_line c). cbn [take_input fst].
  destruct (ends_line c); rewrite bind_done.
  - cbn [callback with_line]. rewrite Hcb, (MaybeStartRead_reads (with_line b s) Hw) by (cbn; lia).
    rewrite bind_done. eexists _, _, _. split; [done|]. split; [done|]. split; [|exact Hq].
    constructor; [by apply core_with_callback|cbn; lia|]. cbn. rewrite Hw. cbn.
    by apply (reading_fresh running (with_line b s)).
  - eexists _, _, _. split; [done|]. split; [done|]. split; [|exact Hq].
    constructor; cbn; [done|lia|]. rewrite Hw. by split.
Qed.

(** An error of the stream. *)
Lemma store_short b i (d : list byte) :
  0 <= i < zlen b -> zlen d <= 1 -> exists b', store b i d = Done b' /\ zlen b' = zlen b.
Proof.
  intros Hi Hd. pose proof (zlen_nonneg d). rewrite store_done by lia. eexists. split; [done|].
  rewrite !zlen_app, zlen_take, zlen_drop by lia. lia.
Qed.

Lemma read_error running s rs st h error data :
  core r max places running s -> write_outstanding s = false -> reading rs s st -> h ∈ rs ->
  error <> 0 -> zlen data <= 1 ->
  exists res sys' out, ReadDone h error data s = Done res /\ after [] 0 running res = (sys', out) /\
    invariant r max places sys' (take_input max st IError).1 /\ answers out ++ queued (manager sys') = [].
Proof.
  intros Hcore Hw Hrd Hh He Hd. pose proof (core_buffers _ _ _ _ _ Hcore) as [_ Em Eb _ _].
  pose proof (core_queued _ _ Hcore Hw) as Hq.
  assert (Hp : 0 <= AsyncReadUntil.place h < max).
  { destruct st as [l|]; cbn in Hrd.
    - destruct Hrd as (-> & _ & _ & Hl). apply list_elem_of_singleton in Hh as ->. cbn.
      pose proof (zlen_nonneg l). lia.
    - destruct Hrd as (-> & _). apply list_elem_of_singleton in Hh as ->. cbn. lia. }
  destruct (store_short (line_buffer s) (AsyncReadUntil.place h) data) as (b & Es & Hb); [lia|done|].
  assert (Hcore' : core r max places running (with_line b s)) by (apply core_with_line; [lia|done]).
  unfold ReadDone. rewrite Es, bind_done. cbv zeta. destruct st as [l|]; cbn in Hrd.
  - destruct Hrd as (-> & Hcb & _). apply list_elem_of_singleton in Hh as ->.
    unfold AsyncReadUntil.handle. rewrite (proj2 (Z.eqb_neq error 0)) by done. cbn [negb].
    rewrite bind_done. cbn [callback with_line]. rewrite Hcb.
    destruct (line_lost running (with_line b s) error (zlen l + zlen data) Hcore' Hw He)
      as (res & sys' & out' & E' & Ea & Hi & Hans & Hqs).
    exists res, sys', out'. split_and!; try done. rewrite Hans, Hqs. exact Hq.
  - destruct Hrd as (-> & Hcb). apply list_elem_of_singleton in Hh as ->.
    unfold AsyncReadUntil.handle. rewrite (proj2 (Z.eqb_neq error 0)) by done. cbn [negb].
    rewrite bind_done. cbn [callback with_line]. rewrite Hcb.
    rewrite (MaybeStartRead_reads (with_line b s) Hw) by (cbn; lia). rewrite bind_done.
    eexists _, _, _. split; [done|]. split; [done|]. split; [|exact Hq].
    constructor; [by apply core_with_callback|cbn; lia|]. cbn. rewrite Hw. cbn.
    by apply (reading_fresh running (with_line b s)).
Qed.

(** ** Every step *)
Lemma remove_singleton h : remove_read h [h] = [].
Proof. cbn. by rewrite decide_True. Qed.

Lemma reading_in rs s st h : reading rs s st -> h ∈ rs ->
  rs = [h] /\ match st with Collect l => h = Until (zlen l) | Skip => h = Ignore end.
Proof. destruct st; cbn; intros (-> & _) ->%list_elem_of_singleton; done. Qed.

Lemma invariant_reads sys st h :
  invariant r max places sys st -> h ∈ reads sys ->
  write_outstanding (manager sys) = false /\ pending sys = 0%nat /\ reading (reads sys) (manager sys) st.
Proof.
  intros [_ _ Hr] Hh. destruct (write_outstanding (manager sys)), (pending sys) as [|n]; cbn in Hr; try done;
    destruct Hr as [Hr _]; rewrite Hr in Hh; by apply not_elem_of_nil in Hh.
Qed.

Definition serves sys st sys' (out : list (output Command Other)) (ins : list input) : Prop :=
  invariant r max places sys' (state_after max st ins) /\
  answers out ++ queued (manager sys') = queued (manager sys) ++ flat_map (answer r) (lines_from max st ins).

Lemma step_read sys st h error data :
  invariant r max places sys st -> allowed sys (EReadDone h error data) ->
  exists sys' out, step sys (EReadDone h error data) = Done (sys', out) /\
    serves sys st sys' out (inputs [EReadDone h error data]).
Proof.
  intros Hi [Hh Hd]. destruct (invariant_reads sys st h Hi Hh) as (Hw & Hp & Hrd).
  destruct (reading_in _ _ _ _ Hrd Hh) as [Er Eh]. pose proof (inv_core _ _ _ _ _ Hi) as Hcore.
  pose proof (core_queued _ _ Hcore Hw) as Hq. unfold serves. cbn [step inputs omap list_omap].
  rewrite Hq, Er, remove_singleton, Hp. rewrite Er in Hrd.
  cbn [state_after fold_left lines_from app].
  destruct (Z.eqb_spec error 0) as [->|He].
  - destruct data as [|c [|c' data]]; [done| |rewrite !zlen_cons in Hd; pose proof (zlen_nonneg data); lia].
    cbn [hd]. destruct st as [l|]; subst h.
    + destruct (read_byte_collect (running sys) (manager sys) l c Hcore Hw Hrd)
        as (res & sys' & out & E & Ea & Hi' & Hans).
      exists sys', out. rewrite E. cbn. rewrite Ea, app_nil_r. by split_and!.
    + destruct (read_byte_skip (running sys) (manager sys) c Hcore Hw Hrd)
        as (res & sys' & out & E & Ea & Hi' & Hans).
      exists sys', out. rewrite E. cbn. rewrite Ea. by split_and!.
  - destruct (read_error (running sys) (manager sys) [h] st h error data Hcore Hw Hrd)
      as (res & sys' & out & E & Ea & Hi' & Hans); [by apply list_elem_of_singleton|done|done|].
    exists sys', out. rewrite E. cbn. rewrite Ea. split_and!; [done|done|]. rewrite Hans. by destruct st.
Qed.

Lemma step_respond sys st :
  invariant r max places sys st -> allowed sys ERespond ->
  exists sys' out, step sys ERespond = Done (sys', out) /\ serves sys st sys' out [].
Proof.
  intros [Hcore Hpen Hrd] [Erun Ep]. destruct Hcore as [Hb He Hr Hp Hc]. rewrite Erun in *.
  destruct Hc as (Hw & Hown & Hcur & Hdone). rewrite Hw, Ep in Hrd. cbn in Hrd. destruct Hrd as [Erd ->].
  cbn [step]. unfold Respond. rewrite Hdone.
  destruct (relinquish_spec (with_responded (manager sys))) as (s' & out & E & Hc' & Hans & Hreads & _).
  { by destruct Hb; constructor. } { done. } { by split. }
  rewrite E. destruct (then_read_spec None s' out Hc' Hreads) as (res & sys' & out' & -> & Ea & Hi & Ha & Hq).
  exists sys', out'. rewrite Erd, Ep. cbn. rewrite Ea. split; [done|]. split; [exact Hi|].
  rewrite Ha, Hq, app_nil_r. exact Hans.
Qed.

Lemma step_return sys st :
  invariant r max places sys st -> allowed sys EReturn ->
  exists sys' out, step sys EReturn = Done (sys', out) /\ serves sys st sys' out [].
Proof.
  intros [Hcore Hpen Hrd] Ha. cbn in Ha. cbn [step]. destruct (pending sys) as [|[|n]]; [done| |lia].
  rewrite andb_false_r in Hrd. destruct Hrd as [Erd ->]. rewrite Erd. unfold quiet, serves.
  pose proof (of_line _ _ _ _ (core_buffers _ _ _ _ _ Hcore)) as Hl.
  destruct (write_outstanding (manager sys)) eqn:Hw.
  - unfold MaybeStartRead. rewrite Hw, bind_done. eexists _, _. split; [done|]. split; [|cbn; by rewrite app_nil_r].
    constructor; cbn; [done|lia|]. by rewrite Hw.
  - rewrite MaybeStartRead_reads by (done || lia). rewrite bind_done. eexists _, _. split; [done|].
    split; [|cbn; by rewrite app_nil_r].
    constructor; [by apply core_with_callback|cbn; lia|]. cbn. rewrite Hw. cbn.
    by apply (reading_fresh (running sys) (manager sys)).
Qed.

(** The manager, when another user's operation starts or ends. *)
Lemma reading_same rs s s' st :
  buffers_ok r max places s -> buffers_ok r max places s' ->
  callback s' = callback s -> line_buffer s' = line_buffer s -> reading rs s st -> reading rs s' st.
Proof. intros [] [] Ec El. unfold reading. rewrite Ec, El. destruct st; [|done]. by replace (max_line_length s') with (max_line_length s) by lia. Qed.

Lemma serves_quiet sys st s' out before :
  invariant r max places sys st -> core r max places (running_after before out) s' ->
  answers out ++ queued s' = queued (manager sys) -> reads_in out = [] ->
  write_outstanding s' = write_outstanding (manager sys) -> callback s' = callback (manager sys) ->
  line_buffer s' = line_buffer (manager sys) ->
  exists sys' out', after (reads sys) (pending sys) before (s', out, false) = (sys', out') /\
    serves sys st sys' out' [].
Proof.
  intros [Hcore Hpen Hrd] Hc' Hans Hr Hw Hcb Hl. eexists _, _. split; [done|]. split; [|by rewrite app_nil_r].
  constructor; cbn; [done|done|]. rewrite Hw, Hr, app_nil_r.
  destruct (negb _ && _); [|done]. by eapply reading_same; [apply Hcore|apply Hc'|..].
Qed.

Lemma step_other sys st e :
  invariant r max places sys st -> allowed sys e ->
  match e with EOtherStart _ | EOtherRelease => True | _ => False end ->
  exists sys' out, step sys e = Done (sys', out) /\ serves sys st sys' out [].
Proof.
  intros Hi Ha He. pose proof (inv_core _ _ _ _ _ Hi) as Hcore. destruct e as [| | |o|]; try done; cbn [step].
  - cbn in Ha. rewrite (of_places _ _ _ _ (core_buffers _ _ _ _ _ Hcore)) in Ha.
    destruct (acquire_other _ _ o Hcore Ha) as (s' & out & -> & Hc' & Hans & Hq & Hr & Hw & Hcb & Hl).
    destruct (serves_quiet sys st s' out (running sys) Hi Hc') as (sys' & out' & Ea & Hs); try done.
    { by rewrite Hans. } exists sys', out'. split; [by rewrite <- Ea|exact Hs].
  - destruct Ha as [o Er]. pose proof Hcore as [Hb _ _ Hp Hc]. rewrite Er in Hc.
    destruct (relinquish_spec _ Hb Hp Hc) as (s' & out & -> & Hc' & Hans & Hr & Hw & Hcb & Hl & _).
    destruct (serves_quiet sys st s' out None Hi Hc') as (sys' & out' & Ea & Hs); try done.
    exists sys', out'. split; [by rewrite <- Ea|exact Hs].
Qed.

Lemma step_serves sys st e :
  invariant r max places sys st -> allowed sys e ->
  exists sys' out, step sys e = Done (sys', out) /\ serves sys st sys' out (inputs [e]).
Proof.
  intros Hi Ha. destruct e as [h error data| | |o|].
  - by apply step_read.
  - by apply step_respond.
  - by apply step_return.
  - by apply step_other.
  - by apply step_other.
Qed.

Lemma lines_from_app st a b : lines_from max st (a ++ b) = lines_from max st a ++ lines_from max (state_after max st a) b.
Proof. revert st. induction a as [|i a IH]; intros st; cbn; [done|]. by rewrite IH, app_assoc. Qed.

Lemma run_serves es : forall sys st, invariant r max places sys st -> obeys sys es ->
  exists sys' out, run sys es = Done (sys', out) /\ serves sys st sys' out (inputs es).
Proof.
  induction es as [|e es IH]; intros sys st Hi Ho.
  - exists sys, []. split; [done|]. split; [exact Hi|]. cbn. by rewrite app_nil_r.
  - destruct Ho as [Ha Ho]. destruct (step_serves sys st e Hi Ha) as (sys1 & out1 & E1 & Hi1 & Hans1).
    destruct (IH sys1 _ Hi1 (Ho _ _ E1)) as (sys2 & out2 & E2 & Hi2 & Hans2).
    exists sys2, (out1 ++ out2). cbn [run]. rewrite E1, bind_done, E2. split; [done|].
    assert (Ei : inputs (e :: es) = inputs [e] ++ inputs es) by apply (omap_app _ [e] es).
    rewrite Ei. split.
    + unfold state_after in *. by rewrite fold_left_app.
    + rewrite answers_app, lines_from_app, flat_map_app, <- app_assoc, Hans2, app_assoc, Hans1, app_assoc. done.
Qed.

(** ** From the start *)
Record starts s : Prop := {
  st_buffers : buffers_ok r max places s;
  st_idle : write_outstanding s = false /\ current_command s = None;
  st_free : AsyncExclusive.outstanding (write_stream s) = false /\ waiting (write_stream s) = [];
}.

Lemma AsyncStart_invariant s :
  starts s -> (0 < places)%nat ->
  exists sys, AsyncStart s = Done (sys, [ReadSome (Until 0)]) /\
    invariant r max places sys (Collect []) /\ queued (manager sys) = [].
Proof.
  intros [Hb [Hw Hc] [Hf Hn]] Hp. unfold AsyncStart, quiet.
  rewrite MaybeStartRead_reads by (rewrite ?(of_line _ _ _ _ Hb); done || lia). rewrite bind_done.
  assert (Hcore : core r max places None s).
  { constructor; [done|by intros _|done|unfold others; by rewrite Hn|]. cbn. unfold command_waits, own.
    by rewrite Hw, Hn. }
  eexists. split; [done|]. split; [|by apply queued_idle].
  constructor; [by apply core_with_callback|cbn; lia|]. cbn. rewrite Hw. by apply (reading_fresh None s).
Qed.

Lemma invariant_live sys st :
  invariant r max places sys st ->
  (length (reads sys) <= 1)%nat /\
  if write_outstanding (manager sys)
  then running sys = Some OCommand \/ own (write_stream (manager sys)) = 1%nat
  else pending sys = 0%nat -> reads sys <> [].
Proof.
  intros [[_ _ _ _ Hc] Hpen Hrd]. split.
  - destruct (negb _ && _); [|by destruct Hrd as [-> _]; cbn; lia].
    destruct st; destruct Hrd as [-> _]; cbn; lia.
  - destruct (write_outstanding (manager sys)) eqn:Hw.
    + destruct (running sys) as [[|o]|]; [by left|..]; right; cbn in Hc; unfold command_waits in Hc;
        rewrite Hw in Hc; apply Hc.
    + intros Hp. rewrite Hp in Hrd. cbn in Hrd. by destruct st; destruct Hrd as [-> _].
Qed.
End steps.

(** C28: every line is answered, once and in order.  Whatever bytes and errors the
    stream delivers, and however the commands' responses and the other users of
    the write stream come in between: nothing asserts and nothing is copied
    outside a buffer; the commands called, with their arguments, are those of
    the lines received, up to one that waits for the write stream; no second
    read is started while one is in progress; and as long as no command is in
    progress the next line is being read. *)
Theorem every_line_answered (r : PoolMap.t Command) (max : Z) (places : nat) s (es : list (event Other)) sys out0 :
  0 < max < 65535 -> (0 < places)%nat -> starts r max places s ->
  AsyncStart s = Done (sys, out0) -> obeys sys es ->
  exists sys' out, run sys es = Done (sys', out) /\
    answers out ++ queued (manager sys') =
      flat_map (answer r) (lines_from max (Collect []) (inputs es)) /\
    (length (reads sys') <= 1)%nat /\
    if write_outstanding (manager sys')
    then running sys' = Some OCommand \/ own (write_stream (manager sys')) = 1%nat
    else pending sys' = 0%nat -> reads sys' <> [].
Proof.
  intros Hmax Hp Hs E Ho. destruct (AsyncStart_invariant r max places Hmax s Hs Hp) as (sys1 & E1 & Hi & Hq).
  rewrite E in E1. injection E1 as -> ->.
  destruct (run_serves r max places Hmax es sys1 _ Hi Ho) as (sys' & out & E' & Hi' & Hans).
  exists sys', out. split; [exact E'|]. split; [by rewrite Hans, Hq|]. by eapply invariant_live.
Qed.

(** A command may not respond before it returns: when it does, the manager
    starts a read in its callback and a second one when the command has
    returned, while the first is in progress. *)
Theorem early_response_reads_twice (r : PoolMap.t Command) (max : Z) (places : nat) s
    (es : list (event Other)) sys out0 sys' out :
  0 < max < 65535 -> (0 < places)%nat -> starts r max places s ->
  AsyncStart s = Done (sys, out0) -> obeys sys es -> run sys es = Done (sys', out) ->
  running sys' = Some OCommand -> pending sys' = 1%nat -> waiting (write_stream (manager sys')) = [] ->
  exists sys'' out', run sys' [ERespond; EReturn] = Done (sys'', out') /\
    reads sys'' = [Until 0; Until 0].
Proof.
  intros Hmax Hp Hs E Ho Erun Er Epen Ew.
  destruct (AsyncStart_invariant r max places Hmax s Hs Hp) as (sys1 & E1 & Hi & Hq).
  rewrite E in E1. injection E1 as -> ->.
  destruct (run_serves r max places Hmax es sys1 _ Hi Ho) as (sys2 & out2 & E' & [[Hb He _ _ Hc] _ Hrd] & _).
  rewrite Erun in E'. injection E' as <- <-. rewrite Er in Hc. cbn in Hc. destruct Hc as (Hw & _ & _ & Hdone).
  rewrite Epen, andb_false_r in Hrd. destruct Hrd as [Erd _].
  pose proof (of_line _ _ _ _ Hb) as Hl.
  cbn [run step]. unfold Respond. rewrite Hdone. unfold relinquish.
  destruct (release_spec (write_stream (with_responded (manager sys')))) as (w' & Ew' & _ & _ & _).
  cbn [write_stream with_responded] in *. rewrite Ew', Ew, bind_done. cbn [head call].
  unfold then_read. rewrite bind_done. cbn [existsb].
  rewrite MaybeStartRead_reads by (cbn; done || lia). rewrite bind_done.
  cbn [fmap outcome_map after app]. rewrite bind_done. cbn [CommandManager.pending]. rewrite Epen. unfold quiet.
  rewrite MaybeStartRead_reads by (cbn; done || lia). rewrite !bind_done.
  eexists _, _. split; [reflexivity|]. cbn. by rewrite Erd.
Qed.

(** A read of no bytes, which [AsyncReadUntilHelper] admits, at the beginning
    of a line: the byte that is in the buffer is looked at, and the line that
    ends with it has the length -1. *)
Lemma empty_read_undefined s c b :
  line_buffer s = c :: b -> ends_line c = true -> write_outstanding s = false ->
  callback s = Some CHandleRead -> ReadDone (Until 0) 0 [] s = Faulted Undefined.
Proof.
  intros Hb Hc Hw Hcb. unfold ReadDone. rewrite Hb. pose proof (zlen_nonneg b).
  assert (Es : store (c :: b) (AsyncReadUntil.place (Until 0)) [] = Done (c :: b)).
  { rewrite store_done; [done|done|]. unfold zlen. cbn. lia. }
  rewrite Es, bind_done. cbv zeta.
  unfold AsyncReadUntil.handle. change (zlen []) with 0. cbn [Z.eqb negb orb mj_assert]. rewrite bind_done.
  rewrite load_done by (rewrite ?zlen_cons; lia). rewrite bind_done. cbn [existsb].
  change (ztake 1 (zdrop 0 (c :: b))) with [c]. cbn [existsb].
  change (Tokenizer.is_delimiter delimiters c) with (ends_line c). rewrite Hc. cbn [orb]. rewrite bind_done.
  cbn [callback with_line]. rewrite Hcb. unfold HandleRead, HandleCommand. cbn. by rewrite Hw.
Qed.
End theory.

(** ** A line answered while another user has the write stream *)
Definition sample_registry : PoolMap.t Z := {| PoolMap.data := [(text_of "tel", 1)]; PoolMap.max_size := 16 |}.
Definition sample_manager : State Z Z :=
  with_registry sample_registry
    (make 10 (replicate 10 (byte.of_Z 7)) (replicate 10 (byte.of_Z 7)) (AsyncExclusive.make 3)).

Definition type_line (text : list byte) : list (event Z) :=
  imap (fun i c => EReadDone (Until (Z.of_nat i)) 0 [c]) text.

(** A line that is too long, one for a command, one for nobody. *)
Definition sample_events : list (event Z) :=
  type_line (text_of "abcdefghij") ++ [EReadDone Ignore 0 [byte.of_Z 10]; EOtherStart 5] ++
  type_line (text_of "tel get") ++ [EReadDone (Until 7) 0 [byte.of_Z 10]; EOtherRelease; ERespond] ++
  type_line (text_of "x") ++ [EReadDone (Until 1) 0 [byte.of_Z 13]; EReturn; ERespond].

Definition sample_system : System Z Z :=
  match AsyncStart sample_manager with
  | Done (sys, _) => sys
  | Faulted _ => {| manager := sample_manager; reads := []; pending := 0; running := None |}
  end.

Lemma sample_starts : starts sample_registry 10 3 sample_manager.
Proof. by repeat split. Qed.

Lemma every_line_answered_witness :
  exists sys' out, run sample_system sample_events = Done (sys', out) /\
    answers out ++ queued (manager sys') =
      flat_map (answer sample_registry) (lines_from 10 (Collect []) (inputs sample_events)) /\
    (length (reads sys') <= 1)%nat /\
    if write_outstanding (manager sys')
    then running sys' = Some OCommand \/ own (write_stream (manager sys')) = 1%nat
    else pending sys' = 0%nat -> reads sys' <> [].
Proof.
  refine (every_line_answered sample_registry 10 3 sample_manager sample_events sample_system
    [ReadSome (Until 0)] _ _ sample_starts _ _).
  - lia.
  - lia.
  - reflexivity.
  - apply obeysb_sound. vm_compute. reflexivity.
Defined.

(** The answers are what one expects. *)
Example sample_answers :
  flat_map (answer (Other := Z) sample_registry) (lines_from 10 (Collect []) (inputs sample_events)) =
  [Invoke 1 (text_of "get"); Reply (message "ERR unknown command")].
Proof. vm_compute. reflexivity. Qed.

Definition called_events : list (event Z) := type_line (text_of "tel") ++ [EReadDone (Until 3) 0 [byte.of_Z 10]].

Definition called_system : System Z Z :=
  match run sample_system called_events with Done (sys, _) => sys | Faulted _ => sample_system end.

Lemma early_response_reads_twice_witness :
  exists sys'' out', run called_system [ERespond; EReturn] = Done (sys'', out') /\
    reads sys'' = [Until 0; Until 0].
Proof.
  refine (early_response_reads_twice sample_registry 10 3 sample_manager called_events sample_system
    [ReadSome (Until 0)] called_system [ReadSome (Until 1); ReadSome (Until 2); ReadSome (Until 3); Invoke 1 []]
    _ _ sample_starts _ _ _ _ _ _).
  - lia.
  - lia.
  - reflexivity.
  - apply obeysb_sound. vm_compute. reflexivity.
  - vm_compute. reflexivity.
  - vm_compute. reflexivity.
  - vm_compute. reflexivity.
  - vm_compute. reflexivity.
Defined.
