(* ===== verification/TelemetryManager.v ===== *)
(** * micro/telemetry_manager.cc: records sent at a rate

    [TelemetryManager::Impl] with its commands and its timer.  The shared write
    stream, the objects behind [SerializableHandlerBase] and the writing of
    text are foreign: what is started there is an output, what completes there
    a later call. *)
From stdpp Require Import strings.
From S2P Require Import Prelude Varuint Streams TimeConversions TelemetryFormat Archive ArchiveTheory Schema SchemaTheory Tokenizer PoolMap SerializableHandler CString.
#[local] Open Scope Z_scope.

Section TelemetryManager.
Context {T : Type} `{SerializableHandlerBase T}.

Definition kMinRateMs : Z := 10.
Definition kMaxElements : Z := 16.

(** [name] is the key of the element, too. *)
Record Element := {
  rate : Z;
  next : Z;
  to_send : bool;
  text : bool;
  base : T;
}.

Definition new_element (h : T) : Element :=
  {| rate := 0; next := 1; to_send := false; text := false; base := h |}.

Definition with_rate (r n : Z) (e : Element) : Element :=
  {| rate := r; next := n; to_send := to_send e; text := text e; base := base e |}.
Definition with_to_send (b : bool) (e : Element) : Element :=
  {| rate := rate e; next := next e; to_send := b; text := text e; base := base e |}.
Definition with_text (b : bool) (e : Element) : Element :=
  {| rate := rate e; next := next e; to_send := to_send e; text := b; base := base e |}.

(** A response is that of a command, known by a number, or the one that
    [MaybeStartSend] makes for what it sends itself. *)
Inductive response := RCommand (id : Z) | RTelemetry.

Inductive continuation := Respond | ListNext | EnumerateDone.

(** [StartOperation i]: the operation that sends the element [i] is given to
    the write stream; [Release]: it relinquishes it. *)
Inductive output :=
  | StartWrite (r : response) (data : list byte) (next : continuation)
  | StartEnumerate (r : response) (name : list byte)
  | Callback (id error : Z)
  | StartOperation (i : nat)
  | Release.

Record State := {
  elements : PoolMap.t Element;
  output_buffer : list byte;
  current_list_index : Z;
  current_response : response;
  outstanding_write : bool;
  write_release : bool;
  last_sent : Z;
}.

Definition make (buffer : list byte) : State :=
  {| elements := PoolMap.make kMaxElements; output_buffer := buffer; current_list_index := 0;
     current_response := RCommand 0; outstanding_write := false; write_release := false; last_sent := 0 |}.

Definition with_elements (m : PoolMap.t Element) (s : State) : State :=
  {| elements := m; output_buffer := output_buffer s; current_list_index := current_list_index s;
     current_response := current_response s; outstanding_write := outstanding_write s;
     write_release := write_release s; last_sent := last_sent s |}.
Definition with_buffer (b : list byte) (s : State) : State :=
  {| elements := elements s; output_buffer := b; current_list_index := current_list_index s;
     current_response := current_response s; outstanding_write := outstanding_write s;
     write_release := write_release s; last_sent := last_sent s |}.
Definition with_list (i : Z) (s : State) : State :=
  {| elements := elements s; output_buffer := output_buffer s; current_list_index := i;
     current_response := current_response s; outstanding_write := outstanding_write s;
     write_release := write_release s; last_sent := last_sent s |}.
Definition with_response (r : response) (s : State) : State :=
  {| elements := elements s; output_buffer := output_buffer s; current_list_index := current_list_index s;
     current_response := r; outstanding_write := outstanding_write s;
     write_release := write_release s; last_sent := last_sent s |}.
Definition with_write (outstanding release : bool) (s : State) : State :=
  {| elements := elements s; output_buffer := output_buffer s; current_list_index := current_list_index s;
     current_response := current_response s; outstanding_write := outstanding;
     write_release := release; last_sent := last_sent s |}.
Definition with_last (i : Z) (s : State) : State :=
  {| elements := elements s; output_buffer := output_buffer s; current_list_index := current_list_index s;
     current_response := current_response s; outstanding_write := outstanding_write s;
     write_release := write_release s; last_sent := i |}.

Definition nodes (s : State) : list (list byte * Element) := PoolMap.data (elements s).

(** A change of one element, or of all. *)
Definition update (i : nat) (f : Element -> Element) (s : State) : State :=
  with_elements {| PoolMap.data := alter (fun node => (node.1, f node.2)) i (nodes s);
                   PoolMap.max_size := PoolMap.max_size (elements s) |} s.
Definition update_all (f : Element -> Element) (s : State) : State :=
  with_elements {| PoolMap.data := map (fun node => (node.1, f node.2)) (nodes s);
                   PoolMap.max_size := PoolMap.max_size (elements s) |} s.

Definition result : Type := outcome (State * list output).

Definition WriteMessage (m : list byte) (r : response) : list output := [StartWrite r m Respond].
Definition WriteOK (r : response) : list output := WriteMessage (message "OK") r.
Definition UnknownCommand (r : response) : list output := WriteMessage (message "ERR unknown subcommand") r.

(** ** Sending *)

(** The loop of [MaybeStartSend]: the index of the [i]th element to look at,
    and the first that has something to send.  [size_t] does not wrap here.
    [last_sent] is assigned behind the call that starts the operation; nothing
    the operation does looks at it. *)
Definition to_check (s : State) (i : Z) : Z := (i + last_sent s + 1) mod PoolMap.size (elements s).

Fixpoint first_to_send (n : nat) (i : Z) (s : State) : option nat :=
  match n with
  | O => None
  | S n =>
      let k := Z.to_nat (to_check s i) in
      match nodes s !! k with
      | Some (_, e) => if to_send e then Some k else first_to_send n (i + 1) s
      | None => None
      end
  end.

Definition MaybeStartSend (s : State) : State * list output :=
  if outstanding_write s then (s, [])
  else
    match first_to_send (length (nodes s)) 0 s with
    | None => (s, [])
    | Some k =>
        (with_last (Z.of_nat k) (with_write true (write_release s) (update k (with_to_send false) s)),
         [StartOperation k])
    end.

Definition UpdateItem (i : nat) (s : State) : State * list output :=
  match nodes s !! i with
  | Some (_, e) => if rate e =? 1 then MaybeStartSend (update i (with_to_send true) s) else (s, [])
  | None => (s, [])
  end.

(** What [PollMillisecond] does to an element; the counter is an [int]. *)
Definition tick (e : Element) : Element :=
  if (1 <? rate e) && (0 <? next e) then
    let n := next e - 1 in
    if n =? 0 then with_to_send true (with_rate (rate e) (rate e) e) else with_rate (rate e) n e
  else e.

Definition PollMillisecond (s : State) : State * list output := MaybeStartSend (update_all tick s).

(** ** Records and schemas *)
Definition Emit (s : State) (prefix name : list byte) (work : writer) (r : response) : result :=
  '(b, data) ← emit_into (output_buffer s) prefix name work;
  Done (with_buffer b s, [StartWrite r data Respond]).

Definition Enumerate (s : State) (name : list byte) (r : response) : result :=
  Done (with_response r s, [StartEnumerate r name]).

Definition EmitData (s : State) (name : list byte) (e : Element) (r : response) : result :=
  if text e then Enumerate s name r
  else Emit s (text_of "emit ") name (WriteBinary (base e)) r.

(** The operation of [MaybeStartSend] has the write stream. *)
Definition RunOperation (i : nat) (s : State) : result :=
  match nodes s !! i with
  | None => Faulted Undefined
  | Some (name, e) => EmitData (with_write (outstanding_write s) true s) name e RTelemetry
  end.

(** [actual_release]; an empty [write_release_] must not be called. *)
Definition ActualRelease (s : State) : result :=
  if write_release s then Done (with_write false false s, [Release]) else Faulted Undefined.

(** The callback of a response. *)
Definition Responded (s : State) (r : response) (error : Z) : result :=
  match r with
  | RTelemetry => ActualRelease s
  | RCommand id => Done (s, [Callback id error])
  end.

Definition find_element (s : State) (name : list byte) : option (nat * Element) :=
  i ← PoolMap.find (elements s) name; '(_, e) ← nodes s !! i; Some (i, e).

(** ** Commands *)
Definition unknown_name (r : response) : list output := WriteMessage (message "ERR unknown name") r.

Definition Get (s : State) (name : list byte) (r : response) : result :=
  match find_element s name with
  | None => Done (s, unknown_name r)
  | Some (_, e) => EmitData s name e r
  end.

Definition Schema (s : State) (name : list byte) (r : response) : result :=
  match find_element s name with
  | None => Done (s, unknown_name r)
  | Some (_, e) => Emit s (text_of "schema ") name (WriteSchema (base e)) r
  end.

(** [ListCallback] copies the name into the buffer without looking at the size
    of the buffer. *)
Definition ListCallback (s : State) (error : Z) : result :=
  if negb (error =? 0) then Responded s (current_response s) error
  else if PoolMap.size (elements s) <=? current_list_index s
  then Done (s, WriteOK (current_response s))
  else
    match nodes s !! Z.to_nat (current_list_index s) with
    | None => Done (s, WriteOK (current_response s))
    | Some (name, _) =>
        let s := with_list (current_list_index s + 1) s in
        b ← store (output_buffer s) 0 (name ++ crlf);
        line ← load b 0 (zlen name + 2);
        Done (with_buffer b s, [StartWrite (current_response s) line ListNext])
    end.

Definition List_ (s : State) (r : response) : result := ListCallback (with_list 0 (with_response r s)) 0.

Context (long_bits : Z).

(** A number in an argument, through a buffer of [size] zeros. *)
Definition parse_number (size : Z) (arg : list byte) : outcome Z :=
  _ ← mj_assert (zlen arg <? size - 1);
  buffer ← store (replicate (Z.to_nat size) (byte.of_Z 0)) 0 arg;
  Done (strtol long_bits buffer).

(** What [Rate] does to an element: [int = long] wraps. *)
Definition set_rate (rate : Z) (e : Element) : Element :=
  if rate =? 0 then with_rate (swrap 32 rate) 1 e
  else if rate <? kMinRateMs then with_rate 1 1 e
  else with_rate (swrap 32 rate) (swrap 32 rate) e.

Definition Rate (s : State) (command : list byte) (r : response) : result :=
  let '(name, tokenizer) := Tokenizer.next (Tokenizer.make command (text_of " ")) in
  let '(rate_str, _) := Tokenizer.next tokenizer in
  match find_element s name with
  | None => Done (s, unknown_name r)
  | Some (i, _) =>
      rate ← parse_number 24 rate_str;
      Done (update i (set_rate rate) s, WriteOK r)
  end.

Definition Format (s : State) (command : list byte) (r : response) : result :=
  let '(name, tokenizer) := Tokenizer.next (Tokenizer.make command (text_of " ")) in
  let '(format_str, _) := Tokenizer.next tokenizer in
  match find_element s name with
  | None => Done (s, unknown_name r)
  | Some (i, _) =>
      format ← parse_number 5 format_str;
      Done (update i (with_text (negb (format =? 0))) s, WriteOK r)
  end.

Definition Stop (s : State) (r : response) : result :=
  Done (update_all (fun e => with_rate 0 (next e) (with_to_send false e)) s, WriteOK r).

Definition Text (s : State) (r : response) : result := Done (update_all (with_text true) s, WriteOK r).

Definition Command (s : State) (command : list byte) (id : Z) : result :=
  let '(cmd, tokenizer) := Tokenizer.next (Tokenizer.make command (text_of " ")) in
  let rest := Tokenizer.remaining tokenizer in
  let r := RCommand id in
  if bool_decide (cmd = text_of "get") then Get s rest r
  else if bool_decide (cmd = text_of "list") then List_ s r
  else if bool_decide (cmd = text_of "schema") then Schema s rest r
  else if bool_decide (cmd = text_of "rate") then Rate s rest r
  else if bool_decide (cmd = text_of "fmt") then Format s rest r
  else if bool_decide (cmd = text_of "stop") then Stop s r
  else if bool_decide (cmd = text_of "text") then Text s r
  else Done (s, UnknownCommand r).

(** [RegisterDetail] *)
Definition RegisterDetail (s : State) (name : list byte) (h : T) : outcome (State * nat) :=
  '(m, i, inserted) ← PoolMap.insert (elements s) name (new_element h);
  _ ← mj_assert inserted;
  Done (with_elements m s, i).

(** What was started with [next] completes with an error or without. *)
Definition Complete (s : State) (r : response) (next : continuation) (error : Z) : result :=
  match next with
  | Respond => Responded s r error
  | ListNext => ListCallback s error
  | EnumerateDone => Done (s, WriteOK (current_response s))
  end.
End TelemetryManager.
