(* ===== verification/TelemetryTheory.v ===== *)
(** * TelemetryManager: rates, turns and one record at a time

    What the timer makes of a rate; that every channel gets its turn; that one
    record is sent at a time; and how the arguments of the commands are
    taken. *)
From stdpp Require Import strings.
From S2P Require Import Prelude Varuint Streams TimeConversions TelemetryFormat Archive ArchiveTheory Schema SchemaTheory Tokenizer PoolMap SerializableHandler CString TelemetryManager.
#[local] Open Scope Z_scope.

Section telemetry.
Context {T : Type} `{SerializableHandlerBase T} (long_bits : Z).
Implicit Types (s : State (T := T)) (e : Element (T := T)).

(** ** The timer *)

Lemma mod_step m r : 0 < r -> (m + 1) mod r = if r - m mod r - 1 =? 0 then 0 else m mod r + 1.
Proof.
  intros Hr. pose proof (Z.mod_pos_bound m r Hr). rewrite <- Z.add_mod_idemp_l by lia.
  destruct (Z.eqb_spec (r - m mod r - 1) 0).
  - replace (m mod r + 1) with (1 * r) by lia. apply Z.mod_mul. lia.
  - apply Z.mod_small. lia.
Qed.

(** A counter that runs, [m] polls after it was set. *)
Lemma tick_running e r m :
  1 < r -> rate e = r -> next e = r - m mod r ->
  rate (tick e) = r /\ next (tick e) = r - (m + 1) mod r /\
  to_send (tick (with_to_send false e)) = ((m + 1) mod r =? 0).
Proof.
  intros Hr Er En. pose proof (Z.mod_pos_bound m r ltac:(lia)). unfold tick.
  cbn [rate next with_to_send]. rewrite Er, En, (mod_step m r) by lia.
  rewrite (proj2 (Z.ltb_lt 1 r)), (proj2 (Z.ltb_lt 0 _)) by lia. cbn [andb].
  destruct (Z.eqb_spec (r - m mod r - 1) 0); cbn; split_and!; done || lia.
Qed.

Lemma tick_still e b : rate e <= 1 -> tick (with_to_send b e) = with_to_send b e.
Proof. intros Hr. unfold tick. cbn. by rewrite (proj2 (Z.ltb_ge 1 (rate e))) by lia. Qed.

Lemma ticks_still e k : rate e <= 1 -> Nat.iter k tick e = e.
Proof.
  intros Hr. induction k as [|k IH]; [done|]. rewrite Nat.iter_succ, IH.
  pose proof (tick_still e (to_send e) Hr) as Ht. by destruct e.
Qed.

Lemma ticks_running e r k :
  1 < r -> rate (Nat.iter k tick (with_rate r r e)) = r /\
  next (Nat.iter k tick (with_rate r r e)) = r - Z.of_nat k mod r.
Proof.
  intros Hr. induction k as [|k [IHr IHn]]; [cbn; rewrite Z.mod_0_l by lia; lia|].
  rewrite Nat.iter_succ. destruct (tick_running _ r (Z.of_nat k) Hr IHr IHn) as (-> & -> & _).
  by replace (Z.of_nat (S k)) with (Z.of_nat k + 1) by lia.
Qed.

(** A channel with a rate of [r] milliseconds, 10 or more, is due at every
    [r]th poll after the command, and at no other; with a rate below that it is
    left to the updates, and with a rate of 0 it is silent. *)
Theorem rate_is_period r e (k : nat) :
  in_s 32 r ->
  let e' := Nat.iter k tick (set_rate r e) in
  let due := to_send (tick (with_to_send false e')) in
  if r =? 0 then rate e' = 0 /\ due = false
  else if r <? kMinRateMs then rate e' = 1 /\ due = false
  else rate e' = r /\ due = (Z.of_nat (S k) mod r =? 0).
Proof.
  intros Hr. cbv zeta. unfold set_rate, kMinRateMs. rewrite swrap_id by (done || lia).
  destruct (Z.eqb_spec r 0) as [->|Hz]; [by rewrite ticks_still, tick_still by done|].
  destruct (Z.ltb_spec r 10); [by rewrite ticks_still, tick_still by done|].
  destruct (ticks_running e r k) as [Er En]; [lia|].
  destruct (tick_running _ r (Z.of_nat k) ltac:(lia) Er En) as (_ & _ & ->). split; [done|].
  by replace (Z.of_nat (S k)) with (Z.of_nat k + 1) by lia.
Qed.

(** ** Turns *)

(** The element [j] has something to send. *)
Definition marked s (j : nat) : Prop := exists name e, nodes s !! j = Some (name, e) /\ to_send e = true.

(** How many elements are looked at before [j]. *)
Definition turn s (j : nat) : Z := (Z.of_nat j - last_sent s - 1) mod PoolMap.size (elements s).

Lemma size_nodes s : PoolMap.size (elements s) = Z.of_nat (length (nodes s)).
Proof. done. Qed.

Lemma to_check_range s i : nodes s <> [] -> 0 <= to_check s i < PoolMap.size (elements s).
Proof.
  intros Hn. apply Z.mod_pos_bound. rewrite size_nodes. destruct (nodes s); [done|]. cbn. lia.
Qed.

(** What the loop finds is the marked element whose turn is next. *)
Lemma first_to_send_spec n : forall i s k,
  first_to_send n i s = Some k -> 0 <= i ->
  marked s k /\ exists d, i <= d < i + Z.of_nat n /\ Z.of_nat k = to_check s d /\
    forall i', i <= i' < d -> ~ marked s (Z.to_nat (to_check s i')).
Proof.
  induction n as [|n IH]; intros i s k E Hi; [done|]. cbn [first_to_send] in E.
  destruct (nodes s !! Z.to_nat (to_check s i)) as [[name e]|] eqn:El; [|done].
  assert (Hn : nodes s <> []) by (intros Hn; by rewrite Hn in El).
  pose proof (to_check_range s i Hn). destruct (to_send e) eqn:Es.
  - injection E as <-. split; [by exists name, e|]. exists i. split_and!; lia.
  - destruct (IH (i + 1) s k E ltac:(lia)) as (Hm & d & Hd & Hk & Hno). split; [done|]. exists d.
    split_and!; [lia|lia|done|]. intros i' Hi'. destruct (Z.eq_dec i' i) as [->|]; [|apply Hno; lia].
    intros (name' & e' & E1 & E2). rewrite El in E1. injection E1 as <- <-. congruence.
Qed.

Lemma first_to_send_none n : forall i s,
  first_to_send n i s = None -> 0 <= i -> nodes s <> [] ->
  forall i', i <= i' < i + Z.of_nat n -> ~ marked s (Z.to_nat (to_check s i')).
Proof.
  induction n as [|n IH]; intros i s E Hi Hn i' Hi'; [lia|]. cbn [first_to_send] in E.
  pose proof (to_check_range s i Hn).
  destruct (nodes s !! Z.to_nat (to_check s i)) as [[name e]|] eqn:El.
  - destruct (to_send e) eqn:Es; [done|]. destruct (Z.eq_dec i' i) as [->|].
    + intros (name' & e' & E1 & E2). rewrite El in E1. injection E1 as <- <-. congruence.
    + apply (IH (i + 1)); done || lia.
  - apply lookup_ge_None in El. rewrite size_nodes in *. lia.
Qed.

Lemma marked_lt s j : marked s j -> (j < length (nodes s))%nat.
Proof. intros (name & e & E & _). by apply lookup_lt_Some in E. Qed.

Lemma turn_range s j : marked s j -> 0 <= turn s j < PoolMap.size (elements s).
Proof.
  intros Hm%marked_lt. apply Z.mod_pos_bound. rewrite size_nodes. lia.
Qed.

Lemma to_check_turn s j : marked s j -> to_check s (turn s j) = Z.of_nat j.
Proof.
  intros Hm%marked_lt. unfold to_check, turn. rewrite size_nodes. set (n := Z.of_nat (length (nodes s))).
  replace ((Z.of_nat j - last_sent s - 1) mod n + last_sent s + 1)
    with ((Z.of_nat j - last_sent s - 1) mod n + (last_sent s + 1)) by lia.
  rewrite Zplus_mod_idemp_l. rewrite Z.mod_small by lia. lia.
Qed.

(** Sending the element [k] brings every marked element that was not before it
    nearer. *)
Lemma turn_after s s' j k d :
  marked s j -> Z.of_nat k = to_check s d -> 0 <= d < turn s j ->
  last_sent s' = Z.of_nat k -> length (nodes s') = length (nodes s) ->
  turn s' j = turn s j - d - 1.
Proof.
  intros Hm Hk Hd Hl Hn. pose proof (turn_range s j Hm) as Ht. pose proof (to_check_turn s j Hm) as Hj.
  unfold turn at 1. rewrite Hl, Hk, <- Hj, !size_nodes, Hn. rewrite size_nodes in Ht.
  unfold to_check. rewrite size_nodes. set (n := Z.of_nat (length (nodes s))) in *.
  rewrite <- (Z.mod_small (turn s j - d - 1) n) by lia.
  set (A := turn s j + last_sent s + 1). set (B := d + last_sent s + 1).
  replace (A mod n - B mod n - 1) with (A mod n - (1 + B mod n)) by lia.
  rewrite Zminus_mod_idemp_l, Zminus_mod, Zplus_mod_idemp_r, <- Zminus_mod. f_equal. unfold A, B. lia.
Qed.

(** What every step does for a channel that waits, and for the flags. *)
Definition sent (out : list output) : list nat :=
  omap (fun o => match o with StartOperation i => Some i | _ => None end) out.
Definition released (out : list output) : nat :=
  length (List.filter (fun o => match o with Release => true | _ => false end) out).

Record keeps s s' : Prop := {
  keeps_marked j : marked s j -> marked s' j;
  keeps_last : last_sent s' = last_sent s;
  keeps_length : length (nodes s') = length (nodes s);
  keeps_flags : outstanding_write s' = outstanding_write s /\ write_release s' = write_release s;
}.

#[local] Instance keeps_preorder : PreOrder keeps.
Proof.
  split; [done|]. intros s1 s2 s3 [H1 H2 H3 [H4 H5]] [K1 K2 K3 [K4 K5]].
  constructor; [auto|congruence|congruence|split; congruence].
Qed.

Lemma keeps_update i f s : (forall e, to_send e = true -> to_send (f e) = true) -> keeps s (update i f s).
Proof.
  intros Hf. constructor; [|done|apply length_alter|done].
  intros j (name & e & E & Hs). unfold marked. cbn. fold (nodes s). destruct (decide (i = j)) as [->|Hij].
  - exists name, (f e). rewrite list_lookup_alter_eq, E. split; [done|auto].
  - exists name, e. by rewrite list_lookup_alter_ne.
Qed.

Lemma keeps_update_all f s : (forall e, to_send e = true -> to_send (f e) = true) -> keeps s (update_all f s).
Proof.
  intros Hf. constructor; [|done|apply length_map|done].
  intros j (name & e & E & Hs). exists name, (f e). split; [|auto]. cbn. fold (nodes s).
  by rewrite list_lookup_fmap, E.
Qed.

(** A step that starts nothing. *)
Definition tame (m : result) s : Prop := forall s' out,
  m = Done (s', out) -> keeps s s' /\ sent out = [] /\ released out = 0%nat.

Lemma tame_done s s' out : keeps s s' -> sent out = [] -> released out = 0%nat -> tame (Done (s', out)) s.
Proof. by intros Hk Hs Hr s1 o1 [= <- <-]. Qed.

Lemma tame_faulted f s : tame (Faulted f) s.
Proof. by intros s' out [=]. Qed.

Lemma Emit_tame s prefix name work r : tame (Emit s prefix name work r) s.
Proof.
  unfold Emit. destruct (emit_into _ _ _ _) as [[b d]|]; [|apply tame_faulted]. by apply tame_done.
Qed.

Lemma EmitData_tame s name e r : tame (EmitData s name e r) s.
Proof. unfold EmitData. destruct (text e); [by apply tame_done|apply Emit_tame]. Qed.

Lemma ListCallback_tame s : tame (ListCallback s 0) s.
Proof.
  unfold ListCallback. cbn [Z.eqb negb]. destruct (_ <=? _); [by apply tame_done|].
  destruct (nodes s !! _) as [[name e]|]; [|by apply tame_done].
  cbv zeta. destruct (store _ _ _) as [b|]; [|apply tame_faulted]. rewrite bind_done.
  destruct (load _ _ _) as [l|]; [|apply tame_faulted]. by apply tame_done.
Qed.

Lemma with_rate_marked r n e : to_send e = true -> to_send (with_rate r n e) = true.
Proof. done. Qed.
Lemma set_rate_marked r e : to_send e = true -> to_send (set_rate r e) = true.
Proof. unfold set_rate. by destruct (r =? 0), (r <? kMinRateMs). Qed.
Lemma tick_marked e : to_send e = true -> to_send (tick e) = true.
Proof. unfold tick. destruct (_ && _); [|done]. cbv zeta. by destruct (_ =? 0). Qed.

Lemma find_tame {A} (m : outcome A) (k : A -> result) s : (forall a, tame (k a) s) -> tame (mbind (M:=outcome) k m) s.
Proof. intros Hk. destruct m as [a|f]; [apply Hk|apply tame_faulted]. Qed.

(** A command that is not [stop]. *)
Definition is_stop (c : list byte) : bool :=
  bool_decide ((Tokenizer.next (Tokenizer.make c (text_of " "))).1 = text_of "stop").

Lemma tame_update i f s out :
  (forall e, to_send e = true -> to_send (f e) = true) -> sent out = [] -> released out = 0%nat ->
  tame (Done (update i f s, out)) s.
Proof. intros Hf Ho Hr. apply tame_done; [by apply keeps_update|done..]. Qed.

Lemma Command_tame s c id : is_stop c = false -> tame (Command long_bits s c id) s.
Proof.
  unfold is_stop, Command. destruct (Tokenizer.next _) as [cmd t]. cbn [fst]. intros Hs.
  apply bool_decide_eq_false in Hs.
  case_bool_decide. { unfold Get. destruct (find_element _ _) as [[i e]|]; [apply EmitData_tame|by apply tame_done]. }
  case_bool_decide. { intros s' out E. destruct (ListCallback_tame _ s' out E) as (Hk & Ho). split; [|exact Ho].
    etrans; [|exact Hk]. by constructor. }
  case_bool_decide. { unfold Schema. destruct (find_element _ _) as [[i e]|]; [apply Emit_tame|by apply tame_done]. }
  case_bool_decide.
  { unfold Rate. destruct (Tokenizer.next (Tokenizer.make _ _)) as [name t1].
    destruct (Tokenizer.next t1) as [arg t2]. destruct (find_element _ _) as [[i e]|]; [|by apply tame_done].
    apply find_tame. intros r. apply tame_update; [apply set_rate_marked|done..]. }
  case_bool_decide.
  { unfold Format. destruct (Tokenizer.next (Tokenizer.make _ _)) as [name t1].
    destruct (Tokenizer.next t1) as [arg t2]. destruct (find_element _ _) as [[i e]|]; [|by apply tame_done].
    apply find_tame. intros r. by apply tame_update. }
  rewrite bool_decide_false by done. case_bool_decide; [|by apply tame_done].
  apply tame_done; [by apply keeps_update_all|done..].
Qed.

(** ** Sending *)
Lemma MaybeStartSend_spec s :
  let '(s', out) := MaybeStartSend s in
  out = [] /\ s' = s /\ (outstanding_write s = true \/ forall j, ~ marked s j) \/
  exists k, out = [StartOperation k] /\ outstanding_write s = false /\ outstanding_write s' = true /\
    write_release s' = write_release s /\
    forall j, marked s j -> j = k \/ marked s' j /\ turn s' j < turn s j.
Proof.
  unfold MaybeStartSend. destruct (outstanding_write s) eqn:Eo; [by left; split_and!; [..|left]|].
  destruct (first_to_send (length (nodes s)) 0 s) as [k|] eqn:Ef.
  - right. exists k. split_and!; try done. intros j Hj.
    destruct (first_to_send_spec _ _ _ _ Ef ltac:(lia)) as ((name & e & Ek & _) & d & Hd & Hk & Hno).
    destruct (decide (j = k)) as [|Hjk]; [by left|]. right.
    pose proof (turn_range s j Hj) as Ht. pose proof (to_check_turn s j Hj) as Hc.
    assert (Hd' : d < turn s j).
    { destruct (Z.lt_trichotomy d (turn s j)) as [|[->|Hlt]]; [done|lia|]. exfalso.
      apply (Hno (turn s j)); [lia|]. by rewrite Hc, Nat2Z.id. }
    split.
    + destruct Hj as (name' & e' & E & Hs). exists name', e'. split; [|done]. cbn. fold (nodes s).
      by rewrite list_lookup_alter_ne.
    + set (s' := with_last _ _). assert (Hl : length (nodes s') = length (nodes s)) by apply length_alter.
      rewrite (turn_after s s' j k d Hj Hk); [lia|lia|done|done].
  - left. split_and!; try done. right. intros j Hj. pose proof (turn_range s j Hj) as Ht.
    assert (Hn : nodes s <> []) by (intros Hn; apply marked_lt in Hj; rewrite Hn in Hj; cbn in Hj; lia).
    apply (first_to_send_none _ _ _ Ef ltac:(lia) Hn (turn s j)); [rewrite size_nodes in Ht; lia|].
    by rewrite (to_check_turn s j Hj), Nat2Z.id.
Qed.

(** ** Traces *)
Inductive event :=
  | EPoll
  | EUpdate (i : nat)
  | ERun (i : nat)
  | ECommand (c : list byte) (id : Z)
  | EComplete (r : response) (next : continuation) (error : Z).

Definition step s (e : event) : result :=
  match e with
  | EPoll => Done (PollMillisecond s)
  | EUpdate i => Done (UpdateItem i s)
  | ERun i => RunOperation i s
  | ECommand c id => Command long_bits s c id
  | EComplete r next error => Complete s r next error
  end.

Fixpoint run s (es : list event) : result :=
  match es with
  | [] => Done (s, [])
  | e :: es => '(s, out) ← step s e; '(s, more) ← run s es; Done (s, out ++ more)
  end.

Definition no_stop (e : event) : Prop := match e with ECommand c _ => is_stop c = false | _ => True end.

(** What a step does for the channel [j]. *)
Definition serves_turn s s' (out : list output) (j : nat) : Prop :=
  j ∈ sent out \/ marked s' j /\ Z.of_nat (length (sent out)) + turn s' j <= turn s j.

Lemma keeps_turn s s' j : keeps s s' -> turn s' j = turn s j.
Proof. intros [_ Hl Hn _]. unfold turn. by rewrite Hl, !size_nodes, Hn. Qed.

Lemma tame_turn (m : result) s s' out j : tame m s -> m = Done (s', out) -> marked s j -> serves_turn s s' out j.
Proof.
  intros Hm E Hj. destruct (Hm s' out E) as (Hk & Hs & _). right. rewrite Hs, (keeps_turn s s' j Hk). cbn.
  split; [by apply Hk|lia].
Qed.

Lemma send_turn s0 s j :
  keeps s0 s -> marked s j -> let '(s', out) := MaybeStartSend s in serves_turn s0 s' out j.
Proof.
  intros Hk Hj. pose proof (MaybeStartSend_spec s) as Hs. destruct (MaybeStartSend s) as [s' out].
  unfold serves_turn. rewrite <- (keeps_turn s0 s j Hk).
  destruct Hs as [(-> & -> & _)|(k & -> & _ & _ & _ & Hm)]; cbn; [right; split; [done|lia]|].
  destruct (Hm j Hj) as [->|[Hj' Ht]]; [left; by constructor|right; split; [done|lia]].
Qed.

Lemma RunOperation_tame i s :
  forall s' out, RunOperation i s = Done (s', out) ->
  (forall j, marked s j -> marked s' j) /\ last_sent s' = last_sent s /\ length (nodes s') = length (nodes s) /\
  outstanding_write s' = outstanding_write s /\ write_release s' = true /\
  sent out = [] /\ released out = 0%nat.
Proof.
  intros s' out E. unfold RunOperation in E. destruct (nodes s !! i) as [[name e]|]; [|done].
  destruct (EmitData_tame _ _ _ _ _ _ E) as ([Hm Hl Hn [Ho Hr]] & Hs & Hre). by split_and!.
Qed.

Lemma Responded_turn s r error s' out j :
  Responded s r error = Done (s', out) -> marked s j -> serves_turn s s' out j.
Proof.
  intros E Hj. right. destruct r as [id|]; cbn in E.
  - injection E as <- <-. cbn. split; [done|lia].
  - unfold ActualRelease in E. destruct (write_release s); [|done]. injection E as <- <-.
    split; [exact Hj|]. cbn. unfold turn. cbn. lia.
Qed.

Lemma step_turn s (e : event) s' out j :
  no_stop e -> step s e = Done (s', out) -> marked s j -> serves_turn s s' out j.
Proof.
  intros Hn E Hj. destruct e as [|i|i|c id|r nx error]; cbn [step] in E.
  - injection E as E. unfold PollMillisecond in E.
    pose proof (send_turn s (update_all tick s) j (keeps_update_all _ _ tick_marked)) as Hs.
    rewrite E in Hs. apply Hs. by apply (keeps_update_all _ _ tick_marked).
  - injection E as E. unfold UpdateItem in E. destruct (nodes s !! i) as [[name e]|];
      [destruct (rate e =? 1)|]; try (injection E as <- <-; right; cbn; split; [done|lia]).
    assert (Hk : keeps s (update i (with_to_send true) s)) by by apply keeps_update.
    pose proof (send_turn s _ j Hk) as Hs. rewrite E in Hs. apply Hs. by apply Hk.
  - destruct (RunOperation_tame _ _ _ _ E) as (Hm & Hl & Hlen & _ & _ & Ho & _). right. rewrite Ho. cbn.
    split; [auto|]. unfold turn. rewrite Hl, !size_nodes, Hlen. lia.
  - by apply (tame_turn _ _ _ _ _ (Command_tame s c id Hn) E).
  - destruct nx; cbn [Complete] in E.
    + by apply (Responded_turn s r error).
    + destruct (Z.eqb_spec error 0) as [->|He].
      * by apply (tame_turn _ _ _ _ _ (ListCallback_tame s) E).
      * unfold ListCallback in E. rewrite (proj2 (Z.eqb_neq error 0)) in E by done. cbn [negb] in E.
        by apply (Responded_turn s (current_response s) error).
    + injection E as <- <-. right. cbn. split; [done|lia].
Qed.

Lemma sent_app out more : sent (out ++ more) = sent out ++ sent more.
Proof. apply omap_app. Qed.

Lemma run_turn es : forall s s' out j,
  Forall no_stop es -> run s es = Done (s', out) -> marked s j -> serves_turn s s' out j.
Proof.
  induction es as [|e es IH]; intros s s' out j Hn E Hj; cbn [run] in E.
  - injection E as <- <-. right. cbn. split; [done|lia].
  - apply Forall_cons_1 in Hn as [Hne Hn]. apply bind_done_inv in E as ([s1 o1] & E1 & E).
    apply bind_done_inv in E as ([s2 o2] & E2 & [= <- <-]). unfold serves_turn. rewrite sent_app.
    destruct (step_turn s e s1 o1 j Hne E1 Hj) as [Hin|[Hj1 Ht1]]; [left; apply elem_of_app; by left|].
    destruct (IH s1 s2 o2 j Hn E2 Hj1) as [Hin|[Hj2 Ht2]]; [left; apply elem_of_app; by right|].
    right. rewrite length_app. split; [done|lia].
Qed.

(** *** One at a time *)

(** An operation runs once the write stream is given to it, after it was
    started and before it relinquishes the stream. *)
Definition proper s (e : event) : Prop :=
  match e with ERun _ => outstanding_write s = true /\ write_release s = false | _ => True end.

Fixpoint obeys s (es : list event) : Prop :=
  match es with
  | [] => True
  | e :: es => proper s e /\ forall s' out, step s e = Done (s', out) -> obeys s' es
  end.

Definition properb s (e : event) : bool :=
  match e with ERun _ => outstanding_write s && negb (write_release s) | _ => true end.

Fixpoint obeysb s (es : list event) : bool :=
  match es with
  | [] => true
  | e :: es => properb s e && match step s e with Done (s', _) => obeysb s' es | Faulted _ => true end
  end.

Lemma obeys_bool es : forall s, obeysb s es = true -> obeys s es.
Proof.
  induction es as [|e es IH]; intros s E; [done|]. cbn [obeysb] in E. apply andb_true_iff in E as [Ee E].
  split; [|intros s' out Es; rewrite Es in E; by apply IH].
  destruct e as [| |i| |]; try done. apply andb_true_iff in Ee as [Ho Hr]. split; [done|by apply negb_true_iff].
Qed.

Definition busy s : nat := if outstanding_write s then 1 else 0.

(** Started and relinquished, over a step. *)
Definition balanced s s' (out : list output) : Prop :=
  (length (sent out) + busy s = released out + busy s')%nat /\
  (write_release s' = true -> outstanding_write s' = true).

Lemma released_app out more : released (out ++ more) = (released out + released more)%nat.
Proof. unfold released. by rewrite List.filter_app, length_app. Qed.

Lemma tame_balanced (m : result) s s' out :
  (write_release s = true -> outstanding_write s = true) -> tame m s -> m = Done (s', out) -> balanced s s' out.
Proof.
  intros Hw Hm E. destruct (Hm s' out E) as ([_ _ _ [Ho Hr]] & Hs & Hre). unfold balanced, busy.
  by rewrite Hs, Hre, Ho, Hr.
Qed.

Lemma send_balanced s0 s :
  (write_release s0 = true -> outstanding_write s0 = true) -> keeps s0 s ->
  let '(s', out) := MaybeStartSend s in balanced s0 s' out.
Proof.
  intros Hw [_ _ _ [Ho Hr]]. pose proof (MaybeStartSend_spec s) as Hs. destruct (MaybeStartSend s) as [s' out].
  unfold balanced, busy. rewrite <- Ho, <- Hr in *.
  destruct Hs as [(-> & -> & _)|(k & -> & -> & -> & _)]; by split.
Qed.

Lemma Responded_balanced s r error s' out :
  (write_release s = true -> outstanding_write s = true) ->
  Responded s r error = Done (s', out) -> balanced s s' out.
Proof.
  intros Hw E. destruct r as [id|]; cbn in E; [by injection E as <- <-|].
  unfold ActualRelease in E. destruct (write_release s) eqn:Er; [|done]. injection E as <- <-.
  unfold balanced, busy. by rewrite (Hw eq_refl).
Qed.

Lemma step_balanced s (e : event) s' out :
  (write_release s = true -> outstanding_write s = true) -> proper s e ->
  step s e = Done (s', out) -> balanced s s' out.
Proof.
  intros Hw Hp E. destruct e as [|i|i|c id|r nx error]; cbn [step] in E.
  - injection E as E. pose proof (send_balanced s (update_all tick s) Hw (keeps_update_all _ _ tick_marked)) as Hs.
    unfold PollMillisecond in E. by rewrite E in Hs.
  - injection E as E. unfold UpdateItem in E. destruct (nodes s !! i) as [[name e]|];
      [destruct (rate e =? 1)|]; try (by injection E as <- <-).
    assert (Hk : keeps s (update i (with_to_send true) s)) by by apply keeps_update.
    pose proof (send_balanced s _ Hw Hk) as Hs. by rewrite E in Hs.
  - destruct (RunOperation_tame _ _ _ _ E) as (_ & _ & _ & Ho & Hr & Hs & Hre). destruct Hp as [Hp _].
    unfold balanced, busy. by rewrite Hs, Hre, Ho, Hr, Hp.
  - destruct (is_stop c) eqn:Ec; [|by apply (tame_balanced _ _ _ _ Hw (Command_tame s c id Ec))].
    unfold is_stop, Command in *. destruct (Tokenizer.next _) as [cmd t]. cbn [fst] in Ec.
    apply bool_decide_eq_true in Ec as ->. by injection E as <- <-.
  - destruct nx; cbn [Complete] in E.
    + by apply (Responded_balanced s r error).
    + destruct (Z.eqb_spec error 0) as [->|He].
      * by apply (tame_balanced _ _ _ _ Hw (ListCallback_tame s)).
      * unfold ListCallback in E. rewrite (proj2 (Z.eqb_neq error 0)) in E by done. cbn [negb] in E.
        by apply (Responded_balanced s (current_response s) error).
    + by injection E as <- <-.
Qed.

Lemma run_balanced es : forall s s' out,
  (write_release s = true -> outstanding_write s = true) -> obeys s es ->
  run s es = Done (s', out) -> balanced s s' out.
Proof.
  induction es as [|e es IH]; intros s s' out Hw Ho E; cbn [run] in E; [by injection E as <- <-|].
  destruct Ho as [Hp Ho]. apply bind_done_inv in E as ([s1 o1] & E1 & E).
  apply bind_done_inv in E as ([s2 o2] & E2 & [= <- <-]).
  destruct (step_balanced s e s1 o1 Hw Hp E1) as [Hn1 Hw1].
  destruct (IH s1 s2 o2 Hw1 (Ho _ _ E1) E2) as [Hn2 Hw2]. split; [|exact Hw2].
  rewrite sent_app, released_app, length_app. lia.
Qed.

(** C29: every channel gets its turn.  A channel with something to send waits for
    fewer records than there are channels, whatever polls, updates, commands
    (but [stop]) and completions come in whatever order; and when no record is
    in progress, a poll starts one if any channel is waiting. *)
Theorem every_channel_gets_its_turn s es s' out j :
  Forall no_stop es -> run s es = Done (s', out) -> marked s j ->
  0 <= turn s j < PoolMap.size (elements s) /\
  (turn s j < Z.of_nat (length (sent out)) -> j ∈ sent out) /\
  (outstanding_write s = false -> exists k, (PollMillisecond s).2 = [StartOperation k]).
Proof.
  intros Hn E Hj. split; [by apply turn_range|]. split.
  - intros Hl. destruct (run_turn es s s' out j Hn E Hj) as [|[Hj' Ht]]; [done|].
    pose proof (turn_range s' j Hj'). lia.
  - intros Ho. unfold PollMillisecond. set (s1 := update_all tick s).
    pose proof (MaybeStartSend_spec s1) as Hs. destruct (MaybeStartSend s1) as [s2 o2].
    destruct Hs as [(-> & -> & [Hb|Hno])|(k & -> & _)]; [|exfalso|by exists k].
    + exfalso. change (outstanding_write s1) with (outstanding_write s) in Hb. congruence.
    + apply (Hno j). by apply (keeps_update_all _ _ tick_marked).
Qed.

(** C34: one record at a time.  As long as an operation runs only after it was
    started and until it relinquishes the write stream, whatever else happens
    in between: of the operations that were started all but the one in progress
    have relinquished the stream, once each, and the callback that relinquishes
    it is there only while one is in progress. *)
Theorem one_record_at_a_time (buffer : list byte) (m : PoolMap.t Element) es s' out :
  obeys (with_elements m (make buffer)) es -> run (with_elements m (make buffer)) es = Done (s', out) ->
  length (sent out) = (released out + if outstanding_write s' then 1 else 0)%nat /\
  (write_release s' = true -> outstanding_write s' = true).
Proof.
  intros Ho E. destruct (run_balanced es (with_elements m (make buffer)) s' out ltac:(done) Ho E) as [Hn Hw].
  split; [|exact Hw]. unfold busy at 1 in Hn. cbn in Hn. unfold busy in Hn. lia.
Qed.

(** ** The arguments of a command *)
Definition word (w : list byte) : Prop := Forall (fun c => Tokenizer.is_delimiter (text_of " ") c = false) w.
Definition space : byte := byte.of_Z 32.

Lemma next_delimiters (t : Tokenizer.t) : Tokenizer.delimiters (Tokenizer.next t).2 = Tokenizer.delimiters t.
Proof. unfold Tokenizer.next. by repeat case_match. Qed.

(** The last word of a line. *)
Lemma next_last (t : Tokenizer.t) :
  Tokenizer.ok t -> Tokenizer.delimiters t = text_of " " -> word (Tokenizer.remaining t) ->
  (Tokenizer.next t).1 = Tokenizer.remaining t.
Proof.
  intros Hok Hd Hw. pose proof (Tokenizer.next_spec t Hok) as Hs. destruct (Tokenizer.next t) as [w t'].
  cbn [fst]. destruct Hs as [_ [[-> _]|(c & Hc & E)]]; [done|]. exfalso. rewrite Hd in Hc. rewrite E in Hw.
  apply list.Forall_app in Hw as [_ Hw]. apply Forall_cons_1 in Hw as [Hw _]. congruence.
Qed.

(** A word, a space and the rest. *)
Lemma next_first w rest :
  word w -> exists t, Tokenizer.next (Tokenizer.make (w ++ space :: rest) (text_of " ")) = (w, t) /\
    Tokenizer.remaining t = rest /\ Tokenizer.ok t /\ Tokenizer.delimiters t = text_of " ".
Proof.
  intros Hw. destruct (Tokenizer.next_token (text_of " ") w space rest Hw) as (t & E & R); [done|].
  exists t. split; [exact E|]. split; [exact R|].
  assert (Et : t = (Tokenizer.next (Tokenizer.make (w ++ space :: rest) (text_of " "))).2) by by rewrite E.
  rewrite Et. split; [|by rewrite next_delimiters]. apply Tokenizer.next_ok.
  unfold Tokenizer.ok. cbn. pose proof (zlen_nonneg (w ++ space :: rest)). lia.
Qed.

Lemma parse_number_spec size arg :
  0 <= size -> parse_number long_bits size arg =
  if zlen arg <? size - 1
  then Done (strtol long_bits (arg ++ replicate (Z.to_nat (size - zlen arg)) (byte.of_Z 0)))
  else Faulted Assertion.
Proof.
  intros Hs. unfold parse_number. destruct (Z.ltb_spec (zlen arg) (size - 1)); [|done].
  cbn [mj_assert]. pose proof (zlen_nonneg arg). rewrite bind_done, store_done;
    [|lia|rewrite zlen_replicate; lia].
  rewrite bind_done. do 2 f_equal. change (ztake 0 _) with (@nil byte). cbn [app]. f_equal.
  unfold zdrop. rewrite drop_replicate. f_equal. lia.
Qed.

(** What [rate] and [fmt] make of their arguments.  A number of up to 22
    characters, 3 for [fmt], is read as [strtol] reads it, a missing or
    unreadable one as 0, and sets the channel that is named; a longer argument
    aborts the program. *)
Theorem number_arguments s name arg id i e :
  word name -> word arg -> find_element s name = Some (i, e) ->
  let number size := strtol long_bits (arg ++ replicate (Z.to_nat (size - zlen arg)) (byte.of_Z 0)) in
  Command long_bits s (text_of "rate " ++ name ++ space :: arg) id =
    (if zlen arg <? 23
     then Done (update i (set_rate (number 24)) s, WriteOK (RCommand id)) else Faulted Assertion) /\
  Command long_bits s (text_of "fmt " ++ name ++ space :: arg) id =
    (if zlen arg <? 4
     then Done (update i (with_text (negb (number 5 =? 0))) s, WriteOK (RCommand id)) else Faulted Assertion).
Proof.
  intros Hn Ha Hf number. unfold Command.
  destruct (next_first (text_of "rate") (name ++ space :: arg)) as (t & E & R & _); [by apply Tokenizer.word_bool|].
  change (text_of "rate " ++ name ++ space :: arg) with (text_of "rate" ++ space :: name ++ space :: arg).
  rewrite E, R. clear E R t.
  destruct (next_first (text_of "fmt") (name ++ space :: arg)) as (t & E & R & _); [by apply Tokenizer.word_bool|].
  change (text_of "fmt " ++ name ++ space :: arg) with (text_of "fmt" ++ space :: name ++ space :: arg).
  rewrite E, R. clear E R t.
  destruct (next_first name arg Hn) as (t & E & R & Hok & Hd).
  pose proof (next_last t Hok Hd) as Hl. rewrite R in Hl. specialize (Hl Ha).
  destruct (Tokenizer.next t) as [w t'] eqn:Et. cbn [fst] in Hl. subst w.
  split; (repeat (rewrite bool_decide_false by done)); (rewrite bool_decide_true by done);
    [unfold Rate|unfold Format]; rewrite E, Et, Hf, parse_number_spec by lia; subst number; cbn beta;
    [change (24 - 1) with 23|change (5 - 1) with 4]; by destruct (zlen arg <? _).
Qed.
End telemetry.

(** ** An example: two channels *)
#[local] Instance no_text : TextArchives := {|
  SetArchive _ vs _ _ := Done (false, vs);
  ReadArchive _ _ _ buffer := Done (false, buffer, []) |}.

Definition channel_class : fields := match demo_class with TObject fs => fs | _ => FNil end.
Definition channel : Element (T := SerializableHandler) :=
  new_element {| item_class := channel_class; item := default_fields channel_class |}.
Definition channels : PoolMap.t Element :=
  {| PoolMap.data := [(text_of "imu", channel); (text_of "servo", channel)]; PoolMap.max_size := kMaxElements |}.
Definition station : State (T := SerializableHandler) :=
  with_elements channels (make (replicate 200 (byte.of_Z 0))).

(** Both channels are sent at every update, and do not wait. *)
Definition configure : list event :=
  [ECommand (text_of "rate imu 5") 1; ECommand (text_of "rate servo 5") 2; EUpdate 0; EUpdate 1].
Definition send (i : nat) : list event := [ERun i; EComplete RTelemetry Respond 0; EPoll].

Lemma rate_is_period_witness :
  in_s 32 20 /\ to_send (tick (with_to_send false (Nat.iter 19 tick (set_rate 20 channel)))) = true.
Proof.
  split; [unfold in_s; lia|].
  refine (eq_trans (proj2 (rate_is_period 20 channel 19 _)) eq_refl). unfold in_s. lia.
Defined.

(** The state after the events, and what they put out; nothing when they
    abort. *)
Definition after (s : State) (es : list event) : State * list output :=
  match run 64 s es with Done r => r | Faulted _ => (s, []) end.

Lemma every_channel_gets_its_turn_witness :
  let s := (after station configure).1 in
  let out := (after s (send 0 ++ send 1)).2 in
  turn s 1 = 0 /\ sent out = [1%nat] /\ 1%nat ∈ sent out.
Proof.
  intros s out. split; [by vm_compute|]. split; [by vm_compute|].
  refine (proj1 (proj2 (every_channel_gets_its_turn 64 s (send 0 ++ send 1)
    (after s (send 0 ++ send 1)).1 out 1 _ _ _)) _).
  - by repeat constructor.
  - by vm_compute.
  - exists (text_of "servo"). eexists. split; by vm_compute.
  - by vm_compute.
Defined.

Lemma one_record_at_a_time_witness :
  let r := after station (configure ++ send 0) in
  sent r.2 = [0%nat; 1%nat] /\ released r.2 = 1%nat /\ outstanding_write r.1 = true /\
  length (sent r.2) = (released r.2 + 1)%nat.
Proof.
  intros r. split_and!; [by vm_compute..|].
  refine (proj1 (one_record_at_a_time 64 (replicate 200 (byte.of_Z 0)) channels
    (configure ++ send 0) r.1 r.2 _ _)).
  - by apply obeys_bool; vm_compute.
  - by vm_compute.
Defined.

Lemma number_arguments_witness :
  Command 64 station (text_of "rate imu 0x19") 7 = Done (update 0 (set_rate 25) station, WriteOK (RCommand 7)) /\
  Command 64 station (text_of "rate imu 00000000000000000000025") 7 = Faulted Assertion.
Proof.
  split.
  - refine (eq_trans (proj1 (number_arguments 64 station (text_of "imu") (text_of "0x19") 7 0 channel _ _ _)) _);
      [by apply Tokenizer.word_bool|by apply Tokenizer.word_bool|by vm_compute|by vm_compute].
  - refine (eq_trans (proj1 (number_arguments 64 station (text_of "imu")
      (text_of "00000000000000000000025") 7 0 channel _ _ _)) _);
      [by apply Tokenizer.word_bool|by apply Tokenizer.word_bool|by vm_compute|by vm_compute].
Defined.
