(* ===== verification/FileWriter.v ===== *)
(** * telemetry/file_writer.cc: writing a log

    [FileWriter::Impl] with the buffers and the queue of base/thread_writer.h
    it writes through.  The background thread of [ThreadWriter] is a step
    ([ThreadWriter.WriteFront]) that may happen between any two calls.  The
    compression (snappy), the checksum (boost) and the arithmetic of points in
    time (boost) are parameters. *)
From stdpp Require Import gmap sorting countable.
From S2P Require Import Prelude Varuint Streams TimeConversions TelemetryFormat.
#[local] Open Scope Z_scope.

#[export] Program Instance byte_countable : Countable byte :=
  inj_countable Strings.Byte.to_N Strings.Byte.of_N _.
Next Obligation. apply Strings.Byte.of_to_N. Qed.

(** Points in time as the log compares them; snappy's interface. *)
Class LogClock `{BoostTime} := {
  is_not_a_date_time : ptime -> bool;
  ptime_leb : ptime -> ptime -> bool;
  (** [(a - b) >= period] *)
  elapsed : duration -> ptime -> ptime -> bool;
}.

Class Snappy := {
  MaxCompressedLength : Z -> Z;
  RawCompress : list byte -> list byte;
  GetUncompressedLength : list byte -> option Z;
  RawUncompress : list byte -> option (list byte);
}.

(** ** [ThreadWriter::OStream]: a stream with room in front of its data *)
Module OStream.

Record t := { data : FastOStringStream.vector; start : Z }.

Definition empty : t := {| data := FastOStringStream.empty; start := 0 |}.

Definition size (o : t) : Z := FastOStringStream.v_size (data o) - start o.
Definition base (o : t) : list byte := FastOStringStream.v_base (data o).
Definition set_start (start : Z) (o : t) : t := {| data := data o; start := start |}.
Definition set_base (b : list byte) (o : t) : t :=
  {| data := {| FastOStringStream.v_size := FastOStringStream.v_size (data o);
                FastOStringStream.v_base := b |}; start := start o |}.

Definition write (o : t) (d : list byte) : outcome t :=
  v ← FastOStringStream.write (data o) d;
  Done {| data := v; start := start o |}.

#[global] Instance write_stream : WriteStream t := {| ws_write := write |}.

(** What is written out of it. *)
Definition content (o : t) : list byte := zdrop (start o) (FastOStringStream.str (data o)).
End OStream.

(** ** base/thread_writer.h *)
Module ThreadWriter.

(** [fd] is what was given to [fwrite]. *)
Record t := { position : Z; data : list OStream.t; fd : list byte }.

Definition make : t := {| position := 0; data := []; fd := [] |}.

Definition Write (w : t) (buffer : OStream.t) : t :=
  {| position := position w + OStream.size buffer; data := data w ++ [buffer]; fd := fd w |}.

(** [WriteFront]: [fwrite] of no bytes returns 0, which is taken for an
    error.  The buffer is handed back. *)
Definition WriteFront (w : t) : outcome (t * option OStream.t) :=
  match data w with
  | [] => Done (w, None)
  | buffer :: rest =>
      bs ← load (OStream.base buffer) (OStream.start buffer) (OStream.size buffer);
      _ ← mj_assert (negb (zlen bs =? 0));
      Done ({| position := position w; data := rest; fd := fd w ++ bs |}, Some buffer)
  end.

(** [WriteAll], which the destructor ends with. *)
Fixpoint WriteAll_loop (n : nat) (w : t) : outcome t :=
  match n with
  | O => Done w
  | S n => '(w, _) ← WriteFront w; WriteAll_loop n w
  end.
Definition WriteAll (w : t) : outcome t := WriteAll_loop (length (data w)) w.
End ThreadWriter.

(** A [std::map] in the order of its keys. *)
Definition key_le {A} (a b : Z * A) : Prop := a.1 <= b.1.
#[export] Instance key_le_dec {A} : RelDecision (@key_le A).
Proof. intros a b. unfold key_le. apply _. Defined.
Definition in_order {A} (m : gmap Z A) : list (Z * A) := merge_sort key_le (map_to_list m).

(** ** [FileWriter::Impl] *)
Module FileWriter.
Section FileWriter.
Context `{CrcType} `{LogClock} `{Snappy}.

Definition kBufferStartPadding : Z := 32.

(** [Override] *)
Record Override := { require : bool; disable : bool }.
Definition evaluate (o : Override) (default_value : bool) : bool :=
  if require o then true else if disable o then false else default_value.

Record WriteFlags := { compression : Override; checksum_ : Override }.

(** [seek_blocks] is [seek_block_period_s != 0.0]. *)
Record Options := {
  write_previous_offsets : bool;
  default_compression : bool;
  default_checksum_data : bool;
  index_block : bool;
  seek_blocks : bool;
  seek_block_period : duration;
  timestamps_system : bool;
}.

(** [schema_position] has no initialiser: a record made by the default
    constructor has none. *)
Record SchemaRecord := {
  name : list byte;
  identifier : Z;
  block_schema_flags : Z;
  schema : list byte;
  schema_position : option Z;
  last_position : Z;
}.
Definition default_record : SchemaRecord :=
  {| name := []; identifier := 0; block_schema_flags := 0; schema := [];
     schema_position := None; last_position := -1 |}.
Definition set_last (p : Z) (r : SchemaRecord) : SchemaRecord :=
  {| name := name r; identifier := identifier r; block_schema_flags := block_schema_flags r;
     schema := schema r; schema_position := schema_position r; last_position := p |}.

Record State := {
  options : Options;
  writer : option ThreadWriter.t;
  identifier_map : gmap (list byte) Z;
  reverse_identifier_map : gmap Z (list byte);
  next_id : Z;
  buffers : list OStream.t;
  schemas : gmap Z SchemaRecord;
  last_seek_block : ptime;
}.

Definition make (o : Options) : State :=
  {| options := o; writer := None; identifier_map := ∅; reverse_identifier_map := ∅;
     next_id := 1; buffers := []; schemas := ∅; last_seek_block := not_a_date_time |}.

Definition with_writer (w : option ThreadWriter.t) (s : State) : State :=
  {| options := options s; writer := w; identifier_map := identifier_map s;
     reverse_identifier_map := reverse_identifier_map s; next_id := next_id s;
     buffers := buffers s; schemas := schemas s; last_seek_block := last_seek_block s |}.
Definition with_names (m : gmap (list byte) Z) (r : gmap Z (list byte)) (n : Z) (s : State) : State :=
  {| options := options s; writer := writer s; identifier_map := m;
     reverse_identifier_map := r; next_id := n;
     buffers := buffers s; schemas := schemas s; last_seek_block := last_seek_block s |}.
Definition with_buffers (b : list OStream.t) (s : State) : State :=
  {| options := options s; writer := writer s; identifier_map := identifier_map s;
     reverse_identifier_map := reverse_identifier_map s; next_id := next_id s;
     buffers := b; schemas := schemas s; last_seek_block := last_seek_block s |}.
Definition with_schemas (m : gmap Z SchemaRecord) (s : State) : State :=
  {| options := options s; writer := writer s; identifier_map := identifier_map s;
     reverse_identifier_map := reverse_identifier_map s; next_id := next_id s;
     buffers := buffers s; schemas := m; last_seek_block := last_seek_block s |}.
Definition with_seek (t : ptime) (s : State) : State :=
  {| options := options s; writer := writer s; identifier_map := identifier_map s;
     reverse_identifier_map := reverse_identifier_map s; next_id := next_id s;
     buffers := buffers s; schemas := schemas s; last_seek_block := t |}.

(** *** Identifiers *)

(** The search for one that is not used: [n] taken ones are passed over after
    at most [n] steps. *)
Fixpoint unused_id (fuel : nat) (taken : gmap Z (list byte)) (next : Z) : outcome Z :=
  match fuel with
  | O => Faulted OutOfFuel
  | S fuel =>
      match taken !! next with
      | Some _ => unused_id fuel taken (u64 (next + 1))
      | None => Done next
      end
  end.

Definition AllocateIdentifier (s : State) (record_name : list byte) : outcome (Z * State) :=
  match identifier_map s !! record_name with
  | Some id => Done (id, s)
  | None =>
      result ← unused_id (S (size (reverse_identifier_map s))) (reverse_identifier_map s) (next_id s);
      Done (result, with_names (<[record_name := result]> (identifier_map s))
                               (<[result := record_name]> (reverse_identifier_map s))
                               (u64 (result + 1)) s)
  end.

(** A name that has another identifier already is a failure ([base::Fail]
    aborts). *)
Definition ReserveIdentifier (s : State) (record_name : list byte) (identifier : Z)
    : outcome (bool * State) :=
  match identifier_map s !! record_name with
  | Some id => if id =? identifier then Done (true, s) else Faulted Assertion
  | None =>
      match reverse_identifier_map s !! identifier with
      | Some _ => Done (false, s)
      | None =>
          Done (true, with_names (<[record_name := identifier]> (identifier_map s))
                                 (<[identifier := record_name]> (reverse_identifier_map s))
                                 (next_id s) s)
      end
  end.

(** *** Buffers *)
Definition Reclaim (buffer : OStream.t) (s : State) : State :=
  with_buffers (buffers s ++ [buffer]) s.

Definition GetBuffer (s : State) : OStream.t * State :=
  let '(result, s) :=
    match list.last (buffers s) with
    | None => (OStream.empty, s)
    | Some b => (b, with_buffers (removelast (buffers s)) s)
    end in
  ({| OStream.data := FastOStringStream.vector_resize (OStream.data result) kBufferStartPadding;
      OStream.start := kBufferStartPadding |}, s).

(** The background thread writes a buffer out and gives it back. *)
Definition BackgroundWrite (s : State) : outcome State :=
  match writer s with
  | None => Done s
  | Some w =>
      '(w, buffer) ← ThreadWriter.WriteFront w;
      let s := with_writer (Some w) s in
      Done match buffer with Some b => Reclaim b s | None => s end
  end.

(** [Write] *)
Definition Write (buffer : OStream.t) (s : State) : State :=
  match writer s with
  | None => s
  | Some w => with_writer (Some (ThreadWriter.Write w buffer)) s
  end.

Definition position (s : State) : Z :=
  match writer s with None => 0 | Some w => ThreadWriter.position w end.

(** A [BufferWriteStream] over [n] bytes of the buffer at [i], written by [f]. *)
Definition with_span (i n : Z) (f : BufferWriteStream.t -> outcome BufferWriteStream.t)
    (buffer : OStream.t) : outcome OStream.t :=
  span ← load (OStream.base buffer) i n;
  stream ← f (BufferWriteStream.make span);
  b ← store (OStream.base buffer) i (BufferWriteStream.buffer stream);
  Done (OStream.set_base b buffer).

(** *** Blocks *)
Definition WriteBlock_header (block_type data_size : Z) (stream : BufferWriteStream.t)
    : outcome BufferWriteStream.t :=
  stream ← TelemetryWriter.WriteVaruint stream block_type;
  TelemetryWriter.WriteVaruint stream data_size.

(** [WriteBlock] of a buffer: the type and the size go in front of the data. *)
Definition WriteBlock (block_type : Z) (buffer : OStream.t) (s : State) : outcome State :=
  match writer s with
  | None => Done s
  | Some _ =>
      let data_size := OStream.size buffer in
      size_size ← GetVaruintSize data_size;
      let block_size := 1 + size_size in
      let start := OStream.start buffer - block_size in
      buffer' ← with_span start block_size (WriteBlock_header block_type data_size) buffer;
      _ ← mj_assert (block_size <=? OStream.start buffer);
      Done (Write (OStream.set_start start buffer') s)
  end.

(** [WriteBlock] of a string. *)
Definition WriteBlock_view (block_type : Z) (data : list byte) (s : State) : outcome State :=
  match writer s with
  | None => Done s
  | Some _ =>
      let '(buffer, s) := GetBuffer s in
      buffer ← TelemetryWriter.WriteVaruint buffer block_type;
      buffer ← TelemetryWriter.WriteVaruint buffer (zlen data);
      buffer ← TelemetryWriter.RawWrite buffer data;
      Done (Write buffer s)
  end.

Definition WriteSchema (id : Z) (schema : list byte) (s : State) : outcome State :=
  match reverse_identifier_map s !! id with
  | None => Faulted Assertion
  | Some name =>
      let record := {| name := name; identifier := id; block_schema_flags := 0;
                       schema := schema; schema_position := Some (position s);
                       last_position := -1 |} in
      let s := with_schemas (<[id := record]> (schemas s)) s in
      ostr_schema ← TelemetryWriter.WriteVaruint FastOStringStream.empty id;
      ostr_schema ← TelemetryWriter.WriteVaruint ostr_schema 0;
      ostr_schema ← TelemetryWriter.WriteString ostr_schema name;
      ostr_schema ← TelemetryWriter.RawWrite ostr_schema schema;
      let str := FastOStringStream.str ostr_schema in
      let '(buffer, s) := GetBuffer s in
      buffer ← TelemetryWriter.WriteVaruint buffer kSchema;
      buffer ← TelemetryWriter.WriteVaruint buffer (zlen str);
      buffer ← TelemetryWriter.RawWrite buffer str;
      Done (Write buffer s)
  end.

Fixpoint WriteSchemas (l : list (Z * SchemaRecord)) (s : State) : outcome State :=
  match l with
  | [] => Done s
  | (_, r) :: l => s ← WriteSchema (identifier r) (schema r) s; WriteSchemas l s
  end.

(** [PostOpen]: the header, and the schemas that are known already.  Writing
    one replaces its record and leaves the others, so the loop over the map
    sees what it held at the start. *)
Definition PostOpen (s : State) : outcome State :=
  let '(buffer, s) := GetBuffer s in
  buffer ← ws_write buffer kHeader;
  buffer ← TelemetryWriter.WriteVaruint buffer 0;
  let s := Write buffer s in
  WriteSchemas (in_order (schemas s)) s.

Definition Open (s : State) : outcome State :=
  _ ← mj_assert (match writer s with None => true | Some _ => false end);
  PostOpen (with_writer (Some ThreadWriter.make) s).

Definition GetPreviousOffset (s : State) (id : Z) : Z :=
  match writer s with
  | None => 0
  | Some w =>
      match schemas s !! id with
      | None => 0
      | Some r =>
          if last_position r <? 0 then 0 else ThreadWriter.position w - last_position r
      end
  end.

(** [WriteSeekBlock] *)
Definition kSeekMarkerValue : Z := 0xfdcab9a897867564.

Fixpoint WriteSeekEntries (position : Z) (l : list (Z * SchemaRecord)) (buffer : OStream.t)
    : outcome OStream.t :=
  match l with
  | [] => Done buffer
  | (id, r) :: l =>
      if last_position r <? 0 then WriteSeekEntries position l buffer
      else
        buffer ← TelemetryWriter.WriteVaruint buffer id;
        buffer ← TelemetryWriter.WriteVaruint buffer (position - last_position r);
        WriteSeekEntries position l buffer
  end.

Definition WriteSeekBlock (timestamp : ptime) (s : State) : outcome State :=
  let '(buffer, s) := GetBuffer s in
  let orig_start := OStream.start buffer in
  let records := in_order (schemas s) in
  buffer ← TelemetryWriter.Write_64 buffer kSeekMarkerValue;
  let crc_pos := orig_start + 8 in
  buffer ← TelemetryWriter.Write_32 buffer 0;
  buffer ← TelemetryWriter.Write_8 buffer 0;
  buffer ← TelemetryWriter.WriteVaruint buffer 0;
  buffer ← TelemetryWriter.Write_ptime buffer timestamp;
  let num_elements := zlen (List.filter (fun p => 0 <=? last_position p.2) records) in
  buffer ← TelemetryWriter.WriteVaruint buffer num_elements;
  buffer ← WriteSeekEntries (position s) records buffer;
  let body_size := OStream.size buffer in
  size_size ← GetVaruintSize body_size;
  let header_size := 1 + size_size in
  let buffer := OStream.set_start (OStream.start buffer - header_size) buffer in
  buffer ← with_span (OStream.start buffer) header_size
             (WriteBlock_header kSeekMarker body_size) buffer;
  b ← store (OStream.base buffer) (crc_pos + 4) (le_split 1 header_size);
  all ← load b (OStream.start buffer) (header_size + body_size);
  let crc := process_bytes crc_init all in
  buffer ← with_span crc_pos 4 (fun stream => TelemetryWriter.Write_32 stream (u32 (checksum crc)))
             (OStream.set_base b buffer);
  Done (Write buffer s).

(** [WriteIndex] *)
Fixpoint WriteIndexEntries (l : list (Z * SchemaRecord)) (buffer : OStream.t) : outcome OStream.t :=
  match l with
  | [] => Done buffer
  | (id, r) :: l =>
      buffer ← TelemetryWriter.WriteVaruint buffer id;
      match schema_position r with
      | None => Faulted Undefined
      | Some schema_position =>
          buffer ← TelemetryWriter.Write_64 buffer (u64 schema_position);
          buffer ← TelemetryWriter.Write_64 buffer (u64 (last_position r));
          WriteIndexEntries l buffer
      end
  end.

Definition kIndexTrailer : list byte :=
  map byte.of_Z [0x54; 0x4c; 0x4f; 0x47; 0x49; 0x44; 0x45; 0x58].

Definition WriteIndex (s : State) : outcome State :=
  let '(buffer, s) := GetBuffer s in
  let records := in_order (schemas s) in
  buffer ← TelemetryWriter.WriteVaruint buffer 0;
  buffer ← TelemetryWriter.WriteVaruint buffer (zlen records);
  buffer ← WriteIndexEntries records buffer;
  size_size ← GetVaruintSize (OStream.size buffer + 4 + 8);
  let trailing_size := u32 (OStream.size buffer + 1 + size_size + 4 + 8) in
  buffer ← TelemetryWriter.Write_32 buffer trailing_size;
  buffer ← TelemetryWriter.RawWrite buffer kIndexTrailer;
  WriteBlock kIndex buffer s.

(** [Close]: the writer's destructor waits for the thread and writes what is
    left; what is in the file then is returned. *)
Definition Close (s : State) : outcome (State * option (list byte)) :=
  match writer s with
  | None => Done (s, None)
  | Some _ =>
      s ← (if index_block (options s) then WriteIndex s else Done s);
      match writer s with
      | None => Done (s, None)
      | Some w =>
          w ← ThreadWriter.WriteAll w;
          Done (with_seek not_a_date_time (with_writer None s), Some (ThreadWriter.fd w))
      end
  end.

(** *** Data

    What [WriteData] decides before it writes: the flags, the previous offset
    and the point in time, and the bytes these take. *)
Record data_header := {
  flags : Z;
  flag_header_size : Z;
  previous_offset : option Z;
  timestamp_to_write : option ptime;
  write_checksum : bool;
}.

Definition plan (s : State) (timestamp now : ptime) (identifier : Z) (write_flags : WriteFlags)
    : outcome data_header :=
  '(f, n, previous) ←
    (if write_previous_offsets (options s) then
       let previous := GetPreviousOffset s identifier in
       size ← GetVaruintSize (u64 previous);
       Done (Z.lor 0 kPreviousOffset, size, Some previous)
     else Done (0, 0, None));
  let '(f, n, time) :=
    if negb (is_not_a_date_time timestamp) || timestamps_system (options s) then
      (Z.lor f kTimestampFlag, n + 8,
       Some (if negb (is_not_a_date_time timestamp) then timestamp else now))
    else (f, n, None) in
  let '(f, n, check) :=
    if evaluate (checksum_ write_flags) (default_checksum_data (options s))
    then (Z.lor f kChecksum, n + 4, true) else (f, n, false) in
  Done {| flags := f; flag_header_size := n; previous_offset := previous;
          timestamp_to_write := time; write_checksum := check |}.

(** The compression: the shorter of the two buffers goes on, the other one is
    kept for later if it was handed in and dropped if it was not. *)
Definition compress (buffer : OStream.t) (f : Z) (s : State) : outcome (OStream.t * Z * State) :=
  let original_size := OStream.size buffer in
  let '(new_buffer, s) := GetBuffer s in
  let reserved := FastOStringStream.vector_reserve (OStream.data new_buffer)
                    (OStream.start new_buffer + MaxCompressedLength original_size) in
  input ← load (OStream.base buffer) (OStream.start buffer) original_size;
  let output := RawCompress input in
  b ← store (FastOStringStream.v_base reserved) (OStream.start new_buffer) output;
  if zlen output <? original_size then
    let resized := FastOStringStream.vector_resize
      {| FastOStringStream.v_size := FastOStringStream.v_size reserved;
         FastOStringStream.v_base := b |} (OStream.start new_buffer + zlen output) in
    Done ({| OStream.data := resized; OStream.start := OStream.start new_buffer |},
          Z.lor f kSnappy, Reclaim buffer s)
  else Done (buffer, f, s).

Definition WriteData_header (h : data_header) (identifier body_size : Z)
    (stream : BufferWriteStream.t) : outcome BufferWriteStream.t :=
  stream ← WriteBlock_header kData body_size stream;
  stream ← TelemetryWriter.WriteVaruint stream identifier;
  stream ← TelemetryWriter.WriteVaruint stream (flags h);
  stream ← match previous_offset h with
           | Some previous => TelemetryWriter.WriteVaruint stream previous
           | None => Done stream
           end;
  match timestamp_to_write h with
  | Some time => TelemetryWriter.Write_ptime stream time
  | None => Done stream
  end.

(** The header in front of the data; the checksum is first written as zeros,
    and then over them. *)
Definition emit_data (h : data_header) (identifier : Z) (buffer : OStream.t) : outcome OStream.t :=
  identifier_size ← GetVaruintSize identifier;
  flag_size ← GetVaruintSize (flags h);
  let body_size := identifier_size + flag_size + flag_header_size h + OStream.size buffer in
  size_size ← GetVaruintSize body_size;
  let header_size := identifier_size + flag_size + flag_header_size h + size_size + 1 in
  _ ← mj_assert (header_size <=? OStream.start buffer);
  let front := OStream.start buffer - header_size in
  span ← load (OStream.base buffer) front header_size;
  stream ← WriteData_header h identifier body_size (BufferWriteStream.make span);
  stream ←
    (if write_checksum h then
       let position := BufferWriteStream.position stream in
       stream ← TelemetryWriter.Write_32 stream 0;
       stream ← BufferWriteStream.reset stream position;
       b ← store (OStream.base buffer) front (BufferWriteStream.buffer stream);
       all_data ← load b front (OStream.size buffer + header_size);
       TelemetryWriter.Write_32 stream (u32 (checksum (process_bytes crc_init all_data)))
     else Done stream);
  b ← store (OStream.base buffer) front (BufferWriteStream.buffer stream);
  Done (OStream.set_start front (OStream.set_base b buffer)).

(** [now] is what the system clock says, should it be asked. *)
Definition WriteData (timestamp now : ptime) (identifier : Z) (buffer : OStream.t)
    (write_flags : WriteFlags) (s : State) : outcome State :=
  match writer s with
  | None => Done s
  | Some w =>
      h ← plan s timestamp now identifier write_flags;
      '(buffer, f, s) ←
        (if evaluate (compression write_flags) (default_compression (options s))
         then compress buffer (flags h) s else Done (buffer, flags h, s));
      let h := {| flags := f; flag_header_size := flag_header_size h;
                  previous_offset := previous_offset h;
                  timestamp_to_write := timestamp_to_write h;
                  write_checksum := write_checksum h |} in
      buffer ← emit_data h identifier buffer;
      let record := default default_record (schemas s !! identifier) in
      let s := with_schemas (<[identifier := set_last (ThreadWriter.position w) record]> (schemas s)) s in
      let s := Write buffer s in
      if seek_blocks (options s) then
        if is_not_a_date_time (last_seek_block s) then Done (with_seek timestamp s)
        else if negb (is_not_a_date_time timestamp) &&
                elapsed (seek_block_period (options s)) timestamp (last_seek_block s) then
          s ← WriteSeekBlock timestamp s;
          Done (with_seek timestamp s)
        else Done s
      else Done s
  end.

(** [WriteData] of a string. *)
Definition WriteData_view (timestamp now : ptime) (identifier : Z) (serialized_data : list byte)
    (write_flags : WriteFlags) (s : State) : outcome State :=
  match writer s with
  | None => Done s
  | Some _ =>
      let '(buffer, s) := GetBuffer s in
      buffer ← ws_write buffer serialized_data;
      WriteData timestamp now identifier buffer write_flags s
  end.
End FileWriter.
End FileWriter.
