(* ===== verification/WriterThread.v ===== *)
(** * base/thread_writer.h: the threads of a writer

    What the background thread, the parent and the handler of the flush timer do
    with the flags, the queue of buffers, the pipe that wakes the thread up and the
    [FILE], one access of what they share at a time; and what they guarantee over every
    interleaving: what is in the file, that the thread is woken up, and that the
    destructor ends.  FileWriter.v has the same
    queue as the parent sees it, with [BackgroundWrite] for a buffer that the thread
    writes. *)
From stdpp Require Import list.
From S2P Require Import Prelude.
#[local] Open Scope Z_scope.

Module WriterThread.
Section WriterThread.

(** [kAsynchronous], [block_size], and how many bytes a pipe takes. *)
Context (asynchronous : bool) (block_size pipe_size : Z).

(** Where the parent is: between calls, in front of the [SignalThread] of [Write]
    or [Flush], and in the destructor: in front of its [SignalThread], of [join],
    in [WriteAll], and behind it. *)
Inductive parent_pc := PIdle | PSignal | PSignalDone | PJoin | PWriteAll | PClosed.

(** Where the thread is: at the start of [Run], in front of [read], of the look at
    the commands, of that at the timer, in [RunWork] in front of the look at the
    queue and of the removal of its front, in [StartWrite] with the buffer, in front
    of the last flush, and at the end.  [last] is set in the [RunWork] of [done_]. *)
Inductive child_pc :=
  | CStart | CRead | CCommand | CTimer
  | CWork (last : bool) | CFront (last : bool) | CStartWrite (last : bool) (buffer : list byte)
  | CFlush | CExited.

Record State := {
  position_ : Z; data_ : list (list byte); pipe : Z;
  timer_fired_ : bool; flush_ : bool; done_ : bool;
  child_offset_ : Z; last_fadvise_ : Z;
  (** What the [FILE] keeps, and what is in the file. *)
  buffered : list byte; file : list byte;
  parent : parent_pc; child : child_pc;
  (** The handlers of the timer's signal in front of [SignalThread]. *)
  handlers : nat;
}.

Definition make : State :=
  {| position_ := 0; data_ := []; pipe := 0; timer_fired_ := false; flush_ := false; done_ := false;
     child_offset_ := 0; last_fadvise_ := 0; buffered := []; file := []; parent := PIdle; child := CStart; handlers := 0 |}.

Definition with_parent p s : State :=
  {| position_ := position_ s; data_ := data_ s; pipe := pipe s; timer_fired_ := timer_fired_ s; flush_ := flush_ s; done_ := done_ s;
     child_offset_ := child_offset_ s; last_fadvise_ := last_fadvise_ s; buffered := buffered s; file := file s;
     parent := p; child := child s; handlers := handlers s |}.
Definition with_child c s : State :=
  {| position_ := position_ s; data_ := data_ s; pipe := pipe s; timer_fired_ := timer_fired_ s; flush_ := flush_ s; done_ := done_ s;
     child_offset_ := child_offset_ s; last_fadvise_ := last_fadvise_ s; buffered := buffered s; file := file s;
     parent := parent s; child := c; handlers := handlers s |}.
Definition with_pipe n s : State :=
  {| position_ := position_ s; data_ := data_ s; pipe := n; timer_fired_ := timer_fired_ s; flush_ := flush_ s; done_ := done_ s;
     child_offset_ := child_offset_ s; last_fadvise_ := last_fadvise_ s; buffered := buffered s; file := file s;
     parent := parent s; child := child s; handlers := handlers s |}.
Definition with_data d s : State :=
  {| position_ := position_ s; data_ := d; pipe := pipe s; timer_fired_ := timer_fired_ s; flush_ := flush_ s; done_ := done_ s;
     child_offset_ := child_offset_ s; last_fadvise_ := last_fadvise_ s; buffered := buffered s; file := file s;
     parent := parent s; child := child s; handlers := handlers s |}.
Definition with_position n s : State :=
  {| position_ := n; data_ := data_ s; pipe := pipe s; timer_fired_ := timer_fired_ s; flush_ := flush_ s; done_ := done_ s;
     child_offset_ := child_offset_ s; last_fadvise_ := last_fadvise_ s; buffered := buffered s; file := file s;
     parent := parent s; child := child s; handlers := handlers s |}.
Definition with_flags t f d s : State :=
  {| position_ := position_ s; data_ := data_ s; pipe := pipe s; timer_fired_ := t; flush_ := f; done_ := d;
     child_offset_ := child_offset_ s; last_fadvise_ := last_fadvise_ s; buffered := buffered s; file := file s;
     parent := parent s; child := child s; handlers := handlers s |}.
Definition with_offsets o l s : State :=
  {| position_ := position_ s; data_ := data_ s; pipe := pipe s; timer_fired_ := timer_fired_ s; flush_ := flush_ s; done_ := done_ s;
     child_offset_ := o; last_fadvise_ := l; buffered := buffered s; file := file s;
     parent := parent s; child := child s; handlers := handlers s |}.
Definition with_file b f s : State :=
  {| position_ := position_ s; data_ := data_ s; pipe := pipe s; timer_fired_ := timer_fired_ s; flush_ := flush_ s; done_ := done_ s;
     child_offset_ := child_offset_ s; last_fadvise_ := last_fadvise_ s; buffered := b; file := f;
     parent := parent s; child := child s; handlers := handlers s |}.
Definition with_handlers n s : State :=
  {| position_ := position_ s; data_ := data_ s; pipe := pipe s; timer_fired_ := timer_fired_ s; flush_ := flush_ s; done_ := done_ s;
     child_offset_ := child_offset_ s; last_fadvise_ := last_fadvise_ s; buffered := buffered s; file := file s;
     parent := parent s; child := child s; handlers := n |}.

(** A pipe that is full takes no more, which is passed over. *)
Definition SignalThread (s : State) : State := if pipe s <? pipe_size then with_pipe (pipe s + 1) s else s.

(** [::fflush(fd_)]: [HandleFlush] and [HandleTimer] *)
Definition HandleFlush (s : State) : State := with_file [] (file s ++ buffered s) s.

(** [::fwrite], of [size] bytes once, whose result is 0 for none, and the program
    ends; then the offset. *)
Definition fwrite (buffer : list byte) (s : State) : outcome State :=
  _ ← mj_assert (negb (zlen buffer =? 0));
  Done (with_offsets (child_offset_ s + zlen buffer) (last_fadvise_ s) (with_file (buffered s ++ buffer) (file s) s)).

(** The offset up to which the pages are not needed any more. *)
Fixpoint next_fadvise (fuel : nat) (next child_offset : Z) : outcome Z :=
  match fuel with
  | O => Faulted OutOfFuel
  | S fuel => if next + block_size <? child_offset then next_fadvise fuel (next + block_size) child_offset else Done next
  end.

(** [StartWrite], behind the removal of the front in [WriteFront]. *)
Definition StartWrite (buffer : list byte) (s : State) : outcome State :=
  s ← fwrite buffer s;
  if asynchronous && (block_size <? child_offset_ s - last_fadvise_ s) then
    let s := HandleFlush s in
    next ← next_fadvise (S (Z.to_nat (child_offset_ s - last_fadvise_ s))) (last_fadvise_ s) (child_offset_ s);
    Done (with_offsets (child_offset_ s) next s)
  else Done s.

(** What happens: a call of the parent, the next step of the parent or the thread,
    a signal that interrupts its [read], the timer's signal, the next step of a
    handler of it, and the C library, which writes what it keeps when it likes. *)
Inductive label :=
  | LWrite (buffer : list byte) | LFlush | LDestroy
  | LParent | LChild | LInterrupt | LTimer | LHandler | LWriteOut.

(** A step of the parent inside a call. *)
Definition parent_step (s : State) : option (outcome State) :=
  match parent s with
  | PIdle | PClosed => None
  | PSignal => Some (Done (with_parent PIdle (SignalThread s)))
  | PSignalDone => Some (Done (with_parent PJoin (SignalThread s)))
  | PJoin => match child s with CExited => Some (Done (with_parent PWriteAll s)) | _ => None end
  | PWriteAll =>
      match data_ s with
      | [] => Some (Done (with_parent PClosed (HandleFlush s)))
      | buffer :: data => Some (fwrite buffer (with_data data s))
      end
  end.

(** The thread looks at the commands. *)
Definition command_step (s : State) : State :=
  if done_ s then with_child (CWork true) s
  else with_child CTimer (if flush_ s then HandleFlush s else s).

(** A step of the thread; none when it waits or has ended. *)
Definition child_step (s : State) : option (outcome State) :=
  match child s with
  | CStart => Some (Done (with_child CRead s))
  | CRead => if 0 <? pipe s then Some (Done (with_child CCommand (with_pipe (pipe s - 1) s))) else None
  | CCommand => Some (Done (command_step s))
  | CTimer => Some (Done (with_child (CWork false) (if timer_fired_ s then HandleFlush s else s)))
  | CWork last =>
      match data_ s with
      | [] => Some (Done (with_child (if last then CFlush else CRead) s))
      | _ => Some (Done (with_child (CFront last) s))
      end
  | CFront last =>
      match data_ s with
      | [] => Some (Faulted Undefined)
      | buffer :: data => Some (Done (with_child (CStartWrite last buffer) (with_data data s)))
      end
  | CStartWrite last buffer => Some (s ← StartWrite buffer s; Done (with_child (CWork last) s))
  | CFlush => Some (Done (with_child CExited (HandleFlush s)))
  | CExited => None
  end.

(** [StartTimer] has been called, and [StopTimer] has not. *)
Definition timer_runs (s : State) : bool :=
  asynchronous && match child s with CStart | CExited => false | _ => true end.

Definition step (l : label) (s : State) : option (outcome State) :=
  match l with
  | LWrite buffer =>
      match parent s with
      | PIdle => Some (Done (with_parent PSignal (with_data (data_ s ++ [buffer]) (with_position (position_ s + zlen buffer) s))))
      | _ => None
      end
  | LFlush =>
      match parent s with
      | PIdle => Some (Done (with_parent PSignal (with_flags (timer_fired_ s) true (done_ s) s)))
      | _ => None
      end
  | LDestroy =>
      match parent s with
      | PIdle => Some (Done (with_parent PSignalDone (with_flags (timer_fired_ s) (flush_ s) true s)))
      | _ => None
      end
  | LParent => parent_step s
  | LChild => child_step s
  | LInterrupt => match child s with CRead => Some (Done (with_child CCommand s)) | _ => None end
  | LTimer => if timer_runs s then Some (Done (with_handlers (S (handlers s)) (with_flags true (flush_ s) (done_ s) s))) else None
  | LHandler =>
      match handlers s with
      | O => None
      (* [this] and [pipe_.write], of a writer that is no more *)
      | S n => Some (match parent s with PClosed => Faulted Undefined | _ => Done (with_handlers n (SignalThread s)) end)
      end
  | LWriteOut => Some (Done (HandleFlush s))
  end.
End WriterThread.
End WriterThread.

(** ** What the threads guarantee *)
Import WriterThread.

Section theory.
Context (asynchronous : bool) (block_size pipe_size : Z).
Context (Hblock : 0 < block_size) (Hpipe : 0 < pipe_size).
Abbreviation step := (step asynchronous block_size pipe_size).

(** Buffers that are given to [Write] are not empty. *)
Definition allowed (l : label) : Prop := match l with LWrite buffer => buffer <> [] | _ => True end.

Definition given_by (l : label) : list (list byte) := match l with LWrite buffer => [buffer] | _ => [] end.

(** What can happen, with the buffers that were given. *)
Inductive reaches : list (list byte) -> State -> Prop :=
  | reaches_make : reaches [] make
  | reaches_step given s l s' : reaches given s -> allowed l -> step l s = Some (Done s') -> reaches (given ++ given_by l) s'.

(** The buffer that the thread has taken and not yet written. *)
Definition in_flight (c : child_pc) : list byte := match c with CStartWrite _ buffer => buffer | _ => [] end.

(** The thread has seen [done_]. *)
Definition last_work (c : child_pc) : bool :=
  match c with CWork last | CFront last | CStartWrite last _ => last | CFlush | CExited => true | _ => false end.

Definition destroying (p : parent_pc) : bool := match p with PIdle | PSignal => false | _ => true end.

(** In front of the first [read], or in front of one. *)
Definition asleep (c : child_pc) : bool := match c with CStart | CRead => true | _ => false end.

Record inv (given : list (list byte)) (s : State) : Prop := {
  inv_bytes : file s ++ buffered s ++ in_flight (child s) ++ concat (data_ s) = concat given;
  inv_some : Forall (fun b => b <> []) (data_ s);
  inv_flight : match child s with CStartWrite _ buffer => buffer <> [] | CFront _ => data_ s <> [] | CFlush | CExited => data_ s = [] | _ => True end;
  inv_position : position_ s = zlen (concat given);
  inv_offset : child_offset_ s = zlen (file s ++ buffered s);
  inv_fadvise : 0 <= last_fadvise_ s <= child_offset_ s /\ (asynchronous = true -> child_offset_ s - last_fadvise_ s <= block_size);
  inv_done : done_ s = destroying (parent s);
  inv_last : last_work (child s) = true -> done_ s = true;
  inv_parent : match parent s with PWriteAll => child s = CExited | PClosed => child s = CExited /\ buffered s = [] | _ => True end;
  inv_pipe : 0 <= pipe s;
  (** The thread does not sleep over data, nor over the end. *)
  inv_wake : data_ s <> [] -> asleep (child s) = true -> 0 < pipe s \/ parent s = PSignal \/ parent s = PSignalDone;
  inv_end : done_ s = true -> last_work (child s) = true \/ child s = CCommand \/ 0 < pipe s \/ parent s = PSignalDone;
}.

Lemma writer_make : inv [] make.
Proof. by constructor; cbn; try done; lia. Qed.

Lemma next_fadvise_spec fuel : forall next offset, (Z.to_nat (offset - next) < fuel)%nat -> next <= offset ->
  exists n, next_fadvise block_size fuel next offset = Done n /\ next <= n <= offset /\ offset - n <= block_size.
Proof.
  induction fuel as [|fuel IH]; intros next offset Hf Hn; [lia|]. cbn [next_fadvise].
  destruct (Z.ltb_spec (next + block_size) offset) as [Hl|Hl]; [|exists next; split; [done|lia]].
  destruct (IH (next + block_size) offset) as (n & -> & ? & ?); [lia..|]. exists n. split; [done|lia].
Qed.

Lemma SignalThread_pipe s : 0 <= pipe s -> exists n, SignalThread pipe_size s = with_pipe n s /\ 0 < n /\ pipe s <= n.
Proof.
  intros Hp. unfold SignalThread. destruct (Z.ltb_spec (pipe s) pipe_size).
  - exists (pipe s + 1). split; [done|lia].
  - exists (pipe s). split; [by destruct s|lia].
Qed.

Lemma concat_snoc {A} (l : list (list A)) x : concat (l ++ [x]) = concat l ++ x.
Proof. rewrite concat_app. cbn. by rewrite app_nil_r. Qed.

(** The [FILE] is written out. *)
Lemma inv_HandleFlush given s : inv given s -> inv given (HandleFlush s).
Proof.
  intros [Hb Hs Hf Hp Ho Hfa Hd Hl Hpa Hpi Hw He]. constructor; cbn; try done.
  - by rewrite <- app_assoc.
  - by rewrite app_nil_r.
  - destruct (parent s); try done. by destruct Hpa.
Qed.

(** A step of the thread that leaves everything else. *)
Lemma inv_child given s c : inv given s -> in_flight c = in_flight (child s) ->
  match c with CStartWrite _ _ => False | CFront _ => data_ s <> [] | CFlush | CExited => data_ s = [] | _ => True end ->
  (last_work c = true -> done_ s = true) -> child s <> CExited ->
  (asleep c = true -> data_ s = [] \/ 0 < pipe s \/ parent s = PSignal \/ parent s = PSignalDone) ->
  (last_work (child s) = true -> last_work c = true) -> (child s <> CCommand \/ last_work c = true \/ done_ s = false) ->
  inv given (with_child c s).
Proof.
  intros [Hb Hs Hf Hp Ho Hfa Hd Hl Hpa Hpi Hw He] Hfl Hc Hlast Hx Hr Hk Hcmd. constructor; cbn; try done.
  - by rewrite Hfl.
  - by destruct c.
  - destruct (parent s); try done. by destruct Hpa.
  - intros Hne Hcr. destruct (Hr Hcr) as [?|[?|[?|?]]]; try done; auto.
  - intros Hdn. destruct (He Hdn) as [Hw'|[Hw'|[Hw'|Hw']]]; auto. destruct Hcmd as [?|[?|?]]; [done|auto|congruence].
Qed.

(** Once it is taken off the queue a buffer is written. *)
Lemma StartWrite_inv given s last buffer : inv given s -> child s = CStartWrite last buffer ->
  exists s', StartWrite asynchronous block_size buffer s = Done s' /\ inv given (with_child (CWork last) s').
Proof.
  intros [Hb Hs Hf Hp Ho Hfa Hd Hl Hpa Hpi Hw He] Hc. rewrite Hc in *. cbn [in_flight last_work] in *. destruct Hfa as [Hfa Hfb].
  assert (Hz : 0 < zlen buffer) by (destruct buffer; [done|rewrite zlen_cons; pose proof (zlen_nonneg buffer); lia]).
  unfold StartWrite, fwrite. rewrite (proj2 (Z.eqb_neq _ _)) by lia. cbn [negb mj_assert]. rewrite !bind_done. cbn [child_offset_ last_fadvise_ with_offsets].
  assert (Hpa' : match parent s with PWriteAll | PClosed => False | _ => True end) by (destruct (parent s); try done; by destruct Hpa).
  destruct asynchronous eqn:Ea; cbn [andb].
  - destruct (Z.ltb_spec block_size (child_offset_ s + zlen buffer - last_fadvise_ s)) as [Hlt|Hge].
    + destruct (next_fadvise_spec (S (Z.to_nat (child_offset_ s + zlen buffer - last_fadvise_ s))) (last_fadvise_ s) (child_offset_ s + zlen buffer))
        as (n & En & ? & ?); [lia..|]. cbn. cbn in En. rewrite En, bind_done. eexists. split; [done|]. constructor; cbn; try done.
      * rewrite <- Hb. by rewrite <- !app_assoc.
      * rewrite app_nil_r, app_assoc, zlen_app. lia.
      * split; [lia|intros _; lia].
      * by revert Hpa'; destruct (parent s).
      * intros Hdn. destruct (He Hdn) as [?|[?|?]]; auto; done.
    + eexists. split; [done|]. constructor; cbn; try done.
      * rewrite <- Hb. by rewrite <- !app_assoc.
      * rewrite app_assoc, zlen_app. lia.
      * split; [lia|intros _; lia].
      * by revert Hpa'; destruct (parent s).
      * intros Hdn. destruct (He Hdn) as [?|[?|?]]; auto; done.
  - eexists. split; [done|]. constructor; cbn; try done.
    + rewrite <- Hb. by rewrite <- !app_assoc.
    + rewrite app_assoc, zlen_app. lia.
    + split; [lia|congruence].
    + by revert Hpa'; destruct (parent s).
    + intros Hdn. destruct (He Hdn) as [?|[?|?]]; auto; done.
Qed.

(** [SignalThread], with where it leads the one who calls it. *)
Lemma inv_signal given s f : inv given s ->
  (forall n, inv given s -> 0 < n -> inv given (f (with_pipe n s))) -> inv given (f (SignalThread pipe_size s)).
Proof. intros Hi Hf. destruct (SignalThread_pipe s (inv_pipe _ _ Hi)) as (n & -> & Hn & _). by apply Hf. Qed.

Lemma inv_parent_step given s : inv given s ->
  match parent_step pipe_size s with Some r => exists s', r = Done s' /\ inv given s' | None => True end.
Proof.
  intros Hi. unfold parent_step. destruct (parent s) eqn:Ep; [done| | | | |done].
  - eexists. split; [done|]. apply inv_signal; [done|]. intros n [Hb Hs Hf Hp Ho Hfa Hd Hl Hpa Hpi Hw He] Hn. rewrite Ep in *.
    constructor; cbn; try done; [lia|auto..].
  - eexists. split; [done|]. apply inv_signal; [done|]. intros n [Hb Hs Hf Hp Ho Hfa Hd Hl Hpa Hpi Hw He] Hn. rewrite Ep in *.
    constructor; cbn; try done; [lia|auto..].
  - destruct (child s) eqn:Ec; try done. eexists. split; [done|]. destruct Hi as [Hb Hs Hf Hp Ho Hfa Hd Hl Hpa Hpi Hw He]. rewrite Ep, Ec in *.
    constructor; cbn; rewrite ?Ec; try done. intros _. by left.
  - destruct Hi as [Hb Hs Hf Hp Ho Hfa Hd Hl Hpa Hpi Hw He]. rewrite Ep in *. rewrite Hpa in *. rewrite Hf in *.
    eexists. split; [done|]. constructor; cbn; rewrite ?Hpa, ?Hf; try done.
    + by rewrite <- app_assoc.
    + by rewrite app_nil_r.
    + intros _. by left.
Qed.

Lemma inv_child_step given s : inv given s ->
  match child_step asynchronous block_size s with Some r => exists s', r = Done s' /\ inv given s' | None => True end.
Proof.
  intros Hi. pose proof Hi as [Hb Hs Hf Hp Ho Hfa Hd Hl Hpa Hpi Hw He]. unfold child_step.
  destruct (child s) as [| | | |last|last|last buffer| |] eqn:Ec; cbn [last_work in_flight] in *.
  - eexists. split; [done|]. apply inv_child; rewrite ?Ec; try done; [|by left].
    intros _. destruct (data_ s) eqn:Ed; [by left|right; by apply Hw].
  - destruct (Z.ltb_spec 0 (pipe s)) as [Hn|]; [|done]. eexists. split; [done|].
    constructor; cbn; rewrite ?Ec; try done; [by destruct (parent s); try done; destruct Hpa|lia|auto].
  - eexists. split; [done|]. unfold command_step. destruct (done_ s) eqn:Ed.
    + apply inv_child; rewrite ?Ec, ?Ed; try done. auto.
    + destruct (flush_ s); apply inv_child; cbn; rewrite ?Ec, ?Ed; try done; auto. by apply inv_HandleFlush.
  - eexists. split; [done|]. destruct (timer_fired_ s); apply inv_child; cbn; rewrite ?Ec; try done; try (by left). by apply inv_HandleFlush.
  - destruct (data_ s) as [|b data] eqn:Ed; (eexists; split; [done|]); apply inv_child; rewrite ?Ec, ?Ed; try done; try (by left).
    all: destruct last; cbn in *; auto; done.
  - destruct (data_ s) as [|b data] eqn:Ed; [done|]. apply Forall_cons_1 in Hs as [Hbs Hs]. eexists. split; [done|].
    constructor; cbn; try done; [by destruct (parent s); try done; destruct Hpa|]. intros Hdn. destruct (He Hdn) as [?|[?|?]]; auto; done.
  - destruct (StartWrite_inv given s last buffer Hi Ec) as (s' & -> & Hs'). rewrite bind_done. by exists (with_child (CWork last) s').
  - eexists. split; [done|]. apply inv_child; cbn; rewrite ?Ec; try done; try (by left). by apply inv_HandleFlush.
  - done.
Qed.

(** The one step that is undefined: the timer's handler is still to signal the thread
    when the writer has been destroyed. *)
Definition too_late (l : label) (s : State) : Prop := l = LHandler /\ parent s = PClosed /\ handlers s <> O.

Lemma writer_step given s l : inv given s -> allowed l ->
  match step l s with
  | Some r => (exists s', r = Done s' /\ inv (given ++ given_by l) s') \/ (too_late l s /\ r = Faulted Undefined)
  | None => True
  end.
Proof.
  intros Hi Ha. pose proof Hi as [Hb Hs Hf Hp Ho Hfa Hd Hl Hpa Hpi Hw He]. destruct l as [buffer| | | | | | | |]; cbn [WriterThread.step given_by]; rewrite ?app_nil_r.
  - destruct (parent s) eqn:Ep; try done. left. cbn [destroying] in Hd. eexists. split; [done|]. constructor; cbn; try done.
    + by rewrite !concat_snoc, <- Hb, <- !app_assoc.
    + apply list.Forall_app. by split; [|apply Forall_singleton].
    + destruct (child s) eqn:Ec; try done.
      * by destruct (data_ s).
      * specialize (Hl eq_refl). congruence.
      * specialize (Hl eq_refl). congruence.
    + by rewrite concat_snoc, zlen_app, Hp.
    + intros _ _. auto.
    + congruence.
  - destruct (parent s) eqn:Ep; try done. left. cbn [destroying] in Hd. eexists. split; [done|]. constructor; cbn; try done; auto. congruence.
  - destruct (parent s) eqn:Ep; try done. left. cbn [destroying] in Hd. eexists. split; [done|]. constructor; cbn; try done; auto.
  - pose proof (inv_parent_step given s Hi) as Hst. destruct (parent_step pipe_size s); [by left|done].
  - pose proof (inv_child_step given s Hi) as Hst. destruct (child_step asynchronous block_size s); [by left|done].
  - destruct (child s) eqn:Ec; try done. left. eexists. split; [done|]. constructor; cbn; try done; auto. by destruct (parent s); try done; destruct Hpa.
  - destruct (timer_runs asynchronous s); [|done]. left. eexists. split; [done|]. by constructor.
  - destruct (handlers s) as [|n] eqn:Eh; [done|]. assert (parent s = PClosed \/ parent s <> PClosed) as [Ep|Ep] by (destruct (parent s); auto).
    + right. unfold too_late. by rewrite Ep, Eh.
    + left. exists (with_handlers n (SignalThread pipe_size s)). split; [by destruct (parent s)|].
      apply inv_signal; [done|]. intros m _ Hm. constructor; cbn; try done; [lia|auto..].
  - left. eexists. split; [done|]. by apply inv_HandleFlush.
Qed.

Lemma reaches_inv given s : reaches given s -> inv given s.
Proof.
  induction 1 as [|given s l s' _ IH Ha E]; [apply writer_make|]. pose proof (writer_step given s l IH Ha) as Hs. rewrite E in Hs.
  destruct Hs as [(s'' & [= ->] & Hi)|[_ [=]]]. done.
Qed.

(** ** What is written *)

(** When the thread waits. *)
Lemma child_sleeps given s : inv given s -> child_step asynchronous block_size s = None -> child s <> CExited ->
  parent s = PSignal \/ parent s = PSignalDone \/ data_ s = [] /\ done_ s = false.
Proof.
  intros [Hb Hs Hf Hp Ho Hfa Hd Hl Hpa Hpi Hw He]. unfold child_step. destruct (child s) eqn:Ec; cbn [asleep last_work] in *; try done; [|by destruct (data_ s)..].
  destruct (Z.ltb_spec 0 (pipe s)) as [|Hn]; [done|]. intros _ _. destruct (data_ s) as [|b data] eqn:Ed.
  - destruct (done_ s) eqn:Edn; [|by auto]. destruct (He eq_refl) as [?|[?|[?|?]]]; [done|done|lia|auto].
  - destruct (Hw ltac:(done) eq_refl) as [?|[?|?]]; [lia|auto|auto].
Qed.

(** C18: nothing that is given to a writer is lost.  Over every interleaving of the
    parent, the thread, the timer's handlers, interrupted reads and the C library:
    the only step that is undefined is that of a handler of the timer, begun before
    the timer was deleted, which is to signal the thread when the writer has already
    been destroyed (such a run is [handler_outlives_writer]), and no buffer is
    refused; the file holds the first of the bytes that were given, in order; the
    thread waits only when there is nothing to write and no end, or when who gave it
    something is about to wake it up; and once the writer is destroyed all is in the
    file. *)
Theorem writer_loses_nothing given s : reaches given s ->
  (forall l r, allowed l -> step l s = Some r -> (exists s', r = Done s') \/ (too_late l s /\ r = Faulted Undefined)) /\
  (exists more, concat given = file s ++ more) /\
  (step LChild s = None -> child s <> CExited ->
     parent s = PSignal \/ parent s = PSignalDone \/ data_ s = [] /\ done_ s = false) /\
  (parent s = PClosed -> file s = concat given).
Proof.
  intros Hr. pose proof (reaches_inv given s Hr) as Hi. pose proof Hi as [Hb Hs Hf Hp Ho Hfa Hd Hl Hpa Hpi Hw He]. split_and!.
  - intros l r Ha E. pose proof (writer_step given s l Hi Ha) as Hst. rewrite E in Hst. destruct Hst as [(s' & -> & _)|Hst]; [left; by exists s'|by right].
  - eexists. symmetry. exact Hb.
  - by eapply child_sleeps.
  - intros Ep. rewrite Ep in Hpa. destruct Hpa as [Hx Hbu]. rewrite Hx, Hbu in *. rewrite Hf in Hb. by rewrite !app_nil_r in Hb.
Qed.

(** ** The end *)

(** How much is left to do. *)
Definition child_rank (d : nat) (c : child_pc) : nat :=
  match c with
  | CStart => 4 * d + 5 | CRead => 4 * d + 4 | CCommand => 4 * d + 3
  | CTimer => 4 * d + 8 | CWork last => 4 * d + (if last : bool then 2 else 7)
  | CFront last => 4 * d + (if last : bool then 1 else 6)
  | CStartWrite last _ => 4 * d + (if last : bool then 3 else 8)
  | CFlush => 1 | CExited => 0
  end.

Definition parent_rank (d : nat) (p : parent_pc) : nat :=
  match p with PIdle => 5 | PSignal => 4 | PSignalDone => 3 + d | PJoin => 2 + d | PWriteAll => 1 + d | PClosed => 0 end.

Definition rank (s : State) : nat := child_rank (length (data_ s)) (child s) + parent_rank (length (data_ s)) (parent s).

(** The steps that someone takes on the way to the end. *)
Definition advances (l : label) : bool := match l with LParent | LChild | LInterrupt => true | _ => false end.

Lemma rank_SignalThread s : data_ (SignalThread pipe_size s) = data_ s /\ child (SignalThread pipe_size s) = child s /\
  parent (SignalThread pipe_size s) = parent s /\ done_ (SignalThread pipe_size s) = done_ s.
Proof. unfold SignalThread. by destruct (_ <? _). Qed.

Lemma StartWrite_keeps buffer s s' : StartWrite asynchronous block_size buffer s = Done s' ->
  data_ s' = data_ s /\ parent s' = parent s /\ done_ s' = done_ s.
Proof.
  unfold StartWrite, fwrite. intros E. apply bind_done_inv in E as (s1 & E1 & E). apply bind_done_inv in E1 as (_ & _ & [= <-]).
  destruct (_ && _); [|by injection E as <-]. cbn zeta in E. apply bind_done_inv in E as (n & _ & [= <-]). done.
Qed.

(** C19: the destructor ends.  Once it has begun, whatever is interleaved, the parent
    or the thread can take a step until the writer is closed, and there is a number
    that every step of theirs makes smaller and that nothing makes larger: they
    take at most that many. *)
Theorem destructor_ends given s : reaches given s -> done_ s = true ->
  (parent s <> PClosed -> exists l, (l = LParent \/ l = LChild) /\ step l s <> None) /\
  (forall l s', step l s = Some (Done s') ->
     done_ s' = true /\ (rank s' <= rank s)%nat /\ (advances l = true -> (rank s' < rank s)%nat)).
Proof.
  intros Hr Hdn. pose proof (reaches_inv given s Hr) as Hi. pose proof Hi as [Hb Hs Hf Hp Ho Hfa Hd Hl Hpa Hpi Hw He]. split.
  - intros Hn. rewrite Hd in Hdn. destruct (parent s) eqn:Ep; try done.
    + exists LParent. split; [by left|]. cbn. unfold parent_step. by rewrite Ep.
    + assert (child s = CExited \/ child s <> CExited) as [Ex|Ex] by (by destruct (child s); auto).
      * exists LParent. split; [by left|]. cbn. unfold parent_step. by rewrite Ep, Ex.
      * exists LChild. split; [by right|]. intros E. destruct (child_sleeps given s Hi E Ex) as [?|[?|[_ ?]]]; congruence.
    + exists LParent. split; [by left|]. cbn. unfold parent_step. rewrite Ep. by destruct (data_ s).
  - intros l s' E. assert (Hp' : destroying (parent s) = true) by congruence. unfold rank.
    destruct (rank_SignalThread s) as (S1 & S2 & S3 & S4).
    destruct l as [buffer| | | | | | | |]; cbn [WriterThread.step advances] in *.
    + by destruct (parent s).
    + by destruct (parent s).
    + by destruct (parent s).
    + unfold parent_step in E. destruct (parent s) eqn:Ep; try done.
      * injection E as <-. cbn. rewrite S1, S2, S4. split; [done|lia].
      * destruct (child s) eqn:Ec; try done. injection E as <-. cbn. rewrite Ec. cbn. split; [done|lia].
      * rewrite Hpa in *. rewrite Hf in *. injection E as <-. cbn. rewrite Hpa, Hf. cbn. split; [done|lia].
    + unfold child_step in E. destruct (child s) as [| | | |last|last|last buffer| |] eqn:Ec; try done.
      * injection E as <-. cbn. split; [done|lia].
      * destruct (0 <? pipe s); [|done]. injection E as <-. cbn. split; [done|lia].
      * injection E as <-. unfold command_step. rewrite Hdn. cbn. split; [done|lia].
      * destruct (timer_fired_ s); injection E as <-; cbn; (split; [done|lia]).
      * destruct (data_ s) eqn:Ed; injection E as <-; cbn; rewrite Ed; destruct last; cbn; (split; [done|lia]).
      * destruct (data_ s) eqn:Ed; [done|]. injection E as <-. cbn. split; [done|]. destruct last, (parent s); cbn in *; lia.
      * apply (f_equal (fun o => match o with Some r => r | None => Faulted OutOfFuel end)) in E. apply bind_done_inv in E as (s1 & E1 & [= <-]).
        destruct (StartWrite_keeps buffer s s1 E1) as (E2 & E3 & E4). cbn. rewrite E2, E3, E4. split; [done|]. destruct last; lia.
      * injection E as <-. cbn. rewrite Hf. cbn. split; [done|lia].
    + destruct (child s) eqn:Ec; try done. injection E as <-. cbn. split; [done|lia].
    + destruct (timer_runs asynchronous s); [|done]. injection E as <-. cbn. split; [done|lia].
    + destruct (handlers s); [done|]. assert (E' : s' = with_handlers n (SignalThread pipe_size s)) by (destruct (parent s); by injection E).
      subst s'. cbn. rewrite S1, S2, S3, S4. split; [done|lia].
    + injection E as <-. cbn. split; [done|lia].
Qed.
End theory.

(** ** A writer of two buffers *)
Section runs.
Context (asynchronous : bool) (block_size pipe_size : Z).

Fixpoint follow (ls : list label) (s : State) : option State :=
  match ls with
  | [] => Some s
  | l :: ls => match WriterThread.step asynchronous block_size pipe_size l s with Some (Done s) => follow ls s | _ => None end
  end.

Lemma follow_reaches ls : forall given s s', reaches asynchronous block_size pipe_size given s -> Forall allowed ls ->
  follow ls s = Some s' -> reaches asynchronous block_size pipe_size (given ++ concat (map given_by ls)) s'.
Proof.
  induction ls as [|l ls IH]; intros given s s' Hr Ha E; cbn [follow map concat] in *; [injection E as <-; by rewrite app_nil_r|].
  apply Forall_cons_1 in Ha as [Hl Ha]. destruct (WriterThread.step _ _ _ l s) as [[s1|]|] eqn:Es; try done.
  rewrite app_assoc. eapply IH; [|done|exact E]. by eapply reaches_step.
Qed.
End runs.

Definition bytes_of (l : list Z) : list byte := map byte.of_Z l.

(** Two writes; the timer goes off while the thread writes; the destructor. *)
Definition demo_labels : list label :=
  [LWrite (bytes_of [1; 2; 3]); LChild; LParent; LChild; LChild; LTimer; LChild; LWrite (bytes_of [4; 5]); LParent; LChild; LHandler;
   LChild; LChild; LDestroy].

(** The rest: the thread writes what is left and ends, and so does the parent. *)
Definition demo_end : list label := replicate 4 LChild ++ [LParent] ++ replicate 4 LChild ++ replicate 2 LParent.

Definition demo_writer (ls : list label) : State := match follow true 4 2 ls make with Some s => s | None => make end.

Lemma demo_reaches ls : Forall allowed ls -> is_Some (follow true 4 2 ls make) ->
  reaches true 4 2 (concat (map given_by ls)) (demo_writer ls).
Proof.
  intros Ha [s E]. unfold demo_writer. rewrite E. exact (follow_reaches true 4 2 ls [] make s (reaches_make _ _ _) Ha E).
Qed.

Lemma writer_loses_nothing_witness :
  let s := demo_writer (demo_labels ++ demo_end) in
  (forall l r, allowed l -> WriterThread.step true 4 2 l s = Some r ->
     (exists s', r = Done s') \/ (too_late l s /\ r = Faulted Undefined)) /\
  (exists more, bytes_of [1; 2; 3; 4; 5] = file s ++ more) /\
  (WriterThread.step true 4 2 LChild s = None -> child s <> CExited ->
     parent s = PSignal \/ parent s = PSignalDone \/ data_ s = [] /\ done_ s = false) /\
  (parent s = PClosed -> file s = bytes_of [1; 2; 3; 4; 5]).
Proof.
  refine (writer_loses_nothing true 4 2 eq_refl eq_refl [bytes_of [1; 2; 3]; bytes_of [4; 5]] (demo_writer (demo_labels ++ demo_end)) _).
  apply (demo_reaches (demo_labels ++ demo_end)); [by repeat constructor|]. eexists. vm_compute. reflexivity.
Defined.

Example demo_closed : parent (demo_writer (demo_labels ++ demo_end)) = PClosed /\
  file (demo_writer (demo_labels ++ demo_end)) = bytes_of [1; 2; 3; 4; 5].
Proof. split; vm_compute; reflexivity. Qed.

(** The timer goes off when the thread is about to write the last buffer, in another
    thread, whose handler gets no further before the destructor has ended. *)
Definition late_labels : list label :=
  [LChild; LWrite (bytes_of [1; 2]); LParent; LChild; LDestroy; LTimer; LParent] ++ replicate 6 LChild ++ replicate 2 LParent.

(** The handler of the timer's signal outlives the writer: StopTimer deletes the timer,
    and nobody waits for a handler that runs.  It signals through an object that is no
    more. *)
Theorem handler_outlives_writer :
  let s := demo_writer late_labels in
  reaches true 4 2 [bytes_of [1; 2]] s /\ parent s = PClosed /\ file s = bytes_of [1; 2] /\
  WriterThread.step true 4 2 LHandler s = Some (Faulted Undefined).
Proof.
  split; [|split_and!; vm_compute; reflexivity]. apply (demo_reaches late_labels); [by repeat constructor|]. eexists. vm_compute. reflexivity.
Qed.

Lemma destructor_ends_witness :
  (parent (demo_writer demo_labels) <> PClosed -> exists l, (l = LParent \/ l = LChild) /\ WriterThread.step true 4 2 l (demo_writer demo_labels) <> None) /\
  (forall l s', WriterThread.step true 4 2 l (demo_writer demo_labels) = Some (Done s') ->
     done_ s' = true /\ (rank s' <= rank (demo_writer demo_labels))%nat /\ (advances l = true -> (rank s' < rank (demo_writer demo_labels))%nat)).
Proof.
  refine (destructor_ends true 4 2 eq_refl eq_refl [bytes_of [1; 2; 3]; bytes_of [4; 5]] (demo_writer demo_labels) _ _).
  - apply (demo_reaches demo_labels); [by repeat constructor|]. eexists. vm_compute. reflexivity.
  - vm_compute. reflexivity.
Defined.
