(* ===== verification/FileReader.v ===== *)
(** * telemetry/file_reader.cc: reading a log

    [FileReader::Impl] over the contents of a file: the header, the index, the
    scan for items, the reading of one, and the search by time.  A pointer to
    a [Record] is its place in [records_]. *)
From stdpp Require Import gmap.
From S2P Require Import Prelude Varuint Streams TimeConversions TelemetryFormat Archive Schema FileWriter.
#[local] Open Scope Z_scope.

(** ** Exceptions of the reader

    One label for each error of telemetry/error.h that is thrown here and for
    what the standard library throws; the labels of a program are distinct,
    the numbers of [errc] are not used. *)
Definition kSystemError : Z := 5.
Definition kInvalidHeader : Z := 6.
Definition kInvalidBlockType : Z := 7.
Definition kInvalidHeaderFlags : Z := 8.
Definition kUnknownBlockDataFlag : Z := 9.
Definition kUnknownBlockSchemaFlag : Z := 10.
Definition kUnknownIndexFlag : Z := 11.
Definition kUnknownSeekMarkerFlag : Z := 12.
Definition kDataChecksumMismatch : Z := 13.
Definition kDecompressionError : Z := 14.
Definition kOutOfRange : Z := 15.

(** ** base/file_stream.h over the [FilePtr] of the reader

    The position may lie behind the end, where reading finds nothing. *)
Module FileStream.

Record t := { contents : list byte; offset : Z; gcount : Z }.

Definition make (contents : list byte) : t := {| contents := contents; offset := 0; gcount := 0 |}.

Definition size (f : t) : Z := zlen (contents f).
Definition Tell (f : t) : Z := offset f.

Definition Seek (index : Z) (f : t) : outcome t :=
  if index <? 0 then Faulted (Exception kSystemError)
  else Done {| contents := contents f; offset := index; gcount := gcount f |}.

(** [fseek] from the current position, which stays in [off_t]. *)
Definition ignore (f : t) (n : Z) : outcome t :=
  if (offset f + n <? 0) || (2 ^ 63 <=? offset f + n) then Faulted (Exception kSystemError)
  else Done {| contents := contents f; offset := offset f + n; gcount := gcount f |}.

Definition read (f : t) (n : Z) : outcome (list byte * t) :=
  let bs := ztake n (zdrop (offset f) (contents f)) in
  Done (bs, {| contents := contents f; offset := offset f + zlen bs; gcount := zlen bs |}).

#[global] Instance read_stream : ReadStream t :=
  {| rs_read := read; rs_ignore := ignore; rs_gcount := gcount |}.
End FileStream.

(** ** [BlockStream]: at most the bytes of a block *)
Module BlockStream.
Section BlockStream.
Context {S : Type} `{ReadStream S}.

Record t := { base : S; remaining : Z }.

Definition make (base : S) (size : Z) : t := {| base := base; remaining := size |}.

Definition ignore (s : t) (size : Z) : outcome t :=
  _ ← mj_assert (size <=? remaining s);
  b ← rs_ignore (base s) size;
  Done {| base := b; remaining := remaining s - size |}.

Definition read (s : t) (size : Z) : outcome (list byte * t) :=
  _ ← mj_assert (size <=? remaining s);
  '(bs, b) ← rs_read (base s) size;
  Done (bs, {| base := b; remaining := remaining s - size |}).

Definition shrink (size : Z) (s : t) : t := {| base := base s; remaining := remaining s - size |}.
Definition with_base (b : S) (s : t) : t := {| base := b; remaining := remaining s |}.

(** The destructor; an exception in it ends the program. *)
Definition close (s : t) : outcome S :=
  if 0 <? remaining s then
    match rs_ignore (base s) (remaining s) with
    | Done b => Done b
    | Faulted _ => Faulted Assertion
    end
  else Done (base s).

#[global] Instance read_stream : ReadStream t :=
  {| rs_read := read; rs_ignore := ignore; rs_gcount s := rs_gcount (base s) |}.
End BlockStream.
Arguments t S : clear implicits.
End BlockStream.

(** [std::string::resize] before a read, and what is in it after. *)
Definition string_resize (n : Z) : outcome unit :=
  if (n <? 0) || (max_size <? n) then Faulted (Exception kLengthError) else Done tt.
Definition read_string {S} `{ReadStream S} (n : Z) (s : S) : outcome (list byte * S) :=
  _ ← string_resize n;
  '(bs, s) ← rs_read s n;
  Done (bs ++ replicate (Z.to_nat (n - zlen bs)) (byte.of_Z 0), s).

Module FileReader.
Section FileReader.
Import TelemetryReader.
Context `{CrcType} `{LogClock} `{Snappy}.

Record Record_ := {
  identifier : Z;
  name : list byte;
  raw_schema : list byte;
  schema : BinarySchemaParser.Element;
  record_flags : Z;
}.

(** [Filter]: everything passes, nothing does, or the records of some names;
    names that are not known yet are waited for. *)
Inductive Filter :=
  | NoFilter
  | ItemRangeContext (all : bool) (unknown_names : gset (list byte)) (ids : gset Z).

Definition check (f : Filter) (id : Z) : bool :=
  match f with
  | NoFilter => false
  | ItemRangeContext all _ ids => if all then true else bool_decide (id ∈ ids)
  end.

Definition new_schema (f : Filter) (id : Z) (name : list byte) : Filter :=
  match f with
  | NoFilter => NoFilter
  | ItemRangeContext all unknown ids =>
      if bool_decide (name ∈ unknown)
      then ItemRangeContext all (unknown ∖ {[name]}) (ids ∪ {[id]}) else f
  end.

Record State := {
  verify_checksums : bool;
  file : FileStream.t;
  records : list Record_;
  id_to_record : gmap Z nat;
  name_to_record : gmap (list byte) nat;
  final_item_ : Z;
  has_index : bool;
  all_records_found : bool;
  start_ : Z;
}.

Definition with_file (f : FileStream.t) (s : State) : State :=
  {| verify_checksums := verify_checksums s; file := f; records := records s;
     id_to_record := id_to_record s; name_to_record := name_to_record s;
     final_item_ := final_item_ s; has_index := has_index s;
     all_records_found := all_records_found s; start_ := start_ s |}.
Definition with_records (r : list Record_) (i : gmap Z nat) (n : gmap (list byte) nat) (s : State) : State :=
  {| verify_checksums := verify_checksums s; file := file s; records := r;
     id_to_record := i; name_to_record := n;
     final_item_ := final_item_ s; has_index := has_index s;
     all_records_found := all_records_found s; start_ := start_ s |}.
Definition with_final (i : Z) (s : State) : State :=
  {| verify_checksums := verify_checksums s; file := file s; records := records s;
     id_to_record := id_to_record s; name_to_record := name_to_record s;
     final_item_ := i; has_index := has_index s;
     all_records_found := all_records_found s; start_ := start_ s |}.
Definition with_found (index found : bool) (s : State) : State :=
  {| verify_checksums := verify_checksums s; file := file s; records := records s;
     id_to_record := id_to_record s; name_to_record := name_to_record s;
     final_item_ := final_item_ s; has_index := index;
     all_records_found := found; start_ := start_ s |}.

(** [ReadHeader]: nothing at the end of the data; a type that does not exist
    throws or counts as nothing. *)
Record Header := { type : Z; size : Z }.

Definition ReadHeader {S} `{ReadStream S} (stream : S) (throw_on_error : bool)
    : outcome (option Header * S) :=
  '(maybe_type, stream) ← ReadVaruint stream;
  match maybe_type with
  | None => Done (None, stream)
  | Some type =>
      if (kSeekMarker <? type) || (type =? 0) then
        if throw_on_error then Faulted (Exception kInvalidBlockType) else Done (None, stream)
      else
        '(size, stream) ← BinarySchemaParser.value_of (ReadVaruint stream);
        Done (Some {| type := type; size := size |}, stream)
  end.

(** [ProcessSchema]: a schema block's record, made at its first sight. *)
Definition ProcessSchema (block_stream : BlockStream.t FileStream.t) (filter : option Filter)
    (s : State) : outcome (nat * BlockStream.t FileStream.t * option Filter * State) :=
  '(identifier, stream) ← BinarySchemaParser.value_of (ReadVaruint block_stream);
  match id_to_record s !! identifier with
  | Some record => Done (record, stream, filter, s)
  | None =>
      '(flags, stream) ← BinarySchemaParser.value_of (ReadVaruint stream);
      if negb (flags =? 0) then Faulted (Exception kUnknownBlockSchemaFlag)
      else
        '(name, stream) ← BinarySchemaParser.value_of (ReadString stream);
        '(raw_schema, stream) ← read_string (BlockStream.remaining stream) stream;
        schema ← BinarySchemaParser.parse raw_schema name;
        let i := length (records s) in
        let s := with_records
          (records s ++ [{| identifier := identifier; name := name; raw_schema := raw_schema;
                            schema := schema; record_flags := flags |}])
          (<[identifier := i]> (id_to_record s)) (<[name := i]> (name_to_record s)) s in
        Done (i, stream, (fun f => new_schema f identifier name) <$> filter, s)
  end.

(** [ReadUntil]: where the next item of the filter starts and ends, or -1 at
    the end of the file.  A block takes at least two bytes. *)
Fixpoint ReadUntil_loop (fuel : nat) (filter : Filter) (s : State)
    : outcome (Z * Z * Filter * State) :=
  match fuel with
  | O => Faulted OutOfFuel
  | S fuel =>
      let start := FileStream.Tell (file s) in
      '(maybe_header, f) ← ReadHeader (file s) true;
      match maybe_header with
      | None => Done (-1, -1, filter, with_file f s)
      | Some header =>
          let block_stream := BlockStream.make f (s64 (size header)) in
          if type header =? kData then
            let s := if final_item_ s <? start then with_final start s else s in
            '(identifier, stream) ← BinarySchemaParser.value_of (ReadVaruint block_stream);
            f ← BlockStream.close stream;
            if check filter identifier then
              let next := FileStream.Tell (BlockStream.base stream) + BlockStream.remaining stream in
              Done (start, next, filter, with_file f s)
            else ReadUntil_loop fuel filter (with_file f s)
          else if type header =? kSchema then
            '(_, stream, filter', s) ← ProcessSchema block_stream (Some filter) s;
            f ← BlockStream.close stream;
            ReadUntil_loop fuel (from_option id filter filter') (with_file f s)
          else
            f ← BlockStream.close block_stream;
            ReadUntil_loop fuel filter (with_file f s)
      end
  end.

Definition ReadUntil (start : Z) (filter : Filter) (s : State) : outcome (Z * Z * Filter * State) :=
  f ← FileStream.Seek start (file s);
  ReadUntil_loop (S (length (FileStream.contents f))) filter (with_file f s).

(** [Read]: the item at an index.  The checksum is of the whole block with
    zeros for the checksum itself, which is read past the [CrcReadStream]. *)
Record Item := {
  index : Z;
  timestamp : ptime;
  data : list byte;
  flags : Z;
  record : nat;
}.

Abbreviation crc_block := (BlockStream.t (CrcStream.reader FileStream.t)).

(** What is behind a block of a checksummed file. *)
Definition under (stream : crc_block) : FileStream.t := CrcStream.rbase (BlockStream.base stream).

(** Zeros for the checksum stream, and the true value from the file. *)
Definition read_crc (stream : crc_block) : outcome (Z * crc_block) :=
  let crc := process_bytes (CrcStream.rcrc (BlockStream.base stream)) (le_split 4 0) in
  '(checksum, f) ← BinarySchemaParser.value_of (ReadScalar 4 (under stream));
  Done (checksum, BlockStream.shrink 4
                    (BlockStream.with_base {| CrcStream.rbase := f; CrcStream.rcrc := crc |} stream)).

(** [check_flags]: is the flag there, and the flags without it. *)
Definition check_flags (flags flag : Z) : bool * Z :=
  if negb (Z.land flags flag =? 0) then (true, Z.ldiff flags flag) else (false, flags).

Definition decompress (data : list byte) : outcome (list byte) :=
  match GetUncompressedLength data with
  | None => Faulted (Exception kDecompressionError)
  | Some decompressed_size =>
      _ ← string_resize decompressed_size;
      match RawUncompress data with
      | None => Faulted (Exception kDecompressionError)
      | Some decompressed => Done decompressed
      end
  end.

Definition Read (index : Z) (s : State) : outcome (Item * State) :=
  f ← FileStream.Seek index (file s);
  '(maybe_header, crc_stream) ← ReadHeader (CrcStream.make_reader f) true;
  match maybe_header with
  | None => Faulted Assertion
  | Some header =>
      _ ← mj_assert (type header =? kData);
      let stream := BlockStream.make crc_stream (s64 (size header)) in
      '(identifier, stream) ← BinarySchemaParser.value_of (ReadVaruint stream);
      '(flags, stream) ← BinarySchemaParser.value_of (ReadVaruint stream);
      let '(has_previous, rest) := check_flags flags kPreviousOffset in
      stream ← (if has_previous then '(_, stream) ← ReadVaruint stream; Done stream else Done stream);
      let '(has_timestamp, rest) := check_flags rest kTimestampFlag in
      '(timestamp, stream) ←
        (if has_timestamp then BinarySchemaParser.value_of (ReadTimestamp stream)
         else Done (not_a_date_time, stream));
      let '(has_checksum, rest) := check_flags rest kChecksum in
      '(maybe_checksum, stream) ←
        (if has_checksum then '(c, stream) ← read_crc stream; Done (Some c, stream)
         else Done (None, stream));
      let '(snappy, rest) := check_flags rest kSnappy in
      if negb (rest =? 0) then Faulted (Exception kUnknownBlockDataFlag)
      else
        '(data, stream) ← read_string (BlockStream.remaining stream) stream;
        data ← (if snappy : bool then decompress data else Done data);
        _ ← match maybe_checksum with
            | Some c =>
                if verify_checksums s &&
                   negb (c =? u32 (checksum (CrcStream.rcrc (BlockStream.base stream))))
                then Faulted (Exception kDataChecksumMismatch) else Done tt
            | None => Done tt
            end;
        match id_to_record s !! identifier with
        | None => Faulted (Exception kOutOfRange)
        | Some record =>
            crc_stream ← BlockStream.close stream;
            Done ({| index := index; timestamp := timestamp; data := data; flags := flags;
                     record := record |}, with_file (CrcStream.rbase crc_stream) s)
        end
  end.

(** [FullScan] *)
Definition FullScan (s : State) : outcome State :=
  '(_, _, _, s) ← ReadUntil (start_ s) NoFilter s;
  Done (with_found (has_index s) true s).

Definition ensure_scanned (s : State) : outcome State :=
  if all_records_found s then Done s else FullScan s.

(** [record] by name; what it returns is a place in [records_]. *)
Definition find_record (s : State) (name : list byte) : outcome (option nat * State) :=
  match name_to_record s !! name with
  | Some i => Done (Some i, s)
  | None =>
      if all_records_found s then Done (None, s)
      else s ← FullScan s; Done (name_to_record s !! name, s)
  end.

Definition all_records (s : State) : outcome (list Record_ * State) :=
  s ← ensure_scanned s; Done (records s, s).

Definition final_item (s : State) : outcome (Z * State) :=
  s ← ensure_scanned s; Done (final_item_ s, s).

(** [items]: the iterators of the range.  The [end] of the options is not
    looked at. *)
Record ItemsOptions := { option_records : list (list byte); option_start : Z; option_end : Z }.

Fixpoint filter_names (names : list (list byte)) (unknown : gset (list byte)) (ids : gset Z) (s : State)
    : gset (list byte) * gset Z :=
  match names with
  | [] => (unknown, ids)
  | name :: names =>
      match name_to_record s !! name ≫= fun i => records s !! i with
      | Some r => filter_names names unknown (ids ∪ {[identifier r]}) s
      | None => filter_names names (unknown ∪ {[name]}) ids s
      end
  end.

Definition items_filter (o : ItemsOptions) (s : State) : Filter :=
  let '(unknown, ids) := filter_names (option_records o) ∅ ∅ s in
  ItemRangeContext (match option_records o with [] => true | _ => false end) unknown ids.

Definition range_begin (o : ItemsOptions) (filter : Filter) (s : State) : outcome (Z * Filter * State) :=
  '(first, _, filter, s) ←
    ReadUntil (if option_start o <? 0 then start_ s else option_start o) filter s;
  Done (first, filter, s).

(** [operator++] *)
Definition advance (index : Z) (filter : Filter) (s : State) : outcome (Z * Filter * State) :=
  '(_, after, filter, s) ← ReadUntil index filter s;
  '(advanced, _, filter, s) ← ReadUntil after filter s;
  Done (advanced, filter, s).

(** A loop over the items from the iterator at [index] to the end.  The body
    says whether to go on. *)
Fixpoint for_items {A} (fuel : nat) (body : Item -> A -> A * bool) (index : Z) (filter : Filter)
    (s : State) (a : A) : outcome (A * State) :=
  match fuel with
  | O => Faulted OutOfFuel
  | S fuel =>
      if index =? -1 then Done (a, s)
      else
        '(item, s) ← Read index s;
        let '(a, continue) := body item a in
        if continue : bool then
          '(index, filter, s) ← advance index filter s;
          for_items fuel body index filter s a
        else Done (a, s)
  end.

Definition items {A} (o : ItemsOptions) (body : Item -> A -> A * bool) (s : State) (a : A)
    : outcome (A * State) :=
  '(index, filter, s) ← range_begin o (items_filter o s) s;
  for_items (S (length (FileStream.contents (file s)))) body index filter s a.

(** All the items of a log, of the records named. *)
Definition read_items (names : list (list byte)) (s : State) : outcome (list Item * State) :=
  items {| option_records := names; option_start := -1; option_end := -1 |}
    (fun item l => (l ++ [item], true)) s [].

(** *** Seek markers *)
Record SeekMarkerResult := {
  marker_timestamp : ptime;
  marker_index : Z;
  seek_result : gmap nat Z;
}.

(** One element of a marker; [insert] keeps what is there already. *)
Definition read_entry (possible_start : Z) (ids : gmap Z nat) (r : gmap nat Z * crc_block)
    : outcome (gmap nat Z * crc_block) :=
  let '(result, stream) := r in
  '(identifier, stream) ← BinarySchemaParser.value_of (ReadVaruint stream);
  '(previous_offset, stream) ← BinarySchemaParser.value_of (ReadVaruint stream);
  match ids !! identifier with
  | None => Faulted (Exception kOutOfRange)
  | Some record =>
      Done (match result !! record with
            | Some _ => result
            | None => <[record := s64 (u64 (possible_start - previous_offset))]> result
            end, stream)
  end.

(** [EvaluateSeekMarker]: [index] is the last byte of the eight, and the file
    is behind it. *)
Definition EvaluateSeekMarker (index : Z) (s : State) : outcome (option SeekMarkerResult * State) :=
  '(_, f) ← ReadScalar 4 (file s);
  '(header_len, f) ← BinarySchemaParser.value_of (ReadScalar 1 f);
  if 10 <? header_len then Done (None, with_file f s)
  else
    let possible_start := index - 7 - header_len in
    if possible_start <? start_ s then Done (None, with_file f s)
    else
      f ← FileStream.Seek possible_start f;
      '(maybe_header, crc_stream) ← ReadHeader (CrcStream.make_reader f) false;
      match maybe_header with
      | None => Done (None, with_file (CrcStream.rbase crc_stream) s)
      | Some header =>
          if negb (type header =? kSeekMarker)
          then Done (None, with_file (CrcStream.rbase crc_stream) s)
          else
            let stream := BlockStream.make crc_stream (s64 (size header)) in
            '(_, stream) ← BinarySchemaParser.value_of (ReadScalar 8 stream);
            '(crc, stream) ← read_crc stream;
            '(_, stream) ← BinarySchemaParser.value_of (ReadScalar 1 stream);
            '(flags, stream) ← BinarySchemaParser.value_of (ReadVaruint stream);
            if negb (flags =? 0) then Faulted (Exception kUnknownSeekMarkerFlag)
            else
              '(timestamp, stream) ← BinarySchemaParser.value_of (ReadTimestamp stream);
              '(nelements, stream) ← BinarySchemaParser.value_of (ReadVaruint stream);
              '(result, stream) ← times (read_entry possible_start (id_to_record s)) nelements (∅, stream);
              let left := BlockStream.remaining stream in
              let crc_stream := BlockStream.base stream in
              c ← BlockStream.close stream;
              let s := with_file (CrcStream.rbase c) s in
              if negb (left =? 0) then Done (None, s)
              else if negb (crc =? u32 (checksum (CrcStream.rcrc crc_stream))) then Done (None, s)
              else Done (Some {| marker_timestamp := timestamp; marker_index := possible_start;
                                 seek_result := result |}, s)
      end.

Definition to_match : list Z := [0x64; 0x75; 0x86; 0x97; 0xa8; 0xb9; 0xca; 0xfd].

(** The loop of [FindSeekMarker]; [index] is the byte about to be read, but
    for the detour after a marker that was not one. *)
Fixpoint FindSeekMarker_loop (fuel : nat) (index stop_point : Z) (matched : nat) (s : State)
    : outcome (option SeekMarkerResult * State) :=
  match fuel with
  | O => Faulted OutOfFuel
  | S fuel =>
      '(bs, f) ← rs_read (file s) 1;
      let c := match bs with b :: _ => byte.unsigned b | [] => 0 end in
      let s := with_file f s in
      let continue (matched : nat) (s : State) :=
        let index := index + 1 in
        if stop_point <=? index then Done (None, s)
        else FindSeekMarker_loop fuel index stop_point matched s in
      if bool_decide (to_match !! matched = Some c) then
        if Nat.eqb (S matched) 8 then
          '(maybe_result, s) ← EvaluateSeekMarker index s;
          match maybe_result with
          | Some result => Done (Some result, s)
          | None =>
              f ← FileStream.Seek index (file s);
              continue 0%nat (with_file f s)
          end
        else continue (S matched) s
      else continue 0%nat s
  end.

Definition FindSeekMarker (index end_ : Z) (s : State) : outcome (option SeekMarkerResult * State) :=
  f ← FileStream.Seek index (file s);
  let stop_point := Z.min (FileStream.size f) end_ in
  FindSeekMarker_loop (S (Z.to_nat (stop_point - index))) index stop_point 0 (with_file f s).

(** [Seek] *)
Definition kMinSpacing : Z := Z.shiftl 1 16.

Fixpoint Seek_loop (fuel : nat) (time : ptime) (low high : Z) (result : gmap nat Z) (s : State)
    : outcome (Z * Z * gmap nat Z * State) :=
  match fuel with
  | O => Faulted OutOfFuel
  | S fuel =>
      if kMinSpacing <? high - low then
        let mid_search_point := low + Z.quot (high - low) 2 in
        '(seek, s) ← FindSeekMarker mid_search_point high s;
        match seek with
        | None => Done (low, high, result, s)
        | Some m =>
            if ptime_leb (marker_timestamp m) time
            then Seek_loop fuel time (marker_index m) high (seek_result m) s
            else Seek_loop fuel time low (marker_index m) result s
        end
      else Done (low, high, result, s)
  end.

(** The body of its last loop. *)
Definition seek_item (time : ptime) (item : Item) (result : gmap nat Z) : gmap nat Z * bool :=
  if is_not_a_date_time (timestamp item) then (result, false)
  else if negb (ptime_leb (timestamp item) time) then (result, false)
  else
    let current_last := from_option id 0 (result !! record item) in
    (<[record item := if current_last <? index item then index item else current_last]> result, true).

Definition Seek (time : ptime) (s : State) : outcome (gmap nat Z * State) :=
  s ← ensure_scanned s;
  '(low, high, result, s) ←
    Seek_loop (S (length (FileStream.contents (file s)))) time (start_ s) (final_item_ s) ∅ s;
  items {| option_records := []; option_start := low; option_end := high |} (seek_item time) s result.

(** *** The index *)
Record LocalRecord := { local_identifier : Z; schema_location : Z; final_record : Z }.

Definition read_local (r : list LocalRecord * FileStream.t)
    : outcome (list LocalRecord * FileStream.t) :=
  let '(l, f) := r in
  '(identifier, f) ← BinarySchemaParser.value_of (ReadVaruint f);
  '(location, f) ← BinarySchemaParser.value_of (ReadScalar 8 f);
  '(final, f) ← BinarySchemaParser.value_of (ReadScalar 8 f);
  Done (l ++ [{| local_identifier := identifier; schema_location := s64 location;
                 final_record := s64 final |}], f).

Definition process_local (s : State) (l : LocalRecord) : outcome State :=
  f ← FileStream.Seek (schema_location l) (file s);
  '(header, f) ← BinarySchemaParser.value_of (ReadHeader f true);
  let block_stream := BlockStream.make f (s64 (size header)) in
  '(i, stream, _, s) ← ProcessSchema block_stream None (with_file f s);
  _ ← mj_assert (match records s !! i with
                 | Some r => identifier r =? local_identifier l
                 | None => false
                 end);
  f ← BlockStream.close stream;
  let s := with_file f s in
  Done (if final_item_ s <? final_record l then with_final (final_record l) s else s).

Fixpoint process_locals (l : list LocalRecord) (s : State) : outcome State :=
  match l with
  | [] => Done s
  | r :: l => s ← process_local s r; process_locals l s
  end.

Definition MaybeProcessIndex (s : State) : outcome State :=
  let n := FileStream.size (file s) in
  f ← FileStream.Seek (n - 8) (file s);
  '(trailer, f) ← rs_read f 8;
  if negb (bool_decide (trailer = FileWriter.kIndexTrailer)) then Done (with_file f s)
  else
    f ← FileStream.Seek (n - 12) f;
    '(trailer_size, f) ← BinarySchemaParser.value_of (ReadScalar 4 f);
    if n - start_ s <=? trailer_size then Done (with_file f s)
    else
      f ← FileStream.Seek (n - trailer_size) f;
      '(maybe_header, f) ← ReadHeader f true;
      match maybe_header with
      | None => Done (with_file f s)
      | Some header =>
          if negb (type header =? kIndex) then Done (with_file f s)
          else
            '(flags, f) ← BinarySchemaParser.value_of (ReadVaruint f);
            if negb (flags =? 0) then Faulted (Exception kUnknownIndexFlag)
            else
              '(nelements, f) ← BinarySchemaParser.value_of (ReadVaruint f);
              '(local_records, f) ← times read_local nelements ([], f);
              _ ← mj_assert (match records s with [] => true | _ => false end);
              s ← process_locals local_records (with_final 0 (with_file f s));
              Done (with_found true true s)
      end.

(** The constructor over what is in the file. *)
Definition Open (verify : bool) (contents : list byte) : outcome State :=
  '(header, f) ← rs_read (FileStream.make contents) 8;
  if negb (bool_decide (header = kHeader)) then Faulted (Exception kInvalidHeader)
  else
    '(header_flags, f) ← ReadVaruint f;
    if negb (bool_decide (header_flags = Some 0)) then Faulted (Exception kInvalidHeaderFlags)
    else
      MaybeProcessIndex {| verify_checksums := verify; file := f; records := [];
        id_to_record := ∅; name_to_record := ∅; final_item_ := -1; has_index := false;
        all_records_found := false; start_ := FileStream.Tell f |}.
End FileReader.
End FileReader.
