(* ===== verification/LogFormat.v ===== *)
(** * The format of a log, as telemetry/README.md describes it

    A log is a header and a series of blocks.  [encode] is the bytes of a
    block; what [FileWriter] writes and what [FileReader] finds are both stated
    with it. *)
From stdpp Require Import gmap sorting.
From S2P Require Import Prelude Varuint Streams TimeConversions TelemetryFormat FileWriter.
#[local] Open Scope Z_scope.

(** A name, a time and payload as they stand in the file: points in time are
    microseconds. *)
Inductive block :=
  | BSchema (id : Z) (name schema : list byte)
  | BData (id : Z) (previous time : option Z) (check comp : bool) (payload : list byte)
  | BSeek (time : Z) (entries : list (Z * Z))
  | BIndex (entries : list (Z * Z * Z)).

Definition block_bytes (type : Z) (body : list byte) : list byte :=
  vbytes type ++ vbytes (zlen body) ++ body.

Definition opt_bytes {A} (f : A -> list byte) (o : option A) : list byte :=
  match o with Some a => f a | None => [] end.
Definition time_bytes (us : Z) : list byte := le_split 8 us.

Definition schema_body (id : Z) (name schema : list byte) : list byte :=
  vbytes id ++ vbytes 0 ++ (vbytes (zlen name) ++ name) ++ schema.

Definition flag_if (b : bool) (f : Z) : Z := if b then f else 0.
Definition is_some {A} (o : option A) : bool := match o with Some _ => true | None => false end.

Definition data_flags (previous time : option Z) (check comp : bool) : Z :=
  Z.lor (Z.lor (Z.lor (flag_if (is_some previous) kPreviousOffset)
    (flag_if (is_some time) kTimestampFlag)) (flag_if check kChecksum)) (flag_if comp kSnappy).

Definition data_front (id : Z) (previous time : option Z) (check comp : bool) : list byte :=
  vbytes id ++ vbytes (data_flags previous time check comp) ++
  opt_bytes vbytes previous ++ opt_bytes time_bytes time.

(** The body of a seek block, with its checksum and the size of its header. *)
Definition entry_offset_bytes (e : Z * Z) : list byte := vbytes (fst e) ++ vbytes (snd e).
Definition seek_body (time : Z) (entries : list (Z * Z)) (crc header_size : Z) : list byte :=
  le_split 8 FileWriter.kSeekMarkerValue ++ le_split 4 crc ++ le_split 1 header_size ++
  vbytes 0 ++ time_bytes time ++ vbytes (zlen entries) ++ concat (map entry_offset_bytes entries).

Definition index_entry_bytes (e : Z * Z * Z) : list byte :=
  let '(id, position, last) := e in vbytes id ++ le_split 8 (u64 position) ++ le_split 8 (u64 last).
Definition index_front (entries : list (Z * Z * Z)) : list byte :=
  vbytes 0 ++ vbytes (zlen entries) ++ concat (map index_entry_bytes entries).
Definition index_size (entries : list (Z * Z * Z)) : Z :=
  let n := zlen (index_front entries) + 4 + 8 in 1 + vu_len n + n.
Definition index_body (entries : list (Z * Z * Z)) : list byte :=
  index_front entries ++ le_split 4 (u32 (index_size entries)) ++ FileWriter.kIndexTrailer.

Section format.
Context `{CrcType} `{Snappy}.

Definition crc32 (d : list byte) : Z := u32 (crc_of d).

(** A block whose body holds its own checksum: that of the block with zeros
    for it. *)
Definition sealed (type : Z) (body : Z -> list byte) : list byte :=
  block_bytes type (body (crc32 (block_bytes type (body 0)))).

Definition stored_payload (comp : bool) (payload : list byte) : list byte :=
  if comp then RawCompress payload else payload.

Definition encode (b : block) : list byte :=
  match b with
  | BSchema id name schema => block_bytes kSchema (schema_body id name schema)
  | BData id previous time check comp payload =>
      let front := data_front id previous time check comp in
      let stored := stored_payload comp payload in
      if check then sealed kData (fun crc => front ++ le_split 4 crc ++ stored)
      else block_bytes kData (front ++ stored)
  | BSeek time entries =>
      sealed kSeekMarker (fun crc => seek_body time entries crc
        (1 + vu_len (zlen (seek_body time entries 0 0))))
  | BIndex entries => block_bytes kIndex (index_body entries)
  end.

Definition log_header : list byte := kHeader ++ vbytes 0.
Definition log_bytes (l : list block) : list byte := log_header ++ concat (map encode l).

Lemma log_bytes_app l k : log_bytes (l ++ k) = log_bytes l ++ concat (map encode k).
Proof. unfold log_bytes. by rewrite map_app, concat_app, app_assoc. Qed.

Lemma zlen_log_snoc l b : zlen (log_bytes (l ++ [b])) = zlen (log_bytes l) + zlen (encode b).
Proof. rewrite log_bytes_app, zlen_app. cbn. by rewrite app_nil_r. Qed.

Lemma zlen_log_mono l k : zlen (log_bytes l) <= zlen (log_bytes (l ++ k)).
Proof. rewrite log_bytes_app, zlen_app. pose proof (zlen_nonneg (concat (map encode k))). lia. Qed.
End format.

Lemma zlen_sealed type (body : Z -> list byte) :
  (forall c c', zlen (body c) = zlen (body c')) -> forall c c',
  zlen (block_bytes type (body c)) = zlen (block_bytes type (body c')).
Proof. intros E c c'. unfold block_bytes. rewrite !zlen_app, (E c c'). done. Qed.

Lemma zlen_vbytes v : in_u 64 v -> zlen (vbytes v) = vu_len v.
Proof. intros Hv. apply vbytes_wf, Hv. Qed.

Lemma GetVaruintSize_len v : in_u 64 v -> GetVaruintSize v = Done (vu_len v).
Proof.
  intros Hv. pose proof (vu_len_u64 v Hv). unfold GetVaruintSize.
  rewrite tel_GetVaruintSize_loop_spec; [done|by apply u64_fuel|lia..].
Qed.

(** Six bytes hold 42 bits. *)
Lemma vu_len_42 v : 0 <= v < 2 ^ 42 -> vu_len v <= 6.
Proof.
  intros Hv. unfold vu_len. destruct (Z.eqb_spec v 0); [lia|].
  assert (Z.log2 v <= 41) by (apply Z.lt_succ_r, Z.log2_lt_pow2; simpl; lia).
  assert (Z.log2 v / 7 <= 41 / 7) by (apply Z.div_le_mono; lia).
  change (41 / 7) with 5 in *. lia.
Qed.

Lemma data_flags_small previous time check comp :
  0 <= data_flags previous time check comp < 128.
Proof. destruct previous, time, check, comp; vm_compute; split; congruence. Qed.

(** A map of the standard library in the order of its keys holds what the map
    holds. *)
Lemma in_order_perm {A} (m : gmap Z A) : in_order m ≡ₚ map_to_list m.
Proof. apply merge_sort_Permutation. Qed.

Lemma elem_of_in_order {A} (m : gmap Z A) p : p ∈ in_order m <-> m !! p.1 = Some p.2.
Proof. rewrite in_order_perm. destruct p. apply elem_of_map_to_list. Qed.

#[export] Instance key_le_total {A} : Total (@key_le A).
Proof. intros a b. unfold key_le. lia. Qed.
#[export] Instance key_le_trans {A} : Transitive (@key_le A).
Proof. intros a b c. unfold key_le. lia. Qed.

Lemma in_order_fmap {A B} (f : A -> B) (m : gmap Z A) :
  in_order (f <$> m) = prod_map id f <$> in_order m.
Proof.
  apply (StronglySorted_unique_strong key_le).
  - intros [i a] [j b] H1%elem_of_in_order H2 Hij Hji. unfold key_le in *. cbn [fst snd] in *.
    assert (i = j) as <- by lia. f_equal.
    apply list_elem_of_fmap in H2 as ([k c] & [= -> ->] & H2%elem_of_in_order). cbn [fst snd id] in *.
    rewrite lookup_fmap, H2 in H1. by injection H1.
  - apply StronglySorted_merge_sort; apply _.
  - assert (Hs : StronglySorted key_le (in_order m)) by (apply StronglySorted_merge_sort; apply _).
    induction Hs as [|p l Hs IH Hp]; cbn; constructor; [exact IH|].
    by apply Forall_fmap.
  - etrans; [apply in_order_perm|]. rewrite map_to_list_fmap.
    apply fmap_Permutation. symmetry. apply in_order_perm.
Qed.

(** ** What the blocks of a log say about each identifier

    Where its schema is, and its last data block since then ([-1] when there
    is none). *)
Record entry := { schema_at : option Z; last_at : Z }.

Definition note (m : gmap Z entry) (at_ : Z) (b : block) : gmap Z entry :=
  match b with
  | BSchema id _ _ => <[id := {| schema_at := Some at_; last_at := -1 |}]> m
  | BData id _ _ _ _ _ => <[id := {| schema_at := (m !! id) ≫= schema_at; last_at := at_ |}]> m
  | BSeek _ _ | BIndex _ => m
  end.

Section tables.
Context `{CrcType} `{Snappy}.

Fixpoint table_from (m : gmap Z entry) (at_ : Z) (l : list block) : gmap Z entry :=
  match l with
  | [] => m
  | b :: l => table_from (note m at_ b) (at_ + zlen (encode b)) l
  end.
Definition table (l : list block) : gmap Z entry := table_from ∅ (zlen log_header) l.

Lemma table_from_app m at_ l k :
  table_from m at_ (l ++ k) = table_from (table_from m at_ l) (at_ + zlen (concat (map encode l))) k.
Proof.
  revert m at_. induction l as [|b l IH]; intros m at_; cbn [app table_from map concat].
  - by rewrite Z.add_0_r.
  - rewrite IH, zlen_app. f_equal. lia.
Qed.

Lemma table_snoc l b : table (l ++ [b]) = note (table l) (zlen (log_bytes l)) b.
Proof. unfold table, log_bytes. by rewrite table_from_app, zlen_app. Qed.

(** The last data block of an identifier is before the end. *)
Lemma note_bound m at_ b end_ :
  map_Forall (fun _ e => -1 <= last_at e <= end_) m -> 0 <= at_ <= end_ ->
  map_Forall (fun _ e => -1 <= last_at e <= end_) (note m at_ b).
Proof.
  intros Hm Ha. destruct b; cbn [note]; try exact Hm;
    (apply map_Forall_insert_2; [cbn; lia|exact Hm]).
Qed.

Lemma table_from_bound m at_ l : 0 <= at_ ->
  map_Forall (fun _ e => -1 <= last_at e <= at_) m ->
  map_Forall (fun _ e => -1 <= last_at e <= at_ + zlen (concat (map encode l))) (table_from m at_ l).
Proof.
  revert m at_. induction l as [|b l IH]; intros m at_ Ha Hm; cbn [table_from map concat].
  - by rewrite Z.add_0_r.
  - pose proof (zlen_nonneg (encode b)). rewrite zlen_app, Z.add_assoc. apply IH; [lia|].
    apply note_bound; [|lia]. eapply map_Forall_impl; [exact Hm|]. cbn. lia.
Qed.

Lemma table_bound l id e : table l !! id = Some e -> -1 <= last_at e <= zlen (log_bytes l).
Proof.
  unfold log_bytes. rewrite zlen_app. revert id e.
  apply (table_from_bound ∅ (zlen log_header) l); [apply zlen_nonneg|]. apply map_Forall_empty.
Qed.
End tables.

(** Entries of a seek block at [at_], and of an index. *)
Definition has_data (p : Z * entry) : bool := 0 <=? last_at p.2.
Definition seek_entries (at_ : Z) (m : gmap Z entry) : list (Z * Z) :=
  map (fun p => (p.1, at_ - last_at p.2)) (List.filter has_data (in_order m)).
Definition index_entries (m : gmap Z entry) : list (Z * Z * Z) :=
  map (fun p => (p.1, default 0 (schema_at p.2), last_at p.2)) (in_order m).

(** ** Which schemas a log has, and where *)
(** Every data block's schema is before it. *)
Fixpoint declared (ids : list Z) (l : list block) : Prop :=
  match l with
  | [] => True
  | BSchema id _ _ :: l => declared (id :: ids) l
  | BData id _ _ _ _ _ :: l => id ∈ ids /\ declared ids l
  | _ :: l => declared ids l
  end.

Definition schema_ids (l : list block) : list Z :=
  omap (fun b => match b with BSchema id _ _ => Some id | _ => None end) l.

Lemma declared_subset ids ids' l : ids ⊆ ids' -> declared ids l -> declared ids' l.
Proof.
  revert ids ids'. induction l as [|b l IH]; intros ids ids' Hs; [done|]. destruct b; cbn [declared].
  - apply IH. set_solver.
  - intros [Hi Hd]. split; [by apply Hs|by eapply IH].
  - by apply IH.
  - by apply IH.
Qed.

Lemma declared_app ids l k : declared ids (l ++ k) -> declared (schema_ids l ++ ids) k.
Proof.
  revert ids. induction l as [|b l IH]; intros ids; [done|].
  destruct b; cbn [app declared]; unfold schema_ids; cbn [omap list_omap]; fold (schema_ids l).
  - intros Hd%IH. eapply declared_subset; [|exact Hd]. set_solver.
  - intros [_ Hd%IH]. exact Hd.
  - apply IH.
  - apply IH.
Qed.

Lemma elem_of_schema_ids l id : id ∈ schema_ids l <-> exists name schema, BSchema id name schema ∈ l.
Proof.
  unfold schema_ids. rewrite list_elem_of_omap. split.
  - intros (b & Hb & E). destruct b; try done. injection E as ->. eauto.
  - intros (name & schema & Hb). by eexists (BSchema id name schema).
Qed.

Lemma declared_prefix ids l k : declared ids (l ++ k) -> declared ids l.
Proof.
  revert ids. induction l as [|b l IH]; intros ids; [done|].
  destruct b; cbn [app declared]; try apply IH. intros [Hi Hd]. split; [done|by apply IH].
Qed.

Lemma declared_join ids l k : declared ids l -> declared (schema_ids l ++ ids) k -> declared ids (l ++ k).
Proof.
  revert ids. induction l as [|b l IH]; intros ids; [done|].
  destruct b; unfold schema_ids; cbn [app declared omap list_omap]; fold (schema_ids l).
  - intros Hl Hk. apply IH; [exact Hl|]. eapply declared_subset; [|exact Hk]. set_solver.
  - intros [Hi Hl] Hk. split; [done|by apply IH].
  - apply IH.
  - apply IH.
Qed.

Lemma schema_ids_app l k : schema_ids (l ++ k) = schema_ids l ++ schema_ids k.
Proof. apply omap_app. Qed.

