(* ===== verification/FileWriterTheory.v ===== *)
(** * FileWriter: every call appends blocks

    What the buffers hold, what the queue and the file hold together, and for
    each operation the blocks it adds to the log. *)
From stdpp Require Import gmap sorting.
From S2P Require Import Prelude Varuint Streams TimeConversions TelemetryFormat FileWriter LogFormat.
#[local] Open Scope Z_scope.

(** ** Buffers *)
Section buffers.
Implicit Types o : OStream.t.

Definition ostream_ok o : Prop :=
  FastOStringStream.ok (OStream.data o) /\
  0 <= OStream.start o <= FastOStringStream.v_size (OStream.data o).

(** [o'] is [o] with [d] written to it. *)
Definition grown o (d : list byte) o' : Prop :=
  ostream_ok o' /\ OStream.start o' = OStream.start o /\
  OStream.content o' = OStream.content o ++ d.

Definition appends (f : OStream.t -> outcome OStream.t) (d : list byte) : Prop :=
  forall o, ostream_ok o -> exists o', f o = Done o' /\ grown o d o'.

Lemma content_size o : ostream_ok o -> zlen (OStream.content o) = OStream.size o.
Proof.
  intros [Hd Hs]. unfold OStream.content, OStream.size, FastOStringStream.str.
  unfold FastOStringStream.ok in Hd. rewrite zlen_drop, zlen_take by lia. lia.
Qed.

Lemma grown_size o d o' : ostream_ok o -> grown o d o' -> OStream.size o' = OStream.size o + zlen d.
Proof.
  intros Ho (Ho' & _ & E). rewrite <- !content_size by done. rewrite E, zlen_app. done.
Qed.

Lemma appends_nil : appends (fun o => Done o) [].
Proof. intros o Ho. exists o. split; [done|]. split; [exact Ho|]. by rewrite app_nil_r. Qed.

Lemma appends_write d : appends (fun o => ws_write o d) d.
Proof.
  intros o [Hd Hs]. destruct (FastOStringStream.fos_write_spec _ d Hd) as (v & E & Hv & Ev).
  cbn [ws_write OStream.write_stream]. unfold OStream.write. rewrite E, bind_done.
  eexists. split; [done|]. unfold grown, ostream_ok, OStream.content.
  cbn [OStream.start OStream.data]. pose proof (f_equal zlen Ev) as Hl.
  pose proof (zlen_nonneg d). unfold FastOStringStream.str, FastOStringStream.ok in *.
  rewrite zlen_app, !zlen_take in Hl by lia. rewrite Ev.
  split; [split; [exact Hv|lia]|]. split; [done|]. apply zdrop_app_le. rewrite zlen_take by lia. lia.
Qed.

Lemma appends_bind f g d e : appends f d -> appends g e -> appends (fun o => f o ≫= g) (d ++ e).
Proof.
  intros Hf Hg o Ho. destruct (Hf o Ho) as (o1 & E1 & Ho1 & S1 & C1).
  destruct (Hg o1 Ho1) as (o2 & E2 & Ho2 & S2 & C2). exists o2. split; [by rewrite E1, bind_done|].
  split; [exact Ho2|]. split; [congruence|]. by rewrite C2, C1, app_assoc.
Qed.

Lemma appends_writes (f : writer) d : writes f d -> appends (f _ _) d.
Proof.
  intros (ds & <- & Hf). assert (Hw : appends (write_all ds) (concat ds)).
  { clear Hf f. induction ds as [|d ds IH]; [exact appends_nil|].
    exact (appends_bind _ _ _ _ (appends_write d) IH). }
  intros o Ho. rewrite Hf. by apply Hw.
Qed.

(** A buffer to write to is empty, whatever a recycled one held. *)
Definition fresh o : Prop :=
  ostream_ok o /\ OStream.start o = FileWriter.kBufferStartPadding /\ OStream.content o = [].

Lemma resize_fresh v :
  fresh {| OStream.data := FastOStringStream.vector_resize v FileWriter.kBufferStartPadding;
           OStream.start := FileWriter.kBufferStartPadding |}.
Proof.
  pose proof (FastOStringStream.zlen_resize v FileWriter.kBufferStartPadding ltac:(done)) as Hl.
  unfold FileWriter.kBufferStartPadding in *.
  unfold fresh, ostream_ok, FastOStringStream.ok, OStream.content, FastOStringStream.str.
  cbn [OStream.data OStream.start FastOStringStream.v_size FastOStringStream.vector_resize].
  split; [split; lia|]. split; [done|]. apply zdrop_ge. rewrite zlen_take by lia. lia.
Qed.

(** ** Room in front of the data *)

(** The bytes before the data are [d]. *)
Lemma set_front o n d b :
  ostream_ok o -> zlen d = n -> n <= OStream.start o ->
  store (OStream.base o) (OStream.start o - n) d = Done b ->
  let o' := OStream.set_start (OStream.start o - n) (OStream.set_base b o) in
  ostream_ok o' /\ OStream.content o' = d ++ OStream.content o.
Proof.
  intros [Hd Hs] Hn Hle E. pose proof (zlen_nonneg d). pose proof (zlen_store _ _ _ _ E) as Hl.
  apply store_inv in E as (_ & _ & ->). unfold OStream.base in *.
  unfold ostream_ok, OStream.content, FastOStringStream.str, FastOStringStream.ok in *.
  cbn [OStream.set_start OStream.set_base OStream.data OStream.start FastOStringStream.v_size
    FastOStringStream.v_base] in *.
  set (v := FastOStringStream.v_size (OStream.data o)) in *.
  set (base := FastOStringStream.v_base (OStream.data o)) in *. split; [lia|].
  replace (OStream.start o - n + zlen d) with (OStream.start o) by lia.
  set (p := ztake (OStream.start o - n) base).
  assert (Hp : zlen p = OStream.start o - n) by (unfold p; rewrite zlen_take by lia; lia).
  rewrite ztake_app, zdrop_app by lia.
  rewrite (ztake_ge v p) by lia. rewrite (zdrop_ge _ p) by lia. cbn [app].
  rewrite Hp, Z.sub_diag, zdrop_0, ztake_app by lia. rewrite (ztake_ge _ d) by lia. f_equal.
  rewrite zdrop_ztake by lia. f_equal. lia.
Qed.
End buffers.

Section spans.
Implicit Types o : OStream.t.

Lemma load_span (b : list byte) i n :
  0 <= i -> 0 <= n -> i + n <= zlen b -> exists span, load b i n = Done span /\ zlen span = n.
Proof.
  intros. rewrite load_done by lia. eexists. split; [done|].
  rewrite zlen_take, zlen_drop by lia. lia.
Qed.

(** A writer that fills a span leaves just what it wrote. *)
Lemma fills_span f d span :
  emits (S := BufferWriteStream.t) f d -> zlen d = zlen span ->
  exists st, f (BufferWriteStream.make span) = Done st /\ BufferWriteStream.buffer st = d.
Proof.
  intros Hf Hd. pose proof (BufferWriteStream.bws_ok_make span) as Hok.
  destruct (Hf (BufferWriteStream.make span) Hok) as (st & E & W).
  { apply Z.leb_le. cbn. lia. }
  exists st. split; [exact E|]. destruct (buffer_wrote _ _ _ Hok W) as (_ & O & Ho & Hl).
  cbn in Ho, Hl. change (BufferWriteStream.out (BufferWriteStream.make span)) with (@nil byte) in O.
  unfold BufferWriteStream.out in O. rewrite ztake_ge in O by lia. exact O.
Qed.

Lemma span_written f d o i :
  emits (S := BufferWriteStream.t) f d -> 0 <= i -> i + zlen d <= zlen (OStream.base o) ->
  exists b, FileWriter.with_span i (zlen d) f o = Done (OStream.set_base b o) /\
    store (OStream.base o) i d = Done b.
Proof.
  intros Hf Hi Hl. unfold FileWriter.with_span. pose proof (zlen_nonneg d).
  destruct (load_span (OStream.base o) i (zlen d)) as (span & -> & Hs); [lia..|]. rewrite bind_done.
  destruct (fills_span f d span Hf) as (st & E & Eb); [lia|]. rewrite E, bind_done, Eb.
  rewrite store_done by lia. eexists. by rewrite bind_done.
Qed.

Lemma base_room o : ostream_ok o ->
  0 <= OStream.start o <= zlen (OStream.base o) /\
  OStream.start o + OStream.size o <= zlen (OStream.base o) /\ 0 <= OStream.size o.
Proof.
  intros [[H1 H2] Hs]. unfold OStream.base, OStream.size in *. lia.
Qed.

Lemma load_from_start o :
  ostream_ok o -> load (OStream.base o) (OStream.start o) (OStream.size o) = Done (OStream.content o).
Proof.
  intros Ho. pose proof (base_room o Ho) as (H1 & H2 & H3). rewrite load_done by lia. f_equal.
  unfold OStream.content, FastOStringStream.str, OStream.size, OStream.base in *.
  by rewrite zdrop_ztake by lia.
Qed.
End spans.

(** ** The queue and the file *)
Definition queued (l : list OStream.t) : list byte := concat (map OStream.content l).
Definition total (w : ThreadWriter.t) : list byte := ThreadWriter.fd w ++ queued (ThreadWriter.data w).

(** Every buffer in the queue has data, and the position is where all of it
    ends. *)
Definition writer_ok (w : ThreadWriter.t) : Prop :=
  Forall (fun o => ostream_ok o /\ 0 < OStream.size o) (ThreadWriter.data w) /\
  ThreadWriter.position w = zlen (total w).

Lemma writer_ok_make : writer_ok ThreadWriter.make.
Proof. by split. Qed.

Lemma Write_total w o :
  writer_ok w -> ostream_ok o -> 0 < OStream.size o ->
  writer_ok (ThreadWriter.Write w o) /\
  total (ThreadWriter.Write w o) = total w ++ OStream.content o.
Proof.
  intros [Hq Hp] Ho Hs.
  assert (E : total (ThreadWriter.Write w o) = total w ++ OStream.content o).
  { unfold total, queued. cbn. rewrite map_app, concat_app. cbn.
    by rewrite app_nil_r, app_assoc. }
  split; [|exact E]. split.
  - cbn. apply Forall_app. split; [exact Hq|]. apply Forall_singleton. by split.
  - rewrite E, zlen_app, content_size by done. cbn. by rewrite Hp.
Qed.

(** What the background thread does changes nothing of the log. *)
Lemma WriteFront_total w :
  writer_ok w -> exists w' o, ThreadWriter.WriteFront w = Done (w', o) /\
    writer_ok w' /\ total w' = total w /\
    length (ThreadWriter.data w') = pred (length (ThreadWriter.data w)).
Proof.
  intros [Hq Hp]. unfold ThreadWriter.WriteFront.
  destruct (ThreadWriter.data w) as [|o q] eqn:Eq.
  { exists w, None. split; [done|]. split; [split; [by rewrite Eq|done]|]. by rewrite Eq. }
  apply Forall_cons_1 in Hq as [[Ho Hs] Hq]. pose proof (base_room o Ho) as (H1 & H2 & H3).
  rewrite (load_from_start o Ho), bind_done.
  rewrite (proj2 (Z.eqb_neq (zlen (OStream.content o)) 0)) by (rewrite content_size by done; lia).
  cbn [negb mj_assert]. rewrite bind_done. eexists _, _. split; [reflexivity|].
  assert (Et : total {| ThreadWriter.position := ThreadWriter.position w; ThreadWriter.data := q;
    ThreadWriter.fd := ThreadWriter.fd w ++ OStream.content o |} = total w).
  { unfold total, queued. cbn. rewrite Eq. cbn. by rewrite <- app_assoc. }
  split; [split; [exact Hq|]|by split]. rewrite Et. exact Hp.
Qed.

Lemma WriteAll_total w :
  writer_ok w -> exists w', ThreadWriter.WriteAll w = Done w' /\ ThreadWriter.fd w' = total w.
Proof.
  unfold ThreadWriter.WriteAll. remember (length (ThreadWriter.data w)) as n eqn:En.
  revert w En. induction n as [|n IH]; intros w En Hw.
  - exists w. split; [done|]. unfold total, queued. destruct (ThreadWriter.data w); [|done].
    by rewrite app_nil_r.
  - cbn [ThreadWriter.WriteAll_loop].
    destruct (WriteFront_total w Hw) as (w1 & o & -> & Hw1 & Et & El). rewrite bind_done.
    rewrite <- En in El. destruct (IH w1 (eq_sym El) Hw1) as (w2 & -> & Ef).
    exists w2. by rewrite Ef.
Qed.

(** ** A data block in front of its payload *)
Section data.
Import FileWriter.
Context `{CrcType} `{LogClock} `{Snappy}.

Definition us_of (t : ptime) : Z := ConvertPtimeToEpochMicroseconds t.

Lemma emits_varuint {S} `{WriteStreamLaws S} v :
  in_u 64 v -> emits (S := S) (fun s => TelemetryWriter.WriteVaruint s v) (vbytes v).
Proof. intros Hv. exact (writes_emits _ _ (writes_WriteVaruint v Hv)). Qed.

Lemma emits_block_header type n :
  in_u 64 type -> in_u 64 n -> emits (WriteBlock_header type n) (vbytes type ++ vbytes n).
Proof. intros Ht Hn. exact (emits_bind _ _ _ _ (emits_varuint _ Ht) (emits_varuint _ Hn)). Qed.

Lemma emits_option {A} (f : A -> BufferWriteStream.t -> outcome BufferWriteStream.t) g o :
  (forall a, o = Some a -> emits (f a) (g a)) ->
  emits (fun s => match o with Some a => f a s | None => Done s end) (opt_bytes g o).
Proof. intros Hf. destruct o as [a|]; [by apply Hf|exact emits_nil]. Qed.

(** What [plan] decides goes with the flags it sets. *)
Definition planned (h : data_header) (check comp : bool) : Prop :=
  flags h = data_flags (previous_offset h) (us_of <$> timestamp_to_write h) check comp /\
  (forall p, previous_offset h = Some p -> in_u 64 p) /\
  flag_header_size h = zlen (opt_bytes vbytes (previous_offset h)) +
    zlen (opt_bytes time_bytes (us_of <$> timestamp_to_write h)) + (if check then 4 else 0) /\
  write_checksum h = check.

Lemma emits_data_header h check comp id n :
  planned h check comp -> in_u 64 id -> in_u 64 n ->
  emits (WriteData_header h id n) (vbytes kData ++ vbytes n ++
    data_front id (previous_offset h) (us_of <$> timestamp_to_write h) check comp).
Proof.
  intros (Ef & Hp & _) Hid Hn. unfold data_front. rewrite <- Ef.
  assert (Hf : in_u 64 (flags h)).
  { rewrite Ef. pose proof (data_flags_small (previous_offset h)
      (us_of <$> timestamp_to_write h) check comp). unfold in_u. lia. }
  rewrite (app_assoc (vbytes kData)).
  refine (emits_bind _ _ _ _ (emits_block_header kData n _ Hn) (emits_bind _ _ _ _
    (emits_varuint _ Hid) (emits_bind _ _ _ _ (emits_varuint _ Hf) (emits_bind _ _ _ _
    (emits_option _ _ _ (fun p E => emits_varuint p (Hp p E))) _)))); [done|].
  destruct (timestamp_to_write h) as [time|]; [|exact emits_nil].
  exact (writes_emits _ _ (writes_WriteScalar 8 _)).
Qed.

Definition crc_size (check : bool) : Z := if check then 4 else 0.

(** The body of the block, with [crc] where the checksum goes. *)
Definition data_body (front : list byte) (check : bool) (crc : Z) (payload : list byte) : list byte :=
  front ++ (if check then le_split 4 crc else []) ++ payload.

Lemma zlen_data_body front check crc payload :
  zlen (data_body front check crc payload) = zlen front + crc_size check + zlen payload.
Proof. unfold data_body, crc_size. rewrite !zlen_app.
  destruct check; rewrite ?zlen_le_split; [|change (zlen (@nil byte)) with 0]; lia.
Qed.

Lemma encode_data id previous time check comp payload :
  let front := data_front id previous time check comp in
  let body crc := data_body front check crc (stored_payload comp payload) in
  encode (BData id previous time check comp payload) =
    block_bytes kData (body (if check then crc32 (block_bytes kData (body 0)) else 0)).
Proof. cbv zeta. cbn [encode]. by destruct check. Qed.

Lemma zlen_front h check comp id :
  planned h check comp -> in_u 64 id ->
  zlen (data_front id (previous_offset h) (us_of <$> timestamp_to_write h) check comp) =
    vu_len id + vu_len (flags h) + flag_header_size h - crc_size check.
Proof.
  intros (Ef & Hp & Hs & _) Hid. unfold data_front. rewrite <- Ef, !zlen_app, (zlen_vbytes id) by done.
  rewrite (zlen_vbytes (flags h)); [unfold crc_size; lia|].
  rewrite Ef. pose proof (data_flags_small (previous_offset h)
    (us_of <$> timestamp_to_write h) check comp). unfold in_u. lia.
Qed.

(** The part of a block before its payload. *)
Definition data_head (front : list byte) (check : bool) (crc n : Z) : list byte :=
  vbytes kData ++ vbytes n ++ front ++ (if check then le_split 4 crc else []).

Lemma data_head_body front check crc payload :
  block_bytes kData (data_body front check crc payload) =
  data_head front check crc (zlen (data_body front check crc payload)) ++ payload.
Proof. unfold block_bytes, data_body at 2, data_head. by rewrite <- !app_assoc. Qed.

(** Writing zeros for the checksum, going back, and writing it over them. *)
Lemma write_twice (f : BufferWriteStream.t -> outcome BufferWriteStream.t) d span c :
  emits (S := BufferWriteStream.t) f d -> zlen span = zlen d + 4 ->
  exists st st0 st1, f (BufferWriteStream.make span) = Done st /\
    TelemetryWriter.Write_32 st 0 = Done st0 /\
    BufferWriteStream.reset st0 (BufferWriteStream.position st) = Done st1 /\
    BufferWriteStream.buffer st1 = d ++ le_split 4 0 /\
    exists st2, TelemetryWriter.Write_32 st1 c = Done st2 /\
      BufferWriteStream.buffer st2 = d ++ le_split 4 c.
Proof.
  intros Hf Hs. pose proof (BufferWriteStream.bws_ok_make span) as Hok. pose proof (zlen_nonneg d).
  destruct (Hf _ Hok) as (st & E & W); [apply Z.leb_le; cbn; lia|].
  destruct (buffer_wrote _ _ _ Hok W) as (Hok1 & O & Ho & Hl). cbn in Ho, Hl.
  change (BufferWriteStream.out (BufferWriteStream.make span)) with (@nil byte) in O.
  assert (Hw : forall s v, BufferWriteStream.ok s -> BufferWriteStream.offset s = zlen d ->
    zlen (BufferWriteStream.buffer s) = zlen d + 4 -> BufferWriteStream.out s = d ->
    exists s', TelemetryWriter.Write_32 s v = Done s' /\
      BufferWriteStream.buffer s' = d ++ le_split 4 v /\ BufferWriteStream.offset s' = zlen d + 4).
  { intros s v Hs0 Ho0 Hl0 Hd0.
    destruct (BufferWriteStream.bws_write_spec s (le_split 4 v) Hs0) as (s' & E' & _ & O' & L' & F').
    { apply Z.leb_le. rewrite zlen_le_split. lia. }
    exists s'. rewrite zlen_le_split in F'. split; [exact E'|]. split; [|lia].
    unfold BufferWriteStream.out in O'. rewrite ztake_ge in O' by lia. by rewrite O', <- Hd0. }
  destruct (Hw st 0 Hok1) as (st0 & E0 & B0 & F0); [lia|lia|exact O|].
  assert (Hr : BufferWriteStream.reset st0 (BufferWriteStream.position st) =
    Done {| BufferWriteStream.buffer := BufferWriteStream.buffer st0;
            BufferWriteStream.offset := BufferWriteStream.position st |}).
  { unfold BufferWriteStream.reset, BufferWriteStream.position.
    rewrite B0, zlen_app, zlen_le_split.
    rewrite (proj2 (Z.leb_le _ _)), (proj2 (Z.ltb_lt _ _)) by lia. done. }
  exists st, st0. eexists. split; [exact E|]. split; [exact E0|]. split; [exact Hr|].
  cbn [BufferWriteStream.buffer]. split; [exact B0|].
  destruct (Hw {| BufferWriteStream.buffer := BufferWriteStream.buffer st0;
    BufferWriteStream.offset := BufferWriteStream.position st |} c) as (st2 & E2 & B2 & _).
  - unfold BufferWriteStream.ok, BufferWriteStream.position. cbn. rewrite B0, zlen_app, zlen_le_split. lia.
  - unfold BufferWriteStream.position. cbn. lia.
  - cbn. rewrite B0, zlen_app, zlen_le_split. lia.
  - unfold BufferWriteStream.out, BufferWriteStream.position. cbn. rewrite B0.
    apply ztake_app_full. lia.
  - by exists st2.
Qed.

Lemma emit_data_spec h check comp id o :
  planned h check comp -> in_u 64 id -> ostream_ok o ->
  let front := data_front id (previous_offset h) (us_of <$> timestamp_to_write h) check comp in
  let body crc := data_body front check crc (OStream.content o) in
  in_u 64 (zlen (body 0)) -> 1 + vu_len (zlen (body 0)) + zlen front + crc_size check <= OStream.start o ->
  exists o', emit_data h id o = Done o' /\ ostream_ok o' /\
    OStream.content o' =
      block_bytes kData (body (if check then crc32 (block_bytes kData (body 0)) else 0)).
Proof.
  intros Hpl Hid Ho front body Hb Hroom. pose proof (base_room o Ho) as (R1 & R2 & R3).
  pose proof (zlen_front h check comp id Hpl Hid) as Hfr. fold front in Hfr.
  assert (Hfl : in_u 64 (flags h)).
  { rewrite (proj1 Hpl). pose proof (data_flags_small (previous_offset h)
      (us_of <$> timestamp_to_write h) check comp). unfold in_u. lia. }
  assert (Hbn : vu_len id + vu_len (flags h) + flag_header_size h + OStream.size o = zlen (body 0)).
  { unfold body. rewrite zlen_data_body, content_size by done. lia. }
  assert (Hbc : forall c, zlen (body c) = zlen (body 0)) by (intros c; unfold body; by rewrite !zlen_data_body).
  unfold emit_data. rewrite !GetVaruintSize_len by done. rewrite !bind_done. rewrite Hbn.
  rewrite GetVaruintSize_len, bind_done by done.
  set (hd := vbytes kData ++ vbytes (zlen (body 0)) ++ front).
  assert (Hhd : zlen hd = 1 + vu_len (zlen (body 0)) + zlen front).
  { unfold hd. rewrite !zlen_app, (zlen_vbytes (zlen (body 0))) by done. change (zlen (vbytes kData)) with 1. lia. }
  pose proof (zlen_nonneg hd) as Hhd0.
  set (n := vu_len id + vu_len (flags h) + flag_header_size h + vu_len (zlen (body 0)) + 1).
  assert (Hn : n = zlen hd + crc_size check) by (unfold n; lia).
  rewrite (proj2 (Z.leb_le n (OStream.start o))) by lia. cbn [mj_assert]. rewrite bind_done.
  assert (Hcs : 0 <= crc_size check <= 4) by (unfold crc_size; destruct check; lia).
  destruct (load_span (OStream.base o) (OStream.start o - n) n) as (span & -> & Hspan); [lia..|].
  rewrite bind_done.
  pose proof (emits_data_header h check comp id _ Hpl Hid Hb) as He. fold front in He.
  assert (Hend : forall c, zlen (hd ++ (if check then le_split 4 c else [])) = n).
  { intros c. rewrite zlen_app, Hn. unfold crc_size. destruct check; [by rewrite zlen_le_split|done]. }
  assert (Hbody : forall c, hd ++ (if check then le_split 4 c else []) ++ OStream.content o =
    block_bytes kData (body c)).
  { intros c. unfold body. rewrite data_head_body. unfold data_head. fold (body c).
    rewrite (Hbc c). unfold hd. by rewrite <- !app_assoc. }
  assert (Hput : forall c, exists b, store (OStream.base o) (OStream.start o - n)
    (hd ++ (if check then le_split 4 c else [])) = Done b /\
    let o' := OStream.set_start (OStream.start o - n) (OStream.set_base b o) in
    ostream_ok o' /\ OStream.content o' = block_bytes kData (body c)).
  { intros c. pose proof (Hend c) as Hc.
    destruct (store (OStream.base o) (OStream.start o - n)
      (hd ++ (if check then le_split 4 c else []))) as [b|] eqn:Es;
      [|rewrite store_done in Es by lia; done].
    exists b. split; [done|].
    destruct (set_front o n _ b Ho Hc ltac:(lia) Es) as [Ho' Ec]. split; [exact Ho'|].
    by rewrite Ec, <- app_assoc. }
  rewrite (proj2 (proj2 (proj2 Hpl))). destruct check.
  - destruct (Hput 0) as (b0 & Es0 & Ho0 & Ec0).
    destruct (write_twice _ _ span (crc32 (block_bytes kData (body 0))) He)
      as (st & st0 & st1 & -> & E0 & E1 & B1 & st2 & E2 & B2); [unfold crc_size in Hn; fold hd; lia|].
    rewrite bind_done, E0, bind_done, E1, bind_done, B1. fold hd. rewrite Es0, bind_done.
    pose proof (load_from_start _ Ho0) as Hl. rewrite Ec0 in Hl.
    cbn [OStream.base OStream.set_start OStream.set_base OStream.start OStream.data
      FastOStringStream.v_base] in Hl.
    unfold OStream.size at 1 in Hl. cbn [OStream.set_start OStream.set_base OStream.data OStream.start
      FastOStringStream.v_size] in Hl.
    replace (FastOStringStream.v_size (OStream.data o) - (OStream.start o - n))
      with (OStream.size o + n) in Hl by (unfold OStream.size; lia).
    change (OStream.base (OStream.set_start (OStream.start o - n) (OStream.set_base b0 o)))
      with b0 in Hl. rewrite Hl, bind_done.
    change (u32 (checksum (process_bytes crc_init (block_bytes kData (body 0)))))
      with (crc32 (block_bytes kData (body 0))). rewrite E2, bind_done, B2.
    destruct (Hput (crc32 (block_bytes kData (body 0)))) as (b & Es & Ho' & Ec').
    fold hd. rewrite Es, bind_done. by eexists.
  - destruct (fills_span _ _ span He) as (st & E & B); [unfold crc_size in Hn; fold hd; lia|].
    rewrite E, bind_done, bind_done, B. fold hd.
    destruct (Hput 0) as (b & Es & Ho' & Ec'). rewrite app_nil_r in Es. rewrite Es, bind_done.
    by eexists.
Qed.
End data.
