(* ===== verification/FileWriterOps.v ===== *)
(** * FileWriter: each operation appends the blocks it should

    [holds s l]: what [FileWriter] has written, whether it is in the file or
    still in the queue, is the log of the blocks [l]. *)
From stdpp Require Import gmap sorting.
From S2P Require Import Prelude Varuint Streams TimeConversions TelemetryFormat FileWriter LogFormat FileWriterTheory.
#[local] Open Scope Z_scope.

(** What follows a chain of calls that is known as a whole. *)
Lemma bind_chain3 {A B C D} (m : outcome A) (f : A -> outcome B) (g : B -> outcome C)
    (k : C -> outcome D) c :
  (a ← m; b ← f a; g b) = Done c -> (a ← m; b ← f a; c ← g b; k c) = k c.
Proof.
  intros (a & -> & (b & Eb & Ec)%bind_done_inv)%bind_done_inv.
  by rewrite bind_done, Eb, bind_done, Ec.
Qed.

Lemma bind_chain4 {A B C D E} (m : outcome A) (f : A -> outcome B) (g : B -> outcome C)
    (h : C -> outcome D) (k : D -> outcome E) d :
  (a ← m; b ← f a; c ← g b; h c) = Done d -> (a ← m; b ← f a; c ← g b; d ← h c; k d) = k d.
Proof.
  intros (a & -> & Er)%bind_done_inv. rewrite bind_done. by apply bind_chain3.
Qed.

(** Bytes of the content can be written over. *)
Lemma patch o a x c y :
  ostream_ok o -> OStream.content o = a ++ x ++ c -> zlen y = zlen x ->
  exists b, store (OStream.base o) (OStream.start o + zlen a) y = Done b /\
    ostream_ok (OStream.set_base b o) /\ OStream.content (OStream.set_base b o) = a ++ y ++ c.
Proof.
  intros Ho Ec Hy. pose proof (base_room o Ho) as (R1 & R2 & R3).
  pose proof (content_size o Ho) as Hl. rewrite Ec, !zlen_app in Hl.
  pose proof (zlen_nonneg a). pose proof (zlen_nonneg x). pose proof (zlen_nonneg c).
  set (i := OStream.start o + zlen a).
  set (base := OStream.base o) in *.
  assert (Eb : base = ztake (OStream.start o) base ++ (a ++ x ++ c) ++
    zdrop (OStream.start o + OStream.size o) base).
  { rewrite <- Ec. unfold OStream.content, FastOStringStream.str. unfold OStream.size in *.
    change (FastOStringStream.v_base (OStream.data o)) with base.
    rewrite zdrop_ztake by lia. rewrite <- zdrop_zdrop, ztake_zdrop by lia.
    by rewrite ztake_zdrop. }
  assert (Hst : zlen (ztake (OStream.start o) base) = OStream.start o)
    by (rewrite zlen_take by lia; lia).
  rewrite store_done by (unfold i; lia). eexists. split; [done|].
  assert (Ei : ztake i base = ztake (OStream.start o) base ++ a).
  { rewrite Eb at 1. rewrite <- app_assoc, app_assoc. apply ztake_app_full.
    rewrite zlen_app. unfold i. lia. }
  assert (Ed : zdrop (i + zlen y) base = c ++ zdrop (OStream.start o + OStream.size o) base).
  { rewrite Eb at 1. rewrite !app_assoc, <- app_assoc. apply zdrop_app_full.
    rewrite !zlen_app. unfold i. lia. }
  rewrite Ei, Ed. unfold ostream_ok, FastOStringStream.ok, OStream.content, FastOStringStream.str.
  cbn [OStream.set_base OStream.data OStream.start FastOStringStream.v_size FastOStringStream.v_base].
  destruct Ho as [[Hv1 Hv2] Hs]. split.
  - split; [|lia]. rewrite !zlen_app, zlen_drop by lia.
    change (FastOStringStream.v_base (OStream.data o)) with base in Hv2.
    unfold OStream.size in *. lia.
  - replace (FastOStringStream.v_size (OStream.data o)) with (OStream.start o + OStream.size o)
      by (unfold OStream.size; lia).
    replace ((ztake (OStream.start o) base ++ a) ++ y ++
      c ++ zdrop (OStream.start o + OStream.size o) base)
      with ((ztake (OStream.start o) base ++ a ++ y ++ c) ++
        zdrop (OStream.start o + OStream.size o) base) by (by rewrite <- !app_assoc).
    rewrite ztake_app_full by (rewrite !zlen_app; lia). by apply zdrop_app_full.
Qed.

(** A header in front of the data. *)
Lemma header_in_front f d o :
  emits (S := BufferWriteStream.t) f d -> ostream_ok o -> zlen d <= OStream.start o ->
  exists b, FileWriter.with_span (OStream.start o - zlen d) (zlen d) f o =
      Done (OStream.set_base b o) /\
    let o' := OStream.set_start (OStream.start o - zlen d) (OStream.set_base b o) in
    ostream_ok o' /\ OStream.content o' = d ++ OStream.content o.
Proof.
  intros Hf Ho Hd. pose proof (base_room o Ho) as (R1 & R2 & R3). pose proof (zlen_nonneg d).
  destruct (span_written f d o (OStream.start o - zlen d) Hf) as (b & E & Es); [lia..|].
  exists b. split; [exact E|]. exact (set_front o (zlen d) d b Ho eq_refl Hd Es).
Qed.

Section ops.
Import FileWriter.
Context `{CrcType} `{LogClock} `{Snappy}.
Implicit Types (s : State) (l : list block).

Definition holds s l : Prop :=
  exists w, writer s = Some w /\ writer_ok w /\ total w = log_bytes l.

(** The state but for what is in the buffers, the file and the queue. *)
Definition same_view s s' : Prop :=
  options s' = options s /\ identifier_map s' = identifier_map s /\
  reverse_identifier_map s' = reverse_identifier_map s /\ next_id s' = next_id s /\
  schemas s' = schemas s /\ last_seek_block s' = last_seek_block s.

#[export] Instance same_view_trans : Transitive same_view.
Proof. intros s1 s2 s3 (?&?&?&?&?&?) (?&?&?&?&?&?). unfold same_view. split_and!; congruence. Qed.
#[export] Instance same_view_refl : Reflexive same_view.
Proof. intros s. unfold same_view. by split_and!. Qed.

Lemma holds_position s l : holds s l -> position s = zlen (log_bytes l).
Proof. intros (w & E & Hw & Et). unfold position. rewrite E, <- Et. apply Hw. Qed.

Lemma encode_pos b : 0 < zlen (encode b).
Proof.
  assert (H4 : forall type body, 0 <= type < 2 ^ 64 -> 0 < zlen (block_bytes type body)).
  { intros type body Ht. unfold block_bytes. rewrite zlen_app, zlen_vbytes by done.
    pose proof (vu_len_pos type ltac:(lia)). pose proof (zlen_nonneg (vbytes (zlen body) ++ body)). lia. }
  destruct b; cbn [encode]; unfold sealed; try (by apply H4). destruct check; by apply H4.
Qed.

Lemma Write_holds s l b o :
  holds s l -> ostream_ok o -> OStream.content o = encode b ->
  holds (Write o s) (l ++ [b]) /\ same_view s (Write o s).
Proof.
  intros (w & E & Hw & Et) Ho Ec. unfold Write. rewrite E. split; [|done].
  destruct (Write_total w o Hw Ho) as [Hw' Et'].
  { rewrite <- content_size, Ec by done. apply encode_pos. }
  exists (ThreadWriter.Write w o). split; [done|]. split; [exact Hw'|].
  by rewrite Et', Et, Ec, log_bytes_app; cbn; rewrite app_nil_r.
Qed.

Lemma GetBuffer_spec s : exists o b, GetBuffer s = (o, with_buffers b s) /\ fresh o.
Proof.
  unfold GetBuffer. destruct (list.last (buffers s)) as [o|]; eexists _.
  - eexists. split; [done|]. apply resize_fresh.
  - exists (buffers s). split; [by destruct s|]. apply resize_fresh.
Qed.

Lemma holds_with_buffers s b l : holds s l -> holds (with_buffers b s) l.
Proof. done. Qed.

(** What an empty buffer becomes. *)
Lemma fresh_appends f d o :
  fresh o -> appends f d -> exists o', f o = Done o' /\ ostream_ok o' /\
    OStream.start o' = kBufferStartPadding /\ OStream.content o' = d.
Proof.
  intros (Ho & Hs & Ec) Hf. destruct (Hf o Ho) as (o' & E & Ho' & Es & Ec').
  exists o'. rewrite Es, Ec', Ec. done.
Qed.

(** *** Schemas *)

(** A whole block in a buffer. *)
Lemma appends_block type body : in_u 64 type -> in_u 64 (zlen body) ->
  appends (fun o => o ← TelemetryWriter.WriteVaruint o type;
    o ← TelemetryWriter.WriteVaruint o (zlen body); TelemetryWriter.RawWrite o body)
    (block_bytes type body).
Proof.
  intros Ht Hb. exact (appends_bind _ _ _ _ (appends_writes _ _ (writes_WriteVaruint _ Ht))
    (appends_bind _ _ _ _ (appends_writes _ _ (writes_WriteVaruint _ Hb)) (appends_write body))).
Qed.

Lemma zero_u64 : in_u 64 0.
Proof. done. Qed.

(** The body of a schema block in a stream of its own. *)
Lemma emits_schema_body id name schema : in_u 64 id -> in_u 64 (zlen name) ->
  emits (S := FastOStringStream.vector) (fun v => v ← TelemetryWriter.WriteVaruint v id;
    v ← TelemetryWriter.WriteVaruint v 0; v ← TelemetryWriter.WriteString v name;
    TelemetryWriter.RawWrite v schema) (schema_body id name schema).
Proof.
  intros Hid Hn. unfold schema_body.
  exact (emits_bind _ _ _ _ (emits_varuint _ Hid) (emits_bind _ _ _ _ (emits_varuint 0 zero_u64)
    (emits_bind _ _ _ _ (writes_emits _ _ (writes_WriteString name Hn)) (emits_write schema)))).
Qed.

Definition with_schema (id : Z) (name schema : list byte) (at_ : Z) (m : gmap Z SchemaRecord) :=
  <[id := {| name := name; identifier := id; block_schema_flags := 0; schema := schema;
             schema_position := Some at_; last_position := -1 |}]> m.

Definition same_but_schemas s m s' : Prop := same_view (with_schemas m s) s'.

Lemma WriteSchema_spec s l id name schema :
  holds s l -> reverse_identifier_map s !! id = Some name ->
  in_u 64 id -> in_u 64 (zlen name) -> in_u 64 (zlen (schema_body id name schema)) ->
  exists s', WriteSchema id schema s = Done s' /\ holds s' (l ++ [BSchema id name schema]) /\
    same_but_schemas s (with_schema id name schema (zlen (log_bytes l)) (schemas s)) s'.
Proof.
  intros Hs Hr Hid Hn Hb. unfold WriteSchema. rewrite Hr, (holds_position s l Hs). cbv zeta.
  destruct (emits_schema_body id name schema Hid Hn FastOStringStream.empty) as (v & E & W);
    [exact FastOStringStream.ok_empty|done|].
  set (m := with_schema _ _ _ _ _). rewrite (bind_chain4 _ _ _ _ _ v E).
  destruct W as (_ & Hout & _). change (FastOStringStream.str v = schema_body id name schema) in Hout.
  rewrite Hout. change (<[id := _]> (schemas s)) with m.
  destruct (GetBuffer_spec (with_schemas m s)) as (o & b & -> & Hf).
  destruct (fresh_appends _ _ o Hf (appends_block kSchema _ ltac:(done) Hb)) as (o' & Eo & Ho' & _ & Ec).
  rewrite (bind_chain3 _ _ _ _ o' Eo). eexists. split; [done|]. apply (Write_holds (with_buffers b (with_schemas m s)) l); done.
Qed.

(** *** Seek blocks *)
Definition entry_of (r : SchemaRecord) : entry :=
  {| schema_at := schema_position r; last_at := last_position r |}.
Definition known s : gmap Z entry := entry_of <$> schemas s.

Lemma known_in_order s : in_order (known s) = prod_map id entry_of <$> in_order (schemas s).
Proof. apply in_order_fmap. Qed.

Definition ids_fit (m : gmap Z entry) : Prop := map_Forall (fun id _ => in_u 64 id) m.

Lemma appends_entries at_ (recs : list (Z * SchemaRecord)) :
  Forall (fun p => in_u 64 p.1 /\ (0 <= last_position p.2 -> in_u 64 (at_ - last_position p.2))) recs ->
  appends (WriteSeekEntries at_ recs)
    (concat (map entry_offset_bytes (map (fun p => (p.1, at_ - last_at p.2))
      (List.filter has_data (prod_map id entry_of <$> recs))))).
Proof.
  induction 1 as [|[i r] recs [Hid Hl] Hr IH]; [exact appends_nil|].
  cbn [WriteSeekEntries fmap list_fmap List.filter prod_map has_data fst snd id entry_of].
  unfold has_data at 1. cbn [snd entry_of last_at].
  destruct (Z.ltb_spec (last_position r) 0), (Z.leb_spec 0 (last_position r)); try lia; [exact IH|].
  cbn [map concat]. unfold entry_offset_bytes at 1. cbn [fst snd entry_of last_at]. rewrite <- app_assoc.
  exact (appends_bind _ _ _ _ (appends_writes _ _ (writes_WriteVaruint _ Hid))
    (appends_bind _ _ _ _ (appends_writes _ _ (writes_WriteVaruint _ (Hl ltac:(done)))) IH)).
Qed.

Lemma num_elements (recs : list (Z * SchemaRecord)) at_ :
  zlen (List.filter (fun p => 0 <=? last_position p.2) recs) =
  zlen (map (fun p => (p.1, at_ - last_at p.2)) (List.filter has_data (prod_map id entry_of <$> recs))).
Proof.
  unfold zlen. rewrite length_map. f_equal.
  induction recs as [|[i r] recs IH]; [done|]. cbn. unfold has_data at 1. cbn.
  destruct (0 <=? last_position r); cbn; by rewrite IH.
Qed.

(** The body, with zeros for the checksum and for the size of the header. *)
Lemma appends_seek_body timestamp at_ recs es :
  appends (WriteSeekEntries at_ recs) (concat (map entry_offset_bytes es)) -> in_u 64 (zlen es) ->
  appends (fun buffer =>
    buffer ← TelemetryWriter.Write_64 buffer kSeekMarkerValue;
    buffer ← TelemetryWriter.Write_32 buffer 0;
    buffer ← TelemetryWriter.Write_8 buffer 0;
    buffer ← TelemetryWriter.WriteVaruint buffer 0;
    buffer ← TelemetryWriter.Write_ptime buffer timestamp;
    buffer ← TelemetryWriter.WriteVaruint buffer (zlen es);
    WriteSeekEntries at_ recs buffer) (seek_body (us_of timestamp) es 0 0).
Proof.
  intros He Hn. unfold seek_body.
  exact (appends_bind _ _ _ _ (appends_writes _ _ (writes_WriteScalar 8 _))
    (appends_bind _ _ _ _ (appends_writes _ _ (writes_WriteScalar 4 0))
    (appends_bind _ _ _ _ (appends_writes _ _ (writes_WriteScalar 1 0))
    (appends_bind _ _ _ _ (appends_writes _ _ (writes_WriteVaruint 0 zero_u64))
    (appends_bind _ _ _ _ (appends_writes _ _ (writes_WriteScalar 8 _))
    (appends_bind _ _ _ _ (appends_writes _ _ (writes_WriteVaruint _ Hn)) He)))))).
Qed.

(** The header in front, its size inside, and then the checksum of it all. *)
Definition seal_seek (orig_start : Z) (buffer : OStream.t) : outcome OStream.t :=
  let body_size := OStream.size buffer in
  size_size ← GetVaruintSize body_size;
  let header_size := 1 + size_size in
  let buffer := OStream.set_start (OStream.start buffer - header_size) buffer in
  buffer ← with_span (OStream.start buffer) header_size
             (WriteBlock_header kSeekMarker body_size) buffer;
  b ← store (OStream.base buffer) (orig_start + 8 + 4) (le_split 1 header_size);
  all ← load b (OStream.start buffer) (header_size + body_size);
  with_span (orig_start + 8) 4
    (fun stream => TelemetryWriter.Write_32 stream (u32 (checksum (process_bytes crc_init all))))
    (OStream.set_base b buffer).

Lemma seek_body_cut time es crc n :
  seek_body time es crc n = le_split 8 kSeekMarkerValue ++ le_split 4 crc ++ le_split 1 n ++
    (vbytes 0 ++ time_bytes time ++ vbytes (zlen es) ++ concat (map entry_offset_bytes es)).
Proof. done. Qed.

Lemma zlen_seek_body time es crc n : zlen (seek_body time es crc n) = zlen (seek_body time es 0 0).
Proof. by rewrite !seek_body_cut, !zlen_app, !zlen_le_split. Qed.

Lemma emits_Write_32 v : emits (S := BufferWriteStream.t)
  (fun st => TelemetryWriter.Write_32 st v) (le_split 4 v).
Proof. exact (writes_emits _ _ (writes_WriteScalar 4 v)). Qed.

Lemma seal_seek_spec o time es :
  ostream_ok o -> OStream.content o = seek_body time es 0 0 ->
  in_u 64 (zlen (seek_body time es 0 0)) -> OStream.start o = kBufferStartPadding ->
  exists o', seal_seek (OStream.start o) o = Done o' /\ ostream_ok o' /\
    OStream.content o' = encode (BSeek time es).
Proof.
  intros Ho Ec Hn Hst. unfold seal_seek.
  pose proof (content_size o Ho) as Hl. rewrite Ec in Hl. rewrite <- Hl.
  set (n := zlen (seek_body time es 0 0)) in *.
  rewrite GetVaruintSize_len, bind_done by done. set (hs := 1 + vu_len n).
  assert (Hhs : zlen (vbytes kSeekMarker ++ vbytes n) = hs).
  { rewrite zlen_app, (zlen_vbytes n Hn). done. }
  assert (Hb : 2 <= hs <= 11) by (unfold hs; pose proof (vu_len_u64 n Hn); lia).
  unfold kBufferStartPadding in *.
  destruct (header_in_front _ _ o (emits_block_header kSeekMarker n ltac:(done) Hn) Ho)
    as (b1 & E1 & Ho1 & Ec1); [lia|]. rewrite Hhs in *.
  cbn [OStream.start OStream.set_start].
  assert (Ew : with_span (OStream.start o - hs) hs (WriteBlock_header kSeekMarker n)
    (OStream.set_start (OStream.start o - hs) o) =
    Done (OStream.set_start (OStream.start o - hs) (OStream.set_base b1 o))).
  { revert E1. unfold with_span. change (OStream.base (OStream.set_start _ o)) with (OStream.base o).
    intros (sp & -> & (st & Est & (b & Eb & [= E])%bind_done_inv)%bind_done_inv)%bind_done_inv.
    rewrite bind_done, Est, bind_done, Eb, bind_done. subst b1. done. }
  rewrite Ew, bind_done. set (o1 := OStream.set_start _ (OStream.set_base b1 o)) in *.
  set (hd := vbytes kSeekMarker ++ vbytes n) in *.
  set (tail := vbytes 0 ++ time_bytes time ++ vbytes (zlen es) ++ concat (map entry_offset_bytes es)).
  assert (Ecut : forall crc k, hd ++ seek_body time es crc k =
    (hd ++ le_split 8 kSeekMarkerValue) ++ le_split 4 crc ++ le_split 1 k ++ tail).
  { intros crc k. rewrite seek_body_cut. by rewrite <- !app_assoc. }
  rewrite Ec, Ecut in Ec1.
  destruct (patch o1 ((hd ++ le_split 8 kSeekMarkerValue) ++ le_split 4 0) (le_split 1 0) tail
    (le_split 1 hs) Ho1) as (b2 & E2 & Ho2 & Ec2); [by rewrite Ec1, <- !app_assoc|done|].
  set (c := crc32 (hd ++ seek_body time es 0 hs)).
  destruct (patch (OStream.set_base b2 o1) (hd ++ le_split 8 kSeekMarkerValue) (le_split 4 0)
    (le_split 1 hs ++ tail) (le_split 4 c) Ho2) as (b3 & E3 & Ho3 & Ec3);
    [by rewrite Ec2, <- !app_assoc|done|].
  rewrite !zlen_app, !zlen_le_split, Hhs in E2. rewrite zlen_app, zlen_le_split, Hhs in E3.
  change (OStream.start o1) with (OStream.start o - hs) in *.
  change (OStream.start (OStream.set_base b2 o1)) with (OStream.start o - hs) in *.
  replace (OStream.start o + 8 + 4) with (OStream.start o - hs + (hs + Z.of_nat 8 + Z.of_nat 4)) by lia.
  rewrite E2, bind_done.
  assert (El : load b2 (OStream.start o - hs) (hs + n) = Done (hd ++ seek_body time es 0 hs)).
  { pose proof (load_from_start _ Ho2) as El. rewrite <- (content_size _ Ho2) in El.
    rewrite Ec2, <- app_assoc, <- Ecut in El. rewrite zlen_app, zlen_seek_body in El.
    fold n in El. rewrite Hhs in El. exact El. }
  rewrite El, bind_done. fold (crc_of (hd ++ seek_body time es 0 hs)).
  fold (crc32 (hd ++ seek_body time es 0 hs)). fold c.
  replace (OStream.start o + 8) with (OStream.start o - hs + (hs + Z.of_nat 8)) by lia.
  destruct (base_room _ Ho3) as (R1 & R2 & R3).
  destruct (span_written _ _ (OStream.set_base b2 o1) (OStream.start o - hs + (hs + Z.of_nat 8))
    (emits_Write_32 c)) as (b4 & E4 & Es4); [lia|..].
  { pose proof (zlen_store _ _ _ _ E3) as Hz. rewrite zlen_le_split. apply store_inv in E3 as (_ & E3 & _).
    rewrite zlen_le_split in E3. lia. }
  rewrite E3 in Es4. injection Es4 as <-. rewrite zlen_le_split in E4.
  change (Z.of_nat 4) with 4 in E4. rewrite E4.
  eexists. split; [done|]. split; [exact Ho3|].
  change (OStream.content (OStream.set_base b3 (OStream.set_base b2 o1)) = encode (BSeek time es)).
  rewrite Ec3, <- app_assoc. change (le_split 1 hs ++ tail) with (le_split 1 hs ++ tail).
  cbn [encode]. unfold sealed, block_bytes. rewrite !zlen_seek_body. fold n. fold hs.
  rewrite !(app_assoc (vbytes kSeekMarker)). fold hd. fold c. rewrite seek_body_cut. done.
Qed.

Lemma WriteSeekBlock_sealed timestamp s :
  WriteSeekBlock timestamp s =
  let '(buffer, s) := GetBuffer s in
  let records := in_order (schemas s) in
  buffer' ←
    (buffer ← TelemetryWriter.Write_64 buffer kSeekMarkerValue;
     buffer ← TelemetryWriter.Write_32 buffer 0;
     buffer ← TelemetryWriter.Write_8 buffer 0;
     buffer ← TelemetryWriter.WriteVaruint buffer 0;
     buffer ← TelemetryWriter.Write_ptime buffer timestamp;
     buffer ← TelemetryWriter.WriteVaruint buffer
       (zlen (List.filter (fun p => 0 <=? last_position p.2) records));
     WriteSeekEntries (position s) records buffer);
  o ← seal_seek (OStream.start buffer) buffer';
  Done (Write o s).
Proof.
  unfold WriteSeekBlock, seal_seek. destruct (GetBuffer s) as [o s']. cbv zeta.
  repeat match goal with |- (?m ≫= _) = _ =>
    destruct m; [rewrite !bind_done|by rewrite ?bind_faulted] end. done.
Qed.

(** Every position and every difference of two fits in an unsigned 64-bit
    integer in a log that small. *)
Definition small l : Prop := zlen (log_bytes l) < 2 ^ 42.

Lemma small_app l k : small (l ++ k) -> small l.
Proof. unfold small. pose proof (zlen_log_mono l k). lia. Qed.

Lemma in_u_42 v : 0 <= v < 2 ^ 42 -> in_u 64 v.
Proof. unfold in_u. lia. Qed.

Lemma zlen_log_nonneg l : 0 <= zlen (log_bytes l).
Proof. apply zlen_nonneg. Qed.

(** What a block's body takes is part of the log. *)
Lemma zlen_block_body type body : in_u 64 type -> zlen body <= zlen (block_bytes type body).
Proof.
  intros Ht. unfold block_bytes. rewrite !zlen_app. pose proof (zlen_nonneg (vbytes type)).
  pose proof (zlen_nonneg (vbytes (zlen body))). lia.
Qed.

Lemma small_body l b (body : list byte) : small (l ++ [b]) -> zlen body <= zlen (encode b) -> in_u 64 (zlen body).
Proof.
  unfold small. rewrite zlen_log_snoc. pose proof (zlen_log_nonneg l). pose proof (zlen_nonneg body).
  intros. apply in_u_42. lia.
Qed.

Lemma known_entry s l i r : known s = table l -> schemas s !! i = Some r ->
  table l !! i = Some (entry_of r) /\ -1 <= last_position r <= zlen (log_bytes l).
Proof.
  intros Hk Hr. assert (E : table l !! i = Some (entry_of r)).
  { rewrite <- Hk. unfold known. by rewrite lookup_fmap, Hr. }
  split; [exact E|]. exact (table_bound l i _ E).
Qed.

Lemma zlen_entries (es : list (Z * Z)) : zlen es <= zlen (concat (map entry_offset_bytes es)).
Proof.
  induction es as [|[i v] es IH]; [done|]. cbn [map concat entry_offset_bytes fst snd].
  unfold entry_offset_bytes at 1. cbn [fst snd]. rewrite zlen_cons, !zlen_app.
  assert (1 <= zlen (vbytes i)).
  { unfold vbytes. destruct (vu_bytes 10 i) eqn:E; [|rewrite zlen_cons; pose proof (zlen_nonneg l); lia].
    exfalso. cbn in E. destruct (i <? 128); done. }
  pose proof (zlen_nonneg (vbytes v)). lia.
Qed.

Lemma zlen_seek_entries time es crc n : zlen es <= zlen (seek_body time es crc n).
Proof.
  rewrite seek_body_cut, !zlen_app, !zlen_le_split. unfold time_bytes. rewrite zlen_le_split.
  pose proof (zlen_nonneg (vbytes 0)). pose proof (zlen_nonneg (vbytes (zlen es))).
  pose proof (zlen_entries es). lia.
Qed.

Lemma WriteSeekBlock_spec s l timestamp :
  let b := BSeek (us_of timestamp) (seek_entries (zlen (log_bytes l)) (table l)) in
  holds s l -> known s = table l -> ids_fit (table l) -> small (l ++ [b]) ->
  exists s', WriteSeekBlock timestamp s = Done s' /\ holds s' (l ++ [b]) /\ same_view s s'.
Proof.
  intros b Hs Hk Hids Hsm. rewrite WriteSeekBlock_sealed.
  destruct (GetBuffer_spec s) as (o & bs & -> & Hf). cbv beta zeta iota.
  change (schemas (with_buffers bs s)) with (schemas s).
  change (position (with_buffers bs s)) with (position s). rewrite (holds_position s l Hs).
  set (at_ := zlen (log_bytes l)) in *. set (recs := in_order (schemas s)).
  set (es := seek_entries at_ (table l)).
  assert (Ees : es = map (fun p => (p.1, at_ - last_at p.2))
    (List.filter has_data (prod_map id entry_of <$> recs))).
  { unfold es, seek_entries. by rewrite <- Hk, known_in_order. }
  pose proof (zlen_log_nonneg l) as H0'. pose proof (small_app _ _ Hsm) as Hsl. unfold small in Hsl.
  fold at_ in H0', Hsl.
  assert (Hr : Forall (fun p : Z * SchemaRecord => in_u 64 p.1 /\
    (0 <= last_position p.2 -> in_u 64 (at_ - last_position p.2))) recs).
  { apply list.Forall_forall. intros [i r] Hi%elem_of_in_order. cbn [fst snd] in *.
    destruct (known_entry s l i r Hk Hi) as [He Hb]. split; [exact (Hids i _ He)|].
    intros. apply in_u_42. fold at_ in Hb. lia. }
  pose proof (appends_entries at_ recs Hr) as Ha. rewrite <- Ees in Ha.
  assert (Hbody : in_u 64 (zlen (seek_body (us_of timestamp) es 0 0))).
  { apply (small_body l b _ Hsm). unfold b. cbn [encode]. unfold sealed.
    rewrite <- (zlen_seek_body _ _ (crc32 (block_bytes kSeekMarker (seek_body (us_of timestamp) es 0
      (1 + vu_len (zlen (seek_body (us_of timestamp) es 0 0)))))) (1 + vu_len (zlen (seek_body (us_of timestamp) es 0 0)))).
    by apply zlen_block_body. }
  assert (Hn : in_u 64 (zlen es)).
  { pose proof (zlen_seek_entries (us_of timestamp) es 0 0). pose proof (zlen_nonneg es).
    unfold in_u in *. lia. }
  rewrite (num_elements recs at_), <- Ees.
  destruct (fresh_appends _ _ o Hf (appends_seek_body timestamp at_ recs es Ha Hn))
    as (o1 & E1 & Ho1 & Es1 & Ec1). rewrite E1, bind_done.
  rewrite (proj1 (proj2 Hf)), <- Es1.
  destruct (seal_seek_spec o1 _ es Ho1 Ec1 Hbody Es1) as (o2 & -> & Ho2 & Ec2). rewrite bind_done.
  eexists. split; [done|]. exact (Write_holds (with_buffers bs s) l b o2 Hs Ho2 Ec2).
Qed.

(** *** Blocks of one's own, and the index *)

(** [WriteBlock] puts the type and the size in front of any buffer that has
    the room [GetBuffer] leaves. *)
Lemma WriteBlock_spec s l type o b :
  holds s l -> in_u 64 type -> vu_len type = 1 -> ostream_ok o ->
  OStream.start o = kBufferStartPadding -> in_u 64 (zlen (OStream.content o)) ->
  block_bytes type (OStream.content o) = encode b ->
  exists s', WriteBlock type o s = Done s' /\ holds s' (l ++ [b]) /\ same_view s s'.
Proof.
  intros Hs Ht Ht1 Ho Hst Hn Eb. unfold WriteBlock. destruct Hs as (w & E & Hw & Et). rewrite E.
  rewrite <- (content_size o Ho). set (n := zlen (OStream.content o)) in *. cbv zeta.
  rewrite GetVaruintSize_len, bind_done by done.
  assert (Hhd : zlen (vbytes type ++ vbytes n) = 1 + vu_len n)
    by (rewrite zlen_app, !zlen_vbytes by done; lia).
  pose proof (vu_len_u64 n Hn) as Hv. unfold kBufferStartPadding in Hst.
  destruct (header_in_front _ _ o (emits_block_header type n Ht Hn) Ho) as (b1 & E1 & Ho1 & Ec1);
    [lia|]. rewrite Hhd in *. rewrite E1, bind_done.
  rewrite (proj2 (Z.leb_le _ _)) by lia. cbn [mj_assert]. rewrite bind_done.
  eexists. split; [done|]. apply Write_holds; [by exists w|exact Ho1|].
  rewrite Ec1, <- Eb. unfold block_bytes. by rewrite <- app_assoc.
Qed.

Lemma appends_index (recs : list (Z * SchemaRecord)) :
  Forall (fun p => in_u 64 p.1 /\ schema_position p.2 <> None) recs ->
  appends (WriteIndexEntries recs) (concat (map index_entry_bytes
    (map (fun p => (p.1, default 0 (schema_at p.2), last_at p.2)) (prod_map id entry_of <$> recs)))).
Proof.
  induction 1 as [|[i r] recs [Hid Hp] Hr IH]; [exact appends_nil|].
  cbn [WriteIndexEntries]. cbn [fst snd] in *. destruct (schema_position r) as [p|] eqn:Ep; [|done].
  cbn [fmap list_fmap map concat]. unfold index_entry_bytes at 1.
  cbn [prod_map fst snd schema_at last_at entry_of]. rewrite Ep. cbn [default]. rewrite <- !app_assoc.
  exact (appends_bind _ _ _ _ (appends_writes _ _ (writes_WriteVaruint _ Hid))
    (appends_bind _ _ _ _ (appends_writes _ _ (writes_WriteScalar 8 _))
    (appends_bind _ _ _ _ (appends_writes _ _ (writes_WriteScalar 8 _)) IH))).
Qed.

Definition all_known (m : gmap Z entry) : Prop := map_Forall (fun _ e => schema_at e <> None) m.

Lemma zlen_index_entries (es : list (Z * Z * Z)) : zlen es <= zlen (concat (map index_entry_bytes es)).
Proof.
  induction es as [|[[i p] v] es IH]; [done|]. cbn [map concat]. unfold index_entry_bytes at 1.
  rewrite zlen_cons, !zlen_app, !zlen_le_split. pose proof (zlen_nonneg (vbytes i)). lia.
Qed.

Lemma appends_index_front recs es :
  appends (WriteIndexEntries recs) (concat (map index_entry_bytes es)) -> in_u 64 (zlen es) ->
  appends (fun buffer =>
    buffer ← TelemetryWriter.WriteVaruint buffer 0;
    buffer ← TelemetryWriter.WriteVaruint buffer (zlen es);
    WriteIndexEntries recs buffer) (index_front es).
Proof.
  intros He Hn. exact (appends_bind _ _ _ _ (appends_writes _ _ (writes_WriteVaruint 0 zero_u64))
    (appends_bind _ _ _ _ (appends_writes _ _ (writes_WriteVaruint _ Hn)) He)).
Qed.

Lemma appends_index_trailer n : appends (fun buffer =>
  buffer ← TelemetryWriter.Write_32 buffer n; TelemetryWriter.RawWrite buffer kIndexTrailer)
  (le_split 4 n ++ kIndexTrailer).
Proof. exact (appends_bind _ _ _ _ (appends_writes _ _ (writes_WriteScalar 4 n)) (appends_write _)). Qed.

Lemma zlen_index_body es : zlen (index_body es) = zlen (index_front es) + 4 + 8.
Proof. unfold index_body. rewrite !zlen_app, zlen_le_split. change (zlen kIndexTrailer) with 8. lia. Qed.

Lemma WriteIndex_spec s l :
  let b := BIndex (index_entries (table l)) in
  holds s l -> known s = table l -> ids_fit (table l) -> all_known (table l) -> small (l ++ [b]) ->
  exists s', WriteIndex s = Done s' /\ holds s' (l ++ [b]) /\ same_view s s'.
Proof.
  intros b Hs Hk Hids Hall Hsm. unfold WriteIndex.
  destruct (GetBuffer_spec s) as (o & bs & -> & Hf). cbv beta zeta iota.
  change (schemas (with_buffers bs s)) with (schemas s). set (recs := in_order (schemas s)).
  set (es := index_entries (table l)).
  assert (Ees : es = map (fun p => (p.1, default 0 (schema_at p.2), last_at p.2))
    (prod_map id entry_of <$> recs)).
  { unfold es, index_entries. by rewrite <- Hk, known_in_order. }
  assert (Hr : Forall (fun p : Z * SchemaRecord => in_u 64 p.1 /\ schema_position p.2 <> None) recs).
  { apply list.Forall_forall. intros [i r] Hi%elem_of_in_order. cbn [fst snd] in *.
    destruct (known_entry s l i r Hk Hi) as [He _]. split; [exact (Hids i _ He)|exact (Hall i _ He)]. }
  pose proof (appends_index recs Hr) as Ha. rewrite <- Ees in Ha.
  assert (Hbody : in_u 64 (zlen (index_body es))).
  { apply (small_body l b _ Hsm). by apply zlen_block_body. }
  pose proof (zlen_index_body es) as Hib.
  assert (Hn : in_u 64 (zlen es)).
  { pose proof (zlen_index_entries es). pose proof (zlen_nonneg es). unfold in_u in *.
    unfold index_front in Hib. rewrite !zlen_app in Hib. pose proof (zlen_nonneg (vbytes 0)).
    pose proof (zlen_nonneg (vbytes (zlen es))). lia. }
  assert (En : zlen recs = zlen es) by (rewrite Ees; unfold zlen; by rewrite length_map, length_fmap).
  rewrite En.
  destruct (fresh_appends _ _ o Hf (appends_index_front recs es Ha Hn)) as (o1 & E1 & Ho1 & Es1 & Ec1).
  rewrite (bind_chain3 _ _ _ _ o1 E1). rewrite <- (content_size o1 Ho1), Ec1.
  rewrite GetVaruintSize_len, bind_done by (rewrite <- Hib; exact Hbody).
  replace (zlen (index_front es) + 1 + vu_len (zlen (index_front es) + 4 + 8) + 4 + 8)
    with (index_size es) by (unfold index_size; lia).
  destruct (appends_index_trailer (u32 (index_size es)) o1 Ho1) as (o2 & E2 & Ho2 & Es2 & Ec2).
  destruct (bind_done_inv _ _ _ E2) as (o3 & -> & E3). rewrite bind_done, E3, bind_done.
  rewrite Ec1 in Ec2. change (OStream.content o2 = index_body es) in Ec2.
  apply (WriteBlock_spec (with_buffers bs s) l kIndex o2 b Hs); try done.
  - by rewrite Es2.
  - by rewrite Ec2.
  - by rewrite Ec2.
Qed.

Lemma WriteBlock_view_spec s l type data b :
  holds s l -> in_u 64 type -> in_u 64 (zlen data) -> block_bytes type data = encode b ->
  exists s', WriteBlock_view type data s = Done s' /\ holds s' (l ++ [b]) /\ same_view s s'.
Proof.
  intros Hs Ht Hd Eb. unfold WriteBlock_view. destruct Hs as (w & E & Hw & Et). rewrite E.
  destruct (GetBuffer_spec s) as (o & bs & -> & Hf).
  destruct (fresh_appends _ _ o Hf (appends_block type data Ht Hd)) as (o' & Eo & Ho' & _ & Ec).
  rewrite (bind_chain3 _ _ _ _ o' Eo). eexists. split; [done|].
  rewrite Eb in Ec. apply (Write_holds (with_buffers bs s) l b o'); [by exists w|done..].
Qed.
End ops.
