(* ===== verification/LogWriter.v ===== *)
(** * FileWriter refines a list of blocks

    The abstract writer appends blocks to a list: [Spec].  Every sequence of
    calls of [FileWriter], with the background thread writing buffers out at
    any point between them, leaves in the file the log of those blocks. *)
From stdpp Require Import gmap sorting.
From S2P Require Import Prelude Varuint Streams TimeConversions TelemetryFormat FileWriter LogFormat FileWriterTheory FileWriterOps.
#[local] Open Scope Z_scope.

(** What the log relies on of snappy. *)
Class SnappyLaws `{Snappy} := {
  compressed_fits d : zlen (RawCompress d) <= MaxCompressedLength (zlen d);
  uncompress_compress d : RawUncompress (RawCompress d) = Some d;
  compressed_length d : GetUncompressedLength (RawCompress d) = Some (zlen d);
}.

Section data.
Import FileWriter.
Context `{CrcType} `{LogClock} `{SnappyLaws}.
Implicit Types (s : State) (l : list block).

(** *** Compression *)
Definition shorter (d : list byte) : bool := zlen (RawCompress d) <? zlen d.

Lemma compress_spec o f s :
  ostream_ok o -> OStream.start o = kBufferStartPadding ->
  let comp := shorter (OStream.content o) in
  exists o' bs, compress o f s = Done (o', Z.lor f (flag_if comp kSnappy), with_buffers bs s) /\
    ostream_ok o' /\ OStream.start o' = kBufferStartPadding /\
    OStream.content o' = stored_payload comp (OStream.content o).
Proof.
  intros Ho Hst comp. unfold compress. destruct (GetBuffer_spec s) as (n & bs & -> & Hn & Hsn & _).
  cbv beta zeta iota. rewrite (load_from_start o Ho), bind_done. rewrite <- (content_size o Ho).
  set (d := OStream.content o) in *. pose proof (compressed_fits d) as Hc.
  pose proof (zlen_nonneg (RawCompress d)). rewrite Hsn. unfold kBufferStartPadding in *.
  set (v := FastOStringStream.vector_reserve (OStream.data n) (32 + MaxCompressedLength (zlen d))).
  assert (Hv : 32 + zlen (RawCompress d) <= zlen (FastOStringStream.v_base v)).
  { set (k := MaxCompressedLength (zlen d)) in *.
    pose proof (FastOStringStream.zlen_resize (OStream.data n) (32 + k) ltac:(lia)) as Hl.
    change (FastOStringStream.v_base (FastOStringStream.vector_resize (OStream.data n) (32 + k)))
      with (FastOStringStream.v_base v) in Hl. lia. }
  rewrite store_done by lia. rewrite bind_done. set (b := _ ++ RawCompress d ++ _).
  assert (Hb : zlen b = zlen (FastOStringStream.v_base v)).
  { unfold b. rewrite !zlen_app, zlen_take, zlen_drop by lia. lia. }
  unfold comp, shorter, stored_payload. destruct (Z.ltb_spec (zlen (RawCompress d)) (zlen d)).
  - eexists _, _. split; [reflexivity|].
    unfold ostream_ok, FastOStringStream.ok, OStream.content, FastOStringStream.str.
    cbn [OStream.data OStream.start FastOStringStream.v_size FastOStringStream.v_base
      FastOStringStream.vector_resize].
    rewrite (proj2 (Z.ltb_ge _ _)) by lia. split; [lia|]. split; [done|].
    unfold b. rewrite app_assoc, ztake_app_full by (rewrite zlen_app, zlen_take; lia).
    apply zdrop_app_full. rewrite zlen_take by lia. lia.
  - exists o, bs. cbn [flag_if]. rewrite Z.lor_0_r. by split_and!.
Qed.

(** *** What a data block says *)
Definition offset_back (l : list block) (id : Z) : Z :=
  match table l !! id with
  | None => 0
  | Some e => if last_at e <? 0 then 0 else zlen (log_bytes l) - last_at e
  end.

Definition previous_of (o : Options) l id : option Z :=
  if write_previous_offsets o then Some (offset_back l id) else None.
Definition time_of (o : Options) (timestamp now : ptime) : option ptime :=
  if negb (is_not_a_date_time timestamp) || timestamps_system o then
    Some (if negb (is_not_a_date_time timestamp) then timestamp else now) else None.
Definition check_of (o : Options) (f : WriteFlags) : bool :=
  evaluate (checksum_ f) (default_checksum_data o).
Definition comp_of (o : Options) (f : WriteFlags) (payload : list byte) : bool :=
  evaluate (compression f) (default_compression o) && shorter payload.

Definition data_block (o : Options) l (timestamp now : ptime) (id : Z) (payload : list byte)
    (f : WriteFlags) : block :=
  BData id (previous_of o l id) (us_of <$> time_of o timestamp now) (check_of o f)
    (comp_of o f payload) payload.

Lemma GetPreviousOffset_spec s l id :
  holds s l -> known s = table l -> GetPreviousOffset s id = offset_back l id.
Proof.
  intros Hs Hk. unfold GetPreviousOffset, offset_back. rewrite <- Hk. unfold known.
  rewrite lookup_fmap. pose proof (holds_position s l Hs) as Hp. unfold position in Hp.
  destruct Hs as (w & Ew & _). rewrite Ew in *. rewrite <- Hp.
  by destruct (schemas s !! id).
Qed.

Lemma offset_back_bound l id : 0 <= offset_back l id <= zlen (log_bytes l).
Proof.
  unfold offset_back. pose proof (zlen_log_nonneg l).
  destruct (table l !! id) as [e|] eqn:E; [|lia]. pose proof (table_bound l id e E).
  destruct (Z.ltb_spec (last_at e) 0); lia.
Qed.

Lemma offset_back_u64 l id : small l -> in_u 64 (offset_back l id).
Proof. intros Hs. pose proof (offset_back_bound l id). apply in_u_42. unfold small in Hs. lia. Qed.

Lemma plan_spec s l timestamp now id f :
  holds s l -> known s = table l -> small l ->
  exists h, plan s timestamp now id f = Done h /\
    planned h (check_of (options s) f) false /\
    previous_offset h = previous_of (options s) l id /\
    timestamp_to_write h = time_of (options s) timestamp now.
Proof.
  intros Hs Hk Hsm. pose proof (offset_back_u64 l id Hsm) as Hu.
  unfold plan, previous_of, time_of, check_of, planned.
  rewrite (GetPreviousOffset_spec s l id Hs Hk), (uwrap_id 64) by done.
  rewrite GetVaruintSize_len by done.
  destruct (write_previous_offsets (options s)), (negb (is_not_a_date_time timestamp) ||
    timestamps_system (options s)), (evaluate (checksum_ f) (default_checksum_data (options s)));
    rewrite ?bind_done; (eexists; split; [reflexivity|]); (split; [|by split]);
    cbn [flags flag_header_size previous_offset timestamp_to_write write_checksum opt_bytes
      fmap option_fmap option_map];
    (split; [reflexivity|]; split; [by intros p [= <-] || done|]; split; [|done]);
    rewrite ?zlen_vbytes by done; unfold time_bytes; rewrite ?zlen_le_split;
    change (zlen (@nil byte)) with 0; lia.
Qed.

(** The header fits into the padding as long as identifiers and the file are
    below four tebibytes. *)
Lemma emit_data_block s l timestamp now id f o (Hs : holds s l) (Hk : known s = table l)
    (payload := OStream.content o) (b := data_block (options s) l timestamp now id payload f) h :
  planned h (check_of (options s) f) false ->
  previous_offset h = previous_of (options s) l id ->
  timestamp_to_write h = time_of (options s) timestamp now ->
  0 <= id < 2 ^ 42 -> small (l ++ [b]) -> ostream_ok o -> OStream.start o = kBufferStartPadding ->
  exists o' o'' fl bs, (if evaluate (compression f) (default_compression (options s))
      then compress o (flags h) s else Done (o, flags h, s)) =
      Done (o', fl, with_buffers bs s) /\
    emit_data {| flags := fl; flag_header_size := flag_header_size h;
                 previous_offset := previous_offset h; timestamp_to_write := timestamp_to_write h;
                 write_checksum := write_checksum h |} id o' = Done o'' /\
    ostream_ok o'' /\ OStream.content o'' = encode b.
Proof.
  intros Hp Epo Et Hid Hsm Ho Hst. set (comp := comp_of (options s) f payload).
  assert (Hc : exists o' bs, (if evaluate (compression f) (default_compression (options s))
      then compress o (flags h) s else Done (o, flags h, s)) =
      Done (o', Z.lor (flags h) (flag_if comp kSnappy), with_buffers bs s) /\
    ostream_ok o' /\ OStream.start o' = kBufferStartPadding /\
    OStream.content o' = stored_payload comp payload).
  { unfold comp, comp_of. destruct (evaluate (compression f) (default_compression (options s))).
    - exact (compress_spec o (flags h) s Ho Hst).
    - exists o, (buffers s). cbn [andb flag_if stored_payload]. rewrite Z.lor_0_r.
      split; [by destruct s|done]. }
  destruct Hc as (o' & bs & Ec & Ho' & Hst' & Eo'). set (fl := Z.lor _ _) in *.
  set (h' := {| flags := fl; flag_header_size := flag_header_size h;
    previous_offset := previous_offset h; timestamp_to_write := timestamp_to_write h;
    write_checksum := write_checksum h |}).
  assert (Hp' : planned h' (check_of (options s) f) comp).
  { destruct Hp as (Ef & Hp). split; [|exact Hp]. cbn [h' flags]. unfold fl. rewrite Ef.
    unfold data_flags. by rewrite Z.lor_0_r. }
  set (front := data_front id (previous_offset h') (us_of <$> timestamp_to_write h')
    (check_of (options s) f) comp).
  assert (Ebody : encode b = block_bytes kData (data_body front (check_of (options s) f)
    (if check_of (options s) f then crc32 (block_bytes kData (data_body front
      (check_of (options s) f) 0 (OStream.content o'))) else 0) (OStream.content o'))).
  { unfold b, data_block. rewrite encode_data, Eo'. unfold front. cbn [h' previous_offset timestamp_to_write].
    by rewrite Epo, Et. }
  assert (Hn : 0 <= zlen (data_body front (check_of (options s) f) 0 (OStream.content o')) < 2 ^ 42).
  { split; [apply zlen_nonneg|]. pose proof Hsm as Hsm'. unfold small in Hsm'.
    rewrite zlen_log_snoc, Ebody in Hsm'. pose proof (zlen_log_nonneg l).
    match type of Hsm' with context [block_bytes kData ?y] =>
      pose proof (zlen_block_body kData y ltac:(done)) end.
    rewrite zlen_data_body in *. lia. }
  destruct (emit_data_spec h' (check_of (options s) f) comp id o' Hp') as (o'' & Ee & Ho'' & Ec'').
  - by apply in_u_42.
  - exact Ho'.
  - by apply in_u_42.
  - rewrite Hst', (zlen_front h' _ _ _ Hp') by (by apply in_u_42). unfold kBufferStartPadding.
    destruct Hp' as (Ef & _ & Es & _). rewrite Es. fold front.
    pose proof (vu_len_42 _ Hn). pose proof (vu_len_42 id Hid).
    assert (vu_len (flags h') = 1) as ->.
    { rewrite Ef. apply vu_len_small, data_flags_small. }
    cbn [h' previous_offset timestamp_to_write]. rewrite Epo, Et. unfold previous_of.
    assert (zlen (opt_bytes vbytes (if write_previous_offsets (options s)
      then Some (offset_back l id) else None)) <= 6).
    { destruct (write_previous_offsets (options s)); [|done]. cbn [opt_bytes].
      pose proof (small_app _ _ Hsm) as Hsl. rewrite zlen_vbytes by by apply offset_back_u64.
      apply vu_len_42. pose proof (offset_back_bound l id). unfold small in Hsl. lia. }
    assert (zlen (opt_bytes time_bytes (us_of <$> time_of (options s) timestamp now)) <= 8)
      by (by destruct (time_of (options s) timestamp now)).
    fold (crc_size (check_of (options s) f)).
    assert (crc_size (check_of (options s) f) <= 4) by (by destruct (check_of (options s) f)). lia.
  - exists o', o'', fl, bs. split; [exact Ec|]. split; [exact Ee|]. split; [exact Ho''|].
    by rewrite Ec'', Ebody.
Qed.

(** *** The abstract writer *)
Record Spec := { blocks : list block; names : gmap Z (list byte); seeked : ptime }.

Inductive call :=
  | CSchema (id : Z) (schema : list byte)
  | CData (timestamp now : ptime) (id : Z) (payload : list byte) (f : WriteFlags)
  | CSeek (timestamp : ptime)
  (** The background thread writes a buffer out. *)
  | CBackground.

Definition seek_block l (timestamp : ptime) : block :=
  BSeek (us_of timestamp) (seek_entries (zlen (log_bytes l)) (table l)).

Definition seek_due (o : Options) (timestamp last : ptime) : bool :=
  negb (is_not_a_date_time timestamp) && elapsed (seek_block_period o) timestamp last.

Definition data_step (o : Options) (sp : Spec) timestamp now id payload f : Spec :=
  let l := blocks sp ++ [data_block o (blocks sp) timestamp now id payload f] in
  if negb (seek_blocks o) then {| blocks := l; names := names sp; seeked := seeked sp |}
  else if is_not_a_date_time (seeked sp) then
    {| blocks := l; names := names sp; seeked := timestamp |}
  else if seek_due o timestamp (seeked sp) then
    {| blocks := l ++ [seek_block l timestamp]; names := names sp; seeked := timestamp |}
  else {| blocks := l; names := names sp; seeked := seeked sp |}.

Definition id_ok (id : Z) : bool := (0 <=? id) && (id <? 2 ^ 42).

(** [None]: a schema for an identifier that has no name, or an identifier too
    large for the header. *)
Definition spec_call (o : Options) (sp : Spec) (c : call) : option Spec :=
  match c with
  | CSchema id schema =>
      if id_ok id then
        match names sp !! id with
        | Some name =>
            Some {| blocks := blocks sp ++ [BSchema id name schema]; names := names sp;
                    seeked := seeked sp |}
        | None => None
        end
      else None
  | CData timestamp now id payload f =>
      if id_ok id then Some (data_step o sp timestamp now id payload f) else None
  | CSeek timestamp =>
      Some {| blocks := blocks sp ++ [seek_block (blocks sp) timestamp]; names := names sp;
              seeked := seeked sp |}
  | CBackground => Some sp
  end.

Fixpoint spec_run (o : Options) (sp : Spec) (cs : list call) : option Spec :=
  match cs with
  | [] => Some sp
  | c :: cs => match spec_call o sp c with Some sp => spec_run o sp cs | None => None end
  end.

(** The same calls of [FileWriter]. *)
Definition do_call (c : call) (s : State) : outcome State :=
  match c with
  | CSchema id schema => WriteSchema id schema s
  | CData timestamp now id payload f => WriteData_view timestamp now id payload f s
  | CSeek timestamp => WriteSeekBlock timestamp s
  | CBackground => BackgroundWrite s
  end.
Fixpoint run (cs : list call) (s : State) : outcome State :=
  match cs with
  | [] => Done s
  | c :: cs => s ← do_call c s; run cs s
  end.

Definition ids_ok (m : gmap Z entry) : Prop := map_Forall (fun id _ => id_ok id = true) m.

Record logs (o : Options) (s : State) (sp : Spec) : Prop := {
  logs_options : options s = o;
  logs_holds : holds s (blocks sp);
  logs_known : known s = table (blocks sp);
  logs_ids : ids_ok (table (blocks sp));
  logs_names : reverse_identifier_map s = names sp;
  logs_seeked : last_seek_block s = seeked sp;
}.

Lemma id_ok_range id : id_ok id = true -> 0 <= id < 2 ^ 42.
Proof. unfold id_ok. rewrite andb_true_iff, Z.leb_le, Z.ltb_lt. done. Qed.

Lemma ids_ok_fit m : ids_ok m -> ids_fit m.
Proof. intros Hm i e Hi. apply in_u_42, id_ok_range, (Hm i e Hi). Qed.

Lemma ids_ok_note m at_ b :
  ids_ok m -> match b with BSchema id _ _ | BData id _ _ _ _ _ => id_ok id = true | _ => True end ->
  ids_ok (note m at_ b).
Proof.
  intros Hm Hb. destruct b; cbn [note]; try exact Hm;
    (apply map_Forall_insert_2; [exact Hb|exact Hm]).
Qed.

Lemma known_schema s id name schema at_ :
  entry_of <$> with_schema id name schema at_ (schemas s) = note (known s) at_ (BSchema id name schema).
Proof. unfold with_schema, known. by rewrite fmap_insert. Qed.

Lemma known_data s id at_ previous time check comp payload :
  entry_of <$> <[id := set_last at_ (default default_record (schemas s !! id))]> (schemas s) =
  note (known s) at_ (BData id previous time check comp payload).
Proof.
  unfold known. cbn [note]. rewrite fmap_insert, lookup_fmap. f_equal.
  by destruct (schemas s !! id).
Qed.

Lemma schema_name_u64 id name schema :
  in_u 64 (zlen (schema_body id name schema)) -> in_u 64 (zlen name).
Proof.
  unfold schema_body, in_u. pose proof (zlen_nonneg name). rewrite !zlen_app.
  pose proof (zlen_nonneg (vbytes id)). pose proof (zlen_nonneg schema).
  pose proof (zlen_nonneg (vbytes 0)). pose proof (zlen_nonneg (vbytes (zlen name))). lia.
Qed.

(** *** Each call *)
Lemma schema_refines o s sp id schema sp' :
  logs o s sp -> spec_call o sp (CSchema id schema) = Some sp' -> small (blocks sp') ->
  exists s', WriteSchema id schema s = Done s' /\ logs o s' sp'.
Proof.
  intros [Ho Hh Hk Hi Hn Hs]. cbn [spec_call]. destruct (id_ok id) eqn:Eid; [|done].
  destruct (names sp !! id) as [name|] eqn:En; [|done]. intros [= <-] Hsm. cbn [blocks] in Hsm.
  pose proof (in_u_42 id (id_ok_range id Eid)) as Hid.
  assert (Hb : in_u 64 (zlen (schema_body id name schema))).
  { apply (small_body _ _ _ Hsm). by apply zlen_block_body. }
  assert (Hname : in_u 64 (zlen name)) by (by eapply schema_name_u64).
  destruct (WriteSchema_spec s (blocks sp) id name schema Hh) as (s' & E & Hh' & V);
    [by rewrite Hn|done..|].
  exists s'. split; [exact E|]. destruct V as (V1 & _ & V3 & _ & V5 & V6).
  assert (Ek : known s' = table (blocks sp ++ [BSchema id name schema])).
  { unfold known. rewrite V5, table_snoc. cbn [schemas with_schemas].
    by rewrite (known_schema s id name schema), Hk. }
  split; cbn [blocks names seeked]; [by rewrite V1|exact Hh'|exact Ek| |by rewrite V3|by rewrite V6].
  rewrite table_snoc. by apply ids_ok_note.
Qed.

Lemma seek_refines o s sp timestamp sp' :
  logs o s sp -> spec_call o sp (CSeek timestamp) = Some sp' -> small (blocks sp') ->
  exists s', WriteSeekBlock timestamp s = Done s' /\ logs o s' sp'.
Proof.
  intros [Ho Hh Hk Hi Hn Hs] [= <-] Hsm. cbn [blocks] in Hsm.
  destruct (WriteSeekBlock_spec s (blocks sp) timestamp Hh Hk (ids_ok_fit _ Hi) Hsm)
    as (s' & E & Hh' & (V1 & _ & V3 & _ & V5 & V6)).
  exists s'. split; [exact E|].
  split; cbn [blocks names seeked]; [by rewrite V1|exact Hh'| | |by rewrite V3|by rewrite V6].
  - unfold known. rewrite V5, table_snoc. exact Hk.
  - rewrite table_snoc. exact Hi.
Qed.

Lemma background_refines o s sp : logs o s sp ->
  exists s', BackgroundWrite s = Done s' /\ logs o s' sp.
Proof.
  intros [Ho (w & Ew & Hw & Et) Hk Hi Hn Hs]. unfold BackgroundWrite. rewrite Ew.
  destruct (WriteFront_total w Hw) as (w' & b & -> & Hw' & Et' & _). rewrite bind_done.
  assert (Hh : holds (with_writer (Some w') s) (blocks sp)) by (exists w'; by rewrite Et').
  destruct b as [b|]; (eexists; split; [reflexivity|by split]).
Qed.

Lemma with_seek_logs o s sp t : logs o s sp ->
  logs o (with_seek t s) {| blocks := blocks sp; names := names sp; seeked := t |}.
Proof. intros [Ho Hh Hk Hi Hn Hs]. by split. Qed.

(** The data block, and then a seek block when one is due. *)
Lemma data_refines o s sp timestamp now id payload f sp' :
  logs o s sp -> spec_call o sp (CData timestamp now id payload f) = Some sp' ->
  small (blocks sp') ->
  exists s', WriteData_view timestamp now id payload f s = Done s' /\ logs o s' sp'.
Proof.
  intros Hl. cbn [spec_call]. destruct (id_ok id) eqn:Eid; [|done]. intros [= <-] Hsm.
  pose proof Hl as [Ho Hh Hk Hi Hn Hs]. set (b := data_block o (blocks sp) timestamp now id payload f).
  assert (Hsb : small (blocks sp ++ [b])).
  { unfold data_step in Hsm. fold b in Hsm. repeat case_match; cbn [blocks] in Hsm; try exact Hsm.
    exact (small_app _ _ Hsm). }
  unfold WriteData_view. pose proof Hh as (w & Ew & Hw & Et). rewrite Ew.
  destruct (GetBuffer_spec s) as (buf & bs & -> & Hfr).
  destruct (fresh_appends _ payload buf Hfr (appends_write payload)) as (buf' & -> & Hb' & Hst & Ec).
  rewrite bind_done. unfold WriteData. change (writer (with_buffers bs s)) with (writer s). rewrite Ew.
  set (s1 := with_buffers bs s). assert (Hh1 : holds s1 (blocks sp)) by exact Hh.
  destruct (plan_spec s1 (blocks sp) timestamp now id f Hh1 Hk (small_app _ _ Hsb))
    as (h & -> & Hp & Epo & Eti). rewrite bind_done.
  destruct (emit_data_block s1 (blocks sp) timestamp now id f buf' Hh1 Hk h Hp Epo Eti
    (id_ok_range id Eid)) as (b1 & b2 & fl & bs' & Ecomp & Eemit & Hb2 & Ec2);
    [|exact Hb'|exact Hst|].
  { change (options s1) with (options s). rewrite Ho, Ec. exact Hsb. }
  rewrite Ecomp, bind_done. cbv zeta beta iota. rewrite Eemit, bind_done.
  change (options s1) with (options s) in Ec2. rewrite Ho, Ec in Ec2. fold b in Ec2.
  pose proof (holds_position s (blocks sp) Hh) as Hpos. unfold position in Hpos. rewrite Ew in Hpos.
  rewrite Hpos. cbn [schemas with_buffers s1].
  set (s2 := with_schemas _ _). destruct (Write_holds s2 (blocks sp) b b2 Hh Hb2 Ec2)
    as [Hh3 (V1 & _ & V3 & _ & V5 & V6)]. set (s3 := Write b2 s2) in *.
  assert (Hl3 : logs o s3 {| blocks := blocks sp ++ [b]; names := names sp; seeked := seeked sp |}).
  { split; cbn [blocks names seeked]; [by rewrite V1|exact Hh3| | |by rewrite V3|by rewrite V6].
    - unfold known. rewrite V5, table_snoc, <- Hk. cbn [s2 schemas with_schemas].
      by apply known_data.
    - rewrite table_snoc. by apply ids_ok_note. }
  rewrite (logs_options _ _ _ Hl3), (logs_seeked _ _ _ Hl3). cbn [seeked].
  unfold data_step in Hsm |- *. fold b in Hsm |- *. fold (seek_due o timestamp (seeked sp)).
  destruct (seek_blocks o); cbn [negb] in *; [|by eexists].
  destruct (is_not_a_date_time (seeked sp)).
  { eexists. split; [done|]. exact (with_seek_logs _ _ _ timestamp Hl3). }
  destruct (seek_due o timestamp (seeked sp)); [|by eexists].
  destruct (seek_refines o s3 _ timestamp _ Hl3 eq_refl Hsm) as (s4 & -> & Hl4). rewrite bind_done.
  eexists. split; [done|]. exact (with_seek_logs _ _ _ timestamp Hl4).
Qed.

Lemma call_refines o s sp c sp' :
  logs o s sp -> spec_call o sp c = Some sp' -> small (blocks sp') ->
  exists s', do_call c s = Done s' /\ logs o s' sp'.
Proof.
  destruct c; intros Hl E Hsm.
  - by eapply schema_refines.
  - by eapply data_refines.
  - by eapply seek_refines.
  - injection E as <-. by apply background_refines.
Qed.

Lemma spec_call_grows o sp c sp' : spec_call o sp c = Some sp' -> exists k, blocks sp' = blocks sp ++ k.
Proof.
  destruct c as [id schema|timestamp now id payload f|timestamp|]; cbn [spec_call].
  - destruct (id_ok id), (names sp !! id); intros [=]; subst; by eexists.
  - destruct (id_ok id); intros [=]; subst. unfold data_step.
    repeat case_match; cbn [blocks]; try by eexists. rewrite <- app_assoc. by eexists.
  - intros [=]; subst; by eexists.
  - intros [=]; subst. exists []. by rewrite app_nil_r.
Qed.

Lemma spec_run_grows o cs sp sp' : spec_run o sp cs = Some sp' -> exists k, blocks sp' = blocks sp ++ k.
Proof.
  revert sp. induction cs as [|c cs IH]; cbn [spec_run]; intros sp.
  - intros [= <-]. exists []. by rewrite app_nil_r.
  - destruct (spec_call o sp c) as [sp1|] eqn:E; [|done]. intros Hr.
    destruct (spec_call_grows _ _ _ _ E) as (k1 & E1). destruct (IH _ Hr) as (k2 & E2).
    exists (k1 ++ k2). by rewrite E2, E1, app_assoc.
Qed.

Lemma run_refines o cs s sp sp' :
  logs o s sp -> spec_run o sp cs = Some sp' -> small (blocks sp') ->
  exists s', run cs s = Done s' /\ logs o s' sp'.
Proof.
  revert s sp. induction cs as [|c cs IH]; cbn [spec_run run]; intros s sp Hl.
  - intros [= <-] _. by exists s.
  - destruct (spec_call o sp c) as [sp1|] eqn:E; [|done]. intros Hr Hsm.
    destruct (call_refines o s sp c sp1 Hl E) as (s1 & -> & Hl1).
    { destruct (spec_run_grows _ _ _ _ Hr) as (k & Ek). rewrite Ek in Hsm. exact (small_app _ _ Hsm). }
    rewrite bind_done. by eapply IH.
Qed.

(** *** Two things that the files do not hold *)
Definition is_seek (b : block) : bool := match b with BSeek _ _ => true | _ => false end.

(** A call that gives no time. *)
Definition untimed (c : call) : Prop :=
  match c with CData timestamp _ _ _ _ => is_not_a_date_time timestamp = true | CSeek _ => False | _ => True end.

Lemma data_step_untimed o sp timestamp now id payload f : is_not_a_date_time timestamp = true ->
  blocks (data_step o sp timestamp now id payload f) = blocks sp ++ [data_block o (blocks sp) timestamp now id payload f].
Proof. intros Ht. unfold data_step, seek_due. rewrite Ht. cbn [negb andb]. by destruct (seek_blocks o), (is_not_a_date_time (seeked sp)). Qed.

(** Seek blocks are due by the times that are given to WriteData; the system's times,
    which the data blocks then have, make none appear, whatever the period. *)
Theorem system_times_never_seek o cs : forall sp sp', Forall untimed cs -> spec_run o sp cs = Some sp' ->
  List.filter is_seek (blocks sp') = List.filter is_seek (blocks sp).
Proof.
  induction cs as [|c cs IH]; cbn [spec_run]; intros sp sp' Hc; [by intros [= ->]|]. apply Forall_cons_1 in Hc as [Hc Hcs].
  destruct (spec_call o sp c) as [sp1|] eqn:E; [|done]. intros Hr. rewrite (IH sp1 sp' Hcs Hr). clear IH Hr Hcs.
  destruct c as [id schema|timestamp now id payload f|timestamp|]; cbn [spec_call untimed] in *; [| |done|by injection E as <-].
  - destruct (id_ok id), (names sp !! id); try done. injection E as <-. cbn [blocks]. by rewrite List.filter_app, app_nil_r.
  - destruct (id_ok id); [|done]. injection E as <-. by rewrite data_step_untimed, List.filter_app, app_nil_r.
Qed.

(** A schema that is written again for a record forgets its data blocks: the next one
    says that it has none before it, and an index that it has none at all. *)
Theorem schema_again_forgets o sp id schema sp' : spec_call o sp (CSchema id schema) = Some sp' ->
  offset_back (blocks sp') id = 0 /\ (id, zlen (log_bytes (blocks sp)), -1) ∈ index_entries (table (blocks sp')).
Proof.
  cbn [spec_call]. destruct (id_ok id), (names sp !! id) as [name|]; try done. intros [= <-]. cbn [blocks].
  rewrite table_snoc. unfold offset_back. rewrite table_snoc. cbn [note]. rewrite lookup_insert_eq. split; [done|].
  unfold index_entries. apply list_elem_of_fmap. exists (id, {| schema_at := Some (zlen (log_bytes (blocks sp))); last_at := -1 |}). split; [reflexivity|].
  apply elem_of_in_order. cbn. by rewrite lookup_insert_eq.
Qed.
End data.

(** ** An instance

    Points in time of the microsecond clock, and a compression that drops four
    leading zeros. *)
#[export] Instance micro_log : LogClock := {|
  is_not_a_date_time t := match t with MNadt => true | _ => false end;
  ptime_leb a b := match a, b with MAt x, MAt y => x <=? y | _, _ => false end;
  elapsed p a b := match p, a, b with MAt d, MAt x, MAt y => d <=? x - y | _, _, _ => false end;
|}.

Definition zeros4 : list byte := replicate 4 (byte.of_Z 0).
Definition drop_zeros (d : list byte) : list byte :=
  if bool_decide (take 4 d = zeros4) then byte.of_Z 1 :: drop 4 d else byte.of_Z 0 :: d.
Definition put_zeros (d : list byte) : option (list byte) :=
  match d with
  | [] => None
  | b :: d => Some (if byte.unsigned b =? 1 then zeros4 ++ d else d)
  end.

#[export] Instance zero_snappy : Snappy := {|
  MaxCompressedLength n := n + 1;
  RawCompress := drop_zeros;
  GetUncompressedLength d := zlen <$> put_zeros d;
  RawUncompress := put_zeros;
|}.

Lemma put_drop d : put_zeros (drop_zeros d) = Some d.
Proof.
  unfold drop_zeros. case_bool_decide as E; [|done]. cbn [put_zeros]. rewrite <- E.
  change (byte.unsigned (byte.of_Z 1) =? 1) with true. cbv iota. by rewrite take_drop.
Qed.

#[export] Instance zero_snappy_laws : SnappyLaws.
Proof.
  split; cbn.
  - intros d. unfold drop_zeros. case_bool_decide; rewrite zlen_cons; [|lia].
    unfold zlen. rewrite length_drop. lia.
  - apply put_drop.
  - intros d. by rewrite put_drop.
Qed.
