(* ===== verification/LogProperties.v ===== *)
(** * What a log file holds

    From [Open] to [Close]: the file is the log of the blocks the abstract
    writer has; and the identifiers of records. *)
From stdpp Require Import gmap sorting fin_sets list_numbers strings.
From S2P Require Import Prelude Varuint Streams TimeConversions TelemetryFormat FileWriter Tokenizer Register LogFormat FileWriterTheory FileWriterOps LogWriter.
#[local] Open Scope Z_scope.

(** ** Identifiers *)
Section identifiers.
Import FileWriter.
Context `{LogClock}.

(** Names and identifiers are in one-to-one correspondence. *)
Definition names_ok (s : State) : Prop :=
  (forall n i, identifier_map s !! n = Some i <-> reverse_identifier_map s !! i = Some n) /\
  in_u 64 (next_id s).

(** [n] identifiers from [next] on, around the end of the type. *)
Definition ids_from (next : Z) (n : nat) : list Z :=
  map (fun k => u64 (next + Z.of_nat k)) (seq 0 n).

Lemma u64_shift next k j : u64 (u64 (next + k) + j) = u64 (next + (k + j)).
Proof. unfold uwrap. rewrite Zplus_mod_idemp_l. f_equal. lia. Qed.

Lemma unused_id_spec fuel taken next :
  in_u 64 next ->
  match unused_id fuel taken next with
  | Done i => taken !! i = None /\ in_u 64 i
  | Faulted e => e = OutOfFuel /\ Forall (fun i => i ∈ dom taken) (ids_from next fuel)
  end.
Proof.
  revert next. induction fuel as [|fuel IH]; intros next Hn; cbn [unused_id]; [by split|].
  destruct (taken !! next) as [name|] eqn:E; [|done].
  pose proof (IH (u64 (next + 1)) (uwrap_range 64 _ ltac:(lia))) as Hf.
  destruct (unused_id fuel taken (u64 (next + 1))); [exact Hf|]. destruct Hf as [-> Hf]. split; [done|].
  unfold ids_from in *. cbn [seq map]. constructor.
  - apply elem_of_dom. rewrite Z.add_0_r, uwrap_id by done. by exists name.
  - rewrite <- seq_shift, map_map. erewrite map_ext; [exact Hf|]. intros k. cbn beta.
    rewrite u64_shift. f_equal. lia.
Qed.

Lemma ids_from_NoDup next n : Z.of_nat n <= 2 ^ 64 -> NoDup (ids_from next n).
Proof.
  intros Hn. unfold ids_from. apply list.NoDup_fmap_2_strong; [|apply stdpp.list_numbers.list.NoDup_seq].
  intros i j Hi%stdpp.list_numbers.list.elem_of_seq Hj%stdpp.list_numbers.list.elem_of_seq E. unfold uwrap in E.
  assert (Hz : (Z.of_nat i - Z.of_nat j) mod 2 ^ 64 = 0).
  { replace (Z.of_nat i - Z.of_nat j) with ((next + Z.of_nat i) - (next + Z.of_nat j)) by lia.
    rewrite Zminus_mod, E, Z.sub_diag. done. }
  apply Z.mod_divide in Hz as [q Hq]; [|lia]. destruct (decide (q = 0)) as [->|]; [lia|]. nia.
Qed.

(** There is always an identifier left to find. *)
Lemma unused_id_total taken next :
  Z.of_nat (size taken) < 2 ^ 64 -> in_u 64 next ->
  exists i, unused_id (S (size taken)) taken next = Done i /\ taken !! i = None /\ in_u 64 i.
Proof.
  intros Hs Hn. pose proof (unused_id_spec (S (size taken)) taken next Hn) as Hf.
  destruct (unused_id _ taken next) as [i|e]; [by exists i|]. exfalso. destruct Hf as [_ Hf].
  pose proof (ids_from_NoDup next (S (size taken)) ltac:(lia)) as Hnd.
  assert (Hsub : (list_to_set (ids_from next (S (size taken))) : gset Z) ⊆ dom taken).
  { intros i Hi%elem_of_list_to_set. rewrite list.Forall_forall in Hf. by apply Hf. }
  apply subseteq_size in Hsub. rewrite size_list_to_set, size_dom in Hsub by done.
  unfold ids_from in Hsub. rewrite length_map, length_seq in Hsub. lia.
Qed.

(** A new pair keeps the correspondence. *)
Lemma names_ok_insert s name i next :
  names_ok s -> identifier_map s !! name = None -> reverse_identifier_map s !! i = None ->
  in_u 64 next ->
  names_ok (with_names (<[name := i]> (identifier_map s)) (<[i := name]> (reverse_identifier_map s)) next s).
Proof.
  intros [Hb _] Hn Hi Hu. split; [|exact Hu]. cbn [identifier_map reverse_identifier_map with_names].
  intros n j. destruct (decide (n = name)) as [->|Hne].
  - rewrite lookup_insert_eq. destruct (decide (j = i)) as [->|]; [by rewrite lookup_insert_eq|].
    rewrite lookup_insert_ne by done. split; [by intros [=]|]. intros Hj. apply Hb in Hj. congruence.
  - rewrite lookup_insert_ne by done. destruct (decide (j = i)) as [->|].
    + rewrite lookup_insert_eq. split; [intros Hj; apply Hb in Hj; congruence|congruence].
    + rewrite lookup_insert_ne by done. apply Hb.
Qed.

(** AllocateIdentifier always answers, however the identifiers in use lie,
    with one that belongs to this name and to no other; a name keeps the
    identifier it has, and the correspondence of names and identifiers is
    kept. *)
Theorem allocate_gives_own_identifier s name :
  names_ok s -> Z.of_nat (size (reverse_identifier_map s)) < 2 ^ 64 ->
  exists i s', AllocateIdentifier s name = Done (i, s') /\ names_ok s' /\
    identifier_map s' !! name = Some i /\
    (forall n, n <> name -> identifier_map s' !! n = identifier_map s !! n) /\
    (forall n, identifier_map s' !! n = Some i -> n = name) /\
    (forall i', identifier_map s !! name = Some i' -> i' = i).
Proof.
  intros Hok Hs. unfold AllocateIdentifier. destruct (identifier_map s !! name) as [i|] eqn:E.
  - exists i, s. split; [done|]. split; [exact Hok|]. split; [done|]. split; [done|].
    split; [|congruence]. intros n Hn. apply (proj1 Hok) in Hn, E. congruence.
  - destruct (unused_id_total _ (next_id s) Hs (proj2 Hok)) as (i & -> & Hi & Hu). rewrite bind_done.
    pose proof (names_ok_insert s name i (u64 (i + 1)) Hok E Hi (uwrap_range 64 _ ltac:(lia))) as Hok'.
    eexists i, _. split; [reflexivity|]. split; [exact Hok'|].
    assert (Hl : identifier_map (with_names (<[name:=i]> (identifier_map s))
      (<[i:=name]> (reverse_identifier_map s)) (u64 (i + 1)) s) !! name = Some i)
      by (cbn; apply lookup_insert_eq).
    split; [exact Hl|]. split; [intros n Hn; cbn; by apply lookup_insert_ne|]. split; [|done].
    intros n Hn. apply (proj1 Hok') in Hn, Hl. congruence.
Qed.

(** Reserving an identifier another name has is refused, and reserving for a
    name that has another one aborts. *)
Lemma reserve_spec s name i :
  names_ok s -> in_u 64 i ->
  match ReserveIdentifier s name i with
  | Done (true, s') => names_ok s' /\ identifier_map s' !! name = Some i
  | Done (false, s') => s' = s /\ exists n, n <> name /\ identifier_map s !! n = Some i
  | Faulted e => e = Assertion /\ exists j, j <> i /\ identifier_map s !! name = Some j
  end.
Proof.
  intros Hok Hi. unfold ReserveIdentifier. destruct (identifier_map s !! name) as [j|] eqn:E.
  - destruct (Z.eqb_spec j i) as [->|]; [done|]. split; [done|]. by exists j.
  - destruct (reverse_identifier_map s !! i) as [n|] eqn:Er.
    + split; [done|]. exists n. apply (proj1 Hok) in Er. split; congruence.
    + split; [|apply lookup_insert_eq]. by apply names_ok_insert; [| | |apply Hok].
Qed.
End identifiers.

(** ** From [Open] to [Close] *)
Section life.
Import FileWriter.
Context `{CrcType} `{LogClock} `{SnappyLaws}.
Implicit Types (s : State) (l : list block).

(** *** Opening *)
Definition schema_block s (p : Z * SchemaRecord) : block :=
  BSchema p.1 (default [] (reverse_identifier_map s !! p.1)) (schema p.2).
Definition schema_blocks s : list block := map (schema_block s) (in_order (schemas s)).

(** The schemas that are known have a name and an identifier that fits. *)
Definition reopens s : Prop :=
  map_Forall (fun i r => identifier r = i /\ id_ok i = true /\ is_Some (reverse_identifier_map s !! i))
    (schemas s).

Lemma header_spec s w :
  writer s = Some ThreadWriter.make -> w = ThreadWriter.make ->
  exists o bs, (let '(buffer, s) := GetBuffer s in
     buffer ← ws_write buffer kHeader;
     buffer ← TelemetryWriter.WriteVaruint buffer 0; Done (buffer, s)) = Done (o, with_buffers bs s) /\
    holds (Write o (with_buffers bs s)) [] /\ same_view s (Write o (with_buffers bs s)).
Proof.
  intros Ew _. destruct (GetBuffer_spec s) as (o & bs & -> & Hf).
  destruct (fresh_appends _ _ o Hf (appends_bind _ _ _ _ (appends_write kHeader)
    (appends_writes _ _ (writes_WriteVaruint 0 zero_u64)))) as (o1 & E1 & Ho1 & _ & Ec1).
  destruct (bind_done_inv _ _ _ E1) as (o2 & -> & E2). rewrite bind_done, E2, bind_done.
  exists o1, bs. split; [done|]. unfold Write. cbn [writer with_buffers]. rewrite Ew. split; [|done].
  destruct (Write_total ThreadWriter.make o1 writer_ok_make Ho1) as [Hw Et].
  { rewrite <- content_size, Ec1 by done. done. }
  eexists. split; [reflexivity|]. split; [exact Hw|].
  rewrite Et, Ec1. unfold log_bytes, log_header. cbn [map concat]. by rewrite app_nil_r.
Qed.

(** The loop over the schemas: those still to be written are the only ones the
    log does not have. *)
Lemma WriteSchemas_spec names o seek recs s l :
  options s = o -> reverse_identifier_map s = names -> last_seek_block s = seek ->
  holds s l -> ids_ok (table l) ->
  Forall (fun p => identifier p.2 = p.1 /\ id_ok p.1 = true /\ is_Some (names !! p.1)) recs ->
  (forall i, i ∉ map fst recs -> known s !! i = table l !! i) ->
  let bs := map (schema_block s) recs in
  small (l ++ bs) ->
  exists s', WriteSchemas recs s = Done s' /\
    logs o s' {| blocks := l ++ bs; LogWriter.names := names; seeked := seek |}.
Proof.
  revert s l. induction recs as [|[i r] recs IH]; intros s l Ho Hn Hs Hh Hi Hr Hk bs Hsm.
  - exists s. split; [done|]. cbn in bs. unfold bs. rewrite app_nil_r.
    split; try done. apply map_eq. intros i. apply Hk. apply not_elem_of_nil.
  - apply Forall_cons_1 in Hr as [(Eid & Hid & name & En) Hr]. cbn [fst snd] in *.
    cbn [WriteSchemas]. rewrite Eid.
    set (b := BSchema i name (schema r)).
    assert (Ebs : bs = b :: map (schema_block s) recs).
    { unfold bs. cbn [map]. unfold schema_block at 1. cbn [fst snd]. by rewrite Hn, En. }
    rewrite Ebs in Hsm. replace (l ++ b :: map (schema_block s) recs)
      with ((l ++ [b]) ++ map (schema_block s) recs) in Hsm by (by rewrite <- app_assoc).
    pose proof (small_app _ _ Hsm) as Hsb.
    pose proof (in_u_42 i (id_ok_range i Hid)) as Hiu.
    assert (Hb : in_u 64 (zlen (schema_body i name (schema r)))).
    { apply (small_body _ _ _ Hsb). by apply zlen_block_body. }
    destruct (WriteSchema_spec s l i name (schema r) Hh) as (s1 & E1 & Hh1 & (V1 & _ & V3 & _ & V5 & V6));
      [by rewrite Hn|exact Hiu|by eapply schema_name_u64|exact Hb|].
    rewrite E1, bind_done.
    destruct (IH s1 (l ++ [b])) as (s2 & E2 & Hl2).
    + by rewrite V1.
    + by rewrite V3.
    + by rewrite V6.
    + exact Hh1.
    + rewrite table_snoc. by apply ids_ok_note.
    + exact Hr.
    + intros j Hj. unfold known. rewrite V5, table_snoc. cbn [schemas with_schemas].
      rewrite (known_schema s i name (schema r)). unfold b. cbn [note].
      destruct (decide (j = i)) as [->|Hne]; [by rewrite !lookup_insert_eq|].
      rewrite !lookup_insert_ne by done. apply Hk. cbn. rewrite not_elem_of_cons. done.
    + unfold schema_block in *. rewrite V3. exact Hsm.
    + exists s2. split; [exact E2|]. rewrite Ebs.
      replace (l ++ b :: map (schema_block s) recs)
        with ((l ++ [b]) ++ map (schema_block s1) recs); [exact Hl2|].
      rewrite <- app_assoc. unfold schema_block. by rewrite V3.
Qed.

Lemma Open_refines s :
  writer s = None -> reopens s -> small (schema_blocks s) ->
  exists s', Open s = Done s' /\
    logs (options s) s' {| blocks := schema_blocks s; LogWriter.names := reverse_identifier_map s;
                           seeked := last_seek_block s |}.
Proof.
  intros Ew Hr Hsm. unfold Open. rewrite Ew. cbn [mj_assert]. rewrite bind_done. unfold PostOpen.
  set (s0 := with_writer (Some ThreadWriter.make) s).
  destruct (header_spec s0 _ eq_refl eq_refl) as (o & bs & E & Hh & (V1 & _ & V3 & _ & V5 & V6)).
  destruct (GetBuffer s0) as [o1 s1]. apply bind_done_inv in E as (o2 & -> & E).
  apply bind_done_inv in E as (o3 & E3 & [= -> ->]). rewrite bind_done, E3, bind_done. cbv zeta.
  set (s2 := Write o (with_buffers bs s0)) in *.
  apply (WriteSchemas_spec (reverse_identifier_map s) (options s) (last_seek_block s)
    (in_order (schemas s2)) s2 []) in Hh.
  - destruct Hh as (s' & -> & Hl). exists s'. split; [done|]. revert Hl. unfold schema_blocks.
    unfold schema_block. rewrite V3, V5. done.
  - exact V1.
  - exact V3.
  - exact V6.
  - apply map_Forall_empty.
  - rewrite V5. apply list.Forall_forall. intros [i r] Hi%elem_of_in_order. exact (Hr i r Hi).
  - intros i Hi. rewrite V5 in Hi. unfold known. rewrite V5.
    change (table [] !! i) with (@None entry). rewrite lookup_fmap.
    destruct (schemas s0 !! i) as [r|] eqn:Er; [|done]. exfalso. apply Hi.
    apply list_elem_of_fmap. exists (i, r). split; [done|]. by apply elem_of_in_order.
  - revert Hsm. unfold schema_blocks, schema_block. by rewrite V3, V5.
Qed.

(** *** Closing *)
Definition closing (o : Options) l : list block :=
  l ++ (if index_block o then [BIndex (index_entries (table l))] else []).

Lemma Close_refines o s sp :
  logs o s sp -> (index_block o = true -> all_known (table (blocks sp))) ->
  small (closing o (blocks sp)) ->
  exists s', Close s = Done (s', Some (log_bytes (closing o (blocks sp)))) /\ writer s' = None.
Proof.
  intros [Ho Hh Hk Hi Hn Hs] Ha Hsm.
  assert (Hc : exists s1, (if index_block (options s) then WriteIndex s else Done s) = Done s1 /\
    holds s1 (closing o (blocks sp))).
  { rewrite Ho. unfold closing in *. destruct (index_block o); [|exists s; by rewrite app_nil_r].
    destruct (WriteIndex_spec s (blocks sp) Hh Hk (ids_ok_fit _ Hi) (Ha eq_refl) Hsm)
      as (s1 & E & Hh1 & _). by exists s1. }
  unfold Close. destruct Hh as (w & Ew & _). rewrite Ew.
  destruct Hc as (s1 & -> & (w1 & Ew1 & Hw1 & Et1)). rewrite bind_done, Ew1.
  destruct (WriteAll_total w1 Hw1) as (w2 & -> & Ef). rewrite bind_done.
  eexists. split; [by rewrite Ef, Et1|done].
Qed.

(** C7: from [Open] to [Close], whatever calls are made and whenever the
    background thread writes a buffer, what is in the file is the log of the
    blocks the abstract writer appended: the header, the schemas known before,
    every schema, every data block with the offset back to the block before,
    its time, its checksum and its payload compressed when that is shorter, the
    seek blocks when they are due, and the index.  What the blocks are is what the
    code computes, which is not all that is documented of it: seek blocks are due by
    the times that are given through the API only ([system_times_never_seek]), and a
    schema that is written again for a record makes its next block say that none is
    before it, and the index that it has none ([schema_again_forgets]); both are
    findings. *)
Theorem log_file_holds_its_blocks s cs sp :
  writer s = None -> reopens s ->
  spec_run (options s) {| blocks := schema_blocks s; LogWriter.names := reverse_identifier_map s;
                          seeked := last_seek_block s |} cs = Some sp ->
  (index_block (options s) = true -> all_known (table (blocks sp))) ->
  small (closing (options s) (blocks sp)) ->
  exists s', (s1 ← Open s; s2 ← run cs s1; Close s2) =
    Done (s', Some (log_bytes (closing (options s) (blocks sp)))) /\ writer s' = None.
Proof.
  intros Ew Hr Hrun Ha Hsm. pose proof (small_app _ _ Hsm) as Hb.
  destruct (spec_run_grows _ _ _ _ Hrun) as (k & Ek). cbn [blocks] in Ek.
  destruct (Open_refines s Ew Hr) as (s1 & -> & Hl1); [rewrite Ek in Hb; exact (small_app _ _ Hb)|].
  rewrite bind_done. destruct (run_refines _ cs s1 _ sp Hl1 Hrun Hb) as (s2 & -> & Hl2).
  rewrite bind_done. by apply Close_refines.
Qed.
End life.

(** ** A log of two records *)
Definition sample_options (index : bool) : FileWriter.Options := {|
  FileWriter.write_previous_offsets := true; FileWriter.default_compression := true;
  FileWriter.default_checksum_data := true; FileWriter.index_block := index;
  FileWriter.seek_blocks := true; FileWriter.seek_block_period := MAt 100;
  FileWriter.timestamps_system := true |}.

Definition default_flags : FileWriter.WriteFlags :=
  let o := {| FileWriter.require := false; FileWriter.disable := false |} in
  {| FileWriter.compression := o; FileWriter.checksum_ := o |}.

(** [make] with two names. *)
Definition sample_state (index : bool) : FileWriter.State :=
  FileWriter.with_names (list_to_map [(text_of "pose", 1); (text_of "imu", 7)])
    (list_to_map [(1, text_of "pose"); (7, text_of "imu")]) 8 (FileWriter.make (sample_options index)).

(** The schema of a [bool]. *)
Definition bool_schema : list byte := [byte.of_Z 2].

Definition sample_calls : list call := [
  CSchema 1 bool_schema;
  CData (MAt 1000) MPos 1 (text_of "hello") default_flags;
  CBackground;
  CSchema 7 bool_schema;
  CData MNadt (MAt 1050) 7 (map byte.of_Z [0; 0; 0; 0; 9]) default_flags;
  CBackground;
  CData (MAt 1100) MPos 1 (text_of "again") default_flags;
  CSeek (MAt 1200)].

Definition sample_spec (index : bool) : Spec :=
  from_option id {| blocks := []; names := ∅; seeked := MNadt |}
    (spec_run (sample_options index)
      {| blocks := []; names := FileWriter.reverse_identifier_map (sample_state index); seeked := MNadt |}
      sample_calls).

Lemma allocate_gives_own_identifier_witness :
  exists i s', FileWriter.AllocateIdentifier (sample_state true) (text_of "gps") = Done (i, s') /\
    names_ok s' /\ FileWriter.identifier_map s' !! text_of "gps" = Some i /\
    (forall n, n <> text_of "gps" ->
      FileWriter.identifier_map s' !! n = FileWriter.identifier_map (sample_state true) !! n) /\
    (forall n, FileWriter.identifier_map s' !! n = Some i -> n = text_of "gps") /\
    (forall i', FileWriter.identifier_map (sample_state true) !! text_of "gps" = Some i' -> i' = i).
Proof.
  refine (allocate_gives_own_identifier (sample_state true) (text_of "gps") _ _); [|vm_compute; done].
  split; [|by vm_compute].
  assert (Hne : text_of "pose" <> text_of "imu") by done.
  intros n i. cbn [FileWriter.identifier_map FileWriter.reverse_identifier_map sample_state
    FileWriter.with_names list_to_map foldr fst snd uncurry].
  rewrite !lookup_insert_Some, !lookup_empty. naive_solver.
Defined.

Lemma log_file_holds_its_blocks_witness :
  exists s', (s1 ← FileWriter.Open (sample_state true); s2 ← run sample_calls s1; FileWriter.Close s2) =
    Done (s', Some (log_bytes (closing (sample_options true) (blocks (sample_spec true))))) /\
    FileWriter.writer s' = None.
Proof.
  refine (log_file_holds_its_blocks (sample_state true) sample_calls (sample_spec true) eq_refl _ _ _ _).
  - apply map_Forall_empty.
  - vm_compute. reflexivity.
  - intros _. apply map_Forall_to_list. vm_compute. repeat constructor; discriminate.
  - vm_compute. reflexivity.
Defined.
