(* ===== verification/FileReaderTheory.v ===== *)
(** * FileReader: reading what is there

    The reader takes blocks apart through a stack of streams: the file, a
    checksum over it, and the bounds of the block.  [gets f d c]: where [d]
    lies ahead, [f] reads just [d] and finds [c]; unlike [reads] it holds of
    streams that refuse to read past their end. *)
From stdpp Require Import gmap sorting.
From S2P Require Import Prelude Varuint Streams TimeConversions TelemetryFormat Archive Schema FileWriter FileReader LogFormat.
#[local] Open Scope Z_scope.
Import TelemetryReader.

Section gets.
Context {S : Type} `{ReadStream S}.

(** [R s k tail]: [k] has been read from [s], and [tail] is ahead. *)
Definition exact (R : S -> list byte -> list byte -> Prop) : Prop := forall s k d tail,
  R s k (d ++ tail) -> exists s',
    rs_read s (zlen d) = Done (d, s') /\ rs_gcount s' = zlen d /\ R s' (k ++ d) tail.

Context (R : S -> list byte -> list byte -> Prop).

Definition gets {C} (f : S -> outcome (C * S)) (d : list byte) (c : C) : Prop := forall s k tail,
  R s k (d ++ tail) -> exists s', f s = Done (c, s') /\ R s' (k ++ d) tail.

Lemma gets_ret {C} (c : C) : gets (fun s => Done (c, s)) [] c.
Proof. intros s k tail Hr. exists s. by rewrite app_nil_r. Qed.

Lemma gets_bind {A C} (f : S -> outcome (A * S)) (g : A -> S -> outcome (C * S)) d e a c :
  gets f d a -> gets (g a) e c -> gets (fun s => '(x, s) ← f s; g x s) (d ++ e) c.
Proof.
  intros Hf Hg s k tail Hr. rewrite <- app_assoc in Hr.
  destruct (Hf s k (e ++ tail) Hr) as (s1 & E1 & R1).
  destruct (Hg s1 (k ++ d) tail R1) as (s2 & E2 & R2).
  exists s2. by rewrite E1, bind_done, app_assoc.
Qed.

Lemma gets_done {A C} (f : S -> outcome (A * S)) (h : A -> C) d a :
  gets f d a -> gets (fun s => '(x, s) ← f s; Done (h x, s)) d (h a).
Proof. intros Hf s k tail Hr. destruct (Hf s k tail Hr) as (s' & -> & ?). by exists s'. Qed.

Lemma gets_value_of {A} (f : S -> outcome (option A * S)) d a :
  gets f d (Some a) -> gets (fun s => BinarySchemaParser.value_of (f s)) d a.
Proof. intros Hf s k tail Hr. destruct (Hf s k tail Hr) as (s' & -> & ?). by exists s'. Qed.

Context (HR : exact R).

Lemma gets_RawRead d : gets (fun s => RawRead s (zlen d)) d (Some d).
Proof.
  intros s k tail Hr. destruct (HR s k d tail Hr) as (s' & E & G & R'). exists s'.
  unfold RawRead. rewrite E, bind_done, G, Z.eqb_refl. by split.
Qed.

Lemma gets_ReadScalar n d : zlen d = Z.of_nat n -> gets (ReadScalar n) d (Some (le_combine d)).
Proof.
  intros Hn. unfold ReadScalar. rewrite <- Hn.
  exact (gets_done _ (option_map le_combine) _ _ (gets_RawRead d)).
Qed.

Lemma gets_uint n v : in_u (8 * Z.of_nat n) v -> gets (ReadScalar n) (le_split n v) (Some v).
Proof.
  intros Hv. rewrite <- (uwrap_id _ _ Hv) at 2. rewrite <- le_combine_le_split.
  apply gets_ReadScalar, zlen_le_split.
Qed.

Lemma gets_int n v :
  (0 < n)%nat -> in_s (8 * Z.of_nat n) v -> gets (ReadSigned n) (le_split n v) (Some v).
Proof.
  intros Hn Hv. rewrite <- (swrap_id (8 * Z.of_nat n) v ltac:(lia) Hv) at 2.
  rewrite <- swrap_uwrap by lia. rewrite <- le_combine_le_split.
  apply (gets_done _ (option_map _) _ (Some _)), gets_ReadScalar, zlen_le_split.
Qed.

Lemma gets_varuint_loop bs : forall fuel result pos,
  vu_wf bs = true -> (length bs <= fuel)%nat -> 0 <= pos -> pos + 7 * (zlen bs - 1) < 64 ->
  0 <= result < 2 ^ pos ->
  gets (fun s => ReadVaruint_loop fuel s result pos) bs (Some (u64 (result + 2 ^ pos * vu_value bs))).
Proof.
  induction bs as [|b t IH]; intros fuel result pos Hwf Hl Hp Hlim Hr s k tail Hs; [done|].
  destruct fuel as [|fuel]; [cbn in Hl; lia|]. rewrite zlen_cons in Hlim. pose proof (zlen_nonneg t).
  cbn [ReadVaruint_loop].
  destruct (gets_ReadScalar 1 [b] eq_refl s k (t ++ tail) Hs) as (s1 & -> & R1).
  rewrite bind_done, le_combine_1. cbn beta iota. unfold shift_left_u64.
  rewrite (proj2 (Z.ltb_lt pos 64)), bind_done by lia. fold (payload7 b).
  pose proof (payload7_range b). rewrite lor_wrapped_shift by lia.
  pose proof (wrapped_shift_bound 64 result (payload7 b) pos ltac:(lia) Hr ltac:(lia)) as Hb.
  rewrite <- (vu_step_value 64) by lia. fold (continues b).
  rewrite vu_wf_cons in Hwf. destruct (continues b).
  - destruct (IH fuel (u64 (result + payload7 b * 2 ^ pos)) (pos + 7) Hwf ltac:(cbn in Hl; lia)
      ltac:(lia) ltac:(lia) Hb s1 (k ++ [b]) tail R1)
      as (s2 & -> & R2).
    exists s2. split; [done|]. by rewrite <- app_assoc in R2.
  - destruct t; [|done]. cbn [vu_value]. rewrite Z.mul_0_r, Z.add_0_r.
    exists s1. split; [|exact R1]. unfold uwrap. by rewrite Zmod_mod.
Qed.

Lemma gets_varuint v : in_u 64 v -> gets ReadVaruint (vbytes v) (Some v).
Proof.
  intros Hv. destruct (vbytes_wf v Hv) as [Hw Hl]. pose proof (vu_len_u64 v Hv).
  pose proof (gets_varuint_loop (vbytes v) 11 0 0 Hw) as Hg.
  replace (0 + 2 ^ 0 * vu_value (vbytes v)) with v in Hg.
  - rewrite uwrap_id in Hg by done. apply Hg; unfold zlen in *; lia.
  - unfold vbytes. rewrite vu_value_bytes by (by apply u64_fuel). lia.
Qed.

Lemma gets_string d :
  zlen d <= kMaxStringSize -> gets ReadString (vbytes (zlen d) ++ d) (Some d).
Proof.
  intros Hd. refine (gets_bind _ _ _ _ (Some (zlen d)) _ (gets_varuint (zlen d) _) _).
  - split; [apply zlen_nonneg|]. eapply Z.le_lt_trans; [exact Hd|reflexivity].
  - rewrite (proj2 (Z.ltb_ge _ _)) by done. apply gets_RawRead.
Qed.

Lemma gets_timestamp `{BoostTime} us :
  in_s 64 us -> gets ReadTimestamp (time_bytes us) (Some (ConvertEpochMicrosecondsToPtime us)).
Proof.
  intros Hu. exact (gets_done _ (option_map ConvertEpochMicrosecondsToPtime) _ _
    (gets_int 8 us ltac:(lia) Hu)).
Qed.

(** The rest of a block as a string. *)
Lemma gets_read_string d : zlen d <= max_size -> gets (read_string (zlen d)) d d.
Proof.
  intros Hd s k tail Hr. unfold read_string, string_resize. pose proof (zlen_nonneg d).
  rewrite (proj2 (Z.ltb_ge (zlen d) 0)), (proj2 (Z.ltb_ge max_size (zlen d))) by lia. cbn [orb].
  destruct (HR s k d tail Hr) as (s' & E & _ & R'). exists s'.
  rewrite bind_done, E, bind_done, Z.sub_diag. cbn. by rewrite app_nil_r.
Qed.

Lemma gets_ReadHeader type n throw :
  1 <= type <= kSeekMarker -> in_u 64 n ->
  gets (fun s => FileReader.ReadHeader s throw) (vbytes type ++ vbytes n)
    (Some {| FileReader.type := type; FileReader.size := n |}).
Proof.
  intros Ht Hn. assert (Hu : in_u 64 type) by (unfold in_u, kSeekMarker in *; lia).
  refine (gets_bind _ _ _ _ (Some type) _ (gets_varuint type Hu) _).
  rewrite (proj2 (Z.ltb_ge kSeekMarker type)), (proj2 (Z.eqb_neq type 0)) by lia. cbn [orb].
  exact (gets_done _ (fun size => Some {| FileReader.type := type; FileReader.size := size |}) _ _
    (gets_value_of _ _ _ (gets_varuint n Hn))).
Qed.
End gets.

(** ** The streams of the reader *)

(** The file at a place; what is ahead is all of the rest. *)
Definition file_at (contents : list byte) (f : FileStream.t) (k tail : list byte) : Prop :=
  FileStream.contents f = contents /\
  exists pre, contents = pre ++ tail /\ FileStream.offset f = zlen pre.

(** A block over another stream, [behind] it more. *)
Definition block_at {S} (R : S -> list byte -> list byte -> Prop) (behind : list byte)
    (s : BlockStream.t S) (k tail : list byte) : Prop :=
  R (BlockStream.base s) k (tail ++ behind) /\ BlockStream.remaining s = zlen tail.

(** What the checksum has seen. *)
Definition crc_at `{CrcType} {S} (R : S -> list byte -> list byte -> Prop)
    (s : CrcStream.reader S) (k tail : list byte) : Prop :=
  R (CrcStream.rbase s) k tail /\ CrcStream.rcrc s = process_bytes crc_init k.

Lemma exact_file contents : exact (file_at contents).
Proof.
  intros f k d tail (Ec & pre & E & Ho). cbn. unfold FileStream.read. rewrite Ec, Ho, E.
  rewrite zdrop_app_len, ztake_app_len. eexists. split; [done|]. split; [done|].
  split; [done|]. exists (pre ++ d). cbn. by rewrite <- app_assoc, zlen_app.
Qed.

Lemma exact_block {S} `{ReadStream S} R behind : exact R -> exact (block_at R behind).
Proof.
  intros HR s k d tail [Hr Hm]. rewrite <- app_assoc in Hr. rewrite zlen_app in Hm.
  pose proof (zlen_nonneg tail). destruct (HR _ _ _ _ Hr) as (b & E & G & R').
  cbn [rs_read BlockStream.read_stream]. unfold BlockStream.read.
  rewrite (proj2 (Z.leb_le _ _)) by lia. cbn [mj_assert]. rewrite bind_done, E, bind_done.
  eexists. split; [done|]. split; [exact G|]. split; [exact R'|]. cbn. lia.
Qed.

Lemma exact_crc `{CrcLaws} {S} `{ReadStream S} R : exact R -> exact (crc_at R).
Proof.
  intros HR s k d tail [Hr Hc]. destruct (HR _ _ _ _ Hr) as (b & E & G & R').
  cbn [rs_read CrcStream.reader_stream]. unfold CrcStream.reader_read. rewrite E, bind_done.
  eexists. split; [done|]. split; [exact G|]. split; [exact R'|]. cbn. by rewrite Hc, process_app.
Qed.

(** The end of a block that was read to its end, and of one that was not. *)
Lemma close_done {S} `{ReadStream S} R behind s k :
  block_at R behind s k [] -> BlockStream.close s = Done (BlockStream.base s) /\
    R (BlockStream.base s) k behind.
Proof. intros [Hr Hm]. unfold BlockStream.close. by rewrite Hm. Qed.

(** Positions in a file stay in the offset type. *)
Definition file_small (contents : list byte) : Prop := zlen contents < 2 ^ 63.

Lemma close_file contents behind s k tail :
  file_small contents -> block_at (file_at contents) behind s k tail ->
  exists f, BlockStream.close s = Done f /\ file_at contents f (k ++ tail) behind /\
    FileStream.Tell (BlockStream.base s) + BlockStream.remaining s = FileStream.Tell f.
Proof.
  intros Hsm [(Ec & pre & E & Ho) Hm]. unfold BlockStream.close. rewrite Hm. cbn [rs_ignore].
  unfold FileStream.Tell. destruct (Z.ltb_spec 0 (zlen tail)) as [Hl|Hl].
  - cbn. unfold FileStream.ignore. rewrite Ho. unfold file_small in Hsm.
    rewrite E, !zlen_app in Hsm. pose proof (zlen_nonneg pre). pose proof (zlen_nonneg behind).
    rewrite (proj2 (Z.ltb_ge _ 0)), (proj2 (Z.leb_gt (2 ^ 63) _)) by lia. cbn [orb].
    eexists. split; [done|]. cbn. split; [|done]. split; [done|]. exists (pre ++ tail).
    by rewrite <- app_assoc, zlen_app.
  - pose proof (zlen_nonneg tail). destruct tail; [|rewrite zlen_cons in *; pose proof (zlen_nonneg tail); lia].
    eexists. split; [done|]. rewrite Z.add_0_r, app_nil_r. split; [|done]. split; [exact Ec|]. by exists pre.
Qed.

Lemma Seek_file contents f pre tail :
  FileStream.contents f = contents -> contents = pre ++ tail ->
  exists f', FileStream.Seek (zlen pre) f = Done f' /\ file_at contents f' [] tail.
Proof.
  intros Ec E. unfold FileStream.Seek. pose proof (zlen_nonneg pre).
  rewrite (proj2 (Z.ltb_ge (zlen pre) 0)) by lia. eexists. split; [done|].
  split; [exact Ec|]. by exists pre.
Qed.

(** At the end of the file there is no header. *)
Lemma ReadHeader_end contents f k throw :
  file_at contents f k [] -> exists f', FileReader.ReadHeader f throw = Done (None, f') /\
    FileStream.contents f' = contents.
Proof.
  intros (Ec & pre & E & Ho). rewrite app_nil_r in E. subst pre.
  assert (Er : rs_read f 1 = Done ([], {| FileStream.contents := FileStream.contents f;
    FileStream.offset := FileStream.offset f + 0; FileStream.gcount := 0 |})).
  { cbn. unfold FileStream.read. by rewrite Ec, Ho, zdrop_ge by lia. }
  assert (Es : ReadScalar 1 f = Done (None, {| FileStream.contents := FileStream.contents f;
    FileStream.offset := FileStream.offset f + 0; FileStream.gcount := 0 |})).
  { unfold ReadScalar, RawRead. change (Z.of_nat 1) with 1. by rewrite Er, !bind_done. }
  unfold FileReader.ReadHeader, ReadVaruint. cbn [ReadVaruint_loop]. rewrite Es, !bind_done.
  by eexists.
Qed.

(** A block's header, and the stream over its body. *)
Lemma open_block {S} `{ReadStream S} R (HR : exact R) s k type body rest throw :
  1 <= type <= kSeekMarker -> zlen body < 2 ^ 63 ->
  R s k (block_bytes type body ++ rest) -> exists s',
    FileReader.ReadHeader s throw =
      Done (Some {| FileReader.type := type; FileReader.size := zlen body |}, s') /\
    block_at R rest (BlockStream.make s' (s64 (zlen body))) (k ++ vbytes type ++ vbytes (zlen body)) body.
Proof.
  intros Ht Hb Hr. pose proof (zlen_nonneg body). unfold block_bytes in Hr.
  rewrite !app_assoc, <- (app_assoc _ body) in Hr.
  destruct (gets_ReadHeader R HR type (zlen body) throw Ht ltac:(unfold in_u; lia) s k _ Hr)
    as (s' & E & R').
  exists s'. split; [exact E|]. split; [exact R'|]. cbn. apply swrap_id; [lia|]. unfold in_s. lia.
Qed.
