(* ===== verification/LogReader.v ===== *)
(** * FileReader over a log of blocks

    The file is [log_bytes bl].  [env] says which name and schema each
    identifier has; [seen] is what the reader has learnt of it so far. *)
From stdpp Require Import gmap sorting.
From S2P Require Import Prelude Varuint Streams TimeConversions TelemetryFormat Archive Schema FileWriter FileReader LogFormat FileWriterTheory FileWriterOps LogWriter FileReaderTheory.
#[local] Open Scope Z_scope.
Import TelemetryReader.

Section log.
Import FileReader.
Context `{CrcLaws} `{LogClock} `{SnappyLaws}.
Abbreviation crc_block := (BlockStream.t (CrcStream.reader FileStream.t)).
Implicit Types (s : State) (l bl : list block).

(** ** A block has a type and a body *)
Definition block_type (b : block) : Z :=
  match b with
  | BSchema _ _ _ => kSchema | BData _ _ _ _ _ _ => kData
  | BSeek _ _ => kSeekMarker | BIndex _ => kIndex
  end.

(** The body of a data block with [crc] for its checksum. *)
Definition data_of (id : Z) (previous time : option Z) (check comp : bool) (payload : list byte)
    (crc : Z) : list byte :=
  data_body (data_front id previous time check comp) check crc (stored_payload comp payload).

Definition data_crc id previous time check comp payload : Z :=
  if check : bool then crc32 (block_bytes kData (data_of id previous time check comp payload 0)) else 0.

Definition seek_body0 (time : Z) (es : list (Z * Z)) (crc : Z) : list byte :=
  seek_body time es crc (1 + vu_len (zlen (seek_body time es 0 0))).

Definition block_body (b : block) : list byte :=
  match b with
  | BSchema id name schema => schema_body id name schema
  | BData id previous time check comp payload =>
      data_of id previous time check comp payload (data_crc id previous time check comp payload)
  | BSeek time es => seek_body0 time es (crc32 (block_bytes kSeekMarker (seek_body0 time es 0)))
  | BIndex es => index_body es
  end.

Lemma encode_body b : encode b = block_bytes (block_type b) (block_body b).
Proof.
  destruct b as [| id previous time check comp payload | |]; cbn [block_type block_body]; try done.
  rewrite encode_data. done.
Qed.

Lemma block_type_range b : 1 <= block_type b <= kSeekMarker.
Proof. destruct b; done. Qed.

Lemma zlen_body_le b : zlen (block_body b) + 2 <= zlen (encode b).
Proof.
  rewrite encode_body. unfold block_bytes. rewrite !zlen_app. pose proof (zlen_nonneg (block_body b)).
  assert (1 <= zlen (vbytes (block_type b))) by (destruct b; done).
  assert (1 <= zlen (vbytes (zlen (block_body b)))); [|lia].
  unfold vbytes. destruct (vu_bytes 10 (zlen (block_body b))) as [|x t] eqn:E; [|rewrite zlen_cons; pose proof (zlen_nonneg t); lia].
  cbn in E. by destruct (zlen (block_body b) <? 128).
Qed.

(** Every block of a small log is small. *)
Lemma small_block l b k : small (l ++ b :: k) -> zlen (encode b) < 2 ^ 42.
Proof.
  unfold small. rewrite log_bytes_app, zlen_app. cbn [map concat]. rewrite zlen_app.
  pose proof (zlen_log_nonneg l). pose proof (zlen_nonneg (concat (map encode k))). lia.
Qed.

Lemma log_split l b k :
  log_bytes (l ++ b :: k) = log_bytes l ++ encode b ++ concat (map encode k).
Proof. by rewrite log_bytes_app. Qed.

Lemma small_file bl : small bl -> file_small (log_bytes bl).
Proof. unfold small, file_small. lia. Qed.

Lemma small_max n : n < 2 ^ 42 -> n <= max_size.
Proof. unfold max_size. lia. Qed.

(** ** What can be read back *)
Definition env_t : Type := gmap Z (list byte * list byte).
Context (env : env_t).

Definition readable (b : block) : Prop :=
  match b with
  | BSchema id name schema =>
      env !! id = Some (name, schema) /\ in_u 64 id /\ zlen name <= kMaxStringSize /\
      exists e, BinarySchemaParser.parse schema name = Done e
  | BData id previous time check comp payload =>
      in_u 64 id /\ (forall v, previous = Some v -> in_u 64 v) /\
      (forall t, time = Some t -> in_s 64 t) /\ zlen payload <= max_size
  | BSeek _ _ | BIndex _ => True
  end.

Definition record_of (id : Z) (name schema : list byte) (e : BinarySchemaParser.Element) : Record_ :=
  {| identifier := id; FileReader.name := name; raw_schema := schema; FileReader.schema := e;
     record_flags := 0 |}.

(** [i] is the record of [id]. *)
Definition is_record s (id : Z) (i : nat) : Prop :=
  exists name schema e, env !! id = Some (name, schema) /\
    BinarySchemaParser.parse schema name = Done e /\
    records s !! i = Some (record_of id name schema e).

Definition of_name s (name : list byte) : Prop :=
  match name_to_record s !! name with
  | Some i => exists id schema, env !! id = Some (name, schema) /\ id_to_record s !! id = Some i
  | None => forall id schema, env !! id = Some (name, schema) -> id_to_record s !! id = None
  end.

Definition seen s : Prop :=
  map_Forall (fun id i => is_record s id i) (id_to_record s) /\ forall name, of_name s name.

(** What is seen stays. *)
Definition extends s s' : Prop :=
  verify_checksums s' = verify_checksums s /\ start_ s' = start_ s /\
  has_index s' = has_index s /\ all_records_found s' = all_records_found s /\
  (exists k, records s' = records s ++ k) /\ id_to_record s ⊆ id_to_record s'.

#[export] Instance extends_trans : Transitive extends.
Proof.
  intros s1 s2 s3 (V1&S1&I1&A1&(k1&K1)&M1) (V2&S2&I2&A2&(k2&K2)&M2). unfold extends.
  split; [congruence|]. split; [congruence|]. split; [congruence|]. split; [congruence|].
  split; [exists (k1 ++ k2); by rewrite K2, K1, app_assoc|]. by etrans.
Qed.
#[export] Instance extends_refl : Reflexive extends.
Proof. intros s. repeat (split; [done|]). split; [exists []; by rewrite app_nil_r|done]. Qed.

Lemma is_record_extends s s' id i : extends s s' -> is_record s id i -> is_record s' id i.
Proof.
  intros (_&_&_&_&(k&K)&_) (n & sch & e & E & P & R). exists n, sch, e. split; [exact E|].
  split; [exact P|]. rewrite K. by apply lookup_app_l_Some.
Qed.

(** ** Reading an item *)
Definition item_of s (it : Item) (at_ : Z) (b : block) : Prop :=
  match b with
  | BData id previous time check comp payload =>
      index it = at_ /\ data it = payload /\
      timestamp it = match time with
                     | Some t => ConvertEpochMicrosecondsToPtime t | None => not_a_date_time end /\
      flags it = data_flags previous time check comp /\ is_record s id (record it)
  | _ => False
  end.

Lemma item_of_extends s s' it at_ b : extends s s' -> item_of s it at_ b -> item_of s' it at_ b.
Proof.
  intros Hx. destruct b; try done. intros (?&?&?&?&Hr). repeat (split; [done|]).
  by eapply is_record_extends.
Qed.

(** The checksum in the block is read around the stream that checksums. *)
Lemma read_crc_spec c behind (stream : crc_block) k crc tail :
  in_u 32 crc -> block_at (crc_at (file_at c)) behind stream k (le_split 4 crc ++ tail) ->
  exists stream', read_crc stream = Done (crc, stream') /\
    block_at (crc_at (file_at c)) behind stream' (k ++ le_split 4 0) tail.
Proof.
  intros Hc [[Hr Ek] Hm]. unfold read_crc, under. rewrite <- app_assoc in Hr.
  destruct (gets_value_of _ _ _ _ (gets_uint _ (exact_file c) 4 crc Hc) _ _ _ Hr) as (f' & -> & Hf).
  rewrite bind_done. eexists. split; [done|]. rewrite zlen_app, zlen_le_split in Hm.
  split; [|cbn; lia]. split; [exact Hf|]. cbn. by rewrite Ek, process_app.
Qed.

(** The parts of an item between the flags and the payload. *)
Lemma skip_previous (R : crc_block -> list byte -> list byte -> Prop) (HR : exact R) (previous : option Z) (b : bool) :
  (forall v, previous = Some v -> in_u 64 v) -> b = is_some previous ->
  gets R (fun stream : crc_block => if b then '(_, stream) ← ReadVaruint stream; Done (tt, stream)
    else Done (tt, stream)) (opt_bytes vbytes previous) tt.
Proof.
  intros Hp ->. destruct previous as [v|]; cbn [is_some opt_bytes]; [|apply gets_ret].
  exact (gets_done _ _ (fun _ => tt) _ _ (gets_varuint R HR v (Hp v eq_refl))).
Qed.

Lemma get_timestamp (R : crc_block -> list byte -> list byte -> Prop) (HR : exact R) (time : option Z) (b : bool) :
  (forall t, time = Some t -> in_s 64 t) -> b = is_some time ->
  gets R (fun stream : crc_block => if b then BinarySchemaParser.value_of (ReadTimestamp stream)
    else Done (not_a_date_time, stream)) (opt_bytes time_bytes time)
    (match time with Some t => ConvertEpochMicrosecondsToPtime t | None => not_a_date_time end).
Proof.
  intros Ht ->. destruct time as [t|]; cbn [is_some opt_bytes]; [|apply gets_ret].
  exact (gets_value_of _ _ _ _ (gets_timestamp R HR t (Ht t eq_refl))).
Qed.

Lemma data_flags_tests previous time check comp :
  let '(p, f1) := check_flags (data_flags previous time check comp) kPreviousOffset in
  let '(t, f2) := check_flags f1 kTimestampFlag in
  let '(c, f3) := check_flags f2 kChecksum in
  let '(z, f4) := check_flags f3 kSnappy in
  p = is_some previous /\ t = is_some time /\ c = check /\ z = comp /\ f4 = 0.
Proof. by destruct previous, time, check, comp. Qed.

Lemma decompress_compress payload :
  zlen payload <= max_size -> decompress (RawCompress payload) = Done payload.
Proof.
  intros Hp. unfold decompress, string_resize. pose proof (zlen_nonneg payload).
  rewrite compressed_length. rewrite (proj2 (Z.ltb_ge _ 0)), (proj2 (Z.ltb_ge max_size _)) by lia.
  cbn [orb]. by rewrite bind_done, uncompress_compress.
Qed.

Lemma crc32_range d : in_u 32 (crc32 d).
Proof. apply uwrap_range. lia. Qed.

(** What [Read] finds where a data block is; the checksum is right. *)
Lemma Read_spec c pre post s id previous time check comp payload (i : nat) :
  let b := BData id previous time check comp payload in
  c = pre ++ encode b ++ post -> file_small c -> zlen (encode b) < 2 ^ 42 ->
  FileStream.contents (file s) = c -> readable b ->
  id_to_record s !! id = Some i -> is_record s id i ->
  exists it f, Read (zlen pre) s = Done (it, with_file f s) /\ item_of s it (zlen pre) b /\
    FileStream.contents f = c.
Proof.
  intros b Ec Hsm Hb Hc (Hid & Hp & Ht & Hpl) Hi Hrec.
  pose proof (encode_body b) as Eb. rewrite Eb in Ec.
  pose proof (zlen_body_le b) as Hzb.
  assert (Hb63 : zlen (block_body b) < 2 ^ 63) by lia.
  destruct (Seek_file c (file s) pre _ Hc Ec) as (f0 & E0 & R0). unfold Read. rewrite E0, bind_done.
  set (crc := data_crc id previous time check comp payload).
  assert (R0' : crc_at (file_at c) (CrcStream.make_reader f0) [] (block_bytes kData (block_body b) ++ post)).
  { split; [exact R0|]. cbn. by rewrite process_nil. }
  destruct (open_block (crc_at (file_at c)) (exact_crc _ (exact_file c)) _ _ _ _ _ true
    (block_type_range b) Hb63 R0') as (s1 & E1 & R1). rewrite E1, bind_done.
  cbn [type size]. change (block_type b) with kData. change (kData =? kData) with true. cbn [mj_assert]. rewrite bind_done.
  set (stream := BlockStream.make _ _) in *. rewrite app_nil_l in R1.
  pose proof (exact_block _ post (exact_crc _ (exact_file c))) as HX.
  set (hd := vbytes kData ++ vbytes (zlen (block_body b))) in *.
  change (block_type b) with kData in R1. fold hd in R1.
  change (block_body b) with (data_of id previous time check comp payload crc) in R1.
  unfold data_of, data_body, data_front in R1.
  rewrite <- !app_assoc in R1.
  assert (Hfl : in_u 64 (data_flags previous time check comp)).
  { pose proof (data_flags_small previous time check comp). unfold in_u. lia. }
  destruct (gets_value_of _ _ _ _ (gets_varuint _ HX id Hid) _ _ _ R1) as (s2 & -> & R2).
  rewrite bind_done.
  destruct (gets_value_of _ _ _ _ (gets_varuint _ HX _ Hfl) _ _ _ R2) as (s3 & -> & R3).
  rewrite bind_done. pose proof (data_flags_tests previous time check comp) as Hft.
  destruct (check_flags (data_flags previous time check comp) kPreviousOffset) as [hp f1].
  destruct (check_flags f1 kTimestampFlag) as [ht f2].
  destruct (check_flags f2 kChecksum) as [hc f3].
  destruct (check_flags f3 kSnappy) as [hz f4].
  destruct Hft as (Hhp & Hht & -> & -> & ->).
  destruct (skip_previous _ HX previous hp Hp Hhp s3 _ _ R3) as (s4 & E4 & R4).
  assert (E4' : (if hp then '(_, stream) ← ReadVaruint s3; Done stream else Done s3) = Done s4).
  { destruct hp; [|by injection E4 as ->]. apply bind_done_inv in E4 as ([m s4'] & E4 & [= ->]).
    by rewrite E4. }
  rewrite E4', bind_done.
  destruct (get_timestamp _ HX time ht Ht Hht s4 _ _ R4) as (s5 & -> & R5). rewrite bind_done.
  set (front := vbytes id ++ vbytes (data_flags previous time check comp) ++
    opt_bytes vbytes previous ++ opt_bytes time_bytes time).
  assert (Hc6 : exists s6 : crc_block, (if check then '(c, stream) ← read_crc s5; Done (Some c, stream)
      else Done (None, s5)) = Done (if check then Some crc else None, s6) /\
    block_at (crc_at (file_at c)) post s6 (hd ++ front ++ (if check then le_split 4 0 else []))
      (stored_payload comp payload)).
  { rewrite <- !app_assoc in R5. unfold front. destruct check.
    - destruct (read_crc_spec c post s5 _ crc (stored_payload comp payload) (crc32_range _) R5)
        as (s6 & -> & R6). rewrite bind_done. exists s6. split; [done|]. by rewrite <- !app_assoc in *.
    - exists s5. split; [done|]. rewrite app_nil_r. exact R5. }
  destruct Hc6 as (s6 & -> & R6). rewrite bind_done. cbn beta iota. cbn [negb Z.eqb].
  assert (Hst : zlen (stored_payload comp payload) <= max_size).
  { apply small_max. unfold b in Hzb. cbn [block_body] in Hzb. unfold data_of in Hzb.
    rewrite zlen_data_body in Hzb. pose proof (zlen_nonneg (data_front id previous time check comp)).
    assert (0 <= crc_size check) by (by destruct check). unfold b in Hb. lia. }
  pose proof R6 as [_ Hm]. rewrite Hm.
  rewrite <- (app_nil_r (stored_payload comp payload)) in R6.
  destruct (gets_read_string _ HX _ Hst s6 _ _ R6) as (s7 & -> & R7). rewrite bind_done.
  assert (Ed : (if comp then decompress (stored_payload comp payload)
    else Done (stored_payload comp payload)) = Done payload).
  { destruct comp; [by apply decompress_compress|done]. }
  rewrite Ed, bind_done.
  destruct (close_done _ _ _ _ R7) as [Ecl [Rf Ecrc]].
  assert (Eok : check = true -> (crc =? u32 (checksum (CrcStream.rcrc (BlockStream.base s7)))) = true).
  { intros ->. rewrite Ecrc. apply Z.eqb_eq. unfold crc, data_crc, crc32, crc_of. do 3 f_equal.
    unfold block_bytes, hd, front. rewrite <- !app_assoc. f_equal. f_equal.
    - unfold b. cbn [block_body]. unfold data_of. by rewrite !zlen_data_body.
    - unfold data_of, data_body, data_front. by rewrite <- !app_assoc. }
  assert (Eck : match (if check then Some crc else None) with
    | Some c0 => if verify_checksums s && negb (c0 =? u32 (checksum (CrcStream.rcrc (BlockStream.base s7))))
        then Faulted (Exception kDataChecksumMismatch) else Done tt
    | None => Done tt end = Done tt).
  { destruct check; [|done]. rewrite Eok by done. by rewrite andb_false_r. }
  rewrite Eck, bind_done, Hi, Ecl, bind_done. eexists _, _. split; [reflexivity|].
  split; [|exact (proj1 Rf)]. split; [done|]. split; [done|]. split; [done|]. by split.
Qed.
End log.
