(* ===== verification/LogScan.v ===== *)
(** * FileReader: the scan of a log

    What [ReadUntil] finds, what the records are after it, and with it the
    items of a log and its full scan. *)
From stdpp Require Import gmap sorting.
From S2P Require Import Prelude Varuint Streams TimeConversions TelemetryFormat Archive Schema FileWriter FileReader LogFormat FileWriterTheory FileWriterOps LogWriter FileReaderTheory LogReader.
#[local] Open Scope Z_scope.
Import TelemetryReader.

Section scan.
Import FileReader.
Context `{CrcLaws} `{LogClock} `{SnappyLaws}.
Implicit Types (s : State) (l bl : list block).
Context (env : env_t).

(** No two identifiers have the same name. *)
Definition one_name : Prop := forall id id' name a b,
  env !! id = Some (name, a) -> env !! id' = Some (name, b) -> id = id'.
Context (Hone : one_name).

(** ** Filters

    [None] lets nothing pass, [Some []] everything, and [Some names] the
    records of those names. *)
Definition wants (w : option (list (list byte))) (name : list byte) : bool :=
  match w with
  | None => false
  | Some [] => true
  | Some names => bool_decide (name ∈ names)
  end.

Definition filter_ok (w : option (list (list byte))) (f : Filter) s : Prop :=
  match w, f with
  | None, NoFilter => True
  | Some names, ItemRangeContext all unknown ids =>
      all = match names with [] => true | _ => false end /\
      forall id name schema, env !! id = Some (name, schema) ->
        match id_to_record s !! id with
        | Some _ => id ∈ ids <-> name ∈ names
        | None => (name ∈ unknown <-> name ∈ names) /\ id ∉ ids
        end
  | _, _ => False
  end.

(** What the filter says of a record that has been seen. *)
Lemma filter_check w f s id name schema :
  filter_ok w f s -> env !! id = Some (name, schema) -> is_Some (id_to_record s !! id) ->
  check f id = wants w name.
Proof.
  intros Hf He [i Hi]. destruct w as [names|], f as [|all unknown ids]; try done.
  destruct Hf as [-> Hf]. specialize (Hf id name schema He). rewrite Hi in Hf.
  destruct names as [|n names]; [done|]. cbn [check wants]. by apply bool_decide_ext.
Qed.

(** ** A schema block *)

(** The record of [id] is made, with the name free for it. *)
Definition learn s (id : Z) (r : Record_) : State :=
  with_records (records s ++ [r]) (<[id := length (records s)]> (id_to_record s))
    (<[FileReader.name r := length (records s)]> (name_to_record s)) s.

Lemma learn_extends s id r : id_to_record s !! id = None -> extends s (learn s id r).
Proof.
  intros Hi. unfold extends, learn. cbn. repeat (split; [done|]).
  split; [by exists [r]|]. by apply insert_subseteq.
Qed.

Lemma learn_seen s id name schema e :
  seen env s -> env !! id = Some (name, schema) -> BinarySchemaParser.parse schema name = Done e ->
  id_to_record s !! id = None -> seen env (learn s id (record_of id name schema e)).
Proof.
  intros [Hr Hn] He Hp Hi. pose proof (learn_extends s id (record_of id name schema e) Hi) as Hx.
  split.
  - unfold learn. cbn [id_to_record with_records]. apply map_Forall_insert_2.
    + exists name, schema, e. split; [exact He|]. split; [exact Hp|]. cbn.
      by rewrite list_lookup_middle.
    + intros j i Hj. exact (is_record_extends env _ _ _ _ Hx (Hr j i Hj)).
  - intros n. unfold of_name, learn. cbn [name_to_record id_to_record with_records FileReader.name record_of].
    destruct (decide (n = name)) as [->|Hne].
    + rewrite lookup_insert_eq. exists id, schema. by rewrite lookup_insert_eq.
    + rewrite lookup_insert_ne by done. specialize (Hn n). unfold of_name in Hn.
      destruct (name_to_record s !! n) as [i|].
      * destruct Hn as (id' & sch & E & Ei). exists id', sch. split; [exact E|].
        rewrite lookup_insert_ne; [exact Ei|]. intros <-. congruence.
      * intros id' sch E. rewrite lookup_insert_ne; [by apply (Hn id' sch)|]. intros <-. congruence.
Qed.

Lemma learn_filter w f s id name schema e :
  filter_ok w f s -> env !! id = Some (name, schema) -> id_to_record s !! id = None ->
  filter_ok w (new_schema f id name) (learn s id (record_of id name schema e)).
Proof.
  intros Hf He Hi. destruct w as [names|], f as [|all unknown ids]; try done.
  destruct Hf as [-> Hf]. pose proof (Hf id name schema He) as Hid. rewrite Hi in Hid.
  assert (Hother : forall j n sch, env !! j = Some (n, sch) -> j <> id -> n <> name).
  { intros j n sch Hj Hne ->. apply Hne. by eapply Hone. }
  unfold new_schema. case_bool_decide as Hu; (split; [done|]); intros j n sch Hj;
    unfold learn; cbn [id_to_record with_records];
    (destruct (decide (j = id)) as [->|Hne];
     [rewrite lookup_insert_eq; rewrite He in Hj; injection Hj as <- <-; set_solver
     |rewrite lookup_insert_ne by done; specialize (Hf j n sch Hj);
      specialize (Hother j n sch Hj Hne); destruct (id_to_record s !! j); set_solver]).
Qed.

(** The scan's state: what has been seen agrees with [env], the filter with
    what has been seen, and every schema of [l] has been seen. *)
Record scanned (w : option (list (list byte))) (f : Filter) s l : Prop := {
  scanned_seen : seen env s;
  scanned_filter : filter_ok w f s;
  scanned_all : forall id name schema, BSchema id name schema ∈ l -> is_Some (id_to_record s !! id);
}.

Lemma scanned_subset w f s l k : l ⊆ k -> scanned w f s k -> scanned w f s l.
Proof. intros Hs [Hn Hf Ha]. split; [done|done|]. intros i n sch Hi. by eapply Ha, Hs. Qed.

(** The filter after a schema block. *)
Definition filter_after s (id : Z) (name : list byte) (f : Filter) : Filter :=
  match id_to_record s !! id with Some _ => f | None => new_schema f id name end.

(** [ProcessSchema] on a schema block, seen before or not. *)
Lemma ProcessSchema_spec c behind w f (wf : option Filter) stream k id name schema s l :
  wf = None \/ wf = Some f ->
  block_at (file_at c) behind stream k (schema_body id name schema) ->
  readable env (BSchema id name schema) -> zlen schema <= max_size -> scanned w f s l ->
  exists i stream' k' tail s', ProcessSchema stream wf s =
      Done (i, stream', (fun _ => filter_after s id name f) <$> wf, s') /\
    block_at (file_at c) behind stream' k' tail /\ k' ++ tail = k ++ schema_body id name schema /\
    scanned w (filter_after s id name f) s' (l ++ [BSchema id name schema]) /\
    extends s s' /\ file s' = file s /\ final_item_ s' = final_item_ s /\
    id_to_record s' !! id = Some i.
Proof.
  intros Hwf Hb (He & Hid & Hn & e & Hp) Hsch [Hs Hf Ha]. unfold ProcessSchema, filter_after.
  unfold schema_body in *. pose proof (exact_block _ behind (exact_file c)) as HX.
  destruct (gets_value_of _ _ _ _ (gets_varuint _ HX id Hid) _ _ _ Hb) as (s1 & -> & R1).
  rewrite bind_done. destruct (id_to_record s !! id) as [i|] eqn:Ei.
  - exists i, s1. eexists _, _, s. split; [destruct Hwf as [-> | ->]; reflexivity|].
    split; [exact R1|]. split; [by rewrite <- app_assoc|]. split; [|split; [reflexivity|done]].
    split; [done..|]. intros j n sch [Hj|Hj%list_elem_of_singleton]%elem_of_app; [by eapply Ha|].
    injection Hj as -> -> ->. by exists i.
  - destruct (gets_value_of _ _ _ _ (gets_varuint _ HX 0 zero_u64) _ _ _ R1) as (s2 & -> & R2).
    rewrite bind_done. cbn [negb Z.eqb].
    destruct (gets_value_of _ _ _ _ (gets_string _ HX name Hn) _ _ _ R2) as (s3 & -> & R3).
    rewrite bind_done. pose proof R3 as [_ Hm]. rewrite Hm. rewrite <- (app_nil_r schema) in R3.
    destruct (gets_read_string _ HX schema Hsch _ _ _ R3) as (s4 & -> & R4). rewrite bind_done.
    rewrite Hp, bind_done. cbv zeta. eexists _, s4, _, _, (learn s id (record_of id name schema e)).
    split; [destruct Hwf as [-> | ->]; reflexivity|]. split; [exact R4|].
    split; [by rewrite app_nil_r, <- !app_assoc|]. pose proof (learn_extends s id (record_of id name schema e) Ei) as Hx.
    split; [|split; [exact Hx|split; [done|split; [done|cbn; by rewrite lookup_insert_eq]]]].
    split; [by apply learn_seen|by apply learn_filter|].
    intros j n sch [Hj|Hj%list_elem_of_singleton]%elem_of_app; unfold learn; cbn [id_to_record with_records].
    + rewrite lookup_insert_is_Some'. right. by eapply Ha.
    + injection Hj as -> -> ->. by rewrite lookup_insert_eq.
Qed.

(** ** The next item *)
Definition is_wanted w (b : block) : bool :=
  match b with
  | BData id _ _ _ _ _ => match env !! id with Some (name, _) => wants w name | None => false end
  | _ => false
  end.

(** What lies before it, it, and what lies behind. *)
Fixpoint next_item w l : option (list block * block * list block) :=
  match l with
  | [] => None
  | b :: l =>
      if is_wanted w b then Some ([], b, l)
      else match next_item w l with Some (k, d, r) => Some (b :: k, d, r) | None => None end
  end.

Definition log_ok bl : Prop := Forall (readable env) bl /\ declared [] bl /\ small bl.

Lemma log_block bl pre b l : log_ok bl -> bl = pre ++ b :: l -> readable env b /\ zlen (encode b) < 2 ^ 42.
Proof.
  intros (Hr & _ & Hsm) ->. split; [|by eapply small_block].
  apply list.Forall_app in Hr as [_ Hr]. by apply Forall_cons_1 in Hr as [Hr _].
Qed.

(** A data block of a log that is as it should be has been seen. *)
Lemma data_known w f s pre id previous time check comp payload l :
  log_ok (pre ++ BData id previous time check comp payload :: l) -> scanned w f s pre ->
  exists i name schema, id_to_record s !! id = Some i /\ is_record env s id i /\
    env !! id = Some (name, schema).
Proof.
  intros (_ & Hd & _) [[Hs _] _ Ha]. apply declared_app in Hd as [Hd _]. rewrite app_nil_r in Hd.
  apply elem_of_schema_ids in Hd as (n & sch & Hb). destruct (Ha _ _ _ Hb) as [i Hi].
  pose proof (Hs id i Hi) as Hr. destruct (Hr) as (n' & sch' & e & E & _). eauto 10.
Qed.

(** *** [ReadUntil] *)
Definition at_block s bl l : Prop := exists k, file_at (log_bytes bl) (file s) k (concat (map encode l)).

(** The file stands at a block: its header, and the stream over its body. *)
Lemma block_ahead s bl b l :
  small bl -> zlen (encode b) < 2 ^ 42 -> at_block s bl (b :: l) ->
  exists f k, ReadHeader (file s) true =
      Done (Some {| type := block_type b; size := zlen (block_body b) |}, f) /\
    block_at (file_at (log_bytes bl)) (concat (map encode l))
      (BlockStream.make f (s64 (zlen (block_body b)))) k (block_body b).
Proof.
  intros Hsm Hb (k & Hk). cbn [map concat] in Hk. rewrite encode_body in Hk.
  pose proof (zlen_body_le b). assert (Hb63 : zlen (block_body b) < 2 ^ 63) by lia.
  destruct (open_block _ (exact_file _) _ _ _ _ _ true (block_type_range b) Hb63 Hk) as (f & E & R).
  eexists f, _. split; [exact E|exact R].
Qed.

Lemma Tell_at s bl pre l : at_block s bl l -> bl = pre ++ l ->
  FileStream.Tell (file s) = zlen (log_bytes pre).
Proof.
  intros (k & _ & p & E & Ho) ->. unfold FileStream.Tell. rewrite Ho, log_bytes_app in *.
  by apply app_inv_tail in E as ->.
Qed.

Lemma extends_final s i : extends s (with_final i s).
Proof. repeat (split; [done|]). split; [exists []; by rewrite app_nil_r|done]. Qed.

Lemma extends_file s f : extends s (with_file f s).
Proof. repeat (split; [done|]). split; [exists []; by rewrite app_nil_r|done]. Qed.

Lemma scanned_final w f s l i : scanned w f s l -> scanned w f (with_final i s) l.
Proof. intros [Hs Hf Ha]. by split. Qed.

Lemma scanned_file w f s l g : scanned w f s l -> scanned w f (with_file g s) l.
Proof. intros [Hs Hf Ha]. by split. Qed.

(** A block that is not a schema adds nothing to learn. *)
Lemma scanned_snoc w f s l b :
  scanned w f s l -> (forall id name schema, b <> BSchema id name schema) -> scanned w f s (l ++ [b]).
Proof.
  intros [Hs Hf Ha] Hb. split; [done|done|].
  intros i n sch [Hi|Hi%list_elem_of_singleton]%elem_of_app; [by eapply Ha|]. by destruct (Hb i n sch).
Qed.

(** The last data block of those passed over. *)
Definition later (s : State) (at_ : Z) : State := if final_item_ s <? at_ then with_final at_ s else s.
Fixpoint final_of (i at_ : Z) l : Z :=
  match l with
  | [] => i
  | b :: l => final_of (match b with BData _ _ _ _ _ _ => Z.max i at_ | _ => i end)
                (at_ + zlen (encode b)) l
  end.

Lemma final_later s at_ : final_item_ (later s at_) = Z.max (final_item_ s) at_.
Proof. unfold later. destruct (Z.ltb_spec (final_item_ s) at_); cbn; lia. Qed.

Lemma scanned_later w f s l i : scanned w f s l -> scanned w f (later s i) l.
Proof. unfold later. case_match; [apply scanned_final|done]. Qed.

Lemma extends_later s i : extends s (later s i).
Proof. unfold later. case_match; [apply extends_final|reflexivity]. Qed.

(** One block is passed over by the loop. *)
Definition passes w bl pre b l : Prop := forall fuel f s,
  at_block s bl (b :: l) -> scanned w f s pre ->
  exists f' s', ReadUntil_loop (S fuel) f s = ReadUntil_loop fuel f' s' /\
    at_block s' bl l /\ scanned w f' s' (pre ++ [b]) /\ extends s s' /\
    final_item_ s' = final_of (final_item_ s) (zlen (log_bytes pre)) [b].

(** The identifier of a data block, and the rest of it skipped. *)
Lemma data_id c behind stream k id previous time check comp payload :
  file_small c -> in_u 64 id ->
  block_at (file_at c) behind stream k (block_body (BData id previous time check comp payload)) ->
  exists stream' f k', BinarySchemaParser.value_of (ReadVaruint stream) = Done (id, stream') /\
    BlockStream.close stream' = Done f /\ file_at c f k' behind /\
    FileStream.Tell (BlockStream.base stream') + BlockStream.remaining stream' = FileStream.Tell f.
Proof.
  intros Hc Hid Hb. cbn [block_body] in Hb. unfold data_of, data_body, data_front in Hb.
  rewrite <- !app_assoc in Hb.
  destruct (gets_value_of _ _ _ _ (gets_varuint _ (exact_block _ behind (exact_file c)) id Hid) _ _ _ Hb)
    as (s1 & E1 & R1).
  destruct (close_file c behind s1 _ _ Hc R1) as (f & E2 & R2 & ET). eauto 10.
Qed.

Lemma block_passes w bl pre b l :
  log_ok bl -> bl = pre ++ b :: l -> is_wanted w b = false -> passes w bl pre b l.
Proof.
  intros Hbl E Hw fuel f s Hat Hsc. pose proof Hbl as (Hr & _ & Hsm). pose proof (small_file bl Hsm) as Hfs.
  destruct (log_block bl pre b l Hbl E) as [Hb Hzb].
  destruct (block_ahead s bl b l Hsm Hzb Hat) as (g & k & Eh & Hblk).
  cbn [ReadUntil_loop final_of]. rewrite (Tell_at s bl pre _ Hat E), Eh, bind_done. cbn [type size].
  destruct b as [id name schema|id previous time check_ comp payload|time es|es]; cbn [block_type].
  - change (kSchema =? kData) with false. change (kSchema =? kSchema) with true. cbv iota.
    cbn [block_body] in Hblk. set (st := BlockStream.make _ _) in *.
    pose proof (zlen_body_le (BSchema id name schema)) as Hz. cbn [block_body] in Hz.
    assert (Hsch : zlen schema <= max_size).
    { apply small_max. unfold schema_body in Hz. rewrite !zlen_app in Hz.
      pose proof (zlen_nonneg (vbytes id)). pose proof (zlen_nonneg (vbytes 0)).
      pose proof (zlen_nonneg (vbytes (zlen name))). pose proof (zlen_nonneg name). lia. }
    destruct (ProcessSchema_spec _ _ w f (Some f) st k id name schema s pre (or_intror eq_refl) Hblk Hb
      Hsch Hsc) as (i & st' & k' & tail & s' & -> & R' & _ & Hsc' & Hx & Ef & Efi & _).
    rewrite bind_done. cbn beta iota.
    destruct (close_file _ _ _ _ _ Hfs R') as (g' & -> & Rg & _). rewrite bind_done.
    eexists _, _. split; [reflexivity|]. split; [by eexists|].
    split; [by apply scanned_file|]. split; [etrans; [exact Hx|apply extends_file]|exact Efi].
  - change (kData =? kData) with true. cbv iota. fold (later s (zlen (log_bytes pre))).
    destruct Hb as (Hid & _). destruct (data_id _ _ _ _ _ _ _ _ _ _ Hfs Hid Hblk)
      as (st' & g' & k' & Est & Ecl & Rg & _). rewrite Est, bind_done, Ecl, bind_done.
    subst bl. destruct (data_known w f s pre id _ _ _ _ _ l Hbl Hsc) as (i & name & schema & Hi & _ & He).
    rewrite (filter_check w f s id name schema (scanned_filter _ _ _ _ Hsc) He) by by exists i.
    cbn [is_wanted] in Hw. rewrite He in Hw. rewrite Hw.
    eexists _, _. split; [reflexivity|]. split; [by eexists|].
    split; [apply scanned_file, scanned_snoc; [by apply scanned_later|done]|].
    split; [etrans; [apply extends_later|apply extends_file]|]. cbn. apply final_later.
  - change (kSeekMarker =? kData) with false. change (kSeekMarker =? kSchema) with false. cbv iota.
    destruct (close_file _ _ _ _ _ Hfs Hblk) as (g' & -> & Rg & _). rewrite bind_done.
    eexists _, _. split; [reflexivity|]. split; [by eexists|].
    split; [by apply scanned_file, scanned_snoc|]. split; [apply extends_file|done].
  - change (kIndex =? kData) with false. change (kIndex =? kSchema) with false. cbv iota.
    destruct (close_file _ _ _ _ _ Hfs Hblk) as (g' & -> & Rg & _). rewrite bind_done.
    eexists _, _. split; [reflexivity|]. split; [by eexists|].
    split; [by apply scanned_file, scanned_snoc|]. split; [apply extends_file|done].
Qed.

(** The loop stops at a block that is wanted, and goes on behind it. *)
Lemma block_stops w bl pre b l fuel f s :
  log_ok bl -> bl = pre ++ b :: l -> is_wanted w b = true ->
  at_block s bl (b :: l) -> scanned w f s pre ->
  exists s', ReadUntil_loop (S fuel) f s =
      Done (zlen (log_bytes pre), zlen (log_bytes (pre ++ [b])), f, s') /\
    scanned w f s' (pre ++ [b]) /\ extends s s' /\ at_block s' bl l.
Proof.
  intros Hbl E Hw Hat Hsc. pose proof Hbl as (Hr & _ & Hsm). pose proof (small_file bl Hsm) as Hfs.
  destruct b as [|id previous time check_ comp payload| |]; try done.
  set (b := BData id previous time check_ comp payload) in *.
  destruct (log_block bl pre b l Hbl E) as [Hb Hzb].
  destruct (block_ahead s bl b l Hsm Hzb Hat) as (g & k & Eh & Hblk).
  cbn [ReadUntil_loop]. rewrite (Tell_at s bl pre _ Hat E), Eh, bind_done. cbn [type size].
  change (block_type b) with kData. change (kData =? kData) with true. cbv iota.
  fold (later s (zlen (log_bytes pre))). destruct Hb as (Hid & _).
  destruct (data_id _ _ _ _ _ _ _ _ _ _ Hfs Hid Hblk) as (st' & g' & k' & Est & Ecl & Rg & ET).
  rewrite Est, bind_done, Ecl, bind_done. rewrite E in Hbl.
  destruct (data_known w f s pre id _ _ _ _ _ l Hbl Hsc) as (i & name & schema & Hi & _ & He).
  rewrite (filter_check w f s id name schema (scanned_filter _ _ _ _ Hsc) He) by by exists i.
  unfold b in Hw. cbn [is_wanted] in Hw. rewrite He in Hw. rewrite Hw, ET.
  assert (Hat' : at_block (with_file g' (later s (zlen (log_bytes pre)))) bl l) by by eexists.
  pose proof (Tell_at _ bl (pre ++ [b]) l Hat') as HT. cbn [file with_file] in HT.
  rewrite HT by (by rewrite E, <- app_assoc).
  eexists. split; [reflexivity|]. split; [apply scanned_file, scanned_snoc; [by apply scanned_later|done]|].
  split; [etrans; [apply extends_later|apply extends_file]|exact Hat'].
Qed.

Lemma final_of_app i at_ l k :
  final_of i at_ (l ++ k) = final_of (final_of i at_ l) (at_ + zlen (concat (map encode l))) k.
Proof.
  revert i at_. induction l as [|b l IH]; intros i at_; cbn [app final_of map concat].
  - by rewrite Z.add_0_r.
  - rewrite IH, zlen_app. f_equal. lia.
Qed.

(** The loop from the block after [pre] finds the next item, or the end. *)
Lemma ReadUntil_loop_spec w bl l : forall pre fuel f s,
  log_ok bl -> bl = pre ++ l -> at_block s bl l -> scanned w f s pre -> (length l < fuel)%nat ->
  exists f' s', extends s s' /\ FileStream.contents (file s') = log_bytes bl /\
  match next_item w l with
  | Some (k, b, r) => l = k ++ b :: r /\ is_wanted w b = true /\
      scanned w f' s' (pre ++ k ++ [b]) /\
      ReadUntil_loop fuel f s =
        Done (zlen (log_bytes (pre ++ k)), zlen (log_bytes (pre ++ k ++ [b])), f', s')
  | None => ReadUntil_loop fuel f s = Done (-1, -1, f', s') /\ scanned w f' s' bl /\
      final_item_ s' = final_of (final_item_ s) (zlen (log_bytes pre)) l
  end.
Proof.
  induction l as [|b l IH]; intros pre fuel f s Hbl E Hat Hsc Hfuel.
  - destruct fuel as [|fuel]; [cbn in Hfuel; lia|]. cbn [ReadUntil_loop next_item].
    destruct Hat as (k & Hk). cbn [map concat] in Hk.
    destruct (ReadHeader_end _ _ _ true Hk) as (g & -> & Hg). rewrite bind_done.
    exists f, (with_file g s). split; [apply extends_file|]. split; [exact Hg|]. split; [done|].
    rewrite app_nil_r in E. subst pre. split; [by apply scanned_file|done].
  - destruct fuel as [|fuel]; [cbn in Hfuel; lia|]. cbn [next_item]. destruct (is_wanted w b) eqn:Ew.
    + destruct (block_stops w bl pre b l fuel f s Hbl E Ew Hat Hsc) as (s' & Es & Hsc' & Hx & (k & Hk & _)).
      exists f, s'. split; [exact Hx|]. split; [exact Hk|]. rewrite app_nil_r. by split_and!.
    + destruct (block_passes w bl pre b l Hbl E Ew fuel f s Hat Hsc) as (f1 & s1 & -> & Hat1 & Hsc1 & Hx1 & Ef1).
      destruct (IH (pre ++ [b]) fuel f1 s1 Hbl) as (f2 & s2 & Hx2 & Hc2 & Hm);
        [by rewrite <- app_assoc|exact Hat1|exact Hsc1|cbn in Hfuel; lia|].
      exists f2, s2. split; [by etrans|]. split; [exact Hc2|].
      destruct (next_item w l) as [[[k d] r]|].
      * destruct Hm as (-> & Hd & Hsc2 & E2). rewrite <- !app_assoc in *. by split_and!.
      * destruct Hm as (E2 & Hsc2 & Ef2). split; [exact E2|]. split; [exact Hsc2|].
        rewrite Ef2, Ef1. rewrite (final_of_app _ _ [b] l). cbn [map concat]. do 2 f_equal.
        rewrite zlen_log_snoc, app_nil_r. done.
Qed.

Lemma length_log bl : (length bl <= length (log_bytes bl))%nat.
Proof.
  unfold log_bytes. rewrite length_app. induction bl as [|b bl IH]; cbn [map concat]; [cbn; lia|].
  rewrite length_app. pose proof (encode_pos b) as Hp. unfold zlen in Hp. cbn [length]. lia.
Qed.

(** From any block of a log, once what is before it has been seen. *)
Lemma ReadUntil_spec w bl pre l f s :
  log_ok bl -> bl = pre ++ l -> FileStream.contents (file s) = log_bytes bl -> scanned w f s pre ->
  exists f' s', extends s s' /\ FileStream.contents (file s') = log_bytes bl /\
  match next_item w l with
  | Some (k, b, r) => l = k ++ b :: r /\ is_wanted w b = true /\
      scanned w f' s' (pre ++ k ++ [b]) /\
      ReadUntil (zlen (log_bytes pre)) f s =
        Done (zlen (log_bytes (pre ++ k)), zlen (log_bytes (pre ++ k ++ [b])), f', s')
  | None => ReadUntil (zlen (log_bytes pre)) f s = Done (-1, -1, f', s') /\ scanned w f' s' bl /\
      final_item_ s' = final_of (final_item_ s) (zlen (log_bytes pre)) l
  end.
Proof.
  intros Hbl E Hc Hsc. unfold ReadUntil.
  destruct (Seek_file (log_bytes bl) (file s) (log_bytes pre) (concat (map encode l)) Hc) as (g & -> & Hg);
    [by rewrite E, log_bytes_app|].
  rewrite bind_done. pose proof (length_log bl).
  assert (Hfuel : (length l < S (length (FileStream.contents g)))%nat).
  { rewrite (proj1 Hg). rewrite E, length_app in *. lia. }
  assert (Hat : at_block (with_file g s) bl l) by by exists [].
  destruct (ReadUntil_loop_spec w bl l pre _ f (with_file g s) Hbl E Hat
    (scanned_file _ _ _ _ g Hsc) Hfuel) as (f' & s' & Hx & Hm).
  exists f', s'. split; [etrans; [apply extends_file|exact Hx]|exact Hm].
Qed.

(** ** All the items *)

(** The items of the records that are wanted, with their places. *)
Fixpoint wanted_from w pre l : list (Z * block) :=
  match l with
  | [] => []
  | b :: l =>
      (if is_wanted w b then [(zlen (log_bytes pre), b)] else []) ++ wanted_from w (pre ++ [b]) l
  end.

Lemma wanted_next w l : forall pre, wanted_from w pre l =
  match next_item w l with
  | Some (k, b, r) => (zlen (log_bytes (pre ++ k)), b) :: wanted_from w (pre ++ k ++ [b]) r
  | None => []
  end.
Proof.
  induction l as [|b l IH]; intros pre; [done|]. cbn [wanted_from next_item].
  destruct (is_wanted w b); [by rewrite app_nil_r|]. rewrite IH. cbn [app].
  destruct (next_item w l) as [[[k d] r]|]; [|done]. by rewrite <- !app_assoc.
Qed.

Definition items_are s (its : list Item) (ds : list (Z * block)) : Prop :=
  Forall2 (fun it p => item_of env s it p.1 p.2) its ds.

Lemma items_are_extends s s' its ds : extends s s' -> items_are s its ds -> items_are s' its ds.
Proof.
  intros Hx Hi. eapply list.Forall2_impl; [exact Hi|]. intros it p Hp. by eapply item_of_extends.
Qed.

(** The item at the iterator. *)
Lemma read_here w bl pre k b r f s :
  log_ok bl -> bl = pre ++ k ++ b :: r -> is_wanted w b = true ->
  FileStream.contents (file s) = log_bytes bl -> scanned w f s (pre ++ k ++ [b]) ->
  exists it g, Read (zlen (log_bytes (pre ++ k))) s = Done (it, with_file g s) /\
    item_of env s it (zlen (log_bytes (pre ++ k))) b /\ FileStream.contents g = log_bytes bl.
Proof.
  intros Hbl E Hw Hc Hsc. pose proof Hbl as (Hr & _ & Hsm).
  destruct b as [|id previous time check_ comp payload| |]; try done.
  set (b := BData id previous time check_ comp payload) in *.
  rewrite app_assoc in E.
  assert (Hsc' : scanned w f s (pre ++ k)).
  { eapply scanned_subset; [|exact Hsc]. rewrite app_assoc. set_solver. }
  rewrite E in Hbl. destruct (data_known w f s (pre ++ k) id _ _ _ _ _ r Hbl Hsc')
    as (i & name & schema & Hi & Hrec & _).
  apply (Read_spec env (log_bytes bl) (log_bytes (pre ++ k)) (concat (map encode r)) s
    id previous time check_ comp payload i).
  - by rewrite E, log_split.
  - by apply small_file.
  - exact (proj2 (log_block _ _ _ _ Hbl eq_refl)).
  - exact Hc.
  - exact (proj1 (log_block _ _ _ _ Hbl eq_refl)).
  - exact Hi.
  - exact Hrec.
Qed.

Lemma log_not_end pre : (zlen (log_bytes pre) =? -1) = false.
Proof. apply Z.eqb_neq. pose proof (zlen_log_nonneg pre). lia. Qed.

(** The loop over the items from the one after [pre ++ k]. *)
Lemma for_items_spec w bl r : forall fuel pre k b f s acc,
  log_ok bl -> bl = pre ++ k ++ b :: r -> is_wanted w b = true ->
  FileStream.contents (file s) = log_bytes bl -> scanned w f s (pre ++ k ++ [b]) ->
  (length r + 1 < fuel)%nat ->
  exists its s', for_items fuel (fun item its => (its ++ [item], true)) (zlen (log_bytes (pre ++ k))) f s acc =
      Done (acc ++ its, s') /\ extends s s' /\ FileStream.contents (file s') = log_bytes bl /\
    items_are s' its ((zlen (log_bytes (pre ++ k)), b) :: wanted_from w (pre ++ k ++ [b]) r).
Proof.
  induction r as [r IH] using (induction_ltof1 _ (@length block)). unfold ltof in IH.
  intros fuel pre k b f s acc Hbl E Hw Hc Hsc Hfuel.
  destruct fuel as [|fuel]; [lia|]. cbn [for_items]. rewrite log_not_end.
  destruct (read_here w bl pre k b r f s Hbl E Hw Hc Hsc) as (it & g & -> & Hit & Hg). rewrite bind_done.
  unfold advance. set (s0 := with_file g s).
  assert (E' : bl = (pre ++ k) ++ b :: r) by by rewrite <- app_assoc.
  assert (Hsc0 : scanned w f s0 (pre ++ k)).
  { apply scanned_file. eapply scanned_subset; [|exact Hsc]. rewrite app_assoc. set_solver. }
  destruct (ReadUntil_spec w bl (pre ++ k) (b :: r) f s0 Hbl E' Hg Hsc0) as (f1 & s1 & Hx1 & Hc1 & Hm1).
  cbn [next_item] in Hm1. rewrite Hw in Hm1. destruct Hm1 as (_ & _ & Hsc1 & E1).
  rewrite E1, bind_done. cbn [app] in Hsc1 |- *. rewrite <- app_assoc in Hsc1.
  rewrite <- app_assoc.
  destruct (ReadUntil_spec w bl (pre ++ k ++ [b]) r f1 s1 Hbl) as (f2 & s2 & Hx2 & Hc2 & Hm2);
    [by rewrite E, <- !app_assoc|exact Hc1|exact Hsc1|].
  assert (Hx : extends s s2) by (etrans; [apply (extends_file s g)|]; by etrans).
  rewrite (wanted_next w r). destruct (next_item w r) as [[[k' b'] r']|].
  - destruct Hm2 as (Er & Hw' & Hsc2 & E2). rewrite E2, !bind_done.
    destruct (IH r' ltac:(rewrite Er, length_app; cbn; lia) fuel (pre ++ k ++ [b]) k' b' f2 s2 (acc ++ [it])
      Hbl) as (its & s3 & E3 & Hx3 & Hc3 & Hi3);
      [by rewrite E, Er, <- !app_assoc|exact Hw'|exact Hc2|exact Hsc2| |].
    { rewrite Er, length_app in Hfuel. cbn in Hfuel. lia. }
    rewrite E3. exists (it :: its), s3. split; [by rewrite <- app_assoc|]. split; [by etrans|].
    split; [exact Hc3|]. constructor; [|exact Hi3].
    eapply item_of_extends; [|exact Hit]. by etrans.
  - destruct Hm2 as (E2 & Hsc2 & _). rewrite E2, !bind_done.
    destruct fuel as [|fuel]; [lia|]. cbn [for_items]. exists [it], s2. split; [done|].
    split; [exact Hx|]. split; [exact Hc2|]. constructor; [|constructor].
    eapply item_of_extends; [exact Hx|exact Hit].
Qed.

(** The names the reader has been given make the filter they should. *)
Lemma filter_names_spec s names : seen env s -> forall unknown ids done_,
  (forall id name schema, env !! id = Some (name, schema) ->
    match id_to_record s !! id with
    | Some _ => id ∈ ids <-> name ∈ done_
    | None => (name ∈ unknown <-> name ∈ done_) /\ id ∉ ids
    end) ->
  let '(unknown', ids') := filter_names names unknown ids s in
  forall id name schema, env !! id = Some (name, schema) ->
    match id_to_record s !! id with
    | Some _ => id ∈ ids' <-> name ∈ done_ ++ names
    | None => (name ∈ unknown' <-> name ∈ done_ ++ names) /\ id ∉ ids'
    end.
Proof.
  intros [Hr Hn]. induction names as [|n names IH]; intros unknown ids done_ Hd; cbn [filter_names].
  { by rewrite app_nil_r. }
  assert (Hstep : exists u i, filter_names (n :: names) unknown ids s = filter_names names u i s /\
    forall id name schema, env !! id = Some (name, schema) ->
    match id_to_record s !! id with
    | Some _ => id ∈ i <-> name ∈ done_ ++ [n]
    | None => (name ∈ u <-> name ∈ done_ ++ [n]) /\ id ∉ i
    end).
  { cbn [filter_names]. specialize (Hn n). unfold of_name in Hn.
    destruct (name_to_record s !! n) as [i|] eqn:En.
    - destruct Hn as (id0 & sch0 & He0 & Hi0). destruct (Hr id0 i Hi0) as (n' & sch' & e & He & _ & Hrec).
      cbn. rewrite Hrec. cbn [identifier record_of]. eexists _, _. split; [reflexivity|].
      rewrite He0 in He. injection He as <- <-. intros id name schema Hid. specialize (Hd id name schema Hid).
      destruct (id_to_record s !! id) eqn:Ei.
      + destruct (decide (id = id0)) as [->|Hne]; [rewrite He0 in Hid; injection Hid as <- <-; set_solver|].
        assert (name <> n) by (intros ->; apply Hne; by eapply Hone). set_solver.
      + assert (Hne : id <> id0) by congruence.
        assert (name <> n) by (intros ->; apply Hne; by eapply Hone). set_solver.
    - cbn. eexists _, _. split; [reflexivity|]. intros id name schema Hid. specialize (Hd id name schema Hid).
      destruct (id_to_record s !! id) eqn:Ei.
      + assert (name <> n) by (intros ->; specialize (Hn id schema Hid); congruence). set_solver.
      + set_solver. }
  destruct Hstep as (u & i & Ef & Hd'). cbn [filter_names] in Ef. rewrite Ef.
  specialize (IH u i (done_ ++ [n]) Hd'). destruct (filter_names names u i s).
  by rewrite <- app_assoc in IH.
Qed.

Lemma items_filter_ok names start end_ s : seen env s ->
  filter_ok (Some names) (items_filter {| option_records := names; option_start := start;
    option_end := end_ |} s) s.
Proof.
  intros Hs. unfold items_filter. cbn [option_records].
  pose proof (filter_names_spec s names Hs ∅ ∅ []) as Hf.
  destruct (filter_names names ∅ ∅ s) as [unknown ids]. split; [done|]. apply Hf.
  intros id name schema _. destruct (id_to_record s !! id); set_solver.
Qed.

Lemma read_items_spec bl names f s :
  log_ok bl -> FileStream.contents (file s) = log_bytes bl -> start_ s = zlen (log_bytes []) ->
  scanned None f s [] ->
  exists its s', read_items names s = Done (its, s') /\ extends s s' /\
    FileStream.contents (file s') = log_bytes bl /\
    items_are s' its (wanted_from (Some names) [] bl).
Proof.
  intros Hbl Hc Hst [Hs _ _]. unfold read_items, items, range_begin. cbn [option_start].
  change (-1 <? 0) with true. cbv iota. rewrite Hst.
  set (flt := items_filter _ s).
  assert (Hsc : scanned (Some names) flt s []).
  { split; [exact Hs|by apply items_filter_ok|]. intros i n sch Hi. by apply not_elem_of_nil in Hi. }
  destruct (ReadUntil_spec (Some names) bl [] bl flt s Hbl eq_refl Hc Hsc) as (f1 & s1 & Hx1 & Hc1 & Hm).
  rewrite (wanted_next _ bl []). destruct (next_item (Some names) bl) as [[[k b] r]|].
  - destruct Hm as (E & Hw & Hsc1 & E1). rewrite E1, !bind_done.
    pose proof (length_log bl) as Hl. rewrite Hc1.
    destruct (for_items_spec (Some names) bl r (S (length (log_bytes bl))) [] k b f1 s1 [] Hbl E Hw Hc1 Hsc1)
      as (its & s2 & E2 & Hx2 & Hc2 & Hi2).
    { rewrite E, length_app in Hl at 1. cbn [length] in Hl. lia. }
    rewrite E2. exists its, s2. split; [done|]. split; [by etrans|]. by split.
  - destruct Hm as (E1 & _). rewrite E1, !bind_done. cbn [for_items]. exists [], s1.
    split; [done|]. split; [exact Hx1|]. split; [exact Hc1|constructor].
Qed.

(** ** The full scan *)
Lemma FullScan_spec bl f s :
  log_ok bl -> FileStream.contents (file s) = log_bytes bl -> start_ s = zlen (log_bytes []) ->
  scanned None f s [] ->
  exists s', FullScan s = Done s' /\ scanned None NoFilter s' bl /\ all_records_found s' = true /\
    FileStream.contents (file s') = log_bytes bl /\ start_ s' = start_ s /\
    final_item_ s' = final_of (final_item_ s) (zlen (log_bytes [])) bl.
Proof.
  intros Hbl Hc Hst [Hs _ _]. unfold FullScan. rewrite Hst.
  assert (Hsc : scanned None NoFilter s []).
  { split; [exact Hs|done|]. intros i n sch Hi. by apply not_elem_of_nil in Hi. }
  destruct (ReadUntil_spec None bl [] bl NoFilter s Hbl eq_refl Hc Hsc) as (f1 & s1 & Hx1 & Hc1 & Hm).
  assert (Hnone : next_item None bl = None).
  { clear. induction bl as [|b bl IH]; [done|]. cbn [next_item]. rewrite IH.
    destruct b; try done. cbn [is_wanted]. by destruct (env !! id) as [[? ?]|]. }
  rewrite Hnone in Hm. destruct Hm as (-> & Hsc1 & Ef). rewrite bind_done.
  eexists. split; [reflexivity|]. destruct Hsc1 as [Hs1 Hf1 Ha1]. destruct f1; [|done].
  split; [by split|]. split; [done|]. split; [exact Hc1|]. split; [rewrite <- Hst; apply Hx1|exact Ef].
Qed.
End scan.
