(* ===== verification/LogIndex.v ===== *)
(** * FileReader: opening a log

    The constructor over a log with an index, which finds every record without
    a scan, and over a log without one. *)
From stdpp Require Import gmap sorting.
From S2P Require Import Prelude Varuint Streams TimeConversions TelemetryFormat Archive Schema FileWriter FileReader LogFormat FileWriterTheory FileWriterOps LogWriter FileReaderTheory LogReader LogScan.
#[local] Open Scope Z_scope.
Import TelemetryReader.

(** ** A counted run of elements *)
Section counted.
Context {S A X : Type} `{ReadStream S} (R : S -> list byte -> list byte -> Prop).
Context (body : A * S -> outcome (A * S)) (step : A -> X -> A) (bytes : X -> list byte) (P : X -> Prop).
Context (Hbody : forall a x s k tail, P x -> R s k (bytes x ++ tail) ->
  exists s', body (a, s) = Done (step a x, s') /\ R s' (k ++ bytes x) tail).

Lemma times_elements xs : forall a s k tail,
  Forall P xs -> R s k (concat (map bytes xs) ++ tail) ->
  exists s', times body (zlen xs) (a, s) = Done (fold_left step xs a, s') /\
    R s' (k ++ concat (map bytes xs)) tail.
Proof.
  induction xs as [|x xs IH]; intros a s k tail Hp Hr.
  - exists s. rewrite app_nil_r. by split.
  - apply Forall_cons_1 in Hp as [Hx Hp]. cbn [map concat] in *. rewrite <- app_assoc in Hr.
    destruct (Hbody a x s k _ Hx Hr) as (s1 & E1 & R1).
    destruct (IH (step a x) s1 _ tail Hp R1) as (s2 & E2 & R2).
    exists s2. rewrite zlen_cons, Z.add_comm, times_succ, E1, bind_done by apply zlen_nonneg.
    split; [exact E2|]. by rewrite app_assoc.
Qed.
End counted.

Section index.
Import FileReader.
Context `{CrcLaws} `{LogClock} `{SnappyLaws}.
Implicit Types (s : State) (l bl : list block).
Context (env : env_t) (Hone : one_name env).

(** ** What the table says is in the log *)
Lemma table_schema l : forall id e p, table l !! id = Some e -> schema_at e = Some p ->
  exists pre name schema post, l = pre ++ BSchema id name schema :: post /\ p = zlen (log_bytes pre).
Proof.
  assert (Hgo : forall id e p, table l !! id = Some e -> schema_at e = Some p ->
    exists pre name schema post, l = pre ++ BSchema id name schema :: post /\ p = zlen (log_bytes pre)); [|done].
  induction l as [|b l IH] using rev_ind; intros id e p He Hp; [done|].
  assert (Hold : forall e', table l !! id = Some e' -> schema_at e' = Some p ->
    exists pre name schema post, l ++ [b] = pre ++ BSchema id name schema :: post /\ p = zlen (log_bytes pre)).
  { intros e' He' Hp'. destruct (IH id e' p He' Hp') as (pre & n & sch & post & -> & Ep).
    exists pre, n, sch, (post ++ [b]). split; [|exact Ep]. by rewrite <- app_assoc. }
  rewrite table_snoc in He. destruct b as [i n sch|i ? ? ? ? ?|? ?|?]; cbn [note] in He; try by eapply Hold.
  - destruct (decide (i = id)) as [->|Hne]; [|rewrite lookup_insert_ne in He by done; by eapply Hold].
    rewrite lookup_insert_eq in He. injection He as <-. injection Hp as <-. by exists l, n, sch, [].
  - destruct (decide (i = id)) as [->|Hne]; [|rewrite lookup_insert_ne in He by done; by eapply Hold].
    rewrite lookup_insert_eq in He. injection He as <-. cbn [schema_at] in Hp.
    destruct (table l !! id) as [e'|] eqn:E; [|done]. by eapply Hold.
Qed.

Lemma schema_in_table l id name schema : BSchema id name schema ∈ l -> is_Some (table l !! id).
Proof.
  induction l as [|b l IH] using rev_ind; [by intros ?%not_elem_of_nil|].
  rewrite table_snoc. intros [Hb|Hb%list_elem_of_singleton]%elem_of_app.
  - destruct (IH Hb) as [e He]. destruct b as [i n sch|i ? ? ? ? ?|? ?|?]; cbn [note];
      rewrite ?lookup_insert_is_Some'; eauto.
  - subst b. cbn [note]. by rewrite lookup_insert_eq.
Qed.

Lemma table_ids l : Forall (readable env) l -> ids_fit (table l).
Proof.
  induction l as [|b l IH] using rev_ind; intros Hr; [apply map_Forall_empty|].
  apply list.Forall_app in Hr as [Hr Hb]. apply Forall_cons_1 in Hb as [Hb _]. rewrite table_snoc.
  destruct b as [i n sch|i ? ? ? ? ?|? ?|?]; cbn [note]; try (by apply IH).
  - apply map_Forall_insert_2; [apply Hb|by apply IH].
  - apply map_Forall_insert_2; [exact (proj1 Hb)|by apply IH].
Qed.

(** ** The records of an index *)
Definition local_of (e : Z * Z * Z) : LocalRecord :=
  let '(id, p, last) := e in {| local_identifier := id; schema_location := p; final_record := last |}.

Definition entry_fits (e : Z * Z * Z) : Prop :=
  let '(id, p, last) := e in in_u 64 id /\ in_s 64 p /\ in_s 64 last.


Lemma read_local_spec c acc e f k tail :
  entry_fits e -> file_at c f k (index_entry_bytes e ++ tail) ->
  exists f', read_local (acc, f) = Done (acc ++ [local_of e], f') /\ file_at c f' (k ++ index_entry_bytes e) tail.
Proof.
  destruct e as [[id p] last]. intros (Hid & Hp & Hl) Hr. unfold read_local. cbn [index_entry_bytes] in *.
  rewrite <- !app_assoc in Hr. pose proof (exact_file c) as HX.
  assert (Hu : forall v, in_u 64 (u64 v)) by (intros; apply uwrap_range; lia).
  destruct (gets_value_of _ _ _ _ (gets_varuint _ HX id Hid) _ _ _ Hr) as (f1 & -> & R1). rewrite bind_done.
  destruct (gets_value_of _ _ _ _ (gets_uint _ HX 8 (u64 p) (Hu p)) _ _ _ R1) as (f2 & -> & R2).
  rewrite bind_done.
  destruct (gets_value_of _ _ _ _ (gets_uint _ HX 8 (u64 last) (Hu last)) _ _ _ R2) as (f3 & -> & R3).
  rewrite bind_done. exists f3. rewrite !app_assoc. split; [|exact R3].
  rewrite !swrap_uwrap, !swrap_id by (done || lia). done.
Qed.

Lemma fold_locals es : forall acc, fold_left (fun rs e => rs ++ [local_of e]) es acc = acc ++ map local_of es.
Proof.
  induction es as [|e es IH]; intros acc; cbn [fold_left map]; [by rewrite app_nil_r|].
  by rewrite IH, <- app_assoc.
Qed.

(** A record of the index is made from its schema block. *)
Lemma process_local_spec bl s done_ id name schema pre post last :
  log_ok env bl -> bl = pre ++ BSchema id name schema :: post ->
  FileStream.contents (file s) = log_bytes bl -> scanned env None NoFilter s done_ ->
  exists s', process_local s (local_of (id, zlen (log_bytes pre), last)) = Done s' /\
    scanned env None NoFilter s' (done_ ++ [BSchema id name schema]) /\ extends s s' /\
    FileStream.contents (file s') = log_bytes bl.
Proof.
  intros Hbl E Hc Hsc. pose proof Hbl as (_ & _ & Hsm). pose proof (small_file bl Hsm) as Hfs.
  destruct (log_block env bl pre _ post Hbl E) as [Hb Hzb]. unfold process_local, local_of.
  cbn [schema_location local_identifier final_record].
  destruct (Seek_file (log_bytes bl) (file s) (log_bytes pre) (concat (map encode (BSchema id name schema :: post))) Hc)
    as (g & -> & Hg); [by rewrite E, log_bytes_app|]. rewrite bind_done.
  destruct (block_ahead (with_file g s) bl _ post Hsm Hzb (ex_intro _ [] Hg)) as (g1 & k & Eh & R1).
  cbn [file with_file] in Eh. unfold BinarySchemaParser.value_of at 1. rewrite Eh, !bind_done.
  cbn [size]. cbn [block_body] in R1. set (st := BlockStream.make _ _) in *.
  pose proof (zlen_body_le (BSchema id name schema)) as Hz. cbn [block_body] in Hz.
  assert (Hsch : zlen schema <= max_size).
  { apply small_max. unfold schema_body in Hz. rewrite !zlen_app in Hz.
    pose proof (zlen_nonneg (vbytes id)). pose proof (zlen_nonneg (vbytes 0)).
    pose proof (zlen_nonneg (vbytes (zlen name))). pose proof (zlen_nonneg name). lia. }
  destruct (ProcessSchema_spec env Hone _ _ None NoFilter None st k id name schema (with_file g1 s) done_
    (or_introl eq_refl) R1 Hb Hsch (scanned_file env _ _ _ _ g1 Hsc))
    as (i & st' & k' & tail & s' & -> & R' & _ & Hsc' & Hx & _ & _ & Hi).
  rewrite bind_done. destruct (proj1 (scanned_seen _ _ _ _ _ Hsc') id i Hi) as (n & sch & e & _ & _ & Hrec).
  rewrite Hrec. cbn [identifier record_of]. rewrite Z.eqb_refl. cbn [mj_assert]. rewrite bind_done.
  destruct (close_file _ _ _ _ _ Hfs R') as (g2 & -> & Rg & _). rewrite bind_done.
  assert (Hnf : filter_after (with_file g1 s) id name NoFilter = NoFilter)
    by (unfold filter_after; by case_match).
  rewrite Hnf in Hsc'. fold (later (with_file g2 s') last). eexists. split; [reflexivity|].
  split; [by apply scanned_later, scanned_file|]. split.
  - etrans; [apply (extends_file s g1)|]. etrans; [exact Hx|]. etrans; [apply (extends_file s' g2)|].
    apply extends_later.
  - unfold later. case_match; exact (proj1 Rg).
Qed.

(** Each element of the index is where a schema of the log is. *)
Definition indexed bl (e : Z * Z * Z) : Prop :=
  let '(id, p, _) := e in exists pre name schema post,
    bl = pre ++ BSchema id name schema :: post /\ p = zlen (log_bytes pre).

Lemma process_locals_spec bl es : forall s done_,
  log_ok env bl -> Forall (indexed bl) es ->
  FileStream.contents (file s) = log_bytes bl -> scanned env None NoFilter s done_ ->
  exists s', process_locals (map local_of es) s = Done s' /\
    scanned env None NoFilter s' done_ /\ extends s s' /\
    FileStream.contents (file s') = log_bytes bl /\
    Forall (fun e => is_Some (id_to_record s' !! e.1.1)) es.
Proof.
  induction es as [|[[id p] last] es IH]; intros s done_ Hbl Hes Hc Hsc; cbn [map process_locals].
  - exists s. split; [done|]. split; [exact Hsc|]. split; [reflexivity|]. by split.
  - apply Forall_cons_1 in Hes as [(pre & name & schema & post & E & ->) Hes].
    destruct (process_local_spec bl s done_ id name schema pre post last Hbl E Hc Hsc)
      as (s1 & -> & Hsc1 & Hx1 & Hc1). rewrite bind_done.
    destruct (IH s1 _ Hbl Hes Hc1 Hsc1) as (s2 & -> & Hsc2 & Hx2 & Hc2 & Hall).
    exists s2. split; [done|]. split; [eapply scanned_subset; [|exact Hsc2]; set_solver|].
    split; [by etrans|]. split; [exact Hc2|]. constructor; [|exact Hall]. cbn [fst].
    apply (scanned_all _ _ _ _ _ Hsc2 id name schema). set_solver.
Qed.

(** ** The constructor *)
Definition fresh_state (verify : bool) (f : FileStream.t) : State :=
  {| verify_checksums := verify; file := f; records := []; id_to_record := ∅; name_to_record := ∅;
     final_item_ := -1; has_index := false; all_records_found := false; start_ := FileStream.Tell f |}.

Lemma fresh_scanned verify f : scanned env None NoFilter (fresh_state verify f) [].
Proof.
  split; [split; [apply map_Forall_empty|]|done|by intros i n sch ?%not_elem_of_nil].
  intros name. unfold of_name. cbn [name_to_record fresh_state]. rewrite lookup_empty.
  intros id schema _. apply lookup_empty.
Qed.

(** The header is checked, and the blocks start behind it. *)
Lemma Open_header verify bl :
  exists f, Open verify (log_bytes bl) = MaybeProcessIndex (fresh_state verify f) /\
    FileStream.contents f = log_bytes bl /\ FileStream.Tell f = zlen (log_bytes []).
Proof.
  unfold Open. set (c := log_bytes bl).
  assert (H0' : file_at c (FileStream.make c) [] (kHeader ++ vbytes 0 ++ concat (map encode bl))).
  { split; [done|]. exists []. split; [|done]. unfold c, log_bytes, log_header. by rewrite <- app_assoc. }
  destruct (exact_file c _ _ _ _ H0') as (f1 & E1 & _ & R1). change (zlen kHeader) with 8 in E1.
  rewrite E1, bind_done. rewrite bool_decide_true by done. cbn [negb].
  destruct (gets_varuint _ (exact_file c) 0 zero_u64 _ _ _ R1) as (f2 & -> & R2). rewrite bind_done.
  rewrite bool_decide_true by done. cbn [negb]. exists f2. split; [done|]. destruct R2 as (Ec & pre & Ep & Ho).
  split; [exact Ec|]. unfold FileStream.Tell. rewrite Ho. unfold c, log_bytes in Ep |- *.
  apply app_inv_tail in Ep as <-. cbn [map concat]. by rewrite app_nil_r.
Qed.

(** The last bytes of a file. *)
Lemma read_last c f n d front :
  FileStream.contents f = c -> c = front ++ d -> zlen d = n ->
  exists f', FileStream.Seek (FileStream.size f - n) f = Done f' /\ file_at c f' [] d.
Proof.
  intros Hc E Hn. unfold FileStream.size. rewrite Hc. replace (zlen c - n) with (zlen front).
  - by apply (Seek_file c f front d).
  - rewrite E, zlen_app. lia.
Qed.

Definition ends_like_index (c : list byte) : bool :=
  bool_decide (zdrop (zlen c - 8) c = FileWriter.kIndexTrailer).

(** Without an index, what is known is nothing. *)
Lemma Open_plain verify bl :
  ends_like_index (log_bytes bl) = false ->
  exists s, Open verify (log_bytes bl) = Done s /\ scanned env None NoFilter s [] /\
    FileStream.contents (file s) = log_bytes bl /\ start_ s = zlen (log_bytes []) /\
    verify_checksums s = verify /\ has_index s = false.
Proof.
  intros Hno. destruct (Open_header verify bl) as (f & -> & Hc & HT). unfold MaybeProcessIndex.
  cbn [file fresh_state start_]. set (c := log_bytes bl) in *.
  assert (Hl : 8 <= zlen c).
  { unfold c, log_bytes. rewrite zlen_app. pose proof (zlen_nonneg (concat (map encode bl))).
    change (zlen log_header) with 9. lia. }
  destruct (read_last c f 8 (zdrop (zlen c - 8) c) (ztake (zlen c - 8) c) Hc) as (f1 & -> & R1);
    [by rewrite ztake_zdrop|rewrite zlen_drop by lia; lia|].
  rewrite bind_done. rewrite <- (app_nil_r (zdrop _ c)) in R1.
  destruct (exact_file c _ _ _ _ R1) as (f2 & E2 & _ & R2).
  rewrite zlen_drop in E2 by lia. replace (Z.max 0 (zlen c - (zlen c - 8))) with 8 in E2 by lia.
  rewrite E2, bind_done. unfold ends_like_index in Hno. fold c in Hno. rewrite Hno. cbn [negb].
  eexists. split; [reflexivity|]. split; [apply scanned_file, fresh_scanned|].
  split; [exact (proj1 R2)|]. by split.
Qed.

(** With one, it is every record of the log. *)
Lemma indexed_entries l bl : all_known (table l) -> (exists k, bl = l ++ k) ->
  Forall (indexed bl) (index_entries (table l)).
Proof.
  intros Ha (k & ->). unfold index_entries. apply list.Forall_forall. intros [[id p] last] Hin.
  apply list_elem_of_fmap in Hin as ([i e] & [= -> -> ->] & Hi%elem_of_in_order). cbn [fst snd] in *.
  destruct (schema_at e) as [p|] eqn:Ep; [|by destruct (Ha i e Hi)].
  destruct (table_schema l i e p Hi Ep) as (pre & n & sch & post & -> & ->). cbn [indexed].
  exists pre, n, sch, (post ++ k). by rewrite <- app_assoc.
Qed.

Lemma entries_fit l : Forall (readable env) l -> small l -> all_known (table l) ->
  Forall entry_fits (index_entries (table l)).
Proof.
  intros Hr Hsm Ha. unfold index_entries. apply list.Forall_forall. intros [[id p] last] Hin.
  apply list_elem_of_fmap in Hin as ([i e] & [= -> -> ->] & Hi%elem_of_in_order). cbn [fst snd] in *.
  pose proof (table_bound l i e Hi) as Hb. unfold small in Hsm.
  split; [exact (table_ids l Hr i e Hi)|]. split; [|unfold in_s; lia].
  destruct (schema_at e) as [p|] eqn:Ep; [|by destruct (Ha i e Hi)].
  destruct (table_schema l i e p Hi Ep) as (pre & n & sch & post & -> & ->).
  pose proof (zlen_log_mono pre (BSchema i n sch :: post)). pose proof (zlen_log_nonneg pre).
  change (in_s 64 (zlen (log_bytes pre))). unfold in_s. lia.
Qed.

Lemma index_size_encode es : small [BIndex es] ->
  zlen (encode (BIndex es)) = index_size es.
Proof.
  intros Hsm. cbn [encode]. unfold block_bytes, index_size. pose proof (zlen_index_body es) as Hb.
  assert (Hu : in_u 64 (zlen (index_body es))).
  { apply (small_body [] (BIndex es) _ Hsm). by apply zlen_block_body. }
  rewrite !zlen_app, (zlen_vbytes (zlen (index_body es))) by done. rewrite Hb.
  change (zlen (vbytes kIndex)) with 1. lia.
Qed.

Lemma zlen_log_suffix l k : zlen (log_bytes k) <= zlen (log_bytes (l ++ k)).
Proof.
  unfold log_bytes. rewrite map_app, concat_app, !zlen_app. pose proof (zlen_nonneg (concat (map encode l))).
  lia.
Qed.

(** The trailer and the size in front of it. *)
Lemma index_tail es : exists front, encode (BIndex es) =
  front ++ le_split 4 (u32 (index_size es)) ++ FileWriter.kIndexTrailer.
Proof.
  cbn [encode]. unfold block_bytes, index_body.
  exists (vbytes kIndex ++ vbytes (zlen (index_front es ++ le_split 4 (u32 (index_size es)) ++
    FileWriter.kIndexTrailer)) ++ index_front es).
  by rewrite <- !app_assoc.
Qed.

(** Opening a log with an index finds every record without scanning it. *)
Lemma Open_indexed verify l :
  let es := index_entries (table l) in
  log_ok env (l ++ [BIndex es]) -> all_known (table l) -> l <> [] -> index_size es < 2 ^ 32 ->
  exists s, Open verify (log_bytes (l ++ [BIndex es])) = Done s /\
    scanned env None NoFilter s (l ++ [BIndex es]) /\
    FileStream.contents (file s) = log_bytes (l ++ [BIndex es]) /\ start_ s = zlen (log_bytes []) /\
    verify_checksums s = verify /\ has_index s = true /\ all_records_found s = true.
Proof.
  intros es Hbl Ha Hne Hsz. set (bl := l ++ [BIndex es]) in *. pose proof Hbl as (Hr & _ & Hsm).
  apply list.Forall_app in Hr as [Hr _]. pose proof (small_app _ _ Hsm) as Hsl.
  destruct (Open_header verify bl) as (f & -> & Hc & HT). unfold MaybeProcessIndex.
  cbn [file fresh_state]. set (c := log_bytes bl) in *.
  assert (Hse : small [BIndex es]).
  { unfold small in *. pose proof (zlen_log_suffix l [BIndex es]). unfold bl in Hsm. lia. }
  pose proof (index_size_encode es Hse) as Hie. pose proof (encode_pos (BIndex es)) as Hip.
  assert (Ec : c = log_bytes l ++ encode (BIndex es)).
  { unfold c, bl. rewrite log_bytes_app. cbn [map concat]. by rewrite app_nil_r. }
  destruct (index_tail es) as (front & Et).
  destruct (read_last c f 8 FileWriter.kIndexTrailer (log_bytes l ++ front ++ le_split 4 (u32 (index_size es))) Hc)
    as (f1 & -> & R1); [by rewrite Ec, Et, <- !app_assoc|done|].
  rewrite bind_done. rewrite <- (app_nil_r FileWriter.kIndexTrailer) in R1.
  destruct (exact_file c _ _ _ _ R1) as (f2 & E2 & _ & R2). change (zlen FileWriter.kIndexTrailer) with 8 in E2.
  rewrite E2, bind_done, bool_decide_true by done. cbn [negb].
  assert (HfS : FileStream.size f2 = FileStream.size f) by (unfold FileStream.size; by rewrite Hc, (proj1 R2)).
  rewrite <- HfS.
  destruct (read_last c f2 12 (le_split 4 (u32 (index_size es)) ++ FileWriter.kIndexTrailer)
    (log_bytes l ++ front) (proj1 R2)) as (f3 & -> & R3); [by rewrite Ec, Et, <- !app_assoc|done|].
  rewrite bind_done.
  destruct (gets_value_of _ _ _ _ (gets_uint _ (exact_file c) 4 (u32 (index_size es)) (uwrap_range 32 _ ltac:(lia)))
    _ _ _ R3) as (f4 & -> & R4). rewrite bind_done.
  assert (Hu : u32 (index_size es) = index_size es) by (apply uwrap_id; unfold in_u; lia). rewrite Hu.
  cbn [start_ fresh_state]. rewrite HT.
  assert (Hlen : zlen (log_bytes []) < zlen (log_bytes l)).
  { destruct l as [|b l']; [done|]. rewrite (log_split [] b l'). rewrite !zlen_app.
    pose proof (encode_pos b). pose proof (zlen_nonneg (concat (map encode l'))). lia. }
  assert (HS : FileStream.size f2 = zlen (log_bytes l) + index_size es).
  { unfold FileStream.size. rewrite (proj1 R2), Ec, zlen_app. lia. }
  rewrite (proj2 (Z.leb_gt _ _)) by (rewrite HS; lia).
  assert (HS4 : FileStream.size f2 = FileStream.size f4).
  { unfold FileStream.size. by rewrite (proj1 R2), (proj1 R4). }
  rewrite HS4.
  destruct (read_last c f4 (index_size es) (encode (BIndex es)) (log_bytes l) (proj1 R4) Ec)
    as (f5 & -> & R5); [exact Hie|]. rewrite bind_done.
  destruct (log_block env bl l (BIndex es) [] Hbl eq_refl) as [_ Hzb].
  assert (Hat : at_block (with_file f5 (fresh_state verify f)) bl [BIndex es]).
  { exists []. cbn [map concat file with_file]. by rewrite app_nil_r. }
  destruct (block_ahead _ bl (BIndex es) [] Hsm Hzb Hat) as (f6 & k6 & Eh & [R6 _]).
  cbn [file with_file] in Eh. rewrite Eh, bind_done. cbn [type block_type].
  change (kIndex =? kIndex) with true. cbn [negb].
  cbn [BlockStream.base BlockStream.make map concat] in R6. rewrite app_nil_r in R6.
  cbn [block_body] in R6. unfold index_body, index_front in R6. rewrite <- !app_assoc in R6.
  fold c in R6.
  destruct (gets_value_of _ _ _ _ (gets_varuint _ (exact_file c) 0 zero_u64) _ _ _ R6) as (f7 & -> & R7).
  rewrite bind_done. cbn [negb Z.eqb].
  assert (Hn : in_u 64 (zlen es)).
  { pose proof (zlen_index_entries es). pose proof (zlen_nonneg es). unfold index_size, index_front in Hsz.
    rewrite !zlen_app in Hsz. pose proof (zlen_nonneg (vbytes 0)). pose proof (zlen_nonneg (vbytes (zlen es))).
    set (m := zlen (vbytes 0) + _) in *.
    pose proof (vu_len_pos (m + 4 + 8) ltac:(lia)). unfold in_u. lia. }
  destruct (gets_value_of _ _ _ _ (gets_varuint _ (exact_file c) _ Hn) _ _ _ R7) as (f8 & -> & R8).
  rewrite bind_done.
  destruct (times_elements (file_at c) read_local (fun rs e => rs ++ [local_of e]) index_entry_bytes entry_fits
    (fun a x st k tail Hx Hr0 => read_local_spec c a x st k tail Hx Hr0) es [] f8 _ _
    (entries_fit l Hr Hsl Ha) R8) as (f9 & -> & R9).
  rewrite bind_done, fold_locals. cbn [app records fresh_state mj_assert]. rewrite bind_done.
  destruct (process_locals_spec bl es (with_final 0 (with_file f9 (fresh_state verify f))) [] Hbl
    (indexed_entries l bl Ha (ex_intro _ _ eq_refl)) (proj1 R9)
    (scanned_final _ _ _ _ _ _ (scanned_file _ _ _ _ _ _ (fresh_scanned verify f))))
    as (s' & -> & Hsc & Hx & Hc' & Hall).
  rewrite bind_done. eexists. split; [reflexivity|]. destruct Hsc as [Hs Hf _].
  destruct Hx as (Hv & Hst & _). split.
  - split; [exact Hs|exact Hf|]. cbn [with_found id_to_record].
    intros id name schema [Hin|Hin%list_elem_of_singleton]%elem_of_app; [|done].
    destruct (schema_in_table l id name schema Hin) as [e He].
    rewrite list.Forall_forall in Hall. apply (Hall (id, option.default 0 (schema_at e), last_at e)).
    unfold es, index_entries. apply list_elem_of_fmap. exists (id, e). split; [done|].
    by apply elem_of_in_order.
  - split; [exact Hc'|]. split; [cbn; by rewrite Hst|]. by split.
Qed.
End index.
