(* ===== verification/LogRoundtrip.v ===== *)
(** * A log is read back as it was written

    The calls of [FileWriter] against the items [FileReader] finds in the file
    they leave. *)
From stdpp Require Import gmap sorting strings.
From S2P Require Import Prelude Varuint Streams TimeConversions TelemetryFormat Archive Schema Tokenizer Register FileWriter FileReader LogFormat FileWriterTheory FileWriterOps LogWriter LogProperties FileReaderTheory LogReader LogScan LogIndex.
#[local] Open Scope Z_scope.

Section roundtrip.
Context `{CrcLaws} `{LogClock} `{SnappyLaws}.
Implicit Types (l bl : list block).
Context (env : env_t) (Hone : one_name env).

(** ** What a log holds, as its writer and its reader say it *)

(** An identifier, a payload and a time. *)
Definition datum : Type := Z * list byte * option Z.

Definition data_view (b : block) : option datum :=
  match b with
  | BData id _ time _ _ payload => Some (id, payload, time)
  | _ => None
  end.

Definition written (o : FileWriter.Options) (cs : list call) : list datum :=
  omap (fun c => match c with
                 | CData timestamp now id payload _ =>
                     Some (id, payload, us_of <$> time_of o timestamp now)
                 | _ => None
                 end) cs.

Definition datum_wanted (names : list (list byte)) (d : datum) : bool :=
  match env !! d.1.1 with Some (name, _) => wants (Some names) name | None => false end.

(** An item is a datum: its payload, its time, and the record of its
    identifier. *)
Definition item_is (s : FileReader.State) (it : FileReader.Item) (d : datum) : Prop :=
  let '(id, payload, time) := d in
  FileReader.data it = payload /\
  FileReader.timestamp it =
    match time with Some t => ConvertEpochMicrosecondsToPtime t | None => not_a_date_time end /\
  is_record env s id (FileReader.record it).

Lemma items_of_wanted names s bl : forall its pre,
  items_are env s its (wanted_from env (Some names) pre bl) ->
  Forall2 (item_is s) its (List.filter (datum_wanted names) (omap data_view bl)).
Proof.
  induction bl as [|b bl IH]; intros its pre Hi; cbn [wanted_from] in Hi.
  - inversion Hi. constructor.
  - destruct b as [| id previous time check_ comp payload | |]; cbn [is_wanted app] in Hi;
      try exact (IH its _ Hi).
    cbn [omap list_omap data_view List.filter]. unfold datum_wanted at 1. cbn [fst].
    destruct (env !! id) as [[name schema]|]; [|exact (IH its _ Hi)].
    destruct (wants (Some names) name); [|exact (IH its _ Hi)].
    inversion Hi as [|it d its' ds Hit Hits]; subst. constructor; [|exact (IH its' _ Hits)].
    destruct Hit as (_ & Hd & Ht & _ & Hrec). by split.
Qed.

(** ** The calls that leave such a log *)
Fixpoint calls_ok (names : gmap Z (list byte)) (ids : list Z) (cs : list call) : Prop :=
  match cs with
  | [] => True
  | CSchema id schema :: cs =>
      (exists name e, names !! id = Some name /\ env !! id = Some (name, schema) /\
        zlen name <= kMaxStringSize /\ BinarySchemaParser.parse schema name = Done e) /\
      calls_ok names (id :: ids) cs
  | CData timestamp now id payload _ :: cs =>
      id ∈ ids /\ zlen payload <= max_size /\ in_s 64 (us_of timestamp) /\ in_s 64 (us_of now) /\
      calls_ok names ids cs
  | CSeek _ :: cs | CBackground :: cs => calls_ok names ids cs
  end.

Lemma calls_ok_subset names ids ids' cs : ids ⊆ ids' -> calls_ok names ids cs -> calls_ok names ids' cs.
Proof.
  revert ids ids'. induction cs as [|c cs IH]; intros ids ids' Hs; [done|]. destruct c; cbn [calls_ok].
  - intros [Hn Hc]. split; [done|]. eapply IH; [|exact Hc]. set_solver.
  - intros (Hi & Hp & Ht & Hw & Hc). split; [by apply Hs|]. by split_and!; [..|eapply IH].
  - by apply IH.
  - by apply IH.
Qed.

(** What holds of the blocks written so far. *)
Definition blocks_ok l : Prop := Forall (readable env) l /\ declared [] l.

Lemma blocks_ok_snoc l b :
  blocks_ok l -> readable env b -> declared (schema_ids l) [b] -> blocks_ok (l ++ [b]).
Proof.
  intros [Hr Hd] Hb Hdb. split; [apply list.Forall_app; by split; [|apply Forall_singleton]|].
  apply declared_join; [exact Hd|]. by rewrite app_nil_r.
Qed.

Lemma call_blocks_ok o sp c sp' cs :
  spec_call o sp c = Some sp' -> calls_ok (names sp) (schema_ids (blocks sp)) (c :: cs) ->
  blocks_ok (blocks sp) -> small (blocks sp) ->
  blocks_ok (blocks sp') /\ calls_ok (names sp') (schema_ids (blocks sp')) cs /\
  omap data_view (blocks sp') = omap data_view (blocks sp) ++ written o [c].
Proof.
  intros E Hc Hb Hsm.
  destruct c as [id schema|timestamp now id payload f|timestamp|]; cbn [spec_call] in E.
  - destruct (id_ok id) eqn:Eid; [|done]. destruct Hc as ((name & e & En & He & Hn & Hp) & Hc).
    rewrite En in E. injection E as <-. cbn [blocks names]. rewrite schema_ids_app, omap_app.
    split; [|split; [|done]].
    + apply blocks_ok_snoc; [exact Hb| |done].
      split; [exact He|]. split; [apply in_u_42; by apply id_ok_range|]. eauto.
    + eapply calls_ok_subset; [|exact Hc]. set_solver.
  - destruct (id_ok id) eqn:Eid; [|done]. injection E as <-. destruct Hc as (Hi & Hp & Ht & Hw & Hc).
    set (b := data_block o (blocks sp) timestamp now id payload f).
    assert (Hb' : blocks_ok (blocks sp ++ [b])).
    { apply blocks_ok_snoc; [exact Hb| |by split].
      split; [apply in_u_42; by apply id_ok_range|]. split.
      - unfold previous_of. case_match; [|done]. intros v [= <-]. by apply offset_back_u64.
      - split; [|exact Hp]. intros t Hx. unfold time_of in Hx. repeat case_match; try done;
          injection Hx as <-; done. }
    assert (Hids : schema_ids (blocks sp ++ [b]) = schema_ids (blocks sp))
      by (rewrite schema_ids_app; apply app_nil_r).
    assert (Hv : omap data_view (blocks sp ++ [b]) = omap data_view (blocks sp) ++
      written o [CData timestamp now id payload f]) by (by rewrite omap_app).
    unfold data_step. fold b. repeat case_match; cbn [blocks names]; rewrite ?Hids; try by split_and!.
    rewrite schema_ids_app, Hids, omap_app, Hv, !app_nil_r. split; [|by split].
    by apply blocks_ok_snoc.
  - injection E as <-. cbn [blocks names]. rewrite schema_ids_app, omap_app, !app_nil_r.
    split; [by apply blocks_ok_snoc|]. by split.
  - injection E as <-. rewrite app_nil_r. by split_and!.
Qed.

Lemma written_cons o c cs : written o (c :: cs) = written o [c] ++ written o cs.
Proof. exact (omap_app _ [c] cs). Qed.

Lemma run_blocks_ok o cs : forall sp sp',
  spec_run o sp cs = Some sp' -> calls_ok (names sp) (schema_ids (blocks sp)) cs ->
  blocks_ok (blocks sp) -> small (blocks sp') ->
  blocks_ok (blocks sp') /\ omap data_view (blocks sp') = omap data_view (blocks sp) ++ written o cs.
Proof.
  induction cs as [|c cs IH]; cbn [spec_run]; intros sp sp' E Hc Hb Hsm.
  - injection E as <-. by rewrite app_nil_r.
  - destruct (spec_call o sp c) as [sp1|] eqn:E1; [|done].
    assert (Hsp : small (blocks sp)).
    { destruct (spec_call_grows _ _ _ _ E1) as (k1 & Ek1). destruct (spec_run_grows _ _ _ _ E) as (k2 & Ek2).
      rewrite Ek2, Ek1, <- app_assoc in Hsm. exact (small_app _ _ Hsm). }
    destruct (call_blocks_ok o sp c sp1 cs E1 Hc Hb Hsp) as (Hb1 & Hc1 & Hv1).
    destruct (IH sp1 sp' E Hc1 Hb1 Hsm) as (Hb2 & Hv2). split; [exact Hb2|].
    by rewrite Hv2, Hv1, (written_cons o c cs), <- app_assoc.
Qed.

Lemma declared_known l : declared [] l -> all_known (table l).
Proof.
  induction l as [|b l IH] using rev_ind; intros Hd; [apply map_Forall_empty|].
  pose proof (IH (declared_prefix _ _ _ Hd)) as Hk. apply declared_app in Hd. rewrite app_nil_r in Hd.
  rewrite table_snoc. destruct b as [i n sch|i ? ? ? ? ?|? ?|?]; cbn [note]; try exact Hk.
  - by apply map_Forall_insert_2.
  - destruct Hd as [Hi _]. apply elem_of_schema_ids in Hi as (n & sch & Hi).
    destruct (schema_in_table _ _ _ _ Hi) as [e He]. apply map_Forall_insert_2; [|exact Hk].
    cbn [schema_at]. rewrite He. cbn. exact (Hk i e He).
Qed.

Lemma closing_ok o l : blocks_ok l -> small (closing o l) -> log_ok env (closing o l).
Proof.
  intros [Hr Hd] Hsm. unfold closing in *. split; [|split; [|exact Hsm]].
  - apply list.Forall_app. split; [exact Hr|]. by destruct (FileWriter.index_block o); repeat constructor.
  - apply declared_join; [exact Hd|]. by destruct (FileWriter.index_block o).
Qed.

Lemma closing_view o l : omap data_view (closing o l) = omap data_view l.
Proof.
  unfold closing. rewrite omap_app. by destruct (FileWriter.index_block o); rewrite app_nil_r.
Qed.

(** The file is opened, by its index when it has one. *)
Lemma Open_closed verify o l :
  blocks_ok l -> small (closing o l) ->
  (if FileWriter.index_block o then l <> [] /\ index_size (index_entries (table l)) < 2 ^ 32
   else ends_like_index (log_bytes l) = false) ->
  exists s k, FileReader.Open verify (log_bytes (closing o l)) = Done s /\
    scanned env None FileReader.NoFilter s k /\
    FileStream.contents (FileReader.file s) = log_bytes (closing o l) /\
    FileReader.start_ s = zlen (log_bytes []) /\
    FileReader.has_index s = FileWriter.index_block o /\
    (FileWriter.index_block o = true -> k = closing o l /\ FileReader.all_records_found s = true).
Proof.
  intros Hb Hsm Hi. pose proof (closing_ok o l Hb Hsm) as Hok. unfold closing in *.
  destruct (FileWriter.index_block o).
  - destruct Hi as [Hne Hsz].
    destruct (Open_indexed env Hone verify l Hok (declared_known l (proj2 Hb)) Hne Hsz)
      as (s & E & Hsc & Hc & Hst & _ & Hix & Hall). exists s, (l ++ [BIndex (index_entries (table l))]).
    by split_and!.
  - rewrite app_nil_r in *. destruct (Open_plain env verify l Hi) as (s & E & Hsc & Hc & Hst & _ & Hix).
    exists s, []. by split_and!.
Qed.

(** The reader's items of a log are what was written to it. *)
Lemma log_read_back verify wanted_names s cs sp :
  FileWriter.writer s = None -> FileWriter.schemas s = ∅ ->
  calls_ok (FileWriter.reverse_identifier_map s) [] cs ->
  spec_run (FileWriter.options s)
    {| blocks := []; LogWriter.names := FileWriter.reverse_identifier_map s;
       seeked := FileWriter.last_seek_block s |} cs = Some sp ->
  small (closing (FileWriter.options s) (blocks sp)) ->
  (if FileWriter.index_block (FileWriter.options s)
   then blocks sp <> [] /\ index_size (index_entries (table (blocks sp))) < 2 ^ 32
   else ends_like_index (log_bytes (blocks sp)) = false) ->
  exists w file r r' its,
    (s1 ← FileWriter.Open s; s2 ← run cs s1; FileWriter.Close s2) = Done (w, Some file) /\
    FileReader.Open verify file = Done r /\
    FileReader.has_index r = FileWriter.index_block (FileWriter.options s) /\
    FileReader.read_items wanted_names r = Done (its, r') /\
    Forall2 (item_is r') its
      (List.filter (datum_wanted wanted_names) (written (FileWriter.options s) cs)).
Proof.
  intros Ew Es Hcalls Hrun Hsm Hi. set (o := FileWriter.options s) in *.
  assert (Hb0 : schema_blocks s = []) by (unfold schema_blocks; by rewrite Es).
  destruct (run_blocks_ok o cs _ sp Hrun Hcalls) as [Hb Hv]; [by split|exact (small_app _ _ Hsm)|].
  cbn [blocks] in Hv.
  assert (Hrun' := Hrun). rewrite <- Hb0 in Hrun'.
  destruct (Open_refines s Ew) as (s1 & E1 & Hl1).
  { unfold reopens. rewrite Es. apply map_Forall_empty. }
  { rewrite Hb0. unfold small. vm_compute. done. }
  destruct (run_refines o cs s1 _ sp Hl1 Hrun' (small_app _ _ Hsm)) as (s2 & E2 & Hl2).
  destruct (Close_refines o s2 sp Hl2 (fun _ => declared_known _ (proj2 Hb)) Hsm) as (s3 & E3 & _).
  destruct (Open_closed verify o (blocks sp) Hb Hsm Hi) as (r & k & Er & Hsc & Hc & Hst & Hix & _).
  assert (Hsc0 : scanned env None FileReader.NoFilter r [])
    by (eapply scanned_subset; [|exact Hsc]; set_solver).
  destruct (read_items_spec env Hone (closing o (blocks sp)) wanted_names FileReader.NoFilter r
    (closing_ok o _ Hb Hsm) Hc Hst Hsc0) as (its & r' & Eits & _ & _ & Hits).
  exists s3, (log_bytes (closing o (blocks sp))), r, r', its.
  rewrite E1, bind_done, E2, bind_done, E3. split; [done|]. split; [exact Er|]. split; [exact Hix|].
  split; [exact Eits|]. apply items_of_wanted in Hits. rewrite closing_view, Hv in Hits. exact Hits.
Qed.

(** C5: what is written to a log is read back.  Schemas and data are written,
    in any order in which each record's schema comes before its data, with or
    without previous offsets, times, checksums, compression, seek blocks and an
    index, and with the background thread writing at any time; the reader opens
    the file and its items of the records asked for are the data written for
    them, in order: the payloads, the times and the records. *)
Theorem log_roundtrip verify wanted_names s cs sp :
  FileWriter.writer s = None -> FileWriter.schemas s = ∅ ->
  calls_ok (FileWriter.reverse_identifier_map s) [] cs ->
  spec_run (FileWriter.options s)
    {| blocks := []; LogWriter.names := FileWriter.reverse_identifier_map s;
       seeked := FileWriter.last_seek_block s |} cs = Some sp ->
  small (closing (FileWriter.options s) (blocks sp)) ->
  (if FileWriter.index_block (FileWriter.options s)
   then blocks sp <> [] /\ index_size (index_entries (table (blocks sp))) < 2 ^ 32
   else ends_like_index (log_bytes (blocks sp)) = false) ->
  exists w file r r' its,
    (s1 ← FileWriter.Open s; s2 ← run cs s1; FileWriter.Close s2) = Done (w, Some file) /\
    FileReader.Open verify file = Done r /\
    FileReader.has_index r = FileWriter.index_block (FileWriter.options s) /\
    FileReader.read_items wanted_names r = Done (its, r') /\
    Forall2 (item_is r') its
      (List.filter (datum_wanted wanted_names) (written (FileWriter.options s) cs)).
Proof. apply log_read_back. Qed.

(** The index is all the reader needs: a log with one is opened with every
    record of it known, and finding a record by its name reads nothing more. *)
Theorem index_knows_every_record verify o l id name schema :
  blocks_ok l -> small (closing o l) -> FileWriter.index_block o = true ->
  l <> [] -> index_size (index_entries (table l)) < 2 ^ 32 -> BSchema id name schema ∈ l ->
  exists s i, FileReader.Open verify (log_bytes (closing o l)) = Done s /\
    FileReader.find_record s name = Done (Some i, s) /\ is_record env s id i.
Proof.
  intros Hb Hsm Hix Hne Hsz Hin.
  destruct (Open_closed verify o l Hb Hsm) as (s & k & E & [[Hr Hn] _ Ha] & _ & _ & _ & Hk);
    [by rewrite Hix|]. destruct (Hk Hix) as [-> _].
  assert (Hin' : BSchema id name schema ∈ closing o l) by (unfold closing; set_solver).
  destruct (Ha _ _ _ Hin') as [i Hi]. exists s, i. split; [exact E|].
  assert (He : env !! id = Some (name, schema)).
  { pose proof (proj1 Hb) as Hread. rewrite list.Forall_forall in Hread. apply (Hread _ Hin). }
  split; [|exact (Hr id i Hi)]. unfold FileReader.find_record. specialize (Hn name). unfold of_name in Hn.
  destruct (FileReader.name_to_record s !! name) as [j|].
  - destruct Hn as (id' & sch' & He' & Hj). assert (id' = id) as -> by by eapply Hone. congruence.
  - specialize (Hn id schema He). congruence.
Qed.
End roundtrip.

(** ** The log of two records is read back *)
Definition sample_env : env_t :=
  list_to_map [(1, (text_of "pose", bool_schema)); (7, (text_of "imu", bool_schema))].

Lemma sample_one_name : one_name sample_env.
Proof.
  intros id id' name a b H1%elem_of_list_to_map_2 H2%elem_of_list_to_map_2.
  assert (Hne : text_of "pose" <> text_of "imu") by done. set_solver.
Qed.

Lemma sample_calls_ok index :
  calls_ok sample_env (FileWriter.reverse_identifier_map (sample_state index)) [] sample_calls.
Proof.
  cbn [calls_ok sample_calls]. split.
  { exists (text_of "pose"). eexists. split_and!; vm_compute; done. }
  split; [set_solver|]. split; [vm_compute; done|]. split; [vm_compute; done|]. split; [vm_compute; done|].
  split.
  { exists (text_of "imu"). eexists. split_and!; vm_compute; done. }
  repeat (split; [set_solver|split; [vm_compute; done|split; [vm_compute; done|split; [vm_compute; done|]]]]).
  done.
Qed.

Lemma log_roundtrip_witness :
  exists w file r r' its,
    (s1 ← FileWriter.Open (sample_state true); s2 ← run sample_calls s1; FileWriter.Close s2) =
      Done (w, Some file) /\
    FileReader.Open true file = Done r /\
    FileReader.has_index r = true /\
    FileReader.read_items [text_of "imu"] r = Done (its, r') /\
    Forall2 (item_is sample_env r') its
      (List.filter (datum_wanted sample_env [text_of "imu"])
        (written (FileWriter.options (sample_state true)) sample_calls)).
Proof.
  refine (log_roundtrip sample_env sample_one_name true [text_of "imu"] (sample_state true) sample_calls
    (sample_spec true) eq_refl eq_refl (sample_calls_ok true) _ _ _).
  - vm_compute. reflexivity.
  - vm_compute. reflexivity.
  - split; [vm_compute; discriminate|vm_compute; reflexivity].
Defined.

Lemma sample_blocks_ok : blocks_ok sample_env (blocks (sample_spec true)).
Proof.
  apply (run_blocks_ok sample_env sample_one_name (sample_options true) sample_calls
    {| blocks := []; names := FileWriter.reverse_identifier_map (sample_state true); seeked := FileWriter.last_seek_block (sample_state true) |}).
  - vm_compute. reflexivity.
  - exact (sample_calls_ok true).
  - by split.
  - vm_compute. reflexivity.
Qed.

Lemma index_knows_every_record_witness :
  exists s i, FileReader.Open true (log_bytes (closing (sample_options true) (blocks (sample_spec true)))) = Done s /\
    FileReader.find_record s (text_of "imu") = Done (Some i, s) /\ is_record sample_env s 7 i.
Proof.
  refine (index_knows_every_record sample_env sample_one_name true (sample_options true)
    (blocks (sample_spec true)) 7 (text_of "imu") bool_schema sample_blocks_ok _ eq_refl _ _ _).
  - vm_compute. reflexivity.
  - vm_compute. discriminate.
  - vm_compute. reflexivity.
  - vm_compute. set_solver.
Defined.
