(* ===== verification/LogSeek.v ===== *)
(** * FileReader: seek blocks

    A seek block that was written is recognised where it is, with its time and
    the last place of every record before it; and the search for the marker
    has blocks it cannot find. *)
From stdpp Require Import gmap sorting strings.
From S2P Require Import Prelude Varuint Streams TimeConversions TelemetryFormat Archive Schema Tokenizer Register FileWriter FileReader LogFormat FileWriterTheory FileWriterOps LogWriter LogProperties FileReaderTheory LogReader LogScan LogIndex LogRoundtrip.
#[local] Open Scope Z_scope.
Import TelemetryReader.

Section seek.
Import FileReader.
Context `{CrcLaws} `{LogClock} `{SnappyLaws}.
Implicit Types (s : State) (l bl : list block).
Abbreviation crc_block := (BlockStream.t (CrcStream.reader FileStream.t)).

(** What the marker says of one identifier: the first mention counts. *)
Definition marked (ids : gmap Z nat) (at_ : Z) (r : gmap nat Z) (e : Z * Z) : gmap nat Z :=
  match ids !! e.1 with
  | Some record =>
      match r !! record with Some _ => r | None => <[record := s64 (u64 (at_ - e.2))]> r end
  | None => r
  end.

Definition entry_ok (ids : gmap Z nat) (e : Z * Z) : Prop :=
  in_u 64 e.1 /\ in_u 64 e.2 /\ is_Some (ids !! e.1).

Lemma read_entry_spec (R : CrcStream.reader FileStream.t -> list byte -> list byte -> Prop) behind (HR : exact (block_at R behind)) ids at_ r e (stream : crc_block) k tail :
  entry_ok ids e -> block_at R behind stream k (entry_offset_bytes e ++ tail) ->
  exists stream', read_entry at_ ids (r, stream) = Done (marked ids at_ r e, stream') /\
    block_at R behind stream' (k ++ entry_offset_bytes e) tail.
Proof.
  intros (Hi & Ho & [record Hr]) Hb. unfold read_entry, marked, entry_offset_bytes in *.
  rewrite <- app_assoc in Hb.
  destruct (gets_value_of _ _ _ _ (gets_varuint _ HR e.1 Hi) _ _ _ Hb) as (s1 & -> & R1). rewrite bind_done.
  destruct (gets_value_of _ _ _ _ (gets_varuint _ HR e.2 Ho) _ _ _ R1) as (s2 & -> & R2). rewrite bind_done.
  rewrite Hr. exists s2. split; [done|]. by rewrite app_assoc.
Qed.

(** The eight bytes that are searched for. *)
Definition kMarkerBytes : list byte := le_split 8 FileWriter.kSeekMarkerValue.

(** Where the last byte of the marker of a seek block is. *)
Definition marker_end (pre : list block) (time : Z) (es : list (Z * Z)) : Z :=
  zlen (log_bytes pre) + (1 + vu_len (zlen (seek_body time es 0 0))) + 7.

(** A seek block that was written is recognised: with the file behind the
    eight bytes of its marker, [EvaluateSeekMarker] finds where the block
    starts, verifies its checksum, and returns its time and, for every record it
    lists, the place of that record's last data before it. *)
Theorem seek_block_is_recognised s bl pre time es post :
  bl = pre ++ BSeek time es :: post -> small bl -> FileStream.contents (file s) = log_bytes bl ->
  FileStream.offset (file s) = marker_end pre time es + 1 -> start_ s <= zlen (log_bytes pre) ->
  in_s 64 time -> Forall (entry_ok (id_to_record s)) es ->
  exists s', EvaluateSeekMarker (marker_end pre time es) s =
    Done (Some {| marker_timestamp := ConvertEpochMicrosecondsToPtime time;
                  marker_index := zlen (log_bytes pre);
                  seek_result := fold_left (marked (id_to_record s) (zlen (log_bytes pre))) es ∅ |}, s').
Proof.
  intros E Hsm Hc Ho Hst Ht Hes. unfold EvaluateSeekMarker, marker_end in *.
  set (b := BSeek time es) in *. set (n := zlen (seek_body time es 0 0)) in *.
  set (c := log_bytes bl) in *. pose proof (small_file bl Hsm) as Hfs.
  assert (Hzb : zlen (encode b) < 2 ^ 42) by (rewrite E in Hsm; by eapply small_block).
  pose proof (zlen_body_le b) as Hbody. cbn [block_body b] in Hbody. unfold seek_body0 in Hbody.
  rewrite zlen_seek_body in Hbody. fold n in Hbody.
  assert (Hn : 0 <= n < 2 ^ 42) by (pose proof (zlen_nonneg (seek_body time es 0 0)); unfold n in *; lia).
  pose proof (vu_len_42 n Hn) as Hvu. pose proof (vu_len_pos n ltac:(lia)) as Hvu1.
  set (hs := 1 + vu_len n) in *.
  set (crc := crc32 (block_bytes kSeekMarker (seek_body0 time es 0))) in *.
  set (hd := vbytes kSeekMarker ++ vbytes n).
  assert (Hhd : zlen hd = hs) by (unfold hd; rewrite zlen_app, (zlen_vbytes n) by (unfold in_u; lia); done).
  set (tail := vbytes 0 ++ time_bytes time ++ vbytes (zlen es) ++ concat (map entry_offset_bytes es)).
  set (rest := concat (map encode post)).
  assert (Eblock : encode b ++ rest = hd ++ kMarkerBytes ++ le_split 4 crc ++ le_split 1 hs ++ tail ++ rest).
  { rewrite encode_body. cbn [block_type block_body b]. fold crc. unfold seek_body0. fold n. fold hs.
    unfold block_bytes. rewrite zlen_seek_body. fold n. rewrite seek_body_cut. fold tail.
    unfold hd, kMarkerBytes. by rewrite <- !app_assoc. }
  assert (Ec : c = log_bytes pre ++ encode b ++ rest) by (unfold c; by rewrite E, log_split).
  assert (H0' : file_at c (file s) [] (le_split 4 crc ++ le_split 1 hs ++ tail ++ rest)).
  { split; [exact Hc|]. exists (log_bytes pre ++ hd ++ kMarkerBytes).
    split; [rewrite Ec, Eblock; by rewrite <- !app_assoc|].
    rewrite Ho, !zlen_app, Hhd. change (zlen kMarkerBytes) with 8. lia. }
  pose proof (exact_file c) as HF.
  destruct (gets_uint _ HF 4 crc (crc32_range _) _ _ _ H0') as (f1 & -> & R1). rewrite bind_done.
  destruct (gets_value_of _ _ _ _ (gets_uint _ HF 1 hs ltac:(unfold in_u; lia)) _ _ _ R1) as (f2 & -> & R2).
  rewrite bind_done. rewrite (proj2 (Z.ltb_ge 10 hs)) by lia.
  replace (zlen (log_bytes pre) + hs + 7 - 7 - hs) with (zlen (log_bytes pre)) by lia.
  rewrite (proj2 (Z.ltb_ge _ (start_ s))) by lia.
  destruct (Seek_file c f2 (log_bytes pre) _ (proj1 R2) Ec) as (f3 & -> & R3). rewrite bind_done.
  assert (R3' : crc_at (file_at c) (CrcStream.make_reader f3) [] (block_bytes kSeekMarker (block_body b) ++ rest)).
  { rewrite encode_body in R3. split; [exact R3|]. cbn. by rewrite process_nil. }
  assert (Hb63 : zlen (block_body b) < 2 ^ 63) by (pose proof (zlen_body_le b); lia).
  destruct (open_block (crc_at (file_at c)) (exact_crc _ HF) _ _ _ _ _ false (block_type_range b) Hb63 R3')
    as (s1 & -> & RB). rewrite bind_done. cbn [type size]. change (block_type b) with kSeekMarker.
  change (kSeekMarker =? kSeekMarker) with true. cbn [negb].
  set (stream := BlockStream.make _ _) in *. change (block_type b) with kSeekMarker in RB.
  pose proof (exact_block _ rest (exact_crc _ HF)) as HX. cbn [block_body b] in RB. unfold seek_body0 in RB.
  fold n hs crc in RB. rewrite zlen_seek_body in RB. fold n hd in RB. rewrite seek_body_cut in RB.
  fold tail in RB. rewrite app_nil_l in RB.
  destruct (gets_value_of _ _ _ _ (gets_ReadScalar _ HX 8 (le_split 8 FileWriter.kSeekMarkerValue) eq_refl)
    _ _ _ RB) as (s2 & -> & RB2). rewrite bind_done.
  destruct (read_crc_spec c rest s2 _ crc _ (crc32_range _) RB2) as (s3 & -> & RB3). rewrite bind_done.
  destruct (gets_value_of _ _ _ _ (gets_uint _ HX 1 hs ltac:(unfold in_u; lia)) _ _ _ RB3) as (s4 & -> & RB4).
  rewrite bind_done. unfold tail in RB4.
  destruct (gets_value_of _ _ _ _ (gets_varuint _ HX 0 zero_u64) _ _ _ RB4) as (s5 & -> & RB5).
  rewrite bind_done. cbn [negb Z.eqb].
  destruct (gets_value_of _ _ _ _ (gets_timestamp _ HX time Ht) _ _ _ RB5) as (s6 & -> & RB6).
  rewrite bind_done.
  assert (Hnes : in_u 64 (zlen es)).
  { pose proof (zlen_seek_entries time es 0 0). fold n in H5. pose proof (zlen_nonneg es). unfold in_u. lia. }
  destruct (gets_value_of _ _ _ _ (gets_varuint _ HX (zlen es) Hnes) _ _ _ RB6) as (s7 & -> & RB7).
  rewrite bind_done. rewrite <- (app_nil_r (concat (map entry_offset_bytes es))) in RB7.
  destruct (times_elements _ (read_entry (zlen (log_bytes pre)) (id_to_record s))
    (marked (id_to_record s) (zlen (log_bytes pre))) entry_offset_bytes (entry_ok (id_to_record s))
    (fun r e st k t Hx Hr => read_entry_spec _ rest HX _ _ r e st k t Hx Hr) es ∅ s7 _ _ Hes RB7)
    as (s8 & -> & RB8). rewrite bind_done.
  destruct (close_done _ _ _ _ RB8) as [Ecl [_ Ecrc]]. pose proof (proj2 RB8) as Hm.
  change (zlen (@nil byte)) with 0 in Hm. rewrite Hm, Ecl, bind_done. cbn [negb Z.eqb].
  assert (Eq : (crc =? u32 (checksum (CrcStream.rcrc (BlockStream.base s8)))) = true).
  { apply Z.eqb_eq. rewrite Ecrc. unfold crc, crc32, crc_of. do 3 f_equal.
    unfold block_bytes, seek_body0. rewrite zlen_seek_body. fold n. fold hs. rewrite seek_body_cut.
    unfold hd. by rewrite <- !app_assoc. }
  rewrite Eq. cbn [negb]. by eexists.
Qed.
End seek.

(** A log with a seek block after one record, as it is read by a scan. *)
Definition marked_blocks : list block := [
  BSchema 1 (text_of "pose") bool_schema;
  BData 1 (Some 0) (Some 1000) true false (text_of "hello");
  BSeek 1100 [(1, 16)]].

Definition marked_state : FileReader.State :=
  match FileReader.Open true (log_bytes marked_blocks) ≫= FileReader.FullScan with
  | Done s => FileReader.with_file {| FileStream.contents := log_bytes marked_blocks;
      FileStream.offset := marker_end (take 2 marked_blocks) 1100 [(1, 16)] + 1;
      FileStream.gcount := 0 |} s
  | Faulted _ => fresh_state true (FileStream.make [])
  end.

Lemma seek_block_is_recognised_witness :
  exists s', FileReader.EvaluateSeekMarker (marker_end (take 2 marked_blocks) 1100 [(1, 16)]) marked_state =
    Done (Some {| FileReader.marker_timestamp := ConvertEpochMicrosecondsToPtime 1100;
                  FileReader.marker_index := zlen (log_bytes (take 2 marked_blocks));
                  FileReader.seek_result := fold_left (marked (FileReader.id_to_record marked_state)
                    (zlen (log_bytes (take 2 marked_blocks)))) [(1, 16)] ∅ |}, s').
Proof.
  refine (seek_block_is_recognised marked_state marked_blocks (take 2 marked_blocks) 1100 [(1, 16)] []
    eq_refl _ _ _ _ _ _).
  - vm_compute. reflexivity.
  - vm_compute. reflexivity.
  - vm_compute. reflexivity.
  - vm_compute. discriminate.
  - vm_compute. split; [discriminate|reflexivity].
  - repeat constructor; try (vm_compute; discriminate). vm_compute. by eexists.
Defined.

(** ** A block the search misses

    Twenty-five records whose last data is 200 bytes back and one whose last
    data is 100 bytes back make a body of 100 bytes: the byte before the marker
    is the first byte of the marker. *)
Definition hidden_entries : list (Z * Z) :=
  map (fun i => (Z.of_nat i, 200)) (seq 1 25) ++ [(26, 100)].
Definition hidden_blocks : list block := [BSeek 1100 hidden_entries].

(** The search for a seek marker does not take a byte that ended a partial
    match for the beginning of a new one: in a log whose seek block has a body
    of 0x64 bytes the marker is preceded by its own first byte, and the search
    over the whole file does not find the block, although it is there. *)
Theorem find_seek_marker_misses :
  zlen (seek_body 1100 hidden_entries 0 0) = 0x64 /\
  exists s s', FileReader.Open true (log_bytes hidden_blocks) = Done s /\
    FileReader.FindSeekMarker (FileReader.start_ s) (zlen (log_bytes hidden_blocks)) s = Done (None, s').
Proof.
  split; [vm_compute; reflexivity|].
  destruct (FileReader.Open true (log_bytes hidden_blocks)) as [s|] eqn:E; [|vm_compute in E; discriminate].
  destruct (FileReader.FindSeekMarker (FileReader.start_ s) (zlen (log_bytes hidden_blocks)) s)
    as [[[m|] s']|f] eqn:E2.
  - exfalso. vm_compute in E. injection E as <-. vm_compute in E2. discriminate.
  - by exists s, s'.
  - exfalso. vm_compute in E. injection E as <-. vm_compute in E2. discriminate.
Qed.

(** A block whose body is of another size is found by the same search. *)
Example found_marker :
  match s ← FileReader.Open true (log_bytes marked_blocks); s ← FileReader.FullScan s;
        FileReader.FindSeekMarker 9 (zlen (log_bytes marked_blocks)) s with
  | Done (Some m, _) => FileReader.marker_index m = zlen (log_bytes (take 2 marked_blocks))
  | _ => False
  end.
Proof. vm_compute. reflexivity. Qed.
