(* ===== verification/LogTotal.v ===== *)
(** * FileReader ends on every file

    Whatever bytes a file has: opening it, scanning it, going over its items
    and searching it by time end, with a result or with what the source throws. *)
From stdpp Require Import gmap.
From S2P Require Import Prelude Varuint Streams TimeConversions TelemetryFormat Archive Schema SchemaTotal FileWriter FileReader.
#[local] Open Scope Z_scope.
Import TelemetryReader.

(** ** Streams that get shorter

    [ahead] is what is left to read; a read takes what it returns of it. *)
Class ReadMeasure (S : Type) `{ReadStream S} := {
  m_ok : S -> Prop;
  ahead : S -> Z;
  ahead_nonneg s : 0 <= ahead s;
  m_read s n : m_ok s -> fine (rs_read s n) (fun p =>
    m_ok p.2 /\ zlen p.1 + ahead p.2 <= ahead s /\ rs_gcount p.2 = zlen p.1);
  m_ignore s n s' : m_ok s -> 0 <= n -> rs_ignore s n = Done s' -> m_ok s' /\ ahead s' <= ahead s;
}.

(** [m] takes at least [k] bytes when it finds something. *)
Definition takes {S} `{ReadMeasure S} {A} (k : Z) (m : outcome (A * S)) (s : S) : Prop :=
  fine m (fun p => m_ok p.2 /\ k + ahead p.2 <= ahead s).
Definition takes_some {S} `{ReadMeasure S} {A} (k : Z) (m : outcome (option A * S)) (s : S) : Prop :=
  fine m (fun p => m_ok p.2 /\ (if p.1 is Some _ then k else 0) + ahead p.2 <= ahead s).

Section measure.
Context {S : Type} `{ReadMeasure S}.
Implicit Types s : S.

Lemma RawRead_takes s n : 0 <= n -> m_ok s -> takes_some n (RawRead s n) s.
Proof.
  intros Hn Hs. unfold RawRead. eapply fine_bind; [by apply m_read|]. intros [bs s'] (Hs' & Ha & Hg).
  cbn [fst snd] in *. cbn. split; [exact Hs'|]. pose proof (zlen_nonneg bs). rewrite Hg.
  destruct (Z.eqb_spec (zlen bs) n); lia.
Qed.

Lemma map_takes {A B} (h : A -> B) k (m : outcome (option A * S)) s :
  takes_some k m s -> takes_some k ('(x, s) ← m; Done (option_map h x, s)) s.
Proof. intros Hm. eapply fine_bind; [exact Hm|]. intros [[x|] s'] Hp; exact Hp. Qed.

Lemma ReadScalar_takes n s : m_ok s -> takes_some (Z.of_nat n) (ReadScalar n s) s.
Proof.
  intros Hs. unfold ReadScalar. eapply fine_bind; [apply RawRead_takes; [lia|done]|].
  intros [[b|] s'] Hp; exact Hp.
Qed.

Lemma ReadVaruint_loop_takes fuel : forall s result pos,
  m_ok s -> (0 < fuel)%nat -> 64 <= pos + 7 * (Z.of_nat fuel - 1) ->
  takes_some 1 (ReadVaruint_loop fuel s result pos) s.
Proof.
  induction fuel as [|fuel IH]; intros s result pos Hs Hf Hp; [lia|]. cbn [ReadVaruint_loop].
  eapply fine_bind; [by apply ReadScalar_takes|]. intros [[v|] s1] [Hs1 Ha]; cbn [fst snd] in *; [|by split].
  unfold shift_left_u64. destruct (Z.ltb_spec pos 64); [|done]. rewrite bind_done. cbv zeta.
  destruct (0x80 <=? v); [|by split].
  eapply fine_mono; [apply IH; [done|lia|lia]|]. intros [[w|] s2] [Hs2 Ha2]; cbn [fst snd] in *;
    (split; [exact Hs2|lia]).
Qed.

Lemma ReadVaruint_takes s : m_ok s -> takes_some 1 (ReadVaruint s) s.
Proof. intros Hs. apply ReadVaruint_loop_takes; [done|lia|lia]. Qed.

Lemma value_takes {A} k (m : outcome (option A * S)) s :
  takes_some k m s -> takes k (BinarySchemaParser.value_of m) s.
Proof. intros Hm. eapply fine_bind; [exact Hm|]. by intros [[a|] s']. Qed.

Lemma uint_takes s : m_ok s -> takes 1 (BinarySchemaParser.value_of (ReadVaruint s)) s.
Proof. intros Hs. by apply value_takes, ReadVaruint_takes. Qed.

Lemma scalar_takes n s : m_ok s -> takes (Z.of_nat n) (BinarySchemaParser.value_of (ReadScalar n s)) s.
Proof. intros Hs. by apply value_takes, ReadScalar_takes. Qed.

Lemma scalar_nonneg n s : m_ok s ->
  fine (BinarySchemaParser.value_of (ReadScalar n s)) (fun p => m_ok p.2 /\ 0 <= p.1).
Proof.
  intros Hs. pose proof (ReadScalar_takes n s Hs) as Ht. unfold BinarySchemaParser.value_of.
  destruct (ReadScalar n s) as [[[v|] s']|] eqn:E; [| done | done]. destruct Ht as [Hs' _]. cbn.
  split; [exact Hs'|]. unfold ReadScalar, RawRead in E. inv_bind. destruct r as [m s1].
  injection E as Ev _. destruct m as [bs|]; [|done]. injection Ev as <-.
  pose proof (le_combine_bound bs). lia.
Qed.

Lemma timestamp_takes `{BoostTime} s : m_ok s -> takes 8 (BinarySchemaParser.value_of (ReadTimestamp s)) s.
Proof.
  intros Hs. apply value_takes. unfold ReadTimestamp, ReadSigned.
  apply map_takes, map_takes. by apply (ReadScalar_takes 8).
Qed.

Lemma string_takes s : m_ok s -> takes 0 (BinarySchemaParser.value_of (ReadString s)) s.
Proof.
  intros Hs. apply value_takes. unfold ReadString. eapply fine_bind; [by apply ReadVaruint_takes|].
  intros [[n|] s1] [Hs1 Ha]; cbn [fst snd] in *; [|split; [done|cbn; lia]].
  eapply (fine_bind _ _ (fun _ => True)); [by apply fine_assert|]. intros _ _. unfold RawRead.
  eapply fine_bind; [by apply m_read|]. intros [bs s2] (Hs2 & Ha2 & _). cbn [fst snd] in *.
  pose proof (zlen_nonneg bs). split; [done|]. cbn. case_match; lia.
Qed.

Lemma read_string_takes n s : m_ok s -> takes 0 (read_string n s) s.
Proof.
  intros Hs. unfold read_string, string_resize. eapply fine_bind with (P := fun _ => True); [by case_match|].
  intros _ _. eapply fine_bind; [by apply m_read|]. intros [bs s2] (Hs2 & Ha2 & _). cbn [fst snd] in *.
  pose proof (zlen_nonneg bs). split; [done|]. cbn. lia.
Qed.

(** A header takes two bytes. *)
Lemma ReadHeader_takes s throw : m_ok s -> takes_some 2 (FileReader.ReadHeader s throw) s.
Proof.
  intros Hs. unfold FileReader.ReadHeader. eapply fine_bind; [by apply ReadVaruint_takes|].
  intros [[t|] s1] [Hs1 Ha]; cbn [fst snd] in *; [|by split].
  destruct (_ || _); [destruct throw; [done|split; [done|cbn; lia]]|].
  eapply fine_bind; [by apply uint_takes|]. intros [n s2] [Hs2 Ha2]. cbn [fst snd] in *.
  split; [done|]. cbn. lia.
Qed.

(** A loop over a result and the stream. *)
Lemma times_takes {A} (body : A * S -> outcome (A * S)) n :
  (forall a s, m_ok s -> takes 0 (body (a, s)) s) -> forall a s, m_ok s -> takes 0 (times body n (a, s)) s.
Proof.
  intros Hb. destruct n as [|p|p]; intros a s Hs; [by split| |by split]. cbn [times].
  assert (Hseq : forall (m : outcome (A * S)) (k : A * S -> outcome (A * S)) s,
    takes 0 m s -> (forall a s', m_ok s' -> takes 0 (k (a, s')) s') -> takes 0 (m ≫= k) s).
  { intros m k s0 Hm Hk. eapply fine_bind; [exact Hm|]. intros [a' s'] [Hs' Ha].
    eapply fine_mono; [by apply Hk|]. intros [a2 s2] [Hs2 Ha2]. cbn [fst snd] in *. split; [done|lia]. }
  revert a s Hs. induction p as [p IH|p IH|]; intros a s Hs; cbn [times_pos]; [| |by apply Hb].
  - apply Hseq; [by apply Hb|]. intros a1 s1 Hs1. by apply Hseq; [apply IH|].
  - by apply Hseq; [apply IH|].
Qed.
End measure.

(** ** The streams of the reader *)
Section instances.
Context (c : list byte) (lo : Z).

(** A file of contents [c], at [lo] or behind it. *)
Program Definition file_measure : ReadMeasure FileStream.t := {|
  m_ok f := FileStream.contents f = c /\ 0 <= FileStream.offset f /\ lo <= FileStream.offset f;
  ahead f := Z.max 0 (zlen c - FileStream.offset f);
|}.
Next Obligation. intros. lia. Qed.
Next Obligation.
  intros f n (Hc & H0 & Hlo). cbn. unfold FileStream.read. rewrite Hc. cbn.
  set (bs := ztake n (zdrop (FileStream.offset f) c)). pose proof (zlen_nonneg bs).
  assert (zlen bs <= Z.max 0 (zlen c - FileStream.offset f)).
  { unfold bs. destruct (Z.lt_ge_cases n 0).
    - unfold ztake. replace (Z.to_nat n) with 0%nat by lia. rewrite take_0, zlen_nil. lia.
    - rewrite zlen_take, zlen_drop by lia. lia. }
  split; [split; [done|lia]|]. split; [lia|done].
Qed.
Next Obligation.
  intros f n f' (Hc & H0 & Hlo) Hn. cbn. unfold FileStream.ignore. case_match; [done|]. intros [= <-]. cbn.
  split; [split; [done|lia]|lia].
Qed.
End instances.

Section wrappers.
Context {S : Type} `{HS : ReadMeasure S} `{CrcType}.

(** Once [start] has been passed, what remains of a block is not negative:
    a read or a jump past its end is refused. *)
Program Definition block_measure (start : Z) : ReadMeasure (BlockStream.t S) := {|
  m_ok s := m_ok (BlockStream.base s) /\
    (ahead (BlockStream.base s) < start -> 0 <= BlockStream.remaining s);
  ahead s := ahead (BlockStream.base s);
|}.
Next Obligation. intros. apply ahead_nonneg. Qed.
Next Obligation.
  intros start s n [Hs _]. cbn. unfold BlockStream.read.
  eapply (fine_bind _ _ (fun _ => n <= BlockStream.remaining s)).
  { apply fine_assert. apply Z.leb_le. }
  intros _ Hn. eapply fine_bind; [by apply m_read|]. intros [bs b] (Hb & Hp). split; [|exact Hp].
  split; [exact Hb|]. cbn. lia.
Qed.
Next Obligation.
  intros start s n s' [Hs _] Hn. cbn. unfold BlockStream.ignore. intros E. inv_bind. subst. cbn.
  match goal with Hr : rs_ignore _ _ = Done _ |- _ => destruct (m_ignore _ _ _ Hs Hn Hr) as [Hb Ha] end.
  split; [split; [exact Hb|]|exact Ha]. intros _. cbn. apply Z.leb_le in Hstep. lia.
Qed.

#[export] Program Instance crc_measure : ReadMeasure (CrcStream.reader S) := {|
  m_ok s := m_ok (CrcStream.rbase s);
  ahead s := ahead (CrcStream.rbase s);
|}.
Next Obligation. intros. apply ahead_nonneg. Qed.
Next Obligation.
  intros s n Hs. cbn. unfold CrcStream.reader_read.
  eapply fine_bind; [by apply m_read|]. intros [bs b] Hp. exact Hp.
Qed.
Next Obligation.
  intros s n s' Hs Hn. cbn. unfold CrcStream.reader_ignore. rewrite (proj2 (Z.ltb_ge n 0)) by lia.
  rewrite bind_done. pose proof (m_read (CrcStream.rbase s) n Hs) as Hr.
  destruct (rs_read (CrcStream.rbase s) n) as [[bs b]|]; [|done]. destruct Hr as (Hb & Ha & _).
  rewrite bind_done. intros [= <-]. cbn [fst snd] in *. pose proof (zlen_nonneg bs). cbn. split; [done|lia].
Qed.

Lemma close_fine (s : BlockStream.t S) : m_ok (BlockStream.base s) ->
  fine (BlockStream.close s) (fun b => m_ok b /\ ahead b <= ahead (BlockStream.base s)).
Proof.
  intros Hs. unfold BlockStream.close. destruct (Z.ltb_spec 0 (BlockStream.remaining s)); [|by split].
  destruct (rs_ignore (BlockStream.base s) (BlockStream.remaining s)) as [b|] eqn:E; [|done].
  refine (m_ignore (BlockStream.base s) _ _ Hs _ E). lia.
Qed.
End wrappers.

(** ** The reader *)
Section reader.
Import FileReader.
Context `{CrcType} `{LogClock} `{Snappy}.
Implicit Types s : State.

(** The contents of the file and the place of the first block do not change. *)
Context (c : list byte) (st : Z).
Definition holds_file s : Prop := FileStream.contents (file s) = c /\ start_ s = st.

Lemma holds_with_file s f : holds_file s -> FileStream.contents f = c -> holds_file (with_file f s).
Proof. by intros [_ Hst] Hf. Qed.

(** [file_measure] as the instance, at a place. *)
Lemma ahead_step lo (f f' : FileStream.t) k :
  @ahead _ _ (file_measure c lo) f = Z.max 0 (zlen c - FileStream.offset f) ->
  0 < k -> k + @ahead _ _ (file_measure c lo) f' <= @ahead _ _ (file_measure c lo) f ->
  FileStream.offset f + k <= zlen c /\ FileStream.offset f + k <= FileStream.offset f'.
Proof. intros _ Hk. cbn. lia. Qed.

Lemma ProcessSchema_fine lo start stream wf s :
  let M := block_measure (HS := file_measure c lo) start in
  @m_ok _ _ M stream ->
  fine (ProcessSchema stream wf s) (fun p =>
    let '(_, stream', _, s') := p in
    @m_ok _ _ M stream' /\ @ahead _ _ M stream' <= @ahead _ _ M stream /\ start_ s' = start_ s).
Proof.
  intros M Hs. unfold ProcessSchema.
  eapply fine_bind; [exact (@uint_takes _ _ M stream Hs)|]. intros [id s1] [K1 A1]. cbn [fst snd] in *.
  destruct (id_to_record s !! id) as [i|]; [split; [done|]; split; [lia|done]|].
  eapply fine_bind; [exact (@uint_takes _ _ M s1 K1)|]. intros [fl s2] [K2 A2]. cbn [fst snd] in *.
  destruct (negb (fl =? 0)); [done|].
  eapply fine_bind; [exact (@string_takes _ _ M s2 K2)|]. intros [nm s3] [K3 A3]. cbn [fst snd] in *.
  eapply fine_bind; [exact (@read_string_takes _ _ M _ s3 K3)|]. intros [raw s4] [K4 A4]. cbn [fst snd] in *.
  eapply (fine_bind _ _ (fun _ => True)).
  - pose proof (parse_ends raw nm). by destruct (BinarySchemaParser.parse raw nm); cbn; [|intros ->].
  - intros e _. split; [done|]. split; [lia|done].
Qed.

(** [ReadUntil] goes forward: from [lo] it finds an item that starts there or
    behind, and says the next is at least two bytes further. *)
Definition found lo (p : Z * Z * Filter * State) : Prop :=
  let '(start, next, _, s) := p in
  holds_file s /\ (start = -1 /\ next = -1 \/ lo <= start /\ start + 2 <= next /\ start + 2 <= zlen c).

Lemma ReadUntil_loop_fine lo fuel : forall filter s, start_ s = st ->
  @m_ok _ _ (file_measure c lo) (file s) ->
  @ahead _ _ (file_measure c lo) (file s) < Z.of_nat fuel ->
  fine (ReadUntil_loop fuel filter s) (found lo).
Proof.
  induction fuel as [|fuel IH]; intros filter s Est Hs Hf.
  { pose proof (@ahead_nonneg _ _ (file_measure c lo) (file s)). lia. }
  cbn [ReadUntil_loop]. set (M := file_measure c lo) in *.
  eapply fine_bind; [exact (@ReadHeader_takes _ _ M (file s) true Hs)|].
  intros [[[ty sz]|] f] [Kf A0]; cbn [fst snd] in *; [|split; [split; [apply Kf|exact Est]|by left]].
  cbn [type size]. destruct (ahead_step lo (file s) f 2 eq_refl ltac:(lia) A0) as [Hlen Hoff].
  set (MB := block_measure (HS := M) (@ahead _ _ M f)).
  assert (Hst : @m_ok _ _ MB (BlockStream.make f (s64 sz))) by (split; [exact Kf|cbn; lia]).
  assert (Hahead : @ahead _ _ MB (BlockStream.make f (s64 sz)) = @ahead _ _ M f) by done.
  assert (Hnext : forall filter s1 b, start_ s1 = st -> @m_ok _ _ M (BlockStream.base b) ->
    @ahead _ _ M (BlockStream.base b) <= @ahead _ _ M f ->
    fine (g ← BlockStream.close b; ReadUntil_loop fuel filter (with_file g s1)) (found lo)).
  { intros fl s1 b E1 Hb Ha. eapply fine_bind; [exact (@close_fine _ _ M b Hb)|].
    intros g [Hg Hag]. apply IH; [exact E1|exact Hg|]. cbn [file with_file]. lia. }
  destruct (ty =? kData); [|destruct (ty =? kSchema)].
  - set (s1 := if _ <? _ then _ else _). assert (E1 : start_ s1 = st) by (unfold s1; by case_match).
    eapply fine_bind; [exact (@uint_takes _ _ MB _ Hst)|]. intros [id b] [[Kb Hrem] Ab]. cbn [fst snd] in *.
    change (@ahead _ _ MB b) with (@ahead _ _ M (BlockStream.base b)) in Ab. rewrite Hahead in Ab.
    assert (Hr : 0 <= BlockStream.remaining b) by (apply Hrem; lia).
    destruct (check filter id); [|apply Hnext; [exact E1|exact Kb|lia]].
    eapply fine_bind; [exact (@close_fine _ _ M b Kb)|]. intros g [Hg Hag].
    split; [split; [exact (proj1 Hg)|exact E1]|]. right. unfold FileStream.Tell.
    destruct (ahead_step lo (file s) (BlockStream.base b) 2 eq_refl ltac:(lia)) as [_ Hb]; [fold M; lia|].
    destruct Hs as (_ & _ & Hlo). lia.
  - eapply fine_bind; [exact (ProcessSchema_fine lo _ _ (Some filter) s Hst)|].
    intros [[[i b] wf] s1] ([Kb _] & Ab & E1). apply Hnext; [by rewrite E1|exact Kb|].
    change (@ahead _ _ (block_measure _) b) with (@ahead _ _ M (BlockStream.base b)) in Ab. exact Ab.
  - apply Hnext; [exact Est|exact Kf|cbn; lia].
Qed.

Lemma Seek_fine index f : FileStream.contents f = c ->
  fine (FileStream.Seek index f) (fun g =>
    FileStream.contents g = c /\ FileStream.offset g = index /\ 0 <= index).
Proof. intros Hc. unfold FileStream.Seek. destruct (Z.ltb_spec index 0); [done|]. by cbn. Qed.

Lemma ReadUntil_fine lo filter s : holds_file s ->
  fine (ReadUntil lo filter s) (fun p => found lo p /\ 0 <= lo).
Proof.
  intros [Hc Hst]. unfold ReadUntil. eapply fine_bind; [by apply Seek_fine|]. intros f (Hf & Ho & H0').
  eapply fine_mono; [|intros p Hp; exact (conj Hp H0')].
  apply ReadUntil_loop_fine; cbn [file with_file]; [exact Hst|..].
  - cbn. split; [done|lia].
  - cbn. rewrite Hf, Ho. unfold zlen. lia.
Qed.

(** *** Reading an item *)
Section crc_block.
#[local] Instance MC : ReadMeasure (CrcStream.reader FileStream.t) :=
  crc_measure (HS := file_measure c 0).
#[local] Instance MX : ReadMeasure (BlockStream.t (CrcStream.reader FileStream.t)) :=
  block_measure (HS := MC) 0.

Lemma MX_ok (stream : BlockStream.t (CrcStream.reader FileStream.t)) :
  m_ok (BlockStream.base stream) <-> m_ok stream.
Proof. split; [intros Hs; split; [exact Hs|]|by intros []]. pose proof (ahead_nonneg (BlockStream.base stream)). lia. Qed.

Lemma read_crc_fine stream : m_ok stream -> fine (read_crc stream) (fun p => m_ok p.2).
Proof.
  intros [Hs _]. unfold read_crc. cbn zeta.
  eapply fine_bind; [exact (@scalar_takes _ _ (file_measure c 0) 4 (under stream) Hs)|].
  intros [v f] [Hf _]. apply MX_ok. exact Hf.
Qed.

Lemma Read_fine index s : holds_file s -> fine (Read index s) (fun p => holds_file p.2).
Proof.
  intros [Hc Est]. unfold Read. eapply fine_bind; [by apply Seek_fine|]. intros f (Hf & Ho & H0').
  eapply fine_bind; [refine (ReadHeader_takes (CrcStream.make_reader f) true _); split; [exact Hf|cbn; lia]|].
  intros [[[ty sz]|] r] [Hr _]; cbn [fst snd] in *; [|done].
  eapply (fine_bind _ _ (fun _ => True)); [by apply fine_assert|]. intros _ _. cbv zeta.
  eapply fine_bind; [exact (uint_takes (S := BlockStream.t _) _ (proj1 (MX_ok (BlockStream.make r _)) Hr))|].
  intros [id s1] [K1 _]. cbn [fst snd] in *.
  eapply fine_bind; [exact (uint_takes s1 K1)|]. intros [fl s2] [K2 _]. cbn [fst snd] in *.
  destruct (check_flags fl kPreviousOffset) as [hp f1].
  eapply (fine_bind _ _ (fun b => m_ok b)).
  { destruct hp; [|exact K2]. eapply fine_bind; [exact (ReadVaruint_takes s2 K2)|].
    intros [v b] [Kb _]. exact Kb. }
  intros s3 K3. destruct (check_flags f1 kTimestampFlag) as [ht f2].
  eapply (fine_bind _ _ (fun p => m_ok p.2)).
  { destruct ht; [|exact K3]. eapply fine_mono; [exact (timestamp_takes s3 K3)|]. by intros p []. }
  intros [ts s4] K4. cbn [snd] in K4. destruct (check_flags f2 kChecksum) as [hc f3].
  eapply (fine_bind _ _ (fun p => m_ok p.2)).
  { destruct hc; [|exact K4]. eapply fine_bind; [exact (read_crc_fine s4 K4)|]. by intros [v b]. }
  intros [mc s5] K5. cbn [snd] in K5. destruct (check_flags f3 kSnappy) as [hz f4].
  destruct (negb (f4 =? 0)); [done|].
  eapply fine_bind; [exact (read_string_takes _ s5 K5)|]. intros [d s6] [K6 _]. cbn [fst snd] in *.
  eapply (fine_bind _ _ (fun _ => True)).
  { destruct hz; [|done]. unfold decompress, string_resize. destruct (GetUncompressedLength d); [|done].
    eapply (fine_bind _ _ (fun _ => True)); [by case_match|]. intros _ _. by destruct (RawUncompress d). }
  intros d' _. eapply (fine_bind _ _ (fun _ => True)); [by repeat case_match|]. intros _ _.
  destruct (id_to_record s !! id); [|done].
  eapply fine_bind; [exact (close_fine s6 (proj2 (MX_ok s6) K6))|]. intros b [Hb _].
  split; [exact (proj1 Hb)|exact Est].
Qed.

(** *** Seek blocks *)
Lemma EvaluateSeekMarker_fine index s : holds_file s -> 0 <= FileStream.offset (file s) ->
  fine (EvaluateSeekMarker index s) (fun p => holds_file p.2 /\
    match p.1 with Some m => marker_index m <= index - 7 /\ index - 17 <= marker_index m | None => True end).
Proof.
  intros Hh0 H0'. pose proof Hh0 as [Hc _]. unfold EvaluateSeekMarker. set (MF := file_measure c 0).
  eapply fine_bind; [apply (@ReadScalar_takes _ _ MF 4 (file s)); split; [exact Hc|cbn; lia]|].
  intros [v f] [Hf _]. cbn [fst snd] in *.
  eapply fine_bind; [exact (@scalar_nonneg _ _ MF 1 f Hf)|]. intros [len g] [Hg Hlen]. cbn [fst snd] in *.
  destruct (Z.ltb_spec 10 len); [by split; [apply holds_with_file; [exact Hh0|exact (proj1 Hg)]|]|].
  destruct (_ <? start_ s); [by split; [apply holds_with_file; [exact Hh0|exact (proj1 Hg)]|]|].
  set (possible_start := index - 7 - len) in *.
  eapply fine_bind; [exact (Seek_fine possible_start g (proj1 Hg))|]. intros h (Hh & Ho & Hp).
  eapply fine_bind; [refine (ReadHeader_takes (CrcStream.make_reader h) false _); split; [exact Hh|cbn; lia]|].
  intros [[[ty sz]|] r] [Hr _]; cbn [fst snd] in *; [|by split; [apply holds_with_file; [exact Hh0|exact (proj1 Hr)]|]].
  cbn [type size]. destruct (negb (ty =? kSeekMarker)); [by split; [apply holds_with_file; [exact Hh0|exact (proj1 Hr)]|]|].
  eapply fine_bind; [exact (scalar_takes (S := BlockStream.t _) 8 _ (proj1 (MX_ok (BlockStream.make r _)) Hr))|].
  intros [m s1] [K1 _]. cbn [fst snd] in *.
  eapply fine_bind; [exact (read_crc_fine s1 K1)|]. intros [crc s2] K2. cbn [snd] in K2.
  eapply fine_bind; [exact (scalar_takes 1 s2 K2)|]. intros [hl s3] [K3 _]. cbn [fst snd] in *.
  eapply fine_bind; [exact (uint_takes s3 K3)|]. intros [fl s4] [K4 _]. cbn [fst snd] in *.
  destruct (negb (fl =? 0)); [done|].
  eapply fine_bind; [exact (timestamp_takes s4 K4)|]. intros [ts s5] [K5 _]. cbn [fst snd] in *.
  eapply fine_bind; [exact (uint_takes s5 K5)|]. intros [n s6] [K6 _]. cbn [fst snd] in *.
  eapply fine_bind.
  { apply (times_takes (read_entry possible_start (id_to_record s)) n); [|exact K6]. intros a b Kb.
    unfold read_entry. eapply fine_bind; [exact (uint_takes b Kb)|]. intros [i b1] [Kb1 Ab1]. cbn [fst snd] in *.
    eapply fine_bind; [exact (uint_takes b1 Kb1)|]. intros [o b2] [Kb2 Ab2]. cbn [fst snd] in *.
    destruct (id_to_record s !! i); [|done]. split; [exact Kb2|]. cbn [snd]. lia. }
  intros [res s7] [K7 _]. cbn [fst snd] in *.
  eapply fine_bind; [exact (close_fine s7 (proj2 (MX_ok s7) K7))|]. intros b [Hb _].
  destruct (negb _); [by split; [apply holds_with_file; [exact Hh0|exact (proj1 Hb)]|]|].
  destruct (negb _); [by split; [apply holds_with_file; [exact Hh0|exact (proj1 Hb)]|]|].
  split; [apply holds_with_file; [exact Hh0|exact (proj1 Hb)]|]. cbn [fst marker_index]. unfold possible_start. lia.
Qed.

(** The search goes through the bytes up to where it stops. *)
Lemma FindSeekMarker_loop_fine fuel : forall index stop matched s,
  holds_file s -> 0 <= FileStream.offset (file s) -> 0 <= index -> (0 < fuel)%nat ->
  stop - index < Z.of_nat fuel -> (matched < 8)%nat -> index < stop \/ matched = 0%nat ->
  forall low, low + Z.of_nat matched <= index ->
  fine (FindSeekMarker_loop fuel index stop matched s) (fun p => holds_file p.2 /\
    match p.1 with Some m => low - 10 <= marker_index m /\ marker_index m < stop | None => True end).
Proof.
  induction fuel as [|fuel IH]; intros index stop matched s Hh0 H0' Hi Hf Hn Hm Hstop low Hlow; [lia|].
  pose proof Hh0 as [Hc _]. cbn [FindSeekMarker_loop]. set (MF := file_measure c 0).
  eapply fine_bind; [apply (@m_read _ _ MF (file s) 1); split; [exact Hc|cbn; lia]|].
  intros [bs f] (Hok & _ & _). cbn [fst snd] in *. cbv zeta. destruct Hok as (Hcf & Hof & _).
  pose proof (holds_with_file s f Hh0 Hcf) as Hh1.
  assert (Hgo : forall k s', holds_file s' -> 0 <= FileStream.offset (file s') -> (k < 8)%nat ->
    (k = 0 \/ k = S matched)%nat ->
    fine (if stop <=? index + 1 then Done (None, s')
          else FindSeekMarker_loop fuel (index + 1) stop k s') (fun p => holds_file p.2 /\
    match p.1 with Some m => low - 10 <= marker_index m /\ marker_index m < stop | None => True end)).
  { intros k s' Hs' Ho' Hk Hor. destruct (Z.leb_spec stop (index + 1)); [by split|].
    apply IH; try done; lia. }
  case_bool_decide; [|apply Hgo; [exact Hh1|exact Hof|lia|by left]].
  destruct (Nat.eqb_spec (S matched) 8); [|apply Hgo; [exact Hh1|exact Hof|lia|by right]].
  eapply fine_bind; [exact (EvaluateSeekMarker_fine index (with_file f s) Hh1 Hof)|].
  intros [[m|] s1] [Hs1 Hmk]; cbn [fst snd] in *.
  - split; [exact Hs1|]. cbn [fst]. lia.
  - eapply fine_bind; [exact (Seek_fine index (file s1) (proj1 Hs1))|]. intros g (Hg & Hog & _).
    apply Hgo; [by apply holds_with_file|cbn; lia|lia|by left].
Qed.

Lemma FindSeekMarker_fine index end_ s : holds_file s ->
  fine (FindSeekMarker index end_ s) (fun p => holds_file p.2 /\
    match p.1 with
    | Some m => index - 10 <= marker_index m /\ marker_index m < Z.min (zlen c) end_
    | None => True
    end).
Proof.
  intros Hs. unfold FindSeekMarker. eapply fine_bind; [exact (Seek_fine index (file s) (proj1 Hs))|].
  intros f (Hf & Ho & Hi). unfold FileStream.size. rewrite Hf.
  apply FindSeekMarker_loop_fine; cbn [file with_file]; try lia. by apply holds_with_file.
Qed.
End crc_block.

(** *** Scans, loops over items, and searches *)
Lemma FullScan_fine s : holds_file s -> fine (FullScan s) holds_file.
Proof.
  intros Hs. unfold FullScan. eapply fine_bind; [exact (ReadUntil_fine (start_ s) NoFilter s Hs)|].
  intros [[[a b] f] s'] [[Hs' _] _]. exact Hs'.
Qed.

Lemma ensure_scanned_fine s : holds_file s -> fine (ensure_scanned s) holds_file.
Proof. intros Hs. unfold ensure_scanned. case_match; [exact Hs|by apply FullScan_fine]. Qed.

(** An iterator is at the end, or at a block of the file. *)
Definition iterator (fuel : nat) (index : Z) : Prop :=
  index = -1 \/ 0 <= index /\ index + 2 <= zlen c /\ zlen c - index < Z.of_nat fuel.

Lemma for_items_fine {A} (body : Item -> A -> A * bool) fuel : forall index filter s a,
  holds_file s -> iterator fuel index -> (0 < fuel)%nat ->
  fine (for_items fuel body index filter s a) (fun p => holds_file p.2).
Proof.
  induction fuel as [|fuel IH]; intros index filter s a Hs Hi Hpos; [lia|]. cbn [for_items].
  destruct (Z.eqb_spec index (-1)); [exact Hs|]. destruct Hi as [|(Hi0 & Hi2 & Hif)]; [lia|].
  eapply fine_bind; [exact (Read_fine index s Hs)|]. intros [it s1] Hs1. cbn [snd] in Hs1.
  destruct (body it a) as [a' [|]]; [|exact Hs1].
  eapply (fine_bind _ _ (fun p => let '(i, _, s') := p in holds_file s' /\ iterator fuel i)).
  - unfold advance. eapply fine_bind; [exact (ReadUntil_fine index filter s1 Hs1)|].
    intros [[[b next] f] s2] [[Hs2 Hn] _].
    eapply fine_bind; [exact (ReadUntil_fine next f s2 Hs2)|].
    intros [[[start b'] f'] s3] [[Hs3 Hn'] Hnn]. split; [exact Hs3|]. unfold iterator. lia.
  - intros [[i f] s2] [Hs2 Hi]. apply IH; [exact Hs2|exact Hi|lia].
Qed.

Lemma items_fine {A} o (body : Item -> A -> A * bool) s a :
  holds_file s -> fine (items o body s a) (fun p => holds_file p.2).
Proof.
  intros Hs. unfold items, range_begin. set (i := if _ <? _ then _ else _).
  eapply (fine_bind _ _ (fun p => let '(j, _, s') := p in
    holds_file s' /\ iterator (Datatypes.S (length c)) j)).
  - eapply fine_bind; [exact (ReadUntil_fine i (items_filter o s) s Hs)|].
    intros [[[start next] f] s'] [[Hs' Hn] Hi]. split; [exact Hs'|]. unfold iterator, zlen in *. lia.
  - intros [[j f] s'] [Hs' Hj]. rewrite (proj1 Hs'). apply for_items_fine; [exact Hs'|exact Hj|lia].
Qed.

Lemma Seek_loop_fine time fuel : forall low high result s,
  holds_file s -> 0 <= low -> Z.min (zlen c) high - low < Z.of_nat fuel -> (0 < fuel)%nat ->
  fine (Seek_loop fuel time low high result s) (fun p => holds_file p.2).
Proof.
  induction fuel as [|fuel IH]; intros low high result s Hs Hl Hf Hpos; [lia|]. cbn [Seek_loop].
  unfold kMinSpacing. change (Z.shiftl 1 16) with 65536.
  destruct (Z.ltb_spec 65536 (high - low)) as [Hgap|]; [|exact Hs].
  assert (Hmid : 32768 <= Z.quot (high - low) 2 <= high - low).
  { rewrite Z.quot_div_nonneg by lia. split; [|apply Z.div_le_upper_bound; lia].
    change 32768 with (65536 / 2). apply Z.div_le_mono; lia. }
  eapply fine_bind; [exact (FindSeekMarker_fine (low + Z.quot (high - low) 2) high s Hs)|].
  intros [[m|] s1] [Hs1 Hm]; cbn [fst snd] in *; [|exact Hs1].
  case_match; (apply IH; [exact Hs1|lia..]).
Qed.

Lemma Seek_time_fine time s : holds_file s -> 0 <= st -> fine (Seek time s) (fun p => holds_file p.2).
Proof.
  intros Hs Hst. unfold Seek. eapply fine_bind; [exact (ensure_scanned_fine s Hs)|]. intros s1 Hs1.
  eapply fine_bind.
  - apply Seek_loop_fine; [exact Hs1|destruct Hs1; lia| |lia].
    destruct Hs1 as [-> ->]. unfold zlen. lia.
  - intros [[[low high] r] s2] Hs2. cbn [snd] in Hs2. by apply items_fine.
Qed.

(** *** Opening *)
Lemma process_local_fine s l : holds_file s -> fine (process_local s l) holds_file.
Proof.
  intros Hs. unfold process_local. set (MF := file_measure c 0).
  eapply fine_bind; [exact (Seek_fine (schema_location l) (file s) (proj1 Hs))|]. intros f (Hf & Ho & H0').
  eapply fine_bind.
  { apply (@value_takes _ _ MF _ 2). apply (@ReadHeader_takes _ _ MF). split; [exact Hf|cbn; lia]. }
  intros [h g] [Hg _]. cbn [fst snd] in *.
  set (stream := BlockStream.make g _).
  eapply fine_bind.
  { apply (ProcessSchema_fine 0 (@ahead _ _ MF g) stream None (with_file g s)). split; [exact Hg|cbn; lia]. }
  intros [[[i b] wf] s1] ([Kb _] & _ & E1).
  eapply (fine_bind _ _ (fun _ => True)); [by apply fine_assert|]. intros _ _.
  eapply fine_bind; [exact (@close_fine _ _ MF b Kb)|]. intros k [Hk _].
  assert (Hres : holds_file (with_file k s1)).
  { split; [exact (proj1 Hk)|]. cbn [start_ with_file] in *. rewrite E1. exact (proj2 Hs). }
  cbv zeta. case_match; [|exact Hres]. exact Hres.
Qed.

Lemma process_locals_fine l : forall s, holds_file s -> fine (process_locals l s) holds_file.
Proof.
  induction l as [|r l IH]; intros s Hs; [exact Hs|]. cbn [process_locals].
  eapply fine_bind; [exact (process_local_fine s r Hs)|]. exact IH.
Qed.

Lemma read_local_takes l (f : FileStream.t) : let M := file_measure c 0 in
  @m_ok _ _ M f -> @takes _ _ M _ 0 (read_local (l, f)) f.
Proof.
  intros M Hf. unfold read_local. eapply fine_bind; [exact (@uint_takes _ _ M f Hf)|].
  intros [i f1] [K1 A1]. cbn [fst snd] in *.
  eapply fine_bind; [exact (@scalar_takes _ _ M 8 f1 K1)|]. intros [p f2] [K2 A2]. cbn [fst snd] in *.
  eapply fine_bind; [exact (@scalar_takes _ _ M 8 f2 K2)|]. intros [q f3] [K3 A3]. cbn [fst snd] in *.
  split; [exact K3|]. cbn [snd]. lia.
Qed.

Lemma MaybeProcessIndex_fine s : holds_file s -> fine (MaybeProcessIndex s) holds_file.
Proof.
  intros Hs. unfold MaybeProcessIndex. set (MF := file_measure c 0). pose proof Hs as [Hc Hst].
  assert (Hseek : forall i f, FileStream.contents f = c ->
    fine (FileStream.Seek i f) (fun g => @m_ok _ _ MF g)).
  { intros i f Hf. eapply fine_mono; [exact (Seek_fine i f Hf)|]. intros g (Hg & Ho & H0').
    split; [exact Hg|]. cbn. lia. }
  eapply fine_bind; [by apply Hseek|]. intros f1 K1.
  eapply fine_bind; [exact (@m_read _ _ MF f1 8 K1)|]. intros [tr f2] (K2 & _ & _). cbn [fst snd] in *.
  destruct (negb _); [by apply holds_with_file; [|apply K2]|].
  eapply fine_bind; [apply Hseek, K2|]. intros f3 K3.
  eapply fine_bind; [exact (@scalar_takes _ _ MF 4 f3 K3)|]. intros [n f4] [K4 _]. cbn [fst snd] in *.
  destruct (_ <=? n); [by apply holds_with_file; [|apply K4]|].
  eapply fine_bind; [apply Hseek, K4|]. intros f5 K5.
  eapply fine_bind; [exact (@ReadHeader_takes _ _ MF f5 true K5)|]. intros [[h|] f6] [K6 _]; cbn [fst snd] in *;
    [|by apply holds_with_file; [|apply K6]].
  destruct (negb _); [by apply holds_with_file; [|apply K6]|].
  eapply fine_bind; [exact (@uint_takes _ _ MF f6 K6)|]. intros [fl f7] [K7 _]. cbn [fst snd] in *.
  destruct (negb _); [done|].
  eapply fine_bind; [exact (@uint_takes _ _ MF f7 K7)|]. intros [k f8] [K8 _]. cbn [fst snd] in *.
  eapply fine_bind; [exact (@times_takes _ _ MF _ read_local k (fun l f => read_local_takes l f) [] f8 K8)|].
  intros [l f9] [K9 _]. cbn [fst snd] in *.
  eapply (fine_bind _ _ (fun _ => True)); [by apply fine_assert|]. intros _ _.
  eapply fine_bind; [apply process_locals_fine; split; [apply K9|exact Hst]|]. intros s' Hs'. exact Hs'.
Qed.
End reader.

Section property.
Import FileReader.
Context `{CrcType} `{LogClock} `{Snappy}.

Lemma Open_fine verify c : fine (Open verify c) (fun s => exists st, holds_file c st s /\ 0 <= st).
Proof.
  unfold Open. set (MF := file_measure c 0).
  eapply fine_bind; [apply (@m_read _ _ MF (FileStream.make c) 8); split; [done|cbn; lia]|].
  intros [h f] (K1 & _ & _). cbn [fst snd] in *. destruct (negb _); [done|].
  eapply fine_bind; [exact (@ReadVaruint_takes _ _ MF f K1)|]. intros [fl g] [K2 _]. cbn [fst snd] in *.
  destruct (negb _); [done|].
  eapply fine_mono; [apply (MaybeProcessIndex_fine c (FileStream.Tell g)); split; [apply K2|done]|].
  intros s Hs. exists (FileStream.Tell g). split; [exact Hs|]. apply K2.
Qed.

(** C23: whatever bytes a file has, the reader ends: opening it, and on what is
    opened a full scan, a loop over the items with any body, and a search by
    time, return or stop the way the source does, each with the fuel it is given
    (the bytes of the file), also when lengths, offsets, the index and the seek
    blocks of the file are wrong. *)
Theorem file_reader_ends verify contents :
  match Open verify contents with
  | Faulted f => f <> OutOfFuel
  | Done s =>
      FullScan s <> Faulted OutOfFuel /\
      (forall time, Seek time s <> Faulted OutOfFuel) /\
      (forall A o (body : Item -> A -> A * bool) a, items o body s a <> Faulted OutOfFuel)
  end.
Proof.
  pose proof (Open_fine verify contents) as Ho. destruct (Open verify contents) as [s|f]; [|exact Ho].
  destruct Ho as (st & Hs & Hst).
  split; [exact (fine_ends _ _ (FullScan_fine _ _ s Hs))|]. split.
  - intros time. exact (fine_ends _ _ (Seek_time_fine _ _ time s Hs Hst)).
  - intros A o body a. exact (fine_ends _ _ (items_fine _ _ o body s a Hs)).
Qed.
End property.
