(* ===== verification/ClientProperties.v ===== *)
(** * What the host's client does over any run

    The runs are any sequence of events that are possible where they come: calls of
    the callers in any order, cancellations at any time among them, the executor
    running what was posted in any order, and the frame stream and timers ending
    what was started when they like, and with any error. *)
From stdpp Require Import gmap sets.
From S2P Require Import Prelude Varuint Streams MultiplexStream Register RegisterServer FrameStream ExclusiveCommand StreamAsioClient ClientInvariant ClientTheory.
#[local] Open Scope Z_scope.
Import StreamAsioClient.

(** ** Orphans *)

(** The writes that tunnels know. *)
Definition known_writes (ts : list (option nat * option nat)) : list (nat * nat) :=
  omap (fun x => (fun n => (n, fst x)) <$> fst (snd x)) (zip (seq 0 (length ts)) ts).

Lemma known_writes_from ts : forall k, let l := omap (fun x : nat * (option nat * option nat) => (fun n => (n, fst x)) <$> fst (snd x)) (zip (seq k (length ts)) ts) in
  length l = length (omap fst ts) /\ (forall n t, (n, t) ∈ l -> (k <= t)%nat /\ exists h, ts !! (t - k)%nat = Some (Some n, h)) /\ NoDup l.
Proof.
  induction ts as [|[o h] ts IH]; intros k; [cbn; split_and!; [done| |constructor]; intros n t []%not_elem_of_nil|].
  destruct (IH (S k)) as (Hl & Hin & Hnd). cbn [length seq zip zip_with omap list_omap fst snd] in *.
  assert (Hrec : forall n t, (n, t) ∈ omap (fun x : nat * (option nat * option nat) => (fun n => (n, fst x)) <$> fst (snd x)) (zip (seq (S k) (length ts)) ts) ->
    (k <= t)%nat /\ exists h', ((o, h) :: ts) !! (t - k)%nat = Some (Some n, h')).
  { intros n t Hn. destruct (Hin n t Hn) as (Ht & h' & E). split; [lia|]. exists h'. by replace (t - k)%nat with (S (t - S k)) by lia. }
  destruct o as [n0|]; cbn in *; split_and!; try done; [by f_equal| |constructor; [|done]].
  - intros n t [[= -> ->]|Hn]%elem_of_cons; [|by apply Hrec]. split; [lia|]. exists h. by rewrite Nat.sub_diag.
  - intros Hn. destruct (Hin _ _ Hn). lia.
Qed.

(** Where every write is known, a write that has not ended is that of its tunnel. *)
Lemma writes_all_known writes ts n t : writes_ok 0 writes ts -> (n, t) ∈ writes -> exists h, ts !! t = Some (Some n, h).
Proof.
  intros [H1 _ _ H4 H5] Hn. destruct (known_writes_from ts 0) as (Hl & Hin & Hnd). fold (known_writes ts) in *.
  assert (known_writes ts ≡ₚ writes) as Hp.
  { apply submseteq_length_Permutation; [apply NoDup_submseteq; [done|]|lia]. intros [n' t'] Hx. destruct (Hin n' t' Hx) as (_ & h & E).
    rewrite Nat.sub_0_r in E. by eapply H1. }
  rewrite <- Hp in Hn. destruct (Hin n t Hn) as (_ & h & E). rewrite Nat.sub_0_r in E. by exists h.
Qed.

(** A write whose tunnel has no handler for it is not known any more. *)
Lemma unknown_orphan g i t b tun s : good g ([Holding i] ++ tokens s) s -> ExclusiveCommand.command i = WriteTunnel t b ->
  tunnels s !! t = Some tun -> write_handler tun = None -> orphans g <> O.
Proof.
  intros Hg Hi Ht Hh E. destruct (good_plain _ _ _ Hg I) as [_ _ _ V4 _]. rewrite E in V4.
  assert ((ExclusiveCommand.nonce i, t) ∈ omap write_of (early_items [Holding i] s ++ held_items [Holding i])) as Hin.
  { apply list_elem_of_omap. exists i. split; [unfold held_items; cbn; set_solver|unfold write_of; by rewrite Hi]. }
  destruct (writes_all_known _ _ _ _ V4 Hin) as [h Ew]. pose proof (w_handler _ _ _ V4 _ _ _ Ew) as Hw.
  rewrite list_lookup_fmap, Ht in Ew. cbn in Ew. injection Ew as _ Ew. rewrite Hh in Ew. subst h. by destruct (proj2 Hw) as [? ?]; [by eexists|].
Qed.

(** ** A lock that is never released *)
Definition operations_started (o : output) : list operation := match o with Started op => [op] | _ => [] end.

Definition calm {A} (m : M A) : Prop := forall s a s' out, stuck s -> m s = Done (a, s', out) ->
  stuck s' /\ out ≫= operations_started = [].

Create HintDb calm.

Section calm.
Context {A B : Type}.

Lemma calm_bind (m : M A) (k : A -> M B) : calm m -> (forall a, calm (k a)) -> calm (m ≫= k).
Proof.
  intros Hm Hk s b s2 out Hs E. unfold mbind, M_bind in E. destruct (m s) as [[[a s1] o1]|] eqn:E1; [|done]. rewrite bind_done in E. cbn beta iota in E.
  destruct (k a s1) as [[[b' s2'] o2]|] eqn:E2; [|done]. rewrite bind_done in E. injection E as <- <- <-.
  destruct (Hm _ _ _ _ Hs E1) as [Hs1 H1]. destruct (Hk _ _ _ _ _ Hs1 E2) as [Hs2 H2]. split; [done|]. by rewrite bind_app, H1, H2.
Qed.

Lemma calm_same (m : M A) : (forall s a s' out, m s = Done (a, s', out) -> s' = s /\ out = []) -> calm m.
Proof. intros Hm s a s' out Hs E. by destruct (Hm _ _ _ _ E) as [-> ->]. Qed.

Lemma calm_ret (a : A) : calm (mret a).
Proof. apply calm_same. intros s a' s' out [= <- <- <-]. done. Qed.
Lemma calm_gets (f : State -> A) : calm (gets f).
Proof. apply calm_same. intros s a' s' out [= <- <- <-]. done. Qed.
Lemma calm_lift (m : outcome A) : calm (lift m).
Proof. apply calm_same. intros s a' s' out. unfold lift. destruct m; [|done]. by intros [= <- <- <-]. Qed.
Lemma calm_deref (l : State -> list A) i : calm (deref l i).
Proof. apply calm_same. intros s a' s' out. unfold deref. destruct (l s !! i); [|done]. by intros [= <- <- <-]. Qed.
Lemma calm_fault f : calm (@fault A f).
Proof. by apply calm_same. Qed.
End calm.

Lemma calm_modify f : (forall s, lock (f s) = lock s /\ tokens (f s) = tokens s) -> calm (modify f).
Proof. intros Hf s a s' out [H1 H2] [= <- <- <-]. unfold stuck. by destruct (Hf s) as [-> ->]. Qed.
Lemma calm_post t : task_tokens t = [] -> calm (post [t]).
Proof. intros Ht. apply calm_modify. intros s. split; [done|]. by apply tokens_post_plain. Qed.
Lemma calm_emit o : operations_started o = [] -> calm (emit o).
Proof. intros Ho s a s' out Hs [= <- <- <-]. split; [done|]. cbn. by rewrite Ho. Qed.
Lemma calm_call_size h ec size : calm (call_size h ec size).
Proof. destruct h; [by apply calm_emit|apply calm_fault]. Qed.

Lemma calm_lock_Invoke c : calm (lock_Invoke c).
Proof.
  intros s a s' out [[i Hw] Ht] E. destruct s as [[w q n] ps ops ws rx tx txs ts cs rs]. cbn in Hw. subst w.
  unfold lock_Invoke, ExclusiveCommand.Invoke, ExclusiveCommand.MaybeStart in E. cbn in E. injection E as <- <- <-. unfold stuck, tokens in *. cbn in *.
  rewrite app_nil_r. by split; [eexists|].
Qed.

Lemma lock_remove_runs n s : exists b l, lock_remove n s = Done (b, with_lock l s, []) /\
  ExclusiveCommand.waiting l = ExclusiveCommand.waiting (lock s).
Proof.
  unfold lock_remove, mbind, M_bind, gets, modify, mret, M_ret. rewrite bind_done. cbn beta iota.
  destruct (ExclusiveCommand.remove n (lock s)) as [k l] eqn:E. cbn. exists (negb (k =? 0)), l. split; [done|].
  unfold ExclusiveCommand.remove in E. destruct (_ =? _)%nat; by injection E as <- <-.
Qed.

Lemma calm_lock_remove n : calm (lock_remove n).
Proof.
  intros s a s' out [Hw Ht] E. destruct (lock_remove_runs n s) as (b & l & E' & Hl). rewrite E' in E. injection E as <- <- <-.
  split; [|done]. split; [cbn; by rewrite Hl|exact Ht].
Qed.

#[export] Hint Resolve calm_bind calm_ret calm_gets calm_lift calm_deref calm_fault calm_call_size calm_lock_Invoke calm_lock_remove : calm.
#[export] Hint Extern 1 (calm (modify _)) => apply calm_modify; by intros : calm.
#[export] Hint Extern 1 (calm (set_tunnel _ _)) => apply calm_modify; by intros : calm.
#[export] Hint Extern 1 (calm (set_context _ _)) => apply calm_modify; by intros : calm.
#[export] Hint Extern 1 (calm (emit _)) => by apply calm_emit : calm.
#[export] Hint Extern 1 (calm (post [_])) => by apply calm_post : calm.
#[export] Hint Extern 1 (calm skip) => apply calm_ret : calm.

(** A program without operations is calm, by its structure. *)
Ltac calm := repeat first [progress eauto with calm | apply calm_bind; [|intros ?] | case_match].

Lemma calm_take_handler c : calm (take_handler c).
Proof. unfold take_handler. calm. Qed.
Lemma calm_set_canceled c : calm (set_canceled c).
Proof. unfold set_canceled. calm. Qed.
#[export] Hint Resolve calm_take_handler calm_set_canceled : calm.

Lemma calm_SequenceRegister rs reply h : calm (SequenceRegister rs reply h).
Proof. unfold SequenceRegister, AsyncRegister. calm. Qed.
#[export] Hint Resolve calm_SequenceRegister : calm.

Lemma calm_async_read_some t bufs h : calm (async_read_some t bufs h).
Proof. unfold async_read_some. calm. Qed.
#[export] Hint Resolve calm_async_read_some : calm.

Lemma calm_cancel t : calm (cancel t).
Proof. unfold cancel, cancel_read, cancel_write. calm. Qed.

Lemma calm_AsyncTransmit rs reply h : calm (AsyncTransmit rs reply h).
Proof. unfold AsyncTransmit. calm. Qed.
Lemma calm_MakeTunnel id channel rate : calm (MakeTunnel id channel rate).
Proof. unfold MakeTunnel. calm. Qed.
Lemma calm_async_write_some t bufs h : calm (async_write_some t bufs h).
Proof. unfold async_write_some. calm. Qed.

Lemma calm_HandlePollTimer t c ec : calm (HandlePollTimer ec t c).
Proof. unfold HandlePollTimer. calm. Qed.
#[export] Hint Resolve calm_HandlePollTimer : calm.

Section stuck.
Context (source_id max_size : Z).

Lemma calm_HandleEvent e s a s' out : stuck s -> handle source_id max_size e s = Done (a, s', out) ->
  stuck s' /\ out ≫= operations_started = [].
Proof.
  intros Hs E.
  destruct e as [rs reply h|id channel rate|t bufs h|t bufs h|t|n|n ec frame queued|n ec]; cbn [handle] in E.
  - by eapply calm_AsyncTransmit.
  - by eapply calm_MakeTunnel.
  - by eapply calm_async_read_some.
  - by eapply calm_async_write_some.
  - by eapply calm_cancel.
  - unfold mbind at 1, M_bind at 1, deref in E. destruct (posted s !! n) as [tk|] eqn:En; [|done]. rewrite bind_done in E. cbn beta iota in E.
    assert (task_tokens tk ++ (delete n (posted s) ≫= task_tokens) ≡ₚ [] /\ operations s = []) as [Hp Ho].
    { destruct Hs as [_ Ht]. unfold tokens in Ht. apply app_eq_nil in Ht as [Ht Ho]. apply fmap_nil_inv in Ho.
      rewrite <- (delete_bind task_tokens _ _ _ En). by rewrite Ht. }
    apply Permutation_nil_r, app_eq_nil in Hp as [Hp Hd].
    assert (Hs' : stuck (with_posted (delete n (posted s)) s)).
    { split; [apply Hs|]. unfold tokens. cbn. by rewrite Hd, Ho. }
    assert (Hc : calm (run_task source_id max_size tk)).
    { destruct tk as [[i|]|h ec|h ec size|i ec]; try done; cbn [run_task]; calm. }
    unfold mbind, M_bind, modify in E. rewrite bind_done in E. cbn beta iota in E.
    destruct (run_task source_id max_size tk _) as [[[b s2] o2]|] eqn:Er; [|done]. cbn in E. injection E as <- <- <-.
    exact (Hc _ _ _ _ Hs' Er).
  - exfalso. destruct Hs as [_ Ht]. unfold tokens in Ht. apply app_eq_nil in Ht as [_ Ho]. apply fmap_nil_inv in Ho.
    unfold mbind at 1, M_bind at 1, deref in E. by rewrite Ho in E.
  - assert (Hc : calm (handle source_id max_size (ETimer n ec))) by (cbn [handle]; calm). by eapply Hc.
Qed.

Lemma calm_run es : calm (run source_id max_size es).
Proof.
  induction es as [|e es IH]; cbn [run]; [apply calm_ret|]. apply calm_bind; [|done]. intros s a s' out. apply calm_HandleEvent.
Qed.
End stuck.

Lemma M_bind_done {A B} (m : M A) (k : A -> M B) s a s1 o1 : m s = Done (a, s1, o1) ->
  (m ≫= k) s = ('(b, s2, o2) ← k a s1; Done (b, s2, o1 ++ o2)).
Proof. intros E. unfold mbind at 1, M_bind. by rewrite E, bind_done. Qed.

Lemma M_bind_fault {A B} (m : M A) (k : A -> M B) s f : m s = Faulted f -> (m ≫= k) s = Faulted f.
Proof. intros E. unfold mbind at 1, M_bind. by rewrite E. Qed.

(** ** Runs *)
Section runs.
Context (source_id max_size : Z).
Abbreviation run := (StreamAsioClient.run source_id max_size).
Abbreviation handle := (StreamAsioClient.handle source_id max_size).

(** Every event is possible where it comes. *)
Fixpoint client_legal (es : list event) (s : State) : bool :=
  match es with
  | [] => true
  | e :: es => possible e s && match handle e s with Done (_, s, _) => client_legal es s | Faulted _ => true end
  end.

(** The handlers that cancellations drop. *)
Fixpoint lost_by (es : list event) (s : State) : list nat :=
  match es with
  | [] => []
  | e :: es => lost e s ++ match handle e s with Done (_, s, _) => lost_by es s | Faulted _ => [] end
  end.

(** What two and more events do. *)
Lemma run_first e es s a s1 out : handle e s = Done (a, s1, out) ->
  run (e :: es) s = ('(b, s2, more) ← run es s1; Done (b, s2, out ++ more)).
Proof. intros E. cbn [StreamAsioClient.run]. unfold mbind at 1, M_bind at 1. rewrite E, bind_done. done. Qed.

Lemma run_first_fault e es s f : handle e s = Faulted f -> run (e :: es) s = Faulted f.
Proof. intros E. cbn [StreamAsioClient.run]. unfold mbind at 1, M_bind at 1. by rewrite E. Qed.

Lemma stuck_handle e s a s' out : stuck s -> handle e s = Done (a, s', out) -> stuck s'.
Proof. intros Hs E. by destruct (calm_HandleEvent source_id max_size e s a s' out Hs E). Qed.

Lemma stuck_not_stuck s : stuck s \/ ~ stuck s.
Proof.
  unfold stuck. destruct (ExclusiveCommand.waiting (lock s)), (tokens s); [left; by split; [eexists|]|right..].
  all: intros [Hw Ht]; try done; by destruct Hw.
Qed.

(** The end of an event that the client does not go on from. *)
Definition fails (e : event) (s : State) (f : Prelude.fault) : Prop :=
  exists n ec frame queued op cb, e = EComplete n ec frame queued /\ operations s !! n = Some (op, cb) /\
    ( (* an error of the frame stream that [FailIf] ends the program for *)
     completes cb ec = false /\ f = Assertion \/
     (* a write that was canceled before it had ended *)
     exists i size t b tun, cb = TunnelWriteDone i size /\ ExclusiveCommand.command i = WriteTunnel t b /\ tunnels s !! t = Some tun /\
       write_handler tun = None /\ f = Exception kBadFunctionCall).

Lemma complete_faults n ec frame queued op cb s f : operations s !! n = Some (op, cb) ->
  (forall s', tunnels s' = tunnels s -> complete source_id cb ec queued s' = Faulted f) -> handle (EComplete n ec frame queued) s = Faulted f.
Proof.
  intros Hn Hc. cbn [StreamAsioClient.handle]. erewrite M_bind_done by (unfold deref; by rewrite Hn). cbn beta iota. erewrite M_bind_done by reflexivity.
  destruct op, frame; (erewrite M_bind_done by reflexivity); by rewrite Hc.
Qed.

(** The end of a write whose tunnel has no handler for it. *)
Lemma complete_without_handler n op i t b size tun ec frame queued s : operations s !! n = Some (op, TunnelWriteDone i size) ->
  ExclusiveCommand.command i = WriteTunnel t b -> tunnels s !! t = Some tun -> write_handler tun = None ->
  handle (EComplete n ec frame queued) s = Faulted (Exception kBadFunctionCall).
Proof.
  intros Hn Hi Ht Hh. eapply complete_faults; [done|]. intros s' Es. cbn [complete]. unfold HandlerWrapper. rewrite Hi. apply M_bind_fault.
  unfold WriteTunnel_handler. erewrite M_bind_done by (unfold deref; by rewrite Es, Ht). erewrite M_bind_done by reflexivity. by rewrite Hh.
Qed.

(** The operation in progress has the lock. *)
Lemma operation_token g n op cb s : good g (tokens s) s -> operations s !! n = Some (op, cb) ->
  let s1 := with_operations (delete n (operations s)) s in
  tokens s = [Holding (callback_item cb)] ++ tokens s1 /\ good g ([Holding (callback_item cb)] ++ tokens s1) s1.
Proof.
  intros Hg Hn s1. assert (Ht : tokens s = [Holding (callback_item cb)] ++ tokens s1).
  { eapply lock_ok_perm; [apply Hg|]. unfold tokens. cbn. rewrite (delete_Permutation _ _ _ Hn) at 1. cbn. by rewrite Permutation_middle. }
  split; [exact Ht|]. rewrite <- Ht. destruct Hg as [H1 H2 H3 H4]. split; [done|done| |done]. by apply Forall_delete.
Qed.

Lemma not_well_fails g e s : good g (tokens s) s -> possible e s = true -> ends_well e s = false ->
  exists f, handle e s = Faulted f /\ fails e s f /\ (f = Exception kBadFunctionCall -> orphans g <> O).
Proof.
  intros Hg Hp Hw. destruct e as [| | | | | |n ec frame queued|]; try done. cbn in Hw.
  destruct (operations s !! n) as [[op cb]|] eqn:Hn; [|by cbn in Hp; rewrite Hn in Hp]. apply andb_false_iff in Hw as [Hc|Ha].
  - exists Assertion. split; [|split; [exists n, ec, frame, queued, op, cb; auto|done]]. eapply complete_faults; [done|]. intros s' _.
    destruct cb as [j|j reply []|j reply|j t c|j t c|j size]; cbn in Hc; try done; cbn [complete].
    + unfold HandleSingleWrite. cbn [negb]. apply M_bind_fault. unfold lift, FailIf. by rewrite Hc.
    + apply orb_false_iff in Hc as [Hc1 Hc2]. unfold HandleRead. rewrite Hc2. apply M_bind_fault. unfold lift, FailIf. by rewrite Hc1.
    + unfold HandleRequestRead. apply M_bind_fault. unfold lift, FailIf. by rewrite Hc.
  - destruct (operation_token g n op cb s Hg Hn) as [_ Hg1]. destruct cb as [| | | | |i size]; try done. cbn in Ha. cbn [callback_item] in Hg1.
    destruct (ExclusiveCommand.command i) as [| | |t b] eqn:Hi; try done. destruct (held_write _ _ _ _ _ Hg1 Hi) as [tun Ht]. cbn in Ht.
    rewrite Ht in Ha. destruct (write_handler tun) eqn:Hh; [done|]. exists (Exception kBadFunctionCall).
    split; [by eapply complete_without_handler|]. split; [|intros _; by eapply unknown_orphan].
    exists n, ec, frame, queued, op, (TunnelWriteDone i size). split_and!; [done..|]. right. by exists i, size, t, b, tun.
Qed.

(** What a run does, as far as it goes. *)
Lemma client_run_goes (Hmax : max_size < 0 \/ 3 <= max_size) es : forall g s, good g (tokens s) s -> client_legal es s = true ->
  (exists s' out g' twice, run es s = Done (tt, s', out) /\ good g' (tokens s') s' /\ orphans g' = (orphans g + length (lost_by es s))%nat /\
    (twice = [] \/ ~ stuck s /\ stuck s' /\ exists h, twice = [h]) /\
    forall h, (times h (es ≫= given) + times h (owed (tokens s) s) + times h twice =
               times h (out ≫= called) + times h (owed (tokens s') s') + times h (lost_by es s))%nat) \/
  (exists es1 e es2 s1 out f, es = es1 ++ e :: es2 /\ run es1 s = Done (tt, s1, out) /\ handle e s1 = Faulted f /\ run es s = Faulted f /\
    fails e s1 f /\ (f = Exception kBadFunctionCall -> (orphans g + length (lost_by es1 s))%nat <> O)).
Proof.
  induction es as [|e es IH]; intros g s Hg Hl; cbn [client_legal lost_by] in *.
  { left. exists s, [], g, []. split_and!; [done..|cbn; lia|by left|]. intros h. cbn [mbind list_bind]. rewrite ?times_nil. lia. }
  apply andb_true_iff in Hl as [Hp Hl]. destruct (ends_well e s) eqn:Hw.
  - destruct (goes_handle source_id max_size Hmax g e s Hg Hp Hw) as ([] & s1 & o1 & E1 & g1 & tw1 & Hg1 & Ho1 & Ht1 & H1).
    rewrite E1 in Hl |- *. destruct (IH g1 s1 Hg1 Hl) as [(s2 & o2 & g2 & tw2 & E2 & Hg2 & Ho2 & Ht2 & H2)|(es1 & e2 & es2 & s2 & o2 & f & -> & E2 & Ef & Er & Hf & Hk)].
    + left. exists s2, (o1 ++ o2), g2, (tw1 ++ tw2). split_and!.
      * by rewrite (run_first _ _ _ _ _ _ E1), E2.
      * done.
      * rewrite length_app. lia.
      * destruct Ht1 as [->|(Hn1 & Hs1 & h1 & ->)], Ht2 as [->|(Hn2 & Hs2 & h2 & ->)]; [by left| | |done]; right.
        -- split_and!; [|done|by exists h2]. intros Hs. apply Hn2. by eapply stuck_handle.
        -- split_and!; [done| |by exists h1]. by destruct (calm_run source_id max_size es s1 tt s2 o2 Hs1 E2).
      * intros h. specialize (H1 h). specialize (H2 h). rewrite bind_cons, bind_app, !times_app. lia.
    + right. exists (e :: es1), e2, es2, s2, (o1 ++ o2), f. split_and!; [done| |done| |done|].
      * by rewrite (run_first _ _ _ _ _ _ E1), E2.
      * by rewrite (run_first _ _ _ _ _ _ E1), Er.
      * intros Hx. specialize (Hk Hx). cbn [lost_by]. rewrite E1, length_app. lia.
  - right. destruct (not_well_fails g e s Hg Hp Hw) as (f & Ef & Hf & Ho). exists [], e, es, s, [], f.
    split_and!; [done|done|done|by apply run_first_fault|done|]. intros Hx. specialize (Ho Hx). lia.
Qed.

(** Nothing to remember. *)
Definition fresh : ghost := {| gone := []; left_reads := []; orphans := 0 |}.

Lemma make_good : good fresh (tokens make) make.
Proof.
  split; [by split_and!| |by constructor..]. apply items_plain; [done..|]. split; try by constructor.
  - split; try done; cbn; try set_solver. constructor.
  - split; try done; cbn; [|constructor]. intros n t []%not_elem_of_nil.
Qed.

(** Where nothing is left to happen, nothing is owed, and nothing was lost. *)
Lemma good_quiescent g s : good g (tokens s) s -> posted s = [] -> operations s = [] -> waits s = [] ->
  ExclusiveCommand.waiting (lock s) = None -> owed (tokens s) s = [] /\ orphans g = O.
Proof.
  intros [H1 H2 H3 H4] Hp Ho Hw Hf. unfold lock_ok in H1. rewrite Hf in H1. destruct H1 as (Ht & Hq & Hgo & Hle).
  rewrite Ht in *. apply (items_plain _ _ _ _ _ _ _ Hgo Hle) in H2. unfold owed, early_items, held_items in *. rewrite Hp. rewrite Hq, Hw in *. cbn in *.
  destruct H2 as [_ _ [_ _ _ V4 _ _ _] [W1 W2 W3 _ W5] _].
  assert (forall A (f : A -> option nat) l, (forall i x, l !! i = Some x -> f x = None) -> omap f l = []) as Hnil.
  { intros A f l. induction l as [|x l IH]; intros Hl; [done|]. cbn. rewrite (Hl O x eq_refl). apply IH. intros i y Hy. by apply (Hl (S i)). }
  split; [|cbn in W5; lia]. rewrite !Hnil; [done| |].
  - intros t tun Htun. destruct (write_handler tun) as [h|] eqn:Hh; [|done].
    assert (E : (write_view <$> tunnels s) !! t = Some (write_nonce tun, Some h)) by (rewrite list_lookup_fmap, Htun; cbn; unfold write_view; by rewrite Hh).
    destruct (proj1 (W3 _ _ _ E)) as [n Hn]; [by eexists|]. rewrite Hn in E. exfalso. eapply (not_elem_of_nil (n, t)), W1. exact E.
  - intros c x Hx. destruct (handler x) as [h|] eqn:Hh; [|done].
    assert (E : (context_view <$> contexts s) !! c = Some (Some h, canceled x)) by (rewrite list_lookup_fmap, Hx; cbn; unfold context_view; by rewrite Hh).
    exfalso. eapply (not_elem_of_nil c), (V4 _ _ _ E). by eexists.
Qed.

Lemma one_operation g s : good g (tokens s) s -> (length (operations s) <= 1)%nat /\
  (ExclusiveCommand.waiting (lock s) = None -> tokens s = []) /\
  (tokens s = [] -> ExclusiveCommand.waiting (lock s) = None \/ exists w, ExclusiveCommand.waiting (lock s) = Some w /\ canceled_read (contexts s) w).
Proof.
  intros [H _ _ _]. unfold lock_ok in H.
  assert (length (operations s) <= length (tokens s))%nat as Hle by (unfold tokens; rewrite length_app, length_fmap; lia).
  destruct (ExclusiveCommand.waiting (lock s)) as [w|].
  - destruct H as [(t & Ht & _)|[Ht Hc]]; rewrite Ht in *; cbn in Hle; split_and!; try done; try lia. intros _. right. by exists w.
  - destruct H as [Ht _]. rewrite Ht in *. cbn in Hle. split_and!; [lia|done|by left].
Qed.
End runs.

(** C16: one operation of the frame stream at a time.  Whatever the callers do with
    requests and tunnels, one read and one write of a tunnel at a time, with
    cancellations at any moment, and in whatever order and with whatever errors the
    executor, the frame stream and the timers go on ([possible]): as long as the client runs it has at most one operation of the frame stream
    in progress; while something is to go on with the lock the lock is taken, and if
    nothing is, the lock is free, or a read keeps it that was canceled.  The client
    stops in two cases only: an operation ends with an error for which [FailIf] ends
    the program; or a write ends whose tunnel has no handler for it, an empty
    function that is called, and then a handler has been dropped by a cancellation
    before ([lost_by]; the run that shows it is [canceled_write_throws]). *)
Theorem client_one_operation (source_id max_size : Z) (es : list event) :
  max_size < 0 \/ 3 <= max_size -> client_legal source_id max_size es make = true ->
  (exists s out, run source_id max_size es make = Done (tt, s, out) /\ (length (operations s) <= 1)%nat /\
    (ExclusiveCommand.waiting (lock s) = None -> tokens s = []) /\
    (tokens s = [] -> ExclusiveCommand.waiting (lock s) = None \/
       exists w, ExclusiveCommand.waiting (lock s) = Some w /\ canceled_read (contexts s) w)) \/
  (exists es1 e es2 s out f, es = es1 ++ e :: es2 /\ run source_id max_size es1 make = Done (tt, s, out) /\
    handle source_id max_size e s = Faulted f /\ run source_id max_size es make = Faulted f /\ fails e s f /\
    (f = Exception kBadFunctionCall -> lost_by source_id max_size es1 make <> [])).
Proof.
  intros Hm Hl. destruct (client_run_goes source_id max_size Hm es fresh make make_good Hl)
    as [(s & out & g & tw & E & Hg & _)|(es1 & e & es2 & s & out & f & Ees & E1 & Ef & E & Hf & Hk)].
  - left. exists s, out. split; [done|]. by eapply one_operation.
  - right. exists es1, e, es2, s, out, f. split_and!; [done..|]. intros Hx Hn. apply (Hk Hx). by rewrite Hn.
Qed.

(** C17: every handler is called.  Over any such run a handler has been called as
    often as it was given to the client, less what the client still owes and what
    cancellations have dropped ([lost_by]: the handler of a write that is canceled
    between the posting of its command and its end); where a read that was canceled
    keeps the lock, what is owed counts that read's handler although it has been
    called.  And once nothing is posted, no operation is in progress, no timer waits
    and the lock is free, no handler has been dropped, and each has been called
    exactly as often as it was given. *)
Theorem client_calls_handlers (source_id max_size : Z) (es : list event) (s : State) (out : list output) :
  max_size < 0 \/ 3 <= max_size -> client_legal source_id max_size es make = true -> run source_id max_size es make = Done (tt, s, out) ->
  (exists twice, (twice = [] \/ stuck s /\ exists h, twice = [h]) /\
    forall h, (times h (es ≫= given) + times h twice =
               times h (out ≫= called) + times h (owed (tokens s) s) + times h (lost_by source_id max_size es make))%nat) /\
  (posted s = [] -> operations s = [] -> waits s = [] -> ExclusiveCommand.waiting (lock s) = None ->
     lost_by source_id max_size es make = [] /\ forall h, times h (es ≫= given) = times h (out ≫= called)).
Proof.
  intros Hm Hl E. destruct (client_run_goes source_id max_size Hm es fresh make make_good Hl)
    as [(s1 & o1 & g & tw & E1 & Hg & Ho & Ht & H)|(? & ? & ? & ? & ? & ? & _ & _ & _ & E1 & _)]; [|by rewrite E1 in E].
  rewrite E1 in E. injection E as -> ->.
  assert (H' : forall h, (times h (es ≫= given) + times h tw =
      times h (out ≫= called) + times h (owed (tokens s) s) + times h (lost_by source_id max_size es make))%nat).
  { intros h. specialize (H h). change (owed (tokens make) make) with (@nil nat) in H. rewrite times_nil in H. lia. }
  split; [exists tw; split; [naive_solver|done]|]. intros Hp Hop Hw Hf. destruct (good_quiescent g s Hg Hp Hop Hw Hf) as [Hn Hk].
  assert (lost_by source_id max_size es make = []) as Hlost by (apply nil_length_inv; cbn in Ho; lia). split; [done|].
  assert (tw = []) as -> by (destruct Ht as [|(_ & [[? Hx] _] & _)]; [done|congruence]).
  intros h. specialize (H' h). rewrite Hn, Hlost, !times_nil in H'. lia.
Qed.

(** ** Cancellations that come too late *)
Section late.
Context (source_id max_size : Z) (Hmax : max_size < 0 \/ 3 <= max_size).

(** The command that is to run has the lock. *)
Lemma posted_token g n i s : good g (tokens s) s -> posted s !! n = Some (Lock (ExclusiveCommand.PostInvoke i)) ->
  let s1 := with_posted (delete n (posted s)) s in
  tokens s = [Invoking i] ++ tokens s1 /\ good g ([Invoking i] ++ tokens s1) s1.
Proof.
  intros Hg Hn s1. assert (Ht : tokens s = [Invoking i] ++ tokens s1).
  { eapply lock_ok_perm; [apply Hg|]. unfold tokens. cbn. by rewrite (delete_bind task_tokens _ _ _ Hn). }
  split; [exact Ht|]. rewrite <- Ht. destruct Hg as [H1 H2 H3 H4]. split; [done..|]. by apply Forall_delete.
Qed.

(** A read that was not canceled is its tunnel's. *)
Lemma invoking_read g i t c s : good g ([Invoking i] ++ tokens s) s -> ExclusiveCommand.command i = ReadTunnel t c ->
  canceled_read (contexts s) i \/ exists tun, tunnels s !! t = Some tun /\ read_nonce tun = Some (ExclusiveCommand.nonce i).
Proof.
  intros Hg Hi. destruct (canceled_or_not (contexts s) i) as [|Hc]; [by left|right]. destruct (good_live _ _ _ Hg Hc) as (_ & _ & Hv).
  assert ((ExclusiveCommand.nonce i, t, c) ∈ omap read_of (early_items [Invoking i] s)) as E.
  { apply list_elem_of_omap. exists i. split; [unfold early_items; cbn; set_solver|unfold read_of; by rewrite Hi]. }
  apply (r_early _ _ _ _ (i_reads _ _ _ _ _ _ _ Hv)) in E. rewrite list_lookup_fmap in E. apply fmap_Some in E as (tun & ? & [= En _]).
  by exists tun.
Qed.

Lemma invoking_tunnel g i t c s : good g ([Invoking i] ++ tokens s) s -> ExclusiveCommand.command i = ReadTunnel t c ->
  is_Some (tunnels s !! t).
Proof.
  intros Hg Hi. destruct Hg as [_ (live & Hl & _ & Hv) _ _].
  assert (i ∈ live \/ i ∈ gone g) as [Hx|Hx] by (apply elem_of_app; rewrite <- Hl; unfold early_items; cbn; set_solver).
  - assert ((ExclusiveCommand.nonce i, t, c) ∈ omap read_of live) as E by (apply list_elem_of_omap; exists i; split; [done|unfold read_of; by rewrite Hi]).
    apply (r_early _ _ _ _ (i_reads _ _ _ _ _ _ _ Hv)) in E. rewrite list_lookup_fmap in E. apply fmap_Some in E as (tun & ? & _). by exists tun.
  - edestruct (inv_late _ _ _ _ _ _ _ t c Hv) as (_ & tun & _ & _ & Ht & _); [|by exists tun]. apply elem_of_app. left.
    apply list_elem_of_omap. exists i. split; [apply elem_of_app; by left|unfold late_of; by rewrite Hi].
Qed.

Lemma cancel_before_run g n i t c s : good g (tokens s) s -> posted s !! n = Some (Lock (ExclusiveCommand.PostInvoke i)) ->
  ExclusiveCommand.command i = ReadTunnel t c ->
  exists s' h, run source_id max_size [ECancel t; ERun n] s = Done (tt, s', [CalledSize h kAborted 0]) /\ stuck s'.
Proof.
  intros Hg Hn Hi. destruct (posted_token g n i s Hg Hn) as [_ Hg0]. destruct (invoking_tunnel _ i t c _ Hg0 Hi) as [tun Htun].
  destruct (wp_cancel g t tun s Hg Htun) as ([] & s1 & o1 & E1 & -> & g1 & Hg1 & _ & (Htk & Ho & [p Hp] & tun' & Htun' & Hnone & _) & _).
  assert (Hn1 : posted s1 !! n = Some (Lock (ExclusiveCommand.PostInvoke i))) by (rewrite Hp; by apply lookup_app_l_Some).
  destruct (posted_token g1 n i s1 Hg1 Hn1) as [_ Hg2]. set (s2 := with_posted (delete n (posted s1)) s1) in *.
  destruct (invoking_read _ i t c _ Hg2 Hi) as [Hc|(tun2 & Htun2 & Hsome)].
  2: { change (tunnels s2) with (tunnels s1) in Htun2. rewrite Htun' in Htun2. injection Htun2 as <-. congruence. }
  destruct (canceled_turn source_id max_size Hmax g1 i s2 Hg2 Hc) as (g' & s' & h & E & _ & _ & Hst & _). exists s', h. split; [|done].
  assert (E2 : handle source_id max_size (ERun n) s1 = Done (tt, s', [CalledSize h kAborted 0])).
  { cbn [handle]. erewrite M_bind_done by (unfold deref; by rewrite Hn1). cbn beta iota. erewrite M_bind_done by reflexivity. cbn [run_task].
    fold s2. by rewrite E. }
  rewrite (run_first source_id max_size (ECancel t) _ s tt s1 [] E1). by rewrite (run_first source_id max_size (ERun n) _ s1 tt s' _ E2).
Qed.

(** A write of a tunnel that is canceled while it is in progress. *)
Lemma cancel_in_write g n i t b op size s ec frame queued : good g (tokens s) s ->
  operations s !! n = Some (op, TunnelWriteDone i size) -> ExclusiveCommand.command i = WriteTunnel t b ->
  run source_id max_size [ECancel t; EComplete n ec frame queued] s = Faulted (Exception kBadFunctionCall).
Proof.
  intros Hg Hn Hi. destruct (operation_token g n _ _ s Hg Hn) as [_ Hg1]. destruct (held_write _ _ _ _ _ Hg1 Hi) as [tun Htun].
  destruct (wp_cancel g t tun s Hg Htun) as ([] & s1 & o1 & E1 & -> & _ & _ & _ & (_ & Ho & _ & tun' & Htun' & _ & Hh) & _).
  rewrite (run_first source_id max_size (ECancel t) _ s tt s1 [] E1). erewrite run_first_fault; [done|]. eapply (complete_without_handler _ _ n op i t b); [by rewrite Ho|done..].
Qed.

(** The state of a run that has not failed. *)
Lemma run_good es s out : client_legal source_id max_size es make = true -> run source_id max_size es make = Done (tt, s, out) ->
  exists g, good g (tokens s) s.
Proof.
  intros Hl E. destruct (client_run_goes source_id max_size Hmax es fresh make make_good Hl)
    as [(s1 & o1 & g & tw & E1 & Hg & _)|(? & ? & ? & ? & ? & ? & _ & _ & _ & E1 & _)]; [|by rewrite E1 in E].
  rewrite E1 in E. injection E as -> ->. by exists g.
Qed.
End late.

(** C40: a read that is canceled just before it starts keeps the lock.  In any run,
    when the command of a tunnel's read has been posted and has not run, canceling
    the tunnel makes the command tell its caller so and return: it never calls the
    handler that releases the lock, and no operation starts after that, whatever
    happens. *)
Theorem canceled_read_keeps_lock (source_id max_size : Z) (es : list event) (s : State) (out : list output) (n : nat) (i : Item) (t c : nat) :
  max_size < 0 \/ 3 <= max_size -> client_legal source_id max_size es make = true -> run source_id max_size es make = Done (tt, s, out) ->
  posted s !! n = Some (Lock (ExclusiveCommand.PostInvoke i)) -> ExclusiveCommand.command i = ReadTunnel t c ->
  exists s' h, run source_id max_size [ECancel t; ERun n] s = Done (tt, s', [CalledSize h kAborted 0]) /\
    forall more s'' out', run source_id max_size more s' = Done (tt, s'', out') -> out' ≫= operations_started = [].
Proof.
  intros Hm Hl E Hn Hi. destruct (run_good source_id max_size Hm es s out Hl E) as [g Hg].
  destruct (cancel_before_run source_id max_size Hm g n i t c s Hg Hn Hi) as (s' & h & E' & Hs).
  exists s', h. split; [done|]. intros more s'' out' Er. by destruct (calm_run source_id max_size more s' tt s'' out' Hs Er).
Qed.

(** A write that is canceled while it is in progress ends with an exception.
    In any run, when the frame of a tunnel's write is being sent and the tunnel is
    canceled, the handler of the write is dropped without being called, and the end
    of the operation calls an empty function. *)
Theorem canceled_write_throws (source_id max_size : Z) (es : list event) (s : State) (out : list output) (n : nat)
    (op : operation) (i : Item) (size : Z) (t : nat) (b : list (list byte)) (ec : Z) (frame : option Frame.Frame) (queued : bool) :
  max_size < 0 \/ 3 <= max_size -> client_legal source_id max_size es make = true -> run source_id max_size es make = Done (tt, s, out) ->
  operations s !! n = Some (op, TunnelWriteDone i size) -> ExclusiveCommand.command i = WriteTunnel t b ->
  run source_id max_size [ECancel t; EComplete n ec frame queued] s = Faulted (Exception kBadFunctionCall).
Proof.
  intros Hm Hl E Hn Hi. destruct (run_good source_id max_size Hm es s out Hl E) as [g Hg]. by eapply cancel_in_write.
Qed.

(** An error of the read of an answer, but the timeout, is not looked at: what the
    frame of the read before says is taken for the answer. *)
Lemma read_error_ignored (source_id : Z) (ec : Z) (i : Item) (t c : nat) (queued : bool) :
  ec <> kAborted -> TunnelHandleRead source_id ec i t c queued = TunnelHandleRead source_id 0 i t c queued.
Proof. intros Hn. unfold TunnelHandleRead. by rewrite (proj2 (Z.eqb_neq _ _) Hn). Qed.

(** ** Concrete runs *)
Definition demo_request : IdRequest :=
  {| id := 3; request := match RegisterRequest.ReadSingle RegisterRequest.make 2 1 with Done r => r | _ => RegisterRequest.make end |}.
Definition demo_frame (source : Z) (payload : list Z) : Frame.Frame :=
  {| Frame.source_id := source; Frame.request_reply := false; Frame.dest_id := 0; Frame.payload := map byte.of_Z payload |}.

(** A request that is answered, with an answer of a tunnel in front of it; a poll of
    the tunnel that times out, a write to it, and a poll that is answered. *)
Definition client_demo_events : list event :=
  [EMakeTunnel 5 1 10; ETransmit [demo_request] (Some 0%nat) 100; ERead 0 [(1000, 4)] 200; EWrite 0 [map byte.of_Z [0x61; 0x62; 0x63]] 300;
   ERun 0; EComplete 0 0 None false; EComplete 0 0 (Some (demo_frame 5 [0x41; 1; 2; 0x61; 0x62])) false;
   EComplete 0 0 (Some (demo_frame 3 [0x25; 2; 0x34; 0x12])) false; ERun 0; ERun 1; ERun 0; ERun 0;
   EComplete 0 0 None false; EComplete 0 kAborted None false; ETimer 0 0; ERun 0; ERun 0; EComplete 0 0 None false; ERun 0; ERun 0;
   EComplete 0 0 None false; EComplete 0 0 (Some (demo_frame 5 [0x41; 1; 2; 0x61; 0x62])) false; ERun 0; ERun 0].

Example demo_called :
  ('(_, s, out) ← run 0 64 client_demo_events make; Done (posted s, operations s, waits s, out ≫= called, replies s !! 0%nat))
  = Done ([], [], [], [100; 300; 200]%nat, Some [(3, 2, Format.RValue (Format.VInt16 0x1234))]).
Proof. vm_compute. reflexivity. Qed.

(** The state a run leads to. *)
Definition state_after (es : list event) : State := match run 0 64 es make with Done (_, s, _) => s | Faulted _ => make end.
Definition demo_read : list event := [EMakeTunnel 5 1 10; ERead 0 [(1000, 4)] 200].
Definition demo_write : list event := [EMakeTunnel 5 1 10; EWrite 0 [map byte.of_Z [0x61; 0x62; 0x63]] 300; ERun 0].
Definition output_after (es : list event) : list output := match run 0 64 es make with Done (_, _, out) => out | Faulted _ => [] end.

(** A read that is canceled in front of its turn, and what is asked for behind it; a
    write that is canceled while it is in progress, and the next one, which gets its
    result; and the same without the next one. *)
Definition demo_kept : list event := demo_read ++ [ECancel 0; ERun 0; ETransmit [demo_request] (Some 0%nat) 100].
Definition demo_swapped : list event :=
  demo_write ++ [ECancel 0; EWrite 0 [map byte.of_Z [0x64]] 301; EComplete 0 0 None false; ERun 0; ERun 0].
Definition demo_thrown : list event := demo_write ++ [ECancel 0; EComplete 0 0 None false].

Example demo_late_cancels :
  (output_after demo_kept ≫= called, ExclusiveCommand.queued (lock (state_after demo_kept)) ≫= item_handlers, lost_by 0 64 demo_kept make,
   output_after demo_swapped ≫= called, lost_by 0 64 demo_swapped make, run 0 64 demo_thrown make)
  = ([200], [100], [], [301], [300], Faulted (Exception kBadFunctionCall))%nat.
Proof. vm_compute. reflexivity. Qed.

Lemma client_one_operation_witness :
  Forall (fun es =>
    (exists s out, run 0 64 es make = Done (tt, s, out) /\ (length (operations s) <= 1)%nat /\
      (ExclusiveCommand.waiting (lock s) = None -> tokens s = []) /\
      (tokens s = [] -> ExclusiveCommand.waiting (lock s) = None \/
         exists w, ExclusiveCommand.waiting (lock s) = Some w /\ canceled_read (contexts s) w)) \/
    (exists es1 e es2 s out f, es = es1 ++ e :: es2 /\ run 0 64 es1 make = Done (tt, s, out) /\
      handle 0 64 e s = Faulted f /\ run 0 64 es make = Faulted f /\ fails e s f /\
      (f = Exception kBadFunctionCall -> lost_by 0 64 es1 make <> [])))
    [client_demo_events; demo_kept; demo_swapped; demo_thrown].
Proof. do 4 (constructor; [apply client_one_operation; [lia|vm_compute; reflexivity]|]). constructor. Defined.

Lemma client_calls_handlers_witness :
  Forall (fun es => let s := state_after es in let out := output_after es in
    (exists twice, (twice = [] \/ stuck s /\ exists h, twice = [h]) /\
      forall h, (times h (es ≫= given) + times h twice =
                 times h (out ≫= called) + times h (owed (tokens s) s) + times h (lost_by 0 64 es make))%nat) /\
    (posted s = [] -> operations s = [] -> waits s = [] -> ExclusiveCommand.waiting (lock s) = None ->
       lost_by 0 64 es make = [] /\ forall h, times h (es ≫= given) = times h (out ≫= called)))
    [client_demo_events; demo_kept; demo_swapped].
Proof. do 3 (constructor; [apply client_calls_handlers; [lia|vm_compute; reflexivity..]|]). constructor. Defined.

Lemma canceled_read_keeps_lock_witness :
  exists s' h, run 0 64 [ECancel 0; ERun 0] (state_after demo_read) = Done (tt, s', [CalledSize h kAborted 0]) /\
    forall more s'' out', run 0 64 more s' = Done (tt, s'', out') -> out' ≫= operations_started = [].
Proof.
  apply (canceled_read_keeps_lock 0 64 demo_read (state_after demo_read) [] 0
    {| ExclusiveCommand.nonce := 0%nat; ExclusiveCommand.command := ReadTunnel 0 0 |} 0 0);
    [lia|vm_compute; reflexivity..].
Defined.

Lemma canceled_write_throws_witness :
  run 0 64 [ECancel 0; EComplete 0 0 None false] (state_after demo_write) = Faulted (Exception kBadFunctionCall).
Proof.
  apply (canceled_write_throws 0 64 demo_write (state_after demo_write)
    [Started (AsyncWrite {| Frame.source_id := 0; Frame.request_reply := false; Frame.dest_id := 5;
                            Frame.payload := map byte.of_Z [0x40; 1; 3; 0x61; 0x62; 0x63] |})] 0
    (AsyncWrite {| Frame.source_id := 0; Frame.request_reply := false; Frame.dest_id := 5;
                   Frame.payload := map byte.of_Z [0x40; 1; 3; 0x61; 0x62; 0x63] |})
    {| ExclusiveCommand.nonce := 0%nat; ExclusiveCommand.command := WriteTunnel 0 [map byte.of_Z [0x61; 0x62; 0x63]] |} 3 0
    [map byte.of_Z [0x61; 0x62; 0x63]]);
    [lia|vm_compute; reflexivity..].
Defined.
