(* ===== verification/ClientRegisters.v ===== *)
(** * Registers end to end: the host's client, the bus and the servers

    A request of the host's client to several devices, whose frames are served by
    the servers of MicroServer.v and answered, while other frames come in between. *)
From stdpp Require Import gmap sets.
From S2P Require Import Prelude Varuint Streams MultiplexStream Register MicroServer MicroServerSafety RegisterServer FrameStream ExclusiveCommand StreamAsioClient ClientTheory.
#[local] Open Scope Z_scope.
Import StreamAsioClient.

(** ** One request after the other *)

(** A request to a device, the frames of others that come before its answer, and
    the answer, if the request asks for one. *)
Record exchange := { ask : IdRequest; strays : list Frame.Frame; answer : option Frame.Frame }.

Section exchanges.
Context (source_id max_size : Z).

Definition frame_of (r : IdRequest) : Frame.Frame :=
  {| Frame.source_id := source_id; Frame.dest_id := id r; Frame.request_reply := RegisterRequest.request_reply_ (request r);
     Frame.payload := RegisterRequest.buffer (request r) |}.

Definition from_device (r : IdRequest) (f : Frame.Frame) : bool := (Frame.source_id f =? id r) && (Frame.dest_id f =? source_id).

Definition exchange_ok (e : exchange) : bool :=
  if RegisterRequest.request_reply_ (request (ask e)) then
    forallb (fun f => negb (from_device (ask e) f)) (strays e) && match answer e with Some f => from_device (ask e) f | None => false end
  else match strays e, answer e with [], None => true | _, _ => false end.

Definition parsed (f : Frame.Frame) : list (Z * Format.ReadResult) :=
  match RegisterParser.ParseRegisterReply (S (length (Frame.payload f))) (FastIStringStream.make (Frame.payload f)) with
  | Done (values, _) => values
  | Faulted _ => []
  end.

Definition entries (source : Z) (values : list (Z * Format.ReadResult)) : list IdRegisterValue :=
  map (fun v => (source, fst v, snd v)) values.

(** What an exchange adds to the reply of the caller. *)
Definition exchange_values (e : exchange) : list IdRegisterValue :=
  match answer e with Some f => entries (Frame.source_id f) (parsed f) | None => [] end.

(** What it starts. *)
Definition exchange_output (e : exchange) : list output :=
  Started (AsyncWrite (frame_of (ask e))) ::
  match answer e with
  | Some _ => Started (AsyncRead kDefaultTimeout) :: map (fun _ => Started (AsyncRead kDefaultTimeout)) (strays e)
  | None => []
  end.

(** The executor and the frame stream go on as far as they can: the command runs,
    its write ends, reads end with what comes, then the handler runs, and the lock. *)
Definition arrives (f : Frame.Frame) : event := EComplete 0 0 (Some f) false.
Definition exchange_events (e : exchange) : list event :=
  [ERun 0; EComplete 0 0 None false] ++ map arrives (strays e) ++ map arrives (option_list (answer e)).

(** The handler of the command runs, and the lock is free for the next. *)
Definition next_events : list event := [ERun 0; ERun 0].

Definition script (es : list exchange) : list event := concat (map (fun e => exchange_events e ++ next_events) es) ++ [ERun 0].

(** Nothing is going on. *)
Definition idle (s : State) : Prop :=
  ExclusiveCommand.waiting (lock s) = None /\ ExclusiveCommand.queued (lock s) = [] /\ posted s = [] /\ operations s = [].

(** A command is about to run. *)
Definition about_to (c : command) (s : State) : Prop :=
  exists n, ExclusiveCommand.waiting (lock s) = Some {| ExclusiveCommand.nonce := n; ExclusiveCommand.command := c |} /\
    ExclusiveCommand.queued (lock s) = [] /\ posted s = [Lock (ExclusiveCommand.PostInvoke {| ExclusiveCommand.nonce := n; ExclusiveCommand.command := c |})] /\
    operations s = [].

#[local] Abbreviation run := (run source_id max_size).

Lemma wp_run_cons e es s (Q : unit -> State -> list output -> Prop) :
  wp (handle source_id max_size e) s (fun _ s1 o1 => wp (run es) s1 (fun u s2 o2 => Q u s2 (o1 ++ o2))) -> wp (run (e :: es)) s Q.
Proof. intros H. cbn [StreamAsioClient.run]. by wp_step. Qed.

Lemma wp_run_nil s (Q : unit -> State -> list output -> Prop) : Q tt s [] -> wp (run []) s Q.
Proof. intros H. cbn [StreamAsioClient.run]. by wp_step. Qed.

Lemma wp_run_app es es' s (Q : unit -> State -> list output -> Prop) :
  wp (run es) s (fun _ s1 o1 => wp (run es') s1 (fun u s2 o2 => Q u s2 (o1 ++ o2))) -> wp (run (es ++ es')) s Q.
Proof.
  revert s Q. induction es as [|e es IH]; intros s Q H; cbn [app].
  - destruct H as ([] & s1 & o1 & [= <- <-] & H). exact H.
  - apply wp_run_cons. destruct H as (u & s2 & o2 & E & H). cbn [StreamAsioClient.run] in E. unfold mbind, M_bind in E.
    destruct (handle source_id max_size e s) as [[[[] s1] o1]|] eqn:Eh; [|done]. rewrite bind_done in E. cbn beta iota in E.
    destruct (run es s1) as [[[b s3] o3]|] eqn:Er; [|done]. rewrite bind_done in E. injection E as <- <- <-.
    exists tt, s1, o1. split; [done|]. apply IH. exists b, s3, o3. split; [done|]. cbn beta. eapply wp_mono; [exact H|].
    intros a s4 o4. by rewrite app_assoc.
Qed.

(** The answer of a device is awaited. *)
Definition awaits (item : Item) (reply : option nat) (r : IdRequest) (s : State) : Prop :=
  ExclusiveCommand.waiting (lock s) = Some item /\ ExclusiveCommand.queued (lock s) = [] /\ posted s = [] /\
  operations s = [(AsyncRead kDefaultTimeout, ReadDone item reply)] /\ tx_frame s = frame_of r.

(** The handler of a command has been posted. *)
Definition answered_ok (item : Item) (s : State) : Prop :=
  ExclusiveCommand.waiting (lock s) = Some item /\ ExclusiveCommand.queued (lock s) = [] /\
  posted s = [CallWrapper item 0] /\ operations s = [].

(** The end of the only operation in progress. *)
Lemma wp_complete op cb frame ec queued s (Q : unit -> State -> list output -> Prop) : operations s = [(op, cb)] ->
  wp (complete source_id cb ec queued)
    (match op, frame with AsyncRead _, Some f => with_rx_frame f (with_operations [] s) | _, _ => with_operations [] s end) Q ->
  wp (handle source_id max_size (EComplete 0 ec frame queued)) s Q.
Proof.
  intros Ho HQ. cbn [handle]. wp_step. eapply wp_deref; [by rewrite Ho|]. cbn beta iota. do 2 wp_step. rewrite Ho. cbn [delete list_delete].
  destruct op, frame; (wp_step; wp_step; exact HQ).
Qed.

(** The only task that is posted runs. *)
Lemma wp_run t s (Q : unit -> State -> list output -> Prop) : posted s = [t] ->
  wp (run_task source_id max_size t) (with_posted [] s) Q -> wp (handle source_id max_size (ERun 0)) s Q.
Proof. intros Hp HQ. cbn [handle]. wp_step. eapply wp_deref; [by rewrite Hp|]. do 2 wp_step. rewrite Hp. exact HQ. Qed.

Lemma stray_arrives item reply r f s : awaits item reply r s -> from_device r f = false ->
  wp (handle source_id max_size (arrives f)) s (fun _ s' out => out = [Started (AsyncRead kDefaultTimeout)] /\
    awaits item reply r s' /\ replies s' = replies s).
Proof.
  intros (Hw & Hq & Hp & Ho & Ht) Hf. eapply wp_complete; [done|]. cbn [complete]. unfold HandleRead. change (0 =? kAborted) with false. cbn iota. wp_step. eapply wp_lift; [done|].
  do 4 wp_step. cbn [rx_frame tx_frame with_rx_frame with_operations]. rewrite Ht. cbn [frame_of Frame.dest_id Frame.source_id].
  unfold from_device in Hf. rewrite <- negb_andb, Hf. cbn [negb]. unfold start. do 2 wp_step. wp_step. by split_and!.
Qed.

Lemma answer_arrives item reply r f s : awaits item (Some reply) r s -> from_device r f = true ->
  wp (handle source_id max_size (arrives f)) s (fun _ s' out => out = [] /\ answered_ok item s' /\
    replies s' = <[reply := default [] (replies s !! reply) ++ entries (Frame.source_id f) (parsed f)]> (replies s)).
Proof.
  intros (Hw & Hq & Hp & Ho & Ht) Hf. eapply wp_complete; [done|]. cbn [complete]. unfold HandleRead. change (0 =? kAborted) with false. cbn iota. wp_step. eapply wp_lift; [done|].
  do 4 wp_step. cbn [rx_frame tx_frame with_rx_frame with_operations]. rewrite Ht. cbn [frame_of Frame.dest_id Frame.source_id].
  unfold from_device in Hf. rewrite <- negb_andb, Hf. cbn [negb]. unfold parsed.
  destruct (parse_total f) as (values & rest & E). rewrite E.
  do 2 wp_step. eapply wp_lift; [reflexivity|]. cbn beta iota. do 2 wp_step. cbn. by split_and!; rewrite ?Hp.
Qed.

Lemma strays_arrive item reply r fs : forall s, awaits item reply r s -> forallb (fun f => negb (from_device r f)) fs = true ->
  wp (run (map arrives fs)) s (fun _ s' out => out = map (fun _ => Started (AsyncRead kDefaultTimeout)) fs /\
    awaits item reply r s' /\ replies s' = replies s).
Proof.
  induction fs as [|f fs IH]; intros s Hs Hf; cbn [map forallb] in *; [by apply wp_run_nil|].
  apply andb_true_iff in Hf as [Hf%negb_true_iff Hfs]. apply wp_run_cons. eapply wp_mono; [by eapply stray_arrives|].
  intros u s1 o1 (-> & Hs1 & R1). eapply wp_mono; [by apply IH|]. intros u' s2 o2 (-> & Hs2 & R2). by rewrite R2.
Qed.

(** The command runs, the frame is sent, and what comes is read. *)
Lemma exchange_runs e reply n l s : about_to (TransmitOne (ask e) (Some reply) n) s -> exchange_ok e = true -> replies s !! reply = Some l ->
  wp (run (exchange_events e)) s (fun _ s' out => out = exchange_output e /\
    (exists item, ExclusiveCommand.command item = TransmitOne (ask e) (Some reply) n /\ answered_ok item s') /\
    replies s' = <[reply := l ++ exchange_values e]> (replies s)).
Proof.
  intros (k & Hw & Hq & Hp & Ho) He Hl. set (item := {| ExclusiveCommand.nonce := k; ExclusiveCommand.command := _ |}) in *.
  unfold exchange_events. apply wp_run_app, wp_run_cons. eapply wp_run; [exact Hp|]. cbn [run_task]. unfold Invoke. cbn [ExclusiveCommand.command item].
  unfold TransmitOne_command, start. do 5 wp_step. apply wp_run_cons. eapply wp_complete; [cbn; by rewrite Ho|]. cbn [complete].
  unfold HandleSingleWrite. unfold exchange_ok in He. unfold exchange_output, exchange_values, frame_of.
  destruct (RegisterRequest.request_reply_ (request (ask e))) eqn:Er; cbn [negb].
  - apply andb_true_iff in He as [Hst Ha]. destruct (answer e) as [f|]; [|done]. wp_step. eapply wp_lift; [done|]. unfold start. do 3 wp_step.
    apply wp_run_nil, wp_run_app. eapply wp_mono; [apply (strays_arrive item (Some reply) (ask e)); [|exact Hst]|].
    { split_and!; try done. cbn. unfold frame_of. by rewrite Er. }
    intros u s1 o1 (-> & Hs1 & R1). cbn [option_list map]. apply wp_run_cons. eapply wp_mono; [by eapply answer_arrives|].
    intros u' s2 o2 (-> & Hs2 & R2). apply wp_run_nil. split_and!.
    + cbn. by rewrite app_nil_r.
    + by exists item.
    + rewrite R2, R1. cbn. by rewrite Hl.
  - destruct (strays e), (answer e); try done. wp_step. apply wp_run_nil, wp_run_app. cbn [map option_list]. do 2 apply wp_run_nil.
    split_and!; [done| |].
    + exists item. by split_and!.
    + cbn. rewrite app_nil_r. by rewrite insert_id.
Qed.

(** The handler of a command, with more to send or nothing. *)
Lemma wrapper_next item r reply n r' rest s : answered_ok item s -> ExclusiveCommand.command item = TransmitOne r reply n ->
  remainder n = r' :: rest ->
  wp (run next_events) s (fun _ s' out => out = [] /\
    about_to (TransmitOne r' (next_reply n) {| next_handler := next_handler n; next_reply := next_reply n; remainder := rest |}) s' /\
    replies s' = replies s).
Proof.
  intros (Hw & Hq & Hp & Ho) Hi Hr. destruct s as [[w q k] ps ops ws rx tx txs ts cs rs]. cbn in Hw, Hq, Hp, Ho. subst.
  unfold next_events. apply wp_run_cons. eapply wp_run; [done|]. cbn [run_task]. unfold HandlerWrapper. rewrite Hi. wp_step.
  unfold next. cbn [Z.eqb negb]. unfold SequenceRegister. rewrite Hr. unfold AsyncRegister, lock_Invoke. cbn beta iota. do 3 wp_step.
  cbn -[StreamAsioClient.run]. do 9 wp_step. eapply wp_lift; [done|]. wp_step. apply wp_run_cons. eapply wp_run; [done|]. cbn [run_task]. unfold ItemDone.
  do 3 wp_step. eapply wp_lift; [done|]. cbn -[StreamAsioClient.run]. do 3 wp_step. apply wp_run_nil. split; [done|]. split; [|done]. by eexists.
Qed.

Lemma wrapper_last item r reply n s : answered_ok item s -> ExclusiveCommand.command item = TransmitOne r reply n -> remainder n = [] ->
  wp (run (next_events ++ [ERun 0])) s (fun _ s' out => out = [Called (next_handler n) 0] /\ idle s' /\ replies s' = replies s).
Proof.
  intros (Hw & Hq & Hp & Ho) Hi Hr. destruct s as [[w q k] ps ops ws rx tx txs ts cs rs]. cbn in Hw, Hq, Hp, Ho. subst.
  unfold next_events. cbn [app]. apply wp_run_cons. eapply wp_run; [done|]. cbn [run_task]. unfold HandlerWrapper. rewrite Hi. wp_step.
  unfold next. cbn [Z.eqb negb]. unfold SequenceRegister. rewrite Hr. wp_step. do 3 wp_step. eapply wp_lift; [done|]. wp_step.
  apply wp_run_cons. cbn [handle]. wp_step. eapply wp_deref; [done|]. do 2 wp_step. cbn [run_task]. wp_step.
  apply wp_run_cons. eapply wp_run; [done|]. cbn [run_task]. unfold ItemDone. do 3 wp_step. eapply wp_lift; [done|]. cbn -[StreamAsioClient.run]. do 3 wp_step.
  apply wp_run_nil. by split.
Qed.

Lemma script_cons e es : script (e :: es) = exchange_events e ++ next_events ++ script es.
Proof. unfold script. cbn [map concat]. by rewrite <- !app_assoc. Qed.

(** All of the requests, one after the other. *)
Lemma script_runs reply h es : forall e l s, Forall (fun e => exchange_ok e = true) (e :: es) -> replies s !! reply = Some l ->
  about_to (TransmitOne (ask e) (Some reply) {| next_handler := h; next_reply := Some reply; remainder := map ask es |}) s ->
  wp (run (script (e :: es))) s (fun _ s' out => out = concat (map exchange_output (e :: es)) ++ [Called h 0] /\ idle s' /\
    replies s' = <[reply := l ++ concat (map exchange_values (e :: es))]> (replies s)).
Proof.
  induction es as [|e' es IH]; intros e l s Hok Hl Ha; apply Forall_cons_1 in Hok as [He Hok].
  - unfold script. cbn [map concat]. rewrite app_nil_r, <- app_assoc. apply wp_run_app. eapply wp_mono; [by eapply exchange_runs|].
    intros u s1 o1 (-> & (item & Hi & Hs1) & R1). eapply wp_mono; [by eapply wrapper_last|].
    intros u' s2 o2 (-> & Hid & R2). split; [cbn; by rewrite app_nil_r|]. split; [done|]. cbn. by rewrite R2, R1, app_nil_r.
  - rewrite script_cons. apply wp_run_app. eapply wp_mono; [by eapply exchange_runs|].
    intros u s1 o1 (-> & (item & Hi & Hs1) & R1). apply wp_run_app. eapply wp_mono; [by eapply wrapper_next|].
    intros u' s2 o2 (-> & Ha2 & R2). eapply wp_mono; [apply (IH e' (l ++ exchange_values e)); [done| |exact Ha2]|].
    { rewrite R2, R1. by rewrite lookup_insert_eq. }
    intros u'' s3 o3 (-> & Hid & R3). split; [cbn [map concat app]; by rewrite <- !app_assoc|]. split; [done|].
    rewrite R3, R2, R1, insert_insert_eq. cbn [map concat]. by rewrite !app_assoc.
Qed.

(** Up to one of them. *)
Definition starts (reply h : nat) (es : list exchange) (s : State) : Prop :=
  match es with
  | [] => False
  | e :: es => about_to (TransmitOne (ask e) (Some reply) {| next_handler := h; next_reply := Some reply; remainder := map ask es |}) s
  end.

Lemma prefix_runs reply h e rest es : forall l s, Forall (fun e => exchange_ok e = true) es -> replies s !! reply = Some l ->
  starts reply h (es ++ e :: rest) s ->
  wp (run (concat (map (fun e => exchange_events e ++ next_events) es))) s (fun _ s' out => out = concat (map exchange_output es) /\
    starts reply h (e :: rest) s' /\ replies s' = <[reply := l ++ concat (map exchange_values es)]> (replies s)).
Proof.
  induction es as [|e1 es IH]; intros l s Hok Hl Ha; cbn [map concat app] in *.
  - apply wp_run_nil. split; [done|]. split; [done|]. by rewrite app_nil_r, insert_id.
  - apply Forall_cons_1 in Hok as [He Hok]. rewrite <- app_assoc. apply wp_run_app. eapply wp_mono; [by eapply exchange_runs|].
    intros u s1 o1 (-> & (item & Hi & Hs1) & R1). apply wp_run_app.
    assert (exists e2 es2, es ++ e :: rest = e2 :: es2) as (e2 & es2 & Ee) by (destruct es; cbn; eauto). rewrite Ee in *.
    eapply wp_mono; [by eapply wrapper_next|]. intros u' s2 o2 (-> & Ha2 & R2).
    eapply wp_mono; [apply (IH (l ++ exchange_values e1)); [done| |exact Ha2]|].
    { rewrite R2, R1. by rewrite lookup_insert_eq. }
    intros u'' s3 o3 (-> & Hid & R3). split; [done|]. split; [done|]. rewrite R3, R2, R1, insert_insert_eq. by rewrite !app_assoc.
Qed.

(** A call of the caller, whose first command is about to run. *)
Lemma transmit_starts reply h es s : idle s -> existsb (fun e => RegisterRequest.request_reply_ (request (ask e))) es = true ->
  wp (handle source_id max_size (ETransmit (map ask es) (Some reply) h)) s (fun _ s' out => out = [] /\ starts reply h es s' /\
    replies s' = <[reply := []]> (replies s)).
Proof.
  intros (Hw & Hq & Hp & Ho) Hr. destruct es as [|e es]; [done|]. destruct s as [[w q k] ps ops ws rx tx txs ts cs rs].
  cbn in Hw, Hq, Hp, Ho. subst. cbn [handle]. unfold AsyncTransmit.
  assert (existsb (fun r => RegisterRequest.request_reply_ (request r)) (map ask (e :: es)) = true) as ->.
  { clear -Hr. induction (e :: es) as [|e' l IH]; [done|]. cbn in *. apply orb_true_iff in Hr as [->|Hr]; [done|]. rewrite IH by done. apply orb_true_r. }
  do 2 wp_step. cbn [map SequenceRegister]. unfold AsyncRegister, lock_Invoke. do 3 wp_step. cbn. do 6 wp_step.
  split; [done|]. split; [by eexists|done].
Qed.

(** And what follows. *)
Lemma transmit_runs reply h es s : Forall (fun e => exchange_ok e = true) es -> idle s ->
  existsb (fun e => RegisterRequest.request_reply_ (request (ask e))) es = true ->
  wp (run (ETransmit (map ask es) (Some reply) h :: script es)) s (fun _ s' out =>
    out = concat (map exchange_output es) ++ [Called h 0] /\ idle s' /\
    replies s' = <[reply := concat (map exchange_values es)]> (replies s)).
Proof.
  intros Hok Hs Hr. apply wp_run_cons. eapply wp_mono; [by apply (transmit_starts reply h es)|]. intros u s1 o1 (-> & Ha & R1).
  destruct es as [|e es]; [done|]. eapply wp_mono; [apply (script_runs reply h es e []); [done| |exact Ha]|].
  - rewrite R1. apply lookup_insert_eq.
  - intros u' s' out (-> & Hid & R). split; [done|]. split; [done|]. rewrite R, R1. by rewrite insert_insert_eq.
Qed.

(** A device that does not answer: its read times out, after what others sent. *)
Definition timeout_events (e : exchange) : list event :=
  [ERun 0; EComplete 0 0 None false] ++ map arrives (strays e) ++ [EComplete 0 kAborted None false; ERun 0; ERun 0; ERun 0].

Definition timeout_output (e : exchange) : list output :=
  Started (AsyncWrite (frame_of (ask e))) :: Started (AsyncRead kDefaultTimeout) :: map (fun _ => Started (AsyncRead kDefaultTimeout)) (strays e).

Lemma timeout_runs e reply h rest s : starts reply h (e :: rest) s ->
  RegisterRequest.request_reply_ (request (ask e)) = true -> forallb (fun f => negb (from_device (ask e) f)) (strays e) = true ->
  wp (run (timeout_events e)) s (fun _ s' out => out = timeout_output e ++ [Called h kAborted] /\ idle s' /\ replies s' = replies s).
Proof.
  intros (k & Hw & Hq & Hp & Ho) Hr Hst. set (item := {| ExclusiveCommand.nonce := k; ExclusiveCommand.command := _ |}) in *.
  unfold timeout_events. apply wp_run_app, wp_run_cons. eapply wp_run; [exact Hp|]. cbn [run_task]. unfold Invoke. cbn [ExclusiveCommand.command item].
  unfold TransmitOne_command, start. do 5 wp_step. apply wp_run_cons. eapply wp_complete; [cbn; by rewrite Ho|]. cbn [complete].
  unfold HandleSingleWrite. unfold timeout_output, frame_of. rewrite Hr. cbn [negb]. wp_step. eapply wp_lift; [done|]. unfold start. do 3 wp_step.
  apply wp_run_nil, wp_run_app. eapply wp_mono; [apply (strays_arrive item (Some reply) (ask e)); [|exact Hst]|].
  { split_and!; try done. cbn. unfold frame_of. by rewrite Hr. }
  intros u s1 o1 (-> & (Hw1 & Hq1 & Hp1 & Ho1 & _) & R1). destruct s1 as [[w q k1] ps ops ws rx tx txs ts cs rs]. cbn in Hw1, Hq1, Hp1, Ho1. subst.
  apply wp_run_cons. eapply wp_complete; [done|]. cbn [complete]. unfold HandleRead. change (kAborted =? kAborted) with true. cbn iota. wp_step.
  apply wp_run_cons. eapply wp_run; [done|]. cbn [run_task]. unfold HandlerWrapper. cbn [ExclusiveCommand.command item]. wp_step.
  unfold next. change (kAborted =? 0) with false. cbn [negb]. wp_step. do 3 wp_step. eapply wp_lift; [done|]. wp_step.
  apply wp_run_cons. cbn [handle]. wp_step. eapply wp_deref; [done|]. do 2 wp_step. cbn [run_task]. wp_step.
  apply wp_run_cons. eapply wp_run; [done|]. cbn [run_task]. unfold ItemDone. do 3 wp_step. eapply wp_lift; [done|]. cbn -[StreamAsioClient.run]. do 3 wp_step.
  apply wp_run_nil. split; [cbn; by rewrite ?app_nil_r|]. split; [done|exact R1].
Qed.
End exchanges.

(** C39: a device that does not answer ends the request.  When the read after the
    frame to a device times out, the requests behind it are not sent, the caller's
    handler is called once, with the error of a timeout, the reply holds what the
    devices in front of it answered, and the client is idle again. *)
Theorem timeout_ends_request (stream_max source_id : Z) (es rest : list exchange) (e : exchange) (reply h : nat) (s : State) :
  Forall (fun e => exchange_ok source_id e = true) es -> RegisterRequest.request_reply_ (request (ask e)) = true ->
  forallb (fun f => negb (from_device source_id (ask e) f)) (strays e) = true -> idle s ->
  exists s', run source_id stream_max (ETransmit (map ask (es ++ e :: rest)) (Some reply) h ::
        concat (map (fun e => exchange_events e ++ next_events) es) ++ timeout_events e) s =
      Done (tt, s', concat (map (exchange_output source_id) es) ++ timeout_output source_id e ++ [Called h kAborted]) /\
    replies s' !! reply = Some (concat (map exchange_values es)) /\ idle s'.
Proof.
  intros Hok Hr Hst Hs. enough (wp (run source_id stream_max (ETransmit (map ask (es ++ e :: rest)) (Some reply) h ::
        concat (map (fun e => exchange_events e ++ next_events) es) ++ timeout_events e)) s (fun _ s' out =>
      out = concat (map (exchange_output source_id) es) ++ timeout_output source_id e ++ [Called h kAborted] /\
      replies s' !! reply = Some (concat (map exchange_values es)) /\ idle s')) as ([] & s' & out & E & -> & H) by eauto.
  apply wp_run_cons. eapply wp_mono; [apply (transmit_starts source_id stream_max reply h); [done|]|].
  { rewrite existsb_app. cbn [existsb]. by rewrite Hr, orb_true_r. }
  intros u s1 o1 (-> & Ha & R1). apply wp_run_app. eapply wp_mono; [apply (prefix_runs source_id stream_max reply h e rest es []); [done| |exact Ha]|].
  { rewrite R1. apply lookup_insert_eq. }
  intros u' s2 o2 (-> & Ha2 & R2). eapply wp_mono; [by eapply timeout_runs|]. intros u'' s3 o3 (-> & Hid & R3).
  split; [done|]. split; [|done]. by rewrite R3, R2, lookup_insert_eq.
Qed.

(** ** Devices *)
Section devices.
Context {T C : Type} (server : Server T) (client : Client C) (max_size : Z) (buf : list byte).
Context (source_id : Z) (Hserver : typed_server server).
Abbreviation Device := (@MicroServer.State T C).

(** The devices of a bus, by their identifiers. *)
Definition with_device (i : Z) (d : Device) (devs : Z -> Device) : Z -> Device := fun j => if j =? i then d else devs j.

(** The bus: every request is built and served by its device, in order, and its
    answer, if one is asked for, comes after [noise] of other frames. *)
Fixpoint converse (noise : Z -> list Frame.Frame) (devs : Z -> Device) (asks : list (Z * list request_op))
    : outcome (list exchange * (Z -> Device)) :=
  match asks with
  | [] => Done ([], devs)
  | (i, ops) :: asks =>
      r ← run_ops RegisterRequest.make ops;
      '(d, w) ← ProcessSubframes server client max_size (devs i) (RegisterRequest.buffer r) (BufferWriteStream.make buf)
                  (RegisterRequest.request_reply_ r);
      let e :=
        {| ask := {| id := i; request := r |};
           strays := if RegisterRequest.request_reply_ r then noise i else [];
           answer := if RegisterRequest.request_reply_ r then
             Some {| Frame.source_id := i; Frame.request_reply := false; Frame.dest_id := source_id;
                     Frame.payload := BufferWriteStream.out w |} else None |} in
      '(es, devs) ← converse noise (with_device i d devs) asks;
      Done (e :: es, devs)
  end.

(** The specification: what is said of which register of which device, and how
    the devices are left. *)
Fixpoint served (devs : Z -> Device) (asks : list (Z * list request_op)) : list IdRegisterValue * (Z -> Device) :=
  match asks with
  | [] => ([], devs)
  | (i, ops) :: asks =>
      let '(replies, t, verdict) := serve server (srv (devs i)) ops in
      let '(values, devs) := served (with_device i (finish verdict (set_srv t (devs i))) devs) asks in
      ((if existsb op_reads ops then entries i (concat (map reply_entries replies)) else []) ++ values, devs)
  end.

(** No device refuses anything: no read and no write is answered with an error, and
    none discards the rest of a frame. *)
Fixpoint unrefused (devs : Z -> Device) (asks : list (Z * list request_op)) : bool :=
  match asks with
  | [] => true
  | (i, ops) :: asks =>
      let '(replies, t, verdict) := serve server (srv (devs i)) ops in
      match verdict with kContinue => true | _ => false end && forallb (fun r => negb (refusal r)) replies &&
      unrefused (with_device i (finish verdict (set_srv t (devs i))) devs) asks
  end.

(** The registers that are asked for, with their devices. *)
Definition asked_registers (asks : list (Z * list request_op)) : list (Z * Z) := asks ≫= fun a => map (pair (fst a)) (requested (snd a)).

(** Each of them is in the reply once, in order, with a value. *)
Definition each_answered (asks : list (Z * list request_op)) (values : list IdRegisterValue) : Prop :=
  map fst values = asked_registers asks /\ Forall (fun v => exists x, snd v = Format.RValue x) values.

Lemma requested_none ops : existsb op_reads ops = false -> requested ops = [].
Proof.
  induction ops as [|op ops IH]; intros H; [done|]. cbn in H. apply orb_false_iff in H as [Ho H]. unfold requested in *. cbn. rewrite (IH H).
  by destruct op.
Qed.

Lemma served_complete asks : forall devs, Forall (fun a => Forall op_ok (snd a)) asks -> unrefused devs asks = true -> each_answered asks (fst (served devs asks)).
Proof.
  induction asks as [|[i ops] asks IH]; intros devs Hok Hu; [done|]. apply Forall_cons_1 in Hok as [Hops Hok]. cbn [unrefused served snd] in *.
  pose proof (serve_names server ops (srv (devs i)) Hops) as Hn. destruct (serve server (srv (devs i)) ops) as [[replies t] verdict].
  apply andb_true_iff in Hu as [[Hv Hr]%andb_true_iff Hu]. destruct verdict; try done. destruct (IH _ Hok Hu) as [IH1 IH2].
  destruct (served _ asks) as [values devs']. cbn [fst] in *. destruct (served_entries replies Hr) as [He Hf].
  unfold each_answered, asked_registers. cbn [mbind list_bind fst snd]. rewrite map_app, IH1. split.
  - f_equal. destruct (existsb op_reads ops) eqn:Ex; [|by rewrite requested_none].
    unfold entries. rewrite map_map. cbn. rewrite <- Hn, <- He, map_map. done.
  - apply list.Forall_app. split; [|done]. destruct (existsb op_reads ops); [|constructor]. unfold entries. apply Forall_map.
    eapply list.Forall_impl; [exact Hf|]. done.
Qed.

Definition ask_ok (a : Z * list request_op) : Prop := Forall op_typed (snd a) /\ room (snd a) <= zlen buf.

Lemma converse_served noise asks : forall devs, Forall ask_ok asks ->
  (forall i f, f ∈ noise i -> Frame.source_id f <> i) ->
  exists es, converse noise devs asks = Done (es, snd (served devs asks)) /\ concat (map exchange_values es) = fst (served devs asks) /\
    Forall (fun e => exchange_ok source_id e = true) es /\
    existsb (fun e => RegisterRequest.request_reply_ (request (ask e))) es = existsb (fun a => existsb op_reads (snd a)) asks.
Proof.
  induction asks as [|[i ops] asks IH]; intros devs Hok Hnoise; [by exists []|]. apply Forall_cons_1 in Hok as [[Hops Hroom] Hok]. cbn [snd] in *.
  pose proof (request_served server client max_size (devs i) ops buf Hserver Hops Hroom) as R. cbn [converse served].
  destruct (serve server (srv (devs i)) ops) as [[replies t] verdict] eqn:Es. destruct R as (r & w & -> & Hr & E & Hp). rewrite bind_done, Hr, E, bind_done. cbn beta iota.
  destruct (IH (with_device i (finish verdict (set_srv t (devs i))) devs) Hok Hnoise) as (es & -> & Hv & He & Hx). rewrite bind_done. cbn beta iota.
  destruct (served _ asks) as [values devs'] eqn:Esv. cbn [fst snd] in *.
  eexists. split; [done|]. cbn [map concat existsb ask request]. rewrite Hr, Hx, Hv. split_and!; [| |done].
  - f_equal. unfold exchange_values. cbn [answer]. destruct (existsb op_reads ops) eqn:Ex; [|done]. cbn [Frame.source_id]. f_equal.
    unfold parsed. cbn [Frame.payload]. destruct (Hp eq_refl) as [_ Hf]. by destruct (Hf (S (length (BufferWriteStream.out w))) ltac:(lia)) as [rest ->].
  - constructor; [|done]. unfold exchange_ok. cbn [ask request strays answer]. rewrite Hr. destruct (existsb op_reads ops); [|done].
    apply andb_true_iff. split; [|unfold from_device; cbn; by rewrite !Z.eqb_refl].
    apply forallb_forall. intros f Hf%list_elem_of_In. unfold from_device. cbn. by rewrite (proj2 (Z.eqb_neq _ _) (Hnoise i f Hf)).
Qed.
End devices.

(** The client goes through the bus and its devices. *)
Lemma registers_served {T C} (server : Server T) (client : Client C) (max_size stream_max source_id : Z) (buf : list byte)
    (noise : Z -> list Frame.Frame) (devs : Z -> @MicroServer.State T C) (asks : list (Z * list request_op)) (reply h : nat) (s : State) :
  typed_server server -> Forall (ask_ok buf) asks -> (forall i f, f ∈ noise i -> Frame.source_id f <> i) ->
  existsb (fun a => existsb op_reads (snd a)) asks = true -> idle s ->
  exists es devs' s' out,
    converse server client max_size buf source_id noise devs asks = Done (es, devs') /\
    run source_id stream_max (ETransmit (map ask es) (Some reply) h :: script es) s = Done (tt, s', out) /\
    replies s' !! reply = Some (fst (served server devs asks)) /\ devs' = snd (served server devs asks) /\
    out = concat (map (exchange_output source_id) es) ++ [Called h 0] /\ idle s'.
Proof.
  intros Hs Hok Hn Hr Hi.
  destruct (converse_served server client max_size buf source_id Hs noise asks devs Hok Hn) as (es & E & Hv & He & Hx).
  rewrite Hr in Hx. destruct (transmit_runs source_id stream_max reply h es s He Hi Hx) as ([] & s' & out & Er & -> & Hid & R).
  exists es, (snd (served server devs asks)), s', (concat (map (exchange_output source_id) es) ++ [Called h 0]). split_and!; [done|done| |done..].
  by rewrite R, lookup_insert_eq, Hv.
Qed.

(** What the devices are asked is within what the formats hold. *)
Lemma asks_typed (buf : list byte) asks : Forall (ask_ok buf) asks -> Forall (fun a => Forall op_ok (snd a)) asks.
Proof. intros H. eapply list.Forall_impl; [exact H|]. intros a [Ha _]. by apply typed_ok. Qed.

(** C2: registers end to end.  Whatever operations a caller asks of whatever devices,
    at least one of them a read, the host's client sends the requests one after the
    other, each once the one before it is answered, and ignores what others send in
    between; the caller's reply is then what the servers of the devices answered to
    each request in turn by the specification of the service ([serve]), every device
    has seen exactly the writes to it, the caller's handler is called once, without
    an error, and the client is idle.  If no application refuses a read or a write,
    that reply has each register that was requested, once, in order, and its value;
    of a read that fails it has the register that failed alone. *)
Theorem registers_end_to_end {T C} (server : Server T) (client : Client C) (max_size stream_max source_id : Z) (buf : list byte)
    (noise : Z -> list Frame.Frame) (devs : Z -> @MicroServer.State T C) (asks : list (Z * list request_op)) (reply h : nat) (s : State) :
  typed_server server -> Forall (ask_ok buf) asks -> (forall i f, f ∈ noise i -> Frame.source_id f <> i) ->
  existsb (fun a => existsb op_reads (snd a)) asks = true -> idle s ->
  (exists es devs' s' out,
    converse server client max_size buf source_id noise devs asks = Done (es, devs') /\
    run source_id stream_max (ETransmit (map ask es) (Some reply) h :: script es) s = Done (tt, s', out) /\
    replies s' !! reply = Some (fst (served server devs asks)) /\ devs' = snd (served server devs asks) /\
    out = concat (map (exchange_output source_id) es) ++ [Called h 0] /\ idle s') /\
  (unrefused server devs asks = true -> each_answered asks (fst (served server devs asks))).
Proof.
  intros Hs Hok Hn Hr Hi. split; [by apply registers_served|]. apply served_complete. by eapply asks_typed.
Qed.

(** ** Concrete runs *)
Definition demo_asks : list (Z * list request_op) :=
  [(1, demo_ops); (2, [OpWriteSingle 1 (Format.VInt32 9)]); (2, [OpReadSingle 1 2])].
Definition demo_noise (i : Z) : list Frame.Frame :=
  [{| Frame.source_id := i + 1; Frame.request_reply := false; Frame.dest_id := 0; Frame.payload := [] |}].
Definition demo_devices (i : Z) : @MicroServer.State Z (list byte) := demo_state.

Example demo_asked : fst (served demo_server demo_devices demo_asks) =
  [(1, 1, Format.RError 2); (1, 2, Format.RError 1); (1, 1, Format.RValue (Format.VInt32 7)); (1, 2, Format.RError 1);
   (2, 1, Format.RValue (Format.VInt32 9))].
Proof. vm_compute. reflexivity. Qed.

Lemma demo_asks_ok : Forall (ask_ok demo_buffer) demo_asks.
Proof.
  repeat constructor; cbn; unfold in_u, in_s; try lia; try done.
Qed.

(** The same without what the devices refuse. *)
Definition plain_asks : list (Z * list request_op) :=
  [(1, [OpWriteSingle 1 (Format.VInt32 7); OpReadSingle 1 2]); (2, [OpRead 1 1 2; OpReadSingle 1 2])].

Example plain_asked : unrefused demo_server demo_devices plain_asks = true /\
  fst (served demo_server demo_devices plain_asks) =
    [(1, 1, Format.RValue (Format.VInt32 7)); (2, 1, Format.RValue (Format.VInt32 42)); (2, 1, Format.RValue (Format.VInt32 42))].
Proof. split; vm_compute; reflexivity. Qed.

Lemma plain_asks_ok : Forall (ask_ok demo_buffer) plain_asks.
Proof. repeat constructor; cbn; unfold in_u, in_s; try lia; try done. Qed.

Lemma demo_noise_foreign i f : f ∈ demo_noise i -> Frame.source_id f <> i.
Proof. intros Hf%list_elem_of_singleton. subst f. cbn. lia. Qed.

Lemma registers_end_to_end_witness :
  Forall (fun asks => (exists es devs' s' out,
    converse demo_server demo_client 64 demo_buffer 0 demo_noise demo_devices asks = Done (es, devs') /\
    run 0 64 (ETransmit (map ask es) (Some 0%nat) 100 :: script es) make = Done (tt, s', out) /\
    replies s' !! 0%nat = Some (fst (served demo_server demo_devices asks)) /\
    devs' = snd (served demo_server demo_devices asks) /\
    out = concat (map (exchange_output 0) es) ++ [Called 100 0] /\ idle s') /\
    (unrefused demo_server demo_devices asks = true -> each_answered asks (fst (served demo_server demo_devices asks))))
    [demo_asks; plain_asks].
Proof.
  constructor; [|constructor; [|constructor]].
  - exact (registers_end_to_end demo_server demo_client 64 64 0 demo_buffer demo_noise demo_devices demo_asks 0 100 make demo_typed demo_asks_ok
      demo_noise_foreign eq_refl (conj eq_refl (conj eq_refl (conj eq_refl eq_refl)))).
  - exact (registers_end_to_end demo_server demo_client 64 64 0 demo_buffer demo_noise demo_devices plain_asks 0 100 make demo_typed plain_asks_ok
      demo_noise_foreign eq_refl (conj eq_refl (conj eq_refl (conj eq_refl eq_refl)))).
Defined.

Definition demo_read_request (i : Z) : IdRequest :=
  {| id := i; request := match RegisterRequest.ReadSingle RegisterRequest.make 2 1 with Done r => r | _ => RegisterRequest.make end |}.
Definition demo_exchange (i : Z) : exchange :=
  {| ask := demo_read_request i; strays := demo_noise i;
     answer := Some {| Frame.source_id := i; Frame.request_reply := false; Frame.dest_id := 0; Frame.payload := map byte.of_Z [0x25; 2; 0x34; 0x12] |} |}.

Lemma timeout_ends_request_witness :
  exists s', run 0 64 (ETransmit (map ask ([demo_exchange 3] ++ demo_exchange 4 :: [demo_exchange 5])) (Some 0%nat) 100 ::
        concat (map (fun e => exchange_events e ++ next_events) [demo_exchange 3]) ++ timeout_events (demo_exchange 4)) make =
      Done (tt, s', concat (map (exchange_output 0) [demo_exchange 3]) ++ timeout_output 0 (demo_exchange 4) ++ [Called 100 kAborted]) /\
    replies s' !! 0%nat = Some [(3, 2, Format.RValue (Format.VInt16 0x1234))] /\ idle s'.
Proof.
  apply (timeout_ends_request 64 0 [demo_exchange 3] [demo_exchange 5] (demo_exchange 4) 0 100 make);
    [by repeat constructor|vm_compute; reflexivity|vm_compute; reflexivity|done].
Defined.
