(* ===== verification/ClientTunnel.v ===== *)
(** * A tunnel end to end: the host's client, the bus and the server

    A byte stream that the host's client makes of a tunnel, with the server of
    MicroServer.v behind it: what goes in on one side comes out on the other. *)
From stdpp Require Import gmap.
From S2P Require Import Prelude Varuint Streams MultiplexStream Register MicroServer MicroServerSafety RegisterServer FrameStream ExclusiveCommand StreamAsioClient ClientTheory ClientRegisters.
#[local] Open Scope Z_scope.
Import StreamAsioClient.

(** ** The user of a tunnel on the device

    [got] is what it has read, [source] what it has yet to be told that it has
    written.  It keeps to the contract of a stream: when a read or a write ends it
    may start another one, and it writes the front of what is left. *)
Class TunnelUser {C} (client : Client C) (i : nat) := {
  got : C -> list byte;
  source : C -> list byte;
  user_reads : forall c d, let '(c', calls) := on_read client c i d in
    got c' = got c ++ d /\ source c' = source c /\ (calls = [] \/ exists n, 0 <= n /\ calls = [CallRead i n]);
  user_writes : forall c n, let '(c', calls) := on_write client c i n in
    got c' = got c /\ source c' = zdrop n (source c) /\
    (calls = [] \/ exists d, calls = [CallWrite i d] /\ d `prefix_of` source c');
}.

(** ** One request to the device *)
Section device.
Context {T C : Type} (server : Server T) (client : Client C) (max_size : Z) (i : nat) (channel : Z).
Context {user : TunnelUser client i}.
Context (Hmax : MicroServer.kNeededOverhead <= max_size) (Hchannel : in_u 32 channel).
Abbreviation Device := (@MicroServer.State T C).
Implicit Types (d : Device) (w : BufferWriteStream.t) (str : BufferReadStream.t).

(** The tunnel of the channel, what has come for its user, and what its user has
    yet to send. *)
Definition serves d (came left : list byte) : Prop :=
  exists t, FindTunnel d channel = Some i /\ MicroServer.tunnels d !! i = Some t /\ tunnel_ok t /\
    came = got (cli d) ++ t_data t /\ left = source (cli d) /\ t_write t `prefix_of` left.

Lemma FindTunnel_ids d d' : map t_id (MicroServer.tunnels d') = map t_id (MicroServer.tunnels d) ->
  FindTunnel d' channel = FindTunnel d channel.
Proof.
  assert (forall d0 : Device, FindTunnel d0 channel = fst <$> list_find (fun id => id = channel) (t_id <$> MicroServer.tunnels d0)) as E.
  { intros d0. unfold FindTunnel. rewrite list_find_fmap. unfold compose.
    by destruct (list_find _ _) as [[]|]. }
  intros Hids. rewrite !E. change (t_id <$> MicroServer.tunnels ?d0) with (map t_id (MicroServer.tunnels d0)). by rewrite Hids.
Qed.

(** A tunnel is replaced by one of the same identifier. *)
Lemma put_FindTunnel d t t' : MicroServer.tunnels d !! i = Some t -> t_id t' = t_id t ->
  FindTunnel (put_tunnel i t' d) channel = FindTunnel d channel.
Proof.
  intros Hi Hid. apply FindTunnel_ids. cbn. change (@map Tunnel Z) with (@fmap list list_fmap Tunnel Z).
  rewrite list_fmap_insert, Hid. apply list_insert_id. by rewrite list_lookup_fmap, Hi.
Qed.

(** Data that has come goes to a reader who waits, if there is one. *)
Lemma transfer_serves d came left : serves d came left ->
  exists moved d', DoReadTransfer client d i = Done (moved, d') /\ serves d' came left.
Proof.
  intros Hs. pose proof Hs as (t & Hf & Hi & [Hr Hd] & Hc & Hl & Hw). unfold DoReadTransfer, tunnel_at. rewrite Hi, bind_done.
  destruct (Z.eqb_spec (zlen (t_data t)) 0); [by eexists _, d|]. destruct (Z.eqb_spec (t_read_size t) 0); [by eexists _, d|].
  cbv zeta. set (k := Z.min _ _). pose proof (zlen_nonneg (t_data t)) as Hnn.
  set (t' := {| t_id := t_id t; t_read_size := 0; t_data := zdrop k (t_data t); t_write := t_write t |}).
  change (cli (put_tunnel i t' d)) with (cli d). pose proof (user_reads (cli d) (ztake k (t_data t))) as U.
  destruct (on_read client (cli d) i (ztake k (t_data t))) as [c calls]. destruct U as (Ug & Us & Uc).
  pose proof (lookup_put d i t t' Hi) as Hi'. pose proof (put_FindTunnel d t t' Hi eq_refl) as Hf'.
  assert (forall n d1, 0 <= n -> MicroServer.tunnels d1 !! i = Some {| t_id := t_id t; t_read_size := n; t_data := zdrop k (t_data t); t_write := t_write t |} ->
    FindTunnel d1 channel = Some i -> cli d1 = c -> serves d1 came left) as Hfin.
  { intros n' d1 Hn Ht1 Hf1 Hc1. eexists. split_and!; [exact Hf1|exact Ht1| | | |].
    - split; [done|]. cbn. rewrite zlen_drop by lia. lia.
    - cbn. by rewrite Hc1, Ug, <- app_assoc, ztake_zdrop.
    - by rewrite Hc1, Us.
    - done. }
  destruct Uc as [->|(n' & Hn & ->)]; cbn [run_calls run_call].
  - rewrite bind_done. eexists _, _. split; [done|]. apply (Hfin 0); [done|exact Hi'|by rewrite <- Hf, <- Hf'|done].
  - unfold AsyncReadSome, tunnel_at. cbn [set_cli MicroServer.tunnels]. rewrite Hi', bind_done. cbn [t' t_read_size mj_assert Z.eqb].
    rewrite !bind_done. cbn zeta. eexists _, _. split; [done|].
    set (t2 := {| t_id := t_id t; t_read_size := n'; t_data := zdrop k (t_data t); t_write := t_write t |}).
    assert (Hp : serves (put_tunnel i t2 (set_cli c (put_tunnel i t' d))) came left).
    { apply (Hfin n'); [done|by eapply (lookup_put (set_cli c (put_tunnel i t' d)))| |done].
      erewrite (put_FindTunnel (set_cli c (put_tunnel i t' d)) t'); [by rewrite <- Hf, <- Hf'|exact Hi'|done]. }
    destruct (_ && _); exact Hp.
Qed.

(** The pending write is sent, as much as there is room for, and its user told. *)
Lemma send_serves d came left w n t : serves d came left -> MicroServer.tunnels d !! i = Some t -> 0 <= n <= zlen (t_write t) ->
  BufferWriteStream.ok w -> BufferWriteStream.fits w (5 + n) = true -> in_u 32 n ->
  exists d' w', send_tunnel_data client d i w n = Done (d', w') /\ serves d' came (zdrop n left) /\
    emitted w (vu_bytes 5 n ++ ztake n left) w'.
Proof.
  intros Hs Hi Hn Hw Hfit Hu. pose proof Hs as (t0 & Hf & Hi0 & Hok & Hc & Hl & Hpre). rewrite Hi in Hi0. injection Hi0 as <-.
  unfold send_tunnel_data. destruct (WriteVaruint_step w n 5 n Hw Hu (u32_len _ Hu)) as (w1 & -> & W1 & O1 & F1); [lia|done|].
  rewrite bind_done. destruct (Z.ltb_spec 0 n) as [Hpos|].
  2:{ replace n with 0 by lia. eexists _, _. split; [done|]. rewrite zdrop_0, ztake_0, app_nil_r. split; [done|]. by replace 0 with n by lia. }
  unfold tunnel_at. rewrite Hi, bind_done. destruct Hpre as [more Hpre].
  assert (Ht : ztake n left = ztake n (t_write t)) by (rewrite Hpre; apply ztake_app_le; lia).
  destruct (BufferWriteStream.bws_write_spec w1 (ztake n (t_write t)) O1) as (w2 & -> & W2).
  { rewrite zlen_take by lia. by replace (Z.min n _) with n by lia. }
  rewrite bind_done. cbv zeta. set (t' := {| t_id := t_id t; t_read_size := t_read_size t; t_data := t_data t; t_write := [] |}).
  change (cli (put_tunnel i t' d)) with (cli d). pose proof (user_writes (cli d) n) as U.
  destruct (on_write client (cli d) i n) as [c calls]. destruct U as (Ug & Us & Uc).
  pose proof (lookup_put d i t t' Hi) as Hi'. pose proof (put_FindTunnel d t t' Hi eq_refl) as Hf'.
  assert (Hem : emitted w (vu_bytes 5 n ++ ztake n left) w2).
  { rewrite Ht. eapply emitted_app; [exact W1|exact W2]. }
  assert (forall b d1, MicroServer.tunnels d1 !! i = Some {| t_id := t_id t; t_read_size := t_read_size t; t_data := t_data t; t_write := b |} ->
    FindTunnel d1 channel = Some i -> cli d1 = c -> b `prefix_of` source c -> serves d1 came (zdrop n left)) as Hfin.
  { intros b d1 Ht1 Hf1 Hc1 Hb. eexists. split_and!; [exact Hf1|exact Ht1|exact Hok| | |].
    - by rewrite Hc1, Ug.
    - by rewrite Hc1, Us, <- Hl.
    - by rewrite Hl, <- Us. }
  destruct Uc as [->|(b & -> & Hb)]; cbn [run_calls run_call].
  - rewrite bind_done. eexists _, _. split; [done|]. split; [|done].
    apply (Hfin []); [exact Hi'|by rewrite <- Hf, <- Hf'|done|apply prefix_nil].
  - unfold AsyncWriteSome, tunnel_at. cbn [set_cli MicroServer.tunnels]. rewrite Hi', bind_done. cbn [t' t_write mj_assert].
    change (zlen [] =? 0) with true. cbn [mj_assert]. rewrite !bind_done. eexists _, _. split; [done|]. split; [|done].
    apply (Hfin b); [by eapply (lookup_put (set_cli c (put_tunnel i t' d)))| |done|done].
    erewrite (put_FindTunnel (set_cli c (put_tunnel i t' d)) t'); [by rewrite <- Hf, <- Hf'|exact Hi'|done].
Qed.

(** What a device that serves a tunnel answers to a poll. *)
Definition reply_to (payload : list byte) (data : list byte) : Prop :=
  payload = vu_bytes 5 Format.kServerToClient ++ vu_bytes 5 channel ++ vu_bytes 5 (zlen data) ++ data.

Lemma tunnel_subframe d came left data str w resp :
  serves d came left -> BufferReadStream.ok str -> BufferReadStream.rest str = vu_bytes 5 channel ++ vu_bytes 5 (u32 (zlen data)) ++ data ->
  (forall t, MicroServer.tunnels d !! i = Some t -> zlen (t_data t) + zlen data <= read_data_size_max) ->
  (resp = true -> BufferWriteStream.ok w /\ MicroServer.kNeededOverhead + 6 <= BufferWriteStream.remaining w < 2 ^ 31) ->
  exists d' str' w' sent, ProcessSubframeClientToServer client max_size d str w resp = Done (false, d', str', w') /\
    BufferReadStream.ok str' /\ BufferReadStream.remaining str' = 0 /\ serves d' (came ++ data) (zdrop (zlen sent) left) /\
    sent `prefix_of` left /\ zlen sent <= max_size - MicroServer.kNeededOverhead /\ zlen sent < 2 ^ 32 /\
    (if resp then exists bytes, emitted w bytes w' /\ reply_to bytes sent else w' = w /\ sent = []).
Proof.
  intros Hs Ho E Hroom Hw. unfold ProcessSubframeClientToServer.
  assert (Hz : in_u 32 (u32 (zlen data))) by (apply uwrap_range; lia).
  destruct (brs_varuint str channel _ Ho E Hchannel) as (str1 & -> & O1 & R1). rewrite bind_done. cbn beta iota.
  destruct (brs_varuint str1 _ _ O1 R1 Hz) as (str2 & -> & O2 & R2). rewrite bind_done. cbn beta iota.
  pose proof Hs as (t & Hf & Hi & [Hr Hd] & Hc & Hl & Hpre). specialize (Hroom t Hi). pose proof (zlen_nonneg data). pose proof (zlen_nonneg (t_data t)).
  unfold read_data_size_max in *. assert (Hu : u32 (zlen data) = zlen data) by (apply uwrap_id; unfold in_u; lia). rewrite Hu.
  rewrite <- (BufferReadStream.brs_zlen_rest str2 O2), R2, (proj2 (Z.ltb_ge _ _)) by lia. rewrite Hf.
  assert (tunnel_at d i = Done t) as -> by (unfold tunnel_at; by rewrite Hi). rewrite bind_done. cbv zeta. unfold read_data_size_max. rewrite (proj2 (Z.ltb_ge (128 - _) _)) by lia.
  pose proof (rs_read_law str2 (zlen data) (O2 : rs_valid str2) (zlen_nonneg _)) as (str3 & R & V & E3 & _).
  cbn [rs_read BufferReadStream.read_stream] in R. rewrite R, bind_done. cbn beta iota. cbn [rs_rest BufferReadStream.read_laws] in *.
  rewrite R2 in E3 |- *. rewrite ztake_ge by lia. rewrite zdrop_ge in E3 by lia.
  set (t1 := {| t_id := t_id t; t_read_size := t_read_size t; t_data := t_data t ++ data; t_write := t_write t |}).
  assert (Hs1 : serves (put_tunnel i t1 d) (came ++ data) left).
  { exists t1. split_and!; [by rewrite (put_FindTunnel d t t1 Hi)|by eapply lookup_put| |by rewrite Hc, <- app_assoc|done..].
    split; [done|]. cbn. rewrite zlen_app. unfold read_data_size_max. lia. }
  rewrite bind_done. cbn beta iota. destruct (transfer_serves _ _ _ Hs1) as (moved & d2 & -> & Hs2). rewrite bind_done. cbn beta iota.
  assert (Hs3 : serves (set_todo true d2) (came ++ data) left) by exact Hs2.
  assert (Hrem : BufferReadStream.remaining str3 = 0) by (by rewrite <- BufferReadStream.brs_zlen_rest, E3).
  destruct resp.
  2:{ exists (set_todo true d2), str3, w, []. rewrite zdrop_0. split_and!; try done; [apply prefix_nil|]. unfold zlen. cbn. lia. }
  destruct (Hw eq_refl) as [Ow Hrw]. clear Hw. change MicroServer.kNeededOverhead with 23 in *. pose proof (u32_len _ Hchannel).
  assert (Hfits : forall n, 0 <= n <= BufferWriteStream.remaining w -> BufferWriteStream.fits w n = true).
  { intros n' Hn. unfold BufferWriteStream.fits, BufferWriteStream.remaining in *. apply Z.leb_le. lia. }
  destruct (WriteVaruint_step w Format.kServerToClient 1 (5 + 5) Ow) as (w1 & -> & W1 & Ow1 & _); [done|by rewrite vu_len_small|lia|apply Hfits; lia|].
  rewrite bind_done. destruct (WriteVaruint_emitted w1 channel Ow1 Hchannel) as (w2 & -> & W2).
  { rewrite (emitted_fits _ _ _ _ W1). apply Hfits. change (zlen (vu_bytes 5 _)) with 1. pose proof (vu_len_u32 _ Hchannel). lia. }
  rewrite bind_done. pose proof Hs3 as (t3 & _ & Hi3 & _ & _ & _ & Hpre3). unfold tunnel_at. rewrite Hi3, bind_done.
  set (n := Z.min _ _). destruct W1 as (_ & E1 & Z1 & P1). pose proof W2 as (O2' & E2 & Z2 & P2).
  change (zlen (vu_bytes 5 Format.kServerToClient)) with 1 in P1.
  assert (Hv : zlen (vu_bytes 5 channel) = vu_len channel) by (apply zlen_vu_bytes; [by apply u32_fuel|lia]).
  assert (Hn : 0 <= n <= zlen (t_write t3) /\ n <= max_size - 23 /\
    n + 23 <= BufferWriteStream.remaining w2 /\ in_u 32 n).
  { pose proof (zlen_nonneg (t_write t3)). pose proof (vu_len_u32 _ Hchannel). unfold BufferWriteStream.remaining, in_u in *. lia. }
  destruct Hn as (Hn & Hnm & Hnr & Hnu).
  destruct (send_serves _ _ _ w2 n t3 Hs3 Hi3 Hn O2') as (d4 & w4 & -> & Hs4 & W4).
  { unfold BufferWriteStream.fits, BufferWriteStream.remaining in *. apply Z.leb_le. lia. }
  { done. }
  rewrite bind_done. destruct Hpre3 as [more ->].
  assert (Ht : zlen (ztake n (t_write t3 ++ more)) = n).
  { rewrite zlen_take by lia. rewrite zlen_app. pose proof (zlen_nonneg more). lia. }
  exists d4, str3, w4, (ztake n (t_write t3 ++ more)). rewrite Ht. split_and!; try done.
  - exists (zdrop n (t_write t3 ++ more)). by rewrite ztake_zdrop.
  - unfold in_u in Hnu. lia.
  - exists (vu_bytes 5 Format.kServerToClient ++ vu_bytes 5 channel ++ vu_bytes 5 n ++ ztake n (t_write t3 ++ more)).
    split; [|unfold reply_to; by rewrite Ht]. eapply emitted_app; [by split_and!; [|exact E1|exact Z1|exact P1]|]. by eapply emitted_app.
Qed.

(** Data that do not fit what the device keeps for its user do not come, none of
    them, and are not skipped: they are read as the subframes that follow. *)
Theorem overrun_reparses d came left data str w :
  serves d came left -> BufferReadStream.ok str -> BufferReadStream.rest str = vu_bytes 5 channel ++ vu_bytes 5 (zlen data) ++ data ->
  (forall t, MicroServer.tunnels d !! i = Some t -> read_data_size_max < zlen (t_data t) + zlen data) -> zlen data < 2 ^ 32 ->
  exists d' str', ProcessSubframeClientToServer client max_size d str w false = Done (false, d', str', w) /\
    BufferReadStream.ok str' /\ BufferReadStream.rest str' = data /\ serves d' came left.
Proof.
  intros Hs Ho E Hroom Hd. unfold ProcessSubframeClientToServer. pose proof (zlen_nonneg data).
  destruct (brs_varuint str channel _ Ho E Hchannel) as (str1 & -> & O1 & R1). rewrite bind_done. cbn beta iota.
  destruct (brs_varuint str1 _ _ O1 R1 ltac:(unfold in_u; lia)) as (str2 & -> & O2 & R2). rewrite bind_done. cbn beta iota.
  pose proof Hs as (t & Hf & Hi & _). specialize (Hroom t Hi).
  rewrite <- (BufferReadStream.brs_zlen_rest str2 O2), R2, (proj2 (Z.ltb_ge _ _)) by lia. rewrite Hf.
  assert (tunnel_at d i = Done t) as -> by (unfold tunnel_at; by rewrite Hi). rewrite bind_done. cbv zeta.
  rewrite (proj2 (Z.ltb_lt (read_data_size_max - _) _)) by lia. rewrite bind_done. cbn beta iota.
  destruct (transfer_serves (count CReceiveOverrun d) came left Hs) as (moved & d2 & -> & Hs2). rewrite bind_done. cbn beta iota.
  eexists _, str2. by split_and!.
Qed.

(** A whole request: the data come to the user, and the answer has what it sends. *)
Lemma request_tunnel d came left data (buf : list byte) resp : serves d came left ->
  (forall t, MicroServer.tunnels d !! i = Some t -> zlen (t_data t) + zlen data <= read_data_size_max) ->
  MicroServer.kNeededOverhead + 6 <= zlen buf < 2 ^ 31 ->
  exists d' w' sent, ProcessSubframes server client max_size d (tunnel_bytes channel data) (BufferWriteStream.make buf) resp = Done (d', w') /\
    serves d' (came ++ data) (zdrop (zlen sent) left) /\ sent `prefix_of` left /\
    zlen sent <= max_size - MicroServer.kNeededOverhead /\ zlen sent < 2 ^ 32 /\
    (if resp then reply_to (BufferWriteStream.out w') sent else sent = []).
Proof.
  intros Hs Hroom Hbuf. unfold ProcessSubframes. set (str := BufferReadStream.make _).
  assert (Ho : BufferReadStream.ok str) by apply BufferReadStream.brs_ok_make.
  assert (E : BufferReadStream.rest str = tunnel_bytes channel data) by apply BufferReadStream.brs_rest_make. unfold tunnel_bytes in E.
  assert (exists fuel, length (tunnel_bytes channel data) = S fuel) as [fuel ->].
  { unfold tunnel_bytes. destruct (vu_bytes_cons Format.kClientToServer) as (b & l & ->). by eexists. }
  destruct (brs_varuint str Format.kClientToServer _ Ho E ltac:(done)) as (str1 & R & O1 & R1).
  assert (Hrem : (BufferReadStream.remaining str =? 0) = false).
  { destruct (vu_bytes_cons Format.kClientToServer) as (b & l & Eb). rewrite Eb in E. exact (remaining_cons str b _ Ho E). }
  destruct (tunnel_subframe d came left data str1 (BufferWriteStream.make buf) resp Hs O1 R1 Hroom) as
    (d' & str2 & w' & sent & P & _ & Hrem2 & Hs' & Hpre & Hle & Hlt & Hresp).
  { intros _. split; [apply BufferWriteStream.bws_ok_make|]. unfold BufferWriteStream.remaining. cbn. lia. }
  exists d', w', sent. split_and!; [|done..|].
  - cbn [ProcessSubframes_loop]. rewrite Hrem, R, bind_done. cbn beta iota. change (Format.kClientToServer =? Format.kClientToServer) with true. cbn iota.
    rewrite P, bind_done. cbn beta iota. by rewrite Hrem2.
  - destruct resp; [|apply Hresp]. destruct Hresp as (bytes & (_ & Eo & _) & Hb). rewrite Eo. exact Hb.
Qed.
End device.

(** ** The answer at the host *)

(** A stream over a string stays one over that string. *)
Lemma ReadVaruint_data n : forall s result pos o s', GenericReader.ReadVaruint_loop n s result pos = Done (o, s') ->
  FastIStringStream.data s' = FastIStringStream.data s.
Proof.
  induction n as [|n IH]; intros s result pos o s' E; cbn [GenericReader.ReadVaruint_loop] in E; [by injection E as _ <-|].
  unfold GenericReader.ReadScalar, GenericReader.RawRead in E. cbn [rs_read FastIStringStream.read_stream] in E. unfold FastIStringStream.read in E. cbv zeta in E.
  destruct (load _ _ _) as [bs|]; [|done]. rewrite !bind_done in E. cbn beta iota in E.
  destruct (_ =? _) in E; [|by injection E as _ <-].
  destruct (_ =? _) in E; [by injection E as _ <-|]. by apply IH in E.
Qed.

Lemma answer_parsed channel payload data : in_u 32 channel -> zlen data < 2 ^ 32 -> reply_to channel payload data ->
  parse_answer channel payload = Done (Some data).
Proof.
  intros Hc Hd Hr. unfold reply_to in Hr. unfold parse_answer. set (stream := FastIStringStream.make payload).
  assert (V : rs_valid stream) by apply FastIStringStream.fis_ok_make.
  assert (E : rs_rest stream = payload) by apply FastIStringStream.fis_rest_make. rewrite Hr in E.
  destruct (ReadVaruint_bytes_took stream _ _ V E ltac:(done)) as (s1 & A1 & V1 & E1). rewrite A1, bind_done. cbn beta iota.
  change (Format.kServerToClient =? Format.kServerToClient) with true. cbn [negb].
  destruct (ReadVaruint_bytes_took s1 _ _ V1 E1 Hc) as (s2 & A2 & V2 & E2). rewrite A2, bind_done. cbn beta iota.
  rewrite Z.eqb_refl. cbn [negb]. pose proof (zlen_nonneg data).
  destruct (ReadVaruint_bytes_took s2 _ _ V2 E2 ltac:(unfold in_u; lia)) as (s3 & A3 & V3 & E3). rewrite A3, bind_done. cbn beta iota.
  apply ReadVaruint_data in A1, A2, A3. assert (FastIStringStream.data s3 = payload) as Ed by (rewrite A3, A2, A1; done).
  cbn [rs_rest rs_valid FastIStringStream.read_laws] in E3, V3. pose proof (FastIStringStream.fis_zlen_rest s3 V3) as Hl. rewrite E3 in Hl.
  unfold FastIStringStream.remaining. rewrite <- Hl, Z.ltb_irrefl. unfold FastIStringStream.rest in E3. rewrite Ed in E3. rewrite E3. by rewrite ztake_ge.
Qed.

(** ** Both ends *)

(** What the caller does: it writes, or it reads; a read whose polls have found
    nothing so far polls again, and [bufs] and [h] are those of a new one. *)
Inductive act :=
  | HostWrite (data : list byte) (h : nat)
  | HostPoll (bufs : list (Z * Z)) (h : nat).

Section both.
Context {T C : Type} (server : Server T) (client : Client C) (max_size : Z) (buf : list byte) (i : nat).
Context (source_id stream_max : Z) (self : nat).
Abbreviation Device := (@MicroServer.State T C).
#[local] Abbreviation run := (run source_id stream_max).

(** The device serves a frame; its answer, if one is asked for, goes back. *)
Definition answer_of (d : Device) (f : Frame.Frame) : outcome (Device * Frame.Frame) :=
  '(d, w) ← ProcessSubframes server client max_size d (Frame.payload f) (BufferWriteStream.make buf) (Frame.request_reply f);
  Done (d, {| Frame.source_id := Frame.dest_id f; Frame.request_reply := false; Frame.dest_id := Frame.source_id f;
              Frame.payload := BufferWriteStream.out w |}).

(** A poll starts with the caller's read, or with the end of the wait. *)
Definition poll_events (bufs : list (Z * Z)) (h : nat) (s : State) : list event :=
  [if waits s is [] then ERead self bufs h else ETimer 0 0; ERun 0; EComplete 0 0 None false].

(** One thing that the caller does, and all that follows, at both ends. *)
Definition act_runs (a : act) (sd : State * Device) : outcome (State * Device * list output) :=
  let '(s, d) := sd in
  match a with
  | HostWrite data h =>
      '(_, s, o1) ← run [EWrite self [data] h; ERun 0] s;
      '(d, _) ← answer_of d (tx_frame s);
      '(_, s, o2) ← run [EComplete 0 0 None false; ERun 0] s;
      Done (s, d, o1 ++ o2)
  | HostPoll bufs h =>
      '(_, s, o1) ← run (poll_events bufs h s) s;
      '(d, reply) ← answer_of d (tx_frame s);
      '(_, s, o2) ← run [EComplete 0 0 (Some reply) false] s;
      '(_, s, o3) ← run (map (fun _ => ERun 0) (posted s)) s;
      Done (s, d, o1 ++ o2 ++ o3)
  end.

Fixpoint acts_run (l : list act) (sd : State * Device) : outcome (State * Device * list output) :=
  match l with
  | [] => Done (sd, [])
  | a :: l => '(s, d, o) ← act_runs a sd; '(sd, more) ← acts_run l (s, d); Done (sd, o ++ more)
  end.

(** What a write takes of its data, and what a caller has written. *)
Definition taken_of (data : list byte) : list byte := if 0 <=? stream_max then ztake (stream_max - 3) data else data.
Definition written (l : list act) : list byte := l ≫= (fun a => match a with HostWrite data _ => taken_of data | _ => [] end).

(** What is stored in a reader's buffers. *)
Definition stored (out : list output) : list byte := out ≫= (fun o => match o with Stored cells => map snd cells | _ => [] end).

(** A write has data, and they fit what the device keeps for its user (for one that
    does not, see [overrun_reparses]); the buffers of a read are not empty. *)
Definition act_ok (a : act) (d : Device) : bool :=
  match a with
  | HostWrite data _ => (0 <? zlen data) &&
      match MicroServer.tunnels d !! i with Some t => zlen (t_data t) + zlen (taken_of data) <=? read_data_size_max | None => false end
  | HostPoll bufs _ => forallb (fun b => 0 <=? snd b) bufs && (0 <? buffer_size bufs)
  end.

Fixpoint acts_ok (l : list act) (sd : State * Device) : bool :=
  match l with
  | [] => true
  | a :: l => act_ok a (snd sd) && match act_runs a sd with Done (s, d, _) => acts_ok l (s, d) | Faulted _ => true end
  end.

(** The room of the read that a poll is for: the one that waits, or a new one. *)
Definition room_of (bufs : list (Z * Z)) (s : State) : Z :=
  match waits s with [] => buffer_size bufs | (_, ctx) :: _ => from_option (fun x => buffer_size (buffers x)) 0 (contexts s !! ctx) end.

Definition act_rooms (a : act) (s : State) : list Z := match a with HostWrite _ _ => [] | HostPoll bufs _ => [room_of bufs s] end.

(** The room that there is for each answer of a run. *)
Fixpoint rooms (l : list act) (sd : State * Device) : list Z :=
  match l with
  | [] => []
  | a :: l => act_rooms a (fst sd) ++ match act_runs a sd with Done (s, d, _) => rooms l (s, d) | Faulted _ => [] end
  end.
End both.

(** ** The host's side *)
Section host.
Context (source_id stream_max dev channel : Z) (self : nat).
Context (Hchannel : in_u 32 channel).
#[local] Abbreviation run := (run source_id stream_max).

Definition tunnel_of (c : option nat) (tun : Tunnel) : Prop :=
  id_ tun = dev /\ channel_ tun = channel /\ read_context tun = c.

(** A read that has got nothing so far. *)
Definition reader (x : ReadContext) : Prop :=
  canceled x = false /\ bytes_read x = 0 /\ is_Some (handler x) /\ sized (buffers x) /\ 0 < buffer_size (buffers x).

(** A read waits to poll again, or there is none. *)
Definition read_waits (c : option nat) (s : State) : Prop :=
  match waits s, c with
  | [], None => True
  | [(t, ctx)], Some ctx' => t = self /\ ctx' = ctx /\ exists x, contexts s !! ctx = Some x /\ reader x
  | _, _ => False
  end.

(** Between two things that the caller does. *)
Definition between (s : State) : Prop :=
  idle s /\ exists c tun, tunnels s !! self = Some tun /\ tunnel_of c tun /\ write_handler tun = None /\ read_waits c s.

(** The answer to a poll of a read with this room is awaited. *)
Definition polling (room : Z) (s : State) : Prop :=
  exists item ctx tun x, ExclusiveCommand.command item = ReadTunnel self ctx /\
  ExclusiveCommand.waiting (lock s) = Some item /\ ExclusiveCommand.queued (lock s) = [] /\ posted s = [] /\ waits s = [] /\
  operations s = [(AsyncRead kDefaultTimeout, TunnelReadDone item self ctx)] /\
  tx_frame s = {| Frame.source_id := source_id; Frame.request_reply := true; Frame.dest_id := dev; Frame.payload := tunnel_bytes channel [] |} /\
  tunnels s !! self = Some tun /\ tunnel_of (Some ctx) tun /\ write_handler tun = None /\ contexts s !! ctx = Some x /\
  reader x /\ buffer_size (buffers x) = room.

(** A read whose command is about to run. *)
Definition read_queued (room : Z) (s : State) : Prop :=
  exists ctx tun x, about_to (ReadTunnel self ctx) s /\ waits s = [] /\
  tunnels s !! self = Some tun /\ tunnel_of (Some ctx) tun /\ write_handler tun = None /\ contexts s !! ctx = Some x /\
  reader x /\ buffer_size (buffers x) = room.

Lemma read_starts bufs h tun s : idle s -> waits s = [] -> tunnels s !! self = Some tun -> tunnel_of None tun -> write_handler tun = None ->
  sized bufs -> 0 < buffer_size bufs ->
  wp (async_read_some self bufs (Some h)) s (fun _ s' out => out = [] /\ read_queued (buffer_size bufs) s').
Proof.
  intros (Hw & Hq & Hp & Ho) Hws Ht (Hid & Hch & Hrc) Hwh Hs Hpos. pose proof (lookup_lt_Some _ _ _ Ht) as Hlt.
  destruct s as [[w q k] ps ops ws rx tx txs ts cs rs]. cbn in Hw, Hq, Hp, Ho, Hws, Ht, Hlt. subst.
  unfold async_read_some. do 3 wp_step. rewrite Hrc. eapply wp_lift; [done|]. rewrite (proj2 (Z.eqb_neq _ _)) by lia.
  unfold lock_Invoke. repeat wp_step. cbn. repeat wp_step. eapply wp_deref.
  { cbn. by apply list_lookup_insert_eq. }
  wp_step. cbn. split; [done|]. eexists (length cs), _, _. split; [by eexists|]. cbn. split; [done|].
  split; [by rewrite list_insert_insert_eq, list_lookup_insert_eq by done|].
  split; [by split_and!|]. split; [done|]. split; [by rewrite lookup_app_r, Nat.sub_diag by lia|]. split; [by split_and!; [| |eexists|..]|done].
Qed.

(** The frame of the poll is sent. *)
Lemma poll_sent room s : read_queued room s ->
  wp (run [ERun 0; EComplete 0 0 None false]) s (fun _ s' out => stored out = [] /\ polling room s').
Proof.
  intros (ctx & tun & x & (n & Hw & Hq & Hp & Ho) & Hws & Ht & Htun & Hwh & Hx & Hr & Hroom).
  set (item := {| ExclusiveCommand.nonce := n; ExclusiveCommand.command := _ |}) in *. pose proof (lookup_lt_Some _ _ _ Ht) as Hlt.
  destruct s as [[w q k] ps ops ws rx tx txs ts cs rs]. cbn in Hw, Hq, Hp, Ho, Hws, Ht, Hx. subst.
  apply wp_run_cons. eapply wp_run; [done|]. cbn [run_task]. unfold Invoke. cbn [ExclusiveCommand.command item].
  unfold ReadTunnel_command. repeat wp_step. rewrite (proj1 Hr). wp_step.
  eapply wp_MakeFrame; [cbn; by apply list_lookup_insert_eq|cbn; by destruct Htun as (_ & -> & _)|done|].
  unfold start. repeat wp_step. apply wp_run_cons. eapply wp_complete; [done|]. cbn [complete]. unfold HandleRequestRead, start.
  wp_step. eapply wp_lift; [done|]. repeat wp_step. apply wp_run_nil. split; [done|]. destruct Htun as (Hid & Hch & Hrc).
  exists item, ctx, (with_read_nonce None tun), x. cbn. rewrite Hid, Hch. split_and!; try done. by apply list_lookup_insert_eq.
Qed.

Lemma poll_starts bufs h s : between s -> sized bufs -> 0 < buffer_size bufs ->
  wp (run (poll_events self bufs h s)) s (fun _ s' out => stored out = [] /\ polling (room_of bufs s) s').
Proof.
  intros (Hi & c & tun & Ht & Htun & Hwh & Hm) Hs Hpos. unfold read_waits in Hm. unfold poll_events, room_of. apply wp_run_cons.
  assert (Hgo : wp (handle source_id stream_max (if waits s is [] then ERead self bufs h else ETimer 0 0)) s (fun _ s' out => stored out = [] /\ read_queued (match waits s with [] => buffer_size bufs | (_, ctx) :: _ => from_option (fun x => buffer_size (buffers x)) 0 (contexts s !! ctx) end) s')).
  { destruct (waits s) as [|[t ctx] [|]] eqn:Hws; destruct c as [ctx'|]; try done.
    - eapply wp_mono; [by eapply read_starts|]. by intros u s' out [-> ?].
    - destruct Hm as (-> & -> & x & Hx & (Hc & Hb & [h0 Hh] & Hsz & Hp0)). rewrite Hx. cbn [from_option]. pose proof (lookup_lt_Some _ _ _ Ht) as Hlt.
      cbn [handle]. wp_step. eapply wp_deref; [by rewrite Hws|]. repeat wp_step. unfold HandlePollTimer. repeat wp_step.
      rewrite Hc. wp_step. eapply wp_lift; [done|]. wp_step. eapply wp_take_handler; [done|]. repeat wp_step.
      destruct Htun as (Hid & Hch & Hrc). destruct Hi as (Hw & Hq & Hp & Ho). rewrite Hh.
      eapply wp_mono; [eapply (read_starts (buffers x) h0 (with_read_context None tun)); try done| ].
      + cbn. by rewrite Hws.
      + cbn. by apply list_lookup_insert_eq.
      + by intros u s' out [-> ?]. }
  eapply wp_mono; [exact Hgo|]. intros u s' out (Ho & Hq). eapply wp_mono; [by apply poll_sent|].
  intros u' s2 o2 (Ho2 & Hp). split; [|done]. unfold stored in *. by rewrite bind_app, Ho, Ho2.
Qed.

(** The answer comes: its data go to the reader, who is told, or polls again later. *)
Definition poll_end (s : State) : Prop :=
  is_Some (ExclusiveCommand.waiting (lock s)) /\ ExclusiveCommand.queued (lock s) = [] /\ operations s = [] /\
  (exists told, posted s = told ++ [Lock ExclusiveCommand.PostItemDone] /\ (told = [] \/ exists h size, told = [CallSizeHandler (Some h) 0 size])) /\
  exists c tun, tunnels s !! self = Some tun /\ tunnel_of c tun /\ write_handler tun = None /\ read_waits c s.

(** A copy has what fits. *)
Lemma buffer_copy_stored bufs data : sized bufs -> map snd (buffer_copy bufs data) = ztake (buffer_size bufs) data.
Proof.
  intros Hs. unfold buffer_copy, ztake. rewrite <- (zlen_cells _ Hs). unfold zlen. rewrite Nat2Z.id.
  generalize (cells bufs). intros l. revert data. induction l as [|x l IH]; intros [|b data]; cbn; [done..|]. by f_equal.
Qed.

Lemma reply_arrives room data f s : polling room s -> Frame.source_id f = dev -> Frame.dest_id f = source_id ->
  parse_answer channel (Frame.payload f) = Done (Some data) ->
  wp (run [EComplete 0 0 (Some f) false]) s (fun _ s' out => stored out = ztake room data /\ poll_end s').
Proof.
  intros (item & ctx & tun & x & Hi & Hw & Hq & Hp & Hws & Ho & Htx & Ht & Htun & Hwh & Hx & Hr & <-) Hsrc Hdst Ha.
  pose proof (lookup_lt_Some _ _ _ Ht) as Hlt. pose proof (lookup_lt_Some _ _ _ Hx) as Hlx.
  destruct s as [[w q k] ps ops ws rx tx txs ts cs rs]. cbn in Hw, Hq, Hp, Ho, Hws, Ht, Hx, Hlt, Hlx. subst w q ps ops ws.
  apply wp_run_cons. eapply wp_complete; [done|]. cbn [complete]. unfold TunnelHandleRead. repeat wp_step.
  destruct Htun as (Hid & Hch & Hrc). destruct Hr as (Hc & Hb & [h Hh] & Hsz & Hp0). rewrite Hc. change (0 =? kAborted) with false. cbn iota.
  repeat wp_step. cbn [rx_frame with_rx_frame]. rewrite Hid, Hsrc, Hdst, !Z.eqb_refl. cbn [negb orb]. wp_step. rewrite Hch. eapply wp_lift; [exact Ha|].
  repeat wp_step. cbn [andb]. repeat wp_step. unfold HandlerWrapper. rewrite Hi. repeat wp_step. unfold MaybeRetry. wp_step.
  eapply wp_deref; [cbn; by apply list_lookup_insert_eq|]. cbn [canceled]. rewrite ?Hb. wp_step. eapply wp_lift; [done|]. wp_step. wp_step.
  cbn [bytes_read]. pose proof (zlen_nonneg data).
  pose proof (buffer_copy_stored _ data Hsz) as Hst.
  destruct (Z.ltb_spec 0 (0 + zlen data)).
  - wp_step. eapply wp_take_handler; [cbn; by apply list_lookup_insert_eq|]. repeat wp_step. eapply wp_lift; [done|]. wp_step. apply wp_run_nil.
    cbn. rewrite Hh. split; [rewrite !app_nil_r; exact Hst|]. split_and!; [by eexists|done|done|eexists [_]; split; [done|right; by do 2 eexists]|].
    exists None, (with_read_context None tun). by split_and!; [by apply list_lookup_insert_eq| | |].
  - assert (data = []) as -> by (destruct data; [done|rewrite zlen_cons in *; pose proof (zlen_nonneg data); lia]).
    repeat wp_step. eapply wp_lift; [done|]. wp_step. apply wp_run_nil. cbn. split; [rewrite !app_nil_r; exact Hst|].
    split_and!; [by eexists|done|done|eexists []; split; [done|by left]|].
    exists (Some ctx), tun. split_and!; [done..|]. cbn. split; [done|]. split; [done|]. eexists.
    split; [by apply list_lookup_insert_eq|]. by split_and!; [| |eexists|..].
Qed.

(** The lock is free for the next. *)
Lemma item_done_runs s : is_Some (ExclusiveCommand.waiting (lock s)) -> ExclusiveCommand.queued (lock s) = [] -> operations s = [] ->
  posted s = [Lock ExclusiveCommand.PostItemDone] ->
  wp (run [ERun 0]) s (fun _ s' out => stored out = [] /\ idle s' /\ tunnels s' = tunnels s /\ waits s' = waits s /\ contexts s' = contexts s).
Proof.
  intros [item Hw] Hq Ho Hp. destruct s as [[w q k] ps ops ws rx tx txs ts cs rs]. cbn in Hw, Hq, Hp, Ho. subst.
  apply wp_run_cons. eapply wp_run; [done|]. cbn [run_task]. unfold ItemDone. repeat wp_step. eapply wp_lift; [done|]. cbn -[StreamAsioClient.run]. repeat wp_step.
  by apply wp_run_nil.
Qed.

Lemma read_waits_same c s s' : waits s' = waits s -> contexts s' = contexts s -> read_waits c s -> read_waits c s'.
Proof. unfold read_waits. by intros -> ->. Qed.

Lemma poll_finishes s : poll_end s -> wp (run (map (fun _ => ERun 0) (posted s))) s (fun _ s' out => stored out = [] /\ between s').
Proof.
  intros (Hw & Hq & Ho & (told & Hp & Htold) & c & tun & Ht & Htun & Hwh & Hr).
  assert (forall s', posted s' = [Lock ExclusiveCommand.PostItemDone] -> lock s' = lock s -> operations s' = [] -> tunnels s' = tunnels s ->
    waits s' = waits s -> contexts s' = contexts s -> wp (run [ERun 0]) s' (fun _ s' out => stored out = [] /\ between s')) as Hend.
  { intros s' Hp' Hl Ho' Ht' Hw' Hc'. eapply wp_mono; [apply item_done_runs; [by rewrite Hl..|done|done]|]. intros u s2 out (Hs & Hi & Ht2 & Hw2 & Hc2).
    split; [done|]. split; [done|]. exists c, tun. rewrite Ht2, Ht'. split_and!; [done..|]. eapply read_waits_same; [| |exact Hr]; congruence. }
  rewrite Hp. destruct Htold as [->|(h & size & ->)]; cbn [app map]; [by apply Hend|].
  apply wp_run_cons. cbn [handle]. wp_step. eapply wp_deref; [by rewrite Hp|]. repeat wp_step. cbn [run_task call_size]. repeat wp_step. rewrite Hp.
  eapply wp_mono; [by apply Hend|]. intros u s' out [Hs Hb]. split; [|done]. unfold stored in *. cbn. by rewrite Hs.
Qed.

(** A write of the tunnel is being sent. *)
Definition writing (data : list byte) (s : State) : Prop :=
  exists item size c tun h b, ExclusiveCommand.command item = WriteTunnel self b /\
  ExclusiveCommand.waiting (lock s) = Some item /\ ExclusiveCommand.queued (lock s) = [] /\ posted s = [] /\
  operations s = [(AsyncWrite (tx_frame s), TunnelWriteDone item size)] /\
  tx_frame s = {| Frame.source_id := source_id; Frame.request_reply := false; Frame.dest_id := dev; Frame.payload := tunnel_bytes channel data |} /\
  tunnels s !! self = Some tun /\ tunnel_of c tun /\ write_handler tun = Some h /\ read_waits c s.

Lemma write_size_runs data s : stream_max < 0 \/ 3 <= stream_max ->
  wp (if 0 <=? stream_max then
        _ ← lift (mj_assert (kNeededOverhead <=? stream_max)); mret (Z.min (zlen data) (stream_max - kNeededOverhead))
      else mret (zlen data)) s
    (fun size s' out => out = [] /\ s' = s /\ taken_of stream_max data = ztake size data /\ 0 <= size <= zlen data).
Proof.
  intros Hmax. pose proof (zlen_nonneg data). unfold taken_of, kNeededOverhead, kVarUintSize. destruct (Z.leb_spec 0 stream_max).
  - wp_step. eapply wp_lift; [by rewrite (proj2 (Z.leb_le _ _)) by lia|]. wp_step. split_and!; [done|done| |lia|lia].
    by rewrite FastIStringStream.ztake_min.
  - wp_step. split_and!; [done|done| |lia|lia]. by rewrite ztake_ge.
Qed.

Lemma write_starts data h s : between s -> 0 < zlen data -> stream_max < 0 \/ 3 <= stream_max ->
  wp (run [EWrite self [data] h; ERun 0]) s (fun _ s' out => stored out = [] /\ writing (taken_of stream_max data) s').
Proof.
  intros ((Hw & Hq & Hp & Ho) & c & tun & Ht & (Hid & Hch & Hrc) & Hwh & Hr) Hd Hmax. pose proof (lookup_lt_Some _ _ _ Ht) as Hlt.
  assert (Hcat : concat [data] = data) by apply app_nil_r.
  destruct s as [[w q k] ps ops ws rx tx txs ts cs rs]. cbn in Hw, Hq, Hp, Ho, Ht, Hlt. subst w q ps ops.
  apply wp_run_cons. cbn [handle]. unfold async_write_some. repeat wp_step. rewrite Hwh. eapply wp_lift; [done|].
  unfold buffers_size. rewrite Hcat. rewrite (proj2 (Z.eqb_neq _ _)) by lia. unfold lock_Invoke. repeat wp_step. cbn -[StreamAsioClient.run]. repeat wp_step.
  eapply wp_deref; [cbn; by apply list_lookup_insert_eq|]. repeat wp_step. cbn -[StreamAsioClient.run].
  apply wp_run_cons. eapply wp_run; [done|]. cbn [run_task]. unfold Invoke. cbn [ExclusiveCommand.command]. unfold WriteTunnel_command, buffers_size. rewrite Hcat. wp_step.
  set (tun' := with_write_nonce _ _) in *.
  eapply wp_mono; [apply (write_size_runs data)|]; [done..|]. intros size s1 o1 (-> & -> & Htk & Hsz). wp_step.
  eapply wp_MakeFrame; [cbn; by apply list_lookup_insert_eq; rewrite length_insert|cbn; by rewrite Hch|by rewrite Hcat|].
  rewrite Hcat. unfold start. repeat wp_step. apply wp_run_nil. split; [done|].
  exists {| ExclusiveCommand.nonce := k; ExclusiveCommand.command := WriteTunnel self [data] |}, size, c, tun', h, [data].
  cbn. rewrite Htk, Hid, Hch. split_and!; try done. apply list_lookup_insert_eq. by rewrite length_insert.
Qed.

(** It has been sent, and its caller is told. *)
Lemma write_ends data s : writing data s ->
  wp (run [EComplete 0 0 None false; ERun 0]) s (fun _ s' out => stored out = [] /\ between s').
Proof.
  intros (item & size & c & tun & h & b & Hi & Hw & Hq & Hp & Ho & _ & Ht & (Hid & Hch & Hrc) & Hwh & Hr).
  pose proof (lookup_lt_Some _ _ _ Ht) as Hlt. destruct s as [[w q k] ps ops ws rx tx txs ts cs rs]. cbn in Hw, Hq, Hp, Ho, Ht, Hlt. subst w q ps ops.
  apply wp_run_cons. eapply wp_complete; [done|]. cbn [complete]. unfold HandlerWrapper. rewrite Hi.
  unfold WriteTunnel_handler. repeat wp_step. rewrite Hwh. cbn [call_size]. repeat wp_step. eapply wp_lift; [done|]. repeat wp_step.
  eapply wp_mono; [apply item_done_runs; [by eexists|done..]|].
  intros u s' out (Hs & Hidle & Ht' & Hw' & Hc'). split; [exact Hs|]. split; [done|].
  exists c, (with_write_nonce None (with_write_handler None tun)). rewrite Ht'. cbn. split_and!; try done; [by apply list_lookup_insert_eq|].
  eapply read_waits_same; [exact Hw'|exact Hc'|exact Hr].
Qed.
End host.

(** ** One act after the other *)
Section acts.
Context {T C : Type} (server : Server T) (client : Client C) (max_size : Z) (buf : list byte) (i : nat) {user : TunnelUser client i}.
Context (source_id stream_max dev channel : Z) (self : nat).
Context (Hmax : MicroServer.kNeededOverhead <= max_size) (Hchannel : in_u 32 channel).
Context (Hbuf : MicroServer.kNeededOverhead + 6 <= zlen buf < 2 ^ 31) (Hstream : stream_max < 0 \/ 3 <= stream_max).
#[local] Abbreviation act_runs := (act_runs server client max_size buf source_id stream_max self).
#[local] Abbreviation acts_run := (acts_run server client max_size buf source_id stream_max self).
#[local] Abbreviation rooms := (rooms server client max_size buf source_id stream_max self).
#[local] Abbreviation limit := (max_size - MicroServer.kNeededOverhead).
#[local] Abbreviation between := (between dev channel self).
#[local] Abbreviation serves := (serves client i channel).

Lemma stored_app o o' : stored (o ++ o') = stored o ++ stored o'.
Proof. apply bind_app. Qed.

(** What has gone from what the device's user sends are the answers, and of each one
    its reader has what there was room for. *)
Definition answers_are (answers : list (list byte)) (room : list Z) (left left' : list byte) (out : list output) : Prop :=
  left = concat answers ++ left' /\ stored out = concat (zip_with ztake room answers) /\
  length answers = length room /\ Forall (fun data => zlen data <= limit) answers.

Lemma answers_are_app a1 r1 o1 a2 r2 o2 l l1 l2 : answers_are a1 r1 l l1 o1 -> answers_are a2 r2 l1 l2 o2 ->
  answers_are (a1 ++ a2) (r1 ++ r2) l l2 (o1 ++ o2).
Proof.
  intros (-> & E1 & L1 & F1) (-> & E2 & L2 & F2). split_and!.
  - by rewrite concat_app, app_assoc.
  - by rewrite stored_app, E1, E2, zip_with_app, concat_app.
  - by rewrite !length_app, L1, L2.
  - by apply Forall_app.
Qed.

Lemma answers_whole answers room left left' out : answers_are answers room left left' out -> Forall (Z.le limit) room -> left = stored out ++ left'.
Proof.
  intros (-> & -> & L & F) Hr. f_equal. f_equal. revert room L Hr. induction F as [|data answers Hd F IH]; intros [|n room] L Hr; try done.
  apply Forall_cons_1 in Hr as [Hn Hr]. cbn [zip_with]. rewrite <- IH by (done || by injection L). by rewrite ztake_ge by lia.
Qed.

Lemma act_carries a s d came left : between s -> serves d came left -> act_ok i stream_max a d = true ->
  exists s' d' out left' answers, act_runs a (s, d) = Done (s', d', out) /\ between s' /\ serves d' (came ++ written stream_max [a]) left' /\
    answers_are answers (act_rooms a s) left left' out.
Proof.
  intros Hb Hs Hok. destruct a as [data h|bufs h]; cbn [act_ok] in Hok; cbn [ClientTunnel.act_runs].
  - apply andb_true_iff in Hok as [Hd%Z.ltb_lt Hroom].
    destruct (write_starts source_id stream_max dev channel self Hchannel data h s Hb Hd Hstream) as ([] & s1 & o1 & -> & Ho1 & Hw).
    rewrite bind_done. cbn beta iota. pose proof Hw as (item & size & c & tun & h' & b & _ & _ & _ & _ & _ & Htx & _). unfold answer_of. rewrite Htx. cbn [Frame.payload Frame.request_reply].
    destruct (request_tunnel server client max_size i channel Hmax Hchannel d came left (taken_of stream_max data) buf false Hs) as (d' & w' & sent & -> & Hs' & _ & _ & _ & ->).
    { intros t Ht. rewrite Ht in Hroom. by apply Z.leb_le. }
    { done. }
    rewrite !bind_done. cbn beta iota. destruct (write_ends source_id stream_max dev channel self _ s1 Hw) as ([] & s2 & o2 & -> & Ho2 & Hb2).
    rewrite bind_done. eexists _, _, _, left, []. split; [done|]. split; [done|]. unfold answers_are. rewrite stored_app, Ho1, Ho2. split; [|done].
    cbn. rewrite app_nil_r. by rewrite zdrop_0 in Hs'.
  - apply andb_true_iff in Hok as [Hsz Hpos%Z.ltb_lt].
    assert (Hsized : sized bufs).
    { apply list.Forall_forall. intros b Hb'%list_elem_of_In. eapply forallb_forall in Hsz; [|exact Hb']. by apply Z.leb_le. }
    destruct (poll_starts source_id stream_max dev channel self Hchannel bufs h s Hb Hsized Hpos) as ([] & s1 & o1 & -> & Ho1 & Hp).
    rewrite bind_done. cbn beta iota. pose proof Hp as (item & ctx & tun & x & _ & _ & _ & _ & _ & _ & Htx & _). unfold answer_of. rewrite Htx. cbn [Frame.payload Frame.request_reply].
    destruct (request_tunnel server client max_size i channel Hmax Hchannel d came left [] buf true Hs) as (d' & w' & sent & -> & Hs' & Hpre & Hlim & Hlt & Hreply).
    { intros t Ht. destruct Hs as (t' & _ & Ht' & [_ Hd] & _). rewrite Ht in Ht'. injection Ht' as <-. change (zlen []) with 0. lia. }
    { done. }
    rewrite !bind_done. cbn beta iota. cbn [Frame.dest_id Frame.source_id].
    destruct (reply_arrives source_id stream_max dev channel self (room_of bufs s) sent {| Frame.source_id := dev; Frame.request_reply := false;
      Frame.dest_id := source_id; Frame.payload := BufferWriteStream.out w' |} s1 Hp) as ([] & s2 & o2 & -> & Ho2 & He); [done|done| |].
    { apply answer_parsed; [done..|exact Hreply]. }
    rewrite bind_done. cbn beta iota.
    destruct (poll_finishes source_id stream_max dev channel self s2 He) as ([] & s3 & o3 & -> & Ho3 & Hb3).
    rewrite bind_done. eexists _, _, _, _, [sent]. split; [done|]. split; [done|]. split; [exact Hs'|].
    unfold answers_are. rewrite !stored_app, Ho1, Ho2, Ho3, app_nil_r. cbn. rewrite !app_nil_r. destruct Hpre as [more ->].
    rewrite zdrop_app_len. split_and!; [done..|by repeat constructor].
Qed.

Lemma acts_carry l : forall s d came left, between s -> serves d came left ->
  acts_ok server client max_size buf i source_id stream_max self l (s, d) = true ->
  exists s' d' out left' answers, acts_run l (s, d) = Done (s', d', out) /\ between s' /\ serves d' (came ++ written stream_max l) left' /\
    answers_are answers (rooms l (s, d)) left left' out.
Proof.
  induction l as [|a l IH]; intros s d came left Hb Hs Hok; cbn [acts_ok ClientTunnel.acts_run ClientTunnel.rooms fst snd] in *.
  - eexists _, _, [], left, []. split; [done|]. split; [done|]. split; [|done]. cbn. by rewrite app_nil_r.
  - apply andb_true_iff in Hok as [Ha Hok]. destruct (act_carries a s d came left Hb Hs Ha) as (s1 & d1 & o1 & left1 & a1 & E1 & Hb1 & Hs1 & A1).
    rewrite E1 in *. rewrite bind_done. cbn beta iota.
    destruct (IH s1 d1 _ _ Hb1 Hs1 Hok) as (s2 & d2 & o2 & left2 & a2 & -> & Hb2 & Hs2 & A2). rewrite bind_done.
    eexists _, _, _, left2, _. split; [done|]. split; [done|]. split; [|by eapply answers_are_app].
    revert Hs2. unfold written. cbn [mbind list_bind]. rewrite !app_nil_r. by rewrite <- app_assoc.
Qed.
End acts.

(** C3: a tunnel carries bytes both ways.  The host's caller writes to a tunnel and
    reads from it in any order, a call after the other has run to its end at both
    ends and no frame being lost: each write has data, as many as the device has room
    for in the 128 bytes that it keeps for its user ([overrun_reparses] says what
    happens to others), and each read has room for a byte or more, and polls until it
    gets some.  Nothing faults; the device's user gets exactly the bytes that were
    written, or of a write what a frame takes, in order; what has gone of the bytes
    that the device's user sends is in answers, in order, of at most
    [max_size - kNeededOverhead] bytes each; of each one the reader's buffers get
    what they have room for, so that they get all of it when they have room for the
    largest, and the rest is lost (the finding at stream_asio_client.cc:438); and the
    client is ready for more. *)
Theorem tunnel_carries_bytes {T C} (server : Server T) (client : Client C) (i : nat) {user : TunnelUser client i} (max_size : Z)
    (buf : list byte) (source_id stream_max dev channel : Z) (self : nat) (l : list act) (s : State) (d : @MicroServer.State T C)
    (came left : list byte) :
  MicroServer.kNeededOverhead <= max_size -> in_u 32 channel -> MicroServer.kNeededOverhead + 6 <= zlen buf < 2 ^ 31 ->
  stream_max < 0 \/ 3 <= stream_max -> between dev channel self s -> serves client i channel d came left ->
  acts_ok server client max_size buf i source_id stream_max self l (s, d) = true ->
  let room := rooms server client max_size buf source_id stream_max self l (s, d) in
  exists s' d' out left' answers, acts_run server client max_size buf source_id stream_max self l (s, d) = Done (s', d', out) /\
    between dev channel self s' /\ serves client i channel d' (came ++ written stream_max l) left' /\
    answers_are max_size answers room left left' out /\
    (Forall (Z.le (max_size - MicroServer.kNeededOverhead)) room -> left = stored out ++ left').
Proof.
  intros Hm Hc Hb Hs Hbe Hse Hok. destruct (acts_carry server client max_size buf i source_id stream_max dev channel self Hm Hc Hb Hs l s d came left Hbe Hse Hok)
    as (s' & d' & out & left' & answers & E & Hbe' & Hse' & Ha).
  exists s', d', out, left', answers. split_and!; [done..|]. by apply (answers_whole max_size answers).
Qed.

(** ** A concrete run *)

(** A user that reads 16 bytes at a time, and writes 4. *)
Definition demo_user : Client (list byte * list byte) := {|
  on_read := fun c i d => ((fst c ++ d, snd c), [CallRead i 16]);
  on_write := fun c i n => let left := zdrop n (snd c) in
    ((fst c, left), if zlen left =? 0 then [] else [CallWrite i (ztake 4 left)]);
|}.

#[local] Instance demo_tunnel_user : TunnelUser demo_user 0.
Proof.
  refine {| got := fst; source := snd |}.
  - intros c d. cbn. split_and!; [done|done|right; by exists 16].
  - intros c n. cbn. split; [done|]. split; [done|]. destruct (_ =? _); [by left|right; eexists; split; [done|]].
    eexists. symmetry. apply ztake_zdrop.
Defined.

Definition tunnel_text (l : list Z) : list byte := map byte.of_Z l.
Definition tunnel_device : @MicroServer.State Z (list byte * list byte) :=
  {| MicroServer.tunnels := [{| t_id := 1; t_read_size := 16; t_data := []; t_write := tunnel_text [1; 2; 3; 4] |}];
     anything_to_do := false; stats := stats0; srv := 0; cli := ([], tunnel_text [1; 2; 3; 4; 5; 6; 7]) |}.
Definition tunnel_host : State :=
  match run 0 64 [EMakeTunnel 5 1 10] make with Done (_, s, _) => s | Faulted _ => make end.
Definition tunnel_acts : list act :=
  [HostPoll [(1000, 20); (2000, 64)] 100; HostWrite (tunnel_text [0x61; 0x62]) 200; HostPoll [(1000, 64)] 101;
   HostPoll [(1000, 64)] 102; HostWrite (tunnel_text [0x63]) 201; HostPoll [(1000, 64)] 103].

Example tunnel_ran :
  ('(s, d, out) ← acts_run demo_server demo_user 64 demo_buffer 0 64 0 tunnel_acts (tunnel_host, tunnel_device);
   Done (fst (cli d), snd (cli d), stored out, out ≫= called))
  = Done (tunnel_text [0x61; 0x62; 0x63], [], tunnel_text [1; 2; 3; 4; 5; 6; 7], [100; 200; 101; 201]%nat).
Proof. vm_compute. reflexivity. Qed.

(** Reads with room for two bytes get half of each answer. *)
Definition narrow_acts : list act := [HostPoll [(1000, 1); (2000, 1)] 100; HostPoll [(1000, 2)] 101; HostPoll [(1000, 64)] 102].

Example narrow_ran :
  ('(s, d, out) ← acts_run demo_server demo_user 64 demo_buffer 0 64 0 narrow_acts (tunnel_host, tunnel_device);
   Done (snd (cli d), stored out))
  = Done ([], tunnel_text [1; 2; 5; 6]).
Proof. vm_compute. reflexivity. Qed.

Lemma tunnel_carries_bytes_witness :
  Forall (fun l => exists s' d' out left' answers,
    acts_run demo_server demo_user 64 demo_buffer 0 64 0 l (tunnel_host, tunnel_device) = Done (s', d', out) /\
    between 5 1 0 s' /\ serves demo_user 0 1 d' ([] ++ written 64 l) left' /\
    answers_are 64 answers (rooms demo_server demo_user 64 demo_buffer 0 64 0 l (tunnel_host, tunnel_device))
      (tunnel_text [1; 2; 3; 4; 5; 6; 7]) left' out /\
    (Forall (Z.le (64 - MicroServer.kNeededOverhead)) (rooms demo_server demo_user 64 demo_buffer 0 64 0 l (tunnel_host, tunnel_device)) ->
      tunnel_text [1; 2; 3; 4; 5; 6; 7] = stored out ++ left')) [tunnel_acts; narrow_acts].
Proof.
  assert (Hone : forall l, acts_ok demo_server demo_user 64 demo_buffer 0 0 64 0 l (tunnel_host, tunnel_device) = true -> exists s' d' out left' answers,
    acts_run demo_server demo_user 64 demo_buffer 0 64 0 l (tunnel_host, tunnel_device) = Done (s', d', out) /\
    between 5 1 0 s' /\ serves demo_user 0 1 d' ([] ++ written 64 l) left' /\
    answers_are 64 answers (rooms demo_server demo_user 64 demo_buffer 0 64 0 l (tunnel_host, tunnel_device))
      (tunnel_text [1; 2; 3; 4; 5; 6; 7]) left' out /\
    (Forall (Z.le (64 - MicroServer.kNeededOverhead)) (rooms demo_server demo_user 64 demo_buffer 0 64 0 l (tunnel_host, tunnel_device)) ->
      tunnel_text [1; 2; 3; 4; 5; 6; 7] = stored out ++ left')).
  { intros l Hok. apply (tunnel_carries_bytes demo_server demo_user 0 64 demo_buffer 0 64 5 1 0 l tunnel_host tunnel_device []).
    - vm_compute. discriminate.
    - vm_compute. split; [discriminate|reflexivity].
    - vm_compute. split; [discriminate|reflexivity].
    - by right.
    - split; [done|]. by eexists None, _.
    - eexists. split; [done|]. split; [done|]. split; [by split|]. split; [done|]. split; [done|]. by exists (tunnel_text [5; 6; 7]).
    - exact Hok. }
  repeat constructor; apply Hone; vm_compute; reflexivity.
Defined.
