(* ===== verification/Inifile.v ===== *)
(** * base/inifile.cc: options from an INI file

    [ReadIniOptionStream] turns the lines of a text into the words of a command
    line: a section gives the prefix of the keys behind it.  The exception it throws
    holds the number of a line. *)
From stdpp Require Import list strings.
From S2P Require Import Prelude Tokenizer CString.
#[local] Open Scope Z_scope.

Module Inifile.

(** The lines that [std::getline] gives: what is between line ends.  Behind the last
    one it gives an empty line, which is passed over. *)
Fixpoint getlines (text : list byte) : list (list byte) :=
  match text with
  | [] => [[]]
  | c :: text =>
      if char_code c =? 10 then [] :: getlines text
      else match getlines text with l :: ls => (c :: l) :: ls | [] => [[c]] end
  end.

(** [find] of a character: what is in front of it and behind it. *)
Fixpoint find (z : Z) (line : list byte) : option (list byte * list byte) :=
  match line with
  | [] => None
  | c :: line =>
      if char_code c =? z then Some ([], line)
      else match find z line with Some (a, b) => Some (c :: a, b) | None => None end
  end.

(** [boost::trim_copy], in the classic locale *)
Definition trim (s : list byte) : list byte := rev (skip_space (rev (skip_space s))).

Definition strip_comment (line : list byte) : list byte :=
  match find 35 line with Some (before, _) => before | None => line end.

Definition add_context (context value : list byte) : list byte :=
  match context with [] => value | _ => context ++ text_of "." ++ value end.

(** [line.front() == '[' && line.back() == ']'], and [line.substr(1, line.size() - 2)] *)
Definition section_of (line : list byte) : option (list byte) :=
  match line, rev line with
  | front :: _, back :: _ =>
      if (char_code front =? 91) && (char_code back =? 93) then Some (ztake (zlen line - 2) (zdrop 1 line)) else None
  | _, _ => None
  end.

(** The words, or the number of the line that is thrown. *)
Fixpoint ReadLines (lines : list (list byte)) (line_number : Z) (context : list byte) (result : list (list byte))
    : list (list byte) + Z :=
  match lines with
  | [] => inl result
  | line :: lines =>
      let line_number := line_number + 1 in
      let line := trim (strip_comment line) in
      match line with
      | [] => ReadLines lines line_number context result
      | _ =>
          match section_of line with
          | Some context => ReadLines lines line_number context result
          | None =>
              match find 61 line with
              | None => inr line_number
              | Some (key, value) =>
                  ReadLines lines line_number context
                    (result ++ [text_of "--" ++ add_context context (trim key); trim value])
              end
          end
      end
  end.

Definition ReadIniOptionStream (text : list byte) : list (list byte) + Z := ReadLines (getlines text) 0 [] [].
End Inifile.

(** ** What a line says *)
Import Inifile.

Inductive item := Blank | Heading (name : list byte) | Setting (key value : list byte).

Definition blank (l : list byte) : Prop := Forall (fun c => isspace c = true) l.

(** Nothing to trim, and not empty. *)
Definition trimmed (l : list byte) : Prop :=
  exists c d, hd_error l = Some c /\ hd_error (rev l) = Some d /\ isspace c = false /\ isspace d = false.

Definition without (z : Z) (l : list byte) : Prop := Forall (fun c => char_code c <> z) l.

Definition comment (l : list byte) : Prop := l = [] \/ exists rest, l = byte.of_Z 35 :: rest.

(** The text of a setting: a key, an equals sign and a value, with blanks. *)
Definition setting_text (key value text : list byte) : Prop :=
  exists b1 b2 k v, text = k ++ b1 ++ byte.of_Z 61 :: b2 ++ v /\ blank b1 /\ blank b2 /\ without 61 k /\ k = key /\ v = value.

Definition says (i : item) (line : list byte) : Prop :=
  exists b text b' c, line = b ++ text ++ b' ++ c /\ blank b /\ blank b' /\ comment c /\ without 35 text /\
    match i with
    | Blank => text = []
    | Heading name => text = byte.of_Z 91 :: name ++ [byte.of_Z 93]
    | Setting key value =>
        trimmed text /\ trimmed key /\ (value = [] \/ trimmed value) /\ setting_text key value text /\ section_of text = None
    end.

(** The words of the items, and the section they leave. *)
Fixpoint words_of_items (items : list item) (context : list byte) : list (list byte) :=
  match items with
  | [] => []
  | Blank :: items => words_of_items items context
  | Heading name :: items => words_of_items items name
  | Setting key value :: items => (text_of "--" ++ add_context context key) :: value :: words_of_items items context
  end.

Lemma blank_skip b l : blank b -> skip_space (b ++ l) = skip_space l.
Proof. induction 1 as [|c b Hc _ IH]; [done|]. cbn. by rewrite Hc. Qed.

Lemma blank_all b : blank b -> skip_space b = [].
Proof. intros Hb. rewrite <- (app_nil_r b), blank_skip by done. done. Qed.

Lemma blank_rev b : blank b -> blank (rev b).
Proof. intros Hb. apply list.Forall_forall. intros c Hc%list_elem_of_In%in_rev%list_elem_of_In. by eapply list.Forall_forall in Hb. Qed.

Lemma skip_to_head c l : hd_error l = Some c -> isspace c = false -> skip_space l = l.
Proof. destruct l as [|x l]; [done|]. cbn. by intros [= ->] ->. Qed.

Lemma hd_error_app {A} (l k : list A) c : hd_error l = Some c -> hd_error (l ++ k) = Some c.
Proof. by destruct l. Qed.

Lemma trim_text b text b' : blank b -> blank b' -> trimmed text -> trim (b ++ text ++ b') = text.
Proof.
  intros Hb Hb' (c & d & Hc & Hd & Hic & Hid). unfold trim. rewrite blank_skip by done.
  rewrite (skip_to_head c (text ++ b')) by (done || by apply hd_error_app). rewrite rev_app_distr, blank_skip by (by apply blank_rev).
  rewrite (skip_to_head d (rev text)) by done. apply rev_involutive.
Qed.

Lemma trim_blank b : blank b -> trim b = [].
Proof. intros Hb. unfold trim. by rewrite (blank_all b). Qed.

Lemma trim_any b text b' : blank b -> blank b' -> text = [] \/ trimmed text -> trim (b ++ text ++ b') = text.
Proof.
  intros Hb Hb' [->|Ht]; [|by apply trim_text]. cbn [app]. apply trim_blank. by apply list.Forall_app.
Qed.

Lemma find_none z l : without z l -> find z l = None.
Proof. induction 1 as [|c l Hc _ IH]; cbn; [done|]. by rewrite (proj2 (Z.eqb_neq _ _) Hc), IH. Qed.

Lemma find_first z l c rest : without z l -> char_code c = z -> find z (l ++ c :: rest) = Some (l, rest).
Proof.
  intros Hl Hc. induction Hl as [|x l Hx _ IH]; cbn; [by rewrite Hc, Z.eqb_refl|]. by rewrite (proj2 (Z.eqb_neq _ _) Hx), IH.
Qed.

Lemma blank_without z b : isspace (byte.of_Z z) = false -> 0 <= z < 256 -> blank b -> without z b.
Proof.
  intros Hz Hr Hb. eapply list.Forall_impl; [exact Hb|]. intros c Hc E. cbn in Hc. rewrite <- E in Hz. unfold char_code in Hz.
  rewrite byte.of_Z_unsigned in Hz. congruence.
Qed.

Lemma strip_said b text b' c : blank b -> blank b' -> comment c -> without 35 text -> strip_comment (b ++ text ++ b' ++ c) = b ++ text ++ b'.
Proof.
  intros Hb Hb' Hc Ht. unfold strip_comment. assert (Hw : without 35 (b ++ text ++ b')).
  { repeat (apply list.Forall_app; split); try done; by apply blank_without. }
  destruct Hc as [->|[rest ->]]; [by rewrite app_nil_r, find_none|].
  replace (b ++ text ++ b' ++ byte.of_Z 35 :: rest) with ((b ++ text ++ b') ++ byte.of_Z 35 :: rest) by (by rewrite <- !app_assoc).
  by rewrite (find_first 35).
Qed.

Lemma section_text name : section_of (byte.of_Z 91 :: name ++ [byte.of_Z 93]) = Some name /\ trimmed (byte.of_Z 91 :: name ++ [byte.of_Z 93]).
Proof.
  assert (Er : rev (byte.of_Z 91 :: name ++ [byte.of_Z 93]) = byte.of_Z 93 :: rev name ++ [byte.of_Z 91]).
  { cbn [rev]. by rewrite rev_app_distr. }
  split; [|exists (byte.of_Z 91), (byte.of_Z 93); by rewrite Er]. unfold section_of. rewrite Er. change ((_ =? 91) && _) with true. cbv iota.
  rewrite zdrop_cons, zdrop_0 by lia. rewrite zlen_cons, zlen_app. change (zlen [byte.of_Z 93]) with 1.
  replace (1 + (zlen name + 1) - 2) with (zlen name) by lia. by rewrite ztake_app_len.
Qed.

(** A setting is split at its first equals sign. *)
Lemma setting_parts key value text : trimmed key -> value = [] \/ trimmed value -> setting_text key value text ->
  exists k v, find 61 text = Some (k, v) /\ trim k = key /\ trim v = value.
Proof.
  intros Hk Hv (b1 & b2 & k & v & -> & Hb1 & Hb2 & Hw & -> & ->). exists (key ++ b1), (b2 ++ value). split; [|split].
  - rewrite app_assoc. apply find_first; [|done]. apply list.Forall_app. split; [done|by apply blank_without].
  - exact (trim_text [] key b1 (Forall_nil_2 _) Hb1 Hk).
  - pose proof (trim_any b2 value [] Hb2 (Forall_nil_2 _) Hv) as E. by rewrite app_nil_r in E.
Qed.

Lemma ReadLines_said items lines : Forall2 says items lines -> forall n context result rest,
  exists context', ReadLines (lines ++ rest) n context result =
    ReadLines rest (n + zlen lines) context' (result ++ words_of_items items context).
Proof.
  induction 1 as [|i line items lines (b & text & b' & c & -> & Hb & Hb' & Hc & Ht & Hi) _ IH]; intros n context result rest; cbn [app ReadLines words_of_items].
  - exists context. by rewrite Z.add_0_r, app_nil_r.
  - rewrite strip_said by done. rewrite zlen_cons, Z.add_assoc. destruct i as [|name|key value].
    + subst text. cbn [app]. rewrite trim_blank by (by apply list.Forall_app). apply IH.
    + subst text. destruct (section_text name) as [Es Etr]. rewrite trim_text by done. rewrite Es. apply IH.
    + destruct Hi as (Htr & Hk & Hv & Hs & Hn). rewrite trim_text by done. destruct (setting_parts key value text Hk Hv Hs) as (k & v & -> & -> & ->).
      rewrite Hn. destruct (IH (n + 1) context (result ++ [text_of "--" ++ add_context context key; value]) rest) as (context' & E).
      exists context'. destruct text as [|x text]; [by destruct Htr as (? & ? & ? & _)|]. rewrite E. by rewrite <- app_assoc.
Qed.

(** What an INI file says: the words are those of its items, with blanks and comments
    anywhere; and a line that is not blank, a section or a setting is thrown, by its
    number, whatever is behind it. *)
Theorem ini_options items lines : Forall2 says items lines ->
  (forall text, getlines text = lines -> ReadIniOptionStream text = inl (words_of_items items [])) /\
  (forall text bad rest, getlines text = lines ++ bad :: rest -> trimmed (trim (strip_comment bad)) ->
     section_of (trim (strip_comment bad)) = None -> find 61 (trim (strip_comment bad)) = None ->
     ReadIniOptionStream text = inr (zlen lines + 1)).
Proof.
  intros H. split; unfold ReadIniOptionStream.
  - intros text ->. destruct (ReadLines_said items lines H 0 [] [] []) as (context & E). by rewrite app_nil_r in E.
  - intros text bad rest -> Htr Hs Hf. destruct (ReadLines_said items lines H 0 [] [] (bad :: rest)) as (context & ->). cbn [ReadLines].
    rewrite Hs, Hf. by destruct (trim (strip_comment bad)) as [|x l]; [destruct Htr as (? & ? & ? & _)|].
Qed.

Definition demo_ini : list byte :=
  text_of "a = 1 # one" ++ [byte.of_Z 10] ++ text_of " [servo] " ++ [byte.of_Z 10; byte.of_Z 10] ++ text_of "gain=2.5" ++ [byte.of_Z 10].

Example demo_ini_words : ReadIniOptionStream demo_ini = inl [text_of "--a"; text_of "1"; text_of "--servo.gain"; text_of "2.5"].
Proof. vm_compute. reflexivity. Qed.

Lemma ini_options_witness :
  ReadIniOptionStream (text_of "[s]" ++ [byte.of_Z 10] ++ text_of "key") = inr 2.
Proof.
  refine (proj2 (ini_options [Heading (text_of "s")] [text_of "[s]"] _) _ (text_of "key") [] _ _ _ _); [|done| |done|done].
  - constructor; [|constructor]. exists [], (text_of "[s]"), [], []. split_and!; try done; [constructor|constructor|by left|by repeat constructor].
  - by exists (byte.of_Z 107), (byte.of_Z 121).
Defined.
