(* ===== verification/Containers.v ===== *)
(** * Storage without an allocator

    micro/pool_ptr.h and pool_ptr.cc, micro/static_vector.h, micro/callback_table.h
    with callback_table.cc, and base/windowed_average.h. *)
From stdpp Require Import list.
From S2P Require Import Prelude.
#[local] Open Scope Z_scope.

(** ** class Pool *)
Module Pool.

(** [data_] is an address. *)
Record t := { data_ : Z; size_ : Z; position_ : Z }.

Definition make (data size : Z) : t := {| data_ := data; size_ := size; position_ := 0 |}.

Definition available (p : t) : Z := size_ p - position_ p.

(** [std::align]: the first address from [ptr] on with this alignment that has room. *)
Definition align (alignment size ptr space : Z) : option Z :=
  if space <? size then None
  else
    let aligned := Z.land (u64 (ptr - 1 + alignment)) (u64 (- alignment)) in
    if space - size <? aligned - ptr then None else Some aligned.

Definition Allocate (p : t) (size alignment : Z) : outcome (Z * t) :=
  match align alignment size (data_ p + position_ p) (size_ p - position_ p) with
  | None => Faulted Assertion
  | Some result => Done (result, {| data_ := data_ p; size_ := size_ p; position_ := result - data_ p + size |})
  end.
End Pool.

(** ** class StaticVector *)
Module StaticVector.
Section StaticVector.
Context {T : Type}.

(** The array, whose length is the capacity, and [size_]. *)
Record t := { data_ : list T; size_ : Z }.

(** An element of the array, by reference. *)
Definition at_ (v : t) (i : Z) : outcome T :=
  if i <? 0 then Faulted Undefined
  else match data_ v !! Z.to_nat i with Some x => Done x | None => Faulted Undefined end.

Definition put (v : t) (i : Z) (x : T) : outcome t :=
  if (i <? 0) || (zlen (data_ v) <=? i) then Faulted Undefined
  else Done {| data_ := <[Z.to_nat i := x]> (data_ v); size_ := size_ v |}.

(** A vector of nothing over the elements the array begins with. *)
Definition make (data : list T) : t := {| data_ := data; size_ := 0 |}.

Definition push_back (v : t) (x : T) : outcome t :=
  v ← put v (size_ v) x; Done {| data_ := data_ v; size_ := size_ v + 1 |}.

Definition pop_back (v : t) : t := {| data_ := data_ v; size_ := size_ v - 1 |}.
Definition clear (v : t) : t := {| data_ := data_ v; size_ := 0 |}.
Definition empty (v : t) : bool := size_ v =? 0.
Definition front (v : t) : outcome T := at_ v 0.
Definition back (v : t) : outcome T := at_ v (size_ v - 1).

(** The constructor of a list of elements. *)
Fixpoint of_elements (v : t) (l : list T) : outcome t :=
  match l with [] => Done v | x :: l => v ← push_back v x; of_elements v l end.

(** The elements from [begin()] to [end()]. *)
Definition elements (v : t) : list T := ztake (size_ v) (data_ v).
End StaticVector.
Arguments t T : clear implicits.
End StaticVector.

(** ** class CallbackTable *)
Module CallbackTable.
Section CallbackTable.
Context {C : Type}.

(** [g_callbacks], and for each [Callback] that was ever made the slot of its
    [raw_function], if it is not null. *)
Record State := { g_callbacks : list (option C); objects : list (option nat) }.

Definition make : State := {| g_callbacks := replicate 10 None; objects := [] |}.

(** The first slot without a callback. *)
Fixpoint free_slot (l : list (option C)) : option nat :=
  match l with
  | [] => None
  | None :: _ => Some O
  | Some _ :: l => S <$> free_slot l
  end.

Definition MakeFunction (callback : C) (s : State) : outcome State :=
  match free_slot (g_callbacks s) with
  | None => Faulted Assertion
  | Some i => Done {| g_callbacks := <[i := Some callback]> (g_callbacks s); objects := objects s ++ [Some i] |}
  end.

(** [~Callback] *)
Definition destroy (o : nat) (s : State) : State :=
  match objects s !! o with
  | Some (Some i) => {| g_callbacks := <[i := None]> (g_callbacks s); objects := <[o := None]> (objects s) |}
  | _ => s
  end.

(** [Callback(Callback&&)], and the assignment, which takes over the function of the
    right-hand side, after which that of both operands may be null. *)
Definition move (rhs : nat) (s : State) : State :=
  match objects s !! rhs with
  | Some f => {| g_callbacks := g_callbacks s; objects := <[rhs := None]> (objects s) ++ [f] |}
  | None => s
  end.

Definition move_assign (lhs rhs : nat) (s : State) : State :=
  match objects s !! rhs with
  | Some f => {| g_callbacks := g_callbacks s; objects := <[rhs := None]> (<[lhs := f]> (objects s)) |}
  | None => s
  end.

(** The call of the [raw_function] of an object. *)
Definition call (o : nat) (s : State) : outcome C :=
  match objects s !! o with
  | Some (Some i) => match g_callbacks s !! i with Some (Some c) => Done c | _ => Faulted Undefined end
  | _ => Faulted Undefined
  end.
End CallbackTable.
Arguments State C : clear implicits.
End CallbackTable.

(** ** class WindowedAverage: a ring of values with their sum, in integers of a width *)
Module WindowedAverage.
Section WindowedAverage.
(** The widths of [T] and [AccumType]. *)
Context (w accum : Z).

Record t := { data_ : list Z; total_ : Z; capacity_ : Z; size_ : Z; pos_ : Z }.

Definition make (max_capacity capacity : Z) : t :=
  {| data_ := replicate (Z.to_nat max_capacity) 0; total_ := 0; capacity_ := Z.min max_capacity capacity; size_ := 0; pos_ := 0 |}.

(** A sum that is out of the range of the accumulator is undefined, as is a remainder
    by no capacity. *)
Definition accumulate (z : Z) : outcome Z :=
  if (- 2 ^ (accum - 1) <=? z) && (z <? 2 ^ (accum - 1)) then Done z else Faulted Undefined.

Definition Add (value : Z) (a : t) : outcome t :=
  match data_ a !! Z.to_nat (pos_ a) with
  | None => Faulted Undefined
  | Some old =>
      total ← accumulate (total_ a + value);
      let data := <[Z.to_nat (pos_ a) := value]> (data_ a) in
      if capacity_ a =? 0 then Faulted Undefined
      else
        let pos := (pos_ a + 1) mod capacity_ a in
        let old_size := size_ a in
        let size := Z.min (size_ a + 1) (capacity_ a) in
        total ← (if old_size =? size then accumulate (total - old) else Done total);
        Done {| data_ := data; total_ := total; capacity_ := capacity_ a; size_ := size; pos_ := pos |}
  end.

(** The size is converted to [T], and the quotient is rounded towards zero. *)
Definition average (a : t) : outcome Z :=
  if size_ a =? 0 then Done 0
  else if swrap w (size_ a) =? 0 then Faulted Undefined
  else Done (swrap w (Z.quot (total_ a) (swrap w (size_ a)))).
End WindowedAverage.
End WindowedAverage.

(** ** The blocks of a pool *)
Section pool.
Import Pool.

Lemma land_mask k x : 0 <= k <= 64 -> in_u 64 x -> Z.land x (u64 (- 2 ^ k)) = x - x mod 2 ^ k.
Proof.
  intros Hk Hx.
  assert (E : x - x mod 2 ^ k = Z.ldiff x (Z.ones k)).
  { rewrite Z.ldiff_ones_r by lia. rewrite Z.shiftl_mul_pow2, Z.shiftr_div_pow2 by lia. pose proof (Z.div_mod x (2 ^ k)). pose proof (Z.pow_pos_nonneg 2 k). lia. }
  rewrite E. apply Z.bits_inj'. intros n Hn. rewrite Z.land_spec, Z.ldiff_spec. destruct (Z.testbit x n) eqn:Ex; [|done]. cbn.
  assert (n < 64).
  { destruct (Z.lt_ge_cases n 64); [done|]. rewrite (Z.bits_above_log2 x n) in Ex; [done|unfold in_u in Hx; lia|].
    destruct (decide (x = 0)) as [->|]; [cbn; lia|]. apply Z.log2_lt_pow2; unfold in_u in *; [lia|].
    eapply Z.lt_le_trans; [apply Hx|]. apply Z.pow_le_mono_r; lia. }
  unfold uwrap. rewrite Z.mod_pow2_bits_low by lia. rewrite Z.bits_opp by lia.
  replace (Z.pred (2 ^ k)) with (Z.ones k) by (rewrite Z.ones_equiv; lia).
  done.
Qed.

(** The first multiple of the alignment from an address on. *)
Definition aligned_from (alignment ptr : Z) : Z := (ptr + alignment - 1) / alignment * alignment.

Lemma align_spec k size ptr space : 0 <= k <= 63 -> 0 <= ptr -> ptr + 2 ^ k <= 2 ^ 64 -> 0 < ptr + 2 ^ k - 1 ->
  align (2 ^ k) size ptr space =
    if (space <? size) || (space - size <? aligned_from (2 ^ k) ptr - ptr) then None else Some (aligned_from (2 ^ k) ptr).
Proof.
  intros Hk Hp Hs H0. unfold align. destruct (space <? size); [done|]. cbn [orb]. pose proof (Z.pow_pos_nonneg 2 k).
  rewrite (uwrap_id 64 (ptr - 1 + 2 ^ k)) by (unfold in_u; lia). rewrite land_mask by (unfold in_u; lia).
  assert (ptr - 1 + 2 ^ k - (ptr - 1 + 2 ^ k) mod 2 ^ k = aligned_from (2 ^ k) ptr) as ->; [|done].
  unfold aligned_from. replace (ptr + 2 ^ k - 1) with (ptr - 1 + 2 ^ k) by lia. pose proof (Z.div_mod (ptr - 1 + 2 ^ k) (2 ^ k)). lia.
Qed.

Lemma aligned_from_bounds a ptr : 0 < a -> ptr <= aligned_from a ptr < ptr + a /\ (aligned_from a ptr) mod a = 0.
Proof.
  intros Ha. unfold aligned_from. pose proof (Z.div_mod (ptr + a - 1) a). pose proof (Z.mod_pos_bound (ptr + a - 1) a Ha).
  split; [lia|apply Z.mod_mul; lia].
Qed.

(** A sequence of requests: sizes, and alignments by their logarithm. *)
Fixpoint allocate_all (p : t) (requests : list (Z * Z)) : outcome (list (Z * Z) * t) :=
  match requests with
  | [] => Done ([], p)
  | (size, k) :: requests =>
      '(a, p) ← Allocate p size (2 ^ k);
      '(blocks, p) ← allocate_all p requests;
      Done ((a, size) :: blocks, p)
  end.

(** Blocks one behind the other between two addresses. *)
Fixpoint in_order_between (lo hi : Z) (blocks : list (Z * Z)) : Prop :=
  match blocks with
  | [] => lo <= hi
  | (a, size) :: blocks => lo <= a /\ in_order_between (a + size) hi blocks
  end.

(** A pool that lies where a 64-bit address can reach. *)
Definition pool_ok (p : t) : Prop := 0 < data_ p /\ 0 <= position_ p <= size_ p /\ data_ p + size_ p <= 2 ^ 63.

Lemma Allocate_spec p size k : pool_ok p -> 0 <= size -> 0 <= k <= 32 ->
  let a := aligned_from (2 ^ k) (data_ p + position_ p) in
  Allocate p size (2 ^ k) =
    if data_ p + size_ p <? a + size then Faulted Assertion
    else Done (a, {| data_ := data_ p; size_ := size_ p; position_ := a - data_ p + size |}).
Proof.
  intros (Hd & Hp & Hh) Hs Hk a. unfold Allocate. pose proof (Z.pow_pos_nonneg 2 k). pose proof (Z.pow_le_mono_r 2 k 32).
  destruct (aligned_from_bounds (2 ^ k) (data_ p + position_ p)) as [Ha _]; [lia|]. rewrite align_spec by lia. fold a in Ha |- *.
  destruct (Z.ltb_spec (size_ p - position_ p) size); cbn [orb].
  - by rewrite (proj2 (Z.ltb_lt _ _)) by lia.
  - destruct (Z.ltb_spec (size_ p - position_ p - size) (a - (data_ p + position_ p))).
    + by rewrite (proj2 (Z.ltb_lt _ _)) by lia.
    + by rewrite (proj2 (Z.ltb_ge _ _)) by lia.
Qed.

(** Blocks of a pool are aligned, lie in the pool and one behind the other; a request
    is refused exactly when its block would not fit behind the last. *)
Theorem pool_blocks requests : forall p, pool_ok p -> Forall (fun r => 0 <= fst r /\ 0 <= snd r <= 32) requests ->
  match allocate_all p requests with
  | Done (blocks, p') =>
      in_order_between (data_ p + position_ p) (data_ p + position_ p') blocks /\ pool_ok p' /\
      data_ p' = data_ p /\ size_ p' = size_ p /\
      Forall2 (fun r b => snd b = fst r /\ fst b mod 2 ^ snd r = 0) requests blocks
  | Faulted f => f = Assertion
  end.
Proof.
  induction requests as [|[size k] requests IH]; intros p Hp Hr; cbn [allocate_all].
  - split_and!; try done. cbn. lia.
  - apply Forall_cons_1 in Hr as [[Hs Hk] Hr]. cbn [fst snd] in *. rewrite Allocate_spec by done. pose proof Hp as (Hd & Hpos & Hh).
    pose proof (Z.pow_pos_nonneg 2 k). destruct (aligned_from_bounds (2 ^ k) (data_ p + position_ p)) as [Ha Hm]; [lia|].
    set (a := aligned_from (2 ^ k) (data_ p + position_ p)) in *. destruct (Z.ltb_spec (data_ p + size_ p) (a + size)); [done|]. rewrite bind_done.
    cbn beta iota. set (p1 := {| data_ := data_ p; size_ := size_ p; position_ := a - data_ p + size |}).
    assert (Hp1 : pool_ok p1) by (unfold pool_ok; cbn; lia). specialize (IH p1 Hp1 Hr). destruct (allocate_all p1 requests) as [[blocks p']|f]; [|done].
    rewrite bind_done. cbn beta iota. destruct IH as (Hc & Hp' & E1 & E2 & Hf). split_and!; try done.
    + cbn. split; [lia|]. replace (data_ p1 + position_ p1) with (a + size) in Hc by (cbn; lia). exact Hc.
    + by constructor.
Qed.
End pool.

(** ** A vector is a list of no more than its capacity *)
Section vector.
Import StaticVector.
Context {T : Type}.

Definition vector_ok (v : t T) : Prop := 0 <= size_ v <= zlen (data_ v).

(** A vector within its capacity behaves as a list; an element behind the capacity is
    stored outside the array. *)
Theorem static_vector_is_list (v : t T) (x : T) : vector_ok v ->
  zlen (elements v) = size_ v /\
  (size_ v < zlen (data_ v) -> exists v', push_back v x = Done v' /\ vector_ok v' /\ elements v' = elements v ++ [x] /\
     back v' = Done x /\ elements (pop_back v') = elements v /\ vector_ok (pop_back v')) /\
  (size_ v = zlen (data_ v) -> push_back v x = Faulted Undefined) /\
  (forall i, 0 <= i < size_ v -> at_ v i = match elements v !! Z.to_nat i with Some y => Done y | None => Faulted Undefined end) /\
  elements (clear v) = [] /\ vector_ok (clear v).
Proof.
  intros [H0 Hc]. unfold elements. split_and!.
  - rewrite zlen_take by lia. lia.
  - intros Hl. unfold push_back, put. rewrite (proj2 (Z.ltb_ge _ _)), (proj2 (Z.leb_gt _ _)) by lia. cbn [orb]. rewrite bind_done. cbn [data_ size_].
    eexists. split; [done|]. unfold vector_ok, zlen in *. cbn [data_ size_ pop_back]. rewrite length_insert. split; [lia|].
    assert (El : (Z.to_nat (size_ v) < length (data_ v))%nat) by lia. split; [|split; [|split]].
    + unfold ztake. rewrite Z2Nat.inj_add by lia. change (Z.to_nat 1) with 1%nat. rewrite Nat.add_1_r, (take_S_r _ _ x).
      * by rewrite take_insert_ge by lia.
      * by rewrite list_lookup_insert_eq by lia.
    + unfold back, at_. cbn [data_ size_]. replace (size_ v + 1 - 1) with (size_ v) by lia.
      rewrite (proj2 (Z.ltb_ge _ _)) by lia. by rewrite list_lookup_insert_eq by lia.
    + unfold ztake. replace (size_ v + 1 - 1) with (size_ v) by lia. by rewrite take_insert_ge by lia.
    + lia.
  - intros El. unfold push_back, put. rewrite El, (proj2 (Z.leb_le _ _)) by lia. by rewrite orb_true_r.
  - intros i Hi. unfold at_, ztake. rewrite (proj2 (Z.ltb_ge _ _)) by lia. by rewrite lookup_take_lt by lia.
  - by unfold ztake.
  - unfold vector_ok. cbn. pose proof (zlen_nonneg (data_ v)). lia.
Qed.
End vector.

(** ** Callbacks are called until they are destroyed *)
Section table.
Import CallbackTable.
Context {C : Type}.
Implicit Types s : State C.

(** No two objects have one slot, and a slot that an object has is in use. *)
Record table_ok s : Prop := {
  own_slots : forall o o' i, objects s !! o = Some (Some i) -> objects s !! o' = Some (Some i) -> o = o';
  slots_used : forall o i, objects s !! o = Some (Some i) -> exists c, g_callbacks s !! i = Some (Some c);
}.

Lemma free_slot_spec (l : list (option C)) i : free_slot l = Some i -> l !! i = Some None.
Proof.
  revert i. induction l as [|[c|] l IH]; intros i; cbn; [done| |by intros [= <-]].
  destruct (free_slot l) as [j|]; [|done]. intros [= <-]. by apply IH.
Qed.

Lemma free_slot_none (l : list (option C)) : free_slot l = None -> Forall is_Some l.
Proof. induction l as [|[c|] l IH]; cbn; [by constructor| |done]. destruct (free_slot l); [done|]. by constructor; [eexists|apply IH]. Qed.

Lemma table_make : table_ok (make (C := C)).
Proof. by split; intros o; [intros o'|]; intros i. Qed.

Lemma MakeFunction_ok (c : C) s s' : table_ok s -> MakeFunction c s = Done s' ->
  table_ok s' /\ call (length (objects s)) s' = Done c /\ (forall o, (o < length (objects s))%nat -> call o s' = call o s).
Proof.
  intros [Ho Hu] E. unfold MakeFunction in E. destruct (free_slot (g_callbacks s)) as [i|] eqn:Ei; [|done]. injection E as <-.
  apply free_slot_spec in Ei. pose proof (lookup_lt_Some _ _ _ Ei) as Hlt.
  assert (Hnew : forall o j, objects s !! o = Some (Some j) -> j <> i) by (intros o j Hj ->; destruct (Hu o i Hj); congruence).
  split; [split|split].
  - cbn. intros o o' j H1%lookup_snoc_Some H2%lookup_snoc_Some. destruct H1 as [[_ H1]|[-> [= <-]]], H2 as [[_ H2]|[-> H2]].
    + by eapply Ho.
    + injection H2 as <-. by destruct (Hnew _ _ H1).
    + by destruct (Hnew _ _ H2).
    + done.
  - cbn. intros o j [[_ H1]|[-> [= <-]]]%lookup_snoc_Some.
    + destruct (Hu o j H1) as [c' Hc]. exists c'. rewrite list_lookup_insert_ne by (intros ->; by destruct (Hnew _ _ H1)). done.
    + exists c. by apply list_lookup_insert_eq.
  - unfold call. cbn. rewrite lookup_app_r, Nat.sub_diag by done. cbn. by rewrite list_lookup_insert_eq.
  - intros o Hl. unfold call. cbn. rewrite lookup_app_l by done. destruct (objects s !! o) as [[j|]|] eqn:Eo; try done.
    by rewrite list_lookup_insert_ne by (intros ->; by destruct (Hnew _ _ Eo)).
Qed.

Lemma lookup_insert_cases {A} (l : list A) i x j y : <[i := x]> l !! j = Some y ->
  (i = j /\ x = y) \/ (i <> j /\ l !! j = Some y).
Proof.
  destruct (decide (i = j)) as [->|Hn]; [|rewrite list_lookup_insert_ne by done; by right].
  intros H. assert ((j < length l)%nat) by (apply lookup_lt_Some in H; by rewrite length_insert in H).
  rewrite list_lookup_insert_eq in H by done. injection H as <-. by left.
Qed.

Lemma destroy_ok o s : table_ok s -> table_ok (destroy o s) /\ call o (destroy o s) = Faulted Undefined /\
  (forall o', o' <> o -> call o' (destroy o s) = call o' s) /\
  (forall i, objects s !! o = Some (Some i) -> g_callbacks (destroy o s) !! i = Some None).
Proof.
  intros Hs. pose proof Hs as [Ho Hu]. unfold destroy. destruct (objects s !! o) as [[i|]|] eqn:Eo.
  - destruct (Hu o i Eo) as [c Hc]. pose proof (lookup_lt_Some _ _ _ Hc). pose proof (lookup_lt_Some _ _ _ Eo). split; [split|split; [|split]].
    + cbn. intros o1 o2 j [[_ ?]|[_ H1]]%lookup_insert_cases [[_ ?]|[_ H2]]%lookup_insert_cases; try done. by eapply Ho.
    + cbn. intros o1 j [[_ ?]|[Hn H1]]%lookup_insert_cases; [done|]. destruct (Hu o1 j H1) as [c' Hc']. exists c'.
      rewrite list_lookup_insert_ne; [done|]. intros ->. by destruct (Ho o o1 j).
    + unfold call. cbn. by rewrite list_lookup_insert_eq.
    + intros o' Hn. unfold call. cbn. rewrite list_lookup_insert_ne by done. destruct (objects s !! o') as [[j|]|] eqn:Eo'; try done.
      rewrite list_lookup_insert_ne; [done|]. intros ->. by destruct (Ho o' o j).
    + intros j [= <-]. cbn. by apply list_lookup_insert_eq.
  - split; [done|]. unfold call. rewrite Eo. by split_and!.
  - split; [done|]. unfold call. rewrite Eo. by split_and!.
Qed.

Lemma move_ok rhs s f : table_ok s -> objects s !! rhs = Some f ->
  table_ok (move rhs s) /\ call (length (objects s)) (move rhs s) = call rhs s /\
  (forall o, (o < length (objects s))%nat -> o <> rhs -> call o (move rhs s) = call o s).
Proof.
  intros [Ho Hu] Er. unfold move. rewrite Er. pose proof (lookup_lt_Some _ _ _ Er).
  assert (El : length (<[rhs := None]> (objects s)) = length (objects s)) by apply length_insert.
  split; [split|split].
  - cbn. intros o1 o2 j H1%lookup_snoc_Some H2%lookup_snoc_Some.
    destruct H1 as [[_ [[_ ?]|[N1 H1]]%lookup_insert_cases]|[-> ->]], H2 as [[_ [[_ ?]|[N2 H2]]%lookup_insert_cases]|[-> H2]]; try done.
    + by eapply Ho.
    + subst f. by destruct (Ho o1 rhs j).
    + by destruct (Ho o2 rhs j).
  - cbn. intros o j [[_ [[_ ?]|[_ H1]]%lookup_insert_cases]|[-> ->]]%lookup_snoc_Some; [done|by eapply Hu|by eapply Hu].
  - unfold call. cbn. rewrite lookup_app_r by lia. rewrite El, Nat.sub_diag. cbn. by rewrite Er.
  - intros o Hl Hn. unfold call. cbn. rewrite lookup_app_l by lia. by rewrite list_lookup_insert_ne.
Qed.

(** Of ten callbacks each is called through its own function, whatever is made,
    moved and destroyed in between, until its object is destroyed; but the function
    that an assignment writes over stays in use for ever, since no object has it. *)
Theorem callbacks_called s : table_ok s ->
  (forall c, (exists s', MakeFunction c s = Done s' /\ table_ok s' /\ call (length (objects s)) s' = Done c /\
                forall o, (o < length (objects s))%nat -> call o s' = call o s) \/
     MakeFunction c s = Faulted Assertion /\ Forall is_Some (g_callbacks s)) /\
  (forall o, table_ok (destroy o s) /\ forall o', o' <> o -> call o' (destroy o s) = call o' s) /\
  (forall rhs f, objects s !! rhs = Some f -> table_ok (move rhs s) /\ call (length (objects s)) (move rhs s) = call rhs s /\
     forall o, (o < length (objects s))%nat -> o <> rhs -> call o (move rhs s) = call o s) /\
  (forall lhs rhs i f, objects s !! lhs = Some (Some i) -> objects s !! rhs = Some f -> lhs <> rhs ->
     call lhs (move_assign lhs rhs s) = call rhs s /\
     (exists c, g_callbacks (move_assign lhs rhs s) !! i = Some (Some c)) /\ (forall o, objects (move_assign lhs rhs s) !! o <> Some (Some i))).
Proof.
  intros Hs. pose proof Hs as [Ho Hu]. split_and!.
  - intros c. destruct (MakeFunction c s) as [s'|f] eqn:E.
    + left. exists s'. split; [done|]. by apply MakeFunction_ok.
    + right. unfold MakeFunction in E. destruct (free_slot (g_callbacks s)) eqn:Ei; [done|]. injection E as <-. split; [done|by apply free_slot_none].
  - intros o. destruct (destroy_ok o s Hs) as (H1 & _ & H2 & _). done.
  - intros rhs f Er. by apply (move_ok rhs s f).
  - intros lhs rhs i f El Er Hn. unfold move_assign. rewrite Er. pose proof (lookup_lt_Some _ _ _ El). pose proof (lookup_lt_Some _ _ _ Er).
    split; [|split; [by eapply Hu|]].
    + unfold call. cbn. rewrite list_lookup_insert_ne by done. rewrite list_lookup_insert_eq by done. by rewrite Er.
    + cbn. intros o [[_ ?]|[N1 [[_ ->]|[N2 H1]]%lookup_insert_cases]]%lookup_insert_cases; [done|by destruct (Ho lhs rhs i)|by destruct (Ho lhs o i)].
Qed.
End table.

(** ** The sum of the last values *)
Section average.
Import WindowedAverage.
Context (w accum max_capacity : Z).

Definition sum (l : list Z) : Z := foldr Z.add 0 l.

Lemma sum_app l k : sum (l ++ k) = sum l + sum k.
Proof. induction l as [|x l IH]; cbn; [done|]. unfold sum in *. cbn. rewrite IH. lia. Qed.

(** The ring holds the last of the values that were added: from [pos_] on the older
    ones once it is full. *)
Record holds (a : t) (capacity : Z) (values : list Z) : Prop := {
  h_capacity : capacity_ a = capacity /\ 0 < capacity <= zlen (data_ a);
  h_size : size_ a = Z.min (zlen values) capacity;
  h_pos : pos_ a = zlen values mod capacity;
  h_ring : forall k, 0 <= k < size_ a -> data_ a !! Z.to_nat ((zlen values - 1 - k) mod capacity) = values !! Z.to_nat (zlen values - 1 - k);
  h_total : total_ a = sum (zdrop (zlen values - size_ a) values);
}.

Lemma make_holds capacity : 0 < Z.min max_capacity capacity -> holds (make max_capacity capacity) (Z.min max_capacity capacity) [].
Proof.
  intros Hc. constructor; cbn.
  - split; [done|]. unfold zlen. rewrite length_replicate. lia.
  - change (zlen []) with 0. lia.
  - by rewrite Z.mod_0_l by lia.
  - intros k Hk. lia.
  - done.
Qed.

Lemma snoc_drop (l : list Z) x n : 0 <= n <= zlen l -> zdrop n (l ++ [x]) = zdrop n l ++ [x].
Proof. intros Hn. unfold zdrop. rewrite drop_app_le; [done|]. unfold zlen in Hn. lia. Qed.

Lemma drop_first (l : list Z) n x : 0 <= n -> l !! Z.to_nat n = Some x -> sum (zdrop n l) = x + sum (zdrop (n + 1) l).
Proof.
  intros Hn Hx. unfold zdrop. rewrite (drop_S l x) by done. rewrite Z2Nat.inj_add by lia. change (Z.to_nat 1) with 1%nat. by rewrite Nat.add_1_r.
Qed.

(** The sum of any values fits while fewer than this are summed. *)
Definition fits (a : t) (value : Z) : Prop :=
  in_s accum (total_ a + value) /\ in_s accum (total_ a + value - default 0 (data_ a !! Z.to_nat (pos_ a))).

Lemma accumulate_fits z : in_s accum z -> accumulate accum z = Done z.
Proof. intros [Hl Hh]. unfold accumulate. by rewrite (proj2 (Z.leb_le _ _) Hl), (proj2 (Z.ltb_lt _ _) Hh). Qed.

(** Two of the last values lie at different places. *)
Lemma mod_apart a b c : 0 < c -> a mod c = b mod c -> - c < a - b < c -> a = b.
Proof.
  intros Hc E Hab. pose proof (Z.div_mod a c ltac:(lia)). pose proof (Z.div_mod b c ltac:(lia)).
  assert (a - b = c * (a / c - b / c)) as Hd by lia. set (q := a / c - b / c) in *. assert (q = 0) by nia. lia.
Qed.

Theorem windowed_sum a capacity values value : holds a capacity values -> fits a value ->
  exists a', Add accum value a = Done a' /\ holds a' capacity (values ++ [value]).
Proof.
  intros [[Hc Hcl] Hs Hp Hr Ht] [Hf1 Hf2]. pose proof (zlen_nonneg values) as Hz. pose proof (Z.mod_pos_bound (zlen values) capacity ltac:(lia)) as Hm.
  assert (Hlt : (Z.to_nat (pos_ a) < length (data_ a))%nat) by (rewrite Hp; unfold zlen in *; lia).
  destruct (lookup_lt_is_Some_2 _ _ Hlt) as [old Eo]. unfold Add. rewrite Eo in *. cbn [default from_option id] in Hf2.
  rewrite accumulate_fits, bind_done by done. rewrite (proj2 (Z.eqb_neq _ _)) by lia.
  assert (Hring : forall k, 0 <= k < Z.min (zlen values + 1) capacity ->
    <[Z.to_nat (pos_ a) := value]> (data_ a) !! Z.to_nat ((zlen values - k) mod capacity) = (values ++ [value]) !! Z.to_nat (zlen values - k)).
  { intros k Hk. destruct (decide (k = 0)) as [->|Hk0].
    - rewrite Z.sub_0_r, <- Hp, list_lookup_insert_eq by done. rewrite lookup_app_r by (unfold zlen; lia).
      replace (Z.to_nat (zlen values) - length values)%nat with 0%nat by (unfold zlen; lia). done.
    - pose proof (Z.mod_pos_bound (zlen values - k) capacity ltac:(lia)).
      rewrite list_lookup_insert_ne; [|intros E; apply Z2Nat.inj in E; [|lia|lia]; rewrite Hp in E; assert (zlen values = zlen values - k) by (apply (mod_apart _ _ capacity); [lia|exact E|lia]); lia].
      rewrite lookup_app_l by (unfold zlen in *; lia). specialize (Hr (k - 1) ltac:(lia)). by replace (zlen values - 1 - (k - 1)) with (zlen values - k) in Hr by lia. }
  assert (El : zlen (values ++ [value]) = zlen values + 1) by (by rewrite zlen_app).
  set (size := Z.min (size_ a + 1) (capacity_ a)).
  assert (Hsize : size = Z.min (zlen values + 1) capacity) by (unfold size; lia).
  assert (exists total, (if size_ a =? size then accumulate accum (total_ a + value - old) else Done (total_ a + value)) = Done total /\
    total = sum (zdrop (zlen values + 1 - size) (values ++ [value]))) as (total & -> & Htot).
  { destruct (Z.eqb_spec (size_ a) size) as [E|E].
    - rewrite accumulate_fits by done. eexists. split; [done|]. assert (size_ a = capacity) by lia.
      rewrite snoc_drop by lia. rewrite sum_app, Ht. replace (sum [value]) with value by (cbn; lia).
      assert (Hold : values !! Z.to_nat (zlen values - size_ a) = Some old).
      { specialize (Hr (capacity - 1) ltac:(lia)). replace (zlen values - 1 - (capacity - 1)) with (zlen values - size_ a) in Hr by lia.
        rewrite <- Hr. replace ((zlen values - size_ a) mod capacity) with (pos_ a); [done|]. rewrite Hp.
        replace (zlen values - size_ a) with (zlen values + (-1) * capacity) by lia. by rewrite Z.mod_add by lia. }
      rewrite (drop_first values (zlen values - size_ a) old) by (done || lia). replace (zlen values - size_ a + 1) with (zlen values + 1 - size) by lia. lia.
    - eexists. split; [done|]. assert (size = zlen values + 1) by lia. replace (zlen values + 1 - size) with 0 by lia.
      rewrite Ht. replace (zlen values - size_ a) with 0 by lia. unfold zdrop. change (Z.to_nat 0) with 0%nat. rewrite !drop_0, sum_app. cbn. lia. }
  rewrite bind_done. eexists. split; [done|]. constructor; cbn [data_ total_ capacity_ size_ pos_].
  - unfold zlen in *. by rewrite length_insert.
  - by rewrite El.
  - rewrite El, Hp, Hc. by rewrite Zplus_mod_idemp_l.
  - rewrite El. intros k Hk. replace (zlen values + 1 - 1 - k) with (zlen values - k) by lia. apply Hring. lia.
  - by rewrite El.
Qed.
End average.
