(* ===== verification/HostStreams.v ===== *)
(** * io: pipes, copies and sequences of the host

    stream_pipe_factory.cc, stream_copy.h and async_sequence.cc.  A handler is a
    number, what an executor is given to run is an output or a posted task. *)
From stdpp Require Import gmap strings.
From S2P Require Import Prelude.
#[local] Open Scope Z_scope.

(** [boost::asio::error::operation_aborted] *)
Definition kOperationAborted : Z := 125.

(** ** io/stream_pipe_factory.cc *)
Module StreamPipeFactory.

(** The buffers of a read by their size, those of a write by their bytes, each with
    its handler. *)
Record HalfPipe := { read_ : option (Z * nat); write_ : option (list byte * nat) }.

(** [BidirectionalPipe]; a direction is [true] for [direction_a_]. *)
Record Pipe := { direction_a_ : HalfPipe; direction_b_ : HalfPipe }.

Definition half (d : bool) (p : Pipe) : HalfPipe := if d then direction_a_ p else direction_b_ p.
Definition with_half (d : bool) (h : HalfPipe) (p : Pipe) : Pipe :=
  if d then {| direction_a_ := h; direction_b_ := direction_b_ p |} else {| direction_a_ := direction_a_ p; direction_b_ := h |}.
Definition with_read r (h : HalfPipe) : HalfPipe := {| read_ := r; write_ := write_ h |}.
Definition with_write w (h : HalfPipe) : HalfPipe := {| read_ := read_ h; write_ := w |}.

Definition empty_half : HalfPipe := {| read_ := None; write_ := None |}.
Definition empty : Pipe := {| direction_a_ := empty_half; direction_b_ := empty_half |}.

(** A handler that is posted with its error and its size, and bytes that are copied
    to the buffers of a read. *)
Inductive output := Post (handler : nat) (ec n : Z) | Store (handler : nat) (bytes : list byte).

Definition async_read_some (d : bool) (size : Z) (handler : nat) (p : Pipe) : outcome (Pipe * list output) :=
  match read_ (half d p) with
  | Some _ => Faulted Assertion
  | None =>
      if size =? 0 then Done (p, [Post handler 0 0])
      else match write_ (half (negb d) p) with
           | Some (data, write_handler) =>
               let written := Z.min size (zlen data) in
               Done (with_half (negb d) (with_write None (half (negb d) p)) p,
                     [Store handler (ztake written data); Post write_handler 0 written; Post handler 0 written])
           | None => Done (with_half d (with_read (Some (size, handler)) (half d p)) p, [])
           end
  end.

Definition async_write_some (d : bool) (data : list byte) (handler : nat) (p : Pipe) : outcome (Pipe * list output) :=
  match write_ (half d p) with
  | Some _ => Faulted Assertion
  | None =>
      if zlen data =? 0 then Done (p, [Post handler 0 0])
      else match read_ (half (negb d) p) with
           | Some (size, read_handler) =>
               let written := Z.min size (zlen data) in
               Done (with_half (negb d) (with_read None (half (negb d) p)) p,
                     [Store read_handler (ztake written data); Post read_handler 0 written; Post handler 0 written])
           | None => Done (with_half d (with_write (Some (data, handler)) (half d p)) p, [])
           end
  end.

Definition cancel (d : bool) (p : Pipe) : Pipe * list output :=
  let h := half d p in
  (with_half d empty_half p,
   match read_ h with Some (_, handler) => [Post handler kOperationAborted 0] | None => [] end ++
   match write_ h with Some (_, handler) => [Post handler kOperationAborted 0] | None => [] end).

(** [pipes_], and the end that a stream refers to. *)
Definition Factory : Type := gmap String.string Pipe.

Definition GetStream (key : String.string) (direction : Z) (f : Factory) : Factory * (String.string * bool) :=
  (match f !! key with Some _ => f | None => <[key := empty]> f end, (key, direction =? 0)).
End StreamPipeFactory.

(** ** io/stream_copy.h *)
Module StreamCopy.

(** Whether the copy reads or writes, or has ended; and [done_callback_]. *)
Inductive phase := Reading | Writing | Ended.
Record State := { at_ : phase; done_callback_ : bool }.

Inductive output := StartRead (size : Z) | AsyncWrite (data : list byte) | PostDone (ec : Z).

Definition kBufferSize : Z := 4096.

Definition make : State * list output := ({| at_ := Reading; done_callback_ := true |}, [StartRead kBufferSize]).

Definition finish (ec : Z) (s : State) : State * list output :=
  ({| at_ := Ended; done_callback_ := false |}, if done_callback_ s then [PostDone ec] else []).

(** The end of a read, with what it has put into the buffer. *)
Definition HandleRead (ec : Z) (data : list byte) (s : State) : State * list output :=
  if negb (ec =? 0) then finish ec s
  else ({| at_ := Writing; done_callback_ := done_callback_ s |}, [AsyncWrite data]).

Definition HandleWrite (ec : Z) (s : State) : State * list output :=
  if negb (ec =? 0) then finish ec s
  else ({| at_ := Reading; done_callback_ := done_callback_ s |}, [StartRead kBufferSize]).

(** [BidirectionalStreamCopy::HandleDone], with whether its callback is there. *)
Definition HandleDone (ec : Z) (done_callback : bool) : bool * list output :=
  if done_callback then (false, [PostDone ec]) else (false, []).
End StreamCopy.

(** ** io/async_sequence.cc *)
Module AsyncSequence.

Record Item := { callback : nat; description : list byte }.

(** What is posted: the start of an operation, and the completion with the error and
    the descriptions that were appended to it. *)
Inductive task := Operate (item : Item) | Complete (ec : Z) (appended : list (list byte)).

Record State := { sequence_ : list Item; completion_callback_ : bool; posted : list task }.

Definition make : State := {| sequence_ := []; completion_callback_ := false; posted := [] |}.

Definition Add (item : Item) (s : State) : outcome State :=
  _ ← mj_assert (negb (completion_callback_ s));
  Done {| sequence_ := sequence_ s ++ [item]; completion_callback_ := completion_callback_ s; posted := posted s |}.

Definition RunNextOperation (s : State) : State :=
  match sequence_ s with
  | [] => {| sequence_ := []; completion_callback_ := false; posted := posted s ++ [Complete 0 []] |}
  | next_item :: rest => {| sequence_ := rest; completion_callback_ := completion_callback_ s; posted := posted s ++ [Operate next_item] |}
  end.

Definition Start (s : State) : outcome State :=
  _ ← mj_assert (negb (completion_callback_ s));
  Done (RunNextOperation {| sequence_ := sequence_ s; completion_callback_ := true; posted := posted s |}).

(** The handler that the operation of [item] was given. *)
Definition HandleCallback (ec : Z) (item : Item) (s : State) : State :=
  if negb (ec =? 0) then
    {| sequence_ := sequence_ s; completion_callback_ := false;
       posted := posted s ++ [Complete ec (match description item with [] => [] | d => [d] end)] |}
  else RunNextOperation s.
End AsyncSequence.

(** ** A pipe moves every byte once *)
Section pipe.
Import StreamPipeFactory.

Inductive event :=
  | ERead (d : bool) (size : Z) (handler : nat)
  | EWrite (d : bool) (data : list byte) (handler : nat)
  | ECancel (d : bool).

Definition pipe_step (e : event) (p : Pipe) : outcome (Pipe * list output) :=
  match e with
  | ERead d size handler => async_read_some d size handler p
  | EWrite d data handler => async_write_some d data handler p
  | ECancel d => Done (cancel d p)
  end.

(** The bytes that an end receives in a step, in the buffers of the read that waits
    there or is made. *)
Definition stored_for (r : option nat) (out : list output) : list byte :=
  match r with
  | None => []
  | Some r => concat (omap (fun o => match o with Store handler bytes => if Nat.eqb handler r then Some bytes else None | _ => None end) out)
  end.

Definition reader (d : bool) (p : Pipe) (e : event) : option nat :=
  match e with
  | ERead d' _ handler => if Bool.eqb d d' then Some handler else snd <$> read_ (half d p)
  | _ => snd <$> read_ (half d p)
  end.

Definition received (d : bool) (p : Pipe) (e : event) (out : list output) : list byte := stored_for (reader d p e) out.

(** The bytes that a writer at an end is told were taken: the first of its data. *)
Definition told (w : option (list byte * nat)) (out : list output) : list byte :=
  match w with
  | None => []
  | Some (data, w) => concat (omap (fun o => match o with Post handler _ n => if Nat.eqb handler w then Some (ztake n data) else None | _ => None end) out)
  end.

Definition writer (d : bool) (p : Pipe) (e : event) : option (list byte * nat) :=
  match e with
  | EWrite d' data handler => if Bool.eqb d d' then Some (data, handler) else write_ (half d p)
  | _ => write_ (half d p)
  end.

Definition acknowledged (d : bool) (p : Pipe) (e : event) (out : list output) : list byte := told (writer d p e) out.

(** The handlers that wait, that are given and that are posted. *)
Definition half_waits (h : HalfPipe) : list nat := option_list (snd <$> read_ h) ++ option_list (snd <$> write_ h).
Definition waits (p : Pipe) : list nat := half_waits (direction_a_ p) ++ half_waits (direction_b_ p).
Definition given (e : event) : list nat := match e with ERead _ _ h | EWrite _ _ h => [h] | ECancel _ => [] end.
Definition posted_handlers (out : list output) : list nat :=
  omap (fun o => match o with Post h _ _ => Some h | Store _ _ => None end) out.

(** No end waits to read what the other waits to write, and none for no bytes. *)
Definition pipe_ok (p : Pipe) : Prop :=
  forall d, (read_ (half d p) = None \/ write_ (half (negb d) p) = None) /\
    (forall size h, read_ (half d p) = Some (size, h) -> 0 < size).

Definition event_ok (e : event) : Prop := match e with ERead _ size _ => 0 <= size | _ => True end.


(** Handlers that are told apart by [NoDup]. *)
Ltac tell_apart H :=
  cbn in H; repeat (apply list.NoDup_cons in H as [? H]); rewrite ?not_elem_of_cons in *;
  repeat match goal with
  | |- context [Nat.eqb ?a ?b] => destruct (Nat.eqb_spec a b); [try done; exfalso; intuition congruence|]
  end.

(** A step moves from the writers what it moves to the readers, and each handler that
    is given is posted or waits. *)
Definition moves (p : Pipe) (e : event) (p' : Pipe) (out : list output) : Prop :=
  pipe_ok p' /\ (forall d, received (negb d) p e out = acknowledged d p e out) /\
  waits p ++ given e ≡ₚ posted_handlers out ++ waits p'.

Ltac by_direction := let d := fresh in intros d; destruct d.

(** The bytes of a step in either direction, case by case. *)
Ltac count_bytes H :=
  repeat match goal with o : option (_ * _) |- _ => destruct o as [[? ?]|] end;
  by_direction; unfold received, acknowledged, stored_for, told, reader, writer; cbn;
  rewrite ?Nat.eqb_refl; tell_apart H; cbn; rewrite ?app_nil_r; done.

Lemma read_moves d size h p p' out : pipe_ok p -> 0 <= size -> NoDup (waits p ++ [h]) ->
  async_read_some d size h p = Done (p', out) -> moves p (ERead d size h) p' out.
Proof.
  intros Hok Hs Hn E. pose proof (Hok true) as [Ht Htr]. pose proof (Hok false) as [Hf Hfr]. clear Hok. destruct p as [[ra wa] [rb wb]].
  unfold async_read_some in E. destruct d; cbn in *.
  - destruct ra as [|]; [done|]. destruct (Z.eqb_spec size 0) as [->|Hz]; [injection E as <- <-|destruct wb as [[data w]|]; injection E as <- <-].
    + split; [by_direction; done|]. split; [count_bytes Hn|cbn; solve_Permutation].
    + split; [by_direction; cbn; auto|]. split; [count_bytes Hn|cbn; solve_Permutation].
    + split; [by_direction; cbn; split; auto; intros ? ? [= <- <-]; lia|]. split; [count_bytes Hn|cbn; solve_Permutation].
  - destruct rb as [|]; [done|]. destruct (Z.eqb_spec size 0) as [->|Hz]; [injection E as <- <-|destruct wa as [[data w]|]; injection E as <- <-].
    + split; [by_direction; done|]. split; [count_bytes Hn|cbn; solve_Permutation].
    + split; [by_direction; cbn; auto|]. split; [count_bytes Hn|cbn; solve_Permutation].
    + split; [by_direction; cbn; split; auto; intros ? ? [= <- <-]; lia|]. split; [count_bytes Hn|cbn; solve_Permutation].
Qed.

Ltac keeps_ok := by_direction; cbn in *; (split; [auto|first [done|assumption|auto]]).

Lemma write_moves d data h p p' out : pipe_ok p -> NoDup (waits p ++ [h]) ->
  async_write_some d data h p = Done (p', out) -> moves p (EWrite d data h) p' out.
Proof.
  intros Hok Hn E. pose proof (Hok true) as [Ht Htr]. pose proof (Hok false) as [Hf Hfr]. clear Hok. destruct p as [[ra wa] [rb wb]].
  unfold async_write_some in E. destruct d; cbn in *.
  - destruct wa as [|]; [done|]. destruct (Z.eqb_spec (zlen data) 0) as [Hz|Hz]; [injection E as <- <-|destruct rb as [[size r]|]; injection E as <- <-].
    + split; [by_direction; done|]. split; [count_bytes Hn|cbn; solve_Permutation].
    + split; [keeps_ok|]. split; [count_bytes Hn|cbn; solve_Permutation].
    + split; [keeps_ok|]. split; [count_bytes Hn|cbn; solve_Permutation].
  - destruct wb as [|]; [done|]. destruct (Z.eqb_spec (zlen data) 0) as [Hz|Hz]; [injection E as <- <-|destruct ra as [[size r]|]; injection E as <- <-].
    + split; [by_direction; done|]. split; [count_bytes Hn|cbn; solve_Permutation].
    + split; [keeps_ok|]. split; [count_bytes Hn|cbn; solve_Permutation].
    + split; [keeps_ok|]. split; [count_bytes Hn|cbn; solve_Permutation].
Qed.

Lemma cancel_moves d p : pipe_ok p -> NoDup (waits p) -> moves p (ECancel d) (fst (cancel d p)) (snd (cancel d p)).
Proof.
  intros Hok Hn. pose proof (Hok true) as [Ht Htr]. pose proof (Hok false) as [Hf Hfr]. clear Hok. destruct p as [[ra wa] [rb wb]].
  split; [|split].
  - destruct d; keeps_ok.
  - destruct d; cbn in *; count_bytes Hn.
  - destruct d, ra as [[]|], wa as [[]|], rb as [[]|], wb as [[]|]; cbn; solve_Permutation.
Qed.

(** A run: what is done, with the pipe before and what came of it. *)
Fixpoint pipe_run (es : list event) (p : Pipe) : outcome (list (Pipe * event * list output) * Pipe) :=
  match es with
  | [] => Done ([], p)
  | e :: es =>
      '(p', out) ← pipe_step e p;
      '(steps, p'') ← pipe_run es p';
      Done ((p, e, out) :: steps, p'')
  end.

Definition total (f : Pipe -> event -> list output -> list byte) (steps : list (Pipe * event * list output)) : list byte :=
  concat (map (fun '(p, e, out) => f p e out) steps).

Lemma run_moves es : forall p steps p', pipe_ok p -> Forall event_ok es -> NoDup (waits p ++ concat (map given es)) ->
  pipe_run es p = Done (steps, p') ->
  pipe_ok p' /\ (forall d, total (received (negb d)) steps = total (acknowledged d) steps) /\
  waits p ++ concat (map given es) ≡ₚ concat (map (fun '(_, _, out) => posted_handlers out) steps) ++ waits p'.
Proof.
  induction es as [|e es IH]; intros p steps p' Hok He Hn E; cbn [pipe_run map concat] in *.
  - injection E as <- <-. by rewrite app_nil_r.
  - apply Forall_cons_1 in He as [He Hes]. apply bind_done_inv in E as ([p1 out] & E1 & E). cbn beta iota in E.
    apply bind_done_inv in E as ([steps' p2] & E2 & E). injection E as <- <-.
    assert (Hn1 : NoDup (waits p ++ given e)) by (rewrite app_assoc in Hn; by apply list.NoDup_app in Hn as [Hn _]).
    assert (Hm : moves p e p1 out).
    { destruct e as [d size h|d data h|d]; cbn [pipe_step given] in *.
      - by apply (read_moves d size h).
      - by apply (write_moves d data h).
      - rewrite app_nil_r in Hn1. pose proof (cancel_moves d p Hok Hn1) as Hm. assert (Ec : cancel d p = (p1, out)) by congruence. by rewrite Ec in Hm. }
    destruct Hm as (Hok1 & Hb & Hp). destruct (IH p1 steps' p2 Hok1 Hes) as (Hok2 & Hb2 & Hp2); [|done|].
    + rewrite app_assoc, Hp, <- app_assoc in Hn. by apply list.NoDup_app in Hn as (_ & _ & Hn).
    + split; [done|]. split.
      * intros d. unfold total in *. cbn [map concat]. by rewrite Hb, Hb2.
      * cbn [map concat]. rewrite app_assoc, Hp, <- app_assoc, Hp2. solve_Permutation.
Qed.

(** The pipe of a factory.  Over every run of reads, writes and cancellations at both
    ends: the bytes that an end receives are those that the other end is told were
    taken of its writes, in order; every handler is posted once or waits; no end
    waits to read what the other waits to write; and a call faults only when the end
    has one like it outstanding. *)
Theorem host_pipe_conserves es : Forall event_ok es -> NoDup (concat (map given es)) ->
  match pipe_run es empty with
  | Done (steps, p) =>
      (forall d, total (received (negb d)) steps = total (acknowledged d) steps) /\
      concat (map given es) ≡ₚ concat (map (fun '(_, _, out) => posted_handlers out) steps) ++ waits p /\
      (forall d, read_ (half d p) = None \/ write_ (half (negb d) p) = None) /\
      (forall e f, pipe_step e p = Faulted f -> exists d, read_ (half d p) <> None \/ write_ (half d p) <> None)
  | Faulted f => f = Assertion
  end.
Proof.
  intros He Hn. destruct (pipe_run es empty) as [[steps p]|f] eqn:E.
  - assert (Hok : pipe_ok empty) by (intros []; cbn; auto; by split; [left|]).
    destruct (run_moves es empty steps p Hok He Hn E) as (Hok' & Hb & Hp). split_and!; [done|done|by intros d; apply Hok'|].
    intros e f Ef. destruct e as [d size h|d data h|d]; cbn in Ef; [| |done]; exists d.
    + unfold async_read_some in Ef. destruct (read_ (half d p)); [by left|]. by repeat case_match.
    + unfold async_write_some in Ef. destruct (write_ (half d p)); [by right|]. by repeat case_match.
  - clear He Hn. revert E. generalize empty. induction es as [|e es IH]; intros p E; cbn [pipe_run] in E; [done|].
    destruct (pipe_step e p) as [[p' out]|f'] eqn:E1.
    + rewrite bind_done in E. cbn beta iota in E. destruct (pipe_run es p') as [[steps' p'']|f'] eqn:E2; [done|]. injection E as <-. by apply (IH p').
    + injection E as <-. destruct e as [d size h|d data h|d]; cbn in E1; [| |done].
      * unfold async_read_some in E1. repeat case_match; congruence.
      * unfold async_write_some in E1. repeat case_match; congruence.
Qed.
End pipe.

(** ** A copy writes all it reads *)
Section copy.
Import StreamCopy.

Inductive completion := ReadDone (ec : Z) (data : list byte) | WriteDone (ec : Z).

(** What ends is what was started. *)
Definition copy_step (c : completion) (s : State) : option (State * list output) :=
  match at_ s, c with
  | Reading, ReadDone ec data => Some (HandleRead ec data s)
  | Writing, WriteDone ec => Some (HandleWrite ec s)
  | _, _ => None
  end.

Fixpoint copy_run (cs : list completion) (s : State) : option (State * list output) :=
  match cs with
  | [] => Some (s, [])
  | c :: cs =>
      '(s, out) ← copy_step c s;
      '(s, out') ← copy_run cs s;
      Some (s, out ++ out')
  end.

Definition was_read (cs : list completion) : list (list byte) :=
  omap (fun c => match c with ReadDone ec data => if ec =? 0 then Some data else None | WriteDone _ => None end) cs.
Definition was_written (out : list output) : list (list byte) :=
  omap (fun o => match o with AsyncWrite data => Some data | _ => None end) out.
Definition errors (cs : list completion) : list Z :=
  omap (fun c => match c with ReadDone ec _ | WriteDone ec => if ec =? 0 then None else Some ec end) cs.
Definition reported (out : list output) : list Z :=
  omap (fun o => match o with PostDone ec => Some ec | _ => None end) out.

Lemma copy_run_ended cs : forall s s' out, at_ s = Ended -> copy_run cs s = Some (s', out) -> cs = [] /\ s' = s /\ out = [].
Proof.
  destruct cs as [|c cs]; intros s s' out Hs E; cbn [copy_run] in E; [by injection E as <- <-|].
  unfold copy_step in E. by rewrite Hs in E.
Qed.

Lemma copy_run_spec cs : forall s s' out, done_callback_ s = true -> at_ s <> Ended -> copy_run cs s = Some (s', out) ->
  was_written out = was_read cs /\ reported out = errors cs /\ (at_ s' = Ended <-> errors cs <> []) /\ (length (errors cs) <= 1)%nat.
Proof.
  induction cs as [|c cs IH]; intros s s' out Hd Hs E; cbn [copy_run] in E.
  - injection E as <- <-. cbn. split_and!; try done. lia.
  - destruct (copy_step c s) as [[s1 out1]|] eqn:E1; [|done]. cbn in E. destruct (copy_run cs s1) as [[s2 out2]|] eqn:E2; [|done].
    cbn in E. injection E as <- <-. unfold copy_step in E1.
    assert (Hfin : forall ec, finish ec s = (s1, out1) -> out1 = [PostDone ec] /\ cs = [] /\ s2 = s1 /\ out2 = [] /\ at_ s1 = Ended).
    { intros ec. unfold finish. rewrite Hd. intros [= <- <-]. destruct (copy_run_ended cs {| at_ := Ended; done_callback_ := false |} s2 out2 eq_refl E2) as (-> & -> & ->). done. }
    destruct (at_ s), c as [ec data|ec]; try done; injection E1 as E1; unfold HandleRead, HandleWrite in E1; destruct (Z.eqb_spec ec 0) as [->|Hn]; cbn [negb] in E1.
    + injection E1 as <- <-. destruct (IH {| at_ := Writing; done_callback_ := done_callback_ s |} s2 out2 Hd ltac:(done) E2) as (W & R & F & L).
      exact (conj (f_equal (cons data) W) (conj R (conj F L))).
    + destruct (Hfin ec E1) as (-> & -> & -> & -> & Ha). cbn. rewrite (proj2 (Z.eqb_neq _ _) Hn). cbn. split_and!; try done; lia.
    + injection E1 as <- <-. by destruct (IH {| at_ := Reading; done_callback_ := done_callback_ s |} s2 out2 Hd ltac:(done) E2) as (W & R & F & L).
    + destruct (Hfin ec E1) as (-> & -> & -> & -> & Ha). cbn. rewrite (proj2 (Z.eqb_neq _ _) Hn). cbn. split_and!; try done; lia.
Qed.

(** What is read is written, in order and once, until the first error of a read or a
    write, which ends the copy and is reported, once. *)
Theorem copy_carries cs s out : copy_run cs (fst make) = Some (s, out) ->
  was_written out = was_read cs /\ reported out = errors cs /\ (at_ s = Ended <-> errors cs <> []) /\ (length (errors cs) <= 1)%nat.
Proof. by apply copy_run_spec. Qed.

(** Of two copies the one that ends first is reported. *)
Lemma both_copies_report_once ec ec' : let '(there, out) := HandleDone ec true in let '(_, out') := HandleDone ec' there in out ++ out' = [PostDone ec].
Proof. done. Qed.

Lemma copy_carries_witness :
  was_written [AsyncWrite [byte.of_Z 7]; StartRead 4096; PostDone 2] = [[byte.of_Z 7]] /\ [2] = [2] /\ (Ended = Ended <-> [2] <> []) /\ (1 <= 1)%nat.
Proof.
  exact (copy_carries [ReadDone 0 [byte.of_Z 7]; WriteDone 0; ReadDone 2 []] {| at_ := Ended; done_callback_ := false |}
    [AsyncWrite [byte.of_Z 7]; StartRead 4096; PostDone 2] eq_refl).
Defined.
End copy.

(** ** A sequence runs its operations one after the other *)
Section sequence.
Import AsyncSequence.
Context (result : nat -> Z).

(** The executor runs what is posted; an operation ends with its result. *)
Fixpoint drive (fuel : nat) (s : State) : option (list nat * Z * list (list byte)) :=
  match fuel, posted s with
  | S fuel, [Operate item] =>
      '(started, ec, appended) ← drive fuel (HandleCallback (result (callback item)) item
        {| sequence_ := sequence_ s; completion_callback_ := completion_callback_ s; posted := [] |});
      Some (callback item :: started, ec, appended)
  | S _, [Complete ec appended] => Some ([], ec, appended)
  | _, _ => None
  end.

(** The operations up to the first that fails, its error and its description. *)
Fixpoint sequence_spec (items : list Item) : list nat * Z * list (list byte) :=
  match items with
  | [] => ([], 0, [])
  | item :: items =>
      if result (callback item) =? 0 then
        let '(started, ec, appended) := sequence_spec items in (callback item :: started, ec, appended)
      else ([callback item], result (callback item), match description item with [] => [] | d => [d] end)
  end.

Fixpoint add_all (items : list Item) (s : State) : outcome State :=
  match items with [] => Done s | item :: items => s ← Add item s; add_all items s end.

Lemma add_all_spec items : forall s, completion_callback_ s = false ->
  add_all items s = Done {| sequence_ := sequence_ s ++ items; completion_callback_ := false; posted := posted s |}.
Proof.
  induction items as [|item items IH]; intros s Hs; cbn [add_all].
  - rewrite app_nil_r. by destruct s as [q c p]; cbn in *; subst.
  - unfold Add. rewrite Hs. cbn [negb mj_assert]. rewrite !bind_done, IH by done. cbn. by rewrite <- app_assoc.
Qed.

Lemma drive_spec items : forall fuel, (length items < fuel)%nat ->
  drive fuel (RunNextOperation {| sequence_ := items; completion_callback_ := true; posted := [] |}) = Some (sequence_spec items).
Proof.
  induction items as [|item items IH]; intros fuel Hf; (destruct fuel as [|fuel]; [lia|]); [done|]. cbn [RunNextOperation sequence_ drive posted app sequence_spec completion_callback_].
  unfold HandleCallback. destruct (Z.eqb_spec (result (callback item)) 0) as [Hz|Hn]; cbn [negb].
  - rewrite IH by (cbn in Hf; lia). cbn. by destruct (sequence_spec items) as [[started ec] appended].
  - destruct fuel as [|fuel]; [cbn in Hf; lia|]. done.
Qed.

(** The operations that were added are started in order, each once the one before it
    has succeeded; the completion is called with the error of the first that fails,
    and its description, or without one behind the last. *)
Theorem sequence_in_order items :
  exists s, (s ← add_all items make; Start s) = Done s /\ drive (S (length items)) s = Some (sequence_spec items).
Proof.
  rewrite add_all_spec by done. rewrite bind_done. unfold Start. cbn [completion_callback_ negb mj_assert sequence_ make app posted]. rewrite bind_done.
  eexists. split; [done|]. apply drive_spec. lia.
Qed.
End sequence.
