(* ===== verification/MultiplexTool.v ===== *)
(** * multiplex/multiplex_tool.cc: registers from the command line

    The tool reads commands from its console, a line or a part of one each, has
    the client transmit what they ask for and prints the reply.  The conversions
    between text and floating-point numbers are parameters.  Then what a command
    spells, that it is parsed into the requests it spells, and what is printed of a
    reply.  [base::Fail], which
    ends the program as [AssertNotReached] does, is the fault [Assertion]. *)
From Stdlib Require Import Sorted.
From stdpp Require Import gmap strings.
From S2P Require Import Prelude Varuint Streams MultiplexStream Register Tokenizer CString FrameStream ExclusiveCommand StreamAsioClient.
#[local] Open Scope Z_scope.
Import Format StreamAsioClient(IdRequest(..), IdRegisterValue).

(** [fmt] of a [float], and [std::stod] with the conversion to [float], by its bits. *)
Class ToolExternals := {
  fmt_float : Z -> list byte;
  stod_float : list byte -> outcome Z;
}.

(** ** What the tool uses of std::istringstream *)
Module Istringstream.
Record t := { text : list byte; rest : list byte; eof : bool; fail : bool }.

Definition make (s : list byte) : t := {| text := s; rest := s; eof := false; fail := false |}.

(** The characters up to the next blank, and those from it on. *)
Fixpoint word (l : list byte) : list byte * list byte :=
  match l with
  | [] => ([], [])
  | c :: l' => if isspace c then ([], l) else let '(w, r) := word l' in (c :: w, r)
  end.

(** [istr >> str], with an empty [str] *)
Definition extract (i : t) : list byte * t :=
  if eof i || fail i then ([], {| text := text i; rest := rest i; eof := eof i; fail := true |})
  else
    match skip_space (rest i) with
    | [] => ([], {| text := text i; rest := []; eof := true; fail := true |})
    | l => let '(w, r) := word l in
           (w, {| text := text i; rest := r; eof := match r with [] => true | _ => false end; fail := false |})
    end.

(** At the end of the text the stream is no longer good, and the position is -1. *)
Definition tellg (i : t) : Z :=
  if eof i || fail i then -1 else zlen (text i) - zlen (rest i).

(** [while (true) { istr >> str; if (!istr) break; push_back(str); }] *)
Fixpoint words (fuel : nat) (i : t) : outcome (list (list byte)) :=
  match fuel with
  | O => Faulted OutOfFuel
  | S fuel =>
      let '(w, i) := extract i in
      if fail i then Done [] else ws ← words fuel i; Done (w :: ws)
  end.
End Istringstream.

(** [Split], whose delimiters are of one character. *)
Fixpoint Split (str : list byte) (delimiter : Z) : list (list byte) :=
  match str with
  | [] => [[]]
  | c :: str =>
      if char_code c =? delimiter then [] :: Split str delimiter
      else match Split str delimiter with t :: ts => (c :: t) :: ts | [] => [[c]] end
  end.

Module CommandRunner.
Section CommandRunner.
Context {X : ToolExternals}.

(** [std::strchr(kDelimiters, c)], which finds the null too. *)
Definition is_delimiter (c : byte) : bool :=
  let z := char_code c in (z =? 13) || (z =? 10) || (z =? 59) || (z =? 0).

Record Options := { targets : list Z; console : bool; register_tool : bool; poll_rate_ms : Z }.

Record State := { options_ : Options; client_ : bool; stdio_ : bool; streambuf_ : list byte; requests_ : list IdRequest }.

Definition make (options : Options) : State :=
  {| options_ := options; client_ := false; stdio_ := false; streambuf_ := []; requests_ := [] |}.
Definition with_streambuf b s : State :=
  {| options_ := options_ s; client_ := client_ s; stdio_ := stdio_ s; streambuf_ := b; requests_ := requests_ s |}.
Definition with_requests r s : State :=
  {| options_ := options_ s; client_ := client_ s; stdio_ := stdio_ s; streambuf_ := streambuf_ s; requests_ := r |}.

(** What is started, with the handler it ends in, or printed. *)
Inductive output :=
  | StartRead
  | Transmit (requests : list IdRequest)
  | WaitDelay (ms : Z)
  | Print (text : list byte)
  | PrintError (text : list byte)
  | CopyTunnel (id channel poll_rate_ms : Z)
  | Exit (code : Z).

Definition stoi (s : list byte) : outcome Z := fst <$> stol 32 10 s.

(** [GetTypeIndex(op_name.at(1))] *)
Definition GetTypeIndex (op_name : list byte) : outcome Z :=
  match op_name with
  | _ :: c :: _ =>
      let z := char_code c in
      if z =? 98 then Done 0 else if z =? 115 then Done 1 else if z =? 105 then Done 2 else if z =? 102 then Done 3
      else Faulted Assertion
  | _ => Faulted (Exception kOutOfRange)
  end.

Definition ParseValue (str : list byte) (type_index : Z) : outcome Value :=
  if type_index =? 0 then z ← stoi str; Done (VInt8 (swrap 8 z))
  else if type_index =? 1 then z ← stoi str; Done (VInt16 (swrap 16 z))
  else if type_index =? 2 then z ← stoi str; Done (VInt32 z)
  else if type_index =? 3 then bits ← stod_float str; Done (VFloat bits)
  else Faulted Assertion.

Fixpoint ParseValues (value_strs : list (list byte)) (type_index : Z) : outcome (list Value) :=
  match value_strs with
  | [] => Done []
  | s :: value_strs => v ← ParseValue s type_index; vs ← ParseValues value_strs type_index; Done (v :: vs)
  end.

Definition AddWriteRequest (request : RegisterRequest.t) (op_name reg_str : list byte) (value_strs : list (list byte))
    : outcome RegisterRequest.t :=
  type_index ← GetTypeIndex op_name;
  match value_strs with
  | [value_str] =>
      reg ← stoi reg_str; value ← ParseValue value_str type_index;
      RegisterRequest.WriteSingle request (u32 reg) value
  | _ =>
      values ← ParseValues value_strs type_index; reg ← stoi reg_str;
      RegisterRequest.WriteMultiple request (u32 reg) values
  end.

Definition AddReadRequest (request : RegisterRequest.t) (op_name reg_str maybe_reg_count : list byte)
    : outcome RegisterRequest.t :=
  type_index ← GetTypeIndex op_name;
  match maybe_reg_count with
  | [] => reg ← stoi reg_str; RegisterRequest.ReadSingle request (u32 reg) type_index
  | _ =>
      reg ← stoi reg_str; reg_count ← stoi maybe_reg_count;
      RegisterRequest.ReadMultiple request (u32 reg) (u32 reg_count) type_index
  end.

Definition op_name_in (names : list String.string) (op_name : list byte) : bool :=
  existsb (fun name => bool_decide (op_name = text_of name)) names.

(** The loop over the operators of a device. *)
Definition AddOperator (request : RegisterRequest.t) (op : list byte) : outcome (RegisterRequest.t * list output) :=
  let '(op_name, op_str) := Istringstream.extract (Istringstream.make op) in
  if op_name_in ["wb"; "ws"; "wi"; "wf"]%string op_name then
    let '(reg_str, op_str) := Istringstream.extract op_str in
    value_strs ← Istringstream.words (S (length op)) op_str;
    request ← AddWriteRequest request op_name reg_str value_strs;
    Done (request, [])
  else if op_name_in ["rb"; "rs"; "ri"; "rf"]%string op_name then
    let '(reg_str, op_str) := Istringstream.extract op_str in
    let '(maybe_reg_count, _) := Istringstream.extract op_str in
    request ← AddReadRequest request op_name reg_str maybe_reg_count;
    Done (request, [])
  else Done (request, [PrintError (text_of "Unknown op name: " ++ op_name ++ [byte.of_Z 10])]).

Fixpoint AddOperators (request : RegisterRequest.t) (operators : list (list byte)) : outcome (RegisterRequest.t * list output) :=
  match operators with
  | [] => Done (request, [])
  | op :: operators =>
      '(request, out) ← AddOperator request op;
      '(request, out') ← AddOperators request operators;
      Done (request, out ++ out')
  end.

(** [command.substr(pos)], whose argument is converted to [size_t]. *)
Definition substr (s : list byte) (pos : Z) : outcome (list byte) :=
  if zlen s <? u64 pos then Faulted (Exception kOutOfRange) else Done (zdrop pos s).

(** The loop over the devices: the requests so far, and the delay that ends it. *)
Fixpoint AddDevices (devices : list (list byte)) (requests : list IdRequest)
    : outcome (list IdRequest * list output * option Z) :=
  match devices with
  | [] => Done (requests, [], None)
  | command :: devices =>
      let '(id_str, istr) := Istringstream.extract (Istringstream.make command) in
      match id_str with
      | [] => Faulted (Exception kOutOfRange)
      | c :: delay =>
          if char_code c =? 58 then
            ms ← stoi delay;
            Done (requests ++ [{| StreamAsioClient.id := 0; StreamAsioClient.request := RegisterRequest.make |}], [], Some ms)
          else
            operators ← substr command (Istringstream.tellg istr);
            id ← stoi id_str;
            '(request, out) ← AddOperators RegisterRequest.make (Split operators 44);
            '(requests, out', delay) ← AddDevices devices
              (requests ++ [{| StreamAsioClient.id := u8 id; StreamAsioClient.request := request |}]);
            Done (requests, out ++ out', delay)
      end
  end.

(** The characters up to the delimiter, which is taken too. *)
Fixpoint GetCommand (streambuf : list byte) : outcome (list byte * list byte) :=
  match streambuf with
  | [] => Faulted Assertion
  | c :: l => if is_delimiter c then Done ([], l) else '(result, l) ← GetCommand l; Done (c :: result, l)
  end.

(** What a command that is not empty starts. *)
Definition RunRegisterCommand (command_line : list byte) (s : State) : outcome (State * list output) :=
  '(requests, out, delay) ← AddDevices (Split command_line 124) [];
  Done (with_requests requests s, out ++ [match delay with Some ms => WaitDelay ms | None => Transmit requests end]).

Definition ProcessRegisterCommand (HandleLine : State -> outcome (State * list output)) (s : State)
    : outcome (State * list output) :=
  '(command_line, streambuf) ← GetCommand (streambuf_ s);
  let s := with_streambuf streambuf s in
  match command_line with
  | [] => HandleLine s
  | _ => RunRegisterCommand command_line s
  end.

(** Every round takes the delimiter of an empty command. *)
Fixpoint HandleLine_loop (fuel : nat) (s : State) : outcome (State * list output) :=
  match fuel with
  | O => Faulted OutOfFuel
  | S fuel =>
      if existsb is_delimiter (streambuf_ s) then ProcessRegisterCommand (HandleLine_loop fuel) s
      else Done (s, [StartRead])
  end.

Definition HandleLine (ec : Z) (s : State) : outcome (State * list output) :=
  _ ← mj_assert (ec =? 0);
  HandleLine_loop (S (length (streambuf_ s))) s.

Definition HandleDelayTimer (ec : Z) (s : State) : outcome (State * list output) :=
  if ec =? kAborted then Done (s, []) else _ ← mj_assert (ec =? 0); HandleLine 0 s.

(** [ValueFormatter] and [FormatValue] *)
Definition FormatValue (result : ReadResult) : list byte :=
  match result with
  | RError error => text_of "err/" ++ decimal error
  | RValue (VInt8 z) => decimal z ++ text_of "b"
  | RValue (VInt16 z) => decimal z ++ text_of "s"
  | RValue (VInt32 z) => decimal z ++ text_of "i"
  | RValue (VFloat bits) => fmt_float bits ++ text_of "f"
  end.

(** [groups[id].push_back(value)], of a map in the order of its keys. *)
Fixpoint push_group (id : Z) (value : Z * ReadResult) (groups : list (Z * list (Z * ReadResult)))
    : list (Z * list (Z * ReadResult)) :=
  match groups with
  | [] => [(id, [value])]
  | (i, values) :: rest =>
      if id <? i then (id, [value]) :: groups
      else if id =? i then (i, values ++ [value]) :: rest
      else (i, values) :: push_group id value rest
  end.

Definition group_reply (reply : list IdRegisterValue) : list (Z * list (Z * ReadResult)) :=
  fold_left (fun groups '(id, reg, value) => push_group id (reg, value) groups) reply [].

(** Texts with a separator between them. *)
Fixpoint joined (separator : list byte) (first : bool) (l : list (list byte)) : list byte :=
  match l with
  | [] => []
  | x :: l => (if first then [] else separator) ++ x ++ joined separator false l
  end.

Definition format_group (group : Z * list (Z * ReadResult)) : list byte :=
  let '(id, reply) := group in
  match reply with
  | [] => []
  | _ => decimal id ++ text_of ": " ++ text_of "{" ++
         joined (text_of ", ") true (map (fun '(reg, value) => decimal (swrap 32 reg) ++ text_of ":" ++ FormatValue value) reply) ++
         text_of "}"
  end.

Definition format_reply (reply : list IdRegisterValue) : list byte :=
  joined (text_of " | ") true (map format_group (group_reply reply)) ++ [byte.of_Z 10].

(** [HandleRequest], with what is in [reply_]. *)
Definition HandleRequest (ec : Z) (reply_ : list IdRegisterValue) (s : State) : outcome (State * list output) :=
  if ec =? kAborted then
    '(s, out) ← HandleLine 0 s; Done (s, Print (text_of "timeout" ++ [byte.of_Z 10]) :: out)
  else
    _ ← mj_assert (ec =? 0);
    '(s, out) ← HandleLine 0 s; Done (s, Print (format_reply reply_) :: out).

(** ** How the tool starts *)
Definition RunConsole (s : State) : outcome (State * list output) :=
  match targets (options_ s) with
  | [] => Faulted Assertion
  | target :: _ => Done (s, [CopyTunnel (u8 target) 1 (poll_rate_ms (options_ s))])
  end.

Definition RunCommand (s : State) : outcome (State * list output) :=
  if console (options_ s) then RunConsole s
  else if register_tool (options_ s) then Done (s, [StartRead])
  else Done (s, [PrintError (text_of "no commands given!" ++ [byte.of_Z 10]); Exit 1]).

Definition MaybeStart (s : State) : outcome (State * list output) :=
  if negb (client_ s) then Done (s, [])
  else if negb (stdio_ s) then Done (s, [])
  else RunCommand s.

(** The handler of [client_selector_->AsyncStart] *)
Definition HandleClient (ec : Z) (s : State) : outcome (State * list output) :=
  _ ← mj_assert (ec =? 0);
  MaybeStart {| options_ := options_ s; client_ := true; stdio_ := stdio_ s; streambuf_ := streambuf_ s; requests_ := requests_ s |}.

Definition HandleConsole (ec : Z) (s : State) : outcome (State * list output) :=
  _ ← mj_assert (ec =? 0);
  MaybeStart {| options_ := options_ s; client_ := client_ s; stdio_ := true; streambuf_ := streambuf_ s; requests_ := requests_ s |}.

(** The end of the console: the other end closed it, or an error. *)
Definition HandleDone (kEof ec : Z) : outcome (list output) :=
  if ec =? kEof then Done [Exit 1] else _ ← mj_assert (ec =? 0); Done [].
End CommandRunner.
End CommandRunner.

(** ** The commands of the tool *)
Import CommandRunner.

(** ** Words with blanks around them *)
Definition blanks (l : list byte) : Prop := Forall (fun c => isspace c = true) l.
Definition is_word (l : list byte) : Prop := l <> [] /\ Forall (fun c => isspace c = false) l.
Definition ends_word (l : list byte) : Prop := match l with c :: _ => isspace c = true | [] => True end.

Inductive spaced : list (list byte) -> list byte -> Prop :=
  | spaced_nil b : blanks b -> spaced [] b
  | spaced_cons b w ws rest : blanks b -> is_word w -> ends_word rest -> spaced ws rest ->
      spaced (w :: ws) (b ++ w ++ rest).

Lemma skip_blanks b l : blanks b -> skip_space (b ++ l) = skip_space l.
Proof. induction 1 as [|c b Hc _ IH]; [done|]. cbn. by rewrite Hc. Qed.

Lemma skip_word w l : is_word w -> skip_space (w ++ l) = w ++ l.
Proof. intros [Hne Hw]. destruct Hw as [|c w Hc _]; [done|]. cbn. by rewrite Hc. Qed.

Lemma word_word w rest : Forall (fun c => isspace c = false) w -> ends_word rest -> Istringstream.word (w ++ rest) = (w, rest).
Proof.
  intros Hw Hr. induction Hw as [|c w Hc _ IH]; cbn.
  - destruct rest as [|c rest]; [done|]. cbn in *. by rewrite Hr.
  - by rewrite Hc, IH.
Qed.

(** A stream with words to come. *)
Definition at_words (i : Istringstream.t) (ws : list (list byte)) : Prop :=
  Istringstream.fail i = false /\ spaced ws (Istringstream.rest i) /\ (Istringstream.eof i = true -> Istringstream.rest i = []).

Lemma make_at s ws : spaced ws s -> at_words (Istringstream.make s) ws.
Proof. by repeat split. Qed.

Lemma extract_after b w rest t : blanks b -> is_word w -> ends_word rest ->
  Istringstream.extract {| Istringstream.text := t; Istringstream.rest := b ++ w ++ rest; Istringstream.eof := false; Istringstream.fail := false |} =
    (w, {| Istringstream.text := t; Istringstream.rest := rest;
           Istringstream.eof := match rest with [] => true | _ => false end; Istringstream.fail := false |}).
Proof.
  intros Hb Hw Hr. unfold Istringstream.extract. cbn [Istringstream.eof Istringstream.fail Istringstream.rest Istringstream.text orb].
  rewrite skip_blanks, skip_word by done. destruct Hw as [Hne Hw]. pose proof (word_word w rest Hw Hr) as E.
  destruct w as [|c w]; [done|]. cbn [app] in *. by rewrite E.
Qed.

Lemma extract_word i w ws : at_words i (w :: ws) -> exists i', Istringstream.extract i = (w, i') /\ at_words i' ws.
Proof.
  destruct i as [t r e f]. intros (Hf & Hs & He). cbn in *. inversion Hs as [|b ? ? rest Hb Hw Hr Hs']; subst.
  assert (e = false) as ->.
  { destruct e; [|done]. specialize (He eq_refl). destruct Hw as [Hne _]. by destruct b, w. }
  rewrite extract_after by done. eexists. split; [done|]. split; [done|]. split; [done|]. by destruct rest.
Qed.

Lemma extract_none i : at_words i [] -> exists i', Istringstream.extract i = ([], i') /\ Istringstream.fail i' = true.
Proof.
  destruct i as [t r e f]. intros (Hf & Hs & He). cbn in *. subst f. inversion Hs as [b Hb|]; subst. unfold Istringstream.extract. cbn.
  destruct e; cbn; [by eexists|]. rewrite <- (app_nil_r r), skip_blanks by done. by eexists.
Qed.

Lemma words_spec ws : forall fuel i, at_words i ws -> (length ws < fuel)%nat -> Istringstream.words fuel i = Done ws.
Proof.
  induction ws as [|w ws IH]; intros fuel i Hi Hf; (destruct fuel as [|fuel]; [lia|]); cbn [Istringstream.words].
  - destruct (extract_none i Hi) as (i' & -> & ->). done.
  - destruct (extract_word i w ws Hi) as (i' & -> & Hi'). rewrite (proj1 Hi'). rewrite IH by (done || (cbn in Hf; lia)). done.
Qed.

Lemma spaced_length ws text : spaced ws text -> (length ws <= length text)%nat.
Proof.
  induction 1 as [|b w ws rest _ [Hw _] _ _ IH]; cbn [length]; [lia|]. rewrite !length_app. destruct w; [done|]. cbn. lia.
Qed.

(** ** Pieces between separators *)
Definition free_of (z : Z) (l : list byte) : Prop := Forall (fun c => char_code c <> z) l.

Lemma Split_free l z : free_of z l -> Split l z = [l].
Proof. induction 1 as [|c l Hc _ IH]; cbn; [done|]. by rewrite (proj2 (Z.eqb_neq _ _) Hc), IH. Qed.

Lemma Split_next l c rest : free_of (char_code c) l -> Split (l ++ c :: rest) (char_code c) = l :: Split rest (char_code c).
Proof.
  induction 1 as [|x l Hx _ IH]; cbn [app Split]; [by rewrite Z.eqb_refl|]. by rewrite (proj2 (Z.eqb_neq _ _) Hx), IH.
Qed.

Definition comma : byte := byte.of_Z 44.
Definition bar : byte := byte.of_Z 124.

Lemma Split_joined c ps : ps <> [] -> Forall (free_of (char_code c)) ps -> Split (joined [c] true ps) (char_code c) = ps.
Proof.
  intros Hne Hps. destruct Hps as [|p ps Hp Hps]; [done|]. clear Hne. cbn [joined app]. revert p Hp.
  induction Hps as [|q ps Hq _ IH]; intros p Hp; cbn [joined].
  - rewrite app_nil_r. by apply Split_free.
  - cbn [app]. rewrite Split_next by done. f_equal. by apply IH.
Qed.

(** ** Numbers *)
Lemma decimal_some z : decimal z <> [].
Proof.
  destruct z as [|p|p]; [done| |done]. destruct (decimal_run (N.pos p) eq_refl) as (d & ds & E & _).
  change (decimal (Z.pos p)) with (text_of (pretty.pretty (N.pos p))). by rewrite E.
Qed.

Lemma decimal_word z : is_word (decimal z).
Proof.
  split; [apply decimal_some|]. eapply list.Forall_impl; [apply decimal_chars|]. intros c Hc. cbn in Hc. unfold isspace.
  destruct (Z.eqb_spec (char_code c) 32); [lia|]. cbn. lia.
Qed.

Lemma stoi_decimal z : in_s 32 z -> stoi (decimal z) = Done z.
Proof.
  intros [Hl Hh]. unfold stoi, stol. enough (exists n, scan_integer 10 (decimal z) = Some (z <? 0, Z.abs z, n)) as [n ->].
  { cbv zeta. replace (if z <? 0 then - Z.abs z else Z.abs z) with z by (destruct (Z.ltb_spec z 0); lia).
    rewrite (proj2 (Z.leb_le _ _) Hl), (proj2 (Z.ltb_lt _ _) Hh). done. }
  destruct (decide (z = 0)) as [->|Hz]; [by eexists|].
  assert (Hp : forall p, exists d ds, text_of (pretty.pretty (N.pos p)) = d :: ds /\ 49 <= char_code d <= 57 /\
    digits 10 (d :: ds) 0 = Z.pos p /\ digit_run 10 (d :: ds) = S (length ds)).
  { intros p. destruct (decimal_positive (N.pos p) [] eq_refl I) as (d & ds & E & Hd & Hv & Hn). exists d, ds. by rewrite app_nil_r in Hv, Hn. }
  unfold scan_integer. destruct z as [|p|p]; [done| |].
  - change (decimal (Z.pos p)) with (text_of (pretty.pretty (N.pos p))). destruct (Hp p) as (d & ds & -> & Hd & Hv & Hn).
    cbn [skip_space]. rewrite digit_no_space by lia. unfold sign. rewrite (proj2 (Z.eqb_neq _ 45)), (proj2 (Z.eqb_neq _ 43)) by lia.
    cbn [prefix_in Z.eqb Pos.eqb]. cbv beta iota. rewrite Hn, Hv. by eexists.
  - change (decimal (Z.neg p)) with (byte.of_Z 45 :: text_of (pretty.pretty (N.pos p))). destruct (Hp p) as (d & ds & -> & Hd & Hv & Hn).
    cbn [skip_space isspace]. change (isspace (byte.of_Z 45)) with false. cbv iota. change (sign (byte.of_Z 45 :: d :: ds)) with (true, d :: ds).
    cbn [prefix_in Z.eqb Pos.eqb]. cbv beta iota. rewrite Hn, Hv. by eexists.
Qed.

(** ** What a command spells *)
Section commands.
Context {X : ToolExternals}.

Definition letter (type : Z) : byte :=
  byte.of_Z (if type =? 0 then 98 else if type =? 1 then 115 else if type =? 2 then 105 else 102).
Definition write_name (type : Z) : list byte := [byte.of_Z 119; letter type].
Definition read_name (type : Z) : list byte := [byte.of_Z 114; letter type].

Definition value_spelled (w : list byte) (v : Value) : Prop :=
  match v with
  | VInt8 z => in_s 8 z /\ w = decimal z
  | VInt16 z => in_s 16 z /\ w = decimal z
  | VInt32 z => in_s 32 z /\ w = decimal z
  | VFloat bits => stod_float w = Done bits
  end.

(** The words of an operation.  Registers and counts are read as an [int]. *)
Definition op_words (op : request_op) (ws : list (list byte)) : Prop :=
  match op with
  | OpReadSingle reg type => 0 <= reg < 2 ^ 31 /\ 0 <= type <= 3 /\ ws = [read_name type; decimal reg]
  | OpRead reg num type =>
      0 <= reg < 2 ^ 31 /\ 0 < num < 2 ^ 31 /\ 0 <= type <= 3 /\ ws = [read_name type; decimal reg; decimal num]
  | OpWriteSingle reg v =>
      0 <= reg < 2 ^ 31 /\ exists w, value_spelled w v /\ ws = [write_name (index v); decimal reg; w]
  | OpWrite reg vs =>
      0 <= reg < 2 ^ 31 /\ exists type vws, (2 <= length vs)%nat /\ Forall2 value_spelled vws vs /\
        Forall (fun v => index v = type) vs /\ ws = write_name type :: decimal reg :: vws
  end.

Definition op_spelled (op : request_op) (text : list byte) : Prop := exists ws, op_words op ws /\ spaced ws text.

(** [ID op, op]: the operations come after a blank. *)
Definition device_spelled (a : Z * list request_op) (text : list byte) : Prop :=
  exists b texts, in_u 8 (fst a) /\ in_u 64 (zlen text) /\ blanks b /\ text = b ++ decimal (fst a) ++ joined [comma] true texts /\
    ends_word (joined [comma] true texts) /\ joined [comma] true texts <> [] /\
    Forall (free_of 44) texts /\ Forall2 op_spelled (snd a) texts /\ texts <> [].

(** [device | device] *)
Definition command_spelled (asks : list (Z * list request_op)) (text : list byte) : Prop :=
  exists texts, text = joined [bar] true texts /\ texts <> [] /\ Forall (free_of 124) texts /\ Forall2 device_spelled asks texts.

(** The requests that are asked for. *)
Fixpoint build (asks : list (Z * list request_op)) : outcome (list IdRequest) :=
  match asks with
  | [] => Done []
  | (i, ops) :: asks =>
      r ← run_ops RegisterRequest.make ops; rs ← build asks;
      Done ({| StreamAsioClient.id := i; StreamAsioClient.request := r |} :: rs)
  end.

(** ** The parsing of a command *)
Lemma type_range v : 0 <= index v <= 3.
Proof. destruct v; cbn; lia. Qed.

Lemma type_cases type (P : Z -> Prop) : 0 <= type <= 3 -> P 0 -> P 1 -> P 2 -> P 3 -> P type.
Proof. intros Ht H0 H1 H2 H3. assert (type = 0 \/ type = 1 \/ type = 2 \/ type = 3) as [->|[->|[->| ->]]] by lia; done. Qed.

Lemma type_of_name c type : 0 <= type <= 3 -> GetTypeIndex [c; letter type] = Done type.
Proof. intros Ht. by apply (type_cases type). Qed.

Lemma write_name_in type : 0 <= type <= 3 -> op_name_in ["wb"; "ws"; "wi"; "wf"]%string (write_name type) = true.
Proof. intros Ht. by apply (type_cases type). Qed.

Lemma read_name_in type : 0 <= type <= 3 ->
  op_name_in ["wb"; "ws"; "wi"; "wf"]%string (read_name type) = false /\
  op_name_in ["rb"; "rs"; "ri"; "rf"]%string (read_name type) = true.
Proof. intros Ht. by apply (type_cases type). Qed.

Lemma ParseValue_spelled w v : value_spelled w v -> ParseValue w (index v) = Done v.
Proof.
  assert (Hw : forall n z, n <= 32 -> in_s n z -> in_s 32 z).
  { intros n z Hn [Hl Hh]. pose proof (Z.pow_le_mono_r 2 (n - 1) 31 ltac:(lia) ltac:(lia)). unfold in_s. cbn in *. lia. }
  destruct v as [z|z|z|bits]; cbn [value_spelled index].
  - intros [Hz ->]. unfold ParseValue. cbn [Z.eqb]. rewrite stoi_decimal by (by apply (Hw 8)). rewrite bind_done. by rewrite swrap_id by (lia || done).
  - intros [Hz ->]. unfold ParseValue. cbn [Z.eqb]. rewrite stoi_decimal by (by apply (Hw 16)). rewrite bind_done. by rewrite swrap_id by (lia || done).
  - intros [Hz ->]. unfold ParseValue. cbn [Z.eqb Pos.eqb]. by rewrite stoi_decimal.
  - intros Hb. unfold ParseValue. cbn [Z.eqb Pos.eqb]. by rewrite Hb.
Qed.

Lemma ParseValues_spelled type vws vs : Forall2 value_spelled vws vs -> Forall (fun v => index v = type) vs ->
  ParseValues vws type = Done vs.
Proof.
  induction 1 as [|w v vws vs Hv _ IH]; intros Ht; cbn [ParseValues]; [done|]. apply Forall_cons_1 in Ht as [<- Ht].
  by rewrite (ParseValue_spelled w v Hv), bind_done, (IH Ht).
Qed.

Lemma stoi_register reg : 0 <= reg < 2 ^ 31 -> stoi (decimal reg) = Done reg /\ u32 reg = reg.
Proof. intros Hr. split; [apply stoi_decimal; unfold in_s; lia|apply uwrap_id; unfold in_u; lia]. Qed.

Lemma AddWriteRequest_spelled r op ws : op_words op ws -> op_reads op = false ->
  match ws with
  | op_name :: reg_str :: value_strs => AddWriteRequest r op_name reg_str value_strs = run_op r op
  | _ => False
  end.
Proof.
  destruct op as [| |start vs|reg v]; cbn [op_words op_reads]; try done.
  - intros (Hr & type & vws & Hl & Hv & Ht & ->) _. destruct (stoi_register start Hr) as [Es Eu]. unfold AddWriteRequest, write_name.
    pose proof (Forall2_length Hv) as El. assert (0 <= type <= 3).
    { destruct Ht as [|v vs <- _]; [cbn in Hl; lia|apply type_range]. }
    rewrite type_of_name, bind_done by done. destruct vws as [|w [|w' vws]]; [cbn in El; lia|cbn in El; lia|].
    by rewrite (ParseValues_spelled type _ vs Hv Ht), bind_done, Es, bind_done, Eu.
  - intros (Hr & w & Hv & ->) _. destruct (stoi_register reg Hr) as [Es Eu]. unfold AddWriteRequest, write_name.
    rewrite type_of_name, bind_done by apply type_range. by rewrite Es, bind_done, (ParseValue_spelled w v Hv), bind_done, Eu.
Qed.

Lemma AddReadRequest_spelled r op ws : op_words op ws -> op_reads op = true ->
  match ws with
  | op_name :: reg_str :: counts => AddReadRequest r op_name reg_str (match counts with [] => [] | n :: _ => n end) = run_op r op
  | _ => False
  end.
Proof.
  destruct op as [reg num type|reg type| |]; cbn [op_words op_reads]; try done.
  - intros (Hr & Hn & Ht & ->) _. destruct (stoi_register reg Hr) as [Es Eu]. destruct (stoi_register num ltac:(lia)) as [En Eun].
    unfold AddReadRequest, read_name. rewrite type_of_name, bind_done by done. pose proof (decimal_some num).
    destruct (decimal num) as [|c l] eqn:E; [done|]. by rewrite Es, bind_done, En, bind_done, Eu, Eun.
  - intros (Hr & Ht & ->) _. destruct (stoi_register reg Hr) as [Es Eu].
    unfold AddReadRequest, read_name. rewrite type_of_name, bind_done by done. by rewrite Es, bind_done, Eu.
Qed.

Lemma AddOperator_spelled r op text : op_spelled op text -> AddOperator r text = (r ← run_op r op; Done (r, [])).
Proof.
  intros (ws & Hw & Hs). pose proof (spaced_length _ _ Hs) as Hl. unfold AddOperator.
  destruct (op_reads op) eqn:Eo.
  - pose proof (AddReadRequest_spelled r op ws Hw Eo) as Er. destruct ws as [|op_name [|reg_str counts]]; [done..|].
    destruct (extract_word _ _ _ (make_at _ _ Hs)) as (i1 & -> & H1). destruct (extract_word _ _ _ H1) as (i2 & E2 & H2).
    assert (exists type, 0 <= type <= 3 /\ op_name = read_name type) as (type & Ht & ->).
    { destruct op as [reg num type|reg type| |]; try done; exists type.
      - by destruct Hw as (_ & _ & Ht & [= -> _ _]).
      - by destruct Hw as (_ & Ht & [= -> _ _]). }
    destruct (read_name_in type Ht) as [-> ->]. rewrite E2. destruct counts as [|n counts].
    + destruct (extract_none _ H2) as (i3 & -> & _). by rewrite Er.
    + destruct (extract_word _ _ _ H2) as (i3 & -> & _). by rewrite Er.
  - pose proof (AddWriteRequest_spelled r op ws Hw Eo) as Er. destruct ws as [|op_name [|reg_str values]]; [done..|].
    destruct (extract_word _ _ _ (make_at _ _ Hs)) as (i1 & -> & H1). destruct (extract_word _ _ _ H1) as (i2 & E2 & H2).
    assert (exists type, 0 <= type <= 3 /\ op_name = write_name type) as (type & Ht & ->).
    { destruct op as [| |start vs|reg v]; try done.
      - destruct Hw as (_ & type & vws & Hlen & _ & Hty & [= -> _ _]). exists type. split; [|done]. destruct Hty as [|v vs <- _]; [cbn in Hlen; lia|apply type_range].
      - destruct Hw as (_ & w & _ & [= -> _ _]). exists (index v). split; [apply type_range|done]. }
    rewrite (write_name_in type Ht), E2. rewrite (words_spec values _ i2 H2) by (cbn in Hl; lia). by rewrite bind_done, Er.
Qed.

Lemma AddOperators_spelled ops texts : Forall2 op_spelled ops texts -> forall r,
  AddOperators r texts = (r ← run_ops r ops; Done (r, [])).
Proof.
  induction 1 as [|op text ops texts Ho _ IH]; intros r; cbn [AddOperators run_ops]; [done|].
  rewrite (AddOperator_spelled r op text Ho), !bind_assoc. destruct (run_op r op) as [r'|f]; [|done]. rewrite !bind_done.
  rewrite IH, bind_assoc. by destruct (run_ops r' ops).
Qed.

Lemma device_first b i tail : blanks b -> ends_word tail -> tail <> [] -> in_u 64 (zlen (b ++ decimal i ++ tail)) ->
  exists istr, Istringstream.extract (Istringstream.make (b ++ decimal i ++ tail)) = (decimal i, istr) /\
    substr (b ++ decimal i ++ tail) (Istringstream.tellg istr) = Done tail.
Proof.
  intros Hb Ht Hne Hz. unfold Istringstream.make. rewrite extract_after by (done || apply decimal_word). eexists. split; [done|].
  destruct tail as [|c tail]; [done|]. unfold Istringstream.tellg, substr. cbn [Istringstream.eof Istringstream.fail Istringstream.text Istringstream.rest orb].
  rewrite app_assoc in *. set (first := b ++ decimal i) in *. rewrite zlen_app in *.
  pose proof (zlen_nonneg first). pose proof (zlen_nonneg (c :: tail)). unfold in_u in Hz.
  replace (zlen first + zlen (c :: tail) - zlen (c :: tail)) with (zlen first) by lia.
  rewrite uwrap_id by (unfold in_u; lia). rewrite (proj2 (Z.ltb_ge _ _)) by lia. by rewrite zdrop_app_len.
Qed.

Lemma decimal_id i : in_u 8 i -> decimal i <> [] /\ (forall c l, decimal i = c :: l -> char_code c <> 58) /\ stoi (decimal i) = Done i /\ u8 i = i.
Proof.
  intros Hi. split; [apply decimal_some|]. split.
  - intros c l E. pose proof (decimal_chars i) as Hc. rewrite E in Hc. apply Forall_cons_1 in Hc as [Hc _]. lia.
  - split; [apply stoi_decimal; unfold in_u, in_s in *; lia|by apply uwrap_id].
Qed.

(** A command is parsed into the requests that it spells. *)
Lemma AddDevices_spelled asks texts : Forall2 device_spelled asks texts -> forall requests,
  AddDevices texts requests = (rs ← build asks; Done (requests ++ rs, [], None)).
Proof.
  induction 1 as [|[i ops] text asks texts Hd _ IH]; intros requests; cbn [AddDevices build].
  - by rewrite bind_done, app_nil_r.
  - destruct Hd as (b & opts & Hi & Hz & Hb & -> & He & Hne & Hf & Ho & Hn). cbn [fst snd] in *.
    destruct (device_first b i _ Hb He Hne Hz) as (istr & -> & Esub). destruct (decimal_id i Hi) as (Hsome & Hcolon & Es & Eu).
    destruct (decimal i) as [|c l] eqn:Ei; [done|]. rewrite (proj2 (Z.eqb_neq _ _) (Hcolon c l eq_refl)). rewrite <- Ei in *.
    rewrite Esub, bind_done, Es, bind_done, Eu. change 44 with (char_code comma). rewrite Split_joined by done.
    rewrite (AddOperators_spelled ops opts Ho), !bind_assoc. destruct (run_ops RegisterRequest.make ops) as [r|f]; [|done].
    rewrite !bind_done. cbn beta iota. rewrite IH, !bind_assoc. destruct (build asks) as [rs|f]; [|done].
    rewrite !bind_done. cbn. by rewrite <- app_assoc.
Qed.

Lemma command_parsed asks text s : command_spelled asks text ->
  RunRegisterCommand text s = (rs ← build asks; Done (with_requests rs s, [Transmit rs])).
Proof.
  intros (texts & -> & Hne & Hf & Hd). unfold RunRegisterCommand. change 124 with (char_code bar). rewrite Split_joined by done.
  rewrite (AddDevices_spelled asks texts Hd), bind_assoc. by destruct (build asks).
Qed.

Lemma command_some asks text : command_spelled asks text -> text <> [].
Proof.
  intros (texts & -> & Hne & _ & Hd). destruct Hd as [|[i ops] p asks ps Hd _]; [done|]. cbn [joined app].
  destruct Hd as (b & opts & _ & _ & _ & -> & _). pose proof (decimal_some i). cbn [fst] in *. intros E.
  apply app_eq_nil in E as [E _]. apply app_eq_nil in E as [_ E]. by apply app_eq_nil in E as [E _].
Qed.

(** ** The command in front of a delimiter *)
Definition undelimited (l : list byte) : Prop := Forall (fun c => is_delimiter c = false) l.
Definition delimiters (l : list byte) : Prop := Forall (fun c => is_delimiter c = true) l.

Lemma GetCommand_spec text d rest : undelimited text -> is_delimiter d = true -> GetCommand (text ++ d :: rest) = Done (text, rest).
Proof. intros Ht Hd. induction Ht as [|c text Hc _ IH]; cbn; [by rewrite Hd|]. by rewrite Hc, IH. Qed.

Lemma has_delimiter text d rest : is_delimiter d = true -> existsb is_delimiter (text ++ d :: rest) = true.
Proof. intros Hd. rewrite existsb_app. cbn. by rewrite Hd, orb_true_r. Qed.

Lemma no_delimiter text : undelimited text -> existsb is_delimiter text = false.
Proof. induction 1 as [|c text Hc _ IH]; cbn; [done|]. by rewrite Hc. Qed.

Lemma with_streambuf_twice a b s : with_streambuf a (with_streambuf b s) = with_streambuf a s.
Proof. done. Qed.

(** The loop runs the first command that is not empty. *)
Lemma HandleLine_command ds : forall text d rest fuel s, delimiters ds -> undelimited text -> text <> [] -> is_delimiter d = true ->
  streambuf_ s = ds ++ text ++ d :: rest -> (length ds < fuel)%nat ->
  HandleLine_loop fuel s = RunRegisterCommand text (with_streambuf rest s).
Proof.
  induction ds as [|x ds IH]; intros text d rest fuel s Hds Ht Hne Hd E Hf; (destruct fuel as [|fuel]; [cbn in Hf; lia|]); cbn [HandleLine_loop]; rewrite E.
  - cbn [app]. rewrite has_delimiter by done. unfold ProcessRegisterCommand. rewrite E. cbn [app]. rewrite GetCommand_spec, bind_done by done. by destruct text.
  - apply Forall_cons_1 in Hds as [Hx Hds]. cbn [app existsb]. rewrite Hx. cbn [orb]. unfold ProcessRegisterCommand. rewrite E. cbn [app GetCommand]. rewrite Hx, bind_done.
    cbn beta iota. rewrite (IH text d rest fuel) by (done || (cbn in Hf; lia)). by rewrite with_streambuf_twice.
Qed.

(** Without one it takes the delimiters and reads on. *)
Lemma HandleLine_reads ds : forall text fuel s, delimiters ds -> undelimited text -> streambuf_ s = ds ++ text -> (length ds < fuel)%nat ->
  HandleLine_loop fuel s = Done (with_streambuf text s, [StartRead]).
Proof.
  induction ds as [|x ds IH]; intros text fuel s Hds Ht E Hf; (destruct fuel as [|fuel]; [cbn in Hf; lia|]); cbn [HandleLine_loop]; rewrite E.
  - cbn [app] in *. rewrite no_delimiter by done. rewrite <- E. by destruct s.
  - apply Forall_cons_1 in Hds as [Hx Hds]. cbn [app existsb]. rewrite Hx. cbn [orb]. unfold ProcessRegisterCommand. rewrite E. cbn [app GetCommand]. rewrite Hx, bind_done.
    cbn beta iota. rewrite (IH text fuel) by (done || (cbn in Hf; lia)). by rewrite with_streambuf_twice.
Qed.
End commands.

(** ** What is printed of a reply *)
Section reply.
Context {X : ToolExternals}.

(** What a device said, in order. *)
Definition said_by (i : Z) (reply : list IdRegisterValue) : list (Z * ReadResult) :=
  map (fun x => (snd (fst x), snd x)) (List.filter (fun x => fst (fst x) =? i) reply).

Lemma said_by_snoc i reply j reg v :
  said_by i (reply ++ [(j, reg, v)]) = said_by i reply ++ (if j =? i then [(reg, v)] else []).
Proof. unfold said_by. rewrite List.filter_app, map_app. cbn. by destruct (j =? i). Qed.

(** Devices in the order of their identifiers, each once. *)
Definition ordered_ids (ids : list Z) : Prop := StronglySorted Z.lt ids.

Definition heard_of (ids : list Z) (reply : list IdRegisterValue) : Prop := forall i, i ∈ ids <-> said_by i reply <> [].

Fixpoint insert_id (j : Z) (ids : list Z) : list Z :=
  match ids with
  | [] => [j]
  | i :: rest => if j <? i then j :: ids else if j =? i then ids else i :: insert_id j rest
  end.

Lemma insert_id_in j ids k : k ∈ insert_id j ids <-> k = j \/ k ∈ ids.
Proof.
  induction ids as [|i ids IH]; cbn; [set_solver|]. destruct (j <? i); [set_solver|].
  destruct (Z.eqb_spec j i); set_solver.
Qed.

Lemma insert_id_ordered j ids : ordered_ids ids -> ordered_ids (insert_id j ids).
Proof.
  unfold ordered_ids. induction 1 as [|i ids Hs IH Hlt]; cbn; [by repeat constructor|].
  destruct (Z.ltb_spec j i) as [Hj|Hj].
  - constructor; [by constructor|]. constructor; [done|]. eapply list.Forall_impl; [exact Hlt|]. cbn. lia.
  - destruct (Z.eqb_spec j i) as [->|Hn]; [by constructor|]. constructor; [done|].
    apply list.Forall_forall. intros k [->|Hk]%insert_id_in; [lia|]. by eapply list.Forall_forall in Hlt.
Qed.

Lemma push_group_ids f j value ids : ordered_ids ids -> (j ∉ ids -> f j = []) ->
  push_group j value (map (fun i => (i, f i)) ids) =
    map (fun i => (i, f i ++ (if j =? i then [value] else []))) (insert_id j ids).
Proof.
  intros Hs. assert (Hother : forall l, j ∉ l -> map (fun i => (i, f i)) l = map (fun i => (i, f i ++ (if j =? i then [value] else []))) l).
  { intros l Hl. apply map_ext_in. intros i Hi%list_elem_of_In. rewrite (proj2 (Z.eqb_neq j i)) by set_solver. by rewrite app_nil_r. }
  induction Hs as [|i ids Hs IH Hlt]; intros Hj; cbn [map push_group insert_id].
  - rewrite Z.eqb_refl, Hj by set_solver. done.
  - destruct (Z.ltb_spec j i) as [Hl|Hl].
    + assert (j ∉ i :: ids) as Hout.
      { apply not_elem_of_cons. split; [lia|]. intros Hin. eapply list.Forall_forall in Hlt; [|exact Hin]. lia. }
      cbn [map]. rewrite Z.eqb_refl, Hj by done. rewrite (proj2 (Z.eqb_neq j i)), app_nil_r by lia. do 2 f_equal. apply Hother. set_solver.
    + destruct (Z.eqb_spec j i) as [->|Hn].
      * cbn [map]. rewrite Z.eqb_refl. f_equal. apply Hother. intros Hin. eapply list.Forall_forall in Hlt; [|exact Hin]. lia.
      * cbn [map]. rewrite (proj2 (Z.eqb_neq j i)), app_nil_r by done. f_equal. apply IH. set_solver.
Qed.

Lemma group_reply_groups reply : exists ids, ordered_ids ids /\ heard_of ids reply /\
  group_reply reply = map (fun i => (i, said_by i reply)) ids.
Proof.
  unfold group_reply. induction reply as [|[[j reg] v] reply IH] using rev_ind.
  - exists []. split; [constructor|]. split; [|done]. intros i. unfold said_by. cbn. set_solver.
  - destruct IH as (ids & Hs & Hh & E). exists (insert_id j ids). split; [by apply insert_id_ordered|]. split.
    + intros i. rewrite insert_id_in, (Hh i), said_by_snoc. destruct (Z.eqb_spec j i) as [->|Hn]; split; intros Hi; try done.
      * by destruct (said_by i reply).
      * by left.
      * destruct Hi as [->|Hi]; [done|]. by rewrite app_nil_r.
      * right. by rewrite app_nil_r in Hi.
    + rewrite fold_left_app, E. cbn [fold_left]. rewrite push_group_ids; [|done|].
      * apply map_ext. intros i. by rewrite said_by_snoc.
      * intros Hj. destruct (said_by j reply) eqn:E'; [done|]. exfalso. apply Hj, Hh. by rewrite E'.
Qed.

(** The line: every device that was heard of, with every register and what was
    said of it. *)
Definition value_text (x : Z * ReadResult) : list byte := decimal (swrap 32 (fst x)) ++ text_of ":" ++ FormatValue (snd x).

Definition device_text (reply : list IdRegisterValue) (i : Z) : list byte :=
  decimal i ++ text_of ": {" ++ joined (text_of ", ") true (map value_text (said_by i reply)) ++ text_of "}".

Lemma format_reply_text reply : exists ids, ordered_ids ids /\ heard_of ids reply /\
  format_reply reply = joined (text_of " | ") true (map (device_text reply) ids) ++ [byte.of_Z 10].
Proof.
  destruct (group_reply_groups reply) as (ids & Hs & Hh & E). exists ids. split; [done|]. split; [done|].
  unfold format_reply. rewrite E, map_map. do 2 f_equal. apply map_ext_in. intros i Hi%list_elem_of_In. apply Hh in Hi.
  unfold format_group, device_text. destruct (said_by i reply) as [|x l] eqn:El; [done|]. rewrite <- El.
  change (text_of ": {") with (text_of ": " ++ text_of "{"). rewrite <- !app_assoc. do 4 f_equal. f_equal. apply map_ext. by intros [].
Qed.
End reply.
