(* ===== verification/MultiplexToolProperties.v ===== *)
(** * What the tool guarantees

    A command is carried out by the devices it names and their answers are
    printed; commands run one after the other, however the input comes; commands
    that end the program. *)
From stdpp Require Import gmap sets strings.
From S2P Require Import Prelude Varuint Streams MultiplexStream Register Tokenizer CString MicroServer MicroServerSafety RegisterServer FrameStream ExclusiveCommand StreamAsioClient ClientTheory ClientRegisters MultiplexTool.
#[local] Open Scope Z_scope.
Import Format CommandRunner.

(** ** From a line to the devices and back *)
Section end_to_end.
Context {X : ToolExternals}.
Import StreamAsioClient.

Lemma converse_built {T C} (server : Server T) (client : Client C) max_size buf source_id noise asks : forall devs es devs',
  converse server client max_size buf source_id noise devs asks = Done (es, devs') -> build asks = Done (map ask es).
Proof.
  induction asks as [|[i ops] asks IH]; intros devs es devs' E; cbn [converse build] in *; [by injection E as <- _|].
  apply bind_done_inv in E as (r & -> & E). rewrite bind_done.
  apply bind_done_inv in E as ([d w] & _ & E). cbn beta iota zeta in E. apply bind_done_inv in E as ([es' devs''] & E' & E).
  cbn beta iota zeta in E. injection E as <- <-. by rewrite (IH _ _ _ E'), bind_done.
Qed.

(** C4: a line is answered.  The tool takes the first command of its input, parses it
    into the requests it spells and has the client transmit them; every device that
    is named serves what is asked of it, whatever others send in between; the line
    that is printed then has each device that was heard of, by its identifier, with
    what its server answered, in order: every register that was asked for and its
    value if no application refuses a read or a write, and of a read that fails the
    register that failed alone; and the tool goes on with the rest of its input. *)
Theorem line_is_answered {T C} (server : Server T) (client : Client C) (max_size stream_max source_id : Z) (buf : list byte)
    (noise : Z -> list Frame.Frame) (devs : Z -> @MicroServer.State T C) (asks : list (Z * list request_op)) (reply h : nat) (s : State)
    (t : CommandRunner.State) (ds text rest : list byte) (d : byte) :
  typed_server server -> Forall (ask_ok buf) asks -> (forall i f, f ∈ noise i -> Frame.source_id f <> i) ->
  existsb (fun a => existsb op_reads (snd a)) asks = true -> idle s ->
  command_spelled asks text -> delimiters ds -> undelimited text -> is_delimiter d = true ->
  streambuf_ t = ds ++ text ++ d :: rest ->
  let values := fst (served server devs asks) in
  (exists es t' s' out ids,
    CommandRunner.HandleLine 0 t = Done (t', [Transmit (map ask es)]) /\ streambuf_ t' = rest /\
    converse server client max_size buf source_id noise devs asks = Done (es, snd (served server devs asks)) /\
    run source_id stream_max (ETransmit (map ask es) (Some reply) h :: script es) s = Done (tt, s', out ++ [Called h 0]) /\
    replies s' !! reply = Some values /\ idle s' /\
    ordered_ids ids /\ heard_of ids values /\
    CommandRunner.HandleRequest 0 values t' =
      ('(t'', o) ← CommandRunner.HandleLine 0 t';
       Done (t'', Print (joined (text_of " | ") true (map (device_text values) ids) ++ [byte.of_Z 10]) :: o))) /\
  (unrefused server devs asks = true -> each_answered asks values).
Proof.
  intros Hs Hok Hn Hr Hi Hc Hds Ht Hd E values. split; [|apply served_complete; by eapply asks_typed].
  destruct (registers_served server client max_size stream_max source_id buf noise devs asks reply h s Hs Hok Hn Hr Hi)
    as (es & devs' & s' & out & Ec & Er & Ev & -> & -> & Hi').
  pose proof (converse_built _ _ _ _ _ _ _ _ _ _ Ec) as Eb. destruct (format_reply_text values) as (ids & Ho & Hh & Ef).
  exists es, (with_requests (map ask es) (with_streambuf rest t)), s', (concat (map (exchange_output source_id) es)), ids.
  split_and!; try done.
  - unfold CommandRunner.HandleLine. cbn [mj_assert Z.eqb]. rewrite bind_done.
    rewrite (HandleLine_command ds text d rest) by (done || (by eapply command_some) || (rewrite E, !length_app; cbn; lia)).
    rewrite (command_parsed asks text _ Hc), Eb, bind_done. done.
  - unfold CommandRunner.HandleRequest. change (0 =? kAborted) with false. cbv iota. cbn [mj_assert Z.eqb]. by rewrite bind_done, Ef.
Qed.
End end_to_end.

(** ** Commands one after the other *)
Section commands.
Context {X : ToolExternals}.

(** The commands in a text that are complete and not empty; [acc] is in front. *)
Fixpoint commands_from (acc l : list byte) : list (list byte) :=
  match l with
  | [] => []
  | c :: l =>
      if is_delimiter c then (match acc with [] => [] | _ => [acc] end) ++ commands_from [] l
      else commands_from (acc ++ [c]) l
  end.

Definition commands (l : list byte) : list (list byte) := commands_from [] l.

Definition is_operation (o : output) : bool := match o with Transmit _ | WaitDelay _ => true | _ => false end.

(** What a command starts: a request or a delay. *)
Definition starts_operation (c : list byte) (o : output) : Prop :=
  exists s s' out, RunRegisterCommand c s = Done (s', out ++ [o]).

(** The tool, what was typed and what it did: it is called by what it started last. *)
Inductive runs : list byte -> State -> list output -> Prop :=
  | runs_start s : streambuf_ s = [] -> runs [] s [StartRead]
  | runs_typed typed s out l s' out' : runs typed s (out ++ [StartRead]) ->
      HandleLine 0 (with_streambuf (streambuf_ s ++ l) s) = Done (s', out') ->
      runs (typed ++ l) s' (out ++ [StartRead] ++ out')
  | runs_replied typed s out rs ec reply s' out' : runs typed s (out ++ [Transmit rs]) ->
      HandleRequest ec reply s = Done (s', out') -> runs typed s' (out ++ [Transmit rs] ++ out')
  | runs_waited typed s out ms s' out' : runs typed s (out ++ [WaitDelay ms]) ->
      HandleDelayTimer 0 s = Done (s', out') -> runs typed s' (out ++ [WaitDelay ms] ++ out').

Lemma commands_undelimited t : forall acc, undelimited t -> commands_from acc t = [].
Proof. induction t as [|c t IH]; intros acc Ht; cbn; [done|]. apply Forall_cons_1 in Ht as [-> Ht]. by apply IH. Qed.

Lemma commands_delimiters ds l : delimiters ds -> commands (ds ++ l) = commands l.
Proof. unfold commands. induction 1 as [|c ds Hc _ IH]; cbn; [done|]. by rewrite Hc. Qed.

Lemma commands_command t d l : undelimited t -> t <> [] -> is_delimiter d = true -> commands (t ++ d :: l) = t :: commands l.
Proof.
  intros Ht Hne Hd. unfold commands. assert (E : forall acc, acc ++ t <> [] -> commands_from acc (t ++ d :: l) = (acc ++ t) :: commands_from [] l).
  { clear Hne. induction Ht as [|c t Hc _ IH]; intros acc Ha; cbn.
    - rewrite Hd, app_nil_r in *. by destruct acc.
    - rewrite Hc, IH by (by destruct acc). by rewrite <- app_assoc. }
  by apply E.
Qed.

Lemma first_command l : exists ds t, delimiters ds /\ undelimited t /\
  (l = ds ++ t \/ exists d rest, t <> [] /\ is_delimiter d = true /\ l = ds ++ t ++ d :: rest).
Proof.
  induction l as [|c l IH].
  - exists [], []. split_and!; [constructor|constructor|by left].
  - destruct IH as (ds & t & Hds & Ht & IH). destruct (is_delimiter c) eqn:Hc.
    + exists (c :: ds), t. split; [by constructor|]. split; [done|]. destruct IH as [->|(d & rest & Hne & Hd & ->)]; [by left|right]. by exists d, rest.
    + destruct ds as [|x ds]; cbn [app] in IH.
      * exists [], (c :: t). split; [constructor|]. split; [by constructor|]. destruct IH as [->|(d & rest & Hne & Hd & ->)]; [by left|right]. by exists d, rest.
      * apply Forall_cons_1 in Hds as [Hx Hds]. exists [], [c]. split; [constructor|]. split; [by repeat constructor|]. right.
        destruct IH as [->|(d & rest & Hne & Hd & ->)]; by eexists x, _.
Qed.

(** What is behind the commands that were run. *)
Definition behind (typed : list byte) (s : State) (done : list (list byte)) : Prop :=
  exists pre, typed = pre ++ streambuf_ s /\ forall l, commands (pre ++ l) = done ++ commands l.

Lemma RunRegisterCommand_operation c s s' out : RunRegisterCommand c s = Done (s', out) ->
  streambuf_ s' = streambuf_ s /\ exists errors o, out = errors ++ [o] /\ is_operation o = true /\ List.filter is_operation errors = [].
Proof.
  unfold RunRegisterCommand. intros E. apply bind_done_inv in E as ([[rs out'] delay] & Ed & E). injection E as <- <-. split; [done|].
  exists out', (match delay with Some ms => WaitDelay ms | None => Transmit rs end). split; [done|]. split; [by destruct delay|].
  revert Ed. generalize (@nil StreamAsioClient.IdRequest). revert rs out' delay. induction (Split c 124) as [|command devices IH]; intros rs out' delay requests E; cbn [AddDevices] in E.
  - by injection E as <- <- <-.
  - destruct (Istringstream.extract _) as [[|x l] istr]; [done|]. destruct (char_code x =? 58).
    + apply bind_done_inv in E as (ms & _ & E). by injection E as <- <- <-.
    + apply bind_done_inv in E as (ops & _ & E). apply bind_done_inv in E as (id & _ & E).
      apply bind_done_inv in E as ([request out1] & E1 & E). cbn beta iota in E. apply bind_done_inv in E as ([[rs2 out2] delay2] & E2 & E). injection E as <- <- <-.
      rewrite List.filter_app, (IH _ _ _ _ E2), app_nil_r. clear E2 IH. revert E1. generalize RegisterRequest.make. revert request out1.
      induction (Split ops 44) as [|op operators IH]; intros request out1 r E; cbn [AddOperators] in E; [by injection E as <- <-|].
      apply bind_done_inv in E as ([r1 o1] & E1 & E). cbn beta iota in E. apply bind_done_inv in E as ([r2 o2] & E2 & E). injection E as <- <-.
      rewrite List.filter_app, (IH _ _ _ E2), app_nil_r. revert E1. unfold AddOperator. destruct (Istringstream.extract _) as [name str].
      repeat case_match; intros E; repeat (apply bind_done_inv in E as (? & _ & E)); by injection E as <- <-.
Qed.

(** What is started last: the next read, or the operation of a command. *)
Definition waits_for (out : list output) (o : output) : Prop := exists before, out = before ++ [o].

Lemma HandleLine_takes typed s done s' out : behind typed s done -> HandleLine 0 s = Done (s', out) ->
  exists new, behind typed s' (done ++ new) /\ Forall2 starts_operation new (List.filter is_operation out) /\
    (waits_for out StartRead /\ commands (streambuf_ s') = [] \/ exists o, waits_for out o /\ is_operation o = true).
Proof.
  intros (pre & Et & Hc) E. unfold HandleLine in E. cbn [mj_assert Z.eqb] in E. rewrite bind_done in E.
  destruct (first_command (streambuf_ s)) as (ds & t & Hds & Ht & [El|(d & rest & Hne & Hd & El)]).
  - rewrite (HandleLine_reads ds t) in E by (done || (rewrite El, length_app; lia)). injection E as <- <-.
    exists []. rewrite app_nil_r. split; [|split; [constructor|left; split; [by exists []|by apply commands_undelimited]]].
    exists (pre ++ ds). split; [by rewrite Et, El, app_assoc|]. intros l. by rewrite <- app_assoc, Hc, commands_delimiters.
  - rewrite (HandleLine_command ds t d rest) in E by (done || (rewrite El, length_app; lia)).
    destruct (RunRegisterCommand_operation _ _ _ _ E) as (Es & errors & o & -> & Ho & Hf). cbn [streambuf_ with_streambuf] in Es.
    exists [t]. split; [|split].
    + exists (pre ++ ds ++ t ++ [d]). split; [rewrite Et, El, Es, <- !app_assoc; done|].
      intros l. rewrite <- !app_assoc, Hc, commands_delimiters by done. cbn [app]. by rewrite commands_command.
    + rewrite List.filter_app, Hf. cbn. rewrite Ho. constructor; [|constructor]. by exists (with_streambuf rest s), s', errors.
    + right. exists o. split; [by exists errors|done].
Qed.

Lemma behind_typed typed s done l : behind typed s done -> behind (typed ++ l) (with_streambuf (streambuf_ s ++ l) s) done.
Proof. intros (pre & -> & Hc). exists pre. split; [by rewrite <- app_assoc|done]. Qed.

Lemma waits_for_last out o out' o' : waits_for out o -> out = out' ++ [o'] -> o = o'.
Proof. intros (before & ->) E. by apply app_inj_tail in E as [_ ->]. Qed.

Lemma waits_for_app out out' o : waits_for out' o -> waits_for (out ++ out') o.
Proof. intros (before & ->). exists (out ++ before). by rewrite app_assoc. Qed.

(** The state of a tool that runs. *)
Definition in_order (typed : list byte) (s : State) (out : list output) : Prop :=
  exists done, behind typed s done /\ Forall2 starts_operation done (List.filter is_operation out) /\
    (waits_for out StartRead /\ commands (streambuf_ s) = [] \/ exists o, waits_for out o /\ is_operation o = true).

(** A call of [HandleLine] goes on from such a state. *)
Lemma in_order_line typed s0 s done out before s' out' :
  behind typed s0 done -> Forall2 starts_operation done (List.filter is_operation out) ->
  List.filter is_operation before = [] -> s = s0 -> HandleLine 0 s = Done (s', out') ->
  in_order typed s' (out ++ before ++ out').
Proof.
  intros Hb Hf Hn -> E. destruct (HandleLine_takes _ _ _ _ _ Hb E) as (new & Hb' & Hf' & Hw). exists (done ++ new).
  split; [done|]. split; [rewrite !List.filter_app, Hn; by apply Forall2_app|].
  destruct Hw as [[Hw Hc]|(o & Hw & Ho)]; [left|right; exists o]; (split; [by repeat apply waits_for_app|done]).
Qed.

Lemma runs_in_order typed s out : runs typed s out -> in_order typed s out.
Proof.
  induction 1 as [s Hs|typed s out l s' out' _ IH E|typed s out rs ec reply s' out' _ IH E|typed s out ms s' out' _ IH E].
  - exists []. split; [exists []; split; [by rewrite Hs|done]|]. split; [constructor|]. left. split; [by exists []|by rewrite Hs].
  - destruct IH as (done & Hb & Hf & _). rewrite app_assoc. eapply (in_order_line _ _ _ done _ []); [by apply behind_typed|exact Hf|done|done|exact E].
  - destruct IH as (done & Hb & Hf & _). rewrite app_assoc. unfold HandleRequest in E. destruct (ec =? kAborted).
    + apply bind_done_inv in E as ([s1 o1] & E1 & E). injection E as <- <-.
      eapply (in_order_line _ _ _ done _ [Print _]); [exact Hb|exact Hf|done|done|exact E1].
    + apply bind_done_inv in E as (_ & _ & E). apply bind_done_inv in E as ([s1 o1] & E1 & E). injection E as <- <-.
      eapply (in_order_line _ _ _ done _ [Print _]); [exact Hb|exact Hf|done|done|exact E1].
  - destruct IH as (done & Hb & Hf & _). rewrite app_assoc. change (HandleDelayTimer 0 s) with (HandleLine 0 s) in E.
    eapply (in_order_line _ _ _ done _ []); [exact Hb|exact Hf|done|done|exact E].
Qed.

(** C20: commands run one after the other.  However the input comes in pieces and
    whatever is answered, the operations that were started are those of the
    commands that were typed, each once and in the order they were typed, however
    lines ends and semicolons separate them; the tool waits for its console or for
    one operation, and when it waits for its console every complete command was
    run. *)
Theorem commands_run_in_order typed s out : runs typed s out ->
  exists done, commands typed = done ++ commands (streambuf_ s) /\
    Forall2 starts_operation done (List.filter is_operation out) /\
    (waits_for out StartRead /\ commands typed = done \/ exists o, waits_for out o /\ is_operation o = true).
Proof.
  intros H. destruct (runs_in_order _ _ _ H) as (done & (pre & -> & Hc) & Hf & Hw). exists done. rewrite (Hc (streambuf_ s)).
  split; [done|]. split; [done|]. destruct Hw as [[Hw ->]|Hw]; [left; by rewrite app_nil_r|by right].
Qed.

(** Commands that end the program.  A line of blanks, and a device without an
    operation and without a blank behind it, make the tool throw: [at] on an empty
    string, and [substr] at the position -1 that [tellg] gives at the end of the
    text. *)
Theorem bare_command_throws (s : State) (b id rest ds : list byte) (d : byte) :
  delimiters ds -> blanks b -> undelimited b -> is_delimiter d = true -> Forall (fun c => 48 <= char_code c <= 57) id ->
  b ++ id <> [] -> zlen (b ++ id) < 2 ^ 64 - 1 -> streambuf_ s = ds ++ (b ++ id) ++ d :: rest ->
  HandleLine 0 s = Faulted (Exception kOutOfRange).
Proof.
  intros Hds Hb Hu Hd Hid Hne Hz E.
  assert (undelimited (b ++ id) /\ free_of 124 (b ++ id)) as [Htu Hfr].
  { split; apply list.Forall_app; (split; [|eapply list.Forall_impl; [exact Hid|]; cbn; unfold is_delimiter; intros; lia]); [done|].
    eapply list.Forall_impl; [exact Hb|]. cbn. unfold isspace. intros. lia. }
  unfold HandleLine. cbn [mj_assert Z.eqb]. rewrite bind_done.
  rewrite (HandleLine_command ds (b ++ id) d rest) by (done || (rewrite E, length_app; lia)).
  unfold RunRegisterCommand. rewrite Split_free by done. cbn [AddDevices]. destruct id as [|c id].
  - rewrite app_nil_r. destruct (extract_none (Istringstream.make b)) as (i & -> & _); [by apply make_at, spaced_nil|done].
  - assert (is_word (c :: id)) as Hw.
    { split; [done|]. eapply list.Forall_impl; [exact Hid|]. intros x Hx. cbn in Hx. apply digit_no_space. lia. }
    unfold Istringstream.make. pose proof (extract_after b (c :: id) [] (b ++ c :: id) Hb Hw I) as Ee. rewrite app_nil_r in Ee. rewrite Ee.
    apply Forall_cons_1 in Hid as [Hc _]. rewrite (proj2 (Z.eqb_neq (char_code c) 58)) by lia.
    unfold Istringstream.tellg, substr. cbn [Istringstream.eof orb]. change (u64 (-1)) with (2 ^ 64 - 1).
    by rewrite (proj2 (Z.ltb_lt _ _) Hz).
Qed.
End commands.

(** ** Concrete commands *)

(** The words of a text. *)
Fixpoint words_of (l : list byte) : list (list byte) :=
  match l with
  | [] => []
  | c :: l' =>
      if isspace c then words_of l'
      else match l' with
           | d :: _ => if isspace d then [c] :: words_of l' else match words_of l' with w :: ws => (c :: w) :: ws | [] => [[c]] end
           | [] => [[c]]
           end
  end.

Lemma spaced_blank c ws l : isspace c = true -> spaced ws l -> spaced ws (c :: l).
Proof.
  intros Hc [b Hb|b w ws' rest Hb Hw Hr Hs]; [by repeat constructor|].
  change (c :: b ++ w ++ rest) with ((c :: b) ++ w ++ rest). by constructor; [constructor| | |].
Qed.

Lemma words_spaced l : spaced (words_of l) l.
Proof.
  induction l as [|c l IH]; cbn [words_of]; [by repeat constructor|]. destruct (isspace c) eqn:Hc; [by apply spaced_blank|].
  assert (Hone : forall rest, ends_word rest -> spaced (words_of rest) rest -> spaced ([c] :: words_of rest) (c :: rest)).
  { intros rest Hr Hs. change (c :: rest) with ([] ++ [c] ++ rest). by constructor; [constructor|split; [|repeat constructor]| |]. }
  destruct l as [|d l]; [by apply (Hone [])|]. destruct (isspace d) eqn:Hd; [by apply Hone|].
  revert IH. generalize (words_of (d :: l)). intros ws' IH.
  inversion IH as [b Hb E1 E2|b w ws rest Hb [Hn Hw] Hr Hs E1 E2].
  - subst b. apply Forall_cons_1 in Hb as [Hb _]. congruence.
  - destruct b as [|x b]; [|injection E2 as E2 _; apply Forall_cons_1 in Hb as [Hb _]; congruence].
    subst ws'. change (c :: [] ++ w ++ rest) with ([] ++ (c :: w) ++ rest).
    by constructor; [constructor|split; [|constructor]| |].
Qed.

#[local] Instance bits_externals : ToolExternals := { fmt_float := decimal; stod_float s := fst <$> stoull 10 s }.

Definition demo_command : list byte := text_of "1 wi 1 7, ws 1 3 4,ri 1 , ri  1 4| 2 wi 1 9|2  ri 1".

Ltac spell_op := eexists; split; [|apply words_spaced]; cbn.

Lemma demo_spelled : command_spelled demo_asks demo_command.
Proof.
  exists (Split demo_command 124). split; [vm_compute; reflexivity|]. split; [done|]. split; [by repeat constructor|].
  change (Split demo_command 124) with [text_of "1 wi 1 7, ws 1 3 4,ri 1 , ri  1 4"; text_of " 2 wi 1 9"; text_of "2  ri 1"]. constructor; [|constructor; [|constructor; [|constructor]]].
  - exists [], [text_of " wi 1 7"; text_of " ws 1 3 4"; text_of "ri 1 "; text_of " ri  1 4"]. split_and!; try done; try (by repeat constructor).
    constructor; [|constructor; [|constructor; [|constructor; [|constructor]]]]; spell_op.
    + split; [lia|]. exists (text_of "7"). split; [|done]. split; [unfold in_s; lia|done].
    + split; [lia|]. exists 1, [text_of "3"; text_of "4"]. split; [lia|]. split; [|by repeat constructor]. by repeat constructor; unfold in_s; lia || done.
    + split; [lia|]. by split; [lia|].
    + split; [lia|]. split; [lia|]. by split; [lia|].
  - exists [byte.of_Z 32], [text_of " wi 1 9"]. split_and!; try done; try (by repeat constructor). constructor; [|constructor]. spell_op.
    split; [lia|]. exists (text_of "9"). split; [|done]. split; [unfold in_s; lia|done].
  - exists [], [text_of "  ri 1"]. split_and!; try done; try (by repeat constructor). constructor; [|constructor]. spell_op.
    split; [lia|]. by split; [lia|].
Qed.

Definition demo_tool : CommandRunner.State :=
  make {| targets := []; console := false; register_tool := true; poll_rate_ms := 10 |}.

Definition newline_char : byte := byte.of_Z 10.

Definition demo_input : list byte := text_of ";;" ++ demo_command ++ newline_char :: text_of "3 rb".

Definition demo_values : list StreamAsioClient.IdRegisterValue := fst (served demo_server demo_devices demo_asks).

Example demo_printed : format_reply demo_values =
  text_of "1: {1:err/2, 2:err/1, 1:7i, 2:err/1} | 2: {1:9i}" ++ [newline_char].
Proof. vm_compute. reflexivity. Qed.

Lemma line_is_answered_witness :
  (exists es t' s' out ids,
    HandleLine 0 (with_streambuf demo_input demo_tool) = Done (t', [Transmit (map ask es)]) /\ streambuf_ t' = text_of "3 rb" /\
    converse demo_server demo_client 64 demo_buffer 0 demo_noise demo_devices demo_asks =
      Done (es, snd (served demo_server demo_devices demo_asks)) /\
    StreamAsioClient.run 0 64 (StreamAsioClient.ETransmit (map ask es) (Some 0%nat) 100 :: script es) StreamAsioClient.make =
      Done (tt, s', out ++ [StreamAsioClient.Called 100 0]) /\
    StreamAsioClient.replies s' !! 0%nat = Some demo_values /\ idle s' /\
    ordered_ids ids /\ heard_of ids demo_values /\
    HandleRequest 0 demo_values t' =
      ('(t'', o) ← HandleLine 0 t';
       Done (t'', Print (joined (text_of " | ") true (map (device_text demo_values) ids) ++ [byte.of_Z 10]) :: o))) /\
  (unrefused demo_server demo_devices demo_asks = true -> each_answered demo_asks demo_values).
Proof.
  refine (line_is_answered demo_server demo_client 64 64 0 demo_buffer demo_noise demo_devices demo_asks 0 100 StreamAsioClient.make
    (with_streambuf demo_input demo_tool) (text_of ";;") demo_command (text_of "3 rb") newline_char demo_typed demo_asks_ok _ eq_refl _ demo_spelled _ _ eq_refl eq_refl).
  - intros i f Hf%list_elem_of_singleton. subst f. cbn. lia.
  - done.
  - by repeat constructor.
  - by repeat constructor.
Defined.

(** A read, whose answer is awaited when the next command and a delay are typed. *)
Definition demo_run : list output :=
  let first := match HandleLine 0 (with_streambuf (text_of "1 rb 2;:50;") demo_tool) with Done (_, out) => out | _ => [] end in
  [StartRead] ++ first.

Definition demo_after : CommandRunner.State :=
  match HandleLine 0 (with_streambuf (text_of "1 rb 2;:50;") demo_tool) with Done (t, _) => t | _ => demo_tool end.

Lemma commands_run_in_order_witness :
  exists done, commands (text_of "1 rb 2;:50;") = done ++ [text_of ":50"] /\
    Forall2 starts_operation done (List.filter is_operation demo_run) /\
    (waits_for demo_run StartRead /\ commands (text_of "1 rb 2;:50;") = done \/ exists o, waits_for demo_run o /\ is_operation o = true).
Proof.
  refine (commands_run_in_order (text_of "1 rb 2;:50;") demo_after demo_run _).
  refine (runs_typed [] demo_tool [] (text_of "1 rb 2;:50;") demo_after _ (runs_start demo_tool eq_refl) _). vm_compute. reflexivity.
Defined.

Lemma bare_command_throws_witness :
  HandleLine 0 (with_streambuf (text_of ";  12;1 rb 2;") demo_tool) = Faulted (Exception kOutOfRange).
Proof.
  refine (bare_command_throws (with_streambuf (text_of ";  12;1 rb 2;") demo_tool) (text_of "  ") (text_of "12") (text_of "1 rb 2;") (text_of ";") (byte.of_Z 59)
    _ _ _ eq_refl _ _ _ eq_refl); try (by repeat constructor); done.
Defined.
