(* ===== verification/EmitJson.v ===== *)
(** * telemetry/emit_json.cc: a record as JSON, by its schema

    [EmitJson] prints a record that is read through the element tree of its schema;
    [json_text] is the text of an object, and the first prints the second; [json] is
    the grammar of JSON, which that text is in when the object is [jsonable].  The
    printing of floating-point numbers and times by an ostream and boost's base64
    are parameters. *)
From Stdlib Require Import Sorted.
From stdpp Require Import strings.
From S2P Require Import Prelude Varuint Streams TimeConversions TelemetryFormat Archive ArchiveTheory Schema SchemaTheory Tokenizer CString Json5 Json5Theory.
#[local] Open Scope Z_scope.
Import BinarySchemaParser TelemetryReader.

(** What the standard library and boost print: a [double], which a [float] is
    converted to, by the bits of the one that was read; a time; and base64. *)
Class EmitExternals `{BoostTime} := {
  show_float : nat -> Z -> list byte;
  show_time : ptime -> list byte;
  show_duration : duration -> list byte;
  base64_encode : list byte -> list byte;
}.

Module EmitJson.
Section EmitJson.
Context `{EmitExternals} {S : Type} `{ReadStream S}.

(** [ReadFloatLike], with the size of the type that was read. *)
Definition ReadFloatLike (e : Element) (s : S) : outcome (nat * Z * S) :=
  match type_of_code (type_of e) with
  | Some kFloat32 => '(bits, s) ← value_of (ReadScalar 4 s); Done (4%nat, bits, s)
  | Some kFloat64 => '(bits, s) ← value_of (ReadScalar 8 s); Done (8%nat, bits, s)
  | _ => Faulted Assertion
  end.

(** The loop of [WriteArray]: [emit] prints one of its elements. *)
Definition WriteArray (emit : S -> outcome (list byte * S)) (array_size : Z) (data : S) : outcome (list byte * S) :=
  '(_, out, data) ← times (fun '(i, out, data) =>
      '(text, data) ← emit data;
      Done (i + 1, out ++ text ++ (if i + 1 =? array_size then [] else text_of ", "), data))
    array_size (0, [], data);
  Done (text_of "[" ++ out ++ text_of "]", data).

(** The loop over the fields of an object. *)
Fixpoint WriteFields (emit : Field -> S -> outcome (list byte * S)) (fields : list Field) (data : S) : outcome (list byte * S) :=
  match fields with
  | [] => Done ([], data)
  | (mkField _ name _ _ _ as field) :: rest =>
      '(text, data) ← emit field data;
      '(more, data) ← WriteFields emit rest data;
      Done (quoted name ++ text_of " : " ++ text ++ (if rest is [] then [] else text_of ", ") ++ more, data)
  end.

(** [enum_items]: what is kept under a key. *)
Definition enum_item (key : Z) (items : list (Z * list byte)) : option (list byte) :=
  snd <$> List.find (fun item => fst item =? key) items.

Fixpoint EmitJson (schema : Element) (data : S) {struct schema} : outcome (list byte * S) :=
  match schema with
  | mkElement type _ _ _ _ children array_size enum_items fields _ =>
      match type_of_code type with
      | Some kNull => Done (text_of "null", data)
      | Some kBoolean => '(b, data) ← ReadBoolean schema data; Done (text_of (if b : bool then "true" else "false"), data)
      | Some kVarint | Some kFixedInt => '(z, data) ← ReadIntLike schema data; Done (decimal z, data)
      | Some kVaruint | Some kFixedUInt => '(z, data) ← ReadUIntLike schema data; Done (decimal z, data)
      | Some kFloat32 | Some kFloat64 => '(size, bits, data) ← ReadFloatLike schema data; Done (show_float size bits, data)
      | Some kBytes => '(raw_bytes, data) ← Element_ReadString schema data; Done (quoted (base64_encode raw_bytes), data)
      | Some kString => '(text, data) ← Element_ReadString schema data; Done (quoted (EscapeJsonString text), data)
      | Some kObject =>
          '(text, data) ← WriteFields (fun field data => match field with mkField _ _ _ e _ => EmitJson e data end) fields data;
          Done (text_of "{" ++ text ++ text_of "}", data)
      | Some kEnum =>
          '(enum_index, data) ← ReadUIntLike schema data;
          Done (quoted (match enum_item enum_index enum_items with Some name => name | None => decimal enum_index end), data)
      | Some kArray =>
          '(array_size, data) ← ReadArraySize schema data;
          WriteArray (fun data => match children with c :: _ => EmitJson c data | [] => Faulted (Exception kOutOfRange) end) array_size data
      | Some kFixedArray =>
          WriteArray (fun data => match children with c :: _ => EmitJson c data | [] => Faulted (Exception kOutOfRange) end) array_size data
      | Some kMap => Done ([], data)
      | Some kUnion =>
          '(index, data) ← ReadUnionIndex schema data;
          if zlen children <=? index then Faulted (Exception kOutOfRange)
          else at_index (fun c '(_, data) => EmitJson c data) children index ([], data)
      | Some kTimestamp =>
          '(us_since_epoch, data) ← ReadIntLike schema data;
          Done (quoted (show_time (ConvertEpochMicrosecondsToPtime us_since_epoch)), data)
      | Some kDuration =>
          '(us, data) ← ReadIntLike schema data;
          Done (quoted (show_duration (ConvertMicrosecondsToDuration us)), data)
      | Some kFinal => Faulted Assertion
      | None => Done ([], data)
      end
  end.
End EmitJson.
End EmitJson.

(** ** The JSON of an object *)
Section specification.
Context `{EmitExternals}.

Definition separated (l : list (list byte)) : list byte :=
  match l with [] => [] | x :: l => x ++ concat (map (fun y => text_of ", " ++ y) l) end.

(** The name of an enumerator: the first item that has its value. *)
Definition enumerator (items : list (Z * list byte)) (z : Z) : list byte :=
  match List.find (fun item => u64 (fst item) =? u64 z) items with Some item => snd item | None => decimal (u64 z) end.

Fixpoint json_text (t : ctype) (v : value) {struct t} : list byte :=
  match t, v with
  | TBool, VBool b => text_of (if b then "true" else "false")
  | TInt _, VInt z | TUInt _, VInt z => decimal z
  | TFloat n, VFloat bits => show_float n bits
  | TBytes, VBytes b => quoted (base64_encode b)
  | TString, VBytes b => quoted (EscapeJsonString b)
  | TTimestamp, VTime p => quoted (show_time p)
  | TDuration, VDuration d => quoted (show_duration d)
  | TEnum _ _ items, VInt z => quoted (enumerator items z)
  | TVector t, VList vs | TArray _ t, VList vs => text_of "[" ++ separated (map (json_text t) vs) ++ text_of "]"
  | TOptional _, VNone => text_of "null"
  | TOptional t, VSome v => json_text t v
  | TObject fs, VObject vs => text_of "{" ++ separated (member_texts fs vs) ++ text_of "}"
  | _, _ => []
  end
with member_texts (fs : fields) (vs : list value) {struct fs} : list (list byte) :=
  match fs, vs with
  | FCons name t _ rest, v :: vs => (quoted name ++ text_of " : " ++ json_text t v) :: member_texts rest vs
  | _, _ => []
  end.

(** Bytes that the reader of strings takes: it has a limit that the writer of bytes
    has not. *)
Fixpoint printable (t : ctype) (v : value) {struct t} : Prop :=
  match t, v with
  | TBytes, VBytes b => zlen b <= kMaxStringSize
  | TVector t, VList vs | TArray _ t, VList vs => Forall (printable t) vs
  | TOptional t, VSome v => printable t v
  | TObject fs, VObject vs => printable_members fs vs
  | _, _ => True
  end
with printable_members (fs : fields) (vs : list value) {struct fs} : Prop :=
  match fs, vs with
  | FCons _ t _ rest, v :: vs => printable t v /\ printable_members rest vs
  | _, _ => True
  end.
End specification.

(** ** The map of a parsed enumeration *)
Definition ordered (m : list (Z * list byte)) : Prop := StronglySorted Z.lt (map fst m).

Lemma enum_item_below key m : Forall (Z.lt key) (map fst m) -> EmitJson.enum_item key m = None.
Proof.
  unfold EmitJson.enum_item. induction m as [|[k i] m IH]; [done|]. intros [Hk Hm]%Forall_cons_1. cbn in *.
  rewrite (proj2 (Z.eqb_neq _ _)) by lia. by apply IH.
Qed.

Lemma map_insert_keys k item m (P : Z -> Prop) : P k -> Forall P (map fst m) -> Forall P (map fst (map_insert k item m)).
Proof.
  intros Hk. induction m as [|[k' i'] m IH]; cbn; [by repeat constructor|]. intros [Hk' Hm]%Forall_cons_1.
  destruct (k <? k'); [by repeat constructor|]. destruct (k =? k'); [by constructor|]. constructor; auto.
Qed.

Lemma enum_item_insert key k item m : ordered m ->
  ordered (map_insert k item m) /\
  EmitJson.enum_item key (map_insert k item m) =
    match EmitJson.enum_item key m with Some i => Some i | None => if k =? key then Some item else None end.
Proof.
  unfold ordered. induction m as [|[k' i'] m IH]; intros Hm; cbn [map_insert map fst].
  - split; [by repeat constructor|]. unfold EmitJson.enum_item. cbn. by destruct (k =? key).
  - apply StronglySorted_inv in Hm as [Hm Hlt]. destruct (IH Hm) as [Ho E]. clear IH.
    destruct (Z.ltb_spec k k') as [Hk|Hk].
    + assert (Hall : Forall (Z.lt k) (k' :: map fst m)).
      { constructor; [done|]. eapply list.Forall_impl; [exact Hlt|]. cbn. lia. }
      split; [constructor; [by constructor|exact Hall]|].
      destruct (Z.eqb_spec k key) as [<-|Hn].
      * rewrite (enum_item_below k ((k', i') :: m)) by exact Hall. unfold EmitJson.enum_item. cbn. by rewrite Z.eqb_refl.
      * unfold EmitJson.enum_item. cbn. rewrite (proj2 (Z.eqb_neq k key)) by done. by destruct (snd <$> _).
    + destruct (Z.eqb_spec k k') as [->|Hne].
      * split; [by constructor|]. unfold EmitJson.enum_item. cbn. destruct (Z.eqb_spec k' key); [done|]. by destruct (snd <$> _).
      * split; [constructor; [done|]; apply (map_insert_keys _ _ _ (Z.lt k')); [lia|done]|].
        unfold EmitJson.enum_item in *. cbn. destruct (Z.eqb_spec k' key); [done|exact E].
Qed.

Lemma enum_item_items key items : forall m, ordered m ->
  EmitJson.enum_item key (fold_left (fun m item => map_insert (u64 (fst item)) (snd item) m) items m) =
    match EmitJson.enum_item key m with
    | Some i => Some i
    | None => snd <$> List.find (fun item => u64 (fst item) =? key) items
    end.
Proof.
  induction items as [|[k i] items IH]; intros m Hm; cbn [fold_left List.find fst snd]; [by destruct (EmitJson.enum_item key m)|].
  destruct (enum_item_insert key (u64 k) i m Hm) as [Ho E]. rewrite IH, E by done.
  destruct (EmitJson.enum_item key m); [done|]. by destruct (_ =? key).
Qed.

Lemma enumerator_printed (items : list (Z * list byte)) z :
  match EmitJson.enum_item (u64 z) (fold_left (fun m item => map_insert (u64 (fst item)) (snd item) m) items []) with
  | Some name => name
  | None => decimal (u64 z)
  end = enumerator items z.
Proof. rewrite enum_item_items by constructor. unfold enumerator. cbn. by destruct (List.find _ items). Qed.

(** ** A record is printed as the JSON of its object *)
Section printing.
Context `{BoostTimeLaws} {X : EmitExternals} {S : Type} `{ReadStreamLaws S} (emit : bool).
Import EmitJson.

Definition prints (t : ctype) : Prop := forall name v0 v,
  wf_type t -> storable t v0 -> storable t v -> printable t v ->
  reads (S := S) (EmitJson (element_of emit name t v0)) (bytes t v) (json_text t v).

(** The elements behind the first of an array, each with what is in front of it. *)
Lemma write_elements {A} (f : S -> outcome (list byte * S)) (d text : A -> list byte) n l : forall i out s tail,
  Forall (fun x => reads f (d x) (text x)) l -> i + zlen l = n ->
  rs_valid s -> rs_rest s = concat (map d l) ++ tail ->
  exists s', times (fun '(i, out, data) =>
      '(text, data) ← f data; Done (i + 1, out ++ text ++ (if i + 1 =? n then [] else text_of ", "), data)) (zlen l) (i, out, s) =
    Done (n, out ++ separated (map text l), s') /\ rs_valid s' /\ rs_rest s' = tail.
Proof.
  induction l as [|x l IH]; intros i out s tail Hf Hn Vs E; cbn [map concat separated] in *.
  - exists s. rewrite times_0 by done. rewrite app_nil_r. replace n with i by (unfold zlen in Hn; cbn in Hn; lia). done.
  - apply Forall_cons_1 in Hf as [Hx Hf]. rewrite <- app_assoc in E. rewrite zlen_cons, Z.add_comm, times_succ by apply zlen_nonneg.
    rewrite zlen_cons in Hn. destruct (Hx s _ Vs E) as (s1 & -> & V1 & R1). rewrite bind_done. cbn beta iota. rewrite bind_done.
    destruct (IH (i + 1) (out ++ text x ++ (if i + 1 =? n then [] else text_of ", ")) s1 tail Hf ltac:(lia) V1 R1) as (s' & -> & V' & R').
    exists s'. split; [|done]. do 3 f_equal. destruct l as [|y l].
    + rewrite (proj2 (Z.eqb_eq _ _)) by (unfold zlen in Hn; cbn in Hn; lia). cbn. by rewrite !app_nil_r.
    + rewrite (proj2 (Z.eqb_neq _ _)) by (rewrite zlen_cons in Hn; pose proof (zlen_nonneg l); lia).
      cbn [map separated concat]. by rewrite <- !app_assoc.
Qed.

Lemma WriteArray_prints {A} (f : S -> outcome (list byte * S)) (d text : A -> list byte) l :
  Forall (fun x => reads f (d x) (text x)) l ->
  reads (WriteArray f (zlen l)) (concat (map d l)) (text_of "[" ++ separated (map text l) ++ text_of "]").
Proof.
  intros Hf s tail Vs E. unfold WriteArray.
  destruct (write_elements f d text (zlen l) l 0 [] s tail Hf eq_refl Vs E) as (s' & -> & V & R). rewrite bind_done. cbn beta iota. by exists s'.
Qed.

Lemma separated_cons x l : separated (x :: l) = x ++ (if l is [] then [] else text_of ", ") ++ separated l.
Proof. destruct l as [|y l]; cbn [separated map concat]; [done|]. by rewrite <- !app_assoc. Qed.

Definition emit_field (field : Field) (data : S) : outcome (list byte * S) :=
  match field with mkField _ _ _ e _ => EmitJson e data end.

Definition prints_fields (fs : fields) : Prop := forall vs0 vs,
  wf_fields fs -> storable_fields fs vs0 -> storable_fields fs vs -> printable_members fs vs ->
  reads (WriteFields emit_field (fields_of emit fs vs0)) (fields_bytes fs vs) (separated (member_texts fs vs)).

Lemma field_prints name t initial rest : prints t -> prints_fields rest -> prints_fields (FCons name t initial rest).
Proof.
  intros Ht Hr [|v0 vs0] [|v vs] Hw H0' Hv Hp; try (by cbn in *). destruct Hw as (Hw & _ & Hws), H0' as [Hv0 Hvs0], Hv as [Hv Hvs], Hp as [Hp Hps].
  cbn [member_texts]. rewrite fields_of_cons, fields_bytes_cons, separated_cons. intros s tail Vs E. rewrite <- app_assoc in E. cbn [WriteFields emit_field].
  destruct (Ht name v0 v Hw Hv0 Hv Hp s _ Vs E) as (s1 & E1 & V1 & R1). rewrite E1, bind_done. cbn beta iota.
  destruct (Hr vs0 vs Hws Hvs0 Hvs Hps s1 tail V1 R1) as (s2 & -> & V2 & R2). rewrite bind_done. exists s2. split; [|done].
  assert ((if fields_of emit rest vs0 is [] then [] else text_of ", ") = (if member_texts rest vs is [] then [] else text_of ", ")) as ->
    by (clear -Hvs0 Hvs; destruct rest, vs0, vs; first [done|by destruct Hvs0|by destruct Hvs]).
  by rewrite <- !app_assoc.
Qed.

(** A scalar: what is read, and how it is printed. *)
Lemma prints_scalar {A} (g : S -> outcome (A * S)) (h : A -> list byte) e d a :
  reads g d a -> (forall s, EmitJson e s = ('(a, s) ← g s; Done (h a, s))) -> reads (EmitJson e) d (h a).
Proof. intros Hg He. eapply reads_ext; [intros s; symmetry; apply He|]. by apply reads_done. Qed.

Ltac sized_scalar size := do 9 (destruct size as [|size]; try done).

Lemma array_prints name t vs : prints t -> wf_type t -> Forall (storable t) vs -> Forall (printable t) vs ->
  reads (WriteArray (EmitJson (element_of emit name t (default t))) (zlen vs)) (concat (map (bytes t) vs))
    (text_of "[" ++ separated (map (json_text t) vs) ++ text_of "]").
Proof.
  intros Ht Hw Hv Hp. apply WriteArray_prints. apply list.Forall_forall. intros v Hin.
  apply Ht; [done|by apply default_storable|..]; by eapply list.Forall_forall.
Qed.

Lemma optional_prints t name v : prints t -> wf_type t -> storable (TOptional t) v -> printable (TOptional t) v ->
  reads (EmitJson (element_of emit name (TOptional t) VNone)) (bytes (TOptional t) v) (json_text (TOptional t) v).
Proof.
  intros Ht Hw Hv Hp. assert (forall s, EmitJson (element_of emit name (TOptional t) VNone) s =
    ('(index, data) ← value_of (ReadVaruint s);
     if 2 <=? index then Faulted (Exception kOutOfRange)
     else at_index (fun c '(_, data) => EmitJson c data) [leaf kNull name (fixed 0); element_of emit name t (default t)] index ([], data))) as E by done.
  eapply reads_ext; [intros s; symmetry; apply E|]. destruct v; try (by destruct Hv); cbn [bytes json_text].
  - rewrite <- (app_nil_r (vbytes 0)). refine (reads_bind _ _ _ _ _ _ (reads_size 0 _) _); [done|]. exact (reads_ret (text_of "null")).
  - refine (reads_bind _ _ _ _ _ _ (reads_size 1 _) _); [done|]. by apply Ht; [|apply default_storable|..].
Qed.

Lemma EmitJson_prints t : prints t.
Proof.
  induction t using ctype_mut with (P0 := prints_fields); [intros nm v0 v Hw H0' Hv Hp..| |].
  1-10: destruct v; try (by destruct Hv); cbn [element_of bytes json_text].
  - destruct b; (refine (prints_scalar _ (fun z => text_of (if negb (z =? 0) then "true" else "false")) _ _ _ (reads_value _ _ _ (reads_uint 1 _ _)) _);
      [done|intros s; cbn; by destruct (value_of _) as [[]|]]).
  - apply (prints_scalar (fun s => value_of (ReadSigned size s))); [by apply reads_value, reads_int; [destruct size; done || lia|]|].
    by sized_scalar size.
  - apply (prints_scalar (fun s => value_of (ReadScalar size s))); [by apply reads_value, reads_uint|]. by sized_scalar size.
  - apply (prints_scalar (fun s => value_of (ReadScalar size s)) (show_float size)); [by apply reads_value, reads_uint|].
    intros s. by destruct Hw as [-> | ->]; cbn; destruct (value_of _) as [[]|].
  - apply (prints_scalar (fun s => value_of (ReadString s)) (fun b => quoted (base64_encode b))); [by apply reads_value, reads_ReadString|done].
  - apply (prints_scalar (fun s => value_of (ReadString s)) (fun b => quoted (EscapeJsonString b))); [by apply reads_value, reads_ReadString|done].
  - destruct Hv as (us & Hr & Hu & ->). rewrite micros_roundtrip by done.
    apply (prints_scalar (fun s => value_of (ReadSigned 8 s)) (fun us => quoted (show_time (ConvertEpochMicrosecondsToPtime us)))); [|done].
    by apply reads_value, reads_int; [lia|].
  - destruct Hv as (us & Hr & Hu & ->). rewrite duration_roundtrip by done.
    apply (prints_scalar (fun s => value_of (ReadSigned 8 s)) (fun us => quoted (show_duration (ConvertMicrosecondsToDuration us)))); [|done].
    by apply reads_value, reads_int; [lia|].
  - rewrite <- (enumerator_printed items z). eapply (prints_scalar (fun s => value_of (ReadVaruint s)) (fun k => quoted (match enum_item k _ with Some name => name | None => decimal k end)));
      [by apply reads_size, u64_range|done].
  - destruct Hv as [Hz Hv]. refine (reads_bind _ _ _ _ (zlen vs) _ (reads_size (zlen vs) _) _); [by apply (zlen_u64 _ max_size)|].
    by apply array_prints.
  - destruct v; try (by destruct Hv). destruct Hv as [<- Hv], Hw. cbn [element_of bytes json_text]. by apply array_prints.
  - by apply optional_prints.
  - destruct v; try (by destruct Hv). destruct v0; try (by destruct H0'). cbn [bytes json_text].
    apply (prints_scalar (WriteFields emit_field (fields_of emit fs vs0)) (fun text => text_of "{" ++ text ++ text_of "}")); [by apply IHt|intros s]. reflexivity.
  - intros [|] [|]; try done. intros _ _ _ _. apply (reads_ret []).
  - by apply field_prints.
Qed.
End printing.

(** ** JSON

    The grammar of RFC 8259, over bytes.  A string is in UTF-8 (RFC 3629). *)
Definition within (lo hi : Z) (c : byte) : bool := (lo <=? char_code c) && (char_code c <=? hi).
Definition one_of (codes : list Z) (c : byte) : bool := existsb (Z.eqb (char_code c)) codes.

Definition utf8_tail : byte -> bool := within 0x80 0xbf.
(** A character of more than seven bits. *)
Definition utf8_char (l : list byte) : bool :=
  match l with
  | [a; b] => within 0xc2 0xdf a && utf8_tail b
  | [a; b; c] =>
      (within 0xe0 0xe0 a && within 0xa0 0xbf b || within 0xe1 0xec a && utf8_tail b ||
       within 0xed 0xed a && within 0x80 0x9f b || within 0xee 0xef a && utf8_tail b) && utf8_tail c
  | [a; b; c; d] =>
      (within 0xf0 0xf0 a && within 0x90 0xbf b || within 0xf1 0xf3 a && utf8_tail b ||
       within 0xf4 0xf4 a && within 0x80 0x8f b) && utf8_tail c && utf8_tail d
  | _ => false
  end.

(** A character that stands for itself: not a control, a quote or a backslash. *)
Definition plain (c : byte) : bool := within 0x20 0x7f c && negb (one_of [34; 92] c).
Definition hex_digit (c : byte) : bool := within 48 57 c || within 65 70 c || within 97 102 c.

Inductive json_char : list byte -> Prop :=
  | JPlain c : plain c = true -> json_char [c]
  | JUtf8 l : utf8_char l = true -> json_char l
  | JEscape c : one_of [34; 92; 47; 98; 102; 110; 114; 116] c = true -> json_char [byte.of_Z 92; c]
  | JUnicode a b c d : forallb hex_digit [a; b; c; d] = true -> json_char (text_of "\u" ++ [a; b; c; d]).

Definition json_string (t : list byte) : Prop := exists l, t = quoted (concat l) /\ Forall json_char l.

Definition some_digits (l : list byte) : Prop := l <> [] /\ all_digits l.
Definition json_number (t : list byte) : Prop := exists sg i f e, t = sg ++ i ++ f ++ e /\
  (sg = [] \/ sg = text_of "-") /\ whole i /\
  (f = [] \/ exists r, f = text_of "." ++ r /\ some_digits r) /\
  (e = [] \/ exists x y r, e = x ++ y ++ r /\ (x = text_of "e" \/ x = text_of "E") /\
    (y = [] \/ y = text_of "+" \/ y = text_of "-") /\ some_digits r).

Definition json_space (w : list byte) : Prop := Forall (fun c => one_of [32; 9; 10; 13] c = true) w.

Inductive json : list byte -> Prop :=
  | JNull : json (text_of "null")
  | JTrue : json (text_of "true")
  | JFalse : json (text_of "false")
  | JNumber t : json_number t -> json t
  | JString t : json_string t -> json t
  | JEmptyArray w : json_space w -> json (text_of "[" ++ w ++ text_of "]")
  | JArray t : json_elements t -> json (text_of "[" ++ t ++ text_of "]")
  | JEmptyObject w : json_space w -> json (text_of "{" ++ w ++ text_of "}")
  | JObject t : json_members t -> json (text_of "{" ++ t ++ text_of "}")
with json_elements : list byte -> Prop :=
  | JElement w1 t w2 : json_space w1 -> json t -> json_space w2 -> json_elements (w1 ++ t ++ w2)
  | JElements t ts : json_elements t -> json_elements ts -> json_elements (t ++ text_of "," ++ ts)
with json_members : list byte -> Prop :=
  | JMember w1 k w2 w3 t w4 : json_space w1 -> json_string k -> json_space w2 -> json_space w3 -> json t -> json_space w4 ->
      json_members (w1 ++ k ++ w2 ++ text_of ":" ++ w3 ++ t ++ w4)
  | JMembers t ts : json_members t -> json_members ts -> json_members (t ++ text_of "," ++ ts).

(** What the printers do: a finite number is one of JSON ("1e+06", "-0.25"), and the
    text of times and base64 needs no escapes. *)
Class EmitLaws `{EmitExternals} := {
  show_finite n bits : (n = 4 \/ n = 8)%nat -> isfinite n bits = true -> json_number (show_float n bits);
  show_time_plain p : forallb plain (show_time p) = true;
  show_duration_plain d : forallb plain (show_duration d) = true;
  base64_plain l : forallb plain (base64_encode l) = true;
}.

(** A character that is escaped, or needs no escape: the other controls are printed as
    they are. *)
Definition escapable (c : byte) : bool := within 0x20 0x7f c || one_of [0; 8; 9; 10; 12; 13] c.

(** The objects whose text is JSON: numbers are finite, strings are in UTF-8 and have no
    control characters but those that are escaped, and the names of fields, and of the
    enumerators that are printed, need no escapes. *)
Section jsonable.
Context `{EmitExternals}.

Fixpoint jsonable (t : ctype) (v : value) {struct t} : Prop :=
  match t, v with
  | TFloat n, VFloat bits => isfinite n bits = true
  | TString, VBytes b => exists l, b = concat l /\ Forall (fun u => utf8_char u = true \/ exists c, u = [c] /\ escapable c = true) l
  | TEnum _ _ items, VInt z => forallb plain (enumerator items z) = true
  | TVector t, VList vs | TArray _ t, VList vs => Forall (jsonable t) vs
  | TOptional t, VSome v => jsonable t v
  | TObject fs, VObject vs => jsonable_members fs vs
  | _, _ => True
  end
with jsonable_members (fs : fields) (vs : list value) {struct fs} : Prop :=
  match fs, vs with
  | FCons name t _ rest, v :: vs => forallb plain name = true /\ jsonable t v /\ jsonable_members rest vs
  | _, _ => True
  end.
End jsonable.

Lemma plain_string t : forallb plain t = true -> json_string (quoted t).
Proof.
  intros Ht. exists (map (fun c => [c]) t). rewrite concat_map_single. split; [done|].
  apply Forall_map. apply list.Forall_forall. intros c Hc. constructor. rewrite forallb_forall in Ht. by apply Ht, list_elem_of_In.
Qed.

Lemma decimal_json z : json_number (decimal z).
Proof.
  destruct (decimal_whole z) as (sg & i & -> & Hs & Hi). exists sg, i, [], [].
  split_and!; [by rewrite !app_nil_r|done..|by left|by left].
Qed.

(** *** Strings *)
Lemma escape_json c : escapable c = true -> json_char (EscapeJsonChar c).
Proof.
  unfold escapable, EscapeJsonChar, one_of. cbv zeta. intros Hc.
  repeat (match goal with |- context [char_code c =? ?k] => destruct (Z.eqb_spec (char_code c) k) as [E|?] end; [by constructor|]).
  constructor. unfold plain, one_of. cbn [existsb] in *. rewrite !(proj2 (Z.eqb_neq _ _)) in * by done.
  cbn in *. by destruct (within 32 127 c).
Qed.

Lemma escape_high c : 128 <= char_code c -> EscapeJsonChar c = [c].
Proof. intros Hc. unfold EscapeJsonChar. cbv zeta. by rewrite !(proj2 (Z.eqb_neq _ _)) by (cbn; lia). Qed.

Lemma utf8_high l : utf8_char l = true -> Forall (fun c => 128 <= char_code c) l.
Proof.
  assert (Hw : forall lo hi c, 128 <= lo -> within lo hi c = true -> 128 <= char_code c).
  { unfold within. intros. lia. }
  unfold utf8_char, utf8_tail. destruct l as [|a [|b [|c [|d [|]]]]]; try done; rewrite ?andb_true_iff, ?orb_true_iff, ?andb_true_iff;
    intros Hu; repeat constructor; intuition (eapply Hw; [|eassumption]; lia).
Qed.

Lemma escape_utf8 l : utf8_char l = true -> EscapeJsonString l = l.
Proof.
  intros Hl%utf8_high. unfold EscapeJsonString. induction Hl as [|c l Hc _ IH]; [done|]. cbn [map concat].
  by rewrite escape_high, IH.
Qed.

Lemma escaped_string l : Forall (fun u => utf8_char u = true \/ exists c, u = [c] /\ escapable c = true) l ->
  json_string (quoted (EscapeJsonString (concat l))).
Proof.
  intros Hl. exists (map EscapeJsonString l). split.
  - f_equal. induction l as [|u l IH]; [done|]. apply Forall_cons_1 in Hl as [_ Hl]. cbn [map concat]. rewrite <- IH by done.
    unfold EscapeJsonString. by rewrite map_app, concat_app.
  - apply Forall_map. eapply list.Forall_impl; [exact Hl|]. intros u [Hu|(c & -> & Hc)].
    + rewrite escape_utf8 by done. by constructor.
    + unfold EscapeJsonString. cbn [map concat]. rewrite app_nil_r. by apply escape_json.
Qed.

(** *** Arrays and objects *)
Lemma separated_in (P Q : list byte -> Prop) :
  (forall w x, json_space w -> Q x -> P (w ++ x)) -> (forall t ts, P t -> P ts -> P (t ++ text_of "," ++ ts)) ->
  forall l w, json_space w -> l <> [] -> Forall Q l -> P (w ++ separated l).
Proof.
  intros H1 H2. induction l as [|x l IH]; intros w Hw Hn Hl; [done|]. apply Forall_cons_1 in Hl as [Hx Hl]. rewrite separated_cons.
  destruct l as [|y l]; [cbn [separated app]; rewrite app_nil_r; by apply H1|].
  change (text_of ", ") with (text_of "," ++ text_of " "). rewrite <- (app_assoc (text_of ",")), (app_assoc w), (app_assoc (w ++ x)).
  rewrite <- (app_assoc (w ++ x)). apply H2; [by apply H1|]. apply IH; [by repeat constructor|done|done].
Qed.

Lemma array_json l : Forall json l -> json (text_of "[" ++ separated l ++ text_of "]").
Proof.
  intros Hl. destruct l as [|x l]; [by apply (JEmptyArray []); constructor|]. apply JArray.
  apply (separated_in json_elements json) with (l := x :: l) (w := []); [|exact JElements|constructor|done|done].
  intros w t Hw Ht. rewrite <- (app_nil_r t). apply JElement; [done..|constructor].
Qed.

Definition json_member (x : list byte) : Prop := exists k t, x = k ++ text_of " : " ++ t /\ json_string k /\ json t.

Lemma object_json l : Forall json_member l -> json (text_of "{" ++ separated l ++ text_of "}").
Proof.
  intros Hl. destruct l as [|x l]; [by apply (JEmptyObject []); constructor|]. apply JObject.
  apply (separated_in json_members json_member) with (l := x :: l) (w := []); [|exact JMembers|constructor|done|done].
  intros w y Hw (k & t & -> & Hk & Ht). rewrite <- (app_nil_r t).
  change (text_of " : ") with (text_of " " ++ text_of ":" ++ text_of " "). rewrite <- !app_assoc.
  apply JMember; [done..|by repeat constructor|by repeat constructor|done|constructor].
Qed.

(** The text of an object that is [jsonable] is JSON. *)
Lemma json_text_json `{EmitLaws} t : forall v, wf_type t -> storable t v -> jsonable t v -> json (json_text t v).
Proof.
  induction t using ctype_mut with (P0 := fun fs => forall vs, wf_fields fs -> storable_fields fs vs -> jsonable_members fs vs ->
    Forall json_member (member_texts fs vs)); intros v Hw Hv Hj; try (destruct v; try (by destruct Hv)); cbn [json_text].
  - destruct b; constructor.
  - apply JNumber, decimal_json.
  - apply JNumber, decimal_json.
  - by apply JNumber, show_finite; [destruct Hw; auto|].
  - apply JString, plain_string, base64_plain.
  - destruct Hj as (l & -> & Hl). by apply JString, escaped_string.
  - apply JString, plain_string, show_time_plain.
  - apply JString, plain_string, show_duration_plain.
  - by apply JString, plain_string.
  - apply array_json, Forall_map. destruct Hv as [_ Hv]. cbn in Hj. apply list.Forall_forall. intros v Hin.
    rewrite list.Forall_forall in Hv, Hj. by apply IHt; auto.
  - apply array_json, Forall_map. destruct Hv as [_ Hv], Hw as [_ Hw]. cbn in Hj. apply list.Forall_forall. intros v Hin.
    rewrite list.Forall_forall in Hv, Hj. by apply IHt; auto.
  - constructor.
  - by apply IHt.
  - by apply object_json, IHt.
  - destruct Hw as (Hw & _ & Hws), Hv as [Hv Hvs], Hj as (Hn & Hj & Hjs). constructor; [|by apply IHt0].
    exists (quoted name), (json_text t v). split; [done|]. split; [by apply plain_string|by apply IHt].
Qed.
