(* ===== verification/LogDump.v ===== *)
(** * telemetry/file_json_dump.cc: a log as lines of JSON

    The program opens a log and prints its items, those of the records that were
    named or all, each as the JSON of its data by the schema of its record.  What is
    printed before a fault is not modelled: the items are read, then printed.  What a
    line has of an object is JSON when the object is [jsonable]. *)
From stdpp Require Import gmap sorting strings.
From S2P Require Import Prelude Varuint Streams TimeConversions TelemetryFormat Archive ArchiveTheory Schema SchemaTheory Tokenizer CString Json5 EmitJson Register FileWriter FileReader LogFormat FileWriterTheory FileWriterOps LogWriter LogProperties FileReaderTheory LogReader LogScan LogIndex LogRoundtrip.
#[local] Open Scope Z_scope.

Module FileJsonDump.
Section FileJsonDump.
Context `{CrcLaws} `{LogClock} `{SnappyLaws} {X : EmitExternals}.

Definition dump_item (s : FileReader.State) (item : FileReader.Item) : outcome (list byte) :=
  match FileReader.records s !! FileReader.record item with
  | None => Faulted Undefined
  | Some record =>
      '(text, _) ← EmitJson.EmitJson (FileReader.schema record) (BufferReadStream.make (FileReader.data item));
      Done (quoted (show_time (FileReader.timestamp item)) ++ text_of " " ++ text ++ newline)
  end.

Fixpoint dump_items (s : FileReader.State) (items : list FileReader.Item) : outcome (list byte) :=
  match items with
  | [] => Done []
  | item :: items => line ← dump_item s item; more ← dump_items s items; Done (line ++ more)
  end.

(** [main], with what is printed. *)
Definition main (names : list (list byte)) (log : list byte) : outcome (list byte) :=
  file_reader ← FileReader.Open true log;
  '(items, file_reader) ← FileReader.read_items names file_reader;
  dump_items file_reader items.
End FileJsonDump.
End FileJsonDump.

(** ** The lines of a log of objects *)
Section dump.
Context `{CrcLaws} `{LogClock} `{!BoostTimeLaws} `{SnappyLaws} {X : EmitExternals} {XL : EmitLaws}.
Context (env : env_t) (Hone : one_name env).
Import FileJsonDump.

(** The class of each record, whose schema is the one in the log. *)
Context (emit : bool) (class_of : Z -> ctype).

Definition class_ok (t : ctype) : Prop := wf_type t /\ describable t /\ zlen (bytes t (default t)) <= max_size.

Definition schemas_ok : Prop := forall id name schema, env !! id = Some (name, schema) ->
  class_ok (class_of id) /\ BinarySchemaArchive.Write emit (class_of id) = Done schema.

(** The data are the record of an object. *)
Definition is_object (d : datum) (v : value) : Prop :=
  let '(id, payload, _) := d in
  payload = bytes (class_of id) v /\ storable (class_of id) v /\ printable (class_of id) v.

Definition time_text (x : datum * value) : list byte :=
  let '(_, _, time, _) := x in
  quoted (show_time (match time with Some t => ConvertEpochMicrosecondsToPtime t | None => not_a_date_time end)).
Definition object_text (x : datum * value) : list byte := let '(id, _, _, v) := x in json_text (class_of id) v.
Definition line (x : datum * value) : list byte := time_text x ++ text_of " " ++ object_text x ++ newline.

Definition object_jsonable (x : datum * value) : Prop := let '(id, _, _, v) := x in jsonable (class_of id) v.

Lemma dump_item_line s it d v : schemas_ok -> item_is env s it d -> is_object d v ->
  dump_item s it = Done (line (d, v)).
Proof.
  destruct d as [[id payload] time]. intros Hs (Hd & Ht & name & schema & e & He & Hp & Hr) (-> & Hv & Hpr).
  destruct (Hs _ _ _ He) as [(Hw & Hde & Hz) Es]. destruct (Write_parses emit (class_of id) name Hw Hde Hz) as (schema' & Es' & Ep).
  assert (schema' = schema) as -> by congruence. assert (e = element_of emit name (class_of id) (default (class_of id))) as -> by congruence.
  unfold dump_item. rewrite Hr. cbn [record_of FileReader.schema]. rewrite Hd, Ht.
  destruct (EmitJson_prints (S := BufferReadStream.t) emit (class_of id) name (default (class_of id)) v Hw (default_storable _ Hw) Hv Hpr
    (BufferReadStream.make (bytes (class_of id) v)) []) as (s' & -> & _); [apply BufferReadStream.brs_ok_make|by rewrite app_nil_r|].
  done.
Qed.

Lemma dump_items_lines s names : schemas_ok -> forall its ds vs, Forall2 is_object ds vs ->
  Forall2 (item_is env s) its (List.filter (datum_wanted env names) ds) ->
  dump_items s its = Done (concat (map line (List.filter (fun x => datum_wanted env names (fst x)) (zip ds vs)))).
Proof.
  intros Hs its ds vs Hv. revert its. induction Hv as [|d v ds vs Hd _ IH]; intros its Hits; cbn [zip zip_with List.filter fst] in *.
  - inversion Hits. done.
  - destruct (datum_wanted env names d); [|by apply IH]. inversion Hits as [|it ? its' ? Hi Hits']; subst. cbn [dump_items map concat].
    rewrite (dump_item_line s it d v Hs Hi Hd), bind_done. by rewrite (IH its' Hits').
Qed.

(** The texts of a line: of an object that is [jsonable] it is JSON. *)
Lemma object_text_json d v : wf_type (class_of (fst (fst d))) -> is_object d v ->
  json_string (time_text (d, v)) /\ (object_jsonable (d, v) -> json (object_text (d, v))).
Proof.
  destruct d as [[id payload] time]. cbn. intros Hw (_ & Hv & _). split; [apply plain_string, show_time_plain|]. by apply json_text_json.
Qed.

Lemma shown_json names ds vs : schemas_ok -> Forall2 is_object ds vs ->
  Forall (fun x => json_string (time_text x) /\ (object_jsonable x -> json (object_text x)))
    (List.filter (fun x => datum_wanted env names (fst x)) (zip ds vs)).
Proof.
  intros Hs. induction 1 as [|d v ds vs Hd _ IH]; cbn [zip zip_with List.filter fst]; [constructor|].
  unfold datum_wanted at 1. destruct (env !! d.1.1) as [[name schema]|] eqn:E; [|exact IH].
  destruct (wants (Some names) name); [|exact IH]. constructor; [|exact IH].
  apply object_text_json; [|done]. by destruct (Hs _ _ _ E) as [(Hw & _) _].
Qed.

(** C6: a log of objects is printed as their JSON.  Whatever objects are written to
    a log, by their schemas and their records, with or without times, checksums,
    compression, seek blocks, previous offsets and an index, and with the background
    thread writing at any time: the program prints a line for each of the records
    that were asked for, in order, with the time in quotes and the text of the very
    object, each member by its name and its type.  The time is a JSON string, and
    the text of the object is JSON, by the grammar [json] of RFC 8259, whenever its
    numbers are finite, its strings are in UTF-8 without the control characters that
    EscapeJsonString does not know, and the names of its fields and enumerators need
    no escapes ([jsonable]).  Of other objects the text is as the code prints it,
    which is no JSON (the findings at emit_json.cc:90 and escape_json_string.cc:55).
    Members of bytes are as short as the reader of strings allows ([printable], and
    the finding at emit_json.cc:73). *)
Theorem log_dumped_as_json names s cs sp vs :
  schemas_ok -> FileWriter.writer s = None -> FileWriter.schemas s = ∅ ->
  calls_ok env (FileWriter.reverse_identifier_map s) [] cs ->
  spec_run (FileWriter.options s)
    {| blocks := []; LogWriter.names := FileWriter.reverse_identifier_map s;
       seeked := FileWriter.last_seek_block s |} cs = Some sp ->
  small (closing (FileWriter.options s) (blocks sp)) ->
  (if FileWriter.index_block (FileWriter.options s)
   then blocks sp <> [] /\ index_size (index_entries (table (blocks sp))) < 2 ^ 32
   else ends_like_index (log_bytes (blocks sp)) = false) ->
  Forall2 is_object (written (FileWriter.options s) cs) vs ->
  let shown := List.filter (fun x => datum_wanted env names (fst x)) (zip (written (FileWriter.options s) cs) vs) in
  exists w file,
    (s1 ← FileWriter.Open s; s2 ← run cs s1; FileWriter.Close s2) = Done (w, Some file) /\
    main names file = Done (concat (map line shown)) /\
    Forall (fun x => json_string (time_text x) /\ (object_jsonable x -> json (object_text x))) shown.
Proof.
  intros Hs Ew Es Hc Hr Hsm Hi Hv.
  destruct (log_read_back env Hone true names s cs sp Ew Es Hc Hr Hsm Hi) as (w & file & r & r' & its & E & Eo & _ & Ei & Hits).
  exists w, file. split; [exact E|]. split.
  2:{ by apply shown_json. }
  unfold main. rewrite Eo, bind_done, Ei, bind_done. cbn beta iota. by apply dump_items_lines.
Qed.
End dump.

(** ** The lines of a log of two records *)
Definition shown_pose : ctype :=
  TObject (FCons (text_of "on") TBool (VBool false)
    (FCons (text_of "id") (TUInt 2) (VInt 0) (FCons (text_of "name") TString (VBytes []) FNil))).

Definition shown_class (id : Z) : ctype := if id =? 1 then shown_pose else TVector TBool.

Definition shown_schema (id : Z) : list byte :=
  match BinarySchemaArchive.Write true (shown_class id) with Done l => l | Faulted _ => [] end.

Definition env_of (schema_of : Z -> list byte) : env_t :=
  list_to_map [(1, (text_of "pose", schema_of 1)); (7, (text_of "imu", schema_of 7))].

Definition shown_env : env_t := env_of shown_schema.

Definition shown_values : list value := [
  VObject [VBool true; VInt 300; VBytes (text_of "a/b")];
  VList [VBool true; VBool false];
  VObject [VBool false; VInt 7; VBytes []]].

Definition shown_data (id : Z) (k : nat) : list byte := bytes (shown_class id) (nth k shown_values VNone).

Definition shown_calls : list call := [
  CSchema 1 (shown_schema 1);
  CData (MAt 1000) MPos 1 (shown_data 1 0) default_flags;
  CBackground;
  CSchema 7 (shown_schema 7);
  CData MNadt (MAt 1050) 7 (shown_data 7 1) default_flags;
  CData (MAt 1100) MPos 1 (shown_data 1 2) default_flags;
  CSeek (MAt 1200)].

Definition shown_spec : Spec :=
  from_option id {| blocks := []; names := ∅; seeked := MNadt |}
    (spec_run (sample_options true)
      {| blocks := []; names := FileWriter.reverse_identifier_map (sample_state true); seeked := MNadt |}
      shown_calls).

(** Times as numbers of microseconds, numbers as their bits, bytes as letters. *)
#[local] Instance shown_externals : EmitExternals := {
  show_float _ bits := decimal bits;
  show_time p := match p with MAt us => decimal us | _ => text_of "not-a-date-time" end;
  show_duration d := [];
  base64_encode l := map (fun c => byte.of_Z (65 + char_code c mod 16)) l;
}.

Lemma decimal_plain z : forallb plain (decimal z) = true.
Proof.
  apply forallb_forall. intros c Hc%list_elem_of_In. pose proof (decimal_chars z) as Hd. rewrite list.Forall_forall in Hd.
  specialize (Hd c Hc). unfold plain, one_of, within. cbn. lia.
Qed.

#[local] Instance shown_laws : EmitLaws.
Proof.
  split.
  - intros n bits _ _. apply decimal_json.
  - intros p. destruct p; first [apply decimal_plain|by vm_compute].
  - done.
  - intros l. cbn. apply forallb_forall. intros c (x & <- & _)%in_map_iff. unfold plain, one_of, within.
    unfold char_code. rewrite byte.unsigned_of_Z. unfold byte.wrap. rewrite Z.mod_small by (pose proof (Z.mod_pos_bound (byte.unsigned x) 16); lia).
    pose proof (Z.mod_pos_bound (byte.unsigned x) 16). cbn. lia.
Qed.

Lemma shown_cases schema_of id name schema : env_of schema_of !! id = Some (name, schema) ->
  schema = schema_of id /\ (id = 1 /\ name = text_of "pose" \/ id = 7 /\ name = text_of "imu").
Proof.
  intros Hin%elem_of_list_to_map_2. apply elem_of_cons in Hin as [[= -> -> ->]|Hin]; [by auto|].
  apply elem_of_cons in Hin as [[= -> -> ->]|Hin]; [by auto|by apply not_elem_of_nil in Hin].
Qed.

Lemma shown_one_name : one_name shown_env.
Proof.
  intros id id' name a b [_ [[-> ->]|[-> ->]]]%shown_cases [_ [[-> En]|[-> En]]]%shown_cases; done.
Qed.

Lemma shown_class_ok id : class_ok (shown_class id).
Proof. unfold shown_class. by case_match; repeat split. Qed.

Lemma shown_schema_written id : BinarySchemaArchive.Write true (shown_class id) = Done (shown_schema id).
Proof. unfold shown_schema, shown_class. by case_match; vm_compute. Qed.

Lemma shown_schemas_ok : schemas_ok shown_env true shown_class.
Proof.
  intros id name schema [-> _]%shown_cases. split; [apply shown_class_ok|]. apply shown_schema_written.
Qed.

Lemma shown_parses id name : exists e, BinarySchemaParser.parse (shown_schema id) name = Done e.
Proof.
  destruct (shown_class_ok id) as (Hw & Hd & Hz). destruct (Write_parses true (shown_class id) name Hw Hd Hz) as (schema & E & Ep).
  rewrite shown_schema_written in E. injection E as <-. eauto.
Qed.

Lemma shown_calls_ok : calls_ok shown_env (FileWriter.reverse_identifier_map (sample_state true)) [] shown_calls.
Proof.
  cbn [calls_ok shown_calls]. split.
  { destruct (shown_parses 1 (text_of "pose")) as [e E]. exists (text_of "pose"), e. by split_and!; [vm_compute| |vm_compute|]. }
  split; [set_solver|]. split; [vm_compute; done|]. split; [vm_compute; done|]. split; [vm_compute; done|].
  split.
  { destruct (shown_parses 7 (text_of "imu")) as [e E]. exists (text_of "imu"), e. by split_and!; [vm_compute| |vm_compute|]. }
  repeat (split; [set_solver|split; [vm_compute; done|split; [vm_compute; done|split; [vm_compute; done|]]]]).
  done.
Qed.

Definition shown_written : list datum := written (FileWriter.options (sample_state true)) shown_calls.

Lemma shown_objects : Forall2 (is_object shown_class) shown_written shown_values.
Proof.
  cbn. repeat constructor; vm_compute; try done; try (intros ?; discriminate); intuition lia.
Qed.

(** The text with quotes for its apostrophes. *)
Definition with_quotes (s : string) : list byte :=
  map (fun c => if char_code c =? 39 then quote else c) (text_of s).

Lemma log_dumped_as_json_witness :
  exists w file,
    (s1 ← FileWriter.Open (sample_state true); s2 ← run shown_calls s1; FileWriter.Close s2) = Done (w, Some file) /\
    FileJsonDump.main [text_of "pose"] file = Done
      (with_quotes "'1000' {'on' : true, 'id' : 300, 'name' : 'a/b'}" ++ newline ++
       with_quotes "'1100' {'on' : false, 'id' : 7, 'name' : ''}" ++ newline) /\
    json (with_quotes "{'on' : true, 'id' : 300, 'name' : 'a/b'}").
Proof.
  destruct (log_dumped_as_json shown_env shown_one_name true shown_class [text_of "pose"] (sample_state true) shown_calls
    shown_spec shown_values shown_schemas_ok eq_refl eq_refl shown_calls_ok) as (w & file & Ef & Em & Hj).
  - vm_compute. reflexivity.
  - vm_compute. reflexivity.
  - split; [vm_compute; discriminate|vm_compute; reflexivity].
  - exact shown_objects.
  - exists w, file. split; [exact Ef|]. split; [exact Em|].
    clear Ef Em. set (x := (nth 0 shown_written (0, [], None), nth 0 shown_values VNone)).
    assert (Hx : List.filter (fun x => datum_wanted shown_env [text_of "pose"] (fst x))
      (zip (written (FileWriter.options (sample_state true)) shown_calls) shown_values) !! 0%nat = Some x) by (vm_compute; reflexivity).
    destruct (proj1 (list.Forall_lookup _ _) Hj 0%nat x Hx) as [_ Hjson].
    assert (Et : object_text shown_class x = with_quotes "{'on' : true, 'id' : 300, 'name' : 'a/b'}") by (vm_compute; reflexivity).
    rewrite <- Et. apply Hjson. clear.
    change (jsonable shown_pose (nth 0 shown_values VNone)). do 5 (split; [vm_compute; done|]). split; [|by vm_compute].
    exists (map (fun c => [c]) (text_of "a/b")). split; [vm_compute; done|].
    cbn. do 3 (apply List.Forall_cons; [right; eexists; split; [reflexivity|vm_compute; reflexivity]|]). constructor.
Defined.
